(* ===== verification/_CoqProject ===== *)
-Q . S2P
Prelude.v
CLib.v
Trace.v
Slice.v
Order.v
KVStore.v
Neighbors.v
Count.v
PQueue.v
BasicAttack.v
LocalityAttack.v
Defense.v
BitText.v
Bloom.v
DList.v
LruCache.v
Container.v
Ddfs.v
Coding.v
FilterPolicy.v
DbFormat.v
InternalOrder.v
FileNames.v
Status.v
Files.v
StdSet.v
VersionEdit.v
Version.v
VersionBuilder.v
Arena.v
Crc32c.v
SkipList.v
WriteBatch.v
MemTable.v
LogFormat.v
VersionSet.v
Manifest.v
DbWrite.v
Iterators.v
Block.v
TableFormat.v
FilterBlock.v
Table.v
TableSpec.v
TableGet.v
VersionGet.v
Compaction.v
DbCompact.v
CompactionRun.v
Merger.v
TwoLevel.v
TableIter.v
TableCache.v
MemIter.v
FlushTable.v
Background.v
DbRead.v
DbOpen.v
DbRecover.v
DbExec.v
DbIter.v
VersionIter.v
Cache.v
CacheMem.v
Snapshots.v
CacheSpec.v
CacheRefine.v
