(* ===== verification/Prelude.v ===== *)
(** * Verification of freqanalysis

    The program studies frequency analysis of encrypted deduplication.  Its parts:

    - the attacks: [attack/basic] counts chunk fingerprints in a trace and matches two
      backups rank by rank; [attack/locality] also counts which chunks are neighbours
      and infers pairs from the neighbours of pairs;
    - the defenses: [defense/scrambling], [defense/minhash] and [defense/combined]
      rewrite a trace segment by segment so that the attacks work less well;
    - the prototype: [prototype/] is a deduplication engine with a Bloom filter, an LRU
      cache of fingerprints, a fingerprint index and containers on disk;
    - LevelDB ([util/leveldb]), vendored: the database under all of the tools.

    The tools exchange traces (text) and LevelDB databases: a defense's output is
    counted, the counts are attacked, and the engine stores the chunks.

    ** Files

    Prelude.v (this file): bytes, machine integers, the [outcome] monad, little-endian
    codecs, generic lemmas, tactics and hint databases.  CLib.v: the parts of the C
    library the tools call.  Trace.v: the trace format.

    The tools.  KVStore.v is the interface of a database to the tools, PQueue.v that of
    [std::priority_queue]; their laws leave open what the documentation leaves open
    (failing operations, the order of equal priorities).  Neighbors.v: packed neighbour
    lists.  Count.v: basic_count.cc and locality_count.cc.  BasicAttack.v:
    basic_attack.cc.  LocalityAttack.v: locality_attack.cc and locality_attack_e.cc.
    Defense.v: scrambling.cc, k_minhash.cc and combined.cc.

    The prototype.  BitText.v: bytes as text.  Bloom.v: bloom.c, MurmurHash2.c.
    DList.v: doubly linked lists on a heap.  LruCache.v: lrucache.cc.  Container.v:
    container_manager.cc, fp_index.cc.  Ddfs.v: ddfs.cc.

    LevelDB.  Slice.v, Coding.v, FilterPolicy.v, DbFormat.v, FileNames.v, Status.v,
    Arena.v, Crc32c.v, SkipList.v, WriteBatch.v, MemTable.v, LogFormat.v model the
    files of the same subjects (each names them), and DbWrite.v has the writer queue and
    the group commit of db_impl.cc.  Table files: Files.v
    has the file interfaces, Block.v block.cc and block_builder.cc, TableFormat.v
    format.cc, FilterBlock.v filter_block.cc, Table.v table_builder.cc and table.cc;
    TableSpec.v says what a table file holds and proves that the builder writes it and
    the reader finds it, TableGet.v closes lookups with the comparator of internal
    keys.  Versions: VersionEdit.v is version_edit.cc, and version_set.cc is divided into
    Version.v (searches among the files of a version), VersionBuilder.v ([Builder], with
    StdSet.v for [std::set]), VersionSet.v and Manifest.v ([LogAndApply], [Recover], and
    [NewDB] of db_impl.cc) and VersionGet.v ([Get], over any component that looks keys up
    in table files); InternalOrder.v has the order of internal keys.  TableCache.v is
    table_cache.cc, the component that looks keys up.  Iterators: Order.v has sorted lists
    of entries, Iterators.v the iterator class as an interface with the laws of a cursor,
    and iterator_wrapper.h; TwoLevel.v is two_level_iterator.cc, Merger.v merger.cc,
    TableIter.v and MemIter.v the iterators of tables and memtables, DbIter.v db_iter.cc.
    Each of them assumes of the
    iterators under it only the laws, and has them itself.  VersionIter.v has the iterators
    of version_set.cc and db_impl.cc, over a version, the inputs of a compaction and a
    whole database.  The rest of db_impl.cc: Compaction.v (with version_set.cc) chooses the
    inputs of a compaction, DbCompact.v merges them and CompactionRun.v says what the
    outputs hold; FlushTable.v (with builder.cc) writes a memtable as a table;
    Background.v makes room for writes, schedules both, keeps the threads that wait and
    deletes obsolete files; DbRead.v is [Get]; DbOpen.v is [DB::Open] with recovery, and
    DbRecover.v says what can be read after it; DbExec.v runs the writer queue with the
    switch of memtables and the flush, and says what reads and a recovery find; Snapshots.v
    is snapshot.h.  These use the file system, the
    version set and the table cache through the classes [CompactionEnv], [FlushEnv],
    [DbEnv], [OpenEnv] and [TableLookup], and in theorems through their laws.  Cache.v is
    cache.cc, CacheMem.v the lemmas on its memory (frames, the ring, the chains of the
    hash table), CacheSpec.v the abstract shard, CacheRefine.v the refinement.

    ** How the code is modelled

    A program's globals are a record, and each function is a definition on it that
    keeps the source's name where possible.  Code that can fail returns an [outcome]:
    [Ret] a result, [Exit] the exit code of a program that stops (134 for a failed
    assertion), [Undef] for undefined behaviour such as a read out of bounds.  Integers
    are [Z] with the wrap-around written out ([u32], [u64], [i32]); doubles are IEEE
    binary64 of the standard library.  [rand()], MD5, logarithms, addresses returned by
    [new], databases and files are parameters or interfaces, each with an instance.

    ** What the theorems show

    - Counting: the databases hold exactly the frequencies of the trace and, where
      locality_count.cc is defined, its neighbour counts, with neighbours cut at their
      first NUL.  Attacks: ranking and pairing are what the counts dictate; the inference
      loop of the locality attack terminates on every input the counting tools make,
      its counters count, and its rate is at most one.
    - Defenses: output is a well-formed trace; scrambling, when no product of
      random numbers overflows, permutes within segments and so keeps frequencies; MinHash encrypts each segment under its minimum.
    - Prototype: the filter has no false negatives and survives a save; the cache
      refines an abstract LRU list without memory errors; containers are read back as
      written; over any number of runs every chunk is stored exactly once.
    - LevelDB: codecs round trip, the table-driven CRC equals the bitwise one,
      allocations do not overlap, the skip list is a sorted set, the memtable reads as
      of any sequence number, the log yields a prefix of its records wherever it is
      cut.  Together: a failed sync stops the database, and every writer is served.
    - Tables: a block, and a table with any block size, compression, filter and cache,
      refines a cursor over the sorted entries it was built from; filters hide no key;
      lookups find the first entry that is not below their key.  The table reader uses
      the cache through the interface [BlockCache].
    - Iterators: the merging iterator is a cursor over the union of its children, the
      database's iterator a cursor over the values a reader sees at a sequence number,
      whichever sequence of calls moves them.
    - Versions: edits round trip and decoding never yields a level that does not exist;
      the builder's merge of edits is what applying them one by one gives; a file from a
      memtable never goes below overlapping data; the manifest survives a crash at any byte
      of the record being written, if no Append to it failed before; a lookup in a version finds the newest entry of all
      files at its sequence number, also through the table cache.
    - Compaction: it starts after the last one of its level and takes every overlapping
      file of the next level, and of level 0 (a file of a level above 0 that shares a
      boundary user key may be left, with an older entry that then hides the newer one);
      the outputs
      answer every read at a snapshot in use as the inputs did, and so does the version
      that a flushed memtable is added to; the oldest snapshot has the least number.
    - The database: a lookup searches memtables and version and finds the newest entry; its
      iterator shows the values at a snapshot; work that is left is always scheduled;
      a thread waits on [bg_cv_] only while a background call that will wake it is
      scheduled, or in a shutdown; only files that nothing needs are deleted.  Over
      executions with memtables that are switched and flushed, reads return what was
      acknowledged, and a crash loses at most a suffix of whole batches.
    - Opening: a directory in which no file has the number of a needed table is refused;
      otherwise exactly the logs
      that are needed are replayed, in order; a log, wherever it was cut, becomes tables or
      a memtable with the entries of a prefix of its batches, and lookups in the version
      with these tables find what they found in the batches and the old version together.
    - Cache: under any calls of well-behaved clients it returns what an abstract sharded
      LRU list with reference counts returns, frees every entry once and leaks none.

    Some theorems record where the code does not do what it means to, such as
    fingerprints with a NUL byte, full queues and unequal queues.

    ** Bounds and fuel

    A loop that is not structural takes fuel, computed from its input where it is
    called, and returns [Undef] or [None] when it runs out; every theorem above concludes that a
    result is returned, so the fuel is enough: the bytes left to read for the log, text,
    block and varint loops (each round consumes at least one), the size of the interval
    for the binary search, the number of nodes and levels
    for the skip list, the length of the heap for linked lists, and for the inference
    loop a count the termination theorem gives from the number of chunks, since each is
    inferred at most once.  The loops of a compaction and of a flush need more than the
    number of entries, a parameter of the definitions ([bfuel] in DbOpen.v, [fuel] in
    DbExec.v); an iterator
    over a level takes two rounds more than there are files; the replay of a log one more
    than the bytes of the file.  A table cache with a block cache has a budget of 2^64
    tables to open, the ids that the block cache has.

    ** Not modelled

    LevelDB's environment and bindings, its tools, and the repairer of repair.cc.  Threads:
    db_impl.cc is modelled as steps that run under its mutex.  A background call is one
    function, and its interleaving with other threads is modelled only for who waits and
    who is woken ([step] in Background.v splits it where it releases the mutex).  The
    executions of DbWrite.v have one memtable, those of DbExec.v switch and flush
    memtables but run no compaction of tables, which has its own theorems.  The condition
    variables of single writers, the memory barriers of the skip list, mutexes and clean-up
    functions are left out.  The reference counts of
    versions and files: the versions in use are a field of the environment.  Statistics and
    the info log.  The iterators of a version are instantiated with a table cache that has
    no block cache, since the ids of one bound the tables it opens.  fs-hasher, the
    third-party tool that makes the traces.  Output for the terminal beyond the traces and
    counters.  Copies of the same file in several directories are modelled once. *)

From Stdlib Require Export Strings.Byte ZArith Lia.
From stdpp Require Export prelude gmap sorting.

#[global] Open Scope Z_scope.

(** ** Bytes and machine integers *)

Abbreviation bytes := (list byte).

(** The value of an [unsigned char]. *)
Definition ub (b : byte) : Z := Z.of_N (Byte.to_N b).

(** The value of a (signed, x86) [char]. *)
Definition sb (b : byte) : Z := if ub b <? 128 then ub b else ub b - 256.

(** Conversion of an integer to [char]: the low eight bits. *)
Definition to_byte (z : Z) : byte :=
  match Byte.of_N (Z.to_N (z mod 256)) with Some b => b | None => x00 end.

(** Wrap-around at 32 and 64 bits; [int] is two's complement. *)
Definition u32 (z : Z) : Z := z mod 2 ^ 32.
Definition u64 (z : Z) : Z := z mod 2 ^ 64.
Definition i32 (z : Z) : Z := let u := z mod 2 ^ 32 in if u <? 2 ^ 31 then u else u - 2 ^ 32.
Definition i64 (z : Z) : Z := let u := z mod 2 ^ 64 in if u <? 2 ^ 63 then u else u - 2 ^ 64.

(** [sizeof(uint64_t)] and the fingerprint length shared by all tools. *)
Definition FP_SIZE : nat := 6.

(** ** Outcomes of a C++ computation

    [Ret] is a normal return, [Exit] a call of [exit] or a failed [assert],
    [Undef] a step the language leaves undefined (a null pointer passed to
    [atoi], [top()] of an empty queue, an index past the end of a string). *)
Inductive outcome (A : Type) : Type :=
| Ret (a : A)
| Exit (code : Z)
| Undef.
Arguments Ret {A} a.
Arguments Exit {A} code.
Arguments Undef {A}.

#[global] Instance outcome_ret : MRet outcome := fun A a => Ret a.
#[global] Instance outcome_bind : MBind outcome := fun A B f m =>
  match m with Ret a => f a | Exit c => Exit c | Undef => Undef end.

(** [assert(b)]: the program aborts when it fails. *)
Declare Scope outcome_scope.
Delimit Scope outcome_scope with outcome.
Notation "'assert!' b ; k" := (if b then k else Exit 134)
  (at level 200, b at level 100, k at level 200, right associativity) : outcome_scope.
#[global] Open Scope outcome_scope.

(** ** Tactics and databases

    [run] performs the binds of computations whose outcome is known; [zcases]
    splits on the integer comparisons of the goal; [lens] holds the lengths of list
    operations and [ranges] the ranges of machine integers. *)
Ltac run := cbn [mbind outcome_bind].

Ltac zcases :=
  repeat match goal with
         | |- context [(?x =? ?y)%Z] => destruct (Z.eqb_spec x y)
         | |- context [(?x <? ?y)%Z] => destruct (Z.ltb_spec x y)
         end.

Create HintDb lens.
#[export] Hint Rewrite @length_app @length_take @length_drop @length_replicate @length_insert @length_fmap : lens.

Create HintDb ranges.

Ltac len := autorewrite with lens; cbn [length]; lia.

(** Iterate an effectful step over a list, left to right. *)
Fixpoint foldM {A S} (f : A -> S -> outcome S) (l : list A) (s : S) : outcome S :=
  match l with
  | [] => Ret s
  | x :: l' => s' ← f x s; foldM f l' s'
  end.

(** ** Memory comparison *)

(** [memcmp(a, b, n)] on two buffers of at least [n] bytes: the difference of
    the first two unsigned bytes that differ. *)
Fixpoint memcmp (n : nat) (a b : bytes) : Z :=
  match n, a, b with
  | S n', x :: a', y :: b' =>
      if ub x =? ub y then memcmp n' a' b' else ub x - ub y
  | _, _, _ => 0
  end.

(** [strncmp(a, b, n)]: as [memcmp], but stops after a common NUL. *)
Fixpoint strncmp (n : nat) (a b : bytes) : Z :=
  match n, a, b with
  | S n', x :: a', y :: b' =>
      if ub x =? ub y
      then (if ub x =? 0 then 0 else strncmp n' a' b')
      else ub x - ub y
  | _, _, _ => 0
  end.

(** The C string stored in a buffer: its bytes up to the first NUL. *)
Fixpoint cstr (s : bytes) : bytes :=
  match s with
  | [] => []
  | b :: s' => if ub b =? 0 then [] else b :: cstr s'
  end.

(** [std::string::resize(n)]: truncate, or pad with NUL bytes. *)
Definition str_resize (n : nat) (s : bytes) : bytes :=
  take n s ++ replicate (n - length s) x00.

(** A fingerprint in which no byte is zero. *)
Definition nul_free (s : bytes) : Prop := Forall (fun b => b <> x00) s.

(** ** Little-endian integers in memory *)

Fixpoint le_split (n : nat) (v : Z) : bytes :=
  match n with
  | O => []
  | S n' => to_byte v :: le_split n' (v / 256)
  end.

Fixpoint le_combine (s : bytes) : Z :=
  match s with
  | [] => 0
  | b :: s' => ub b + 256 * le_combine s'
  end.

(** ** Byte lemmas *)

Lemma ub_range b : 0 <= ub b < 256.
Proof. unfold ub. pose proof (Byte.to_N_bounded b). lia. Qed.

Lemma to_byte_ub b : to_byte (ub b) = b.
Proof.
  unfold to_byte. rewrite Z.mod_small by apply ub_range.
  unfold ub. rewrite N2Z.id, Byte.of_to_N. done.
Qed.

Lemma ub_to_byte z : ub (to_byte z) = z mod 256.
Proof.
  unfold to_byte, ub. pose proof (Z.mod_pos_bound z 256 ltac:(lia)).
  destruct (Byte.of_N (Z.to_N (z mod 256))) as [b|] eqn:E.
  - apply Byte.to_of_N in E. rewrite E. lia.
  - apply Byte.of_N_None_iff in E. lia.
Qed.

Lemma ub_to_byte_small z : 0 <= z < 256 -> ub (to_byte z) = z.
Proof. intros. rewrite ub_to_byte. apply Z.mod_small. lia. Qed.

#[global] Instance ub_inj : Inj (=) (=) ub.
Proof. intros a b H. rewrite <- (to_byte_ub a), <- (to_byte_ub b). by f_equal. Qed.

Lemma ub_eqb a b : (ub a =? ub b) = true <-> a = b.
Proof. rewrite Z.eqb_eq. split; [apply (inj ub) | congruence]. Qed.

Lemma ub_zero b : ub b = 0 <-> b = x00.
Proof. split; [|by intros ->]. intros H. apply (inj ub). by rewrite H. Qed.

Lemma elem_of_concat {A} (x : A) (l : list (list A)) : x ∈ concat l <-> exists k, k ∈ l /\ x ∈ k.
Proof. rewrite list_elem_of_In, in_concat. by setoid_rewrite <- list_elem_of_In. Qed.

Lemma filter_iff_in {A} (P Q : A -> Prop) `{!forall x, Decision (P x), !forall x, Decision (Q x)} (l : list A) :
  (forall x, x ∈ l -> P x <-> Q x) -> filter P l = filter Q l.
Proof.
  induction l as [|x l IH]; intros Hl; [done|]. rewrite !filter_cons, IH by (intros y Hy; apply Hl; by right). pose proof (Hl x ltac:(by left)). repeat case_decide; naive_solver.
Qed.

Lemma strongly_sorted_filter {A} (R : A -> A -> Prop) (P : A -> Prop) `{!forall x, Decision (P x)} (l : list A) : StronglySorted R l -> StronglySorted R (filter P l).
Proof.
  induction 1 as [|x l _ IH Hx]; [constructor|]. rewrite filter_cons. case_decide; [|done]. constructor; [done|]. rewrite Forall_forall in *. intros y [_ Hy]%list_elem_of_filter. by apply Hx.
Qed.

Lemma submseteq_nodup {A} (l k : list A) : NoDup k -> l ⊆+ k -> NoDup l.
Proof. intros Hk [l' Hl]%submseteq_Permutation. rewrite Hl in Hk. by apply NoDup_app in Hk as (? & _ & _). Qed.

(** Counting with boolean tests. *)
Lemma count_le {A} (p q : A -> bool) (l : list A) : (forall y, q y = true -> p y = true) -> (length (List.filter q l) <= length (List.filter p l))%nat.
Proof.
  intros H. induction l as [|y l IH]; [done|]. cbn. destruct (q y) eqn:E; [rewrite (H y E); cbn; lia|]. destruct (p y); cbn; lia.
Qed.

Lemma count_lt {A} (p q : A -> bool) (l : list A) x : (forall y, q y = true -> p y = true) -> x ∈ l -> p x = true -> q x = false ->
  (length (List.filter q l) < length (List.filter p l))%nat.
Proof.
  intros H Hx Hp Hq. induction l as [|y l IH]; [by apply not_elem_of_nil in Hx|]. cbn. apply elem_of_cons in Hx as [->|Hx].
  - rewrite Hp, Hq. pose proof (count_le p q l H). cbn. lia.
  - specialize (IH Hx). destruct (q y) eqn:E; [rewrite (H y E); cbn; lia|]. destruct (p y); cbn; lia.
Qed.

#[global] Instance byte_eq_dec : EqDecision byte.
Proof. intros a b. destruct (Byte.byte_eq_dec a b); [by left | by right]. Defined.

#[global] Program Instance byte_countable : Countable byte :=
  inj_countable Byte.to_N Byte.of_N _.
Next Obligation. intros b. apply Byte.of_to_N. Qed.

(** ** Integer ranges *)

Lemma u32_range z : 0 <= u32 z < 2 ^ 32.
Proof. apply Z.mod_pos_bound. lia. Qed.

Lemma u64_range z : 0 <= u64 z < 2 ^ 64.
Proof. apply Z.mod_pos_bound. lia. Qed.

#[export] Hint Resolve ub_range u32_range u64_range : ranges.

Lemma u32_small z : 0 <= z < 2 ^ 32 -> u32 z = z.
Proof. intros. by apply Z.mod_small. Qed.

Lemma u64_small z : 0 <= z < 2 ^ 64 -> u64 z = z.
Proof. intros. by apply Z.mod_small. Qed.

Lemma u64_add_l a b : u64 (u64 a + b) = u64 (a + b).
Proof. unfold u64. by rewrite Zplus_mod_idemp_l. Qed.

Lemma i32_small z : - 2 ^ 31 <= z < 2 ^ 31 -> i32 z = z.
Proof.
  intros. unfold i32. destruct (Z_lt_ge_dec z 0).
  - rewrite <- (Z.mod_add z 1), Z.mod_small by lia. case (Z.ltb_spec); lia.
  - rewrite Z.mod_small by lia. case (Z.ltb_spec); lia.
Qed.

Lemma lxor_range n a b : 0 <= n -> 0 <= a < 2 ^ n -> 0 <= b < 2 ^ n -> 0 <= Z.lxor a b < 2 ^ n.
Proof.
  intros Hn Ha Hb. assert (0 <= Z.lxor a b) as Hp by (apply Z.lxor_nonneg; lia). split; [done|].
  assert (Z.lxor a b mod 2 ^ n = Z.lxor a b) as <-; [|apply Z.mod_pos_bound, Z.pow_pos_nonneg; lia].
  rewrite <- Z.land_ones by done. apply Z.bits_inj'. intros i Hi. rewrite Z.land_spec, Z.lxor_spec.
  destruct (Z.ltb_spec i n); [rewrite Z.ones_spec_low by lia; by rewrite andb_true_r|].
  rewrite Z.ones_spec_high by lia. rewrite andb_false_r.
  rewrite <- (Z.mod_small a (2 ^ n)), <- (Z.mod_small b (2 ^ n)) by done. by rewrite !Z.mod_pow2_bits_high by lia.
Qed.

(** ** Outcomes *)

Lemma bind_Ret {A B} (m : outcome A) (f : A -> outcome B) b :
  (m ≫= f) = Ret b <-> exists a, m = Ret a /\ f a = Ret b.
Proof. destruct m; cbn; naive_solver. Qed.

Lemma bind_assoc {A B C} (m : outcome A) (f : A -> outcome B) (g : B -> outcome C) :
  (x ← m; y ← f x; g y) = (y ← (x ← m; f x); g y).
Proof. by destruct m. Qed.

(** A computation returns a value with a property: both sides evaluate. *)
Lemma ret_sat {A} (m : outcome A) (P : A -> Prop) :
  match m with Ret a => P a | _ => False end -> exists a, m = Ret a /\ P a.
Proof. destruct m; [by eauto|done..]. Qed.

Lemma foldM_app {A S} (f : A -> S -> outcome S) l1 l2 s :
  foldM f (l1 ++ l2) s = foldM f l1 s ≫= foldM f l2.
Proof.
  revert s. induction l1 as [|x l1 IH]; intros s; [done|].
  cbn. destruct (f x s); cbn; auto.
Qed.

Lemma foldM_inv {A S} (P : S -> Prop) (f : A -> S -> outcome S) l s s' :
  (forall x t t', x ∈ l -> P t -> f x t = Ret t' -> P t') ->
  P s -> foldM f l s = Ret s' -> P s'.
Proof.
  revert s. induction l as [|x l IH]; intros s Hf Hs; cbn.
  - by intros [= <-].
  - intros (t & Ht & Hl)%bind_Ret. eapply IH; [| |exact Hl].
    + intros. eapply Hf; eauto. by right.
    + eapply Hf; eauto. by left.
Qed.

(** ** Comparison functions *)

Lemma memcmp_refl n a : memcmp n a a = 0.
Proof. revert a. induction n as [|n IH]; intros [|x a]; cbn; auto. by rewrite Z.eqb_refl. Qed.

Lemma memcmp_eq n a b :
  length a = n -> length b = n -> memcmp n a b = 0 <-> a = b.
Proof.
  revert a b. induction n as [|n IH]; intros [|x a] [|y b]; cbn; try done.
  intros [= Ha] [= Hb]. destruct (Z.eqb_spec (ub x) (ub y)) as [E|E].
  - apply (inj ub) in E. subst. rewrite IH by done. naive_solver.
  - split; [lia|naive_solver].
Qed.

Lemma strncmp_refl n a : strncmp n a a = 0.
Proof.
  revert a. induction n as [|n IH]; intros [|x a]; cbn; auto.
  rewrite Z.eqb_refl. by destruct (ub x =? 0).
Qed.

Lemma strncmp_nul_free n a b :
  nul_free a -> length a = n -> length b = n -> strncmp n a b = 0 <-> a = b.
Proof.
  intros Hz. revert n b. induction Hz as [|x a Hx Ha IH]; intros [|n] [|y b]; cbn; try done.
  intros [= La] [= Lb]. destruct (Z.eqb_spec (ub x) (ub y)) as [E|E].
  - apply (inj ub) in E as <-.
    destruct (Z.eqb_spec (ub x) 0) as [E0|_]; [by apply ub_zero in E0|].
    rewrite IH by done. naive_solver.
  - split; [lia|naive_solver].
Qed.

Lemma strncmp_sym n a b : strncmp n a b = 0 -> strncmp n b a = 0.
Proof.
  revert a b. induction n as [|n IH]; intros [|x a] [|y b]; cbn; auto.
  rewrite (Z.eqb_sym (ub y)). destruct (Z.eqb_spec (ub x) (ub y)) as [->|E]; [|lia].
  destruct (ub y =? 0); auto.
Qed.

Lemma strncmp_trans n a b c :
  length a = n -> length b = n -> length c = n ->
  strncmp n a b = 0 -> strncmp n b c = 0 -> strncmp n a c = 0.
Proof.
  revert a b c. induction n as [|n IH]; intros [|x a] [|y b] [|z c]; cbn; try done.
  intros [= ?] [= ?] [= ?].
  destruct (Z.eqb_spec (ub x) (ub y)) as [->|E]; [|lia].
  destruct (Z.eqb_spec (ub y) (ub z)) as [->|E]; [|lia].
  destruct (ub z =? 0); eauto.
Qed.

(** ** C strings *)

Lemma cstr_nul_free s t : nul_free s -> cstr (s ++ t) = s ++ cstr t.
Proof.
  induction 1 as [|b s Hb _ IH]; cbn; [done|].
  destruct (Z.eqb_spec (ub b) 0) as [E|_]; [by apply ub_zero in E|]. by rewrite IH.
Qed.

Lemma cstr_nul_free_id s : nul_free s -> cstr s = s.
Proof. intros H. rewrite <- (app_nil_r s) at 1. rewrite cstr_nul_free by done. by rewrite app_nil_r. Qed.

Lemma str_resize_length n s : length (str_resize n s) = n.
Proof. unfold str_resize. rewrite length_app, length_take, length_replicate. lia. Qed.

Lemma str_resize_prefix n s t : length s = n -> str_resize n (s ++ t) = s.
Proof.
  intros <-. unfold str_resize. rewrite take_app_length.
  rewrite length_app. replace (length s - (length s + length t))%nat with 0%nat by lia.
  apply app_nil_r.
Qed.

(** ** Little-endian integers *)

Lemma le_split_length n v : length (le_split n v) = n.
Proof. revert v. induction n; intros; cbn; auto. Qed.

#[export] Hint Rewrite le_split_length : lens.

Lemma le_combine_range s : 0 <= le_combine s < 256 ^ Z.of_nat (length s).
Proof.
  induction s as [|b s IH]; cbn [le_combine length]; [lia|].
  rewrite Nat2Z.inj_succ, Z.pow_succ_r by lia. pose proof (ub_range b). nia.
Qed.

Lemma le_combine_split n v : le_combine (le_split n v) = v mod 256 ^ Z.of_nat n.
Proof.
  revert v. induction n as [|n IH]; intros v; cbn [le_split le_combine].
  - by rewrite Z.mod_1_r.
  - rewrite IH, ub_to_byte, Nat2Z.inj_succ, Z.pow_succ_r by lia.
    rewrite Z.rem_mul_r by lia. lia.
Qed.

Lemma le_split_combine s : le_split (length s) (le_combine s) = s.
Proof.
  induction s as [|b s IH]; cbn [le_split le_combine length]; [done|].
  pose proof (ub_range b). f_equal.
  - rewrite <- (to_byte_ub b) at 2. unfold to_byte. do 3 f_equal.
    rewrite <- Z.add_mod_idemp_r, Z.mul_comm, Z.mod_mul, Z.add_0_r by lia. done.
  - rewrite Z.mul_comm, Z.div_add, Z.div_small, Z.add_0_l by lia. done.
Qed.

(** The fixed-width encodings used by every database value round trip. *)
Lemma le64_roundtrip v : 0 <= v < 2 ^ 64 -> le_combine (le_split 8 v) = v.
Proof. intros. rewrite le_combine_split. apply Z.mod_small. done. Qed.

Lemma le32_roundtrip v : 0 <= v < 2 ^ 32 -> le_combine (le_split 4 v) = v.
Proof. intros. rewrite le_combine_split. apply Z.mod_small. done. Qed.

(** Filters that keep everything or nothing. *)
Lemma filter_all {A} (P : A -> Prop) `{forall x, Decision (P x)} (l : list A) : (forall x, x ∈ l -> P x) -> filter P l = l.
Proof.
  intros Hl. induction l as [|x l IH]; [done|]. rewrite filter_cons, decide_True by (apply Hl; by left).
  f_equal. apply IH. intros y Hy. apply Hl. by right.
Qed.

Lemma filter_none {A} (P : A -> Prop) `{forall x, Decision (P x)} (l : list A) : (forall x, x ∈ l -> ~ P x) -> filter P l = [].
Proof.
  intros Hl. induction l as [|x l IH]; [done|]. rewrite filter_cons, decide_False by (apply Hl; by left).
  apply IH. intros y Hy. apply Hl. by right.
Qed.

(** A NUL-free fingerprint for examples. *)
Definition sample_key (n : Z) : bytes := [to_byte n; x02; x03; x04; x05; x06].

#[global] Arguments le_split : simpl never.
#[global] Arguments le_combine : simpl never.
#[global] Arguments u32 : simpl never.
#[global] Arguments u64 : simpl never.
#[global] Arguments i32 : simpl never.
