(* ===== verification/CLib.v ===== *)
(** * The parts of the C library the tools call

    [fgets], [strpbrk], [strtok], [strtol], [atoi] and the three [printf]
    conversions ([%.2hhx], [%02x] and [%lu]/[PRIu64]) that the trace readers and writers of
    attack/, defense/ and prototype/ use, on byte lists.  A C string is a byte
    list without its terminating NUL. *)

From S2P Require Import Prelude.

(** ** Character classes *)

Definition is_digit (b : byte) : bool := (48 <=? ub b) && (ub b <=? 57).

(** [isspace] in the C locale: space, \t \n \v \f \r. *)
Definition is_space (b : byte) : bool := (ub b =? 32) || ((9 <=? ub b) && (ub b <=? 13)).

(** The value of a digit in the given base ([0-9a-zA-Z]), if it is one. *)
Definition digit_val (base : Z) (b : byte) : option Z :=
  let v :=
    if is_digit b then ub b - 48
    else if (97 <=? ub b) && (ub b <=? 122) then ub b - 87
    else if (65 <=? ub b) && (ub b <=? 90) then ub b - 55
    else base in
  if v <? base then Some v else None.

(** ** Reading lines *)

(** One [fgets(buf, n + 1, fp)]: at most [n] bytes, up to and including a
    newline; [None] at end of file. *)
Fixpoint fgets_go (n : nat) (s : bytes) : bytes * bytes :=
  match n, s with
  | S n', b :: s' =>
      if ub b =? 10 then ([b], s')
      else let '(l, r) := fgets_go n' s' in (b :: l, r)
  | _, _ => ([], s)
  end.

Definition fgets (size : nat) (s : bytes) : option (bytes * bytes) :=
  match s with
  | [] => None
  | _ => Some (fgets_go (size - 1) s)
  end.

(** All the buffers a [while (fgets(read_buffer, 256, fp))] loop sees.  Every
    call consumes at least one byte, so the length of the file is enough fuel. *)
Fixpoint fgets_lines (fuel : nat) (s : bytes) : list bytes :=
  match fuel with
  | O => []
  | S fuel' =>
      match fgets 256 s with
      | None => []
      | Some (l, r) => cstr l :: fgets_lines fuel' r
      end
  end.

Definition file_lines (s : bytes) : list bytes := fgets_lines (length s) s.

(** ** Searching and tokenizing *)

Definition mem_byte (b : byte) (set : bytes) : bool := bool_decide (b ∈ set).

(** [strpbrk(s, accept) != NULL] *)
Definition strpbrk (s accept : bytes) : bool := existsb (fun b => mem_byte b accept) s.

(** Skip leading delimiters. *)
Fixpoint skip_delims (delims s : bytes) : bytes :=
  match s with
  | b :: s' => if mem_byte b delims then skip_delims delims s' else s
  | [] => []
  end.

(** A maximal run of non-delimiters, and what follows the delimiter after it. *)
Fixpoint span_token (delims s : bytes) : bytes * bytes :=
  match s with
  | b :: s' =>
      if mem_byte b delims then ([], s')
      else let '(t, r) := span_token delims s' in (b :: t, r)
  | [] => ([], [])
  end.

(** [strtok(s, delims)]: the next token and the saved position, [None] for a
    NULL result. *)
Definition strtok (delims s : bytes) : option (bytes * bytes) :=
  match skip_delims delims s with
  | [] => None
  | s' => Some (span_token delims s')
  end.

(** ** Numbers *)

(** The value of the longest run of digits, most significant first. *)
Fixpoint digits_val (base : Z) (s : bytes) (acc : Z) : Z :=
  match s with
  | b :: s' =>
      match digit_val base b with
      | Some d => digits_val base s' (acc * base + d)
      | None => acc
      end
  | [] => acc
  end.

Fixpoint skip_space (s : bytes) : bytes :=
  match s with
  | b :: s' => if is_space b then skip_space s' else s
  | [] => []
  end.

(** An optional [0x] in base 16, taken only when a hexadecimal digit follows. *)
Definition skip_0x (base : Z) (s : bytes) : bytes :=
  match s with
  | b0 :: b1 :: b2 :: s' =>
      if (base =? 16) && (ub b0 =? 48) && ((ub b1 =? 120) || (ub b1 =? 88))
         && bool_decide (is_Some (digit_val 16 b2))
      then b2 :: s' else s
  | _ => s
  end.

Definition clamp_long (z : Z) : Z := Z.max (- 2 ^ 63) (Z.min (2 ^ 63 - 1) z).

(** [strtol(s, NULL, base)]: white space, a sign, digits; saturates. *)
Definition strtol (base : Z) (s : bytes) : Z :=
  let s := skip_space s in
  let '(neg, s) :=
    match s with
    | b :: s' => if ub b =? 45 then (true, s') else if ub b =? 43 then (false, s') else (false, s)
    | [] => (false, s)
    end in
  let v := digits_val base (skip_0x base s) 0 in
  clamp_long (if neg : bool then - v else v).

(** [atoi(s)]: the [long] converted to [int]; a null pointer is undefined. *)
Definition atoi (s : option bytes) : outcome Z :=
  match s with
  | Some s => Ret (i32 (strtol 10 s))
  | None => Undef
  end.

(** ** Printing *)

Definition hex_digit (v : Z) : byte := to_byte (if v <? 10 then 48 + v else 87 + v).

(** [printf("%.2hhx", c)] and [printf("%02x", (unsigned char)c)] *)
Definition print_hhx (b : byte) : bytes := [hex_digit (ub b / 16); hex_digit (ub b mod 16)].

Fixpoint print_dec_go (fuel : nat) (v : Z) (acc : bytes) : bytes :=
  match fuel with
  | O => acc
  | S fuel' =>
      let acc := to_byte (48 + v mod 10) :: acc in
      if v / 10 =? 0 then acc else print_dec_go fuel' (v / 10) acc
  end.

(** [printf("%lu", v)] for a [uint64_t]: at most twenty digits. *)
Definition print_dec (v : Z) : bytes := print_dec_go 20 v [].

(** ** Lemmas on reading lines *)

Lemma fgets_go_app n s : fgets_go n s = (fst (fgets_go n s), snd (fgets_go n s)) /\
  fst (fgets_go n s) ++ snd (fgets_go n s) = s.
Proof.
  split; [by destruct (fgets_go n s)|].
  revert s. induction n as [|n IH]; intros [|b s]; cbn; [done..|].
  destruct (ub b =? 10); [done|]. specialize (IH s).
  destruct (fgets_go n s); cbn in *. by rewrite IH.
Qed.

(** A line that fits the buffer is read whole. *)
Lemma fgets_go_line n l r :
  Forall (fun b => ub b <> 10) l -> (length l < n)%nat ->
  fgets_go n (l ++ x0a :: r) = (l ++ [x0a], r).
Proof.
  intros Hl. revert n. induction Hl as [|b l Hb Hl IH]; intros n Hn.
  - destruct n; [cbn in *; lia|]. done.
  - destruct n; [cbn in *; lia|]. cbn. rewrite (proj2 (Z.eqb_neq _ _) Hb).
    rewrite IH by (cbn in *; lia). done.
Qed.

Lemma fgets_go_progress n b s : fst (fgets_go (S n) (b :: s)) <> [].
Proof. cbn. destruct (ub b =? 10); [done|]. by destruct (fgets_go n s). Qed.

Lemma fgets_lines_fuel f1 f2 s :
  (length s <= f1)%nat -> (length s <= f2)%nat -> fgets_lines f1 s = fgets_lines f2 s.
Proof.
  revert f2 s. induction f1 as [|f1 IH]; intros [|f2] [|b s]; try done; cbn -[fgets_go];
    try (cbn; lia). intros.
  pose proof (fgets_go_app 255 (b :: s)) as [E Ha].
  destruct (fgets_go 255 (b :: s)) as [l r] eqn:G. cbn in E, Ha.
  assert (length r <= length s)%nat as Hr.
  { pose proof (fgets_go_progress 254 b s) as Hl. rewrite G in Hl. cbn in Hl.
    apply (f_equal length) in Ha. rewrite length_app in Ha. destruct l; [done|]. cbn in Ha. lia. }
  cbn. by rewrite (IH f2 r) by lia.
Qed.

(** A complete line followed by the rest of the file. *)
Lemma file_lines_cons l r :
  Forall (fun b => ub b <> 10) l -> nul_free l -> (length l < 255)%nat ->
  file_lines (l ++ x0a :: r) = (l ++ [x0a]) :: file_lines r.
Proof.
  intros Hn Hz Hlen. unfold file_lines.
  assert (exists k, length (l ++ x0a :: r) = S k /\ (length r <= k)%nat) as (k & -> & Hk).
  { exists (length l + length r)%nat. rewrite length_app. cbn. lia. }
  cbn [fgets_lines]. unfold fgets.
  destruct (l ++ x0a :: r) as [|b s] eqn:E; [by destruct l|]. rewrite <- E.
  rewrite (fgets_go_line (256 - 1) l r Hn) by lia.
  rewrite cstr_nul_free by done. f_equal. by apply fgets_lines_fuel.
Qed.

(** ** Lemmas on tokens *)

Lemma span_token_nodelim delims t d r :
  Forall (fun b => b ∉ delims) t -> d ∈ delims ->
  span_token delims (t ++ d :: r) = (t, r).
Proof.
  intros Ht Hd. induction Ht as [|b t Hb _ IH]; cbn; unfold mem_byte.
  - by rewrite bool_decide_eq_true_2.
  - rewrite bool_decide_eq_false_2 by done. by rewrite IH.
Qed.

Lemma skip_delims_run delims ds s b :
  Forall (fun b => b ∈ delims) ds -> b ∉ delims ->
  skip_delims delims (ds ++ b :: s) = b :: s.
Proof.
  intros Hd Hb. induction Hd as [|c ds Hc _ IH]; cbn; unfold mem_byte.
  - by rewrite bool_decide_eq_false_2.
  - by rewrite bool_decide_eq_true_2.
Qed.

(** The next token after a run of delimiters. *)
Lemma strtok_token delims ds t d r :
  Forall (fun b => b ∈ delims) ds -> t <> [] -> Forall (fun b => b ∉ delims) t ->
  d ∈ delims -> strtok delims (ds ++ t ++ d :: r) = Some (t, r).
Proof.
  intros Hds Ht Hf Hd. unfold strtok. destruct t as [|b t]; [done|].
  cbn [app]. pose proof (Forall_inv Hf) as Hb.
  rewrite skip_delims_run by done. f_equal.
  by apply (span_token_nodelim delims (b :: t)).
Qed.

(** ** Lemmas on numbers *)

Lemma hex_digit_ub v : 0 <= v < 16 -> ub (hex_digit v) = if v <? 10 then 48 + v else 87 + v.
Proof. intros. unfold hex_digit. apply ub_to_byte_small. case (Z.ltb_spec v 10); lia. Qed.

Lemma digit_val_hex v : 0 <= v < 16 -> digit_val 16 (hex_digit v) = Some v.
Proof.
  intros. unfold digit_val, is_digit. rewrite hex_digit_ub by lia.
  destruct (Z.ltb_spec v 10).
  - replace ((48 <=? 48 + v) && (48 + v <=? 57)) with true by (symmetry; lia).
    replace (48 + v - 48) with v by lia. by rewrite (proj2 (Z.ltb_lt _ _)) by lia.
  - replace ((48 <=? 87 + v) && (87 + v <=? 57)) with false by (symmetry; lia).
    replace ((97 <=? 87 + v) && (87 + v <=? 122)) with true by (symmetry; lia).
    replace (87 + v - 87) with v by lia. by rewrite (proj2 (Z.ltb_lt _ _)) by lia.
Qed.

(** Two printed hexadecimal digits read back as the byte. *)
Lemma strtol_print_hhx b : strtol 16 (print_hhx b) = ub b.
Proof. destruct b; vm_compute; reflexivity. Qed.

Lemma digit_val_dec v : 0 <= v < 10 -> digit_val 10 (to_byte (48 + v)) = Some v.
Proof.
  intros. unfold digit_val, is_digit. rewrite ub_to_byte_small by lia.
  replace ((48 <=? 48 + v) && (48 + v <=? 57)) with true by (symmetry; lia).
  replace (48 + v - 48) with v by lia. by rewrite (proj2 (Z.ltb_lt _ _)) by lia.
Qed.

Lemma print_dec_go_val fuel v acc a0 :
  0 <= v < 10 ^ Z.of_nat fuel -> (0 < fuel)%nat ->
  digits_val 10 (print_dec_go fuel v acc) a0 =
    digits_val 10 acc (a0 * 10 ^ Z.of_nat (length (print_dec_go fuel v acc) - length acc) + v).
Proof.
  revert v acc. induction fuel as [|fuel IH]; intros v acc Hv Hf; [lia|]. cbn [print_dec_go].
  rewrite Nat2Z.inj_succ, Z.pow_succ_r in Hv by lia.
  pose proof (Z.mod_pos_bound v 10 ltac:(lia)). pose proof (Z.div_mod v 10 ltac:(lia)).
  destruct (Z.eqb_spec (v / 10) 0) as [E|E].
  - cbn [digits_val length]. rewrite digit_val_dec by lia.
    f_equal. replace (S (length acc) - length acc)%nat with 1%nat by lia. lia.
  - assert (0 < v / 10) by (pose proof (Z.div_pos v 10 ltac:(lia) ltac:(lia)); lia).
    assert (0 < fuel)%nat by (destruct fuel; [change (10 ^ Z.of_nat 0) with 1 in Hv; lia|lia]).
    rewrite IH by (try split; try lia; apply Z.div_lt_upper_bound; lia).
    cbn [digits_val]. rewrite digit_val_dec by lia.
    set (n := length (print_dec_go fuel (v / 10) (to_byte (48 + v mod 10) :: acc))).
    assert (length (to_byte (48 + v mod 10) :: acc) <= n)%nat as Hn.
    { subst n. clear. generalize (v / 10) (to_byte (48 + v mod 10) :: acc).
      induction fuel as [|fuel IH]; intros w a; cbn [print_dec_go]; [lia|].
      destruct (w / 10 =? 0); [cbn; lia|]. etrans; [|apply IH]. cbn; lia. }
    cbn [length] in *. f_equal.
    replace (n - length acc)%nat with (S (n - S (length acc))) by lia.
    rewrite Nat2Z.inj_succ, Z.pow_succ_r by lia. lia.
Qed.

Lemma print_dec_go_digits fuel v acc :
  0 <= v -> Forall (fun b => is_digit b = true) acc ->
  Forall (fun b => is_digit b = true) (print_dec_go fuel v acc).
Proof.
  revert v acc. induction fuel as [|fuel IH]; intros v acc Hv Ha; cbn [print_dec_go]; [done|].
  assert (is_digit (to_byte (48 + v mod 10)) = true).
  { unfold is_digit. pose proof (Z.mod_pos_bound v 10 ltac:(lia)).
    rewrite ub_to_byte_small by lia. lia. }
  destruct (v / 10 =? 0); [by constructor|]. apply IH; [|by constructor].
  by apply Z.div_pos.
Qed.

Lemma print_dec_go_length fuel v acc :
  (length acc < length (print_dec_go (S fuel) v acc) <= S fuel + length acc)%nat.
Proof.
  revert v acc. induction fuel as [|fuel IH]; intros v acc; cbn [print_dec_go].
  - destruct (v / 10 =? 0); cbn; lia.
  - destruct (v / 10 =? 0); [cbn; lia|].
    specialize (IH (v / 10) (to_byte (48 + v mod 10) :: acc)). cbn [length print_dec_go] in *. lia.
Qed.

Lemma print_dec_digits v : 0 <= v -> Forall (fun b => is_digit b = true) (print_dec v).
Proof. intros. by apply print_dec_go_digits. Qed.

Lemma print_dec_length v : (0 < length (print_dec v) <= 20)%nat.
Proof. pose proof (print_dec_go_length 19 v []). cbn [length] in *. unfold print_dec. lia. Qed.

Lemma print_dec_val v : 0 <= v < 2 ^ 64 -> digits_val 10 (print_dec v) 0 = v.
Proof.
  intros. unfold print_dec. rewrite print_dec_go_val by lia. cbn [digits_val]. lia.
Qed.

Lemma digits_val_stop base s b t acc :
  digit_val base b = None ->
  digits_val base (s ++ b :: t) acc = digits_val base s acc.
Proof.
  intros Hb. revert acc. induction s as [|c s IH]; intros acc; cbn.
  - by rewrite Hb.
  - destruct (digit_val base c); auto.
Qed.

(** A printed size followed by a space reads back as the size. *)
Lemma atoi_print_dec v :
  0 <= v < 2 ^ 31 -> atoi (Some (print_dec v ++ [x20])) = Ret v.
Proof.
  intros Hv. pose proof (print_dec_digits v ltac:(lia)) as Hd.
  pose proof (print_dec_val v ltac:(lia)) as Hval. pose proof (print_dec_length v) as Hl.
  unfold atoi, strtol. destruct (print_dec v) as [|b s] eqn:E; [cbn in Hl; lia|].
  pose proof (Forall_inv Hd) as Hb. cbn [app skip_space].
  assert (48 <= ub b <= 57) as Hr by (unfold is_digit in Hb; lia).
  replace (is_space b) with false by (unfold is_space; lia).
  replace (ub b =? 45) with false by lia. replace (ub b =? 43) with false by lia.
  assert (skip_0x 10 (b :: s ++ [x20]) = b :: s ++ [x20]) as ->.
  { unfold skip_0x. destruct (s ++ [x20]) as [|b1 [|b2 t]]; done. }
  rewrite app_comm_cons, digits_val_stop, Hval by done.
  unfold clamp_long. rewrite Z.min_r, Z.max_r by lia. by rewrite i32_small by lia.
Qed.

#[global] Arguments print_hhx : simpl never.
#[global] Arguments print_dec : simpl never.
#[global] Arguments fgets_go : simpl never.
#[global] Arguments strtol : simpl never.
