(* ===== verification/Trace.v ===== *)
(** * The chunk-trace format

    Every tool reads a trace with the same [read_hashes] loop: one chunk per
    line, six colon-separated hexadecimal bytes and a size, title lines
    skipped.  The defense tools print their result in the same format, so that
    the counting tools can read it.  This file holds the reader's line parser,
    the printer, and the round trip between them. *)

From S2P Require Import Prelude CLib.

(** A chunk: its fingerprint and its size in bytes ([struct node] of the
    defense tools). *)
Record chunk := Chunk { key : bytes; size : Z }.

#[global] Instance chunk_eq_dec : EqDecision chunk.
Proof. solve_decision. Defined.

(** ":\t\n " and ":\t\n", the delimiters of the first and the later tokens. *)
Definition delims_first : bytes := [x3a; x09; x0a; x20].
Definition delims_next : bytes := [x3a; x09; x0a].

(** "Chunk", the accept set of the title-line test. *)
Definition title_set : bytes := [x43; x68; x75; x6e; x6b].

(** ** Reading *)

(** [while (item != NULL && idx < FP_SIZE) { hash[idx++] = strtol(item, NULL, 16);
    item = strtok(NULL, ":\t\n"); }] with [n = FP_SIZE - idx] rounds left. *)
Fixpoint hash_loop (n idx : nat) (hash : bytes) (item : option (bytes * bytes))
    : bytes * option (bytes * bytes) :=
  match n, item with
  | S n', Some (tok, rest) =>
      hash_loop n' (S idx) (<[idx := to_byte (strtol 16 tok)]> hash) (strtok delims_next rest)
  | _, _ => (hash, item)
  end.

(** The fingerprint of a line and the token left in [item]. *)
Definition parse_line (line : bytes) : bytes * option bytes :=
  let '(hash, item) :=
    hash_loop FP_SIZE 0 (replicate FP_SIZE x00) (strtok delims_first line) in
  (hash, fst <$> item).

(** The lines that reach the body of the loop: [strpbrk(read_buffer, "Chunk")]
    skips a line that holds any of the letters C, h, u, n, k. *)
Definition trace_lines (file : bytes) : list bytes :=
  base.filter (fun l => strpbrk l title_set = false) (file_lines file).

(** The fingerprints of a trace (what the counting tools read). *)
Definition trace_hashes (file : bytes) : list bytes :=
  (fun l => fst (parse_line l)) <$> trace_lines file.

(** A line as the sized readers see it: [atoi(item)] after the fingerprint,
    stored in a [uint64_t]. *)
Definition parse_chunk (line : bytes) : outcome chunk :=
  let '(hash, item) := parse_line line in
  sz ← atoi item; Ret (Chunk hash (u64 sz)).

(** ** Printing *)

(** [printf("%.2hhx", k[0]); for (j = 1; ...) printf(":%.2hhx", k[j]);] *)
Definition print_key (k : bytes) : bytes :=
  match k with
  | [] => []
  | b :: k' => print_hhx b ++ concat ((fun c => x3a :: print_hhx c) <$> k')
  end.

(** The line of one chunk: the fingerprint, then ["\t\t%" PRIu64 " "], then
    ["\t\t\t10\n"]. *)
Definition print_chunk (c : chunk) : bytes :=
  print_key (key c) ++ [x09; x09] ++ print_dec (size c) ++ [x20]
  ++ [x09; x09; x09; x31; x30; x0a].

Definition print_chunks (cs : list chunk) : bytes := concat (print_chunk <$> cs).

(** "Chunk Hash\t\t\tChunk Size (bytes)\tCompression Ratio (tenth)\n" *)
Definition title_line : bytes :=
  [x43; x68; x75; x6e; x6b; x20; x48; x61; x73; x68; x09; x09; x09;
   x43; x68; x75; x6e; x6b; x20; x53; x69; x7a; x65; x20; x28; x62; x79; x74; x65; x73; x29; x09;
   x43; x6f; x6d; x70; x72; x65; x73; x73; x69; x6f; x6e; x20; x52; x61; x74; x69; x6f; x20;
   x28; x74; x65; x6e; x74; x68; x29; x0a].

(** A chunk whose fingerprint has six bytes and whose size survives [atoi]. *)
Definition chunk_ok (c : chunk) : Prop :=
  length (key c) = FP_SIZE /\ 0 <= size c < 2 ^ 31.

#[global] Arguments print_chunk : simpl never.
#[global] Arguments print_chunks : simpl never.

(** ** The printed line reads back *)

Lemma print_hhx_clean b :
  Forall (fun c => c ∉ delims_first /\ c ∉ delims_next /\ c ∉ title_set /\ c <> x00 /\ ub c <> 10)
    (print_hhx b).
Proof.
  apply (bool_decide_unpack _). by destruct b; vm_compute.
Qed.

Lemma digit_clean c :
  is_digit c = true ->
  c ∉ delims_first /\ c ∉ delims_next /\ c ∉ title_set /\ c <> x00 /\ ub c <> 10.
Proof.
  intros H. apply (bool_decide_unpack _). destruct c; first [by vm_compute | by vm_compute in H].
Qed.

Lemma print_dec_clean v :
  0 <= v ->
  Forall (fun c => c ∉ delims_first /\ c ∉ delims_next /\ c ∉ title_set /\ c <> x00 /\ ub c <> 10)
    (print_dec v).
Proof. intros. eapply Forall_impl; [by apply print_dec_digits|]. apply digit_clean. Qed.

Lemma hhx_strtok b d r :
  d ∈ delims_next -> strtok delims_next (print_hhx b ++ d :: r) = Some (print_hhx b, r).
Proof.
  intros. apply (strtok_token delims_next []); [done|done| |done].
  eapply Forall_impl; [apply print_hhx_clean|]. naive_solver.
Qed.

Lemma hhx_strtok_first b r :
  strtok delims_first (print_hhx b ++ x3a :: r) = Some (print_hhx b, r).
Proof.
  apply (strtok_token delims_first []); [done|done| |set_solver].
  eapply Forall_impl; [apply print_hhx_clean|]. naive_solver.
Qed.

Lemma size_strtok v r :
  0 <= v -> strtok delims_next (x09 :: print_dec v ++ x20 :: x09 :: r) = Some (print_dec v ++ [x20], r).
Proof.
  intros. change (x20 :: x09 :: r) with ([x20] ++ x09 :: r). rewrite app_assoc.
  apply (strtok_token delims_next [x09]); [by repeat constructor|by destruct (print_dec v)| |set_solver].
  apply Forall_app. split; [|repeat constructor; set_solver].
  eapply Forall_impl; [by apply print_dec_clean|]. naive_solver.
Qed.

(** The fingerprint and the size token of a printed line. *)
Lemma parse_print_line c :
  length (key c) = FP_SIZE -> 0 <= size c ->
  parse_line (print_chunk c) = (key c, Some (print_dec (size c) ++ [x20])).
Proof.
  destruct c as [k sz]. cbn [key size]. intros Hk Hs.
  destruct k as [|b0 [|b1 [|b2 [|b3 [|b4 [|b5 [|]]]]]]]; try done.
  unfold parse_line, print_chunk, print_key. cbn [key size fmap list_fmap concat].
  rewrite <- !app_assoc. cbn [app].
  rewrite hhx_strtok_first. cbn [hash_loop FP_SIZE replicate].
  do 5 (rewrite hhx_strtok by set_solver; cbn [hash_loop]).
  rewrite size_strtok by done. cbn [hash_loop fmap option_fmap option_map fst].
  by rewrite !strtol_print_hhx, !to_byte_ub.
Qed.

Lemma parse_print_chunk c : chunk_ok c -> parse_chunk (print_chunk c) = Ret c.
Proof.
  intros [Hk Hs]. unfold parse_chunk. rewrite parse_print_line by (done || lia).
  run. rewrite atoi_print_dec by done. cbn.
  rewrite u64_small by lia. by destruct c.
Qed.

(** ** The printed file reads back *)

Lemma print_key_clean k :
  Forall (fun c => c ∉ title_set /\ c <> x00 /\ ub c <> 10) (print_key k).
Proof.
  destruct k as [|b k]; cbn; [constructor|].
  assert (forall b, Forall (fun c => c ∉ title_set /\ c <> x00 /\ ub c <> 10) (print_hhx b)) as Hh.
  { intros. eapply Forall_impl; [apply print_hhx_clean|]. naive_solver. }
  apply Forall_app. split; [apply Hh|]. apply Forall_concat, Forall_fmap, Forall_forall.
  intros c _. cbn. constructor; [split_and!; [set_solver|done|done]|apply Hh].
Qed.

Lemma print_key_length k : (length (print_key k) <= 3 * length k)%nat.
Proof.
  destruct k as [|b k]; [cbn; lia|]. unfold print_key. rewrite length_app.
  assert (length (concat ((fun c => x3a :: print_hhx c) <$> k)) = 3 * length k)%nat as ->.
  { induction k as [|c k IH]; [done|]. cbn [fmap list_fmap concat]. rewrite length_app, IH. unfold print_hhx. cbn. lia. }
  unfold print_hhx. cbn. lia.
Qed.

Lemma print_chunk_line c :
  chunk_ok c ->
  exists l, print_chunk c = l ++ [x0a] /\ (length l < 255)%nat /\
    Forall (fun c => c ∉ title_set /\ c <> x00 /\ ub c <> 10) l.
Proof.
  intros [Hk Hs]. exists (print_key (key c) ++ [x09; x09] ++ print_dec (size c) ++ [x20]
    ++ [x09; x09; x09; x31; x30]). split_and!.
  - unfold print_chunk. by rewrite <- !app_assoc.
  - rewrite !length_app. pose proof (print_key_length (key c)).
    pose proof (print_dec_length (size c)). unfold FP_SIZE in *. cbn [length]. lia.
  - repeat (apply Forall_app; split); try (repeat constructor; (set_solver || done)).
    + apply print_key_clean.
    + eapply Forall_impl; [apply print_dec_clean; lia|]. naive_solver.
Qed.

Lemma strpbrk_clean l accept : Forall (fun c => c ∉ accept) l -> strpbrk l accept = false.
Proof.
  induction 1 as [|b l Hb _ IH]; cbn; [done|]. unfold mem_byte at 1.
  by rewrite bool_decide_eq_false_2.
Qed.

Lemma trace_lines_print cs r :
  Forall chunk_ok cs ->
  trace_lines (print_chunks cs ++ r) = (print_chunk <$> cs) ++ trace_lines r.
Proof.
  induction 1 as [|c cs Hc _ IH]; [done|]. unfold print_chunks in *. cbn [fmap list_fmap concat].
  destruct (print_chunk_line c Hc) as (l & Hl & Hlen & Hcl). rewrite Hl.
  rewrite <- !app_assoc. cbn [app]. unfold trace_lines in *.
  rewrite file_lines_cons; [|eapply Forall_impl; [done|naive_solver]..|done].
  rewrite filter_cons_True, IH; [done|]. apply strpbrk_clean.
  apply Forall_app. split; [eapply Forall_impl; [done|naive_solver]|]. repeat constructor. set_solver.
Qed.

Lemma trace_lines_title r : trace_lines (title_line ++ r) = trace_lines r.
Proof.
  unfold trace_lines. change title_line with (take 57 title_line ++ [x0a]). rewrite <- app_assoc.
  cbn [app]. rewrite file_lines_cons.
  - by rewrite filter_cons_False by (by vm_compute).
  - by apply (bool_decide_unpack _); vm_compute.
  - by apply (bool_decide_unpack _); vm_compute.
  - vm_compute. lia.
Qed.

(** What a counting tool reads from the output of a defense tool. *)
Lemma trace_hashes_print cs :
  Forall chunk_ok cs -> trace_hashes (title_line ++ print_chunks cs) = key <$> cs.
Proof.
  intros H. unfold trace_hashes. rewrite trace_lines_title.
  rewrite <- (app_nil_r (print_chunks cs)), trace_lines_print by done.
  rewrite app_nil_r, <- list_fmap_compose. apply list_fmap_ext.
  intros i c Hc. cbn. eapply Forall_lookup_1 in H as [? ?]; [|done].
  by rewrite parse_print_line by (done || lia).
Qed.

Lemma hash_loop_length n idx hash item : length (hash_loop n idx hash item).1 = length hash.
Proof.
  revert idx hash item. induction n as [|n IH]; intros idx hash item; [done|]. cbn [hash_loop].
  destruct item as [[t r]|]; [|done]. by rewrite IH, length_insert.
Qed.

Lemma parse_line_length l : length (parse_line l).1 = FP_SIZE.
Proof.
  unfold parse_line.
  pose proof (hash_loop_length FP_SIZE 0 (replicate FP_SIZE x00) (strtok delims_first l)) as H.
  by destruct (hash_loop _ _ _ _).
Qed.

Lemma trace_hashes_length file : Forall (fun k => length k = FP_SIZE) (trace_hashes file).
Proof. apply Forall_fmap, Forall_forall. intros l _. apply parse_line_length. Qed.

(** The trace format round trips.  What a defense tool prints (the title
    line and one line per chunk) is read back by every reader of the repository
    as exactly the same fingerprints and sizes, the title line being skipped. *)
Theorem trace_roundtrip cs :
  Forall chunk_ok cs ->
  trace_hashes (title_line ++ print_chunks cs) = key <$> cs /\
  Forall2 (fun l c => parse_chunk l = Ret c) (trace_lines (title_line ++ print_chunks cs)) cs.
Proof.
  intros Hcs. split; [by apply trace_hashes_print|].
  rewrite trace_lines_title, <- (app_nil_r (print_chunks cs)), trace_lines_print, app_nil_r by done.
  induction Hcs as [|c cs Hc _ IH]; cbn; constructor; [by apply parse_print_chunk|done].
Qed.

(** *** A sample trace, used by the witnesses of the tools *)

Definition sample_chunks : list chunk :=
  [Chunk (sample_key 1) 100; Chunk (sample_key 9) 200; Chunk (sample_key 1) 100].
Definition sample_trace : bytes := title_line ++ print_chunks sample_chunks.

Lemma sample_ok : Forall chunk_ok sample_chunks.
Proof. repeat (constructor; [split; [done|cbn; lia]|]). constructor. Qed.

Lemma sample_hashes : trace_hashes sample_trace = [sample_key 1; sample_key 9; sample_key 1].
Proof. exact (trace_hashes_print sample_chunks sample_ok). Qed.

Lemma trace_roundtrip_witness :
  trace_hashes sample_trace = [sample_key 1; sample_key 9; sample_key 1] /\
  Forall2 (fun l c => parse_chunk l = Ret c) (trace_lines sample_trace) sample_chunks.
Proof. exact (trace_roundtrip sample_chunks sample_ok). Defined.
