(* ===== verification/Slice.v ===== *)
(** * LevelDB slices and the bytewise comparator

    include/leveldb/slice.h ([starts_with], [operator==], [compare]) and
    util/comparator.cc ([BytewiseComparatorImpl]).  A [Slice] is its bytes. *)

From S2P Require Import Prelude.

(** ** Definitions *)

(** [Slice::remove_prefix]; the assertion is the failing branch. *)
Definition remove_prefix (n : nat) (s : bytes) : outcome bytes :=
  if (n <=? length s)%nat then Ret (drop n s) else Exit 134.

Definition starts_with (s x : bytes) : bool :=
  (length x <=? length s)%nat && (memcmp (length x) s x =? 0).

(** [operator==] on slices *)
Definition slice_eqb (x y : bytes) : bool :=
  (length x =? length y)%nat && (memcmp (length x) x y =? 0).

(** [Slice::compare] *)
Definition slice_compare (a b : bytes) : Z :=
  let min_len := if (length a <? length b)%nat then length a else length b in
  let r := memcmp min_len a b in
  if r =? 0
  then (if (length a <? length b)%nat then -1
        else if (length b <? length a)%nat then 1 else r)
  else r.

(** [while (diff_index < min_length && start[diff_index] == limit[diff_index])
    diff_index++;], with the number of rounds left as fuel. *)
Fixpoint diff_index_loop (n i : nat) (start limit : bytes) : nat :=
  match n with
  | O => i
  | S n' =>
      match start !! i, limit !! i with
      | Some x, Some y => if ub x =? ub y then diff_index_loop n' (S i) start limit else i
      | _, _ => i
      end
  end.

(** [BytewiseComparatorImpl::FindShortestSeparator]; the result is the new
    [*start], the failing branch its assertion. *)
Definition FindShortestSeparator (start limit : bytes) : outcome bytes :=
  let min_length := Nat.min (length start) (length limit) in
  let diff_index := diff_index_loop min_length 0 start limit in
  if (min_length <=? diff_index)%nat then Ret start
  else match start !! diff_index, limit !! diff_index with
       | Some d, Some l =>
           if (ub d <? 255) && (ub d + 1 <? ub l)
           then let start := str_resize (diff_index + 1) (<[diff_index := to_byte (ub d + 1)]> start) in
                if slice_compare start limit <? 0 then Ret start else Exit 134
           else Ret start
       | _, _ => Ret start
       end.

(** The loop of [FindShortSuccessor] from index [i]. *)
Fixpoint short_successor_loop (n i : nat) (k : bytes) : bytes :=
  match n with
  | O => k
  | S n' =>
      match k !! i with
      | Some b =>
          if ub b =? 255 then short_successor_loop n' (S i) k
          else str_resize (i + 1) (<[i := to_byte (ub b + 1)]> k)
      | None => k
      end
  end.

(** [BytewiseComparatorImpl::FindShortSuccessor] *)
Definition FindShortSuccessor (k : bytes) : bytes := short_successor_loop (length k) 0 k.

(** The order the comparator defines. *)
Definition slice_lt (a b : bytes) : Prop := slice_compare a b < 0.
Definition slice_le (a b : bytes) : Prop := slice_compare a b <= 0.

(** ** The comparison, one byte at a time *)

Lemma slice_compare_nil_l b : slice_compare [] b = match b with [] => 0 | _ => -1 end.
Proof. by destruct b. Qed.

Lemma slice_compare_cons x a y b :
  slice_compare (x :: a) (y :: b) =
    if ub x =? ub y then slice_compare a b else ub x - ub y.
Proof.
  unfold slice_compare. cbn [length]. rewrite !(Nat.ltb_compare (S _)).
  cbn [Nat.compare]. rewrite <- !Nat.ltb_compare.
  assert (exists m, (if (length a <? length b)%nat then S (length a) else S (length b)) = S m /\
     (if (length a <? length b)%nat then length a else length b) = m) as (m & -> & ->)
    by (destruct (length a <? length b)%nat; eauto).
  cbn [memcmp]. destruct (Z.eqb_spec (ub x) (ub y)); [done|].
  destruct (Z.eqb_spec (ub x - ub y) 0); [lia|done].
Qed.

Lemma slice_compare_refl a : slice_compare a a = 0.
Proof. induction a; [done|]. by rewrite slice_compare_cons, Z.eqb_refl. Qed.

Lemma slice_compare_eq a b : slice_compare a b = 0 <-> a = b.
Proof.
  split; [|intros ->; apply slice_compare_refl].
  revert b. induction a as [|x a IH]; intros [|y b]; try done.
  rewrite slice_compare_cons. destruct (Z.eqb_spec (ub x) (ub y)) as [E|E]; [|lia].
  apply (inj ub) in E as <-. intros H. f_equal. auto.
Qed.

Lemma slice_compare_antisym a b : Z.sgn (slice_compare a b) = - Z.sgn (slice_compare b a).
Proof.
  revert b. induction a as [|x a IH]; intros [|y b]; try done.
  rewrite !slice_compare_cons, (Z.eqb_sym (ub y)).
  destruct (Z.eqb_spec (ub x) (ub y)) as [E|E]; [auto|].
  rewrite <- Z.sgn_opp. f_equal. lia.
Qed.

Lemma slice_lt_trans a b c : slice_lt a b -> slice_lt b c -> slice_lt a c.
Proof.
  unfold slice_lt. revert b c. induction a as [|x a IH]; intros [|y b] [|z c]; try done.
  rewrite !slice_compare_cons.
  destruct (Z.eqb_spec (ub x) (ub y)), (Z.eqb_spec (ub y) (ub z)), (Z.eqb_spec (ub x) (ub z));
    try lia; eauto.
Qed.

Lemma slice_lt_irrefl a : ~ slice_lt a a.
Proof. unfold slice_lt. rewrite slice_compare_refl. lia. Qed.

Lemma slice_lt_total a b : slice_lt a b \/ a = b \/ slice_lt b a.
Proof.
  unfold slice_lt. pose proof (slice_compare_antisym a b).
  destruct (Z.lt_trichotomy (slice_compare a b) 0) as [|[E|]]; [by left| |].
  - apply slice_compare_eq in E. auto.
  - right; right. lia.
Qed.

Lemma slice_le_lteq a b : slice_le a b <-> slice_lt a b \/ a = b.
Proof. unfold slice_le, slice_lt. rewrite <- slice_compare_eq. lia. Qed.

#[global] Instance slice_le_dec : RelDecision slice_le.
Proof. intros a b. unfold slice_le. apply _. Defined.
#[global] Instance slice_lt_dec : RelDecision slice_lt.
Proof. intros a b. unfold slice_lt. apply _. Defined.

#[global] Instance slice_le_trans : Transitive slice_le.
Proof. intros a b c. rewrite !slice_le_lteq. naive_solver eauto using slice_lt_trans. Qed.

#[global] Instance slice_le_total : Total slice_le.
Proof. intros a b. rewrite !slice_le_lteq. pose proof (slice_lt_total a b). naive_solver. Qed.

#[global] Instance slice_le_antisymm : AntiSymm (=) slice_le.
Proof.
  intros a b. rewrite !slice_le_lteq. intros [H|] [H'|]; try done.
  by pose proof (slice_lt_irrefl _ (slice_lt_trans _ _ _ H H')).
Qed.

Lemma slice_eqb_eq x y : slice_eqb x y = true <-> x = y.
Proof.
  unfold slice_eqb. rewrite andb_true_iff, Nat.eqb_eq, Z.eqb_eq. split.
  - intros [Hl Hm]. by apply (memcmp_eq (length x)).
  - intros ->. by rewrite memcmp_refl.
Qed.

Lemma memcmp_prefix n s x : length x = n -> (n <= length s)%nat -> memcmp n s x = 0 <-> take n s = x.
Proof.
  revert s x. induction n as [|n IH]; intros [|a s] [|b x]; cbn; try done; try lia.
  intros [= Hx] Hs. destruct (Z.eqb_spec (ub a) (ub b)) as [E|E].
  - apply (inj ub) in E as <-. rewrite IH by lia. split; congruence.
  - split; [lia|congruence].
Qed.

Lemma starts_with_prefix s x : starts_with s x = true <-> x `prefix_of` s.
Proof.
  unfold starts_with. rewrite andb_true_iff, Nat.leb_le, Z.eqb_eq. split.
  - intros [Hl Hm]. apply memcmp_prefix in Hm; [|done|done].
    exists (drop (length x) s). rewrite <- Hm at 1. by rewrite take_drop.
  - intros [k ->]. rewrite length_app. split; [lia|].
    apply memcmp_prefix; [done|rewrite length_app; lia|]. apply take_app_length.
Qed.

(** ** Separators *)

Lemma slice_compare_app p a b : slice_compare (p ++ a) (p ++ b) = slice_compare a b.
Proof. induction p as [|x p IH]; [done|]. cbn. by rewrite slice_compare_cons, Z.eqb_refl. Qed.

(** The loop stops at the end of the common prefix. *)
Lemma diff_index_loop_spec n i s l :
  i = length (take i s) -> take i s = take i l ->
  let j := diff_index_loop n i s l in
  (i <= j <= i + n)%nat /\ take j s = take j l /\
  ((j < i + n)%nat -> match s !! j, l !! j with Some x, Some y => x <> y | _, _ => True end).
Proof.
  revert i. induction n as [|n IH]; intros i Hi Ht; cbn [diff_index_loop].
  - split_and!; [lia|lia|done|lia].
  - destruct (s !! i) as [x|] eqn:Hs; [|by split_and!; try lia; rewrite ?Hs].
    destruct (l !! i) as [y|] eqn:Hl; [|by split_and!; try lia; rewrite ?Hs, ?Hl].
    destruct (Z.eqb_spec (ub x) (ub y)) as [E|E].
    + apply (inj ub) in E as <-.
      pose proof (take_S_r _ _ _ Hs) as Ss. pose proof (take_S_r _ _ _ Hl) as Sl.
      specialize (IH (S i)). cbn in IH. destruct IH as (H1 & H2 & H3).
      * rewrite Ss, length_app, <- Hi. cbn. lia.
      * by rewrite Ss, Sl, Ht.
      * split_and!; [lia|lia|done|]. intros. apply H3. lia.
    + rewrite Hs, Hl. split_and!; [lia|lia|done|]. intros _ ->. done.
Qed.

Lemma take_resize_insert i (b : byte) s :
  (i < length s)%nat -> str_resize (i + 1) (<[i := b]> s) = take i s ++ [b].
Proof.
  intros Hi. unfold str_resize. rewrite length_insert.
  replace (i + 1 - length s)%nat with 0%nat by lia. rewrite app_nil_r, Nat.add_1_r.
  rewrite (take_S_r _ _ b) by (by apply list_lookup_insert_eq).
  f_equal. rewrite take_insert. by rewrite decide_False by lia.
Qed.

(** The assertion never fails: [start] is kept, or a shorter string strictly
    between [start] and [limit] replaces it. *)
Lemma separator_spec start limit :
  exists s, FindShortestSeparator start limit = Ret s /\ (length s <= length start)%nat /\
    (s = start \/ slice_lt start s /\ slice_lt s limit).
Proof.
  assert (exists s, Ret start = Ret s /\ (length s <= length start)%nat /\
    (s = start \/ slice_lt start s /\ slice_lt s limit)) as Hid by eauto.
  unfold FindShortestSeparator.
  set (m := Nat.min _ _). set (j := diff_index_loop m 0 start limit).
  destruct (m <=? j)%nat eqn:Hj; [done|]. apply Nat.leb_gt in Hj.
  pose proof (diff_index_loop_spec m 0 start limit eq_refl eq_refl) as (_ & Hp & _). fold j in Hp.
  destruct (start !! j) as [d|] eqn:Hd; [|done]. destruct (limit !! j) as [l|] eqn:Hl; [|done].
  destruct ((ub d <? 255) && (ub d + 1 <? ub l)) eqn:Hc; [|done].
  apply andb_true_iff in Hc as [H1%Z.ltb_lt H2%Z.ltb_lt].
  pose proof (lookup_lt_Some _ _ _ Hd). rewrite take_resize_insert by done.
  pose proof (ub_range d). assert (ub (to_byte (ub d + 1)) = ub d + 1) as Hb
    by (apply ub_to_byte_small; lia).
  assert (slice_lt (take j start ++ [to_byte (ub d + 1)]) limit) as Hlim.
  { rewrite <- (take_drop_middle limit j l Hl), <- Hp. unfold slice_lt.
    rewrite slice_compare_app, slice_compare_cons, Hb. destruct (Z.eqb_spec (ub d + 1) (ub l)); lia. }
  unfold slice_lt in Hlim at 1. apply Z.ltb_lt in Hlim as Hlim'. rewrite Hlim'.
  eexists. split; [done|]. rewrite length_app, length_take. cbn [length]. split; [lia|]. right. split; [|done].
  rewrite <- (take_drop_middle start j d Hd) at 1. unfold slice_lt.
  rewrite slice_compare_app, slice_compare_cons, Hb. destruct (Z.eqb_spec (ub d) (ub d + 1)); lia.
Qed.

Lemma successor_loop_ge n i k :
  slice_le k (short_successor_loop n i k).
Proof.
  revert i. induction n as [|n IH]; intros i; cbn; [apply slice_le_lteq; by right|].
  destruct (k !! i) as [b|] eqn:Hb; [|apply slice_le_lteq; by right].
  destruct (Z.eqb_spec (ub b) 255) as [E|E]; [apply IH|].
  rewrite take_resize_insert by (by apply lookup_lt_is_Some_1).
  rewrite <- (take_drop_middle k i b Hb) at 1. unfold slice_le.
  pose proof (ub_range b). rewrite slice_compare_app, slice_compare_cons, ub_to_byte_small by lia.
  destruct (Z.eqb_spec (ub b) (ub b + 1)); lia.
Qed.
