(* ===== verification/Order.v ===== *)
(** * Entries in the order of their keys

    What the sorted containers of LevelDB share: an order on the keys in use, lists of
    entries with increasing keys, and the position of a key in such a list. *)

From S2P Require Import Prelude Slice.
#[local] Open Scope Z_scope.

Abbreviation entry := (bytes * bytes)%type.

(** A total preorder on the keys in use, as the sign of a comparison. *)
Class KeyOrder (ok : bytes -> Prop) (ord : bytes -> bytes -> Z) : Prop := {
  ko_antisym a b : ok a -> ok b -> Z.sgn (ord a b) = - Z.sgn (ord b a);
  ko_trans a b d : ok a -> ok b -> ok d -> ord a b <= 0 -> ord b d <= 0 -> ord a d <= 0;
}.

Section Order.
Context {ok : bytes -> Prop} {ord : bytes -> bytes -> Z} `{!KeyOrder ok ord}.

Lemma ord_anti a b : ok a -> ok b -> Z.sgn (ord a b) = - Z.sgn (ord b a).
Proof. apply ko_antisym. Qed.

Lemma ord_le_trans a b d : ok a -> ok b -> ok d -> ord a b <= 0 -> ord b d <= 0 -> ord a d <= 0.
Proof. apply ko_trans. Qed.

Lemma lt_le_lt a b d : ok a -> ok b -> ok d -> ord a b < 0 -> ord b d <= 0 -> ord a d < 0.
Proof.
  intros Ha Hb Hd H1 H2. pose proof (ord_le_trans a b d Ha Hb Hd ltac:(lia) H2). destruct (Z.eq_dec (ord a d) 0) as [E|]; [|lia].
  pose proof (ord_anti a d Ha Hd). pose proof (ord_le_trans b d a Hb Hd Ha H2 ltac:(lia)). pose proof (ord_anti a b Ha Hb). lia.
Qed.

Lemma le_lt_lt a b d : ok a -> ok b -> ok d -> ord a b <= 0 -> ord b d < 0 -> ord a d < 0.
Proof.
  intros Ha Hb Hd H1 H2. pose proof (ord_le_trans a b d Ha Hb Hd H1 ltac:(lia)). destruct (Z.eq_dec (ord a d) 0) as [E|]; [|lia].
  pose proof (ord_anti a d Ha Hd). pose proof (ord_le_trans d a b Hd Ha Hb ltac:(lia) H1). pose proof (ord_anti b d Hb Hd). lia.
Qed.

Lemma ord_lt_trans a b d : ok a -> ok b -> ok d -> ord a b < 0 -> ord b d < 0 -> ord a d < 0.
Proof. intros Ha Hb Hd H1 H2. apply (lt_le_lt a b d); try done; lia. Qed.

(** Entries with usable keys in strictly increasing order. *)
Definition ascending (es : list entry) : Prop := Forall ok es.*1 /\ StronglySorted (fun e f => ord e.1 f.1 < 0) es.

Lemma ascending_app es es' : ascending (es ++ es') -> ascending es /\ ascending es' /\ forall e f, e ∈ es -> f ∈ es' -> ord e.1 f.1 < 0.
Proof.
  intros [Ho Hs]. rewrite fmap_app, Forall_app in Ho. destruct Ho as [Ho1 Ho2]. split_and!.
  - split; [done|]. by apply StronglySorted_app_1_l in Hs.
  - split; [done|]. by apply StronglySorted_app_1_r in Hs.
  - intros e f He Hf. by eapply (StronglySorted_app_1_elem_of (fun e f => ord e.1 f.1 < 0)).
Qed.

Lemma ascending_ok es e : ascending es -> e ∈ es -> ok e.1.
Proof. intros [Ho _] He. apply (proj1 (Forall_forall _ _) Ho). apply list_elem_of_fmap. by exists e. Qed.

Definition below (k : bytes) (e : entry) : Prop := ord e.1 k < 0.
Instance below_dec k e : Decision (below k e).
Proof. unfold below. apply _. Defined.

(** How many entries are below [k]. *)
Definition rank (k : bytes) (es : list entry) : nat := length (filter (below k) es).

Lemma rank_app k es es' : rank k (es ++ es') = (rank k es + rank k es')%nat.
Proof. unfold rank. by rewrite filter_app, length_app. Qed.

Lemma rank_all k es : Forall (below k) es -> rank k es = length es.
Proof. intros Hb. unfold rank. by rewrite filter_all by (by apply Forall_forall). Qed.

Lemma rank_none k es : Forall (fun e => ~ below k e) es -> rank k es = 0%nat.
Proof. intros Hb. unfold rank. by rewrite filter_none by (by apply Forall_forall). Qed.

Lemma rank_le k es : (rank k es <= length es)%nat.
Proof. unfold rank. apply length_filter. Qed.

Lemma rank_full k es e : rank k es = length es -> e ∈ es -> below k e.
Proof.
  intros E Hin. destruct (decide (below k e)) as [|Hnot]; [done|exfalso]. apply list_elem_of_split in Hin as (l1 & l2 & ->). rewrite rank_app, length_app in E.
  unfold rank at 2 in E. rewrite filter_cons_False in E by done. pose proof (rank_le k l1). pose proof (rank_le k l2). unfold rank in *. cbn in E. lia.
Qed.

(** A key below the first entry is below all of them. *)
Lemma below_first s es f : ascending es -> ok s -> head es = Some f -> ord s f.1 < 0 -> Forall (fun g => ord s g.1 < 0) es.
Proof.
  intros Ha Hs Hf Hlt. destruct es as [|e es]; [done|]. injection Hf as ->. constructor; [done|]. apply Forall_forall. intros g Hg.
  apply (ord_lt_trans s f.1 g.1); [done|apply (ascending_ok (f :: es)); [done|by left]|apply (ascending_ok (f :: es)); [done|by right]|done|].
  destruct Ha as [_ Ha]. apply StronglySorted_inv in Ha as [_ Ha]. by apply (proj1 (Forall_forall _ _) Ha).
Qed.

(** No entry of a block is above its last. *)
Lemma last_greatest es e f : ascending es -> last es = Some e -> f ∈ es -> ord f.1 e.1 <= 0.
Proof.
  intros Ha Hl Hf. apply last_Some in Hl as [l ->]. apply elem_of_app in Hf as [Hf|Hf].
  - apply ascending_app in Ha as (_ & _ & Ha). specialize (Ha f e Hf ltac:(by apply list_elem_of_singleton)). lia.
  - apply list_elem_of_singleton in Hf as ->. assert (ok e.1) as He by (apply (ascending_ok (l ++ [e])); [done|]; apply elem_of_app; right; by left).
    pose proof (ord_anti e.1 e.1 He He). lia.
Qed.

Lemma key_refl a : ok a -> ord a a = 0.
Proof. intros Ha. pose proof (ord_anti a a Ha Ha). lia. Qed.

Lemma ascending_inv e es : ascending (e :: es) -> ok e.1 /\ ascending es /\ Forall (fun f => ord e.1 f.1 < 0) es.
Proof. intros [Ho Hs]. apply Forall_cons in Ho as [? ?]. apply StronglySorted_inv in Hs as [? ?]. done. Qed.

Lemma ascending_lookup_ok es i e : ascending es -> es !! i = Some e -> ok e.1.
Proof. intros Ha Hi. apply (ascending_ok es); [done|]. by eapply list_elem_of_lookup_2. Qed.

Lemma ascending_lt es i j e f : ascending es -> es !! i = Some e -> es !! j = Some f -> (i < j)%nat -> ord e.1 f.1 < 0.
Proof.
  intros Ha Hi Hj Hlt. rewrite <- (take_drop j es) in Ha. apply ascending_app in Ha as (_ & _ & Ha). apply Ha.
  - apply list_elem_of_lookup. exists i. by rewrite lookup_take_lt.
  - apply list_elem_of_lookup. exists 0%nat. by rewrite lookup_drop, Nat.add_0_r.
Qed.

(** Different entries have keys that the order tells apart. *)
Lemma ascending_eq es i j e f : ascending es -> es !! i = Some e -> es !! j = Some f -> ord e.1 f.1 = 0 -> i = j.
Proof.
  intros Ha Hi Hj E. pose proof (ord_anti e.1 f.1 (ascending_lookup_ok _ _ _ Ha Hi) (ascending_lookup_ok _ _ _ Ha Hj)).
  destruct (Nat.lt_trichotomy i j) as [Hlt|[|Hlt]]; [|done|].
  - pose proof (ascending_lt _ _ _ _ _ Ha Hi Hj Hlt). lia.
  - pose proof (ascending_lt _ _ _ _ _ Ha Hj Hi Hlt). lia.
Qed.

Lemma ascending_nodup es : ascending es -> NoDup es.
Proof.
  intros Ha. apply NoDup_alt. intros i j e Hi Hj. apply (ascending_eq es i j e e Ha Hi Hj). by eapply key_refl, ascending_lookup_ok.
Qed.

(** A property that is inherited by smaller entries holds of a prefix. *)
Lemma closed_split (D : entry -> Prop) `{!forall e, Decision (D e)} es : ascending es ->
  (forall e f, e ∈ es -> f ∈ es -> ord e.1 f.1 < 0 -> D f -> D e) ->
  Forall D (take (length (filter D es)) es) /\ Forall (fun e => ~ D e) (drop (length (filter D es)) es).
Proof.
  induction es as [|e es IH]; intros Ha Hc; [done|]. destruct (ascending_inv _ _ Ha) as (_ & Ha' & Hlt). destruct (decide (D e)) as [He|He].
  - rewrite filter_cons_True by done. cbn [length take drop]. destruct IH as [H1 H2]; [done|intros f g Hf Hg; apply Hc; by right|]. split; [by constructor|done].
  - rewrite filter_cons_False by done. assert (Forall (fun f => ~ D f) es) as Hn.
    { apply Forall_forall. intros f Hf Hd. apply He, (Hc e f); [by left|by right| |done]. by apply (proj1 (Forall_forall _ _) Hlt). }
    rewrite filter_none by (by apply Forall_forall). cbn. split; [done|]. by constructor.
Qed.

Lemma below_closed k es : ascending es -> ok k -> forall e f, e ∈ es -> f ∈ es -> ord e.1 f.1 < 0 -> below k f -> below k e.
Proof. intros Ha Hk e f He Hf Hlt Hb. unfold below in *. apply (ord_lt_trans e.1 f.1 k); try done; by apply (ascending_ok es). Qed.

(** Such a property tells the position of an entry. *)
Lemma closed_below (D : entry -> Prop) `{!forall e, Decision (D e)} es i e : ascending es ->
  (forall e f, e ∈ es -> f ∈ es -> ord e.1 f.1 < 0 -> D f -> D e) -> es !! i = Some e -> D e <-> (i < length (filter D es))%nat.
Proof.
  intros Ha Hc Hi. destruct (closed_split D es Ha Hc) as [H1 H2]. split.
  - intros Hd. destruct (Nat.lt_ge_cases i (length (filter D es))) as [|Hge]; [done|exfalso]. rewrite Forall_lookup in H2.
    apply (H2 (i - length (filter D es))%nat e); [|done]. rewrite lookup_drop. by replace (length (filter D es) + (i - length (filter D es)))%nat with i by lia.
  - intros Hlt. rewrite Forall_lookup in H1. apply (H1 i). by rewrite lookup_take_lt.
Qed.

(** The entries below a key are those before its rank. *)
Lemma rank_below k es i e : ascending es -> ok k -> es !! i = Some e -> below k e <-> (i < rank k es)%nat.
Proof. intros Ha Hk. by apply closed_below, below_closed. Qed.

(** An entry stands where its key leads. *)
Lemma rank_lookup es i e : ascending es -> es !! i = Some e -> rank e.1 es = i.
Proof.
  intros Ha Hi. pose proof (ascending_lookup_ok _ _ _ Ha Hi) as Hok. pose proof (rank_le e.1 es) as Hle.
  pose proof (rank_below e.1 es i e Ha Hok Hi) as Hb. unfold below in Hb. rewrite key_refl in Hb by done.
  destruct (decide (i = rank e.1 es)) as [|Hne]; [done|]. assert (i > rank e.1 es)%nat as Hgt by lia.
  destruct (lookup_lt_is_Some_2 es (rank e.1 es)) as [f Hf]; [apply lookup_lt_Some in Hi; lia|].
  pose proof (rank_below e.1 es _ f Ha Hok Hf) as Hbf. pose proof (ascending_lt _ _ _ _ _ Ha Hf Hi Hgt). unfold below in Hbf. lia.
Qed.

(** Entries have one ascending order. *)
Lemma ascending_unique es es' : ascending es -> ascending es' -> es ≡ₚ es' -> es = es'.
Proof.
  intros [Ho Hs] [Ho' Hs'] Hp. apply (StronglySorted_unique_strong (fun e f => ord e.1 f.1 < 0)); [|done..]. intros e f He Hf H1 H2. exfalso.
  rewrite Forall_forall in Ho, Ho'. pose proof (ord_anti e.1 f.1 ltac:(by apply Ho, list_elem_of_fmap_2) ltac:(by apply Ho', list_elem_of_fmap_2)). lia.
Qed.
End Order.
Arguments ascending : clear implicits.
Arguments below : clear implicits.
Arguments rank : clear implicits.
Arguments rank_le : clear implicits.
#[export] Existing Instance below_dec.

(** ** A sequence in parts

    Each part has a key that is not below its last entry and below the next part. *)
Section Parts.
Context {ok : bytes -> Prop} {ord : bytes -> bytes -> Z} `{!KeyOrder ok ord} {B : Type} (ents : B -> list entry) (sep : B -> bytes).

Fixpoint parted (bs : list B) : Prop :=
  match bs with
  | [] => True
  | b :: bs' => ents b <> [] /\ ok (sep b) /\ Forall (fun e => ord e.1 (sep b) <= 0) (ents b) /\ Forall (fun e => ord (sep b) e.1 < 0) (concat (ents <$> bs')) /\ parted bs'
  end.

Lemma parted_seps b bs : parted (b :: bs) -> ascending ok ord (concat (ents <$> b :: bs)) -> Forall (fun b' => ord (sep b) (sep b') < 0) bs.
Proof.
  intros (_ & Hok & _ & Hlt & Hp) Ha. apply Forall_forall. intros b' Hin. apply list_elem_of_split in Hin as (l1 & l2 & ->).
  assert (ents b' <> [] /\ ok (sep b') /\ Forall (fun e => ord e.1 (sep b') <= 0) (ents b')) as (Hne & Hok' & Hle).
  { clear -Hp. induction l1 as [|x l1 IH]; cbn in Hp; [tauto|]. apply IH, Hp. }
  destruct (ents b') as [|e l] eqn:Ee; [done|]. assert (e ∈ concat (ents <$> l1 ++ b' :: l2)) as He.
  { apply elem_of_concat. exists (ents b'). split; [apply list_elem_of_fmap_2; set_solver|]. rewrite Ee. by left. }
  apply (lt_le_lt _ e.1); [done| |done| |].
  - apply (ascending_ok _ _ Ha). cbn. apply elem_of_app. by right.
  - by apply (proj1 (Forall_forall _ _) Hlt).
  - by apply Forall_cons in Hle as [? _].
Qed.

(** The position of a key among all the entries. *)
Lemma parts_rank k bs (idx : B -> entry) : (forall b, (idx b).1 = sep b) -> parted bs -> ascending ok ord (concat (ents <$> bs)) -> ok k ->
  rank ord k (concat (ents <$> bs)) = (length (concat (ents <$> take (rank ord k (idx <$> bs)) bs)) +
    match bs !! rank ord k (idx <$> bs) with Some b => rank ord k (ents b) | None => 0 end)%nat.
Proof.
  intros Hidx Hp Ha Hk. induction bs as [|b bs IH]; [done|]. pose proof (parted_seps b bs Hp Ha) as Hseps. pose proof Hp as (Hne & Hok & Hle & Hlt & Hp').
  pose proof Ha as Ha0. cbn [fmap list_fmap concat] in *. destruct (ascending_app _ _ Ha) as (Hab & Har & _). rewrite rank_app.
  destruct (decide (ord (sep b) k < 0)) as [Hb|Hb].
  - assert (rank ord k (idx b :: (idx <$> bs)) = S (rank ord k (idx <$> bs))) as ->.
    { unfold rank. rewrite filter_cons_True; [done|]. unfold below. by rewrite Hidx. }
    cbn [take fmap list_fmap concat]. change ((b :: bs) !! S (rank ord k (idx <$> bs))) with (bs !! rank ord k (idx <$> bs)).
    rewrite length_app, <- Nat.add_assoc, <- IH by done. f_equal. apply rank_all, Forall_forall. intros e He. unfold below. apply (le_lt_lt _ (sep b)); [|done|done| |done].
    + by apply (ascending_ok _ _ Hab).
    + by apply (proj1 (Forall_forall _ _) Hle).
  - assert (forall x, ok x -> ord (sep b) x < 0 -> ~ ord x k < 0) as Habove by (intros x Hx H1 H2; apply Hb; by apply (ord_lt_trans _ x)).
    assert (rank ord k (idx b :: (idx <$> bs)) = 0%nat) as ->.
    { apply rank_none. constructor; [unfold below; by rewrite Hidx|]. apply Forall_fmap, Forall_forall. intros b' Hin. unfold below. cbn. rewrite Hidx.
      apply Habove; [|by apply (proj1 (Forall_forall _ _) Hseps)]. clear -Hp' Hin. induction bs as [|x l IH]; [by apply not_elem_of_nil in Hin|].
      destruct Hp' as (_ & H1 & _ & _ & H2). apply elem_of_cons in Hin as [->|Hin]; [done|by apply IH]. }
    cbn. assert (rank ord k (concat (ents <$> bs)) = 0%nat) as ->; [|lia]. apply rank_none, Forall_forall. intros e He. apply Habove; [by apply (ascending_ok _ _ Har)|].
    by apply (proj1 (Forall_forall _ _) Hlt).
Qed.
End Parts.

(** The order of slices. *)
#[export] Instance slice_key_order : KeyOrder (fun _ => True) slice_compare.
Proof. split; [intros; apply slice_compare_antisym|]. intros a b d _ _ _. apply slice_le_trans. Qed.
