(* ===== verification/KVStore.v ===== *)
(** * The key-value interface the tools use

    Every tool keeps its counters in LevelDB databases and touches them only
    through [DB::Get], [DB::Put], [DB::Delete] and an iterator started with
    [SeekToFirst].  [KVStore] lists these operations, [KVLaws] what
    include/leveldb/db.h and include/leveldb/iterator.h promise about them:
    the statuses are values, a status that is neither OK nor NotFound promises
    nothing, and the iterator visits the entries in bytewise order.
    [KVReliable] adds that no operation fails.  The tools' theorems are proved
    against these classes, with [gmap] as the reference instance; DbWrite.v
    shows how LevelDB's own write path comes to answer reads from such a map. *)

From S2P Require Import Prelude Slice.

(** The status of [Get], with the value it stored. *)
Inductive get_result := Found (v : bytes) | NotFound | GetError.

Class KVStore (DB : Type) := {
  db_get : bytes -> DB -> get_result;
  db_put : bytes -> bytes -> DB -> bool * DB;
  db_delete : bytes -> DB -> bool * DB;
  db_entries : DB -> list (bytes * bytes);
  db_contents : DB -> gmap bytes bytes;
}.

Class KVLaws (DB : Type) `{KVStore DB} : Prop := {
  get_found k v d : db_get k d = Found v -> db_contents d !! k = Some v;
  get_not_found k d : db_get k d = NotFound -> db_contents d !! k = None;
  put_ok k v d d' : db_put k v d = (true, d') -> db_contents d' = <[k := v]> (db_contents d);
  delete_ok k d d' : db_delete k d = (true, d') -> db_contents d' = delete k (db_contents d);
  entries_contents d k v : (k, v) ∈ db_entries d <-> db_contents d !! k = Some v;
  entries_sorted d : StronglySorted slice_lt (fst <$> db_entries d);
}.

Class KVReliable (DB : Type) `{KVStore DB} : Prop := {
  reliable_laws :: KVLaws DB;
  get_no_error k d : db_get k d <> GetError;
  put_no_error k v d : fst (db_put k v d) = true;
  delete_no_error k d : fst (db_delete k d) = true;
}.

(** ** The reference instance *)

Definition entry_le (e1 e2 : bytes * bytes) : Prop := slice_le (fst e1) (fst e2).

#[global] Instance entry_le_dec : RelDecision entry_le.
Proof. intros e1 e2. unfold entry_le. apply _. Defined.

#[global] Instance entry_le_total : Total entry_le.
Proof. intros e1 e2. apply slice_le_total. Qed.

#[global] Instance entry_le_trans : Transitive entry_le.
Proof. intros e1 e2 e3. apply slice_le_trans. Qed.

#[global] Instance gmap_kv : KVStore (gmap bytes bytes) := {|
  db_get k d := match d !! k with Some v => Found v | None => NotFound end;
  db_put k v d := (true, <[k := v]> d);
  db_delete k d := (true, delete k d);
  db_entries d := merge_sort entry_le (map_to_list d);
  db_contents d := d;
|}.

(** Sorting by key a list with distinct keys gives strictly increasing keys. *)
Lemma sorted_keys_strict (l : list (bytes * bytes)) :
  NoDup l.*1 -> Sorted entry_le l -> StronglySorted slice_lt l.*1.
Proof.
  intros Hnd Hs%Sorted_StronglySorted; [|apply _].
  induction Hs as [|e l _ IH Hf]; cbn in *; [constructor|].
  apply NoDup_cons in Hnd as [Hni Hnd]. constructor; [auto|].
  apply Forall_fmap, Forall_forall. intros e' He'. cbn.
  pose proof (proj1 (Forall_forall _ _) Hf e' He') as Hle.
  apply slice_le_lteq in Hle as [?|E]; [done|]. destruct Hni. rewrite E. by apply list_elem_of_fmap_2.
Qed.

#[global] Instance gmap_kv_reliable : KVReliable (gmap bytes bytes).
Proof.
  split; [|by intros k d; cbn; case_match|done|done]. split.
  - intros k v d. cbn. case_match; congruence.
  - intros k d. cbn. case_match; congruence.
  - intros k v d d' [= <-]. done.
  - intros k d d' [= <-]. done.
  - intros d k v. cbn. rewrite merge_sort_Permutation. apply elem_of_map_to_list.
  - intros d. cbn. apply sorted_keys_strict; [|apply Sorted_merge_sort; apply _].
    rewrite merge_sort_Permutation. apply NoDup_fst_map_to_list.
Qed.

(** ** Consequences the clients use *)

Section Laws.
Context {DB : Type} `{KVReliable DB}.

Lemma get_reliable k (d : DB) :
  db_get k d = match db_contents d !! k with Some v => Found v | None => NotFound end.
Proof.
  destruct (db_get k d) eqn:E.
  - by rewrite (get_found _ _ _ E).
  - by rewrite (get_not_found _ _ E).
  - by destruct (get_no_error k d).
Qed.

Lemma put_contents k v (d : DB) : db_contents (snd (db_put k v d)) = <[k := v]> (db_contents d).
Proof.
  pose proof (put_no_error k v d) as E. apply (put_ok k v d).
  destruct (db_put k v d); cbn in *. by subst.
Qed.

Lemma delete_contents k (d : DB) : db_contents (snd (db_delete k d)) = delete k (db_contents d).
Proof.
  pose proof (delete_no_error k d) as E. apply (delete_ok k d).
  destruct (db_delete k d); cbn in *. by subst.
Qed.

(** Delete followed by Put of the same key is one insertion. *)
Lemma delete_put_contents k v (d : DB) :
  db_contents (snd (db_put k v (snd (db_delete k d)))) = <[k := v]> (db_contents d).
Proof. by rewrite put_contents, delete_contents, insert_delete_eq. Qed.

Lemma entries_keys_nodup (d : DB) : NoDup (db_entries d).*1.
Proof.
  induction (entries_sorted d) as [|k l _ IH Hf]; [constructor|].
  constructor; [|done]. intros Hk. eapply Forall_forall in Hf; [|done].
  by apply slice_lt_irrefl in Hf.
Qed.
End Laws.
