(* ===== verification/Neighbors.v ===== *)
(** * Neighbour lists stored as database values

    The left and right databases of the locality-based attack map a
    fingerprint to a packed array of records: a six-byte neighbour fingerprint
    followed by a little-endian [uint64_t] count.  attack/locality/locality_count.cc
    searches and updates such a value in place; attack/locality/locality_attack.cc
    walks it.  This file holds both sides and the list they represent. *)

From S2P Require Import Prelude.

(** One record: [FP_SIZE + sizeof(uint64_t)] bytes. *)
Definition REC_SIZE : nat := 14.

(** ** Reading memory behind [c_str()]: the bytes and the terminating NUL *)

(** Dereferencing a [uint64_t] pointer at [s.c_str() + off]. *)
Definition load_u64 (s : bytes) (off : nat) : outcome Z :=
  let buf := s ++ [x00] in
  if (off + 8 <=? length buf)%nat then Ret (le_combine (take 8 (drop off buf))) else Undef.

(** [memcmp(s.c_str() + off, k, FP_SIZE)] *)
Definition memcmp_at (s : bytes) (off : nat) (k : bytes) : outcome Z :=
  let buf := s ++ [x00] in
  if (off + FP_SIZE <=? length buf)%nat then Ret (memcmp FP_SIZE (drop off buf) k) else Undef.

(** [s.replace(pos, n, tmp, n)]: throws past the end. *)
Definition str_replace (s : bytes) (pos n : nat) (tmp : bytes) : outcome bytes :=
  if (pos <=? length s)%nat then Ret (take pos s ++ tmp ++ drop (pos + n) s) else Exit 134.

(** [str.assign(k); str.resize(FP_SIZE);] for a [char k[FP_SIZE]]: the C string in [k],
    padded.  Without a NUL among the six bytes the copy reads past the array. *)
Definition assign_key (k : bytes) : outcome bytes :=
  if bool_decide (x00 ∈ k) then Ret (str_resize FP_SIZE (cstr k)) else Undef.

(** ** Updating a value *)

(** [while ((unsigned int)pos < existing_value.size() - 1) ...] with [int pos]: the
    position of the neighbour's record, and whether it was found ([xi]).  The sum of
    [pos += FP_SIZE + sizeof(uint64_t)] is a [size_t] and comes back as an [int]; a
    negative position is before the string. *)
Fixpoint find_record (fuel : nat) (pos : Z) (ex nb : bytes) : outcome (Z * bool) :=
  match fuel with
  | O => Undef
  | S fuel' =>
      if u32 pos <? u64 (Z.of_nat (length ex) - 1) then
        if pos <? 0 then Undef
        else
          c ← memcmp_at ex (Z.to_nat pos) nb;
          if c =? 0 then Ret (pos, true) else find_record fuel' (i32 (u64 (pos + Z.of_nat REC_SIZE))) ex nb
      else Ret (pos, false)
  end.

(** A found value: append a record with count 1, or increment the count. *)
Definition bump_value (ex nb : bytes) : outcome bytes :=
  '(pos, xi) ← find_record (S (length ex)) 0 ex nb;
  if xi : bool then
    icm ← load_u64 ex (Z.to_nat pos + FP_SIZE);
    str_replace ex (Z.to_nat pos + FP_SIZE) 8 (le_split 8 (u64 (icm + 1)))
  else Ret (ex ++ nb ++ le_split 8 1).

(** A fresh value: one record with count 1. *)
Definition fresh_value (nb : bytes) : bytes := nb ++ le_split 8 1.

(** ** Walking a value *)

(** [while (len < existing_value.size()) { ... len += FP_SIZE + sizeof(uint64_t); }] *)
Fixpoint decode_records (fuel len : nat) (ex : bytes) : outcome (list (bytes * Z)) :=
  match fuel with
  | O => Ret []
  | S fuel' =>
      if (len <? length ex)%nat then
        tmp ← load_u64 ex (len + FP_SIZE);
        rest ← decode_records fuel' (len + REC_SIZE) ex;
        Ret ((take FP_SIZE (drop len (ex ++ [x00])), tmp) :: rest)
      else Ret []
  end.

Definition neighbors (ex : bytes) : outcome (list (bytes * Z)) :=
  decode_records (length ex) 0 ex.

(** ** The list a value represents *)

Definition enc_record (r : bytes * Z) : bytes := r.1 ++ le_split 8 r.2.
Definition enc_records (l : list (bytes * Z)) : bytes := concat (enc_record <$> l).

Definition record_ok (r : bytes * Z) : Prop := length r.1 = FP_SIZE /\ 0 <= r.2 < 2 ^ 64.

(** The abstract update: an association list with counts. *)
Fixpoint bump_assoc (nb : bytes) (l : list (bytes * Z)) : list (bytes * Z) :=
  match l with
  | [] => [(nb, 1)]
  | (k, c) :: l' =>
      if bool_decide (k = nb) then (k, u64 (c + 1)) :: l' else (k, c) :: bump_assoc nb l'
  end.

(** The count of a neighbour, 0 when it is absent. *)
Fixpoint assoc_count (nb : bytes) (l : list (bytes * Z)) : Z :=
  match l with
  | [] => 0
  | (k, c) :: l' => if bool_decide (k = nb) then c else assoc_count nb l'
  end.

(** ** Lemmas: the encoding *)

Lemma enc_record_length r : record_ok r -> length (enc_record r) = REC_SIZE.
Proof. intros [H _]. unfold enc_record. rewrite length_app, le_split_length, H. done. Qed.

Lemma enc_records_length l : Forall record_ok l -> length (enc_records l) = (REC_SIZE * length l)%nat.
Proof.
  induction 1 as [|r l Hr _ IH]; [done|]. unfold enc_records in *. cbn [fmap list_fmap concat].
  rewrite length_app, IH, enc_record_length by done. cbn [length]. unfold REC_SIZE. lia.
Qed.

Lemma enc_records_cons r l : enc_records (r :: l) = r.1 ++ le_split 8 r.2 ++ enc_records l.
Proof. unfold enc_records, enc_record. cbn [fmap list_fmap concat]. by rewrite app_assoc. Qed.

Lemma enc_records_app l1 l2 : enc_records (l1 ++ l2) = enc_records l1 ++ enc_records l2.
Proof. unfold enc_records. by rewrite fmap_app, concat_app. Qed.

Lemma drop_app_len {A} n (p s : list A) : length p = n -> drop n (p ++ s) = s.
Proof. intros <-. apply drop_app_length. Qed.

Lemma take_app_len {A} n (p s : list A) : length p = n -> take n (p ++ s) = p.
Proof. intros <-. apply take_app_length. Qed.

(** Loading the count of a record in the middle of a value. *)
Lemma load_u64_record p k c s :
  length k = FP_SIZE -> 0 <= c < 2 ^ 64 ->
  load_u64 (p ++ k ++ le_split 8 c ++ s) (length p + FP_SIZE) = Ret c.
Proof.
  intros Hk Hc. unfold load_u64.
  assert (p ++ k ++ le_split 8 c ++ s = (p ++ k) ++ le_split 8 c ++ s) as -> by by rewrite app_assoc.
  rewrite <- !app_assoc. rewrite (app_assoc p k).
  rewrite (proj2 (Nat.leb_le _ _)) by len.
  rewrite drop_app_len by len.
  rewrite take_app_len by apply le_split_length. by rewrite le64_roundtrip.
Qed.

Lemma memcmp_at_record p k c s nb :
  length k = FP_SIZE -> length nb = FP_SIZE ->
  exists z, memcmp_at (p ++ k ++ le_split 8 c ++ s) (length p) nb = Ret z /\ (z =? 0) = bool_decide (k = nb).
Proof.
  intros Hk Hnb. unfold memcmp_at. rewrite <- !app_assoc.
  rewrite (proj2 (Nat.leb_le _ _)) by len.
  rewrite drop_app_length. eexists. split; [done|].
  replace (memcmp FP_SIZE (k ++ le_split 8 c ++ s ++ [x00]) nb) with (memcmp FP_SIZE k nb).
  - case_bool_decide as E.
    + apply Z.eqb_eq. by apply memcmp_eq.
    + apply Z.eqb_neq. by rewrite memcmp_eq.
  - destruct k as [|? [|? [|? [|? [|? [|? [|]]]]]]], nb as [|? [|? [|? [|? [|? [|? [|]]]]]]]; done.
Qed.

Lemma records_ok_middle l1 k c l2 :
  Forall record_ok l1 -> length k = FP_SIZE -> 0 <= c < 2 ^ 64 -> Forall record_ok l2 ->
  Forall record_ok (l1 ++ (k, c) :: l2).
Proof. intros. apply Forall_app. split; [done|]. by constructor. Qed.

(** ** Lemmas: the search *)

(** The position after [n] records. *)
Definition rec_pos (n : nat) : Z := Z.of_nat (REC_SIZE * n).

Lemma rec_pos_next n : rec_pos (S n) < 2 ^ 31 -> u32 (rec_pos n) = rec_pos n /\ i32 (u64 (rec_pos n + Z.of_nat REC_SIZE)) = rec_pos (S n).
Proof.
  unfold rec_pos, REC_SIZE. intros Hn. rewrite u32_small, u64_small, i32_small by lia. lia.
Qed.

Lemma find_record_spec fuel l1 l2 nb :
  Forall record_ok l1 -> Forall record_ok l2 -> length nb = FP_SIZE ->
  l1 ++ l2 <> [] -> (length l2 < fuel)%nat ->
  rec_pos (length l1 + length l2) < 2 ^ 31 ->
  (forall r, r ∈ l1 -> r.1 <> nb) ->
  (exists l2' k c l2'', l2 = l2' ++ (k, c) :: l2'' /\ k = nb /\ (forall r, r ∈ l2' -> r.1 <> nb) /\
     find_record fuel (rec_pos (length l1)) (enc_records (l1 ++ l2)) nb = Ret (rec_pos (length l1 + length l2'), true))
  \/ ((forall r, r ∈ l2 -> r.1 <> nb) /\ exists pos,
     find_record fuel (rec_pos (length l1)) (enc_records (l1 ++ l2)) nb = Ret (pos, false)).
Proof.
  intros Hl1 Hl2 Hnb. revert fuel l1 Hl1. induction Hl2 as [|[k c] l2 [Hk Hc] Hl2 IH];
    intros fuel l1 Hl1 Hne Hf Hb Hni; (destruct fuel as [|fuel]; [cbn in Hf; lia|]); cbn [find_record].
  - right. split; [set_solver|]. rewrite app_nil_r in *. rewrite enc_records_length by done.
    exists (rec_pos (length l1)). cbn [length] in Hb.
    assert (0 < length l1)%nat by (destruct l1; [done|cbn; lia]).
    unfold rec_pos, REC_SIZE in *. rewrite u32_small, u64_small by lia.
    by rewrite (proj2 (Z.ltb_ge _ _)) by lia.
  - destruct (rec_pos_next (length l1)) as [-> ->]; [unfold rec_pos, REC_SIZE in *; cbn [length] in Hb; lia|].
    rewrite enc_records_length by (by apply records_ok_middle). rewrite length_app. cbn [length] in *.
    rewrite u64_small by (unfold rec_pos, REC_SIZE in *; lia).
    rewrite (proj2 (Z.ltb_lt _ _)) by (unfold rec_pos, REC_SIZE; lia).
    rewrite (proj2 (Z.ltb_ge _ _)) by (unfold rec_pos; lia).
    destruct (memcmp_at_record (enc_records l1) k c (enc_records l2) nb Hk Hnb) as (z & Hz & Hzb).
    rewrite enc_records_length in Hz by done. replace (Z.to_nat (rec_pos (length l1))) with (REC_SIZE * length l1)%nat by (unfold rec_pos; lia).
    rewrite enc_records_app, enc_records_cons. cbn [fst snd]. rewrite Hz. run.
    rewrite Hzb. case_bool_decide as E.
    + left. exists [], k, c, l2. split_and!; [done|done|set_solver|]. cbn [length]. by rewrite Nat.add_0_r.
    + specialize (IH fuel (l1 ++ [(k, c)])). rewrite <- app_assoc in IH. cbn [app] in IH.
      rewrite enc_records_app, enc_records_cons in IH. cbn [fst snd] in IH.
      rewrite length_app in IH. cbn [length] in *. rewrite Nat.add_1_r in IH.
      destruct IH as [(l2' & k' & c' & l2'' & -> & -> & Hn & Hfr)|[Hn Hfr]].
      * by apply records_ok_middle.
      * by destruct l1.
      * lia.
      * unfold rec_pos, REC_SIZE in *. lia.
      * intros r [?|Hr]%elem_of_app; [auto|]. set_solver.
      * left. exists ((k, c) :: l2'), nb, c', l2''. split_and!; [done|done|set_solver|].
        rewrite Hfr. cbn [length]. do 3 f_equal. lia.
      * right. split; [set_solver|done].
Qed.

Lemma bump_assoc_app nb l1 c l2 :
  (forall r, r ∈ l1 -> r.1 <> nb) -> bump_assoc nb (l1 ++ (nb, c) :: l2) = l1 ++ (nb, u64 (c + 1)) :: l2.
Proof.
  induction l1 as [|[k d] l1 IH]; intros Hn; cbn.
  - by rewrite bool_decide_eq_true_2.
  - rewrite bool_decide_eq_false_2 by (apply (Hn (k, d)); by left).
    f_equal. apply IH. set_solver.
Qed.

Lemma bump_assoc_fresh nb l : (forall r, r ∈ l -> r.1 <> nb) -> bump_assoc nb l = l ++ [(nb, 1)].
Proof.
  induction l as [|[k d] l IH]; intros Hn; cbn; [done|].
  rewrite bool_decide_eq_false_2 by (apply (Hn (k, d)); by left). f_equal. apply IH. set_solver.
Qed.

(** The in-place update of the packed value implements the abstract update. *)
Lemma bump_value_spec l nb :
  l <> [] -> Forall record_ok l -> length nb = FP_SIZE ->
  rec_pos (length l) < 2 ^ 31 ->
  bump_value (enc_records l) nb = Ret (enc_records (bump_assoc nb l)).
Proof.
  intros Hne Hl Hnb Hb. unfold bump_value.
  destruct (find_record_spec (S (length (enc_records l))) [] l nb) as
    [(l1 & k & c & l2 & -> & -> & Hn & Hf)|[Hn [pos Hf]]]; auto.
  - rewrite enc_records_length by done. unfold REC_SIZE. lia.
  - set_solver.
  - cbn [app length Nat.add] in Hf. change (rec_pos 0) with 0 in Hf. rewrite Hf. run.
    apply Forall_app in Hl as [Hl1 [[Hk Hc] Hl2]%Forall_cons]. cbn in Hc.
    rewrite enc_records_app, enc_records_cons. cbn [fst snd].
    replace (Z.to_nat (rec_pos (length l1))) with (length (enc_records l1))
      by (rewrite enc_records_length by done; unfold rec_pos; lia).
    rewrite load_u64_record by done. run.
    unfold str_replace.
    rewrite (proj2 (Nat.leb_le _ _)) by len.
    rewrite bump_assoc_app by done. rewrite enc_records_app, enc_records_cons. cbn [fst snd].
    set (X := enc_records l1 ++ nb ++ le_split 8 c ++ enc_records l2).
    assert (take (length (enc_records l1) + FP_SIZE) X = enc_records l1 ++ nb) as ->.
    { subst X. rewrite (app_assoc _ nb). apply take_app_len. rewrite length_app. lia. }
    assert (drop (length (enc_records l1) + FP_SIZE + 8) X = enc_records l2) as ->.
    { subst X. rewrite (app_assoc _ nb), (app_assoc _ (le_split 8 c)). apply drop_app_len.
      rewrite !length_app, le_split_length. lia. }
    by rewrite <- app_assoc.
  - cbn [app length Nat.add] in Hf. change (rec_pos 0) with 0 in Hf. rewrite Hf. run.
    rewrite bump_assoc_fresh by done. rewrite enc_records_app, enc_records_cons. cbn [fst snd].
    unfold enc_records at 3. cbn. by rewrite app_nil_r.
Qed.

Lemma fresh_value_spec nb : fresh_value nb = enc_records (bump_assoc nb []).
Proof. change (bump_assoc nb []) with [(nb, 1)]. rewrite enc_records_cons. cbn [fst snd]. unfold enc_records. cbn. by rewrite app_nil_r. Qed.

(** Walking an encoded value gives the list back. *)
Lemma decode_records_spec fuel l1 l2 :
  Forall record_ok l1 -> Forall record_ok l2 -> (length l2 < fuel)%nat \/ (length l2 = 0)%nat ->
  decode_records fuel (REC_SIZE * length l1) (enc_records (l1 ++ l2)) = Ret l2.
Proof.
  intros Hl1 Hl2. revert fuel l1 Hl1. induction Hl2 as [|[k c] l2 [Hk Hc] Hl2 IH]; intros fuel l1 Hl1 Hf.
  - destruct fuel; [done|]. cbn [decode_records]. rewrite app_nil_r.
    rewrite enc_records_length by done. by rewrite Nat.ltb_irrefl.
  - cbn [length] in Hf. destruct fuel as [|fuel]; [lia|]. cbn [decode_records].
    assert (REC_SIZE * length l1 < length (enc_records (l1 ++ (k, c) :: l2)))%nat as Hlt.
    { rewrite enc_records_length by (by apply records_ok_middle).
      rewrite length_app. cbn [length]. unfold REC_SIZE. lia. }
    rewrite (proj2 (Nat.ltb_lt _ _) Hlt).
    specialize (IH fuel (l1 ++ [(k, c)])). rewrite <- app_assoc in IH. cbn [app] in IH.
    rewrite length_app in IH. cbn [length] in IH.
    replace (REC_SIZE * (length l1 + 1))%nat with (REC_SIZE * length l1 + REC_SIZE)%nat in IH
      by (unfold REC_SIZE; lia).
    rewrite IH by (by apply records_ok_middle || lia).
    rewrite enc_records_app, enc_records_cons. cbn [fst snd].
    rewrite <- (enc_records_length l1) by done. rewrite load_u64_record by done.
    run. rewrite <- app_assoc, drop_app_length, <- app_assoc.
    by rewrite take_app_len by done.
Qed.

Lemma neighbors_enc l : Forall record_ok l -> neighbors (enc_records l) = Ret l.
Proof.
  intros Hl. unfold neighbors. apply (decode_records_spec _ []); [done|done|].
  rewrite enc_records_length by done. destruct l; [by right|]. left. unfold REC_SIZE. cbn [length]. lia.
Qed.

(** ** Lemmas: the abstract update *)

Lemma assoc_count_bump nb nb' l :
  NoDup l.*1 ->
  assoc_count nb' (bump_assoc nb l) =
    if bool_decide (nb = nb') then u64 (assoc_count nb l + 1) else assoc_count nb' l.
Proof.
  induction l as [|[k c] l IH]; cbn; intros Hnd; [by case_bool_decide|].
  apply NoDup_cons in Hnd as [_ Hnd].
  destruct (decide (k = nb)) as [->|E].
  - rewrite bool_decide_eq_true_2 by done. cbn. by case_bool_decide.
  - rewrite bool_decide_eq_false_2 by done. cbn. rewrite IH by done.
    destruct (decide (nb = nb')) as [<-|E2].
    + by rewrite (bool_decide_eq_false_2 (k = nb)), bool_decide_eq_true_2.
    + by rewrite (bool_decide_eq_false_2 (nb = nb')).
Qed.

Lemma bump_assoc_keys nb l : (bump_assoc nb l).*1 = if bool_decide (nb ∈ l.*1) then l.*1 else l.*1 ++ [nb].
Proof.
  induction l as [|[k c] l IH]; cbn; [done|].
  destruct (decide (k = nb)) as [->|E].
  - rewrite bool_decide_eq_true_2 by done. rewrite bool_decide_eq_true_2 by (by left). done.
  - rewrite bool_decide_eq_false_2 by done. cbn. rewrite IH.
    repeat case_bool_decide; try done; set_solver.
Qed.

Lemma bump_assoc_nodup nb l : NoDup l.*1 -> NoDup (bump_assoc nb l).*1.
Proof.
  intros H. rewrite bump_assoc_keys. case_bool_decide; [done|].
  apply NoDup_app. split_and!; [done|set_solver|apply NoDup_singleton].
Qed.

Lemma bump_assoc_ok nb l : length nb = FP_SIZE -> Forall record_ok l -> Forall record_ok (bump_assoc nb l).
Proof.
  intros Hnb. induction 1 as [|[k c] l [Hk Hc] Hl IH]; cbn.
  - repeat constructor; done.
  - case_bool_decide; constructor; try done. split; [done|]. apply u64_range.
Qed.

Lemma bump_assoc_nonempty nb l : bump_assoc nb l <> [].
Proof. destruct l as [|[k c] l]; cbn; [done|]. by case_bool_decide. Qed.

Lemma bump_assoc_length nb l : (length (bump_assoc nb l) <= S (length l))%nat.
Proof. induction l as [|[k c] l IH]; cbn; [lia|]. case_bool_decide; cbn; lia. Qed.

(** ** Lemmas: the neighbour key *)

(** What is stored for a neighbour: its bytes up to the first NUL, padded. *)
Definition nb_key (k : bytes) : bytes := str_resize FP_SIZE (cstr k).

Lemma assign_key_nul k : x00 ∈ k -> assign_key k = Ret (nb_key k).
Proof. intros Hk. unfold assign_key. by rewrite bool_decide_eq_true_2. Qed.

Lemma assign_key_undef k : x00 ∉ k -> assign_key k = Undef.
Proof. intros Hk. unfold assign_key. by rewrite bool_decide_eq_false_2. Qed.

Lemma nb_key_length k : length (nb_key k) = FP_SIZE.
Proof. apply str_resize_length. Qed.
