(* ===== verification/Count.v ===== *)
(** * The counting tools

    attack/basic/basic_count.cc ([BasicCount]) counts how often each
    fingerprint occurs in a trace; attack/locality/locality_count.cc
    ([LocalityCount], also copied into the three defense directories) counts in
    addition, for each fingerprint, its left and right neighbours.  The
    databases are any [KVStore]. *)

From S2P Require Import Prelude CLib Trace KVStore Neighbors.

(** ** Specification vocabulary *)

(** Occurrences in a list, as an integer. *)
Definition occ {A} `{EqDecision A} (x : A) (l : list A) : Z :=
  Z.of_nat (length (base.filter (fun y => y = x) l)).

Section Spec.
Context {DB : Type} `{KVStore DB}.

(** The frequency a database records for a fingerprint. *)
Definition freq (d : DB) (k : bytes) : Z :=
  match db_contents d !! k with Some v => le_combine v | None => 0 end.

(** Every value of a frequency database is a [uint64_t]. *)
Definition freq_wf (d : DB) : Prop := map_Forall (fun _ v => length v = 8%nat) (db_contents d).

(** The count a neighbour database records for neighbour [x] of [y]. *)
Definition nbcount (d : DB) (y x : bytes) : Z :=
  match db_contents d !! y with
  | Some v => match neighbors v with Ret l => assoc_count x l | _ => 0 end
  | None => 0
  end.

(** Every value of a neighbour database is a packed list of at most [n]
    distinct neighbours. *)
Definition nb_wf (n : nat) (d : DB) : Prop :=
  map_Forall (fun _ v => exists l, v = enc_records l /\ l <> [] /\ Forall record_ok l /\
    NoDup l.*1 /\ (length l <= n)%nat) (db_contents d).
End Spec.

(** The adjacent pairs of a trace, given the chunk before it. *)
Fixpoint adjacent (prev : option bytes) (l : list bytes) : list (bytes * bytes) :=
  match l with
  | [] => []
  | h :: l' => match prev with Some p => [(p, h)] | None => [] end ++ adjacent (Some h) l'
  end.

(** ** basic_count.cc *)

Module BasicCount.
Section Ops.
Context {DB : Type} `{KVStore DB}.

(** The body of the [read_hashes] loop after the fingerprint has been parsed:
    any status but OK, an I/O error included, starts the count at 1. *)
Definition count_chunk (hash : bytes) (db : DB) : outcome DB :=
  '(count, db) ← match db_get hash db with
                 | Found existing =>
                     c ← load_u64 existing 0;
                     Ret (u64 (c + 1), (db_delete hash db).2)
                 | _ => Ret (1, db)
                 end;
  Ret (db_put hash (le_split 8 count) db).2.

Definition read_hashes (file : bytes) (db : DB) : outcome DB :=
  foldM count_chunk (trace_hashes file) db.
End Ops.
End BasicCount.

(** ** locality_count.cc *)

Module LocalityCount.
Record state (DB : Type) := State {
  db : DB;
  store_left : DB;
  store_right : DB;
  last : bytes;
  flag : bool;
}.
Arguments State {DB}.
Arguments db {DB}.
Arguments store_left {DB}.
Arguments store_right {DB}.
Arguments last {DB}.
Arguments flag {DB}.

Section Ops.
Context {DB : Type} `{KVStore DB}.

(** The frequency part: as in basic_count.cc, but a LevelDB error exits. *)
Definition count_freq (hash : bytes) (db : DB) : outcome DB :=
  '(count, db) ← match db_get hash db with
                 | Found existing =>
                     c ← load_u64 existing 0;
                     Ret (u64 (c + 1), (db_delete hash db).2)
                 | NotFound => Ret (1, db)
                 | GetError => Exit 1
                 end;
  Ret (db_put hash (le_split 8 count) db).2.

(** Record the neighbour [nb] of [k]. *)
Definition update_neighbor (store : DB) (k nb : bytes) : outcome DB :=
  match db_get k store with
  | Found existing =>
      value ← bump_value existing nb;
      Ret (db_put k value (db_delete k store).2).2
  | NotFound => Ret (db_put k (fresh_value nb) store).2
  | GetError => Exit 1
  end.

Definition count_left (hash : bytes) (st : state DB) : outcome DB :=
  last_value ← assign_key (last st);
  update_neighbor (store_left st) hash last_value.

Definition count_right (hash : bytes) (st : state DB) : outcome DB :=
  next_value ← assign_key hash;
  update_neighbor (store_right st) (last st) next_value.

(** One round of the [read_hashes] loop. *)
Definition count_chunk (hash : bytes) (st : state DB) : outcome (state DB) :=
  db' ← count_freq hash (db st);
  if flag st then
    left' ← count_left hash st;
    right' ← count_right hash st;
    Ret (State db' left' right' hash true)
  else Ret (State db' (store_left st) (store_right st) hash true).

(** [read_hashes] on the three opened databases. *)
Definition read_hashes (file : bytes) (db left right : DB) : outcome (state DB) :=
  foldM count_chunk (trace_hashes file) (State db left right (replicate FP_SIZE x00) false).
End Ops.
End LocalityCount.

(** ** Counting occurrences *)

Lemma occ_nil {A} `{EqDecision A} (x : A) : occ x [] = 0.
Proof. done. Qed.

Lemma occ_cons {A} `{EqDecision A} (x y : A) l :
  occ x (y :: l) = (if bool_decide (y = x) then 1 else 0) + occ x l.
Proof.
  unfold occ. rewrite filter_cons. case_decide; case_bool_decide; try done; cbn [length]; lia.
Qed.

Lemma occ_nonneg {A} `{EqDecision A} (x : A) l : 0 <= occ x l.
Proof. unfold occ. lia. Qed.

Lemma u64_add_u64 a b : u64 (u64 a + b) = u64 (a + b).
Proof. apply u64_add_l. Qed.

(** ** Frequencies *)

Section Freq.
Context {DB : Type} `{KVReliable DB}.

Lemma load_u64_whole v : length v = 8%nat -> load_u64 v 0 = Ret (le_combine v).
Proof.
  intros Hv. unfold load_u64. rewrite length_app, Hv. rewrite drop_0.
  by rewrite take_app_len by done.
Qed.

Lemma freq_range (d : DB) k : freq_wf d -> 0 <= freq d k < 2 ^ 64.
Proof.
  intros Hd. unfold freq. destruct (db_contents d !! k) as [v|] eqn:E; [|lia].
  pose proof (Hd _ _ E) as Hv. cbn in Hv. pose proof (le_combine_range v) as Hr.
  rewrite Hv in Hr. done.
Qed.

Lemma count_chunk_spec hash (d : DB) :
  freq_wf d ->
  exists d', BasicCount.count_chunk hash d = Ret d' /\ LocalityCount.count_freq hash d = Ret d' /\
    db_contents d' = <[hash := le_split 8 (u64 (freq d hash + 1))]> (db_contents d).
Proof.
  intros Hd. unfold BasicCount.count_chunk, LocalityCount.count_freq, freq. rewrite get_reliable.
  destruct (db_contents d !! hash) as [v|] eqn:E.
  - rewrite load_u64_whole by (by eapply (Hd hash)). run.
    eexists. split_and!; [done|done|]. apply delete_put_contents.
  - run. eexists. split_and!; [done|done|]. apply put_contents.
Qed.

Lemma freq_insert (d d' : DB) hash k :
  freq_wf d -> db_contents d' = <[hash := le_split 8 (u64 (freq d hash + 1))]> (db_contents d) ->
  freq_wf d' /\
  freq d' k = u64 (freq d k + (if bool_decide (hash = k) then 1 else 0)).
Proof.
  intros Hd E. split.
  - unfold freq_wf. rewrite E. apply map_Forall_insert_2; [apply le_split_length|done].
  - unfold freq at 1. rewrite E, lookup_insert. case_decide as D; case_bool_decide; try done; subst.
    + rewrite le64_roundtrip by apply u64_range. done.
    + fold (freq d k). rewrite Z.add_0_r, u64_small by (by apply freq_range). done.
Qed.

(** Counting a list of fingerprints adds its occurrences. *)
Lemma count_list_spec l (d : DB) :
  freq_wf d ->
  exists d', foldM BasicCount.count_chunk l d = Ret d' /\ freq_wf d' /\
    (forall k, freq d' k = u64 (freq d k + occ k l)) /\
    dom (db_contents d') = dom (db_contents d) ∪ list_to_set l.
Proof.
  revert d. induction l as [|h l IH]; intros d Hd; cbn [foldM].
  - exists d. split_and!; [done|done| |set_solver]. intros k. rewrite occ_nil, Z.add_0_r.
    by rewrite u64_small by (by apply freq_range).
  - destruct (count_chunk_spec h d Hd) as (d1 & E & _ & Hc). rewrite E. run.
    destruct (IH d1) as (d' & -> & Hwf & Hf & Hdom); [by apply (freq_insert d d1 h h)|].
    exists d'. split_and!; [done|done| |].
    + intros k. destruct (freq_insert d d1 h k Hd Hc) as [_ Hk].
      rewrite Hf, Hk, occ_cons, u64_add_u64. f_equal. lia.
    + rewrite Hdom, Hc, dom_insert_L. set_solver.
Qed.
End Freq.

(** ** Neighbours *)

Section Neighbour.
Context {DB : Type} `{KVReliable DB}.

Lemma nb_wf_mono n m (d : DB) : (n <= m)%nat -> nb_wf n d -> nb_wf m d.
Proof.
  intros Hnm Hd k v Hk. destruct (Hd k v Hk) as (l & ? & ? & ? & ? & ?).
  exists l. split_and!; auto. lia.
Qed.

Lemma nb_wf_empty n (d : DB) : db_contents d = ∅ -> nb_wf n d.
Proof. intros E. unfold nb_wf. rewrite E. apply map_Forall_empty. Qed.

Lemma nbcount_enc (d : DB) y x l :
  db_contents d !! y = Some (enc_records l) -> Forall record_ok l -> nbcount d y x = assoc_count x l.
Proof. intros E Hl. unfold nbcount. by rewrite E, neighbors_enc. Qed.

Lemma assoc_count_range x l : Forall record_ok l -> 0 <= assoc_count x l < 2 ^ 64.
Proof.
  induction 1 as [|[k c] l [_ Hc] _ IH]; cbn; [lia|]. case_bool_decide; [done|done].
Qed.

Lemma nbcount_range n (d : DB) y x : nb_wf n d -> 0 <= nbcount d y x < 2 ^ 64.
Proof.
  intros Hd. unfold nbcount. destruct (db_contents d !! y) as [v|] eqn:E; [|lia].
  destruct (Hd y v E) as (l & -> & _ & Hl & _). rewrite neighbors_enc by done.
  by apply assoc_count_range.
Qed.

(** Recording one neighbour. *)
Lemma update_neighbor_spec n (d : DB) k nb :
  nb_wf n d -> length nb = FP_SIZE -> rec_pos n < 2 ^ 31 ->
  exists d', LocalityCount.update_neighbor d k nb = Ret d' /\ nb_wf (S n) d' /\
    forall y x, nbcount d' y x =
      u64 (nbcount d y x + if bool_decide (k = y /\ nb = x) then 1 else 0).
Proof.
  intros Hd Hnb Hn. unfold LocalityCount.update_neighbor. rewrite get_reliable.
  assert (exists l, match db_contents d !! k with Some v => v = enc_records l /\ l <> [] | None => l = [] end /\
    Forall record_ok l /\ NoDup l.*1 /\ (length l <= n)%nat) as (l & Hv & Hl & Hnd & Hlen).
  { destruct (db_contents d !! k) as [v|] eqn:E.
    - destruct (Hd k v E) as (l & ? & ? & ? & ? & ?). by exists l.
    - exists []. cbn. split_and!; [done|constructor|constructor|lia]. }
  assert (exists d', match (match db_contents d !! k with Some v => Found v | None => NotFound end) with
    | Found existing => value ← bump_value existing nb; Ret (db_put k value (db_delete k d).2).2
    | NotFound => Ret (db_put k (fresh_value nb) d).2
    | GetError => Exit 1 end = Ret d' /\
    db_contents d' = <[k := enc_records (bump_assoc nb l)]> (db_contents d)) as (d' & -> & Hc).
  { destruct (db_contents d !! k) as [v|] eqn:E.
    - destruct Hv as [-> Hne].
      rewrite bump_value_spec by (auto; unfold rec_pos, REC_SIZE in *; lia). run.
      eexists. split; [done|]. apply delete_put_contents.
    - subst l. rewrite fresh_value_spec. eexists. split; [done|]. apply put_contents. }
  exists d'. split_and!; [done| |].
  - unfold nb_wf. rewrite Hc. apply map_Forall_insert_2.
    + exists (bump_assoc nb l). split_and!; [done|apply bump_assoc_nonempty|by apply bump_assoc_ok|
        by apply bump_assoc_nodup|]. pose proof (bump_assoc_length nb l). lia.
    + by apply (nb_wf_mono n (S n)); [lia|].
  - intros y x. destruct (decide (k = y)) as [<-|Hky].
    + rewrite (nbcount_enc d' k x (bump_assoc nb l)); [|by rewrite Hc, lookup_insert_eq|by apply bump_assoc_ok].
      assert (forall x, nbcount d k x = assoc_count x l) as Hold.
      { intros x'. unfold nbcount. destruct (db_contents d !! k) as [v|] eqn:E.
        - destruct Hv as [-> _]. by rewrite neighbors_enc.
        - by subst l. }
      rewrite assoc_count_bump, !Hold by done. destruct (decide (nb = x)) as [<-|Hx].
      * by rewrite !bool_decide_eq_true_2 by done.
      * rewrite !bool_decide_eq_false_2 by naive_solver.
        rewrite Z.add_0_r, u64_small; [done|]. by apply assoc_count_range.
    + rewrite bool_decide_eq_false_2 by naive_solver. rewrite Z.add_0_r.
      rewrite u64_small by (by eapply nbcount_range). unfold nbcount.
      by rewrite Hc, lookup_insert_ne.
Qed.
End Neighbour.

(** ** The locality loop *)

Section Locality.
Context {DB : Type} `{KVReliable DB}.

Definition prev_of (st : LocalityCount.state DB) : option bytes :=
  if LocalityCount.flag st then Some (LocalityCount.last st) else None.

Definition left_pairs (prev : option bytes) (l : list bytes) : list (bytes * bytes) :=
  (fun p => (nb_key p.1, p.2)) <$> adjacent prev l.
Definition right_pairs (prev : option bytes) (l : list bytes) : list (bytes * bytes) :=
  (fun p => (p.1, nb_key p.2)) <$> adjacent prev l.

(** Both fingerprints of a pair have a NUL among their six bytes. *)
Definition copied (p : bytes * bytes) : Prop := x00 ∈ p.1 /\ x00 ∈ p.2.
#[global] Instance copied_dec p : Decision (copied p).
Proof. unfold copied. apply _. Defined.

(** The invariant of the loop. *)
Definition locality_wf (n : nat) (st : LocalityCount.state DB) : Prop :=
  length (LocalityCount.last st) = FP_SIZE /\ freq_wf (LocalityCount.db st) /\
  nb_wf n (LocalityCount.store_left st) /\ nb_wf n (LocalityCount.store_right st).

Lemma locality_step_spec n h st :
  locality_wf n st -> length h = FP_SIZE -> rec_pos n < 2 ^ 31 -> Forall copied (adjacent (prev_of st) [h]) ->
  exists st', LocalityCount.count_chunk h st = Ret st' /\
    locality_wf (S n) st' /\ prev_of st' = Some h /\
    (forall k, freq (LocalityCount.db st') k
       = u64 (freq (LocalityCount.db st) k + (if bool_decide (h = k) then 1 else 0))) /\
    (forall y x, nbcount (LocalityCount.store_left st') y x
       = u64 (nbcount (LocalityCount.store_left st) y x + occ (x, y) (left_pairs (prev_of st) [h]))) /\
    (forall x y, nbcount (LocalityCount.store_right st') x y
       = u64 (nbcount (LocalityCount.store_right st) x y + occ (x, y) (right_pairs (prev_of st) [h]))).
Proof.
  intros (Hlast & Hf & Hl & Hr) Hh Hn. unfold LocalityCount.count_chunk, left_pairs, right_pairs, prev_of.
  intros Hcp.
  destruct (count_chunk_spec h (LocalityCount.db st) Hf) as (d1 & _ & -> & Hc).
  run.
  pose proof (fun k => freq_insert _ d1 h k Hf Hc) as Hfreq.
  destruct (LocalityCount.flag st).
  - unfold LocalityCount.count_left, LocalityCount.count_right.
    cbn in Hcp. apply Forall_singleton in Hcp as [Hc1 Hc2]. rewrite (assign_key_nul (LocalityCount.last st)), (assign_key_nul h) by done. run.
    destruct (update_neighbor_spec n _ h (nb_key (LocalityCount.last st)) Hl)
      as (l1 & -> & Hl1 & Hcl); [apply nb_key_length|done|]. run.
    destruct (update_neighbor_spec n _ (LocalityCount.last st) (nb_key h) Hr)
      as (r1 & -> & Hr1 & Hcr); [apply nb_key_length|done|]. run.
    eexists. split; [done|]. cbn.
    split; [split_and!; cbn; auto; by apply (Hfreq h)|]. split_and!; auto.
    + intros k. by apply Hfreq.
    + intros y x. rewrite Hcl, occ_cons, occ_nil, Z.add_0_r.
      do 2 f_equal. by repeat case_bool_decide; naive_solver.
    + intros x y. rewrite Hcr, occ_cons, occ_nil, Z.add_0_r.
      do 2 f_equal. by repeat case_bool_decide; naive_solver.
  - eexists. split; [done|]. cbn.
    split; [split_and!; cbn; auto; [by apply (Hfreq h)|by eapply nb_wf_mono; [|done]; lia..]|].
    split_and!; auto.
    + intros k. by apply Hfreq.
    + intros y x. rewrite occ_nil, Z.add_0_r, u64_small; [done|]. by eapply nbcount_range.
    + intros y x. rewrite occ_nil, Z.add_0_r, u64_small; [done|]. by eapply nbcount_range.
Qed.

Lemma occ_app {A} `{EqDecision A} (x : A) l1 l2 : occ x (l1 ++ l2) = occ x l1 + occ x l2.
Proof. induction l1 as [|y l1 IH]; [done|]. cbn [app]. rewrite !occ_cons, IH. lia. Qed.

Lemma adjacent_cons prev h l : adjacent prev (h :: l) = adjacent prev [h] ++ adjacent (Some h) l.
Proof. cbn. by rewrite app_nil_r. Qed.

Lemma locality_list_spec n l st :
  locality_wf n st -> Forall (fun k => length k = FP_SIZE) l ->
  rec_pos (n + length l) < 2 ^ 31 -> Forall copied (adjacent (prev_of st) l) ->
  exists st', foldM LocalityCount.count_chunk l st = Ret st' /\
    locality_wf (n + length l) st' /\
    (forall k, freq (LocalityCount.db st') k = u64 (freq (LocalityCount.db st) k + occ k l)) /\
    (forall y x, nbcount (LocalityCount.store_left st') y x
       = u64 (nbcount (LocalityCount.store_left st) y x + occ (x, y) (left_pairs (prev_of st) l))) /\
    (forall x y, nbcount (LocalityCount.store_right st') x y
       = u64 (nbcount (LocalityCount.store_right st) x y + occ (x, y) (right_pairs (prev_of st) l))).
Proof.
  intros Hw Hl. revert n st Hw. induction Hl as [|h l Hh _ IH]; intros n st Hw Hn Hcp; cbn [foldM].
  - exists st. rewrite Nat.add_0_r. destruct Hw as (? & ? & ? & ?). split_and!; try done;
      intros; unfold left_pairs, right_pairs; cbn; rewrite occ_nil, Z.add_0_r, u64_small; try done;
      [by apply freq_range|by eapply nbcount_range..].
  - cbn [length] in *. rewrite adjacent_cons in Hcp. apply Forall_app in Hcp as [Hcp1 Hcp2].
    destruct (locality_step_spec n h st Hw Hh) as (s1 & -> & Hw1 & Hp & Hf & Hlc & Hrc);
      [unfold rec_pos, REC_SIZE in *; lia|done|]. run.
    destruct (IH (S n) s1 Hw1) as (st' & -> & Hw' & Hf' & Hl' & Hr'); [unfold rec_pos, REC_SIZE in *; lia|by rewrite Hp|].
    exists st'. rewrite Hp in *.
    replace (n + S (length l))%nat with (S n + length l)%nat by lia. split_and!; auto.
    + intros k. rewrite Hf', Hf, u64_add_u64, occ_cons. f_equal. lia.
    + intros y x. rewrite Hl', Hlc, u64_add_u64. unfold left_pairs.
      rewrite (adjacent_cons (prev_of st) h l), fmap_app, occ_app. f_equal. lia.
    + intros x y. rewrite Hr', Hrc, u64_add_u64. unfold right_pairs.
      rewrite (adjacent_cons (prev_of st) h l), fmap_app, occ_app. f_equal. lia.
Qed.

(** The first pair with a fingerprint that cannot be copied ends the run. *)
Lemma locality_step_undef n h st :
  locality_wf n st -> length h = FP_SIZE -> rec_pos n < 2 ^ 31 -> ~ Forall copied (adjacent (prev_of st) [h]) ->
  LocalityCount.count_chunk h st = Undef.
Proof.
  intros (Hlast & Hf & Hl & Hr) Hh Hn. unfold prev_of, LocalityCount.count_chunk, LocalityCount.count_left, LocalityCount.count_right.
  destruct (count_chunk_spec h (LocalityCount.db st) Hf) as (d1 & _ & -> & _). run.
  destruct (LocalityCount.flag st); intros Hcp; [|by destruct Hcp; constructor]. cbn in Hcp.
  destruct (decide (x00 ∈ LocalityCount.last st)) as [H1|H1]; [|by rewrite (assign_key_undef (LocalityCount.last st))].
  rewrite (assign_key_nul (LocalityCount.last st)) by done. run.
  destruct (update_neighbor_spec n _ h (nb_key (LocalityCount.last st)) Hl) as (l1 & -> & _); [apply nb_key_length|done|]. run.
  rewrite assign_key_undef; [done|]. intros H2. apply Hcp. by repeat constructor.
Qed.

Lemma locality_list_undef n l st :
  locality_wf n st -> Forall (fun k => length k = FP_SIZE) l ->
  rec_pos (n + length l) < 2 ^ 31 -> ~ Forall copied (adjacent (prev_of st) l) ->
  foldM LocalityCount.count_chunk l st = Undef.
Proof.
  intros Hw Hl. revert n st Hw. induction Hl as [|h l Hh _ IH]; intros n st Hw Hn Hcp; cbn [foldM].
  { destruct Hcp. constructor. }
  cbn [length] in Hn. destruct (decide (Forall copied (adjacent (prev_of st) [h]))) as [H1|H1]; cycle 1.
  { rewrite (locality_step_undef n h st); [done|done|done|unfold rec_pos, REC_SIZE in *; lia|done]. }
  destruct (locality_step_spec n h st Hw Hh) as (s1 & -> & Hw1 & Hp & _); [unfold rec_pos, REC_SIZE in *; lia|done|]. run.
  apply (IH (S n)); [done|unfold rec_pos, REC_SIZE in *; lia|]. rewrite Hp. intros H2. apply Hcp. rewrite adjacent_cons. by apply Forall_app.
Qed.
End Locality.

Lemma occ_pairs_bound (f : bytes * bytes -> bytes * bytes) p o l : occ p (f <$> adjacent o l) <= Z.of_nat (length l).
Proof.
  unfold occ. apply Nat2Z.inj_le. etrans; [apply length_filter|]. rewrite length_fmap. revert o.
  induction l as [|h t IH]; intros o; cbn [adjacent length]; [lia|]. rewrite length_app. specialize (IH (Some h)). destruct o; cbn; lia.
Qed.

(** ** Properties *)

(** Basic_count.cc counts.  On a database of 64-bit counts the tool
    terminates, adds to the count of every fingerprint the number of times it
    occurs in the trace (modulo 2^64), and adds no other key. *)
Theorem basic_count_correct {DB} `{KVReliable DB} (file : bytes) (d : DB) :
  freq_wf d ->
  exists d', BasicCount.read_hashes file d = Ret d' /\ freq_wf d' /\
    (forall k, freq d' k = u64 (freq d k + occ k (trace_hashes file))) /\
    dom (db_contents d') = dom (db_contents d) ∪ list_to_set (trace_hashes file).
Proof. intros. unfold BasicCount.read_hashes. by apply count_list_spec. Qed.

(** C27: what locality_count.cc counts.  On a trace whose packed neighbour lists stay below
    2^31 bytes, if every two adjacent fingerprints have a NUL among their six bytes (or
    there is at most one), the tool terminates; the frequency database gains the
    occurrences, and the left and right databases hold, for every pair of adjacent
    fingerprints, how often it occurs, but with the neighbour cut at its first NUL and
    padded with NULs.  If an adjacent fingerprint has no NUL, the run is undefined: the
    assignment of the char array to a string reads past its end. *)
Theorem locality_count_correct {DB} `{KVReliable DB} (file : bytes) (d l r : DB) :
  freq_wf d -> db_contents l = ∅ -> db_contents r = ∅ ->
  Z.of_nat (REC_SIZE * length (trace_hashes file)) < 2 ^ 31 ->
  let pairs := adjacent None (trace_hashes file) in
  if bool_decide (Forall copied pairs) then
  exists st', LocalityCount.read_hashes file d l r = Ret st' /\
    (forall k, freq (LocalityCount.db st') k = u64 (freq d k + occ k (trace_hashes file))) /\
    (forall x y, nbcount (LocalityCount.store_left st') y x = occ (x, y) ((fun p => (nb_key p.1, p.2)) <$> pairs) /\
                 nbcount (LocalityCount.store_right st') x y = occ (x, y) ((fun p => (p.1, nb_key p.2)) <$> pairs))
  else LocalityCount.read_hashes file d l r = Undef.
Proof.
  intros Hd Hl Hr Hn pairs. unfold LocalityCount.read_hashes.
  set (st := LocalityCount.State d l r (replicate FP_SIZE x00) false).
  assert (locality_wf 0 st) as Hw by (split_and!; [done|done|by apply nb_wf_empty|by apply nb_wf_empty]).
  case_bool_decide as Hcp; [|by apply (locality_list_undef 0); [|apply trace_hashes_length|..]].
  destruct (locality_list_spec 0 (trace_hashes file) st Hw (trace_hashes_length file) Hn Hcp) as (st' & -> & _ & Hf & Hlc & Hrc).
  exists st'. split_and!; [done|done|]. intros x y. rewrite Hlc, Hrc. unfold left_pairs, right_pairs. cbn [st prev_of LocalityCount.flag].
  cbn [LocalityCount.store_left LocalityCount.store_right st].
  unfold nbcount. rewrite Hl, Hr, !lookup_empty, !Z.add_0_l. unfold REC_SIZE in Hn.
  split; (rewrite u64_small; [done|]; split; [apply occ_nonneg|]; eapply Z.le_lt_trans; [apply occ_pairs_bound|lia]).
Qed.

(** Neighbours whose fingerprints share a prefix up to a NUL byte are
    merged.  Two different chunks a and b precede c once each; the left
    database then records neither of them but the common prefix, padded with
    zeroes, twice: [left.assign(last)] copies a C string. *)
Theorem locality_count_merges_nul :
  exists a b c z, a <> b /\ z <> a /\ z <> b /\ exists st,
    foldM LocalityCount.count_chunk [a; c; b; c]
      (LocalityCount.State (∅ : gmap bytes bytes) ∅ ∅ (replicate FP_SIZE x00) false) = Ret st /\
    nbcount (LocalityCount.store_left st) c a = 0 /\ nbcount (LocalityCount.store_left st) c b = 0 /\
    nbcount (LocalityCount.store_left st) c z = 2.
Proof.
  exists [x01; x00; x01; x01; x01; x01], [x01; x00; x02; x02; x02; x02], [x07; x07; x07; x07; x07; x00],
    [x01; x00; x00; x00; x00; x00].
  do 3 (split; [done|]). apply ret_sat. vm_compute. split; [reflexivity|]. split; reflexivity.
Qed.

(** *** Witnesses *)

Lemma freq_wf_empty : freq_wf (∅ : gmap bytes bytes).
Proof. intros k v Hk. cbn in Hk. by rewrite lookup_empty in Hk. Qed.

Lemma basic_count_witness :
  exists d' : gmap bytes bytes, BasicCount.read_hashes sample_trace ∅ = Ret d' /\
    freq d' (sample_key 1) = 2 /\ freq d' (sample_key 9) = 1.
Proof.
  destruct (basic_count_correct sample_trace (∅ : gmap bytes bytes) freq_wf_empty) as (d' & E & _ & Hf & _).
  exists d'. rewrite sample_hashes in Hf. split; [exact E|]. rewrite !Hf. split; vm_compute; reflexivity.
Defined.

(** A trace of three chunks whose fingerprints end in a NUL. *)
Definition nul_key (n : byte) : bytes := [n; x02; x03; x04; x05; x00].
Definition nul_chunks : list chunk := [Chunk (nul_key x01) 100; Chunk (nul_key x09) 200; Chunk (nul_key x01) 100].
Definition nul_trace : bytes := title_line ++ print_chunks nul_chunks.

Lemma nul_hashes : trace_hashes nul_trace = [nul_key x01; nul_key x09; nul_key x01].
Proof. unfold nul_trace. rewrite trace_hashes_print; [done|]. repeat constructor; cbn; lia. Qed.

Lemma locality_count_witness :
  exists st' : LocalityCount.state (gmap bytes bytes),
    LocalityCount.read_hashes nul_trace ∅ ∅ ∅ = Ret st' /\
    nbcount (LocalityCount.store_left st') (nul_key x09) (nul_key x01) = 1 /\
    nbcount (LocalityCount.store_right st') (nul_key x09) (nul_key x01) = 1.
Proof.
  pose proof (locality_count_correct nul_trace (∅ : gmap bytes bytes) ∅ ∅ freq_wf_empty eq_refl eq_refl) as Hc. cbv zeta in Hc. rewrite nul_hashes in Hc.
  rewrite bool_decide_eq_true_2 in Hc by (repeat constructor; cbn; set_solver).
  destruct Hc as (st' & E & _ & Hn); [cbn; lia|]. exists st'. split; [exact E|].
  rewrite (proj1 (Hn (nul_key x01) (nul_key x09))), (proj2 (Hn (nul_key x09) (nul_key x01))).
  split; vm_compute; reflexivity.
Defined.

(** On the sample trace, whose fingerprints have no NUL, the run is undefined. *)
Lemma locality_count_overreads : LocalityCount.read_hashes sample_trace (∅ : gmap bytes bytes) ∅ ∅ = Undef.
Proof.
  unfold LocalityCount.read_hashes. apply (locality_list_undef 0).
  - split_and!; [done|exact freq_wf_empty|by apply nb_wf_empty|by apply nb_wf_empty].
  - apply trace_hashes_length.
  - rewrite sample_hashes. by vm_compute.
  - rewrite sample_hashes. intros [[Hx _] _]%Forall_cons. revert Hx. cbn. set_solver.
Qed.
