(* ===== verification/PQueue.v ===== *)
(** * std::priority_queue and the bounded top-k insertion

    The attacks select the most frequent chunks with [std::priority_queue].
    The C++ standard fixes which elements a queue holds and that [top()] is
    maximal for the comparison, but not how ties are broken; [PrioLaws] states
    exactly this, so the theorems hold for every conforming library.  A sorted
    list is the executable instance. *)

From S2P Require Import Prelude.

(** A queue of [A] ordered by the integer priority [prio]: [top] has the
    largest priority. *)
Class PrioQueue (A : Type) (prio : A -> Z) (Q : Type) := {
  pq_empty : Q;
  pq_push : A -> Q -> Q;
  pq_top : Q -> option A;
  pq_pop : Q -> Q;
  pq_elems : Q -> list A;
}.
#[global] Arguments pq_empty {A} prio {Q _}.
#[global] Arguments pq_push {A} prio {Q _}.
#[global] Arguments pq_top {A} prio {Q _}.
#[global] Arguments pq_pop {A} prio {Q _}.
#[global] Arguments pq_elems {A} prio {Q _}.

Class PrioLaws (A : Type) (prio : A -> Z) (Q : Type) `{PrioQueue A prio Q} : Prop := {
  pq_elems_empty : pq_elems prio (pq_empty prio) = [];
  pq_elems_push x q : pq_elems prio (pq_push prio x q) ≡ₚ x :: pq_elems prio q;
  pq_top_none q : pq_top prio q = None <-> pq_elems prio q = [];
  pq_top_some q x : pq_top prio q = Some x ->
    pq_elems prio q ≡ₚ x :: pq_elems prio (pq_pop prio q) /\
    Forall (fun y => prio y <= prio x) (pq_elems prio q);
}.

(** ** Operations built on a queue *)

Section Ops.
Context {A : Type} (prio : A -> Z) {Q : Type} `{PrioQueue A prio Q}.

Definition pq_size (q : Q) : nat := length (pq_elems prio q).

(** [while (!q.empty()) { v.push(q.top()); q.pop(); }]: the elements in the
    order they are popped; the size of the queue is enough fuel. *)
Fixpoint drain_go (fuel : nat) (q : Q) : list A :=
  match fuel with
  | O => []
  | S fuel' =>
      match pq_top prio q with
      | None => []
      | Some x => x :: drain_go fuel' (pq_pop prio q)
      end
  end.

Definition drain (q : Q) : list A := drain_go (pq_size q) q.

(** Push while there are fewer than [k] elements; otherwise replace the top by
    the entry when [better entry top] holds.  [top()] of an empty queue is
    undefined ([k = 0]). *)
Definition bounded_push (better : A -> A -> bool) (k : Z) (entry : A) (q : Q) : outcome Q :=
  if Z.of_nat (pq_size q) <? k then Ret (pq_push prio entry q)
  else match pq_top prio q with
       | None => Undef
       | Some t => if better entry t then Ret (pq_push prio entry (pq_pop prio q)) else Ret q
       end.
End Ops.

(** ** The list instance: [top] is the first element of maximal priority *)

Fixpoint take_max {A} (prio : A -> Z) (l : list A) : option (A * list A) :=
  match l with
  | [] => None
  | x :: l' =>
      match take_max prio l' with
      | None => Some (x, [])
      | Some (m, r) => if prio x <? prio m then Some (m, x :: r) else Some (x, l')
      end
  end.

#[global] Instance list_pq {A} (prio : A -> Z) : PrioQueue A prio (list A) := {|
  pq_empty := [];
  pq_push x l := x :: l;
  pq_top l := fst <$> take_max prio l;
  pq_pop l := match take_max prio l with Some (_, r) => r | None => l end;
  pq_elems l := l;
|}.

Lemma take_max_some {A} (prio : A -> Z) l m r :
  take_max prio l = Some (m, r) -> l ≡ₚ m :: r /\ Forall (fun y => prio y <= prio m) l.
Proof.
  revert m r. induction l as [|x l IH]; intros m r; cbn; [done|].
  destruct (take_max prio l) as [[m' r']|] eqn:E.
  - destruct (IH m' r' eq_refl) as [Hp Hf]. case (Z.ltb_spec (prio x) (prio m')) as [Hlt|Hge]; intros [= <- <-].
    + split; [rewrite Hp; apply Permutation_swap|]. constructor; [lia|done].
    + split; [done|]. constructor; [lia|]. eapply Forall_impl; [done|]. cbn. lia.
  - intros [= <- <-]. destruct l as [|y l]; [by repeat constructor|].
    cbn in E. by repeat case_match.
Qed.

#[global] Instance list_pq_laws {A} (prio : A -> Z) : PrioLaws A prio (list A).
Proof.
  split; cbn; [done|done| |].
  - intros [|x l]; cbn; [done|]. split; [|done]. by repeat case_match.
  - intros l x. destruct (take_max prio l) as [[m r]|] eqn:E; cbn; [|done].
    intros [= <-]. by apply take_max_some.
Qed.

(** ** Draining sorts *)

Section Laws.
Context {A : Type} (prio : A -> Z) {Q : Type} `{PrioLaws A prio Q}.

Lemma pq_top_size q x : pq_top prio q = Some x -> pq_size prio q = S (pq_size prio (pq_pop prio q)).
Proof. intros [Hp _]%pq_top_some. unfold pq_size. by rewrite Hp. Qed.

Lemma drain_go_perm fuel q : (pq_size prio q <= fuel)%nat -> drain_go prio fuel q ≡ₚ pq_elems prio q.
Proof.
  revert q. induction fuel as [|fuel IH]; intros q Hf; cbn.
  - unfold pq_size in Hf. by destruct (pq_elems prio q); [|cbn in Hf; lia].
  - destruct (pq_top prio q) as [x|] eqn:E.
    + pose proof (pq_top_size _ _ E). rewrite IH by lia. by apply pq_top_some in E as [-> _].
    + apply pq_top_none in E. by rewrite E.
Qed.

Lemma drain_perm q : drain prio q ≡ₚ pq_elems prio q.
Proof. by apply drain_go_perm. Qed.

Lemma drain_go_sorted fuel q : StronglySorted (fun x y => prio y <= prio x) (drain_go prio fuel q).
Proof.
  revert q. induction fuel as [|fuel IH]; intros q; cbn; [constructor|].
  destruct (pq_top prio q) as [x|] eqn:E; [|constructor]. constructor; [apply IH|].
  apply pq_top_some in E as [Hp Hf]. apply Forall_forall. intros y Hy.
  assert (y ∈ pq_elems prio (pq_pop prio q)) as Hin.
  { clear -Hy H H0. revert Hy. generalize (pq_pop prio q). induction fuel as [|fuel IH]; cbn; [set_solver|].
    intros q'. destruct (pq_top prio q') as [z|] eqn:E; [|set_solver].
    apply pq_top_some in E as [Hp _]. rewrite Hp, !elem_of_cons. naive_solver. }
  eapply Forall_forall in Hf; [exact Hf|]. rewrite Hp. set_solver.
Qed.

Lemma drain_sorted q : StronglySorted (fun x y => prio y <= prio x) (drain prio q).
Proof. apply drain_go_sorted. Qed.
End Laws.

(** ** Top-k selection with a min-heap

    With the priority [- w] the top is the entry of least weight, and
    [bounded_push] with [w top < w entry] keeps the [k] heaviest entries. *)

Section TopK.
Context {A : Type} (w : A -> Z) {Q : Type} `{PrioLaws A (fun a => - w a) Q}.

Definition heavier (entry top : A) : bool := w top <? w entry.

(** [kept] are [k] heaviest entries of [l] (all of them when there are fewer). *)
Definition top_k (k : nat) (l kept : list A) : Prop :=
  exists rest, l ≡ₚ kept ++ rest /\ length kept = Nat.min k (length l) /\
    forall x y, x ∈ kept -> y ∈ rest -> w y <= w x.

Lemma bounded_push_topk k x l q :
  (0 < k)%nat -> top_k k l (pq_elems (fun a => - w a) q) ->
  exists q', bounded_push (fun a => - w a) heavier (Z.of_nat k) x q = Ret q' /\
    top_k k (x :: l) (pq_elems (fun a => - w a) q').
Proof.
  intros Hk (rest & Hl & Hlen & Hw). unfold bounded_push, pq_size.
  assert (length l = length (pq_elems (fun a => - w a) q) + length rest)%nat as Hll
    by (by rewrite Hl, length_app).
  case (Z.ltb_spec (Z.of_nat (length (pq_elems (fun a => - w a) q))) (Z.of_nat k)) as [Hlt|Hge].
  - assert (rest = []) as -> by (destruct rest; [done|cbn in Hll; lia]).
    eexists. split; [done|]. exists []. rewrite pq_elems_push. split_and!.
    + rewrite Hl. done.
    + cbn [length] in *. lia.
    + set_solver.
  - destruct (pq_top (fun a => - w a) q) as [t|] eqn:E.
    2: { apply pq_top_none in E. rewrite E in *. cbn in *. lia. }
    apply pq_top_some in E as [Hp Hf].
    assert (forall y, y ∈ pq_elems (fun a => - w a) q -> w t <= w y) as Hmin.
    { intros y Hy. eapply Forall_forall in Hf; [|done]. cbn in Hf. lia. }
    unfold heavier. case (Z.ltb_spec (w t) (w x)) as [Hx|Hx].
    + eexists. split; [done|]. exists (t :: rest). rewrite pq_elems_push. split_and!.
      * rewrite Hl, Hp. cbn. rewrite <- Permutation_middle. done.
      * rewrite Hp in Hlen, Hge. cbn [length] in *. lia.
      * intros a b Ha. rewrite pq_elems_push in Ha.
        apply elem_of_cons in Ha as [->|Ha]; intros [->|Hb]%elem_of_cons.
        -- lia.
        -- etrans; [|apply Z.lt_le_incl, Hx]. apply Hw; [rewrite Hp; by left|done].
        -- apply Hmin. rewrite Hp. by right.
        -- apply Hw; [rewrite Hp; by right|done].
    + exists q. split; [done|]. exists (x :: rest). split_and!.
      * rewrite Hl. by rewrite Permutation_middle.
      * cbn [length]. lia.
      * intros a b Ha [->|Hb]%elem_of_cons; [|auto]. specialize (Hmin a Ha). lia.
Qed.

(** Inserting a whole list keeps the [k] heaviest. *)
Lemma bounded_push_list k l l0 q :
  (0 < k)%nat -> top_k k l0 (pq_elems (fun a => - w a) q) ->
  exists q', foldM (bounded_push (fun a => - w a) heavier (Z.of_nat k)) l q = Ret q' /\
    top_k k (rev l ++ l0) (pq_elems (fun a => - w a) q').
Proof.
  intros Hk. revert l0 q. induction l as [|x l IH]; intros l0 q Hq; cbn [foldM].
  - by exists q.
  - destruct (bounded_push_topk k x l0 q Hk Hq) as (q1 & -> & Hq1). run.
    destruct (IH (x :: l0) q1 Hq1) as (q' & -> & Hq'). exists q'. split; [done|].
    cbn. by rewrite <- app_assoc.
Qed.

Lemma top_k_empty k : top_k k [] (pq_elems (fun a => - w a) (pq_empty (fun a => - w a))).
Proof. rewrite pq_elems_empty. exists []. split_and!; [done|cbn; lia|set_solver]. Qed.

Lemma top_k_perm k l l' m m' : l ≡ₚ l' -> m ≡ₚ m' -> top_k k l m -> top_k k l' m'.
Proof.
  intros Hl Hm (rest & Hp & Hlen & Hw). exists rest. split_and!.
  - by rewrite <- Hl, <- Hm.
  - by rewrite <- Hm, <- Hl.
  - intros x y Hx Hy. apply Hw; [by rewrite Hm|done].
Qed.

Lemma top_k_sub k l m x : top_k k l m -> x ∈ m -> x ∈ l.
Proof. intros (rest & Hp & _) Hx. rewrite Hp. set_solver. Qed.

(** From an empty queue: the drained queue lists the top [k] by weight. *)
Lemma select_topk k l :
  (0 < k)%nat ->
  exists q, foldM (bounded_push (fun a => - w a) heavier (Z.of_nat k)) l (pq_empty (fun a => - w a)) = Ret q /\
    top_k k l (drain (fun a => - w a) q).
Proof.
  intros Hk. destruct (bounded_push_list k l [] (pq_empty (fun a => - w a)) Hk (top_k_empty k)) as (q & E & Hq).
  exists q. split; [done|]. eapply top_k_perm; [| |exact Hq].
  - rewrite app_nil_r. symmetry. apply Permutation_rev.
  - symmetry. by apply (drain_perm (fun a => - w a)).
Qed.
End TopK.
