(* ===== verification/BasicAttack.v ===== *)
(** * The basic attack: attack/basic/basic_attack.cc

    Classical frequency analysis.  [ReadDbs] loads a frequency database into a
    max-priority queue, [Fre_Analysis] pairs the two queues rank by rank and
    counts the ranks whose fingerprints agree. *)

From S2P Require Import Prelude KVStore Neighbors Count PQueue.

(** ** Data and operations *)

Record Node := MkNode { hash_name : bytes; count : Z }.

#[global] Instance Node_eq_dec : EqDecision Node.
Proof. solve_decision. Defined.

(** [Max_lenth = 99999999], set in [main]. *)
Definition Max_lenth : Z := 99999999.

(** [memcpy(dst, key.ToString().c_str(), FP_SIZE)] *)
Definition load_key (k : bytes) : outcome bytes :=
  if (FP_SIZE <=? length k + 1)%nat then Ret (take FP_SIZE (k ++ [x00])) else Undef.

(** [Node::operator<] compares the counts, so the queue is a max-heap. *)
Definition by_count (n : Node) : Z := count n.

Section Ops.
Context {DB : Type} `{KVStore DB} {Q : Type} `{PrioQueue Node by_count Q}.

(** One step of the iterator loop: the value is read with [Get] again, an
    error status fails the assertion; [top().count < temp_Node.count]. *)
Definition read_entry (max_lenth : Z) (d : DB) (e : bytes * bytes) (q : Q) : outcome Q :=
  match db_get e.1 d with
  | Found value =>
      temp_count ← load_u64 value 0;
      name ← load_key e.1;
      bounded_push by_count (fun entry top => count top <? count entry) max_lenth
        (MkNode name temp_count) q
  | _ => Exit 134
  end.

Definition ReadDbs (max_lenth : Z) (d : DB) : outcome Q :=
  foldM (read_entry max_lenth d) (db_entries d) (pq_empty by_count).

(** The loop of [Fre_Analysis] with [n] rounds left. *)
Fixpoint fre_loop (n : nat) (tr ta : Q) (ansq : list Node) (correct : Z) : outcome (list Node * Z) :=
  match n with
  | O => Ret (ansq, correct)
  | S n' =>
      match pq_top by_count tr, pq_top by_count ta with
      | Some a, Some b =>
          let '(ansq, correct) :=
            if memcmp FP_SIZE (hash_name a) (hash_name b) =? 0
            then (ansq ++ [a], u64 (correct + 1)) else (ansq, correct) in
          fre_loop n' (pq_pop by_count tr) (pq_pop by_count ta) ansq correct
      | _, _ => Undef
      end
  end.

Definition Fre_Analysis (tr ta : Q) : outcome (list Node * Z) :=
  fre_loop (Nat.min (pq_size by_count tr) (pq_size by_count ta)) tr ta [] 0.

(** [main]: the number of unique target chunks, the number of correct
    inferences and the inferred chunks. *)
Definition main (max_lenth : Z) (training target : DB) : outcome (Z * Z * list Node) :=
  tr ← ReadDbs max_lenth training;
  ta ← ReadDbs max_lenth target;
  let Unique := Z.of_nat (pq_size by_count ta) in
  '(ansq, correct) ← Fre_Analysis tr ta;
  Ret (Unique, correct, ansq).
End Ops.

(** ** Specification *)

(** The nodes of a frequency database. *)
Definition nodes_of {DB} `{KVStore DB} (d : DB) : list Node :=
  (fun e => MkNode e.1 (le_combine e.2)) <$> db_entries d.

(** A ranking: the nodes sorted by decreasing count. *)
Definition ranking (nodes rank : list Node) : Prop :=
  rank ≡ₚ nodes /\ StronglySorted (fun x y => count y <= count x) rank.

(** The ranks at which two rankings name the same fingerprint. *)
Fixpoint agree (r1 r2 : list Node) : list Node :=
  match r1, r2 with
  | a :: r1', b :: r2' =>
      if bool_decide (hash_name a = hash_name b) then a :: agree r1' r2' else agree r1' r2'
  | _, _ => []
  end.

(** A database as basic_count.cc leaves it, small enough for the queue. *)
Definition db_ok {DB} `{KVStore DB} (d : DB) : Prop :=
  freq_wf d /\ map_Forall (fun k _ => length k = FP_SIZE) (db_contents d).

(** ** Loading *)

Section Load.
Context {DB : Type} `{KVReliable DB} {Q : Type} `{PrioLaws Node by_count Q}.

Lemma load_key_6 k : length k = FP_SIZE -> load_key k = Ret k.
Proof.
  intros Hk. unfold load_key. rewrite (proj2 (Nat.leb_le _ _)) by lia.
  by rewrite take_app_len by done.
Qed.

Lemma read_entry_spec max d e (q : Q) :
  db_ok d -> e ∈ db_entries d ->
  read_entry max d e q =
    bounded_push by_count (fun entry top => count top <? count entry) max
      (MkNode e.1 (le_combine e.2)) q.
Proof.
  intros [Hv Hk] He. destruct e as [k v]. apply entries_contents in He.
  unfold read_entry. cbn [fst snd]. rewrite get_reliable, He.
  rewrite load_u64_whole by (by eapply (Hv k)). run.
  rewrite load_key_6 by (by eapply (Hk k)). done.
Qed.

Lemma load_entries max d l (q : Q) :
  db_ok d -> (forall e, e ∈ l -> e ∈ db_entries d) ->
  Z.of_nat (pq_size by_count q + length l) <= max ->
  exists q', foldM (read_entry max d) l q = Ret q' /\
    pq_elems by_count q' ≡ₚ ((fun e => MkNode e.1 (le_combine e.2)) <$> rev l) ++ pq_elems by_count q.
Proof.
  intros Hd. revert q. induction l as [|e l IH]; intros q Hin Hmax; cbn [foldM].
  - by exists q.
  - rewrite read_entry_spec by (try done; apply Hin; by left).
    unfold bounded_push. cbn [length] in Hmax. rewrite (proj2 (Z.ltb_lt _ _)) by lia.
    run.
    assert (pq_size by_count (pq_push by_count (MkNode e.1 (le_combine e.2)) q)
      = S (pq_size by_count q)) as Hs by (unfold pq_size; by rewrite pq_elems_push).
    destruct (IH (pq_push by_count (MkNode e.1 (le_combine e.2)) q)) as (q' & -> & Hq).
    + intros e' He'. apply Hin. by right.
    + rewrite Hs. lia.
    + exists q'. split; [done|]. rewrite Hq, pq_elems_push. cbn. rewrite fmap_app, <- app_assoc. done.
Qed.

(** A database that fits the queue is loaded completely. *)
Lemma ReadDbs_spec max d :
  db_ok d -> Z.of_nat (length (db_entries d)) <= max ->
  exists q : Q, ReadDbs max d = Ret q /\ pq_elems by_count q ≡ₚ nodes_of d.
Proof.
  intros Hd Hmax. destruct (load_entries max d (db_entries d) (pq_empty by_count) Hd) as (q & E & Hq).
  - done.
  - unfold pq_size. rewrite pq_elems_empty. cbn. lia.
  - exists q. split; [done|]. rewrite Hq, pq_elems_empty, app_nil_r. unfold nodes_of.
    by rewrite <- Permutation_rev.
Qed.
End Load.

(** ** Pairing *)

Section Pair.
Context {Q : Type} `{PrioLaws Node by_count Q}.

Lemma fre_loop_spec n (tr ta : Q) ansq c :
  (n <= pq_size by_count tr)%nat -> (n <= pq_size by_count ta)%nat ->
  Forall (fun x => length (hash_name x) = FP_SIZE) (pq_elems by_count tr) ->
  Forall (fun x => length (hash_name x) = FP_SIZE) (pq_elems by_count ta) ->
  fre_loop n tr ta ansq c =
    Ret (ansq ++ agree (drain_go by_count n tr) (drain_go by_count n ta),
         Nat.iter (length (agree (drain_go by_count n tr) (drain_go by_count n ta)))
           (fun c => u64 (c + 1)) c).
Proof.
  revert tr ta ansq c. induction n as [|n IH]; intros tr ta ansq c Hn1 Hn2 Hl1 Hl2; cbn [fre_loop drain_go].
  - cbn. by rewrite app_nil_r.
  - assert (exists a, pq_top by_count tr = Some a) as [a Ea].
    { destruct (pq_top by_count tr) eqn:E; [eauto|]. apply pq_top_none in E.
      unfold pq_size in Hn1. rewrite E in Hn1. cbn in Hn1. lia. }
    assert (exists b, pq_top by_count ta = Some b) as [b Eb].
    { destruct (pq_top by_count ta) eqn:E; [eauto|]. apply pq_top_none in E.
      unfold pq_size in Hn2. rewrite E in Hn2. cbn in Hn2. lia. }
    rewrite Ea, Eb. pose proof (pq_top_size _ _ _ Ea). pose proof (pq_top_size _ _ _ Eb).
    apply pq_top_some in Ea as [Pa _], Eb as [Pb _]. rewrite Pa in Hl1. rewrite Pb in Hl2.
    apply Forall_cons in Hl1 as [La Hl1], Hl2 as [Lb Hl2]. cbn [agree].
    case_bool_decide as E.
    + rewrite (proj2 (Z.eqb_eq _ _)) by (by apply memcmp_eq).
      rewrite IH by (done || lia). rewrite <- app_assoc. cbn [app length]. do 2 f_equal.
      by rewrite Nat.iter_succ_r.
    + rewrite (proj2 (Z.eqb_neq _ _)) by (by rewrite memcmp_eq). by rewrite IH by (done || lia).
Qed.

Lemma agree_take n r1 r2 :
  (Nat.min (length r1) (length r2) <= n)%nat -> agree (take n r1) (take n r2) = agree r1 r2.
Proof.
  revert r1 r2. induction n as [|n IH]; intros [|a r1] [|b r2] Hn; cbn in *; try done; try lia.
  by rewrite IH by lia.
Qed.

Lemma drain_go_take n q : drain_go by_count n q = take n (drain by_count q).
Proof.
  unfold drain. remember (pq_size by_count q) as m eqn:Hm. revert n q Hm.
  induction m as [|m IH]; intros n q Hm.
  - destruct n; [done|]. cbn. destruct (pq_top by_count q) eqn:E; [|done].
    pose proof (pq_top_size _ _ _ E). lia.
  - destruct n; [done|]. cbn. destruct (pq_top by_count q) eqn:E; [|done].
    pose proof (pq_top_size _ _ _ E). cbn. f_equal. apply IH. lia.
Qed.

Lemma iter_u64_count n c : 0 <= c -> c + Z.of_nat n < 2 ^ 64 ->
  Nat.iter n (fun c => u64 (c + 1)) c = c + Z.of_nat n.
Proof.
  intros Hc. induction n as [|n IH]; intros Hn; [cbn; lia|].
  rewrite Nat.iter_succ, IH by lia. rewrite u64_small; lia.
Qed.

Lemma agree_length r1 r2 : (length (agree r1 r2) <= Nat.min (length r1) (length r2))%nat.
Proof.
  revert r2. induction r1 as [|a r1 IH]; intros [|b r2]; cbn; try lia.
  specialize (IH r2). case_bool_decide; cbn; lia.
Qed.

Lemma Fre_Analysis_spec (tr ta : Q) :
  Forall (fun x => length (hash_name x) = FP_SIZE) (pq_elems by_count tr) ->
  Forall (fun x => length (hash_name x) = FP_SIZE) (pq_elems by_count ta) ->
  Z.of_nat (pq_size by_count ta) < 2 ^ 64 ->
  Fre_Analysis tr ta =
    Ret (agree (drain by_count tr) (drain by_count ta),
         Z.of_nat (length (agree (drain by_count tr) (drain by_count ta)))).
Proof.
  intros H1 H2 Hb. unfold Fre_Analysis. rewrite fre_loop_spec by (done || lia).
  assert (forall q : Q, length (drain by_count q) = pq_size by_count q) as Hd
    by (intros; by rewrite drain_perm).
  rewrite !drain_go_take, agree_take by (rewrite !Hd; lia).
  rewrite iter_u64_count; [done|lia|].
  pose proof (agree_length (drain by_count tr) (drain by_count ta)). rewrite !Hd in *. lia.
Qed.
End Pair.

Lemma drain_ranking {Q} `{PrioLaws Node by_count Q} (q : Q) nodes :
  pq_elems by_count q ≡ₚ nodes -> ranking nodes (drain by_count q).
Proof. intros Hp. split; [by rewrite drain_perm|]. apply (drain_sorted by_count q). Qed.

(** Two rankings of the same nodes with distinct counts are equal. *)
Lemma ranking_unique nodes r1 r2 :
  NoDup (count <$> nodes) -> ranking nodes r1 -> ranking nodes r2 -> r1 = r2.
Proof.
  intros Hnd [P1 S1] [P2 S2]. rewrite <- P1 in P2, Hnd. clear P1 nodes.
  revert r2 P2 S2 Hnd. induction S1 as [|a r1 _ IH Ha]; intros r2 P2 S2 Hnd.
  - by apply Permutation_nil_r in P2.
  - destruct r2 as [|b r2]; [by apply Permutation_nil_cons in P2|].
    inversion S2 as [|? ? S2' Hb]; subst.
    assert (a = b) as ->.
    { assert (a ∈ b :: r2) as [?|Hin]%elem_of_cons by (rewrite P2; by left); [done|].
      assert (b ∈ a :: r1) as [?|Hin']%elem_of_cons by (rewrite <- P2; by left); [done|].
      eapply Forall_forall in Ha; [|done]. eapply Forall_forall in Hb; [|done]. cbn in *.
      apply NoDup_cons in Hnd as [Hni _]. destruct Hni. replace (count a) with (count b) by lia.
      by apply list_elem_of_fmap_2. }
    f_equal. apply IH; [by apply Permutation_cons_inv in P2|done|].
    by apply NoDup_cons in Hnd as [_ ?].
Qed.

Lemma agree_self r : agree r r = r.
Proof. induction r as [|a r IH]; [done|]. cbn. by rewrite bool_decide_eq_true_2, IH. Qed.

Lemma nodes_of_names {DB} `{KVReliable DB} (d : DB) :
  db_ok d -> Forall (fun x => length (hash_name x) = FP_SIZE) (nodes_of d).
Proof.
  intros [_ Hk]. apply Forall_fmap, Forall_forall. intros [k v] He. cbn.
  apply entries_contents in He. by eapply (Hk k).
Qed.

Lemma main_spec {DB} `{KVReliable DB} {Q} `{PrioLaws Node by_count Q} max (training target : DB) :
  db_ok training -> db_ok target ->
  Z.of_nat (length (db_entries training)) <= max ->
  Z.of_nat (length (db_entries target)) <= max -> max < 2 ^ 64 ->
  exists r1 r2, ranking (nodes_of training) r1 /\ ranking (nodes_of target) r2 /\
    main (Q := Q) max training target =
      Ret (Z.of_nat (length (db_entries target)), Z.of_nat (length (agree r1 r2)), agree r1 r2).
Proof.
  intros Htr Hta L1 L2 Hm. unfold main.
  destruct (ReadDbs_spec (Q := Q) max training Htr L1) as (tr & -> & Ptr).
  destruct (ReadDbs_spec (Q := Q) max target Hta L2) as (ta & -> & Pta). run.
  exists (drain by_count tr), (drain by_count ta).
  split; [by apply drain_ranking|]. split; [by apply drain_ranking|].
  assert (pq_size by_count ta = length (db_entries target)) as Hs
    by (unfold pq_size; rewrite Pta; unfold nodes_of; by rewrite length_fmap).
  rewrite Fre_Analysis_spec.
  - cbn. by rewrite Hs.
  - rewrite Ptr. by apply nodes_of_names.
  - rewrite Pta. by apply nodes_of_names.
  - lia.
Qed.

(** ** Properties *)

(** C34: frequency analysis.  On two frequency databases that fit the queues,
    the attack ranks both by decreasing count (ties broken by the queue), infers
    every rank at which the two rankings name the same fingerprint, reports
    their number as correct, and this number is at most the number of unique
    target chunks. *)
Theorem basic_attack_ranks {DB} `{KVReliable DB} {Q} `{PrioLaws Node by_count Q} (training target : DB) :
  db_ok training -> db_ok target ->
  Z.of_nat (length (db_entries training)) <= Max_lenth ->
  Z.of_nat (length (db_entries target)) <= Max_lenth ->
  exists r1 r2 correct, ranking (nodes_of training) r1 /\ ranking (nodes_of target) r2 /\
    main (Q := Q) Max_lenth training target =
      Ret (Z.of_nat (length (db_entries target)), correct, agree r1 r2) /\
    correct = Z.of_nat (length (agree r1 r2)) /\
    0 <= correct <= Z.of_nat (length (db_entries target)).
Proof.
  intros H1' H2' L1 L2. destruct (main_spec (Q := Q) Max_lenth training target) as (r1 & r2 & R1 & R2 & E);
    try done. exists r1, r2, (Z.of_nat (length (agree r1 r2))). split_and!; try done; [lia|].
  pose proof (agree_length r1 r2). destruct R2 as [P2 _].
  assert (length r2 = length (db_entries target)) by (rewrite P2; unfold nodes_of; by rewrite length_fmap).
  lia.
Qed.

(** When the target is the training backup itself and no two chunks are
    equally frequent, the attack infers every unique chunk. *)
Theorem basic_attack_unchanged_backup {DB} `{KVReliable DB} {Q} `{PrioLaws Node by_count Q} (d : DB) :
  db_ok d -> Z.of_nat (length (db_entries d)) <= Max_lenth -> NoDup (count <$> nodes_of d) ->
  exists r, ranking (nodes_of d) r /\
    main (Q := Q) Max_lenth d d =
      Ret (Z.of_nat (length (db_entries d)), Z.of_nat (length (db_entries d)), r).
Proof.
  intros Hd L Hnd. destruct (main_spec (Q := Q) Max_lenth d d) as (r1 & r2 & R1 & R2 & E); try done.
  exists r1. split; [done|]. rewrite (ranking_unique _ _ _ Hnd R2 R1), agree_self in E. rewrite E.
  destruct R1 as [P _]. do 3 f_equal. rewrite P. unfold nodes_of. by rewrite length_fmap.
Qed.

(** A full queue keeps the wrong chunks.  When [max_lenth] is reached,
    [ReadDbs] compares with the top of a max-heap and pops it, so a more
    frequent chunk evicts the most frequent one seen so far: with room for two
    chunks of counts 1, 2 and 3 (in key order) the queue ends with 3 and 1. *)
Theorem basic_attack_full_queue :
  exists d : gmap bytes bytes, count <$> nodes_of d = [1; 2; 3] /\
    exists q : list Node, ReadDbs 2 d = Ret q /\ count <$> drain by_count q = [3; 1].
Proof.
  exists (<[sample_key 1 := le_split 8 1]> (<[sample_key 2 := le_split 8 2]> (<[sample_key 3 := le_split 8 3]> ∅))).
  split; [vm_compute; reflexivity|]. eexists. split; vm_compute; reflexivity.
Qed.

(** *** Witnesses *)

Definition sample_db : gmap bytes bytes :=
  <[sample_key 1 := le_split 8 1]> (<[sample_key 2 := le_split 8 2]> (<[sample_key 3 := le_split 8 3]> ∅)).

Lemma sample_db_ok : db_ok sample_db.
Proof. split; apply (bool_decide_unpack _); vm_compute; reflexivity. Qed.

Lemma basic_attack_ranks_witness :
  exists r1 r2 c, ranking (nodes_of sample_db) r1 /\ ranking (nodes_of sample_db) r2 /\
    main (Q := list Node) Max_lenth sample_db sample_db = Ret (3, c, agree r1 r2) /\ 0 <= c <= 3.
Proof.
  destruct (basic_attack_ranks (Q := list Node) sample_db sample_db sample_db_ok sample_db_ok) as (r1 & r2 & c & H1 & H2 & E & _ & Hc).
  - vm_compute; discriminate.
  - vm_compute; discriminate.
  - exists r1, r2, c. split; [exact H1|]. split; [exact H2|]. split; [exact E|exact Hc].
Defined.

Lemma basic_attack_unchanged_witness :
  exists r, ranking (nodes_of sample_db) r /\ main (Q := list Node) Max_lenth sample_db sample_db = Ret (3, 3, r).
Proof.
  destruct (basic_attack_unchanged_backup (Q := list Node) sample_db sample_db_ok) as (r & H1 & E).
  - vm_compute; discriminate.
  - apply (bool_decide_unpack _). vm_compute. reflexivity.
  - exists r. split; [exact H1|exact E].
Defined.
