(* ===== verification/LocalityAttack.v ===== *)
(** * The locality-based attack

    attack/locality/locality_attack.cc (also copied to defense/scrambling/) and
    the ground-truth variant defense/minhash/locality_attack_e.cc (also copied
    to defense/combined/).  From a few seed pairs the attack repeatedly infers
    that the most frequent neighbours of a pair correspond to each other.  The
    two programs differ in how a pair is judged correct and in how leaked
    chunks are drawn; the inference loop is shared and takes the judgement as
    an argument. *)

From S2P Require Import Prelude CLib KVStore Neighbors Count PQueue BasicAttack.
From Stdlib Require Import Floats.SpecFloat.

(** ** Data *)

Record node := MkNd { nkey : bytes; ncount : Z }.

#[global] Instance node_eq_dec : EqDecision node.
Proof. solve_decision. Defined.

(** [cmp]: [a.count > b.count], so [top()] is a node of least count. *)
Definition least (n : node) : Z := - ncount n.

(** The six databases of the two backups. *)
Record dbs (DB : Type) := Dbs {
  origin : DB; left_o : DB; right_o : DB;
  target : DB; left_t : DB; right_t : DB;
}.
Arguments Dbs {DB}.
Arguments origin {DB}.
Arguments left_o {DB}.
Arguments right_o {DB}.
Arguments target {DB}.
Arguments left_t {DB}.
Arguments right_t {DB}.

(** The globals the inference loop changes; [q_o] and [q_t] are the inferred
    set, [uniq] the database of inferred ciphertext chunks. *)
Record state (DB : Type) := St {
  q_o : list node;
  q_t : list node;
  uniq : DB;
  ansq : list node;
  correct : Z;
  involve : Z;
}.
Arguments St {DB}.
Arguments q_o {DB}.
Arguments q_t {DB}.
Arguments uniq {DB}.
Arguments ansq {DB}.
Arguments correct {DB}.
Arguments involve {DB}.

(** The counters of [stat_db]. *)
Record leaks := Leaks { total : Z; common : Z; leak : Z }.

(** [sprintf(buf, "%lu", count)] into 32 zeroed bytes, of which the first
    [sizeof(uint64_t)] are stored. *)
Definition uniq_value (c : Z) : bytes := take 8 (print_dec c ++ replicate 32 x00).

(** ** Floating point: [LEAK_RATE] is an IEEE double *)

Definition Z2SF (z : Z) : spec_float := binary_normalize 53 1024 z 0 false.

(** [LEAK_RATE != 0 && rand() % m <= LEAK_RATE * m] *)
Definition leak_drawn (m : Z) (rate : spec_float) (r : Z) : bool :=
  negb (SFeqb rate (Z2SF 0)) && SFleb (Z2SF (Z.rem r m)) (SFmul 53 1024 rate (Z2SF m)).

(** ** Operations *)

Section Ops.
Context {DB : Type} `{KVStore DB} {Q : Type} `{PrioQueue node least Q}.

(** The push of one node into a queue bounded by [k]. *)
Definition push_node (k : Z) (entry : node) (q : Q) : outcome Q :=
  bounded_push least (heavier ncount) k entry q.

(** The common body of [left_insert] and [right_insert]: the neighbours that
    [store] records for [fp] go into the queue; a LevelDB error exits. *)
Definition neighbor_insert (store : DB) (fp : bytes) (k : Z) (q : Q) : outcome Q :=
  match db_get fp store with
  | Found existing_value =>
      recs ← neighbors existing_value;
      foldM (fun r => push_node k (MkNd r.1 r.2)) recs q
  | NotFound => Ret q
  | GetError => Exit 1
  end.

Definition left_insert (D : dbs DB) (type : Z) (fp : bytes) (k : Z) (q : Q) : outcome Q :=
  neighbor_insert (if type =? 0 then left_o D else left_t D) fp k q.

Definition right_insert (D : dbs DB) (type : Z) (fp : bytes) (k : Z) (q : Q) : outcome Q :=
  neighbor_insert (if type =? 0 then right_o D else right_t D) fp k q.

(** The entries of a frequency database go into the queue. *)
Definition db_insert (d : DB) (k : Z) (q : Q) : outcome Q :=
  foldM (fun e q =>
    val ← load_u64 e.2 0;
    name ← load_key e.1;
    push_node k (MkNd name val) q) (db_entries d) q.

(** [while (!pq.empty() && !pc.empty()) { omp.push(pq.top()); tmp.push(pc.top());
    pq.pop(); pc.pop(); }]; a stack is a list with its top first. *)
Fixpoint pair_loop (fuel : nat) (pq pc : Q) (omp tmp : list node) : list node * list node :=
  match fuel with
  | O => (omp, tmp)
  | S fuel' =>
      match pq_top least pq, pq_top least pc with
      | Some o, Some t => pair_loop fuel' (pq_pop least pq) (pq_pop least pc) (o :: omp) (t :: tmp)
      | _, _ => (omp, tmp)
      end
  end.

(** [while (!tmp.empty() && !omp.empty()) ...]: enqueue the pairs whose
    ciphertext chunk has not been inferred, until the queue is full. *)
Fixpoint infer_loop (QUEUE_LIMIT : Z) (omp tmp : list node) (st : state DB) : state DB :=
  match omp, tmp with
  | o :: omp', t :: tmp' =>
      match db_get (nkey t) (uniq st) with
      | Found _ => infer_loop QUEUE_LIMIT omp' tmp' st
      | _ =>
          if QUEUE_LIMIT <? Z.of_nat (length (q_o st)) + 1 then st
          else infer_loop QUEUE_LIMIT omp' tmp'
                 (St (q_o st ++ [o]) (q_t st ++ [t])
                     (db_put (nkey t) (uniq_value (ncount t)) (uniq st)).2
                     (ansq st) (correct st) (involve st))
      end
  | _, _ => st
  end.

(** One side (left or right) of a round: both queues start empty. *)
Definition infer_side (insert : Z -> bytes -> Z -> Q -> outcome Q) (TH_K QUEUE_LIMIT : Z)
    (o t : node) (st : state DB) : outcome (state DB) :=
  pq ← insert 0 (nkey o) TH_K (pq_empty least);
  pc ← insert 1 (nkey t) TH_K (pq_empty least);
  let '(omp, tmp) := pair_loop (pq_size least pq) pq pc [] [] in
  Ret (infer_loop QUEUE_LIMIT omp tmp st).

(** The body of the main loop for the front pair; new pairs are pushed at the
    back, so the front stays [o], [t] until it is popped. *)
Definition round (check : node -> node -> outcome bool) (D : dbs DB) (TH_K QUEUE_LIMIT : Z)
    (o t : node) (st : state DB) : outcome (state DB) :=
  ok ← check o t;
  let st := if ok : bool
            then St (q_o st) (q_t st) (uniq st) (ansq st ++ [o]) (u64 (correct st + 1)) (involve st)
            else st in
  st ← infer_side (left_insert D) TH_K QUEUE_LIMIT o t st;
  st ← infer_side (right_insert D) TH_K QUEUE_LIMIT o t st;
  Ret (St (tail (q_o st)) (tail (q_t st)) (uniq st) (ansq st) (correct st) (u64 (involve st + 1))).

(** [while (!q_o.empty() && !q_t.empty())]; [None] when the fuel runs out. *)
Fixpoint inference (check : node -> node -> outcome bool) (D : dbs DB) (TH_K QUEUE_LIMIT : Z)
    (fuel : nat) (st : state DB) : option (outcome (state DB)) :=
  match q_o st, q_t st with
  | o :: _, t :: _ =>
      match fuel with
      | O => None
      | S fuel' =>
          match round check D TH_K QUEUE_LIMIT o t st with
          | Ret st' => inference check D TH_K QUEUE_LIMIT fuel' st'
          | Exit c => Some (Exit c)
          | Undef => Some Undef
          end
      end
  | _, _ => Some (Ret st)
  end.

(** Enqueue one ciphertext chunk and record it as inferred. *)
Definition seed_target (t : node) (st : state DB) : state DB :=
  St (q_o st) (q_t st ++ [t]) (db_put (nkey t) (uniq_value (ncount t)) (uniq st)).2
     (ansq st) (correct st) (involve st).

(** The seeding of [main_loop] when nothing is leaked: the [INIT] most frequent
    chunks of both backups, most frequent first. *)
Definition seed (D : dbs DB) (INIT : Z) (st : state DB) : outcome (state DB) :=
  pq ← db_insert (origin D) INIT (pq_empty least);
  let st := St (q_o st ++ rev (drain least pq)) (q_t st) (uniq st) (ansq st) (correct st) (involve st) in
  pc ← db_insert (target D) INIT (pq_empty least);
  Ret (fold_left (fun st t => seed_target t st) (rev (drain least pc)) st).

(** [main_loop] *)
Definition main_loop (check : node -> node -> outcome bool) (D : dbs DB) (INIT TH_K QUEUE_LIMIT : Z)
    (LEAK_RATE : spec_float) (fuel : nat) (st : state DB) : option (outcome (state DB)) :=
  let st := St (q_o st) (q_t st) (uniq st) [] (correct st) (involve st) in
  match (if SFeqb LEAK_RATE (Z2SF 0) then seed D INIT st else Ret st) with
  | Ret st => inference check D TH_K QUEUE_LIMIT fuel st
  | Exit c => Some (Exit c)
  | Undef => Some Undef
  end.

(** *** attack/locality: a ciphertext fingerprint equals its plaintext's *)

Definition check_plain (o t : node) : outcome bool :=
  Ret (memcmp FP_SIZE (nkey o) (nkey t) =? 0).

(** One iterator step of [stat_db]; [r] is the next value of [rand()]. *)
Definition stat_entry (D : dbs DB) (LEAK_RATE : spec_float) (e : (bytes * bytes) * Z)
    (s : leaks * state DB) : outcome (leaks * state DB) :=
  let '(k, v, r) := e in
  let '(lk, st) := s in
  let lk := Leaks (u64 (total lk + 1)) (common lk) (leak lk) in
  let status := db_get k (origin D) in
  if leak_drawn 10000 LEAK_RATE r then
    let lk := Leaks (total lk) (u64 (common lk + 1)) (leak lk) in
    match status with
    | Found existing_value =>
        name ← load_key k;
        co ← load_u64 existing_value 0;
        ct ← load_u64 v 0;
        let st := St (q_o st ++ [MkNd name co]) (q_t st) (uniq st) (ansq st) (correct st) (involve st) in
        Ret (Leaks (total lk) (common lk) (u64 (leak lk + 1)), seed_target (MkNd name ct) st)
    | NotFound => Ret (lk, st)
    | GetError => Exit 1
    end
  else Ret (lk, st).

Definition stat_db (D : dbs DB) (LEAK_RATE : spec_float) (rands : nat -> Z) (st : state DB)
    : outcome (leaks * state DB) :=
  foldM (stat_entry D LEAK_RATE)
    (imap (fun i e => (e, rands i)) (db_entries (target D))) (Leaks 0 0 0, st).

(** *** defense/minhash, defense/combined: the ground-truth database decides *)

Definition check_truth (relate : DB) (o t : node) : outcome bool :=
  match db_get (nkey t) relate with
  | Found existing_value =>
      c ← memcmp_at existing_value 0 (nkey o);
      Ret (c =? 0)
  | NotFound => Ret false
  | GetError => Exit 1
  end.

(** One iterator step of [stat_db] with the plaintext looked up in [relate].
    The string [exs] keeps its last value when [Get] does not find the key. *)
Definition stat_entry_e (relate : DB) (D : dbs DB) (LEAK_RATE : spec_float)
    (e : (bytes * bytes) * Z) (s : bytes * (leaks * state DB)) : outcome (bytes * (leaks * state DB)) :=
  let '(k, v, r) := e in
  let '(exs, (lk, st)) := s in
  let lk := Leaks (u64 (total lk + 1)) (common lk) (leak lk) in
  let exs := match db_get k relate with Found x => x | _ => exs end in
  ckey ← load_key exs;
  let status := db_get ckey (origin D) in
  if leak_drawn (2 ^ 31 - 1) LEAK_RATE r then
    let lk := Leaks (total lk) (u64 (common lk + 1)) (leak lk) in
    match status with
    | Found existing_value =>
        name ← load_key k;
        co ← load_u64 existing_value 0;
        ct ← load_u64 v 0;
        let st := St (q_o st ++ [MkNd ckey co]) (q_t st) (uniq st) (ansq st) (correct st) (involve st) in
        Ret (exs, (Leaks (total lk) (common lk) (u64 (leak lk + 1)), seed_target (MkNd name ct) st))
    | NotFound => Ret (exs, (lk, st))
    | GetError => Exit 1
    end
  else Ret (exs, (lk, st)).

Definition stat_db_e (relate : DB) (D : dbs DB) (LEAK_RATE : spec_float) (rands : nat -> Z)
    (st : state DB) : outcome (leaks * state DB) :=
  '(_, s) ← foldM (stat_entry_e relate D LEAK_RATE)
    (imap (fun i e => (e, rands i)) (db_entries (target D))) ([], (Leaks 0 0 0, st));
  Ret s.

(** [main_loop] of locality_attack_e.cc: the same loop with that judgement. *)
Definition main_loop_e (relate : DB) (D : dbs DB) (INIT TH_K QUEUE_LIMIT : Z)
    (LEAK_RATE : spec_float) (fuel : nat) (st : state DB) : option (outcome (state DB)) :=
  main_loop (check_truth relate) D INIT TH_K QUEUE_LIMIT LEAK_RATE fuel st.

(** [main]: the statistics, then the loop; the queues and counters are
    initially empty and [uniq] is the opened inference database. *)
Definition attack (D : dbs DB) (INIT TH_K QUEUE_LIMIT : Z) (LEAK_RATE : spec_float)
    (rands : nat -> Z) (inference_db : DB) (fuel : nat) : option (outcome (leaks * state DB)) :=
  match stat_db D LEAK_RATE rands (St [] [] inference_db [] 0 0) with
  | Ret (lk, st) =>
      (fun r => '(st') ← r; Ret (lk, st')) <$> main_loop check_plain D INIT TH_K QUEUE_LIMIT LEAK_RATE fuel st
  | Exit c => Some (Exit c)
  | Undef => Some Undef
  end.

Definition attack_e (relate : DB) (D : dbs DB) (INIT TH_K QUEUE_LIMIT : Z) (LEAK_RATE : spec_float)
    (rands : nat -> Z) (inference_db : DB) (fuel : nat) : option (outcome (leaks * state DB)) :=
  match stat_db_e relate D LEAK_RATE rands (St [] [] inference_db [] 0 0) with
  | Ret (lk, st) =>
      (fun r => '(st') ← r; Ret (lk, st'))
        <$> main_loop_e relate D INIT TH_K QUEUE_LIMIT LEAK_RATE fuel st
  | Exit c => Some (Exit c)
  | Undef => Some Undef
  end.
End Ops.

(** ** What the queues can hold *)

(** All neighbour fingerprints a neighbour database records. *)
Definition recs_of {DB} `{KVStore DB} (d : DB) : list bytes :=
  concat ((fun e => match neighbors e.2 with Ret l => l.*1 | _ => [] end) <$> db_entries d).

Section Elems.
Context {DB : Type} `{KVReliable DB} {Q : Type} `{PrioLaws node least Q}.

Lemma push_node_elems k n (q q' : Q) x :
  push_node k n q = Ret q' -> x ∈ pq_elems least q' -> x = n \/ x ∈ pq_elems least q.
Proof.
  unfold push_node, bounded_push. destruct (_ <? k).
  - intros [= <-]. rewrite pq_elems_push. set_solver.
  - destruct (pq_top least q) as [t|] eqn:E; [|done]. apply pq_top_some in E as [Hp _].
    destruct (heavier _ _ _); intros [= <-]; [|by right].
    rewrite pq_elems_push, Hp. set_solver.
Qed.

Lemma neighbor_insert_elems (store : DB) fp k (q q' : Q) x :
  neighbor_insert store fp k q = Ret q' -> x ∈ pq_elems least q' ->
  x ∈ pq_elems least q \/ nkey x ∈ recs_of store.
Proof.
  unfold neighbor_insert. rewrite get_reliable.
  destruct (db_contents store !! fp) as [v|] eqn:E; [|intros [= <-]; by left].
  intros (recs & Hr & Hf)%bind_Ret.
  assert (forall r, r ∈ recs -> r.1 ∈ recs_of store) as Hin.
  { intros r Hin. unfold recs_of. apply list_elem_of_In, in_concat.
    exists (recs.*1). split; apply list_elem_of_In; [|by apply list_elem_of_fmap_2].
    apply list_elem_of_fmap. exists (fp, v). cbn [snd]. rewrite Hr. split; [done|].
    by apply entries_contents. }
  clear Hr E. revert q Hf. induction recs as [|r recs IH]; intros q; cbn [foldM].
  - intros [= <-]. by left.
  - intros (q1 & H1' & H2')%bind_Ret Hx. destruct (IH ltac:(set_solver) q1 H2' Hx) as [Hq|]; [|by right].
    destruct (push_node_elems _ _ _ _ _ H1' Hq) as [->|]; [|by left].
    right. apply Hin. by left.
Qed.

Lemma pair_loop_spec fuel (pq pc : Q) omp tmp omp' tmp' :
  pair_loop fuel pq pc omp tmp = (omp', tmp') -> length omp = length tmp ->
  length omp' = length tmp' /\
  (forall x, x ∈ omp' -> x ∈ omp \/ x ∈ pq_elems least pq) /\
  (forall x, x ∈ tmp' -> x ∈ tmp \/ x ∈ pq_elems least pc).
Proof.
  revert pq pc omp tmp. induction fuel as [|fuel IH]; intros pq pc omp tmp; cbn.
  - intros [= <- <-]. auto.
  - destruct (pq_top least pq) as [o|] eqn:Eo; [|by intros [= <- <-]; auto].
    destruct (pq_top least pc) as [t|] eqn:Et; [|by intros [= <- <-]; auto].
    intros E Hl. apply pq_top_some in Eo as [Po _], Et as [Pt _].
    destruct (IH _ _ _ _ E) as (Hl' & Ho & Ht); [cbn; lia|]. split_and!; [done| |].
    + intros x Hx. rewrite Po. destruct (Ho x Hx) as [[->|?]%elem_of_cons|?]; set_solver.
    + intros x Hx. rewrite Pt. destruct (Ht x Hx) as [[->|?]%elem_of_cons|?]; set_solver.
Qed.
End Elems.

(** ** The loop invariant *)

Section Invariant.
Context {DB : Type} `{KVReliable DB} {Q : Type} `{PrioLaws node least Q}.

Definition inferred (st : state DB) : gset bytes := dom (db_contents (uniq st)).

(** [done] are the ciphertext chunks already dequeued: none of them is
    dequeued or queued twice, and all are recorded in [uniq]. *)
Definition attack_inv (done : list bytes) (st : state DB) : Prop :=
  NoDup (done ++ (nkey <$> q_t st)) /\
  (forall k, k ∈ done ++ (nkey <$> q_t st) -> k ∈ inferred st) /\
  (length (ansq st) <= length done)%nat.

(** Chunks still to be inferred, plus the queue: what bounds the rounds left. *)
Definition measure (K : gset bytes) (st : state DB) : nat :=
  (length (q_t st) + size (K ∖ inferred st))%nat.

Lemma uniq_put_inferred k v (d : DB) : dom (db_contents (db_put k v d).2) = {[k]} ∪ dom (db_contents d).
Proof. by rewrite put_contents, dom_insert_L. Qed.

(** [infer_loop] keeps the invariant, does not increase the measure, keeps the
    queues in step and respects the queue limit. *)
Lemma infer_loop_spec K W done omp tmp st :
  attack_inv done st -> length omp = length tmp ->
  (forall t, t ∈ tmp -> nkey t ∈ K) ->
  exists new_o new_t, let st' := infer_loop W omp tmp st in
    attack_inv done st' /\ (measure K st' <= measure K st)%nat /\
    q_o st' = q_o st ++ new_o /\ q_t st' = q_t st ++ new_t /\ length new_o = length new_t /\
    (Z.of_nat (length (q_o st)) <= W -> Z.of_nat (length (q_o st')) <= W) /\
    inferred st ⊆ inferred st' /\ (forall k, k ∈ inferred st' -> k ∈ inferred st \/ k ∈ K) /\
    ansq st' = ansq st /\ correct st' = correct st /\ involve st' = involve st.
Proof.
  revert omp st. induction tmp as [|t tmp IH]; intros [|o omp] st Hinv Hl HK; cbn in Hl; try lia.
  - exists [], []. cbn. rewrite !app_nil_r. split_and!; auto.
  - cbn [infer_loop]. rewrite get_reliable.
    assert (forall t', t' ∈ tmp -> nkey t' ∈ K) as HK' by set_solver.
    destruct (db_contents (uniq st) !! nkey t) as [v|] eqn:E; [by apply IH; auto|].
    case (Z.ltb_spec W (Z.of_nat (length (q_o st)) + 1)) as [Hw|Hw].
    { exists [], []. cbn. rewrite !app_nil_r. split_and!; auto. }
    set (s1 := St (q_o st ++ [o]) (q_t st ++ [t]) _ _ _ _).
    assert (nkey t ∉ inferred st) as Hnew by (by apply not_elem_of_dom).
    assert (inferred s1 = {[nkey t]} ∪ inferred st) as Hs1 by apply uniq_put_inferred.
    assert (attack_inv done s1) as Hinv1.
    { destruct Hinv as (Hnd & Hsub & Ha). split_and!.
      - cbn. rewrite fmap_app, app_assoc. apply NoDup_app. split_and!; [done| |apply NoDup_singleton].
        intros k Hk ->%list_elem_of_singleton. by apply Hnew, Hsub.
      - intros k. cbn [s1 q_t]. rewrite fmap_app, app_assoc, Hs1, elem_of_app. cbn.
        intros [Hk|Hk]; [apply Hsub in Hk|]; set_solver.
      - done. }
    assert (measure K s1 = measure K st) as Hm1.
    { unfold measure. rewrite Hs1. cbn [s1 q_t]. rewrite length_app. cbn.
      assert (K ∖ inferred st = {[nkey t]} ∪ K ∖ ({[nkey t]} ∪ inferred st)) as ->.
      { apply set_eq. intros k. pose proof (HK t ltac:(by left)).
        destruct (decide (k = nkey t)); set_solver. }
      assert (forall (k : bytes) (X : gset bytes), k ∉ X -> size ({[k]} ∪ X) = S (size X)) as Hsz.
      { intros k X Hk. rewrite size_union by set_solver. by rewrite size_singleton. }
      rewrite Hsz by set_solver. lia. }
    destruct (IH omp s1 Hinv1 ltac:(lia) HK') as (no & nt & Hi & Hm & Ho & Ht & Hlen & Hlim & Hmon & Hnewk & Ha & Hc & Hv).
    exists (o :: no), (t :: nt). split_and!; auto.
    + lia.
    + rewrite Ho. cbn. by rewrite <- app_assoc.
    + rewrite Ht. cbn. by rewrite <- app_assoc.
    + cbn. lia.
    + intros _. apply Hlim. cbn [s1 q_o]. rewrite length_app. cbn. lia.
    + rewrite Hs1 in Hmon. set_solver.
    + intros k Hk. destruct (Hnewk k Hk) as [Hk'|]; [|by right].
      rewrite Hs1 in Hk'. apply elem_of_union in Hk' as [->%elem_of_singleton|]; [|by left].
      right. apply HK. by left.
Qed.

(** The facts one side of a round guarantees. *)
Definition side_ok (K : gset bytes) (W : Z) (done : list bytes) (st st' : state DB) : Prop :=
  exists new_o new_t,
    attack_inv done st' /\ (measure K st' <= measure K st)%nat /\
    q_o st' = q_o st ++ new_o /\ q_t st' = q_t st ++ new_t /\ length new_o = length new_t /\
    (Z.of_nat (length (q_o st)) <= W -> Z.of_nat (length (q_o st')) <= W) /\
    inferred st ⊆ inferred st' /\ (forall k, k ∈ inferred st' -> k ∈ inferred st \/ k ∈ K) /\
    ansq st' = ansq st /\ correct st' = correct st /\ involve st' = involve st.

Lemma infer_side_spec (insert : Z -> bytes -> Z -> Q -> outcome Q) (store : Z -> DB) (K : gset bytes) TH_K W done o t st st' :
  (forall ty fp k q, insert ty fp k q = neighbor_insert (store ty) fp k q) ->
  (forall k, k ∈ recs_of (store 1) -> k ∈ K) ->
  attack_inv done st -> infer_side insert TH_K W o t st = Ret st' -> side_ok K W done st st'.
Proof.
  intros Hins HK Hinv. unfold infer_side.
  intros (pq & Hpq & (pc & Hpc & E)%bind_Ret)%bind_Ret. rewrite Hins in Hpq, Hpc.
  destruct (pair_loop (pq_size least pq) pq pc [] []) as [omp tmp] eqn:Ep. injection E as <-.
  destruct (pair_loop_spec _ _ _ _ _ _ _ Ep eq_refl) as (Hl & _ & Ht).
  apply infer_loop_spec; [done|done|]. intros x Hx. apply HK.
  destruct (Ht x Hx) as [?|Hpcx]; [set_solver|].
  destruct (neighbor_insert_elems _ _ _ _ _ x Hpc Hpcx) as [Hem|]; [|done].
  rewrite pq_elems_empty in Hem. set_solver.
Qed.

(** The target-side neighbours. *)
Definition nb_universe (D : dbs DB) : gset bytes :=
  list_to_set (recs_of (left_t D)) ∪ list_to_set (recs_of (right_t D)).

(** The answers found so far do not influence the inference. *)
Definition with_ansq (a : list node) (s : state DB) : state DB :=
  St (q_o s) (q_t s) (uniq s) a (correct s) (involve s).

Lemma infer_loop_ansq W a omp tmp s :
  infer_loop W omp tmp (with_ansq a s) = with_ansq a (infer_loop W omp tmp s) /\
  ansq (infer_loop W omp tmp s) = ansq s.
Proof.
  revert s omp. induction tmp as [|x tmp IH]; intros s [|y omp]; try done. cbn [infer_loop].
  change (uniq (with_ansq a s)) with (uniq s). change (q_o (with_ansq a s)) with (q_o s).
  destruct (db_get _ _); [apply IH| |]; (destruct (_ <? _); [done|]);
    apply (IH (St (q_o s ++ [y]) (q_t s ++ [x])
      (db_put (nkey x) (uniq_value (ncount x)) (uniq s)).2 (ansq s) (correct s) (involve s)) omp).
Qed.

(** One round: the front pair moves from the queue to [done]. *)
Lemma round_spec check D TH_K W done o t qo qt st st' :
  attack_inv done st -> q_o st = o :: qo -> q_t st = t :: qt ->
  round (Q := Q) check D TH_K W o t st = Ret st' ->
  attack_inv (done ++ [nkey t]) st' /\ (measure (nb_universe D) st' < measure (nb_universe D) st)%nat /\
  (length (q_o st) = length (q_t st) -> length (q_o st') = length (q_t st')) /\
  (Z.of_nat (length (q_o st)) <= W -> Z.of_nat (length (q_o st')) <= W) /\
  (forall k, k ∈ inferred st' -> k ∈ inferred st \/ k ∈ nb_universe D) /\
  exists ok, check o t = Ret ok /\ ansq st' = (if ok : bool then ansq st ++ [o] else ansq st) /\
    correct st' = (if ok then u64 (correct st + 1) else correct st) /\ involve st' = u64 (involve st + 1).
Proof.
  intros Hinv Eo Et. unfold round. intros (ok & Hok & E)%bind_Ret.
  set (s0 := if ok then St _ _ _ _ _ _ else st) in E.
  assert (q_o s0 = q_o st /\ q_t s0 = q_t st /\ uniq s0 = uniq st /\ involve s0 = involve st /\
    ansq s0 = (if ok then ansq st ++ [o] else ansq st) /\
    correct s0 = (if ok then u64 (correct st + 1) else correct st)) as (Qo & Qt & U & V & A & C)
    by (by destruct ok).
  (* the invariant with one more answer is restored when [t] is dequeued *)
  set (S := with_ansq (ansq st)).
  apply bind_Ret in E as (s1 & E1 & (s2 & E2 & [= <-])%bind_Ret).
  assert (forall ins s s', infer_side (Q := Q) ins TH_K W o t s = Ret s' ->
    infer_side ins TH_K W o t (S s) = Ret (S s') /\ ansq s' = ansq s) as Hswap.
  { intros ins s s'. unfold infer_side.
    intros (pq & -> & (pc & -> & E)%bind_Ret)%bind_Ret. run.
    destruct (pair_loop _ _ _ _ _) as [omp tmp]. injection E as <-.
    destruct (infer_loop_ansq W (ansq st) omp tmp s) as [Ha Hb]. split; [exact (f_equal Ret Ha)|done]. }
  destruct (Hswap _ _ _ E1) as [E1' A1], (Hswap _ _ _ E2) as [E2' A2].
  assert (attack_inv done (S s0)) as Hinv0.
  { destruct Hinv as (H1' & H2' & H3'). unfold attack_inv, inferred. cbn. rewrite Qt, U. done. }
  destruct (infer_side_spec _ (fun ty => if ty =? 0 then left_o D else left_t D) (nb_universe D) TH_K W
    done o t _ _ (fun _ _ _ _ => eq_refl) ltac:(unfold nb_universe; cbn; set_solver) Hinv0 E1')
    as (no1 & nt1 & I1 & M1 & O1 & T1 & L1 & W1 & Mo1 & N1 & _ & C1 & V1).
  destruct (infer_side_spec _ (fun ty => if ty =? 0 then right_o D else right_t D) (nb_universe D) TH_K W
    done o t _ _ (fun _ _ _ _ => eq_refl) ltac:(unfold nb_universe; cbn; set_solver) I1 E2')
    as (no2 & nt2 & I2 & M2 & O2 & T2 & L2 & W2 & Mo2 & N2 & _ & C2 & V2).
  cbn in O1, T1, O2, T2, C1, C2, V1, V2. rewrite O1, Qo, Eo in O2. rewrite T1, Qt, Et in T2.
  assert (length (ansq st) <= length done)%nat as Hans by apply Hinv.
  split_and!.
  - destruct I2 as (Hnd & Hsub & _). cbn in Hnd, Hsub. rewrite T2 in Hnd, Hsub. split_and!.
    + cbn. rewrite T2. cbn in *. by rewrite <- app_assoc.
    + intros k. cbn. rewrite T2. cbn in *. rewrite <- app_assoc. apply Hsub.
    + cbn. rewrite A2, A1, A. rewrite length_app. cbn. destruct ok; rewrite ?length_app; cbn; lia.
  - unfold measure, inferred in *. cbn in *. rewrite U, T2 in *. rewrite Et in *. rewrite Qt in *. cbn in *. lia.
  - cbn. rewrite O2, T2, Eo, Et. cbn. rewrite !length_app. lia.
  - cbn. intros HW. cbn in W1, W2. rewrite Qo in W1. specialize (W2 (W1 HW)).
    rewrite O2 in *. cbn in *. lia.
  - intros k Hk. cbn in Hk. destruct (N2 k Hk) as [Hk'|]; [|by right].
    destruct (N1 k Hk') as [Hk''|]; [|by right]. left. unfold inferred in *. cbn in Hk''. by rewrite U in Hk''.
  - exists ok. split_and!; [done| | |]; cbn; congruence.
Qed.
End Invariant.

(** ** The inference loop terminates *)

(** The trace of a run: the ciphertext fingerprint at the front of [q_t], which a round
    processes, for every round of [inference]. *)
Fixpoint fronts {DB} `{KVStore DB} {Q} `{PrioQueue node least Q} (check : node -> node -> outcome bool) (D : dbs DB) (TH_K QUEUE_LIMIT : Z)
    (fuel : nat) (st : state DB) : list bytes :=
  match q_o st, q_t st, fuel with
  | o :: _, t :: _, S fuel' =>
      nkey t :: match round (Q := Q) check D TH_K QUEUE_LIMIT o t st with
                | Ret st' => fronts check D TH_K QUEUE_LIMIT fuel' st'
                | _ => []
                end
  | _, _, _ => []
  end.

Section Loop.
Context {DB : Type} `{KVReliable DB} {Q : Type} `{PrioLaws node least Q}.

(** What a finished run guarantees about the state it started from; [new] is its trace. *)
Definition run_ok (D : dbs DB) (W : Z) (done new : list bytes) (st st' : state DB) : Prop :=
  exists ans,
    attack_inv (done ++ new) st' /\ (q_o st' = [] \/ q_t st' = []) /\
    (length new <= measure (nb_universe D) st)%nat /\
    ansq st' = ansq st ++ ans /\ (length ans <= length new)%nat /\
    correct st' = Nat.iter (length ans) (fun c => u64 (c + 1)) (correct st) /\
    involve st' = Nat.iter (length new) (fun c => u64 (c + 1)) (involve st) /\
    (forall k, k ∈ inferred st' -> k ∈ inferred st \/ k ∈ nb_universe D) /\
    (Z.of_nat (length (q_o st)) <= W -> Z.of_nat (length (q_o st')) <= W).

Lemma run_ok_step check D TH_K W done new o t qo qt st s1 st' :
  attack_inv done st -> q_o st = o :: qo -> q_t st = t :: qt ->
  round (Q := Q) check D TH_K W o t st = Ret s1 ->
  run_ok D W (done ++ [nkey t]) new s1 st' -> run_ok D W done (nkey t :: new) st st'.
Proof.
  intros Hinv Eo Et Er (ans & I & Hq & Hn & Ha & Hl & Hc & Hv & Hk & HW).
  destruct (round_spec _ _ _ _ _ _ _ _ _ _ _ Hinv Eo Et Er)
    as (_ & Hm & _ & HW1 & Hk1 & ok & _ & Ha1 & Hc1 & Hv1).
  exists (if ok then o :: ans else ans). rewrite <- app_assoc in I.
  split_and!; try done.
  - cbn. lia.
  - rewrite Ha, Ha1. destruct ok; [by rewrite <- app_assoc|done].
  - destruct ok; cbn; lia.
  - rewrite Hc, Hc1. destruct ok; [|done]. cbn [length]. by rewrite Nat.iter_succ_r.
  - rewrite Hv, Hv1. cbn [length]. by rewrite Nat.iter_succ_r.
  - intros k [?|?]%Hk; [|by right]. by apply Hk1.
  - auto.
Qed.

(** The measure is enough fuel, whatever the databases contain. *)
Lemma inference_terminates check D TH_K W fuel done st :
  attack_inv done st -> (measure (nb_universe D) st <= fuel)%nat ->
  exists r, inference (Q := Q) check D TH_K W fuel st = Some r /\
    (forall st', r = Ret st' -> run_ok D W done (fronts (Q := Q) check D TH_K W fuel st) st st').
Proof.
  revert done st. induction fuel as [|fuel IH]; intros done st Hinv Hm.
  all: assert (q_o st = [] \/ q_t st = [] -> run_ok D W done [] st st) as Hstop
    by (intros; exists []; rewrite !app_nil_r; split_and!; auto; cbn; lia).
  all: cbn [inference fronts]; destruct (q_o st) as [|o qo] eqn:Eo;
    [exists (Ret st); split; [done|]; intros ? [= <-]; apply Hstop; by left|].
  all: destruct (q_t st) as [|t qt] eqn:Et;
    [exists (Ret st); split; [done|]; intros ? [= <-]; apply Hstop; by right|].
  - unfold measure in Hm. rewrite Et in Hm. cbn in Hm. lia.
  - destruct (round check D TH_K W o t st) as [s1|c|] eqn:Er; [|by exists (Exit c)|by exists Undef].
    destruct (round_spec _ _ _ _ _ _ _ _ _ _ _ Hinv Eo Et Er) as (I1 & Hm1 & _).
    destruct (IH (done ++ [nkey t]) s1 I1 ltac:(lia)) as (r & E & Hr).
    exists r. split; [done|]. intros st' Hst. eapply run_ok_step; eauto.
Qed.

(** ** No step is undefined on well-formed databases *)

Definition nd_nodes (d : DB) : list node := (fun e => MkNd e.1 (le_combine e.2)) <$> db_entries d.

Lemma foldM_map {A B S} (g : A -> B) (f : B -> S -> outcome S) l s :
  foldM (fun a => f (g a)) l s = foldM f (g <$> l) s.
Proof.
  revert s. induction l as [|a l IH]; intros s; [done|]. cbn. destruct (f (g a) s); cbn; auto.
Qed.

Lemma neighbor_insert_topk (store : DB) n fp k :
  nb_wf n store -> (0 < k)%nat ->
  exists q : Q, neighbor_insert store fp (Z.of_nat k) (pq_empty least) = Ret q /\
    exists recs, (match db_contents store !! fp with Some v => neighbors v = Ret recs | None => recs = [] end) /\
      top_k ncount k ((fun r => MkNd r.1 r.2) <$> recs) (drain least q).
Proof.
  intros Hwf Hk. unfold neighbor_insert. rewrite get_reliable.
  destruct (db_contents store !! fp) as [v|] eqn:E.
  - destruct (Hwf fp v E) as (l & -> & _ & Hl & _). rewrite neighbors_enc by done. run.
    rewrite (foldM_map (fun r => MkNd r.1 r.2) (push_node (Z.of_nat k))).
    destruct (select_topk ncount (Q := Q) k ((fun r => MkNd r.1 r.2) <$> l) Hk) as (q & Hq & Ht).
    exists q. split; [exact Hq|]. by exists l.
  - exists (pq_empty least). split; [done|]. exists []. split; [done|].
    assert (drain least (pq_empty least : Q) = []) as ->
      by (apply Permutation_nil_r; by rewrite drain_perm, pq_elems_empty).
    exists []. split_and!; [done|cbn; lia|set_solver].
Qed.

Lemma infer_side_total insert (store : Z -> DB) n k W o t st :
  (forall ty fp k q, insert ty fp k q = neighbor_insert (store ty) fp k q) ->
  (forall ty, nb_wf n (store ty)) -> (0 < k)%nat ->
  exists st', infer_side (Q := Q) insert (Z.of_nat k) W o t st = Ret st'.
Proof.
  intros Hins Hwf Hk. unfold infer_side. rewrite !Hins.
  destruct (neighbor_insert_topk (store 0) n (nkey o) k (Hwf 0) Hk) as (q1 & -> & _).
  destruct (neighbor_insert_topk (store 1) n (nkey t) k (Hwf 1) Hk) as (q2 & -> & _).
  run. destruct (pair_loop _ _ _ _ _). eauto.
Qed.

(** The four neighbour databases are as locality_count.cc writes them. *)
Definition dbs_wf (n : nat) (D : dbs DB) : Prop :=
  nb_wf n (left_o D) /\ nb_wf n (right_o D) /\ nb_wf n (left_t D) /\ nb_wf n (right_t D).

Lemma round_total check D n k W o t st :
  dbs_wf n D -> (0 < k)%nat -> (exists b, check o t = Ret b) ->
  exists st', round (Q := Q) check D (Z.of_nat k) W o t st = Ret st'.
Proof.
  intros (H1' & H2' & H3' & H4') Hk [b Hb]. unfold round. rewrite Hb. run.
  destruct (infer_side_total (left_insert D) (fun ty => if ty =? 0 then left_o D else left_t D) n k W o t
    (if b then St (q_o st) (q_t st) (uniq st) (ansq st ++ [o]) (u64 (correct st + 1)) (involve st) else st)
    (fun _ _ _ _ => eq_refl) ltac:(intros ty; cbn; by destruct (ty =? 0)) Hk) as (s1 & ->).
  run.
  destruct (infer_side_total (right_insert D) (fun ty => if ty =? 0 then right_o D else right_t D) n k W o t s1
    (fun _ _ _ _ => eq_refl) ltac:(intros ty; cbn; by destruct (ty =? 0)) Hk) as (s2 & ->).
  cbn. eauto.
Qed.

Lemma inference_total check D n k W fuel st :
  dbs_wf n D -> (0 < k)%nat -> (forall o t, exists b, check o t = Ret b) ->
  forall r, inference (Q := Q) check D (Z.of_nat k) W fuel st = Some r -> exists st', r = Ret st'.
Proof.
  intros Hwf Hk Hc. revert st. induction fuel as [|fuel IH]; intros st r; cbn [inference].
  - destruct (q_o st), (q_t st); try done; intros [= <-]; eauto.
  - destruct (q_o st) as [|o qo]; [intros [= <-]; eauto|]. destruct (q_t st) as [|t qt]; [intros [= <-]; eauto|].
    destruct (round_total check D n k W o t st Hwf Hk (Hc o t)) as [s1 ->]. apply IH.
Qed.

(** ** Seeding *)

Lemma db_insert_topk (d : DB) k :
  db_ok d -> (0 < k)%nat ->
  exists q : Q, db_insert d (Z.of_nat k) (pq_empty least) = Ret q /\
    top_k ncount k (nd_nodes d) (drain least q).
Proof.
  intros [Hv Hkey] Hk. unfold db_insert.
  destruct (select_topk ncount (Q := Q) k (nd_nodes d) Hk) as (q & Hq & Ht). exists q. split; [|done].
  rewrite <- Hq. unfold nd_nodes. rewrite <- (foldM_map _ (bounded_push (fun a => - ncount a) (heavier ncount) _)).
  assert (forall l s, (forall e, e ∈ l -> e ∈ db_entries d) ->
    foldM (fun e q => val ← load_u64 e.2 0; name ← load_key e.1; push_node (Z.of_nat k) (MkNd name val) q) l s
    = foldM (fun e => bounded_push (fun a => - ncount a) (heavier ncount) (Z.of_nat k) (MkNd e.1 (le_combine e.2))) l s)
    as Hext; [|by apply Hext].
  induction l as [|[x v] l IH]; intros s Hin; [done|]. cbn [foldM fst snd].
  assert (db_contents d !! x = Some v) as Hx by (apply entries_contents, Hin; by left).
  rewrite load_u64_whole by (by eapply (Hv x)). run.
  rewrite load_key_6 by (by eapply (Hkey x)). run.
  unfold push_node, least. destruct (bounded_push _ _ _ _ _); cbn; [|done|done]. apply IH. set_solver.
Qed.

Lemma nd_nodes_nodup (d : DB) : NoDup (nkey <$> nd_nodes d).
Proof.
  unfold nd_nodes. rewrite <- list_fmap_compose. pose proof (entries_keys_nodup d) as Hn.
  by rewrite (list_fmap_ext (nkey ∘ (fun e => MkNd e.1 (le_combine e.2))) fst (db_entries d)) by done.
Qed.

Lemma top_k_nodup k nodes kept :
  NoDup (nkey <$> nodes) -> top_k ncount k nodes kept -> NoDup (nkey <$> kept).
Proof. intros Hn (rest & Hp & _). rewrite Hp, fmap_app in Hn. by apply NoDup_app in Hn as [? _]. Qed.

Lemma seed_targets_spec l (st : state DB) :
  let st' := fold_left (fun st t => seed_target t st) l st in
  q_o st' = q_o st /\ q_t st' = q_t st ++ l /\ ansq st' = ansq st /\
  correct st' = correct st /\ involve st' = involve st /\
  inferred st' = inferred st ∪ list_to_set (nkey <$> l).
Proof.
  revert st. induction l as [|t l IH]; intros st; cbn.
  - rewrite app_nil_r. split_and!; try done. set_solver.
  - destruct (IH (seed_target t st)) as (-> & -> & -> & -> & -> & ->). cbn.
    rewrite <- app_assoc. split_and!; try done. unfold inferred at 1. cbn.
    rewrite uniq_put_inferred. unfold inferred. set_solver.
Qed.

(** Seeding from an empty inferred set establishes the invariant. *)
Lemma seed_spec D k (st : state DB) :
  db_ok (origin D) -> db_ok (target D) -> (0 < k)%nat ->
  q_o st = [] -> q_t st = [] -> ansq st = [] -> inferred st = ∅ ->
  exists st', seed (Q := Q) D (Z.of_nat k) st = Ret st' /\ attack_inv [] st' /\
    top_k ncount k (nd_nodes (origin D)) (q_o st') /\ top_k ncount k (nd_nodes (target D)) (q_t st') /\
    StronglySorted (fun x y => ncount y <= ncount x) (q_o st') /\
    StronglySorted (fun x y => ncount y <= ncount x) (q_t st') /\
    ansq st' = [] /\ correct st' = correct st /\ involve st' = involve st /\
    (forall x, x ∈ inferred st' -> x ∈ nkey <$> nd_nodes (target D)).
Proof.
  intros Ho Ht Hk Eo Et Ea Eu. unfold seed.
  destruct (db_insert_topk (origin D) k Ho Hk) as (pq & -> & Hpq).
  destruct (db_insert_topk (target D) k Ht Hk) as (pc & -> & Hpc). run.
  assert (forall q : Q, StronglySorted (fun x y => ncount y <= ncount x) (rev (drain least q))) as Hsort.
  { intros q. pose proof (drain_sorted least q) as Hs.
    induction Hs as [|x l _ IH Hf]; cbn; [constructor|]. apply StronglySorted_app_2; [|done|repeat constructor].
    intros a b Ha ->%list_elem_of_singleton. apply list_elem_of_In, in_rev, list_elem_of_In in Ha.
    eapply Forall_forall in Hf; [|done]. unfold least in Hf. lia. }
  assert (forall (q : Q) nodes, top_k ncount k nodes (drain least q) -> top_k ncount k nodes (rev (drain least q))) as Hrev.
  { intros q nodes Hq. eapply top_k_perm; [done| |exact Hq]. apply Permutation_rev. }
  rewrite Eo, Et, Ea. cbn [app q_t].
  match goal with |- context [fold_left _ (rev (drain least pc)) ?x] =>
    destruct (seed_targets_spec (rev (drain least pc)) x) as (S1 & S2 & S3 & S4 & S5 & S6) end.
  eexists. split; [done|]. cbn in S1, S2, S3, S4, S5, S6.
  rewrite S1, S2, S3, S4, S5. unfold attack_inv. rewrite S2, S3, S6.
  split_and!; auto.
  - cbn. eapply top_k_nodup; [apply nd_nodes_nodup|by apply Hrev].
  - cbn. intros x Hx. unfold inferred in *. cbn in *. set_solver.
  - intros x. unfold inferred in *. cbn in *. rewrite Eu. intros Hx.
    assert (x ∈ nkey <$> rev (drain least pc)) as Hx' by set_solver. clear Hx.
    apply list_elem_of_fmap in Hx' as (y & -> & Hy). apply list_elem_of_fmap_2.
    apply (top_k_sub ncount k _ (rev (drain least pc))); [by apply Hrev|done].
Qed.
End Loop.

(** ** Whole runs without leakage *)

Section Run.
Context {DB : Type} `{KVReliable DB} {Q : Type} `{PrioLaws node least Q}.

Lemma stat_list_zero (D : dbs DB) rate l lk st :
  SFeqb rate (Z2SF 0) = true ->
  foldM (stat_entry D rate) l (lk, st) =
    Ret (Leaks (Nat.iter (length l) (fun c => u64 (c + 1)) (total lk)) (common lk) (leak lk), st).
Proof.
  intros Hr. revert lk. induction l as [|[[k v] r] l IH]; intros lk; cbn [foldM stat_entry].
  - by destruct lk.
  - unfold leak_drawn. rewrite Hr. cbn [negb andb mbind outcome_bind]. rewrite IH.
    cbn [length total common leak]. by rewrite Nat.iter_succ_r.
Qed.

Lemma stat_db_zero (D : dbs DB) rate rands st :
  SFeqb rate (Z2SF 0) = true -> Z.of_nat (length (db_entries (target D))) < 2 ^ 64 ->
  stat_db D rate rands st = Ret (Leaks (Z.of_nat (length (db_entries (target D)))) 0 0, st).
Proof.
  intros Hr Hl. unfold stat_db. rewrite stat_list_zero by done. rewrite length_imap. cbn [total common leak].
  by rewrite iter_u64_count by lia.
Qed.

(** [main_loop] from empty queues, with a judgement that always answers. *)
Lemma main_loop_run check (D : dbs DB) n u v W rate idb :
  db_ok (origin D) -> db_ok (target D) -> dbs_wf n D -> (0 < u)%nat -> (0 < v)%nat ->
  db_contents idb = ∅ -> SFeqb rate (Z2SF 0) = true -> (forall o t, exists b, check o t = Ret b) ->
  Z.of_nat (u + size (nb_universe D)) < 2 ^ 64 ->
  exists s0 st done, main_loop (Q := Q) check D (Z.of_nat u) (Z.of_nat v) W rate (u + size (nb_universe D))
      (St [] [] idb [] 0 0) = Some (Ret st) /\
    (seed (Q := Q) D (Z.of_nat u) (St [] [] idb [] 0 0) = Ret s0 /\ inference (Q := Q) check D (Z.of_nat v) W (u + size (nb_universe D)) s0 = Some (Ret st) /\
     done = fronts (Q := Q) check D (Z.of_nat v) W (u + size (nb_universe D)) s0) /\
    attack_inv done st /\ (q_o st = [] \/ q_t st = []) /\
    correct st = Z.of_nat (length (ansq st)) /\ involve st = Z.of_nat (length done) /\
    (length (ansq st) <= length done)%nat /\
    (forall k, k ∈ inferred st -> k ∈ dom (db_contents (target D)) \/ k ∈ nb_universe D).
Proof.
  intros Ho Ht Hwf Hu Hv Hi Hr Hcheck Hb. unfold main_loop. rewrite Hr.
  destruct (seed_spec (Q := Q) D u (St [] [] idb [] 0 0) Ho Ht Hu eq_refl eq_refl eq_refl)
    as (s0 & Es & Hinv & _ & Htk & _ & _ & Ea & Ec & Ev & Hsub).
  { unfold inferred. cbn. by rewrite Hi, dom_empty_L. }
  cbn [q_o q_t uniq correct involve]. rewrite Es.
  assert (measure (nb_universe D) s0 <= u + size (nb_universe D))%nat as Hm.
  { unfold measure. destruct Htk as (_ & _ & Hlen & _).
    assert (size (nb_universe D ∖ inferred s0) <= size (nb_universe D))%nat by (apply subseteq_size; set_solver).
    lia. }
  destruct (inference_terminates (Q := Q) check D (Z.of_nat v) W _ [] s0 Hinv Hm) as (r & E & Hrun).
  destruct (inference_total (Q := Q) check D n v W _ s0 Hwf Hv Hcheck r E) as [st ->].
  destruct (Hrun st eq_refl) as (ans & I & Hq & Hn & Ha & Han & Hc & Hv' & Hk & _). set (new := fronts _ _ _ _ _ _) in *.
  exists s0, st, new. rewrite Ea in Ha. cbn in Ha. split_and!; auto.
  - rewrite Hc, Ec, Ha. cbn [correct]. rewrite iter_u64_count by lia. lia.
  - rewrite Hv', Ev. cbn [involve]. rewrite iter_u64_count by lia. lia.
  - by rewrite Ha.
  - intros k [Hk'|?]%Hk; [|by right]. left. apply Hsub in Hk'.
    unfold nd_nodes in Hk'. rewrite <- list_fmap_compose in Hk'.
    apply list_elem_of_fmap in Hk' as ([x y] & -> & He). cbn.
    apply entries_contents in He. by apply elem_of_dom_2 in He.
Qed.

Lemma attack_run (D : dbs DB) n u v W rate rands idb :
  db_ok (origin D) -> db_ok (target D) -> dbs_wf n D -> (0 < u)%nat -> (0 < v)%nat ->
  db_contents idb = ∅ -> SFeqb rate (Z2SF 0) = true ->
  Z.of_nat (length (db_entries (target D))) < 2 ^ 64 ->
  Z.of_nat (u + size (nb_universe D)) < 2 ^ 64 ->
  exists s0 st done, attack (Q := Q) D (Z.of_nat u) (Z.of_nat v) W rate rands idb (u + size (nb_universe D))
      = Some (Ret (Leaks (Z.of_nat (length (db_entries (target D)))) 0 0, st)) /\
    (seed (Q := Q) D (Z.of_nat u) (St [] [] idb [] 0 0) = Ret s0 /\ inference (Q := Q) check_plain D (Z.of_nat v) W (u + size (nb_universe D)) s0 = Some (Ret st) /\
     done = fronts (Q := Q) check_plain D (Z.of_nat v) W (u + size (nb_universe D)) s0) /\
    attack_inv done st /\ (q_o st = [] \/ q_t st = []) /\
    correct st = Z.of_nat (length (ansq st)) /\ involve st = Z.of_nat (length done) /\
    (length (ansq st) <= length done)%nat /\
    (forall k, k ∈ inferred st -> k ∈ dom (db_contents (target D)) \/ k ∈ nb_universe D).
Proof.
  intros Ho Ht Hwf Hu Hv Hi Hr Hl Hb. unfold attack. rewrite stat_db_zero by done.
  destruct (main_loop_run check_plain D n u v W rate idb Ho Ht Hwf Hu Hv Hi Hr ltac:(intros; eexists; done) Hb)
    as (s0 & st & done & E & Hrest). exists s0, st, done. rewrite E. done.
Qed.

(** A ground-truth database that knows every ciphertext chunk of the target. *)
Definition truth_ok (relate : DB) (D : dbs DB) : Prop :=
  map_Forall (fun _ v => length v = FP_SIZE) (db_contents relate) /\
  dom (db_contents (target D)) ⊆ dom (db_contents relate).

Lemma check_truth_total (relate : DB) o t :
  map_Forall (fun _ v => length v = FP_SIZE) (db_contents relate) -> exists b, check_truth relate o t = Ret b.
Proof.
  intros Hr. unfold check_truth. rewrite get_reliable. destruct (db_contents relate !! nkey t) as [v|] eqn:E; [|eauto].
  apply Hr in E. unfold memcmp_at. rewrite length_app, E. cbn [length Nat.leb Nat.add FP_SIZE mbind outcome_bind]. eauto.
Qed.

Lemma stat_list_zero_e (relate : DB) (D : dbs DB) rate l exs lk st :
  SFeqb rate (Z2SF 0) = true ->
  (forall e, e ∈ l -> exists v, db_contents relate !! e.1.1 = Some v /\ length v = FP_SIZE) ->
  exists exs', foldM (stat_entry_e relate D rate) l (exs, (lk, st)) =
    Ret (exs', (Leaks (Nat.iter (length l) (fun c => u64 (c + 1)) (total lk)) (common lk) (leak lk), st)).
Proof.
  intros Hr. revert exs lk. induction l as [|[[k v] r] l IH]; intros exs lk Hl; cbn [foldM stat_entry_e].
  - exists exs. by destruct lk.
  - destruct (Hl (k, v, r)) as (p & Hp & Lp); [by left|]. cbn [fst] in Hp. rewrite get_reliable, Hp.
    rewrite (load_key_6 p) by done. run. unfold leak_drawn. rewrite Hr.
    cbn [negb andb mbind outcome_bind].
    destruct (IH p (Leaks (u64 (total lk + 1)) (common lk) (leak lk))) as (exs' & E); [set_solver|].
    rewrite E. exists exs'. cbn [length total common leak]. by rewrite Nat.iter_succ_r.
Qed.

Lemma stat_db_e_zero (relate : DB) (D : dbs DB) rate rands st :
  SFeqb rate (Z2SF 0) = true -> truth_ok relate D -> Z.of_nat (length (db_entries (target D))) < 2 ^ 64 ->
  stat_db_e relate D rate rands st = Ret (Leaks (Z.of_nat (length (db_entries (target D)))) 0 0, st).
Proof.
  intros Hr [Hv Hd] Hl. unfold stat_db_e.
  destruct (stat_list_zero_e relate D rate (imap (fun i e => (e, rands i)) (db_entries (target D))) [] (Leaks 0 0 0) st Hr)
    as (exs' & E).
  - intros e (i & Hi)%list_elem_of_lookup. rewrite list_lookup_imap in Hi.
    destruct (db_entries (target D) !! i) as [[k v]|] eqn:Ee; [|done]. cbn in Hi. injection Hi as <-. cbn [fst].
    apply list_elem_of_lookup_2, entries_contents in Ee. apply elem_of_dom_2, Hd, elem_of_dom in Ee as [p Hp].
    exists p. split; [done|]. by eapply (Hv k).
  - rewrite E. run. rewrite length_imap. cbn [total common leak].
    by rewrite iter_u64_count by lia.
Qed.

Lemma entries_size (d : DB) : length (db_entries d) = size (dom (db_contents d)).
Proof.
  rewrite <- (length_fmap fst). rewrite <- (size_list_to_set (C := gset bytes)) by apply entries_keys_nodup.
  f_equal. apply set_eq. intros k. rewrite elem_of_list_to_set, elem_of_dom. split.
  - intros ([x v] & -> & He)%list_elem_of_fmap. apply entries_contents in He. by eexists.
  - intros [v Hv]. apply entries_contents in Hv. apply (list_elem_of_fmap_2 fst) in Hv. done.
Qed.
End Run.

(** ** Properties *)

(** C26: the attack terminates and counts correctly.  On the databases the
    counting tool writes, with an empty inference database and nothing leaked, the
    program seeds its queues and runs the inference loop, which ends after at most as
    many rounds as there are seeds and distinct neighbour fingerprints, because a queue
    is empty.  The ciphertext fingerprints at the front of the queue in the successive
    rounds are pairwise different, so no ciphertext chunk is processed twice; all of
    them are recorded in the inference database, "involve" is their number, and the
    number of correct inferences is the number of recorded answers and at most that. *)
Theorem locality_attack_terminates {DB} `{KVReliable DB} {Q} `{PrioLaws node least Q}
    (D : dbs DB) n u v W rate rands idb :
  db_ok (origin D) -> db_ok (target D) -> dbs_wf n D -> (0 < u)%nat -> (0 < v)%nat ->
  db_contents idb = ∅ -> SFeqb rate (Z2SF 0) = true ->
  Z.of_nat (length (db_entries (target D))) < 2 ^ 64 ->
  Z.of_nat (u + size (nb_universe D)) < 2 ^ 64 ->
  let fuel := (u + size (nb_universe D))%nat in
  exists lk s0 st,
    attack (Q := Q) D (Z.of_nat u) (Z.of_nat v) W rate rands idb fuel = Some (Ret (lk, st)) /\
    seed (Q := Q) D (Z.of_nat u) (St [] [] idb [] 0 0) = Ret s0 /\
    inference (Q := Q) check_plain D (Z.of_nat v) W fuel s0 = Some (Ret st) /\
    let processed := fronts (Q := Q) check_plain D (Z.of_nat v) W fuel s0 in
    (q_o st = [] \/ q_t st = []) /\ NoDup processed /\
    involve st = Z.of_nat (length processed) /\ (forall k, k ∈ processed -> k ∈ inferred st) /\
    correct st = Z.of_nat (length (ansq st)) /\ 0 <= correct st <= involve st.
Proof.
  intros. destruct (attack_run (Q := Q) D n u v W rate rands idb) as (s0 & st & done & E & (Es & Ei & Ed) & (Hnd & Hin & Hl) & Hq & Hc & Hi & _ & _); auto.
  exists (Leaks (Z.of_nat (length (db_entries (target D)))) 0 0), s0, st. unfold fuel. rewrite <- Ed. split_and!; auto.
  - by apply NoDup_app in Hnd as [? _].
  - intros k Hk. apply Hin. set_solver.
  - lia.
  - lia.
Qed.

(** The ground-truth variant (locality_attack_e.cc).  With a ground-truth
    database that maps every ciphertext chunk of the target to six bytes, and
    nothing leaked, the attack on encrypted fingerprints terminates as well,
    processes every ciphertext chunk at most once, and reports at most as many
    correct inferences as it processed. *)
Theorem locality_attack_e_terminates {DB} `{KVReliable DB} {Q} `{PrioLaws node least Q}
    (relate : DB) (D : dbs DB) n u v W rate rands idb :
  db_ok (origin D) -> db_ok (target D) -> dbs_wf n D -> truth_ok relate D -> (0 < u)%nat -> (0 < v)%nat ->
  db_contents idb = ∅ -> SFeqb rate (Z2SF 0) = true ->
  Z.of_nat (length (db_entries (target D))) < 2 ^ 64 ->
  Z.of_nat (u + size (nb_universe D)) < 2 ^ 64 ->
  exists lk st (done : list bytes),
    attack_e (Q := Q) relate D (Z.of_nat u) (Z.of_nat v) W rate rands idb (u + size (nb_universe D)) = Some (Ret (lk, st)) /\
    total lk = Z.of_nat (length (db_entries (target D))) /\ common lk = 0 /\ leak lk = 0 /\
    (q_o st = [] \/ q_t st = []) /\ NoDup done /\ involve st = Z.of_nat (length done) /\
    0 <= correct st <= involve st.
Proof.
  intros Ho Ht Hwf Htr Hu Hv Hi Hr Hl Hb. unfold attack_e. rewrite stat_db_e_zero by done.
  destruct (main_loop_run (Q := Q) (check_truth relate) D n u v W rate idb Ho Ht Hwf Hu Hv Hi Hr) as
    (s0 & st & done & E & _ & (Hnd & Hin & Hlen) & Hq & Hc & Hinv & Hle & _).
  - intros. apply check_truth_total, Htr.
  - done.
  - unfold main_loop_e. rewrite E. do 2 eexists. exists done. split_and!; try done; [|lia..].
    by apply NoDup_app in Hnd as [? _].
Qed.

(** When every neighbour of the target backup is a chunk of the target
    backup, the number of correct inferences that [main] reports (correct plus
    leaked chunks counted as common, minus leaked) does not exceed the number
    of unique target chunks, so the printed rate is at most one. *)
Theorem inference_rate_at_most_one {DB} `{KVReliable DB} {Q} `{PrioLaws node least Q}
    (D : dbs DB) n u v W rate rands idb :
  db_ok (origin D) -> db_ok (target D) -> dbs_wf n D -> (0 < u)%nat -> (0 < v)%nat ->
  db_contents idb = ∅ -> SFeqb rate (Z2SF 0) = true ->
  Z.of_nat (length (db_entries (target D))) < 2 ^ 64 ->
  Z.of_nat (u + size (nb_universe D)) < 2 ^ 64 ->
  nb_universe D ⊆ dom (db_contents (target D)) ->
  exists lk st,
    attack (Q := Q) D (Z.of_nat u) (Z.of_nat v) W rate rands idb (u + size (nb_universe D)) = Some (Ret (lk, st)) /\
    total lk = Z.of_nat (length (db_entries (target D))) /\
    0 <= u64 (u64 (correct st + common lk) - leak lk) <= total lk.
Proof.
  intros Ho Ht Hwf Hu Hv Hi Hr Hl Hb Hsub.
  destruct (attack_run (Q := Q) D n u v W rate rands idb) as (s0 & st & done & E & _ & (Hnd & Hin & Hlen) & Hq & Hc & _ & _ & Hk); auto.
  exists (Leaks (Z.of_nat (length (db_entries (target D)))) 0 0), st. split; [done|]. split; [done|].
  cbn [total common leak]. rewrite Z.add_0_r, Z.sub_0_r.
  assert (length (ansq st) <= length (db_entries (target D)))%nat as Hle.
  { rewrite entries_size. etrans; [exact Hlen|]. apply NoDup_app in Hnd as (Hnd & _).
    rewrite <- (size_list_to_set (C := gset bytes) done Hnd). apply subseteq_size. intros k Hk'.
    apply elem_of_list_to_set in Hk'. assert (k ∈ inferred st) as Hki by (apply Hin; set_solver).
    destruct (Hk k Hki); set_solver. }
  rewrite Hc. rewrite (u64_small (Z.of_nat _)) by lia. rewrite u64_small by lia. lia.
Qed.

(** [left_insert] selects the top neighbours: the bounded min-queue ends
    with the [k] most frequent records of the value, whatever their order, and
    pops them from the least to the most frequent. *)
Theorem left_insert_topk {DB} `{KVReliable DB} {Q} `{PrioLaws node least Q} (D : dbs DB) n fp k recs :
  nb_wf n (left_t D) -> (0 < k)%nat ->
  db_contents (left_t D) !! fp = Some (enc_records recs) -> Forall record_ok recs ->
  exists q : Q, left_insert D 1 fp (Z.of_nat k) (pq_empty least) = Ret q /\
    top_k ncount k ((fun r => MkNd r.1 r.2) <$> recs) (drain least q) /\
    StronglySorted (fun x y => ncount x <= ncount y) (drain least q).
Proof.
  intros Hwf Hk Hfp Hok. destruct (neighbor_insert_topk (Q := Q) (left_t D) n fp k Hwf Hk) as (q & E & r & Hr & Ht).
  rewrite Hfp, neighbors_enc in Hr by done. injection Hr as <-. exists q. split_and!; [exact E|exact Ht|].
  clear Ht E. induction (drain_sorted least q) as [|a l _ IH Hf]; [constructor|].
  constructor; [done|]. eapply Forall_impl; [done|]. unfold least. cbn. lia.
Qed.

Lemma pair_loop_drain {Q} `{PrioLaws node least Q} fuel (pq pc : Q) omp tmp :
  (pq_size least pq <= fuel)%nat ->
  pair_loop fuel pq pc omp tmp =
    (rev (take (pq_size least pc) (drain least pq)) ++ omp, rev (take (pq_size least pq) (drain least pc)) ++ tmp).
Proof.
  revert pq pc omp tmp. induction fuel as [|fuel IH]; intros pq pc omp tmp Hf.
  - assert (pq_size least pq = 0%nat) as E by lia. unfold drain. rewrite E. cbn. by rewrite take_nil.
  - cbn [pair_loop]. destruct (pq_top least pq) as [o|] eqn:Eo.
    + destruct (pq_top least pc) as [t|] eqn:Et.
      * destruct (pq_top_some _ _ Eo) as [Po _]. destruct (pq_top_some _ _ Et) as [Pt _].
        assert (pq_size least pq = S (pq_size least (pq_pop least pq))) as So by (unfold pq_size; by rewrite Po).
        assert (pq_size least pc = S (pq_size least (pq_pop least pc))) as Stt by (unfold pq_size; by rewrite Pt).
        rewrite IH by lia. unfold drain at 3 4. rewrite So, Stt. cbn [drain_go]. rewrite Eo, Et. cbn [take rev].
        rewrite <- !app_assoc. done.
      * apply pq_top_none in Et. assert (pq_size least pc = 0%nat) as E by (unfold pq_size; by rewrite Et).
        unfold drain at 2. rewrite E. cbn. by rewrite take_nil.
    + apply pq_top_none in Eo. assert (pq_size least pq = 0%nat) as E by (unfold pq_size; by rewrite Eo).
      unfold drain at 1. rewrite E. cbn. by rewrite take_nil.
Qed.

(** The pairing loop.  Both queues are popped together until one is empty;
    the two stacks then hold, top first, the reverse of the popped prefixes.
    For queues of equal size this pairs the neighbours rank by rank, from the
    most frequent pair down. *)
Theorem pairing_by_rank {Q} `{PrioLaws node least Q} (pq pc : Q) :
  pair_loop (pq_size least pq) pq pc [] [] =
    (rev (take (pq_size least pc) (drain least pq)), rev (take (pq_size least pq) (drain least pc))) /\
  (pq_size least pq = pq_size least pc ->
   pair_loop (pq_size least pq) pq pc [] [] = (rev (drain least pq), rev (drain least pc))).
Proof.
  rewrite pair_loop_drain, !app_nil_r by done. split; [done|]. intros E.
  assert (forall q : Q, take (pq_size least q) (drain least q) = drain least q) as Hall.
  { intros q. apply take_ge. unfold pq_size. by rewrite <- drain_perm. }
  by rewrite <- E, Hall, E, Hall.
Qed.

Definition nd (k c : Z) : node := MkNd [to_byte k; x00; x00; x00; x00; x00] c.

(** Ranks are paired from the least frequent end, so two queues of
    different sizes are misaligned: with three plaintext and two ciphertext
    neighbours the most frequent ciphertext neighbour is paired with the second
    most frequent plaintext neighbour. *)
Theorem pairing_misaligned :
  exists omp tmp, pair_loop 3 [nd 1 5; nd 2 3; nd 3 1] [nd 4 9; nd 5 2] [] [] = (omp, tmp) /\
    combine omp tmp = [(nd 2 3, nd 4 9); (nd 3 1, nd 5 2)].
Proof. eexists _, _. split; vm_compute; reflexivity. Qed.

(** *** Witnesses *)

Definition sample_nb : gmap bytes bytes := {[ sample_key 1 := enc_records [(sample_key 2, 5); (sample_key 3, 7)] ]}.

Definition sample_dbs : dbs (gmap bytes bytes) := Dbs sample_db sample_nb sample_nb sample_db sample_nb sample_nb.

Lemma sample_records : Forall record_ok [(sample_key 2, 5); (sample_key 3, 7)].
Proof. repeat (constructor; [split; [done|cbn; lia]|]). constructor. Qed.

Lemma sample_nb_wf : nb_wf 2 sample_nb.
Proof.
  intros k v Hk. unfold sample_nb in Hk. cbn in Hk. apply lookup_singleton_Some in Hk as [_ <-].
  exists [(sample_key 2, 5); (sample_key 3, 7)]. split_and!; [done|done|apply sample_records| |done].
  apply (bool_decide_unpack _). vm_compute. reflexivity.
Qed.

Lemma sample_dbs_wf : dbs_wf 2 sample_dbs.
Proof. split_and!; apply sample_nb_wf. Qed.

Lemma sample_universe : nb_universe sample_dbs ⊆ dom (db_contents (target sample_dbs)).
Proof. apply (bool_decide_unpack _). vm_compute. reflexivity. Qed.

Lemma sample_universe_size : (size (nb_universe sample_dbs) <= 3)%nat.
Proof. apply (bool_decide_unpack _). vm_compute. reflexivity. Qed.

Lemma locality_attack_terminates_witness :
  exists lk st,
    attack (Q := list node) sample_dbs 1 1 10 (Z2SF 0) (fun _ => 0) ∅ (1 + size (nb_universe sample_dbs)) = Some (Ret (lk, st)) /\
    (q_o st = [] \/ q_t st = []) /\ 0 <= correct st <= involve st.
Proof.
  destruct (locality_attack_terminates (Q := list node) sample_dbs 2 1 1 10 (Z2SF 0) (fun _ => 0) ∅)
    as (lk & s0 & st & E & _ & _ & Hq & _ & _ & _ & _ & Hc).
  - exact sample_db_ok.
  - exact sample_db_ok.
  - exact sample_dbs_wf.
  - lia.
  - lia.
  - reflexivity.
  - vm_compute; reflexivity.
  - vm_compute; reflexivity.
  - pose proof sample_universe_size. lia.
  - exists lk, st. split; [exact E|]. split; [exact Hq|exact Hc].
Defined.

Lemma inference_rate_witness :
  exists lk st,
    attack (Q := list node) sample_dbs 1 1 10 (Z2SF 0) (fun _ => 0) ∅ (1 + size (nb_universe sample_dbs)) = Some (Ret (lk, st)) /\
    0 <= u64 (u64 (correct st + common lk) - leak lk) <= total lk.
Proof.
  destruct (inference_rate_at_most_one (Q := list node) sample_dbs 2 1 1 10 (Z2SF 0) (fun _ => 0) ∅)
    as (lk & st & E & _ & Hc).
  - exact sample_db_ok.
  - exact sample_db_ok.
  - exact sample_dbs_wf.
  - lia.
  - lia.
  - reflexivity.
  - vm_compute; reflexivity.
  - vm_compute; reflexivity.
  - pose proof sample_universe_size. lia.
  - exact sample_universe.
  - exists lk, st. split; [exact E|exact Hc].
Defined.

Lemma left_insert_topk_witness :
  exists q : list node, left_insert sample_dbs 1 (sample_key 1) 1 (pq_empty least) = Ret q /\
    top_k ncount 1 [MkNd (sample_key 2) 5; MkNd (sample_key 3) 7] (drain least q).
Proof.
  destruct (left_insert_topk (Q := list node) sample_dbs 2 (sample_key 1) 1 [(sample_key 2, 5); (sample_key 3, 7)])
    as (q & E & Ht & _).
  - exact sample_nb_wf.
  - lia.
  - reflexivity.
  - exact sample_records.
  - exists q. split; [exact E|exact Ht].
Defined.

Lemma pairing_by_rank_witness :
  pair_loop 2 [nd 1 5; nd 2 3] [nd 4 9; nd 5 2] [] [] = ([nd 1 5; nd 2 3], [nd 4 9; nd 5 2]).
Proof. exact (proj2 (pairing_by_rank (Q := list node) [nd 1 5; nd 2 3] [nd 4 9; nd 5 2]) eq_refl). Defined.

Lemma locality_attack_e_witness :
  exists lk st,
    attack_e (Q := list node) {[ sample_key 1 := sample_key 1; sample_key 2 := sample_key 2; sample_key 3 := sample_key 3 ]}
      sample_dbs 1 1 10 (Z2SF 0) (fun _ => 0) ∅ (1 + size (nb_universe sample_dbs)) = Some (Ret (lk, st)) /\
    (q_o st = [] \/ q_t st = []) /\ 0 <= correct st <= involve st.
Proof.
  destruct (locality_attack_e_terminates (Q := list node)
    {[ sample_key 1 := sample_key 1; sample_key 2 := sample_key 2; sample_key 3 := sample_key 3 ]}
    sample_dbs 2 1 1 10 (Z2SF 0) (fun _ => 0) ∅) as (lk & st & don & E & _ & _ & _ & Hq & _ & _ & Hc).
  - exact sample_db_ok.
  - exact sample_db_ok.
  - exact sample_dbs_wf.
  - split; apply (bool_decide_unpack _); vm_compute; reflexivity.
  - lia.
  - lia.
  - reflexivity.
  - vm_compute; reflexivity.
  - vm_compute; reflexivity.
  - pose proof sample_universe_size. lia.
  - exists lk, st. split; [exact E|]. split; [exact Hq|exact Hc].
Defined.
