(* ===== verification/Defense.v ===== *)
(** * The defenses: scrambling, MinHash encryption and their combination

    defense/scrambling/scrambling.cc, defense/minhash/k_minhash.cc and
    defense/combined/combined.cc (also prototype/combined.cc).  All three cut
    the trace into variable-size segments and process one segment at a time;
    they differ in what they track while a segment grows and in
    [process_seg]. *)

From S2P Require Import Prelude CLib Trace Slice KVStore Count.

(** ** Segmentation, shared by the three programs *)

Definition SEG_SIZE : Z := Z.shiftl 2 20.
Definition SEG_MIN : Z := Z.shiftl 2 19.
Definition SEG_MAX : Z := Z.shiftl 2 21.

(** [(hash[5] << 2) >> 2 == 0x3f]: the [char] is promoted to [int] first, and the
    shifts of a negative [int] are the arithmetic ones, as GCC documents them. *)
Definition divisor_hit (k : bytes) : bool :=
  match k !! 5%nat with
  | Some b => Z.shiftr (Z.shiftl (sb b) 2) 2 =? 0x3f
  | None => false
  end.

(** [sq_size + size > SEG_MAX || (sq_size >= SEG_MIN && ...)] on [uint64_t]. *)
Definition boundary (sq_size : Z) (c : chunk) : bool :=
  (SEG_MAX <? u64 (sq_size + size c)) || ((SEG_MIN <=? sq_size) && divisor_hit (key c)).

(** The globals of a run: the current segment [sq], its byte count, what the
    program tracks about the segment, and the rest (output, random numbers,
    databases). *)
Record seg_state (P E : Type) := SegSt { sq : list chunk; sq_size : Z; track : P; seg_env : E }.
Arguments SegSt {P E}.
Arguments sq {P E}.
Arguments sq_size {P E}.
Arguments track {P E}.
Arguments seg_env {P E}.

Section Segmentation.
Context {P E : Type}.
Variable (p0 : P) (upd : P -> chunk -> P) (process_seg : list chunk -> P -> E -> outcome E).

(** One round of the [read_hashes] loop. *)
Definition seg_line (line : bytes) (st : seg_state P E) : outcome (seg_state P E) :=
  c ← parse_chunk line;
  st ← (if boundary (sq_size st) c
        then e ← process_seg (sq st) (track st) (seg_env st); Ret (SegSt [] 0 p0 e)
        else Ret st);
  Ret (SegSt (sq st ++ [c]) (u64 (sq_size st + size c)) (upd (track st) c) (seg_env st)).

(** The loop of [read_hashes], from an empty segment. *)
Definition seg_lines (file : bytes) (e : E) : outcome (seg_state P E) :=
  foldM seg_line (trace_lines file) (SegSt [] 0 p0 e).
End Segmentation.

(** ** scrambling.cc *)

Module Scrambling.
(** The output so far and the number of [rand()] calls made. *)
Record env := Env { out : bytes; calls : nat }.

(** [int k = (rand() * rand()) % 2]; the product of two [int]s is undefined when
    it does not fit in an [int]. *)
Definition product_fits (rands : nat -> Z) (i : nat) : bool :=
  (- 2 ^ 31 <=? rands i * rands (S i)) && (rands i * rands (S i) <? 2 ^ 31).
Definition coin (rands : nat -> Z) (i : nat) : outcome Z :=
  if product_fits rands i then Ret (Z.rem (rands i * rands (S i)) 2) else Undef.

(** [while (!sq.empty()) ...]: [push_front] on 0, [push_back] otherwise. *)
Fixpoint scramble (rands : nat -> Z) (i : nat) (l deq : list chunk) : outcome (list chunk * nat) :=
  match l with
  | [] => Ret (deq, i)
  | tmp :: l' =>
      k ← coin rands i;
      scramble rands (i + 2) l' (if k =? 0 then tmp :: deq else deq ++ [tmp])
  end.

Definition process_seg (rands : nat -> Z) (l : list chunk) (_ : unit) (e : env) : outcome env :=
  '(deq, i) ← scramble rands (calls e) l [];
  Ret (Env (out e ++ print_chunks deq) i).

(** [read_hashes(fp)]: nothing is tracked besides the segment. *)
Definition read_hashes (rands : nat -> Z) (file : bytes) (e : env) : outcome (seg_state unit env) :=
  seg_lines tt (fun _ _ => tt) (process_seg rands) file e.

(** [main]: what is written to standard output; the last segment is processed
    after the loop. *)
Definition main (rands : nat -> Z) (file : bytes) : outcome bytes :=
  st ← read_hashes rands file (Env title_line 0);
  e ← process_seg rands (sq st) (track st) (seg_env st);
  Ret (out e).
End Scrambling.

(** ** k_minhash.cc *)

Module MinHash.
Definition K_MINHASH : Z := 1.

(** The queue [pq] of a segment.  It holds at most [K_MINHASH = 1] nodes, so
    its comparison is never called; the kept node is replaced when
    [memcmp(max.key, entry.key, FP_SIZE) > 0]. *)
Definition keep_min (pq : option chunk) (entry : chunk) : option chunk :=
  match pq with
  | None => Some entry
  | Some max => if 0 <? memcmp FP_SIZE (key max) (key entry) then Some entry else Some max
  end.

(** Output, [rand()] calls and the ground-truth database [relate]. *)
Record env (DB : Type) := Env { out : bytes; calls : nat; relate : DB }.
Arguments Env {DB}.
Arguments out {DB}.
Arguments calls {DB}.
Arguments relate {DB}.

Section Ops.
Context {DB : Type} `{KVStore DB}.
Variable (MD5 : bytes -> bytes).

(** [MD5(ft, 12)] of the chunk key and the segment key, truncated. *)
Definition encrypt (core k : bytes) : bytes := take FP_SIZE (MD5 (k ++ core)).

(** The second loop of [process_seg]: record and print each ciphertext. *)
Fixpoint emit (core : bytes) (l : list chunk) (e : env DB) : env DB :=
  match l with
  | [] => e
  | now :: l' =>
      let ret := encrypt core (key now) in
      emit core l' (Env (out e ++ print_chunk (Chunk ret (size now))) (calls e)
                        (db_put ret (key now) (relate e)).2)
  end.

(** [rand() % K_MINHASH] is always 0, so no node is popped before [top()],
    which is undefined on an empty queue. *)
Definition process_seg (rands : nat -> Z) (l : list chunk) (pq : option chunk) (e : env DB)
    : outcome (env DB) :=
  let k := Z.rem (rands (calls e)) K_MINHASH in
  let pq := if 0 <? k then None else pq in
  match pq with
  | None => Undef
  | Some core => Ret (emit (key core) l (Env (out e) (S (calls e)) (relate e)))
  end.

(** [read_hashes(fp)]: [pq] is tracked along with the segment. *)
Definition read_hashes (rands : nat -> Z) (file : bytes) (e : env DB) : outcome (seg_state (option chunk) (env DB)) :=
  seg_lines None keep_min (process_seg rands) file e.

Definition main (rands : nat -> Z) (file : bytes) (ground_truth : DB) : outcome (env DB) :=
  st ← read_hashes rands file (Env title_line 0 ground_truth);
  process_seg rands (sq st) (track st) (seg_env st).
End Ops.
End MinHash.

(** ** combined.cc *)

Module Combined.
Section Ops.
Context {DB : Type} `{KVStore DB}.
Variable (MD5 : bytes -> bytes).

(** Scramble the segment, then encrypt it under its minimum fingerprint. *)
Definition process_seg (rands : nat -> Z) (l : list chunk) (pq : option chunk) (e : MinHash.env DB)
    : outcome (MinHash.env DB) :=
  let k := Z.rem (rands (MinHash.calls e)) MinHash.K_MINHASH in
  let pq := if 0 <? k then None else pq in
  match pq with
  | None => Undef
  | Some core =>
      '(deq, i) ← Scrambling.scramble rands (S (MinHash.calls e)) l [];
      Ret (MinHash.emit MD5 (key core) deq
             (MinHash.Env (MinHash.out e) i (MinHash.relate e)))
  end.

(** [read_hashes(fp)] *)
Definition read_hashes (rands : nat -> Z) (file : bytes) (e : MinHash.env DB)
    : outcome (seg_state (option chunk) (MinHash.env DB)) :=
  seg_lines None MinHash.keep_min (process_seg rands) file e.

Definition main (rands : nat -> Z) (file : bytes) (ground_truth : DB) : outcome (MinHash.env DB) :=
  st ← read_hashes rands file (MinHash.Env title_line 0 ground_truth);
  process_seg rands (sq st) (track st) (seg_env st).
End Ops.
End Combined.

(** ** The segments of a trace *)

(** Cut a list of chunks as the readers do; the last segment is the one [main]
    processes after the loop. *)
Fixpoint segments (cur : list chunk) (sz : Z) (l : list chunk) : list (list chunk) :=
  match l with
  | [] => [cur]
  | c :: l' =>
      if boundary sz c then cur :: segments [c] (u64 (0 + size c)) l'
      else segments (cur ++ [c]) (u64 (sz + size c)) l'
  end.

Definition bytes_in (l : list chunk) : Z := foldr (fun c s => size c + s) 0 l.

Lemma segments_concat cur sz l : concat (segments cur sz l) = cur ++ l.
Proof.
  revert cur sz. induction l as [|c l IH]; intros cur sz; cbn; [done|].
  destruct (boundary sz c); cbn; rewrite IH; [done|]. by rewrite <- app_assoc.
Qed.

Section SegFacts.
Context {P E : Type}.
Variable (p0 : P) (upd : P -> chunk -> P) (process_seg : list chunk -> P -> E -> outcome E).

(** Processing a segment with what was tracked while it grew. *)
Definition flush (seg : list chunk) (e : E) : outcome E :=
  process_seg seg (fold_left upd seg p0) e.

Lemma seg_line_parsed l c st :
  parse_chunk l = Ret c ->
  seg_line p0 upd process_seg l st =
    (st ← (if boundary (sq_size st) c
           then e ← process_seg (sq st) (track st) (seg_env st); Ret (SegSt [] 0 p0 e)
           else Ret st);
     Ret (SegSt (sq st ++ [c]) (u64 (sq_size st + size c)) (upd (track st) c) (seg_env st))).
Proof. intros Hl. unfold seg_line. by rewrite Hl. Qed.

Lemma seg_lines_spec lines cs cur sz e :
  Forall2 (fun l c => parse_chunk l = Ret c) lines cs ->
  (st ← foldM (seg_line p0 upd process_seg) lines (SegSt cur sz (fold_left upd cur p0) e);
   process_seg (sq st) (track st) (seg_env st)) = foldM flush (segments cur sz cs) e.
Proof.
  intros Hp. revert cur sz e. induction Hp as [|l c lines cs Hl _ IH]; intros cur sz e.
  - cbn. unfold flush. by destruct (process_seg _ _ _).
  - cbn [foldM segments]. rewrite (seg_line_parsed l c _ Hl). cbn [sq_size].
    destruct (boundary sz c).
    + cbn [foldM sq track seg_env].
      change (flush cur e) with (process_seg cur (fold_left upd cur p0) e).
      destruct (process_seg cur (fold_left upd cur p0) e) as [e'|x|]; [|done|done].
      exact (IH [c] _ e').
    + cbn [mbind outcome_bind sq sq_size track seg_env].
      specialize (IH (cur ++ [c]) (u64 (sz + size c)) e). rewrite fold_left_app in IH. exact IH.
Qed.

(** A run is: cut the parsed trace into segments, process them in order. *)
Lemma seg_main_spec file cs e :
  Forall2 (fun l c => parse_chunk l = Ret c) (trace_lines file) cs ->
  (st ← seg_lines p0 upd process_seg file e; process_seg (sq st) (track st) (seg_env st)) =
    foldM flush (segments [] 0 cs) e.
Proof. intros H. unfold seg_lines. exact (seg_lines_spec _ _ [] 0 e H). Qed.
End SegFacts.

(** A segment with more than one chunk never exceeds [SEG_MAX]. *)
Lemma bytes_in_app l1 l2 : bytes_in (l1 ++ l2) = bytes_in l1 + bytes_in l2.
Proof. induction l1 as [|c l1 IH]; [done|]. unfold bytes_in in *. cbn. rewrite IH. lia. Qed.

Lemma bytes_in_nonneg l : Forall chunk_ok l -> 0 <= bytes_in l.
Proof. induction 1 as [|c l [_ Hc] _ IH]; unfold bytes_in in *; cbn; lia. Qed.

Definition seg_bounded (seg : list chunk) : Prop :=
  bytes_in seg <= SEG_MAX \/ (length seg <= 1)%nat.

Lemma segments_bounded cur sz l :
  Forall chunk_ok cur -> Forall chunk_ok l -> sz = bytes_in cur -> seg_bounded cur ->
  bytes_in cur < 2 ^ 32 -> Forall seg_bounded (segments cur sz l).
Proof.
  intros Hc Hl. revert cur sz Hc. induction Hl as [|c l Hc _ IH]; intros cur sz Hcur -> Hb Hbig; cbn.
  - constructor; [done|constructor].
  - pose proof (bytes_in_nonneg cur Hcur). destruct Hc as [Hk Hs].
    assert (u64 (0 + size c) = bytes_in [c] /\ bytes_in [c] < 2 ^ 32 /\ seg_bounded [c]) as (E1 & E2 & E3).
    { cbn. rewrite u64_small by lia. split_and!; [lia|lia|]. right. cbn. lia. }
    destruct (boundary (bytes_in cur) c) eqn:B.
    + constructor; [done|]. apply IH; auto. constructor; [done|constructor].
    + unfold boundary in B. apply orb_false_iff in B as [B _]. apply Z.ltb_ge in B.
      rewrite (u64_small (bytes_in cur + size c)) in B |- * by lia.
      assert (bytes_in (cur ++ [c]) = bytes_in cur + size c) as Eb
        by (rewrite bytes_in_app; unfold bytes_in at 2; cbn; lia).
      apply IH; [apply Forall_app; split; [done|]; constructor; [done|constructor]|lia|left; lia|].
      rewrite Eb. change SEG_MAX with 4194304 in B. lia.
Qed.

(** A boundary inside a segment needs [SEG_MIN] bytes and the divisor. *)
Lemma divisor_hit_char k b :
  k !! 5%nat = Some b -> divisor_hit k = bool_decide (b = x3f).
Proof. intros E. unfold divisor_hit. rewrite E. by destruct b; vm_compute. Qed.

(** ** Scrambling permutes each segment *)

(** The [n] products drawn from the [i]-th call on all fit in an [int]. *)
Definition products_fit (rands : nat -> Z) (i n : nat) : bool :=
  forallb (fun j => Scrambling.product_fits rands (i + 2 * j)) (seq 0 n).

Lemma products_fit_S rands i n : products_fit rands i (S n) = Scrambling.product_fits rands i && products_fit rands (i + 2) n.
Proof.
  unfold products_fit. cbn [seq forallb]. rewrite Nat.mul_0_r, Nat.add_0_r. f_equal. rewrite <- seq_shift.
  induction (seq 0 n) as [|j l IH]; [done|]. cbn [map forallb]. rewrite IH. f_equal. f_equal. lia.
Qed.

Lemma products_fit_app rands i n n' : products_fit rands i (n + n') = products_fit rands i n && products_fit rands (i + 2 * n) n'.
Proof.
  revert i. induction n as [|n IH]; intros i; cbn [Nat.add]; [by rewrite Nat.mul_0_r, Nat.add_0_r|].
  rewrite !products_fit_S, IH, <- andb_assoc. do 2 f_equal. f_equal. lia.
Qed.

Lemma all_products_fit rands : (forall i, Scrambling.product_fits rands i = true) -> forall i n, products_fit rands i n = true.
Proof. intros H i n. apply forallb_forall. auto. Qed.

(** A segment comes out permuted, or a product overflows. *)
Lemma scramble_spec rands i l deq :
  if products_fit rands i (length l)
  then exists deq', Scrambling.scramble rands i l deq = Ret (deq', (i + 2 * length l)%nat) /\ deq' ≡ₚ l ++ deq
  else Scrambling.scramble rands i l deq = Undef.
Proof.
  revert i deq. induction l as [|c l IH]; intros i deq; cbn [length Scrambling.scramble].
  { exists deq. by rewrite Nat.mul_0_r, Nat.add_0_r. }
  rewrite products_fit_S. unfold Scrambling.coin. destruct (Scrambling.product_fits rands i); [|done]. cbn [andb]. run.
  match goal with |- context [Scrambling.scramble _ _ l ?d] => specialize (IH (i + 2)%nat d) end.
  destruct (products_fit rands (i + 2) (length l)); [|done]. destruct IH as (deq' & -> & Hp). exists deq'. split; [do 2 f_equal; lia|].
  rewrite Hp. destruct (_ =? 0).
  - by rewrite <- Permutation_middle.
  - rewrite app_assoc. by rewrite (Permutation_app_comm _ [c]).
Qed.

Lemma print_chunks_app l1 l2 : print_chunks (l1 ++ l2) = print_chunks l1 ++ print_chunks l2.
Proof. unfold print_chunks. by rewrite fmap_app, concat_app. Qed.

Lemma scrambling_segs rands segs e :
  if products_fit rands (Scrambling.calls e) (length (concat segs))
  then exists e' outs, foldM (flush tt (fun _ _ => tt) (Scrambling.process_seg rands)) segs e = Ret e' /\
    Scrambling.out e' = Scrambling.out e ++ print_chunks (concat outs) /\
    Forall2 (fun o s => o ≡ₚ s) outs segs
  else foldM (flush tt (fun _ _ => tt) (Scrambling.process_seg rands)) segs e = Undef.
Proof.
  revert e. induction segs as [|s segs IH]; intros e; cbn [foldM concat].
  - exists e, []. change (print_chunks (concat [])) with ([] : bytes). by rewrite app_nil_r.
  - pose proof (scramble_spec rands (Scrambling.calls e) s []) as Hp.
    assert (flush tt (fun _ _ => tt) (Scrambling.process_seg rands) s e =
      ('(deq, i) ← Scrambling.scramble rands (Scrambling.calls e) s [];
       Ret (Scrambling.Env (Scrambling.out e ++ print_chunks deq) i))) as -> by done.
    rewrite length_app, products_fit_app.
    destruct (products_fit rands (Scrambling.calls e) (length s)); [|by rewrite Hp]. cbn [andb].
    destruct Hp as (deq & -> & Hp). run. rewrite app_nil_r in Hp.
    specialize (IH (Scrambling.Env (Scrambling.out e ++ print_chunks deq) (Scrambling.calls e + 2 * length s))). cbn [Scrambling.calls Scrambling.out] in IH.
    destruct (products_fit rands _ (length (concat segs))); [|done]. destruct IH as (e' & outs & -> & Ho & Hf).
    exists e', (deq :: outs). split_and!; [done| |by constructor].
    rewrite Ho. cbn. by rewrite print_chunks_app, app_assoc.
Qed.

Lemma Forall2_perm_concat {A} (outs segs : list (list A)) :
  Forall2 (fun o s => o ≡ₚ s) outs segs -> concat outs ≡ₚ concat segs.
Proof. induction 1; cbn; [done|]. by f_equiv. Qed.

(** The fingerprints of parsed lines. *)
Lemma parsed_hashes file cs :
  Forall2 (fun l c => parse_chunk l = Ret c) (trace_lines file) cs -> trace_hashes file = key <$> cs.
Proof.
  unfold trace_hashes. induction 1 as [|l c ls cs Hl _ IH]; [done|]. cbn. rewrite IH. f_equal.
  unfold parse_chunk in Hl. destruct (parse_line l) as [h it]. apply bind_Ret in Hl as (z & _ & [= <-]). done.
Qed.

(** ** The MinHash key of a segment is its minimum fingerprint *)

Lemma memcmp_slice n a b : length a = n -> length b = n -> memcmp n a b = slice_compare a b.
Proof.
  intros Ha Hb. unfold slice_compare. rewrite Ha, Hb, Nat.ltb_irrefl.
  by destruct (Z.eqb_spec (memcmp n a b) 0) as [->|].
Qed.

Definition seg_min (seg : list chunk) (m : chunk) : Prop :=
  m ∈ seg /\ forall c, c ∈ seg -> slice_le (key m) (key c).

Lemma keep_min_spec seg m c :
  Forall (fun c => length (key c) = FP_SIZE) (c :: seg) -> seg_min seg m ->
  exists m', MinHash.keep_min (Some m) c = Some m' /\ seg_min (seg ++ [c]) m'.
Proof.
  intros [Hc Hl]%Forall_cons [Hm Hmin]. unfold MinHash.keep_min.
  assert (length (key m) = FP_SIZE) as Hkm by (by eapply Forall_forall in Hl; [|exact Hm]).
  rewrite memcmp_slice by done.
  case (Z.ltb_spec 0 (slice_compare (key m) (key c))) as [Hgt|Hle].
  - exists c. split; [done|]. split; [set_solver|]. intros x [Hx| ->%list_elem_of_singleton]%elem_of_app.
    + etrans; [|by apply Hmin]. unfold slice_le. pose proof (slice_compare_antisym (key m) (key c)). lia.
    + apply slice_le_lteq. by right.
  - exists m. split; [done|]. split; [set_solver|]. intros x [Hx| ->%list_elem_of_singleton]%elem_of_app; auto.
Qed.

Lemma track_min_from pre m seg :
  Forall (fun c => length (key c) = FP_SIZE) (pre ++ seg) -> seg_min pre m ->
  exists m', fold_left MinHash.keep_min seg (Some m) = Some m' /\ seg_min (pre ++ seg) m'.
Proof.
  revert pre m. induction seg as [|d seg IH]; intros pre m Hl H0; cbn [fold_left].
  - rewrite app_nil_r. eauto.
  - destruct (keep_min_spec pre m d) as (m' & -> & Hm).
    + apply Forall_app in Hl as [? [? ?]%Forall_cons]. by constructor.
    + done.
    + change (d :: seg) with ([d] ++ seg). rewrite app_assoc. apply IH; [|done].
      by rewrite <- app_assoc.
Qed.

Lemma track_min c seg :
  Forall (fun c => length (key c) = FP_SIZE) (c :: seg) ->
  exists m, fold_left MinHash.keep_min (c :: seg) None = Some m /\ seg_min (c :: seg) m.
Proof.
  intros Hl. apply (track_min_from [c]); [done|].
  split; [by left|]. intros x ->%list_elem_of_singleton. apply slice_le_lteq. by right.
Qed.

(** ** What the encrypting defenses write *)

Section Encrypt.
Context {DB : Type} `{KVReliable DB} (MD5 : bytes -> bytes).

Definition enc_chunk (m c : chunk) : chunk := Chunk (MinHash.encrypt MD5 (key m) (key c)) (size c).

(** The ciphertext chunks and the ground truth of one segment. *)
Lemma emit_spec core l (e : MinHash.env DB) :
  let e' := MinHash.emit MD5 core l e in
  MinHash.out e' = MinHash.out e ++
    print_chunks ((fun c => Chunk (MinHash.encrypt MD5 core (key c)) (size c)) <$> l) /\
  MinHash.calls e' = MinHash.calls e /\
  db_contents (MinHash.relate e') =
    fold_left (fun m c => <[MinHash.encrypt MD5 core (key c) := key c]> m) l (db_contents (MinHash.relate e)).
Proof.
  revert e. induction l as [|c l IH]; intros e; cbn [MinHash.emit].
  - cbn. by rewrite app_nil_r.
  - cbn zeta in IH. match goal with |- context [MinHash.emit MD5 core l ?x] => destruct (IH x) as (-> & -> & ->) end.
    cbn [MinHash.out MinHash.calls MinHash.relate fmap list_fmap fold_left].
    rewrite put_contents. split_and!; [|done|done]. unfold print_chunks. cbn [fmap list_fmap concat].
    by rewrite app_assoc.
Qed.

(** [p] is the output of a segment [s]: its chunks, reordered, encrypted under
    the segment's minimum. *)
Definition enc_seg (p s : list chunk) : Prop :=
  exists m o, seg_min s m /\ o ≡ₚ s /\ p = enc_chunk m <$> o.

Lemma rem_1 z : Z.rem z 1 = 0.
Proof. apply Z.rem_1_r. Qed.

Lemma process_min rands c seg (e : MinHash.env DB) :
  Forall (fun c => length (key c) = FP_SIZE) (c :: seg) ->
  exists e' p, flush None MinHash.keep_min (MinHash.process_seg MD5 rands) (c :: seg) e = Ret e' /\
    MinHash.out e' = MinHash.out e ++ print_chunks p /\
    exists m, seg_min (c :: seg) m /\ p = enc_chunk m <$> (c :: seg) /\
    db_contents (MinHash.relate e') = fold_left (fun M c => <[MinHash.encrypt MD5 (key m) (key c) := key c]> M)
      (c :: seg) (db_contents (MinHash.relate e)).
Proof.
  intros Hl. destruct (track_min c seg Hl) as (m & Hm & Hmin).
  unfold flush, MinHash.process_seg. rewrite Hm. unfold MinHash.K_MINHASH. rewrite rem_1. cbn [Z.ltb Z.compare].
  destruct (emit_spec (key m) (c :: seg) (MinHash.Env (MinHash.out e) (S (MinHash.calls e)) (MinHash.relate e)))
    as (Ho & _ & Hr).
  eexists _, _. split; [done|]. split; [exact Ho|]. exists m. split_and!; [done|done|exact Hr].
Qed.

Lemma process_combined rands c seg (e : MinHash.env DB) :
  (forall i, Scrambling.product_fits rands i = true) -> Forall (fun c => length (key c) = FP_SIZE) (c :: seg) ->
  exists e' p, flush None MinHash.keep_min (Combined.process_seg MD5 rands) (c :: seg) e = Ret e' /\
    MinHash.out e' = MinHash.out e ++ print_chunks p /\ enc_seg p (c :: seg).
Proof.
  intros Hfit Hl. destruct (track_min c seg Hl) as (m & Hm & Hmin).
  unfold flush, Combined.process_seg. rewrite Hm. unfold MinHash.K_MINHASH. rewrite rem_1. cbn [Z.ltb Z.compare].
  pose proof (scramble_spec rands (S (MinHash.calls e)) (c :: seg) []) as Hp. rewrite (all_products_fit rands Hfit), app_nil_r in Hp.
  destruct Hp as (deq & -> & Hp). run.
  destruct (emit_spec (key m) deq (MinHash.Env (MinHash.out e) (S (MinHash.calls e) + 2 * length (c :: seg)) (MinHash.relate e))) as (Ho & _ & _).
  eexists _, _. split; [done|]. split; [exact Ho|]. by exists m, deq.
Qed.

Lemma combined_segs rands segs (e : MinHash.env DB) :
  (forall i, Scrambling.product_fits rands i = true) -> Forall (fun s => s <> [] /\ Forall (fun c => length (key c) = FP_SIZE) s) segs ->
  exists e' ps, foldM (flush None MinHash.keep_min (Combined.process_seg MD5 rands)) segs e = Ret e' /\
    MinHash.out e' = MinHash.out e ++ print_chunks (concat ps) /\ Forall2 enc_seg ps segs.
Proof.
  intros Hfit Hs. revert e. induction Hs as [|s segs [Hne Hl] _ IH]; intros e; cbn [foldM].
  - exists e, []. change (print_chunks (concat [])) with ([] : bytes). by rewrite app_nil_r.
  - destruct s as [|c s]; [done|]. destruct (process_combined rands c s e Hfit Hl) as (e1 & p & -> & Ho & Hp).
    run. destruct (IH e1) as (e' & ps & -> & Ho' & Hf).
    exists e', (p :: ps). split_and!; [done| |by constructor].
    rewrite Ho', Ho. cbn. by rewrite print_chunks_app, app_assoc.
Qed.

(** The ground truth of a run: every segment's pairs, in order. *)
Definition seg_pairs (m : chunk) (seg : list chunk) : list (bytes * bytes) :=
  (fun c => (MinHash.encrypt MD5 (key m) (key c), key c)) <$> seg.

Lemma fold_pairs (m : chunk) (seg : list chunk) (M : gmap bytes bytes) :
  fold_left (fun M c => <[MinHash.encrypt MD5 (key m) (key c) := key c]> M) seg M
  = fold_left (fun M p => <[p.1 := p.2]> M) (seg_pairs m seg) M.
Proof. revert M. induction seg as [|c seg IH]; intros M; cbn; auto. Qed.

Lemma minhash_segs rands segs (e : MinHash.env DB) :
  Forall (fun s => s <> [] /\ Forall (fun c => length (key c) = FP_SIZE) s) segs ->
  exists e' ms, foldM (flush None MinHash.keep_min (MinHash.process_seg MD5 rands)) segs e = Ret e' /\
    Forall2 (fun m s => seg_min s m) ms segs /\
    MinHash.out e' = MinHash.out e ++ print_chunks (concat (zip_with (fun m s => enc_chunk m <$> s) ms segs)) /\
    db_contents (MinHash.relate e') = fold_left (fun M p => <[p.1 := p.2]> M)
      (concat (zip_with seg_pairs ms segs)) (db_contents (MinHash.relate e)).
Proof.
  intros Hs. revert e. induction Hs as [|s segs [Hne Hl] _ IH]; intros e; cbn [foldM].
  - exists e, []. change (print_chunks (concat [])) with ([] : bytes). by rewrite app_nil_r.
  - destruct s as [|c s]; [done|].
    destruct (process_min rands c s e Hl) as (e1 & p & -> & Ho & m & Hm & -> & Hr).
    run. destruct (IH e1) as (e' & ms & -> & Hf & Ho' & Hr').
    exists e', (m :: ms). split_and!; [done|by constructor| |].
    + rewrite Ho', Ho. cbn [zip_with concat]. by rewrite print_chunks_app, app_assoc.
    + rewrite Hr', Hr, fold_pairs. cbn [zip_with concat]. by rewrite fold_left_app.
Qed.
End Encrypt.

(** Segments after the first boundary test are non-empty. *)
Lemma segments_nonempty cur sz l : cur <> [] -> Forall (fun s => s <> []) (segments cur sz l).
Proof.
  revert cur sz. induction l as [|c l IH]; intros cur sz Hc; cbn; [by constructor|].
  destruct (boundary sz c); [constructor; [done|]; by apply IH|]. apply IH. by destruct cur.
Qed.

Lemma segments_sub cur sz l s c : s ∈ segments cur sz l -> c ∈ s -> c ∈ cur ++ l.
Proof.
  intros Hs Hc. rewrite <- (segments_concat cur sz l). apply list_elem_of_In, in_concat.
  exists s. split; by apply list_elem_of_In.
Qed.

(** A trace whose first chunk fits a segment is cut into proper segments. *)
Lemma segments_proper c cs :
  Forall chunk_ok (c :: cs) -> size c <= SEG_MAX ->
  Forall (fun s => s <> [] /\ Forall (fun c => length (key c) = FP_SIZE) s) (segments [] 0 (c :: cs)).
Proof.
  intros Hok Hs. apply Forall_forall. intros s Hin. split.
  - revert Hin. cbn [segments]. unfold boundary.
    pose proof (Forall_inv Hok) as [_ Hr]. rewrite u64_small by lia.
    rewrite (proj2 (Z.ltb_ge _ _)) by lia. cbn [orb Z.leb]. change (SEG_MIN <=? 0) with false. cbn [andb].
    intros Hin. eapply Forall_forall in Hin; [|by apply segments_nonempty]. done.
  - apply Forall_forall. intros x Hx. pose proof (segments_sub _ _ _ _ _ Hin Hx) as Hi. cbn in Hi.
    eapply Forall_forall in Hok as [? _]; [|exact Hi]. done.
Qed.

(** ** Properties *)

(** The trace [file] parses to the chunks [cs], all of them well formed. *)
Definition parses (file : bytes) (cs : list chunk) : Prop :=
  Forall2 (fun l c => parse_chunk l = Ret c) (trace_lines file) cs /\ Forall chunk_ok cs.

Lemma perm_chunk_ok l l' : l ≡ₚ l' -> Forall chunk_ok l' -> Forall chunk_ok l.
Proof. intros Hp. by rewrite Hp. Qed.

Lemma scrambling_main_spec rands file cs :
  parses file cs ->
  if products_fit rands 0 (length cs) then
  exists outs, Scrambling.main rands file = Ret (title_line ++ print_chunks (concat outs)) /\
    Forall2 (fun o s => o ≡ₚ s) outs (segments [] 0 cs) /\ concat outs ≡ₚ cs
  else Scrambling.main rands file = Undef.
Proof.
  intros [Hp Hok]. unfold Scrambling.main, Scrambling.read_hashes.
  rewrite bind_assoc, (seg_main_spec _ _ _ _ cs) by done.
  pose proof (scrambling_segs rands (segments [] 0 cs) (Scrambling.Env title_line 0)) as H. rewrite segments_concat in H. cbn [app Scrambling.calls] in H.
  destruct (products_fit rands 0 (length cs)); [|by rewrite H]. destruct H as (e & outs & -> & Ho & Hf).
  exists outs. run. rewrite Ho. split_and!; [done|done|].
  rewrite Forall2_perm_concat by done. by rewrite segments_concat.
Qed.

(** C33: scrambling.cc permutes inside segments, if no product overflows.  Every
    chunk takes two calls of rand() and multiplies them as [int]s.  When the product
    of one of these pairs does not fit in an [int] the run is undefined.  When all of
    them fit, as they do if RAND_MAX is 32767, the output is the title line and the
    chunks of every segment in some order, segment after segment; the segments are
    the trace cut in order, and a segment with more than one chunk never exceeds
    SEG_MAX, which is [2 << 21], 4 MB. *)
Theorem scrambling_correct rands file cs :
  parses file cs ->
  if forallb (fun i => Scrambling.product_fits rands (2 * i)) (seq 0 (length cs)) then
  exists outs, Scrambling.main rands file = Ret (title_line ++ print_chunks (concat outs)) /\
    concat (segments [] 0 cs) = cs /\ Forall seg_bounded (segments [] 0 cs) /\
    Forall2 (fun o s => o ≡ₚ s) outs (segments [] 0 cs)
  else Scrambling.main rands file = Undef.
Proof.
  intros Hp. pose proof (scrambling_main_spec rands file cs Hp) as H. change (forallb _ _) with (products_fit rands 0 (length cs)).
  destruct (products_fit rands 0 (length cs)); [|done]. destruct H as (outs & E & Hf & _).
  exists outs. split_and!; [done|apply segments_concat| |done].
  destruct Hp as [_ Hok]. apply segments_bounded; try done. by left.
Qed.

(** Scrambling alone does not hide frequencies: counting the scrambled
    trace with basic_count.cc gives every fingerprint the same count as
    counting the original trace. *)
Theorem scrambling_keeps_frequencies {DB} `{KVReliable DB} rands file cs (d : DB) :
  parses file cs -> freq_wf d -> (forall i, Scrambling.product_fits rands i = true) ->
  exists out d1 d2, Scrambling.main rands file = Ret out /\
    BasicCount.read_hashes file d = Ret d1 /\ BasicCount.read_hashes out d = Ret d2 /\
    forall k, freq d2 k = freq d1 k.
Proof.
  intros Hp Hd Hfit. pose proof (scrambling_main_spec rands file cs Hp) as Hrun. rewrite (all_products_fit rands Hfit) in Hrun.
  destruct Hrun as (outs & E & _ & Hperm).
  destruct Hp as [Hp Hok].
  destruct (count_list_spec (trace_hashes file) d Hd) as (d1 & E1 & _ & F1 & _).
  destruct (count_list_spec (trace_hashes (title_line ++ print_chunks (concat outs))) d Hd) as (d2 & E2 & _ & F2 & _).
  exists (title_line ++ print_chunks (concat outs)), d1, d2. split_and!; [done|exact E1|exact E2|].
  intros k. rewrite F1, F2. f_equal. f_equal.
  rewrite trace_hashes_print by (by eapply perm_chunk_ok). rewrite (parsed_hashes file cs Hp).
  unfold occ. by rewrite Hperm.
Qed.

Section MinHashProps.
Context {DB : Type} `{KVReliable DB} (MD5 : bytes -> bytes).

(** C31: k_minhash.cc encrypts each segment under its minimum fingerprint.  On
    a non-empty trace whose first chunk fits a segment the tool terminates; the
    fingerprints it prints are, in order, the truncated MD5 of each fingerprint
    followed by a least fingerprint of its segment, one per input chunk. *)
Theorem minhash_correct rands file c cs (gt : DB) :
  parses file (c :: cs) -> size c <= SEG_MAX -> (forall x, length (MD5 x) = 16%nat) ->
  exists e ms, MinHash.main MD5 rands file gt = Ret e /\
    Forall2 (fun m s => seg_min s m) ms (segments [] 0 (c :: cs)) /\
    trace_hashes (MinHash.out e) =
      concat (zip_with (fun m s => (fun c => MinHash.encrypt MD5 (key m) (key c)) <$> s)
        ms (segments [] 0 (c :: cs))) /\
    length (trace_hashes (MinHash.out e)) = length (trace_hashes file).
Proof.
  intros [Hp Hok] Hs Hmd. unfold MinHash.main, MinHash.read_hashes. rewrite (seg_main_spec _ _ _ _ (c :: cs)) by done.
  destruct (minhash_segs MD5 rands _ (MinHash.Env title_line 0 gt) (segments_proper c cs Hok Hs))
    as (e & ms & -> & Hf & Ho & _).
  exists e, ms. split; [done|]. split; [done|].
  assert (trace_hashes (MinHash.out e) = concat (zip_with (fun m s =>
    (fun c => MinHash.encrypt MD5 (key m) (key c)) <$> s) ms (segments [] 0 (c :: cs)))) as Hh.
  { rewrite Ho. cbn [MinHash.out]. rewrite trace_hashes_print.
    - clear. generalize (segments [] 0 (c :: cs)). induction ms as [|m ms IH]; intros [|s segs]; try done.
      cbn [zip_with concat]. rewrite fmap_app, IH. f_equal. by rewrite <- list_fmap_compose.
    - apply Forall_concat, Forall_forall. intros p Hin.
      apply elem_of_lookup_zip_with in Hin as (i & m & s & -> & _ & Hi).
      apply Forall_fmap, Forall_forall. intros x Hx. cbn. split; cbn.
      + unfold MinHash.encrypt. rewrite length_take, Hmd. done.
      + assert (x ∈ c :: cs) as Hxc.
        { apply (segments_sub [] 0 (c :: cs) s); [|done]. by eapply list_elem_of_lookup_2. }
        by eapply Forall_forall in Hok as [_ ?]. }
  split; [done|]. rewrite Hh, (parsed_hashes file (c :: cs) Hp), length_fmap.
  replace (length (c :: cs)) with (length (concat (segments [] 0 (c :: cs)))) by (by rewrite segments_concat).
  clear -Hf.
  induction Hf as [|m s ms segs _ _ IH]; [done|]. cbn [zip_with concat].
  rewrite !length_app, length_fmap. lia.
Qed.

Lemma fold_pairs_lookup (l : list (bytes * bytes)) (M : gmap bytes bytes) a b :
  (forall p q, p ∈ l -> q ∈ l -> p.1 = q.1 -> p.2 = q.2) -> (a, b) ∈ l ->
  fold_left (fun M p => <[p.1 := p.2]> M) l M !! a = Some b.
Proof.
  intros Hinj Hin. revert M Hinj Hin. induction l as [|p l IH] using rev_ind; intros M Hinj Hin; [set_solver|].
  rewrite fold_left_app. cbn. destruct (decide (p.1 = a)) as [<-|Hne].
  - rewrite lookup_insert_eq. f_equal. apply (Hinj p (p.1, b)); set_solver.
  - rewrite lookup_insert_ne by done. apply IH; [set_solver|].
    apply elem_of_app in Hin as [?|Hp]; [done|]. apply list_elem_of_singleton in Hp as <-. done.
Qed.

(** The ground-truth database.  When no two chunks with different
    fingerprints encrypt to the same ciphertext fingerprint, the database maps
    every ciphertext fingerprint of the output back to its plaintext. *)
Theorem minhash_ground_truth rands file c cs (gt : DB) :
  parses file (c :: cs) -> size c <= SEG_MAX ->
  (forall m1 m2 c1 c2, m1 ∈ c :: cs -> m2 ∈ c :: cs -> c1 ∈ c :: cs -> c2 ∈ c :: cs ->
     MinHash.encrypt MD5 (key m1) (key c1) = MinHash.encrypt MD5 (key m2) (key c2) -> key c1 = key c2) ->
  exists e ms, MinHash.main MD5 rands file gt = Ret e /\
    Forall2 (fun m s => seg_min s m) ms (segments [] 0 (c :: cs)) /\
    (forall i m s x, ms !! i = Some m -> segments [] 0 (c :: cs) !! i = Some s -> x ∈ s ->
      db_contents (MinHash.relate e) !! MinHash.encrypt MD5 (key m) (key x) = Some (key x)).
Proof.
  intros [Hp Hok] Hs Hinj. unfold MinHash.main, MinHash.read_hashes. rewrite (seg_main_spec _ _ _ _ (c :: cs)) by done.
  destruct (minhash_segs MD5 rands _ (MinHash.Env title_line 0 gt) (segments_proper c cs Hok Hs))
    as (e & ms & -> & Hf & _ & Hr).
  exists e, ms. split; [done|]. split; [done|]. intros i m s x Hm Hseg Hx. rewrite Hr.
  assert (forall p, p ∈ concat (zip_with (seg_pairs MD5) ms (segments [] 0 (c :: cs))) ->
    exists m x, m ∈ c :: cs /\ x ∈ c :: cs /\ p = (MinHash.encrypt MD5 (key m) (key x), key x)) as Hform.
  { intros p Hpin. apply list_elem_of_In, in_concat in Hpin as (l & Hl%list_elem_of_In & Hpl%list_elem_of_In).
    apply elem_of_lookup_zip_with in Hl as (j & m' & s' & -> & Hm' & Hs').
    apply list_elem_of_fmap in Hpl as (y & -> & Hy).
    destruct (Forall2_lookup_lr _ _ _ _ _ _ Hf Hm' Hs') as [Hms _].
    exists m', y. split_and!; [| |done]; apply (segments_sub [] 0 (c :: cs) s'); try done; by eapply list_elem_of_lookup_2. }
  apply fold_pairs_lookup.
  - intros p q (m1 & x1 & ? & ? & ->)%Hform (m2 & x2 & ? & ? & ->)%Hform. cbn. by apply Hinj.
  - apply list_elem_of_In, in_concat. exists (seg_pairs MD5 m s). split; apply list_elem_of_In.
    + apply elem_of_lookup_zip_with. by exists i, m, s.
    + apply list_elem_of_fmap. by exists x.
Qed.

(** C32: combined.cc does both.  On a non-empty trace whose first chunk is at most
    SEG_MAX bytes, with a random source whose consecutive draws have a product that
    fits in an [int] (otherwise the multiplication is undefined), the output is, segment
    by segment, a permutation of the segment in which every fingerprint is encrypted
    under a least fingerprint of the segment. *)
Theorem combined_correct rands file c cs (gt : DB) :
  parses file (c :: cs) -> size c <= SEG_MAX -> (forall i, Scrambling.product_fits rands i = true) ->
  exists e ps, Combined.main MD5 rands file gt = Ret e /\
    MinHash.out e = title_line ++ print_chunks (concat ps) /\
    Forall2 (enc_seg MD5) ps (segments [] 0 (c :: cs)).
Proof.
  intros [Hp Hok] Hs Hfit. unfold Combined.main, Combined.read_hashes. rewrite (seg_main_spec _ _ _ _ (c :: cs)) by done.
  exact (combined_segs MD5 rands _ (MinHash.Env title_line 0 gt) Hfit (segments_proper c cs Hok Hs)).
Qed.

(** On a trace without any chunk line k_minhash.cc reaches [pq.top()] of an
    empty queue, which is undefined behaviour. *)
Theorem minhash_no_chunk_undefined rands file (gt : DB) :
  trace_lines file = [] -> MinHash.main MD5 rands file gt = Undef.
Proof.
  intros E. unfold MinHash.main, MinHash.read_hashes, seg_lines. rewrite E. cbn [foldM mbind outcome_bind track].
  unfold MinHash.process_seg. by destruct (_ <? _).
Qed.
End MinHashProps.

(** The segment parameters the code uses.  [2 << 20], [2 << 19] and
    [2 << 21] are 2 MB, 1 MB and 4 MB (the comments say 1 MB, 512 KB and 2 MB),
    and [(hash[5] << 2) >> 2 == 0x3f] on a promoted [char] tests all eight bits
    of the last byte: it holds for the value 0x3f only. *)
Theorem segment_parameters :
  SEG_SIZE = 2 * 2 ^ 20 /\ SEG_MIN = 2 ^ 20 /\ SEG_MAX = 4 * 2 ^ 20 /\
  (forall k b, k !! 5%nat = Some b -> divisor_hit k = bool_decide (b = x3f)).
Proof. split_and!; [done|done|done|]. apply divisor_hit_char. Qed.

(** *** Witnesses *)

(** The largest draw of glibc, 2^31 - 1, makes the multiplication overflow. *)
Lemma rand_max_overflows : Scrambling.coin (fun _ => 2 ^ 31 - 1) 0 = Undef.
Proof. reflexivity. Qed.

Lemma sample_parses : parses sample_trace sample_chunks.
Proof.
  split; [|exact sample_ok]. unfold sample_trace.
  rewrite trace_lines_title, <- (app_nil_r (print_chunks _)), trace_lines_print by exact sample_ok.
  rewrite app_nil_r. repeat (constructor; [apply parse_print_chunk; split; [done|cbn; lia]|]). constructor.
Qed.

Lemma scrambling_witness :
  exists outs, Scrambling.main (fun _ => 3) sample_trace = Ret (title_line ++ print_chunks (concat outs)) /\
    Forall2 (fun o s => o ≡ₚ s) outs (segments [] 0 sample_chunks).
Proof.
  destruct (scrambling_correct (fun _ => 3) sample_trace sample_chunks sample_parses) as (outs & E & _ & _ & Hf).
  exists outs. split; [exact E|exact Hf].
Defined.

Lemma scrambling_frequencies_witness :
  exists out (d1 d2 : gmap bytes bytes), Scrambling.main (fun _ => 3) sample_trace = Ret out /\
    BasicCount.read_hashes out ∅ = Ret d2 /\ BasicCount.read_hashes sample_trace ∅ = Ret d1 /\
    forall k, freq d2 k = freq d1 k.
Proof.
  destruct (scrambling_keeps_frequencies (fun _ => 3) sample_trace sample_chunks (∅ : gmap bytes bytes)
    sample_parses freq_wf_empty ltac:(done)) as (out & d1 & d2 & E & E1 & E2 & Hk).
  exists out, d1, d2. split; [exact E|]. split; [exact E2|]. split; [exact E1|exact Hk].
Defined.

(** A digest of the right length that is injective on short inputs. *)
Definition sample_digest (x : bytes) : bytes := take 16 (x ++ replicate 16 x00).

Lemma sample_digest_length x : length (sample_digest x) = 16%nat.
Proof. unfold sample_digest. rewrite length_take, length_app, length_replicate. lia. Qed.

Lemma minhash_witness :
  exists e ms, MinHash.main sample_digest (fun _ => 3) sample_trace (∅ : gmap bytes bytes) = Ret e /\
    Forall2 (fun m s => seg_min s m) ms (segments [] 0 sample_chunks) /\ length (trace_hashes (MinHash.out e)) = 3%nat.
Proof.
  destruct (minhash_correct sample_digest (fun _ => 3) sample_trace (Chunk (sample_key 1) 100)
    [Chunk (sample_key 9) 200; Chunk (sample_key 1) 100] (∅ : gmap bytes bytes)) as (e & ms & E & Hf & _ & Hl).
  - exact sample_parses.
  - vm_compute; discriminate.
  - exact sample_digest_length.
  - exists e, ms. split; [exact E|]. split; [exact Hf|]. rewrite Hl, sample_hashes. reflexivity.
Defined.

Lemma sample_encrypt m c : m ∈ sample_chunks -> c ∈ sample_chunks -> MinHash.encrypt sample_digest (key m) (key c) = key c.
Proof.
  unfold sample_chunks. rewrite !elem_of_cons, !elem_of_nil.
  intros [->|[->|[->|[]]]] [->|[->|[->|[]]]]; vm_compute; reflexivity.
Qed.

Lemma minhash_ground_truth_witness :
  exists e (ms : list chunk), MinHash.main sample_digest (fun _ => 3) sample_trace (∅ : gmap bytes bytes) = Ret e /\
    (forall i m s x, ms !! i = Some m -> segments [] 0 sample_chunks !! i = Some s -> x ∈ s ->
      MinHash.relate e !! MinHash.encrypt sample_digest (key m) (key x) = Some (key x)).
Proof.
  destruct (minhash_ground_truth sample_digest (fun _ => 3) sample_trace (Chunk (sample_key 1) 100)
    [Chunk (sample_key 9) 200; Chunk (sample_key 1) 100] (∅ : gmap bytes bytes)) as (e & ms & E & _ & Hk).
  - exact sample_parses.
  - vm_compute; discriminate.
  - intros m1 m2 c1 c2 H1 H2 H3 H4. rewrite (sample_encrypt m1 c1 H1 H3), (sample_encrypt m2 c2 H2 H4). done.
  - exists e, ms. split; [exact E|exact Hk].
Defined.

Lemma combined_witness :
  exists e ps, Combined.main sample_digest (fun _ => 3) sample_trace (∅ : gmap bytes bytes) = Ret e /\
    MinHash.out e = title_line ++ print_chunks (concat ps) /\ Forall2 (enc_seg sample_digest) ps (segments [] 0 sample_chunks).
Proof.
  apply (combined_correct sample_digest (fun _ => 3) sample_trace (Chunk (sample_key 1) 100)
    [Chunk (sample_key 9) 200; Chunk (sample_key 1) 100]).
  - exact sample_parses.
  - vm_compute; discriminate.
  - reflexivity.
Defined.

Lemma minhash_undefined_witness : MinHash.main sample_digest (fun _ => 3) title_line (∅ : gmap bytes bytes) = Undef.
Proof. apply (minhash_no_chunk_undefined sample_digest (fun _ => 3) title_line). vm_compute. reflexivity. Defined.
