(* ===== verification/BitText.v ===== *)
(** * Bytes as text

    The prototype stores fingerprints and the Bloom filter on disk as text,
    eight characters '0'/'1' per byte, most significant bit first:
    [container_manager::pocessw]/[loadtonode], [lrucache::output_conf]/[init_conf]
    and [bloom_conf_out]/[bloom_init_conf] all contain the two loops below. *)

From S2P Require Import Prelude.

(** [for (int j = 7; j >= 0; j--) if ((c & 1 << j) != 0) "1" else "0"]; the
    [char] is promoted to [int]. *)
Definition print_bits (c : byte) : bytes :=
  (fun j => if Z.land (sb c) (Z.shiftl 1 j) =? 0 then x30 else x31) <$> [7; 6; 5; 4; 3; 2; 1; 0].

(** [s[i]] of a [std::string]: the NUL at [size()], undefined past it. *)
Definition str_at (s : bytes) (i : nat) : outcome byte :=
  match s !! i with
  | Some b => Ret b
  | None => if (i =? length s)%nat then Ret x00 else Undef
  end.

(** [for (int j = 0; j < 8; j++) if (s[off + j] == '1') sum += pow(2, 7 - j);]
    with [n = 8 - j] rounds left. *)
Fixpoint read_bits_go (n : nat) (s : bytes) (off : nat) (sum : Z) : outcome Z :=
  match n with
  | O => Ret sum
  | S n' =>
      c ← str_at s off;
      read_bits_go n' s (S off) (if ub c =? 49 then sum + 2 ^ Z.of_nat n' else sum)
  end.

(** One byte: [(char)sum]. *)
Definition read_bits (s : bytes) (off : nat) : outcome byte :=
  sum ← read_bits_go 8 s off 0; Ret (to_byte sum).

(** [n] consecutive bytes from offset [8 * i]. *)
Fixpoint read_bytes (n i : nat) (s : bytes) : outcome bytes :=
  match n with
  | O => Ret []
  | S n' => b ← read_bits s (i * 8); l ← read_bytes n' (S i) s; Ret (b :: l)
  end.

(** ** Round trip *)

Lemma print_bits_length c : length (print_bits c) = 8%nat.
Proof. done. Qed.

Lemma print_bits_01 c : Forall (fun b => b = x30 \/ b = x31) (print_bits c).
Proof. unfold print_bits. apply Forall_fmap, Forall_forall. intros j _. cbn. destruct (_ =? 0); auto. Qed.

Lemma str_at_app p b s : str_at (p ++ b :: s) (length p) = Ret b.
Proof. unfold str_at. by rewrite list_lookup_middle. Qed.

(** The value of [n] text bits. *)
Fixpoint bits_val (n : nat) (l : bytes) (sum : Z) : Z :=
  match n, l with
  | S n', b :: l' => bits_val n' l' (if ub b =? 49 then sum + 2 ^ Z.of_nat n' else sum)
  | _, _ => sum
  end.

Lemma read_bits_print p c s : read_bits (p ++ print_bits c ++ s) (length p) = Ret c.
Proof.
  unfold read_bits.
  assert (forall i b, (i < 8)%nat -> print_bits c !! i = Some b ->
    str_at (p ++ print_bits c ++ s) (i + length p) = Ret b) as Hs.
  { intros i b Hi Hb. unfold str_at. rewrite Nat.add_comm, lookup_app_r by lia.
    replace (length p + i - length p)%nat with i by lia.
    rewrite lookup_app_l by (rewrite print_bits_length; lia). by rewrite Hb. }
  assert (forall n sum, (n <= 8)%nat ->
    read_bits_go n (p ++ print_bits c ++ s) (8 - n + length p) sum =
    Ret (bits_val n (drop (8 - n) (print_bits c)) sum)) as Hgo.
  { induction n as [|n IH]; intros sum Hn; [by destruct (drop _ _)|].
    destruct (lookup_lt_is_Some_2 (print_bits c) (8 - S n)) as [b Hb];
      [rewrite print_bits_length; lia|].
    cbn [read_bits_go]. rewrite (Hs _ b) by (done || lia). run.
    rewrite (drop_S _ _ _ Hb). cbn [bits_val].
    replace (S (8 - S n + length p)) with (8 - n + length p)%nat by lia.
    rewrite IH by lia. by replace (S (8 - S n))%nat with (8 - n)%nat by lia. }
  specialize (Hgo 8%nat 0 ltac:(lia)). change (8 - 8 + length p)%nat with (length p) in Hgo.
  rewrite Hgo. run. f_equal. by destruct c; vm_compute.
Qed.

Lemma read_bytes_print p l s :
  (exists i, length p = i * 8)%nat ->
  read_bytes (length l) (length p / 8) (p ++ concat (print_bits <$> l) ++ s) = Ret l.
Proof.
  revert p. induction l as [|c l IH]; intros p [i Hi]; [done|]. cbn [read_bytes length fmap list_fmap concat].
  rewrite <- app_assoc. replace (length p / 8 * 8)%nat with (length p) by (rewrite Hi, Nat.div_mul; lia).
  rewrite read_bits_print. run.
  specialize (IH (p ++ print_bits c)). rewrite length_app, print_bits_length in IH.
  replace ((length p + 8) / 8)%nat with (S (length p / 8)) in IH
    by (rewrite Hi; replace (i * 8 + 8)%nat with ((i + 1) * 8)%nat by lia; rewrite !Nat.div_mul; lia).
  rewrite <- app_assoc in IH. rewrite IH; [done|]. exists (S i). lia.
Qed.

(** Text printed from a byte string reads back. *)
Lemma read_bytes_text l s : read_bytes (length l) 0 (concat (print_bits <$> l) ++ s) = Ret l.
Proof. apply (read_bytes_print []). by exists 0%nat. Qed.

#[global] Arguments print_bits : simpl never.
#[global] Arguments read_bits : simpl never.

(** ** Lines of a text stream *)

(** The lines a [while (getline(stream, temp))] loop sees: a last line without
    its newline counts when it is not empty. *)
Fixpoint getlines_go (s cur : bytes) : list bytes :=
  match s with
  | [] => match cur with [] => [] | _ => [rev cur] end
  | b :: s' => if ub b =? 10 then rev cur :: getlines_go s' [] else getlines_go s' (b :: cur)
  end.

Definition getlines (s : bytes) : list bytes := getlines_go s [].

Lemma getlines_go_line l s cur :
  Forall (fun b => ub b <> 10) l -> getlines_go (l ++ x0a :: s) cur = (rev cur ++ l) :: getlines s.
Proof.
  intros Hl. revert cur. induction Hl as [|b l Hb _ IH]; intros cur; cbn.
  - by rewrite app_nil_r.
  - rewrite (proj2 (Z.eqb_neq _ _) Hb), IH. cbn. by rewrite <- app_assoc.
Qed.

(** One fingerprint per line, as the three writers print it. *)
Definition print_fp_line (k : bytes) : bytes := concat (print_bits <$> k) ++ [x0a].

Lemma print_text_no_newline k : Forall (fun b => ub b <> 10) (concat (print_bits <$> k)).
Proof.
  induction k as [|c k IH]; cbn; [constructor|]. apply Forall_app. split; [|done].
  eapply Forall_impl; [apply print_bits_01|]. by intros b [-> | ->].
Qed.

Lemma getlines_print ks s :
  getlines (concat (print_fp_line <$> ks) ++ s) = ((fun k => concat (print_bits <$> k)) <$> ks) ++ getlines s.
Proof.
  induction ks as [|k ks IH]; [done|]. cbn [fmap list_fmap concat]. unfold print_fp_line at 1.
  rewrite <- !app_assoc. unfold getlines. cbn [app].
  rewrite getlines_go_line by apply print_text_no_newline. cbn [rev app]. f_equal. exact IH.
Qed.

#[global] Arguments getlines : simpl never.
