(* ===== verification/Bloom.v ===== *)
(** * The Bloom filter of the prototype (prototype/bloom.c, prototype/MurmurHash2.c)

    [murmurhash2], the filter's record, the probing loop shared by
    [bloom_check] and [bloom_add], [bloom_init] in IEEE arithmetic, and the
    text dump the deduplication engine keeps between runs.  The theorems: a
    key that was added is always reported, whatever was added or looked up
    since; [bloom_check] never writes; [bloom_add] answers what [bloom_check]
    would have answered before it; the dump restores the filter. *)

From S2P Require Import Prelude BitText.
From Stdlib Require Import Floats.SpecFloat.

(** ** MurmurHash2 *)

Definition MURMUR_M : Z := 0x5bd1e995.

(** One four-byte word mixed into [h]. *)
Definition mix_word (h k : Z) : Z :=
  let k := u32 (k * MURMUR_M) in
  let k := Z.lxor k (Z.shiftr k 24) in
  let k := u32 (k * MURMUR_M) in
  Z.lxor (u32 (h * MURMUR_M)) k.

(** The word loop and the [switch] on the one to three bytes left. *)
Fixpoint mix_data (h : Z) (data : bytes) : Z :=
  match data with
  | b0 :: b1 :: b2 :: b3 :: data' => mix_data (mix_word h (le_combine [b0; b1; b2; b3])) data'
  | [b0; b1; b2] =>
      let h := Z.lxor h (Z.shiftl (ub b2) 16) in
      let h := Z.lxor h (Z.shiftl (ub b1) 8) in
      u32 (Z.lxor h (ub b0) * MURMUR_M)
  | [b0; b1] =>
      let h := Z.lxor h (Z.shiftl (ub b1) 8) in
      u32 (Z.lxor h (ub b0) * MURMUR_M)
  | [b0] => u32 (Z.lxor h (ub b0) * MURMUR_M)
  | [] => h
  end.

(** [murmurhash2(key, len, seed)] with [len] the length of the buffer. *)
Definition murmurhash2 (key : bytes) (seed : Z) : Z :=
  let h := mix_data (Z.lxor seed (u32 (Z.of_nat (length key)))) key in
  let h := Z.lxor h (Z.shiftr h 13) in
  let h := u32 (h * MURMUR_M) in
  Z.lxor h (Z.shiftr h 15).

(** ** The filter *)

(** [struct bloom]; [bf] is [None] for a null pointer. *)
Record bloom := Bloom {
  entries : Z;
  error : spec_float;
  bits : Z;
  nbytes : Z;
  hashes : Z;
  bpe : spec_float;
  bf : option bytes;
  ready : Z;
}.

(** [test_bit_set_bit]: whether bit [x] was set, and the buffer after. *)
Definition test_bit_set_bit (buf : bytes) (x : Z) (set_bit : bool) : outcome (bool * bytes) :=
  let byte := Z.to_nat (Z.shiftr x 3) in
  match buf !! byte with
  | None => Undef
  | Some c =>
      let mask := Z.shiftl 1 (x mod 8) in
      if negb (Z.land (ub c) mask =? 0) then Ret (true, buf)
      else if set_bit then Ret (false, <[byte := to_byte (Z.lor (ub c) mask)]> buf)
      else Ret (false, buf)
  end.

(** [x = (a + i*b) % bloom->bits], unsigned; division by zero is undefined. *)
Definition probe (a b nb i : Z) : outcome Z :=
  if u32 nb =? 0 then Undef else Ret (u32 (a + u32 (i * b)) mod u32 nb).

(** One round of the loop over [i]: the buffer and the number of hits. *)
Definition probe_round (a b nb : Z) (add : bool) (i : Z) (st : bytes * Z) : outcome (bytes * Z) :=
  let '(buf, hits) := st in
  x ← probe a b nb i;
  '(hit, buf) ← test_bit_set_bit buf x add;
  Ret (buf, if hit : bool then hits + 1 else hits).

Definition SEED : Z := 0x9747b28c.

(** [bloom_check_add(bloom, buffer, len, add)] *)
Definition bloom_check_add (b : bloom) (buffer : bytes) (add : bool) : outcome (Z * bloom) :=
  if ready b =? 0 then Ret (-1, b)
  else
    match bf b with
    | None => Undef
    | Some buf =>
        let a := murmurhash2 buffer SEED in
        let h := murmurhash2 buffer a in
        '(buf, hits) ← foldM (probe_round a h (bits b) add) (seqZ 0 (u32 (hashes b))) (buf, 0);
        Ret (if hits =? hashes b then 1 else 0,
             Bloom (entries b) (error b) (bits b) (nbytes b) (hashes b) (bpe b) (Some buf) (ready b))
    end.

Definition bloom_check (b : bloom) (buffer : bytes) : outcome (Z * bloom) := bloom_check_add b buffer false.
Definition bloom_add (b : bloom) (buffer : bytes) : outcome (Z * bloom) := bloom_check_add b buffer true.

(** [bloom_free]: the buffer is released when the filter was ready. *)
Definition bloom_free (b : bloom) : bloom :=
  Bloom (entries b) (error b) (bits b) (nbytes b) (hashes b) (bpe b)
    (if ready b =? 0 then bf b else None) 0.

(** ** Construction *)

(** The double literals of [bloom_init], as significand and exponent. *)
Definition LN2_SQUARED : spec_float := S754_finite false 8655072057804167 (-54).
Definition LN2 : spec_float := S754_finite false 6243314768165356 (-53).

Definition Z2double (z : Z) : spec_float := binary_normalize 53 1024 z 0 false.

(** [(int)d]: truncation; undefined when the result does not fit. *)
Definition fits_int (z : Z) : outcome Z :=
  if (- 2 ^ 31 <=? z) && (z <? 2 ^ 31) then Ret z else Undef.

Definition double2int (d : spec_float) : outcome Z :=
  match d with
  | S754_zero _ => Ret 0
  | S754_finite s m e =>
      let v := if 0 <=? e then Z.pos m * 2 ^ e else Z.pos m / 2 ^ (- e) in
      fits_int (if s then - v else v)
  | _ => Undef
  end.

(** [(int)ceil(d)] *)
Definition ceil2int (d : spec_float) : outcome Z :=
  match d with
  | S754_zero _ => Ret 0
  | S754_finite s m e =>
      let m := if s then Z.neg m else Z.pos m in
      fits_int (if 0 <=? e then m * 2 ^ e else - ((- m) / 2 ^ (- e)))
  | _ => Undef
  end.

Section Init.
(** [log] of the C mathematics library, and whether [calloc] finds memory. *)
Variable log : spec_float -> spec_float.
Variable calloc_ok : bool.

(** [bloom_init(bloom, entries, error)]; [b] is the record before. *)
Definition bloom_init (b : bloom) (n : Z) (err : spec_float) : outcome (Z * bloom) :=
  if (n <? 1000) || SFeqb err (Z2double 0) then
    Ret (1, Bloom (entries b) (error b) (bits b) (nbytes b) (hashes b) (bpe b) (bf b) 0)
  else
    let bpe := SFopp (SFdiv 53 1024 (log err) LN2_SQUARED) in
    bits ← double2int (SFmul 53 1024 (Z2double n) bpe);
    let nbytes := if negb (Z.rem bits 8 =? 0) then Z.quot bits 8 + 1 else Z.quot bits 8 in
    hashes ← ceil2int (SFmul 53 1024 LN2 bpe);
    if calloc_ok && (0 <=? nbytes) then
      Ret (0, Bloom n err bits nbytes hashes bpe (Some (replicate (Z.to_nat nbytes) x00)) 1)
    else Ret (1, Bloom n err bits nbytes hashes bpe None 0).

(** [bloom_init_size] ignores its last argument. *)
Definition bloom_init_size (b : bloom) (n : Z) (err : spec_float) (cache_size : Z) : outcome (Z * bloom) :=
  bloom_init b n err.
End Init.

(** ** The dump between two runs *)

(** [bloom_conf_out]: the contents written to [./conf/bloomConf]; [bf] holds
    unsigned characters. *)
Definition print_bits_u (c : byte) : bytes :=
  (fun j => if Z.land (ub c) (Z.shiftl 1 j) =? 0 then x30 else x31) <$> [7; 6; 5; 4; 3; 2; 1; 0].

Definition bloom_conf_out (b : bloom) : outcome bytes :=
  match bf b with
  | None => if nbytes b <=? 0 then Ret [] else Undef
  | Some buf =>
      if nbytes b <=? Z.of_nat (length buf)
      then Ret (concat (print_bits_u <$> take (Z.to_nat (nbytes b)) buf)) else Undef
  end.

(** [bloom_init_conf]: [conf] is the file's contents, [None] when it cannot be
    opened; the loop bound is the [int] [bytes] converted to [uint64_t]. *)
Definition bloom_init_conf (conf : option bytes) (b : bloom) : outcome (bool * bloom) :=
  match conf with
  | None => Ret (false, b)
  | Some contents =>
      if u64 (nbytes b) =? 0 then Ret (true, b)
      else
        match bf b with
        | None => Undef
        | Some buf =>
            if u64 (nbytes b) <=? Z.of_nat (length buf) then
              l ← read_bytes (Z.to_nat (u64 (nbytes b))) 0 contents;
              Ret (true, Bloom (entries b) (error b) (bits b) (nbytes b) (hashes b) (bpe b)
                           (Some (l ++ drop (length l) buf)) (ready b))
            else Undef
        end
  end.

(** ** Well-formed filters *)

Record bloom_wf (b : bloom) : Prop := {
  wf_ready : ready b <> 0;
  wf_bits : 0 < bits b < 2 ^ 31;
  wf_hashes : 0 < hashes b < 2 ^ 31;
  wf_nbytes : nbytes b = (bits b + 7) / 8;
  wf_buf : exists buf, bf b = Some buf /\ Z.of_nat (length buf) = nbytes b;
}.

(** Bit [x] of a buffer. *)
Definition buf_bit (buf : bytes) (x : Z) : bool :=
  match buf !! Z.to_nat (Z.shiftr x 3) with
  | Some c => Z.testbit (ub c) (x mod 8)
  | None => false
  end.

Definition bloom_buf (b : bloom) : bytes := default [] (bf b).

(** The positions a key occupies. *)
Definition positions (b : bloom) (key : bytes) : list Z :=
  let a := murmurhash2 key SEED in
  let h := murmurhash2 key a in
  (fun i => u32 (a + u32 (i * h)) mod bits b) <$> seqZ 0 (hashes b).

(** What [bloom_check] decides: all of the key's bits are set. *)
Definition member (b : bloom) (key : bytes) : bool :=
  forallb (buf_bit (bloom_buf b)) (positions b key).

(** ** Bits of a buffer *)

Lemma land_bit a k : 0 <= k -> (Z.land a (Z.shiftl 1 k) =? 0) = negb (Z.testbit a k).
Proof.
  intros Hk. rewrite Z.shiftl_1_l. destruct (Z.testbit a k) eqn:E; cbn.
  - apply Z.eqb_neq. intros H0. apply (f_equal (fun z => Z.testbit z k)) in H0.
    rewrite Z.land_spec, E, Z.pow2_bits_true, Z.bits_0 in H0 by done. done.
  - apply Z.eqb_eq. apply Z.bits_inj_iff. intros n. rewrite Z.land_spec, Z.bits_0.
    destruct (Z.eq_dec n k) as [->|Hn]; [by rewrite E|]. by rewrite Z.pow2_bits_false, andb_false_r.
Qed.

(** Setting a bit of a byte keeps it a byte. *)
Lemma ub_set_bit c k : 0 <= k < 8 -> ub (to_byte (Z.lor (ub c) (Z.shiftl 1 k))) = Z.lor (ub c) (2 ^ k).
Proof.
  intros Hk. rewrite Z.shiftl_1_l, ub_to_byte. change 256 with (2 ^ 8). rewrite <- Z.land_ones by lia.
  apply Z.bits_inj_iff. intros n. rewrite Z.land_spec, Z.testbit_ones by lia.
  destruct (Z.ltb_spec n 8); destruct (Z.leb_spec 0 n); cbn; rewrite ?andb_true_r, ?andb_false_r; try done.
  - by rewrite Z.testbit_neg_r by lia.
  - rewrite Z.lor_spec, Z.pow2_bits_false by lia. rewrite orb_false_r. symmetry.
    pose proof (ub_range c). destruct (Z.eq_dec (ub c) 0) as [->|]; [apply Z.bits_0|].
    apply Z.bits_above_log2; [lia|]. apply Z.log2_lt_pow2; [lia|]. apply (Z.lt_le_trans _ (2 ^ 8)); [lia|].
    by apply Z.pow_le_mono_r.
  - lia.
Qed.

Lemma bit_index x y : 0 <= x -> 0 <= y ->
  Z.to_nat (Z.shiftr x 3) = Z.to_nat (Z.shiftr y 3) -> x mod 8 = y mod 8 -> x = y.
Proof. rewrite !Z.shiftr_div_pow2 by lia. intros. pose proof (Z.div_mod x 8). pose proof (Z.div_mod y 8).
  change (2 ^ 3) with 8 in *. pose proof (Z.div_pos x 8). pose proof (Z.div_pos y 8). lia. Qed.

(** [test_bit_set_bit] reports the bit and sets exactly it. *)
Lemma test_bit_spec buf x add :
  0 <= x < 8 * Z.of_nat (length buf) ->
  exists buf', test_bit_set_bit buf x add = Ret (buf_bit buf x, buf') /\
    length buf' = length buf /\
    (forall y, 0 <= y -> buf_bit buf' y = buf_bit buf y || (add && (y =? x))) /\
    (add = false \/ buf_bit buf x = true -> buf' = buf).
Proof.
  intros Hx. unfold test_bit_set_bit, buf_bit.
  assert (Z.to_nat (Z.shiftr x 3) < length buf)%nat as Hlt.
  { rewrite Z.shiftr_div_pow2 by lia. pose proof (Z.div_lt_upper_bound x (2 ^ 3) (Z.of_nat (length buf))).
    pose proof (Z.div_pos x (2 ^ 3)). lia. }
  destruct (lookup_lt_is_Some_2 buf _ Hlt) as [c Hc]. rewrite Hc.
  pose proof (Z.mod_pos_bound x 8 ltac:(lia)) as Hm. rewrite land_bit, negb_involutive by lia.
  assert (forall y, 0 <= y -> add && (y =? x) = true -> Z.testbit (ub c) (x mod 8) = true ->
    match buf !! Z.to_nat (Z.shiftr y 3) with Some c => Z.testbit (ub c) (y mod 8) | None => false end = true) as Hsame.
  { intros y _ [_ ->%Z.eqb_eq]%andb_prop Hb. by rewrite Hc. }
  destruct (Z.testbit (ub c) (x mod 8)) eqn:Eb.
  - exists buf. split_and!; [done|done| |done]. intros y Hy.
    destruct (add && (y =? x)) eqn:E; [|by rewrite orb_false_r]. rewrite Hsame by done. done.
  - destruct add; [|exists buf; split_and!; [done|done|intros; by rewrite orb_false_r|done]].
    eexists. split_and!; [done|apply length_insert| |naive_solver].
    intros y Hy. cbn [andb]. destruct (decide (Z.to_nat (Z.shiftr y 3) = Z.to_nat (Z.shiftr x 3))) as [E|E].
    + rewrite E, list_lookup_insert_eq, Hc, ub_set_bit, Z.lor_spec by done. f_equal.
      destruct (Z.eqb_spec y x) as [->|Hn]; [by rewrite Z.pow2_bits_true by lia|].
      apply Z.pow2_bits_false. intros Hmod. destruct Hn. apply bit_index; lia.
    + rewrite list_lookup_insert_ne by done. replace (y =? x) with false; [by rewrite orb_false_r|].
      symmetry. apply Z.eqb_neq. by intros ->.
Qed.

(** The loop over any list of rounds. *)
Lemma probe_loop_spec a h nb add js buf hits :
  0 < nb < 2 ^ 31 -> nb <= 8 * Z.of_nat (length buf) ->
  exists buf' n, foldM (probe_round a h nb add) js (buf, hits) = Ret (buf', hits + n) /\
    length buf' = length buf /\ 0 <= n <= Z.of_nat (length js) /\
    (forall y, 0 <= y -> buf_bit buf' y = buf_bit buf y ||
       (add && bool_decide (y ∈ (fun i => u32 (a + u32 (i * h)) mod nb) <$> js))) /\
    (add = false -> buf' = buf) /\
    (n = Z.of_nat (length js) <-> forallb (buf_bit buf) ((fun i => u32 (a + u32 (i * h)) mod nb) <$> js) = true).
Proof.
  intros Hnb. revert buf hits. induction js as [|i js IH]; intros buf hits Hb.
  - exists buf, 0. rewrite Z.add_0_r. split_and!; try done. intros y Hy.
    by rewrite andb_false_r, orb_false_r.
  - cbn [foldM probe_round]. unfold probe. rewrite (u32_small nb) by lia.
    replace (nb =? 0) with false by lia. run.
    set (x := u32 (a + u32 (i * h)) mod nb).
    assert (0 <= x < nb) as Hx by (apply Z.mod_pos_bound; lia).
    destruct (test_bit_spec buf x add) as (b1 & -> & Hl1 & Hb1 & Hk1); [lia|]. run.
    destruct (IH b1 (if buf_bit buf x then hits + 1 else hits)) as (b2 & n & -> & Hl2 & Hn & Hb2 & Hk2 & Hall);
      [lia|].
    exists b2, (if buf_bit buf x then n + 1 else n). cbn [length fmap list_fmap forallb]. fold x.
    split_and!.
    + by destruct (buf_bit buf x); do 2 f_equal; lia.
    + lia.
    + destruct (buf_bit buf x); lia.
    + destruct (buf_bit buf x); lia.
    + intros y Hy. rewrite Hb2, Hb1, <- orb_assoc by done. f_equal. destruct add; [|done]. cbn [andb].
      destruct (Z.eqb_spec y x) as [->|Hne]; cbn [orb].
      * symmetry. apply bool_decide_eq_true_2. by left.
      * apply bool_decide_ext. rewrite elem_of_cons. naive_solver.
    + intros ->. rewrite Hk2, Hk1 by auto. done.
    + rewrite Nat2Z.inj_succ. destruct (buf_bit buf x) eqn:E; cbn [andb].
      * rewrite Hk1 in Hall by auto. rewrite <- Hall. lia.
      * split; [lia|done].
Qed.

(** ** The operations *)

Definition with_buf (b : bloom) (buf : bytes) : bloom :=
  Bloom (entries b) (error b) (bits b) (nbytes b) (hashes b) (bpe b) (Some buf) (ready b).

(** Every call on a well-formed filter returns, answers [member], keeps the
    filter well formed and sets exactly the key's bits when it adds. *)
Lemma bloom_check_add_spec b key add :
  bloom_wf b -> exists buf',
    bloom_check_add b key add = Ret (if member b key then 1 else 0, with_buf b buf') /\
    bloom_wf (with_buf b buf') /\
    (forall y, 0 <= y -> buf_bit buf' y = buf_bit (bloom_buf b) y || (add && bool_decide (y ∈ positions b key))) /\
    (add = false -> with_buf b buf' = b).
Proof.
  intros [Hr Hb Hh Hn (buf & Hbuf & Hlen)]. unfold bloom_check_add.
  replace (ready b =? 0) with false by lia. rewrite Hbuf.
  rewrite (u32_small (hashes b)) by lia.
  destruct (probe_loop_spec (murmurhash2 key SEED) (murmurhash2 key (murmurhash2 key SEED)) (bits b) add
    (seqZ 0 (hashes b)) buf 0) as (buf' & n & -> & Hl & Hrange & Hbits & Hsame & Hall); [lia| |].
  { rewrite Hlen, Hn. pose proof (Z.div_mod (bits b + 7) 8). pose proof (Z.mod_pos_bound (bits b + 7) 8). lia. }
  run. exists buf'. rewrite Z.add_0_l.
  assert (bloom_buf b = buf) as Hbb by (unfold bloom_buf; by rewrite Hbuf).
  split_and!.
  - do 2 f_equal. unfold member, positions. rewrite Hbb. rewrite length_seqZ, Z2Nat.id in Hall by lia.
    destruct (Z.eqb_spec n (hashes b)) as [E|E]; apply Hall in E || idtac.
    + by rewrite E.
    + destruct (forallb _ _); [|done]. by destruct E; apply Hall.
  - constructor; cbn; try done. exists buf'. split; [done|lia].
  - rewrite Hbb. exact Hbits.
  - intros ->. rewrite Hsame by done. unfold with_buf. rewrite <- Hbuf. by destruct b.
Qed.

Lemma positions_with_buf b buf key : positions (with_buf b buf) key = positions b key.
Proof. done. Qed.

Lemma positions_nonneg b key x : 0 < bits b -> x ∈ positions b key -> 0 <= x.
Proof. intros Hb (i & -> & _)%list_elem_of_fmap. apply Z.mod_pos_bound. lia. Qed.

(** One call in a history of the filter. *)
Inductive bloom_op := Check (key : bytes) | Add (key : bytes).

Definition run_op (op : bloom_op) (b : bloom) : outcome bloom :=
  match op with
  | Check k => '(_, b') ← bloom_check b k; Ret b'
  | Add k => '(_, b') ← bloom_add b k; Ret b'
  end.

Lemma run_op_spec op b :
  bloom_wf b -> exists b', run_op op b = Ret b' /\ bloom_wf b' /\ (bits b' = bits b /\ hashes b' = hashes b) /\
    (forall key, positions b' key = positions b key) /\
    (forall key, member b key = true -> member b' key = true) /\
    (forall key, op = Add key -> member b' key = true).
Proof.
  intros Hwf. assert (forall key add, exists b' r, bloom_check_add b key add = Ret (r, b') /\ bloom_wf b' /\
    (bits b' = bits b /\ hashes b' = hashes b) /\ (forall key', positions b' key' = positions b key') /\
    (forall key', member b key' = true -> member b' key' = true) /\
    (add = true -> member b' key = true)) as H.
  { intros key add. destruct (bloom_check_add_spec b key add Hwf) as (buf' & -> & Hw & Hb & _).
    do 2 eexists. split_and!; [done|exact Hw|done|done|done| |].
    - intros key'. unfold member. rewrite positions_with_buf, !forallb_forall. intros Hm x Hx.
      cbn. rewrite Hb, Hm by (done || (eapply positions_nonneg; [apply Hwf|by apply list_elem_of_In])). done.
    - intros ->. unfold member. rewrite positions_with_buf, forallb_forall. intros x Hx%list_elem_of_In.
      cbn. rewrite Hb by (by eapply positions_nonneg; [apply Hwf|]).
      rewrite bool_decide_eq_true_2 by done. apply orb_true_r. }
  destruct op as [k|k]; cbn.
  - destruct (H k false) as (b' & r & E & Hw & ? & ? & ? & _). unfold bloom_check. rewrite E. exists b'. split_and!; naive_solver.
  - destruct (H k true) as (b' & r & E & Hw & ? & ? & ? & ?). unfold bloom_add. rewrite E. exists b'.
    split_and!; naive_solver.
Qed.

Lemma run_ops_spec ops b :
  bloom_wf b -> exists b', foldM run_op ops b = Ret b' /\ bloom_wf b' /\
    (forall key, member b key = true -> member b' key = true) /\
    (forall key, Add key ∈ ops -> member b' key = true).
Proof.
  revert b. induction ops as [|op ops IH]; intros b Hwf.
  - exists b. split_and!; try done. by intros key ?%not_elem_of_nil.
  - cbn [foldM]. destruct (run_op_spec op b Hwf) as (b1 & -> & Hw1 & _ & _ & Hm1 & Ha1). run.
    destruct (IH b1 Hw1) as (b2 & -> & Hw2 & Hm2 & Ha2). exists b2. split_and!; try done; [by eauto|].
    intros key [Hk|Hk]%elem_of_cons; eauto.
Qed.

(** C35: a filter never forgets: after any history of [bloom_add] and
    [bloom_check] calls on a well-formed filter, every call returned, and
    [bloom_check] answers 1 for every key the history added. *)
Theorem bloom_no_false_negative b ops key :
  bloom_wf b -> Add key ∈ ops ->
  exists b', foldM run_op ops b = Ret b' /\ bloom_check b' key = Ret (1, b').
Proof.
  intros Hwf Hin. destruct (run_ops_spec ops b Hwf) as (b' & Hrun & Hw & _ & Ha).
  exists b'. split; [done|]. destruct (bloom_check_add_spec b' key false Hw) as (buf' & E & _ & _ & Hsame).
  unfold bloom_check. rewrite E, Hsame, (Ha key Hin) by done. done.
Qed.

(** [bloom_add] returns what [bloom_check] would have returned just before
    it (1 only when all the key's bits were already set, although the loop
    sets bits while it counts hits), and the key is reported afterwards. *)
Theorem bloom_add_reports_membership b key :
  bloom_wf b -> exists r b',
    bloom_check b key = Ret (r, b) /\ bloom_add b key = Ret (r, b') /\ bloom_check b' key = Ret (1, b') /\
    (r = 1 <-> forallb (buf_bit (bloom_buf b)) (positions b key) = true).
Proof.
  intros Hwf. destruct (bloom_check_add_spec b key false Hwf) as (buf0 & Hc & _ & _ & H0).
  destruct (run_op_spec (Add key) b Hwf) as (b' & Hr & Hw' & _ & _ & _ & Ha).
  destruct (bloom_check_add_spec b key true Hwf) as (buf1 & Hadd & _ & _ & _).
  destruct (bloom_check_add_spec b' key false Hw') as (buf2 & Hc2 & _ & _ & H2).
  cbn in Hr. unfold bloom_add in *. rewrite Hadd in Hr. cbn in Hr. injection Hr as <-.
  do 2 eexists. split_and!.
  - unfold bloom_check. by rewrite Hc, H0.
  - exact Hadd.
  - unfold bloom_check. by rewrite Hc2, H2, Ha by done.
  - unfold member. destruct (forallb _ _); split; (done || lia).
Qed.

(** ** Construction and persistence *)

Lemma bytes_round_up n : 0 < n ->
  (if negb (Z.rem n 8 =? 0) then Z.quot n 8 + 1 else Z.quot n 8) = (n + 7) / 8.
Proof.
  intros Hn. rewrite Z.rem_mod_nonneg, Z.quot_div_nonneg by lia.
  pose proof (Z.div_mod n 8 ltac:(lia)). pose proof (Z.mod_pos_bound n 8 ltac:(lia)).
  pose proof (Z.div_mod (n + 7) 8 ltac:(lia)). pose proof (Z.mod_pos_bound (n + 7) 8 ltac:(lia)).
  destruct (Z.eqb_spec (n mod 8) 0); cbn [negb]; lia.
Qed.

Lemma fits_int_range z v : fits_int z = Ret v -> v = z /\ - 2 ^ 31 <= v < 2 ^ 31.
Proof. unfold fits_int. case_match; [|done]. intros [= <-]. lia. Qed.

Lemma double2int_range d z : double2int d = Ret z -> - 2 ^ 31 <= z < 2 ^ 31.
Proof. destruct d; cbn [double2int]; try done; [intros [= <-]; lia|]. by intros [_ ?]%fits_int_range. Qed.

Lemma ceil2int_range d z : ceil2int d = Ret z -> - 2 ^ 31 <= z < 2 ^ 31.
Proof. destruct d; cbn [ceil2int]; try done; [intros [= <-]; lia|]. by intros [_ ?]%fits_int_range. Qed.

(** A filter that [bloom_init] reports ready (return value 0) with a
    positive number of bits and hash functions is well formed, empty (every
    bit is 0), and records the requested capacity. *)
Theorem bloom_init_wf log ok b0 n err b :
  bloom_init log ok b0 n err = Ret (0, b) -> 0 < bits b -> 0 < hashes b ->
  bloom_wf b /\ entries b = n /\ 1000 <= n /\ forall x, buf_bit (bloom_buf b) x = false.
Proof.
  unfold bloom_init. destruct ((n <? 1000) || _) eqn:En; [by intros [=]|].
  intros (z & Hz & (h & Hh & Hr)%bind_Ret)%bind_Ret Hb Hk.
  destruct (ok && _) eqn:Eok; [|done]. injection Hr as <-. cbn in Hb, Hk.
  apply double2int_range in Hz. apply ceil2int_range in Hh. split_and!.
  - constructor; cbn [ready bits nbytes hashes bf]; [done|lia|lia|by apply bytes_round_up|].
    eexists. split; [done|]. rewrite length_replicate. lia.
  - done.
  - lia.
  - intros x. unfold buf_bit, bloom_buf. cbn [bf default].
    destruct (_ !! _) eqn:E; [|done]. apply lookup_replicate in E as [-> _]. apply Z.bits_0.
Qed.

Lemma print_bits_u_eq c : print_bits_u c = print_bits c.
Proof. by destruct c. Qed.

Lemma bloom_conf_restore b b0 :
  bloom_wf b -> bloom_wf b0 -> bits b0 = bits b ->
  exists contents, bloom_conf_out b = Ret contents /\
    length contents = (8 * Z.to_nat (nbytes b))%nat /\
    bloom_init_conf (Some contents) b0 = Ret (true, with_buf b0 (bloom_buf b)) /\
    bloom_wf (with_buf b0 (bloom_buf b)).
Proof.
  intros [Hr Hb Hh Hn (buf & Hbuf & Hlen)] [Hr0 Hb0 Hh0 Hn0 (buf0 & Hbuf0 & Hlen0)] Hbits.
  assert (0 < nbytes b < 2 ^ 31) as Hnb.
  { rewrite Hn. pose proof (Z.div_mod (bits b + 7) 8 ltac:(lia)).
    pose proof (Z.mod_pos_bound (bits b + 7) 8 ltac:(lia)). lia. }
  assert (nbytes b0 = nbytes b) as Hn' by congruence.
  assert (length buf = Z.to_nat (nbytes b)) as Hlb by lia.
  unfold bloom_conf_out. rewrite Hbuf, <- Hlen, Z.leb_refl, Nat2Z.id, take_ge by lia.
  eexists. assert (print_bits_u <$> buf = print_bits <$> buf) as ->
    by (apply list_fmap_ext; intros; apply print_bits_u_eq).
  unfold bloom_init_conf. rewrite Hbuf0, Hn', u64_small by lia.
  replace (nbytes b =? 0) with false by lia. replace (nbytes b <=? Z.of_nat (length buf0)) with true by lia.
  rewrite <- Hlb. pose proof (read_bytes_text buf []) as Ht. rewrite app_nil_r in Ht. rewrite Ht.
  run. rewrite drop_ge, app_nil_r by lia. assert (bloom_buf b = buf) as Hbb by (unfold bloom_buf; by rewrite Hbuf).
  rewrite Hbb. split_and!; [done| |unfold with_buf; by rewrite Hn'|].
  - clear. induction buf as [|c buf IH]; [done|]. cbn [fmap list_fmap concat length].
    rewrite length_app, print_bits_length, IH. lia.
  - constructor; cbn; try done; try lia. exists buf. split; [done|lia].
Qed.

(** The dump [bloom_conf_out] writes restores the filter: loading it with
    [bloom_init_conf] into a filter created with the same parameters gives a
    well-formed filter that answers every [bloom_check] as the dumped one. *)
Theorem bloom_conf_roundtrip b b0 :
  bloom_wf b -> bloom_wf b0 -> bits b0 = bits b -> hashes b0 = hashes b ->
  exists contents b', bloom_conf_out b = Ret contents /\
    length contents = (8 * Z.to_nat (nbytes b))%nat /\
    bloom_init_conf (Some contents) b0 = Ret (true, b') /\ bloom_wf b' /\
    forall key, exists r, bloom_check b key = Ret (r, b) /\ bloom_check b' key = Ret (r, b').
Proof.
  intros Hb Hb0 Hbits Hh. destruct (bloom_conf_restore b b0 Hb Hb0 Hbits) as (contents & E & Hl & Ei & Hw).
  do 2 eexists. split_and!; [done..|]. intros key. exists (if member b key then 1 else 0).
  destruct (bloom_check_add_spec b key false Hb) as (b1 & E1 & _ & _ & S1).
  destruct (bloom_check_add_spec _ key false Hw) as (b2 & E2 & _ & _ & S2).
  unfold bloom_check. rewrite E1, E2, S1, S2 by done. split; [done|]. unfold member, positions. cbn.
  by rewrite Hbits, Hh.
Qed.

(** *** Witnesses *)

Definition sample_bloom : bloom := Bloom 1000 (Z2double 0) 60 8 3 (Z2double 0) (Some (replicate 8 x00)) 1.

Lemma sample_bloom_wf : bloom_wf sample_bloom.
Proof. constructor; cbn; [lia|lia|lia|reflexivity|by eexists]. Qed.

Lemma bloom_no_false_negative_witness :
  exists b', foldM run_op [Add (sample_key 1); Check (sample_key 2); Add (sample_key 3)] sample_bloom = Ret b' /\
    bloom_check b' (sample_key 1) = Ret (1, b').
Proof. apply bloom_no_false_negative; [exact sample_bloom_wf|]. apply elem_of_cons. by left. Defined.

Lemma bloom_add_reports_witness :
  exists r b', bloom_check sample_bloom (sample_key 1) = Ret (r, sample_bloom) /\
    bloom_add sample_bloom (sample_key 1) = Ret (r, b') /\ bloom_check b' (sample_key 1) = Ret (1, b') /\ r <> 1.
Proof.
  destruct (bloom_add_reports_membership sample_bloom (sample_key 1) sample_bloom_wf) as (r & b' & E1 & E2 & E3 & Hr).
  exists r, b'. split; [exact E1|]. split; [exact E2|]. split; [exact E3|].
  intros H%Hr. vm_compute in H. discriminate.
Defined.

(** [log(error) = -1], enough for 1000 entries: 2081 bits and 2 hash functions. *)
Definition sample_log : spec_float -> spec_float := fun _ => S754_finite true 4503599627370496 (-52).

Lemma bloom_init_wf_witness :
  exists b, bloom_init sample_log true sample_bloom 1000 (Z2double 1) = Ret (0, b) /\ bloom_wf b /\ bits b = 2081.
Proof.
  eexists. assert (bloom_init sample_log true sample_bloom 1000 (Z2double 1) = Ret (0, _)) as E by (vm_compute; reflexivity).
  split; [exact E|]. split; [|reflexivity].
  exact (proj1 (bloom_init_wf sample_log true sample_bloom 1000 (Z2double 1) _ E eq_refl eq_refl)).
Defined.

Lemma bloom_conf_roundtrip_witness :
  exists contents b', bloom_conf_out sample_bloom = Ret contents /\
    bloom_init_conf (Some contents) sample_bloom = Ret (true, b') /\ bloom_wf b'.
Proof.
  destruct (bloom_conf_roundtrip sample_bloom sample_bloom sample_bloom_wf sample_bloom_wf eq_refl eq_refl)
    as (contents & b' & E1 & _ & E2 & Hw & _).
  exists contents, b'. split; [exact E1|]. split; [exact E2|exact Hw].
Defined.
