(* ===== verification/DList.v ===== *)
(** * Doubly linked lists in memory

    prototype/lrucache.h has two node types with the same pointer fields:
    [listnode] (a key) on the recency list and [hashnode] (a pointer to a
    [listnode]) on the hash chains.  This file holds the memory both live in,
    the pointer assignments the cache makes, and the representation predicate
    [dll] with the three surgeries: push in front, append at the end, unlink. *)

From S2P Require Import Prelude.

Abbreviation ptr := (option positive).

(** A node: its payload and its [next] and [front] pointers. *)
Record cell (A : Type) := Cell { val : A; next : ptr; front : ptr }.
Arguments Cell {A} val next front.
Arguments val {A} c.
Arguments next {A} c.
Arguments front {A} c.

Abbreviation heap A := (gmap positive (cell A)).

Section Memory.
Context {A : Type}.
Implicit Types (H : heap A) (p q : positive) (l : list positive).

(** Reading and writing through a pointer: a freed or null one is undefined. *)
Definition load (p : positive) H : outcome (cell A) :=
  match H !! p with Some c => Ret c | None => Undef end.

Definition deref (p : ptr) H : outcome (cell A) :=
  match p with Some p => load p H | None => Undef end.

Definition set_next (p : positive) (v : ptr) H : outcome (heap A) :=
  c ← load p H; Ret (<[p := Cell (val c) v (front c)]> H).

Definition set_front (p : positive) (v : ptr) H : outcome (heap A) :=
  c ← load p H; Ret (<[p := Cell (val c) (next c) v]> H).

(** [new]: an address that is not in use. *)
Definition new_addr H : positive := fresh (dom H : gset positive).

(** [if(t->front != NULL) t->front->next = t->next; else first = t->next;
     if(t->next != NULL) t->next->front = t->front; else last = t->front;]
    with the values assigned to [first] and [last], when they are. *)
Definition unlink (t : positive) H : outcome (heap A * option ptr * option ptr) :=
  c ← load t H;
  '(H, first) ←
    match front c with
    | Some f => H' ← set_next f (next c) H; Ret (H', None)
    | None => Ret (H, Some (next c))
    end;
  c ← load t H;
  '(H, last) ←
    match next c with
    | Some x => H' ← set_front x (front c) H; Ret (H', None)
    | None => Ret (H, Some (front c))
    end;
  Ret (H, first, last).

(** ** Representation *)

Definition prev l (i : nat) : ptr := match i with O => None | S j => l !! j end.

(** The nodes of [l], in order, are linked both ways and end in null. *)
Definition dll H l : Prop :=
  NoDup l /\ forall i p, l !! i = Some p -> exists v, H !! p = Some (Cell v (l !! S i) (prev l i)).

Definition val_at H p : option A := val <$> H !! p.

Lemma dll_nil H : dll H [].
Proof. split; [constructor|]. done. Qed.

Lemma dll_frame H H' l : dll H l -> (forall p, p ∈ l -> H' !! p = H !! p) -> dll H' l.
Proof.
  intros [Hn Hd] Hf. split; [done|]. intros i p Hi. rewrite Hf by (by eapply list_elem_of_lookup_2). auto.
Qed.

Lemma dll_cell H l i p : dll H l -> l !! i = Some p -> exists v, load p H = Ret (Cell v (l !! S i) (prev l i)) /\
  val_at H p = Some v.
Proof.
  intros [_ Hd] Hi. destruct (Hd i p Hi) as [v Hv]. exists v. unfold load, val_at. by rewrite Hv.
Qed.

Lemma dll_fresh H l : dll H l -> new_addr H ∉ l.
Proof.
  intros [_ Hd] Hin. apply list_elem_of_lookup in Hin as [i Hi]. destruct (Hd i _ Hi) as [v Hv].
  apply (is_fresh (dom H : gset positive)). apply elem_of_dom. eexists. exact Hv.
Qed.

Lemma new_addr_None H : H !! new_addr H = None.
Proof. apply (not_elem_of_dom (D:=gset positive)). exact (is_fresh (dom H : gset positive)). Qed.

Lemma val_at_insert_ne H p q c : p <> q -> val_at (<[q := c]> H) p = val_at H p.
Proof. intros. unfold val_at. by rewrite lookup_insert_ne. Qed.

(** Writing a pointer field of an existing node changes no payload. *)
Lemma set_next_spec H p v c : H !! p = Some c ->
  set_next p v H = Ret (<[p := Cell (val c) v (front c)]> H).
Proof. intros Hp. unfold set_next, load. by rewrite Hp. Qed.

Lemma set_front_spec H p v c : H !! p = Some c ->
  set_front p v H = Ret (<[p := Cell (val c) (next c) v]> H).
Proof. intros Hp. unfold set_front, load. by rewrite Hp. Qed.

Lemma val_at_relink H p c nx fr q : H !! p = Some c -> val_at (<[p := Cell (val c) nx fr]> H) q = val_at H q.
Proof.
  intros Hp. unfold val_at. destruct (decide (p = q)) as [->|Hne].
  - by rewrite lookup_insert_eq, Hp.
  - by rewrite lookup_insert_ne.
Qed.

(** *** Push in front *)

Lemma dll_push H l p v :
  dll H l -> H !! p = None ->
  exists H', match l with [] => Ret (<[p := Cell v (head l) None]> H)
             | q :: _ => set_front q (Some p) (<[p := Cell v (head l) None]> H) end = Ret H' /\
    dll H' (p :: l) /\ val_at H' p = Some v /\ (forall q, q <> p -> val_at H' q = val_at H q) /\
    (forall q, q ∉ p :: l -> H' !! q = H !! q) /\ dom H' = {[p]} ∪ dom H.
Proof.
  intros [Hnd Hd] Hp.
  assert (p ∉ l) as Hpl.
  { intros [i Hi]%list_elem_of_lookup. destruct (Hd i p Hi). congruence. }
  destruct l as [|q l].
  - eexists. split; [done|]. split_and!.
    + split; [by repeat constructor; set_solver|]. intros [|i] p' [=]; subst. eexists. by rewrite lookup_insert_eq.
    + unfold val_at. by rewrite lookup_insert_eq.
    + intros. by apply val_at_insert_ne.
    + intros q Hq. rewrite lookup_insert_ne; [done|set_solver].
    + set_solver.
  - destruct (Hd 0%nat q eq_refl) as [w Hw]. assert (q <> p) as Hqp by set_solver.
    rewrite (set_front_spec _ q _ (Cell w (l !! 0%nat) None)) by (rewrite lookup_insert_ne by done; exact Hw).
    cbn [val next]. eexists. split; [done|]. split_and!.
    + split; [by constructor|]. intros [|[|i]] p' Hi; cbn in Hi.
      * injection Hi as <-. exists v. by rewrite lookup_insert_ne, lookup_insert_eq.
      * injection Hi as <-. exists w. by rewrite lookup_insert_eq.
      * assert (p' <> q).
        { apply NoDup_cons in Hnd as [Hq _]. intros ->. apply Hq. by eapply list_elem_of_lookup_2. }
        assert (p' <> p).
        { intros ->. apply Hpl. right. by eapply list_elem_of_lookup_2. }
        destruct (Hd (S i) p' Hi) as [u Hu]. exists u. by rewrite !lookup_insert_ne.
    + unfold val_at. by rewrite lookup_insert_ne, lookup_insert_eq.
    + intros q' Hq'. erewrite (val_at_relink _ q (Cell w (l !! 0%nat) None)).
      * by apply val_at_insert_ne.
      * by rewrite lookup_insert_ne.
    + intros q' Hq'. rewrite !lookup_insert_ne; [done|set_solver..].
    + assert (q ∈ dom H) by (apply elem_of_dom; eauto). set_solver.
Qed.

(** *** Append at the end *)

Lemma dll_snoc H l q p v :
  dll H l -> last l = Some q -> H !! p = None ->
  exists H', set_next q (Some p) (<[p := Cell v None (Some q)]> H) = Ret H' /\
    dll H' (l ++ [p]) /\ val_at H' p = Some v /\ (forall r, r <> p -> val_at H' r = val_at H r) /\
    (forall r, r ∉ l ++ [p] -> H' !! r = H !! r).
Proof.
  intros [Hnd Hd] Hq Hp. rewrite last_lookup in Hq. destruct (Hd _ q Hq) as [w Hw].
  assert (p ∉ l) as Hpl.
  { intros [i Hi]%list_elem_of_lookup. destruct (Hd i p Hi). congruence. }
  assert (q <> p) as Hqp by (intros ->; apply Hpl; by eapply list_elem_of_lookup_2).
  assert (0 < length l)%nat as Hlen by (destruct l; [done|cbn; lia]).
  rewrite (set_next_spec _ q _ _ ltac:(by rewrite lookup_insert_ne)). cbn [val front]. eexists. split; [done|].
  split_and!.
  - split; [apply NoDup_app; split_and!; [done|set_solver|apply NoDup_singleton]|].
    intros i p' Hi. destruct (decide (i = length l)) as [->|Hne].
    + rewrite lookup_app_r, Nat.sub_diag in Hi by lia. injection Hi as <-. exists v.
      rewrite lookup_insert_ne, lookup_insert_eq by done. do 2 f_equal.
      * symmetry. apply lookup_ge_None. rewrite length_app. cbn. lia.
      * destruct (length l) as [|n] eqn:E; [lia|]. cbn [prev]. rewrite lookup_app_l by lia. by rewrite <- Hq.
    + assert (i < length l)%nat as Hil.
      { apply lookup_lt_Some in Hi. rewrite length_app in Hi. cbn in Hi. lia. }
      rewrite lookup_app_l in Hi by done. destruct (Hd i p' Hi) as [u Hu].
      assert (prev (l ++ [p]) i = prev l i) as Hpr by (destruct i; [done|]; cbn; apply lookup_app_l; lia).
      destruct (decide (S i = length l)) as [Ei|Ei].
      * assert (p' = q) as ->.
        { rewrite <- Ei in Hq. cbn [pred] in Hq. congruence. }
        rewrite lookup_insert_eq. exists w. rewrite Hpr. rewrite Hw in Hu. injection Hu as -> Hx Hf.
        do 2 f_equal; [|by rewrite <- Ei in *]. rewrite lookup_app_r by lia. by rewrite Ei, Nat.sub_diag.
      * exists u. rewrite !lookup_insert_ne.
        -- rewrite Hu, Hpr. do 2 f_equal. rewrite lookup_app_l; [done|lia].
        -- intros ->. apply Hpl. by eapply list_elem_of_lookup_2.
        -- intros ->. assert (i = pred (length l)) by (by eapply NoDup_lookup). lia.
  - unfold val_at. by rewrite lookup_insert_ne, lookup_insert_eq.
  - intros r Hr. unfold val_at. destruct (decide (r = q)) as [->|].
    + by rewrite lookup_insert_eq, Hw.
    + by rewrite !lookup_insert_ne.
  - intros r Hr. rewrite !lookup_insert_ne; [done|set_solver|].
    intros ->. apply Hr, elem_of_app. left. by eapply list_elem_of_lookup_2.
Qed.

(** *** Unlink *)

(** What [unlink] leaves in the nodes other than [t]. *)
Definition unlinked l (i j : nat) : ptr * ptr :=
  (if decide (S j = i) then l !! S i else l !! S j, if decide (j = S i) then prev l i else prev l j).

Lemma unlinked_delete l i j :
  j <> i -> let k := if decide (j < i)%nat then j else pred j in
  unlinked l i j = (delete i l !! S k, prev (delete i l) k).
Proof.
  intros Hne. cbn. unfold unlinked. destruct (decide (j < i)%nat) as [Hlt|Hge].
  - destruct (decide (j = S i)); [lia|]. f_equal.
    + destruct (decide (S j = i)) as [<-|].
      * by rewrite list_lookup_delete_ge by lia.
      * by rewrite list_lookup_delete_lt by lia.
    + destruct j; [done|]. cbn. by rewrite list_lookup_delete_lt by lia.
  - destruct j as [|j]; [lia|]. cbn [pred]. destruct (decide (S (S j) = i)); [lia|]. f_equal.
    + by rewrite list_lookup_delete_ge by lia.
    + destruct (decide (S j = S i)) as [[= ->]|].
      * destruct i; [done|]. cbn. by rewrite list_lookup_delete_lt by lia.
      * destruct j; [lia|]. cbn. by rewrite list_lookup_delete_ge by lia.
Qed.

(** [unlink] only changes pointer fields of neighbours. *)
Lemma unlink_run H l (i : nat) t :
  dll H l -> l !! i = Some t ->
  exists H', unlink t H = Ret (H', match i with O => Some (l !! 1%nat) | S _ => None end,
                               if decide (S i < length l)%nat then None else Some (prev l i)) /\
    (forall p, val_at H' p = val_at H p) /\ (forall p, p ∉ l -> H' !! p = H !! p) /\ dom H' = (dom H : gset positive) /\
    (forall j p, l !! j = Some p -> j <> i -> exists v, H' !! p = Some (Cell v (unlinked l i j).1 (unlinked l i j).2)).
Proof.
  intros [Hnd Hd] Hi. destruct (Hd i t Hi) as [v Ht]. unfold unlink, load. rewrite Ht. cbn [mbind outcome_bind front next].
  assert (forall j k p, l !! j = Some p -> l !! k = Some p -> j = k) as Hinj by (intros; by eapply NoDup_lookup).
  set (H1 := match prev l i with Some f => match H !! f with Some c => <[f := Cell (val c) (l !! S i) (front c)]> H
             | None => H end | None => H end).
  assert (forall p, val_at H1 p = val_at H p) as Hv1.
  { intros p. subst H1. destruct (prev l i) as [f|]; [|done]. destruct (H !! f) eqn:E; [|done]. by apply val_at_relink. }
  assert (dom H1 = (dom H : gset positive)) as Hdom1.
  { subst H1. destruct (prev l i) as [f|]; [|done]. destruct (H !! f) eqn:E; [|done].
    assert (f ∈ dom H) by (apply elem_of_dom; eauto). set_solver. }
  assert (forall j p, l !! j = Some p -> exists w,
    H1 !! p = Some (Cell w (if decide (S j = i) then l !! S i else l !! S j) (prev l j))) as Hd1.
  { intros j p Hj. destruct (Hd j p Hj) as [w Hw]. subst H1. destruct i as [|i']; cbn [prev].
    - destruct (decide (S j = 0%nat)); [lia|]. eauto.
    - destruct (l !! i') as [f|] eqn:Hf; [|apply lookup_ge_None in Hf; apply lookup_lt_Some in Hi; lia].
      destruct (Hd i' f Hf) as [u Hu]. rewrite Hu. cbn [val front].
      destruct (decide (S j = S i')) as [[= ->]|Hne].
      + assert (p = f) as -> by congruence. rewrite lookup_insert_eq. eauto.
      + rewrite lookup_insert_ne; [eauto|]. intros ->. apply Hne. f_equal. by eapply Hinj. }
  assert (forall p, p ∉ l -> H1 !! p = H !! p) as Hout1.
  { intros p Hp. subst H1. destruct i as [|i']; [done|]. cbn [prev]. destruct (l !! i') as [f|] eqn:Hf; [|done].
    destruct (H !! f); [|done]. rewrite lookup_insert_ne; [done|]. intros ->. apply Hp. by eapply list_elem_of_lookup_2. }
  assert (match prev l i with
    | Some f => H' ← set_next f (l !! S i) H; Ret (H', None)
    | None => Ret (H, Some (l !! S i)) end = Ret (H1, match i with O => Some (l !! 1%nat) | S _ => None end)) as ->.
  { subst H1. destruct i as [|i']; [done|]. cbn [prev].
    destruct (l !! i') as [f|] eqn:Hf; [|apply lookup_ge_None in Hf; apply lookup_lt_Some in Hi; lia].
    destruct (Hd i' f Hf) as [u Hu]. rewrite Hu. by rewrite (set_next_spec _ _ _ _ Hu). }
  run. destruct (Hd1 i t Hi) as [v' Ht1]. rewrite Ht1. cbn [mbind outcome_bind next front].
  destruct (decide (S i = i)); [lia|].
  destruct (decide (S i < length l)%nat) as [Hlt|Hge].
  - destruct (lookup_lt_is_Some_2 l _ Hlt) as [x Hx]. rewrite Hx. destruct (Hd1 _ _ Hx) as [u Hu].
    rewrite (set_front_spec _ _ _ _ Hu). cbn [mbind outcome_bind val next]. eexists. split_and!; [done| | | |].
    + intros p. rewrite <- Hv1. exact (val_at_relink H1 x _ _ _ p Hu).
    + intros p Hp. rewrite lookup_insert_ne; [auto|]. intros ->. apply Hp. by eapply list_elem_of_lookup_2.
    + assert (x ∈ dom H1) by (apply elem_of_dom; eauto). set_solver.
    + intros j p Hj Hji. unfold unlinked. cbn [fst snd]. destruct (decide (j = S i)) as [->|Hne].
      * assert (p = x) as -> by congruence. rewrite lookup_insert_eq. eauto.
      * rewrite lookup_insert_ne; [eauto|]. intros ->. apply Hne. by eapply Hinj.
  - assert (l !! S i = None) as -> by (apply lookup_ge_None; lia). exists H1. split_and!; try done.
    intros j p Hj Hji. destruct (Hd1 j p Hj) as [w Hw]. exists w. unfold unlinked. cbn [fst snd].
    destruct (decide (j = S i)) as [->|]; [apply lookup_lt_Some in Hj; lia|]. done.
Qed.

Lemma NoDup_delete_list l i : NoDup l -> NoDup (delete i l).
Proof. intros Hnd. by eapply sublist_NoDup, sublist_delete. Qed.

(** Unlinking and freeing node [i] removes it from the list. *)
Lemma unlink_spec H l i t :
  dll H l -> l !! i = Some t ->
  exists H' first last', unlink t H = Ret (H', first, last') /\
    (forall p, val_at H' p = val_at H p) /\ (forall p, p ∉ l -> H' !! p = H !! p) /\ dom H' = (dom H : gset positive) /\
    dll (delete t H') (delete i l) /\
    default (head l) first = head (delete i l) /\ default (last l) last' = last (delete i l).
Proof.
  intros Hdll Hi. destruct (unlink_run H l i t Hdll Hi) as (H' & -> & Hv & Hout & Hdom & Hcells).
  do 3 eexists. split_and!; [done..| | |].
  - destruct Hdll as [Hnd _]. split; [by apply NoDup_delete_list|]. intros k p Hk.
    set (j := if decide (k < i)%nat then k else S k).
    assert (l !! j = Some p /\ j <> i) as [Hj Hji].
    { subst j. destruct (decide (k < i)%nat).
      - rewrite list_lookup_delete_lt in Hk by lia. split; [done|lia].
      - rewrite list_lookup_delete_ge in Hk by lia. split; [done|lia]. }
    destruct (Hcells j p Hj Hji) as [v Hc]. exists v. rewrite lookup_delete_ne.
    + rewrite Hc, unlinked_delete by done. cbn [fst snd].
      replace (if decide (j < i)%nat then j else pred j) with k; [done|]. subst j.
      destruct (decide (k < i)%nat), (decide _); cbn; lia.
    + intros ->. apply Hji. by eapply NoDup_lookup.
  - destruct i as [|i]; cbn.
    + destruct l as [|a l]; [done|]. cbn. by destruct l.
    + destruct l as [|a l]; [done|]. done.
  - rewrite !last_lookup, length_delete by (by eexists). apply lookup_lt_Some in Hi as Hlt.
    destruct (decide (S i < length l)%nat); cbn.
    + rewrite list_lookup_delete_ge by lia. f_equal. lia.
    + replace i with (pred (length l)) by lia. destruct (length l) as [|[|n0]] eqn:E; cbn; [lia| |].
      * symmetry. apply lookup_ge_None. rewrite length_delete, E; [done|].
        replace i with 0%nat in Hi by lia. eauto.
      * rewrite list_lookup_delete_lt by lia. done.
Qed.
End Memory.

#[global] Arguments new_addr : simpl never.
#[global] Arguments unlink : simpl never.
