(* ===== verification/LruCache.v ===== *)
(** * The fingerprint cache (prototype/lrucache.cc)

    The cache at the level the code works at: recency nodes and hash nodes in
    two heaps, 5,000,000 hash chains, [head] and [back] pointers, and every
    pointer assignment of the source.  The refinement theorem states that on
    any sequence of [find] and [putdata] calls this structure is memory safe
    and behaves as a list of fingerprints, most recent first, of bounded
    length. *)

From stdpp Require Import functions.
From S2P Require Import Prelude BitText DList.

Definition HASH_SIZE : Z := 5000000.

(** [class lrucache]; an absent [hash_table] slot is NULL.  A [listnode]'s
    payload is its [hash_key], a [hashnode]'s its [list_pos]. *)
Record lrucache := Lru {
  max_cache_size : Z;
  now_cache_size : Z;
  listnodes : heap bytes;
  hashnodes : heap positive;
  hash_table : gmap Z positive;
  head_ : ptr;
  back_ : ptr;
}.

(** The constructor [lrucache(size)]; the default constructor is size 0. *)
Definition lru_new (size : Z) : lrucache := Lru size 0 ∅ ∅ ∅ None None.

Definition set_max_size (size : Z) (s : lrucache) : lrucache :=
  Lru size (now_cache_size s) (listnodes s) (hashnodes s) (hash_table s) (head_ s) (back_ s).

(** [str_hash]: [key = key * 5 + *(str + i)] with a signed [char], in
    [unsigned long]; [abs] is the identity on the remainder. *)
Definition str_hash (str : bytes) : Z :=
  foldl (fun key c => u64 (key * 5 + sb c)) 0 (take FP_SIZE str) mod HASH_SIZE.

(** ** Hash chains *)

(** Walk a chain for the first node whose fingerprint equals [str].  The walk
    visits every node at most once, so the number of nodes is enough fuel; a
    cyclic chain would never end. *)
Fixpoint walk (fuel : nat) (q : ptr) (str : bytes) (L : heap bytes) (H : heap positive) : outcome ptr :=
  match q with
  | None => Ret None
  | Some a =>
      match fuel with
      | O => Undef
      | S fuel' =>
          h ← load a H;
          n ← load (val h) L;
          if strncmp FP_SIZE (val n) str =? 0 then Ret (Some a) else walk fuel' (next h) str L H
      end
  end.

(** [while(q->next != NULL) q = q->next;] *)
Fixpoint chain_end (fuel : nat) (a : positive) (H : heap positive) : outcome positive :=
  match fuel with
  | O => Undef
  | S fuel' => h ← load a H; match next h with Some b => chain_end fuel' b H | None => Ret a end
  end.

Definition insert_hash (str : bytes) (p : positive) (H : heap positive) (T : gmap Z positive) :
  outcome (bool * heap positive * gmap Z positive) :=
  let pos := str_hash str in
  match T !! pos with
  | None =>
      let q := new_addr H in
      Ret (true, <[q := Cell p None None]> H, <[pos := q]> T)
  | Some q =>
      q ← chain_end (size H) q H;
      let t := new_addr H in
      H ← set_next q (Some t) (<[t := Cell p None (Some q)]> H);
      Ret (true, H, T)
  end.

(** [hash_table[pos] = v] *)
Definition set_slot (pos : Z) (v : ptr) (T : gmap Z positive) : gmap Z positive := partial_alter (fun _ => v) pos T.

Definition delete_hash (str : bytes) (L : heap bytes) (H : heap positive) (T : gmap Z positive) :
  outcome (bool * heap positive * gmap Z positive) :=
  let pos := str_hash str in
  q ← walk (size H) (T !! pos) str L H;
  match q with
  | None => Ret (false, H, T)
  | Some t =>
      '(H, first, _) ← unlink t H;
      let T := match first with Some v => set_slot pos v T | None => T end in
      Ret (true, delete t H, T)
  end.

(** ** The recency list *)

(** [delete_node(p)] *)
Definition delete_node (p : ptr) (s : lrucache) : outcome (bool * lrucache) :=
  let now := now_cache_size s - 1 in
  match p with
  | None => Ret (false, Lru (max_cache_size s) now (listnodes s) (hashnodes s) (hash_table s) (head_ s) (back_ s))
  | Some t =>
      '(L, first, last) ← unlink t (listnodes s);
      let head := default (head_ s) first in
      let back := default (back_ s) last in
      n ← load t L;
      '(_, H, T) ← delete_hash (val n) L (hashnodes s) (hash_table s);
      Ret (true, Lru (max_cache_size s) now (delete t L) H T head back)
  end.

(** [add_node_to_head(str)]: the node is linked in front; a full cache then
    drops its last node, whose decrement the increment undoes. *)
Definition add_node_to_head (str : bytes) (s : lrucache) : outcome (bool * lrucache) :=
  let q := new_addr (listnodes s) in
  let L := <[q := Cell (take FP_SIZE str) (head_ s) None]> (listnodes s) in
  '(L, back) ←
    match head_ s with
    | None => Ret (L, Some q)
    | Some h => L ← set_front h (Some q) L; Ret (L, back_ s)
    end;
  '(_, H, T) ← insert_hash str q (hashnodes s) (hash_table s);
  let s' := Lru (max_cache_size s) (now_cache_size s) L H T (Some q) back in
  if now_cache_size s <? max_cache_size s then
    Ret (true, Lru (max_cache_size s') (now_cache_size s' + 1) L H T (Some q) back)
  else
    '(_, s') ← delete_node back s';
    Ret (true, Lru (max_cache_size s') (now_cache_size s' + 1) (listnodes s') (hashnodes s')
                   (hash_table s') (head_ s') (back_ s')).

(** [find_hash(str, result)]: a hit is moved to the front, with the key that
    was asked for. *)
Definition find_hash (str : bytes) (s : lrucache) : outcome (bool * ptr * lrucache) :=
  q ← walk (size (hashnodes s)) (hash_table s !! str_hash str) str (listnodes s) (hashnodes s);
  match q with
  | None => Ret (false, None, s)
  | Some a =>
      h ← load a (hashnodes s);
      '(_, s) ← delete_node (Some (val h)) s;
      '(_, s) ← add_node_to_head str s;
      Ret (true, head_ s, s)
  end.

Definition find (str : bytes) (s : lrucache) : outcome (bool * lrucache) :=
  '(flag, _, s) ← find_hash str s; Ret (flag, s).

Definition putdata (str : bytes) (s : lrucache) : outcome (bool * lrucache) :=
  '(hit, s) ← find str s;
  if hit : bool then Ret (false, s) else add_node_to_head str s.

(** ** Persistence *)

(** [for (listnode *p = head; p != NULL; p = p->next)] *)
Fixpoint list_keys (fuel : nat) (p : ptr) (L : heap bytes) : outcome (list bytes) :=
  match p with
  | None => Ret []
  | Some a =>
      match fuel with
      | O => Undef
      | S fuel' => n ← load a L; l ← list_keys fuel' (next n) L; Ret (val n :: l)
      end
  end.

(** [output_conf]: the file's contents, the return value, and the cache, in
    whose memory the node of the unused [new listnode] stays allocated. *)
Definition output_conf (s : lrucache) : outcome (bytes * bool * lrucache) :=
  let p := new_addr (listnodes s) in
  let L := <[p := Cell (replicate FP_SIZE x00) None None]> (listnodes s) in
  ks ← list_keys (size L) (head_ s) L;
  Ret (concat (print_fp_line <$> ks), negb (length ks =? 0)%nat,
       Lru (max_cache_size s) (now_cache_size s) L (hashnodes s) (hash_table s) (head_ s) (back_ s)).

(** [init_conf]: one [add_node_to_head] per line of the file. *)
Definition init_line (line : bytes) (s : lrucache) : outcome lrucache :=
  data ← read_bytes FP_SIZE 0 line;
  '(_, s) ← add_node_to_head data s;
  Ret s.

Definition init_conf (conf : option bytes) (s : lrucache) : outcome (bool * lrucache) :=
  match conf with
  | None => Ret (false, s)
  | Some contents => s ← foldM init_line (getlines contents) s; Ret (true, s)
  end.

(** The destructor: every node is deleted through [delete_node]. *)
Fixpoint free_list (fuel : nat) (p : ptr) (s : lrucache) : outcome lrucache :=
  match p with
  | None => Ret s
  | Some a =>
      match fuel with
      | O => Undef
      | S fuel' =>
          n ← load a (listnodes s);
          '(ok, s) ← delete_node (Some a) s;
          if ok : bool then free_list fuel' (next n) s else Exit 1
      end
  end.

Fixpoint free_chain (fuel : nat) (q : ptr) (H : heap positive) : outcome (heap positive) :=
  match q with
  | None => Ret H
  | Some a =>
      match fuel with
      | O => Undef
      | S fuel' => h ← load a H; free_chain fuel' (next h) (delete a H)
      end
  end.

Definition destroy (s : lrucache) : outcome lrucache :=
  s ← free_list (size (listnodes s)) (head_ s) s;
  H ← foldM (fun e H => free_chain (size H) (Some (snd e)) H) (map_to_list (hash_table s)) (hashnodes s);
  Ret (Lru 0 0 (listnodes s) H ∅ None None).

(** ** Abstract cache: fingerprints, most recent first *)

(** Two fingerprints the cache cannot tell apart. *)
Definition keq (k1 k2 : bytes) : Prop := str_hash k1 = str_hash k2 /\ strncmp FP_SIZE k1 k2 = 0.

#[global] Instance keq_dec : RelDecision keq.
Proof. intros k1 k2. unfold keq. apply _. Defined.

Definition known (k : bytes) (ks : list bytes) : bool := existsb (fun k' => bool_decide (keq k' k)) ks.

Definition forget (k : bytes) (ks : list bytes) : list bytes := filter (fun k' => ~ keq k' k) ks.

(** [find]: a hit moves to the front. *)
Definition abs_find (k : bytes) (ks : list bytes) : bool * list bytes :=
  if known k ks then (true, k :: forget k ks) else (false, ks).

(** [putdata]: a hit moves to the front, a miss enters there. *)
Definition abs_put (cap : nat) (k : bytes) (ks : list bytes) : bool * list bytes :=
  if known k ks then (false, k :: forget k ks) else (true, take cap (k :: ks)).

(** ** Representation *)

(** A cached fingerprint with the addresses of its two nodes. *)
Record entry := Ent { pa : positive; ha : positive; ky : bytes }.

Definition keys_ok (L : heap bytes) (G : list entry) : Prop :=
  forall e, e ∈ G -> val_at L (pa e) = Some (ky e).

Definition bucket (pos : Z) (G : list entry) : list entry := filter (fun e => str_hash (ky e) = pos) G.

(** The chains [ch] hold, in some order, the hash nodes of the entries. *)
Record hrep (H : heap positive) (T : gmap Z positive) (G : list entry) (ch : Z -> list positive) : Prop := {
  h_nodup : NoDup (ha <$> G);
  h_vals e : e ∈ G -> val_at H (ha e) = Some (pa e);
  h_dll pos : dll H (ch pos);
  h_slot pos : T !! pos = head (ch pos);
  h_bucket pos : ch pos ≡ₚ ha <$> bucket pos G;
}.

Definition distinct (G : list entry) : Prop :=
  forall e1 e2, e1 ∈ G -> e2 ∈ G -> keq (ky e1) (ky e2) -> e1 = e2.

(** The whole structure represents the entries [G], most recent first. *)
Record lru_rep (s : lrucache) (G : list entry) : Prop := {
  rep_dll : dll (listnodes s) (pa <$> G);
  rep_head : head_ s = head (pa <$> G);
  rep_back : back_ s = last (pa <$> G);
  rep_keys : keys_ok (listnodes s) G;
  rep_hash : exists ch, hrep (hashnodes s) (hash_table s) G ch;
  rep_distinct : distinct G;
  rep_len e : e ∈ G -> length (ky e) = FP_SIZE;
}.

(** The cache as its clients see it. *)
Definition lru_ok (s : lrucache) (ks : list bytes) : Prop :=
  exists G, lru_rep s G /\ ky <$> G = ks /\ now_cache_size s = Z.of_nat (length ks) /\
    Z.of_nat (length ks) <= max_cache_size s.

(** *** Chains *)

Lemma dll_length {A} (H : heap A) l : dll H l -> (length l <= size H)%nat.
Proof.
  intros [Hnd Hd]. rewrite <- (size_dom (D:=gset positive)), <- (size_list_to_set (C:=gset positive) l) by done.
  apply subseteq_size. intros p Hp%elem_of_list_to_set. apply list_elem_of_lookup in Hp as [i Hi].
  destruct (Hd i p Hi). apply elem_of_dom. eauto.
Qed.

Lemma walk_chain fuel c i str L H :
  dll H c -> (forall h, h ∈ c -> exists p k, val_at H h = Some p /\ val_at L p = Some k) ->
  (length c - i <= fuel)%nat ->
  exists r, walk fuel (c !! i) str L H = Ret r /\
    match r with
    | None => forall h p k, h ∈ drop i c -> val_at H h = Some p -> val_at L p = Some k -> strncmp FP_SIZE k str <> 0
    | Some h => h ∈ c /\ exists p k, val_at H h = Some p /\ val_at L p = Some k /\ strncmp FP_SIZE k str = 0
    end.
Proof.
  intros Hc Hv. revert i. induction fuel as [|fuel IH]; intros i Hf.
  - rewrite lookup_ge_None_2 by lia. exists None. split; [done|]. rewrite drop_ge by lia. by intros h p k ?%not_elem_of_nil.
  - destruct (c !! i) as [a|] eqn:Hi.
    + apply list_elem_of_lookup_2 in Hi as Ha. destruct (Hv a Ha) as (p & k & Hp & Hk).
      destruct (dll_cell H c i a Hc Hi) as (v & Hl & Hv'). assert (v = p) as -> by congruence.
      cbn [walk]. rewrite Hl. cbn [mbind outcome_bind val next]. unfold load. unfold val_at in Hk.
      destruct (L !! p) as [n|] eqn:En; [|done]. cbn in Hk. injection Hk as <-. run.
      destruct (Z.eqb_spec (strncmp FP_SIZE (val n) str) 0) as [E|E].
      * eexists. split; [done|]. split; [done|]. exists p, (val n). unfold val_at at 2. by rewrite En.
      * destruct (IH (S i)) as (r & -> & Hr); [lia|]. eexists. split; [done|]. destruct r; [done|].
        intros h p' k'. rewrite (drop_S _ _ _ Hi). intros [->|Hh]%elem_of_cons; [|by eauto].
        intros Hp' Hk'. assert (p' = p) as -> by congruence. unfold val_at in Hk'. rewrite En in Hk'. by injection Hk' as <-.
    + exists None. split; [done|]. apply lookup_ge_None in Hi. rewrite drop_ge by lia. by intros h p k ?%not_elem_of_nil.
Qed.

Lemma chain_end_last fuel c i a H :
  dll H c -> c !! i = Some a -> (length c - i <= fuel)%nat ->
  exists x, chain_end fuel a H = Ret x /\ last c = Some x.
Proof.
  intros Hc. revert i a. induction fuel as [|fuel IH]; intros i a Hi Hf; [apply lookup_lt_Some in Hi; lia|].
  destruct (dll_cell H c i a Hc Hi) as (v & Hl & _). cbn [chain_end]. rewrite Hl. cbn [mbind outcome_bind next].
  destruct (c !! S i) as [b|] eqn:Hb; [apply (IH (S i)); [done|lia]|].
  exists a. split; [done|]. rewrite last_lookup, <- Hi. f_equal.
  apply lookup_ge_None in Hb. apply lookup_lt_Some in Hi. lia.
Qed.

Lemma in_bucket h pos G : h ∈ ha <$> bucket pos G <-> exists e, e ∈ G /\ ha e = h /\ str_hash (ky e) = pos.
Proof.
  unfold bucket. rewrite list_elem_of_fmap. setoid_rewrite list_elem_of_filter. naive_solver.
Qed.

Section Hash.
Context (L : heap bytes) (H : heap positive) (T : gmap Z positive) (G : list entry) (ch : Z -> list positive).
Hypotheses (Hrep : hrep H T G ch) (Hkeys : keys_ok L G).

Lemma chain_elem pos h : h ∈ ch pos <-> exists e, e ∈ G /\ ha e = h /\ str_hash (ky e) = pos.
Proof. by rewrite (h_bucket _ _ _ _ Hrep), in_bucket. Qed.

Lemma ha_inj e1 e2 : e1 ∈ G -> e2 ∈ G -> ha e1 = ha e2 -> e1 = e2.
Proof.
  intros [i Hi]%list_elem_of_lookup [j Hj]%list_elem_of_lookup E.
  assert (i = j) as ->; [|congruence]. eapply (NoDup_lookup _ _ _ (ha e1) (h_nodup _ _ _ _ Hrep)).
  - by rewrite list_lookup_fmap, Hi.
  - rewrite list_lookup_fmap, Hj. cbn. by f_equal.
Qed.

Lemma chains_disjoint pos pos' h : h ∈ ch pos -> h ∈ ch pos' -> pos = pos'.
Proof.
  rewrite !chain_elem. intros (e & He & E & <-) (e' & He' & E' & <-).
  by rewrite (ha_inj e e') by congruence.
Qed.

(** A walk of a bucket finds the entry that cannot be told apart from [str]. *)
Lemma walk_bucket str :
  exists r, walk (size H) (T !! str_hash str) str L H = Ret r /\
    match r with
    | None => forall e, e ∈ G -> ~ keq (ky e) str
    | Some h => exists e, e ∈ G /\ ha e = h /\ keq (ky e) str
    end.
Proof.
  pose proof (h_dll _ _ _ _ Hrep (str_hash str)) as Hd. set (c := ch (str_hash str)) in *.
  assert (forall h, h ∈ c -> exists e, e ∈ G /\ ha e = h /\ str_hash (ky e) = str_hash str /\
    val_at H h = Some (pa e) /\ val_at L (pa e) = Some (ky e)) as Hc.
  { intros h (e & He & <- & Es)%chain_elem. exists e. split_and!; try done; [by apply Hrep|by apply Hkeys]. }
  rewrite (h_slot _ _ _ _ Hrep). fold c. replace (head c) with (c !! 0%nat) by (by destruct c).
  destruct (walk_chain (size H) c 0 str L H Hd) as (r & -> & Hr).
  - intros h Hh. destruct (Hc h Hh) as (e & _ & _ & _ & ? & ?). eauto.
  - pose proof (dll_length H c Hd). lia.
  - exists r. split; [done|]. destruct r as [h|].
    + destruct Hr as (Hh & p & k & Hp & Hk & Hs). destruct (Hc h Hh) as (e & He & Eh & Es & Hp' & Hk').
      assert (p = pa e) as -> by congruence. assert (k = ky e) as -> by congruence.
      exists e. split_and!; done.
    + intros e He [Es Ek]. destruct (Hr (ha e) (pa e) (ky e)); try done; [|by apply Hrep|by apply Hkeys].
      rewrite drop_0. apply chain_elem. exists e. done.
Qed.

(** [delete_hash] of a present key removes its hash node. *)
Lemma delete_hash_spec i e :
  distinct G -> G !! i = Some e ->
  exists H' T' ch', delete_hash (ky e) L H T = Ret (true, H', T') /\ hrep H' T' (delete i G) ch'.
Proof.
  intros Hdist Hi. apply list_elem_of_lookup_2 in Hi as He. unfold delete_hash.
  destruct (walk_bucket (ky e)) as (r & -> & Hr). run.
  destruct r as [h|]; [|by destruct (Hr e He); split; [|apply strncmp_refl]].
  destruct Hr as (e' & He' & Eh & Hk). rewrite (Hdist e' e) in Eh by done. clear e' He' Hk.
  set (pos := str_hash (ky e)). assert (h ∈ ch pos) as [j Hj]%list_elem_of_lookup by (apply chain_elem; eauto).
  pose proof (h_dll _ _ _ _ Hrep pos) as Hd.
  destruct (unlink_spec H (ch pos) j h Hd Hj) as (H' & first & last' & -> & Hv & Hout & _ & Hd' & Hfirst & _).
  run. pose proof (delete_Permutation _ _ _ Hi) as HG.
  assert (NoDup (ha e :: (ha <$> delete i G))) as Hnd.
  { rewrite <- fmap_cons, <- HG. apply Hrep. }
  do 2 eexists. exists (<[pos := delete j (ch pos)]> ch). split; [done|].
  assert (forall pos', pos' <> pos -> forall p, p ∈ ch pos' -> p ∉ ch pos /\ p <> h) as Hoth.
  { intros pos' Hne p Hp. split.
    - intros Hp'. apply Hne. by eapply chains_disjoint.
    - intros ->. apply Hne. eapply chains_disjoint; [done|]. by eapply list_elem_of_lookup_2. }
  constructor.
  - by apply NoDup_cons in Hnd as [_ ?].
  - intros e' He'. assert (e' ∈ G) as HeG by (rewrite HG; by right).
    unfold val_at. rewrite lookup_delete_ne.
    + change (val_at H' (ha e') = Some (pa e')). rewrite Hv. by apply Hrep.
    + apply NoDup_cons in Hnd as [Hni _]. intros E. apply Hni. rewrite Eh, E. by apply list_elem_of_fmap_2.
  - intros pos'. destruct (decide (pos' = pos)) as [->|Hne]; [by rewrite fn_lookup_insert|].
    rewrite fn_lookup_insert_ne by done. eapply dll_frame; [apply Hrep|]. intros p Hp.
    destruct (Hoth pos' Hne p Hp). rewrite lookup_delete_ne by done. auto.
  - intros pos'. destruct (decide (pos' = pos)) as [->|Hne].
    + rewrite fn_lookup_insert, <- Hfirst. destruct first as [v|]; cbn; [|apply Hrep].
      unfold set_slot. by rewrite lookup_partial_alter_eq.
    + rewrite fn_lookup_insert_ne by done. rewrite <- (h_slot _ _ _ _ Hrep). destruct first as [v|]; [|done].
      unfold set_slot. by rewrite lookup_partial_alter_ne.
  - intros pos'. pose proof (h_bucket _ _ _ _ Hrep pos') as Hb.
    assert (bucket pos' G ≡ₚ bucket pos' (e :: delete i G)) as Hf by (unfold bucket; by rewrite <- HG).
    rewrite Hf in Hb. unfold bucket in Hb. rewrite filter_cons in Hb.
    destruct (decide (pos' = pos)) as [->|Hne].
    + rewrite fn_lookup_insert. rewrite decide_True in Hb by done. apply (Permutation_cons_inv (a:=h)).
      rewrite <- (delete_Permutation _ _ _ Hj), Hb. cbn. by rewrite Eh.
    + rewrite fn_lookup_insert_ne by done. rewrite decide_False in Hb by (intros <-; by apply Hne). done.
Qed.

(** [insert_hash] of any key adds a hash node for it. *)
Lemma insert_hash_spec p k :
  exists H' T' ch' h, insert_hash k p H T = Ret (true, H', T') /\ hrep H' T' (Ent p h k :: G) ch'.
Proof.
  set (pos := str_hash k). set (h := new_addr H).
  pose proof (h_dll _ _ _ _ Hrep pos) as Hd. pose proof (h_slot _ _ _ _ Hrep pos) as Hs.
  assert (exists H' T', insert_hash k p H T = Ret (true, H', T') /\ dll H' (ch pos ++ [h]) /\
    val_at H' h = Some p /\ (forall r, r <> h -> val_at H' r = val_at H r) /\
    (forall r, r ∉ ch pos ++ [h] -> H' !! r = H !! r) /\
    T' !! pos = head (ch pos ++ [h]) /\ (forall pos', pos' <> pos -> T' !! pos' = T !! pos'))
    as (H' & T' & E & Hd' & Hh & Hv & Hout & HT & HT').
  { unfold insert_hash. fold pos h. rewrite Hs. destruct (ch pos) as [|q c] eqn:Ec; cbn [head].
    - destruct (dll_push H [] h p (dll_nil H)) as (H' & [= <-] & Hd' & Hh & Hv & Hout & _); [apply new_addr_None|].
      do 2 eexists. split; [done|]. split_and!; try done; [by rewrite lookup_insert_eq|].
      intros pos' Hne. by rewrite lookup_insert_ne.
    - destruct (chain_end_last (size H) (q :: c) 0 q H Hd eq_refl) as (x & -> & Hx).
      { pose proof (dll_length H _ Hd). lia. }
      run.
      destruct (dll_snoc H (q :: c) x h p Hd Hx) as (H' & -> & Hd' & Hh & Hv & Hout); [apply new_addr_None|].
      run. do 2 eexists. split; [done|]. by split_and!. }
  exists H', T', (<[pos := ch pos ++ [h]]> ch), h. split; [done|].
  assert (forall e, e ∈ G -> ha e <> h) as Hfresh.
  { intros e He Eh. pose proof (h_vals _ _ _ _ Hrep e He) as Hval. unfold val_at in Hval. rewrite Eh in Hval.
    subst h. by rewrite new_addr_None in Hval. }
  constructor.
  - cbn. constructor; [|apply Hrep]. intros (e & E1 & He)%list_elem_of_fmap. by eapply Hfresh.
  - intros e [->|He]%elem_of_cons; cbn; [done|]. rewrite Hv by auto. by apply Hrep.
  - intros pos'. destruct (decide (pos' = pos)) as [->|Hne]; [by rewrite fn_lookup_insert|].
    rewrite fn_lookup_insert_ne by done. eapply dll_frame; [apply Hrep|]. intros r Hr. apply Hout.
    intros [Hr'| ->%list_elem_of_singleton]%elem_of_app.
    + apply Hne. by eapply chains_disjoint.
    + apply chain_elem in Hr as (e & He & Eh & _). by eapply Hfresh.
  - intros pos'. destruct (decide (pos' = pos)) as [->|Hne]; [by rewrite fn_lookup_insert|].
    rewrite fn_lookup_insert_ne, HT' by done. apply Hrep.
  - intros pos'. unfold bucket. rewrite filter_cons. cbn [ky]. fold pos.
    destruct (decide (pos' = pos)) as [->|Hne].
    + rewrite fn_lookup_insert, decide_True by done. cbn. rewrite <- Permutation_cons_append.
      apply Permutation_skip. apply (h_bucket _ _ _ _ Hrep).
    + rewrite fn_lookup_insert_ne, decide_False by done. apply (h_bucket _ _ _ _ Hrep).
Qed.
End Hash.

(** *** Nodes *)

Lemma sublist_elem {A} (l : list A) i x : x ∈ delete i l -> x ∈ l.
Proof. intros Hx. eapply sublist_subseteq; [apply sublist_delete|exact Hx]. Qed.

Lemma distinct_delete G i : distinct G -> distinct (delete i G).
Proof. intros Hd e1 e2 H1%sublist_elem H2%sublist_elem. by apply Hd. Qed.

Lemma keys_ok_delete L t G i e :
  keys_ok L G -> NoDup (pa <$> G) -> G !! i = Some e -> pa e = t -> keys_ok (delete t L) (delete i G).
Proof.
  intros Hk Hnd Hi <- e' He'. unfold val_at. rewrite lookup_delete_ne; [by apply Hk, (sublist_elem _ i)|].
  rewrite (delete_Permutation _ _ _ Hi) in Hnd. cbn in Hnd. apply NoDup_cons in Hnd as [Hni _].
  intros E. apply Hni. rewrite E. by apply list_elem_of_fmap_2.
Qed.

Lemma fmap_delete_list {A B} (f : A -> B) (l : list A) (i : nat) : f <$> delete i l = delete i (f <$> l).
Proof. revert i. induction l as [|x l IH]; intros [|i]; cbn; f_equal; auto. Qed.

Lemma delete_node_spec s G i e :
  lru_rep s G -> G !! i = Some e ->
  exists s', delete_node (Some (pa e)) s = Ret (true, s') /\ lru_rep s' (delete i G) /\
    now_cache_size s' = now_cache_size s - 1 /\ max_cache_size s' = max_cache_size s.
Proof.
  intros [Hd Hh Hb Hk (ch & Hhash) Hdist Hlen] Hi. unfold delete_node.
  assert ((pa <$> G) !! i = Some (pa e)) as Hpi by (by rewrite list_lookup_fmap, Hi).
  destruct (unlink_spec _ _ _ _ Hd Hpi) as (L & first & last' & -> & Hv & Hout & _ & Hd' & Hfirst & Hlast).
  run. apply list_elem_of_lookup_2 in Hi as He.
  assert (keys_ok L G) as HkL by (intros e' He'; rewrite Hv; auto).
  pose proof (HkL e He) as Hval. unfold val_at in Hval. unfold load.
  destruct (L !! pa e) as [n|]; [|done]. cbn in Hval. injection Hval as Hn. run. rewrite Hn.
  destruct (delete_hash_spec L _ _ G ch Hhash HkL i e Hdist Hi) as (H' & T' & ch' & -> & Hh').
  run. eexists. split; [done|]. split; [|done]. constructor; cbn.
  - by rewrite fmap_delete_list.
  - by rewrite fmap_delete_list, Hh.
  - by rewrite fmap_delete_list, Hb.
  - eapply keys_ok_delete; [done|apply Hd|done|done].
  - by exists ch'.
  - by apply distinct_delete.
  - intros e' He'%sublist_elem. auto.
Qed.

(** Linking a new fingerprint in front, before the size test. *)
Lemma add_front_spec s G str :
  lru_rep s G -> length str = FP_SIZE -> (forall e, e ∈ G -> ~ keq (ky e) str) ->
  exists e s1, ky e = str /\ lru_rep s1 (e :: G) /\ now_cache_size s1 = now_cache_size s /\
    max_cache_size s1 = max_cache_size s /\
    add_node_to_head str s =
      if now_cache_size s <? max_cache_size s then
        Ret (true, Lru (max_cache_size s1) (now_cache_size s1 + 1) (listnodes s1) (hashnodes s1) (hash_table s1)
                       (head_ s1) (back_ s1))
      else
        '(_, s') ← delete_node (back_ s1) s1;
        Ret (true, Lru (max_cache_size s') (now_cache_size s' + 1) (listnodes s') (hashnodes s')
                       (hash_table s') (head_ s') (back_ s')).
Proof.
  intros [Hd Hh Hb Hk (ch & Hhash) Hdist Hlen] Hstr Hnew.
  set (q := new_addr (listnodes s)).
  destruct (dll_push (listnodes s) (pa <$> G) q str Hd) as (L & EL & Hd' & Hq & Hv & _ & _); [apply new_addr_None|].
  destruct (insert_hash_spec _ _ _ ch Hhash q str) as (H' & T' & ch' & h & EH & Hh').
  exists (Ent q h str). exists (Lru (max_cache_size s) (now_cache_size s) L H' T' (Some q) (last (pa <$> Ent q h str :: G))).
  assert (q ∉ pa <$> G) as Hfresh by (by apply dll_fresh).
  split_and!; [done| |done|done|].
  - constructor; cbn [listnodes hashnodes hash_table head_ back_]; try done.
    + intros e [->|He]%elem_of_cons; [done|]. rewrite Hv; [by apply Hk|].
      intros E. apply Hfresh. rewrite <- E. by apply list_elem_of_fmap_2.
    + by exists ch'.
    + intros e1 e2 [->|H1]%elem_of_cons [->|H2]%elem_of_cons; cbn [ky]; auto.
      * intros [? ?]. destruct (Hnew e2 H2). split; [done|]. by apply strncmp_sym.
      * intros Hq'. by destruct (Hnew e1 H1).
    + intros e [->|He]%elem_of_cons; auto.
  - unfold add_node_to_head. fold q. rewrite take_ge by lia. rewrite Hh, Hb.
    destruct G as [|e0 G]; cbn [fmap list_fmap head] in EL |- *.
    + injection EL as <-. run. rewrite EH. done.
    + rewrite EL. run. rewrite EH. done.
Qed.

Lemma last_eq_lookup {A} (l : list A) n : length l = S n -> last l = l !! n.
Proof. intros E. by rewrite last_lookup, E. Qed.

Lemma delete_last_take {A} (l : list A) n : length l = S n -> delete n l = take n l.
Proof.
  intros E. rewrite delete_take_drop, drop_ge, app_nil_r by lia. done.
Qed.

Lemma add_node_spec s G str :
  lru_rep s G -> length str = FP_SIZE -> (forall e, e ∈ G -> ~ keq (ky e) str) ->
  now_cache_size s = Z.of_nat (length G) -> Z.of_nat (length G) <= max_cache_size s ->
  exists s' G', add_node_to_head str s = Ret (true, s') /\ lru_rep s' G' /\
    ky <$> G' = take (Z.to_nat (max_cache_size s)) (str :: (ky <$> G)) /\
    now_cache_size s' = Z.of_nat (length G') /\ max_cache_size s' = max_cache_size s.
Proof.
  intros Hrep Hstr Hnew Hnow Hmax.
  destruct (add_front_spec s G str Hrep Hstr Hnew) as (e & s1 & Ee & Hr1 & Hn1 & Hm1 & ->).
  destruct (Z.ltb_spec (now_cache_size s) (max_cache_size s)) as [Hlt|Hge].
  - eexists. exists (e :: G). split; [done|]. split_and!; cbn [now_cache_size max_cache_size length fmap list_fmap].
    + by destruct Hr1; constructor.
    + rewrite take_ge by (cbn; rewrite length_fmap; lia). by rewrite Ee.
    + lia.
    + done.
  - assert (length G = Z.to_nat (max_cache_size s)) as HG by lia.
    assert ((e :: G) !! length G = last (e :: G)) as Hlast by (symmetry; by apply last_eq_lookup).
    destruct (lookup_lt_is_Some_2 (e :: G) (length G)) as [d Hd]; [cbn; lia|].
    assert (back_ s1 = Some (pa d)) as ->.
    { rewrite (rep_back _ _ Hr1), last_lookup, length_fmap, list_lookup_fmap. cbn [pred length]. by rewrite Hd. }
    destruct (delete_node_spec s1 (e :: G) (length G) d Hr1 Hd) as (s2 & -> & Hr2 & Hn2 & Hm2).
    run. eexists. exists (delete (length G) (e :: G)). split; [done|].
    split_and!; cbn [now_cache_size max_cache_size].
    + by destruct Hr2; constructor.
    + rewrite delete_last_take, fmap_take, HG by done. cbn [fmap list_fmap]. by rewrite Ee.
    + rewrite length_delete by (by eexists). cbn [length]. lia.
    + congruence.
Qed.

(** ** The operations refine the abstract ones *)

Lemma known_spec k ks : known k ks = true <-> exists k', k' ∈ ks /\ keq k' k.
Proof.
  unfold known. rewrite existsb_exists. setoid_rewrite list_elem_of_In.
  split; intros (k' & H1 & H2); exists k'; split; auto; by apply bool_decide_eq_true in H2 || by apply bool_decide_eq_true.
Qed.

Lemma known_false k ks : known k ks = false <-> forall k', k' ∈ ks -> ~ keq k' k.
Proof. rewrite <- not_true_iff_false, known_spec. naive_solver. Qed.

(** Forgetting the one entry that matches. *)
Lemma forget_delete G i e k :
  distinct G -> NoDup G -> G !! i = Some e -> keq (ky e) k -> (forall e', e' ∈ G -> length (ky e') = FP_SIZE) ->
  length k = FP_SIZE ->
  forget k (ky <$> G) = ky <$> delete i G /\ (forall e', e' ∈ delete i G -> ~ keq (ky e') k).
Proof.
  intros Hd Hnd Hi Hk Hlen Lk.
  assert (forall e', e' ∈ G -> keq (ky e') k -> e' = e) as Huniq.
  { intros e' He' [E1 E2]. destruct Hk as [E3 E4]. apply Hd; [done|by eapply list_elem_of_lookup_2|]. split; [congruence|].
    apply (strncmp_trans _ _ k); auto using strncmp_sym. apply Hlen. by eapply list_elem_of_lookup_2. }
  assert (forall e', e' ∈ delete i G -> ~ keq (ky e') k) as Hrest.
  { intros e' He' Hk'. rewrite (delete_Permutation _ _ _ Hi) in Hnd. apply NoDup_cons in Hnd as [Hni _].
    rewrite (Huniq e') in He' by (done || by eapply sublist_elem). done. }
  split; [|done]. rewrite delete_take_drop, fmap_app. rewrite delete_take_drop in Hrest.
  rewrite <- (take_drop_middle _ _ _ Hi) at 1. unfold forget. rewrite fmap_app, filter_app. cbn [fmap list_fmap].
  rewrite filter_cons, decide_False by (intros Hn; by apply Hn). f_equal; apply filter_all.
  - intros x (e' & -> & He')%list_elem_of_fmap. apply Hrest, elem_of_app. by left.
  - intros x (e' & -> & He')%list_elem_of_fmap. apply Hrest, elem_of_app. by right.
Qed.

Lemma rep_nodup s G : lru_rep s G -> NoDup G.
Proof. intros Hr. destruct (rep_dll _ _ Hr) as [Hn _]. by apply NoDup_fmap_1 in Hn. Qed.

(** A cache, seen through [lru_ok], answers [find] as its list does. *)
Lemma find_ok s ks k :
  lru_ok s ks -> length k = FP_SIZE ->
  exists s', find k s = Ret (fst (abs_find k ks), s') /\ lru_ok s' (snd (abs_find k ks)) /\
    max_cache_size s' = max_cache_size s.
Proof.
  intros (G & Hrep & <- & Hnow & Hmax) Lk. rewrite length_fmap in Hnow, Hmax.
  unfold find, find_hash. destruct (rep_hash _ _ Hrep) as [ch Hh].
  destruct (walk_bucket _ _ _ G ch Hh (rep_keys _ _ Hrep) k) as (r & -> & Hr). run.
  unfold abs_find. destruct r as [h|].
  - destruct Hr as (e & He & <- & Hk).
    assert (known k (ky <$> G) = true) as -> by (apply known_spec; exists (ky e); split; [by apply list_elem_of_fmap_2|done]).
    pose proof (h_vals _ _ _ _ Hh e He) as Hval. unfold val_at in Hval. unfold load.
    destruct (hashnodes s !! ha e) as [c|]; [|done]. cbn in Hval. injection Hval as Hval. run. rewrite Hval.
    apply list_elem_of_lookup in He as [i Hi].
    destruct (delete_node_spec s G i e Hrep Hi) as (s1 & -> & Hr1 & Hn1 & Hm1). run.
    destruct (forget_delete G i e k (rep_distinct _ _ Hrep) (rep_nodup _ _ Hrep) Hi Hk (rep_len _ _ Hrep) Lk) as [Hfg Hno].
    assert (length (delete i G) = length G - 1)%nat as Hlen by (apply length_delete; by eexists).
    apply lookup_lt_Some in Hi as Hlt.
    destruct (add_node_spec s1 (delete i G) k Hr1 Lk Hno) as (s2 & G2 & -> & Hr2 & Hks & Hn2 & Hm2); [lia..|].
    cbn [mbind outcome_bind fst snd]. exists s2. split_and!; [done| |congruence].
    exists G2. split; [done|]. rewrite Hfg, Hks.
    rewrite take_ge by (cbn; rewrite length_fmap; lia). split; [done|].
    apply (f_equal length) in Hks. rewrite length_fmap, take_ge in Hks by (cbn; rewrite length_fmap; lia).
    cbn in Hks |- *. rewrite length_fmap in Hks |- *. lia.
  - assert (known k (ky <$> G) = false) as ->.
    { apply known_false. intros k' (e & -> & He)%list_elem_of_fmap. auto. }
    exists s. split_and!; [done| |done]. exists G. cbn [snd]. rewrite length_fmap. done.
Qed.

Lemma putdata_ok s ks k :
  lru_ok s ks -> length k = FP_SIZE ->
  exists s', putdata k s = Ret (fst (abs_put (Z.to_nat (max_cache_size s)) k ks), s') /\
    lru_ok s' (snd (abs_put (Z.to_nat (max_cache_size s)) k ks)) /\ max_cache_size s' = max_cache_size s.
Proof.
  intros Hok Lk. unfold putdata, abs_put. destruct (find_ok s ks k Hok Lk) as (s1 & -> & Hok1 & Hm1).
  unfold abs_find in *. destruct (known k ks) eqn:Hkn; cbn [fst snd mbind outcome_bind] in *; [by exists s1|].
  destruct Hok1 as (G & Hr & <- & Hnow & Hmax). rewrite length_fmap in Hnow, Hmax.
  destruct (add_node_spec s1 G k Hr Lk) as (s2 & G2 & -> & Hr2 & Hks & Hn2 & Hm2); [|lia..|].
  { intros e He. apply (proj1 (known_false _ _) Hkn). by apply list_elem_of_fmap_2. }
  exists s2. split_and!; [done| |congruence]. exists G2. rewrite Hm1 in Hks. split_and!; [done|done| |].
  - rewrite <- Hks, length_fmap. done.
  - rewrite length_take. lia.
Qed.

(** ** Histories *)

Inductive lru_op := Find (k : bytes) | Put (k : bytes).

Definition op_key (op : lru_op) : bytes := match op with Find k | Put k => k end.

(** The answers of a sequence of calls, and the cache after it. *)
Fixpoint lru_exec (ops : list lru_op) (s : lrucache) : outcome (list bool * lrucache) :=
  match ops with
  | [] => Ret ([], s)
  | op :: ops' =>
      '(b, s) ← match op with Find k => find k s | Put k => putdata k s end;
      '(bs, s) ← lru_exec ops' s;
      Ret (b :: bs, s)
  end.

Fixpoint abs_exec (cap : nat) (ops : list lru_op) (ks : list bytes) : list bool * list bytes :=
  match ops with
  | [] => ([], ks)
  | op :: ops' =>
      let '(b, ks) := match op with Find k => abs_find k ks | Put k => abs_put cap k ks end in
      let '(bs, ks) := abs_exec cap ops' ks in
      (b :: bs, ks)
  end.

Lemma lru_new_ok size : 0 <= size -> lru_ok (lru_new size) [].
Proof.
  intros Hs. exists []. split; [|by split_and!]. constructor; cbn.
  - apply dll_nil.
  - done.
  - done.
  - by intros e ?%not_elem_of_nil.
  - exists (fun _ => []). constructor.
    + constructor.
    + by intros e ?%not_elem_of_nil.
    + intros pos. apply dll_nil.
    + done.
    + done.
  - by intros e1 e2 ?%not_elem_of_nil.
  - by intros e ?%not_elem_of_nil.
Qed.

Lemma lru_exec_ok ops s ks :
  lru_ok s ks -> Forall (fun op => length (op_key op) = FP_SIZE) ops ->
  exists s', lru_exec ops s = Ret (fst (abs_exec (Z.to_nat (max_cache_size s)) ops ks), s') /\
    lru_ok s' (snd (abs_exec (Z.to_nat (max_cache_size s)) ops ks)) /\ max_cache_size s' = max_cache_size s.
Proof.
  intros Hok Hops. revert s ks Hok. induction Hops as [|op ops Hop _ IH]; intros s ks Hok.
  { exists s. done. }
  assert (exists s1 b ks1, match op with Find k => find k s | Put k => putdata k s end = Ret (b, s1) /\
    match op with Find k => abs_find k ks | Put k => abs_put (Z.to_nat (max_cache_size s)) k ks end = (b, ks1) /\
    lru_ok s1 ks1 /\ max_cache_size s1 = max_cache_size s) as (s1 & b & ks1 & E1 & E2 & Hok1 & Hm1).
  { destruct op as [k|k]; cbn in Hop.
    - destruct (find_ok s ks k Hok Hop) as (s1 & E & ? & ?). exists s1, (fst (abs_find k ks)), (snd (abs_find k ks)).
      split_and!; [exact E|by destruct (abs_find k ks)|done|done].
    - destruct (putdata_ok s ks k Hok Hop) as (s1 & E & ? & ?). set (r := abs_put _ k ks) in *.
      exists s1, (fst r), (snd r). split_and!; [exact E|by destruct r|done|done]. }
  cbn [lru_exec abs_exec]. rewrite E1, E2. run.
  destruct (IH s1 ks1 Hok1) as (s2 & -> & Hok2 & Hm2). rewrite Hm1 in *.
  destruct (abs_exec _ ops ks1) as [bs ks2]. exists s2. cbn in *. split_and!; [done|done|congruence].
Qed.

(** C23: refinement.  Any sequence of [find] and [putdata] calls on a cache
    built with capacity [size] runs without touching freed or null memory,
    returns the answers of the abstract list cache, and leaves a structure
    that represents that list; the list never exceeds the capacity. *)
Theorem lru_refines size ops :
  0 <= size -> Forall (fun op => length (op_key op) = FP_SIZE) ops ->
  exists s', lru_exec ops (lru_new size) = Ret (fst (abs_exec (Z.to_nat size) ops []), s') /\
    lru_ok s' (snd (abs_exec (Z.to_nat size) ops [])) /\
    (length (snd (abs_exec (Z.to_nat size) ops [])) <= Z.to_nat size)%nat.
Proof.
  intros Hs Hops. destruct (lru_exec_ok ops _ _ (lru_new_ok size Hs) Hops) as (s' & E & Hok & Hm).
  exists s'. split_and!; [done|done|]. destruct Hok as (G & _ & _ & _ & Hle). rewrite Hm in Hle. cbn in Hle. lia.
Qed.

(** ** Least recently used *)

(** Distinct fingerprints of a history, most recent use first. *)
Definition touch (k : bytes) (l : list bytes) : list bytes := k :: filter (fun k' => k' <> k) l.
Definition recency (hist : list bytes) : list bytes := foldr touch [] (rev hist).

Definition good_key (k : bytes) : Prop := nul_free k /\ length k = FP_SIZE.

Lemma keq_good k1 k2 : good_key k1 -> good_key k2 -> keq k1 k2 <-> k1 = k2.
Proof.
  intros [N1 L1] [_ L2]. split; [|by intros ->; split; [|apply strncmp_refl]].
  intros [_ E]. by apply (strncmp_nul_free FP_SIZE) in E.
Qed.

Lemma known_good k ks : good_key k -> Forall good_key ks -> known k ks = bool_decide (k ∈ ks).
Proof.
  intros Hk Hks. apply eq_true_iff_eq. rewrite known_spec, bool_decide_eq_true. split.
  - intros (k' & Hin & E). apply keq_good in E as <-; [done| |done]. by eapply Forall_forall in Hks.
  - intros Hin. exists k. split; [done|]. by apply keq_good.
Qed.

Lemma forget_good k ks : good_key k -> Forall good_key ks -> forget k ks = filter (fun k' => k' <> k) ks.
Proof.
  intros Hk. induction 1 as [|k' ks Hk' _ IH]; [done|]. unfold forget in *. rewrite !filter_cons, IH.
  destruct (decide (keq k' k)) as [E|E].
  - apply keq_good in E as E1; [|done..]. subst k'. rewrite !decide_False; [done|naive_solver..].
  - rewrite !decide_True; [done| |done]. intros ->. apply E. by apply keq_good.
Qed.

Lemma filter_take_in k (l : list bytes) n :
  NoDup l -> k ∈ take (S n) l ->
  take n (filter (fun k' => k' <> k) l) = filter (fun k' => k' <> k) (take (S n) l).
Proof.
  intros Hnd. revert n. induction Hnd as [|x l Hx _ IH]; intros n; [by intros ?%not_elem_of_nil|].
  cbn [take]. intros Hin. rewrite !filter_cons. destruct (decide (x <> k)) as [Hne|Heq].
  - apply elem_of_cons in Hin as [->|Hin]; [done|]. destruct n as [|n]; [by apply not_elem_of_nil in Hin|].
    cbn [take]. by rewrite IH.
  - apply dec_stable in Heq as ->. rewrite !filter_all; [done| |].
    + intros y Hy ->. apply Hx. by eapply (sublist_subseteq _ _ (sublist_take l n)).
    + by intros y Hy ->.
Qed.

Lemma filter_take_out k (l : list bytes) n :
  k ∉ take n l -> take n (filter (fun k' => k' <> k) l) = take n l.
Proof.
  revert n. induction l as [|x l IH]; intros [|n] Hn; try done. cbn [take] in *.
  apply not_elem_of_cons in Hn as [Hx Hn]. rewrite filter_cons, decide_True by done. cbn [take]. by rewrite IH.
Qed.

(** The stack property: a bounded cache holds a prefix of the unbounded one. *)
Lemma abs_put_take cap k l :
  NoDup l -> good_key k -> Forall good_key l ->
  snd (abs_put cap k (take cap l)) = take cap (touch k l).
Proof.
  intros Hnd Hk Hl. assert (Forall good_key (take cap l)) as Ht by by apply Forall_take.
  unfold abs_put. rewrite known_good, forget_good by done. case_bool_decide as Hin; cbn [snd]; unfold touch.
  - destruct cap as [|cap]; [by apply not_elem_of_nil in Hin|]. cbn [take]. by rewrite filter_take_in.
  - destruct cap as [|cap]; [done|]. cbn [take]. f_equal.
    rewrite filter_take_out, take_take; [f_equal; lia|]. intros Hk'. apply Hin.
    eapply (sublist_subseteq _ _ (sublist_take (take (S cap) l) cap)). rewrite take_take.
    by replace (cap `min` S cap)%nat with cap by lia.
Qed.

Lemma recency_snoc hist k : recency (hist ++ [k]) = touch k (recency hist).
Proof. unfold recency. by rewrite rev_app_distr. Qed.

Lemma recency_ok hist : Forall good_key hist -> NoDup (recency hist) /\ Forall good_key (recency hist).
Proof.
  induction hist as [|k hist IH] using rev_ind; [by repeat constructor|].
  intros [Hh Hk]%Forall_app. rewrite Forall_singleton in Hk. destruct (IH Hh) as [Hnd Hg]. rewrite recency_snoc.
  unfold touch. split; constructor.
  - rewrite list_elem_of_filter. naive_solver.
  - by apply NoDup_filter.
  - done.
  - apply Forall_forall. intros x [_ Hx]%list_elem_of_filter. by eapply Forall_forall in Hg.
Qed.

Lemma abs_exec_app cap o1 o2 ks :
  snd (abs_exec cap (o1 ++ o2) ks) = snd (abs_exec cap o2 (snd (abs_exec cap o1 ks))).
Proof.
  revert ks. induction o1 as [|op o1 IH]; intros ks; [done|]. cbn [app abs_exec].
  destruct (match op with Find k => _ | Put k => _ end) as [b ks1]. specialize (IH ks1).
  destruct (abs_exec cap (o1 ++ o2) ks1), (abs_exec cap o1 ks1); cbn in *. exact IH.
Qed.

Lemma abs_puts_recency cap hist :
  Forall good_key hist -> snd (abs_exec cap (Put <$> hist) []) = take cap (recency hist).
Proof.
  induction hist as [|k hist IH] using rev_ind; [by destruct cap|].
  intros [Hh Hk]%Forall_app. rewrite Forall_singleton in Hk. destruct (recency_ok hist Hh) as [Hnd Hg].
  rewrite fmap_app, abs_exec_app, IH, recency_snoc by done.
  rewrite <- abs_put_take by done. cbn. by destruct (abs_put cap k _).
Qed.

(** Eviction is least-recently-used.  After [putdata] on any sequence of
    NUL-free fingerprints, a cache of capacity [size] holds exactly the [size]
    most recently put distinct fingerprints, in order of recency. *)
Theorem lru_keeps_most_recent size hist :
  0 <= size -> Forall good_key hist ->
  exists bs s', lru_exec (Put <$> hist) (lru_new size) = Ret (bs, s') /\
    lru_ok s' (take (Z.to_nat size) (recency hist)).
Proof.
  intros Hs Hg. destruct (lru_exec_ok (Put <$> hist) _ _ (lru_new_ok size Hs)) as (s' & E & Hok & _).
  - apply Forall_fmap. eapply Forall_impl; [exact Hg|]. by intros k [_ ?].
  - do 2 eexists. split; [exact E|]. cbn [max_cache_size lru_new] in Hok. by rewrite abs_puts_recency in Hok.
Qed.

(** Fingerprints that contain a NUL byte alias.  After a chunk whose
    fingerprint starts with NUL is cached, [find] reports a different
    fingerprint as present: [strncmp] stops at the common NUL, and the two
    agree on [str_hash]. *)
Theorem lru_nul_aliases :
  exists k1 k2 s', length k1 = FP_SIZE /\ length k2 = FP_SIZE /\ k1 <> k2 /\
    lru_exec [Put k1; Find k2] (lru_new 4) = Ret ([true; true], s').
Proof.
  exists [x00; x00; x00; x00; x00; x05], [x00; x00; x00; x00; x01; x00].
  eexists. split_and!; [done|done|done|]. vm_compute. reflexivity.
Qed.

(** ** Persistence and destruction *)

Lemma list_keys_spec L G fuel i :
  dll L (pa <$> G) -> keys_ok L G -> (length G - i <= fuel)%nat ->
  list_keys fuel ((pa <$> G) !! i) L = Ret (drop i (ky <$> G)).
Proof.
  intros Hd Hk. revert i. induction fuel as [|fuel IH]; intros i Hf.
  - rewrite lookup_ge_None_2 by len. cbn. by rewrite drop_ge by len.
  - destruct (G !! i) as [e|] eqn:Hi.
    + assert ((pa <$> G) !! i = Some (pa e)) as Hp by (by rewrite list_lookup_fmap, Hi).
      destruct (dll_cell L _ i _ Hd Hp) as (v & Hl & Hv). rewrite Hp. cbn [list_keys]. rewrite Hl.
      cbn [mbind outcome_bind next val]. rewrite IH by lia. run.
      rewrite (Hk e) in Hv by (by eapply list_elem_of_lookup_2). injection Hv as <-.
      rewrite (drop_S (ky <$> G) (ky e) i); [done|]. by rewrite list_lookup_fmap, Hi.
    + rewrite list_lookup_fmap, Hi. apply lookup_ge_None in Hi. cbn. by rewrite drop_ge by len.
Qed.

(** Allocating an unrelated node leaves the represented cache alone. *)
Lemma lru_rep_alloc s G c :
  lru_rep s G ->
  lru_rep (Lru (max_cache_size s) (now_cache_size s) (<[new_addr (listnodes s) := c]> (listnodes s))
             (hashnodes s) (hash_table s) (head_ s) (back_ s)) G.
Proof.
  intros [Hd Hh Hb Hk Hhash Hdist Hlen]. pose proof (dll_fresh _ _ Hd) as Hf. constructor; cbn; try done.
  - eapply dll_frame; [done|]. intros p Hp. rewrite lookup_insert_ne; [done|]. by intros <-.
  - intros e He. rewrite val_at_insert_ne; [by apply Hk|]. intros E. apply Hf. rewrite <- E.
    by apply list_elem_of_fmap_2.
Qed.

Lemma output_conf_spec s ks :
  lru_ok s ks -> exists s', output_conf s = Ret (concat (print_fp_line <$> ks), negb (length ks =? 0)%nat, s') /\
    lru_ok s' ks /\ max_cache_size s' = max_cache_size s.
Proof.
  intros (G & Hr & <- & Hnow & Hmax). unfold output_conf.
  pose proof (lru_rep_alloc s G (Cell (replicate FP_SIZE x00) None None) Hr) as Hr'.
  pose proof (rep_dll _ _ Hr') as Hd. cbn [listnodes] in Hd.
  assert (head_ s = (pa <$> G) !! 0%nat) as -> by (rewrite (rep_head _ _ Hr); by destruct G).
  rewrite (list_keys_spec _ G).
  - run. rewrite drop_0. eexists. split_and!; [done| |done].
    exists G. split; [|done]. destruct Hr'; constructor; cbn in *; try done. by destruct G.
  - done.
  - apply Hr'.
  - pose proof (dll_length _ _ Hd). rewrite length_fmap in *. lia.
Qed.

Lemma init_line_print k s :
  length k = FP_SIZE ->
  init_line (concat (print_bits <$> k)) s = ('(_, s) ← add_node_to_head k s; Ret s).
Proof.
  intros Lk. unfold init_line. pose proof (read_bytes_text k []) as Ht. rewrite app_nil_r, Lk in Ht. by rewrite Ht.
Qed.

Lemma init_lines_spec ks s acc :
  lru_ok s acc -> Z.of_nat (length ks + length acc) <= max_cache_size s ->
  Forall (fun k => length k = FP_SIZE) ks ->
  (forall i j k1 k2, (ks ++ acc) !! i = Some k1 -> (ks ++ acc) !! j = Some k2 -> keq k1 k2 -> i = j) ->
  exists s', foldM init_line ((fun k => concat (print_bits <$> k)) <$> ks) s = Ret s' /\ lru_ok s' (rev ks ++ acc) /\
    max_cache_size s' = max_cache_size s.
Proof.
  revert s acc. induction ks as [|k ks IH]; intros s acc Hok Hlen Hks Hd; [by exists s|].
  cbn [fmap list_fmap foldM]. apply Forall_cons in Hks as [Lk Hks]. rewrite init_line_print by done.
  destruct Hok as (G & Hr & <- & Hnow & Hmax). rewrite length_fmap in *. cbn [length] in Hlen.
  destruct (add_node_spec s G k Hr Lk) as (s1 & G1 & -> & Hr1 & Hk1 & Hn1 & Hm1); [|lia..|].
  - intros e He Hkq. apply list_elem_of_lookup in He as [j Hj].
    assert (S (length ks + j) = 0)%nat; [|lia]. eapply Hd; [|done|exact Hkq].
    change ((ks ++ (ky <$> G)) !! (length ks + j)%nat = Some (ky e)).
    rewrite lookup_app_r by lia. replace (length ks + j - length ks)%nat with j by lia.
    by rewrite list_lookup_fmap, Hj.
  - run. rewrite take_ge in Hk1 by (cbn; rewrite length_fmap; lia).
    assert (length G1 = S (length G)) as HG1 by (apply (f_equal length) in Hk1; cbn in Hk1; rewrite !length_fmap in Hk1; done).
    destruct (IH s1 (k :: (ky <$> G))) as (s2 & -> & Hok2 & Hm2).
    + exists G1. split; [done|]. split; [done|]. cbn. rewrite length_fmap. lia.
    + cbn. rewrite length_fmap. lia.
    + done.
    + intros i j k1 k2 Hi Hj Hkq. assert (forall n, (ks ++ k :: (ky <$> G)) !! n =
        (k :: ks ++ (ky <$> G)) !! (if decide (n < length ks)%nat then S n else if decide (n = length ks) then 0 else n)%nat) as Hperm.
      { intros n. destruct (decide (n < length ks)%nat).
        - change ((ks ++ k :: (ky <$> G)) !! n = (ks ++ (ky <$> G)) !! n). by rewrite !lookup_app_l by lia.
        - rewrite lookup_app_r by lia. destruct (decide _) as [->|]; [by rewrite Nat.sub_diag|].
          destruct n as [|n]; [lia|]. change ((k :: (ky <$> G)) !! (S n - length ks)%nat = (ks ++ (ky <$> G)) !! n).
          rewrite lookup_app_r by lia. by replace (S n - length ks)%nat with (S (n - length ks)) by lia. }
      rewrite Hperm in Hi, Hj. pose proof (Hd _ _ _ _ Hi Hj Hkq). repeat case_decide; lia.
    + exists s2. cbn [rev]. rewrite <- app_assoc. split_and!; [done|done|congruence].
Qed.

Lemma lru_conf_reload s ks size :
  lru_ok s ks -> Z.of_nat (length ks) <= size ->
  exists s1 s2, output_conf s = Ret (concat (print_fp_line <$> ks), negb (length ks =? 0)%nat, s1) /\ lru_ok s1 ks /\
    init_conf (Some (concat (print_fp_line <$> ks))) (lru_new size) = Ret (true, s2) /\ lru_ok s2 (rev ks) /\
    max_cache_size s2 = size.
Proof.
  intros Hok Hsz. destruct (output_conf_spec s ks Hok) as (s1 & Ho & Hok1 & _).
  destruct (init_lines_spec ks (lru_new size) []) as (s2 & E & Hok2 & Hm2).
  - apply lru_new_ok. lia.
  - cbn. lia.
  - destruct Hok as (G & Hr & <- & _). apply Forall_fmap, Forall_forall. apply Hr.
  - rewrite app_nil_r. destruct Hok as (G & Hr & <- & _). intros i j k1 k2 Hi Hj Hkq.
    rewrite list_lookup_fmap in Hi, Hj.
    destruct (G !! i) as [e1|] eqn:E1; [|done]. destruct (G !! j) as [e2|] eqn:E2; [|done].
    cbn in Hi, Hj. injection Hi as <-. injection Hj as <-.
    assert (e1 = e2) as -> by (apply (rep_distinct _ _ Hr); eauto using list_elem_of_lookup_2).
    eapply (NoDup_lookup _ _ _ e2 (rep_nodup _ _ Hr)); done.
  - exists s1, s2. split_and!; [done|done| |by rewrite app_nil_r in Hok2|done].
    unfold init_conf. rewrite <- (app_nil_r (concat _)), getlines_print, app_nil_r, E. done.
Qed.

(** The cache written by [output_conf] is read back by [init_conf] with
    the same fingerprints but in reverse: the file lists the most recent one
    first, and every line is added at the head, so the next run starts with
    the least recently used fingerprint as the most recent one. *)
Theorem lru_conf_reverses s ks size :
  lru_ok s ks -> Z.of_nat (length ks) <= size ->
  exists txt b s1 s2, output_conf s = Ret (txt, b, s1) /\ lru_ok s1 ks /\ b = negb (length ks =? 0)%nat /\
    init_conf (Some txt) (lru_new size) = Ret (true, s2) /\ lru_ok s2 (rev ks).
Proof.
  intros Hok Hsz. destruct (lru_conf_reload s ks size Hok Hsz) as (s1 & s2 & E1 & Hok1 & E2 & Hok2 & _).
  do 4 eexists. split_and!; [exact E1|done|done|exact E2|done].
Qed.

Lemma free_list_spec G s fuel :
  lru_rep s G -> (length G <= fuel)%nat ->
  exists s', free_list fuel (head_ s) s = Ret s' /\ lru_rep s' [].
Proof.
  revert s fuel. induction G as [|e G IH]; intros s fuel Hr Hf.
  - exists s. rewrite (rep_head _ _ Hr). by destruct fuel.
  - destruct fuel as [|fuel]; [cbn in Hf; lia|]. rewrite (rep_head _ _ Hr). cbn [fmap list_fmap head free_list].
    destruct (dll_cell _ _ 0%nat _ (rep_dll _ _ Hr) eq_refl) as (v & Hl & _). rewrite Hl. run.
    destruct (delete_node_spec s (e :: G) 0 e Hr eq_refl) as (s1 & -> & Hr1 & _ & _). cbn [mbind outcome_bind next].
    change (delete 0%nat (e :: G)) with G in Hr1.
    destruct (IH s1 fuel Hr1) as (s2 & E & Hr2); [cbn in Hf; lia|]. exists s2. split; [|done].
    rewrite (rep_head _ _ Hr1) in E. cbn [lookup list_lookup]. rewrite <- E. f_equal. by destruct G.
Qed.

(** The destructor of a cache is safe: it deletes every node through
    [delete_node] without touching freed memory and without the error exit,
    and no chain is left for its second loop to free. *)
Theorem lru_destroy_safe s ks :
  lru_ok s ks -> exists L H, destroy s = Ret (Lru 0 0 L H ∅ None None).
Proof.
  intros (G & Hr & _ & _ & _). unfold destroy.
  destruct (free_list_spec G s (size (listnodes s)) Hr) as (s1 & -> & Hr1).
  - pose proof (dll_length _ _ (rep_dll _ _ Hr)). by rewrite length_fmap in *.
  - run. destruct (rep_hash _ _ Hr1) as [ch Hh].
    assert (hash_table s1 = ∅) as ->.
    { apply map_empty. intros pos. rewrite (h_slot _ _ _ _ Hh). pose proof (h_bucket _ _ _ _ Hh pos) as Hb.
      cbn in Hb. symmetry in Hb. by apply Permutation_nil in Hb as ->. }
    rewrite map_to_list_empty. cbn. eauto.
Qed.

#[global] Arguments str_hash : simpl never.

(** *** Witnesses *)

Lemma sample_good : good_key (sample_key 1) /\ good_key (sample_key 2) /\ good_key (sample_key 3).
Proof. split_and!; try done; by repeat constructor. Qed.

Lemma lru_refines_witness :
  exists s', lru_exec [Put (sample_key 1); Put (sample_key 2); Find (sample_key 1); Put (sample_key 3); Find (sample_key 2)]
    (lru_new 2) = Ret ([true; true; true; true; false], s') /\ lru_ok s' [sample_key 3; sample_key 1].
Proof.
  destruct (lru_refines 2 [Put (sample_key 1); Put (sample_key 2); Find (sample_key 1); Put (sample_key 3); Find (sample_key 2)])
    as (s' & E & Hok & _).
  - lia.
  - by repeat constructor.
  - exists s'. split; [rewrite E; vm_compute; reflexivity|exact Hok].
Defined.

Lemma sample_hist : Forall good_key [sample_key 1; sample_key 2; sample_key 1; sample_key 3].
Proof. repeat (constructor; [apply sample_good|]). constructor. Qed.

Lemma lru_keeps_most_recent_witness :
  exists bs s', lru_exec (Put <$> [sample_key 1; sample_key 2; sample_key 1; sample_key 3]) (lru_new 2) = Ret (bs, s') /\
    lru_ok s' [sample_key 3; sample_key 1].
Proof. exact (lru_keeps_most_recent 2 [sample_key 1; sample_key 2; sample_key 1; sample_key 3] ltac:(lia) sample_hist). Defined.

Lemma sample_cache : exists s, lru_ok s [sample_key 2; sample_key 1].
Proof.
  destruct (lru_exec_ok [Put (sample_key 1); Put (sample_key 2)] (lru_new 2) [] (lru_new_ok 2 ltac:(lia))) as (s & _ & Hok & _).
  - by repeat constructor.
  - exists s. exact Hok.
Qed.

Lemma lru_conf_reverses_witness :
  exists s txt b s1 s2, output_conf s = Ret (txt, b, s1) /\ lru_ok s1 [sample_key 2; sample_key 1] /\
    init_conf (Some txt) (lru_new 2) = Ret (true, s2) /\ lru_ok s2 [sample_key 1; sample_key 2].
Proof.
  destruct sample_cache as [s Hok]. exists s.
  destruct (lru_conf_reverses s [sample_key 2; sample_key 1] 2 Hok ltac:(cbn; lia)) as (txt & b & s1 & s2 & E1 & H1 & _ & E2 & H2).
  exists txt, b, s1, s2. split; [exact E1|]. split; [exact H1|]. split; [exact E2|exact H2].
Defined.

Lemma lru_destroy_witness : exists s L H, lru_ok s [sample_key 2; sample_key 1] /\ destroy s = Ret (Lru 0 0 L H ∅ None None).
Proof.
  destruct sample_cache as [s Hok]. destruct (lru_destroy_safe s [sample_key 2; sample_key 1] Hok) as (L & H & E).
  exists s, L, H. split; [exact Hok|exact E].
Defined.
