(* ===== verification/Container.v ===== *)
(** * Containers and the fingerprint index (prototype/container_manager.cc, prototype/fp_index.cc)

    Unique chunks are grouped in containers of at most 4 MB.  The manager
    keeps the open container in memory, writes a full one to a text file named
    by its number and records the next number in a manifest.  The index maps a
    fingerprint to the number of its container.  The theorems: every container
    reads back as the list of fingerprints that was inserted into it, and
    reopening the manager continues where the last run stopped. *)

From S2P Require Import Prelude CLib BitText KVStore.

(** The files the manager touches, by name; opening for writing succeeds. *)
Abbreviation fs := (gmap bytes bytes).

(** [4*1024*1024] *)
Definition MAX_SIZE : Z := 4 * 1024 * 1024.

(** "MAINFEST" *)
Definition MAINFEST : bytes := [x4d; x41; x49; x4e; x46; x45; x53; x54].

Record container_manager := Cm {
  now_id : Z;
  paths : bytes;
  tmp : list bytes;
  now_size : Z;
  now_key : bytes;
}.

(** ** Numbers in file names *)

(** [while(ee != 0) { fi += (char)((ee % 10) + '0'); ee /= 10; }]: an [int] has
    at most ten digits. *)
Fixpoint id_digits (fuel : nat) (ee : Z) : bytes :=
  match fuel with
  | O => []
  | S fuel' => if ee =? 0 then [] else to_byte (Z.rem ee 10 + 48) :: id_digits fuel' (Z.quot ee 10)
  end.

(** The digits, least significant first in [fi], reversed into [filename]. *)
Definition id_name (ee : Z) : bytes :=
  let fi := if ee =? 0 then [x30] else id_digits 10 ee in rev fi.

(** [stream << ID] and [fprintf(fw, "%d", id)] *)
Definition print_int (v : Z) : bytes := if v <? 0 then x2d :: print_dec (- v) else print_dec v.

(** [fscanf(fl, "%d", &now_id) > 0]: white space, a sign, at least one digit. *)
Definition scan_int (s : bytes) : option Z :=
  let t := skip_space s in
  let d := match t with b :: t' => if (ub b =? 45) || (ub b =? 43) then t' else t | [] => [] end in
  match d with
  | b :: _ => if is_digit b then Some (i32 (strtol 10 s)) else None
  | [] => None
  end.

(** ** Operations *)

(** [container_manager::init(path)] *)
Definition cm_init (path : bytes) (f : fs) : outcome (Z * container_manager * fs) :=
  let mainfest := path ++ MAINFEST in
  match f !! mainfest with
  | None => Ret (0, Cm 0 path [] 0 [], <[mainfest := [x30; x0a]]> f)
  | Some contents =>
      match scan_int contents with
      | Some id => Ret (1, Cm id path [] 0 [], f)
      | None => Exit 134
      end
  end.

(** One line of a container: [string temp(it->c_str())] and then [temp[k]] for
    the six positions of a fingerprint. *)
Fixpoint stored_chars (n k : nat) (temp : bytes) : outcome bytes :=
  match n with
  | O => Ret []
  | S n' => c ← str_at temp k; l ← stored_chars n' (S k) temp; Ret (c :: l)
  end.

Definition stored_line (it : bytes) (out : bytes) : outcome bytes :=
  cs ← stored_chars FP_SIZE 0 (cstr it);
  Ret (out ++ print_fp_line cs).

(** [container_manager::pocessw(path)]: write the open container. *)
Definition pocessw (path : bytes) (c : container_manager) (f : fs) : outcome (bool * container_manager * fs) :=
  match tmp c with
  | [] => Ret (false, c, f)
  | _ =>
      let ee := now_id c in
      if ee =? 2 ^ 31 - 1 then Undef
      else
        let tf := path ++ id_name ee in
        body ← foldM stored_line (tmp c) [];
        let f := <[tf := body]> f in
        let f := <[path ++ MAINFEST := print_int (ee + 1) ++ [x0a]]> f in
        Ret (true, Cm (ee + 1) (paths c) [] 0 (now_key c), f)
  end.

(** [int] addition. *)
Definition add_int (a b : Z) : outcome Z :=
  if (- 2 ^ 31 <=? a + b) && (a + b <? 2 ^ 31) then Ret (a + b) else Undef.

(** [container_manager::insert(str, size, path)] *)
Definition cm_insert (str : bytes) (sz : Z) (path : bytes) (c : container_manager) (f : fs) :
  outcome (bool * container_manager * fs) :=
  let hash := take FP_SIZE str in
  sum ← add_int (now_size c) sz;
  '(c, f) ← (if MAX_SIZE <? sum then '(_, c', f') ← pocessw path c f; Ret (c', f') else Ret (c, f));
  sum ← add_int (now_size c) sz;
  Ret (true, Cm (now_id c) (paths c) (tmp c ++ [hash]) sum (now_key c), f).

(** Every line of a container file is one fingerprint. *)
Fixpoint read_lines (lines : list bytes) : outcome (list bytes) :=
  match lines with
  | [] => Ret []
  | temp :: lines' => data ← read_bytes FP_SIZE 0 temp; ans ← read_lines lines'; Ret (data :: ans)
  end.

(** [container_manager::loadtonode(path, ans, ID)] *)
Definition loadtonode (path : bytes) (ID : Z) (c : container_manager) (f : fs) : outcome (bool * list bytes) :=
  match f !! (path ++ print_int ID) with
  | None => if ID =? now_id c then Ret (true, tmp c) else Ret (false, [])
  | Some contents => ans ← read_lines (getlines contents); Ret (true, ans)
  end.

(** ** The index *)

Section Index.
Context {DB : Type} `{KVStore DB}.

(** [fpindex::insert(str, ID)]: -1 for a known fingerprint, 1 when stored, 0
    when the write failed. *)
Definition fp_insert (str : bytes) (ID : Z) (db : DB) : Z * DB :=
  let key := take FP_SIZE str in
  match db_get key db with
  | Found _ => (-1, db)
  | _ => let '(ok, db) := db_put key (le_split 4 (u32 ID)) db in (if ok : bool then 1 else 0, db)
  end.

(** [fpindex::find(str)]: the [int] read from the value (and its NUL). *)
Definition fp_find (str : bytes) (db : DB) : outcome Z :=
  match db_get (take FP_SIZE str) db with
  | Found v => if (4 <=? length v + 1)%nat then Ret (i32 (le_combine (take 4 (v ++ [x00])))) else Undef
  | _ => Ret (-1)
  end.
End Index.

(** ** File names *)

Lemma id_digits_print fuel v acc :
  0 < v -> (fuel <> 0)%nat -> print_dec_go fuel v acc = rev (id_digits fuel v) ++ acc.
Proof.
  revert v acc. induction fuel as [|fuel IH]; intros v acc Hv Hf; [done|]. cbn [print_dec_go id_digits].
  replace (v =? 0) with false by lia. cbn [rev]. rewrite <- app_assoc. cbn [app].
  rewrite Z.rem_mod_nonneg, Z.quot_div_nonneg, (Z.add_comm (v mod 10) 48) by lia.
  destruct (Z.eqb_spec (v / 10) 0) as [->|E].
  - by destruct fuel.
  - pose proof (Z.div_pos v 10 ltac:(lia) ltac:(lia)). destruct fuel as [|fuel]; [done|]. apply IH; lia.
Qed.

Lemma print_dec_go_fuel f1 f2 v acc :
  0 <= v < 10 ^ Z.of_nat f1 -> (0 < f1 <= f2)%nat -> print_dec_go f1 v acc = print_dec_go f2 v acc.
Proof.
  revert f2 v acc. induction f1 as [|f1 IH]; intros [|f2] v acc Hv Hf; try lia. cbn [print_dec_go].
  destruct (Z.eqb_spec (v / 10) 0) as [E|E]; [done|].
  rewrite Nat2Z.inj_succ, Z.pow_succ_r in Hv by lia.
  assert (0 <= v / 10 < 10 ^ Z.of_nat f1) as Hd.
  { split; [apply Z.div_pos; lia|]. apply Z.div_lt_upper_bound; lia. }
  destruct f1 as [|f1]; [cbn in Hd; lia|]. apply IH; [done|lia].
Qed.

(** The number loop of [pocessw] prints what [loadtonode] looks for. *)
Lemma id_name_print v : 0 <= v < 2 ^ 31 -> id_name v = print_int v.
Proof.
  intros Hv. unfold id_name, print_int, print_dec. replace (v <? 0) with false by lia.
  destruct (Z.eqb_spec v 0) as [->|E]; [done|].
  rewrite <- (print_dec_go_fuel 10 20) by (cbn; lia). rewrite id_digits_print by lia. by rewrite app_nil_r.
Qed.

Lemma print_int_inj a b : 0 <= a < 2 ^ 31 -> 0 <= b < 2 ^ 31 -> print_int a = print_int b -> a = b.
Proof.
  intros Ha Hb. unfold print_int. replace (a <? 0) with false by lia. replace (b <? 0) with false by lia.
  intros E. rewrite <- (print_dec_val a), <- (print_dec_val b), E by lia. done.
Qed.

Lemma print_int_not_mainfest v : 0 <= v < 2 ^ 31 -> print_int v <> MAINFEST.
Proof.
  intros Hv E. unfold print_int in E. replace (v <? 0) with false in E by lia.
  pose proof (print_dec_digits v ltac:(lia)) as Hd. rewrite E in Hd. apply Forall_cons in Hd as [Hd _]. done.
Qed.

Lemma scan_print_int v : 0 <= v < 2 ^ 31 -> scan_int (print_int v ++ [x0a]) = Some v.
Proof.
  intros Hv. unfold print_int. replace (v <? 0) with false by lia.
  pose proof (print_dec_digits v ltac:(lia)) as Hd. pose proof (print_dec_val v ltac:(lia)) as Hval.
  pose proof (print_dec_length v) as Hl. unfold scan_int, strtol.
  destruct (print_dec v) as [|b s]; [cbn in Hl; lia|]. apply Forall_cons in Hd as [Hb _]. cbn [app skip_space].
  assert (48 <= ub b <= 57) as Hr by (unfold is_digit in Hb; lia).
  replace (is_space b) with false by (unfold is_space; lia).
  replace (ub b =? 45) with false by lia. replace (ub b =? 43) with false by lia. cbn [orb]. rewrite Hb.
  assert (skip_0x 10 (b :: s ++ [x0a]) = b :: s ++ [x0a]) as ->.
  { unfold skip_0x. destruct (s ++ [x0a]) as [|b1 [|b2 t]]; done. }
  rewrite app_comm_cons, digits_val_stop, Hval by done.
  unfold clamp_long. rewrite Z.min_r, Z.max_r by lia. by rewrite i32_small by lia.
Qed.

(** ** Container files *)

Lemma stored_chars_self p s :
  stored_chars (length s) (length p) (p ++ s) = Ret s.
Proof.
  revert p. induction s as [|c s IH]; intros p; [done|]. cbn [stored_chars length]. rewrite str_at_app.
  run. specialize (IH (p ++ [c])). rewrite length_app, <- app_assoc in IH. cbn in IH.
  rewrite Nat.add_1_r in IH. by rewrite IH.
Qed.

Definition fp_ok (k : bytes) : Prop := nul_free k /\ length k = FP_SIZE.

Lemma stored_lines_spec ks out :
  Forall fp_ok ks -> foldM stored_line ks out = Ret (out ++ concat (print_fp_line <$> ks)).
Proof.
  intros Hks. revert out. induction Hks as [|k ks [Hn Lk] _ IH]; intros out.
  { cbn. by rewrite app_nil_r. }
  cbn [foldM fmap list_fmap concat].
  assert (stored_line k out = Ret (out ++ print_fp_line k)) as ->.
  { unfold stored_line. rewrite cstr_nul_free_id by done. pose proof (stored_chars_self [] k) as Hs.
    rewrite Lk in Hs. cbn [length app] in Hs. by rewrite Hs. }
  run. by rewrite IH, <- app_assoc.
Qed.

Lemma read_lines_print ks :
  Forall (fun k => length k = FP_SIZE) ks -> read_lines ((fun k => concat (print_bits <$> k)) <$> ks) = Ret ks.
Proof.
  induction 1 as [|k ks Lk _ IH]; [done|]. cbn [fmap list_fmap read_lines].
  pose proof (read_bytes_text k []) as Ht. rewrite app_nil_r, Lk in Ht. rewrite Ht. run.
  by rewrite IH.
Qed.

(** ** The manager's invariant *)

(** [conts] are the written containers; [tmp] is the open one. *)
Record cm_ok (path : bytes) (c : container_manager) (f : fs) (conts : list (list bytes)) : Prop := {
  cm_id : now_id c = Z.of_nat (length conts);
  cm_files i ks : conts !! i = Some ks ->
    f !! (path ++ print_int (Z.of_nat i)) = Some (concat (print_fp_line <$> ks));
  cm_open i : Z.of_nat (length conts) <= i < 2 ^ 31 -> f !! (path ++ print_int i) = None;
  cm_manifest : exists text, f !! (path ++ MAINFEST) = Some text /\ scan_int text = Some (now_id c);
  cm_keys : Forall (Forall fp_ok) (conts ++ [tmp c]);
  cm_size : 0 <= now_size c;
  cm_empty : tmp c = [] -> now_size c = 0;
}.

(** The number of containers leaves room for one more. *)
Definition id_room (conts : list (list bytes)) : Prop := Z.of_nat (length conts) < 2 ^ 31 - 1.

Lemma loadtonode_spec path c f conts i ks :
  cm_ok path c f conts -> id_room conts -> (conts ++ [tmp c]) !! i = Some ks ->
  loadtonode path (Z.of_nat i) c f = Ret (true, ks).
Proof.
  intros Hok Hroom Hi. unfold loadtonode, id_room in *.
  assert (i <= length conts)%nat as Hle by (apply lookup_lt_Some in Hi; rewrite length_app in Hi; cbn in Hi; lia).
  destruct (decide (i = length conts)) as [->|Hne].
  - rewrite lookup_app_r, Nat.sub_diag in Hi by lia. cbn in Hi. injection Hi as <-.
    rewrite (cm_open _ _ _ _ Hok) by lia. rewrite (cm_id _ _ _ _ Hok), Z.eqb_refl. done.
  - rewrite lookup_app_l in Hi by lia. rewrite (cm_files _ _ _ _ Hok i ks Hi).
    rewrite <- (app_nil_r (concat _)), getlines_print, app_nil_r, read_lines_print; [done|].
    pose proof (cm_keys _ _ _ _ Hok) as Hk. apply Forall_app in Hk as [Hk _].
    eapply Forall_lookup_1 in Hk; [|done]. eapply Forall_impl; [done|]. by intros k [_ ?].
Qed.

Lemma pocessw_spec path c f conts :
  cm_ok path c f conts -> id_room conts ->
  exists b c' f', pocessw path c f = Ret (b, c', f') /\
    cm_ok path c' f' (if b : bool then conts ++ [tmp c] else conts) /\ tmp c' = [] /\ now_size c' = 0 /\
    b = negb (length (tmp c) =? 0)%nat.
Proof.
  intros Hok Hroom. unfold pocessw, id_room in *. destruct (tmp c) as [|k ks] eqn:Et.
  { exists false, c, f. split_and!; try done. by apply Hok. }
  pose proof (cm_id _ _ _ _ Hok) as Hid. replace (now_id c =? 2 ^ 31 - 1) with false by lia.
  pose proof (cm_keys _ _ _ _ Hok) as Hk. pose proof Hk as [Hc Ht]%Forall_app. apply Forall_cons in Ht as [Ht _].
  rewrite Et in Ht. rewrite stored_lines_spec by done. cbn [mbind outcome_bind app].
  exists true. do 2 eexists. split; [done|]. split_and!; try done. rewrite id_name_print by lia.
  assert (forall i, 0 <= i < 2 ^ 31 -> path ++ MAINFEST <> path ++ print_int i) as Hm.
  { intros i Hi E%app_inv_head. symmetry in E. by apply print_int_not_mainfest in E. }
  assert (forall i j, 0 <= i < 2 ^ 31 -> 0 <= j < 2 ^ 31 -> i <> j -> path ++ print_int i <> path ++ print_int j) as Hinj.
  { intros i j Hi Hj Hij E%app_inv_head. by apply print_int_inj in E. }
  constructor; cbn [now_id tmp now_size].
  - rewrite length_app. cbn. lia.
  - intros i ks' Hi. assert (i <= length conts)%nat as Hle.
    { apply lookup_lt_Some in Hi. rewrite length_app in Hi. cbn in Hi. lia. }
    rewrite lookup_insert_ne by (apply Hm; lia). destruct (decide (i = length conts)) as [->|Hne].
    + rewrite Hid, lookup_insert_eq. rewrite lookup_app_r, Nat.sub_diag in Hi by lia. cbn in Hi. injection Hi as <-. done.
    + rewrite lookup_insert_ne by (apply Hinj; lia). rewrite lookup_app_l in Hi by lia.
      by apply (cm_files _ _ _ _ Hok).
  - intros i Hi. rewrite length_app in Hi. cbn in Hi.
    rewrite !lookup_insert_ne by (first [apply Hm|apply Hinj]; lia). apply (cm_open _ _ _ _ Hok). lia.
  - eexists. rewrite lookup_insert_eq. split; [done|]. apply scan_print_int. lia.
  - rewrite Forall_app. split; [rewrite <- Et; exact Hk|]. by repeat constructor.
  - done.
  - done.
Qed.

(** Inserting a fingerprint: the open container is closed first when the
    chunk does not fit, and the fingerprint joins the open container. *)
Lemma cm_insert_spec path k sz c f conts :
  cm_ok path c f conts -> id_room conts -> fp_ok k -> 0 <= sz < 2 ^ 30 -> now_size c < 2 ^ 30 ->
  exists c' f' conts', cm_insert k sz path c f = Ret (true, c', f') /\ cm_ok path c' f' conts' /\
    now_size c' < 2 ^ 30 /\ (length conts <= length conts' <= S (length conts))%nat /\
    conts' ++ [tmp c'] = (if decide (length conts' = length conts) then conts ++ [tmp c ++ [k]]
                          else (conts ++ [tmp c]) ++ [[k]]) /\
    now_size c' = (if decide (length conts' = length conts) then now_size c + sz else sz) /\
    (length conts' = length conts <-> now_size c + sz <= MAX_SIZE \/ tmp c = []).
Proof.
  intros Hok Hroom [Hn Lk] Hsz Hnow. unfold cm_insert, add_int. rewrite take_ge by lia.
  pose proof (cm_size _ _ _ _ Hok) as H0.
  replace ((- 2 ^ 31 <=? now_size c + sz) && (now_size c + sz <? 2 ^ 31)) with true by lia.
  run.
  assert (forall c1 f1 conts1, cm_ok path c1 f1 conts1 -> tmp c1 ++ [k] <> [] ->
    now_size c1 + sz < 2 ^ 31 -> cm_ok path (Cm (now_id c1) (paths c1) (tmp c1 ++ [k]) (now_size c1 + sz) (now_key c1)) f1 conts1) as Hpush.
  { intros c1 f1 conts1 [Hid Hfs Ho Hm Hk Hs He] Hne Hlt. constructor; cbn; try done; [|lia].
    apply Forall_app in Hk as [Hk1 Hk2]. apply Forall_app. split; [done|]. apply Forall_cons in Hk2 as [Hk2 _].
    constructor; [|done]. apply Forall_app. split; [done|]. by repeat constructor. }
  destruct (Z.ltb_spec MAX_SIZE (now_size c + sz)) as [Hbig|Hfit].
  - destruct (pocessw_spec path c f conts Hok Hroom) as (b & c1 & f1 & -> & Hok1 & Ht1 & Hs1 & Hb).
    run. rewrite Hs1. replace ((- 2 ^ 31 <=? 0 + sz) && (0 + sz <? 2 ^ 31)) with true by lia.
    run. do 3 eexists. split; [done|].
    rewrite <- Hs1. split; [apply Hpush; [exact Hok1|by destruct (tmp c1)|lia]|].
    cbn [now_size tmp]. rewrite Hs1, Ht1. split; [lia|]. destruct b.
    + rewrite length_app. cbn [length]. split; [lia|]. rewrite !decide_False by lia. split; [done|]. split; [lia|].
      destruct (tmp c); [done|]. split; [lia|]. intros [?|?]; [lia|done].
    + split; [lia|]. rewrite !decide_True by done. destruct (tmp c) eqn:Et; [|done]. split; [done|].
      rewrite (cm_empty _ _ _ _ Hok Et). split; [done|]. by split; [right|].
  - run.
    replace ((- 2 ^ 31 <=? now_size c + sz) && (now_size c + sz <? 2 ^ 31)) with true by lia.
    run. do 3 eexists. split; [done|]. split; [apply Hpush; [done|by destruct (tmp c)|lia]|].
    cbn [now_size tmp]. split; [unfold MAX_SIZE in *; lia|]. split; [lia|]. rewrite !decide_True by done.
    split_and!; [done|done|]. by split; [left|].
Qed.

(** ** Packing *)

(** The abstract manager: closed containers and the open one, with sizes. *)
Definition packing : Type := list (list (bytes * Z)) * list (bytes * Z).

Definition total_size (open : list (bytes * Z)) : Z := foldr (fun e n => e.2 + n) 0 open.

Definition pack (e : bytes * Z) (p : packing) : packing :=
  let '(closed, open) := p in
  if (MAX_SIZE <? total_size open + e.2) && negb (length open =? 0)%nat
  then (closed ++ [open], [e]) else (closed, open ++ [e]).

Definition pack_all (es : list (bytes * Z)) : packing := foldl (fun p e => pack e p) ([], []) es.

Definition insert_all (path : bytes) (es : list (bytes * Z)) (st : container_manager * fs) :
  outcome (container_manager * fs) :=
  foldM (fun e '(c, f) => '(_, c, f) ← cm_insert e.1 e.2 path c f; Ret (c, f)) es st.

Definition chunk_fits (e : bytes * Z) : Prop := fp_ok e.1 /\ 0 <= e.2 < 2 ^ 30.

Lemma total_size_app l1 l2 : total_size (l1 ++ l2) = total_size l1 + total_size l2.
Proof. induction l1 as [|e l1 IH]; [done|]. cbn [app total_size foldr]. unfold total_size in *. rewrite IH. lia. Qed.

(** The manager [c] with files [f] implements the packing [p]. *)
Definition packs (path : bytes) (c : container_manager) (f : fs) (p : packing) : Prop :=
  cm_ok path c f ((fun l => l.*1) <$> p.1) /\ tmp c = p.2.*1 /\ now_size c = total_size p.2 /\ total_size p.2 < 2 ^ 30.

Lemma insert_packs path e c f p :
  packs path c f p -> id_room ((fun l : list (bytes * Z) => l.*1) <$> p.1) -> chunk_fits e ->
  exists c' f', cm_insert e.1 e.2 path c f = Ret (true, c', f') /\ packs path c' f' (pack e p) /\
    (length (pack e p).1 <= S (length p.1))%nat.
Proof.
  destruct p as [closed open], e as [k sz]. intros (Hok & Ht & Hs & Hlt) Hroom [Hk Hsz]. cbn [fst snd] in *.
  destruct (cm_insert_spec path k sz c f _ Hok Hroom Hk Hsz) as (c' & f' & conts' & E & Hok' & Hn & Hlen & Hc & Hns & Hiff);
    [lia|]. exists c', f'. split; [done|].
  assert (tmp c = [] <-> length open = 0%nat) as Hte by (rewrite Ht; by destruct open).
  rewrite Ht, Hs in *. unfold pack. cbn [fst snd].
  destruct ((MAX_SIZE <? total_size open + sz) && negb (length open =? 0)%nat) eqn:Eb; cbn [fst snd].
  - assert (length conts' <> length ((fun l : list (bytes * Z) => l.*1) <$> closed)) as Hne.
    { intros E'. apply andb_prop in Eb as [Eb1 Eb2]. apply Hiff in E' as [E'|E']; [lia|]. apply Hte in E'. by rewrite E' in Eb2. }
    rewrite decide_False in Hc by done. rewrite decide_False in Hns by done. apply app_inj_2 in Hc as [Hc [= Ht']]; [|done]. split.
    + unfold packs. cbn [fst snd]. rewrite fmap_app. cbn. rewrite <- Hc. split_and!; [done|done|lia|lia].
    + rewrite length_app. cbn. lia.
  - assert (length conts' = length ((fun l : list (bytes * Z) => l.*1) <$> closed)) as Heq.
    { apply Hiff. apply andb_false_iff in Eb as [?|Eb]; [left; lia|]. right. apply Hte. apply negb_false_iff in Eb. by apply Nat.eqb_eq in Eb. }
    rewrite decide_True in Hc by done. rewrite decide_True in Hns by done. apply app_inj_2 in Hc as [Hc [= Ht']]; [|done]. split; [|lia].
    unfold packs. cbn [fst snd]. rewrite fmap_app, total_size_app. cbn. rewrite <- Hc. split_and!; [done|done|lia|lia].
Qed.

Lemma insert_all_packs path es c f p :
  packs path c f p -> Forall chunk_fits es -> Z.of_nat (length p.1 + length es) < 2 ^ 31 - 1 ->
  exists c' f', insert_all path es (c, f) = Ret (c', f') /\ packs path c' f' (foldl (fun p e => pack e p) p es) /\
    (length (foldl (fun p e => pack e p) p es).1 <= length p.1 + length es)%nat.
Proof.
  intros Hp Hes. revert c f p Hp. induction Hes as [|e es He _ IH]; intros c f p Hp Hlen.
  { exists c, f. split_and!; [done|done|cbn; lia]. }
  cbn [foldl]. unfold insert_all. cbn [foldM length] in *.
  destruct (insert_packs path e c f p Hp) as (c1 & f1 & -> & Hp1 & Hl1); [|done|].
  { unfold id_room. rewrite length_fmap. lia. }
  run. destruct (IH c1 f1 (pack e p) Hp1) as (c2 & f2 & E & Hp2 & Hl2); [lia|].
  exists c2, f2. split_and!; [exact E|done|lia].
Qed.

Lemma init_packs path f :
  (forall v, f !! (path ++ v) = None) ->
  exists c f', cm_init path f = Ret (0, c, f') /\ packs path c f' ([], []).
Proof.
  intros Hf. unfold cm_init. rewrite Hf. do 2 eexists. split; [done|]. split; [|done]. constructor; cbn; try done.
  - intros i Hi. rewrite lookup_insert_ne, Hf; [done|]. intros E%app_inv_head. symmetry in E.
    apply print_int_not_mainfest in E; [done|lia].
  - eexists. rewrite lookup_insert_eq. split; [done|]. by vm_compute.
  - by repeat constructor.
Qed.

Definition pack_keys (p : packing) : list (list bytes) := (fun l => l.*1) <$> (p.1 ++ [p.2]).

Lemma pack_keys_app e p : concat (pack_keys (pack e p)) = concat (pack_keys p) ++ [e.1].
Proof.
  destruct p as [closed open]. unfold pack, pack_keys.
  destruct (_ && _); cbn [fst snd]; rewrite !fmap_app, !concat_app; cbn; rewrite ?app_nil_r, ?fmap_app, ?app_assoc; done.
Qed.

Lemma pack_all_keys es p :
  concat (pack_keys (foldl (fun p e => pack e p) p es)) = concat (pack_keys p) ++ es.*1.
Proof.
  revert p. induction es as [|e es IH]; intros p; cbn; [by rewrite app_nil_r|].
  rewrite IH, pack_keys_app, <- app_assoc. done.
Qed.

(** A closed or open container holds at most 4 MB, or a single chunk. *)
Definition bounded (l : list (bytes * Z)) : Prop := total_size l <= MAX_SIZE \/ (length l <= 1)%nat.

Lemma pack_bounded e p : Forall bounded (p.1 ++ [p.2]) -> Forall bounded ((pack e p).1 ++ [(pack e p).2]).
Proof.
  destruct p as [closed open]. unfold pack. cbn [fst snd]. intros [Hc Ho]%Forall_app.
  destruct (_ && _) eqn:E; cbn [fst snd].
  - apply Forall_app. split; [by apply Forall_app|]. constructor; [|done]. right. cbn. lia.
  - apply Forall_app. split; [done|]. constructor; [|done]. unfold bounded. rewrite total_size_app, length_app.
    apply andb_false_iff in E as [E|E].
    + left. change (total_size [e]) with (e.2 + 0). lia.
    + right. apply negb_false_iff, Nat.eqb_eq in E. rewrite E. done.
Qed.

Lemma pack_all_bounded es p :
  Forall bounded (p.1 ++ [p.2]) ->
  let q := foldl (fun p e => pack e p) p es in Forall bounded (q.1 ++ [q.2]).
Proof. revert p. induction es as [|e es IH]; intros p Hp; [done|]. cbn [foldl]. apply IH. by apply pack_bounded. Qed.

(** Containers.  Starting from an empty directory, inserting any sequence
    of chunks packs them in order: each written or open container reads back
    with [loadtonode] as exactly its fingerprints, every other number is
    refused, the concatenation of all containers is the sequence, and no
    container holds more than 4 MB unless it is a single chunk. *)
Theorem container_roundtrip path f es :
  (forall v, f !! (path ++ v) = None) -> Forall chunk_fits es -> Z.of_nat (length es) < 2 ^ 31 - 1 ->
  exists c0 f0 c' f', cm_init path f = Ret (0, c0, f0) /\ insert_all path es (c0, f0) = Ret (c', f') /\
    concat (pack_keys (pack_all es)) = es.*1 /\
    (forall i ks, pack_keys (pack_all es) !! i = Some ks -> loadtonode path (Z.of_nat i) c' f' = Ret (true, ks)) /\
    (forall i, Z.of_nat (length (pack_keys (pack_all es))) <= i < 2 ^ 31 -> loadtonode path i c' f' = Ret (false, [])) /\
    Forall bounded ((pack_all es).1 ++ [(pack_all es).2]).
Proof.
  intros Hf Hes Hlen. destruct (init_packs path f Hf) as (c0 & f0 & E0 & Hp0).
  destruct (insert_all_packs path es c0 f0 ([], []) Hp0 Hes) as (c' & f' & E & (Hok & Ht & _ & _) & Hl); [cbn; lia|].
  exists c0, f0, c', f'. fold (pack_all es) in *. cbn [fst length] in Hl.
  assert (pack_keys (pack_all es) = ((fun l => l.*1) <$> (pack_all es).1) ++ [tmp c']) as Hpk
    by (unfold pack_keys; by rewrite fmap_app, Ht).
  split_and!; [done|done| | | |].
  - apply (pack_all_keys es ([], [])).
  - intros i ks Hi. rewrite Hpk in Hi. eapply loadtonode_spec; [done| |done]. unfold id_room. rewrite length_fmap. lia.
  - rewrite Hpk, length_app, length_fmap. cbn [length]. intros i Hi. unfold loadtonode.
    rewrite (cm_open _ _ _ _ Hok) by len. rewrite (cm_id _ _ _ _ Hok), length_fmap.
    by replace (i =? _) with false by lia.
  - apply (pack_all_bounded es ([], [])). constructor; [|done]. right. cbn. lia.
Qed.

Lemma cm_init_reopen path c f conts :
  cm_ok path c f conts -> tmp c = [] ->
  exists c', cm_init path f = Ret (1, c', f) /\ cm_ok path c' f conts /\ now_id c' = now_id c /\ tmp c' = [] /\
    now_size c' = 0.
Proof.
  intros Hok Ht. destruct (cm_manifest _ _ _ _ Hok) as (text & Htext & Hscan).
  eexists. unfold cm_init. rewrite Htext, Hscan. split; [done|]. split_and!; try done.
  destruct Hok as [H1 H2 H3 H4 H5 H6 H7]. rewrite Ht in H5. constructor; cbn; try done; eauto.
Qed.

(** Reopening.  Once the open container is written, the files alone
    restore the manager: [init] returns 1 and continues with the next number. *)
Theorem container_reopen path c f conts :
  cm_ok path c f conts -> id_room conts ->
  exists b c1 f1 c2, pocessw path c f = Ret (b, c1, f1) /\ cm_init path f1 = Ret (1, c2, f1) /\
    cm_ok path c2 f1 (conts ++ (if b : bool then [tmp c] else [])) /\ now_id c2 = now_id c1 /\ tmp c2 = [].
Proof.
  intros Hok Hroom. destruct (pocessw_spec path c f conts Hok Hroom) as (b & c1 & f1 & E & Hok1 & Ht & Hs & Hb).
  destruct (cm_init_reopen path c1 f1 _ Hok1 Ht) as (c2 & E2 & Hok2 & Hid & Ht2 & _).
  exists b, c1, f1, c2. split_and!; try done. by destruct b; [|rewrite app_nil_r].
Qed.

(** A fingerprint with a NUL byte before its last position cannot be
    written: [pocessw] builds the line from the C string and reads past its
    end.  (A NUL in the last position alone is harmless.) *)
Theorem container_nul_undefined path c f k :
  tmp c = [k] -> (length (cstr k) < 5)%nat -> now_id c <> 2 ^ 31 - 1 -> pocessw path c f = Undef.
Proof.
  intros Ht Hk Hid. unfold pocessw. rewrite Ht. replace (now_id c =? 2 ^ 31 - 1) with false by lia.
  cbn [foldM]. unfold stored_line.
  assert (stored_chars FP_SIZE 0 (cstr k) = Undef) as ->; [|done].
  unfold FP_SIZE. destruct (cstr k) as [|b0 [|b1 [|b2 [|b3 [|b4 l]]]]]; cbn in *; try done. lia.
Qed.

(** *** Witnesses *)

Lemma sample_fp_ok : fp_ok (sample_key 1) /\ fp_ok (sample_key 2).
Proof. split; split; by repeat constructor. Qed.

Lemma sample_fits : Forall chunk_fits [(sample_key 1, 3000000); (sample_key 2, 2000000)].
Proof. repeat (constructor; [split; [apply sample_fp_ok|cbn; lia]|]). constructor. Qed.

Lemma container_roundtrip_witness :
  exists c0 f0 c' f', cm_init [] ∅ = Ret (0, c0, f0) /\
    insert_all [] [(sample_key 1, 3000000); (sample_key 2, 2000000)] (c0, f0) = Ret (c', f') /\
    loadtonode [] 0 c' f' = Ret (true, [sample_key 1]) /\ loadtonode [] 1 c' f' = Ret (true, [sample_key 2]).
Proof.
  destruct (container_roundtrip [] ∅ [(sample_key 1, 3000000); (sample_key 2, 2000000)])
    as (c0 & f0 & c' & f' & E0 & E & _ & Hl & _).
  - intros v. apply lookup_empty.
  - exact sample_fits.
  - cbn. lia.
  - exists c0, f0, c', f'. split; [exact E0|]. split; [exact E|].
    split; [exact (Hl 0%nat [sample_key 1] eq_refl)|exact (Hl 1%nat [sample_key 2] eq_refl)].
Defined.

Lemma sample_manager : exists c f, cm_ok [] c f [] /\ tmp c = [sample_key 1].
Proof.
  destruct (init_packs [] ∅) as (c & f & _ & Hp); [intros v; apply lookup_empty|].
  destruct (insert_packs [] (sample_key 1, 100) c f ([], []) Hp) as (c' & f' & _ & (Hok & Ht & _) & _).
  - unfold id_room. cbn. lia.
  - split; [apply sample_fp_ok|cbn; lia].
  - exists c', f'. split; [exact Hok|exact Ht].
Qed.

Lemma container_reopen_witness :
  exists c f b c1 f1 c2, tmp c = [sample_key 1] /\ pocessw [] c f = Ret (b, c1, f1) /\
    cm_init [] f1 = Ret (1, c2, f1) /\ now_id c2 = now_id c1.
Proof.
  destruct sample_manager as (c & f & Hok & Ht).
  destruct (container_reopen [] c f [] Hok) as (b & c1 & f1 & c2 & E1 & E2 & _ & Hid & _).
  - unfold id_room. cbn. lia.
  - exists c, f, b, c1, f1, c2. split; [exact Ht|]. split; [exact E1|]. split; [exact E2|exact Hid].
Defined.

Lemma container_nul_witness :
  pocessw [] (Cm 0 [] [[x01; x00; x03; x04; x05; x06]] 100 []) ∅ = Undef.
Proof.
  apply (container_nul_undefined [] (Cm 0 [] [[x01; x00; x03; x04; x05; x06]] 100 []) ∅ [x01; x00; x03; x04; x05; x06]).
  - reflexivity.
  - cbn. lia.
  - cbn. lia.
Defined.
