(* ===== verification/Ddfs.v ===== *)
(** * The deduplication engine (prototype/ddfs.cc)

    The engine that composes the Bloom filter, the fingerprint cache, the
    containers and the index: [read_hashes] classifies every chunk of a trace
    as duplicate or unique, in the order cache, filter, index; unique chunks
    go to the open container and the index, a duplicate found in the index
    loads its whole container into the cache.  The theorems: on traces with
    NUL-free fingerprints the engine stores every distinct fingerprint exactly
    once, never takes its error exit, counts index updates exactly, and a
    second run on the saved state continues correctly. *)

From S2P Require Import Prelude CLib BitText KVStore Bloom DList LruCache Container Trace.
From Stdlib Require Import Floats.SpecFloat.

Definition BLOOM_lenth : Z := 65000000.
Definition LRU_SIZE : Z := 838608.

(** [0.01] as a double. *)
Definition ERROR : spec_float := S754_finite false 5764607523034235 (-59).

Section Engine.
Context {DB : Type} `{KVStore DB}.

(** The globals of ddfs.cc and the files its components write. *)
Record ddfs := Ddfs {
  BLM : bloom;
  LPC : lrucache;
  CMR : container_manager;
  FPI : DB;
  files : fs;
  index_access : Z;
  loading_access : Z;
  update_access : Z;
}.

(** [punique(key, chunk_size)]: filter, container, index. *)
Definition punique (container_path key : bytes) (chunk_size : Z) (st : ddfs) : outcome ddfs :=
  '(_, b) ← bloom_add (BLM st) key;
  '(_, c, f) ← cm_insert key chunk_size container_path (CMR st) (files st);
  let '(_, db) := fp_insert key (now_id c) (FPI st) in
  Ret (Ddfs b (LPC st) c db f (index_access st) (loading_access st) (u64 (update_access st + 1))).

(** [loading_access++; LPC.putdata(...)] for one fingerprint of a container. *)
Definition load_one (k : bytes) (st : ddfs) : outcome ddfs :=
  '(_, l) ← putdata k (LPC st);
  Ret (Ddfs (BLM st) l (CMR st) (FPI st) (files st) (index_access st) (u64 (loading_access st + 1)) (update_access st)).

Definition with_blm (st : ddfs) (b : bloom) : ddfs :=
  Ddfs b (LPC st) (CMR st) (FPI st) (files st) (index_access st) (loading_access st) (update_access st).

Definition with_lpc (st : ddfs) (l : lrucache) : ddfs :=
  Ddfs (BLM st) l (CMR st) (FPI st) (files st) (index_access st) (loading_access st) (update_access st).

Definition count_index (st : ddfs) : ddfs :=
  Ddfs (BLM st) (LPC st) (CMR st) (FPI st) (files st) (u64 (index_access st + 1)) (loading_access st) (update_access st).

(** The body of the loop of [read_hashes] for one chunk. *)
Definition process_chunk (container_path : bytes) (ch : bytes * Z) (st : ddfs) : outcome ddfs :=
  let '(hash, chunk_size) := ch in
  '(hit, l) ← find hash (LPC st);
  let st := with_lpc st l in
  if hit : bool then Ret st
  else
    '(r, b) ← bloom_check (BLM st) hash;
    let st := with_blm st b in
    if r =? 0 then punique container_path hash chunk_size st
    else
      FPID ← fp_find hash (FPI st);
      let st := count_index st in
      if FPID =? -1 then punique container_path hash chunk_size st
      else
        '(flag, conti) ← loadtonode container_path FPID (CMR st) (files st);
        if flag : bool then foldM load_one conti st else Exit 1.

(** A line of the trace: the fingerprint and [atoi] of the token after it. *)
Definition parse_sized (line : bytes) : outcome (bytes * Z) :=
  let '(hash, item) := parse_line line in sz ← atoi item; Ret (hash, sz).

Definition read_line (container_path line : bytes) (st : ddfs) : outcome ddfs :=
  ch ← parse_sized line; process_chunk container_path ch st.

(** [read_hashes(fp)]: the state and the contents of [./conf/bloomConf]. *)
Definition read_hashes (container_path file : bytes) (st : ddfs) : outcome (ddfs * bytes) :=
  st ← foldM (read_line container_path) (trace_lines file) st;
  '(_, c, f) ← pocessw container_path (CMR st) (files st);
  conf ← bloom_conf_out (BLM st);
  Ret (Ddfs (BLM st) (LPC st) c (FPI st) f (index_access st) (loading_access st) (update_access st), conf).

(** What a run leaves on disk: container files, index, and the two dumps. *)
Record disk := Disk {
  d_files : fs;
  d_index : DB;
  d_bloom : option bytes;
  d_lcp : option bytes;
}.

Section Run.
Variable log : spec_float -> spec_float.
Variable calloc_ok : bool.
(** [new bloom] leaves the record uninitialised. *)
Variable fresh_bloom : bloom.

(** [sys_ini(path1, path2)], with the index opened at [path2]. *)
Definition sys_ini (container_path : bytes) (d : disk) : outcome ddfs :=
  '(_, b) ← bloom_init log calloc_ok fresh_bloom BLOOM_lenth ERROR;
  '(_, b) ← bloom_init_conf (d_bloom d) b;
  '(_, c, f) ← cm_init container_path (d_files d);
  '(_, l) ← init_conf (d_lcp d) (lru_new LRU_SIZE);
  Ret (Ddfs b l c (d_index d) f 0 0 0).

(** [main]: the exit code, the three counters it prints and the disk. *)
Definition main (container_path : bytes) (trace : option bytes) (d : disk) : outcome (Z * (Z * Z * Z) * disk) :=
  st ← sys_ini container_path d;
  match trace with
  | None => Ret (1, (0, 0, 0), Disk (files st) (FPI st) (d_bloom d) (d_lcp d))
  | Some file =>
      '(st, conf) ← read_hashes container_path file st;
      '(txt, _, l) ← output_conf (LPC st);
      Ret (0, (index_access st, update_access st, loading_access st),
           Disk (files st) (FPI st) (Some conf) (Some txt))
  end.
End Run.
End Engine.

Arguments ddfs DB : clear implicits.
Arguments disk DB : clear implicits.

(** ** The engine's invariant *)

(** Everything stored so far, container after container. *)
Definition stored {DB} (st : ddfs DB) (conts : list (list bytes)) : list bytes := concat (conts ++ [tmp (CMR st)]).

Section Invariant.
Context {DB : Type} `{KVReliable DB} (path : bytes).
(** The filter [bloom_init] builds: every run uses its parameters. *)
Context (B0 : bloom).

Record dd_ok (st : ddfs DB) (conts : list (list bytes)) : Prop := {
  dd_bloom : bloom_wf (BLM st);
  dd_params : bits (BLM st) = bits B0 /\ hashes (BLM st) = hashes B0;
  dd_cap : max_cache_size (LPC st) = LRU_SIZE;
  dd_member k : k ∈ stored st conts -> member (BLM st) k = true;
  dd_cache : exists ks, lru_ok (LPC st) ks /\ ks ⊆ stored st conts;
  dd_cm : cm_ok path (CMR st) (files st) conts;
  dd_size : now_size (CMR st) < 2 ^ 30;
  dd_nodup : NoDup (stored st conts);
  dd_index k v : db_contents (FPI st) !! k = Some v -> k ∈ stored st conts;
  dd_indexed i ks k : (conts ++ [tmp (CMR st)]) !! i = Some ks -> k ∈ ks ->
    db_contents (FPI st) !! k = Some (le_split 4 (Z.of_nat i));
}.

Lemma stored_fp_ok st conts : dd_ok st conts -> Forall fp_ok (stored st conts).
Proof. intros Hd. apply Forall_concat. apply (cm_keys _ _ _ _ (dd_cm _ _ Hd)). Qed.

Lemma stored_elem (st : ddfs DB) conts k :
  k ∈ stored st conts <-> exists i ks, (conts ++ [tmp (CMR st)]) !! i = Some ks /\ k ∈ ks.
Proof.
  unfold stored. rewrite list_elem_of_In, in_concat. setoid_rewrite <- list_elem_of_In.
  setoid_rewrite list_elem_of_lookup at 1. naive_solver.
Qed.

(** The index returns the number of the container of a stored fingerprint. *)
Lemma fp_find_spec st conts k :
  dd_ok st conts -> id_room conts -> length k = FP_SIZE ->
  (k ∉ stored st conts -> fp_find k (FPI st) = Ret (-1)) /\
  (k ∈ stored st conts -> exists i ks, (conts ++ [tmp (CMR st)]) !! i = Some ks /\ fp_find k (FPI st) = Ret (Z.of_nat i)).
Proof.
  intros Hd Hroom Lk. unfold fp_find, id_room in *. rewrite take_ge by lia. rewrite get_reliable. split.
  - intros Hn. destruct (db_contents (FPI st) !! k) eqn:E; [|done]. by apply (dd_index _ _ Hd) in E.
  - intros (i & ks & Hi & Hk)%stored_elem. exists i, ks. split; [done|].
    rewrite (dd_indexed _ _ Hd i ks k Hi Hk). rewrite le_split_length. cbn [Nat.leb Nat.add].
    assert (0 <= Z.of_nat i < 2 ^ 31) as Hr.
    { apply lookup_lt_Some in Hi. rewrite length_app in Hi. cbn in Hi. lia. }
    rewrite take_app_le, take_ge by len.
    rewrite le32_roundtrip, i32_small by lia. done.
Qed.

(** A hit in the cache is a stored fingerprint. *)
Lemma cache_hit_stored ks st conts k :
  dd_ok st conts -> ks ⊆ stored st conts -> fp_ok k -> known k ks = true -> k ∈ stored st conts.
Proof.
  intros Hd Hsub Hk (k' & Hin & E)%known_spec. pose proof (stored_fp_ok st conts Hd) as Hf.
  apply Hsub in Hin as Hin'. eapply Forall_forall in Hf; [|exact Hin'].
  apply keq_good in E as <-; [done|exact Hf|exact Hk].
Qed.

Lemma abs_put_subset cap k ks : snd (abs_put cap k ks) ⊆ k :: ks.
Proof.
  unfold abs_put, forget. intros x. destruct (known k ks); cbn [snd].
  - rewrite !elem_of_cons, list_elem_of_filter. naive_solver.
  - intros Hx. eapply sublist_subseteq; [apply sublist_take|exact Hx].
Qed.

Lemma abs_find_subset k ks : snd (abs_find k ks) ⊆ (if known k ks then k :: ks else ks).
Proof.
  unfold abs_find, forget. intros x. destruct (known k ks); cbn [snd]; [|done].
  rewrite !elem_of_cons, list_elem_of_filter. naive_solver.
Qed.

(** Replacing the cache by one that holds stored fingerprints. *)
Lemma dd_ok_cache st conts l ks ia la :
  dd_ok st conts -> lru_ok l ks -> ks ⊆ stored st conts -> max_cache_size l = LRU_SIZE ->
  dd_ok (Ddfs (BLM st) l (CMR st) (FPI st) (files st) ia la (update_access st)) conts.
Proof. intros [] Hl Hs Hm. constructor; cbn; try done. by exists ks. Qed.

(** Loading a container into the cache. *)
Lemma load_all_spec conti st conts :
  dd_ok st conts -> conti ⊆ stored st conts ->
  exists st', foldM load_one conti st = Ret st' /\ dd_ok st' conts /\ CMR st' = CMR st /\ update_access st' = update_access st.
Proof.
  revert st. induction conti as [|k conti IH]; intros st Hd Hsub; [by exists st|]. cbn [foldM].
  destruct (dd_cache _ _ Hd) as (ks & Hl & Hks). assert (k ∈ stored st conts) as Hk by (apply Hsub; by left).
  pose proof (stored_fp_ok st conts Hd) as Hf. eapply Forall_forall in Hf as [_ Lk]; [|exact Hk].
  destruct (putdata_ok _ _ k Hl Lk) as (l1 & E & Hl1 & Hm1). set (st1 := Ddfs (BLM st) l1 (CMR st) (FPI st) (files st) (index_access st) (u64 (loading_access st + 1)) (update_access st)).
  assert (load_one k st = Ret st1) as -> by (unfold load_one; by rewrite E). run.
  destruct (IH st1) as (st' & E' & Hd' & Hc & Hu).
  - eapply dd_ok_cache; [done|exact Hl1| |by rewrite Hm1, (dd_cap _ _ Hd)].
    intros x Hx%abs_put_subset. apply elem_of_cons in Hx as [->|Hx]; auto.
  - intros x Hx. apply Hsub. by right.
  - exists st'. by split_and!.
Qed.

Lemma lookup_last_cases {A} (conts : list A) t i ks :
  (conts ++ [t]) !! i = Some ks -> (conts !! i = Some ks /\ (i < length conts)%nat) \/ (i = length conts /\ ks = t).
Proof.
  intros Hi. destruct (decide (i < length conts)%nat) as [Hlt|Hge].
  - left. by rewrite lookup_app_l in Hi.
  - right. rewrite lookup_app_r in Hi by lia. destruct (i - length conts)%nat eqn:E; [|done].
    cbn in Hi. injection Hi as <-. split; [lia|done].
Qed.

(** Storing a new fingerprint. *)
Lemma punique_spec st conts k sz :
  dd_ok st conts -> id_room conts -> fp_ok k -> 0 <= sz < 2 ^ 30 -> k ∉ stored st conts ->
  exists st' conts', punique path k sz st = Ret st' /\ dd_ok st' conts' /\
    stored st' conts' = stored st conts ++ [k] /\ (length conts' <= S (length conts))%nat /\
    update_access st' = u64 (update_access st + 1).
Proof.
  intros Hd Hroom Hk Hsz Hnew. unfold punique.
  destruct (run_op_spec (Add k) (BLM st) (dd_bloom _ _ Hd)) as (b & Eb & Hwb & Hpar & _ & Hmono & Hadd). cbn in Eb.
  destruct (bloom_add (BLM st) k) as [[r b']|c|]; try done. cbn in Eb. injection Eb as ->. run.
  destruct (cm_insert_spec path k sz (CMR st) (files st) conts (dd_cm _ _ Hd) Hroom Hk Hsz (dd_size _ _ Hd))
    as (c & f & conts' & -> & Hcm & Hns & Hlen & Hcc & _ & _). run.
  assert (stored (Ddfs b (LPC st) c (FPI st) f 0 0 0) conts' = stored st conts ++ [k]) as Hst.
  { unfold stored. cbn [CMR]. rewrite Hcc. case_decide; rewrite !concat_app; cbn; rewrite ?app_nil_r, ?app_assoc; done. }
  assert (now_id c = Z.of_nat (length conts')) as Hid by apply Hcm. unfold id_room in Hroom.
  unfold fp_insert. destruct Hk as [Hn Lk]. rewrite take_ge by lia. rewrite get_reliable.
  destruct (db_contents (FPI st) !! k) eqn:Ek; [by apply (dd_index _ _ Hd) in Ek|].
  pose proof (put_contents k (le_split 4 (u32 (now_id c))) (FPI st)) as Hput.
  destruct (db_put k _ (FPI st)) as [ok db]. cbn [snd] in Hput. rewrite Hid, u32_small in Hput by lia.
  do 2 eexists. split; [done|]. split_and!; [|exact Hst|lia|done].
  constructor; cbn [BLM LPC CMR FPI files]; try done.
  - pose proof (dd_params _ _ Hd). naive_solver congruence.
  - by apply Hd.
  - intros k'. change (k' ∈ stored (Ddfs b (LPC st) c (FPI st) f 0 0 0) conts' -> member b k' = true).
    rewrite Hst. intros [Hk'| ->%list_elem_of_singleton]%elem_of_app; [|by apply Hadd].
    apply Hmono, Hd. done.
  - destruct (dd_cache _ _ Hd) as (ks & Hl & Hks). exists ks. split; [done|]. intros x Hx.
    change (x ∈ stored (Ddfs b (LPC st) c (FPI st) f 0 0 0) conts'). rewrite Hst. apply elem_of_app. left. auto.
  - change (NoDup (stored (Ddfs b (LPC st) c (FPI st) f 0 0 0) conts')). rewrite Hst. apply NoDup_app.
    split_and!; [apply Hd| |apply NoDup_singleton]. intros x Hx ->%list_elem_of_singleton. done.
  - intros k' v. rewrite Hput. change (<[k:=le_split 4 (Z.of_nat (length conts'))]> (db_contents (FPI st)) !! k' = Some v ->
      k' ∈ stored (Ddfs b (LPC st) c (FPI st) f 0 0 0) conts'). rewrite Hst.
    intros [[-> _]|[_ Hv]]%lookup_insert_Some; apply elem_of_app; [right; by apply list_elem_of_singleton|left].
    by eapply Hd.
  - intros i ks k' Hi Hin. rewrite Hput. destruct (decide (k' = k)) as [->|Hne].
    + rewrite lookup_insert_eq. do 2 f_equal. apply lookup_last_cases in Hi as [[Hi Hlt]|[-> _]]; [|done].
      destruct Hnew. apply stored_elem. exists i, ks. split; [|done]. revert Hcc Hi. case_decide as Ec; intros Hcc Hi.
      * apply app_inj_2 in Hcc as [-> _]; [|done]. by apply lookup_app_l_Some.
      * apply app_inj_2 in Hcc as [-> _]; [|done]. done.
    + rewrite lookup_insert_ne by done. assert (exists ks', (conts ++ [tmp (CMR st)]) !! i = Some ks' /\ k' ∈ ks') as (ks' & Hi' & Hin').
      { revert Hi. rewrite Hcc. case_decide.
        - intros [[Hi Hlt]|[-> ->]]%lookup_last_cases; [exists ks; split; [by apply lookup_app_l_Some|done]|].
          exists (tmp (CMR st)). rewrite lookup_app_r, Nat.sub_diag by lia. split; [done|].
          apply elem_of_app in Hin as [?|?%list_elem_of_singleton]; done.
        - intros [[Hi Hlt]|[-> ->]]%lookup_last_cases; [by exists ks|].
          by apply list_elem_of_singleton in Hin. }
      by eapply Hd.
Qed.

(** Fingerprints in order of first storage. *)
Definition add_new (l : list bytes) (k : bytes) : list bytes := if decide (k ∈ l) then l else l ++ [k].

Lemma loaded_stored st conts i ks : (conts ++ [tmp (CMR st)]) !! i = Some ks -> ks ⊆ stored (st : ddfs DB) conts.
Proof. intros Hi k Hk. apply stored_elem. eauto. Qed.

(** One chunk: stored when it is new, otherwise nothing changes but the cache. *)
Lemma process_chunk_spec st conts k sz :
  dd_ok st conts -> id_room conts -> fp_ok k -> 0 <= sz < 2 ^ 30 ->
  exists st' conts', process_chunk path (k, sz) st = Ret st' /\ dd_ok st' conts' /\
    stored st' conts' = add_new (stored st conts) k /\ (length conts' <= S (length conts))%nat /\
    update_access st' = (if decide (k ∈ stored st conts) then update_access st else u64 (update_access st + 1)).
Proof.
  intros Hd Hroom Hk Hsz. pose proof Hk as [_ Lk]. unfold process_chunk, add_new.
  destruct (dd_cache _ _ Hd) as (ks & Hl & Hks).
  destruct (find_ok (LPC st) ks k Hl Lk) as (l & -> & Hl' & Hm'). rewrite (dd_cap _ _ Hd) in Hm'. run.
  assert (snd (abs_find k ks) ⊆ stored st conts) as Hsub.
  { intros x Hx%abs_find_subset. destruct (known k ks) eqn:Ekn; [|auto]. apply elem_of_cons in Hx as [->|Hx]; [|auto].
    by eapply cache_hit_stored. }
  pose proof (dd_ok_cache st conts l _ (index_access st) (loading_access st) Hd Hl' Hsub Hm') as Hd1.
  fold (with_lpc st l) in Hd1. set (st1 := with_lpc st l) in *.
  assert (forall st2 : ddfs DB, dd_ok st2 conts -> stored st2 conts = stored st conts -> update_access st2 = update_access st ->
    k ∉ stored st conts -> exists st' conts', punique path k sz st2 = Ret st' /\ dd_ok st' conts' /\
    stored st' conts' = (if decide (k ∈ stored st conts) then stored st conts else stored st conts ++ [k]) /\
    (length conts' <= S (length conts))%nat /\
    update_access st' = (if decide (k ∈ stored st conts) then update_access st else u64 (update_access st + 1))) as Hnew.
  { intros st2 Hd2 Hs Hu Hn. destruct (punique_spec st2 conts k sz Hd2 Hroom Hk Hsz) as (st' & conts' & E & ? & Es & ? & Eu).
    - by rewrite Hs.
    - exists st', conts'. rewrite !decide_False by done. split_and!; try done; [by rewrite Es, Hs|by rewrite Eu, Hu]. }
  unfold abs_find. destruct (known k ks) eqn:Ekn; cbn [fst].
  - exists st1, conts. assert (k ∈ stored st conts) by (by apply (cache_hit_stored ks)).
    rewrite !decide_True by done. split_and!; try done. lia.
  - destruct (bloom_check_add_spec (BLM st1) k false (dd_bloom _ _ Hd1)) as (buf & Ec & _ & _ & Hsame).
    unfold bloom_check. rewrite Ec, Hsame by done. run.
    assert (with_blm st1 (BLM st1) = st1) as -> by done.
    destruct (member (BLM st1) k) eqn:Em; cbn [Z.eqb].
    + destruct (fp_find_spec st1 conts k Hd1 Hroom Lk) as [Hno Hyes].
      set (st2 := count_index st1).
      assert (dd_ok st2 conts) as Hd2 by (eapply (dd_ok_cache st1 conts l); [done|exact Hl'|exact Hsub|done]).
      destruct (decide (k ∈ stored st conts)) as [Hin|Hout].
      * destruct (Hyes Hin) as (i & conti & Hi & ->). run.
        rewrite (proj2 (Z.eqb_neq (Z.of_nat i) (-1))) by lia.
        rewrite (loadtonode_spec path (CMR st2) (files st2) conts i conti (dd_cm _ _ Hd2) Hroom Hi). run.
        destruct (load_all_spec conti st2 conts Hd2) as (st3 & E3 & Hd3 & Hc3 & Hu3); [by eapply loaded_stored|].
        exists st3, conts. split_and!; [done|done| |lia|done]. unfold stored. by rewrite Hc3.
      * rewrite (Hno Hout). cbn [mbind outcome_bind Z.eqb]. destruct (Hnew st2) as (st' & conts' & E & Hx); try done.
        by exists st', conts'.
    + apply Hnew; try done. intros Hin. change (stored st conts) with (stored st1 conts) in Hin.
      apply (dd_member _ _ Hd1) in Hin. congruence.
Qed.

(** A trace whose lines parse to the chunks [cs]. *)
Definition parsed (file : bytes) (cs : list (bytes * Z)) : Prop :=
  Forall2 (fun l c => parse_sized l = Ret c) (trace_lines file) cs.

Definition new_keys (old : list bytes) (ks : list bytes) : list bytes := foldl add_new old ks.

Lemma add_new_length l k : length (add_new l k) = (if decide (k ∈ l) then length l else S (length l)).
Proof. unfold add_new. case_decide; [done|]. rewrite length_app. cbn. lia. Qed.

Lemma add_new_mono l k : (length l <= length (add_new l k))%nat.
Proof. rewrite add_new_length. case_decide; lia. Qed.

Lemma new_keys_mono l ks : (length l <= length (new_keys l ks))%nat.
Proof.
  revert l. induction ks as [|k ks IH]; intros l; cbn; [done|]. etrans; [apply (add_new_mono l k)|apply IH].
Qed.

Lemma read_lines_loop lines cs st conts :
  Forall2 (fun l c => parse_sized l = Ret c) lines cs -> dd_ok st conts -> Forall chunk_fits cs ->
  Z.of_nat (length conts + length cs) < 2 ^ 31 - 1 ->
  exists st' conts', foldM (read_line path) lines st = Ret st' /\ dd_ok st' conts' /\
    stored st' conts' = new_keys (stored st conts) cs.*1 /\ (length conts' <= length conts + length cs)%nat /\
    u64 (update_access st') =
      u64 (update_access st + Z.of_nat (length (stored st' conts') - length (stored st conts))).
Proof.
  intros Hp. revert st conts. induction Hp as [|line c lines cs Hline _ IH]; intros st conts Hd Hcs Hlen.
  { exists st, conts. rewrite Nat.sub_diag, Z.add_0_r. split_and!; try done. cbn; lia. }
  apply Forall_cons in Hcs as [[Hk Hsz] Hcs]. destruct c as [k sz]. cbn [fst snd length] in *.
  destruct (process_chunk_spec st conts k sz Hd) as (st1 & conts1 & E1 & Hd1 & Hs1 & Hl1 & Hu1); [unfold id_room; lia|done|done|].
  assert (read_line path line st = Ret st1) as E by (unfold read_line; by rewrite Hline).
  cbn [foldM]. rewrite E. run.
  destruct (IH st1 conts1 Hd1 Hcs) as (st2 & conts2 & E2 & Hd2 & Hs2 & Hl2 & Hu2); [lia|].
  exists st2, conts2. split_and!; [done|done| |lia|].
  - rewrite Hs2, Hs1. done.
  - rewrite Hu2, Hu1. pose proof (new_keys_mono (stored st1 conts1) cs.*1) as Hm. rewrite <- Hs2 in Hm.
    pose proof (add_new_length (stored st conts) k) as Hal. rewrite <- Hs1 in Hal.
    case_decide.
    + do 2 f_equal. lia.
    + rewrite u64_add_l. f_equal. lia.
Qed.

(** Writing the open container changes no stored fingerprint. *)
Lemma dd_flush st conts :
  dd_ok st conts -> id_room conts ->
  exists b c f conts', pocessw path (CMR st) (files st) = Ret (b, c, f) /\ tmp c = [] /\
    concat conts' = stored st conts /\ (length conts' <= S (length conts))%nat /\
    dd_ok (Ddfs (BLM st) (LPC st) c (FPI st) f (index_access st) (loading_access st) (update_access st)) conts'.
Proof.
  intros Hd Hroom. destruct (pocessw_spec path _ _ conts (dd_cm _ _ Hd) Hroom) as (b & c & f & E & Hcm & Ht & Hs & Hb).
  exists b, c, f. set (conts' := if b then conts ++ [tmp (CMR st)] else conts) in *. exists conts'.
  assert (concat conts' = stored st conts) as Hcat.
  { subst conts'. unfold stored. destruct b; [done|]. destruct (tmp (CMR st)); [|done].
    rewrite concat_app. cbn. by rewrite app_nil_r. }
  assert (forall ia la ua, stored (Ddfs (BLM st) (LPC st) c (FPI st) f ia la ua) conts' = stored st conts) as Hst.
  { intros. unfold stored at 1. cbn [CMR]. rewrite Ht, concat_app. cbn. by rewrite app_nil_r. }
  split_and!; [done|done|done|subst conts'; destruct b; rewrite ?length_app; cbn; lia|].
  constructor; rewrite ?Hst; cbn [BLM LPC CMR FPI files]; try apply Hd; try done; [lia|].
  intros i ks k [[Hi Hlt]|[-> ->]]%lookup_last_cases Hk; [|rewrite Ht in Hk; by apply not_elem_of_nil in Hk].
  eapply Hd; [|exact Hk]. subst conts'. destruct b; [done|]. by apply lookup_app_l_Some.
Qed.

Lemma new_keys_elem l ks k : k ∈ new_keys l ks <-> k ∈ l \/ k ∈ ks.
Proof.
  revert l. induction ks as [|k' ks IH]; intros l; cbn.
  - split; [by left|]. by intros [?|?%not_elem_of_nil].
  - unfold new_keys in IH. rewrite IH. unfold add_new. rewrite elem_of_cons.
    case_decide; rewrite ?elem_of_app, ?list_elem_of_singleton; naive_solver.
Qed.

Lemma read_hashes_spec file cs st conts :
  dd_ok st conts -> parsed file cs -> Forall chunk_fits cs -> Z.of_nat (length conts + length cs) < 2 ^ 31 - 1 ->
  exists st' conf conts', read_hashes path file st = Ret (st', conf) /\ bloom_conf_out (BLM st') = Ret conf /\
    dd_ok st' conts' /\ tmp (CMR st') = [] /\ concat conts' = new_keys (stored st conts) cs.*1 /\
    (length conts' <= S (length conts + length cs))%nat /\
    u64 (update_access st') = u64 (update_access st + Z.of_nat (length (concat conts') - length (stored st conts))).
Proof.
  intros Hd Hp Hcs Hlen. unfold read_hashes.
  destruct (read_lines_loop _ cs st conts Hp Hd Hcs Hlen) as (st1 & conts1 & -> & Hd1 & Hs1 & Hl1 & Hu1).
  run.
  destruct (dd_flush st1 conts1 Hd1) as (b & c & f & conts2 & -> & Ht & Hc2 & Hl2 & Hd2); [unfold id_room; lia|].
  run.
  destruct (bloom_conf_restore (BLM st1) (BLM st1) (dd_bloom _ _ Hd1) (dd_bloom _ _ Hd1) eq_refl) as (conf & E & _ & _ & _).
  rewrite E. run. do 2 eexists. exists conts2.
  split_and!; [done|done|exact Hd2|done|by rewrite Hc2, Hs1|lia|]. cbn [update_access]. by rewrite Hu1, Hc2.
Qed.
End Invariant.

(** ** Runs *)

Section Runs.
Context {DB : Type} `{KVReliable DB} (path : bytes).
Context (log : spec_float -> spec_float) (calloc_ok : bool) (fresh_bloom B0 : bloom).
(** [bloom_init] succeeds and its filter has bits and hash functions. *)
Hypothesis Hinit : bloom_init log calloc_ok fresh_bloom BLOOM_lenth ERROR = Ret (0, B0).
Hypothesis Hwf : bloom_wf B0.

(** The disk before the first run. *)
Definition disk_fresh (d : disk DB) : Prop :=
  (forall v, d_files d !! (path ++ v) = None) /\ db_contents (d_index d) = ∅ /\ d_bloom d = None /\ d_lcp d = None.

(** The disk after a run that stored the containers [conts]: some engine state
    with a closed container wrote it. *)
Definition disk_saved (d : disk DB) (conts : list (list bytes)) : Prop :=
  exists st ks txt, dd_ok path B0 st conts /\ tmp (CMR st) = [] /\ d_files d = files st /\ d_index d = FPI st /\
    bloom_conf_out (BLM st) = Ret txt /\ d_bloom d = Some txt /\
    lru_ok (LPC st) ks /\ ks ⊆ stored st conts /\ d_lcp d = Some (concat (print_fp_line <$> ks)).

Definition disk_ok (d : disk DB) (conts : list (list bytes)) : Prop :=
  (disk_fresh d /\ conts = []) \/ disk_saved d conts.

(** [sys_ini] restores the invariant from either kind of disk. *)
Lemma sys_ini_fresh d : disk_fresh d ->
  exists st, sys_ini log calloc_ok fresh_bloom path d = Ret st /\ dd_ok path B0 st [] /\
    tmp (CMR st) = [] /\ update_access st = 0.
Proof.
  intros (Hf & Hi & Hb & Hl). unfold sys_ini. rewrite Hinit. run. rewrite Hb, Hl.
  cbn [bloom_init_conf init_conf mbind outcome_bind].
  destruct (init_packs path (d_files d) Hf) as (c & f & -> & Hp & Ht & Hs & _). run.
  eexists. split; [done|]. cbn [fst snd] in *. split_and!; [|exact Ht|done].
  assert (forall ia la ua, stored (Ddfs B0 (lru_new LRU_SIZE) c (d_index d) f ia la ua) [] = []) as Hst.
  { intros. unfold stored. cbn. by rewrite Ht. }
  constructor; rewrite ?Hst; cbn [BLM LPC CMR FPI files]; try done.
  - by intros k ?%not_elem_of_nil.
  - exists []. split; [by apply lru_new_ok|done].
  - by rewrite Hs.
  - constructor.
  - intros k v. by rewrite Hi, lookup_empty.
  - intros i ks k [[Hx _]|[-> ->]]%lookup_last_cases; [done|]. rewrite Ht. by intros ?%not_elem_of_nil.
Qed.

Lemma sys_ini_saved d conts : disk_saved d conts ->
  exists st, sys_ini log calloc_ok fresh_bloom path d = Ret st /\ dd_ok path B0 st conts /\
    tmp (CMR st) = [] /\ update_access st = 0.
Proof.
  intros (st & ks & txt & Hd & Ht & Hf & Hi & Ht' & Hb & Hlru & Hks & Hl). unfold sys_ini. rewrite Hinit.
  run. rewrite Hb, Hl, Hf, Hi. pose proof (dd_params _ _ _ _ Hd) as [Hbits Hh].
  destruct (bloom_conf_restore (BLM st) B0 (dd_bloom _ _ _ _ Hd) Hwf) as (txt' & E' & _ & Ei & Hw); [done|].
  assert (txt' = txt) as -> by congruence. rewrite Ei. run.
  destruct (cm_init_reopen path (CMR st) (files st) conts (dd_cm _ _ _ _ Hd) Ht) as (c & -> & Hcm & _ & Htc & Hns).
  run.
  destruct (lru_conf_reload (LPC st) ks LRU_SIZE Hlru) as (s1 & l & _ & _ & -> & Hl2 & Hm).
  { destruct Hlru as (G & _ & _ & _ & Hle). by rewrite (dd_cap _ _ _ _ Hd) in Hle. }
  run. eexists. split; [done|]. split_and!; [|done|done].
  set (st' := Ddfs _ _ _ _ _ _ _ _). assert (stored st' conts = stored st conts) as Hst.
  { unfold stored. cbn [CMR st']. by rewrite Ht, Htc. }
  constructor; rewrite ?Hst; cbn [BLM LPC CMR FPI files st']; try apply Hd; try done.
  - intros k Hk. apply (dd_member _ _ _ _ Hd) in Hk. revert Hk. unfold member, positions. cbn. by rewrite Hbits, Hh.
  - exists (rev ks). split; [done|]. intros x Hx. apply Hks. apply list_elem_of_In, in_rev. by apply list_elem_of_In in Hx.
  - by rewrite Hns.
  - rewrite Htc, <- Ht. apply Hd.
Qed.

Lemma disk_sys_ini d conts : disk_ok d conts ->
  exists st, sys_ini log calloc_ok fresh_bloom path d = Ret st /\ dd_ok path B0 st conts /\
    tmp (CMR st) = [] /\ update_access st = 0.
Proof. intros [[Hf ->]|Hs]; [by apply sys_ini_fresh|by apply sys_ini_saved]. Qed.

(** One run on a consistent disk. *)
Lemma main_run d conts file cs :
  disk_ok d conts -> parsed file cs -> Forall chunk_fits cs -> Z.of_nat (length conts + length cs) < 2 ^ 31 - 1 ->
  exists ia ua la d' conts',
    main log calloc_ok fresh_bloom path (Some file) d = Ret (0, (ia, ua, la), d') /\ disk_ok d' conts' /\
    concat conts' = new_keys (concat conts) cs.*1 /\ (length conts' <= S (length conts + length cs))%nat /\
    u64 ua = u64 (Z.of_nat (length (concat conts') - length (concat conts))).
Proof.
  intros Hdisk Hp Hcs Hlen. unfold main. destruct (disk_sys_ini d conts Hdisk) as (st & -> & Hd & Ht & Hu).
  run.
  assert (stored st conts = concat conts) as Hst by (unfold stored; rewrite Ht, concat_app; cbn; by rewrite app_nil_r).
  destruct (read_hashes_spec path B0 file cs st conts Hd Hp Hcs Hlen)
    as (st' & conf & conts' & -> & Hconf & Hd' & Ht' & Hc' & Hl' & Hu'). run.
  destruct (dd_cache _ _ _ _ Hd') as (ks & Hlru & Hks).
  destruct (output_conf_spec (LPC st') ks Hlru) as (l & -> & _ & _). run.
  do 4 eexists. exists conts'. split; [done|]. split_and!.
  - right. exists st', ks, conf. by split_and!.
  - by rewrite <- Hst.
  - done.
  - rewrite Hu', Hu, Hst. done.
Qed.

(** A sequence of runs, one trace each. *)
Definition run_all (traces : list bytes) (d : disk DB) : outcome (disk DB) :=
  foldM (fun file d => '(_, _, d) ← main log calloc_ok fresh_bloom path (Some file) d; Ret d) traces d.

Lemma run_all_spec traces css d conts :
  disk_ok d conts -> Forall2 parsed traces css -> Forall (Forall chunk_fits) css ->
  Z.of_nat (length conts + length traces + length (concat css)) < 2 ^ 31 - 1 ->
  exists d' conts', run_all traces d = Ret d' /\ disk_ok d' conts' /\
    concat conts' = new_keys (concat conts) (concat css).*1.
Proof.
  intros Hd Hp. revert d conts Hd. induction Hp as [|file cs traces css Hf _ IH]; intros d conts Hd Hcs Hlen.
  { exists d, conts. by split_and!. }
  apply Forall_cons in Hcs as [Hc Hcs]. cbn [concat length] in Hlen. rewrite length_app in Hlen.
  destruct (main_run d conts file cs Hd Hf Hc) as (ia & ua & la & d1 & conts1 & E & Hd1 & Hc1 & Hl1 & _); [lia|].
  destruct (IH d1 conts1 Hd1 Hcs) as (d2 & conts2 & E2 & Hd2 & Hc2); [lia|].
  exists d2, conts2. split_and!; [|done|].
  - unfold run_all. cbn [foldM]. rewrite E. exact E2.
  - rewrite Hc2, Hc1. cbn [concat]. rewrite fmap_app. unfold new_keys. by rewrite foldl_app.
Qed.
End Runs.

Lemma disk_saved_unfold {DB} `{KVReliable DB} path B0 (d : disk DB) conts :
  disk_saved path B0 d conts ->
  NoDup (concat conts) /\
  (forall i ks, conts !! i = Some ks ->
     d_files d !! (path ++ print_int (Z.of_nat i)) = Some (concat (print_fp_line <$> ks)) /\
     forall k, k ∈ ks -> db_contents (d_index d) !! k = Some (le_split 4 (Z.of_nat i))).
Proof.
  intros (st & ks & txt & Hd & Ht & Hf & Hi & _). split.
  - pose proof (dd_nodup _ _ _ _ Hd) as Hn. unfold stored in Hn. rewrite Ht, concat_app in Hn. cbn in Hn.
    by rewrite app_nil_r in Hn.
  - intros i ks' Hi'. rewrite Hf, Hi. split; [by eapply Hd|]. intros k Hk. eapply Hd; [|exact Hk].
    by apply lookup_app_l_Some.
Qed.

Lemma disk_ok_unfold {DB} `{KVReliable DB} path B0 (d : disk DB) conts :
  disk_ok path B0 d conts ->
  NoDup (concat conts) /\
  (forall i ks, conts !! i = Some ks ->
     d_files d !! (path ++ print_int (Z.of_nat i)) = Some (concat (print_fp_line <$> ks)) /\
     forall k, k ∈ ks -> db_contents (d_index d) !! k = Some (le_split 4 (Z.of_nat i))).
Proof.
  intros [[_ ->]|Hs]; [|by eapply disk_saved_unfold]. split; [constructor|]. by intros i ks.
Qed.

(** C25: deduplication.  Starting from an empty disk, any number of runs of the
    engine over traces with NUL-free fingerprints terminates normally, and the
    container files then hold every distinct fingerprint of all the traces
    exactly once; the index maps each of them to the container that holds it.
    The runs share state only through the files the engine saves and reloads. *)
Theorem ddfs_stores_once {DB} `{KVReliable DB} path log calloc_ok fresh_bloom B0 (d : disk DB) traces css :
  bloom_init log calloc_ok fresh_bloom BLOOM_lenth ERROR = Ret (0, B0) -> bloom_wf B0 ->
  disk_fresh path d -> Forall2 parsed traces css -> Forall (Forall chunk_fits) css ->
  Z.of_nat (length traces + length (concat css)) < 2 ^ 31 - 1 ->
  exists d' conts, run_all path log calloc_ok fresh_bloom traces d = Ret d' /\
    NoDup (concat conts) /\ (forall k, k ∈ concat conts <-> k ∈ (concat css).*1) /\
    (forall i ks, conts !! i = Some ks ->
       d_files d' !! (path ++ print_int (Z.of_nat i)) = Some (concat (print_fp_line <$> ks)) /\
       forall k, k ∈ ks -> db_contents (d_index d') !! k = Some (le_split 4 (Z.of_nat i))).
Proof.
  intros Hi Hw Hf Hp Hc Hlen.
  destruct (run_all_spec path log calloc_ok fresh_bloom B0 Hi Hw traces css d []) as (d' & conts & E & Hd & Hk);
    [by left|done|done|cbn; lia|].
  destruct (disk_ok_unfold path B0 d' conts Hd) as [Hn Hfiles]. exists d', conts. split_and!; [done|done| |done].
  intros k. rewrite Hk. rewrite new_keys_elem. cbn. split; [|by right]. by intros [?%not_elem_of_nil|?].
Qed.

(** One run.  On the disk a run left behind, the next run exits with 0,
    stores exactly the fingerprints that are new, after the old ones and in
    order of first occurrence, and the "Update access" count it prints is the
    number of new fingerprints. *)
Theorem ddfs_run_counts {DB} `{KVReliable DB} path log calloc_ok fresh_bloom B0 (d : disk DB) conts file cs :
  bloom_init log calloc_ok fresh_bloom BLOOM_lenth ERROR = Ret (0, B0) -> bloom_wf B0 ->
  disk_ok path B0 d conts -> parsed file cs -> Forall chunk_fits cs ->
  Z.of_nat (length conts + length cs) < 2 ^ 31 - 1 ->
  exists ia ua la d' conts',
    main log calloc_ok fresh_bloom path (Some file) d = Ret (0, (ia, ua, la), d') /\
    concat conts' = new_keys (concat conts) cs.*1 /\ disk_ok path B0 d' conts' /\
    u64 ua = Z.of_nat (length (concat conts') - length (concat conts)).
Proof.
  intros Hi Hw Hd Hp Hc Hlen.
  destruct (main_run path log calloc_ok fresh_bloom B0 Hi Hw d conts file cs Hd Hp Hc Hlen)
    as (ia & ua & la & d' & conts' & E & Hd' & Hk & _ & Hu).
  exists ia, ua, la, d', conts'. split_and!; [done|done|done|]. rewrite Hu. apply u64_small.
  assert (length (concat conts') <= length (concat conts) + length cs)%nat as Hle; [|lia].
  rewrite Hk. clear. unfold new_keys. generalize (concat conts). induction cs as [|[k sz] cs IH]; intros l; cbn; [lia|].
  etrans; [apply IH|]. rewrite add_new_length. case_decide; lia.
Qed.

(** *** Witnesses *)

(** [log(0.01)] in double precision. *)
Definition log_point : spec_float -> spec_float := fun _ => S754_finite true 5184960683398421 (-50).

Definition bloom0 : bloom := Bloom 0 (Z2double 0) 0 0 0 (Z2double 0) None 0.

Lemma ddfs_bloom_init :
  exists B0, bloom_init log_point true bloom0 BLOOM_lenth ERROR = Ret (0, B0) /\
    bits B0 = 623028794 /\ hashes B0 = 7 /\ nbytes B0 = 77878600 /\ bloom_wf B0.
Proof.
  set (p := SFopp (SFdiv 53 1024 (log_point ERROR) LN2_SQUARED)).
  assert (double2int (SFmul 53 1024 (Z2double BLOOM_lenth) p) = Ret 623028794) as E1 by (vm_compute; reflexivity).
  assert (ceil2int (SFmul 53 1024 LN2 p) = Ret 7) as E2 by (vm_compute; reflexivity).
  assert ((BLOOM_lenth <? 1000) || SFeqb ERROR (Z2double 0) = false) as E0 by (vm_compute; reflexivity).
  assert (bloom_init log_point true bloom0 BLOOM_lenth ERROR =
    Ret (0, Bloom BLOOM_lenth ERROR 623028794 77878600 7 p (Some (replicate (Z.to_nat 77878600) x00)) 1)) as E.
  { unfold bloom_init. rewrite E0. fold p. rewrite E1. run. rewrite E2. reflexivity. }
  eexists. split; [exact E|]. split_and!; [done|done|done|]. constructor; cbn [ready bits nbytes hashes bf].
  - done.
  - lia.
  - lia.
  - reflexivity.
  - eexists. split; [done|]. rewrite length_replicate. lia.
Qed.

Definition demo_key : bytes := [x01; x02; x03; x04; x05; x06].
Definition demo_trace : bytes := title_line ++ print_chunks [Chunk demo_key 100; Chunk demo_key 100].

Lemma demo_parsed : parsed demo_trace [(demo_key, 100); (demo_key, 100)].
Proof.
  unfold parsed. assert (trace_lines demo_trace = print_chunk <$> [Chunk demo_key 100; Chunk demo_key 100]) as ->.
  { unfold demo_trace. rewrite trace_lines_title, <- (app_nil_r (print_chunks _)), trace_lines_print; [by rewrite app_nil_r|].
    repeat (constructor; [split; [done|cbn; lia]|]). constructor. }
  repeat constructor; vm_compute; reflexivity.
Qed.

Lemma demo_fits : chunk_fits (demo_key, 100).
Proof. split; [split; [by repeat constructor|done]|]. cbn. lia. Qed.

Lemma demo_all_fit : Forall chunk_fits [(demo_key, 100); (demo_key, 100)].
Proof. apply Forall_cons. split; [apply demo_fits|]. apply Forall_cons. split; [apply demo_fits|constructor]. Qed.

Definition demo_disk : disk (gmap bytes bytes) := Disk ∅ ∅ None None.

Lemma demo_disk_fresh : disk_fresh [] demo_disk.
Proof. by split_and!. Qed.

Lemma ddfs_stores_once_witness :
  exists d' conts, run_all [] log_point true bloom0 [demo_trace; demo_trace] demo_disk = Ret d' /\
    NoDup (concat conts) /\ (forall k, k ∈ concat conts <-> k ∈ [demo_key; demo_key; demo_key; demo_key]).
Proof.
  destruct ddfs_bloom_init as (B0 & E & _ & _ & _ & Hw).
  destruct (ddfs_stores_once [] log_point true bloom0 B0 demo_disk [demo_trace; demo_trace]
    [[(demo_key, 100); (demo_key, 100)]; [(demo_key, 100); (demo_key, 100)]] E Hw) as (d' & conts & Hr & Hn & Hk & _).
  - exact demo_disk_fresh.
  - constructor; [apply demo_parsed|constructor; [apply demo_parsed|constructor]].
  - constructor; [apply demo_all_fit|constructor; [apply demo_all_fit|constructor]].
  - cbn. lia.
  - exists d', conts. split_and!; [exact Hr|exact Hn|exact Hk].
Defined.

Lemma ddfs_run_counts_witness :
  exists ia ua la d' conts', main log_point true bloom0 [] (Some demo_trace) demo_disk = Ret (0, (ia, ua, la), d') /\
    concat conts' = [demo_key] /\ u64 ua = 1.
Proof.
  destruct ddfs_bloom_init as (B0 & E & _ & _ & _ & Hw).
  destruct (ddfs_run_counts [] log_point true bloom0 B0 demo_disk [] demo_trace
    [(demo_key, 100); (demo_key, 100)] E Hw) as (ia & ua & la & d' & conts' & Hr & Hk & _ & Hu).
  - left. split; [exact demo_disk_fresh|exact eq_refl].
  - apply demo_parsed.
  - apply demo_all_fit.
  - cbn. lia.
  - assert (concat conts' = [demo_key]) as Hc by (rewrite Hk; vm_compute; reflexivity).
    exists ia, ua, la, d', conts'. split_and!; [exact Hr|exact Hc|]. rewrite Hu, Hc. reflexivity.
Defined.

(** ** Fingerprints with NUL bytes *)

(** A small filter in place of the 78 MB one. *)
Definition small_bloom : bloom := Bloom 1000 (Z2double 0) 64 8 2 (Z2double 0) (Some (replicate 8 x00)) 1.

Definition small_engine : ddfs (gmap bytes bytes) :=
  Ddfs small_bloom (lru_new 4) (Cm 0 [] [] 0 []) ∅ ∅ 0 0 0.

(** A chunk can be lost.  Two different fingerprints that start with NUL:
    once the first is in the cache (after a duplicate of it was found in the
    index), the second is taken for a duplicate and never reaches a container
    or the index. *)
Theorem ddfs_nul_chunk_lost :
  exists k1 k2 st', length k1 = FP_SIZE /\ length k2 = FP_SIZE /\ k1 <> k2 /\
    foldM (process_chunk []) [(k1, 1); (k1, 1); (k2, 1)] small_engine = Ret st' /\
    tmp (CMR st') = [k1] /\ fp_find k2 (FPI st') = Ret (-1).
Proof.
  exists [x00; x00; x00; x00; x00; x05], [x00; x00; x00; x00; x01; x00].
  remember (foldM (process_chunk []) [([x00; x00; x00; x00; x00; x05], 1); ([x00; x00; x00; x00; x00; x05], 1);
    ([x00; x00; x00; x00; x01; x00], 1)] small_engine) as r eqn:E.
  assert (match r with
          | Ret st' => tmp (CMR st') = [[x00; x00; x00; x00; x00; x05]] /\
                       fp_find [x00; x00; x00; x00; x01; x00] (FPI st') = Ret (-1)
          | _ => False
          end) as Hrun by (rewrite E; vm_compute; by split).
  clear E. destruct r as [st'|c|]; [|destruct Hrun..]. exists st'. destruct Hrun as [H1 H2].
  split; [reflexivity|]. split; [reflexivity|]. split; [discriminate|]. split; [reflexivity|]. split; [exact H1|exact H2].
Qed.
