(* ===== verification/Coding.v ===== *)
(** * LevelDB's integer and string encodings (util/leveldb/util/coding.cc, coding.h)

    Fixed-width little-endian integers, base-128 varints and length-prefixed
    strings: the encodings every LevelDB file format below is made of.  A
    [char* p, char* limit] pair is the list of bytes between them; a parsing
    function returns the value and the bytes left, [None] for its NULL or
    [false] result. *)

From S2P Require Import Prelude Slice.

(** ** Fixed-width integers

    [kLittleEndian] is the constant of port/port.h that selects the branch. *)

Definition EncodeFixed32 (kLittleEndian : bool) (value : Z) : bytes :=
  if kLittleEndian then le_split 4 value
  else [to_byte (Z.land value 255); to_byte (Z.land (Z.shiftr value 8) 255);
        to_byte (Z.land (Z.shiftr value 16) 255); to_byte (Z.land (Z.shiftr value 24) 255)].

Definition EncodeFixed64 (kLittleEndian : bool) (value : Z) : bytes :=
  if kLittleEndian then le_split 8 value
  else [to_byte (Z.land value 255); to_byte (Z.land (Z.shiftr value 8) 255);
        to_byte (Z.land (Z.shiftr value 16) 255); to_byte (Z.land (Z.shiftr value 24) 255);
        to_byte (Z.land (Z.shiftr value 32) 255); to_byte (Z.land (Z.shiftr value 40) 255);
        to_byte (Z.land (Z.shiftr value 48) 255); to_byte (Z.land (Z.shiftr value 56) 255)].

Definition PutFixed32 (dst : bytes) (value : Z) : bytes := dst ++ EncodeFixed32 true value.
Definition PutFixed64 (dst : bytes) (value : Z) : bytes := dst ++ EncodeFixed64 true value.

(** The byte at [ptr + i]; reading past the buffer is undefined. *)
Definition byte_at (ptr : bytes) (i : nat) : outcome Z :=
  match ptr !! i with Some b => Ret (ub b) | None => Undef end.

Definition DecodeFixed32 (kLittleEndian : bool) (ptr : bytes) : outcome Z :=
  if kLittleEndian then
    (if (4 <=? length ptr)%nat then Ret (le_combine (take 4 ptr)) else Undef)
  else
    b0 ← byte_at ptr 0; b1 ← byte_at ptr 1; b2 ← byte_at ptr 2; b3 ← byte_at ptr 3;
    Ret (Z.lor (Z.lor (Z.lor b0 (Z.shiftl b1 8)) (Z.shiftl b2 16)) (Z.shiftl b3 24)).

Definition DecodeFixed64 (kLittleEndian : bool) (ptr : bytes) : outcome Z :=
  if kLittleEndian then
    (if (8 <=? length ptr)%nat then Ret (le_combine (take 8 ptr)) else Undef)
  else
    lo ← DecodeFixed32 false ptr;
    hi ← DecodeFixed32 false (drop 4 ptr);
    Ret (Z.lor (Z.shiftl hi 32) lo).

(** ** Varints *)

Definition EncodeVarint32 (v : Z) : bytes :=
  if v <? 2 ^ 7 then [to_byte v]
  else if v <? 2 ^ 14 then [to_byte (Z.lor v 128); to_byte (Z.shiftr v 7)]
  else if v <? 2 ^ 21 then [to_byte (Z.lor v 128); to_byte (Z.lor (Z.shiftr v 7) 128); to_byte (Z.shiftr v 14)]
  else if v <? 2 ^ 28 then
    [to_byte (Z.lor v 128); to_byte (Z.lor (Z.shiftr v 7) 128); to_byte (Z.lor (Z.shiftr v 14) 128);
     to_byte (Z.shiftr v 21)]
  else
    [to_byte (Z.lor v 128); to_byte (Z.lor (Z.shiftr v 7) 128); to_byte (Z.lor (Z.shiftr v 14) 128);
     to_byte (Z.lor (Z.shiftr v 21) 128); to_byte (Z.shiftr v 28)].

Definition PutVarint32 (dst : bytes) (v : Z) : bytes := dst ++ EncodeVarint32 v.

(** [while (v >= B) { *(ptr++) = (v & (B-1)) | B; v >>= 7; }]: a [uint64_t]
    needs at most nine rounds. *)
Fixpoint EncodeVarint64_go (fuel : nat) (v : Z) : bytes :=
  match fuel with
  | O => [to_byte v]
  | S fuel' =>
      if 128 <=? v then to_byte (Z.lor (Z.land v 127) 128) :: EncodeVarint64_go fuel' (Z.shiftr v 7)
      else [to_byte v]
  end.

Definition EncodeVarint64 (v : Z) : bytes := EncodeVarint64_go 9 v.
Definition PutVarint64 (dst : bytes) (v : Z) : bytes := dst ++ EncodeVarint64 v.

Fixpoint VarintLength_go (fuel : nat) (v len : Z) : Z :=
  match fuel with
  | O => len
  | S fuel' => if 128 <=? v then VarintLength_go fuel' (Z.shiftr v 7) (len + 1) else len
  end.

Definition VarintLength (v : Z) : Z := VarintLength_go 9 v 1.

(** The loop of the two varint readers: [wrap] is the width of [result], and
    [rounds] the number of values [shift] takes. *)
Fixpoint varint_loop (wrap : Z -> Z) (rounds : nat) (shift result : Z) (p : bytes) : option (Z * bytes) :=
  match rounds, p with
  | S rounds', b :: p' =>
      let byte := ub b in
      if negb (Z.land byte 128 =? 0)
      then varint_loop wrap rounds' (shift + 7) (Z.lor result (wrap (Z.shiftl (Z.land byte 127) shift))) p'
      else Some (Z.lor result (wrap (Z.shiftl byte shift)), p')
  | _, _ => None
  end.

(** [shift <= 28]: five rounds. *)
Definition GetVarint32PtrFallback (p : bytes) : option (Z * bytes) := varint_loop u32 5 0 0 p.

Definition GetVarint32Ptr (p : bytes) : option (Z * bytes) :=
  match p with
  | b :: p' => if Z.land (ub b) 128 =? 0 then Some (ub b, p') else GetVarint32PtrFallback p
  | [] => GetVarint32PtrFallback p
  end.

Definition GetVarint32 (input : bytes) : option (Z * bytes) := GetVarint32Ptr input.

(** [shift <= 63]: ten rounds. *)
Definition GetVarint64Ptr (p : bytes) : option (Z * bytes) := varint_loop u64 10 0 0 p.
Definition GetVarint64 (input : bytes) : option (Z * bytes) := GetVarint64Ptr input.

(** ** Length-prefixed strings *)

(** [value.size()] is converted to [uint32_t]. *)
Definition PutLengthPrefixedSlice (dst value : bytes) : bytes :=
  PutVarint32 dst (u32 (Z.of_nat (length value))) ++ value.

(** The pointer version: [p + len > limit] fails. *)
Definition GetLengthPrefixedSlicePtr (p : bytes) : option (bytes * bytes) :=
  match GetVarint32Ptr p with
  | None => None
  | Some (len, p) =>
      if Z.of_nat (length p) <? len then None
      else Some (take (Z.to_nat len) p, drop (Z.to_nat len) p)
  end.

(** The [Slice] version; the guard makes the assertion of [remove_prefix] hold. *)
Definition GetLengthPrefixedSlice (input : bytes) : option (bytes * bytes) :=
  match GetVarint32 input with
  | Some (len, input) =>
      if len <=? Z.of_nat (length input)
      then Some (take (Z.to_nat len) input, drop (Z.to_nat len) input) else None
  | None => None
  end.

(** ** Bit facts *)

Lemma land_127 v : Z.land v 127 = v mod 128.
Proof. exact (Z.land_ones v 7 ltac:(lia)). Qed.

Lemma land_255 v : Z.land v 255 = v mod 256.
Proof. exact (Z.land_ones v 8 ltac:(lia)). Qed.

Lemma byte_land_128 b : (Z.land (ub b) 128 =? 0) = (ub b <? 128).
Proof. by destruct b. Qed.

Lemma lor_128_small w : 0 <= w < 256 -> Z.lor w 128 = w mod 128 + 128.
Proof.
  intros Hw. assert (forallb (fun n => Z.lor (Z.of_nat n) 128 =? Z.of_nat n mod 128 + 128) (seq 0 256) = true) as Hall
    by (vm_compute; reflexivity).
  rewrite forallb_forall in Hall. specialize (Hall (Z.to_nat w)). rewrite Z2Nat.id in Hall by lia.
  apply Z.eqb_eq, Hall. apply in_seq. lia.
Qed.

(** A continuation byte, written with or without the mask. *)
Lemma ub_more v : 0 <= v -> ub (to_byte (Z.lor v 128)) = v mod 128 + 128.
Proof.
  intros Hv. rewrite ub_to_byte, <- land_255, Z.land_lor_distr_l, land_255.
  change (Z.land 128 255) with 128. pose proof (Z.mod_pos_bound v 256 ltac:(lia)).
  rewrite lor_128_small by lia. f_equal.
  apply Z.mod_mod_divide. by exists 2.
Qed.

Lemma ub_more_masked v : 0 <= v -> to_byte (Z.lor (Z.land v 127) 128) = to_byte (Z.lor v 128).
Proof.
  intros Hv. apply (inj ub). rewrite land_127. pose proof (Z.mod_pos_bound v 128 ltac:(lia)).
  rewrite !ub_more by lia. by rewrite Z.mod_mod by lia.
Qed.

Lemma lor_disjoint r x s : 0 <= s -> 0 <= r < 2 ^ s -> Z.lor r (Z.shiftl x s) = r + x * 2 ^ s.
Proof.
  intros Hs Hr. rewrite <- Z.shiftl_mul_pow2 by done.
  assert (Z.land r (Z.shiftl x s) = 0) as Hd.
  { apply Z.bits_inj_iff. intros n. rewrite Z.land_spec, Z.bits_0.
    destruct (Z.ltb_spec n s) as [Hlt|Hge].
    - rewrite Z.shiftl_spec_low by done. apply andb_false_r.
    - destruct (Z.eq_dec r 0) as [->|Hne]; [by rewrite Z.bits_0|].
      rewrite Z.bits_above_log2; [done|lia|]. apply Z.log2_lt_pow2; [lia|].
      eapply Z.lt_le_trans; [apply Hr|]. apply Z.pow_le_mono_r; lia. }
  rewrite <- Z.lxor_lor by done. rewrite <- Z.add_nocarry_lxor by done. done.
Qed.

(** ** Varints round trip *)

Lemma varint_loop_encode wrap W rounds fuel shift result v rest :
  (forall z, 0 <= z < 2 ^ W -> wrap z = z) -> 0 <= shift -> 0 <= result < 2 ^ shift ->
  0 <= v < 2 ^ (7 * Z.of_nat rounds) -> v < 2 ^ (7 * (Z.of_nat fuel + 1)) -> v * 2 ^ shift < 2 ^ W -> 0 <= W ->
  (0 < rounds)%nat ->
  varint_loop wrap rounds shift result (EncodeVarint64_go fuel v ++ rest) = Some (result + v * 2 ^ shift, rest).
Proof.
  intros Hw. revert fuel shift result v.
  induction rounds as [|rounds IH]; intros fuel shift result v Hs Hr Hv Hf HW HW0 Hn; [lia|].
  assert (forall w, 0 <= w < 128 -> w * 2 ^ shift < 2 ^ W ->
    varint_loop wrap (S rounds) shift result ([to_byte w] ++ rest) = Some (result + w * 2 ^ shift, rest)) as Hlast.
  { intros w Hw1 Hw2. cbn [app varint_loop]. rewrite byte_land_128, ub_to_byte_small by lia.
    replace (w <? 128) with true by lia. cbn [negb]. rewrite Hw.
    - by rewrite lor_disjoint.
    - rewrite Z.shiftl_mul_pow2 by done. split; [apply Z.mul_nonneg_nonneg; lia|done]. }
  destruct fuel as [|fuel]; cbn [EncodeVarint64_go].
  { apply Hlast; [|done]. change (7 * (Z.of_nat 0 + 1)) with 7 in Hf. lia. }
  destruct (Z.leb_spec 128 v) as [Hge|Hlt]; [|apply Hlast; [lia|done]].
  cbn [app varint_loop]. rewrite ub_more_masked by lia. rewrite byte_land_128, ub_more by lia.
  pose proof (Z.mod_pos_bound v 128 ltac:(lia)) as Hm. replace (v mod 128 + 128 <? 128) with false by lia. cbn [negb].
  rewrite land_127. replace ((v mod 128 + 128) mod 128) with (v mod 128)
    by (apply (Z.mod_unique_pos _ _ 1); lia).
  rewrite (Z.shiftr_div_pow2 v 7) by lia. change (2 ^ 7) with 128.
  pose proof (Z.div_mod v 128 ltac:(lia)) as Hdm.
  assert (0 < v / 128) as Hd by (apply Z.div_str_pos; lia).
  assert (0 < 2 ^ shift) as Hp by (apply Z.pow_pos_nonneg; lia).
  assert (2 ^ (shift + 7) = 128 * 2 ^ shift) as Hpow by (rewrite Z.pow_add_r by lia; change (2 ^ 7) with 128; lia).
  rewrite Hw, lor_disjoint; [|done|done|].
  - assert (1 <= rounds)%nat as Hr1.
    { destruct rounds; [|lia]. change (7 * Z.of_nat 1) with 7 in Hv. lia. }
    rewrite IH; [|lia| | | | |done|lia].
    + f_equal. f_equal. rewrite Hpow. rewrite Hdm at 3. ring.
    + rewrite Hpow. nia.
    + split; [lia|]. apply Z.div_lt_upper_bound; [lia|]. change 128 with (2 ^ 7). rewrite <- Z.pow_add_r by lia.
      eapply Z.lt_le_trans; [apply Hv|]. apply Z.pow_le_mono_r; lia.
    + apply Z.div_lt_upper_bound; [lia|]. change 128 with (2 ^ 7). rewrite <- Z.pow_add_r by lia.
      eapply Z.lt_le_trans; [apply Hf|]. apply Z.pow_le_mono_r; lia.
    + rewrite Hpow. nia.
  - rewrite Z.shiftl_mul_pow2 by done. nia.
Qed.

(** The five branches of [EncodeVarint32] are the loop of [EncodeVarint64]. *)
Lemma EncodeVarint32_loop v : 0 <= v < 2 ^ 32 -> EncodeVarint32 v = EncodeVarint64 v.
Proof.
  intros Hv. unfold EncodeVarint32, EncodeVarint64.
  assert (forall n, 0 <= n -> 0 <= Z.shiftr v n) as Hs by (intros; apply Z.shiftr_nonneg; lia).
  assert (forall n, 0 <= n -> (128 <=? Z.shiftr v n) = (2 ^ (n + 7) <=? v)) as Hc.
  { intros n Hn. rewrite Z.shiftr_div_pow2 by done. rewrite Z.pow_add_r by lia. change (2 ^ 7) with 128.
    assert (0 < 2 ^ n) by (apply Z.pow_pos_nonneg; lia).
    destruct (Z.leb_spec (2 ^ n * 128) v) as [H1|H1].
    - apply Z.leb_le. apply Z.div_le_lower_bound; lia.
    - apply Z.leb_gt. apply Z.div_lt_upper_bound; lia. }
  cbn [EncodeVarint64_go]. rewrite !Z.shiftr_shiftr by lia. cbn [Z.add Pos.add Pos.succ Pos.add_carry].
  rewrite !ub_more_masked by (try lia; apply Hs; lia). rewrite !Hc by lia.
  change (7 + 7) with 14. change (14 + 7) with 21. change (21 + 7) with 28. change (28 + 7) with 35.
  destruct (Z.ltb_spec v (2 ^ 7)) as [H1|H1]; [by replace (128 <=? v) with false by lia|].
  replace (128 <=? v) with true by lia.
  destruct (Z.ltb_spec v (2 ^ 14)) as [H2|H2]; [by replace (2 ^ 14 <=? v) with false by lia|].
  replace (2 ^ 14 <=? v) with true by lia.
  destruct (Z.ltb_spec v (2 ^ 21)) as [H3|H3]; [by replace (2 ^ 21 <=? v) with false by lia|].
  replace (2 ^ 21 <=? v) with true by lia.
  destruct (Z.ltb_spec v (2 ^ 28)) as [H4|H4]; [by replace (2 ^ 28 <=? v) with false by lia|].
  replace (2 ^ 28 <=? v) with true by lia. by replace (2 ^ 35 <=? v) with false by lia.
Qed.

Lemma get_varint64 v rest : 0 <= v < 2 ^ 64 -> GetVarint64 (EncodeVarint64 v ++ rest) = Some (v, rest).
Proof.
  intros Hv. unfold GetVarint64, GetVarint64Ptr, EncodeVarint64.
  rewrite (varint_loop_encode u64 64); try lia.
  - f_equal. f_equal. lia.
  - intros. by apply u64_small.
Qed.

Lemma get_varint32 v rest : 0 <= v < 2 ^ 32 -> GetVarint32 (EncodeVarint32 v ++ rest) = Some (v, rest).
Proof.
  intros Hv. rewrite EncodeVarint32_loop by done. unfold GetVarint32.
  assert (GetVarint32PtrFallback (EncodeVarint64 v ++ rest) = Some (v, rest)) as E.
  { unfold GetVarint32PtrFallback, EncodeVarint64. rewrite (varint_loop_encode u32 32); try lia.
    - f_equal. f_equal. lia.
    - intros. by apply u32_small. }
  unfold GetVarint32Ptr. destruct (EncodeVarint64 v ++ rest) as [|b p] eqn:Eb; [done|].
  destruct (Z.land (ub b) 128 =? 0) eqn:Et; [|done]. rewrite byte_land_128 in Et.
  revert E. unfold GetVarint32PtrFallback. cbn [varint_loop]. rewrite byte_land_128, Et. cbn [negb].
  rewrite Z.shiftl_0_r, Z.lor_0_l, u32_small by (pose proof (ub_range b); lia). done.
Qed.

Lemma get_length_prefixed s rest :
  Z.of_nat (length s) < 2 ^ 32 ->
  GetLengthPrefixedSlice (PutLengthPrefixedSlice [] s ++ rest) = Some (s, rest).
Proof.
  intros Hl. unfold GetLengthPrefixedSlice, PutLengthPrefixedSlice, PutVarint32. cbn [app].
  rewrite u32_small, <- app_assoc, get_varint32 by lia. rewrite length_app, Nat2Z.id.
  rewrite (proj2 (Z.leb_le _ _)) by lia. by rewrite take_app_length, drop_app_length.
Qed.

Lemma get_length_prefixed_ptr s rest :
  Z.of_nat (length s) < 2 ^ 32 ->
  GetLengthPrefixedSlicePtr (PutLengthPrefixedSlice [] s ++ rest) = Some (s, rest).
Proof.
  intros Hl. pose proof (get_length_prefixed s rest Hl) as E.
  unfold GetLengthPrefixedSlicePtr, GetLengthPrefixedSlice, GetVarint32 in *.
  destruct (GetVarint32Ptr _) as [[len p]|]; [|done].
  destruct (Z.leb_spec len (Z.of_nat (length p))); [|done]. by rewrite (proj2 (Z.ltb_ge _ _)) by lia.
Qed.

Lemma put_prefix dst s : PutLengthPrefixedSlice dst s = dst ++ PutLengthPrefixedSlice [] s.
Proof. unfold PutLengthPrefixedSlice, PutVarint32. by rewrite <- !app_assoc. Qed.

(** ** Arbitrary input: a reader takes at least one byte and yields a natural number. *)

Lemma varint_loop_total wrap rounds shift result p v p' : (forall x, 0 <= wrap x) -> 0 <= result ->
  varint_loop wrap rounds shift result p = Some (v, p') -> 0 <= v /\ (length p' < length p)%nat.
Proof.
  intros Hw. revert shift result p. induction rounds as [|rounds IH]; intros shift result [|b p] Hr E; try done. cbn [varint_loop] in E. case_match.
  - apply IH in E; [cbn; lia|]. apply Z.lor_nonneg. split; [done|apply Hw].
  - injection E as <- <-. split; [|cbn; lia]. apply Z.lor_nonneg. split; [done|apply Hw].
Qed.

Lemma get_varint32_total p v p' : GetVarint32 p = Some (v, p') -> 0 <= v /\ (length p' < length p)%nat.
Proof.
  unfold GetVarint32, GetVarint32Ptr. destruct p as [|b p]; [done|]. destruct (Z.land (ub b) 128 =? 0).
  - intros [= <- <-]. pose proof (ub_range b). cbn. lia.
  - apply varint_loop_total; [|lia]. intros x. apply Z.mod_pos_bound. lia.
Qed.

Lemma get_varint64_total p v p' : GetVarint64 p = Some (v, p') -> 0 <= v /\ (length p' < length p)%nat.
Proof. apply varint_loop_total; [|lia]. intros x. apply Z.mod_pos_bound. lia. Qed.

Lemma get_length_prefixed_total p s p' : GetLengthPrefixedSlice p = Some (s, p') -> (length p' < length p)%nat.
Proof.
  unfold GetLengthPrefixedSlice. destruct (GetVarint32 p) as [[len q]|] eqn:E; [|done]. apply get_varint32_total in E as [_ Hl].
  destruct (len <=? Z.of_nat (length q)); [|done]. intros [= <- <-]. rewrite length_drop. lia.
Qed.

(** ** Fixed-width integers *)

Lemma encode_fixed32_endian v : EncodeFixed32 false v = EncodeFixed32 true v.
Proof.
  unfold EncodeFixed32. unfold le_split. rewrite !land_255, !Z.shiftr_div_pow2 by lia.
  rewrite !Z.div_div by lia. unfold to_byte. by rewrite !Z.mod_mod by lia.
Qed.

Lemma encode_fixed64_endian v : EncodeFixed64 false v = EncodeFixed64 true v.
Proof.
  unfold EncodeFixed64. unfold le_split. rewrite !land_255, !Z.shiftr_div_pow2 by lia.
  rewrite !Z.div_div by lia. unfold to_byte. by rewrite !Z.mod_mod by lia.
Qed.

Lemma decode_fixed32 v rest : 0 <= v < 2 ^ 32 -> DecodeFixed32 true (EncodeFixed32 true v ++ rest) = Ret v.
Proof.
  intros Hv. unfold DecodeFixed32, EncodeFixed32. rewrite length_app, le_split_length. cbn [Nat.leb Nat.add].
  rewrite take_app_le, take_ge by len. by rewrite le32_roundtrip.
Qed.

Lemma decode_fixed64 v rest : 0 <= v < 2 ^ 64 -> DecodeFixed64 true (EncodeFixed64 true v ++ rest) = Ret v.
Proof.
  intros Hv. unfold DecodeFixed64, EncodeFixed64. rewrite length_app, le_split_length. cbn [Nat.leb Nat.add].
  rewrite take_app_le, take_ge by len. by rewrite le64_roundtrip.
Qed.

(** Arrays of fixed-width words. *)
Lemma put_fixed32_all l p : foldl PutFixed32 p l = p ++ concat (EncodeFixed32 true <$> l).
Proof.
  revert p. induction l as [|r l IH]; intros p; cbn; [by rewrite app_nil_r|]. rewrite IH. unfold PutFixed32. by rewrite <- app_assoc.
Qed.

Lemma fixed_array_length rs : (length (concat (EncodeFixed32 true <$> rs)) = 4 * length rs)%nat.
Proof.
  induction rs as [|r l IH]; [done|]. cbn [fmap list_fmap concat length]. rewrite length_app, IH.
  change (length (EncodeFixed32 true r)) with 4%nat. lia.
Qed.

Lemma fixed_array_drop l i (r : Z) rest : l !! i = Some r ->
  drop (4 * i) (concat (EncodeFixed32 true <$> l) ++ rest) = EncodeFixed32 true r ++ concat (EncodeFixed32 true <$> drop (S i) l) ++ rest.
Proof.
  revert i. induction l as [|x l IH]; intros [|i] Hi; try done.
  - injection Hi as ->. cbn [fmap list_fmap concat Nat.mul drop]. by rewrite <- app_assoc.
  - cbn [fmap list_fmap concat]. rewrite <- app_assoc. replace (4 * S i)%nat with (length (EncodeFixed32 true x) + 4 * i)%nat.
    + rewrite drop_app_add. by apply IH.
    + change (length (EncodeFixed32 true x)) with 4%nat. lia.
Qed.

Lemma byte_at_cons b p i : byte_at (b :: p) (S i) = byte_at p i.
Proof. done. Qed.

(** The shift-and-or decoder reads little-endian bytes. *)
Lemma decode_fixed32_endian p : DecodeFixed32 false p = DecodeFixed32 true p.
Proof.
  unfold DecodeFixed32. destruct p as [|b0 [|b1 [|b2 [|b3 p]]]]; try done.
  cbn [length Nat.leb]. unfold byte_at. cbn [lookup list_lookup mbind outcome_bind take].
  pose proof (ub_range b0). pose proof (ub_range b1). pose proof (ub_range b2). pose proof (ub_range b3).
  rewrite (lor_disjoint (ub b0) (ub b1) 8) by lia. change (2 ^ 8) with 256.
  rewrite (lor_disjoint _ (ub b2) 16) by lia. change (2 ^ 16) with 65536.
  rewrite (lor_disjoint _ (ub b3) 24) by lia. change (2 ^ 24) with 16777216.
  f_equal. rewrite take_0. unfold le_combine. lia.
Qed.

Lemma decode_fixed64_endian p : DecodeFixed64 false p = DecodeFixed64 true p.
Proof.
  unfold DecodeFixed64. rewrite !decode_fixed32_endian. unfold DecodeFixed32. rewrite length_drop.
  destruct (Nat.leb_spec 8 (length p)) as [Hl|Hl].
  - rewrite !(proj2 (Nat.leb_le _ _)) by lia. run. f_equal.
    assert (take 8 p = take 4 p ++ take 4 (drop 4 p)) as ->.
    { rewrite <- (take_drop 4 p) at 1. rewrite take_app_ge by len.
      rewrite length_take. by replace (8 - 4 `min` length p)%nat with 4%nat by lia. }
    assert (length (take 4 p) = 4%nat) as L1 by len.
    assert (length (take 4 (drop 4 p)) = 4%nat) as L2 by len.
    pose proof (le_combine_range (take 4 p)) as R1. rewrite L1 in R1.
    rewrite Z.lor_comm, lor_disjoint by lia.
    destruct (take 4 p) as [|a0 [|a1 [|a2 [|a3 [|]]]]]; try done.
    unfold le_combine. cbn [app]. lia.
  - destruct (Nat.leb_spec 4 (length p)); [|done]. by rewrite (proj2 (Nat.leb_gt _ _)) by lia.
Qed.

(** Fixed-width integers are endian neutral: whichever branch of the
    encoder and of the decoder is compiled, decoding an encoded 32- or 64-bit
    value, followed by anything, gives the value back. *)
Theorem fixed_roundtrip e1 e2 v rest :
  (0 <= v < 2 ^ 32 -> DecodeFixed32 e2 (EncodeFixed32 e1 v ++ rest) = Ret v) /\
  (0 <= v < 2 ^ 64 -> DecodeFixed64 e2 (EncodeFixed64 e1 v ++ rest) = Ret v).
Proof.
  split; intros Hv.
  - destruct e1, e2; rewrite ?encode_fixed32_endian, ?decode_fixed32_endian; by apply decode_fixed32.
  - destruct e1, e2; rewrite ?encode_fixed64_endian, ?decode_fixed64_endian; by apply decode_fixed64.
Qed.

Lemma fixed_roundtrip_witness :
  DecodeFixed32 false (EncodeFixed32 true 305419896 ++ [x00]) = Ret 305419896 /\
  DecodeFixed64 true (EncodeFixed64 false 1311768467463790320 ++ []) = Ret 1311768467463790320.
Proof.
  split; [apply (proj1 (fixed_roundtrip true false 305419896 [x00])); lia|
          apply (proj2 (fixed_roundtrip false true 1311768467463790320 [])); lia].
Defined.

(** ** Truncated and measured varints *)

Lemma varint_truncated wrap rounds fuel shift result v n :
  0 <= v -> (n < length (EncodeVarint64_go fuel v))%nat ->
  varint_loop wrap rounds shift result (take n (EncodeVarint64_go fuel v)) = None.
Proof.
  revert fuel shift result v n. induction rounds as [|rounds IH]; intros fuel shift result v n Hv Hn; [done|].
  destruct fuel as [|fuel]; cbn [EncodeVarint64_go] in *.
  { destruct n; [done|cbn in Hn; lia]. }
  destruct (Z.leb_spec 128 v); [|destruct n; [done|cbn in Hn; lia]].
  destruct n as [|n]; [done|]. cbn [take varint_loop]. rewrite ub_more_masked, byte_land_128, ub_more by lia.
  pose proof (Z.mod_pos_bound v 128 ltac:(lia)). replace (v mod 128 + 128 <? 128) with false by lia. cbn [negb].
  apply IH; [apply Z.shiftr_nonneg; lia|cbn in Hn; lia].
Qed.

Lemma varint_length_go fuel v len :
  VarintLength_go fuel v len = len - 1 + Z.of_nat (length (EncodeVarint64_go fuel v)).
Proof.
  revert v len. induction fuel as [|fuel IH]; intros v len; cbn [VarintLength_go EncodeVarint64_go]; [cbn; lia|].
  destruct (128 <=? v); [|cbn; lia]. rewrite IH. cbn [length]. lia.
Qed.

Lemma varint_length_le fuel v : (0 < length (EncodeVarint64_go fuel v) <= S fuel)%nat.
Proof.
  revert v. induction fuel as [|fuel IH]; intros v; cbn [EncodeVarint64_go]; [cbn; lia|].
  destruct (128 <=? v); [|cbn; lia]. specialize (IH (Z.shiftr v 7)). cbn [length]. lia.
Qed.

Lemma varint32_length v : 0 <= v < 2 ^ 32 -> (0 < length (EncodeVarint32 v) <= 5)%nat.
Proof. intros _. unfold EncodeVarint32. repeat (case_match; [cbn; lia|]). cbn; lia. Qed.

(** Varints.  A 64-bit value followed by anything is read back exactly and
    leaves exactly what follows; its encoding has [VarintLength] bytes, at most
    ten (the size of the buffer in [PutVarint64]); every proper prefix of it is
    rejected.  A 32-bit value round trips through the 32-bit routines in at
    most five bytes, and a string through its length-prefixed encoding. *)
Theorem varint_roundtrip v s rest :
  0 <= v < 2 ^ 64 -> Z.of_nat (length s) < 2 ^ 32 ->
  GetVarint64 (PutVarint64 [] v ++ rest) = Some (v, rest) /\
  Z.of_nat (length (EncodeVarint64 v)) = VarintLength v /\ VarintLength v <= 10 /\
  (forall n, (n < length (EncodeVarint64 v))%nat -> GetVarint64 (take n (EncodeVarint64 v)) = None) /\
  (v < 2 ^ 32 -> GetVarint32 (PutVarint32 [] v ++ rest) = Some (v, rest) /\ (length (EncodeVarint32 v) <= 5)%nat) /\
  GetLengthPrefixedSlice (PutLengthPrefixedSlice [] s ++ rest) = Some (s, rest).
Proof.
  intros Hv Hs. unfold PutVarint64, PutVarint32. cbn [app].
  assert (VarintLength v = Z.of_nat (length (EncodeVarint64 v))) as Hl
    by (unfold VarintLength, EncodeVarint64; rewrite varint_length_go; lia).
  pose proof (varint_length_le 9 v) as Hle. split_and!.
  - by apply get_varint64.
  - done.
  - rewrite Hl. unfold EncodeVarint64. lia.
  - intros n Hn. apply varint_truncated; [lia|exact Hn].
  - intros H32. split; [apply get_varint32; lia|]. apply varint32_length. lia.
  - by apply get_length_prefixed.
Qed.

Lemma varint_roundtrip_witness :
  GetVarint64 (PutVarint64 [] 300 ++ [x07]) = Some (300, [x07]) /\ Z.of_nat (length (EncodeVarint64 300)) = VarintLength 300 /\
  GetLengthPrefixedSlice (PutLengthPrefixedSlice [] (sample_key 1) ++ [x07]) = Some (sample_key 1, [x07]).
Proof.
  destruct (varint_roundtrip 300 (sample_key 1) [x07] ltac:(lia) ltac:(cbn; lia)) as (H1 & H2 & _ & _ & _ & H3).
  split; [exact H1|]. split; [exact H2|exact H3].
Defined.

#[global] Arguments EncodeVarint32 : simpl never.
#[global] Arguments EncodeVarint64 : simpl never.
#[global] Arguments PutLengthPrefixedSlice : simpl never.
#[global] Arguments GetLengthPrefixedSlice : simpl never.
#[global] Arguments GetVarint32 : simpl never.
#[global] Arguments GetVarint64 : simpl never.
#[global] Arguments EncodeFixed32 : simpl never.
#[global] Arguments EncodeFixed64 : simpl never.
#[global] Arguments DecodeFixed32 : simpl never.
#[global] Arguments DecodeFixed64 : simpl never.
