(* ===== verification/FilterPolicy.v ===== *)
(** * LevelDB's hash function and table filters (util/leveldb/util/hash.cc, util/bloom.cc)

    [Hash], the builtin [BloomFilterPolicy] that tables use to skip disk reads,
    and the guarantee a table relies on: a key that was given to
    [CreateFilter] always passes [KeyMayMatch]. *)

From S2P Require Import Prelude Coding Bloom.
From Stdlib Require Import Floats.SpecFloat.

(** ** util/hash.cc *)

Definition HASH_M : Z := 0xc6a4a793.

(** The loop over four-byte words and the [switch] on the bytes left. *)
Fixpoint Hash_go (h : Z) (data : bytes) : Z :=
  match data with
  | b0 :: b1 :: b2 :: b3 :: data' =>
      let h := u32 (h + le_combine [b0; b1; b2; b3]) in
      let h := u32 (h * HASH_M) in
      Hash_go (Z.lxor h (Z.shiftr h 16)) data'
  | [b0; b1; b2] =>
      let h := u32 (h + Z.shiftl (ub b2) 16) in
      let h := u32 (h + Z.shiftl (ub b1) 8) in
      let h := u32 (u32 (h + ub b0) * HASH_M) in
      Z.lxor h (Z.shiftr h 24)
  | [b0; b1] =>
      let h := u32 (h + Z.shiftl (ub b1) 8) in
      let h := u32 (u32 (h + ub b0) * HASH_M) in
      Z.lxor h (Z.shiftr h 24)
  | [b0] =>
      let h := u32 (u32 (h + ub b0) * HASH_M) in
      Z.lxor h (Z.shiftr h 24)
  | [] => h
  end.

Definition Hash (data : bytes) (seed : Z) : Z :=
  Hash_go (Z.lxor seed (u32 (Z.of_nat (length data) * HASH_M))) data.

(** ** util/bloom.cc *)

Definition BloomHash (key : bytes) : Z := Hash key 0xbc9f1d34.

(** [class BloomFilterPolicy] *)
Record BloomFilterPolicy := Policy { bits_per_key_ : Z; k_ : Z }.

(** [0.69] as a double. *)
Definition C069 : spec_float := S754_finite false 6214967485771284 (-53).

(** The constructor: [k_ = static_cast<size_t>(bits_per_key * 0.69)] clamped to
    1..30; a negative [bits_per_key] has an undefined conversion. *)
Definition NewBloomFilterPolicy (bits_per_key : Z) : outcome BloomFilterPolicy :=
  k ← double2int (SFmul 53 1024 (Z2double bits_per_key) C069);
  if k <? 0 then Undef
  else
    let k := if k <? 1 then 1 else k in
    let k := if 30 <? k then 30 else k in
    Ret (Policy (u64 bits_per_key) k).

(** [array[bitpos/8] |= (1 << (bitpos % 8))] on [char]. *)
Definition set_bit (array : bytes) (bitpos : Z) : outcome bytes :=
  match array !! Z.to_nat (bitpos / 8) with
  | Some c => Ret (<[Z.to_nat (bitpos / 8) := to_byte (Z.lor (sb c) (Z.shiftl 1 (bitpos mod 8)))]> array)
  | None => Undef
  end.

(** [(h >> 17) | (h << 15)] in 32 bits. *)
Definition rotate17 (h : Z) : Z := Z.lor (Z.shiftr h 17) (u32 (Z.shiftl h 15)).

(** The [k] probes of one key while writing. *)
Fixpoint set_probes (k : nat) (h delta bits : Z) (array : bytes) : outcome bytes :=
  match k with
  | O => Ret array
  | S k' => array ← set_bit array (h mod bits); set_probes k' (u32 (h + delta)) delta bits array
  end.

Definition add_key (k : Z) (bits : Z) (key : bytes) (array : bytes) : outcome bytes :=
  let h := BloomHash key in set_probes (Z.to_nat k) h (rotate17 h) bits array.

(** [CreateFilter(keys, n, dst)]: the filter is appended to [dst]. *)
Definition CreateFilter (p : BloomFilterPolicy) (keys : list bytes) (dst : bytes) : outcome bytes :=
  let bits := u64 (Z.of_nat (length keys) * bits_per_key_ p) in
  let bits := if bits <? 64 then 64 else bits in
  let nbytes := u64 (bits + 7) / 8 in
  let bits := nbytes * 8 in
  array ← foldM (add_key (k_ p) bits) keys (replicate (Z.to_nat nbytes) x00);
  Ret (dst ++ array ++ [to_byte (k_ p)]).

(** The probes of one key while reading. *)
Fixpoint test_probes (k : nat) (h delta bits : Z) (array : bytes) : outcome bool :=
  match k with
  | O => Ret true
  | S k' =>
      match array !! Z.to_nat (h mod bits / 8) with
      | Some c =>
          if Z.land (sb c) (Z.shiftl 1 ((h mod bits) mod 8)) =? 0 then Ret false
          else test_probes k' (u32 (h + delta)) delta bits array
      | None => Undef
      end
  end.

(** [KeyMayMatch(key, bloom_filter)]: the last byte, a [char] widened to
    [size_t], is the number of probes. *)
Definition KeyMayMatch (key bloom_filter : bytes) : outcome bool :=
  let len := length bloom_filter in
  if (len <? 2)%nat then Ret false
  else
    match bloom_filter !! (len - 1)%nat with
    | None => Undef
    | Some c =>
        let bits := Z.of_nat (len - 1) * 8 in
        let k := u64 (sb c) in
        if 30 <? k then Ret true
        else let h := BloomHash key in test_probes (Z.to_nat k) h (rotate17 h) bits bloom_filter
    end.

(** ** Bits *)

Lemma lor_sb c k : 0 <= k < 8 -> to_byte (Z.lor (sb c) (Z.shiftl 1 k)) = to_byte (Z.lor (ub c) (Z.shiftl 1 k)).
Proof.
  intros Hk. apply (inj ub). rewrite !ub_to_byte, <- !land_255, !Z.land_lor_distr_l. f_equal.
  by destruct c.
Qed.

Lemma land_sb c k : 0 <= k < 8 -> (Z.land (sb c) (Z.shiftl 1 k) =? 0) = negb (Z.testbit (ub c) k).
Proof.
  intros Hk. rewrite land_bit by lia. f_equal. unfold sb. destruct (ub c <? 128); [done|].
  pose proof (ub_range c). rewrite <- (Z.mod_pow2_bits_low (ub c - 256) 8) by lia.
  rewrite <- (Z.mod_pow2_bits_low (ub c) 8) by lia. f_equal.
  change (2 ^ 8) with 256. symmetry. rewrite <- (Z.mod_add (ub c - 256) 1 256) by lia. f_equal. lia.
Qed.

Lemma set_bit_spec array x :
  0 <= x < 8 * Z.of_nat (length array) ->
  exists array', set_bit array x = Ret array' /\ length array' = length array /\
    forall y, 0 <= y -> buf_bit array' y = buf_bit array y || (y =? x).
Proof.
  intros Hx. unfold set_bit.
  assert (Z.to_nat (x / 8) < length array)%nat as Hlt.
  { pose proof (Z.div_lt_upper_bound x 8 (Z.of_nat (length array))). pose proof (Z.div_pos x 8). lia. }
  destruct (lookup_lt_is_Some_2 array _ Hlt) as [c Hc]. rewrite Hc. eexists. split; [done|].
  split; [apply length_insert|]. intros y Hy. pose proof (Z.mod_pos_bound x 8 ltac:(lia)) as Hm.
  rewrite lor_sb by lia. unfold buf_bit.
  assert (forall z, Z.shiftr z 3 = z / 8) as Hsh by (intros; by rewrite Z.shiftr_div_pow2 by lia). rewrite !Hsh.
  destruct (decide (Z.to_nat (y / 8) = Z.to_nat (x / 8))) as [E|E].
  - rewrite E, list_lookup_insert_eq, Hc, ub_set_bit, Z.lor_spec by lia. f_equal.
    destruct (Z.eqb_spec y x) as [->|Hn]; [by rewrite Z.pow2_bits_true by lia|].
    apply Z.pow2_bits_false. intros Hmod. destruct Hn. apply bit_index; rewrite ?Hsh; lia.
  - rewrite list_lookup_insert_ne by done. replace (y =? x) with false; [by rewrite orb_false_r|].
    symmetry. apply Z.eqb_neq. by intros ->.
Qed.

(** ** Probes *)

Fixpoint probe_list (k : nat) (h delta bits : Z) : list Z :=
  match k with O => [] | S k' => h mod bits :: probe_list k' (u32 (h + delta)) delta bits end.

Lemma set_probes_spec k h delta bits array :
  0 < bits -> bits = 8 * Z.of_nat (length array) ->
  exists array', set_probes k h delta bits array = Ret array' /\ length array' = length array /\
    forall y, 0 <= y -> buf_bit array' y = buf_bit array y || bool_decide (y ∈ probe_list k h delta bits).
Proof.
  intros Hb. revert h array. induction k as [|k IH]; intros h array Hl; cbn [set_probes probe_list].
  - exists array. split_and!; [done|done|]. intros y _. by rewrite orb_false_r.
  - pose proof (Z.mod_pos_bound h bits ltac:(lia)).
    destruct (set_bit_spec array (h mod bits)) as (a1 & -> & L1 & B1); [lia|]. run.
    destruct (IH (u32 (h + delta)) a1) as (a2 & -> & L2 & B2); [lia|].
    exists a2. split_and!; [done|lia|]. intros y Hy. rewrite B2, B1, <- orb_assoc by done. f_equal.
    destruct (Z.eqb_spec y (h mod bits)) as [->|Hne]; cbn [orb].
    + symmetry. apply bool_decide_eq_true_2. by left.
    + apply bool_decide_ext. rewrite elem_of_cons. naive_solver.
Qed.

Definition key_probes (k bits : Z) (key : bytes) : list Z :=
  probe_list (Z.to_nat k) (BloomHash key) (rotate17 (BloomHash key)) bits.

Lemma add_keys_spec k bits keys array :
  0 < bits -> bits = 8 * Z.of_nat (length array) ->
  exists array', foldM (add_key k bits) keys array = Ret array' /\ length array' = length array /\
    (forall y, 0 <= y -> buf_bit array y = true -> buf_bit array' y = true) /\
    (forall key y, key ∈ keys -> 0 <= y -> y ∈ key_probes k bits key -> buf_bit array' y = true).
Proof.
  intros Hb. revert array. induction keys as [|key keys IH]; intros array Hl; cbn [foldM].
  - exists array. split_and!; try done. by intros key y ?%not_elem_of_nil.
  - destruct (set_probes_spec (Z.to_nat k) (BloomHash key) (rotate17 (BloomHash key)) bits array Hb Hl)
      as (a1 & E1 & L1 & B1). assert (add_key k bits key array = Ret a1) as -> by exact E1. run.
    destruct (IH a1) as (a2 & -> & L2 & M2 & K2); [lia|]. exists a2. split_and!; [done|lia| |].
    + intros y Hy Hset. apply M2; [done|]. rewrite B1, Hset by done. done.
    + intros key' y [->|Hin]%elem_of_cons Hy Hp; [|by eapply K2]. apply M2; [done|]. rewrite B1 by done.
      rewrite bool_decide_eq_true_2 by exact Hp. apply orb_true_r.
Qed.

Lemma test_probes_all k h delta bits array tail :
  0 < bits -> bits = 8 * Z.of_nat (length array) ->
  (forall y, y ∈ probe_list k h delta bits -> buf_bit array y = true) ->
  test_probes k h delta bits (array ++ tail) = Ret true.
Proof.
  intros Hb Hl. revert h. induction k as [|k IH]; intros h Hall; cbn [test_probes probe_list] in *; [done|].
  pose proof (Z.mod_pos_bound h bits ltac:(lia)) as Hm.
  assert (Z.to_nat (h mod bits / 8) < length array)%nat as Hlt.
  { pose proof (Z.div_lt_upper_bound (h mod bits) 8 (Z.of_nat (length array))). pose proof (Z.div_pos (h mod bits) 8). lia. }
  rewrite lookup_app_l by done. destruct (lookup_lt_is_Some_2 array _ Hlt) as [c Hc]. rewrite Hc.
  pose proof (Z.mod_pos_bound (h mod bits) 8 ltac:(lia)). rewrite land_sb by lia.
  specialize (Hall (h mod bits) ltac:(by left)) as Hset. unfold buf_bit in Hset.
  rewrite Z.shiftr_div_pow2 in Hset by lia. change (2 ^ 3) with 8 in Hset. rewrite Hc in Hset. rewrite Hset. cbn [negb].
  apply IH. intros y Hy. apply Hall. by right.
Qed.

Lemma probe_list_nonneg k h delta bits y : 0 < bits -> y ∈ probe_list k h delta bits -> 0 <= y.
Proof.
  intros Hb. revert h. induction k as [|k IH]; intros h; cbn; [by intros ?%not_elem_of_nil|].
  intros [->|Hy]%elem_of_cons; [|eauto]. apply Z.mod_pos_bound. lia.
Qed.

Lemma test_probes_total k h delta bits array :
  0 < bits -> bits <= 8 * Z.of_nat (length array) -> exists b, test_probes k h delta bits array = Ret b.
Proof.
  intros Hb Hl. revert h. induction k as [|k IH]; intros h; cbn [test_probes]; [by eexists|].
  pose proof (Z.mod_pos_bound h bits ltac:(lia)) as Hm.
  assert (Z.to_nat (h mod bits / 8) < length array)%nat as Hlt.
  { pose proof (Z.div_lt_upper_bound (h mod bits) 8 (Z.of_nat (length array))). pose proof (Z.div_pos (h mod bits) 8). lia. }
  destruct (lookup_lt_is_Some_2 array _ Hlt) as [c ->]. case_match; [by eexists|apply IH].
Qed.

(** A filter never makes a reader touch memory out of bounds. *)
Lemma may_match_total key f : exists b, KeyMayMatch key f = Ret b.
Proof.
  unfold KeyMayMatch. destruct (Nat.ltb_spec (length f) 2); [by eexists|].
  destruct (lookup_lt_is_Some_2 f (length f - 1)) as [c ->]; [lia|]. case_match; [by eexists|]. apply test_probes_total; lia.
Qed.

(** A policy with 0 to 2^31 bits per key appends a filter that every key it was made
    from matches. *)
Lemma create_filter_spec bits_per_key p keys :
  NewBloomFilterPolicy bits_per_key = Ret p -> 0 <= bits_per_key -> (0 < length keys)%nat ->
  Z.of_nat (length keys) * bits_per_key + 64 < 2 ^ 64 ->
  exists filter, (forall dst, CreateFilter p keys dst = Ret (dst ++ filter)) /\
    Z.of_nat (length filter) <= Z.of_nat (length keys) * bits_per_key / 8 + 10 /\
    forall key, key ∈ keys -> KeyMayMatch key filter = Ret true.
Proof.
  unfold NewBloomFilterPolicy. intros (k & Hk & Hp)%bind_Ret Hb Hne Hsz.
  destruct (Z.ltb_spec k 0) as [?|Hk0]; [done|]. injection Hp as <-.
  set (kk := if 30 <? (if k <? 1 then 1 else k) then 30 else if k <? 1 then 1 else k).
  assert (1 <= kk <= 30) as Hkk by (unfold kk; repeat case_match; lia).
  unfold CreateFilter. cbn [bits_per_key_ k_]. fold kk.
  assert (0 <= Z.of_nat (length keys) * bits_per_key) by (apply Z.mul_nonneg_nonneg; lia).
  rewrite (u64_small bits_per_key) by nia.
  rewrite (u64_small (_ * bits_per_key)) by lia.
  set (bits := if _ <? 64 then 64 else _).
  assert (64 <= bits < 2 ^ 64 - 7) as Hbits by (unfold bits; case_match; [lia|]; match goal with H : (_ <? _) = false |- _ => apply Z.ltb_ge in H end; lia).
  rewrite u64_small by lia. set (nb := (bits + 7) / 8).
  assert (8 <= nb) as Hnb by (unfold nb; pose proof (Z.div_le_mono 64 (bits + 7) 8); change (64 / 8) with 8 in *; lia).
  destruct (add_keys_spec kk (nb * 8) keys (replicate (Z.to_nat nb) x00)) as (array & -> & Hl & _ & Hset);
    [lia|rewrite length_replicate; lia|]. rewrite length_replicate in Hl. cbn [mbind outcome_bind app].
  exists (array ++ [to_byte kk]). split; [done|]. split.
  { rewrite length_app. cbn [length]. replace (Z.of_nat (length array + 1)) with (nb + 1) by lia. unfold nb, bits.
    set (n := Z.of_nat (length keys) * bits_per_key) in *. destruct (Z.ltb_spec n 64).
    - change ((64 + 7) / 8) with 8. assert (0 <= n / 8) by (apply Z.div_pos; lia). lia.
    - pose proof (Z.div_le_mono (n + 7) (n + 1 * 8) 8). rewrite Z.div_add in * by lia. lia. }
  intros key Hin. unfold KeyMayMatch. rewrite length_app. cbn [length].
  replace (length array + 1 <? 2)%nat with false by (symmetry; apply Nat.ltb_ge; lia).
  replace (length array + 1 - 1)%nat with (length array) by lia. rewrite list_lookup_middle by done.
  assert (u64 (sb (to_byte kk)) = kk) as ->.
  { unfold sb. rewrite ub_to_byte_small by lia. replace (kk <? 128) with true by lia. apply u64_small. lia. }
  replace (30 <? kk) with false by lia. replace (Z.of_nat (length array) * 8) with (nb * 8) by lia.
  apply test_probes_all; [lia|lia|]. intros y Hy. eapply Hset; [exact Hin| |exact Hy].
  eapply probe_list_nonneg; [|exact Hy]. lia.
Qed.

(** No false negatives: every key handed to [CreateFilter] is reported as a possible
    match by [KeyMayMatch] on the filter it built. *)
Lemma filter_no_false_negative bits_per_key p keys key :
  NewBloomFilterPolicy bits_per_key = Ret p -> 0 <= bits_per_key -> key ∈ keys ->
  Z.of_nat (length keys) * bits_per_key + 64 < 2 ^ 64 ->
  exists filter, CreateFilter p keys [] = Ret filter /\ KeyMayMatch key filter = Ret true.
Proof.
  intros Hp Hb Hin Hsz. destruct (create_filter_spec bits_per_key p keys Hp Hb) as (f & Hf & _ & Hm); [by destruct keys; [inversion Hin|cbn; lia]|done|].
  exists f. rewrite Hf. auto.
Qed.
