(* ===== verification/DbFormat.v ===== *)
(** * LevelDB's internal keys (util/leveldb/db/dbformat.h, dbformat.cc)

    A database entry is stored under an internal key: the user key followed by
    eight bytes that hold a sequence number and a type.  This file has the
    encoding, the comparator that orders internal keys, the separators the
    table builder asks it for, the filter-policy wrapper and the lookup key
    built by every read.  The user comparator is an interface
    ([Comparator], [ComparatorLaws]); the bytewise comparator of
    util/comparator.cc discharges it. *)

From S2P Require Import Prelude Slice Order Coding FilterPolicy.

(** ** Comparators (include/leveldb/comparator.h) *)

Record Comparator := MkComparator {
  cmp_Compare : bytes -> bytes -> Z;
  cmp_FindShortestSeparator : bytes -> bytes -> outcome bytes;
  cmp_FindShortSuccessor : bytes -> bytes;
}.

(** What the header documents: a total order, separators in [start, limit) and
    successors not below the key; [start] may also be left as it is, which is
    what happens when it is not below [limit]. *)
Class ComparatorLaws (c : Comparator) : Prop := {
  cmp_antisym a b : Z.sgn (cmp_Compare c a b) = - Z.sgn (cmp_Compare c b a);
  cmp_trans a b d : cmp_Compare c a b <= 0 -> cmp_Compare c b d <= 0 -> cmp_Compare c a d <= 0;
  cmp_sep a b : exists s, cmp_FindShortestSeparator c a b = Ret s /\
    (s = a \/ cmp_Compare c a s <= 0 /\ cmp_Compare c s b < 0);
  cmp_succ a : cmp_Compare c a (cmp_FindShortSuccessor c a) <= 0;
}.

(** [BytewiseComparator()] *)
Definition BytewiseComparator : Comparator :=
  MkComparator slice_compare FindShortestSeparator FindShortSuccessor.

#[global] Instance bytewise_laws : ComparatorLaws BytewiseComparator.
Proof.
  split; cbn.
  - apply slice_compare_antisym.
  - intros a b d. apply slice_le_trans.
  - intros a b. destruct (separator_spec a b) as (s & E & _ & [->|[H1 H2]]); [by eauto|].
    exists s. unfold slice_lt in *. split; [done|]. right. split; [lia|done].
  - intros a. apply successor_loop_ge.
Qed.

#[global] Instance user_key_order c `{!ComparatorLaws c} : KeyOrder (fun _ => True) (cmp_Compare c).
Proof. split; [intros; apply cmp_antisym|]. intros a b d _ _ _. apply cmp_trans. Qed.

(** ** Encoding *)

(** [enum ValueType]; values read from disk may be outside the two names. *)
Definition kTypeDeletion : Z := 0.
Definition kTypeValue : Z := 1.
Definition kValueTypeForSeek : Z := kTypeValue.
Definition kMaxSequenceNumber : Z := Z.shiftl 1 56 - 1.

Record ParsedInternalKey := PIK { user_key : bytes; sequence : Z; type : Z }.

Definition InternalKeyEncodingLength (key : ParsedInternalKey) : Z :=
  u64 (Z.of_nat (length (user_key key)) + 8).

Definition PackSequenceAndType (seq t : Z) : outcome Z :=
  if negb (seq <=? kMaxSequenceNumber) then Exit 134
  else if negb (t <=? kValueTypeForSeek) then Exit 134
  else Ret (Z.lor (u64 (Z.shiftl seq 8)) t).

Definition AppendInternalKey (result : bytes) (key : ParsedInternalKey) : outcome bytes :=
  p ← PackSequenceAndType (sequence key) (type key);
  Ret (PutFixed64 (result ++ user_key key) p).

(** The last eight bytes, [internal_key.data() + n - 8]. *)
Definition tag_bytes (internal_key : bytes) : bytes := drop (length internal_key - 8) internal_key.

Definition ExtractUserKey (internal_key : bytes) : outcome bytes :=
  if (8 <=? length internal_key)%nat then Ret (take (length internal_key - 8) internal_key) else Exit 134.

Definition ExtractValueType (internal_key : bytes) : outcome Z :=
  if (8 <=? length internal_key)%nat
  then num ← DecodeFixed64 true (tag_bytes internal_key); Ret (Z.land num 0xff)
  else Exit 134.

(** The boolean is the result, the record [*result]; a key shorter than eight
    bytes leaves it unset. *)
Definition ParseInternalKey (internal_key : bytes) : outcome (bool * option ParsedInternalKey) :=
  let n := length internal_key in
  if (n <? 8)%nat then Ret (false, None)
  else
    num ← DecodeFixed64 true (tag_bytes internal_key);
    let c := Z.land num 0xff in
    Ret (c <=? kTypeValue, Some (PIK (take (n - 8) internal_key) (Z.shiftr num 8) c)).

(** ** class InternalKey: its string [rep_], empty when invalid *)

Definition InternalKey_new (uk : bytes) (s t : Z) : outcome bytes := AppendInternalKey [] (PIK uk s t).
Definition InternalKey_DecodeFrom (s : bytes) : bytes := s.
Definition InternalKey_Encode (rep : bytes) : outcome bytes := match rep with [] => Exit 134 | _ => Ret rep end.
Definition InternalKey_user_key (rep : bytes) : outcome bytes := ExtractUserKey rep.
Definition InternalKey_SetFrom (p : ParsedInternalKey) : outcome bytes := AppendInternalKey [] p.

(** ** InternalKeyComparator *)

Definition InternalCompare (c : Comparator) (akey bkey : bytes) : outcome Z :=
  ua ← ExtractUserKey akey;
  vb ← ExtractUserKey bkey;
  let r := cmp_Compare c ua vb in
  if r =? 0 then
    anum ← DecodeFixed64 true (tag_bytes akey);
    bnum ← DecodeFixed64 true (tag_bytes bkey);
    Ret (if bnum <? anum then -1 else if anum <? bnum then 1 else r)
  else Ret r.

Definition InternalKey_Compare (c : Comparator) (a b : bytes) : outcome Z :=
  ea ← InternalKey_Encode a; eb ← InternalKey_Encode b; InternalCompare c ea eb.

(** [assert(this->Compare(a, b) < 0)] *)
Definition assert_less (c : Comparator) (a b : bytes) : outcome unit :=
  r ← InternalCompare c a b; if r <? 0 then Ret tt else Exit 134.

Definition InternalFindShortestSeparator (c : Comparator) (start limit : bytes) : outcome bytes :=
  user_start ← ExtractUserKey start;
  user_limit ← ExtractUserKey limit;
  tmp ← cmp_FindShortestSeparator c user_start user_limit;
  if (length tmp <? length user_start)%nat && (cmp_Compare c user_start tmp <? 0) then
    p ← PackSequenceAndType kMaxSequenceNumber kValueTypeForSeek;
    let tmp := PutFixed64 tmp p in
    _ ← assert_less c start tmp;
    _ ← assert_less c tmp limit;
    Ret tmp
  else Ret start.

Definition InternalFindShortSuccessor (c : Comparator) (key : bytes) : outcome bytes :=
  user_key ← ExtractUserKey key;
  let tmp := cmp_FindShortSuccessor c user_key in
  if (length tmp <? length user_key)%nat && (cmp_Compare c user_key tmp <? 0) then
    p ← PackSequenceAndType kMaxSequenceNumber kValueTypeForSeek;
    let tmp := PutFixed64 tmp p in
    _ ← assert_less c key tmp;
    Ret tmp
  else Ret key.

(** ** InternalFilterPolicy *)

Definition mapM_ret {A B} (f : A -> outcome B) (l : list A) : outcome (list B) :=
  foldM (fun x acc => y ← f x; Ret (acc ++ [y])) l [].

(** The key array is overwritten with the user keys. *)
Definition InternalCreateFilter (p : BloomFilterPolicy) (keys : list bytes) (dst : bytes) : outcome bytes :=
  mkey ← mapM_ret ExtractUserKey keys;
  CreateFilter p mkey dst.

Definition InternalKeyMayMatch (key f : bytes) : outcome bool :=
  uk ← ExtractUserKey key; KeyMayMatch uk f.

(** ** LookupKey

    The buffer [start_ .. end_] and the offset of [kstart_] in it; writing more
    than the buffer's capacity is undefined. *)
Record LookupKey := LK { lk_buffer : bytes; lk_kstart : nat }.

Definition LookupKey_new (uk : bytes) (s : Z) : outcome LookupKey :=
  let usize := Z.of_nat (length uk) in
  let needed := u64 (usize + 13) in
  let capacity := if needed <=? 200 then 200 else needed in
  let klength := EncodeVarint32 (u32 (usize + 8)) in
  p ← PackSequenceAndType s kValueTypeForSeek;
  let buffer := klength ++ uk ++ EncodeFixed64 true p in
  if Z.of_nat (length buffer) <=? capacity then Ret (LK buffer (length klength)) else Undef.

Definition memtable_key (k : LookupKey) : bytes := lk_buffer k.
Definition lookup_internal_key (k : LookupKey) : bytes := drop (lk_kstart k) (lk_buffer k).
Definition lookup_user_key (k : LookupKey) : bytes :=
  take (length (lookup_internal_key k) - 8) (lookup_internal_key k).

(** ** Facts on the encoding *)

Definition tag (seq t : Z) : Z := seq * 256 + t.
Definition valid_tag (seq t : Z) : Prop := 0 <= seq <= kMaxSequenceNumber /\ (t = kTypeDeletion \/ t = kTypeValue).

(** The encoded internal key. *)
Definition ikey (uk : bytes) (seq t : Z) : bytes := uk ++ le_split 8 (tag seq t).

Lemma ikey_length uk seq t : length (ikey uk seq t) = (length uk + 8)%nat.
Proof. unfold ikey. by rewrite length_app, le_split_length. Qed.

Lemma max_sequence : kMaxSequenceNumber = 2 ^ 56 - 1.
Proof. reflexivity. Qed.

Lemma valid_tag_range seq t : valid_tag seq t -> 0 <= tag seq t < 2 ^ 64.
Proof. unfold valid_tag, tag, kTypeDeletion, kTypeValue. rewrite max_sequence. lia. Qed.

Lemma pack_spec seq t : valid_tag seq t -> PackSequenceAndType seq t = Ret (tag seq t).
Proof.
  intros Hv. pose proof (valid_tag_range _ _ Hv) as Hr. destruct Hv as [Hs Ht]. unfold PackSequenceAndType.
  replace (seq <=? kMaxSequenceNumber) with true by lia.
  replace (t <=? kValueTypeForSeek) with true by (unfold kValueTypeForSeek; destruct Ht as [->| ->]; reflexivity).
  cbn [negb]. f_equal. assert (0 <= t < 2) by (unfold kTypeDeletion, kTypeValue in Ht; lia). unfold tag in *.
  rewrite Z.shiftl_mul_pow2, u64_small by (change (2 ^ 8) with 256; lia).
  rewrite Z.lor_comm, <- Z.shiftl_mul_pow2, lor_disjoint by (change (2 ^ 8) with 256; lia).
  change (2 ^ 8) with 256. lia.
Qed.

Lemma append_internal_key r uk seq t :
  valid_tag seq t -> AppendInternalKey r (PIK uk seq t) = Ret (r ++ ikey uk seq t).
Proof.
  intros Hv. unfold AppendInternalKey. cbn [sequence type user_key]. rewrite pack_spec by done. cbn.
  unfold PutFixed64, ikey. by rewrite <- app_assoc.
Qed.

Lemma user_tag_split (uk w : bytes) : length w = 8%nat ->
  take (length (uk ++ w) - 8) (uk ++ w) = uk /\ tag_bytes (uk ++ w) = w.
Proof.
  intros Hw. unfold tag_bytes. rewrite length_app, Hw, Nat.add_sub.
  by rewrite take_app_length, drop_app_length.
Qed.

Lemma extract_user_key_app (uk w : bytes) : length w = 8%nat -> ExtractUserKey (uk ++ w) = Ret uk.
Proof.
  intros Hw. unfold ExtractUserKey. replace (8 <=? length (uk ++ w))%nat with true.
  - f_equal. by apply user_tag_split.
  - symmetry. apply Nat.leb_le. rewrite length_app. lia.
Qed.

Lemma decode_fixed64_le (w : bytes) : length w = 8%nat -> DecodeFixed64 true w = Ret (le_combine w).
Proof. intros Hw. unfold DecodeFixed64. rewrite Hw. cbn. by rewrite take_ge by lia. Qed.

(** Every key of at least eight bytes is a user key and a tag. *)
Lemma internal_key_split (k : bytes) : (8 <= length k)%nat ->
  exists uk w : bytes, k = uk ++ w /\ length w = 8%nat.
Proof.
  intros Hk. exists (take (length k - 8) k), (drop (length k - 8) k).
  rewrite take_drop, length_drop. split; [done|lia].
Qed.

(** The order on (user key, tag) pairs that the comparator implements. *)
Definition icmp (c : Comparator) (ua : bytes) (anum : Z) (vb : bytes) (bnum : Z) : Z :=
  let r := cmp_Compare c ua vb in
  if r =? 0 then (if bnum <? anum then -1 else if anum <? bnum then 1 else r) else r.

Lemma internal_compare_app c (ua wa vb wb : bytes) : length wa = 8%nat -> length wb = 8%nat ->
  InternalCompare c (ua ++ wa) (vb ++ wb) = Ret (icmp c ua (le_combine wa) vb (le_combine wb)).
Proof.
  intros Ha Hb. unfold InternalCompare, icmp. rewrite !extract_user_key_app by done. run.
  destruct (_ =? 0); [|done]. rewrite (proj2 (user_tag_split ua wa Ha)), (proj2 (user_tag_split vb wb Hb)).
  by rewrite !decode_fixed64_le by done.
Qed.

Lemma internal_compare_ikey c ua sa ta vb sb tb : valid_tag sa ta -> valid_tag sb tb ->
  InternalCompare c (ikey ua sa ta) (ikey vb sb tb) = Ret (icmp c ua (tag sa ta) vb (tag sb tb)).
Proof.
  intros Ha Hb. unfold ikey. rewrite internal_compare_app by apply le_split_length.
  by rewrite !le64_roundtrip by (by apply valid_tag_range).
Qed.

Section ComparatorFacts.
Context (c : Comparator) `{!ComparatorLaws c}.

Lemma cmp_refl a : cmp_Compare c a a = 0.
Proof. pose proof (cmp_antisym a a). lia. Qed.

Lemma cmp_lt_le a b d : cmp_Compare c a b < 0 -> cmp_Compare c b d <= 0 -> cmp_Compare c a d < 0.
Proof.
  intros H1 H2. destruct (Z.le_gt_cases 0 (cmp_Compare c a d)) as [H3|]; [|done].
  pose proof (cmp_antisym a d). pose proof (cmp_antisym a b).
  assert (cmp_Compare c b a <= 0) by (eapply cmp_trans; [exact H2|lia]). lia.
Qed.

Lemma cmp_le_lt a b d : cmp_Compare c a b <= 0 -> cmp_Compare c b d < 0 -> cmp_Compare c a d < 0.
Proof.
  intros H1 H2. destruct (Z.le_gt_cases 0 (cmp_Compare c a d)) as [H3|]; [|done].
  pose proof (cmp_antisym a d). pose proof (cmp_antisym b d).
  assert (cmp_Compare c d b <= 0) by (eapply cmp_trans; [|exact H1]; lia). lia.
Qed.

Lemma icmp_antisym ua na vb nb : Z.sgn (icmp c ua na vb nb) = - Z.sgn (icmp c vb nb ua na).
Proof.
  unfold icmp. pose proof (cmp_antisym ua vb).
  zcases; lia.
Qed.

Lemma icmp_trans u1 n1 u2 n2 u3 n3 :
  icmp c u1 n1 u2 n2 <= 0 -> icmp c u2 n2 u3 n3 <= 0 -> icmp c u1 n1 u3 n3 <= 0.
Proof.
  unfold icmp. pose proof (cmp_trans u1 u2 u3). pose proof (cmp_lt_le u1 u2 u3). pose proof (cmp_le_lt u1 u2 u3).
  pose proof (cmp_antisym u1 u2). pose proof (cmp_antisym u2 u3). pose proof (cmp_antisym u1 u3).
  pose proof (cmp_trans u3 u2 u1).
  zcases; lia.
Qed.
End ComparatorFacts.

Lemma tag_parts seq t : valid_tag seq t -> Z.land (tag seq t) 255 = t /\ Z.shiftr (tag seq t) 8 = seq.
Proof.
  intros [Hs Ht]. unfold tag. rewrite land_255, Z.shiftr_div_pow2 by lia. change (2 ^ 8) with 256.
  assert (0 <= t < 256) by (destruct Ht as [->| ->]; split; done). split.
  - rewrite Z.add_comm, Z.mod_add, Z.mod_small by lia. done.
  - rewrite Z.div_add_l, Z.div_small by lia. lia.
Qed.

Lemma decode_tag seq t : valid_tag seq t -> DecodeFixed64 true (le_split 8 (tag seq t)) = Ret (tag seq t).
Proof. intros Ht. rewrite decode_fixed64_le by apply le_split_length. f_equal. by apply le64_roundtrip, valid_tag_range. Qed.

Lemma parse_ikey u seq t : valid_tag seq t -> ParseInternalKey (ikey u seq t) = Ret (true, Some (PIK u seq t)).
Proof.
  intros Ht. unfold ParseInternalKey, ikey. destruct (user_tag_split u _ (le_split_length 8 (tag seq t))) as [-> ->]. rewrite decode_tag by done. run.
  replace (length (u ++ le_split 8 (tag seq t)) <? 8)%nat with false by (symmetry; apply Nat.ltb_ge; rewrite length_app, le_split_length; lia).
  destruct (tag_parts seq t Ht) as [-> ->]. replace (t <=? kTypeValue) with true by (destruct Ht as [_ [->| ->]]; reflexivity). done.
Qed.

(** ** Properties *)

(** Internal keys round trip and sort newest first.  For sequence numbers
    that fit in 56 bits, [AppendInternalKey] produces a key that
    [ParseInternalKey] and [ExtractUserKey] take apart again, and the comparator
    puts one before another exactly when its user key is smaller, or equal with
    a larger sequence number, or both equal with a larger type. *)
Theorem internal_key_order c ua sa ta vb sb tb :
  valid_tag sa ta -> valid_tag sb tb ->
  exists ka kb r,
    AppendInternalKey [] (PIK ua sa ta) = Ret ka /\ AppendInternalKey [] (PIK vb sb tb) = Ret kb /\
    ParseInternalKey ka = Ret (true, Some (PIK ua sa ta)) /\
    ExtractUserKey ka = Ret ua /\ ExtractValueType ka = Ret ta /\
    InternalCompare c ka kb = Ret r /\
    (r < 0 <-> cmp_Compare c ua vb < 0 \/
               cmp_Compare c ua vb = 0 /\ (sb < sa \/ sb = sa /\ tb < ta)).
Proof.
  intros Ha Hb. exists (ikey ua sa ta), (ikey vb sb tb), (icmp c ua (tag sa ta) vb (tag sb tb)).
  rewrite !append_internal_key by done.
  assert (length (le_split 8 (tag sa ta)) = 8%nat) as Hl by apply le_split_length.
  pose proof (decode_tag sa ta Ha) as Hdec. destruct (tag_parts sa ta Ha) as [Hland _].
  split_and!; [done|done| | | |by apply internal_compare_ikey|].
  - by apply parse_ikey.
  - by apply extract_user_key_app.
  - unfold ExtractValueType, ikey. destruct (user_tag_split ua _ Hl) as [_ ->]. rewrite Hdec. run.
    replace (8 <=? length (ua ++ le_split 8 (tag sa ta)))%nat with true
      by (symmetry; apply Nat.leb_le; rewrite length_app; lia). by rewrite Hland.
  - unfold icmp, tag, valid_tag, kTypeDeletion, kTypeValue in *.
    zcases; lia.
Qed.

Lemma internal_key_order_witness :
  valid_tag 7 kTypeValue /\ valid_tag 6 kTypeDeletion /\
  exists ka kb r, AppendInternalKey [] (PIK [x61] 7 kTypeValue) = Ret ka /\
    AppendInternalKey [] (PIK [x61] 6 kTypeDeletion) = Ret kb /\
    InternalCompare BytewiseComparator ka kb = Ret r /\ r < 0.
Proof.
  assert (valid_tag 7 kTypeValue) as H1 by (split; [rewrite max_sequence; lia|by right]).
  assert (valid_tag 6 kTypeDeletion) as H2 by (split; [rewrite max_sequence; lia|by left]).
  destruct (internal_key_order BytewiseComparator [x61] 7 kTypeValue [x61] 6 kTypeDeletion H1 H2)
    as (ka & kb & r & E1 & E2 & _ & _ & _ & E3 & Hr).
  split; [exact H1|]. split; [exact H2|]. exists ka, kb, r. split; [exact E1|]. split; [exact E2|]. split; [exact E3|].
  apply Hr. right. split; [reflexivity|]. left. lia.
Defined.

Lemma seek_tag_valid : valid_tag kMaxSequenceNumber kValueTypeForSeek.
Proof. split; [rewrite max_sequence; lia|by right]. Qed.

(** The branch that tacks the seek tag on a shortened user key [tmp]. *)
Lemma tack_on c ua wa tmp :
  length wa = 8%nat -> cmp_Compare c ua tmp < 0 ->
  PackSequenceAndType kMaxSequenceNumber kValueTypeForSeek = Ret (tag kMaxSequenceNumber kValueTypeForSeek) /\
  InternalCompare c (ua ++ wa) (PutFixed64 tmp (tag kMaxSequenceNumber kValueTypeForSeek)) = Ret (cmp_Compare c ua tmp).
Proof.
  intros Hw Hlt. split; [apply pack_spec, seek_tag_valid|]. unfold PutFixed64.
  rewrite internal_compare_app by (done || apply le_split_length). unfold icmp.
  by replace (cmp_Compare c ua tmp =? 0) with false by lia.
Qed.

Lemma internal_successor_spec c start : ComparatorLaws c -> (8 <= length start)%nat ->
  exists s r1, InternalFindShortSuccessor c start = Ret s /\ (8 <= length s <= length start)%nat /\
     InternalCompare c start s = Ret r1 /\ r1 <= 0.
Proof.
  intros Hc Hk. destruct (internal_key_split start Hk) as (ua & wa & -> & Hwa).
  assert (InternalCompare c (ua ++ wa) (ua ++ wa) = Ret 0) as Hrefl.
  { rewrite internal_compare_app by done. unfold icmp. rewrite cmp_refl by done.
    by rewrite Z.ltb_irrefl. }
  unfold InternalFindShortSuccessor. rewrite !extract_user_key_app by done. run.
  destruct (_ && _) eqn:Hcond; [|exists (ua ++ wa), 0; rewrite length_app, Hwa; split_and!; first [done|lia]].
  apply andb_true_iff in Hcond as [Hlen%Nat.ltb_lt Hlt%Z.ltb_lt].
  destruct (tack_on c ua wa _ Hwa Hlt) as [-> E1]. run. unfold assert_less.
  rewrite E1. run. pose proof (proj2 (Z.ltb_lt _ _) Hlt) as ->. run.
  do 2 eexists. split; [done|]. split; [unfold PutFixed64; rewrite !length_app; change (length (EncodeFixed64 true _)) with 8%nat; lia|]. split; [exact E1|lia].
Qed.

Lemma internal_separator_spec c start limit r :
  ComparatorLaws c -> InternalCompare c start limit = Ret r -> r < 0 ->
  (exists s r1 r2, InternalFindShortestSeparator c start limit = Ret s /\ (8 <= length s <= length start)%nat /\
     InternalCompare c start s = Ret r1 /\ r1 <= 0 /\ InternalCompare c s limit = Ret r2 /\ r2 < 0 /\
     (s = start \/ forall k, ExtractUserKey k = ExtractUserKey limit -> exists r3, InternalCompare c s k = Ret r3 /\ r3 < 0)) /\
  (exists s r1, InternalFindShortSuccessor c start = Ret s /\ (8 <= length s <= length start)%nat /\
     InternalCompare c start s = Ret r1 /\ r1 <= 0).
Proof.
  intros Hc Hcmp Hr.
  assert (exists ua wa, start = ua ++ wa /\ length wa = 8%nat) as (ua & wa & -> & Hwa).
  { apply internal_key_split. unfold InternalCompare, ExtractUserKey in Hcmp.
    destruct (Nat.leb_spec 8 (length start)); [done|discriminate]. }
  assert (exists vb wb, limit = vb ++ wb /\ length wb = 8%nat) as (vb & wb & -> & Hwb).
  { apply internal_key_split. unfold InternalCompare in Hcmp. rewrite extract_user_key_app in Hcmp by done.
    unfold ExtractUserKey in Hcmp. destruct (Nat.leb_spec 8 (length limit)); [done|discriminate]. }
  assert (InternalCompare c (ua ++ wa) (ua ++ wa) = Ret 0) as Hrefl.
  { rewrite internal_compare_app by done. unfold icmp. rewrite cmp_refl by done.
    by rewrite Z.ltb_irrefl. }
  split.
  - unfold InternalFindShortestSeparator. rewrite !extract_user_key_app by done. run.
    destruct (cmp_sep ua vb) as (s & -> & Hs). run.
    destruct (_ && _) eqn:Hcond; [|exists (ua ++ wa), 0, r; rewrite length_app, Hwa; split_and!; first [done|lia|by left]].
    apply andb_true_iff in Hcond as [Hlen%Nat.ltb_lt Hlt%Z.ltb_lt].
    destruct Hs as [->|[_ Hlim]]; [lia|]. destruct (tack_on c ua wa s Hwa Hlt) as [-> E1].
    assert (InternalCompare c (PutFixed64 s (tag kMaxSequenceNumber kValueTypeForSeek)) (vb ++ wb)
            = Ret (cmp_Compare c s vb)) as E2.
    { unfold PutFixed64. rewrite internal_compare_app by (done || apply le_split_length). unfold icmp.
      by replace (cmp_Compare c s vb =? 0) with false by lia. }
    run. unfold assert_less. rewrite E1, E2. run.
    replace (cmp_Compare c ua s <? 0) with true by lia. replace (cmp_Compare c s vb <? 0) with true by lia.
    run. do 3 eexists. split; [done|]. split; [unfold PutFixed64; rewrite !length_app; change (length (EncodeFixed64 true _)) with 8%nat; lia|].
    split_and!; [exact E1|lia|exact E2|done|]. right. intros k Hk.
    assert (exists wk, k = vb ++ wk /\ length wk = 8%nat) as (wk & -> & Hwk).
    { destruct (internal_key_split k) as (uk & wk & -> & Hwk); [unfold ExtractUserKey in Hk; destruct (Nat.leb_spec 8 (length k)); done|].
      rewrite extract_user_key_app in Hk by done. injection Hk as ->. by exists wk. }
    exists (cmp_Compare c s vb). split; [|done]. unfold PutFixed64. rewrite internal_compare_app by (done || apply le_split_length). unfold icmp.
    by replace (cmp_Compare c s vb =? 0) with false by lia.
  - apply internal_successor_spec; [done|]. rewrite length_app. lia.
Qed.

(** Index-block keys stay between their neighbours.  With a lawful user
    comparator, [FindShortestSeparator] on internal keys [start < limit] returns
    (its assertions hold) a key in [start, limit) that is never longer than
    [start] and that, unless it is [start] itself, is below every version of
    [limit]'s user key; [FindShortSuccessor] returns one that is not below its
    argument. *)
Theorem internal_separator c start limit r :
  ComparatorLaws c -> InternalCompare c start limit = Ret r -> r < 0 ->
  (exists s r1 r2, InternalFindShortestSeparator c start limit = Ret s /\ (8 <= length s <= length start)%nat /\
     InternalCompare c start s = Ret r1 /\ r1 <= 0 /\ InternalCompare c s limit = Ret r2 /\ r2 < 0 /\
     (s = start \/ forall k, ExtractUserKey k = ExtractUserKey limit -> exists r3, InternalCompare c s k = Ret r3 /\ r3 < 0)) /\
  (exists s r1, InternalFindShortSuccessor c start = Ret s /\ (8 <= length s <= length start)%nat /\
     InternalCompare c start s = Ret r1 /\ r1 <= 0).
Proof. apply internal_separator_spec. Qed.

Lemma internal_separator_witness :
  exists start limit s, InternalKey_new [x61; x62; x63] 5 kTypeValue = Ret start /\
    InternalKey_new [x61; x64; x63] 9 kTypeValue = Ret limit /\
    InternalFindShortestSeparator BytewiseComparator start limit = Ret s /\ (length s <= length start)%nat.
Proof.
  set (a := [x61; x62; x63; x01; x05; x00; x00; x00; x00; x00; x00]).
  set (b := [x61; x64; x63; x01; x09; x00; x00; x00; x00; x00; x00]).
  destruct (internal_separator BytewiseComparator a b (-2) _ ltac:(vm_compute; reflexivity) ltac:(lia))
    as [(s & r1 & r2 & E & L & _) _].
  exists a, b, s. split; [vm_compute; reflexivity|]. split; [vm_compute; reflexivity|]. split; [exact E|apply L].
Defined.

(** The lookup key fits its buffer, and is the memtable entry prefix of the
    user key at sequence number [s]. *)
Lemma lookup_key_spec uk s :
  0 <= s <= kMaxSequenceNumber -> Z.of_nat (length uk) + 13 < 2 ^ 32 ->
  exists k, LookupKey_new uk s = Ret k /\
    memtable_key k = PutLengthPrefixedSlice [] (ikey uk s kValueTypeForSeek) /\
    lookup_internal_key k = ikey uk s kValueTypeForSeek /\ lookup_user_key k = uk.
Proof.
  intros Hs Hl. unfold LookupKey_new.
  rewrite pack_spec by (split; [done|by right]). run.
  rewrite u64_small, (u32_small (_ + 8)) by lia.
  assert (length (ikey uk s kValueTypeForSeek) = (length uk + 8)%nat) as Hil
    by (unfold ikey; by rewrite length_app, le_split_length).
  destruct (varint32_length (Z.of_nat (length uk) + 8)) as [Hv1 Hv2]; [lia|].
  rewrite !length_app. change (length (EncodeFixed64 true _)) with 8%nat.
  replace (_ <=? (if _ <=? 200 then _ else _)) with true
    by (destruct (Z.leb_spec (Z.of_nat (length uk) + 13) 200); symmetry; apply Z.leb_le; lia).
  eexists. split; [done|]. unfold lookup_user_key, lookup_internal_key, memtable_key.
  cbn [lk_buffer lk_kstart]. rewrite drop_app_length. split_and!; [|done|].
  - unfold PutLengthPrefixedSlice, PutVarint32. rewrite Hil, Nat2Z.inj_add, u32_small by lia. done.
  - apply (user_tag_split uk (le_split 8 _)). apply le_split_length.
Qed.

Lemma extract_ikey uk seq t : ExtractUserKey (ikey uk seq t) = Ret uk.
Proof. apply extract_user_key_app, le_split_length. Qed.

Lemma extract_user_keys (entries : list (bytes * Z * Z)) :
  mapM_ret ExtractUserKey ((fun '(u, q, y) => ikey u q y) <$> entries) = Ret (fst ∘ fst <$> entries).
Proof.
  unfold mapM_ret. enough (forall acc, foldM (fun x acc => y ← ExtractUserKey x; Ret (acc ++ [y]))
    ((fun '(u, q, y) => ikey u q y) <$> entries) acc = Ret (acc ++ (fst ∘ fst <$> entries))) as H by apply H.
  induction entries as [|[[u q] y] entries IH]; intros acc; cbn; [by rewrite app_nil_r|].
  rewrite extract_ikey. run. rewrite IH. by rewrite <- app_assoc.
Qed.

(** Filters built over internal keys answer for user keys.  Whatever the
    sequence numbers, a filter made by the wrapper from internal keys never
    excludes a lookup of one of their user keys at any sequence number. *)
Theorem internal_filter_no_false_negative bits_per_key p (entries : list (bytes * Z * Z)) uk seq t s :
  NewBloomFilterPolicy bits_per_key = Ret p -> 0 <= bits_per_key ->
  Z.of_nat (length entries) * bits_per_key + 64 < 2 ^ 64 ->
  (uk, seq, t) ∈ entries ->
  exists filter,
    InternalCreateFilter p ((fun '(u, q, y) => ikey u q y) <$> entries) [] = Ret filter /\
    InternalKeyMayMatch (ikey uk s kValueTypeForSeek) filter = Ret true.
Proof.
  intros Hp Hb Hsz Hin.
  destruct (filter_no_false_negative bits_per_key p (fst ∘ fst <$> entries) uk Hp Hb) as (f & E1 & E2).
  - apply list_elem_of_fmap. by exists (uk, seq, t).
  - by rewrite length_fmap.
  - exists f. unfold InternalCreateFilter, InternalKeyMayMatch. rewrite extract_user_keys.
    by rewrite extract_ikey.
Qed.

Lemma internal_filter_witness :
  exists p filter, NewBloomFilterPolicy 10 = Ret p /\
    InternalCreateFilter p [ikey [x61] 3 kTypeValue; ikey [x62] 4 kTypeDeletion] [] = Ret filter /\
    InternalKeyMayMatch (ikey [x62] 9 kValueTypeForSeek) filter = Ret true.
Proof.
  assert (NewBloomFilterPolicy 10 = Ret (Policy 10 6)) as E by (vm_compute; reflexivity).
  destruct (internal_filter_no_false_negative 10 (Policy 10 6) [([x61], 3, kTypeValue); ([x62], 4, kTypeDeletion)]
    [x62] 4 kTypeDeletion 9 E) as (f & E1 & E2).
  - lia.
  - cbn. lia.
  - apply elem_of_cons. right. by apply list_elem_of_singleton.
  - exists (Policy 10 6), f. split; [exact E|]. split; [exact E1|exact E2].
Defined.
