(* ===== verification/InternalOrder.v ===== *)
(** * The order of internal keys

    The comparator of db/dbformat.cc as an order on the keys that have a tag, and how it
    relates to the order of the user keys. *)

From S2P Require Import Prelude Order DbFormat.
#[local] Open Scope Z_scope.

(** Internal keys end in an eight-byte tag. *)
Definition internal_good (k : bytes) : Prop := (8 <= length k)%nat.

(** The user key of an internal key. *)
Definition ukey (k : bytes) : bytes := take (length k - 8) k.

Definition internal_ord (c : Comparator) (a b : bytes) : Z := match InternalCompare c a b with Ret r => r | _ => 0 end.

Lemma internal_ord_split c a b : internal_good a -> internal_good b -> exists ua na vb nb,
  InternalCompare c a b = Ret (icmp c ua na vb nb) /\ internal_ord c a b = icmp c ua na vb nb /\
  take (length a - 8) a = ua /\ le_combine (tag_bytes a) = na /\ take (length b - 8) b = vb /\ le_combine (tag_bytes b) = nb.
Proof.
  intros Ha Hb. destruct (internal_key_split a Ha) as (ua & wa & -> & Hwa). destruct (internal_key_split b Hb) as (vb & wb & -> & Hwb).
  destruct (user_tag_split ua wa Hwa) as [-> ->], (user_tag_split vb wb Hwb) as [-> ->].
  exists ua, (le_combine wa), vb, (le_combine wb). unfold internal_ord. by rewrite internal_compare_app.
Qed.

Lemma internal_ord_value c a b r : InternalCompare c a b = Ret r -> internal_ord c a b = r.
Proof. intros E. unfold internal_ord. by rewrite E. Qed.

#[global] Instance internal_keys_ordered c `{!ComparatorLaws c} : KeyOrder internal_good (internal_ord c).
Proof.
  split.
  - intros a b Ha Hb. destruct (internal_ord_split c a b Ha Hb) as (? & ? & ? & ? & _ & -> & <- & <- & <- & <-).
    destruct (internal_ord_split c b a Hb Ha) as (? & ? & ? & ? & _ & -> & <- & <- & <- & <-). by apply icmp_antisym.
  - intros a b d Ha Hb Hd. destruct (internal_ord_split c a b Ha Hb) as (? & ? & ? & ? & _ & -> & <- & <- & <- & <-).
    destruct (internal_ord_split c b d Hb Hd) as (? & ? & ? & ? & _ & -> & <- & <- & <- & <-).
    destruct (internal_ord_split c a d Ha Hd) as (? & ? & ? & ? & _ & -> & <- & <- & <- & <-). by apply icmp_trans.
Qed.

Lemma compare_good c a b : internal_good a -> internal_good b -> InternalCompare c a b = Ret (internal_ord c a b).
Proof. intros Ha Hb. destruct (internal_ord_split c a b Ha Hb) as (? & ? & ? & ? & -> & -> & _). done. Qed.

Lemma extract_ukey k : internal_good k -> ExtractUserKey k = Ret (ukey k).
Proof. intros Hk. unfold ExtractUserKey. by rewrite (proj2 (Nat.leb_le _ _)) by done. Qed.

Lemma ukey_ikey u seq t : ukey (ikey u seq t) = u.
Proof. unfold ukey, ikey. rewrite length_app, le_split_length. by rewrite take_app_length' by lia. Qed.

Lemma ikey_good u seq t : internal_good (ikey u seq t).
Proof. unfold internal_good. rewrite ikey_length. lia. Qed.

Lemma encode_good k : internal_good k -> InternalKey_Encode k = Ret k.
Proof. unfold internal_good. destruct k; [cbn; lia|done]. Qed.

(** The order of internal keys refines the order of user keys. *)
Lemma internal_user_le c a b : internal_good a -> internal_good b -> internal_ord c a b <= 0 -> cmp_Compare c (ukey a) (ukey b) <= 0.
Proof.
  intros Ha Hb. destruct (internal_ord_split c a b Ha Hb) as (? & ? & ? & ? & _ & -> & <- & <- & <- & <-). fold (ukey a) (ukey b). unfold icmp.
  destruct (Z.eqb_spec (cmp_Compare c (ukey a) (ukey b)) 0); lia.
Qed.

Lemma user_lt_internal c a b : internal_good a -> internal_good b -> cmp_Compare c (ukey a) (ukey b) < 0 -> internal_ord c a b < 0.
Proof.
  intros Ha Hb Hlt. destruct (internal_ord_split c a b Ha Hb) as (? & ? & ? & ? & _ & -> & <- & <- & <- & <-). fold (ukey a) (ukey b). unfold icmp.
  destruct (Z.eqb_spec (cmp_Compare c (ukey a) (ukey b)) 0); lia.
Qed.

(** Keys whose tag the database writes. *)
Definition valid_key (k : bytes) : Prop := exists u seq t, k = ikey u seq t /\ valid_tag seq t.

Lemma ikey_valid u seq t : valid_tag seq t -> valid_key (ikey u seq t).
Proof. intros Ht. by exists u, seq, t. Qed.

Lemma value_tag seq : 0 <= seq <= kMaxSequenceNumber -> valid_tag seq kTypeValue.
Proof. intros Hs. split; [done|by right]. Qed.

Lemma valid_key_good k : valid_key k -> internal_good k.
Proof. intros (u & seq & t & -> & _). apply ikey_good. Qed.

Lemma ikey_ord c u seq t u' seq' t' : valid_tag seq t -> valid_tag seq' t' -> internal_ord c (ikey u seq t) (ikey u' seq' t') = icmp c u (tag seq t) u' (tag seq' t').
Proof. intros H1 H2. by apply internal_ord_value, internal_compare_ikey. Qed.

(** The key with the largest sequence number comes before all others of its user key. *)
Lemma seek_above c k u : valid_key k -> internal_ord c k (ikey u kMaxSequenceNumber kValueTypeForSeek) < 0 <-> cmp_Compare c (ukey k) u < 0.
Proof.
  intros (v & seq & t & -> & Ht). rewrite ikey_ord, ukey_ikey by (done || apply seek_tag_valid). unfold icmp. destruct (Z.eqb_spec (cmp_Compare c v u) 0) as [->|]; [|lia].
  assert (tag seq t <= tag kMaxSequenceNumber kValueTypeForSeek) as Hle by (unfold valid_tag, tag, kValueTypeForSeek, kTypeDeletion, kTypeValue in *; lia).
  rewrite (proj2 (Z.ltb_ge _ _)) by done. destruct (_ <? _); lia.
Qed.
