(* ===== verification/FileNames.v ===== *)
(** * LevelDB's file names (util/leveldb/util/logging.cc, db/filename.cc)

    Decimal numbers and escaped strings as they are printed and read, the names
    of the database's files, the parser that classifies directory entries during
    recovery, and [SetCurrentFile], which switches the manifest.  The file system
    is an interface ([FileEnv]) with the laws include/leveldb/env.h documents. *)

From S2P Require Import Prelude CLib Slice.
From stdpp Require Import strings.
#[local] Open Scope Z_scope.

(** A string literal. *)
Definition str (s : string) : bytes := String.list_byte_of_string s.
Arguments str s%_string.

(** ** util/logging.cc *)

Definition AppendNumberTo (s : bytes) (num : Z) : bytes := s ++ print_dec num.

(** [c >= ' ' && c <= '~'] compares a signed [char]. *)
Definition AppendEscapedStringTo (s value : bytes) : bytes :=
  foldl (fun acc c => if (32 <=? sb c) && (sb c <=? 126) then acc ++ [c] else acc ++ [x5c; x78] ++ print_hhx c) s value.

Definition NumberToString (num : Z) : bytes := AppendNumberTo [] num.
Definition EscapeString (value : bytes) : bytes := AppendEscapedStringTo [] value.

Definition kMaxUint64 : Z := 2 ^ 64 - 1.

(** The loop of [ConsumeDecimalNumber]: [None] is the overflow return, which
    leaves the digits read so far consumed. *)
Fixpoint consume_loop (input : bytes) (v digits : Z) : option (Z * Z) * bytes :=
  match input with
  | c :: input' =>
      if (48 <=? sb c) && (sb c <=? 57) then
        let delta := sb c - 48 in
        if (kMaxUint64 / 10 <? v) || ((v =? kMaxUint64 / 10) && (kMaxUint64 mod 10 <? delta)) then (None, input)
        else consume_loop input' (u64 (v * 10 + delta)) (digits + 1)
      else (Some (v, digits), input)
  | [] => (Some (v, digits), input)
  end.

(** The result, [*val] when it is stored, and [*in]. *)
Definition ConsumeDecimalNumber (input : bytes) : bool * option Z * bytes :=
  match consume_loop input 0 0 with
  | (None, rest) => (false, None, rest)
  | (Some (v, digits), rest) => (0 <? digits, Some v, rest)
  end.

(** ** db/filename.cc *)

Inductive FileType :=
| kLogFile | kDBLockFile | kTableFile | kDescriptorFile | kCurrentFile | kTempFile | kInfoLogFile.

(** [%06llu] *)
Definition print_06 (number : Z) : bytes :=
  let d := print_dec number in replicate (6 - length d) x30 ++ d.

Definition MakeFileName (name : bytes) (number : Z) (suffix : bytes) : bytes :=
  name ++ str "/" ++ print_06 number ++ str "." ++ suffix.

(** [assert(number > 0)] *)
Definition positive_number {A} (number : Z) (x : A) : outcome A := if 0 <? number then Ret x else Exit 134.

Definition LogFileName (name : bytes) (number : Z) : outcome bytes :=
  positive_number number (MakeFileName name number (str "log")).
Definition TableFileName (name : bytes) (number : Z) : outcome bytes :=
  positive_number number (MakeFileName name number (str "ldb")).
Definition SSTTableFileName (name : bytes) (number : Z) : outcome bytes :=
  positive_number number (MakeFileName name number (str "sst")).
Definition DescriptorFileName (dbname : bytes) (number : Z) : outcome bytes :=
  positive_number number (dbname ++ str "/MANIFEST-" ++ print_06 number).
Definition CurrentFileName (dbname : bytes) : bytes := dbname ++ str "/CURRENT".
Definition LockFileName (dbname : bytes) : bytes := dbname ++ str "/LOCK".
Definition TempFileName (dbname : bytes) (number : Z) : outcome bytes :=
  positive_number number (MakeFileName dbname number (str "dbtmp")).
Definition InfoLogFileName (dbname : bytes) : bytes := dbname ++ str "/LOG".
Definition OldInfoLogFileName (dbname : bytes) : bytes := dbname ++ str "/LOG.old".

(** [None] is [false]; the number and the type are stored otherwise. *)
Definition ParseFileName (fname : bytes) : option (Z * FileType) :=
  let rest := fname in
  if slice_eqb rest (str "CURRENT") then Some (0, kCurrentFile)
  else if slice_eqb rest (str "LOCK") then Some (0, kDBLockFile)
  else if slice_eqb rest (str "LOG") || slice_eqb rest (str "LOG.old") then Some (0, kInfoLogFile)
  else if starts_with rest (str "MANIFEST-") then
    match ConsumeDecimalNumber (drop 9 rest) with
    | (true, Some num, []) => Some (num, kDescriptorFile)
    | _ => None
    end
  else
    match ConsumeDecimalNumber rest with
    | (true, Some num, suffix) =>
        if slice_eqb suffix (str ".log") then Some (num, kLogFile)
        else if slice_eqb suffix (str ".sst") || slice_eqb suffix (str ".ldb") then Some (num, kTableFile)
        else if slice_eqb suffix (str ".dbtmp") then Some (num, kTempFile)
        else None
    | _ => None
    end.

(** ** SetCurrentFile

    The [Env] calls it makes; each returns whether its status is OK. *)
Class FileEnv (FS : Type) := {
  env_read : bytes -> FS -> option bytes;
  env_WriteStringToFileSync : bytes -> bytes -> FS -> bool * FS;
  env_RenameFile : bytes -> bytes -> FS -> bool * FS;
  env_DeleteFile : bytes -> FS -> bool * FS;
}.

(** A failed write may leave anything in the file it wrote, nothing else changes;
    a rename replaces its target or leaves every file alone. *)
Class FileEnvLaws (FS : Type) `{FileEnv FS} : Prop := {
  write_ok data f fs fs' : env_WriteStringToFileSync data f fs = (true, fs') -> env_read f fs' = Some data;
  write_other data f fs g : g <> f -> env_read g (snd (env_WriteStringToFileSync data f fs)) = env_read g fs;
  rename_ok src dst fs fs' data : src <> dst -> env_RenameFile src dst fs = (true, fs') -> env_read src fs = Some data ->
    env_read dst fs' = Some data;
  rename_fail src dst fs fs' : env_RenameFile src dst fs = (false, fs') -> forall g, env_read g fs' = env_read g fs;
  rename_other src dst fs g : g <> src -> g <> dst -> env_read g (snd (env_RenameFile src dst fs)) = env_read g fs;
  delete_other f fs g : g <> f -> env_read g (snd (env_DeleteFile f fs)) = env_read g fs;
}.

Definition SetCurrentFile {FS} `{FileEnv FS} (dbname : bytes) (descriptor_number : Z) (fs : FS) : outcome (bool * FS) :=
  contents ← DescriptorFileName dbname descriptor_number;
  if negb (starts_with contents (dbname ++ str "/")) then Exit 134
  else
    contents ← remove_prefix (length dbname + 1) contents;
    tmp ← TempFileName dbname descriptor_number;
    let '(s, fs) := env_WriteStringToFileSync (contents ++ [x0a]) tmp fs in
    let '(s, fs) := if (s : bool) then env_RenameFile tmp (CurrentFileName dbname) fs else (s, fs) in
    let fs := if (s : bool) then fs else snd (env_DeleteFile tmp fs) in
    Ret (s, fs).

(** ** Numbers read back *)

Lemma digit_sb c : is_digit c = true -> (48 <=? sb c) && (sb c <=? 57) = true /\ digit_val 10 c = Some (sb c - 48).
Proof. destruct c; done. Qed.

Lemma nondigit_sb c : is_digit c = false -> (48 <=? sb c) && (sb c <=? 57) = false.
Proof. destruct c; done. Qed.

Lemma digits_val_ge ds acc : 0 <= acc -> Forall (fun b => is_digit b = true) ds -> acc <= digits_val 10 ds acc.
Proof.
  intros Ha Hd. revert acc Ha. induction Hd as [|b ds Hb _ IH]; intros acc Ha; cbn; [lia|].
  destruct (digit_sb b Hb) as [Hr ->]. specialize (IH (acc * 10 + (sb b - 48))). lia.
Qed.

Lemma consume_digits ds rest v n :
  Forall (fun b => is_digit b = true) ds -> 0 <= v -> digits_val 10 ds v < 2 ^ 64 ->
  match rest with [] => True | c :: _ => is_digit c = false end ->
  consume_loop (ds ++ rest) v n = (Some (digits_val 10 ds v, n + Z.of_nat (length ds)), rest).
Proof.
  intros Hd Hv Hlt Hr. revert v n Hv Hlt. induction Hd as [|b ds Hb Hd IH]; intros v n Hv Hlt.
  - cbn. rewrite Z.add_0_r. destruct rest as [|c rest]; [done|]. cbn. by rewrite nondigit_sb.
  - destruct (digit_sb b Hb) as [Hrange Hdv]. cbn [app consume_loop digits_val length] in *. rewrite Hrange. rewrite Hdv in *.
    pose proof (digits_val_ge ds (v * 10 + (sb b - 48)) ltac:(lia) Hd) as Hge.
    assert (v * 10 + (sb b - 48) < 2 ^ 64) by lia.
    replace (_ || _) with false.
    + rewrite u64_small by lia. rewrite IH by lia. f_equal. f_equal. f_equal. lia.
    + symmetry. unfold kMaxUint64. change ((2 ^ 64 - 1) / 10) with 1844674407370955161. change ((2 ^ 64 - 1) mod 10) with 5. lia.
Qed.

Lemma digits_val_zeros n ds : digits_val 10 (replicate n x30 ++ ds) 0 = digits_val 10 ds 0.
Proof. induction n; [done|]. cbn. done. Qed.

(** A zero-padded number in front of a non-digit is read exactly. *)
Lemma consume_print number rest : 0 <= number < 2 ^ 64 ->
  match rest with [] => True | c :: _ => is_digit c = false end ->
  ConsumeDecimalNumber (print_06 number ++ rest) = (true, Some number, rest).
Proof.
  intros Hn Hr. unfold ConsumeDecimalNumber, print_06.
  assert (Forall (fun b => is_digit b = true) (replicate (6 - length (print_dec number)) x30 ++ print_dec number)) as Hd.
  { apply Forall_app. split; [by apply Forall_replicate|]. apply print_dec_digits. lia. }
  rewrite consume_digits; [|done|lia|rewrite digits_val_zeros, print_dec_val; lia|done].
  rewrite digits_val_zeros, print_dec_val by done. f_equal. f_equal.
  apply Z.ltb_lt. pose proof (print_dec_length number). rewrite length_app. lia.
Qed.

Lemma slice_eqb_neq x y : x <> y -> slice_eqb x y = false.
Proof. intros H. destruct (slice_eqb x y) eqn:E; [|done]. by apply slice_eqb_eq in E. Qed.

(** A name that starts with a digit is none of the fixed names. *)
Lemma parse_digit_name number suffix : 0 <= number < 2 ^ 64 ->
  ParseFileName (print_06 number ++ x2e :: suffix) =
    (if slice_eqb (x2e :: suffix) (str ".log") then Some (number, kLogFile)
     else if slice_eqb (x2e :: suffix) (str ".sst") || slice_eqb (x2e :: suffix) (str ".ldb") then Some (number, kTableFile)
     else if slice_eqb (x2e :: suffix) (str ".dbtmp") then Some (number, kTempFile)
     else None).
Proof.
  intros Hn. assert (exists b s, print_06 number = b :: s /\ is_digit b = true) as (b & s & E & Hb).
  { unfold print_06. pose proof (print_dec_digits number ltac:(lia)) as Hd. pose proof (print_dec_length number) as Hl.
    destruct (replicate (6 - length (print_dec number)) x30) as [|b s] eqn:Er.
    - destruct (print_dec number) as [|b s]; [cbn in Hl; lia|]. exists b, s. by apply Forall_cons in Hd as [? _].
    - exists b, (s ++ print_dec number). split; [done|]. destruct (6 - length _)%nat; [done|]. by injection Er as <- _. }
  unfold ParseFileName. rewrite (consume_print number) by done.
  assert (forall c t, is_digit c = false -> slice_eqb (print_06 number ++ x2e :: suffix) (c :: t) = false) as Hne.
  { intros c t Hc. apply slice_eqb_neq. rewrite E. intros [= -> _]. by rewrite Hc in Hb. }
  assert (starts_with (print_06 number ++ x2e :: suffix) (str "MANIFEST-") = false) as ->.
  { destruct (starts_with _ _) eqn:Es; [|done]. apply starts_with_prefix in Es as [k Hk]. rewrite E in Hk.
    injection Hk as -> _. done. }
  change (str "CURRENT") with (x43 :: str "URRENT"). change (str "LOCK") with (x4c :: str "OCK").
  change (str "LOG") with (x4c :: str "OG"). change (str "LOG.old") with (x4c :: str "OG.old").
  rewrite !Hne by done. done.
Qed.

Lemma parse_manifest number : 0 <= number < 2 ^ 64 ->
  ParseFileName (str "MANIFEST-" ++ print_06 number) = Some (number, kDescriptorFile).
Proof.
  intros Hn. unfold ParseFileName.
  assert (starts_with (str "MANIFEST-" ++ print_06 number) (str "MANIFEST-") = true) as ->
    by (apply starts_with_prefix; by exists (print_06 number)).
  rewrite !slice_eqb_neq by (intros [=]). change 9%nat with (length (str "MANIFEST-")). rewrite drop_app_length.
  rewrite <- (app_nil_r (print_06 number)), consume_print by done. done.
Qed.

Lemma drop_dbname dbname rest : drop (length dbname + 1) (dbname ++ str "/" ++ rest) = rest.
Proof.
  rewrite app_assoc. replace (length dbname + 1)%nat with (length (dbname ++ str "/")) by (by rewrite length_app).
  apply drop_app_length.
Qed.

(** File names round trip.  For every 64-bit number, the name of a log, table
    (new and legacy suffix), temporary or manifest file, stripped of the directory,
    is parsed back to its number and type, whatever the number of digits; the names
    without a number parse to their types. *)
Theorem filename_roundtrip dbname number : 0 < number < 2 ^ 64 ->
  let parse f := ParseFileName (drop (length dbname + 1) f) in
  (exists f, LogFileName dbname number = Ret f /\ parse f = Some (number, kLogFile)) /\
  (exists f, TableFileName dbname number = Ret f /\ parse f = Some (number, kTableFile)) /\
  (exists f, SSTTableFileName dbname number = Ret f /\ parse f = Some (number, kTableFile)) /\
  (exists f, TempFileName dbname number = Ret f /\ parse f = Some (number, kTempFile)) /\
  (exists f, DescriptorFileName dbname number = Ret f /\ parse f = Some (number, kDescriptorFile)) /\
  parse (CurrentFileName dbname) = Some (0, kCurrentFile) /\ parse (LockFileName dbname) = Some (0, kDBLockFile) /\
  parse (InfoLogFileName dbname) = Some (0, kInfoLogFile) /\ parse (OldInfoLogFileName dbname) = Some (0, kInfoLogFile).
Proof.
  intros Hn parse.
  unfold LogFileName, TableFileName, SSTTableFileName, TempFileName, DescriptorFileName, positive_number.
  replace (0 <? number) with true by lia. unfold parse, MakeFileName.
  assert (forall s, drop (length dbname + 1) (dbname ++ str ("/" +:+ s)) = str s) as Hfix by (intros; apply drop_dbname).
  split_and!; try (eexists; split; [reflexivity|]).
  1-4: rewrite drop_dbname; change (str ".") with [x2e]; cbn [app]; rewrite parse_digit_name by lia; reflexivity.
  - change (str "/MANIFEST-") with (str "/" ++ str "MANIFEST-"). rewrite <- app_assoc, drop_dbname. apply parse_manifest. lia.
  - exact (f_equal ParseFileName (Hfix "CURRENT")).
  - exact (f_equal ParseFileName (Hfix "LOCK")).
  - exact (f_equal ParseFileName (Hfix "LOG")).
  - exact (f_equal ParseFileName (Hfix "LOG.old")).
Qed.

Lemma filename_roundtrip_witness :
  exists f, LogFileName (str "db") 12 = Ret f /\ ParseFileName (drop 3 f) = Some (12, kLogFile).
Proof. exact (proj1 (filename_roundtrip (str "db") 12 ltac:(lia))). Defined.

(** ** SetCurrentFile *)

#[global] Instance gmap_env : FileEnv (gmap bytes bytes) := {|
  env_read f fs := fs !! f;
  env_WriteStringToFileSync data f fs := (true, <[f := data]> fs);
  env_RenameFile src dst fs :=
    match fs !! src with Some d => (true, <[dst := d]> (delete src fs)) | None => (false, fs) end;
  env_DeleteFile f fs := (true, delete f fs);
|}.

#[global] Instance gmap_env_laws : FileEnvLaws (gmap bytes bytes).
Proof.
  split; cbn.
  - intros data f fs fs' [= <-]. apply lookup_insert_eq.
  - intros data f fs g Hg. by apply lookup_insert_ne.
  - intros src dst fs fs' data Hne H E. rewrite E in H. injection H as <-. apply lookup_insert_eq.
  - intros src dst fs fs'. case_match; [done|]. by intros [= <-].
  - intros src dst fs g H1 H2. case_match; [|done]. cbn. by rewrite lookup_insert_ne, lookup_delete_ne by done.
  - intros f fs g Hg. by apply lookup_delete_ne.
Qed.

Lemma set_current_spec {FS} `{FileEnvLaws FS} dbname number (fs : FS) :
  0 < number < 2 ^ 64 ->
  exists ok fs', SetCurrentFile dbname number fs = Ret (ok, fs') /\
    env_read (CurrentFileName dbname) fs' =
      (if ok then Some (str "MANIFEST-" ++ print_06 number ++ [x0a]) else env_read (CurrentFileName dbname) fs) /\
    forall g, g <> CurrentFileName dbname -> g <> MakeFileName dbname number (str "dbtmp") -> env_read g fs' = env_read g fs.
Proof.
  intros Hn. unfold SetCurrentFile, DescriptorFileName, TempFileName, positive_number.
  replace (0 <? number) with true by lia. run.
  change (str "/MANIFEST-") with (str "/" ++ str "MANIFEST-"). rewrite <- (app_assoc (str "/")).
  assert (starts_with (dbname ++ str "/" ++ str "MANIFEST-" ++ print_06 number) (dbname ++ str "/") = true) as ->
    by (apply starts_with_prefix; exists (str "MANIFEST-" ++ print_06 number); by rewrite <- !app_assoc).
  cbn [negb]. unfold remove_prefix. replace (_ <=? _)%nat with true
    by (symmetry; apply Nat.leb_le; rewrite !length_app; cbn; lia).
  rewrite drop_dbname. run. rewrite <- app_assoc.
  set (tmp := MakeFileName dbname number (str "dbtmp")). set (cur := CurrentFileName dbname).
  set (data := str "MANIFEST-" ++ print_06 number ++ [x0a]).
  assert (cur <> tmp) as Hne.
  { intros E. assert (ParseFileName (drop (length dbname + 1) cur) = ParseFileName (drop (length dbname + 1) tmp)) as E' by congruence.
    unfold tmp, MakeFileName in E'. rewrite drop_dbname in E'. change (str ".") with [x2e] in E'. cbn [app] in E'.
    rewrite parse_digit_name in E' by lia.
    unfold cur, CurrentFileName in E'. change (str "/CURRENT") with (str "/" ++ str "CURRENT") in E'.
    rewrite drop_dbname in E'. discriminate. }
  pose proof (write_other data tmp fs cur Hne) as Hw. pose proof (fun g Hg => write_other data tmp fs g Hg) as Hwo.
  destruct (env_WriteStringToFileSync data tmp fs) as [s fs1] eqn:E1. cbn [snd] in Hw, Hwo. destruct s.
  - apply write_ok in E1. pose proof (fun g H1 H2 => rename_other tmp cur fs1 g H1 H2) as Hro. destruct (env_RenameFile tmp cur fs1) as [s fs2] eqn:E2. cbn [snd] in Hro. destruct s.
    + do 2 eexists. split; [reflexivity|]. split; [by eapply rename_ok; [apply not_eq_sym| |]|]. intros g H1 H2. by rewrite Hro, Hwo.
    + do 2 eexists. split; [reflexivity|]. cbn. split; [rewrite delete_other by done; by rewrite (rename_fail _ _ _ _ E2)|]. intros g H1 H2. by rewrite delete_other, (rename_fail _ _ _ _ E2), Hwo.
  - do 2 eexists. split; [reflexivity|]. cbn. split; [by rewrite delete_other by done|]. intros g H1 H2. by rewrite delete_other, Hwo.
Qed.

(** The manifest switches atomically.  [SetCurrentFile] returns whatever its
    file operations do; if it reports success CURRENT holds the new manifest's name
    and a newline, otherwise CURRENT holds what it held before. *)
Theorem set_current_file_atomic {FS} `{FileEnvLaws FS} dbname number (fs : FS) :
  0 < number < 2 ^ 64 ->
  exists ok fs', SetCurrentFile dbname number fs = Ret (ok, fs') /\
    env_read (CurrentFileName dbname) fs' =
      if ok then Some (str "MANIFEST-" ++ print_06 number ++ [x0a]) else env_read (CurrentFileName dbname) fs.
Proof.
  intros Hn. destruct (set_current_spec dbname number fs Hn) as (ok & fs' & E & Hc & _). by exists ok, fs'.
Qed.

Lemma set_current_file_witness :
  exists ok fs', SetCurrentFile (str "db") 7 (∅ : gmap bytes bytes) = Ret (ok, fs') /\
    env_read (CurrentFileName (str "db")) fs' =
      if ok then Some (str "MANIFEST-" ++ print_06 7 ++ [x0a]) else env_read (CurrentFileName (str "db")) (∅ : gmap bytes bytes).
Proof. apply (set_current_file_atomic (str "db") 7 (∅ : gmap bytes bytes)). lia. Defined.
