(* ===== verification/Status.v ===== *)
(** * LevelDB's result type (util/leveldb/util/status.cc, include/leveldb/status.h)

    A [Status] is its array [state_]: the length of the message, a code and the
    message; OK is the null pointer, here [None]. *)

From S2P Require Import Prelude CLib FileNames.
From stdpp Require Import strings.
#[local] Open Scope Z_scope.

Abbreviation Status := (option bytes).

(** [enum Code] *)
Definition kOk : Z := 0.
Definition kNotFound : Z := 1.
Definition kCorruption : Z := 2.
Definition kNotSupported : Z := 3.
Definition kInvalidArgument : Z := 4.
Definition kIOError : Z := 5.

Definition OK : Status := None.

(** [Status(code, msg, msg2)]: the sizes are 32-bit; writing more than
    [size + 5] bytes is undefined. *)
Definition Status_make (code : Z) (msg msg2 : bytes) : outcome Status :=
  if code =? kOk then Exit 134
  else
    let len1 := u32 (Z.of_nat (length msg)) in
    let len2 := u32 (Z.of_nat (length msg2)) in
    let size := u32 (len1 + (if len2 =? 0 then 0 else u32 (2 + len2))) in
    let result := le_split 4 size ++ [to_byte code] ++ take (Z.to_nat len1) msg ++
                  (if len2 =? 0 then [] else [x3a; x20] ++ take (Z.to_nat len2) msg2) in
    if Z.of_nat (length result) <=? u32 (size + 5) then Ret (Some result) else Undef.

(** [CopyState], [Status(const Status&)] and [operator=] *)
Definition CopyState (state : bytes) : outcome bytes :=
  let size := le_combine (take 4 state) in
  if Z.of_nat (length state) <? u32 (size + 5) then Undef else Ret (take (Z.to_nat (u32 (size + 5))) state).

Definition Status_copy (s : Status) : outcome Status :=
  match s with None => Ret None | Some state => r ← CopyState state; Ret (Some r) end.

Definition NotFound_status (msg msg2 : bytes) : outcome Status := Status_make kNotFound msg msg2.
Definition Corruption (msg msg2 : bytes) : outcome Status := Status_make kCorruption msg msg2.
Definition NotSupported (msg msg2 : bytes) : outcome Status := Status_make kNotSupported msg msg2.
Definition InvalidArgument (msg msg2 : bytes) : outcome Status := Status_make kInvalidArgument msg msg2.
Definition IOError (msg msg2 : bytes) : outcome Status := Status_make kIOError msg msg2.

Definition ok (s : Status) : bool := bool_decide (s = None).

(** [state_[4]], a [char]. *)
Definition code (s : Status) : outcome Z :=
  match s with
  | None => Ret kOk
  | Some state => match state !! 4%nat with Some c => Ret (sb c) | None => Undef end
  end.

Definition has_code (c : Z) (s : Status) : outcome bool := d ← code s; Ret (d =? c).
Definition IsNotFound : Status -> outcome bool := has_code kNotFound.
Definition IsCorruption : Status -> outcome bool := has_code kCorruption.
Definition IsIOError : Status -> outcome bool := has_code kIOError.
Definition IsNotSupportedError : Status -> outcome bool := has_code kNotSupported.
Definition IsInvalidArgument : Status -> outcome bool := has_code kInvalidArgument.

(** [%d] *)
Definition print_int (v : Z) : bytes := if v <? 0 then x2d :: print_dec (- v) else print_dec v.

Definition code_text (c : Z) : bytes :=
  if c =? kOk then str "OK"
  else if c =? kNotFound then str "NotFound: "
  else if c =? kCorruption then str "Corruption: "
  else if c =? kNotSupported then str "Not implemented: "
  else if c =? kInvalidArgument then str "Invalid argument: "
  else if c =? kIOError then str "IO error: "
  else str "Unknown code(" ++ print_int c ++ str "): ".

Definition ToString (s : Status) : outcome bytes :=
  match s with
  | None => Ret (str "OK")
  | Some state =>
      c ← code s;
      let length_ := le_combine (take 4 state) in
      if Z.of_nat (length (drop 5 state)) <? length_ then Undef
      else Ret (code_text c ++ take (Z.to_nat length_) (drop 5 state))
  end.

(** ** Lemmas *)

Definition message (msg msg2 : bytes) : bytes := match msg2 with [] => msg | _ => msg ++ [x3a; x20] ++ msg2 end.

Lemma status_make_spec c msg msg2 :
  0 < c < 128 -> Z.of_nat (length msg) + Z.of_nat (length msg2) + 7 < 2 ^ 32 ->
  Status_make c msg msg2 =
    Ret (Some (le_split 4 (Z.of_nat (length (message msg msg2))) ++ [to_byte c] ++ message msg msg2)).
Proof.
  intros Hc Hl. unfold Status_make. replace (c =? kOk) with false by (unfold kOk; lia).
  rewrite !(u32_small (Z.of_nat _)), !Nat2Z.id, !take_ge by lia.
  assert (Z.of_nat (length (message msg msg2)) =
    Z.of_nat (length msg) + (if Z.of_nat (length msg2) =? 0 then 0 else 2 + Z.of_nat (length msg2))) as Hm.
  { unfold message. destruct msg2 as [|b msg2]; [change (Z.of_nat (length (@nil byte)) =? 0) with true; lia|]. rewrite !length_app. cbn [length].
    destruct (Z.eqb_spec (Z.of_nat (S (length msg2))) 0); lia. }
  assert (Z.of_nat (length (message msg msg2)) + 5 < 2 ^ 32) as Hb
    by (rewrite Hm; destruct (Z.of_nat (length msg2) =? 0); lia).
  rewrite (u32_small (2 + _)) by lia. rewrite <- Hm, !(u32_small (Z.of_nat (length (message msg msg2)))) by lia.
  assert (msg ++ (if Z.of_nat (length msg2) =? 0 then [] else [x3a; x20] ++ msg2) = message msg msg2) as ->.
  { unfold message. destruct msg2; [by rewrite app_nil_r|done]. }
  rewrite u32_small by lia.
  assert (Z.of_nat (length (le_split 4 (Z.of_nat (length (message msg msg2))) ++ [to_byte c] ++ message msg msg2))
    = Z.of_nat (length (message msg msg2)) + 5) as -> by len.
  by rewrite Z.leb_refl.
Qed.

Lemma status_string c msg msg2 :
  0 < c <= 5 -> Z.of_nat (length msg) + Z.of_nat (length msg2) + 7 < 2 ^ 32 ->
  exists s, Status_make c msg msg2 = Ret s /\ ok s = false /\ code s = Ret c /\ Status_copy s = Ret s /\
    ToString s = Ret (code_text c ++ message msg msg2).
Proof.
  intros Hc Hl. eexists. split; [apply status_make_spec; lia|].
  assert (Z.of_nat (length (message msg msg2)) < 2 ^ 32 - 5) as Hm.
  { unfold message. destruct msg2; [cbn [length] in *; lia|]. rewrite !length_app in *. cbn [length] in *. lia. }
  set (m := message msg msg2) in *.
  assert (forall t, take 4 (le_split 4 (Z.of_nat (length m)) ++ t) = le_split 4 (Z.of_nat (length m))) as Ht
    by (intros; by rewrite (take_app_length' _ _ 4) by (by rewrite le_split_length)).
  assert ((le_split 4 (Z.of_nat (length m)) ++ [to_byte c] ++ m) !! 4%nat = Some (to_byte c)) as Hcode
    by (rewrite lookup_app_r; rewrite le_split_length; done).
  assert (sb (to_byte c) = c) as Hsb by (unfold sb; rewrite ub_to_byte_small by lia; by replace (c <? 128) with true by lia).
  split_and!; [done| | |].
  - unfold code. by rewrite Hcode, Hsb.
  - unfold Status_copy, CopyState. rewrite Ht, le32_roundtrip, u32_small by lia.
    assert (length (le_split 4 (Z.of_nat (length m)) ++ [to_byte c] ++ m) = (length m + 5)%nat) as Hlen
      by len.
    rewrite take_ge by lia. rewrite Hlen, Nat2Z.inj_add, Z.ltb_irrefl. done.
  - unfold ToString, code. rewrite Hcode, Hsb. run. rewrite Ht, le32_roundtrip by lia.
    rewrite app_assoc, drop_app_length' by (rewrite length_app, le_split_length; done).
    rewrite take_ge by lia. by rewrite Z.ltb_irrefl.
Qed.

#[global] Arguments Status_make : simpl never.
