(* ===== verification/Files.v ===== *)
(** * Files (util/leveldb/include/leveldb/env.h)

    What the log and the tables ask of a file, as interfaces; the instances are files
    that are their contents. *)

From S2P Require Import Prelude Status.
#[local] Open Scope Z_scope.

(** ** Appending and reading in order *)

Class WritableFile (F : Type) := {
  wf_Append : bytes -> F -> Status * F;
  wf_Flush : F -> Status * F;
}.

Class SequentialFile (F : Type) := {
  sf_Read : Z -> F -> Status * bytes * F;
  sf_Skip : Z -> F -> Status * F;
}.

(** A file that is its contents, or what is left to read of them. *)
#[global] Instance bytes_writable : WritableFile bytes := {|
  wf_Append data f := (OK, f ++ data);
  wf_Flush f := (OK, f);
|}.

#[global] Instance bytes_sequential : SequentialFile bytes := {|
  sf_Read n f := (OK, take (Z.to_nat n) f, drop (Z.to_nat n) f);
  sf_Skip n f := (OK, drop (Z.to_nat n) f);
|}.

(** ** Random access *)

(** The boolean says whether the bytes are in the caller's buffer. *)
Class RandomAccessFile (F : Type) := { raf_Read : Z -> Z -> F -> Status * bytes * bool }.

(** [f] is a file with these contents. *)
Definition reads_as {F} `{RandomAccessFile F} (f : F) (contents : bytes) : Prop :=
  forall offset n, (offset + n <= length contents)%nat ->
    exists scratch, raf_Read (Z.of_nat offset) (Z.of_nat n) f = (OK, take n (drop offset contents), scratch).

(** Files read with [pread] into the caller's buffer, and mapped files. *)
#[global] Instance bytes_random : RandomAccessFile bytes :=
  {| raf_Read offset n f := (OK, take (Z.to_nat n) (drop (Z.to_nat offset) f), true) |}.

Record mapped := Mapped { mapped_bytes : bytes }.

#[global] Instance mapped_random : RandomAccessFile mapped :=
  {| raf_Read offset n f := (OK, take (Z.to_nat n) (drop (Z.to_nat offset) (mapped_bytes f)), false) |}.

Lemma bytes_reads_as (f : bytes) : reads_as f f.
Proof. intros offset n Hn. exists true. cbn. by rewrite !Nat2Z.id. Qed.

Lemma mapped_reads_as f : reads_as f (mapped_bytes f).
Proof. intros offset n Hn. exists false. cbn. by rewrite !Nat2Z.id. Qed.
