(* ===== verification/StdSet.v ===== *)
(** * [std::set]

    A set ordered by a comparison [lt], as the list of its elements in the order of its
    iterators; elements of which neither is less are the same to the set. *)

From S2P Require Import Prelude.

Section Set_.
Context {A : Type} (lt : A -> A -> bool).

Fixpoint set_insert (x : A) (l : list A) : list A :=
  match l with
  | [] => [x]
  | y :: l' => if lt x y then x :: l else if lt y x then y :: set_insert x l' else l
  end.

(** Insertion with a comparison that may fail. *)
Fixpoint set_insertM (ltM : A -> A -> outcome bool) (x : A) (l : list A) : outcome (list A) :=
  match l with
  | [] => Ret [x]
  | y :: l' => b ← ltM x y; if (b : bool) then Ret (x :: l) else b ← ltM y x; if (b : bool) then l' ← set_insertM ltM x l'; Ret (y :: l') else Ret l
  end.

(** The comparison orders the elements in use strictly. *)
Class SetOrder (P : A -> Prop) : Prop := {
  so_irrefl x : P x -> lt x x = false;
  so_trans x y z : P x -> P y -> P z -> lt x y = true -> lt y z = true -> lt x z = true;
}.

Definition set_sorted (l : list A) : Prop := StronglySorted (fun x y => lt x y = true) l.

Lemma set_insert_elem x y l : y ∈ set_insert x l -> y = x \/ y ∈ l.
Proof.
  induction l as [|z l IH]; cbn [set_insert]; [rewrite list_elem_of_singleton; by left|].
  destruct (lt x z); [rewrite elem_of_cons; naive_solver|]. destruct (lt z x); [|by right]. rewrite !elem_of_cons. naive_solver.
Qed.

Lemma set_insert_mono x y l : y ∈ l -> y ∈ set_insert x l.
Proof.
  induction l as [|z l IH]; [by intros ?%not_elem_of_nil|]. cbn [set_insert]. rewrite elem_of_cons.
  destruct (lt x z); [rewrite !elem_of_cons; naive_solver|]. destruct (lt z x); rewrite elem_of_cons; naive_solver.
Qed.

(** The new element is there, or one that is the same to the set. *)
Lemma set_insert_in x l : exists y, y ∈ set_insert x l /\ (y = x \/ y ∈ l /\ lt x y = false /\ lt y x = false).
Proof.
  induction l as [|z l (y & Hy & Hyx)]; cbn [set_insert]; [exists x; rewrite list_elem_of_singleton; naive_solver|].
  destruct (lt x z) eqn:E1; [exists x; rewrite elem_of_cons; naive_solver|]. destruct (lt z x) eqn:E2.
  - exists y. rewrite !elem_of_cons. naive_solver.
  - exists z. rewrite !elem_of_cons. naive_solver.
Qed.

(** An element above all others goes to the end. *)
Lemma set_insert_last x l : (forall y, y ∈ l -> lt y x = true /\ lt x y = false) -> set_insert x l = l ++ [x].
Proof.
  induction l as [|z l IH]; intros Hl; [done|]. cbn [set_insert app]. destruct (Hl z ltac:(by left)) as [-> ->]. f_equal. apply IH. intros y Hy. apply Hl. by right.
Qed.

Lemma set_insertM_spec ltM (P : A -> Prop) x l : (forall x y, P x -> P y -> ltM x y = Ret (lt x y)) -> P x -> Forall P l -> set_insertM ltM x l = Ret (set_insert x l).
Proof.
  intros Hlt Hx. induction 1 as [|y l Hy _ IH]; [done|]. cbn. rewrite !Hlt by done. run. destruct (lt x y); [done|]. destruct (lt y x); [|done]. by rewrite IH.
Qed.

(** A new element that the comparison tells apart from all others is put among them. *)
Lemma set_insert_perm x l : (forall y, y ∈ l -> lt x y = true \/ lt y x = true) -> set_insert x l ≡ₚ x :: l.
Proof.
  induction l as [|y l IH]; intros Hl; [done|]. cbn [set_insert]. destruct (lt x y) eqn:E1; [done|]. destruct (Hl y ltac:(by left)) as [|E2]; [congruence|]. rewrite E2.
  rewrite IH by (intros z Hz; apply Hl; by right). apply perm_swap.
Qed.

Context {P : A -> Prop} `{!SetOrder P}.

Lemma set_insert_sorted x l : P x -> Forall P l -> set_sorted l -> set_sorted (set_insert x l).
Proof.
  intros Hx Hp. induction 1 as [|y l Hs IH Hy]; cbn [set_insert]; [repeat constructor|]. apply Forall_cons in Hp as [Hpy Hp]. destruct (lt x y) eqn:E1.
  - constructor; [by constructor|]. constructor; [done|]. rewrite Forall_forall in *. intros z Hz. by apply (so_trans x y z); [..|apply Hp|done|apply Hy].
  - destruct (lt y x) eqn:E2; [|by constructor]. constructor; [by apply IH|]. rewrite Forall_forall in *. intros z Hz.
    apply set_insert_elem in Hz as [->|Hz]; [done|by apply Hy].
Qed.

(** Inserting the elements of a sorted list in order gives it back. *)
Lemma set_insert_all a b : Forall P (a ++ b) -> set_sorted (a ++ b) -> foldl (fun l x => set_insert x l) a b = a ++ b.
Proof.
  revert a. induction b as [|x b IH]; intros a Hp Hs; [by rewrite app_nil_r|]. cbn [foldl]. rewrite set_insert_last.
  - rewrite IH; rewrite <- app_assoc; done.
  - intros y Hy. pose proof (StronglySorted_app_1_elem_of (fun x y => lt x y = true) _ _ y x Hs Hy ltac:(by left)) as E. cbn in E.
    rewrite Forall_forall in Hp. assert (P y /\ P x) as [Hpy Hpx] by (split; apply Hp; set_solver).
    split; [done|]. destruct (lt x y) eqn:E2; [|done]. pose proof (so_trans _ _ _ Hpx Hpy Hpx E2 E) as E3. by rewrite so_irrefl in E3.
Qed.

(** There is one sorted list of given elements. *)
Lemma set_sorted_unique l l' : Forall P l -> set_sorted l -> set_sorted l' -> l ≡ₚ l' -> l = l'.
Proof.
  intros Hp Hs Hs' Hl. apply (StronglySorted_unique_strong (fun x y => lt x y = true)); [|done..]. intros x y Hx Hy H1 H2. exfalso. rewrite <- Hl in Hy. rewrite Forall_forall in Hp.
  pose proof (so_trans x y x (Hp x Hx) (Hp y Hy) (Hp x Hx) H1 H2) as E. by rewrite so_irrefl in E by auto.
Qed.
End Set_.
Arguments SetOrder {A} lt P.
