(* ===== verification/VersionEdit.v ===== *)
(** * Version edits (util/leveldb/db/version_edit.h, version_edit.cc)

    A record of changes to the set of table files, and its encoding in the manifest. *)

From S2P Require Import Prelude Coding DbFormat FileNames Status StdSet.
From stdpp Require Import strings.
#[local] Open Scope Z_scope.

Definition kNumLevels : Z := 7.

(** Of [FileMetaData], the fields that are not changed once the file exists; [refs] and
    [allowed_seeks] count uses of the object. *)
Record FileMetaData := MkFile { number : Z; file_size : Z; smallest : bytes; largest : bytes }.

#[export] Instance file_eq_dec : EqDecision FileMetaData.
Proof. solve_decision. Defined.

Definition kComparator : Z := 1.
Definition kLogNumber : Z := 2.
Definition kNextFileNumber : Z := 3.
Definition kLastSequence : Z := 4.
Definition kCompactPointer : Z := 5.
Definition kDeletedFile : Z := 6.
Definition kNewFile : Z := 7.
Definition kPrevLogNumber : Z := 9.

(** The order of [std::pair<int, uint64_t>]. *)
Definition pair_lt (a b : Z * Z) : bool := (a.1 <? b.1) || (negb (b.1 <? a.1) && (a.2 <? b.2)).

#[export] Instance pair_order : SetOrder pair_lt (fun _ => True).
Proof. split; unfold pair_lt; [intros [x1 x2]|intros [x1 x2] [y1 y2] [z1 z2]]; cbn; lia. Qed.

(** A field that may be unset is an option, for [has_log_number_] with [log_number_] and
    the like: such a field is read only when it was set. *)
Module VE.
Record VersionEdit := MkEdit {
  comparator_ : option bytes;
  log_number_ : option Z;
  prev_log_number_ : option Z;
  next_file_number_ : option Z;
  last_sequence_ : option Z;
  compact_pointers_ : list (Z * bytes);
  deleted_files_ : list (Z * Z);
  new_files_ : list (Z * FileMetaData);
}.

Definition with_pointers (e : VersionEdit) (l : list (Z * bytes)) : VersionEdit :=
  MkEdit (comparator_ e) (log_number_ e) (prev_log_number_ e) (next_file_number_ e) (last_sequence_ e) l (deleted_files_ e) (new_files_ e).
Definition with_deleted (e : VersionEdit) (l : list (Z * Z)) : VersionEdit :=
  MkEdit (comparator_ e) (log_number_ e) (prev_log_number_ e) (next_file_number_ e) (last_sequence_ e) (compact_pointers_ e) l (new_files_ e).
Definition with_new (e : VersionEdit) (l : list (Z * FileMetaData)) : VersionEdit :=
  MkEdit (comparator_ e) (log_number_ e) (prev_log_number_ e) (next_file_number_ e) (last_sequence_ e) (compact_pointers_ e) (deleted_files_ e) l.

(** [Clear] keeps the compaction pointers. *)
Definition Clear (e : VersionEdit) : VersionEdit := MkEdit None None None None None (compact_pointers_ e) [] [].
Definition new : VersionEdit := MkEdit None None None None None [] [] [].

Definition SetComparatorName (name : bytes) (e : VersionEdit) : VersionEdit :=
  MkEdit (Some name) (log_number_ e) (prev_log_number_ e) (next_file_number_ e) (last_sequence_ e) (compact_pointers_ e) (deleted_files_ e) (new_files_ e).
Definition SetLogNumber (num : Z) (e : VersionEdit) : VersionEdit :=
  MkEdit (comparator_ e) (Some num) (prev_log_number_ e) (next_file_number_ e) (last_sequence_ e) (compact_pointers_ e) (deleted_files_ e) (new_files_ e).
Definition SetPrevLogNumber (num : Z) (e : VersionEdit) : VersionEdit :=
  MkEdit (comparator_ e) (log_number_ e) (Some num) (next_file_number_ e) (last_sequence_ e) (compact_pointers_ e) (deleted_files_ e) (new_files_ e).
Definition SetNextFile (num : Z) (e : VersionEdit) : VersionEdit :=
  MkEdit (comparator_ e) (log_number_ e) (prev_log_number_ e) (Some num) (last_sequence_ e) (compact_pointers_ e) (deleted_files_ e) (new_files_ e).
Definition SetLastSequence (seq : Z) (e : VersionEdit) : VersionEdit :=
  MkEdit (comparator_ e) (log_number_ e) (prev_log_number_ e) (next_file_number_ e) (Some seq) (compact_pointers_ e) (deleted_files_ e) (new_files_ e).
Definition SetCompactPointer (level : Z) (key : bytes) (e : VersionEdit) : VersionEdit := with_pointers e (compact_pointers_ e ++ [(level, key)]).
Definition AddFile (level file size : Z) (small large : bytes) (e : VersionEdit) : VersionEdit :=
  with_new e (new_files_ e ++ [(level, MkFile file size small large)]).
Definition DeleteFile (level file : Z) (e : VersionEdit) : VersionEdit := with_deleted e (set_insert pair_lt (level, file) (deleted_files_ e)).

(** ** Encoding *)

Definition put_number (tag : Z) (v : option Z) (dst : bytes) : bytes :=
  match v with Some n => PutVarint64 (PutVarint32 dst tag) n | None => dst end.

Fixpoint put_pointers (l : list (Z * bytes)) (dst : bytes) : outcome bytes :=
  match l with
  | [] => Ret dst
  | (level, key) :: l' => k ← InternalKey_Encode key; put_pointers l' (PutLengthPrefixedSlice (PutVarint32 (PutVarint32 dst kCompactPointer) level) k)
  end.

Fixpoint put_deleted (l : list (Z * Z)) (dst : bytes) : bytes :=
  match l with
  | [] => dst
  | (level, file) :: l' => put_deleted l' (PutVarint64 (PutVarint32 (PutVarint32 dst kDeletedFile) level) file)
  end.

Fixpoint put_new (l : list (Z * FileMetaData)) (dst : bytes) : outcome bytes :=
  match l with
  | [] => Ret dst
  | (level, f) :: l' =>
      let dst := PutVarint64 (PutVarint64 (PutVarint32 (PutVarint32 dst kNewFile) level) (number f)) (file_size f) in
      small ← InternalKey_Encode (smallest f);
      large ← InternalKey_Encode (largest f);
      put_new l' (PutLengthPrefixedSlice (PutLengthPrefixedSlice dst small) large)
  end.

Definition EncodeTo (e : VersionEdit) (dst : bytes) : outcome bytes :=
  let dst := match comparator_ e with Some name => PutLengthPrefixedSlice (PutVarint32 dst kComparator) name | None => dst end in
  let dst := put_number kLogNumber (log_number_ e) dst in
  let dst := put_number kPrevLogNumber (prev_log_number_ e) dst in
  let dst := put_number kNextFileNumber (next_file_number_ e) dst in
  let dst := put_number kLastSequence (last_sequence_ e) dst in
  dst ← put_pointers (compact_pointers_ e) dst;
  put_new (new_files_ e) (put_deleted (deleted_files_ e) dst).

(** ** Decoding *)

(** A parser takes a value off the input. *)
Definition GetInternalKey (input : bytes) : option (bytes * bytes) :=
  '(s, input) ← GetLengthPrefixedSlice input; Some (InternalKey_DecodeFrom s, input).

Definition GetLevel (input : bytes) : option (Z * bytes) :=
  '(v, input) ← GetVarint32 input; if v <? kNumLevels then Some (v, input) else None.

Definition get_new_file (input : bytes) : option (Z * FileMetaData * bytes) :=
  '(level, input) ← GetLevel input;
  '(num, input) ← GetVarint64 input;
  '(size, input) ← GetVarint64 input;
  '(small, input) ← GetInternalKey input;
  '(large, input) ← GetInternalKey input;
  Some (level, MkFile num size small large, input).

(** The [switch] of [DecodeFrom]: the rest of the input, or the message. *)
Definition decode_field (tag : Z) (e : VersionEdit) (input : bytes) : bytes + (VersionEdit * bytes) :=
  let parse {A} (p : option (A * bytes)) (msg : bytes) (set : A -> VersionEdit -> VersionEdit) : bytes + (VersionEdit * bytes) :=
    match p with Some (a, input) => inr (set a e, input) | None => inl msg end in
  if tag =? kComparator then parse (GetLengthPrefixedSlice input) (str "comparator name") SetComparatorName
  else if tag =? kLogNumber then parse (GetVarint64 input) (str "log number") SetLogNumber
  else if tag =? kPrevLogNumber then parse (GetVarint64 input) (str "previous log number") SetPrevLogNumber
  else if tag =? kNextFileNumber then parse (GetVarint64 input) (str "next file number") SetNextFile
  else if tag =? kLastSequence then parse (GetVarint64 input) (str "last sequence number") SetLastSequence
  else if tag =? kCompactPointer then
    parse ('(level, input) ← GetLevel input; '(key, input) ← GetInternalKey input; Some ((level, key), input)) (str "compaction pointer")
      (fun '(level, key) => SetCompactPointer level key)
  else if tag =? kDeletedFile then
    parse ('(level, input) ← GetLevel input; '(num, input) ← GetVarint64 input; Some ((level, num), input)) (str "deleted file")
      (fun '(level, num) => DeleteFile level num)
  else if tag =? kNewFile then
    parse (get_new_file input) (str "new-file entry") (fun '(level, f) e => with_new e (new_files_ e ++ [(level, f)]))
  else inl (str "unknown tag").

(** The loop: the edit, and the message if there is one. *)
Fixpoint decode_loop (fuel : nat) (e : VersionEdit) (input : bytes) : outcome (VersionEdit * option bytes) :=
  match fuel with
  | O => Undef
  | S fuel' =>
      match GetVarint32 input with
      | None => Ret (e, match input with [] => None | _ => Some (str "invalid tag") end)
      | Some (tag, input) =>
          match decode_field tag e input with
          | inl msg => Ret (e, Some msg)
          | inr (e, input) => decode_loop fuel' e input
          end
      end
  end.

Definition DecodeFrom (src : bytes) (e : VersionEdit) : outcome (Status * VersionEdit) :=
  '(e, msg) ← decode_loop (S (length src)) (Clear e) src;
  match msg with
  | Some msg => s ← Corruption (str "VersionEdit") msg; Ret (s, e)
  | None => Ret (OK, e)
  end.
End VE.

(** ** The encoding as a sequence of fields *)

Inductive field :=
| FComparator (name : bytes)
| FLog (n : Z) | FPrevLog (n : Z) | FNextFile (n : Z) | FLastSequence (n : Z)
| FPointer (level : Z) (key : bytes)
| FDeleted (level file : Z)
| FNew (level : Z) (f : FileMetaData).

Definition put_field (fd : field) : bytes :=
  match fd with
  | FComparator name => EncodeVarint32 kComparator ++ PutLengthPrefixedSlice [] name
  | FLog n => EncodeVarint32 kLogNumber ++ EncodeVarint64 n
  | FPrevLog n => EncodeVarint32 kPrevLogNumber ++ EncodeVarint64 n
  | FNextFile n => EncodeVarint32 kNextFileNumber ++ EncodeVarint64 n
  | FLastSequence n => EncodeVarint32 kLastSequence ++ EncodeVarint64 n
  | FPointer level key => EncodeVarint32 kCompactPointer ++ EncodeVarint32 level ++ PutLengthPrefixedSlice [] key
  | FDeleted level file => EncodeVarint32 kDeletedFile ++ EncodeVarint32 level ++ EncodeVarint64 file
  | FNew level f => EncodeVarint32 kNewFile ++ EncodeVarint32 level ++ EncodeVarint64 (number f) ++ EncodeVarint64 (file_size f) ++
      PutLengthPrefixedSlice [] (smallest f) ++ PutLengthPrefixedSlice [] (largest f)
  end.

Definition apply_field (e : VE.VersionEdit) (fd : field) : VE.VersionEdit :=
  match fd with
  | FComparator name => VE.SetComparatorName name e
  | FLog n => VE.SetLogNumber n e
  | FPrevLog n => VE.SetPrevLogNumber n e
  | FNextFile n => VE.SetNextFile n e
  | FLastSequence n => VE.SetLastSequence n e
  | FPointer level key => VE.SetCompactPointer level key e
  | FDeleted level file => VE.DeleteFile level file e
  | FNew level f => VE.with_new e (VE.new_files_ e ++ [(level, f)])
  end.

Definition level_ok (level : Z) : Prop := 0 <= level < kNumLevels.
Definition key_fits (k : bytes) : Prop := k <> [] /\ Z.of_nat (length k) < 2 ^ 32.
Definition word64 (n : Z) : Prop := 0 <= n < 2 ^ 64.
Definition file_fits (f : FileMetaData) : Prop := word64 (number f) /\ word64 (file_size f) /\ key_fits (smallest f) /\ key_fits (largest f).

Definition field_ok (fd : field) : Prop :=
  match fd with
  | FComparator name => Z.of_nat (length name) < 2 ^ 32
  | FLog n | FPrevLog n | FNextFile n | FLastSequence n => word64 n
  | FPointer level key => level_ok level /\ key_fits key
  | FDeleted level file => level_ok level /\ word64 file
  | FNew level f => level_ok level /\ file_fits f
  end.

Lemma get_level level rest : level_ok level -> VE.GetLevel (EncodeVarint32 level ++ rest) = Some (level, rest).
Proof. intros Hl. unfold level_ok, kNumLevels in *. unfold VE.GetLevel. rewrite get_varint32 by lia. cbn. unfold kNumLevels. by rewrite (proj2 (Z.ltb_lt _ _)) by lia. Qed.

Lemma get_key k rest : key_fits k -> VE.GetInternalKey (PutLengthPrefixedSlice [] k ++ rest) = Some (k, rest).
Proof. intros [_ Hk]. unfold VE.GetInternalKey. by rewrite get_length_prefixed by done. Qed.

(** One round of the loop reads one field. *)
Lemma decode_field_spec fuel e fd rest : field_ok fd ->
  VE.decode_loop (S fuel) e (put_field fd ++ rest) = VE.decode_loop fuel (apply_field e fd) rest.
Proof.
  intros Hok. cbn [VE.decode_loop]. destruct fd; cbn [put_field field_ok apply_field] in *; rewrite <- !app_assoc, get_varint32 by (by vm_compute);
    unfold VE.decode_field; cbn [Z.eqb Pos.eqb kComparator kLogNumber kPrevLogNumber kNextFileNumber kLastSequence kCompactPointer kDeletedFile kNewFile].
  - by rewrite get_length_prefixed.
  - by rewrite get_varint64.
  - by rewrite get_varint64.
  - by rewrite get_varint64.
  - by rewrite get_varint64.
  - destruct Hok as [Hl Hk]. rewrite get_level by done. cbn. by rewrite get_key.
  - destruct Hok as [Hl Hn]. rewrite get_level by done. cbn. by rewrite get_varint64.
  - destruct Hok as (Hl & Hn & Hs & Hk1 & Hk2). unfold VE.get_new_file. rewrite get_level by done. cbn. rewrite get_varint64 by done. cbn.
    rewrite get_varint64 by done. cbn. rewrite get_key by done. cbn. rewrite get_key by done. by destruct f.
Qed.

Lemma decode_fields fuel e fds : Forall field_ok fds -> (length fds < fuel)%nat ->
  VE.decode_loop fuel e (concat (put_field <$> fds)) = Ret (foldl apply_field e fds, None).
Proof.
  intros Hf. revert fuel e. induction Hf as [|fd fds Hfd _ IH]; intros [|fuel] e Hl; [cbn in Hl; lia|done|cbn in Hl; lia|].
  cbn [fmap list_fmap concat foldl]. rewrite decode_field_spec by done. apply IH. cbn in Hl. lia.
Qed.

(** The fields of an edit in the order of [EncodeTo]. *)
Definition opt_field {A} (F : A -> field) (o : option A) : list field := match o with Some a => [F a] | None => [] end.

Definition edit_fields (e : VE.VersionEdit) : list field :=
  opt_field FComparator (VE.comparator_ e) ++ opt_field FLog (VE.log_number_ e) ++ opt_field FPrevLog (VE.prev_log_number_ e) ++
  opt_field FNextFile (VE.next_file_number_ e) ++ opt_field FLastSequence (VE.last_sequence_ e) ++
  ((fun '(level, key) => FPointer level key) <$> VE.compact_pointers_ e) ++
  ((fun '(level, file) => FDeleted level file) <$> VE.deleted_files_ e) ++
  ((fun '(level, f) => FNew level f) <$> VE.new_files_ e).

(** What the setters keep: fields in range, and the set of deleted files in order. *)
Definition edit_ok (e : VE.VersionEdit) : Prop := Forall field_ok (edit_fields e) /\ set_sorted pair_lt (VE.deleted_files_ e).

Example edit_text : (r ← VE.EncodeTo (VE.DeleteFile 1 300 (VE.AddFile 2 5 1000 (str "aaaaaaaaa") (str "bbbbbbbbbb") (VE.SetLogNumber 7 VE.new))) [];
  VE.DecodeFrom r VE.new) = Ret (OK, VE.DeleteFile 1 300 (VE.AddFile 2 5 1000 (str "aaaaaaaaa") (str "bbbbbbbbbb") (VE.SetLogNumber 7 VE.new))).
Proof. vm_compute. reflexivity. Qed.

Lemma encode_key k : key_fits k -> InternalKey_Encode k = Ret k.
Proof. intros [Hk _]. by destruct k. Qed.

Lemma put_pointers_spec l dst : Forall field_ok ((fun '(level, key) => FPointer level key) <$> l) ->
  VE.put_pointers l dst = Ret (dst ++ concat (put_field <$> ((fun '(level, key) => FPointer level key) <$> l))).
Proof.
  revert dst. induction l as [|[level key] l IH]; intros dst Hl; [by rewrite app_nil_r|]. cbn [fmap list_fmap] in Hl. apply Forall_cons in Hl as [[_ Hk] Hl].
  cbn [VE.put_pointers]. rewrite encode_key by done. run. rewrite IH by done. cbn [fmap list_fmap concat put_field]. rewrite put_prefix. unfold PutVarint32. by rewrite <- !app_assoc.
Qed.

Lemma put_deleted_spec l dst : VE.put_deleted l dst = dst ++ concat (put_field <$> ((fun '(level, file) => FDeleted level file) <$> l)).
Proof.
  revert dst. induction l as [|[level file] l IH]; intros dst; [by rewrite app_nil_r|]. cbn [VE.put_deleted]. rewrite IH. cbn [fmap list_fmap concat put_field].
  unfold PutVarint32, PutVarint64. by rewrite <- !app_assoc.
Qed.

Lemma put_new_spec l dst : Forall field_ok ((fun '(level, f) => FNew level f) <$> l) ->
  VE.put_new l dst = Ret (dst ++ concat (put_field <$> ((fun '(level, f) => FNew level f) <$> l))).
Proof.
  revert dst. induction l as [|[level f] l IH]; intros dst Hl; [by rewrite app_nil_r|]. cbn [fmap list_fmap] in Hl. apply Forall_cons in Hl as [(_ & _ & _ & H1 & H2) Hl].
  cbn [VE.put_new]. rewrite !encode_key by done. run. rewrite IH by done. cbn [fmap list_fmap concat put_field]. rewrite (put_prefix _ (largest f)), (put_prefix _ (smallest f)).
  unfold PutVarint32, PutVarint64. by rewrite <- !app_assoc.
Qed.

Lemma put_number_spec tag (F : Z -> field) v dst : (forall n, put_field (F n) = EncodeVarint32 tag ++ EncodeVarint64 n) ->
  VE.put_number tag v dst = dst ++ concat (put_field <$> opt_field F v).
Proof.
  intros HF. destruct v as [n|]; cbn; [|by rewrite app_nil_r]. unfold PutVarint64, PutVarint32. by rewrite HF, app_nil_r, <- app_assoc.
Qed.

Lemma encode_spec e dst : edit_ok e -> VE.EncodeTo e dst = Ret (dst ++ concat (put_field <$> edit_fields e)).
Proof.
  intros [He _]. unfold edit_fields in *. rewrite !Forall_app in He. destruct He as (_ & _ & _ & _ & _ & Hp & _ & Hn). unfold VE.EncodeTo.
  rewrite (put_number_spec kLogNumber FLog), (put_number_spec kPrevLogNumber FPrevLog), (put_number_spec kNextFileNumber FNextFile), (put_number_spec kLastSequence FLastSequence) by done.
  rewrite put_pointers_spec by done. run. rewrite put_deleted_spec, put_new_spec by done. rewrite !fmap_app, !concat_app, <- !app_assoc. f_equal.
  destruct (VE.comparator_ e) as [name|]; [|done]. cbn [opt_field fmap list_fmap concat put_field]. rewrite put_prefix. unfold PutVarint32. by rewrite app_nil_r, <- !app_assoc.
Qed.

(** The setters that the fields stand for rebuild the edit. *)
Lemma apply_pointers l e : foldl apply_field e ((fun '(level, key) => FPointer level key) <$> l) = VE.with_pointers e (VE.compact_pointers_ e ++ l).
Proof.
  revert e. induction l as [|[level key] l IH]; intros e; [rewrite app_nil_r; by destruct e|]. cbn [fmap list_fmap foldl apply_field]. rewrite IH. cbn. by rewrite <- app_assoc.
Qed.

Lemma apply_deleted l e : foldl apply_field e ((fun '(level, file) => FDeleted level file) <$> l) =
  VE.with_deleted e (foldl (fun d x => set_insert pair_lt x d) (VE.deleted_files_ e) l).
Proof. revert e. induction l as [|[level file] l IH]; intros e; [by destruct e|]. cbn [fmap list_fmap foldl apply_field]. by rewrite IH. Qed.

Lemma apply_new l e : foldl apply_field e ((fun '(level, f) => FNew level f) <$> l) = VE.with_new e (VE.new_files_ e ++ l).
Proof.
  revert e. induction l as [|[level f] l IH]; intros e; [rewrite app_nil_r; by destruct e|]. cbn [fmap list_fmap foldl apply_field]. rewrite IH. cbn. by rewrite <- app_assoc.
Qed.

Lemma apply_fields e : edit_ok e -> foldl apply_field VE.new (edit_fields e) = e.
Proof.
  intros [_ Hs]. unfold edit_fields. rewrite !foldl_app, apply_new, apply_deleted, apply_pointers. destruct e as [c l p n s cp d nf]. cbn in Hs.
  destruct c, l, p, n, s; cbn; by rewrite (set_insert_all pair_lt [] d (Forall_true _ _ (fun _ => Logic.I)) Hs).
Qed.

Lemma put_field_length fd : (0 < length (put_field fd))%nat.
Proof. destruct fd; cbn [put_field]; rewrite length_app; (match goal with |- (0 < length (EncodeVarint32 ?t) + _)%nat => pose proof (varint32_length t ltac:(by vm_compute)) end); lia. Qed.

Lemma fields_length fds : (length fds <= length (concat (put_field <$> fds)))%nat.
Proof. induction fds as [|fd fds IH]; [done|]. cbn [fmap list_fmap concat length]. rewrite length_app. pose proof (put_field_length fd). lia. Qed.

Lemma decode_encode e : edit_ok e -> exists r, VE.EncodeTo e [] = Ret r /\ VE.DecodeFrom r VE.new = Ret (OK, e).
Proof.
  intros He. eexists. split; [by apply encode_spec|]. cbn [app]. unfold VE.DecodeFrom.
  rewrite decode_fields; [|by destruct He|pose proof (fields_length (edit_fields e)); lia]. run. unfold VE.Clear. cbn [VE.compact_pointers_ VE.new].
  change (VE.MkEdit _ _ _ _ _ _ _ _) with VE.new. by rewrite apply_fields.
Qed.

(** ** Arbitrary input *)

Definition levels_ok (e : VE.VersionEdit) : Prop :=
  Forall (fun x => level_ok x.1) (VE.compact_pointers_ e) /\ Forall (fun x => level_ok x.1) (VE.deleted_files_ e) /\ Forall (fun x => level_ok x.1) (VE.new_files_ e).

Lemma get_level_total p level p' : VE.GetLevel p = Some (level, p') -> level_ok level /\ (length p' < length p)%nat.
Proof.
  unfold VE.GetLevel. destruct (GetVarint32 p) as [[v q]|] eqn:E; [|done]. apply get_varint32_total in E. cbn. destruct (Z.ltb_spec v kNumLevels); [|done].
  intros [= <- <-]. unfold level_ok. lia.
Qed.

Lemma get_key_total p k p' : VE.GetInternalKey p = Some (k, p') -> (length p' < length p)%nat.
Proof. unfold VE.GetInternalKey. destruct (GetLengthPrefixedSlice p) as [[s q]|] eqn:E; [|done]. apply get_length_prefixed_total in E. intros [= <- <-]. done. Qed.

(** Takes a chain of parsers apart. *)
Ltac parsed_all :=
  repeat match goal with
  | H : (_ ← ?p; _) = Some _ |- _ => let E := fresh "E" in destruct p as [[? ?]|] eqn:E; [cbn in H|done]
  | H : VE.GetLevel _ = Some _ |- _ => apply get_level_total in H as [? ?]
  | H : VE.GetInternalKey _ = Some _ |- _ => apply get_key_total in H
  | H : GetVarint64 _ = Some _ |- _ => apply get_varint64_total in H as [? ?]
  | H : GetLengthPrefixedSlice _ = Some _ |- _ => apply get_length_prefixed_total in H
  | H : Some _ = Some _ |- _ => injection H as ?; subst
  end.

Definition sound (e : VE.VersionEdit) : Prop := levels_ok e /\ set_sorted pair_lt (VE.deleted_files_ e).

Lemma decode_field_sound tag e input e' input' : sound e -> VE.decode_field tag e input = inr (e', input') -> sound e' /\ (length input' <= length input)%nat.
Proof.
  intros [(H1 & H2 & H3) Hs] E. unfold VE.decode_field in E; cbv zeta beta in E.
  repeat match type of E with (if ?b then _ else _) = _ => match type of b with bool => destruct b end end; try done;
    match type of E with match ?p with _ => _ end = _ => destruct p as [[a q]|] eqn:Ep; [|done] end; injection E as <- <-; try destruct a as [lv x]; unfold VE.get_new_file in *.
  all: parsed_all; (split; [|cbn; lia]); split; try done; unfold levels_ok; split_and?; try done; cbn.
  - apply Forall_app_2; [done|by apply Forall_singleton].
  - apply Forall_forall. intros y Hy. apply set_insert_elem in Hy as [->|Hy]; [done|]. rewrite Forall_forall in H2. by apply H2.
  - apply (set_insert_sorted pair_lt (P := fun _ => True)); [done|by apply Forall_true|done].
  - apply Forall_app_2; [done|by apply Forall_singleton].
Qed.

(** The loop ends on any input; its edits name existing levels only. *)
Lemma decode_loop_total fuel e input : sound e -> (length input < fuel)%nat ->
  exists e' msg, VE.decode_loop fuel e input = Ret (e', msg) /\ sound e' /\ (forall m, msg = Some m -> (length m < 64)%nat).
Proof.
  revert e input. induction fuel as [|fuel IH]; intros e input He Hl; [lia|]. cbn [VE.decode_loop]. destruct (GetVarint32 input) as [[tag rest]|] eqn:E.
  - apply get_varint32_total in E as [_ Hr]. destruct (VE.decode_field tag e rest) as [msg|[e' rest']] eqn:Ef.
    + eexists e, (Some msg). split_and!; [done|done|]. intros m [= <-]. unfold VE.decode_field in Ef; cbv zeta beta in Ef.
      repeat match type of Ef with (if ?b then _ else _) = _ => match type of b with bool => destruct b end end;
        repeat match type of Ef with match ?p with _ => _ end = _ => destruct p as [[? ?]|]; [done|] end; injection Ef as <-; vm_compute; lia.
    + destruct (decode_field_sound _ _ _ _ _ He Ef) as [He' Hl']. apply IH; [done|lia].
  - eexists e, _. split_and!; [done|done|]. destruct input; [done|]. intros m [= <-]. vm_compute. lia.
Qed.

(** ** Theorems *)

(** C29: a version edit survives the manifest.  For every edit that the setters can build
    (levels below kNumLevels, 64-bit numbers, keys that are not empty), EncodeTo passes
    its assertions and DecodeFrom gives the edit back from the text: every field that was
    set, the compaction pointers and new files in order, the set of deleted files. *)
Theorem edit_roundtrip e : edit_ok e -> exists r, VE.EncodeTo e [] = Ret r /\ VE.DecodeFrom r VE.new = Ret (OK, e).
Proof. apply decode_encode. Qed.

Definition sample_edit : VE.VersionEdit :=
  VE.SetCompactPointer 1 (str "ppppppppp") (VE.DeleteFile 0 300 (VE.DeleteFile 1 7 (VE.DeleteFile 0 2
    (VE.AddFile 2 5 1000 (str "aaaaaaaaa") (str "bbbbbbbbbb") (VE.SetLastSequence (2 ^ 40) (VE.SetLogNumber 7 VE.new)))))).

Lemma edit_roundtrip_witness : edit_ok sample_edit /\ exists r, VE.EncodeTo sample_edit [] = Ret r /\ VE.DecodeFrom r VE.new = Ret (OK, sample_edit).
Proof.
  assert (edit_ok sample_edit) as He.
  { split; [|repeat constructor]. repeat (apply Forall_cons; split); try apply Forall_nil; repeat split; cbn; try lia; try done. }
  split; [exact He|exact (edit_roundtrip sample_edit He)].
Defined.

(** C30: decodeFrom makes well-typed edits only.  On any bytes it ends with OK or with
    Corruption, never with an assertion, and every level of the edit is one of the
    seven, so the arrays that Builder::Apply indexes with them are not overrun. *)
Theorem edit_decode_typed src : exists s e, VE.DecodeFrom src VE.new = Ret (s, e) /\ levels_ok e /\ (s = OK \/ IsCorruption s = Ret true).
Proof.
  destruct (decode_loop_total (S (length src)) VE.new src) as (e & msg & E & [Hl _] & Hm); [split; [done|constructor]|lia|].
  unfold VE.DecodeFrom. change (VE.Clear VE.new) with VE.new. rewrite E. run. destruct msg as [msg|]; [|exists OK, e; auto].
  specialize (Hm msg eq_refl). destruct (status_string kCorruption (str "VersionEdit") msg) as (s & Es & _ & Ec & _); [by vm_compute|change (length (str "VersionEdit")) with 11%nat; lia|].
  unfold Corruption. rewrite Es. run. exists s, e. split_and!; [done|done|right]. unfold IsCorruption, has_code. by rewrite Ec.
Qed.
