(* ===== verification/Version.v ===== *)
(** * Versions: the files of each level (util/leveldb/db/version_set.cc)

    The searches in the lists of table files of a version, on their key ranges. *)

From S2P Require Import Prelude Order Coding DbFormat InternalOrder FileNames Status StdSet VersionEdit.
From stdpp Require Import strings.
#[local] Open Scope Z_scope.

Definition kMaxMemCompactLevel : Z := 2.
Definition kTargetFileSize : Z := 2 * 1048576.
Definition kMaxGrandParentOverlapBytes : Z := 10 * kTargetFileSize.

Definition TotalFileSize (files : list FileMetaData) : Z := foldl (fun sum f => i64 (sum + file_size f)) 0 files.

(** [files_[level]] of a version, an array of [kNumLevels] vectors. *)
Definition level_files (files : list (list FileMetaData)) (level : Z) : outcome (list FileMetaData) :=
  if level <? 0 then Undef else match files !! Z.to_nat level with Some l => Ret l | None => Undef end.

Section Files.
Context (c : Comparator).

Fixpoint find_file (fuel : nat) (files : list FileMetaData) (key : bytes) (left right : Z) : outcome Z :=
  match fuel with
  | O => Undef
  | S fuel' =>
      if left <? right then
        let mid := u32 (left + right) / 2 in
        match files !! Z.to_nat mid with
        | None => Undef
        | Some f =>
            l ← InternalKey_Encode (largest f);
            r ← InternalCompare c l key;
            if r <? 0 then find_file fuel' files key (u32 (mid + 1)) right else find_file fuel' files key left mid
        end
      else Ret right
  end.

Definition FindFile (files : list FileMetaData) (key : bytes) : outcome Z :=
  right ← find_file (S (length files)) files key 0 (u32 (Z.of_nat (length files))); Ret (i32 right).

(** A null key is [None]. *)
Definition AfterFile (user_key : option bytes) (f : FileMetaData) : outcome bool :=
  match user_key with None => Ret false | Some k => l ← InternalKey_user_key (largest f); Ret (0 <? cmp_Compare c k l) end.

Definition BeforeFile (user_key : option bytes) (f : FileMetaData) : outcome bool :=
  match user_key with None => Ret false | Some k => s ← InternalKey_user_key (smallest f); Ret (cmp_Compare c k s <? 0) end.

(** The loop over files that may overlap each other; [||] looks at the second operand
    only if the first is false. *)
Fixpoint any_overlap (files : list FileMetaData) (smallest_user_key largest_user_key : option bytes) : outcome bool :=
  match files with
  | [] => Ret false
  | f :: files' =>
      a ← AfterFile smallest_user_key f;
      b ← (if (a : bool) then Ret true else BeforeFile largest_user_key f);
      if (b : bool) then any_overlap files' smallest_user_key largest_user_key else Ret true
  end.

Definition SomeFileOverlapsRange (disjoint_sorted_files : bool) (files : list FileMetaData) (smallest_user_key largest_user_key : option bytes) : outcome bool :=
  if negb disjoint_sorted_files then any_overlap files smallest_user_key largest_user_key
  else
    index ← match smallest_user_key with
            | None => Ret 0
            | Some k => small ← InternalKey_new k kMaxSequenceNumber kValueTypeForSeek; e ← InternalKey_Encode small; i ← FindFile files e; Ret (u32 i)
            end;
    if Z.of_nat (length files) <=? index then Ret false
    else
      match files !! Z.to_nat index with
      | None => Undef
      | Some f => b ← BeforeFile largest_user_key f; Ret (negb b)
      end.

Definition OverlapInLevel (files : list (list FileMetaData)) (level : Z) (smallest_user_key largest_user_key : option bytes) : outcome bool :=
  l ← level_files files level; SomeFileOverlapsRange (0 <? level) l smallest_user_key largest_user_key.

(** The loop of [GetOverlappingInputs]; [rest] is the files from [i] on. *)
Fixpoint overlap_loop (fuel : nat) (level0 : bool) (files rest : list FileMetaData) (user_begin user_end : option bytes) (inputs : list FileMetaData) :
    outcome (list FileMetaData) :=
  match fuel with
  | O => Undef
  | S fuel' =>
      match rest with
      | [] => Ret inputs
      | f :: rest =>
          file_start ← InternalKey_user_key (smallest f);
          file_limit ← InternalKey_user_key (largest f);
          if match user_begin with Some b => cmp_Compare c file_limit b <? 0 | None => false end then overlap_loop fuel' level0 files rest user_begin user_end inputs
          else if match user_end with Some e => 0 <? cmp_Compare c file_start e | None => false end then overlap_loop fuel' level0 files rest user_begin user_end inputs
          else
            let go := overlap_loop fuel' level0 files in
            if level0 then
              if match user_begin with Some b => cmp_Compare c file_start b <? 0 | None => false end then go files (Some file_start) user_end []
              else if match user_end with Some e => 0 <? cmp_Compare c file_limit e | None => false end then go files user_begin (Some file_limit) []
              else go rest user_begin user_end (inputs ++ [f])
            else go rest user_begin user_end (inputs ++ [f])
      end
  end.

Definition user_key_of (k : option bytes) : outcome (option bytes) :=
  match k with None => Ret None | Some k => u ← InternalKey_user_key k; Ret (Some u) end.

(** [begin] and [end_] are internal keys; every restart lowers the one or raises the
    other to a bound of a file. *)
Definition GetOverlappingInputs (files : list (list FileMetaData)) (level : Z) (begin end_ : option bytes) : outcome (list FileMetaData) :=
  assert! (0 <=? level);
  assert! (level <? kNumLevels);
  user_begin ← user_key_of begin;
  user_end ← user_key_of end_;
  l ← level_files files level;
  overlap_loop (S (2 * length l) * S (length l)) (level =? 0) l l user_begin user_end [].

(** The loop of [PickLevelForMemTableOutput]. *)
Fixpoint pick_level (fuel : nat) (files : list (list FileMetaData)) (smallest_user_key largest_user_key start limit : bytes) (level : Z) : outcome Z :=
  if level <? kMaxMemCompactLevel then
    match fuel with
    | O => Undef
    | S fuel' =>
        o ← OverlapInLevel files (level + 1) (Some smallest_user_key) (Some largest_user_key);
        if (o : bool) then Ret level
        else
          too_many ← (if level + 2 <? kNumLevels then
                        overlaps ← GetOverlappingInputs files (level + 2) (Some start) (Some limit);
                        Ret (kMaxGrandParentOverlapBytes <? TotalFileSize overlaps)
                      else Ret false);
          if (too_many : bool) then Ret level else pick_level fuel' files smallest_user_key largest_user_key start limit (level + 1)
    end
  else Ret level.

Definition PickLevelForMemTableOutput (files : list (list FileMetaData)) (smallest_user_key largest_user_key : bytes) : outcome Z :=
  o ← OverlapInLevel files 0 (Some smallest_user_key) (Some largest_user_key);
  if (o : bool) then Ret 0
  else
    start ← InternalKey_new smallest_user_key kMaxSequenceNumber kValueTypeForSeek;
    limit ← InternalKey_new largest_user_key 0 0;
    pick_level 2 files smallest_user_key largest_user_key start limit 0.
End Files.

(** ** Searching a level by key *)

(** What the index of a level says of a file: the 16 bytes are its number and size. *)
Definition file_value (f : FileMetaData) : bytes := EncodeFixed64 true (number f) ++ EncodeFixed64 true (file_size f).
Definition file_entry (f : FileMetaData) : entry := (largest f, file_value f).

Section Search.
Context (c : Comparator) `{!ComparatorLaws c}.
Abbreviation iord := (internal_ord c).

(** Files whose last keys ascend. *)
Definition by_largest (files : list FileMetaData) : Prop := ascending internal_good iord (file_entry <$> files) /\ Z.of_nat (length files) < 2 ^ 31.

Lemma find_file_loop files key fuel left right : by_largest files -> internal_good key ->
  (left <= rank iord key (file_entry <$> files) <= right)%nat -> (right <= length files)%nat -> (right - left < fuel)%nat ->
  find_file c fuel files key (Z.of_nat left) (Z.of_nat right) = Ret (Z.of_nat (rank iord key (file_entry <$> files))).
Proof.
  intros [Ha Hn] Hk. revert left right. induction fuel as [|fuel IH]; intros left right Hr Hle Hf; [lia|]. cbn [find_file].
  destruct (Z.ltb_spec (Z.of_nat left) (Z.of_nat right)) as [Hlt|Hge]; [|do 2 f_equal; lia]. set (mid := ((left + right) / 2)%nat).
  assert (left <= mid < right)%nat as Hmid by (unfold mid; pose proof (Nat.div_mod (left + right) 2); pose proof (Nat.mod_upper_bound (left + right) 2); lia).
  assert (u32 (Z.of_nat left + Z.of_nat right) / 2 = Z.of_nat mid) as ->.
  { rewrite u32_small by lia. unfold mid. by rewrite Nat2Z.inj_div, Nat2Z.inj_add. }
  rewrite Nat2Z.id. destruct (lookup_lt_is_Some_2 files mid) as [f Hfm]; [lia|]. rewrite Hfm.
  assert ((file_entry <$> files) !! mid = Some (file_entry f)) as He by (by rewrite list_lookup_fmap, Hfm).
  pose proof (ascending_lookup_ok _ _ _ Ha He) as Hg. cbn [file_entry fst] in Hg. rewrite encode_good by done. run. rewrite compare_good by done. run.
  pose proof (rank_below key _ _ _ Ha Hk He) as Hb. unfold below in Hb. cbn [file_entry fst] in Hb. destruct (Z.ltb_spec (iord (largest f) key) 0) as [Hc|Hc].
  - rewrite u32_small by lia. replace (Z.of_nat mid + 1) with (Z.of_nat (S mid)) by lia. apply IH; lia.
  - apply IH; lia.
Qed.

Lemma find_file_spec files key : by_largest files -> internal_good key -> FindFile c files key = Ret (Z.of_nat (rank iord key (file_entry <$> files))).
Proof.
  intros Hf Hk. pose proof (rank_le iord key (file_entry <$> files)) as Hr. rewrite length_fmap in Hr. pose proof Hf as [_ Hn]. unfold FindFile. rewrite u32_small by lia.
  change 0 with (Z.of_nat 0). rewrite find_file_loop by (done || lia). run. by rewrite i32_small by lia.
Qed.
End Search.

(** ** Ranges of user keys *)

Section Ranges.
Context (c : Comparator) `{!ComparatorLaws c}.
Abbreviation ucmp := (cmp_Compare c).
Abbreviation iord := (internal_ord c).

(** A file has keys, in order. *)
Record file_ok (f : FileMetaData) : Prop := {
  fo_small : valid_key (smallest f);
  fo_large : valid_key (largest f);
  fo_order : iord (smallest f) (largest f) <= 0;
}.

Definition start (f : FileMetaData) : bytes := ukey (smallest f).
Definition limit (f : FileMetaData) : bytes := ukey (largest f).

(** The range from [b] to [e], either of which may be open, and the files that meet it. *)
Definition from (b : option bytes) (u : bytes) : bool := match b with Some x => ucmp x u <=? 0 | None => true end.
Definition upto (e : option bytes) (u : bytes) : bool := match e with Some x => ucmp u x <=? 0 | None => true end.
Definition overlaps (b e : option bytes) (f : FileMetaData) : bool := from b (limit f) && upto e (start f).
Definition within (b e : option bytes) (f : FileMetaData) : bool := from b (start f) && upto e (limit f).

Lemma file_range f : file_ok f -> ucmp (start f) (limit f) <= 0.
Proof. intros [H1 H2 H3]. by apply internal_user_le; [apply valid_key_good..|]. Qed.

Lemma user_key_good k : valid_key k -> InternalKey_user_key k = Ret (ukey k).
Proof. intros Hk. by apply extract_ukey, valid_key_good. Qed.

Lemma flip_lt a b : (ucmp a b <? 0) = negb (ucmp b a <=? 0).
Proof. pose proof (ord_anti (ok := fun _ => True) (ord := ucmp) a b Logic.I Logic.I). lia. Qed.

Lemma flip_gt a b : (0 <? ucmp a b) = negb (ucmp a b <=? 0).
Proof. lia. Qed.

Lemma after_file k f : file_ok f -> AfterFile c k f = Ret (negb (from k (limit f))).
Proof. intros [_ Hl _]. unfold AfterFile, from. destruct k as [k|]; [|done]. rewrite user_key_good by done. run. by rewrite flip_gt. Qed.

Lemma before_file k f : file_ok f -> BeforeFile c k f = Ret (negb (upto k (start f))).
Proof. intros [Hs _ _]. unfold BeforeFile, upto. destruct k as [k|]; [|done]. rewrite user_key_good by done. run. by rewrite flip_lt. Qed.

Lemma any_overlap_spec files b e : Forall file_ok files -> any_overlap c files b e = Ret (existsb (overlaps b e) files).
Proof.
  induction 1 as [|f files Hf _ IH]; [done|]. cbn [any_overlap existsb]. rewrite after_file by done. run. unfold overlaps at 1. destruct (from b (limit f)); cbn [negb andb orb]; [|done].
  rewrite before_file by done. run. by destruct (upto e (start f)).
Qed.

(** In a level whose files do not overlap, the search of the first file that ends at or
    after the range decides.  [level_sorted]: each file ends before the next starts. *)
Definition level_sorted (files : list FileMetaData) : Prop :=
  Forall file_ok files /\ StronglySorted (fun f g => iord (largest f) (smallest g) < 0) files /\ Z.of_nat (length files) < 2 ^ 31.

Lemma level_sorted_by_largest files : level_sorted files -> by_largest c files.
Proof.
  intros (Hok & Hs & Hn). split; [|done]. split.
  - rewrite <- list_fmap_compose. apply Forall_fmap. eapply Forall_impl; [exact Hok|]. intros f [_ Hl _]. by apply valid_key_good.
  - clear Hn. induction Hs as [|f files Hs IH Hf]; [constructor|]. apply Forall_cons in Hok as [Hfo Hok]. cbn [fmap list_fmap]. constructor; [by apply IH|].
    apply Forall_fmap. rewrite Forall_forall in *. intros g Hg. cbn. destruct (Hok g Hg) as [H1 H2 H3]. apply (lt_le_lt _ (smallest g)); [apply valid_key_good, Hfo|by apply valid_key_good..|by apply Hf|done].
Qed.

Lemma user_trans a b d : ucmp a b <= 0 -> ucmp b d <= 0 -> ucmp a d <= 0.
Proof. by apply (ord_le_trans (ok := fun _ => True) (ord := ucmp)). Qed.

Lemma start_mono files i j f g : level_sorted files -> files !! i = Some f -> files !! j = Some g -> (i < j)%nat -> ucmp (limit f) (start g) <= 0.
Proof.
  intros (Hok & Hs & _) Hi Hj Hlt. rewrite Forall_lookup in Hok. destruct (Hok i f Hi) as [_ Hf _], (Hok j g Hj) as [Hg _ _].
  apply internal_user_le; [by apply valid_key_good..|]. rewrite <- (take_drop j files) in Hs.
  assert (iord (largest f) (smallest g) < 0) as ?; [|lia]. apply (StronglySorted_app_1_elem_of (fun f g => iord (largest f) (smallest g) < 0) _ _ _ _ Hs).
  - apply list_elem_of_lookup. exists i. by rewrite lookup_take_lt.
  - apply list_elem_of_lookup. exists 0%nat. by rewrite lookup_drop, Nat.add_0_r.
Qed.

(** The first file that does not end before the range. *)
Definition first_from (b : option bytes) (files : list FileMetaData) : nat :=
  match b with Some k => rank iord (ikey k kMaxSequenceNumber kValueTypeForSeek) (file_entry <$> files) | None => 0 end.

Lemma first_from_spec b files i f : level_sorted files -> files !! i = Some f -> (i < first_from b files)%nat <-> from b (limit f) = false.
Proof.
  intros Hl Hi. unfold first_from, from. destruct b as [k|]; [|split; [lia|done]]. pose proof (level_sorted_by_largest files Hl) as [Ha _]. destruct Hl as (Hok & _).
  rewrite Forall_lookup in Hok. destruct (Hok i f Hi) as [_ Hf _].
  assert ((file_entry <$> files) !! i = Some (file_entry f)) as He by (by rewrite list_lookup_fmap, Hi).
  rewrite <- (rank_below (ikey k kMaxSequenceNumber kValueTypeForSeek) _ _ _ Ha (ikey_good _ _ _) He). unfold below. cbn [file_entry fst]. rewrite seek_above by done. fold (limit f).
  pose proof (ord_anti (ok := fun _ => True) (ord := ucmp) (limit f) k Logic.I Logic.I). lia.
Qed.

Lemma overlap_sorted files b e : level_sorted files -> SomeFileOverlapsRange c true files b e = Ret (existsb (overlaps b e) files).
Proof.
  intros Hl. pose proof Hl as (Hok & _ & Hn). unfold SomeFileOverlapsRange. cbn [negb].
  assert (first_from b files <= length files)%nat as Hle.
  { unfold first_from. destruct b; [|lia]. etransitivity; [apply rank_le|]. by rewrite length_fmap. }
  transitivity (if Z.of_nat (length files) <=? Z.of_nat (first_from b files) then Ret false
    else match files !! first_from b files with None => Undef | Some f => r ← BeforeFile c e f; Ret (negb r) end).
  { unfold first_from in *. destruct b as [k|]; [|done]. unfold InternalKey_new. rewrite append_internal_key by apply seek_tag_valid. run. cbn [app]. rewrite encode_good by apply ikey_good. run.
    rewrite find_file_spec by (done || apply ikey_good || by apply level_sorted_by_largest). run. rewrite u32_small by lia. by rewrite Nat2Z.id. }
  destruct (Z.leb_spec (Z.of_nat (length files)) (Z.of_nat (first_from b files))) as [Hge|Hlt].
  - f_equal. symmetry. apply not_true_iff_false. intros (f & Hf & Ho)%existsb_exists. apply list_elem_of_In, list_elem_of_lookup in Hf as [i Hi].
    unfold overlaps in Ho. rewrite (proj1 (first_from_spec b files i f Hl Hi)) in Ho; [done|]. apply lookup_lt_Some in Hi. lia.
  - destruct (lookup_lt_is_Some_2 files (first_from b files)) as [f Hf]; [lia|]. rewrite Hf. rewrite before_file by (by eapply Forall_lookup_1). run. rewrite negb_involutive. f_equal.
    assert (from b (limit f) = true) as Hfr.
    { apply not_false_iff_true. intros Hc. apply (first_from_spec b files _ f Hl Hf) in Hc. lia. }
    apply eq_true_iff_eq. rewrite existsb_exists. split.
    + intros He. exists f. split; [by eapply list_elem_of_In, list_elem_of_lookup_2|]. unfold overlaps. by rewrite Hfr, He.
    + intros (g & Hg & Ho). apply list_elem_of_In, list_elem_of_lookup in Hg as [i Hi]. unfold overlaps in Ho. apply andb_true_iff in Ho as [Ho1 Ho2].
      destruct (Nat.lt_trichotomy i (first_from b files)) as [Hlti|[->|Hgti]]; [|by simplify_eq|].
      * apply (first_from_spec b files i g Hl Hi) in Hlti. congruence.
      * unfold upto in *. destruct e as [e|]; [|done]. pose proof (start_mono files _ _ f g Hl Hf Hi Hgti) as H1.
        pose proof (file_range f ltac:(by eapply Forall_lookup_1)) as H2. apply Z.leb_le in Ho2. apply Z.leb_le. eapply user_trans; [exact H2|]. by eapply user_trans.
Qed.

(** *** [GetOverlappingInputs] *)

(** The second range contains the first; a range that no file straddles. *)
Definition wider (b e b' e' : option bytes) : Prop := (forall u, from b u = true -> from b' u = true) /\ (forall u, upto e u = true -> upto e' u = true).
Definition closed (files : list FileMetaData) (b e : option bytes) : Prop := forall f, f ∈ files -> overlaps b e f = true -> within b e f = true.

Lemma wider_overlaps b e b' e' f : wider b e b' e' -> overlaps b e f = true -> overlaps b' e' f = true.
Proof. intros [H1 H2] [Hf Hu]%andb_true_iff. apply andb_true_iff. auto. Qed.

Lemma from_mono b u v : ucmp u v <= 0 -> from b u = true -> from b v = true.
Proof. intros H. unfold from. destruct b; [|done]. rewrite !Z.leb_le. intros. by eapply user_trans. Qed.

Lemma upto_mono e u v : ucmp u v <= 0 -> upto e v = true -> upto e u = true.
Proof. intros H. unfold upto. destruct e; [|done]. rewrite !Z.leb_le. intros. by eapply user_trans. Qed.

Lemma from_some u v : from (Some u) v = (ucmp u v <=? 0).
Proof. done. Qed.

(** How often a range can still grow. *)
Definition outside (files : list FileMetaData) (b e : option bytes) : nat :=
  length (List.filter (fun f => negb (from b (start f))) files) + length (List.filter (fun f => negb (upto e (limit f))) files).

Lemma user_refl u : ucmp u u = 0.
Proof. by apply (key_refl (ok := fun _ => True) (ord := ucmp)). Qed.

Lemma outside_start files b e f : f ∈ files -> from b (start f) = false -> (outside files (Some (start f)) e < outside files b e)%nat.
Proof.
  intros Hf Hb. unfold outside. apply Nat.add_lt_mono_r. apply (count_lt _ _ _ f); [|done|by rewrite Hb|].
  - intros g. rewrite !negb_true_iff. intros Hg. destruct (from b (start g)) eqn:E; [|done]. rewrite <- Hg. destruct b as [x|]; [|done]. cbn in *.
    apply Z.leb_le in E. apply Z.leb_gt in Hb. symmetry. apply Z.leb_le. pose proof (ord_anti (ok := fun _ => True) (ord := ucmp) x (start f) Logic.I Logic.I).
    eapply user_trans; [|exact E]. lia.
  - cbn. by rewrite user_refl.
Qed.

Lemma outside_limit files b e f : f ∈ files -> upto e (limit f) = false -> (outside files b (Some (limit f)) < outside files b e)%nat.
Proof.
  intros Hf Hb. unfold outside. apply Nat.add_lt_mono_l. apply (count_lt _ _ _ f); [|done|by rewrite Hb|].
  - intros g. rewrite !negb_true_iff. intros Hg. destruct (upto e (limit g)) eqn:E; [|done]. rewrite <- Hg. destruct e as [x|]; [|done]. cbn in *.
    apply Z.leb_le in E. apply Z.leb_gt in Hb. symmetry. apply Z.leb_le. pose proof (ord_anti (ok := fun _ => True) (ord := ucmp) x (limit f) Logic.I Logic.I).
    eapply user_trans; [exact E|]. lia.
  - cbn. by rewrite user_refl.
Qed.

(** What the search of a level returns: the files of a range that contains the one asked
    for; in level 0 no file straddles it, and no smaller range is such. *)
Record overlapping (level0 : bool) (files : list FileMetaData) (b e b' e' : option bytes) (inputs : list FileMetaData) : Prop := {
  ov_files : inputs = List.filter (overlaps b' e') files;
  ov_wider : wider b e b' e';
  ov_closed : level0 = true -> closed files b' e';
  ov_least : forall B E, wider b e B E -> (level0 = true -> closed files B E) -> wider b' e' B E;
}.

(** A restart with a larger range that lies in every closed one. *)
Lemma overlapping_grow level0 files b e b1 e1 b' e' inputs : wider b e b1 e1 ->
  (forall B E, wider b e B E -> (level0 = true -> closed files B E) -> wider b1 e1 B E) ->
  overlapping level0 files b1 e1 b' e' inputs -> overlapping level0 files b e b' e' inputs.
Proof.
  intros Hw Hleast [H1 H2 H3 H4]. split; [done| |done|].
  - destruct Hw, H2. split; auto.
  - intros B E HB Hc. apply H4; [|done]. by apply Hleast.
Qed.

Lemma grow_start files b e f : file_ok f -> f ∈ files -> overlaps b e f = true -> from b (start f) = false -> wider b e (Some (start f)) e /\
  (forall B E, wider b e B E -> closed files B E -> wider (Some (start f)) e B E).
Proof.
  intros Hfo Hf Ho Hs. split.
  - split; [|done]. intros u. unfold from in *. destruct b as [x|]; [|done]. pose proof (ord_anti (ok := fun _ => True) (ord := ucmp) x (start f) Logic.I Logic.I).
    rewrite !Z.leb_le. intros Hu. eapply user_trans; [|exact Hu]. lia.
  - intros B E [HB HE] Hc. split; [|done]. intros u Hu. assert (within B E f = true) as [Hw _]%andb_true_iff by (apply Hc; [done|by apply (wider_overlaps b e)]).
    eapply from_mono; [|exact Hw]. by apply Z.leb_le.
Qed.

Lemma grow_limit files b e f : file_ok f -> f ∈ files -> overlaps b e f = true -> upto e (limit f) = false -> wider b e b (Some (limit f)) /\
  (forall B E, wider b e B E -> closed files B E -> wider b (Some (limit f)) B E).
Proof.
  intros Hfo Hf Ho Hs. split.
  - split; [done|]. intros u. unfold upto in *. destruct e as [x|]; [|done]. pose proof (ord_anti (ok := fun _ => True) (ord := ucmp) x (limit f) Logic.I Logic.I).
    rewrite !Z.leb_le. intros Hu. eapply user_trans; [exact Hu|]. lia.
  - intros B E [HB HE] Hc. split; [done|]. intros u Hu. assert (within B E f = true) as [_ Hw]%andb_true_iff by (apply Hc; [done|by apply (wider_overlaps b e)]).
    eapply upto_mono; [|exact Hw]. by apply Z.leb_le.
Qed.

Lemma overlap_loop_spec level0 files fuel done_ rest b e : Forall file_ok files -> files = done_ ++ rest ->
  (level0 = true -> Forall (fun f => overlaps b e f = true -> within b e f = true) done_) ->
  (outside files b e * S (length files) + length rest < fuel)%nat ->
  exists inputs b' e', overlap_loop c fuel level0 files rest b e (List.filter (overlaps b e) done_) = Ret inputs /\ overlapping level0 files b e b' e' inputs.
Proof.
  intros Hok. revert done_ rest b e. induction fuel as [|fuel IH]; intros done_ rest b e Hsplit Hcl Hf; [lia|]. cbn [overlap_loop]. destruct rest as [|f rest].
  - eexists _, b, e. split; [done|]. rewrite app_nil_r in Hsplit. subst. split; [done|done| |done]. intros H0 f Hf' Ho. specialize (Hcl H0). rewrite Forall_forall in Hcl. by apply Hcl.
  - assert (f ∈ files) as Hin by (rewrite Hsplit; set_solver). pose proof (proj1 (Forall_forall _ _) Hok f Hin) as Hfo. pose proof Hfo as [H1 H2 _].
    rewrite !user_key_good by done. run. fold (start f) (limit f).
    assert (match b with Some b => ucmp (limit f) b <? 0 | None => false end = negb (from b (limit f))) as -> by (destruct b; [apply flip_lt|done]).
    assert (match e with Some e => 0 <? ucmp (start f) e | None => false end = negb (upto e (start f))) as -> by (destruct e; [apply flip_gt|done]).
    assert (match b with Some b => ucmp (start f) b <? 0 | None => false end = negb (from b (start f))) as -> by (destruct b; [apply flip_lt|done]).
    assert (match e with Some e => 0 <? ucmp (limit f) e | None => false end = negb (upto e (limit f))) as -> by (destruct e; [apply flip_gt|done]).
    assert (forall ins, ins = List.filter (overlaps b e) (done_ ++ [f]) -> (level0 = true -> overlaps b e f = true -> within b e f = true) ->
      exists inputs b' e', overlap_loop c fuel level0 files rest b e ins = Ret inputs /\ overlapping level0 files b e b' e' inputs) as Hnext.
    { intros ins -> Hw. apply IH; [by rewrite <- app_assoc| |cbn in Hf; lia]. intros H0. apply Forall_app_2; [by apply Hcl|by apply Forall_singleton, Hw]. }
    rewrite List.filter_app in Hnext. cbn [List.filter] in Hnext.
    destruct (from b (limit f)) eqn:Eb; cbn [negb]; [|apply Hnext; [|unfold overlaps]; rewrite ?Eb; [unfold overlaps at 3; by rewrite Eb, app_nil_r|done]].
    destruct (upto e (start f)) eqn:Ee; cbn [negb]; [|apply Hnext; [unfold overlaps at 3|unfold overlaps]; rewrite Eb, Ee; [by rewrite app_nil_r|done]].
    assert (overlaps b e f = true) as Ho by (unfold overlaps; by rewrite Eb, Ee). rewrite Ho in Hnext.
    destruct level0; cbn [negb]; [|by apply Hnext]. destruct (from b (start f)) eqn:Es; cbn [negb].
    + destruct (upto e (limit f)) eqn:El; cbn [negb]; [apply Hnext; [done|]; intros _ _; unfold within; by rewrite Es, El|].
      destruct (grow_limit files b e f Hfo Hin Ho El) as [Hw Hl].
      destruct (IH [] files b (Some (limit f))) as (inputs & b' & e' & E & Hov); [done|constructor|pose proof (outside_limit files b e f Hin El); cbn in Hf; nia|].
      exists inputs, b', e'. split; [exact E|]. apply (overlapping_grow true _ _ _ _ _ _ _ _ Hw); [|done]. intros B L HB Hc. by apply Hl, Hc.
    + destruct (grow_start files b e f Hfo Hin Ho Es) as [Hw Hl].
      destruct (IH [] files (Some (start f)) e) as (inputs & b' & e' & E & Hov); [done|constructor|pose proof (outside_start files b e f Hin Es); cbn in Hf; nia|].
      exists inputs, b', e'. split; [exact E|]. apply (overlapping_grow true _ _ _ _ _ _ _ _ Hw); [|done]. intros B L HB Hc. by apply Hl, Hc.
Qed.

Lemma level_files_spec files level l : 0 <= level -> files !! Z.to_nat level = Some l -> level_files files level = Ret l.
Proof. intros Hl E. unfold level_files. rewrite (proj2 (Z.ltb_ge _ _)), E by lia. done. Qed.

(** The bounds of a search are internal keys or null. *)
Definition bound_ok (k : option bytes) : Prop := match k with Some k => valid_key k | None => True end.

Lemma user_key_of_spec k : bound_ok k -> user_key_of k = Ret (ukey <$> k).
Proof. intros Hk. destruct k as [k|]; [|done]. cbn in Hk. cbn. by rewrite user_key_good. Qed.

Lemma overlapping_inputs files level l b e : level_ok level -> files !! Z.to_nat level = Some l -> Forall file_ok l -> bound_ok b -> bound_ok e ->
  exists inputs b' e', GetOverlappingInputs c files level b e = Ret inputs /\ overlapping (level =? 0) l (ukey <$> b) (ukey <$> e) b' e' inputs.
Proof.
  intros Hlv Hl Hok Hb He. unfold GetOverlappingInputs, level_ok in *. rewrite (proj2 (Z.leb_le _ _)), (proj2 (Z.ltb_lt _ _)) by lia. rewrite !user_key_of_spec by done. run.
  rewrite (level_files_spec _ _ l) by (done || lia). run.
  destruct (overlap_loop_spec (level =? 0) l (S (2 * length l) * S (length l)) [] l (ukey <$> b) (ukey <$> e) Hok) as (inputs & b' & e' & E & Hov); [done|constructor| |by eexists _, _, _].
  assert (outside l (ukey <$> b) (ukey <$> e) <= 2 * length l)%nat; [|nia]. unfold outside. rewrite Nat.mul_succ_l, Nat.mul_1_l. apply Nat.add_le_mono; apply List.filter_length_le.
Qed.

(** In the other levels the range does not grow. *)
Lemma overlapping_exact files b e b' e' inputs : overlapping false files b e b' e' inputs -> inputs = List.filter (overlaps b e) files.
Proof.
  intros [-> [H1 H2] _ Hl]. destruct (Hl b e) as [H3 H4]; [by split|done|]. apply List.filter_ext. intros f. unfold overlaps. f_equal; apply eq_true_iff_eq; split; auto.
Qed.

(** The shape of a version: seven levels of files with keys in order, and in every level
    but the first, files one after the other. *)
Record version_ok (files : list (list FileMetaData)) : Prop := {
  vo_levels : Z.of_nat (length files) = kNumLevels;
  vo_files : Forall (Forall file_ok) files;
  vo_sorted : forall level l, files !! S level = Some l -> level_sorted l;
}.

Lemma version_level files level : version_ok files -> level_ok level -> exists l, files !! Z.to_nat level = Some l /\ Forall file_ok l /\ (level <> 0 -> level_sorted l).
Proof.
  intros [Hn Hf Hs] Hl. unfold level_ok in Hl. destruct (lookup_lt_is_Some_2 files (Z.to_nat level)) as [l E]; [lia|]. exists l. split_and!; [done|by eapply Forall_lookup_1|].
  intros H0. apply (Hs (pred (Z.to_nat level))). by replace (S (pred (Z.to_nat level))) with (Z.to_nat level) by lia.
Qed.

Lemma overlap_in_level files level b e l : version_ok files -> level_ok level -> files !! Z.to_nat level = Some l -> OverlapInLevel c files level b e = Ret (existsb (overlaps b e) l).
Proof.
  intros Hv Hlv Hl. destruct (version_level files level Hv Hlv) as (l' & Hl' & Hok & Hs). rewrite Hl in Hl'. injection Hl' as <-. unfold OverlapInLevel, level_ok in *.
  rewrite (level_files_spec _ _ l) by (done || lia). run. destruct (Z.ltb_spec 0 level); [apply overlap_sorted, Hs; lia|]. cbn. by apply any_overlap_spec.
Qed.

(** No file of the levels up to [level] has keys in the range. *)
Definition clear_to (files : list (list FileMetaData)) (b e : bytes) (level : Z) : Prop :=
  forall lv l f, 0 <= lv <= level -> files !! Z.to_nat lv = Some l -> f ∈ l -> overlaps (Some b) (Some e) f = false.

Lemma existsb_none {A} (p : A -> bool) (l : list A) x : existsb p l = false -> x ∈ l -> p x = false.
Proof.
  intros H Hx. destruct (p x) eqn:E; [|done]. rewrite <- H. symmetry. apply existsb_exists. exists x. split; [by apply list_elem_of_In|done].
Qed.

Lemma pick_level_spec files b e st lm fuel level : version_ok files -> valid_key st -> valid_key lm -> 0 <= level <= kMaxMemCompactLevel -> kMaxMemCompactLevel - level <= Z.of_nat fuel ->
  clear_to files b e level -> exists lv, pick_level c fuel files b e st lm level = Ret lv /\ 0 <= lv <= kMaxMemCompactLevel /\ clear_to files b e lv.
Proof.
  intros Hv Hst Hlm. assert (kMaxMemCompactLevel = 2) as Hmax by done. assert (kNumLevels = 7) as Hnum by done. revert level. induction fuel as [|fuel IH]; intros level Hl Hf Hc.
  - cbn [pick_level]. rewrite (proj2 (Z.ltb_ge _ _)) by lia. eauto.
  - cbn [pick_level]. destruct (Z.ltb_spec level kMaxMemCompactLevel); [|eauto]. destruct (version_level files (level + 1) Hv) as (l & El & _); [unfold level_ok; lia|].
    rewrite (overlap_in_level _ _ _ _ l) by (done || (unfold level_ok; lia)). run. destruct (existsb _ l) eqn:Ex; [eauto|]. rewrite (proj2 (Z.ltb_lt _ _)) by lia.
    destruct (version_level files (level + 2) Hv) as (l2 & El2 & Hok2 & _); [unfold level_ok; lia|].
    destruct (overlapping_inputs files (level + 2) l2 (Some st) (Some lm)) as (inputs & b' & e' & -> & _); [unfold level_ok; lia|done..|]. run.
    destruct (_ <? _); [eauto|]. apply IH; [lia|lia|]. intros lv l' f Hlv El' Hin. destruct (decide (lv = level + 1)) as [->|]; [|apply (Hc lv l'); [lia|done..]].
    rewrite El in El'. injection El' as <-. by apply (existsb_none _ l).
Qed.
End Ranges.

(** ** Theorems *)

(** GetOverlappingInputs ends and returns the files that a compaction of the range has
    to read.  In the levels whose files are disjoint these are the files with keys in the
    range.  In level 0, where files overlap each other, they are the files of the
    smallest range that contains the one asked for and that no file straddles, however
    often the search restarts. *)
Theorem get_overlapping_inputs c `{!ComparatorLaws c} files level l b e :
  level_ok level -> files !! Z.to_nat level = Some l -> Forall (file_ok c) l -> bound_ok b -> bound_ok e ->
  exists inputs b' e', GetOverlappingInputs c files level b e = Ret inputs /\ inputs = List.filter (overlaps c b' e') l /\ wider c (ukey <$> b) (ukey <$> e) b' e' /\
    (level <> 0 -> b' = ukey <$> b /\ e' = ukey <$> e) /\
    (level = 0 -> closed c l b' e' /\ forall B E, wider c (ukey <$> b) (ukey <$> e) B E -> closed c l B E -> wider c b' e' B E).
Proof.
  intros Hlv Hl Hok Hb He. destruct (overlapping_inputs c files level l b e Hlv Hl Hok Hb He) as (inputs & b' & e' & E & Hov). destruct (Z.eqb_spec level 0) as [H0|H0].
  - destruct Hov as [H1 H2 H3 H4]. exists inputs, b', e'. split_and!; [done|done|done|done|]. intros _. split; [by apply H3|]. intros B L HB Hc. by apply H4.
  - exists inputs, (ukey <$> b), (ukey <$> e). split_and!; [done|by apply (overlapping_exact c _ _ _ b' e')|by split|done|done].
Qed.

(** A flushed memtable is put no deeper than is safe.  PickLevelForMemTableOutput
    answers for every version; when it picks a level below 0, no file of that level or of
    the levels above it has keys in the range of the memtable, so the new file hides
    nothing newer and keeps the files of its level apart. *)
Theorem pick_level_safe c `{!ComparatorLaws c} files b e : version_ok c files ->
  exists level, PickLevelForMemTableOutput c files b e = Ret level /\ 0 <= level <= kMaxMemCompactLevel /\ (0 < level -> clear_to c files b e level).
Proof.
  intros Hv. destruct (version_level c files 0 Hv) as (l & El & _); [by vm_compute|]. unfold PickLevelForMemTableOutput. rewrite (overlap_in_level c _ _ _ _ l) by (done || by vm_compute). run.
  destruct (existsb _ l) eqn:Ex; [exists 0; split_and!; [done|lia|by vm_compute|lia]|]. unfold InternalKey_new.
  assert (valid_tag 0 0) as Hz by (split; [by vm_compute|by left]). rewrite !append_internal_key by (done || apply seek_tag_valid). run. cbn [app].
  destruct (pick_level_spec c files b e (ikey b kMaxSequenceNumber kValueTypeForSeek) (ikey e 0 0) 2 0 Hv) as (lv & -> & Hlv & Hc); [by eexists _, _, _; split; [|apply seek_tag_valid]|by eexists _, _, _|by vm_compute|by vm_compute| |].
  - intros lv l' f Hlv El' Hin. assert (lv = 0) as -> by lia. rewrite El in El'. injection El' as <-. by apply (existsb_none _ l).
  - exists lv. split_and!; [done|lia|lia|done].
Qed.

(** ** Examples *)

Definition sample_file (n : Z) (s e : string) : FileMetaData := MkFile n 1000 (ikey (str s) 9 kTypeValue) (ikey (str e) 3 kTypeValue).

(** Level 0 has a chain of three overlapping files and one apart. *)
Definition sample_level0 : list FileMetaData := [sample_file 4 "c" "f"; sample_file 5 "x" "z"; sample_file 6 "e" "k"; sample_file 7 "a" "c"].

Lemma get_overlapping_inputs_witness : exists inputs b' e',
  GetOverlappingInputs BytewiseComparator [sample_level0; []; []; []; []; []; []] 0 (Some (ikey (str "d") 5 kTypeValue)) (Some (ikey (str "d") 1 kTypeValue)) = Ret inputs /\
  inputs = List.filter (overlaps BytewiseComparator b' e') sample_level0 /\ inputs = [sample_file 4 "c" "f"; sample_file 6 "e" "k"; sample_file 7 "a" "c"].
Proof.
  destruct (get_overlapping_inputs BytewiseComparator [sample_level0; []; []; []; []; []; []] 0 sample_level0 (Some (ikey (str "d") 5 kTypeValue)) (Some (ikey (str "d") 1 kTypeValue)))
    as (inputs & b' & e' & E & Ef & _).
  - by vm_compute.
  - done.
  - unfold sample_level0. repeat (apply Forall_cons; split; [split; [by apply ikey_valid, value_tag; vm_compute..|by vm_compute]|]). by apply Forall_nil.
  - by apply ikey_valid, value_tag; vm_compute.
  - by apply ikey_valid, value_tag; vm_compute.
  - exists inputs, b', e'. split; [exact E|]. split; [exact Ef|]. vm_compute in E. by injection E as <-.
Defined.

Lemma pick_level_safe_witness : exists level, PickLevelForMemTableOutput BytewiseComparator [sample_level0; []; [sample_file 2 "l" "m"]; []; []; []; []] (str "l") (str "m") = Ret level /\
  level = 1 /\ clear_to BytewiseComparator [sample_level0; []; [sample_file 2 "l" "m"]; []; []; []; []] (str "l") (str "m") level.
Proof.
  destruct (pick_level_safe BytewiseComparator [sample_level0; []; [sample_file 2 "l" "m"]; []; []; []; []] (str "l") (str "m")) as (level & E & _ & Hc).
  - split; [by vm_compute| |].
    + unfold sample_level0. repeat (apply Forall_cons; split; [repeat (apply Forall_cons; split; [split; [by apply ikey_valid, value_tag; vm_compute..|by vm_compute]|]); by apply Forall_nil|]). by apply Forall_nil.
    + intros i l Hl. do 6 (destruct i as [|i]; [injection Hl as <-; split; [|split]; repeat constructor; try (by apply ikey_valid, value_tag; vm_compute); by vm_compute|]). by destruct i.
  - exists level. assert (level = 1) as -> by (vm_compute in E; by injection E as <-). split; [exact E|]. split; [done|]. apply Hc. lia.
Defined.
