(* ===== verification/VersionBuilder.v ===== *)
(** * Applying version edits (util/leveldb/db/version_set.cc, [VersionSet::Builder])

    A builder collects the files that edits add to and delete from a version, and then
    makes the new version from the old one in one pass over each level. *)

From S2P Require Import Prelude Slice Order DbFormat InternalOrder FileNames StdSet VersionEdit Version.
From stdpp Require Import strings.
#[local] Open Scope Z_scope.

Module Builder.
Section Ops.
Context (c : Comparator).

Definition BySmallestKey (f1 f2 : FileMetaData) : outcome bool :=
  r ← InternalKey_Compare c (smallest f1) (smallest f2);
  if negb (r =? 0) then Ret (r <? 0) else Ret (number f1 <? number f2).

Record LevelState := MkLevel { deleted_files : gset Z; added_files : list FileMetaData }.

(** [compact_pointer_] is that of [vset_]. *)
Record Builder := MkBuilder { base_ : list (list FileMetaData); levels_ : list LevelState; compact_pointer_ : list bytes }.

Definition new (base : list (list FileMetaData)) (compact_pointer : list bytes) : Builder :=
  MkBuilder base (replicate (Z.to_nat kNumLevels) (MkLevel ∅ [])) compact_pointer.

(** An access to an array of [kNumLevels] elements. *)
Definition slot {A} (level : Z) (l : list A) : outcome A :=
  if level <? 0 then Undef else match l !! Z.to_nat level with Some a => Ret a | None => Undef end.

Definition set_pointer (p : Z * bytes) (b : Builder) : outcome Builder :=
  k ← InternalKey_Encode p.2;
  _ ← slot p.1 (compact_pointer_ b);
  Ret (MkBuilder (base_ b) (levels_ b) (<[Z.to_nat p.1 := k]> (compact_pointer_ b))).

Definition delete_file (d : Z * Z) (b : Builder) : outcome Builder :=
  s ← slot d.1 (levels_ b);
  Ret (MkBuilder (base_ b) (<[Z.to_nat d.1 := MkLevel ({[ d.2 ]} ∪ deleted_files s) (added_files s)]> (levels_ b)) (compact_pointer_ b)).

Definition add_file (n : Z * FileMetaData) (b : Builder) : outcome Builder :=
  s ← slot n.1 (levels_ b);
  added ← set_insertM BySmallestKey n.2 (added_files s);
  Ret (MkBuilder (base_ b) (<[Z.to_nat n.1 := MkLevel (deleted_files s ∖ {[ number n.2 ]}) added]> (levels_ b)) (compact_pointer_ b)).

Definition Apply (edit : VE.VersionEdit) (b : Builder) : outcome Builder :=
  b ← foldM set_pointer (VE.compact_pointers_ edit) b;
  b ← foldM delete_file (VE.deleted_files_ edit) b;
  foldM add_file (VE.new_files_ edit) b.

Definition MaybeAddFile (level : Z) (s : LevelState) (f : FileMetaData) (files : list FileMetaData) : outcome (list FileMetaData) :=
  if bool_decide (number f ∈ deleted_files s) then Ret files
  else
    apart ← match last files with
            | Some g => if 0 <? level then r ← InternalKey_Compare c (largest g) (smallest f); Ret (r <? 0) else Ret true
            | None => Ret true
            end;
    assert! (apart : bool); Ret (files ++ [f]).

(** [std::upper_bound] in a sorted range: the elements that [x] is not less than, and
    the others. *)
Fixpoint upper_bound (x : FileMetaData) (l : list FileMetaData) : outcome (list FileMetaData * list FileMetaData) :=
  match l with
  | [] => Ret ([], [])
  | y :: l' => b ← BySmallestKey x y; if (b : bool) then Ret ([], l) else '(l1, l2) ← upper_bound x l'; Ret (y :: l1, l2)
  end.

(** The merge of one level. *)
Fixpoint save_level (level : Z) (s : LevelState) (base added files : list FileMetaData) : outcome (list FileMetaData) :=
  match added with
  | [] => foldM (MaybeAddFile level s) base files
  | a :: added' =>
      '(smaller, base) ← upper_bound a base;
      files ← foldM (MaybeAddFile level s) smaller files;
      files ← MaybeAddFile level s a files;
      save_level level s base added' files
  end.

(** The check of builds with assertions. *)
Fixpoint check_level (files : list FileMetaData) : outcome unit :=
  match files with
  | f :: (g :: _) as rest => r ← InternalKey_Compare c (largest f) (smallest g); if 0 <=? r then Exit 134 else check_level rest
  | _ => Ret tt
  end.

Fixpoint save_levels (level : Z) (base : list (list FileMetaData)) (levels : list LevelState) : outcome (list (list FileMetaData)) :=
  match base, levels with
  | b :: base', s :: levels' =>
      files ← save_level level s b (added_files s) [];
      _ ← (if 0 <? level then check_level files else Ret tt);
      rest ← save_levels (level + 1) base' levels';
      Ret (files :: rest)
  | _, _ => Ret []
  end.

Definition SaveTo (b : Builder) : outcome (list (list FileMetaData)) := save_levels 0 (base_ b) (levels_ b).
End Ops.
End Builder.

(** ** What the edits say *)

(** The files that an edit adds to a level, and whether it deletes one there. *)
Definition adds (e : VE.VersionEdit) (level : nat) : list FileMetaData := (filter (fun x => x.1 = Z.of_nat level) (VE.new_files_ e)).*2.
Definition dels (e : VE.VersionEdit) (level : nat) : gset Z := list_to_set (filter (fun x => x.1 = Z.of_nat level) (VE.deleted_files_ e)).*2.

Definition edit_level (e : VE.VersionEdit) (level : nat) (l : list FileMetaData) : list FileMetaData :=
  filter (fun f => number f ∉ dels e level) l ++ adds e level.

Section Spec.
Context (c : Comparator) `{!ComparatorLaws c}.
Abbreviation iord := (internal_ord c).
Abbreviation file_ok := (file_ok c).

(** The order of files in a version. *)
Definition by_smallest (f g : FileMetaData) : bool := let r := iord (smallest f) (smallest g) in if negb (r =? 0) then r <? 0 else number f <? number g.

Lemma smallest_good f : file_ok f -> internal_good (smallest f).
Proof. intros [H _ _]. by apply valid_key_good. Qed.

Lemma largest_good f : file_ok f -> internal_good (largest f).
Proof. intros [_ H _]. by apply valid_key_good. Qed.

#[local] Hint Resolve smallest_good largest_good : core.

Lemma compare_keys a b : internal_good a -> internal_good b -> InternalKey_Compare c a b = Ret (iord a b).
Proof. intros Ha Hb. unfold InternalKey_Compare. rewrite !encode_good by done. run. by apply compare_good. Qed.

Lemma by_smallest_ok f g : file_ok f -> file_ok g -> Builder.BySmallestKey c f g = Ret (by_smallest f g).
Proof. intros Hf Hg. unfold Builder.BySmallestKey, by_smallest. rewrite compare_keys by auto. run. by destruct (negb _). Qed.

Lemma by_smallest_true f g : by_smallest f g = true <-> iord (smallest f) (smallest g) < 0 \/ iord (smallest f) (smallest g) = 0 /\ number f < number g.
Proof. unfold by_smallest. cbv zeta. destruct (Z.eqb_spec (iord (smallest f) (smallest g)) 0); cbn; lia. Qed.

#[local] Instance by_smallest_order : SetOrder by_smallest file_ok.
Proof.
  split.
  - intros f Hf. apply not_true_iff_false. rewrite by_smallest_true, key_refl by auto. lia.
  - intros f g h Hf Hg Hh. rewrite !by_smallest_true. pose proof (smallest_good f Hf) as Gf. pose proof (smallest_good g Hg) as Gg. pose proof (smallest_good h Hh) as Gh.
    pose proof (ord_anti (ord := iord) _ _ Gf Gg). pose proof (ord_anti (ord := iord) _ _ Gg Gh). pose proof (ord_anti (ord := iord) _ _ Gf Gh). intros Hfg Hgh.
    assert (iord (smallest f) (smallest g) <= 0 /\ iord (smallest g) (smallest h) <= 0) as [H3 H4] by lia. pose proof (ord_le_trans (ord := iord) _ _ _ Gf Gg Gh H3 H4) as H5.
    destruct (Z.eq_dec (iord (smallest f) (smallest h)) 0) as [E|]; [|lia].
    pose proof (ord_le_trans (ord := iord) _ _ _ Gg Gh Gf H4 ltac:(lia)) as H6. pose proof (ord_le_trans (ord := iord) _ _ _ Gh Gf Gg ltac:(lia) H3) as H7. lia.
Qed.

(** Files with different numbers are in order one way or the other. *)
Lemma by_smallest_total f g : file_ok f -> file_ok g -> number f <> number g -> by_smallest f g = true \/ by_smallest g f = true.
Proof.
  intros Hf Hg Hn. rewrite !by_smallest_true. pose proof (ord_anti (ord := iord) (smallest f) (smallest g) (smallest_good f Hf) (smallest_good g Hg)). lia.
Qed.

(** *** The state of one level *)

(** [A] are the files added so far, [l] those that the edits leave. *)
Record level_rep (base : list FileMetaData) (s : Builder.LevelState) (A l : list FileMetaData) : Prop := {
  lr_sorted : set_sorted by_smallest (Builder.added_files s);
  lr_added : Builder.added_files s ≡ₚ A;
  lr_left : filter (fun f => number f ∉ Builder.deleted_files s) (base ++ A) ≡ₚ l;
}.

Lemma level_delete base s A l n : level_rep base s A l ->
  level_rep base (Builder.MkLevel ({[ n ]} ∪ Builder.deleted_files s) (Builder.added_files s)) A (filter (fun f => number f <> n) l).
Proof.
  intros [H1 H2 H3]. split; [done|done|]. cbn. rewrite <- H3, list_filter_filter. erewrite (list_filter_iff _ _); [done|]. intros f. cbn. set_solver.
Qed.

Lemma level_add base s A l f : file_ok f -> Forall file_ok A -> NoDup (number <$> base ++ A ++ [f]) -> level_rep base s A l ->
  Builder.added_files s ≡ₚ A -> set_insertM (Builder.BySmallestKey c) f (Builder.added_files s) = Ret (set_insert by_smallest f (Builder.added_files s)) /\
  level_rep base (Builder.MkLevel (Builder.deleted_files s ∖ {[ number f ]}) (set_insert by_smallest f (Builder.added_files s))) (A ++ [f]) (l ++ [f]).
Proof.
  intros Hf HA Hn [H1 H2 H3] _. assert (Forall file_ok (Builder.added_files s)) as HA' by (by rewrite H2).
  assert (forall g, g ∈ base ++ A -> number g <> number f) as Hfresh.
  { intros g Hg E. rewrite app_assoc, fmap_app in Hn. apply NoDup_app in Hn as (_ & Hn & _). apply (Hn (number g)); [by apply list_elem_of_fmap_2|]. rewrite E. by apply list_elem_of_singleton. }
  split; [by apply (set_insertM_spec _ _ file_ok); [apply by_smallest_ok|..]|]. split; cbn.
  - by apply (set_insert_sorted by_smallest (P := file_ok)).
  - rewrite set_insert_perm, H2; [by rewrite Permutation_app_comm|]. intros g Hg. rewrite H2 in Hg. apply by_smallest_total; [done|by apply (proj1 (Forall_forall _ _) HA)|].
    symmetry. apply Hfresh, elem_of_app. by right.
  - rewrite app_assoc, filter_app, <- H3. rewrite (filter_iff_in (fun g => number g ∉ Builder.deleted_files s ∖ {[number f]}) (fun g => number g ∉ Builder.deleted_files s) (base ++ A)).
    + rewrite filter_cons_True by (cbn; set_solver). done.
    + intros g Hg. specialize (Hfresh g Hg). set_solver.
Qed.

(** *** All levels *)

Definition builder_rep (base : list (list FileMetaData)) (A L : nat -> list FileMetaData) (b : Builder.Builder) : Prop :=
  Builder.base_ b = base /\ length (Builder.levels_ b) = length base /\
  forall i l s, base !! i = Some l -> Builder.levels_ b !! i = Some s -> level_rep l s (A i) (L i).

Lemma slot_spec {X} level (l : list X) x : 0 <= level -> l !! Z.to_nat level = Some x -> Builder.slot level l = Ret x.
Proof. intros Hl E. unfold Builder.slot. rewrite (proj2 (Z.ltb_ge _ _)), E by lia. done. Qed.

Lemma deletes_rep base A ds : forall L b, Z.of_nat (length base) = kNumLevels -> Forall (fun d => level_ok d.1) ds -> builder_rep base A L b ->
  exists b', foldM Builder.delete_file ds b = Ret b' /\ Builder.compact_pointer_ b' = Builder.compact_pointer_ b /\
    builder_rep base A (fun i => filter (fun f => number f ∉ (list_to_set (filter (fun x => x.1 = Z.of_nat i) ds).*2 : gset Z)) (L i)) b'.
Proof.
  induction ds as [|[lv n] ds IH]; intros L b Hn Hds Hb.
  - exists b. split_and!; [done..|]. destruct Hb as (H1 & H2 & H3). split_and!; [done..|]. intros i l s Hl Hs. cbn. rewrite filter_all by set_solver. by apply (H3 i).
  - apply Forall_cons in Hds as [Hlv Hds]. cbn [foldM]. destruct Hb as (H1 & H2 & H3). unfold level_ok in Hlv. cbn in Hlv.
    destruct (lookup_lt_is_Some_2 (Builder.levels_ b) (Z.to_nat lv)) as [s Hs]; [lia|].
    assert (Builder.delete_file (lv, n) b = Ret (Builder.MkBuilder (Builder.base_ b)
      (<[Z.to_nat lv := Builder.MkLevel ({[n]} ∪ Builder.deleted_files s) (Builder.added_files s)]> (Builder.levels_ b)) (Builder.compact_pointer_ b))) as ->.
    { unfold Builder.delete_file. cbn [fst snd]. by rewrite (slot_spec _ _ s) by (done || lia). }
    run. destruct (IH (fun i => if decide (i = Z.to_nat lv) then filter (fun f => number f <> n) (L i) else L i)
      (Builder.MkBuilder (Builder.base_ b) (<[Z.to_nat lv := Builder.MkLevel ({[n]} ∪ Builder.deleted_files s) (Builder.added_files s)]> (Builder.levels_ b)) (Builder.compact_pointer_ b)))
      as (b' & E & Ep & (H4 & H5 & H6)); [done|done| |].
    { split_and!; cbn; [done|by rewrite length_insert|]. intros i l t Hl Ht. case_decide as Hi.
      - subst i. rewrite list_lookup_insert_eq in Ht by (apply lookup_lt_Some in Hs; lia). injection Ht as <-. by apply level_delete, (H3 _ l s).
      - rewrite list_lookup_insert_ne in Ht by done. by apply (H3 i). }
    exists b'. split; [done|]. split; [done|]. split_and!; [done|done|]. intros i l t Hl Ht. specialize (H6 i l t Hl Ht). cbv beta in H6. case_decide as Hi.
    + subst i. rewrite (filter_cons_True _ (lv, n)) by (cbn; lia). rewrite list_filter_filter in H6. cbn [fmap list_fmap snd].
      erewrite (list_filter_iff _ _); [exact H6|]. intros f. cbn. set_solver.
    + rewrite (filter_cons_False _ (lv, n)) by (cbn; lia). done.
Qed.

Lemma adds_rep base ns : forall A L b, Z.of_nat (length base) = kNumLevels -> Forall (fun n => level_ok n.1 /\ file_ok n.2) ns -> (forall i, Forall file_ok (A i)) ->
  (forall i l, base !! i = Some l -> NoDup (number <$> l ++ A i ++ (filter (fun x => x.1 = Z.of_nat i) ns).*2)) -> builder_rep base A L b ->
  exists b', foldM (Builder.add_file c) ns b = Ret b' /\ Builder.compact_pointer_ b' = Builder.compact_pointer_ b /\
    builder_rep base (fun i => A i ++ (filter (fun x => x.1 = Z.of_nat i) ns).*2) (fun i => L i ++ (filter (fun x => x.1 = Z.of_nat i) ns).*2) b'.
Proof.
  induction ns as [|[lv f] ns IH]; intros A L b Hn Hns HA Hd Hb.
  - exists b. split_and!; [done..|]. destruct Hb as (H1 & H2 & H3). split_and!; [done..|]. intros i l s Hl Hs. cbn. rewrite !app_nil_r. by apply (H3 i).
  - apply Forall_cons in Hns as [[Hlv Hf] Hns]. cbn [foldM]. destruct Hb as (H1 & H2 & H3). cbn [fst snd] in *. unfold level_ok in Hlv.
    destruct (lookup_lt_is_Some_2 (Builder.levels_ b) (Z.to_nat lv)) as [s Hs]; [lia|]. destruct (lookup_lt_is_Some_2 base (Z.to_nat lv)) as [l0 Hl0]; [lia|].
    pose proof (H3 _ l0 s Hl0 Hs) as Hr. assert (NoDup (number <$> l0 ++ A (Z.to_nat lv) ++ [f])) as Hd0.
    { specialize (Hd _ l0 Hl0). rewrite filter_cons_True in Hd by (cbn; lia). cbn [fmap list_fmap snd] in Hd.
      rewrite (cons_middle f), (app_assoc (A _)), (app_assoc l0), fmap_app in Hd. by apply NoDup_app in Hd as (Hd & _ & _). }
    destruct (level_add l0 s (A (Z.to_nat lv)) (L (Z.to_nat lv)) f Hf (HA _) Hd0 Hr (lr_added _ _ _ _ Hr)) as [Ei Hr'].
    assert (Builder.add_file c (lv, f) b = Ret (Builder.MkBuilder (Builder.base_ b)
      (<[Z.to_nat lv := Builder.MkLevel (Builder.deleted_files s ∖ {[number f]}) (set_insert by_smallest f (Builder.added_files s))]> (Builder.levels_ b)) (Builder.compact_pointer_ b))) as ->.
    { unfold Builder.add_file. cbn [fst snd]. rewrite (slot_spec _ _ s) by (done || lia). run. by rewrite Ei. }
    run. destruct (IH (fun i => if decide (i = Z.to_nat lv) then A i ++ [f] else A i) (fun i => if decide (i = Z.to_nat lv) then L i ++ [f] else L i)
      (Builder.MkBuilder (Builder.base_ b) (<[Z.to_nat lv := Builder.MkLevel (Builder.deleted_files s ∖ {[number f]}) (set_insert by_smallest f (Builder.added_files s))]> (Builder.levels_ b)) (Builder.compact_pointer_ b)))
      as (b' & E & Ep & (H4 & H5 & H6)); [done|done| | | |].
    + intros i. case_decide; [|done]. by apply Forall_app_2, Forall_singleton.
    + intros i l Hl. specialize (Hd i l Hl). case_decide as Hi.
      * subst i. rewrite filter_cons_True in Hd by (cbn; lia). by rewrite <- app_assoc.
      * rewrite filter_cons_False in Hd by (cbn; lia). done.
    + split_and!; cbn; [done|by rewrite length_insert|]. intros i l t Hl Ht. case_decide as Hi.
      * subst i. rewrite list_lookup_insert_eq in Ht by (apply lookup_lt_Some in Hs; lia). injection Ht as <-. rewrite Hl0 in Hl. by injection Hl as <-.
      * rewrite list_lookup_insert_ne in Ht by done. by apply (H3 i).
    + exists b'. split; [done|]. split; [done|]. split_and!; [done|done|]. intros i l t Hl Ht. specialize (H6 i l t Hl Ht). cbv beta in H6. case_decide as Hi.
      * subst i. rewrite (filter_cons_True _ (lv, f)) by (cbn; lia). cbn [fmap list_fmap snd]. by rewrite <- !app_assoc in H6.
      * rewrite (filter_cons_False _ (lv, f)) by (cbn; lia). done.
Qed.

(** An edit that names levels and files that exist. *)
Record edit_fine (e : VE.VersionEdit) : Prop := {
  ef_pointers : Forall (fun x => level_ok x.1 /\ x.2 <> []) (VE.compact_pointers_ e);
  ef_deleted : Forall (fun x => level_ok x.1) (VE.deleted_files_ e);
  ef_new : Forall (fun x => level_ok x.1 /\ file_ok x.2) (VE.new_files_ e);
}.

Definition edit_pointers (ps : list bytes) (e : VE.VersionEdit) : list bytes := foldl (fun ps x => <[Z.to_nat x.1 := x.2]> ps) ps (VE.compact_pointers_ e).

Lemma pointers_rep ps b : Forall (fun x => level_ok x.1 /\ x.2 <> []) ps -> Z.of_nat (length (Builder.compact_pointer_ b)) = kNumLevels ->
  foldM Builder.set_pointer ps b = Ret (Builder.MkBuilder (Builder.base_ b) (Builder.levels_ b) (foldl (fun ps x => <[Z.to_nat x.1 := x.2]> ps) (Builder.compact_pointer_ b) ps)).
Proof.
  intros Hps. revert b. induction Hps as [|[lv k] ps [Hlv Hk] _ IH]; intros b Hb; [by destruct b|]. cbn [foldM foldl fst snd] in *. unfold level_ok in Hlv.
  assert (Builder.set_pointer (lv, k) b = Ret (Builder.MkBuilder (Builder.base_ b) (Builder.levels_ b) (<[Z.to_nat lv := k]> (Builder.compact_pointer_ b)))) as ->.
  { unfold Builder.set_pointer. cbn [fst snd]. destruct k as [|x k]; [done|]. cbn [InternalKey_Encode]. run.
    destruct (lookup_lt_is_Some_2 (Builder.compact_pointer_ b) (Z.to_nat lv)) as [y Hy]; [lia|]. by rewrite (slot_spec _ _ y) by (done || lia). }
  run. rewrite IH; [done|]. cbn. by rewrite length_insert.
Qed.

Lemma apply_rep base A L b e : Z.of_nat (length base) = kNumLevels -> Z.of_nat (length (Builder.compact_pointer_ b)) = kNumLevels -> edit_fine e -> (forall i, Forall file_ok (A i)) ->
  (forall i l, base !! i = Some l -> NoDup (number <$> l ++ A i ++ adds e i)) -> builder_rep base A L b ->
  exists b', Builder.Apply c e b = Ret b' /\ Builder.compact_pointer_ b' = edit_pointers (Builder.compact_pointer_ b) e /\
    builder_rep base (fun i => A i ++ adds e i) (fun i => edit_level e i (L i)) b'.
Proof.
  intros Hn Hp [H1 H2 H3] HA Hd Hb. unfold Builder.Apply. rewrite pointers_rep by done. run.
  destruct (deletes_rep base A (VE.deleted_files_ e) L (Builder.MkBuilder (Builder.base_ b) (Builder.levels_ b) (edit_pointers (Builder.compact_pointer_ b) e)) Hn H2) as (b1 & E1 & Ep1 & Hb1); [done|].
  unfold edit_pointers in E1. rewrite E1. run. destruct (adds_rep base (VE.new_files_ e) A _ b1 Hn H3 HA Hd Hb1) as (b2 & -> & Ep2 & Hb2). exists b2. split_and!; [done| |done]. by rewrite Ep2, Ep1.
Qed.

(** All files that a sequence of edits adds to a level, and what it leaves there. *)
Definition all_adds (es : list VE.VersionEdit) (level : nat) : list FileMetaData := concat ((fun e => adds e level) <$> es).
Definition edits_level (es : list VE.VersionEdit) (level : nat) (l : list FileMetaData) : list FileMetaData := foldl (fun l e => edit_level e level l) l es.

Lemma adds_fine e i : edit_fine e -> Forall file_ok (adds e i).
Proof.
  intros [_ _ H]. unfold adds. apply Forall_fmap, Forall_forall. intros x [_ Hx]%list_elem_of_filter. rewrite Forall_forall in H. by apply H.
Qed.

Lemma apply_all base es : forall A L b, Z.of_nat (length base) = kNumLevels -> Z.of_nat (length (Builder.compact_pointer_ b)) = kNumLevels -> Forall edit_fine es -> (forall i, Forall file_ok (A i)) ->
  (forall i l, base !! i = Some l -> NoDup (number <$> l ++ A i ++ all_adds es i)) -> builder_rep base A L b ->
  exists b', foldM (Builder.Apply c) es b = Ret b' /\ Builder.compact_pointer_ b' = foldl edit_pointers (Builder.compact_pointer_ b) es /\
    builder_rep base (fun i => A i ++ all_adds es i) (fun i => edits_level es i (L i)) b'.
Proof.
  induction es as [|e es IH]; intros A L b Hn Hp Hes HA Hd Hb.
  - exists b. split; [done|]. split; [done|]. destruct Hb as (H1 & H2 & H3). split_and!; [done..|]. intros i l s Hl Hs. unfold all_adds. cbn. rewrite app_nil_r. by apply (H3 i).
  - apply Forall_cons in Hes as [He Hes]. cbn [foldM foldl]. destruct (apply_rep base A L b e Hn Hp He HA) as (b1 & -> & Ep & Hb1); [|done|].
    { intros i l Hl. specialize (Hd i l Hl). unfold all_adds in Hd. cbn [fmap list_fmap concat] in Hd. rewrite (app_assoc (A i)), (app_assoc l), fmap_app in Hd. by apply NoDup_app in Hd as (Hd & _ & _). }
    run. destruct (IH (fun i => A i ++ adds e i) (fun i => edit_level e i (L i)) b1 Hn) as (b2 & E & Ep2 & Hb2); [|done| | |exact Hb1|].
    + rewrite Ep. unfold edit_pointers. clear -Hp. revert Hp. generalize (Builder.compact_pointer_ b). induction (VE.compact_pointers_ e) as [|x ps IH]; intros q Hq; [done|]. cbn. apply IH. by rewrite length_insert.
    + intros i. apply Forall_app_2; [done|by apply adds_fine].
    + intros i l Hl. specialize (Hd i l Hl). unfold all_adds in *. cbn [fmap list_fmap concat] in Hd. by rewrite <- !app_assoc in *.
    + exists b2. split_and!; [done|by rewrite Ep2, Ep|]. destruct Hb2 as (H1 & H2 & H3). split_and!; [done|done|]. intros i l s Hl Hs. specialize (H3 i l s Hl Hs).
      unfold all_adds in *. cbn [fmap list_fmap concat]. by rewrite <- app_assoc in H3.
Qed.

Lemma version_builder_new base ps : Z.of_nat (length base) = kNumLevels -> builder_rep base (fun _ => []) (fun i => default [] (base !! i)) (Builder.new base ps).
Proof.
  intros Hn. split_and!; [done|cbn [Builder.new Builder.levels_]; rewrite length_replicate; lia|]. intros i l s Hl Hs. cbn [Builder.new Builder.levels_] in Hs. apply lookup_replicate in Hs as [-> _]. rewrite Hl. cbn.
  split; cbn; [constructor|done|]. rewrite app_nil_r. by rewrite filter_all by set_solver.
Qed.

(** *** Saving *)

Definition apart (f g : FileMetaData) : Prop := iord (largest f) (smallest g) < 0.

Section Save.
Context (level : Z) (s : Builder.LevelState).
Abbreviation kept := (filter (fun f => number f ∉ Builder.deleted_files s)).

Lemma maybe_add_one f files : Forall file_ok (files ++ [f]) -> (0 < level -> StronglySorted apart (files ++ kept [f])) ->
  Builder.MaybeAddFile c level s f files = Ret (files ++ kept [f]).
Proof.
  intros Hok Hs. unfold Builder.MaybeAddFile. destruct (decide (number f ∈ Builder.deleted_files s)) as [Hd|Hd].
  - rewrite bool_decide_eq_true_2 by done. rewrite filter_cons_False by naive_solver. by rewrite app_nil_r.
  - rewrite bool_decide_eq_false_2 by done. rewrite filter_cons_True in * by done. destruct (last files) as [g|] eqn:Eg; [|done].
    destruct (Z.ltb_spec 0 level) as [Hl|]; [|done]. apply last_Some in Eg as [files' ->]. rewrite Forall_forall in Hok.
    rewrite compare_keys by (apply largest_good || apply smallest_good; apply Hok; set_solver). run. specialize (Hs Hl). rewrite <- app_assoc in Hs.
    apply StronglySorted_app_1_r in Hs. cbn in Hs. apply StronglySorted_inv in Hs as [_ Hs]. apply Forall_cons in Hs as [Hs _]. unfold apart in Hs. by rewrite (proj2 (Z.ltb_lt _ _)) by done.
Qed.

Lemma kept_ok l : Forall file_ok l -> Forall file_ok (kept l).
Proof. rewrite !Forall_forall. intros H f [_ Hf]%list_elem_of_filter. by apply H. Qed.

Lemma maybe_add l files : Forall file_ok (files ++ l) -> (0 < level -> StronglySorted apart (files ++ kept l)) ->
  foldM (Builder.MaybeAddFile c level s) l files = Ret (files ++ kept l).
Proof.
  revert files. induction l as [|f l IH]; intros files Hok Hs; [by rewrite app_nil_r|]. cbn [foldM]. change (f :: l) with ([f] ++ l) in Hs |- *. rewrite filter_app, (app_assoc files) in Hs |- *.
  apply Forall_app in Hok as [H1 H2]. apply Forall_cons in H2 as [H2 H3]. rewrite maybe_add_one; [|by apply Forall_app_2, Forall_singleton|].
  - run. rewrite IH; [|apply Forall_app_2; [apply Forall_app_2; [done|by apply kept_ok, Forall_singleton]|done]|done]. done.
  - intros Hl. specialize (Hs Hl). by apply StronglySorted_app_1_l in Hs.
Qed.

Lemma upper_bound_spec a base : file_ok a -> Forall file_ok base -> set_sorted by_smallest base -> (forall b, b ∈ base -> number b <> number a) ->
  exists l1 l2, Builder.upper_bound c a base = Ret (l1, l2) /\ base = l1 ++ l2 /\ Forall (fun b => by_smallest b a = true) l1 /\ Forall (fun b => by_smallest a b = true) l2.
Proof.
  intros Ha Hok Hs Hn. induction Hs as [|b base Hs IH Hb]; [by exists [], []|]. apply Forall_cons in Hok as [Hbo Hok]. cbn. rewrite by_smallest_ok by done. run.
  destruct (by_smallest a b) eqn:E.
  - exists [], (b :: base). split_and!; [done|done|constructor|]. constructor; [done|]. rewrite Forall_forall in *. intros d Hd. apply (so_trans by_smallest a b d); auto.
  - destruct IH as (l1 & l2 & -> & -> & H1 & H2); [done|intros d Hd; apply Hn; by right|]. run. exists (b :: l1), l2. split_and!; [done|done| |done]. constructor; [|done].
    destruct (by_smallest_total a b Ha Hbo) as [?|?]; [intros E'; apply (Hn b); [by left|done]|congruence|done].
Qed.

(** The merged files. *)
Lemma save_level_spec added : forall base, Forall file_ok (base ++ added) -> set_sorted by_smallest base -> set_sorted by_smallest added -> NoDup (number <$> base ++ added) ->
  exists M, set_sorted by_smallest M /\ M ≡ₚ base ++ added /\
    forall files, Forall file_ok files -> (0 < level -> StronglySorted apart (files ++ kept M)) -> Builder.save_level c level s base added files = Ret (files ++ kept M).
Proof.
  induction added as [|a added IH]; intros base Hok Hb Ha Hn.
  - rewrite app_nil_r in *. exists base. split_and!; [done|done|]. intros files Hf Hs. cbn. apply maybe_add; [by apply Forall_app_2|done].
  - apply Forall_app in Hok as [Hob Hoa]. apply Forall_cons in Hoa as [Hoa Hoad]. apply StronglySorted_inv in Ha as [Ha Hlt].
    assert (forall b, b ∈ base -> number b <> number a) as Hne.
    { intros b Hin E. rewrite fmap_app in Hn. apply NoDup_app in Hn as (_ & Hn & _). apply (Hn (number b)); [by apply list_elem_of_fmap_2|]. rewrite E. cbn. by left. }
    destruct (upper_bound_spec a base Hoa Hob Hb Hne) as (l1 & l2 & E & -> & H1 & H2). apply Forall_app in Hob as [Ho1 Ho2].
    destruct (IH l2) as (M & HsM & HpM & HM); [by apply Forall_app_2|by apply StronglySorted_app_1_r in Hb|done| |].
    { rewrite <- app_assoc, fmap_app in Hn. apply NoDup_app in Hn as (_ & _ & Hn). rewrite fmap_app in Hn |- *. cbn in Hn. apply NoDup_app in Hn as (Hn1 & Hn2 & Hn3). apply NoDup_cons in Hn3 as [_ Hn3].
      apply NoDup_app. split_and!; [done| |done]. intros x Hx Hx2. apply (Hn2 x Hx). by right. }
    assert (Forall (fun x => by_smallest a x = true) M) as HaM.
    { rewrite HpM. by apply Forall_app_2. }
    assert (Forall file_ok M) as HoM by (rewrite HpM; by apply Forall_app_2).
    exists (l1 ++ a :: M). split_and!.
    + apply StronglySorted_app. split_and!; [|by apply StronglySorted_app_1_l in Hb|by constructor]. intros x y Hx Hy. rewrite Forall_forall in *. apply elem_of_cons in Hy as [->|Hy]; [by apply H1|].
      by apply (so_trans by_smallest x a y); [auto..|apply H1|apply HaM].
    + rewrite HpM. solve_Permutation.
    + intros files Hf Hs. cbn [Builder.save_level]. rewrite E. run. rewrite (cons_middle a l1 M), !filter_app, !app_assoc in Hs |- *.
      assert (0 < level -> StronglySorted apart ((files ++ kept l1) ++ kept [a])) as Hs1 by (intros Hl; specialize (Hs Hl); by apply StronglySorted_app_1_l in Hs).
      rewrite maybe_add; [|by apply Forall_app_2|intros Hl; specialize (Hs1 Hl); by apply StronglySorted_app_1_l in Hs1]. run.
      rewrite maybe_add_one; [|apply Forall_app_2; [apply Forall_app_2; [done|by apply kept_ok]|by apply Forall_singleton]|done]. run.
      apply HM; [|done]. repeat apply Forall_app_2; [done|by apply kept_ok|by apply kept_ok, Forall_singleton].
Qed.
End Save.

(** Files that are one before the other. *)
Definition pairwise_apart (l : list FileMetaData) : Prop := forall f g, f ∈ l -> g ∈ l -> number f <> number g -> apart f g \/ apart g f.

Lemma sorted_apart l : Forall file_ok l -> set_sorted by_smallest l -> NoDup (number <$> l) -> pairwise_apart l -> StronglySorted apart l.
Proof.
  intros Hok Hs. induction Hs as [|f l Hs IH Hf]; intros Hn Hp; [constructor|]. apply Forall_cons in Hok as [Hfo Hok]. cbn in Hn. apply NoDup_cons in Hn as [Hnf Hn].
  constructor; [apply IH; [done|done|]; intros g h Hg Hh; apply Hp; by right|]. rewrite Forall_forall in *. intros g Hg. destruct (Hok g Hg) as [_ _ Hgo].
  destruct (Hp f g) as [|Ha]; [by left|by right| |done|exfalso].
  - intros E. apply Hnf. rewrite E. by apply list_elem_of_fmap_2.
  - unfold apart in Ha. specialize (Hf g Hg). apply by_smallest_true in Hf.
    assert (iord (largest g) (smallest g) < 0) as H1 by (apply (lt_le_lt _ (smallest f)); [apply largest_good; auto|apply smallest_good; auto|apply smallest_good; auto|done|lia]).
    pose proof (ord_anti (ord := iord) (largest g) (smallest g) (largest_good g (Hok g Hg)) (smallest_good g (Hok g Hg))). lia.
Qed.

Lemma check_level_spec l : Forall file_ok l -> StronglySorted apart l -> Builder.check_level c l = Ret tt.
Proof.
  intros Hok Hs. induction Hs as [|f l Hs IH Hf]; [done|]. apply Forall_cons in Hok as [Hfo Hok]. cbn [Builder.check_level]. destruct l as [|g l]; [done|].
  apply Forall_cons in Hf as [Hf _]. rewrite compare_keys by (apply Forall_cons in Hok as [? _]; auto). run. unfold apart in Hf. rewrite (proj2 (Z.leb_gt _ _)) by done. by apply IH.
Qed.

(** A version whose files are in the order of the builder. *)
Definition canonical (files : list (list FileMetaData)) : Prop := Forall (fun l => Forall file_ok l /\ set_sorted by_smallest l) files.

Lemma save_levels_spec level base : forall A L levels, 0 <= level -> length levels = length base -> canonical base ->
  (forall i l s, base !! i = Some l -> levels !! i = Some s -> level_rep l s (A i) (L i)) -> (forall i, Forall file_ok (A i)) ->
  (forall i l, base !! i = Some l -> NoDup (number <$> l ++ A i)) -> (forall i l, base !! i = Some l -> 0 < level + Z.of_nat i -> pairwise_apart (L i)) ->
  exists files, Builder.save_levels c level base levels = Ret files /\ length files = length base /\ canonical files /\ forall i l, files !! i = Some l -> l ≡ₚ L i.
Proof.
  revert level. induction base as [|l0 base IH]; intros level A L levels Hlv Hlen Hcan Hrep HA Hn Hap.
  - exists []. split_and!; [by destruct levels|done|constructor|done].
  - destruct levels as [|s levels]; [done|]. apply Forall_cons in Hcan as [[Hok0 Hs0] Hcan]. pose proof (Hrep 0%nat l0 s eq_refl eq_refl) as [Hr1 Hr2 Hr3].
    pose proof (Hn 0%nat l0 eq_refl) as Hn0. assert (Forall file_ok (Builder.added_files s)) as Hoa by (by rewrite Hr2).
    destruct (save_level_spec level s (Builder.added_files s) l0) as (M & HsM & HpM & HM); [by apply Forall_app_2|done|done|by rewrite Hr2|].
    set (K := filter (fun f => number f ∉ Builder.deleted_files s) M). assert (K ≡ₚ L 0%nat) as HK by (unfold K; by rewrite HpM, Hr2).
    assert (Forall file_ok M) as HoM by (rewrite HpM; by apply Forall_app_2). assert (Forall file_ok K) as HoK by (by apply kept_ok).
    assert (set_sorted by_smallest K) as HsK by (by apply strongly_sorted_filter).
    assert (NoDup (number <$> K)) as HnK.
    { apply (sublist_NoDup _ (number <$> M)); [by rewrite HpM, Hr2|]. apply fmap_sublist, sublist_filter. }
    assert (0 < level -> StronglySorted apart K) as HaK.
    { intros Hl. apply sorted_apart; [done..|]. intros f g Hf Hg. rewrite HK in Hf, Hg. apply (Hap 0%nat l0); [done|lia|done|done]. }
    cbn [Builder.save_levels]. rewrite (HM []) by done. run. cbn [app]. fold K.
    assert ((if 0 <? level then Builder.check_level c K else Ret tt) = Ret tt) as ->.
    { destruct (Z.ltb_spec 0 level); [|done]. apply check_level_spec; auto. }
    run. destruct (IH (level + 1) (fun i => A (S i)) (fun i => L (S i)) levels) as (files & -> & Hlf & Hcf & Hpf); [lia|by injection Hlen|done| | | | |].
    + intros i l t Hl Ht. by apply (Hrep (S i)).
    + intros i. apply HA.
    + intros i l Hl. by apply (Hn (S i)).
    + intros i l Hl Hi. apply (Hap (S i) l Hl). lia.
    + run. exists (K :: files). split_and!; [done|cbn; by rewrite Hlf|by constructor|]. intros [|i] l Hl; [by injection Hl as <-|by apply Hpf].
Qed.

(** *** One builder *)

(** File numbers are used once in a level, and the files of the levels that the edits
    leave are apart. *)
Record edits_ok (base : list (list FileMetaData)) (es : list VE.VersionEdit) : Prop := {
  eo_levels : Z.of_nat (length base) = kNumLevels;
  eo_base : canonical base;
  eo_edits : Forall edit_fine es;
  eo_fresh : forall i l, base !! i = Some l -> NoDup (number <$> l ++ all_adds es i);
  eo_apart : forall i l n, base !! S i = Some l -> pairwise_apart (edits_level (take n es) (S i) l);
}.

(** The files after the edits. *)
Definition left_by (base : list (list FileMetaData)) (es : list VE.VersionEdit) (files : list (list FileMetaData)) : Prop :=
  length files = length base /\ canonical files /\ forall i l l', base !! i = Some l -> files !! i = Some l' -> l' ≡ₚ edits_level es i l.

Definition build (base : list (list FileMetaData)) (ps : list bytes) (es : list VE.VersionEdit) : outcome (list (list FileMetaData) * list bytes) :=
  b ← foldM (Builder.Apply c) es (Builder.new base ps); files ← Builder.SaveTo c b; Ret (files, Builder.compact_pointer_ b).

Lemma build_spec base ps es : Z.of_nat (length ps) = kNumLevels -> edits_ok base es ->
  exists files, build base ps es = Ret (files, foldl edit_pointers ps es) /\ left_by base es files.
Proof.
  intros Hps [Hlv Hcan Hes Hfr Hap]. unfold build.
  destruct (apply_all base es (fun _ => []) (fun i => default [] (base !! i)) (Builder.new base ps) Hlv Hps Hes) as (b & -> & Ep & (Hb1 & Hb2 & Hb3)); [by intros i|done|by apply version_builder_new|]. run.
  assert (forall i, Forall file_ok (all_adds es i)) as Hadds.
  { intros i. unfold all_adds. apply Forall_concat, Forall_fmap, Forall_forall. intros e He. rewrite Forall_forall in Hes. cbn. by apply adds_fine, Hes. }
  unfold Builder.SaveTo. rewrite Hb1. destruct (save_levels_spec 0 base (all_adds es) (fun i => edits_level es i (default [] (base !! i))) (Builder.levels_ b)) as (files & -> & Hl & Hc & Hp);
    [lia|done|done|done|done|done| |].
  - intros [|i] l Hl Hi; [cbn in Hi; lia|]. rewrite Hl. cbn. specialize (Hap i l (length es) Hl). by rewrite take_ge in Hap by lia.
  - run. exists files. split; [by rewrite Ep|]. split_and!; [done|done|]. intros i l l' Hli Hl'. specialize (Hp i l' Hl'). by rewrite Hli in Hp.
Qed.

(** *** One builder per edit *)

Definition build_each (es : list VE.VersionEdit) (v : list (list FileMetaData) * list bytes) : outcome (list (list FileMetaData) * list bytes) :=
  foldM (fun e v => build v.1 v.2 [e]) es v.

Lemma edit_level_perm e i : Proper ((≡ₚ) ==> (≡ₚ)) (edit_level e i).
Proof. intros l l' Hl. unfold edit_level. by rewrite Hl. Qed.

Lemma edits_level_perm es i l l' : l ≡ₚ l' -> edits_level es i l ≡ₚ edits_level es i l'.
Proof. revert l l'. induction es as [|e es IH]; intros l l' Hl; [done|]. cbn. apply IH. by apply edit_level_perm. Qed.

Lemma edits_level_app es es' i l : edits_level (es ++ es') i l = edits_level es' i (edits_level es i l).
Proof. unfold edits_level. by rewrite foldl_app. Qed.

Lemma all_adds_app es es' i : all_adds (es ++ es') i = all_adds es i ++ all_adds es' i.
Proof. unfold all_adds. by rewrite fmap_app, concat_app. Qed.

Lemma edits_level_sub es i l : edits_level es i l ⊆+ l ++ all_adds es i.
Proof.
  induction es as [|e es IH] using rev_ind; [by rewrite app_nil_r|]. rewrite edits_level_app, all_adds_app. unfold all_adds at 2. cbn. rewrite app_nil_r, app_assoc. unfold edit_level.
  apply submseteq_app; [|done]. etransitivity; [|exact IH]. apply sublist_submseteq, sublist_filter.
Qed.

(** The edits that come later, after the first ones. *)
Lemma edits_ok_later base es es' files : edits_ok base (es ++ es') -> left_by base es files -> edits_ok files es'.
Proof.
  intros [Hlv Hcan Hes Hfr Hap] (Hl & Hc & Hp). apply Forall_app in Hes as [_ Hes]. split; [by rewrite Hl|done|done| |].
  - intros i l' Hi. destruct (lookup_lt_is_Some_2 base i) as [l Hli]; [apply lookup_lt_Some in Hi; lia|]. rewrite (Hp i l l' Hli Hi). specialize (Hfr i l Hli).
    rewrite all_adds_app, app_assoc in Hfr. eapply submseteq_nodup; [exact Hfr|]. apply fmap_submseteq, submseteq_app; [apply edits_level_sub|done].
  - intros i l' n Hi. destruct (lookup_lt_is_Some_2 base (S i)) as [l Hli]; [apply lookup_lt_Some in Hi; lia|]. specialize (Hap i l (length es + n)%nat Hli).
    rewrite take_app_ge, edits_level_app in Hap by lia. replace (length es + n - length es)%nat with n in Hap by lia.
    intros f g Hf Hg. rewrite (edits_level_perm _ _ _ _ (Hp (S i) l l' Hli Hi)) in Hf, Hg. by apply Hap.
Qed.

Lemma left_by_unique base es files files' : left_by base es files -> left_by base es files' -> files = files'.
Proof.
  intros (H1 & Hc1 & Hp1) (H2 & Hc2 & Hp2). apply list_eq_same_length with (n := length base); [done|done|]. intros i l l' Hi Hl Hl'. destruct (lookup_lt_is_Some_2 base i Hi) as [b Hb].
  unfold canonical in *. rewrite Forall_lookup in Hc1, Hc2. destruct (Hc1 i l Hl) as [Ho Hs], (Hc2 i l' Hl') as [_ Hs']. apply (set_sorted_unique by_smallest (P := file_ok)); [done..|].
  by rewrite (Hp1 i b l Hb Hl), (Hp2 i b l' Hb Hl').
Qed.

Lemma left_by_app base es es' files files' : left_by base es files -> left_by files es' files' -> left_by base (es ++ es') files'.
Proof.
  intros (H1 & _ & Hp1) (H2 & Hc2 & Hp2). split_and!; [by rewrite H2|done|]. intros i l l' Hl Hl'. destruct (lookup_lt_is_Some_2 files i) as [m Hm]; [apply lookup_lt_Some in Hl; lia|].
  rewrite (Hp2 i m l' Hm Hl'), edits_level_app. by apply edits_level_perm, (Hp1 i l m).
Qed.

Lemma edit_pointers_length ps es : length (foldl edit_pointers ps es) = length ps.
Proof.
  revert ps. induction es as [|e es IH]; intros ps; [done|]. cbn. rewrite IH. unfold edit_pointers. generalize (VE.compact_pointers_ e). clear IH. intros l. revert ps.
  induction l as [|x l IH]; intros ps; [done|]. cbn. by rewrite IH, length_insert.
Qed.

Lemma build_each_spec base ps es : Z.of_nat (length ps) = kNumLevels -> edits_ok base es ->
  exists files, build_each es (base, ps) = Ret (files, foldl edit_pointers ps es) /\ left_by base es files.
Proof.
  revert base ps. induction es as [|e es IH]; intros base ps Hps Hok.
  - exists base. split; [done|]. split_and!; [done|apply Hok|]. intros i l l' H1 H2. rewrite H1 in H2. by injection H2 as <-.
  - unfold build_each. cbn [foldM fst snd]. change (e :: es) with ([e] ++ es) in Hok. destruct (build_spec base ps [e]) as (files & -> & Hf); [done| |].
    { destruct Hok as [H1 H2 H3 H4 H5]. apply Forall_app in H3 as [H3 _]. split; [done..| |].
      - intros i l Hl. specialize (H4 i l Hl). rewrite all_adds_app, app_assoc, fmap_app in H4. by apply NoDup_app in H4 as (H4 & _ & _).
      - intros i l [|n] Hl; [by apply (H5 i l 0%nat)|]. specialize (H5 i l 1%nat Hl). by rewrite take_ge by (cbn; lia). }
    run. destruct (IH files (foldl edit_pointers ps [e])) as (files' & E & Hf'); [by rewrite edit_pointers_length|by apply (edits_ok_later base [e])|].
    exists files'. split; [exact E|]. by apply (left_by_app base [e] es files).
Qed.

(** *** Deciding the conditions *)

Definition apartb (l : list FileMetaData) : bool :=
  forallb (fun f => forallb (fun g => (number f =? number g) || (iord (largest f) (smallest g) <? 0) || (iord (largest g) (smallest f) <? 0)) l) l.

Lemma apartb_ok l : apartb l = true -> pairwise_apart l.
Proof.
  unfold apartb. rewrite forallb_forall. intros H f g Hf%list_elem_of_In Hg%list_elem_of_In Hn. specialize (H f Hf). rewrite forallb_forall in H. specialize (H g Hg). unfold apart. lia.
Qed.

Definition edits_check (base : list (list FileMetaData)) (es : list VE.VersionEdit) : bool :=
  forallb (fun i => match base !! i with
                    | Some l => bool_decide (NoDup (number <$> l ++ all_adds es i)) &&
                        (bool_decide (i = 0%nat) || forallb (fun n => apartb (edits_level (take n es) i l)) (seq 0 (S (length es))))
                    | None => true
                    end) (seq 0 (length base)).

Lemma edits_check_ok base es : Z.of_nat (length base) = kNumLevels -> canonical base -> Forall edit_fine es -> edits_check base es = true -> edits_ok base es.
Proof.
  intros H1 H2 H3 Hc. unfold edits_check in Hc. rewrite forallb_forall in Hc. split; [done..| |].
  - intros i l Hl. specialize (Hc i). rewrite Hl in Hc. assert (In i (seq 0 (length base))) as Hi by (apply in_seq; apply lookup_lt_Some in Hl; lia).
    apply Hc, andb_true_iff in Hi as [Hi _]. by apply bool_decide_eq_true in Hi.
  - intros i l n Hl. specialize (Hc (S i)). rewrite Hl in Hc. assert (In (S i) (seq 0 (length base))) as Hi by (apply in_seq; apply lookup_lt_Some in Hl; lia).
    apply Hc, andb_true_iff in Hi as [_ Hi]. apply orb_true_iff in Hi as [Hi|Hi]; [by apply bool_decide_eq_true in Hi|]. rewrite forallb_forall in Hi.
    replace (take n es) with (take (Nat.min n (length es)) es) by (by rewrite <- firstn_all2 with (n := length es) (l := take n es) at 1; [rewrite take_take; f_equal; lia|rewrite length_take; lia]).
    apply apartb_ok, Hi, in_seq. lia.
Qed.
End Spec.

(** ** Theorems *)

(** C19: a builder makes the version that its edits describe.  Starting from any version in
    the builder's order, any edits that use a file number once per level and keep the
    files of the deeper levels apart pass every assertion; each level then has exactly
    the old files and the added ones less those deleted after, in the order of their
    smallest keys.  Applying the edits in one pass, as Recover does with a whole manifest,
    gives the same version and compaction pointers as making a version for each edit,
    as LogAndApply does. *)
Theorem builder_refines c `{!ComparatorLaws c} base ps es : Z.of_nat (length ps) = kNumLevels -> edits_ok c base es ->
  exists files, build c base ps es = Ret (files, foldl edit_pointers ps es) /\ build_each c es (base, ps) = Ret (files, foldl edit_pointers ps es) /\
    length files = length base /\ canonical c files /\ forall i l l', base !! i = Some l -> files !! i = Some l' -> l' ≡ₚ edits_level es i l.
Proof.
  intros Hps Hok. destruct (build_spec c base ps es Hps Hok) as (files & E & Hf). destruct (build_each_spec c base ps es Hps Hok) as (files' & E' & Hf').
  rewrite (left_by_unique c base es files' files) in E' by done. destruct Hf as (H1 & H2 & H3). exists files. by split_and!.
Qed.

(** ** Example *)

Definition sample_edits : list VE.VersionEdit :=
  [VE.AddFile 1 2 10 (ikey (str "a") 9 kTypeValue) (ikey (str "c") 3 kTypeValue) (VE.AddFile 1 3 10 (ikey (str "e") 9 kTypeValue) (ikey (str "f") 3 kTypeValue) VE.new);
   VE.AddFile 1 4 10 (ikey (str "d") 9 kTypeValue) (ikey (str "d") 3 kTypeValue) (VE.DeleteFile 1 3 VE.new);
   VE.AddFile 2 2 10 (ikey (str "a") 9 kTypeValue) (ikey (str "c") 3 kTypeValue) (VE.DeleteFile 1 2 (VE.SetCompactPointer 1 (ikey (str "c") 3 kTypeValue) VE.new))].

Definition empty_files : list (list FileMetaData) := [[]; []; []; []; []; []; []].
Definition no_pointers : list bytes := [[]; []; []; []; []; []; []].

Lemma value_file_ok c n size u s u' s' : 0 <= s <= kMaxSequenceNumber -> 0 <= s' <= kMaxSequenceNumber -> internal_ord c (ikey u s kTypeValue) (ikey u' s' kTypeValue) <= 0 ->
  Version.file_ok c (MkFile n size (ikey u s kTypeValue) (ikey u' s' kTypeValue)).
Proof. intros H1 H2 H3. split; [by apply ikey_valid, value_tag..|done]. Qed.

Lemma sample_edits_fine : Forall (edit_fine BytewiseComparator) sample_edits.
Proof.
  assert (forall n size s e, slice_compare (str s) (str e) <= 0 -> Version.file_ok BytewiseComparator (MkFile n size (ikey (str s) 9 kTypeValue) (ikey (str e) 3 kTypeValue))) as Hf.
  { intros n size s e Hle. apply value_file_ok; [by vm_compute..|]. rewrite ikey_ord by (by apply value_tag; vm_compute). unfold icmp. cbn [cmp_Compare BytewiseComparator].
    destruct (_ =? 0); [|done]. vm_compute. done. }
  repeat (apply Forall_cons; split); [split..|by apply Forall_nil]; cbn [VE.compact_pointers_ VE.deleted_files_ VE.new_files_ VE.AddFile VE.DeleteFile VE.SetCompactPointer VE.new VE.with_new VE.with_deleted VE.with_pointers app set_insert];
    repeat (apply Forall_cons; split); try apply Forall_nil; try done; (split; [by vm_compute|]); cbn [snd]; first [by apply Hf; vm_compute|done].
Qed.

Lemma sample_edits_ok : edits_ok BytewiseComparator empty_files sample_edits.
Proof. apply edits_check_ok; [done|repeat constructor|apply sample_edits_fine|by vm_compute]. Qed.

Lemma builder_refines_witness : exists files, build BytewiseComparator empty_files no_pointers sample_edits = Ret (files, foldl edit_pointers no_pointers sample_edits) /\
  build_each BytewiseComparator sample_edits (empty_files, no_pointers) = Ret (files, foldl edit_pointers no_pointers sample_edits) /\
  (fun l : list FileMetaData => number <$> l) <$> files = [[]; [4]; [2]; []; []; []; []].
Proof.
  destruct (builder_refines BytewiseComparator empty_files no_pointers sample_edits eq_refl sample_edits_ok) as (files & E1 & E2 & _).
  exists files. split; [exact E1|]. split; [exact E2|]. assert (files = match build BytewiseComparator empty_files no_pointers sample_edits with Ret v => v.1 | _ => [] end) as -> by (by rewrite E1).
  vm_compute. reflexivity.
Defined.
