(* ===== verification/Arena.v ===== *)
(** * The arena of a memtable (util/leveldb/util/arena.cc, arena.h)

    Addresses are 64-bit integers, 0 is NULL.  [operator new] is a parameter: given
    the blocks already obtained it returns a fresh 8-byte aligned block, or throws. *)

From S2P Require Import Prelude.

Definition kBlockSize : Z := 4096.

(** [sizeof(char* )] and the alignment of [AllocateAligned]. *)
Definition sizeof_ptr : Z := 8.
Definition align : Z := if 8 <? sizeof_ptr then sizeof_ptr else 8.

Record Arena := MkArena {
  alloc_ptr_ : Z;
  alloc_bytes_remaining_ : Z;
  blocks_ : list (Z * Z);
  memory_usage_ : Z;
}.

Definition Arena_new : Arena := MkArena 0 0 [] 0.

Section Arena.
Context (op_new : list (Z * Z) -> Z -> option Z).

Definition AllocateNewBlock (block_bytes : Z) (a : Arena) : outcome (Z * Arena) :=
  match op_new (blocks_ a) block_bytes with
  | None => Exit 134
  | Some result =>
      Ret (result, MkArena (alloc_ptr_ a) (alloc_bytes_remaining_ a) (blocks_ a ++ [(result, block_bytes)])
                     (u64 (memory_usage_ a + block_bytes + sizeof_ptr)))
  end.

Definition AllocateFallback (n : Z) (a : Arena) : outcome (Z * Arena) :=
  if kBlockSize / 4 <? n then AllocateNewBlock n a
  else
    '(ptr, a) ← AllocateNewBlock kBlockSize a;
    Ret (ptr, MkArena (u64 (ptr + n)) (kBlockSize - n) (blocks_ a) (memory_usage_ a)).

Definition Allocate (n : Z) (a : Arena) : outcome (Z * Arena) :=
  if negb (0 <? n) then Exit 134
  else if n <=? alloc_bytes_remaining_ a then
    Ret (alloc_ptr_ a, MkArena (u64 (alloc_ptr_ a + n)) (alloc_bytes_remaining_ a - n) (blocks_ a) (memory_usage_ a))
  else AllocateFallback n a.

Definition AllocateAligned (n : Z) (a : Arena) : outcome (Z * Arena) :=
  if negb (Z.land align (align - 1) =? 0) then Exit 134
  else
    let current_mod := Z.land (alloc_ptr_ a) (align - 1) in
    let slop := if current_mod =? 0 then 0 else align - current_mod in
    let needed := u64 (n + slop) in
    '(result, a) ← (if needed <=? alloc_bytes_remaining_ a
       then Ret (u64 (alloc_ptr_ a + slop),
                 MkArena (u64 (alloc_ptr_ a + needed)) (alloc_bytes_remaining_ a - needed) (blocks_ a) (memory_usage_ a))
       else AllocateFallback n a);
    if Z.land result (align - 1) =? 0 then Ret (result, a) else Exit 134.

(** A run of requests, aligned or not, with the ranges they returned. *)
Definition request (r : bool * Z) (st : list (Z * Z) * Arena) : outcome (list (Z * Z) * Arena) :=
  let '(allocs, a) := st in
  '(p, a) ← (if fst r then AllocateAligned (snd r) a else Allocate (snd r) a);
  Ret (allocs ++ [(p, snd r)], a).

(** ** Invariant *)

Definition disjoint (x y : Z * Z) : Prop := fst x + snd x <= fst y \/ fst y + snd y <= fst x.
Definition inside (x y : Z * Z) : Prop := fst y <= fst x /\ fst x + snd x <= fst y + snd y.

(** What include/new guarantees of a successful allocation. *)
Hypothesis new_fresh : forall blocks n p, op_new blocks n = Some p ->
  0 < p /\ p mod 8 = 0 /\ p + n <= 2 ^ 64 /\ Forall (disjoint (p, n)) blocks.

Definition total_bytes (blocks : list (Z * Z)) : Z := foldr (fun b s => snd b + sizeof_ptr + s) 0 blocks.

Record arena_ok (allocs : list (Z * Z)) (a : Arena) : Prop := {
  ok_free : 0 <= alloc_bytes_remaining_ a /\ 0 <= alloc_ptr_ a < 2 ^ 64 /\
    (alloc_bytes_remaining_ a = 0 \/
     exists b, b ∈ blocks_ a /\ inside (alloc_ptr_ a, alloc_bytes_remaining_ a) b);
  ok_blocks : Forall (fun b => 0 < fst b /\ fst b + snd b <= 2 ^ 64) (blocks_ a);
  ok_inside : Forall (fun x => exists b, b ∈ blocks_ a /\ inside x b) allocs;
  ok_disjoint : ForallOrdPairs disjoint allocs;
  ok_free_disjoint : alloc_bytes_remaining_ a = 0 \/
    Forall (fun x => disjoint x (alloc_ptr_ a, alloc_bytes_remaining_ a)) allocs;
  ok_usage : memory_usage_ a = u64 (total_bytes (blocks_ a));
}.

Lemma ordpairs_snoc (l : list (Z * Z)) x : ForallOrdPairs disjoint l -> Forall (fun y => disjoint y x) l ->
  ForallOrdPairs disjoint (l ++ [x]).
Proof.
  induction 1 as [|y l Hy Hl IH]; intros Hx; cbn; [repeat constructor|].
  apply Forall_cons in Hx as [H1 H2]. constructor; [|by apply IH]. apply Forall_app. split; [done|]. constructor; [done|constructor].
Qed.

Lemma usage_snoc l b : total_bytes (l ++ [b]) = total_bytes l + snd b + sizeof_ptr.
Proof. unfold total_bytes. induction l; cbn; lia. Qed.

(** A new block is disjoint from everything handed out or still free. *)
Lemma inside_disjoint x b n p : inside x b -> disjoint (p, n) b -> disjoint x (p, n).
Proof. unfold inside, disjoint. cbn. lia. Qed.

(** Carving [n] bytes off the free region after [slop] bytes. *)
Lemma carve_ok allocs a slop n :
  arena_ok allocs a -> 0 <= slop -> 0 < n -> slop + n <= alloc_bytes_remaining_ a ->
  u64 (alloc_ptr_ a + slop) = alloc_ptr_ a + slop /\
  arena_ok (allocs ++ [(alloc_ptr_ a + slop, n)])
    (MkArena (u64 (alloc_ptr_ a + (slop + n))) (alloc_bytes_remaining_ a - (slop + n)) (blocks_ a) (memory_usage_ a)).
Proof.
  intros [(Hr & Hp & [Hz|(b & Hb & Hin)]) Hbl Hins Hdis Hfd Hus] Hs Hn Hle; [lia|].
  pose proof (proj1 (Forall_forall _ _) Hbl b Hb) as [Hb0 Hb1]. unfold inside in Hin. cbn in Hin.
  destruct Hfd as [?|Hfd]; [lia|]. split; [apply u64_small; lia|]. split; cbn.
  - destruct (Z.eq_dec (alloc_bytes_remaining_ a) (slop + n)) as [E|Hne].
    + pose proof (u64_range (alloc_ptr_ a + (slop + n))). split_and!; [lia|lia|lia|left; lia].
    + rewrite u64_small by lia. split_and!; [lia|lia|lia|]. right. exists b. unfold inside. cbn. split_and!; [done|lia|lia].
  - done.
  - apply Forall_app. split; [done|]. constructor; [|done]. exists b. unfold inside. cbn. split_and!; [done|lia|lia].
  - apply ordpairs_snoc; [done|]. eapply Forall_impl; [exact Hfd|]. intros x. unfold disjoint. cbn. lia.
  - destruct (Z.eq_dec (alloc_bytes_remaining_ a) (slop + n)) as [E|Hne]; [left; lia|right].
    rewrite u64_small by lia. apply Forall_app. split.
    + eapply Forall_impl; [exact Hfd|]. intros x. unfold disjoint. cbn. lia.
    + constructor; [|done]. unfold disjoint. cbn. lia.
  - done.
Qed.

Lemma new_block_ok allocs a n p a' :
  arena_ok allocs a -> 0 < n -> AllocateNewBlock n a = Ret (p, a') ->
  0 < p /\ p mod 8 = 0 /\ p + n <= 2 ^ 64 /\ Forall (fun x => disjoint x (p, n)) allocs /\ (p, n) ∈ blocks_ a' /\
  arena_ok allocs a' /\
  (alloc_bytes_remaining_ a = 0 \/ disjoint (p, n) (alloc_ptr_ a, alloc_bytes_remaining_ a)) /\
  alloc_ptr_ a' = alloc_ptr_ a /\ alloc_bytes_remaining_ a' = alloc_bytes_remaining_ a.
Proof.
  intros [(Hr & Hp & Hfree) Hbl Hins Hdis Hfd Hus] Hn. unfold AllocateNewBlock.
  destruct (op_new (blocks_ a) n) as [q|] eqn:E; [|done]. intros [= <- <-].
  destruct (new_fresh _ _ _ E) as (H1 & H2 & H3 & H4). rewrite Forall_forall in H4. cbn.
  assert (Forall (fun x => exists b, b ∈ blocks_ a ++ [(q, n)] /\ inside x b) allocs) as Hins'
    by (eapply Forall_impl; [exact Hins|]; intros x (b & Hb & Hx); exists b; set_solver).
  split_and!; try done.
  - eapply Forall_impl; [exact Hins|]. intros x (b & Hb & Hx). by eapply inside_disjoint; [|apply H4].
  - apply elem_of_app. right. by left.
  - split; cbn; try done.
    + split_and!; try done; [lia..|]. destruct Hfree as [?|(b & Hb & Hx)]; [by left|right]. exists b. set_solver.
    + apply Forall_app. split; [done|]. constructor; [done|constructor].
    + rewrite usage_snoc, Hus, <- (Z.add_assoc (u64 _)), u64_add_l. f_equal. cbn. lia.
  - destruct Hfree as [?|(b & Hb & Hx)]; [by left|right]. pose proof (H4 b Hb) as Hd. unfold inside, disjoint in *. cbn in *. lia.
Qed.

Lemma fallback_ok allocs a n p a' :
  arena_ok allocs a -> 0 < n -> AllocateFallback n a = Ret (p, a') ->
  p mod 8 = 0 /\ arena_ok (allocs ++ [(p, n)]) a'.
Proof.
  intros Hok Hn. unfold AllocateFallback. destruct (Z.ltb_spec (kBlockSize / 4) n) as [Hbig|Hsm].
  - intros E. destruct (new_block_ok allocs a n p a' Hok Hn E) as (H1 & H2 & H3 & H4 & H5 & Hok' & H6 & E1 & E2).
    split; [done|]. destruct Hok' as [Hf Hbl Hins Hdis Hfd Hus]. split; try done.
    + apply Forall_app. split; [done|]. constructor; [|done]. exists (p, n). split; [done|]. unfold inside. lia.
    + by apply ordpairs_snoc.
    + rewrite E1, E2 in *. destruct H6 as [?|H6]; [by left|]. destruct Hfd as [?|Hfd]; [by left|right].
      apply Forall_app. split; [done|]. constructor; [done|constructor].
  - intros ([ptr a1] & E & [= <- <-])%bind_Ret.
    destruct (new_block_ok allocs a kBlockSize ptr a1 Hok ltac:(unfold kBlockSize; lia) E) as (H1 & H2 & H3 & H4 & H5 & Hok' & _).
    split; [done|]. destruct Hok' as [Hf Hbl Hins Hdis Hfd Hus].
    assert (arena_ok allocs (MkArena ptr kBlockSize (blocks_ a1) (memory_usage_ a1))) as Hok1.
    { split; cbn; try done; unfold kBlockSize in *.
      - split_and!; [lia|lia|lia|]. right. exists (ptr, 4096). split; [done|]. unfold inside. cbn. lia.
      - by right. }
    assert (kBlockSize / 4 = 1024) as Hq by reflexivity. unfold kBlockSize in *.
    destruct (carve_ok allocs _ 0 n Hok1 ltac:(lia) Hn ltac:(cbn; lia)) as [_ Hc]. cbn in Hc.
    by rewrite Z.add_0_r in Hc.
Qed.

Lemma land_align p : Z.land p (align - 1) = p mod 8.
Proof. exact (Z.land_ones p 3 ltac:(lia)). Qed.

(** The bytes a request takes from the current block, the padding that aligns it
    included, and the size of the block asked for when they do not fit. *)
Definition needed (r : bool * Z) (a : Arena) : Z :=
  if fst r then snd r + (- alloc_ptr_ a) mod 8 else snd r.
Definition block_for (n : Z) : Z := if kBlockSize / 4 <? n then n else kBlockSize.

(** The request does not fit into the current block and [operator new] has no
    block for it. *)
Definition out_of_memory (r : bool * Z) (a : Arena) : Prop :=
  alloc_bytes_remaining_ a < needed r a /\ op_new (blocks_ a) (block_for (snd r)) = None.

Lemma fallback_total n a :
  (exists r, AllocateFallback n a = Ret r) \/ (exists c, AllocateFallback n a = Exit c) /\ op_new (blocks_ a) (block_for n) = None.
Proof.
  unfold AllocateFallback, AllocateNewBlock, block_for.
  destruct (kBlockSize / 4 <? n).
  - destruct (op_new (blocks_ a) n) eqn:E; [left|right]; eauto.
  - destruct (op_new (blocks_ a) kBlockSize) eqn:E; [left|right]; cbn; eauto.
Qed.

Lemma slop_mod p : (if p mod 8 =? 0 then 0 else 8 - p mod 8) = (- p) mod 8.
Proof.
  destruct (Z.eqb_spec (p mod 8) 0) as [E|E].
  - symmetry. by apply Z.mod_opp_l_z.
  - symmetry. by apply Z.mod_opp_l_nz.
Qed.

(** One request: a well-formed answer, or the failure of [operator new]. *)
Lemma alloc_step (al : bool) n allocs a : arena_ok allocs a -> 0 < n < 2 ^ 63 ->
  (exists p a', (if al then AllocateAligned n a else Allocate n a) = Ret (p, a') /\
     arena_ok (allocs ++ [(p, n)]) a' /\ (al = true -> p mod 8 = 0)) \/
  (exists c, (if al then AllocateAligned n a else Allocate n a) = Exit c) /\ out_of_memory (al, n) a.
Proof.
  intros Hok Hn. destruct al.
  - unfold AllocateAligned. cbn [negb]. change (Z.land align (align - 1) =? 0) with true. cbn [negb].
    rewrite land_align. pose proof (Z.mod_pos_bound (alloc_ptr_ a) 8 ltac:(lia)) as Hm.
    change align with 8. rewrite slop_mod. unfold out_of_memory, needed. cbn [fst snd]. set (slop := (- alloc_ptr_ a) mod 8).
    assert (0 <= slop < 8 /\ (alloc_ptr_ a + slop) mod 8 = 0) as [Hs Hal].
    { split; [by apply Z.mod_pos_bound|]. unfold slop. rewrite Zplus_mod_idemp_r, Z.add_opp_diag_r. done. }
    rewrite (u64_small (n + slop)) by lia. destruct (Z.leb_spec (n + slop) (alloc_bytes_remaining_ a)) as [Hle|Hgt].
    + destruct (carve_ok allocs a slop n Hok) as [-> Hc]; [lia|lia|lia|]. run.
      change 8 with align at 1. rewrite land_align, Hal. cbn [Z.eqb]. left. do 2 eexists. split; [done|]. split; [|done].
      by rewrite (Z.add_comm n slop).
    + destruct (fallback_total n a) as [[[p a'] E]|Hth].
      * destruct (fallback_ok allocs a n p a' Hok ltac:(lia) E) as [Hp Hok']. left. rewrite E. run.
        change 8 with align at 1. rewrite land_align, Hp. eauto.
      * right. destruct Hth as [[c E] Hnone]. rewrite E. split; [by eexists|]. split; [lia|done].
  - unfold Allocate. replace (0 <? n) with true by lia. cbn [negb].
    destruct (Z.leb_spec n (alloc_bytes_remaining_ a)) as [Hle|Hgt].
    + destruct (carve_ok allocs a 0 n Hok) as [_ Hc]; [lia|lia|lia|]. rewrite Z.add_0_r, Z.add_0_l in Hc. left.
      do 2 eexists. split; [done|]. split; [exact Hc|done].
    + destruct (fallback_total n a) as [[[p a'] E]|[[c E] Hnone]]; [left|right; rewrite E; split; [by eexists|]; split; [cbn; lia|done]].
      destruct (fallback_ok allocs a n p a' Hok ltac:(lia) E) as [Hp Hok']. rewrite E. do 2 eexists. by split_and!.
Qed.

Lemma arena_run reqs allocs a : arena_ok allocs a -> Forall (fun r => 0 < snd r < 2 ^ 63) reqs ->
  match foldM request reqs (allocs, a) with
  | Ret (allocs', a') => arena_ok allocs' a' /\ exists new, allocs' = allocs ++ new /\
      Forall2 (fun (r : bool * Z) x => snd x = snd r /\ (fst r = true -> fst x mod 8 = 0)) reqs new
  | Exit _ => exists pre r post allocs' a', reqs = pre ++ r :: post /\
      foldM request pre (allocs, a) = Ret (allocs', a') /\ out_of_memory r a'
  | Undef => False
  end.
Proof.
  intros Hok Hr. revert allocs a Hok. induction Hr as [|[al n] reqs Hn Hr IH]; intros allocs a Hok; cbn [foldM].
  { split; [done|]. exists []. by rewrite app_nil_r. }
  cbn [snd] in Hn. assert (request (al, n) (allocs, a) =
    ('(p, a) ← (if al then AllocateAligned n a else Allocate n a); Ret (allocs ++ [(p, n)], a))) as -> by done.
  destruct (alloc_step al n allocs a Hok Hn) as [(p & a' & E & Hok' & Hal)|[[c E] Hnone]]; rewrite E; run.
  - specialize (IH _ _ Hok'). destruct (foldM request reqs (allocs ++ [(p, n)], a')) as [[allocs2 a2]| |]; try done.
    2:{ destruct IH as (pre & r & post & allocs2 & a2 & -> & Epre & Hoom). exists ((al, n) :: pre), r, post, allocs2, a2.
        split_and!; [done| |done]. cbn [foldM request fst snd]. rewrite E. run. exact Epre. }
    destruct IH as [Hok2 (new & -> & HF)]. split; [done|]. exists ((p, n) :: new). rewrite <- app_assoc. split; [done|].
    by constructor.
  - by exists [], (al, n), reqs, allocs, a.
Qed.

(** C40: arena allocations never overlap.  For any sequence of requests of 1 to
    2^63-1 bytes, aligned or not, a run either returns, for each request, a range inside an owned block, 8-byte aligned if
    asked, all ranges pairwise disjoint, and the reported memory usage is the total size of
    the blocks with their pointers; or it stops at a request, all those before it
    answered, whose bytes (with the padding that aligns it) do not fit into the
    current block and for which [operator new], asked for a block of its size (or
    of 4096 bytes when it is at most 1024), has none.  There is no other way to
    stop: where [operator new] always answers, no assertion fails. *)
Theorem arena_allocations reqs : Forall (fun r => 0 < snd r < 2 ^ 63) reqs ->
  match foldM request reqs ([], Arena_new) with
  | Ret (allocs, a) =>
      Forall2 (fun (r : bool * Z) x => snd x = snd r /\ (fst r = true -> fst x mod 8 = 0)) reqs allocs /\
      ForallOrdPairs disjoint allocs /\
      Forall (fun x => exists b, b ∈ blocks_ a /\ inside x b) allocs /\
      memory_usage_ a = u64 (total_bytes (blocks_ a))
  | Exit _ => exists pre r post allocs a, reqs = pre ++ r :: post /\
      foldM request pre ([], Arena_new) = Ret (allocs, a) /\
      alloc_bytes_remaining_ a < needed r a /\ op_new (blocks_ a) (block_for (snd r)) = None
  | Undef => False
  end.
Proof.
  intros Hr. assert (arena_ok [] Arena_new) as H0.
  { split; cbn; try done; [lia| |]; constructor. done. }
  pose proof (arena_run reqs [] Arena_new H0 Hr) as H. destruct (foldM request reqs ([], Arena_new)) as [[allocs a]| |]; try done.
  destruct H as [[_ _ H1 H2 _ H3] (new & -> & HF)]. done.
Qed.
End Arena.

(** A bump allocator as [operator new]. *)
Definition bump_new (blocks : list (Z * Z)) (n : Z) : option Z :=
  let p := foldr (fun b top => Z.max top (16 * ((fst b + snd b + 15) / 16))) 16 blocks in
  if (0 <=? n) && (p + n <=? 2 ^ 64) then Some p else None.

Lemma bump_new_fresh blocks n p : bump_new blocks n = Some p ->
  0 < p /\ p mod 8 = 0 /\ p + n <= 2 ^ 64 /\ Forall (disjoint (p, n)) blocks.
Proof.
  unfold bump_new. destruct (_ && _) eqn:E; [|done]. intros [= <-]. apply andb_true_iff in E as [E1%Z.leb_le E2%Z.leb_le].
  split_and!; [| |done|].
  - clear. induction blocks; cbn [foldr]; lia.
  - clear. induction blocks as [|b blocks IH]; [done|]. cbn [foldr]. apply Z.max_case_strong; [done|]. intros _.
    apply (Z.mod_divide _ 8); [lia|]. exists (2 * ((b.1 + b.2 + 15) / 16)). lia.
  - eapply Forall_impl with (P := fun b => b.1 + b.2 <= _); [|intros x Hx; right; exact Hx]. clear.
    induction blocks as [|b blocks IH]; [constructor|]. cbn [foldr].
    pose proof (Z.mod_pos_bound (b.1 + b.2 + 15) 16 ltac:(lia)). pose proof (Z.div_mod (b.1 + b.2 + 15) 16 ltac:(lia)).
    constructor; [cbn [fst]; lia|]. eapply Forall_impl; [exact IH|]. cbn [fst]. lia.
Qed.

Lemma arena_allocations_witness :
  exists allocs a, foldM (request bump_new) [(false, 13); (true, 24); (false, 5000); (true, 8)] ([], Arena_new) = Ret (allocs, a) /\
    ForallOrdPairs disjoint allocs.
Proof.
  pose proof (arena_allocations bump_new bump_new_fresh [(false, 13); (true, 24); (false, 5000); (true, 8)]) as H.
  destruct (foldM (request bump_new) _ _) as [[allocs a]|c|] eqn:E.
  - exists allocs, a. split; [reflexivity|]. apply H. repeat constructor; cbn; lia.
  - vm_compute in E. discriminate.
  - vm_compute in E. discriminate.
Defined.
