(* ===== verification/SkipList.v ===== *)
(** * The skip list of a memtable (util/leveldb/db/skiplist.h, util/random.h)

    Nodes live in an arena that only grows: a [Node*] is an index into the list
    [nodes], NULL is [None], and the head is node 0.  A node has one link per
    level below its height; a link is uninitialised until it is stored.  The
    searches are loops with fuel that the theorems show sufficient, the height of
    a new node comes from the model of [Random]. *)

From S2P Require Import Prelude.

(** ** util/random.h *)

Module Random.
Definition M : Z := 2147483647.
Definition A : Z := 16807.

(** The constructor and [Next]; the state is [seed_]. *)
Definition new (s : Z) : Z :=
  let seed := Z.land s 0x7fffffff in
  if (seed =? 0) || (seed =? 2147483647) then 1 else seed.

Definition Next (seed : Z) : Z :=
  let product := u64 (seed * A) in
  let seed := u32 (Z.shiftr product 31 + Z.land product M) in
  if M <? seed then seed - M else seed.

Definition Uniform (seed n : Z) : Z * Z := let s := Next seed in (s mod n, s).
Definition OneIn (seed n : Z) : bool * Z := let s := Next seed in (s mod n =? 0, s).
Definition Skewed (seed max_log : Z) : Z * Z :=
  let '(u, s) := Uniform seed (max_log + 1) in Uniform s (Z.shiftl 1 u).

Definition good (seed : Z) : Prop := 0 < seed < M.

Lemma new_good s : good (new s).
Proof.
  unfold new, good, M. assert (Z.land s 0x7fffffff = s mod 2 ^ 31) as -> by (apply (Z.land_ones s 31); lia).
  pose proof (Z.mod_pos_bound s (2 ^ 31) ltac:(lia)).
  cbn zeta. destruct (Z.eqb_spec (s mod 2 ^ 31) 0), (Z.eqb_spec (s mod 2 ^ 31) 2147483647); cbn [orb]; lia.
Qed.

(** The shift-and-mask reduction is the remainder modulo 2^31-1. *)
Lemma next_mod seed : good seed -> Next seed = (seed * A) mod M /\ good (Next seed).
Proof.
  unfold good, Next. intros Hs. rewrite u64_small by (unfold A, M in *; lia).
  assert (Z.land (seed * A) M = (seed * A) mod 2 ^ 31) as -> by (apply (Z.land_ones _ 31); lia).
  rewrite Z.shiftr_div_pow2 by lia.
  pose proof (Z.div_mod (seed * A) (2 ^ 31) ltac:(lia)) as Hd.
  pose proof (Z.mod_pos_bound (seed * A) (2 ^ 31) ltac:(lia)).
  assert (0 <= (seed * A) / 2 ^ 31 < A) by
    (split; [apply Z.div_pos; unfold A, M in *; lia|apply Z.div_lt_upper_bound; unfold A, M in *; lia]).
  set (q := (seed * A) / 2 ^ 31) in *. set (r := (seed * A) mod 2 ^ 31) in *.
  rewrite u32_small by (unfold A in *; lia).
  assert (seed * A = q * M + (q + r)) as Hqr by (unfold M; lia).
  assert (q + r <> M) as Hne.
  { intros E. assert ((M | A * seed)) as Hdiv by (exists (q + 1); lia).
    apply Znumtheory.Gauss in Hdiv.
    - apply Z.divide_pos_le in Hdiv; lia.
    - apply Znumtheory.Zgcd_1_rel_prime. reflexivity. }
  assert (0 < q + r) by (unfold M, A in *; nia).
  destruct (Z.ltb_spec M (q + r)).
  - assert (q + r - M < M) by (unfold M, A in *; lia). split; [|lia].
    apply (Z.mod_unique_pos _ _ (q + 1)); lia.
  - split; [|lia]. apply (Z.mod_unique_pos _ _ q); lia.
Qed.
End Random.

(** ** db/skiplist.h: operations *)

Definition kMaxHeight : nat := 12.
Definition kBranching : Z := 4.

Section Operations.
Context {Key : Type} (compare_ : Key -> Key -> outcome Z).

(** [struct Node]: the key (the head has none that is ever compared) and the
    array [next_], one entry per level; [None] is an uninitialised entry. *)
Record Node := MkNode { node_key : option Key; next_ : list (option (option nat)) }.

Record SkipList := MkSkipList { nodes : list Node; max_height_ : nat; rnd_ : Z }.

Definition head_ : nat := 0.

Definition get_key (s : SkipList) (x : nat) : outcome Key :=
  match nodes s !! x with
  | Some n => match node_key n with Some k => Ret k | None => Undef end
  | None => Undef
  end.

(** [Node::Next] and [Node::SetNext] (and their no-barrier variants): an access
    beyond the node's array, or a read before the first store, is undefined. *)
Definition Next (s : SkipList) (x n : nat) : outcome (option nat) :=
  match nodes s !! x with
  | Some nd => match next_ nd !! n with Some (Some p) => Ret p | _ => Undef end
  | None => Undef
  end.

Definition SetNext (s : SkipList) (x n : nat) (p : option nat) : outcome SkipList :=
  match nodes s !! x with
  | Some nd =>
      if (n <? length (next_ nd))%nat
      then Ret (MkSkipList (<[x := MkNode (node_key nd) (<[n := Some p]> (next_ nd))]> (nodes s)) (max_height_ s) (rnd_ s))
      else Undef
  | None => Undef
  end.

Definition NewNode (s : SkipList) (key : option Key) (height : nat) : nat * SkipList :=
  (length (nodes s), MkSkipList (nodes s ++ [MkNode key (replicate height None)]) (max_height_ s) (rnd_ s)).

(** [while (height < kMaxHeight && rnd_.Next() % kBranching == 0) height++]:
    [rounds] is [kMaxHeight - height]. *)
Fixpoint RandomHeight_loop (rounds height : nat) (rnd : Z) : nat * Z :=
  match rounds with
  | O => (height, rnd)
  | S rounds' =>
      let rnd := Random.Next rnd in
      if rnd mod kBranching =? 0 then RandomHeight_loop rounds' (S height) rnd else (height, rnd)
  end.

Definition RandomHeight (s : SkipList) : outcome (nat * SkipList) :=
  let '(height, rnd) := RandomHeight_loop (kMaxHeight - 1) 1 (rnd_ s) in
  if (0 <? height)%nat && (height <=? kMaxHeight)%nat
  then Ret (height, MkSkipList (nodes s) (max_height_ s) rnd) else Exit 134.

Definition Equal (a b : Key) : outcome bool := r ← compare_ a b; Ret (r =? 0).

(** NULL is considered infinite. *)
Definition KeyIsAfterNode (s : SkipList) (key : Key) (n : option nat) : outcome bool :=
  match n with
  | None => Ret false
  | Some n => k ← get_key s n; r ← compare_ k key; Ret (r <? 0)
  end.

(** [if (prev != NULL) prev[level] = x] *)
Definition set_prev (prev : option (list (option nat))) (level x : nat) : outcome (option (list (option nat))) :=
  match prev with
  | None => Ret None
  | Some a => if (level <? length a)%nat then Ret (Some (<[level := Some x]> a)) else Undef
  end.

(** The [while (true)] loop; the result is the node and the array [prev]. *)
Fixpoint FindGreaterOrEqual_loop (fuel : nat) (s : SkipList) (key : Key) (prev : option (list (option nat)))
    (x level : nat) : outcome (option nat * option (list (option nat))) :=
  match fuel with
  | O => Undef
  | S fuel' =>
      next ← Next s x level;
      after ← KeyIsAfterNode s key next;
      match after, next with
      | true, Some n => FindGreaterOrEqual_loop fuel' s key prev n level
      | _, _ =>
          prev ← set_prev prev level x;
          match level with
          | O => Ret (next, prev)
          | S level' => FindGreaterOrEqual_loop fuel' s key prev x level'
          end
      end
  end.

(** Every round advances in the list or drops a level. *)
Definition search_fuel (s : SkipList) : nat := length (nodes s) + max_height_ s + 1.

Definition FindGreaterOrEqual (s : SkipList) (key : Key) (prev : option (list (option nat))) :
    outcome (option nat * option (list (option nat))) :=
  FindGreaterOrEqual_loop (search_fuel s) s key prev head_ (max_height_ s - 1).

Fixpoint FindLessThan_loop (fuel : nat) (s : SkipList) (key : Key) (x level : nat) : outcome nat :=
  match fuel with
  | O => Undef
  | S fuel' =>
      _ ← (if (x =? head_)%nat then Ret tt
           else k ← get_key s x; r ← compare_ k key; if r <? 0 then Ret tt else Exit 134);
      next ← Next s x level;
      stop ← match next with
             | None => Ret true
             | Some n => k ← get_key s n; r ← compare_ k key; Ret (0 <=? r)
             end;
      match stop, next with
      | false, Some n => FindLessThan_loop fuel' s key n level
      | _, _ => match level with O => Ret x | S level' => FindLessThan_loop fuel' s key x level' end
      end
  end.

Definition FindLessThan (s : SkipList) (key : Key) : outcome nat :=
  FindLessThan_loop (search_fuel s) s key head_ (max_height_ s - 1).

Fixpoint FindLast_loop (fuel : nat) (s : SkipList) (x level : nat) : outcome nat :=
  match fuel with
  | O => Undef
  | S fuel' =>
      next ← Next s x level;
      match next with
      | None => match level with O => Ret x | S level' => FindLast_loop fuel' s x level' end
      | Some n => FindLast_loop fuel' s n level
      end
  end.

Definition FindLast (s : SkipList) : outcome nat :=
  FindLast_loop (search_fuel s) s head_ (max_height_ s - 1).

(** The constructor. *)
Definition SkipList_new : outcome SkipList :=
  let '(h, s) := NewNode (MkSkipList [] 1 (Random.new 0xdeadbeef)) None kMaxHeight in
  foldM (fun i s => SetNext s h i None) (seq 0 kMaxHeight) s.

(** One round of the loop that links the new node [x] at level [i]. *)
Definition link_level (prev : list (option nat)) (x i : nat) (s : SkipList) : outcome SkipList :=
  match prev !! i with
  | Some (Some p) =>
      q ← Next s p i;
      s ← SetNext s x i q;
      SetNext s p i (Some x)
  | _ => Undef
  end.

Definition Insert (s : SkipList) (key : Key) : outcome SkipList :=
  '(x, prev) ← FindGreaterOrEqual s key (Some (replicate kMaxHeight None));
  dup ← match x with None => Ret false | Some x => k ← get_key s x; Equal key k end;
  if (dup : bool) then Exit 134
  else
    '(height, s) ← RandomHeight s;
    let prev := default [] prev in
    let '(prev, s) :=
      if (max_height_ s <? height)%nat
      then (foldl (fun prev i => <[i := Some head_]> prev) prev (seq (max_height_ s) (height - max_height_ s)),
            MkSkipList (nodes s) height (rnd_ s))
      else (prev, s) in
    let '(x, s) := NewNode s (Some key) height in
    foldM (link_level prev x) (seq 0 height) s.

Definition Contains (s : SkipList) (key : Key) : outcome bool :=
  '(x, _) ← FindGreaterOrEqual s key None;
  match x with None => Ret false | Some x => k ← get_key s x; Equal key k end.

(** [class Iterator]: the state is [node_]; the failing branches are the
    assertions [Valid()]. *)
Definition Iterator_new : option nat := None.
Definition Iterator_Valid (node : option nat) : bool := bool_decide (node <> None).
Definition Iterator_key (s : SkipList) (node : option nat) : outcome Key :=
  match node with None => Exit 134 | Some n => get_key s n end.
Definition Iterator_Next (s : SkipList) (node : option nat) : outcome (option nat) :=
  match node with None => Exit 134 | Some n => Next s n 0 end.
Definition Iterator_Prev (s : SkipList) (node : option nat) : outcome (option nat) :=
  match node with
  | None => Exit 134
  | Some n => k ← get_key s n; p ← FindLessThan s k; Ret (if (p =? head_)%nat then None else Some p)
  end.
Definition Iterator_Seek (s : SkipList) (target : Key) : outcome (option nat) :=
  '(x, _) ← FindGreaterOrEqual s target None; Ret x.
Definition Iterator_SeekToFirst (s : SkipList) : outcome (option nat) := Next s head_ 0.
Definition Iterator_SeekToLast (s : SkipList) : outcome (option nat) :=
  p ← FindLast s; Ret (if (p =? head_)%nat then None else Some p).
End Operations.

Arguments Node : clear implicits.
Arguments SkipList : clear implicits.

(** ** Representation *)

Section Representation.
Context {Key : Type} (compare_ : Key -> Key -> outcome Z).
(** The comparator is a total preorder on the keys a client inserts. *)
Context (ok : Key -> Prop) (ord : Key -> Key -> Z).
Hypothesis compare_ord : forall a b, ok a -> ok b -> compare_ a b = Ret (ord a b).
Hypothesis ord_antisym : forall a b, ok a -> ok b -> Z.sgn (ord a b) = - Z.sgn (ord b a).
Hypothesis ord_trans : forall a b c, ok a -> ok b -> ok c -> ord a b < 0 -> ord b c < 0 -> ord a c < 0.

Abbreviation sl := (SkipList Key).
Abbreviation entry := (nat * Key)%type.

Definition height_of (s : sl) (x : nat) : nat :=
  match nodes s !! x with Some n => length (next_ n) | None => 0 end.

Definition tall (s : sl) (i : nat) (e : entry) : Prop := (i < height_of s e.1)%nat.

#[local] Instance tall_dec s i e : Decision (tall s i e).
Proof. unfold tall. apply _. Defined.

(** The links of level [i] from [x] on visit exactly [es]. *)
Fixpoint linked (s : sl) (i x : nat) (es : list entry) : Prop :=
  match es with
  | [] => Next s x i = Ret None
  | e :: es' => Next s x i = Ret (Some e.1) /\ linked s i e.1 es'
  end.

Definition lastid (x : nat) (es : list entry) : nat := default x (fst <$> last es).

Definition less (e1 e2 : entry) : Prop := ord e1.2 e2.2 < 0.
Definition below (key : Key) (e : entry) : Prop := ord e.2 key < 0.

#[local] Instance below_dec key e : Decision (below key e).
Proof. unfold below. apply _. Defined.

(** [s] is a well-formed skip list whose nodes, in order, are [l]. *)
Record sl_rep (s : sl) (l : list entry) : Prop := {
  rep_head : height_of s head_ = kMaxHeight;
  rep_links i : (i < kMaxHeight)%nat -> linked s i head_ (filter (tall s i) l);
  rep_entries : Forall (fun e => get_key s e.1 = Ret e.2 /\ ok e.2 /\
                                 (1 <= height_of s e.1 <= max_height_ s)%nat) l;
  rep_sorted : StronglySorted less l;
  rep_nodup : NoDup (head_ :: l.*1);
  rep_max : (1 <= max_height_ s <= kMaxHeight)%nat;
  rep_size : length (nodes s) = S (length l);
}.

Lemma lastid_app x p e : lastid x (p ++ [e]) = e.1.
Proof. unfold lastid. by rewrite last_snoc. Qed.

Lemma lastid_cons x e p : lastid x (e :: p) = lastid e.1 p.
Proof. unfold lastid. rewrite last_cons. by destruct (last p). Qed.

Lemma linked_suffix s i x p q : linked s i x (p ++ q) -> linked s i (lastid x p) q.
Proof.
  revert x. induction p as [|e p IH]; intros x; [done|]. cbn [app linked]. rewrite lastid_cons. intros [_ H]. auto.
Qed.

(** If the last node of [a] is tall (or [a] is empty) it is also the last tall one. *)
Lemma lastid_filter s i x a : (i < height_of s (lastid x a))%nat -> lastid x (filter (tall s i) a) = lastid x a.
Proof.
  destruct a as [|e a _] using rev_ind; [done|]. rewrite lastid_app, filter_app. intros H.
  rewrite (filter_cons_True _ e), filter_nil by exact H. by rewrite lastid_app.
Qed.

Lemma filter_first {A} (P : A -> Prop) `{!forall x, Decision (P x)} (b : list A) :
  (filter P b = [] /\ Forall (fun e => ~ P e) b) \/
  exists b1 y b2, b = b1 ++ y :: b2 /\ Forall (fun e => ~ P e) b1 /\ P y /\ filter P b = y :: filter P b2.
Proof.
  induction b as [|x b IH]; [by left|]. destruct (decide (P x)) as [Hx|Hx].
  - right. exists [], x, b. rewrite filter_cons_True by done. split_and!; try done.
  - rewrite filter_cons_False by done. destruct IH as [[H1 H2]|(b1 & y & b2 & -> & H1 & H2 & H3)].
    + left. split; [done|]. by constructor.
    + right. exists (x :: b1), y, b2. split_and!; try done. by constructor.
Qed.

Section Search.
Context (s : sl) (l : list entry) (Hrep : sl_rep s l).

Lemma rep_entry e : e ∈ l -> get_key s e.1 = Ret e.2 /\ ok e.2 /\ (1 <= height_of s e.1 <= max_height_ s)%nat.
Proof. revert e. apply Forall_forall. apply Hrep. Qed.

Lemma rep_split_sorted a y b : l = a ++ y :: b -> Forall (fun e => less e y) a /\ Forall (less y) b.
Proof.
  intros E. pose proof (rep_sorted _ _ Hrep) as Hs. rewrite E in Hs.
  split.
  - apply Forall_forall. intros e He. eapply StronglySorted_app_1_elem_of; [exact Hs|done|]. by left.
  - apply StronglySorted_app_1_r in Hs. by inversion Hs.
Qed.

(** The tall nodes after a tall node are what its links visit. *)
Lemma rep_chain i a b : l = a ++ b -> (i < kMaxHeight)%nat -> (i < height_of s (lastid head_ a))%nat ->
  linked s i (lastid head_ a) (filter (tall s i) b).
Proof.
  intros E Hi Ht. rewrite <- (lastid_filter s i head_ a) by done. apply linked_suffix.
  rewrite <- filter_app, <- E. by apply Hrep.
Qed.

Lemma key_after e key : e ∈ l -> ok key -> get_key s e.1 = Ret e.2 /\ compare_ e.2 key = Ret (ord e.2 key).
Proof. intros He Hk. destruct (rep_entry e He) as (? & ? & _). auto. Qed.

(** Nodes after one that is not below [key] are not below it either. *)
Lemma not_below_tail a y b key : l = a ++ y :: b -> ok key -> ~ below key y -> Forall (fun e => ~ below key e) b.
Proof.
  intros E Hk Hy. destruct (rep_split_sorted _ _ _ E) as [_ Hb]. apply Forall_forall. intros e He Hbe.
  eapply Forall_forall in Hb; [|exact He]. apply Hy. unfold below, less in *.
  assert (y ∈ l) by (subst; set_solver). assert (e ∈ l) by (subst; set_solver).
  eapply (ord_trans _ e.2); [apply rep_entry..|done|done|done]; done.
Qed.

Lemma below_prefix a y b key : l = a ++ y :: b -> ok key -> below key y -> Forall (below key) a.
Proof.
  intros E Hk Hy. destruct (rep_split_sorted _ _ _ E) as [Ha _]. apply Forall_forall. intros e He.
  eapply Forall_forall in Ha; [|exact He]. unfold below, less in *.
  assert (y ∈ l) by (subst; set_solver). assert (e ∈ l) by (subst; set_solver).
  eapply (ord_trans _ y.2); [apply rep_entry..|done|done|done]; done.
Qed.

(** [x] is the last node of height above [i] that is below [key]. *)
Definition is_prev (key : Key) (i x : nat) : Prop :=
  exists a b, l = a ++ b /\ x = lastid head_ a /\ (i < height_of s x)%nat /\ Forall (below key) a /\
    Forall (fun e => tall s i e -> ~ below key e) b.

(** What one round of a search finds at a level: either no taller node is below
    the key, or a step to one. *)
Lemma search_step a b key i :
  l = a ++ b -> ok key -> (i < kMaxHeight)%nat -> (i < height_of s (lastid head_ a))%nat -> Forall (below key) a ->
  exists next, Next s (lastid head_ a) i = Ret next /\
    ((Forall (fun e => tall s i e -> ~ below key e) b /\
      match next with None => Forall (fun e => ~ tall s i e) b
      | Some n => exists b1 e b2, b = b1 ++ e :: b2 /\ Forall (fun e => ~ tall s i e) b1 /\ n = e.1 /\ ~ below key e end) \/
     (exists b1 y b2, b = b1 ++ y :: b2 /\ next = Some y.1 /\ below key y /\
        Forall (below key) (a ++ b1 ++ [y]) /\ tall s i y)).
Proof.
  intros E Hk Hi Ht Ha. pose proof (rep_chain i a b E Hi Ht) as Hlink.
  destruct (filter_first (tall s i) b) as [[Hf Hn]|(b1 & y & b2 & -> & Hb1 & Hy & Hf)]; rewrite Hf in Hlink; cbn in Hlink.
  - exists None. split; [done|]. left. split; [|done]. eapply Forall_impl; [exact Hn|]. naive_solver.
  - exists (Some y.1). split; [apply Hlink|]. destruct (decide (below key y)) as [Hlt|Hge].
    + right. exists b1, y, b2. split_and!; try done.
      rewrite app_assoc. apply Forall_app. split; [|by constructor].
      eapply below_prefix; [|exact Hk|exact Hlt]. by rewrite E, <- app_assoc.
    + left. split; [|eauto 10]. apply Forall_app. split; [eapply Forall_impl; [exact Hb1|]; naive_solver|].
      constructor; [done|]. eapply Forall_impl; [eapply (not_below_tail (a ++ b1) y b2); [by rewrite <- app_assoc|done|done]|].
      naive_solver.
Qed.

(** [prev] after a search that started at [level]. *)
Definition prev_filled (key : Key) (level : nat) (prev prev' : option (list (option nat))) : Prop :=
  match prev, prev' with
  | None, None => True
  | Some p, Some p' =>
      length p' = length p /\ (forall i, (i <= level)%nat -> exists x, p' !! i = Some (Some x) /\ is_prev key i x) /\
      (forall i, (level < i)%nat -> p' !! i = p !! i)
  | _, _ => False
  end.

Lemma key_is_after e key : e ∈ l -> ok key -> KeyIsAfterNode compare_ s key (Some e.1) = Ret (bool_decide (below key e)).
Proof.
  intros He Hk. unfold KeyIsAfterNode. destruct (key_after e key He Hk) as [-> Hc]. run.
  rewrite Hc. run. f_equal. unfold below.
  destruct (Z.ltb_spec (ord e.2 key) 0); symmetry; [by apply bool_decide_eq_true|apply bool_decide_eq_false; lia].
Qed.

Lemma level0_tall e : e ∈ l -> tall s 0 e.
Proof. intros He. unfold tall. destruct (rep_entry e He) as (_ & _ & ?). lia. Qed.

(** At level 0 nothing is skipped. *)
Lemma level0_next a b next (P : entry -> Prop) : l = a ++ b ->
  match next with None => Forall (fun e => ~ tall s 0 e) b
  | Some n => exists b1 e b2, b = b1 ++ e :: b2 /\ Forall (fun e => ~ tall s 0 e) b1 /\ n = e.1 /\ P e end ->
  next = fst <$> head b.
Proof.
  intros E. destruct next as [n|].
  - intros (b1 & e & b2 & -> & Hb1 & -> & _). destruct b1 as [|e1 b1]; [done|].
    apply Forall_cons in Hb1 as [Hb1 _]. destruct Hb1. apply level0_tall. subst l. set_solver.
  - intros Hn. destruct b as [|e1 b]; [done|]. apply Forall_cons in Hn as [Hn _]. destruct Hn.
    apply level0_tall. subst l. set_solver.
Qed.

Lemma set_prev_filled key prev level x :
  (level < kMaxHeight)%nat -> (forall p, prev = Some p -> length p = kMaxHeight) -> is_prev key level x ->
  exists prev1, set_prev prev level x = Ret prev1 /\ (forall p, prev1 = Some p -> length p = kMaxHeight) /\
    match level with
    | O => prev_filled key 0 prev prev1
    | S level' => forall prev', prev_filled key level' prev1 prev' -> prev_filled key level prev prev'
    end.
Proof.
  intros Hl Hp Hx. destruct prev as [p|]; cbn [set_prev prev_filled].
  2:{ exists None. split; [done|]. split; [intros p; discriminate|]. destruct level; [done|]. by intros [p'|]. }
  specialize (Hp p eq_refl). rewrite Hp. replace (level <? kMaxHeight)%nat with true by (symmetry; by apply Nat.ltb_lt).
  exists (Some (<[level := Some x]> p)). split_and!; [done|intros ? [= <-]; by rewrite length_insert|].
  assert (<[level := Some x]> p !! level = Some (Some x)) as Heq by (apply list_lookup_insert_eq; lia).
  destruct level as [|level].
  - split_and!; [by rewrite length_insert| |].
    + intros i Hi. assert (i = 0%nat) as -> by lia. eauto.
    + intros i Hi. apply list_lookup_insert_ne. lia.
  - intros [p'|]; cbn [prev_filled]; [|done]. rewrite length_insert. intros (L & P2 & N2). split_and!; [congruence| |].
    + intros i Hi. destruct (decide (i = S level)) as [->|Hne]; [|apply P2; lia]. exists x. by rewrite N2 by lia.
    + intros i Hi. rewrite N2, list_lookup_insert_ne by lia. done.
Qed.

Lemma fge_loop fuel key prev a b level :
  l = a ++ b -> ok key -> (level < kMaxHeight)%nat -> (level < height_of s (lastid head_ a))%nat ->
  Forall (below key) a -> (length b + level < fuel)%nat ->
  (forall p, prev = Some p -> length p = kMaxHeight) ->
  exists a' b' prev', FindGreaterOrEqual_loop compare_ fuel s key prev (lastid head_ a) level = Ret (fst <$> head b', prev') /\
    l = a' ++ b' /\ Forall (below key) a' /\ Forall (fun e => ~ below key e) b' /\ prev_filled key level prev prev'.
Proof.
  intros E Hk. revert prev a b level E.
  induction fuel as [|fuel IH]; intros prev a b level E Hl Ht Ha Hf Hp; [lia|]. cbn [FindGreaterOrEqual_loop].
  destruct (search_step a b key level E Hk Hl Ht Ha) as (next & -> & [[Hb Hn]|(b1 & y & b2 & -> & -> & Hy & Hay & Hty)]);
    run.
  - assert (KeyIsAfterNode compare_ s key next = Ret false) as ->.
    { destruct next as [n|]; [|done]. destruct Hn as (b1 & e & b2 & -> & _ & -> & Hne).
      rewrite key_is_after by (done || rewrite E; set_solver). by rewrite bool_decide_eq_false_2. }
    run.
    destruct (set_prev_filled key prev level (lastid head_ a) Hl Hp) as (prev1 & -> & Hp1 & Hfill);
      [exists a, b; split_and!; done|]. run.
    destruct level as [|level].
    + exists a, b, prev1. rewrite (level0_next a b next _ E Hn). split_and!; try done.
      apply Forall_forall. intros e He. eapply Forall_forall in Hb; [|exact He]. apply Hb, level0_tall. rewrite E. set_solver.
    + destruct (IH prev1 a b level E) as (a' & b' & prev' & E1 & E2 & Ha' & Hb' & Hpr); [lia|lia|done|lia|done|].
      exists a', b', prev'. split_and!; auto.
  - rewrite key_is_after by (done || rewrite E; set_solver). rewrite bool_decide_eq_true_2 by done. run.
    destruct (IH prev (a ++ b1 ++ [y]) b2 level) as (a' & b' & prev' & E1 & E2 & ? & ? & ?);
      rewrite ?(app_assoc a), ?lastid_app; try done.
    + rewrite E. by rewrite <- !app_assoc.
    + by rewrite <- app_assoc.
    + rewrite length_app in Hf. cbn in Hf. lia.
    + rewrite app_assoc, lastid_app in E1. eauto 10.
Qed.

Lemma search_start : (max_height_ s - 1 < kMaxHeight)%nat /\ (max_height_ s - 1 < height_of s (lastid head_ []))%nat /\
  (length l + (max_height_ s - 1) < search_fuel s)%nat.
Proof.
  pose proof (rep_max _ _ Hrep). pose proof (rep_size _ _ Hrep). unfold search_fuel.
  change (lastid head_ []) with head_. rewrite (rep_head _ _ Hrep). lia.
Qed.

(** [FindGreaterOrEqual] returns: it splits the list at [key]. *)
Lemma fge_spec key prev : ok key -> (forall p, prev = Some p -> length p = kMaxHeight) ->
  exists a b prev', FindGreaterOrEqual compare_ s key prev = Ret (fst <$> head b, prev') /\
    l = a ++ b /\ Forall (below key) a /\ Forall (fun e => ~ below key e) b /\
    prev_filled key (max_height_ s - 1) prev prev'.
Proof.
  intros Hk Hp. destruct search_start as (H1 & H2 & H3).
  apply (fge_loop (search_fuel s) key prev [] l (max_height_ s - 1)); try done.
Qed.

Lemma lastid_elem a : a <> [] -> exists e, e ∈ a /\ lastid head_ a = e.1.
Proof.
  destruct a as [|e a _] using rev_ind; [done|]. intros _. exists e. rewrite lastid_app. split; [set_solver|done].
Qed.

Lemma flt_assert a b key : l = a ++ b -> ok key -> Forall (below key) a ->
  (if (lastid head_ a =? head_)%nat then Ret tt
   else k ← get_key s (lastid head_ a); r ← compare_ k key; if r <? 0 then Ret tt else Exit 134) = Ret tt.
Proof.
  intros E Hk Ha. destruct (decide (a = [])) as [->|Hne]; [done|].
  destruct (lastid_elem a Hne) as (e & He & ->). case_match; [done|].
  destruct (key_after e key) as [-> Hc]; [rewrite E; set_solver|done|]. run. rewrite Hc.
  run. eapply Forall_forall in Ha; [|exact He]. unfold below in Ha.
  by replace (ord e.2 key <? 0) with true by lia.
Qed.

Lemma flt_loop fuel key a b level :
  l = a ++ b -> ok key -> (level < kMaxHeight)%nat -> (level < height_of s (lastid head_ a))%nat ->
  Forall (below key) a -> (length b + level < fuel)%nat ->
  exists a' b', FindLessThan_loop compare_ fuel s key (lastid head_ a) level = Ret (lastid head_ a') /\
    l = a' ++ b' /\ Forall (below key) a' /\ Forall (fun e => ~ below key e) b'.
Proof.
  intros E Hk. revert a b level E.
  induction fuel as [|fuel IH]; intros a b level E Hl Ht Ha Hf; [lia|]. cbn [FindLessThan_loop].
  rewrite (flt_assert a b key E Hk Ha). run.
  destruct (search_step a b key level E Hk Hl Ht Ha) as (next & -> & [[Hb Hn]|(b1 & y & b2 & -> & -> & Hy & Hay & Hty)]);
    run.
  - assert (match next with None => Ret true | Some n => k ← get_key s n; r ← compare_ k key; Ret (0 <=? r) end = Ret true) as ->.
    { destruct next as [n|]; [|done]. destruct Hn as (b1 & e & b2 & -> & _ & -> & Hne).
      destruct (key_after e key) as [-> Hc]; [rewrite E; set_solver|done|]. run. rewrite Hc.
      run. f_equal. unfold below in Hne. lia. }
    run. destruct level as [|level].
    + exists a, b. split_and!; try done.
      apply Forall_forall. intros e He. eapply Forall_forall in Hb; [|exact He]. apply Hb, level0_tall. rewrite E. set_solver.
    + apply (IH a b level E); [lia|lia|done|lia].
  - destruct (key_after y key) as [-> Hc]; [rewrite E; set_solver|done|]. run. rewrite Hc.
    run. unfold below in Hy. replace (0 <=? ord y.2 key) with false by lia.
    destruct (IH (a ++ b1 ++ [y]) b2 level) as (a' & b' & E1 & E2 & ? & ?);
      rewrite ?(app_assoc a), ?lastid_app; try done.
    + rewrite E. by rewrite <- !app_assoc.
    + by rewrite <- app_assoc.
    + rewrite length_app in Hf. cbn in Hf. lia.
    + rewrite app_assoc, lastid_app in E1. eauto 10.
Qed.

Lemma flt_spec key : ok key ->
  exists a b, FindLessThan compare_ s key = Ret (lastid head_ a) /\
    l = a ++ b /\ Forall (below key) a /\ Forall (fun e => ~ below key e) b.
Proof.
  intros Hk. destruct search_start as (H1 & H2 & H3).
  by apply (flt_loop (search_fuel s) key [] l (max_height_ s - 1)).
Qed.

Lemma find_last_loop fuel a b level :
  l = a ++ b -> (level < kMaxHeight)%nat -> (level < height_of s (lastid head_ a))%nat ->
  (length b + level < fuel)%nat -> FindLast_loop fuel s (lastid head_ a) level = Ret (lastid head_ l).
Proof.
  revert a b level. induction fuel as [|fuel IH]; intros a b level E Hl Ht Hf; [lia|]. cbn [FindLast_loop].
  pose proof (rep_chain level a b E Hl Ht) as Hlink.
  destruct (filter_first (tall s level) b) as [[Hfl Hn]|(b1 & y & b2 & -> & Hb1 & Hy & Hfl)]; rewrite Hfl in Hlink; cbn in Hlink.
  - rewrite Hlink. run. destruct level as [|level]; [|apply (IH a b level E); lia].
    destruct b as [|e b]; [by rewrite E, app_nil_r|]. apply Forall_cons in Hn as [Hn _]. destruct Hn.
    apply level0_tall. rewrite E. set_solver.
  - destruct Hlink as [-> _]. run.
    specialize (IH (a ++ b1 ++ [y]) b2 level). rewrite (app_assoc a), lastid_app in IH. apply IH.
    + rewrite E. by rewrite <- !app_assoc.
    + done.
    + done.
    + rewrite length_app in Hf. cbn in Hf. lia.
Qed.

Lemma find_last_spec : FindLast s = Ret (lastid head_ l).
Proof.
  destruct search_start as (H1 & H2 & H3). by apply (find_last_loop (search_fuel s) [] l (max_height_ s - 1)).
Qed.
End Search.

(** ** Links under stores and allocation *)

(** [s'] has the nodes of [s] with the same keys and heights. *)
Definition same_shape (s s' : sl) : Prop :=
  (forall x, height_of s' x = height_of s x) /\ (forall x, get_key s' x = get_key s x) /\
  max_height_ s' = max_height_ s /\ length (nodes s') = length (nodes s).

Lemma same_shape_trans s1 s2 s3 : same_shape s1 s2 -> same_shape s2 s3 -> same_shape s1 s3.
Proof.
  intros (H1 & K1 & M1 & L1) (H2 & K2 & M2 & L2). split_and!; [| |congruence|congruence].
  - intros x. by rewrite H2, H1.
  - intros x. by rewrite K2, K1.
Qed.

Lemma same_shape_filter s s' i (l : list entry) : (forall x, height_of s' x = height_of s x) ->
  filter (tall s' i) l = filter (tall s i) l.
Proof. intros H. apply list_filter_iff. intros e. unfold tall. by rewrite H. Qed.

Lemma node_set_next (s : sl) x n p : (n < height_of s x)%nat ->
  exists s', SetNext s x n p = Ret s' /\ same_shape s s' /\ Next s' x n = Ret p /\
    (forall y m, (y, m) <> (x, n) -> Next s' y m = Next s y m).
Proof.
  unfold height_of, SetNext. destruct (nodes s !! x) as [nd|] eqn:Hx; [|lia]. intros Hn.
  replace (n <? length (next_ nd))%nat with true by (symmetry; by apply Nat.ltb_lt).
  pose proof (lookup_lt_Some _ _ _ Hx) as Hlt. eexists. split; [done|]. split; [|split].
  - unfold same_shape, height_of, get_key. cbn. rewrite length_insert. split_and!; [| |done|done].
    + intros y. destruct (decide (y = x)) as [->|Hy]; [|by rewrite list_lookup_insert_ne].
      rewrite list_lookup_insert_eq, Hx by done. apply length_insert.
    + intros y. destruct (decide (y = x)) as [->|Hy]; [|by rewrite list_lookup_insert_ne].
      by rewrite list_lookup_insert_eq, Hx by done.
  - unfold Next. cbn. rewrite list_lookup_insert_eq by done. cbn. by rewrite list_lookup_insert_eq.
  - intros y m Hne. unfold Next. cbn. destruct (decide (y = x)) as [->|Hy]; [|by rewrite list_lookup_insert_ne].
    rewrite list_lookup_insert_eq, Hx by done. cbn. rewrite list_lookup_insert_ne; [done|]. intros ->. by destruct Hne.
Qed.

Lemma linked_ext s s' i x es : (forall y, y ∈ x :: es.*1 -> Next s' y i = Next s y i) ->
  linked s i x es -> linked s' i x es.
Proof.
  revert x. induction es as [|e es IH]; intros x H; cbn.
  - intros E. rewrite <- E. apply H. by left.
  - intros [E Hl]. split; [rewrite <- E; apply H; by left|]. apply IH; [|done]. intros y Hy. apply H. by right.
Qed.

Lemma lastid_in x p : lastid x p ∈ x :: p.*1.
Proof.
  destruct p as [|e p _] using rev_ind; [by left|]. rewrite lastid_app, fmap_app. right. apply elem_of_app. right. by left.
Qed.

(** Splicing node [n] after the last of [p]. *)
Lemma linked_splice s s' i x p (e : entry) q :
  NoDup (x :: (p ++ q).*1) -> e.1 ∉ x :: (p ++ q).*1 -> linked s i x (p ++ q) ->
  (forall y, y <> lastid x p -> y <> e.1 -> Next s' y i = Next s y i) ->
  Next s' (lastid x p) i = Ret (Some e.1) -> Next s' e.1 i = Next s (lastid x p) i ->
  linked s' i x (p ++ e :: q).
Proof.
  revert x. induction p as [|e1 p IH]; intros x Hnd Hni Hl Hfr Hlast He.
  - cbn in *. split; [done|]. apply NoDup_cons in Hnd as [Hx Hnd]. unfold lastid in *. cbn in *.
    assert (forall y, y ∈ q.*1 -> Next s' y i = Next s y i) as Hq.
    { intros y Hy. apply Hfr; intros ->; [done|]. apply Hni. by right. }
    destruct q as [|e2 q]; cbn in *; [by rewrite He|]. destruct Hl as [H1 H2]. split; [by rewrite He|].
    by apply (linked_ext s).
  - cbn [app linked] in Hl |- *. destruct Hl as [H1 H2]. rewrite lastid_cons in *.
    apply NoDup_cons in Hnd as [Hx Hnd]. split.
    + rewrite <- H1. apply Hfr.
      * intros ->. apply Hx. rewrite fmap_app. apply elem_of_app. left. exact (lastid_in e1.1 p).
      * intros ->. apply Hni. by left.
    + apply IH; try done. intros Hin. apply Hni. by right.
Qed.

Lemma link_level_spec s prev n key i p q :
  NoDup (head_ :: (p ++ q).*1) -> n ∉ head_ :: (p ++ q).*1 -> linked s i head_ (p ++ q) ->
  prev !! i = Some (Some (lastid head_ p)) -> (i < height_of s n)%nat -> (i < height_of s (lastid head_ p))%nat ->
  exists s', link_level prev n i s = Ret s' /\ same_shape s s' /\ linked s' i head_ (p ++ (n, key) :: q) /\
    (forall y j, j <> i -> Next s' y j = Next s y j).
Proof.
  intros Hnd Hni Hl Hp Hn Hx. unfold link_level. rewrite Hp.
  assert (exists v, Next s (lastid head_ p) i = Ret v) as [v Hv].
  { apply linked_suffix in Hl. destruct q; cbn in Hl; [eauto|]. destruct Hl; eauto. }
  rewrite Hv. run.
  destruct (node_set_next s n i v Hn) as (s1 & -> & Sh1 & N1 & F1). run.
  destruct (node_set_next s1 (lastid head_ p) i (Some n)) as (s2 & E2 & Sh2 & N2 & F2); [by rewrite (proj1 Sh1)|].
  assert (n <> lastid head_ p) as Hne.
  { intros ->. apply Hni. rewrite fmap_app. pose proof (lastid_in head_ p) as Hin.
    apply elem_of_cons in Hin as [->|Hin]; [by left|]. right. apply elem_of_app. by left. }
  exists s2. split_and!; [done|by eapply same_shape_trans| |].
  - apply (linked_splice s); try done.
    + intros y Hy1 Hy2. rewrite F2, F1 by naive_solver. done.
    + cbn. rewrite F2 by naive_solver. by rewrite N1, Hv.
  - intros y j Hj. rewrite F2, F1 by naive_solver. done.
Qed.

Lemma filter_nodup (P : entry -> Prop) `{!forall e, Decision (P e)} x l :
  NoDup (x :: l.*1) -> NoDup (x :: (filter P l).*1).
Proof.
  assert (forall y, y ∈ (filter P l).*1 -> y ∈ l.*1) as Hsub.
  { intros y (e & -> & He)%list_elem_of_fmap. apply list_elem_of_filter in He as [_ He]. by apply list_elem_of_fmap_2. }
  intros [Hx Hnd]%NoDup_cons. constructor; [by intros ?%Hsub|]. clear Hx Hsub.
  induction l as [|e l IH]; [constructor|]. apply NoDup_cons in Hnd as [He Hnd].
  destruct (decide (P e)); [rewrite filter_cons_True by done|rewrite filter_cons_False by done; auto].
  cbn. constructor; [|auto]. intros (e' & E & H')%list_elem_of_fmap. apply list_elem_of_filter in H' as [_ H'].
  apply He. rewrite E. by apply list_elem_of_fmap_2.
Qed.

Lemma new_node_spec (s : sl) key h s1 n : NewNode s (Some key) h = (n, s1) ->
  n = length (nodes s) /\ height_of s1 n = h /\ get_key s1 n = Ret key /\ max_height_ s1 = max_height_ s /\
  length (nodes s1) = S (length (nodes s)) /\
  (forall x, (x < n)%nat -> height_of s1 x = height_of s x /\ get_key s1 x = get_key s x /\ forall i, Next s1 x i = Next s x i).
Proof.
  intros [= <- <-]. unfold height_of, get_key, Next. cbn. rewrite list_lookup_middle by done. cbn.
  rewrite length_replicate, length_app, Nat.add_1_r. split_and!; try done.
  intros x Hx. rewrite lookup_app_l by done. done.
Qed.

Lemma link_levels s1 prev n key A B h :
  (forall i, (i < h)%nat -> prev !! i = Some (Some (lastid head_ (filter (tall s1 i) A))) /\
                          (i < height_of s1 (lastid head_ (filter (tall s1 i) A)))%nat) ->
  h = height_of s1 n -> NoDup (head_ :: (A ++ B).*1) -> n ∉ head_ :: (A ++ B).*1 ->
  (forall i, (i < kMaxHeight)%nat -> linked s1 i head_ (filter (tall s1 i) (A ++ B))) ->
  (h <= kMaxHeight)%nat -> forall k, (k <= h)%nat ->
  exists st, foldM (link_level prev n) (seq 0 k) s1 = Ret st /\ same_shape s1 st /\
    (forall i, (i < k)%nat -> linked st i head_ (filter (tall s1 i) (A ++ (n, key) :: B))) /\
    (forall i, (k <= i < kMaxHeight)%nat -> linked st i head_ (filter (tall s1 i) (A ++ B))).
Proof.
  intros Hprev Hh Hnd Hni Hl Hmax. induction k as [|k IH]; intros Hk.
  { exists s1. split_and!; [done|by split_and!|lia|]. intros i Hi. apply Hl. lia. }
  destruct IH as (st & E & Hsh & Hdone & Htodo); [lia|].
  rewrite seq_S, foldM_app, E. cbn [mbind outcome_bind foldM Nat.add].
  destruct (Hprev k ltac:(lia)) as [Hp Ht]. specialize (Htodo k ltac:(lia)) as Hk'. rewrite filter_app in Hk'.
  pose proof (proj1 Hsh) as Hhgt.
  assert (NoDup (head_ :: (filter (tall s1 k) A ++ filter (tall s1 k) B).*1)) as Hnd'
    by (rewrite <- filter_app; by apply filter_nodup).
  assert (n ∉ head_ :: (filter (tall s1 k) A ++ filter (tall s1 k) B).*1) as Hni'.
  { rewrite <- filter_app. intros [->|Hin]%elem_of_cons; [apply Hni; by left|].
    apply list_elem_of_fmap in Hin as (e & -> & [_ He]%list_elem_of_filter).
    apply Hni. right. by apply list_elem_of_fmap_2. }
  destruct (link_level_spec st prev n key k _ _ Hnd' Hni' Hk' Hp) as (st' & -> & Hsh' & Hlk & Hfr);
    [rewrite Hhgt; lia|by rewrite Hhgt|].
  run. exists st'. split_and!; [done|by eapply same_shape_trans| |].
  - intros i Hi. destruct (decide (i = k)) as [->|Hne].
    + rewrite filter_app, (filter_cons_True _ (n, key)); [exact Hlk|]. unfold tall. cbn. lia.
    + apply (linked_ext st); [|apply Hdone; lia]. intros y _. by apply Hfr.
  - intros i Hi. apply (linked_ext st); [|apply Htodo; lia]. intros y _. apply Hfr. lia.
Qed.

(** ** Insertion *)

Lemma split_at_key key (A B a b : list entry) :
  A ++ B = a ++ b -> Forall (fun e => ~ below key e) B -> Forall (below key) a ->
  exists m, A = a ++ m /\ b = m ++ B.
Proof.
  intros E HB Ha. destruct (app_eq_inv _ _ _ _ E) as [(m & -> & ->)|(m & -> & ->)]; [eauto|].
  destruct m as [|e m]; [exists []; by rewrite !app_nil_r|].
  apply Forall_app in Ha as [_ Ha]. apply Forall_cons in Ha as [Ha _]. by apply Forall_cons in HB as [HB _].
Qed.

Lemma is_prev_chain s l A B key i x :
  l = A ++ B -> Forall (below key) A -> Forall (fun e => ~ below key e) B -> is_prev s l key i x ->
  x = lastid head_ (filter (tall s i) A) /\ (i < height_of s x)%nat.
Proof.
  intros E HA HB (a & b & E' & -> & Hx & Ha & Hb). split; [|done].
  destruct (split_at_key key A B a b) as (m & -> & ->); [congruence|done|done|].
  rewrite filter_app. replace (filter (tall s i) m) with (@nil entry); [by rewrite app_nil_r, lastid_filter|].
  symmetry. apply Forall_app in HA as [_ Hm]. apply Forall_app in Hb as [Hb _].
  clear -Hm Hb. induction m as [|e m IH]; [done|]. apply Forall_cons in Hm as [H1 H2]. apply Forall_cons in Hb as [H3 H4].
  rewrite filter_cons_False by naive_solver. auto.
Qed.

(** Above the current height the head is the only node. *)
Lemma is_prev_head s l key i : sl_rep s l -> (max_height_ s <= i < kMaxHeight)%nat -> is_prev s l key i head_.
Proof.
  intros Hrep Hi. exists [], l. split_and!; try done.
  - rewrite (rep_head _ _ Hrep). lia.
  - apply Forall_forall. intros e He Ht. destruct (rep_entry _ _ Hrep e He) as (_ & _ & Hh). unfold tall in Ht. lia.
Qed.

Lemma random_height_loop rounds h rnd : (1 <= h)%nat ->
  (h <= fst (RandomHeight_loop rounds h rnd) <= h + rounds)%nat.
Proof.
  revert h rnd. induction rounds as [|r IH]; intros h rnd Hh; cbn; [lia|].
  case_match; [|cbn; lia]. specialize (IH (S h) (Random.Next rnd)). lia.
Qed.

Lemma random_height_spec (s : sl) : exists h s', RandomHeight s = Ret (h, s') /\ (1 <= h <= kMaxHeight)%nat /\
  nodes s' = nodes s /\ max_height_ s' = max_height_ s.
Proof.
  unfold RandomHeight. pose proof (random_height_loop (kMaxHeight - 1) 1 (rnd_ s) ltac:(lia)) as H.
  destruct (RandomHeight_loop _ _ _) as [h rnd]. cbn [fst] in H. change (1 + (kMaxHeight - 1))%nat with kMaxHeight in H.
  replace (0 <? h)%nat with true by (symmetry; apply Nat.ltb_lt; lia).
  replace (h <=? kMaxHeight)%nat with true by (symmetry; apply Nat.leb_le; lia). cbn [andb]. eauto 10.
Qed.

Lemma fill_head (prev : list (option nat)) from n i :
  (from + n <= length prev)%nat ->
  foldl (fun prev i => <[i := Some head_]> prev) prev (seq from n) !! i =
    if decide (from <= i < from + n)%nat then Some (Some head_) else prev !! i.
Proof.
  revert prev from. induction n as [|n IH]; intros prev from Hl; cbn [seq foldl].
  { by rewrite decide_False by lia. }
  rewrite IH by len.
  destruct (decide (i = from)) as [->|Hne].
  - rewrite decide_False, list_lookup_insert_eq, decide_True by lia. done.
  - rewrite list_lookup_insert_ne by done. destruct (decide (S from <= i < S from + n)%nat).
    + by rewrite decide_True by lia.
    + by rewrite decide_False by lia.
Qed.

Lemma rep_bound s l x : sl_rep s l -> x ∈ head_ :: l.*1 -> (x < length (nodes s))%nat.
Proof.
  intros Hrep [->|(e & -> & He)%list_elem_of_fmap]%elem_of_cons.
  - rewrite (rep_size _ _ Hrep). unfold head_. lia.
  - destruct (rep_entry _ _ Hrep e He) as (Hk & _ & _). unfold get_key in Hk.
    destruct (nodes s !! e.1) eqn:E; [by apply lookup_lt_Some in E|done].
Qed.

Lemma filter_tall_in s s' i (l : list entry) :
  (forall e, e ∈ l -> height_of s' e.1 = height_of s e.1) -> filter (tall s' i) l = filter (tall s i) l.
Proof.
  induction l as [|e l IH]; intros H; [done|].
  assert (tall s' i e <-> tall s i e) as He by (unfold tall; rewrite H by (by left); done).
  assert (filter (tall s' i) l = filter (tall s i) l) as IH' by (apply IH; intros; apply H; by right).
  destruct (decide (tall s i e)).
  - rewrite !filter_cons_True by tauto. by rewrite IH'.
  - rewrite !filter_cons_False by tauto. done.
Qed.

(** Linking a new node at every level of its height. *)
Lemma insert_links s s0 l A B key h prev s1 n :
  sl_rep s l -> l = A ++ B -> Forall (below key) A -> Forall (fun e => ~ below key e) B ->
  nodes s0 = nodes s -> (1 <= h <= kMaxHeight)%nat -> NewNode s0 (Some key) h = (n, s1) ->
  (forall i, (i < h)%nat -> exists x, prev !! i = Some (Some x) /\ is_prev s l key i x) ->
  n ∉ head_ :: l.*1 /\
  exists st, foldM (link_level prev n) (seq 0 h) s1 = Ret st /\ same_shape s1 st /\
    forall i, (i < kMaxHeight)%nat -> linked st i head_ (filter (tall st i) (A ++ (n, key) :: B)).
Proof.
  intros Hrep El HA HB Hn0 Hh Hnew Hprev.
  destruct (new_node_spec _ _ _ _ _ Hnew) as (Hn & Hhn & Hkn & Hmx & Hlen & Hold). rewrite Hn0 in Hn.
  assert (forall x, x ∈ head_ :: l.*1 -> (x < n)%nat) as Hbnd by (intros x Hx; rewrite Hn; by eapply rep_bound).
  assert (n ∉ head_ :: l.*1) as Hni by (intros Hx%Hbnd; lia). split; [done|].
  assert (forall x, x ∈ head_ :: l.*1 -> height_of s1 x = height_of s x /\ forall i, Next s1 x i = Next s x i) as Hs1.
  { intros x Hx. destruct (Hold x (Hbnd x Hx)) as (-> & _ & Hnx). unfold height_of, Next in *. rewrite Hn0 in *. auto. }
  assert (forall i (l' : list entry), (forall e, e ∈ l' -> e ∈ l) -> filter (tall s1 i) l' = filter (tall s i) l') as Hfil.
  { intros i l' Hl'. apply filter_tall_in. intros e He. apply Hs1. right. by apply list_elem_of_fmap_2, Hl'. }
  assert (forall e, e ∈ A -> e ∈ l) as HAl by (rewrite El; set_solver).
  pose proof (rep_nodup _ _ Hrep) as Hnd. rewrite El in Hnd, Hni.
  destruct (link_levels s1 prev n key A B h) with (k := h) as (st & E & Hsh & Hdone & Htodo); try done; try lia.
  - intros i Hi. destruct (Hprev i Hi) as (x & -> & Hx).
    destruct (is_prev_chain s l A B key i x El HA HB Hx) as [E Ht]. rewrite Hfil, <- E by done. split; [done|].
    destruct (Hs1 x) as [-> _]; [|done]. rewrite E. pose proof (lastid_in head_ (filter (tall s i) A)) as Hin.
    apply elem_of_cons in Hin as [->|Hin]; [by left|right].
    apply list_elem_of_fmap in Hin as (e & -> & [_ He]%list_elem_of_filter). by apply list_elem_of_fmap_2, HAl.
  - intros i Hi. rewrite <- El, Hfil by done. apply (linked_ext s); [|by apply Hrep].
    intros y Hy. apply Hs1. apply elem_of_cons in Hy as [->|Hy]; [by left|right].
    apply list_elem_of_fmap in Hy as (e & -> & [_ He]%list_elem_of_filter). by apply list_elem_of_fmap_2.
  - exists st. split_and!; [done|done|]. intros i Hi. rewrite (same_shape_filter s1 st) by apply Hsh.
    destruct (decide (i < h)%nat); [by apply Hdone|].
    rewrite filter_app, (filter_cons_False _ (n, key)) by (unfold tall; cbn; lia). rewrite <- filter_app. apply Htodo. lia.
Qed.

(** Every node right of the insertion point is above [key]. *)
Lemma above_key s l A B key : sl_rep s l -> l = A ++ B -> ok key -> Forall (fun e => ~ below key e) B ->
  (forall e, e ∈ l -> ord key e.2 <> 0) -> Forall (fun e => ord key e.2 < 0) B.
Proof.
  intros Hrep El Hk HB Hne. apply Forall_forall. intros e He.
  eapply Forall_forall in HB; [|exact He]. assert (e ∈ l) as Hel by (rewrite El; set_solver).
  specialize (Hne e Hel). pose proof (ord_antisym key e.2 Hk (proj1 (proj2 (rep_entry _ _ Hrep e Hel)))).
  unfold below in HB. lia.
Qed.

(** The new list is well formed again. *)
Lemma insert_rep s s2 s1 st l A B key h n :
  sl_rep s l -> l = A ++ B -> ok key -> Forall (below key) A -> Forall (fun e => ord key e.2 < 0) B ->
  nodes s2 = nodes s -> (max_height_ s <= max_height_ s2 <= kMaxHeight)%nat -> (1 <= h <= max_height_ s2)%nat ->
  NewNode s2 (Some key) h = (n, s1) -> same_shape s1 st -> n ∉ head_ :: l.*1 ->
  (forall i, (i < kMaxHeight)%nat -> linked st i head_ (filter (tall st i) (A ++ (n, key) :: B))) ->
  sl_rep st (A ++ (n, key) :: B).
Proof.
  intros Hrep El Hk HA HB Hn2 Hm Hh Hnew (Sh & Sk & Sm & Sl) Hni Hlinks.
  destruct (new_node_spec _ _ _ _ _ Hnew) as (Hn & Hhn & Hkn & Hmx & Hlen & Hold). rewrite Hn2 in Hn.
  pose proof (rep_max _ _ Hrep) as Hmax.
  assert (forall x, x ∈ head_ :: l.*1 -> height_of st x = height_of s x /\ get_key st x = get_key s x) as Hs1.
  { intros x Hx. destruct (Hold x) as (E1 & E2 & _); [rewrite Hn; by eapply rep_bound|].
    rewrite Sh, Sk, E1, E2. unfold height_of, get_key. by rewrite Hn2. }
  split.
  - destruct (Hs1 head_) as [-> _]; [by left|]. apply Hrep.
  - done.
  - assert (Forall (fun e => get_key st e.1 = Ret e.2 /\ ok e.2 /\ (1 <= height_of st e.1 <= max_height_ st)%nat) (A ++ B)) as Hall.
    { rewrite <- El. apply Forall_forall. intros e He. destruct (rep_entry _ _ Hrep e He) as (H1 & H2 & H3).
      destruct (Hs1 e.1) as [-> ->]; [right; by apply list_elem_of_fmap_2|]. split_and!; [done|done|lia|lia]. }
    apply Forall_app in Hall as [H1 H2]. apply Forall_app. split; [done|]. constructor; [|done]. cbn.
    rewrite Sk, Sh, Hkn, Hhn, Sm, Hmx. split_and!; [done|done|lia|lia].
  - pose proof (rep_sorted _ _ Hrep) as Hs. rewrite El in Hs. apply StronglySorted_app in Hs as (H1 & H2 & H3).
    apply StronglySorted_app. split_and!; [|done|by constructor].
    intros e1 e2 He1 [->|He2]%elem_of_cons; [|by apply H1]. by apply (proj1 (Forall_forall _ _) HA).
  - pose proof (rep_nodup _ _ Hrep) as Hnd. rewrite El in Hnd, Hni. rewrite fmap_app in *. cbn.
    assert (head_ :: A.*1 ++ n :: B.*1 ≡ₚ n :: head_ :: (A.*1 ++ B.*1)) as -> by (rewrite <- Permutation_middle; constructor).
    by constructor.
  - rewrite Sm, Hmx. lia.
  - rewrite Sl, Hlen, Hn2, (rep_size _ _ Hrep), El, !length_app. cbn. lia.
Qed.

Lemma insert_spec s l key : sl_rep s l -> ok key -> (forall e, e ∈ l -> ord key e.2 <> 0) ->
  exists s' n A B, Insert compare_ s key = Ret s' /\ l = A ++ B /\
    Forall (below key) A /\ Forall (fun e => ord key e.2 < 0) B /\ sl_rep s' (A ++ (n, key) :: B).
Proof.
  intros Hrep Hk Hne. unfold Insert.
  destruct (fge_spec s l Hrep key (Some (replicate kMaxHeight None)) Hk) as (A & B & prev & -> & El & HA & HB & Hpf);
    [intros p [= <-]; reflexivity|]. run.
  destruct prev as [prev|]; [|done]. destruct Hpf as (Hlen & Hpf & _). rewrite length_replicate in Hlen.
  pose proof (above_key s l A B key Hrep El Hk HB Hne) as HB'.
  assert (match (fst <$> head B) with None => Ret false | Some x => k ← get_key s x; Equal compare_ key k end = Ret false) as ->.
  { destruct B as [|e B]; [done|]. cbn. destruct (rep_entry _ _ Hrep e) as (-> & Hoe & _); [rewrite El; set_solver|].
    cbn. unfold Equal. rewrite compare_ord by done. cbn. apply Forall_cons in HB' as [He _].
    by replace (ord key e.2 =? 0) with false by lia. }
  run. destruct (random_height_spec s) as (h & s0 & -> & Hh & Hn0 & Hm0). cbn [mbind outcome_bind default].
  pose proof (rep_max _ _ Hrep) as Hmax.
  set (ps := if (max_height_ s0 <? h)%nat then _ else _).
  assert (exists prev' s2, ps = (prev', s2) /\ nodes s2 = nodes s /\ (max_height_ s <= max_height_ s2 <= kMaxHeight)%nat /\
    (h <= max_height_ s2)%nat /\
    forall i, (i < h)%nat -> exists x, prev' !! i = Some (Some x) /\ is_prev s l key i x) as (prev' & s2 & -> & Hn2 & Hm2 & Hhm & Hprev).
  { unfold ps. destruct (Nat.ltb_spec (max_height_ s0) h) as [Hlt|Hge]; do 2 eexists; (split; [done|]); cbn; (split; [done|]).
    - split; [lia|]. split; [lia|]. intros i Hi. rewrite Hm0, fill_head by lia.
      destruct (decide (max_height_ s <= i < max_height_ s + (h - max_height_ s))%nat).
      + exists head_. split; [done|]. apply is_prev_head; [done|lia].
      + apply Hpf. lia.
    - split; [lia|]. split; [lia|]. intros i Hi. apply Hpf. lia. }
  destruct (NewNode s2 (Some key) h) as [n s1] eqn:Hnew.
  destruct (insert_links s s2 l A B key h prev' s1 n) as (Hni & st & -> & Hsh & Hlinks); try done.
  exists st, n, A, B. split_and!; try done. eapply (insert_rep s s2 s1 st l); try done; lia.
Qed.

Lemma new_rep : exists s, @SkipList_new Key = Ret s /\ sl_rep s [].
Proof.
  eexists. split; [vm_compute; reflexivity|]. split; try done.
  - intros i Hi. do 12 (destruct i as [|i]; [reflexivity|]). unfold kMaxHeight in Hi. lia.
  - constructor.
  - constructor; [by intros ?%not_elem_of_nil|constructor].
  - cbn. unfold kMaxHeight. lia.
Qed.

(** ** Specifications on key lists *)

(** [s] holds exactly [keys], in increasing order. *)
Definition sl_keys (s : sl) (keys : list Key) : Prop := exists l, sl_rep s l /\ l.*2 = keys.

Lemma sl_keys_sorted s keys : sl_keys s keys -> StronglySorted (fun a b => ord a b < 0) keys /\ Forall ok keys.
Proof.
  intros (l & Hrep & <-). split.
  - pose proof (rep_sorted _ _ Hrep) as Hs. clear Hrep. induction Hs as [|e l' _ IH Hf]; [constructor|].
    cbn. constructor; [done|]. by apply Forall_fmap.
  - apply Forall_fmap. eapply Forall_impl; [apply (rep_entries _ _ Hrep)|]. naive_solver.
Qed.

Lemma insert_keys s keys key : sl_keys s keys -> ok key -> (forall k, k ∈ keys -> ord key k <> 0) ->
  exists s' A B, Insert compare_ s key = Ret s' /\ keys = A ++ B /\
    Forall (fun k => ord k key < 0) A /\ Forall (fun k => ord key k < 0) B /\ sl_keys s' (A ++ key :: B).
Proof.
  intros (l & Hrep & <-) Hk Hne.
  destruct (insert_spec s l key Hrep Hk) as (s' & n & A & B & E & -> & HA & HB & Hrep').
  { intros e He. apply Hne. by apply list_elem_of_fmap_2. }
  exists s', A.*2, B.*2. rewrite fmap_app. split_and!; [done|done|by apply Forall_fmap|by apply Forall_fmap|].
  exists (A ++ (n, key) :: B). split; [done|]. by rewrite fmap_app.
Qed.

(** Inserting a key equal to a stored one fails the assertion. *)
Lemma insert_dup s keys key k : sl_keys s keys -> ok key -> k ∈ keys -> ord key k = 0 ->
  (forall a b c, ok a -> ok b -> ok c -> ord a b = 0 -> ord b c < 0 -> ord a c < 0) ->
  Insert compare_ s key = Exit 134.
Proof.
  intros (l & Hrep & <-) Hk (e & -> & He)%list_elem_of_fmap Heq Hcong. unfold Insert.
  destruct (fge_spec s l Hrep key (Some (replicate kMaxHeight None)) Hk) as (A & B & prev & -> & El & HA & HB & _);
    [intros p [= <-]; reflexivity|]. run.
  pose proof (ord_antisym key e.2 Hk (proj1 (proj2 (rep_entry _ _ Hrep e He)))).
  assert (e ∈ B) as HeB.
  { rewrite El in He. apply elem_of_app in He as [He|He]; [|done].
    eapply Forall_forall in HA; [|exact He]. unfold below in HA. lia. }
  destruct B as [|e1 B]; [by apply not_elem_of_nil in HeB|]. cbn.
  destruct (rep_entry _ _ Hrep e1) as (-> & Hok1 & _); [rewrite El; set_solver|]. cbn.
  unfold Equal. rewrite compare_ord by done. cbn.
  assert (ord key e1.2 = 0) as ->; [|done].
  apply elem_of_cons in HeB as [<-|HeB]; [done|].
  destruct (rep_split_sorted _ _ Hrep A e1 B El) as [_ Hs]. eapply Forall_forall in Hs; [|exact HeB]. unfold less in Hs.
  apply Forall_cons in HB as [Hb1 _]. destruct Hb1. unfold below.
  destruct (rep_entry _ _ Hrep e) as (_ & Hoke & _); [done|].
  pose proof (ord_antisym e1.2 e.2 Hok1 Hoke). pose proof (ord_antisym e1.2 key Hok1 Hk).
  destruct (Z.lt_trichotomy (ord e1.2 key) 0) as [|[Hz|Hz]]; [done| |].
  - assert (ord key e.2 < 0); [|lia]. apply (Hcong _ e1.2); try done. lia.
  - assert (ord key e.2 < 0); [|lia]. apply (ord_trans _ e1.2); try done. lia.
Qed.

(** Reading a skip list from the first node to the last. *)
Fixpoint collect (fuel : nat) (s : sl) (node : option nat) : outcome (list Key) :=
  match fuel, node with
  | _, None => Ret []
  | O, Some _ => Undef
  | S fuel', Some _ =>
      k ← Iterator_key s node; node ← Iterator_Next s node; ks ← collect fuel' s node; Ret (k :: ks)
  end.

(** The links of the lowest level visit every entry. *)
Lemma next0 s l a b : sl_rep s l -> l = a ++ b -> Next s (lastid head_ a) 0 = Ret (fst <$> head b).
Proof.
  intros Hrep El. assert (0 < height_of s (lastid head_ a))%nat as Hh.
  { destruct a as [|e a _] using rev_ind; [cbn; rewrite (rep_head _ _ Hrep); unfold kMaxHeight; lia|]. rewrite lastid_app.
    apply (level0_tall s l Hrep). rewrite El. set_solver. }
  pose proof (rep_chain s l Hrep 0 a b El ltac:(unfold kMaxHeight; lia) Hh) as Hl. rewrite filter_all in Hl.
  - destruct b; [done|apply Hl].
  - intros e He. apply (level0_tall s l Hrep). rewrite El. set_solver.
Qed.

Lemma collect_linked s l a b : sl_rep s l -> l = a ++ b -> forall fuel, (length b <= fuel)%nat ->
  collect fuel s (fst <$> head b) = Ret b.*2.
Proof.
  intros Hrep. revert a. induction b as [|e b IH]; intros a El fuel Hf; [by destruct fuel|].
  cbn in Hf. destruct fuel as [|fuel]; [lia|]. cbn.
  destruct (rep_entry _ _ Hrep e) as (-> & _ & _); [rewrite El; set_solver|]. cbn.
  pose proof (next0 s l (a ++ [e]) b Hrep ltac:(by rewrite El, <- app_assoc)) as Hn. rewrite lastid_app in Hn. rewrite Hn.
  cbn. rewrite (IH (a ++ [e])) by (lia || by rewrite El, <- app_assoc). done.
Qed.

Lemma collect_keys s keys : sl_keys s keys ->
  exists first, Iterator_SeekToFirst s = Ret first /\ collect (length keys) s first = Ret keys.
Proof.
  intros (l & Hrep & <-). exists (fst <$> head l). split.
  - pose proof (rep_links _ _ Hrep 0 ltac:(unfold kMaxHeight; lia)) as Hl.
    destruct l as [|e l]; [exact Hl|]. rewrite filter_cons_True in Hl by (apply (level0_tall s _ Hrep); by left). apply Hl.
  - rewrite length_fmap. by apply (collect_linked s l [] l).
Qed.

(** Distinct keys under the comparator. *)
Definition distinct (keys : list Key) : Prop :=
  NoDup keys /\ forall a b, a ∈ keys -> b ∈ keys -> a <> b -> ord a b <> 0.

#[local] Instance distinct_proper : Proper ((≡ₚ) ==> iff) distinct.
Proof.
  intros k1 k2 Hp. unfold distinct. rewrite Hp. split; intros [? H]; (split; [done|]); intros a b Ha Hb; apply H;
    by rewrite ?Hp || by rewrite <- ?Hp.
Qed.

Lemma build_keys s keys0 keys :
  sl_keys s keys0 -> Forall ok keys -> distinct (keys0 ++ keys) ->
  exists s' sorted, foldM (fun k s => Insert compare_ s k) keys s = Ret s' /\ sl_keys s' sorted /\ sorted ≡ₚ keys0 ++ keys.
Proof.
  revert s keys0. induction keys as [|k keys IH]; intros s keys0 Hs Hok Hd; cbn [foldM].
  { exists s, keys0. by rewrite app_nil_r. }
  apply Forall_cons in Hok as [Hk Hok].
  destruct (insert_keys s keys0 k Hs Hk) as (s1 & A & B & -> & -> & _ & _ & Hs1).
  { intros k' Hk'. destruct Hd as [(_ & Hnd & _)%NoDup_app Hd]. apply Hd; [set_solver|set_solver|].
    intros <-. apply (Hnd k Hk'). by left. }
  run.
  assert ((A ++ k :: B) ++ keys ≡ₚ (A ++ B) ++ k :: keys) as Hperm.
  { rewrite <- !app_assoc. apply Permutation_app_head. cbn. by rewrite <- Permutation_middle. }
  destruct (IH s1 (A ++ k :: B)) as (s' & sorted & E & Hs' & Hp); [done|done|by rewrite Hperm|].
  exists s', sorted. split_and!; [done|done|]. by rewrite Hp.
Qed.

(** C28: a skip list is a sorted set.  For any comparator that is a total order on
    the keys inserted, inserting distinct keys in any order into a new list never
    fails an assertion, never follows an uninitialised or dangling link and
    terminates; reading the result from [SeekToFirst] with [Next] yields exactly
    those keys in increasing order, whatever heights the generator drew. *)
Theorem skiplist_sorted keys :
  Forall ok keys -> distinct keys ->
  exists s0 s sorted first,
    SkipList_new = Ret s0 /\ foldM (fun k s => Insert compare_ s k) keys s0 = Ret s /\
    Iterator_SeekToFirst s = Ret first /\ collect (length keys) s first = Ret sorted /\
    sorted ≡ₚ keys /\ StronglySorted (fun a b => ord a b < 0) sorted.
Proof.
  intros Hok Hd. destruct new_rep as (s0 & E0 & Hrep0).
  destruct (build_keys s0 [] keys) as (s & sorted & E & Hs & Hp); [by exists []|done|done|]. cbn in Hp.
  destruct (collect_keys s sorted Hs) as (first & Ef & Ec). rewrite (Permutation_length Hp) in Ec.
  exists s0, s, sorted, first. split_and!; try done. by destruct (sl_keys_sorted s sorted Hs).
Qed.

(** [node_ == head_ ? NULL : node_] for the last node of [A]. *)
Lemma last_node_key s l A B : sl_rep s l -> l = A ++ B ->
  let p := if (lastid head_ A =? head_)%nat then None else Some (lastid head_ A) in
  match last A.*2 with None => p = None | Some k => Iterator_key s p = Ret k end.
Proof.
  intros Hrep El. destruct A as [|e A _] using rev_ind; [done|]. rewrite lastid_app, fmap_app.
  change [e].*2 with [e.2]. rewrite last_snoc. cbn.
  assert (e ∈ l) as He by (rewrite El; set_solver). pose proof (rep_nodup _ _ Hrep) as [Hh _]%NoDup_cons.
  replace (e.1 =? head_)%nat with false; [by apply (rep_entry _ _ Hrep)|].
  symmetry. apply Nat.eqb_neq. intros E. apply Hh. rewrite <- E. by apply list_elem_of_fmap_2.
Qed.

Lemma prev_spec s l A e B : sl_rep s l -> l = A ++ e :: B ->
  Iterator_Prev compare_ s (Some e.1) = Ret (if (lastid head_ A =? head_)%nat then None else Some (lastid head_ A)).
Proof.
  intros Hrep El. assert (e ∈ l) as He by (rewrite El; set_solver).
  destruct (rep_entry _ _ Hrep e He) as (Hk & Hok & _). unfold Iterator_Prev. rewrite Hk. run.
  destruct (flt_spec s l Hrep e.2 Hok) as (a & b & -> & El' & Ha & Hb). run.
  destruct (rep_split_sorted s l Hrep A e B El) as [HA HB].
  assert (Forall (fun e' => ~ below e.2 e') (e :: B)) as HeB.
  { pose proof (ord_antisym e.2 e.2 Hok Hok). constructor; [unfold below; lia|].
    apply Forall_forall. intros e' He'. eapply Forall_forall in HB; [|exact He']. unfold below, less in *.
    pose proof (ord_antisym e.2 e'.2 Hok (proj1 (proj2 (rep_entry _ _ Hrep e' ltac:(rewrite El; set_solver))))). lia. }
  destruct (split_at_key e.2 A (e :: B) a b) as (m & -> & ->); [congruence|done|done|].
  destruct m as [|e' m]; [by rewrite app_nil_r|]. exfalso.
  apply Forall_app in HA as [_ HA]. apply Forall_cons in HA as [HA _]. by apply Forall_cons in Hb as [Hb _].
Qed.

(** The searches of a skip list.  On a list that holds [keys], [Seek] stops at
    the first key that is not below the target (NULL if there is none), [Contains]
    answers whether some key compares equal, [Prev] moves to the last key below the
    current one and [SeekToLast] to the greatest key; all of them return. *)
Theorem skiplist_searches s keys target :
  sl_keys s keys -> ok target ->
  exists A B node, keys = A ++ B /\ Forall (fun k => ord k target < 0) A /\ Forall (fun k => ~ ord k target < 0) B /\
    Iterator_Seek compare_ s target = Ret node /\
    match B with
    | [] => node = None
    | k :: _ => Iterator_key s node = Ret k /\
        exists p, Iterator_Prev compare_ s node = Ret p /\
          match last A with None => p = None | Some k' => Iterator_key s p = Ret k' end
    end /\
    Contains compare_ s target = Ret (match B with k :: _ => ord target k =? 0 | [] => false end) /\
    exists e, Iterator_SeekToLast s = Ret e /\
      match last keys with None => e = None | Some k => Iterator_key s e = Ret k end.
Proof.
  intros (l & Hrep & <-) Hk.
  destruct (fge_spec s l Hrep target None Hk) as (A & B & prev & E & El & HA & HB & _); [by intros p [=]|].
  exists A.*2, B.*2, (fst <$> head B). split_and!.
  - by rewrite El, fmap_app.
  - by apply Forall_fmap.
  - by apply Forall_fmap.
  - unfold Iterator_Seek. by rewrite E.
  - destruct B as [|e B]; [done|]. cbn [fmap list_fmap head option_fmap option_map].
    split; [by apply (rep_entry _ _ Hrep); rewrite El; set_solver|].
    eexists. split; [by eapply prev_spec|]. by apply (last_node_key s l A (e :: B)).
  - unfold Contains. rewrite E. run. destruct B as [|e B]; [done|]. cbn.
    destruct (rep_entry _ _ Hrep e) as (-> & Hok & _); [rewrite El; set_solver|]. cbn. unfold Equal.
    by rewrite compare_ord by done.
  - eexists. split; [unfold Iterator_SeekToLast; by rewrite (find_last_spec s l Hrep)|].
    apply (last_node_key s l l []); [done|]. by rewrite app_nil_r.
Qed.
End Representation.

(** Witnesses: a skip list of integers. *)
Definition zcompare (a b : Z) : outcome Z := Ret (a - b).

Lemma skiplist_sorted_witness :
  exists s0 s, @SkipList_new Z = Ret s0 /\ foldM (fun k s => Insert zcompare s k) [5; 2; 9; 7] s0 = Ret s /\
    exists first, Iterator_SeekToFirst s = Ret first /\ exists sorted, collect 4 s first = Ret sorted /\ sorted ≡ₚ [5; 2; 9; 7].
Proof.
  destruct (skiplist_sorted zcompare (fun _ => True) Z.sub ltac:(done) ltac:(intros; lia) ltac:(intros; lia) [5; 2; 9; 7])
    as (s0 & s & sorted & first & E0 & E1 & E2 & E3 & E4 & _).
  - repeat constructor.
  - split; [apply (bool_decide_unpack _); vm_compute; done|]. intros a b _ _ Hab. lia.
  - exists s0, s. split; [exact E0|]. split; [exact E1|]. exists first. split; [exact E2|]. by exists sorted.
Defined.

Lemma skiplist_searches_witness :
  exists s0 s A B node, @SkipList_new Z = Ret s0 /\ foldM (fun k s => Insert zcompare s k) [5; 2; 9; 7] s0 = Ret s /\
    Iterator_Seek zcompare s 6 = Ret node /\ [2; 5; 7; 9] = A ++ B /\ Forall (fun k => k - 6 < 0) A.
Proof.
  destruct (new_rep (fun _ : Z => True) Z.sub) as (s0 & E0 & R0).
  destruct (build_keys zcompare (fun _ => True) Z.sub ltac:(done) ltac:(intros; lia) ltac:(intros; lia) s0 [] [5; 2; 9; 7])
    as (s & sorted & E & Hs & Hp).
  - by exists [].
  - repeat constructor.
  - split; [apply (bool_decide_unpack _); vm_compute; done|]. intros a b _ _ Hab. lia.
  - assert (sorted = [2; 5; 7; 9]) as ->.
    { apply (StronglySorted_unique Z.le).
      - destruct (sl_keys_sorted (fun _ => True) Z.sub s sorted Hs) as [Hst _].
        clear -Hst. induction Hst as [|x l _ IH Hf]; constructor; [done|]. eapply Forall_impl; [exact Hf|]. cbn. lia.
      - repeat constructor; lia.
      - rewrite Hp. apply (bool_decide_unpack _). vm_compute. done. }
    destruct (skiplist_searches zcompare (fun _ => True) Z.sub ltac:(done) ltac:(intros; lia) ltac:(intros; lia)
      s [2; 5; 7; 9] 6 Hs I) as (A & B & node & E1 & HA & _ & E2 & _).
    exists s0, s, A, B, node. split; [exact E0|]. split; [exact E|]. split; [exact E2|]. split; [exact E1|exact HA].
Defined.

