(* ===== verification/WriteBatch.v ===== *)
(** * Write batches (util/leveldb/db/write_batch.cc)

    Every [Put] and [Delete] of the tools becomes a batch: a string with a
    sequence number, a count and one record per update.  [Iterate] replays the
    records to a handler; the handler's state is threaded through. *)

From S2P Require Import Prelude Slice Coding DbFormat FileNames Status.
From stdpp Require Import strings.
#[local] Open Scope Z_scope.

Definition kHeader : nat := 12.

(** [WriteBatch] is its string [rep_]. *)
Abbreviation WriteBatch := bytes.

Definition Clear : WriteBatch := str_resize kHeader [].

(** Overwrite bytes of a string from an index on. *)
Definition store_at (off : nat) (data rep : bytes) : outcome bytes :=
  if (off + length data <=? length rep)%nat
  then Ret (take off rep ++ data ++ drop (off + length data) rep) else Undef.

(** [int] addition; overflow is undefined. *)
Definition int_add (a b : Z) : outcome Z :=
  if (- 2 ^ 31 <=? a + b) && (a + b <? 2 ^ 31) then Ret (a + b) else Undef.

Definition Count (b : WriteBatch) : outcome Z := n ← DecodeFixed32 true (drop 8 b); Ret (i32 n).
Definition SetCount (b : WriteBatch) (n : Z) : outcome WriteBatch := store_at 8 (EncodeFixed32 true (u32 n)) b.
Definition Sequence (b : WriteBatch) : outcome Z := DecodeFixed64 true b.
Definition SetSequence (b : WriteBatch) (seq : Z) : outcome WriteBatch := store_at 0 (EncodeFixed64 true seq) b.

Definition Put (b : WriteBatch) (key value : bytes) : outcome WriteBatch :=
  n ← Count b; n ← int_add n 1; b ← SetCount b n;
  Ret (PutLengthPrefixedSlice (PutLengthPrefixedSlice (b ++ [to_byte kTypeValue]) key) value).

Definition Delete (b : WriteBatch) (key : bytes) : outcome WriteBatch :=
  n ← Count b; n ← int_add n 1; b ← SetCount b n;
  Ret (PutLengthPrefixedSlice (b ++ [to_byte kTypeDeletion]) key).

Definition Contents (b : WriteBatch) : bytes := b.
Definition ByteSize (b : WriteBatch) : Z := Z.of_nat (length b).
Definition SetContents (contents : bytes) : outcome WriteBatch :=
  if (kHeader <=? length contents)%nat then Ret contents else Exit 134.

Definition Append (dst src : WriteBatch) : outcome WriteBatch :=
  n ← Count dst; m ← Count src; c ← int_add n m; dst ← SetCount dst c;
  if (kHeader <=? length src)%nat then Ret (dst ++ drop kHeader src) else Exit 134.

Section Iterate.
Context {S : Type} (put : bytes -> bytes -> S -> outcome S) (delete : bytes -> S -> outcome S).

(** The loop over records; [Some status] is an early return. *)
Fixpoint Iterate_loop (fuel : nat) (input : bytes) (found : Z) (st : S) : outcome (option Status * Z * S) :=
  match input, fuel with
  | [], _ => Ret (None, found, st)
  | _ :: _, O => Undef
  | tag :: input, Datatypes.S fuel' =>
      let found := found + 1 in
      if sb tag =? kTypeValue then
        match GetLengthPrefixedSlice input with
        | Some (key, input1) =>
            match GetLengthPrefixedSlice input1 with
            | Some (value, input2) => st ← put key value st; Iterate_loop fuel' input2 found st
            | None => s ← Corruption (str "bad WriteBatch Put") []; Ret (Some s, found, st)
            end
        | None => s ← Corruption (str "bad WriteBatch Put") []; Ret (Some s, found, st)
        end
      else if sb tag =? kTypeDeletion then
        match GetLengthPrefixedSlice input with
        | Some (key, input1) => st ← delete key st; Iterate_loop fuel' input1 found st
        | None => s ← Corruption (str "bad WriteBatch Delete") []; Ret (Some s, found, st)
        end
      else s ← Corruption (str "unknown WriteBatch tag") []; Ret (Some s, found, st)
  end.

(** Every record takes at least one byte. *)
Definition Iterate (b : WriteBatch) (st : S) : outcome (Status * S) :=
  if (length b <? kHeader)%nat then
    s ← Corruption (str "malformed WriteBatch (too small)") []; Ret (s, st)
  else
    input ← remove_prefix kHeader b;
    '(early, found, st) ← Iterate_loop (length input) input 0 st;
    match early with
    | Some s => Ret (s, st)
    | None =>
        n ← Count b;
        if found =? n then Ret (OK, st)
        else s ← Corruption (str "WriteBatch has wrong count") []; Ret (s, st)
    end.
End Iterate.

(** ** Batches as lists of updates *)

Inductive update := UPut (key value : bytes) | UDelete (key : bytes).

Definition update_ok (u : update) : Prop :=
  match u with
  | UPut k v => Z.of_nat (length k) < 2 ^ 32 /\ Z.of_nat (length v) < 2 ^ 32
  | UDelete k => Z.of_nat (length k) < 2 ^ 32
  end.

Definition encode_update (u : update) : bytes :=
  match u with
  | UPut k v => [to_byte kTypeValue] ++ PutLengthPrefixedSlice [] k ++ PutLengthPrefixedSlice [] v
  | UDelete k => [to_byte kTypeDeletion] ++ PutLengthPrefixedSlice [] k
  end.

Definition batch (seq : Z) (us : list update) : bytes :=
  le_split 8 seq ++ le_split 4 (Z.of_nat (length us)) ++ concat (encode_update <$> us).

Definition apply_update (u : update) (b : WriteBatch) : outcome WriteBatch :=
  match u with UPut k v => Put b k v | UDelete k => Delete b k end.

(** Replaying an update to a handler. *)
Definition handle {S} (put : bytes -> bytes -> S -> outcome S) (delete : bytes -> S -> outcome S)
    (u : update) (st : S) : outcome S :=
  match u with UPut k v => put k v st | UDelete k => delete k st end.

Definition small (us : list update) : Prop := Z.of_nat (length us) < 2 ^ 31.

Lemma batch_new : Clear = batch 0 [].
Proof. reflexivity. Qed.

Lemma batch_drop seq us : drop kHeader (batch seq us) = concat (encode_update <$> us).
Proof.
  unfold batch. rewrite app_assoc. apply drop_app_length'. rewrite length_app, !le_split_length. done.
Qed.

Lemma batch_length seq us : length (batch seq us) = (kHeader + length (concat (encode_update <$> us)))%nat.
Proof. unfold batch. rewrite !length_app, !le_split_length. unfold kHeader. lia. Qed.

Lemma batch_count seq us : small us -> Count (batch seq us) = Ret (Z.of_nat (length us)).
Proof.
  intros Hs. unfold small in Hs. unfold Count, batch. rewrite drop_app_length' by (by rewrite le_split_length).
  unfold DecodeFixed32. rewrite length_app, le_split_length. cbn [Nat.add Nat.leb].
  rewrite (take_app_length' _ _ 4) by (by rewrite le_split_length). run.
  rewrite le32_roundtrip, i32_small by lia. done.
Qed.

Lemma batch_sequence seq us : 0 <= seq < 2 ^ 64 -> Sequence (batch seq us) = Ret seq.
Proof.
  intros Hs. unfold Sequence, batch, DecodeFixed64. rewrite length_app, le_split_length. cbn [Nat.add Nat.leb].
  rewrite (take_app_length' _ _ 8) by (by rewrite le_split_length). by rewrite le64_roundtrip.
Qed.

Lemma store_at_mid (a b c d : bytes) : length b = length d -> store_at (length a) d (a ++ b ++ c) = Ret (a ++ d ++ c).
Proof.
  intros Hl. unfold store_at. rewrite !length_app, <- Hl.
  replace (_ <=? _)%nat with true by (symmetry; apply Nat.leb_le; lia).
  rewrite take_app_length, (app_assoc a b c), drop_app_length' by (by rewrite length_app). done.
Qed.

Lemma batch_set_sequence seq seq' us : SetSequence (batch seq us) seq' = Ret (batch seq' us).
Proof. apply (store_at_mid []). change (EncodeFixed64 true seq') with (le_split 8 seq'). by rewrite !le_split_length. Qed.

Lemma batch_set_count seq c n rest : 0 <= n < 2 ^ 32 ->
  SetCount (le_split 8 seq ++ le_split 4 c ++ rest) n = Ret (le_split 8 seq ++ le_split 4 n ++ rest).
Proof.
  intros Hn. unfold SetCount. rewrite u32_small by done. rewrite <- (le_split_length 8 seq) at 1.
  apply store_at_mid. change (EncodeFixed32 true n) with (le_split 4 n). by rewrite !le_split_length.
Qed.

(** One more update at the end of a batch. *)
Lemma batch_apply seq us u : small (us ++ [u]) -> apply_update u (batch seq us) = Ret (batch seq (us ++ [u])).
Proof.
  intros Hs. assert (small us) as Hs' by (unfold small in *; rewrite length_app in Hs; lia).
  assert (int_add (Z.of_nat (length us)) 1 = Ret (Z.of_nat (length (us ++ [u])))) as Hadd.
  { unfold int_add, small in *. rewrite length_app in *. cbn [length] in *.
    replace (_ && _) with true by lia. f_equal. lia. }
  assert (SetCount (batch seq us) (Z.of_nat (length (us ++ [u]))) =
    Ret (le_split 8 seq ++ le_split 4 (Z.of_nat (length (us ++ [u]))) ++ concat (encode_update <$> us))) as Hset
    by (apply batch_set_count; unfold small in *; lia).
  assert (forall rest, le_split 8 seq ++ le_split 4 (Z.of_nat (length (us ++ [u]))) ++ concat (encode_update <$> us) ++ rest =
    (le_split 8 seq ++ le_split 4 (Z.of_nat (length (us ++ [u]))) ++ concat (encode_update <$> us)) ++ rest) as Happ
    by (intros; by rewrite <- !app_assoc).
  unfold batch at 2. rewrite fmap_app, concat_app, Happ.
  destruct u as [k v|k]; cbn [apply_update]; unfold Put, Delete; rewrite batch_count by done; run;
    rewrite Hadd; run; rewrite Hset; run; f_equal.
  - rewrite put_prefix, (put_prefix _ k). cbn [fmap list_fmap concat encode_update]. by rewrite app_nil_r, <- !app_assoc.
  - rewrite put_prefix. cbn [fmap list_fmap concat encode_update]. by rewrite app_nil_r, <- !app_assoc.
Qed.

Lemma iterate_loop_spec {S} put delete us fuel found (st : S) :
  Forall update_ok us -> (length (concat (encode_update <$> us)) <= fuel)%nat ->
  Iterate_loop put delete fuel (concat (encode_update <$> us)) found st =
    (st' ← foldM (handle put delete) us st; Ret (None, found + Z.of_nat (length us), st')).
Proof.
  intros Hok. revert fuel found st. induction Hok as [|u us Hu Hok IH]; intros fuel found st Hf.
  { destruct fuel; cbn; by rewrite Z.add_0_r. }
  assert (forall st1 fuel, (length (concat (encode_update <$> us)) <= fuel)%nat ->
    Iterate_loop put delete fuel (concat (encode_update <$> us)) (found + 1) st1 =
    (st' ← foldM (handle put delete) us st1; Ret (None, found + Z.of_nat (length (u :: us)), st'))) as Hrest.
  { intros st1 f Hle. rewrite IH by done. cbn [length]. destruct (foldM _ us st1); cbn; try done. do 3 f_equal. lia. }
  cbn [fmap list_fmap concat foldM] in *. rewrite length_app in Hf.
  destruct u as [k v|k]; cbn [encode_update app length] in *; destruct fuel as [|fuel]; try lia; cbn [Iterate_loop handle].
  - change (sb (to_byte kTypeValue) =? kTypeValue) with true. cbn iota.
    rewrite <- app_assoc, get_length_prefixed by apply Hu. rewrite get_length_prefixed by apply Hu.
    rewrite <- bind_assoc. destruct (put k v st); run; try done. apply Hrest.
    rewrite !length_app in Hf. lia.
  - change (sb (to_byte kTypeDeletion) =? kTypeValue) with false. change (sb (to_byte kTypeDeletion) =? kTypeDeletion) with true.
    cbn iota. rewrite get_length_prefixed by apply Hu.
    rewrite <- bind_assoc. destruct (delete k st); run; try done. apply Hrest. lia.
Qed.

Lemma iterate_batch {S} put delete seq us (st : S) : Forall update_ok us -> small us ->
  Iterate put delete (batch seq us) st = (st' ← foldM (handle put delete) us st; Ret (OK, st')).
Proof.
  intros Hok Hs. unfold Iterate, remove_prefix. rewrite batch_length.
  replace (_ <? kHeader)%nat with false by (symmetry; apply Nat.ltb_ge; lia).
  replace (kHeader <=? _)%nat with true by (symmetry; apply Nat.leb_le; lia).
  run. rewrite batch_drop, iterate_loop_spec by done.
  destruct (foldM _ us st); run; try done. rewrite batch_count by done. run.
  by rewrite Z.eqb_refl.
Qed.

Lemma build_batch seq us vs : small (us ++ vs) ->
  foldM apply_update vs (batch seq us) = Ret (batch seq (us ++ vs)).
Proof.
  revert us. induction vs as [|v vs IH]; intros us Hs; cbn [foldM]; [by rewrite app_nil_r|].
  rewrite batch_apply by (unfold small in *; rewrite !length_app in *; cbn [length] in *; lia).
  run. rewrite IH; by rewrite <- app_assoc.
Qed.

Lemma append_batch seq us seq' vs : small (us ++ vs) ->
  Append (batch seq us) (batch seq' vs) = Ret (batch seq (us ++ vs)).
Proof.
  intros Hs. assert (small us /\ small vs) as [Hs1 Hs2] by (unfold small in *; rewrite length_app in Hs; lia).
  unfold Append. rewrite !batch_count by done. run.
  assert (int_add (Z.of_nat (length us)) (Z.of_nat (length vs)) = Ret (Z.of_nat (length (us ++ vs)))) as ->.
  { unfold int_add, small in *. rewrite length_app in *. replace (_ && _) with true by lia. f_equal. lia. }
  run.
  assert (SetCount (batch seq us) (Z.of_nat (length (us ++ vs))) =
    Ret (le_split 8 seq ++ le_split 4 (Z.of_nat (length (us ++ vs))) ++ concat (encode_update <$> us))) as ->
    by (apply batch_set_count; unfold small in *; lia). run.
  rewrite batch_drop, batch_length. replace (kHeader <=? _)%nat with true by (symmetry; apply Nat.leb_le; lia).
  f_equal. unfold batch. by rewrite fmap_app, concat_app, <- !app_assoc.
Qed.

(** Batches replay exactly what was put in them.  Building one batch from the
    updates [us] and another from [vs] (keys and values shorter than 4 GiB, fewer
    than 2^31 updates in all), appending the second to the first and stamping it with
    a sequence number returns a batch whose count and sequence number read back, and
    [Iterate] with any handler performs [us] then [vs] in order and reports OK. *)
Theorem batch_replay us vs seq :
  Forall update_ok (us ++ vs) -> small (us ++ vs) -> 0 <= seq < 2 ^ 64 ->
  exists b1 b2 b3 b,
    foldM apply_update us Clear = Ret b1 /\ foldM apply_update vs Clear = Ret b2 /\
    Append b1 b2 = Ret b3 /\ SetSequence b3 seq = Ret b /\
    Sequence b = Ret seq /\ Count b = Ret (Z.of_nat (length (us ++ vs))) /\
    forall (put : bytes -> bytes -> list update -> outcome (list update)) delete st,
      Iterate put delete b st = (st' ← foldM (handle put delete) (us ++ vs) st; Ret (OK, st')).
Proof.
  intros Hok Hs Hseq. assert (small us /\ small vs) as [Hs1 Hs2] by (unfold small in *; rewrite length_app in Hs; lia).
  exists (batch 0 us), (batch 0 vs), (batch 0 (us ++ vs)), (batch seq (us ++ vs)).
  rewrite batch_new. split_and!.
  - by apply build_batch.
  - by apply build_batch.
  - by apply append_batch.
  - apply batch_set_sequence.
  - by apply batch_sequence.
  - by apply batch_count.
  - intros. by apply iterate_batch.
Qed.

(** A handler that records what it is told. *)
Definition log_put (k v : bytes) (l : list update) : outcome (list update) := Ret (l ++ [UPut k v]).
Definition log_delete (k : bytes) (l : list update) : outcome (list update) := Ret (l ++ [UDelete k]).

Lemma batch_replay_witness :
  exists b1 b2 b3 b,
    foldM apply_update [UPut [x61] [x62; x63]] Clear = Ret b1 /\ foldM apply_update [UDelete [x61]] Clear = Ret b2 /\
    Append b1 b2 = Ret b3 /\ SetSequence b3 9 = Ret b /\
    Iterate log_put log_delete b [] = Ret (OK, [UPut [x61] [x62; x63]; UDelete [x61]]).
Proof.
  destruct (batch_replay [UPut [x61] [x62; x63]] [UDelete [x61]] 9) as (b1 & b2 & b3 & b & E1 & E2 & E3 & E4 & _ & _ & E5).
  - repeat constructor; cbn; lia.
  - unfold small. cbn. lia.
  - lia.
  - exists b1, b2, b3, b. split; [exact E1|]. split; [exact E2|]. split; [exact E3|]. split; [exact E4|].
    rewrite E5. reflexivity.
Defined.
