(* ===== verification/MemTable.v ===== *)
(** * Memtables (util/leveldb/db/memtable.cc, memtable.h, write_batch.cc)

    A memtable is a skip list of encoded entries ordered by internal key.  A
    [const char*] into the arena is the bytes from it on.  [InsertInto] replays a
    write batch into a memtable; a lookup at a sequence number sees the newest
    update of its key that is not newer than the number. *)

From S2P Require Import Prelude Slice Coding DbFormat FileNames Status SkipList WriteBatch.

(** ** Entries in memory *)

(** [GetVarint32Ptr(p, p + 5, &len)]: the value and the bytes after it. *)
Definition entry_varint (data : bytes) : outcome (Z * bytes) :=
  match GetVarint32Ptr (take 5 data) with
  | Some (len, rest) => Ret (len, drop (length (take 5 data) - length rest) data)
  | None => Undef
  end.

(** [GetLengthPrefixedSlice(data)], with the bytes after the slice. *)
Definition mem_slice (data : bytes) : outcome (bytes * bytes) :=
  '(len, p) ← entry_varint data;
  if Z.of_nat (length p) <? len then Undef else Ret (take (Z.to_nat len) p, drop (Z.to_nat len) p).

(** [KeyComparator::operator()] *)
Definition KeyCompare (c : Comparator) (aptr bptr : bytes) : outcome Z :=
  '(a, _) ← mem_slice aptr; '(b, _) ← mem_slice bptr; InternalCompare c a b.

Definition EncodeKey (target : bytes) : bytes :=
  PutVarint32 [] (u32 (Z.of_nat (length target))) ++ target.

(** ** class MemTable *)

Record MemTable := MkMemTable { refs_ : Z; table_ : SkipList bytes }.

Definition MemTable_new : outcome MemTable := t ← SkipList_new; Ret (MkMemTable 0 t).

Definition Ref (m : MemTable) : MemTable := MkMemTable (refs_ m + 1) (table_ m).

(** [None] after [delete this]. *)
Definition Unref (m : MemTable) : outcome (option MemTable) :=
  let refs := refs_ m - 1 in
  if negb (0 <=? refs) then Exit 134
  else if refs <=? 0 then (if refs =? 0 then Ret None else Exit 134)
  else Ret (Some (MkMemTable refs (table_ m))).

Section Operations.
Context (c : Comparator).

Definition Add (m : MemTable) (s type : Z) (key value : bytes) : outcome MemTable :=
  let key_size := Z.of_nat (length key) in
  let val_size := Z.of_nat (length value) in
  let internal_key_size := u64 (key_size + 8) in
  let encoded_len := u64 (VarintLength internal_key_size + internal_key_size + VarintLength val_size + val_size) in
  let buf := EncodeVarint32 (u32 internal_key_size) ++ key ++ EncodeFixed64 true (Z.lor (u64 (Z.shiftl s 8)) type) ++
             EncodeVarint32 (u32 val_size) ++ value in
  if negb (Z.of_nat (length buf) =? encoded_len) then Exit 134
  else t ← Insert (KeyCompare c) (table_ m) buf; Ret (MkMemTable (refs_ m) t).

Inductive mem_get := MemValue (v : bytes) | MemDeleted | MemMissing.

Definition Get (m : MemTable) (key : LookupKey) : outcome mem_get :=
  node ← Iterator_Seek (KeyCompare c) (table_ m) (memtable_key key);
  if negb (Iterator_Valid node) then Ret MemMissing
  else
    entry ← Iterator_key (table_ m) node;
    '(key_length, key_ptr) ← entry_varint entry;
    let n := u32 (key_length - 8) in
    if Z.of_nat (length key_ptr) <? n then Undef
    else if cmp_Compare c (take (Z.to_nat n) key_ptr) (lookup_user_key key) =? 0 then
      tag ← DecodeFixed64 true (drop (Z.to_nat (key_length - 8)) key_ptr);
      let t := Z.land tag 0xff in
      if t =? kTypeValue then '(v, _) ← mem_slice (drop (Z.to_nat key_length) key_ptr); Ret (MemValue v)
      else if t =? kTypeDeletion then Ret MemDeleted
      else Ret MemMissing
    else Ret MemMissing.

(** [MemTableIterator]: the position in the table and the accessors. *)
Definition MemIter_Seek (m : MemTable) (k : bytes) : outcome (option nat) :=
  Iterator_Seek (KeyCompare c) (table_ m) (EncodeKey k).
Definition MemIter_SeekToFirst (m : MemTable) : outcome (option nat) := Iterator_SeekToFirst (table_ m).
Definition MemIter_SeekToLast (m : MemTable) : outcome (option nat) := Iterator_SeekToLast (table_ m).
Definition MemIter_Next (m : MemTable) (n : option nat) : outcome (option nat) := Iterator_Next (table_ m) n.
Definition MemIter_Prev (m : MemTable) (n : option nat) : outcome (option nat) :=
  Iterator_Prev (KeyCompare c) (table_ m) n.
Definition MemIter_key (m : MemTable) (n : option nat) : outcome bytes :=
  e ← Iterator_key (table_ m) n; '(k, _) ← mem_slice e; Ret k.
Definition MemIter_value (m : MemTable) (n : option nat) : outcome bytes :=
  e ← Iterator_key (table_ m) n; '(_, rest) ← mem_slice e; '(v, _) ← mem_slice rest; Ret v.

(** ** write_batch.cc: MemTableInserter and InsertInto *)

Definition inserter_Put (key value : bytes) (st : Z * MemTable) : outcome (Z * MemTable) :=
  let '(sequence, mem) := st in
  mem ← Add mem sequence kTypeValue key value; Ret (u64 (sequence + 1), mem).

Definition inserter_Delete (key : bytes) (st : Z * MemTable) : outcome (Z * MemTable) :=
  let '(sequence, mem) := st in
  mem ← Add mem sequence kTypeDeletion key []; Ret (u64 (sequence + 1), mem).

Definition InsertInto (b : WriteBatch) (memtable : MemTable) : outcome (Status * MemTable) :=
  seq ← Sequence b;
  '(s, st) ← Iterate inserter_Put inserter_Delete b (seq, memtable);
  Ret (s, snd st).
End Operations.

(** ** Encoded entries *)

Record mem_entry := ME { e_key : bytes; e_seq : Z; e_type : Z; e_value : bytes }.

Definition e_tag (e : mem_entry) : Z := tag (e_seq e) (e_type e).

Definition entry_ok (e : mem_entry) : Prop :=
  valid_tag (e_seq e) (e_type e) /\ Z.of_nat (length (e_key e)) + 13 < 2 ^ 32 /\ Z.of_nat (length (e_value e)) < 2 ^ 32.

Definition encode_entry (e : mem_entry) : bytes :=
  PutLengthPrefixedSlice [] (ikey (e_key e) (e_seq e) (e_type e)) ++ PutLengthPrefixedSlice [] (e_value e).

Lemma entry_varint_put s rest : Z.of_nat (length s) < 2 ^ 32 ->
  entry_varint (PutLengthPrefixedSlice [] s ++ rest) = Ret (Z.of_nat (length s), s ++ rest).
Proof.
  intros Hs. unfold entry_varint, PutLengthPrefixedSlice, PutVarint32. cbn [app]. rewrite u32_small by lia.
  set (enc := EncodeVarint32 (Z.of_nat (length s))). destruct (varint32_length (Z.of_nat (length s))) as [H1 H2]; [lia|]. fold enc in H1, H2.
  rewrite <- app_assoc, take_app, take_ge by lia.
  pose proof (get_varint32 (Z.of_nat (length s)) (take (5 - length enc) (s ++ rest)) ltac:(lia)) as Hg.
  unfold GetVarint32 in Hg. fold enc in Hg. rewrite Hg. f_equal. f_equal. rewrite length_app, Nat.add_sub. apply drop_app_length.
Qed.

Lemma mem_slice_put s rest : Z.of_nat (length s) < 2 ^ 32 -> mem_slice (PutLengthPrefixedSlice [] s ++ rest) = Ret (s, rest).
Proof.
  intros Hs. unfold mem_slice. rewrite entry_varint_put by done. run.
  replace (Z.of_nat (length (s ++ rest)) <? Z.of_nat (length s)) with false by (symmetry; apply Z.ltb_ge; rewrite length_app; lia).
  by rewrite Nat2Z.id, take_app_length, drop_app_length.
Qed.

(** What [Add] writes into the arena is the encoded entry. *)
Lemma add_encodes c m e : entry_ok e ->
  Add c m (e_seq e) (e_type e) (e_key e) (e_value e) =
    (t ← Insert (KeyCompare c) (table_ m) (encode_entry e); Ret (MkMemTable (refs_ m) t)).
Proof.
  intros (Hv & Hk & Hl). unfold Add. rewrite u64_small by lia.
  assert (Z.lor (u64 (Z.shiftl (e_seq e) 8)) (e_type e) = tag (e_seq e) (e_type e)) as ->.
  { pose proof (pack_spec _ _ Hv) as Hp. unfold PackSequenceAndType in Hp. repeat case_match; congruence. }
  assert (forall v, 0 <= v < 2 ^ 32 -> VarintLength v = Z.of_nat (length (EncodeVarint32 v))) as Hvl.
  { intros v Hr. rewrite EncodeVarint32_loop by done. unfold VarintLength, EncodeVarint64. rewrite varint_length_go. lia. }
  rewrite !Hvl, !(u32_small (_ + 8)), (u32_small (Z.of_nat (length (e_value e)))) by lia.
  destruct (varint32_length (Z.of_nat (length (e_key e)) + 8)) as [_ H1]; [lia|].
  destruct (varint32_length (Z.of_nat (length (e_value e)))) as [_ H2]; [lia|].
  replace (negb _) with false.
  2:{ symmetry. apply negb_false_iff, Z.eqb_eq. rewrite !length_app. change (length (EncodeFixed64 true _)) with 8%nat.
      rewrite u64_small by lia. lia. }
  f_equal. f_equal. unfold encode_entry, PutLengthPrefixedSlice, PutVarint32. cbn [app].
  rewrite ikey_length, Nat2Z.inj_add, !u32_small by lia. unfold ikey. rewrite <- !app_assoc. done.
Qed.

(** ** The order of encoded entries *)

Section Order.
Context (c : Comparator) `{!ComparatorLaws c}.

(** Buffers a memtable compares: an internal key with anything after it. *)
Definition key_ok (b : bytes) : Prop :=
  exists uk seq t rest, b = PutLengthPrefixedSlice [] (ikey uk seq t) ++ rest /\ valid_tag seq t /\
    Z.of_nat (length uk) + 13 < 2 ^ 32.

Definition key_ord (a b : bytes) : Z := match KeyCompare c a b with Ret z => z | _ => 0 end.

Lemma key_compare_put ua sa ta ra vb sb tb rb :
  valid_tag sa ta -> valid_tag sb tb -> Z.of_nat (length ua) + 13 < 2 ^ 32 -> Z.of_nat (length vb) + 13 < 2 ^ 32 ->
  KeyCompare c (PutLengthPrefixedSlice [] (ikey ua sa ta) ++ ra) (PutLengthPrefixedSlice [] (ikey vb sb tb) ++ rb) =
    Ret (icmp c ua (tag sa ta) vb (tag sb tb)).
Proof.
  intros Ha Hb Hla Hlb. unfold KeyCompare. rewrite !mem_slice_put by (rewrite ikey_length; lia). run.
  by apply internal_compare_ikey.
Qed.

Lemma key_compare_ord a b : key_ok a -> key_ok b -> KeyCompare c a b = Ret (key_ord a b).
Proof.
  intros (ua & sa & ta & ra & -> & Ha & La) (vb & sb & tb & rb & -> & Hb & Lb). unfold key_ord.
  by rewrite key_compare_put.
Qed.

Lemma key_ord_antisym a b : key_ok a -> key_ok b -> Z.sgn (key_ord a b) = - Z.sgn (key_ord b a).
Proof.
  intros (ua & sa & ta & ra & -> & Ha & La) (vb & sb & tb & rb & -> & Hb & Lb). unfold key_ord.
  rewrite !key_compare_put by done. by apply icmp_antisym.
Qed.

Lemma icmp_lt_trans u1 n1 u2 n2 u3 n3 : icmp c u1 n1 u2 n2 < 0 -> icmp c u2 n2 u3 n3 < 0 -> icmp c u1 n1 u3 n3 < 0.
Proof.
  intros H1 H2. pose proof (icmp_trans c u3 n3 u1 n1 u2 n2) as H3.
  pose proof (icmp_antisym c u1 n1 u3 n3). pose proof (icmp_antisym c u2 n2 u3 n3).
  destruct (Z.le_gt_cases 0 (icmp c u1 n1 u3 n3)); [|done]. exfalso. lia.
Qed.

Lemma key_ord_trans a b d : key_ok a -> key_ok b -> key_ok d -> key_ord a b < 0 -> key_ord b d < 0 -> key_ord a d < 0.
Proof.
  intros (u1 & s1 & t1 & r1 & -> & H1 & L1) (u2 & s2 & t2 & r2 & -> & H2 & L2) (u3 & s3 & t3 & r3 & -> & H3 & L3).
  unfold key_ord. rewrite !key_compare_put by done. apply icmp_lt_trans.
Qed.

Lemma encode_ok e : entry_ok e -> key_ok (encode_entry e).
Proof. intros (H1 & H2 & H3). unfold encode_entry. by do 4 eexists. Qed.

(** The comparator on two entries. *)
Definition ecmp (e1 e2 : mem_entry) : Z := icmp c (e_key e1) (e_tag e1) (e_key e2) (e_tag e2).

Lemma key_ord_entry e1 e2 : entry_ok e1 -> entry_ok e2 -> key_ord (encode_entry e1) (encode_entry e2) = ecmp e1 e2.
Proof.
  intros (H1 & H2 & H3) (H4 & H5 & H6). unfold key_ord, encode_entry. by rewrite key_compare_put.
Qed.

(** [m] holds exactly the entries [es], in order. *)
Definition mem_rep (m : MemTable) (es : list mem_entry) : Prop :=
  sl_keys key_ok key_ord (table_ m) (encode_entry <$> es) /\ Forall entry_ok es.

Lemma mem_sorted m es : mem_rep m es -> StronglySorted (fun e1 e2 => ecmp e1 e2 < 0) es.
Proof.
  intros [Hs Hok]. apply sl_keys_sorted in Hs as [Hs _]. induction Hok as [|e es He Hok IH]; [constructor|].
  cbn in Hs. apply StronglySorted_inv in Hs as [Hs Hf]. constructor; [auto|].
  rewrite Forall_fmap in Hf. apply Forall_forall. intros e' He'.
  pose proof (proj1 (Forall_forall _ _) Hf e' He') as H. cbn in H. rewrite key_ord_entry in H; [done|done|].
  by apply (proj1 (Forall_forall _ _) Hok).
Qed.

Lemma mem_new : exists m, MemTable_new = Ret m /\ mem_rep m [].
Proof.
  destruct (new_rep key_ok key_ord) as (s & E & Hrep). unfold MemTable_new. rewrite E. eexists. split; [done|].
  split; [|constructor]. by exists [].
Qed.

Lemma add_spec m es e : mem_rep m es -> entry_ok e -> (forall e', e' ∈ es -> ecmp e e' <> 0) ->
  exists m' A B, Add c m (e_seq e) (e_type e) (e_key e) (e_value e) = Ret m' /\ es = A ++ B /\ mem_rep m' (A ++ e :: B).
Proof.
  intros [Hs Hok] He Hne. rewrite add_encodes by done.
  destruct (insert_keys (KeyCompare c) key_ok key_ord key_compare_ord key_ord_antisym key_ord_trans
    (table_ m) _ (encode_entry e) Hs (encode_ok e He)) as (s' & A & B & -> & E & _ & _ & Hs').
  { intros k (e' & -> & He')%list_elem_of_fmap. rewrite key_ord_entry; [by apply Hne|done|].
    by apply (proj1 (Forall_forall _ _) Hok). }
  run. apply fmap_app_inv in E as (A' & B' & -> & -> & ->).
  eexists _, A', B'. split_and!; [done|done|]. split; cbn; [by rewrite fmap_app|].
  apply Forall_app in Hok as [HA HB]. apply Forall_app. split; [done|]. by constructor.
Qed.

(** What [Get] reads from the entry the seek stopped at. *)
Definition read_entry (uk : bytes) (B : list mem_entry) : mem_get :=
  match B with
  | e :: _ => if cmp_Compare c (e_key e) uk =? 0
              then (if e_type e =? kTypeValue then MemValue (e_value e) else MemDeleted) else MemMissing
  | [] => MemMissing
  end.

Lemma read_one_entry e uk : entry_ok e ->
  ('(key_length, key_ptr) ← entry_varint (encode_entry e);
   let n := u32 (key_length - 8) in
   if Z.of_nat (length key_ptr) <? n then Undef
   else if cmp_Compare c (take (Z.to_nat n) key_ptr) uk =? 0 then
     tag ← DecodeFixed64 true (drop (Z.to_nat (key_length - 8)) key_ptr);
     let t := Z.land tag 0xff in
     if t =? kTypeValue then '(v, _) ← mem_slice (drop (Z.to_nat key_length) key_ptr); Ret (MemValue v)
     else if t =? kTypeDeletion then Ret MemDeleted
     else Ret MemMissing
   else Ret MemMissing) = Ret (read_entry uk [e]).
Proof.
  intros (Hv & Hk & Hl). unfold encode_entry. rewrite entry_varint_put by (rewrite ikey_length; lia). run.
  rewrite ikey_length, Nat2Z.inj_add. replace (Z.of_nat (length (e_key e)) + Z.of_nat 8 - 8) with (Z.of_nat (length (e_key e))) by lia.
  rewrite u32_small, Nat2Z.id by lia. unfold ikey. rewrite <- app_assoc, take_app_length, drop_app_length.
  replace (_ <? _) with false by (symmetry; apply Z.ltb_ge; rewrite length_app; lia). unfold read_entry.
  destruct (cmp_Compare c (e_key e) uk =? 0); [|done].
  assert (DecodeFixed64 true (le_split 8 (tag (e_seq e) (e_type e)) ++ PutLengthPrefixedSlice [] (e_value e)) =
    Ret (tag (e_seq e) (e_type e))) as -> by (apply (decode_fixed64 (tag _ _)), valid_tag_range; done).
  run. replace (Z.to_nat _) with (length (e_key e ++ le_split 8 (tag (e_seq e) (e_type e))))
    by len.
  rewrite app_assoc, drop_app_length, <- (app_nil_r (PutLengthPrefixedSlice [] (e_value e))), mem_slice_put by done.
  run. assert (Z.land (tag (e_seq e) (e_type e)) 255 = e_type e) as ->.
  { unfold tag. destruct Hv as [_ Ht]. assert (0 <= e_type e < 256) by (destruct Ht as [->| ->]; split; done).
    rewrite land_255, Z.add_comm, Z.mod_add, Z.mod_small by lia. done. }
  destruct Hv as [_ [->| ->]]; done.
Qed.

(** [Get] splits the entries at the lookup key and reads the first one not before it. *)
Lemma get_spec m es uk s : mem_rep m es -> 0 <= s <= kMaxSequenceNumber -> Z.of_nat (length uk) + 13 < 2 ^ 32 ->
  exists lk A B, LookupKey_new uk s = Ret lk /\ es = A ++ B /\ Get c m lk = Ret (read_entry uk B) /\
    Forall (fun e => icmp c (e_key e) (e_tag e) uk (tag s kValueTypeForSeek) < 0) A /\
    Forall (fun e => ~ icmp c (e_key e) (e_tag e) uk (tag s kValueTypeForSeek) < 0) B.
Proof.
  intros [(l & Hrep & Hl) Hok] Hs Hk. destruct (lookup_key_spec uk s Hs Hk) as (lk & El & Em & Ei & Eu).
  assert (valid_tag s kValueTypeForSeek) as Hvt by (split; [done|by right]).
  assert (key_ok (memtable_key lk)) as Htk by (rewrite Em; exists uk, s, kValueTypeForSeek, []; by rewrite app_nil_r).
  destruct (fge_spec (KeyCompare c) key_ok key_ord key_compare_ord key_ord_antisym key_ord_trans (table_ m) l Hrep
    (memtable_key lk) None Htk) as (A & B & prev & E & -> & HA & HB & _); [by intros p [=]|].
  rewrite fmap_app in Hl. symmetry in Hl. apply fmap_app_inv in Hl as (A' & B' & EA & EB & ->).
  assert (forall e, entry_ok e -> key_ord (encode_entry e) (memtable_key lk) = icmp c (e_key e) (e_tag e) uk (tag s kValueTypeForSeek)) as Hord.
  { intros e (H1 & H2 & H3). unfold key_ord, encode_entry. rewrite Em, <- (app_nil_r (PutLengthPrefixedSlice [] (ikey uk _ _))).
    by rewrite key_compare_put. }
  apply Forall_app in Hok as [HokA HokB].
  exists lk, A', B'. split_and!; [done|done| | |].
  - unfold Get, Iterator_Seek. rewrite E. run. destruct B as [|[n k] B], B' as [|e B']; try done.
    injection EB as -> EB. cbn [fmap option_fmap option_map head fst].
    assert (Iterator_Valid (Some n) = true) as -> by (by apply bool_decide_eq_true_2). cbn [negb].
    destruct (rep_entry key_ok key_ord _ _ Hrep (n, encode_entry e)) as (Hgk & _); [set_solver|]. cbn [fst snd] in Hgk.
    unfold Iterator_key. rewrite Hgk. run. rewrite Eu.
    apply Forall_cons in HokB as [He _]. apply (read_one_entry e uk He).
  - apply Forall_forall. intros e He. rewrite <- Hord by (by apply (proj1 (Forall_forall _ _) HokA)).
    assert (encode_entry e ∈ A.*2) as (x & Ex & Hx)%list_elem_of_fmap by (rewrite EA; by apply list_elem_of_fmap_2).
    rewrite Ex. by apply (proj1 (Forall_forall _ _) HA).
  - apply Forall_forall. intros e He. rewrite <- Hord by (by apply (proj1 (Forall_forall _ _) HokB)).
    assert (encode_entry e ∈ B.*2) as (x & Ex & Hx)%list_elem_of_fmap by (rewrite EB; by apply list_elem_of_fmap_2).
    rewrite Ex. by apply (proj1 (Forall_forall _ _) HB).
Qed.
End Order.

(** ** Histories

    With the bytewise comparator, a memtable that received the entries [h] in the
    order of their sequence numbers answers from the newest visible one. *)

Definition mem_hist (m : MemTable) (h : list mem_entry) : Prop :=
  exists es, mem_rep BytewiseComparator m es /\ es ≡ₚ h.

Definition increasing (h : list mem_entry) : Prop := StronglySorted (fun e1 e2 => e_seq e1 < e_seq e2) h.

(** Updates numbered from [seq] on. *)
Fixpoint number (seq : Z) (us : list update) : list mem_entry :=
  match us with
  | [] => []
  | UPut k v :: us' => ME k seq kTypeValue v :: number (seq + 1) us'
  | UDelete k :: us' => ME k seq kTypeDeletion [] :: number (seq + 1) us'
  end.

Definition visible (k : bytes) (s : Z) (e : mem_entry) : Prop := e_key e = k /\ e_seq e <= s.

#[global] Instance visible_dec k s e : Decision (visible k s e).
Proof. unfold visible. apply _. Defined.

(** The answer the history gives. *)
Definition read_hist (k : bytes) (s : Z) (h : list mem_entry) : mem_get :=
  match last (filter (visible k s) h) with
  | Some e => if e_type e =? kTypeValue then MemValue (e_value e) else MemDeleted
  | None => MemMissing
  end.

Lemma last_filter_max (P : mem_entry -> Prop) `{!forall e, Decision (P e)} h e :
  increasing h -> e ∈ h -> P e -> (forall e', e' ∈ h -> P e' -> e_seq e' <= e_seq e) -> last (filter P h) = Some e.
Proof.
  induction h as [|x h IH] using rev_ind; intros Hs He HP Hmax; [by apply not_elem_of_nil in He|].
  apply StronglySorted_app in Hs as (Hx & Hs & _). rewrite filter_app.
  apply elem_of_app in He as [He| ->%list_elem_of_singleton].
  - assert (e_seq e < e_seq x) by (apply Hx; [done|by left]).
    rewrite (filter_cons_False _ x), filter_nil, app_nil_r.
    + apply IH; try done. intros e' He'. apply Hmax. set_solver.
    + intros HPx. specialize (Hmax x ltac:(set_solver) HPx). lia.
  - rewrite (filter_cons_True _ x), filter_nil by done. apply last_snoc.
Qed.

Lemma visible_icmp k s e : valid_tag (e_seq e) (e_type e) -> e_key e = k ->
  (~ icmp BytewiseComparator (e_key e) (e_tag e) k (tag s kValueTypeForSeek) < 0) <-> e_seq e <= s.
Proof.
  intros [_ Ht] <-. unfold icmp. rewrite cmp_refl by apply _. cbn [Z.eqb].
  unfold e_tag, tag, kValueTypeForSeek, kTypeValue, kTypeDeletion in *.
  destruct (Z.ltb_spec (s * 256 + 1) (e_seq e * 256 + e_type e)), (Z.ltb_spec (e_seq e * 256 + e_type e) (s * 256 + 1)); lia.
Qed.

Lemma get_hist m h k s : mem_hist m h -> increasing h -> 0 <= s <= kMaxSequenceNumber -> Z.of_nat (length k) + 13 < 2 ^ 32 ->
  exists lk, LookupKey_new k s = Ret lk /\ Get BytewiseComparator m lk = Ret (read_hist k s h).
Proof.
  intros (es & Hrep & Hp) Hinc Hs Hk.
  destruct (get_spec BytewiseComparator m es k s Hrep Hs Hk) as (lk & A & B & El & -> & Eg & HA & HB).
  exists lk. split; [done|]. rewrite Eg. f_equal. pose proof (mem_sorted _ _ _ Hrep) as Hsort.
  apply StronglySorted_app in Hsort as (_ & _ & HsB). destruct Hrep as [_ Hok]. rewrite Forall_forall in Hok.
  assert (forall e, e ∈ h -> visible k s e -> e ∈ B) as Hvis.
  { intros e He [Hek Hes]. rewrite <- Hp in He. pose proof (Hok e He) as Heok. apply elem_of_app in He as [He|He]; [|done].
    pose proof (proj1 (Forall_forall _ _) HA e He) as Hlt.
    by apply (visible_icmp k s e) in Hes; [|apply Heok|done]. }
  unfold read_hist, read_entry. destruct B as [|e B].
  { destruct (filter_first (visible k s) h) as [[-> _]|(b1 & e & b2 & Eh & _ & Hv & _)]; [done|].
    destruct (not_elem_of_nil e). apply Hvis; [rewrite Eh; set_solver|done]. }
  apply StronglySorted_inv in HsB as [_ HeB]. rewrite Forall_forall in HeB.
  assert (e ∈ h) as Heh by (rewrite <- Hp; set_solver).
  pose proof (Hok e ltac:(set_solver)) as Heok. apply Forall_cons in HB as [Hge _].
  cbn [BytewiseComparator cmp_Compare]. destruct (Z.eqb_spec (slice_compare (e_key e) k) 0) as [Ek|Ek].
  - apply slice_compare_eq in Ek. rewrite (last_filter_max (visible k s) h e); [done|done|done| |].
    + split; [done|]. apply (visible_icmp k s e); [apply Heok|done|by rewrite Ek in *].
    + intros e' He' Hv. pose proof (Hvis e' He' Hv) as [->|HeB']%elem_of_cons; [lia|]. specialize (HeB e' HeB').
      destruct Hv as [Hk' _]. unfold ecmp, icmp in HeB. rewrite Ek, Hk', cmp_refl in HeB by apply _. cbn [Z.eqb] in HeB.
      destruct Heok as [[_ Ht] _], (Hok e' ltac:(set_solver)) as [[_ Ht'] _].
      unfold e_tag, tag, kTypeDeletion, kTypeValue in *.
      destruct (Z.ltb_spec (e_seq e' * 256 + e_type e') (e_seq e * 256 + e_type e)); [lia|].
      destruct (Z.ltb_spec (e_seq e * 256 + e_type e) (e_seq e' * 256 + e_type e')); lia.
  - destruct (filter_first (visible k s) h) as [[-> _]|(b1 & e' & b2 & Eh & _ & Hv & _)]; [done|]. exfalso.
    assert (e' ∈ h) as He' by (rewrite Eh; set_solver). pose proof (Hvis e' He' Hv) as [->|HeB']%elem_of_cons.
    { destruct Ek. apply slice_compare_eq, Hv. }
    specialize (HeB e' HeB'). destruct Hv as [Hk' _].
    assert (slice_compare (e_key e) k < 0) as Hlt.
    { unfold ecmp, icmp in HeB. cbn [BytewiseComparator cmp_Compare] in HeB. rewrite Hk' in HeB.
      destruct (Z.eqb_spec (slice_compare (e_key e) k) 0); lia. }
    apply Hge. unfold icmp. cbn [BytewiseComparator cmp_Compare].
    destruct (Z.eqb_spec (slice_compare (e_key e) k) 0); lia.
Qed.

(** ** Replaying batches *)

Definition mem_update_ok (u : update) : Prop :=
  match u with
  | UPut k v => Z.of_nat (length k) + 13 < 2 ^ 32 /\ Z.of_nat (length v) < 2 ^ 32
  | UDelete k => Z.of_nat (length k) + 13 < 2 ^ 32
  end.

Lemma mem_update_update u : mem_update_ok u -> update_ok u.
Proof. destruct u; cbn; lia. Qed.

Lemma mem_hist_add m h e : mem_hist m h -> Forall (fun e' => e_seq e' < e_seq e) h -> entry_ok e ->
  exists m', Add BytewiseComparator m (e_seq e) (e_type e) (e_key e) (e_value e) = Ret m' /\ mem_hist m' (h ++ [e]).
Proof.
  intros (es & Hrep & Hp) Hlt He. destruct (add_spec BytewiseComparator m es e Hrep He) as (m' & A & B & E & -> & Hrep').
  - intros e' He'. pose proof He' as Hh. rewrite Hp in Hh. pose proof (proj1 (Forall_forall _ _) Hlt e' Hh) as Hs.
    destruct Hrep as [_ Hok]. pose proof (proj1 (Forall_forall _ _) Hok e' He') as [[_ Ht'] _]. destruct He as [[_ Ht] _].
    unfold ecmp, icmp, e_tag, tag, kTypeDeletion, kTypeValue in *.
    destruct (Z.eqb_spec (cmp_Compare BytewiseComparator (e_key e) (e_key e')) 0); [|done].
    destruct (Z.ltb_spec (e_seq e' * 256 + e_type e') (e_seq e * 256 + e_type e)); [done|lia].
  - exists m'. split; [done|]. exists (A ++ e :: B). split; [done|].
    rewrite <- Hp. rewrite <- Permutation_middle. by rewrite (Permutation_app_comm (A ++ B)).
Qed.

Lemma number_app seq us vs : number seq (us ++ vs) = number seq us ++ number (seq + Z.of_nat (length us)) vs.
Proof.
  revert seq. induction us as [|[k v|k] us IH]; intros seq; cbn [app number length]; [f_equal; lia| |];
    rewrite IH; do 3 f_equal; lia.
Qed.

Lemma number_range seq us e : e ∈ number seq us -> seq <= e_seq e < seq + Z.of_nat (length us).
Proof.
  revert seq. induction us as [|u us IH]; intros seq He; [by apply not_elem_of_nil in He|].
  destruct u; cbn [number length] in He |- *; apply elem_of_cons in He as [->|He]; cbn [e_seq]; try lia; apply IH in He; lia.
Qed.

Lemma number_increasing seq us : increasing (number seq us).
Proof.
  revert seq. induction us as [|u us IH]; intros seq; [constructor|].
  destruct u; constructor; try apply IH; apply Forall_forall; intros e He; apply number_range in He; cbn; lia.
Qed.

Lemma insert_updates us : forall m h seq,
  mem_hist m h -> Forall (fun e => e_seq e < seq) h -> Forall mem_update_ok us ->
  0 <= seq -> seq + Z.of_nat (length us) <= kMaxSequenceNumber + 1 ->
  exists m', foldM (handle (inserter_Put BytewiseComparator) (inserter_Delete BytewiseComparator)) us (seq, m) =
      Ret (seq + Z.of_nat (length us), m') /\ mem_hist m' (h ++ number seq us).
Proof.
  induction us as [|u us IH]; intros m h seq Hm Hlt Hok H0 Hmax.
  { exists m. cbn. rewrite Z.add_0_r, app_nil_r. done. }
  apply Forall_cons in Hok as [Hu Hok]. cbn [length] in Hmax.
  assert (exists e, number seq (u :: us) = e :: number (seq + 1) us /\ e_seq e = seq /\ entry_ok e /\
    handle (inserter_Put BytewiseComparator) (inserter_Delete BytewiseComparator) u (seq, m) =
    (m' ← Add BytewiseComparator m (e_seq e) (e_type e) (e_key e) (e_value e); Ret (u64 (seq + 1), m'))) as (e & -> & Hs & He & Hh).
  { destruct u as [k v|k]; eexists; (split; [done|]); (split; [done|]); (split; [|done]); cbn in Hu;
      (split; [split; [cbn; lia|cbn; auto]|cbn [e_key e_value length]; lia]). }
  destruct (mem_hist_add m h e Hm) as (m1 & E & Hm1); [by rewrite Hs|done|].
  cbn [foldM]. rewrite Hh, E. run. rewrite max_sequence in *. rewrite u64_small by lia.
  destruct (IH m1 (h ++ [e]) (seq + 1) Hm1) as (m' & E' & Hm'); [|done|lia|lia|].
  { apply Forall_app. split; [eapply Forall_impl; [exact Hlt|]; cbn; lia|]. constructor; [lia|constructor]. }
  exists m'. rewrite <- app_assoc in Hm'. split; [|done]. rewrite E'. do 2 f_equal. cbn [length]. lia.
Qed.

Lemma insert_into_batch m h seq us :
  mem_hist m h -> Forall (fun e => e_seq e < seq) h -> Forall mem_update_ok us -> small us ->
  0 <= seq -> seq + Z.of_nat (length us) <= kMaxSequenceNumber + 1 ->
  exists m', InsertInto BytewiseComparator (batch seq us) m = Ret (OK, m') /\ mem_hist m' (h ++ number seq us).
Proof.
  intros Hm Hlt Hok Hs H0 Hmax. destruct (insert_updates us m h seq Hm Hlt Hok H0 Hmax) as (m' & E & Hm').
  exists m'. split; [|done]. unfold InsertInto. rewrite batch_sequence by (rewrite max_sequence in Hmax; lia).
  run. rewrite iterate_batch; [|eapply Forall_impl; [exact Hok|apply mem_update_update]|done].
  by rewrite E.
Qed.

(** ** The map a database with these updates stands for *)

Definition apply_map (d : gmap bytes bytes) (u : update) : gmap bytes bytes :=
  match u with UPut k v => <[k := v]> d | UDelete k => delete k d end.

Definition state_after (us : list update) : gmap bytes bytes := foldl apply_map ∅ us.

Definition value_of (r : mem_get) : option bytes := match r with MemValue v => Some v | _ => None end.

Lemma read_hist_state seq us k s :
  value_of (read_hist k s (number seq us)) = state_after (take (Z.to_nat (s - seq + 1)) us) !! k.
Proof.
  induction us as [|u us IH] using rev_ind; [by rewrite take_nil|].
  rewrite number_app. unfold read_hist in *. rewrite filter_app.
  destruct (Z.le_gt_cases (seq + Z.of_nat (length us)) s) as [Hle|Hgt].
  - rewrite take_ge in IH by lia. rewrite take_ge by len.
    unfold state_after in *. rewrite foldl_snoc. destruct u as [k' v|k']; cbn [number apply_map].
    + destruct (decide (k' = k)) as [->|Hne].
      * rewrite (filter_cons_True _ (ME _ _ _ _)) by (split; cbn; [done|lia]). rewrite filter_nil, last_snoc. cbn.
        by rewrite lookup_insert_eq.
      * rewrite (filter_cons_False _ (ME _ _ _ _)) by (intros [? _]; done). rewrite filter_nil, app_nil_r, IH.
        by rewrite lookup_insert_ne.
    + destruct (decide (k' = k)) as [->|Hne].
      * rewrite (filter_cons_True _ (ME _ _ _ _)) by (split; cbn; [done|lia]). rewrite filter_nil, last_snoc. cbn.
        by rewrite lookup_delete_eq.
      * rewrite (filter_cons_False _ (ME _ _ _ _)) by (intros [? _]; done). rewrite filter_nil, app_nil_r, IH.
        by rewrite lookup_delete_ne.
  - rewrite take_app_le by lia. rewrite <- IH. do 3 f_equal.
    destruct u; cbn [number]; rewrite (filter_cons_False _ (ME _ _ _ _)) by (intros [_ ?]; cbn in *; lia);
      by rewrite filter_nil, app_nil_r.
Qed.

(** A memtable is a snapshot-readable map.  Building a batch from any updates
    (keys and values within LevelDB's limits), stamping it with sequence number 1 and
    inserting it into a new memtable succeeds, and then a lookup of any key at any
    sequence number [s] finds exactly the value the first [s] updates leave for it:
    no later update is visible, and deleted or absent keys yield no value. *)
Theorem memtable_snapshots us :
  Forall mem_update_ok us -> small us ->
  exists b0 b m0 m, foldM apply_update us Clear = Ret b0 /\ SetSequence b0 1 = Ret b /\ MemTable_new = Ret m0 /\
    InsertInto BytewiseComparator b m0 = Ret (OK, m) /\
    forall k s, 0 <= s <= kMaxSequenceNumber -> Z.of_nat (length k) + 13 < 2 ^ 32 ->
      exists lk r, LookupKey_new k s = Ret lk /\ Get BytewiseComparator m lk = Ret r /\
        value_of r = state_after (take (Z.to_nat s) us) !! k.
Proof.
  intros Hok Hs. destruct (mem_new BytewiseComparator) as (m0 & E0 & Hrep0).
  destruct (insert_into_batch m0 [] 1 us) as (m & E & Hm); [by exists []|constructor|done|done|lia| |].
  { unfold small in Hs. rewrite max_sequence. lia. }
  exists (batch 0 us), (batch 1 us), m0, m. split_and!; [rewrite batch_new; by apply build_batch|apply batch_set_sequence|done|done|].
  intros k s Hseq Hk. destruct (get_hist m (number 1 us) k s Hm (number_increasing 1 us) Hseq Hk) as (lk & E1 & E2).
  exists lk, (read_hist k s (number 1 us)). split_and!; [done|done|]. rewrite read_hist_state. do 3 f_equal. lia.
Qed.

Lemma memtable_snapshots_witness :
  exists b0 b m0 m, foldM apply_update [UPut [x61] [x31]; UDelete [x61]; UPut [x62] [x32]] Clear = Ret b0 /\
    SetSequence b0 1 = Ret b /\ MemTable_new = Ret m0 /\ InsertInto BytewiseComparator b m0 = Ret (OK, m) /\
    (exists lk r, LookupKey_new [x61] 1 = Ret lk /\ Get BytewiseComparator m lk = Ret r /\ value_of r = Some [x31]) /\
    (exists lk r, LookupKey_new [x61] 3 = Ret lk /\ Get BytewiseComparator m lk = Ret r /\ value_of r = None).
Proof.
  destruct (memtable_snapshots [UPut [x61] [x31]; UDelete [x61]; UPut [x62] [x32]]) as (b0 & b & m0 & m & E1 & E2 & E3 & E4 & H).
  - repeat constructor; cbn; lia.
  - unfold small. cbn. lia.
  - exists b0, b, m0, m. split; [exact E1|]. split; [exact E2|]. split; [exact E3|]. split; [exact E4|].
    split; apply H; rewrite ?max_sequence; cbn; lia.
Defined.
