(* ===== verification/LogFormat.v ===== *)
(** * The write-ahead log (util/leveldb/db/log_format.h, log_writer.cc, log_reader.cc)

    Records are cut into fragments that never cross a 32 KiB block; each fragment
    has a checksum, a length and a type.  The files are interfaces
    ([WritableFile], [SequentialFile]); the theorems are about files that hold what
    was appended.  [addr] is the address of the buffers the checksum runs over. *)

From S2P Require Import Prelude Slice Coding Crc32c FileNames Status Files.
From stdpp Require Import strings.
#[local] Open Scope Z_scope.

(** ** log_format.h *)

Definition kZeroType : Z := 0.
Definition kFullType : Z := 1.
Definition kFirstType : Z := 2.
Definition kMiddleType : Z := 3.
Definition kLastType : Z := 4.
Definition kMaxRecordType : Z := kLastType.
Definition kBlockSize : Z := 32768.
Definition kHeaderSize : Z := 4 + 2 + 1.

(** ** log_writer.cc *)

Section Writer.
Context {F : Type} `{WritableFile F} (addr : Z).

Record Writer := MkWriter { dest_ : F; block_offset_ : Z; type_crc_ : list Z }.

Definition InitTypeCrc : outcome (list Z) :=
  foldM (fun i type_crc => c ← Value addr [to_byte i]; Ret (type_crc ++ [c])) (seqZ 0 (kMaxRecordType + 1)) [].

(** [Writer(dest)] and [Writer(dest, dest_length)] *)
Definition Writer_new (dest : F) : outcome Writer := t ← InitTypeCrc; Ret (MkWriter dest 0 t).
Definition Writer_reopen (dest : F) (dest_length : Z) : outcome Writer :=
  t ← InitTypeCrc; Ret (MkWriter dest (dest_length mod kBlockSize) t).

Definition EmitPhysicalRecord (w : Writer) (t : Z) (ptr : bytes) (n : Z) : outcome (Status * Writer) :=
  if negb (n <=? 0xffff) then Exit 134
  else if negb (block_offset_ w + kHeaderSize + n <=? kBlockSize) then Exit 134
  else
    tc ← table_at (type_crc_ w) t;
    let data := take (Z.to_nat n) ptr in
    crc ← Extend addr tc data;
    let buf := EncodeFixed32 true (Mask crc) ++ [to_byte (Z.land n 0xff); to_byte (Z.shiftr n 8); to_byte t] in
    let '(s, dest) := wf_Append buf (dest_ w) in
    let '(s, dest) :=
      if ok s then
        let '(s, dest) := wf_Append data dest in
        if ok s then wf_Flush dest else (s, dest)
      else (s, dest) in
    Ret (s, MkWriter dest (block_offset_ w + (kHeaderSize + n)) (type_crc_ w)).

Definition record_type (begin end_ : bool) : Z :=
  if begin && end_ then kFullType else if begin then kFirstType else if end_ then kLastType else kMiddleType.

(** The [do .. while (s.ok() && left > 0)] loop. *)
Fixpoint AddRecord_loop (fuel : nat) (w : Writer) (ptr : bytes) (left : Z) (begin : bool) : outcome (Status * Writer) :=
  match fuel with
  | O => Undef
  | S fuel' =>
      let leftover := kBlockSize - block_offset_ w in
      if negb (0 <=? leftover) then Exit 134
      else
        let w :=
          if leftover <? kHeaderSize then
            let dest := if 0 <? leftover then snd (wf_Append (replicate (Z.to_nat leftover) x00) (dest_ w)) else dest_ w in
            MkWriter dest 0 (type_crc_ w)
          else w in
        if negb (0 <=? kBlockSize - block_offset_ w - kHeaderSize) then Exit 134
        else
          let avail := kBlockSize - block_offset_ w - kHeaderSize in
          let fragment_length := if left <? avail then left else avail in
          let end_ := left =? fragment_length in
          '(s, w) ← EmitPhysicalRecord w (record_type begin end_) ptr fragment_length;
          let left := left - fragment_length in
          if ok s && (0 <? left) then AddRecord_loop fuel' w (drop (Z.to_nat fragment_length) ptr) left false
          else Ret (s, w)
  end.

(** Only the first fragment can be empty, so a round per byte and one more. *)
Definition AddRecord (w : Writer) (slice : bytes) : outcome (Status * Writer) :=
  AddRecord_loop (length slice + 1) w slice (Z.of_nat (length slice)) true.
End Writer.

Arguments Writer : clear implicits.

(** ** log_reader.cc *)

Definition kEof : Z := kMaxRecordType + 1.
Definition kBadRecord : Z := kMaxRecordType + 2.

Section Reader.
Context {F : Type} `{SequentialFile F} (addr : Z).

Record Reader := MkReader {
  file_ : F;
  reporter_ : option (list (Z * Status));
  checksum_ : bool;
  buffer_ : bytes;
  eof_ : bool;
  last_record_offset_ : Z;
  end_of_buffer_offset_ : Z;
  initial_offset_ : Z;
  resyncing_ : bool;
}.

Definition Reader_new (file : F) (reporter : option (list (Z * Status))) (checksum : bool) (initial_offset : Z) : Reader :=
  MkReader file reporter checksum [] false 0 0 initial_offset (0 <? initial_offset).

Definition set_buffer (r : Reader) (b : bytes) : Reader :=
  MkReader (file_ r) (reporter_ r) (checksum_ r) b (eof_ r) (last_record_offset_ r) (end_of_buffer_offset_ r)
    (initial_offset_ r) (resyncing_ r).
Definition set_eof (r : Reader) : Reader :=
  MkReader (file_ r) (reporter_ r) (checksum_ r) (buffer_ r) true (last_record_offset_ r) (end_of_buffer_offset_ r)
    (initial_offset_ r) (resyncing_ r).
Definition set_last (r : Reader) (o : Z) : Reader :=
  MkReader (file_ r) (reporter_ r) (checksum_ r) (buffer_ r) (eof_ r) o (end_of_buffer_offset_ r)
    (initial_offset_ r) (resyncing_ r).
Definition set_synced (r : Reader) : Reader :=
  MkReader (file_ r) (reporter_ r) (checksum_ r) (buffer_ r) (eof_ r) (last_record_offset_ r) (end_of_buffer_offset_ r)
    (initial_offset_ r) false.

(** The reporter collects what it is told. *)
Definition ReportDrop (r : Reader) (n : Z) (reason : Status) : Reader :=
  match reporter_ r with
  | Some l =>
      if initial_offset_ r <=? u64 (end_of_buffer_offset_ r - Z.of_nat (length (buffer_ r)) - n)
      then MkReader (file_ r) (Some (l ++ [(n, reason)])) (checksum_ r) (buffer_ r) (eof_ r) (last_record_offset_ r)
             (end_of_buffer_offset_ r) (initial_offset_ r) (resyncing_ r)
      else r
  | None => r
  end.

Definition ReportCorruption (r : Reader) (n : Z) (reason : bytes) : outcome Reader :=
  s ← Corruption reason []; Ret (ReportDrop r n s).

Definition SkipToInitialBlock (r : Reader) : bool * Reader :=
  let offset_in_block := initial_offset_ r mod kBlockSize in
  let block_start_location := u64 (initial_offset_ r - offset_in_block) in
  let block_start_location :=
    if kBlockSize - 6 <? offset_in_block then u64 (block_start_location + kBlockSize) else block_start_location in
  let r := MkReader (file_ r) (reporter_ r) (checksum_ r) (buffer_ r) (eof_ r) (last_record_offset_ r)
             block_start_location (initial_offset_ r) (resyncing_ r) in
  if 0 <? block_start_location then
    let '(s, f) := sf_Skip block_start_location (file_ r) in
    let r := MkReader f (reporter_ r) (checksum_ r) (buffer_ r) (eof_ r) (last_record_offset_ r)
               (end_of_buffer_offset_ r) (initial_offset_ r) (resyncing_ r) in
    if negb (ok s) then (false, ReportDrop r block_start_location s) else (true, r)
  else (true, r).

(** The part of the loop body after the buffer is known to hold a header; the
    result is the record type and the new [*result]. *)
Definition parse_physical (r : Reader) (result : bytes) : outcome (Z * bytes * Reader) :=
  let header := buffer_ r in
  h4 ← byte_at header 4; h5 ← byte_at header 5; h6 ← byte_at header 6;
  let type := u32 (sb (to_byte h6)) in
  let length_ := Z.lor h4 (Z.shiftl h5 8) in
  if Z.of_nat (length header) <? kHeaderSize + length_ then
    let r' := set_buffer r [] in
    if negb (eof_ r) then r' ← ReportCorruption r' (Z.of_nat (length header)) (str "bad record length"); Ret (kBadRecord, result, r')
    else Ret (kEof, result, r')
  else if (type =? kZeroType) && (length_ =? 0) then Ret (kBadRecord, result, set_buffer r [])
  else
    good ← (if checksum_ r then
              e ← DecodeFixed32 true header;
              actual ← Value addr (take (Z.to_nat (1 + length_)) (drop 6 header));
              Ret (actual =? Unmask e)
            else Ret true);
    if negb good then
      r' ← ReportCorruption (set_buffer r []) (Z.of_nat (length header)) (str "checksum mismatch");
      Ret (kBadRecord, result, r')
    else
      let r := set_buffer r (drop (Z.to_nat (kHeaderSize + length_)) header) in
      if u64 (end_of_buffer_offset_ r - Z.of_nat (length (buffer_ r)) - kHeaderSize - length_) <? initial_offset_ r
      then Ret (kBadRecord, [], r)
      else Ret (type, take (Z.to_nat length_) (drop (Z.to_nat kHeaderSize) header), r).

Fixpoint ReadPhysicalRecord (fuel : nat) (r : Reader) (result : bytes) : outcome (Z * bytes * Reader) :=
  match fuel with
  | O => Undef
  | S fuel' =>
      if Z.of_nat (length (buffer_ r)) <? kHeaderSize then
        if negb (eof_ r) then
          let '(s, b, f) := sf_Read kBlockSize (file_ r) in
          let r := MkReader f (reporter_ r) (checksum_ r) b (eof_ r) (last_record_offset_ r)
                     (u64 (end_of_buffer_offset_ r + Z.of_nat (length b))) (initial_offset_ r) (resyncing_ r) in
          if negb (ok s) then Ret (kEof, result, set_eof (ReportDrop (set_buffer r []) kBlockSize s))
          else if Z.of_nat (length b) <? kBlockSize then ReadPhysicalRecord fuel' (set_eof r) result
          else ReadPhysicalRecord fuel' r result
        else Ret (kEof, result, set_buffer r [])
      else parse_physical r result
  end.

(** Three rounds: a read, at most one more look at a short buffer. *)
Definition physical_fuel : nat := 3.

(** The [while (true)] loop of [ReadRecord]; [Some record] is [return true]. *)
Fixpoint ReadRecord_loop (fuel : nat) (r : Reader) (fragment scratch : bytes) (in_frag : bool) (prospective : Z) :
    outcome (option bytes * Reader) :=
  match fuel with
  | O => Undef
  | S fuel' =>
      '(t, fragment, r) ← ReadPhysicalRecord physical_fuel r fragment;
      let physical_record_offset :=
        u64 (end_of_buffer_offset_ r - Z.of_nat (length (buffer_ r)) - kHeaderSize - Z.of_nat (length fragment)) in
      if resyncing_ r && (t =? kMiddleType) then ReadRecord_loop fuel' r fragment scratch in_frag prospective
      else if resyncing_ r && (t =? kLastType) then ReadRecord_loop fuel' (set_synced r) fragment scratch in_frag prospective
      else
        let r := if resyncing_ r then set_synced r else r in
        if t =? kFullType then
          r ← (if in_frag && negb (bool_decide (scratch = []))
               then ReportCorruption r (Z.of_nat (length scratch)) (str "partial record without end(1)") else Ret r);
          Ret (Some fragment, set_last r physical_record_offset)
        else if t =? kFirstType then
          r ← (if in_frag && negb (bool_decide (scratch = []))
               then ReportCorruption r (Z.of_nat (length scratch)) (str "partial record without end(2)") else Ret r);
          ReadRecord_loop fuel' r fragment fragment true physical_record_offset
        else if t =? kMiddleType then
          if negb in_frag then
            r ← ReportCorruption r (Z.of_nat (length fragment)) (str "missing start of fragmented record(1)");
            ReadRecord_loop fuel' r fragment scratch in_frag prospective
          else ReadRecord_loop fuel' r fragment (scratch ++ fragment) in_frag prospective
        else if t =? kLastType then
          if negb in_frag then
            r ← ReportCorruption r (Z.of_nat (length fragment)) (str "missing start of fragmented record(2)");
            ReadRecord_loop fuel' r fragment scratch in_frag prospective
          else Ret (Some (scratch ++ fragment), set_last r prospective)
        else if t =? kEof then Ret (None, r)
        else if t =? kBadRecord then
          if in_frag then
            r ← ReportCorruption r (Z.of_nat (length scratch)) (str "error in middle of record");
            ReadRecord_loop fuel' r fragment [] false prospective
          else ReadRecord_loop fuel' r fragment scratch in_frag prospective
        else
          r ← ReportCorruption r (Z.of_nat (length fragment) + (if in_frag then Z.of_nat (length scratch) else 0))
                (str "unknown record type " ++ print_int t);
          ReadRecord_loop fuel' r fragment [] false prospective
  end.

Definition ReadRecord (fuel : nat) (r : Reader) : outcome (option bytes * Reader) :=
  let '(go, r) := if last_record_offset_ r <? initial_offset_ r then SkipToInitialBlock r else (true, r) in
  if negb go then Ret (None, r) else ReadRecord_loop fuel r [] [] false 0.

Definition LastRecordOffset (r : Reader) : Z := last_record_offset_ r.
End Reader.

Arguments Reader : clear implicits.

(** ** The format as a function *)

Definition enc_frame (t : Z) (data : bytes) : bytes :=
  EncodeFixed32 true (Mask (crc32c_ref 0 (to_byte t :: data))) ++
  [to_byte (Z.land (Z.of_nat (length data)) 0xff); to_byte (Z.shiftr (Z.of_nat (length data)) 8); to_byte t] ++ data.

(** The trailer of a block too short for a header, and the offset after it. *)
Definition pad (o : Z) : bytes := if kBlockSize - o <? kHeaderSize then replicate (Z.to_nat (kBlockSize - o)) x00 else [].
Definition off (o : Z) : Z := if kBlockSize - o <? kHeaderSize then 0 else o.

(** The fragments of a record written at block offset [o], and the offset after them. *)
Fixpoint frags (fuel : nat) (o : Z) (begin : bool) (data : bytes) : bytes * Z :=
  let len := Z.of_nat (length data) in
  let avail := kBlockSize - off o - kHeaderSize in
  let n := if len <? avail then len else avail in
  let e := len =? n in
  let here := pad o ++ enc_frame (record_type begin e) (take (Z.to_nat n) data) in
  if e then (here, off o + (kHeaderSize + n))
  else match fuel with
       | O => (here, off o + (kHeaderSize + n))
       | S fuel' => let '(rest, o') := frags fuel' (off o + (kHeaderSize + n)) false (drop (Z.to_nat n) data) in (here ++ rest, o')
       end.

(** Rounds enough: one per byte, one less at the end of a block. *)
Definition rounds_ok (fuel : nat) (o : Z) (data : bytes) : Prop :=
  (length data <= fuel)%nat \/ (o = kBlockSize /\ (length data <= S fuel)%nat).

Lemma off_range o : 0 <= o <= kBlockSize -> 0 <= off o <= kBlockSize - kHeaderSize.
Proof. unfold off, kBlockSize, kHeaderSize. intros. case_match; lia. Qed.

(** When a fragment does not finish its record it fills the block. *)
Lemma frag_step o (data : bytes) : 0 <= o <= kBlockSize ->
  let len := Z.of_nat (length data) in
  let avail := kBlockSize - off o - kHeaderSize in
  let n := if len <? avail then len else avail in
  0 <= n <= len /\ n <= kBlockSize - kHeaderSize /\ off o + (kHeaderSize + n) <= kBlockSize /\
  ((len =? n) = false -> off o + (kHeaderSize + n) = kBlockSize /\ n < len /\ (o = kBlockSize -> 0 < n)).
Proof.
  intros Ho len avail n. pose proof (off_range o Ho) as Hoff. unfold n, avail, len in *.
  destruct (Z.ltb_spec (Z.of_nat (length data)) (kBlockSize - off o - kHeaderSize)) as [Hlt|Hge].
  - split_and!; [lia|lia|lia|lia|]. intros E. by rewrite Z.eqb_refl in E.
  - split_and!; [lia|lia|lia|lia|]. intros E%Z.eqb_neq. split_and!; [lia|lia|]. intros ->. unfold off.
    rewrite Z.sub_diag. change (0 <? kHeaderSize) with true. cbn iota. unfold kHeaderSize, kBlockSize. lia.
Qed.

Lemma rounds_step fuel o (data : bytes) n : rounds_ok (S fuel) o data -> 0 <= n < Z.of_nat (length data) -> (o = kBlockSize -> 0 < n) ->
  rounds_ok fuel kBlockSize (drop (Z.to_nat n) data).
Proof. intros [H|[-> H]] Hn Ho; right; rewrite length_drop; (split; [done|]); [lia|]. specialize (Ho eq_refl). lia. Qed.

Lemma rounds_zero o (data : bytes) n : rounds_ok 0 o data -> 0 <= n < Z.of_nat (length data) -> (o = kBlockSize -> 0 < n) -> False.
Proof. intros [H|[-> H]] Hn Ho; [lia|]. specialize (Ho eq_refl). lia. Qed.

(** ** The writer produces the format *)

Definition type_crcs : list Z := (fun i => crc32c_ref 0 [to_byte i]) <$> [0; 1; 2; 3; 4].

Section WriterSpec.
Context (addr : Z) (Haddr : 0 <= addr).

Lemma init_type_crc : InitTypeCrc addr = Ret type_crcs.
Proof.
  unfold InitTypeCrc. change (seqZ 0 (kMaxRecordType + 1)) with [0; 1; 2; 3; 4]. cbn [foldM].
  unfold Value. repeat (rewrite extend_ok by (done || lia); cbn [mbind outcome_bind app]). reflexivity.
Qed.

Lemma type_crcs_at t : 1 <= t <= 4 -> table_at type_crcs t = Ret (crc32c_ref 0 [to_byte t]).
Proof. intros Ht. assert (t = 1 \/ t = 2 \/ t = 3 \/ t = 4) as [->|[->|[->| ->]]] by lia; reflexivity. Qed.

Lemma record_type_range b e : 1 <= record_type b e <= 4.
Proof. destruct b, e; vm_compute; split; discriminate. Qed.

Lemma emit_physical_spec f o t ptr n : 1 <= t <= 4 -> 0 <= n <= Z.of_nat (length ptr) -> n <= 0xffff -> o + kHeaderSize + n <= kBlockSize ->
  EmitPhysicalRecord addr (MkWriter f o type_crcs) t ptr n =
    Ret (OK, MkWriter (f ++ enc_frame t (take (Z.to_nat n) ptr)) (o + (kHeaderSize + n)) type_crcs).
Proof.
  intros Ht Hn Hf Hb. unfold EmitPhysicalRecord. cbn [block_offset_ type_crc_ dest_].
  replace (n <=? 65535) with true by lia. replace (_ <=? kBlockSize) with true by lia. cbn [negb].
  rewrite type_crcs_at by done. run.
  rewrite extend_ok by (done || apply crc_ref_range; lia). run. rewrite crc_ref_app.
  cbn [wf_Append wf_Flush bytes_writable]. change (ok OK) with true. cbn iota. f_equal. f_equal. f_equal.
  unfold enc_frame. rewrite length_take, Nat.min_l, Z2Nat.id by lia. by rewrite <- !app_assoc.
Qed.

(** One round of the loop. *)
Lemma add_record_round fuel f o data begin : 0 <= o <= kBlockSize ->
  let len := Z.of_nat (length data) in
  let avail := kBlockSize - off o - kHeaderSize in
  let n := if len <? avail then len else avail in
  let here := pad o ++ enc_frame (record_type begin (len =? n)) (take (Z.to_nat n) data) in
  AddRecord_loop addr (S fuel) (MkWriter f o type_crcs) data len begin =
    if len =? n then Ret (OK, MkWriter (f ++ here) (off o + (kHeaderSize + n)) type_crcs)
    else AddRecord_loop addr fuel (MkWriter (f ++ here) (off o + (kHeaderSize + n)) type_crcs)
           (drop (Z.to_nat n) data) (len - n) false.
Proof.
  intros Ho len avail n here. destruct (frag_step o data Ho) as (Hn & Hn2 & Hb & _). fold len avail in Hn, Hn2, Hb. fold n in Hn, Hn2, Hb.
  cbn [AddRecord_loop block_offset_]. replace (0 <=? kBlockSize - o) with true by lia. cbn [negb].
  set (w1 := if kBlockSize - o <? kHeaderSize then _ else _).
  assert (w1 = MkWriter (f ++ pad o) (off o) type_crcs) as ->.
  { unfold w1, pad, off. cbn [dest_ type_crc_]. destruct (Z.ltb_spec (kBlockSize - o) kHeaderSize); [|by rewrite app_nil_r].
    cbn [wf_Append bytes_writable snd]. destruct (Z.ltb_spec 0 (kBlockSize - o)); [done|].
    replace (kBlockSize - o) with 0 by lia. cbn. by rewrite app_nil_r. }
  cbn [block_offset_]. pose proof (off_range o Ho). replace (0 <=? kBlockSize - off o - kHeaderSize) with true by lia.
  cbn [negb]. fold avail. fold n. rewrite emit_physical_spec; [|apply record_type_range|lia|unfold kBlockSize, kHeaderSize in *; lia|lia].
  run. change (ok OK) with true. cbn [andb].
  assert ((0 <? len - n) = negb (len =? n)) as -> by (destruct (Z.eqb_spec len n); cbn; lia).
  rewrite <- app_assoc. unfold here. by destruct (len =? n).
Qed.

Lemma add_record_loop fuel f o data begin : 0 <= o <= kBlockSize -> rounds_ok fuel o data ->
  AddRecord_loop addr (S fuel) (MkWriter f o type_crcs) data (Z.of_nat (length data)) begin =
    Ret (OK, MkWriter (f ++ fst (frags fuel o begin data)) (snd (frags fuel o begin data)) type_crcs).
Proof.
  revert f o data begin. induction fuel as [|fuel IH]; intros f o data begin Ho Hr; rewrite add_record_round by done;
    cbn [frags]; destruct (frag_step o data Ho) as (Hn & Hn2 & Hb & Hne); destruct (_ =? _) eqn:E; try done;
    destruct (Hne eq_refl) as (Hfull & Hlt & Hpos).
  - exfalso. eapply rounds_zero; [exact Hr| |exact Hpos]. lia.
  - set (n := if _ <? _ then _ else _) in *. rewrite Hfull.
    replace (Z.of_nat (length data) - n) with (Z.of_nat (length (drop (Z.to_nat n) data))) by len.
    rewrite IH; [|unfold kBlockSize; lia|eapply rounds_step; [exact Hr|lia|exact Hpos]].
    destruct (frags fuel kBlockSize false (drop (Z.to_nat n) data)) as [rest o']. cbn [fst snd]. by rewrite <- !app_assoc.
Qed.

(** [AddRecord] appends the fragments and moves the block offset. *)
Lemma add_record_spec f o data : 0 <= o <= kBlockSize ->
  AddRecord addr (MkWriter f o type_crcs) data =
    Ret (OK, MkWriter (f ++ fst (frags (length data) o true data)) (snd (frags (length data) o true data)) type_crcs).
Proof. intros Ho. unfold AddRecord. rewrite Nat.add_1_r. apply add_record_loop; [done|]. left. lia. Qed.
End WriterSpec.

Lemma frags_offset fuel o begin data : 0 <= o <= kBlockSize -> 0 <= snd (frags fuel o begin data) <= kBlockSize.
Proof.
  revert o begin data. induction fuel as [|fuel IH]; intros o begin data Ho; cbn [frags];
    destruct (frag_step o data Ho) as (Hn & _ & Hb & _); pose proof (off_range o Ho);
    set (n := if _ <? _ then _ else _) in *; destruct (_ =? n); cbn [snd]; try (unfold kHeaderSize in *; lia).
  specialize (IH (off o + (kHeaderSize + n)) false (drop (Z.to_nat n) data)).
  destruct (frags fuel _ false _) as [rest o']. cbn [snd] in *. apply IH. unfold kHeaderSize in *. lia.
Qed.

(** ** The reader parses the format *)

Section ReaderSpec.
Context (addr : Z) (Haddr : 0 <= addr).

(** The reader is at block offset [o] with [d] left to read: its buffer is the rest
    of the block, short only when the file ended in it. *)
Record at_offset (rep : option (list (Z * Status))) (r : Reader bytes) (o : Z) (d : bytes) : Prop := {
  at_checksum : checksum_ r = true;
  at_initial : initial_offset_ r = 0;
  at_synced : resyncing_ r = false;
  at_reporter : reporter_ r = rep;
  at_data : d = buffer_ r ++ file_ r;
  at_block : (eof_ r = false /\ Z.of_nat (length (buffer_ r)) = kBlockSize - o) \/
             (eof_ r = true /\ file_ r = [] /\ Z.of_nat (length (buffer_ r)) < kBlockSize - o);
}.

Lemma frame_length t data : Z.of_nat (length (enc_frame t data)) = kHeaderSize + Z.of_nat (length data).
Proof. unfold enc_frame. rewrite !length_app. change (length (EncodeFixed32 true _)) with 4%nat. cbn [length]. unfold kHeaderSize. lia. Qed.

Lemma frame_bytes t data rest : Z.of_nat (length data) < 65536 -> 1 <= t <= 4 ->
  let b := enc_frame t data ++ rest in
  byte_at b 4 = Ret (Z.of_nat (length data) mod 256) /\ byte_at b 5 = Ret (Z.of_nat (length data) / 256) /\ byte_at b 6 = Ret t /\
  drop 6 b = to_byte t :: data ++ rest /\ DecodeFixed32 true b = Ret (Mask (crc32c_ref 0 (to_byte t :: data))).
Proof.
  intros Hl Ht b. unfold b, enc_frame. set (crc := Mask _). rewrite <- !app_assoc.
  assert (forall rest', DecodeFixed32 true (EncodeFixed32 true crc ++ rest') = Ret crc) as ->
    by (intros; apply decode_fixed32, unmask_mask, crc_ref_range; lia).
  assert (exists c0 c1 c2 c3, EncodeFixed32 true crc = [c0; c1; c2; c3]) as (c0 & c1 & c2 & c3 & ->) by (do 4 eexists; reflexivity).
  cbn [app]. unfold byte_at. cbn [lookup list_lookup].
  rewrite land_255, ub_to_byte, Z.mod_mod, Z.shiftr_div_pow2, ub_to_byte_small by
    (lia || (split; [apply Z.div_pos; lia|apply Z.div_lt_upper_bound; lia])).
  rewrite ub_to_byte_small by lia. done.
Qed.

Lemma parse_frame (r : Reader bytes) t data rest res :
  checksum_ r = true -> initial_offset_ r = 0 -> buffer_ r = enc_frame t data ++ rest ->
  1 <= t <= 4 -> Z.of_nat (length data) < 65536 ->
  parse_physical addr r res = Ret (t, data, set_buffer r rest).
Proof.
  intros Hc Hi Hb Ht Hl. unfold parse_physical. rewrite Hb.
  destruct (frame_bytes t data rest Hl Ht) as (-> & -> & -> & Hdrop & ->). run.
  assert (u32 (sb (to_byte t)) = t) as ->.
  { unfold sb. rewrite ub_to_byte_small by lia. replace (t <? 128) with true by lia. apply u32_small. lia. }
  pose proof (Z.mod_pos_bound (Z.of_nat (length data)) 256 ltac:(lia)).
  rewrite (lor_disjoint _ _ 8) by (change (2 ^ 8) with 256; lia). change (2 ^ 8) with 256.
  replace (_ mod 256 + _ / 256 * 256) with (Z.of_nat (length data)) by (pose proof (Z.div_mod (Z.of_nat (length data)) 256); lia).
  assert (Z.of_nat (length (enc_frame t data ++ rest)) = kHeaderSize + Z.of_nat (length data) + Z.of_nat (length rest)) as Hlen
    by (rewrite length_app, Nat2Z.inj_add, frame_length; lia).
  rewrite Hlen. replace (_ <? _) with false by lia.
  replace (t =? kZeroType) with false by (unfold kZeroType; lia). cbn [andb]. rewrite Hc, Hdrop. run.
  assert (take (Z.to_nat (1 + Z.of_nat (length data))) (to_byte t :: data ++ rest) = to_byte t :: data) as ->.
  { replace (Z.to_nat _) with (S (length data)) by lia. cbn [take firstn]. f_equal. apply take_app_length. }
  unfold Value. rewrite extend_ok by (done || lia). run.
  destruct (unmask_mask (crc32c_ref 0 (to_byte t :: data))) as [-> _]; [apply crc_ref_range; lia|]. rewrite Z.eqb_refl. cbn [negb].
  unfold set_buffer. cbn [initial_offset_ buffer_ end_of_buffer_offset_]. rewrite Hi.
  replace (_ <? 0) with false by (symmetry; apply Z.ltb_ge; apply u64_range).
  replace (Z.to_nat (kHeaderSize + Z.of_nat (length data))) with (length (enc_frame t data)) by (pose proof (frame_length t data); unfold kHeaderSize in *; lia).
  rewrite drop_app_length. f_equal. f_equal. f_equal.
  assert (drop (Z.to_nat kHeaderSize) (enc_frame t data ++ rest) = data ++ rest) as ->.
  { change (Z.to_nat kHeaderSize) with (6 + 1)%nat. by rewrite <- drop_drop, Hdrop. }
  rewrite Nat2Z.id. apply take_app_length.
Qed.

(** A block is read when the rest of the last one is too short for a header. *)
Lemma refill rep (r : Reader bytes) o d n res : at_offset rep r o d -> eof_ r = false -> kBlockSize - o < kHeaderSize ->
  exists r1, ReadPhysicalRecord addr (S n) r res = ReadPhysicalRecord addr n r1 res /\
    at_offset rep r1 0 (drop (Z.to_nat (kBlockSize - o)) d).
Proof.
  intros [Hc Hi Hs Hrep Hd [[He Hl]|[He _]]] Heof Ho; [|congruence]. cbn [ReadPhysicalRecord].
  replace (_ <? kHeaderSize) with true by lia. rewrite He. cbn [negb sf_Read bytes_sequential].
  change (ok OK) with true. cbn [negb].
  assert (drop (Z.to_nat (kBlockSize - o)) d = file_ r) as ->
    by (rewrite Hd; apply drop_app_length'; lia).
  assert (Z.of_nat (length (take (Z.to_nat kBlockSize) (file_ r))) = Z.min kBlockSize (Z.of_nat (length (file_ r)))) as Ht
    by (rewrite length_take; unfold kBlockSize; lia).
  destruct (Z.ltb_spec (Z.of_nat (length (take (Z.to_nat kBlockSize) (file_ r)))) kBlockSize) as [Hlt|Hge];
    eexists; (split; [reflexivity|]); split;
    cbn [checksum_ initial_offset_ resyncing_ reporter_ buffer_ file_ eof_ set_eof]; try done; try (by rewrite take_drop).
  - right. split_and!; [done| |lia]. apply drop_ge. lia.
  - left. split; [done|]. lia.
Qed.

Lemma frame_in_buffer rep r o t data d' : at_offset rep r o (enc_frame t data ++ d') -> 0 <= o ->
  o + (kHeaderSize + Z.of_nat (length data)) <= kBlockSize ->
  exists rest, buffer_ r = enc_frame t data ++ rest /\ rest ++ file_ r = d'.
Proof.
  intros [Hc Hi Hs Hrep Hd Hb] Ho Hfit. pose proof (frame_length t data) as Hf.
  assert (length (enc_frame t data) <= length (buffer_ r))%nat as Hle.
  { destruct Hb as [[_ H]|(_ & Hfile & H)]; [lia|]. rewrite Hfile, app_nil_r in Hd. rewrite <- Hd, length_app. lia. }
  apply app_eq_inv in Hd as [(k & E1 & E2)|(k & E1 & E2)].
  - rewrite E1, length_app in Hle. destruct k; [|cbn in Hle; lia]. rewrite app_nil_r in E1.
    exists []. rewrite app_nil_r. split; [done|]. by rewrite E2.
  - eauto.
Qed.

Lemma physical_parse (r : Reader bytes) n res : kHeaderSize <= Z.of_nat (length (buffer_ r)) ->
  ReadPhysicalRecord addr (S n) r res = parse_physical addr r res.
Proof. intros H. cbn [ReadPhysicalRecord]. by replace (_ <? kHeaderSize) with false by lia. Qed.

Lemma physical_eof (r : Reader bytes) n res : Z.of_nat (length (buffer_ r)) < kHeaderSize -> eof_ r = true ->
  ReadPhysicalRecord addr (S n) r res = Ret (kEof, res, set_buffer r []).
Proof. intros H He. cbn [ReadPhysicalRecord]. replace (_ <? kHeaderSize) with true by lia. by rewrite He. Qed.

Lemma frame_read rep r o t data d' n res :
  at_offset rep r o (enc_frame t data ++ d') -> 0 <= o -> 1 <= t <= 4 ->
  o + (kHeaderSize + Z.of_nat (length data)) <= kBlockSize ->
  exists r', ReadPhysicalRecord addr (S n) r res = Ret (t, data, r') /\
    at_offset rep r' (o + (kHeaderSize + Z.of_nat (length data))) d'.
Proof.
  intros Hat Ho Ht Hfit. destruct (frame_in_buffer _ _ _ _ _ _ Hat Ho Hfit) as (rest & Hb & Hrest).
  pose proof (frame_length t data) as Hf. destruct Hat as [Hc Hi Hs Hrep Hd Hblk].
  assert (Z.of_nat (length (buffer_ r)) = kHeaderSize + Z.of_nat (length data) + Z.of_nat (length rest)) as Hl
    by (rewrite Hb, length_app; lia).
  exists (set_buffer r rest). split.
  - rewrite physical_parse by lia. apply parse_frame; try done. unfold kHeaderSize, kBlockSize in *. lia.
  - split; cbn [checksum_ initial_offset_ resyncing_ reporter_ buffer_ file_ eof_ set_buffer]; try done.
    destruct Hblk as [[He H]|(He & Hfile & H)]; [left|right]; (split; [done|]); [lia|]. split; [done|lia].
Qed.

(** ReadPhysicalRecord on a complete fragment. *)
Lemma physical_complete rep r o t data d' res :
  at_offset rep r o (pad o ++ enc_frame t data ++ d') -> 0 <= o <= kBlockSize -> 1 <= t <= 4 ->
  off o + (kHeaderSize + Z.of_nat (length data)) <= kBlockSize ->
  exists r', ReadPhysicalRecord addr physical_fuel r res = Ret (t, data, r') /\
    at_offset rep r' (off o + (kHeaderSize + Z.of_nat (length data))) d'.
Proof.
  unfold pad, off. intros Hat Ho Ht Hfit. destruct (Z.ltb_spec (kBlockSize - o) kHeaderSize) as [Hlt|Hge].
  - assert (eof_ r = false) as Heof.
    { destruct Hat as [_ _ _ _ Hd [[? _]|(_ & Hf & Hl)]]; [done|]. rewrite Hf, app_nil_r in Hd.
      rewrite <- Hd, length_app, length_replicate in Hl. lia. }
    destruct (refill _ _ _ _ 2 res Hat Heof Hlt) as (r1 & E & Hat1).
    rewrite drop_app_length' in Hat1 by (by rewrite length_replicate).
    change physical_fuel with 3%nat. rewrite E. apply frame_read; [done|lia|done|done].
  - apply frame_read; [done|lia|done|done].
Qed.

(** A fragment cut short by the end of the file reads as the end of the log. *)
Lemma frame_truncated rep r o t data d n res :
  at_offset rep r o d -> 0 <= o -> 1 <= t <= 4 -> o + (kHeaderSize + Z.of_nat (length data)) <= kBlockSize ->
  d `prefix_of` enc_frame t data -> (length d < length (enc_frame t data))%nat ->
  exists r', ReadPhysicalRecord addr (S n) r res = Ret (kEof, res, r') /\ reporter_ r' = rep /\ resyncing_ r' = false.
Proof.
  intros [Hc Hi Hs Hrep Hd Hblk] Ho Ht Hfit [tl Htl] Hlen. pose proof (frame_length t data) as Hf.
  assert (eof_ r = true /\ file_ r = []) as [He Hfile].
  { destruct Hblk as [[_ H]|(? & ? & _)]; [|done]. rewrite Hd, length_app in Hlen. lia. }
  rewrite Hfile, app_nil_r in Hd. subst d.
  destruct (Z.ltb_spec (Z.of_nat (length (buffer_ r))) kHeaderSize) as [Hshort|Hlong].
  { rewrite physical_eof by done. eauto. }
  rewrite physical_parse by done. unfold parse_physical.
  destruct (frame_bytes t data [] ltac:(unfold kHeaderSize, kBlockSize in *; lia) Ht) as (E4 & E5 & E6 & _).
  rewrite app_nil_r, Htl in E4, E5, E6.
  assert (forall i, (i < 7)%nat -> byte_at (buffer_ r ++ tl) i = byte_at (buffer_ r) i) as Hbyte
    by (intros i Hi7; unfold byte_at; by rewrite lookup_app_l by (unfold kHeaderSize in *; lia)).
  rewrite <- !Hbyte, E4, E5, E6 by lia. run.
  pose proof (Z.mod_pos_bound (Z.of_nat (length data)) 256 ltac:(lia)).
  rewrite (lor_disjoint _ _ 8) by (change (2 ^ 8) with 256; lia). change (2 ^ 8) with 256.
  replace (_ mod 256 + _ / 256 * 256) with (Z.of_nat (length data)) by (pose proof (Z.div_mod (Z.of_nat (length data)) 256); lia).
  replace (_ <? _) with true by lia. rewrite He. cbn [negb]. eauto.
Qed.

Lemma prefix_app_cases (d a b : bytes) : d `prefix_of` a ++ b ->
  (d `prefix_of` a /\ length d < length a)%nat \/ exists d', d = a ++ d' /\ d' `prefix_of` b.
Proof.
  intros [k Hk]. symmetry in Hk. destruct (app_eq_inv _ _ _ _ Hk) as [(m & -> & ->)|(m & -> & ->)].
  - right. exists m. split; [done|]. by exists k.
  - destruct m as [|x m]; [right; exists []; rewrite !app_nil_r; split; [done|by exists b]|left].
    split; [by exists (x :: m)|rewrite length_app; cbn; lia].
Qed.

Lemma physical_truncated rep r o t data d res :
  at_offset rep r o d -> 0 <= o <= kBlockSize -> 1 <= t <= 4 -> off o + (kHeaderSize + Z.of_nat (length data)) <= kBlockSize ->
  d `prefix_of` pad o ++ enc_frame t data -> (length d < length (pad o ++ enc_frame t data))%nat ->
  exists r', ReadPhysicalRecord addr physical_fuel r res = Ret (kEof, res, r') /\ reporter_ r' = rep /\ resyncing_ r' = false.
Proof.
  unfold pad, off. intros Hat Ho Ht Hfit Hp Hlen. destruct (Z.ltb_spec (kBlockSize - o) kHeaderSize) as [Hlt|Hge].
  2:{ eapply (frame_truncated rep r o t data d 2 res); try done; lia. }
  pose proof Hat as [Hc Hi Hs Hrep Hd Hblk].
  destruct (prefix_app_cases _ _ _ Hp) as [[_ Hshort]|(d' & Ed & Hp')].
  - rewrite length_replicate in Hshort.
    destruct Hblk as [[_ H]|(He & Hf & H)]; [rewrite Hd, length_app in Hshort; lia|].
    change physical_fuel with 3%nat. rewrite physical_eof by (done || lia). eauto.
  - assert (eof_ r = false) as Heof.
    { destruct Hblk as [[? _]|(_ & Hf & Hl)]; [done|]. rewrite Hf, app_nil_r in Hd.
      rewrite <- Hd, Ed, length_app, length_replicate in Hl. lia. }
    destruct (refill _ _ _ _ 2 res Hat Heof Hlt) as (r1 & E & Hat1).
    rewrite Ed, drop_app_length' in Hat1 by (by rewrite length_replicate).
    change physical_fuel with 3%nat. rewrite E. eapply (frame_truncated rep r1 0 t data d'); try done; try lia.
    rewrite Ed, !length_app in Hlen. lia.
Qed.

Lemma at_set_last rep r o d x : at_offset rep r o d -> at_offset rep (set_last r x) o d.
Proof. intros []. by split. Qed.

(** What the loop of [ReadRecord] does with a fragment of a record. *)
Lemma loop_fragment fuel r fr scratch begin e pro data r' rep o d :
  ReadPhysicalRecord addr physical_fuel r fr = Ret (record_type begin e, data, r') -> at_offset rep r' o d ->
  exists pro' r2, at_offset rep r2 o d /\
  ReadRecord_loop addr (S fuel) r fr scratch (negb begin) pro =
    if e then Ret (Some (if begin then data else scratch ++ data), r2)
    else ReadRecord_loop addr fuel r2 data (if begin then data else scratch ++ data) true pro'.
Proof.
  intros E Hat. cbn [ReadRecord_loop]. rewrite E. run. rewrite (at_synced _ _ _ _ Hat). cbn [andb].
  destruct begin, e.
  - exists 0. eexists. split; [|reflexivity]. by apply at_set_last.
  - eexists _, r'. split; [done|reflexivity].
  - exists 0. eexists. split; [|reflexivity]. by apply at_set_last.
  - eexists _, r'. split; [done|reflexivity].
Qed.

Lemma loop_eof fuel r fr scratch in_frag pro res r' : ReadPhysicalRecord addr physical_fuel r fr = Ret (kEof, res, r') ->
  resyncing_ r' = false -> ReadRecord_loop addr (S fuel) r fr scratch in_frag pro = Ret (None, r').
Proof. intros E Hs. cbn [ReadRecord_loop]. rewrite E. run. by rewrite Hs. Qed.

Lemma record_complete rep k : forall o begin data d' r fuel fr scratch pro,
  at_offset rep r o (fst (frags k o begin data) ++ d') -> 0 <= o <= kBlockSize -> rounds_ok k o data ->
  (length (fst (frags k o begin data)) < fuel)%nat ->
  exists r', ReadRecord_loop addr fuel r fr scratch (negb begin) pro =
      Ret (Some (if begin then data else scratch ++ data), r') /\ at_offset rep r' (snd (frags k o begin data)) d'.
Proof.
  induction k as [|k IH]; intros o begin data d' r fuel fr scratch pro Hat Ho Hr Hfuel; cbn [frags] in *;
    destruct (frag_step o data Ho) as (Hn & Hn2 & Hb & Hne); set (n := if _ <? _ then _ else _) in *;
    assert (Z.of_nat (length (take (Z.to_nat n) data)) = n) as Hlt by len;
    destruct (Z.of_nat (length data) =? n) eqn:E; try (destruct (Hne eq_refl) as (Hfull & Hless & Hpos)).
  2:{ exfalso. eapply rounds_zero; [exact Hr| |exact Hpos]. lia. }
  1-2: cbn [fst snd] in *; rewrite <- app_assoc in Hat; destruct fuel as [|fuel]; [lia|];
    (destruct (physical_complete rep r o _ _ d' fr Hat Ho (record_type_range begin true) ltac:(lia)) as (r1 & E1 & Hat1));
    rewrite Hlt in Hat1; (destruct (loop_fragment fuel r fr scratch begin true pro _ r1 rep _ _ E1 Hat1) as (p' & r2 & Hat2 & E2));
    exists r2; (split; [|done]); rewrite E2; apply Z.eqb_eq in E; rewrite take_ge by lia; done.
  destruct (frags k (off o + (kHeaderSize + n)) false (drop (Z.to_nat n) data)) as [rest o'] eqn:Er. cbn [fst snd] in *.
  rewrite <- !app_assoc in Hat. destruct fuel as [|fuel]; [lia|].
  destruct (physical_complete rep r o _ _ (rest ++ d') fr Hat Ho (record_type_range begin false) ltac:(lia)) as (r1 & E1 & Hat1).
  rewrite Hlt in Hat1. destruct (loop_fragment fuel r fr scratch begin false pro _ r1 rep _ _ E1 Hat1) as (p' & r2 & Hat2 & E2).
  pose proof (frame_length (record_type begin false) (take (Z.to_nat n) data)) as Hf. unfold kHeaderSize in Hf.
  destruct (IH (off o + (kHeaderSize + n)) false (drop (Z.to_nat n) data) d' r2 fuel (take (Z.to_nat n) data)
    (if begin then take (Z.to_nat n) data else scratch ++ take (Z.to_nat n) data) p') as (r' & E' & Hat').
  - by rewrite Er.
  - rewrite Hfull. unfold kBlockSize. lia.
  - rewrite Hfull. eapply rounds_step; [exact Hr|lia|exact Hpos].
  - rewrite Er. cbn [fst]. rewrite !length_app in Hfuel. lia.
  - exists r'. rewrite Er in Hat'. split; [|done]. rewrite E2. cbn [negb] in E'. rewrite E'.
    destruct begin; [by rewrite take_drop|]. by rewrite <- app_assoc, take_drop.
Qed.

Lemma record_truncated rep k : forall o begin data d r fuel fr scratch pro,
  at_offset rep r o d -> 0 <= o <= kBlockSize -> rounds_ok k o data ->
  d `prefix_of` fst (frags k o begin data) -> (length d < length (fst (frags k o begin data)))%nat -> (length d < fuel)%nat ->
  exists r', ReadRecord_loop addr fuel r fr scratch (negb begin) pro = Ret (None, r') /\ reporter_ r' = rep.
Proof.
  induction k as [|k IH]; intros o begin data d r fuel fr scratch pro Hat Ho Hr Hp Hlen Hfuel; cbn [frags] in *;
    destruct (frag_step o data Ho) as (Hn & Hn2 & Hb & Hne); set (n := if _ <? _ then _ else _) in *;
    assert (Z.of_nat (length (take (Z.to_nat n) data)) = n) as Hlt by len;
    destruct (Z.of_nat (length data) =? n) eqn:E; try (destruct (Hne eq_refl) as (Hfull & Hless & Hpos));
    (destruct fuel as [|fuel]; [lia|]).
  2:{ exfalso. eapply rounds_zero; [exact Hr| |exact Hpos]. lia. }
  1-2: cbn [fst] in *;
    (destruct (physical_truncated rep r o (record_type begin true) (take (Z.to_nat n) data) d fr Hat Ho (record_type_range begin true) ltac:(lia) Hp Hlen) as (r1 & E1 & Hrep & Hs));
    exists r1; (split; [by eapply loop_eof|done]).
  destruct (frags k (off o + (kHeaderSize + n)) false (drop (Z.to_nat n) data)) as [rest o'] eqn:Er. cbn [fst] in *.
  destruct (prefix_app_cases _ _ _ Hp) as [[Hpre Hshort]|(d' & -> & Hp')].
  - destruct (physical_truncated rep r o (record_type begin false) (take (Z.to_nat n) data) d fr Hat Ho (record_type_range begin false) ltac:(lia))
      as (r1 & E1 & Hrep & Hs); [done|done|exists r1; split; [by eapply loop_eof|done]].
  - rewrite <- app_assoc in Hat.
    destruct (physical_complete rep r o _ _ d' fr Hat Ho (record_type_range begin false) ltac:(lia)) as (r1 & E1 & Hat1).
    rewrite Hlt in Hat1. destruct (loop_fragment fuel r fr scratch begin false pro _ r1 rep _ _ E1 Hat1) as (p' & r2 & Hat2 & E2).
    rewrite E2. pose proof (frame_length (record_type begin false) (take (Z.to_nat n) data)) as Hf. unfold kHeaderSize in Hf.
    repeat rewrite length_app in Hlen. repeat rewrite length_app in Hfuel.
    apply (IH (off o + (kHeaderSize + n)) false (drop (Z.to_nat n) data) d' r2 fuel); rewrite ?Er; cbn [fst]; try done.
    + rewrite Hfull. unfold kBlockSize. lia.
    + rewrite Hfull. eapply rounds_step; [exact Hr|lia|exact Hpos].
    + lia.
    + lia.
Qed.

Lemma read_record_start rep r o d fuel : at_offset rep r o d ->
  exists r1, ReadRecord addr fuel r = ReadRecord_loop addr fuel r1 [] [] false 0 /\ at_offset rep r1 o d.
Proof.
  intros Hat. unfold ReadRecord. destruct (last_record_offset_ r <? initial_offset_ r); [|by exists r].
  unfold SkipToInitialBlock. rewrite (at_initial _ _ _ _ Hat). cbn [initial_offset_ file_].
  change (u64 (0 - 0 mod kBlockSize)) with 0. change (kBlockSize - 6 <? 0 mod kBlockSize) with false.
  change (0 <? 0) with false. cbn iota. eexists. split; [reflexivity|]. by destruct Hat.
Qed.

(** A log of records, written from block offset [o]. *)
Fixpoint enc_records (o : Z) (rs : list bytes) : bytes :=
  match rs with
  | [] => []
  | x :: rs' => fst (frags (length x) o true x) ++ enc_records (snd (frags (length x) o true x)) rs'
  end.

(** Reading until [ReadRecord] returns false. *)
Fixpoint read_all (n fuel : nat) (r : Reader bytes) : outcome (list bytes * Reader bytes) :=
  match n with
  | O => Undef
  | S n' =>
      '(x, r) ← ReadRecord addr fuel r;
      match x with
      | None => Ret ([], r)
      | Some rec => '(l, r) ← read_all n' fuel r; Ret (rec :: l, r)
      end
  end.

(** At the end of the file. *)
Lemma read_record_eof rep r o fuel : at_offset rep r o [] -> 0 <= o <= kBlockSize -> (0 < fuel)%nat ->
  exists r', ReadRecord addr fuel r = Ret (None, r') /\ reporter_ r' = rep.
Proof.
  intros Hat Ho Hf. destruct fuel as [|fuel]; [lia|].
  destruct (read_record_start rep r o [] (S fuel) Hat) as (r1 & -> & Hat1).
  assert (Z.of_nat (length (enc_frame 1 [])) = kHeaderSize) as Hl by apply frame_length.
  destruct (physical_truncated rep r1 o 1 [] [] [] Hat1 Ho ltac:(lia)) as (r2 & E2 & Hrep & Hs).
  { pose proof (off_range o Ho). cbn [length]. lia. }
  { by exists (pad o ++ enc_frame 1 []). }
  { rewrite length_app. unfold kHeaderSize in Hl. cbn [length]. lia. }
  exists r2. split; [by eapply loop_eof|done].
Qed.

(** At the start of a record that may be cut: nothing, or the record. *)
Lemma read_record_short rep r o x rest d fuel : at_offset rep r o d -> 0 <= o <= kBlockSize ->
  d `prefix_of` fst (frags (length x) o true x) ++ rest -> (length d < fuel)%nat ->
  (exists r', ReadRecord addr fuel r = Ret (None, r') /\ reporter_ r' = rep /\ (length d < length (fst (frags (length x) o true x)))%nat) \/
  (exists d' r', d = fst (frags (length x) o true x) ++ d' /\ d' `prefix_of` rest /\
    ReadRecord addr fuel r = Ret (Some x, r') /\ at_offset rep r' (snd (frags (length x) o true x)) d').
Proof.
  intros Hat Ho Hp Hf. destruct (read_record_start rep r o d fuel Hat) as (r1 & -> & Hat1).
  destruct (prefix_app_cases _ _ _ Hp) as [[Hpre Hshort]|(d' & -> & Hp')].
  - left. destruct (record_truncated rep (length x) o true x d r1 fuel [] [] 0) as (r2 & E2 & Hrep); try done; [by left|].
    by exists r2.
  - right. rewrite length_app in Hf.
    destruct (record_complete rep (length x) o true x d' r1 fuel [] [] 0 Hat1 Ho) as (r2 & E2 & Hat2); [by left|lia|].
    by exists d', r2.
Qed.

Lemma read_record_cut rep r o x rest d fuel : at_offset rep r o d -> 0 <= o <= kBlockSize ->
  d `prefix_of` fst (frags (length x) o true x) ++ rest -> (length d < fuel)%nat ->
  (exists r', ReadRecord addr fuel r = Ret (None, r') /\ reporter_ r' = rep /\ d <> fst (frags (length x) o true x) ++ rest) \/
  (exists d' r', d = fst (frags (length x) o true x) ++ d' /\ d' `prefix_of` rest /\
    ReadRecord addr fuel r = Ret (Some x, r') /\ at_offset rep r' (snd (frags (length x) o true x)) d').
Proof.
  intros Hat Ho Hp Hf. destruct (read_record_short rep r o x rest d fuel Hat Ho Hp Hf) as [(r' & E & Hr & Hs)|]; [left|by right].
  exists r'. split_and!; [done|done|]. intros ->. rewrite length_app in Hs. lia.
Qed.

(** Reading a prefix of a log. *)
Lemma read_prefix rep rs : forall o d r fuel n, at_offset rep r o d -> 0 <= o <= kBlockSize ->
  d `prefix_of` enc_records o rs -> (length d < fuel)%nat -> (length rs < n)%nat ->
  exists m r', read_all n fuel r = Ret (take m rs, r') /\ (m <= length rs)%nat /\ reporter_ r' = rep /\
    (d = enc_records o rs -> m = length rs).
Proof.
  induction rs as [|x rs IH]; intros o d r fuel n Hat Ho Hp Hf Hn; (destruct n as [|n]; [cbn in Hn; lia|]); cbn [read_all].
  - assert (d = []) as -> by (destruct Hp as [k Hk]; cbn in Hk; by destruct d).
    destruct (read_record_eof rep r o fuel Hat Ho) as (r2 & -> & Hrep); [cbn in Hf; lia|].
    run. by exists 0%nat, r2.
  - cbn [enc_records] in Hp |- *.
    destruct (read_record_cut rep r o x _ d fuel Hat Ho Hp Hf) as [(r2 & -> & Hrep & Hne)|(d' & r2 & -> & Hp' & -> & Hat2)]; run.
    + exists 0%nat, r2. by split_and!; [|lia| |].
    + rewrite length_app in Hf.
      destruct (IH _ d' r2 fuel n Hat2 (frags_offset _ _ _ _ Ho) Hp' ltac:(lia) ltac:(cbn in Hn; lia)) as (m & r' & E & Hm & Hrep & Hall).
      rewrite E. run. exists (S m), r'. split_and!; [done|cbn; lia|done|].
      intros Eq%app_inv_head. cbn [length]. f_equal. by apply Hall.
Qed.
End ReaderSpec.

(** Writing records one after the other into a new file. *)
Definition write_log (addr : Z) (rs : list bytes) : outcome bytes :=
  w ← Writer_new addr ([] : bytes);
  w ← foldM (fun x w => '(s, w) ← AddRecord addr w x; if ok s then Ret w else Exit 1) rs w;
  Ret (dest_ w).

Lemma write_records addr rs f o : 0 <= addr -> 0 <= o <= kBlockSize ->
  exists o', foldM (fun x w => '(s, w) ← AddRecord addr w x; if ok s then Ret w else Exit 1) rs (MkWriter f o type_crcs) =
    Ret (MkWriter (f ++ enc_records o rs) o' type_crcs).
Proof.
  intros Ha. revert f o. induction rs as [|x rs IH]; intros f o Ho; cbn [foldM enc_records].
  { exists o. by rewrite app_nil_r. }
  rewrite add_record_spec by done. run. change (ok OK) with true. cbn iota. run.
  destruct (IH (f ++ fst (frags (length x) o true x)) (snd (frags (length x) o true x))) as (o' & ->).
  { by apply frags_offset. }
  exists o'. by rewrite <- app_assoc.
Qed.

Lemma frags_start fuel begin data : frags fuel kBlockSize begin data = frags fuel 0 begin data.
Proof. destruct fuel; reflexivity. Qed.

Lemma enc_records_start rs : enc_records kBlockSize rs = enc_records 0 rs.
Proof. destruct rs as [|x rs]; [done|]. cbn [enc_records]. by rewrite !frags_start. Qed.

(** ** A log that grows *)

Lemma frags_pos fuel o begin data : (0 < length (fst (frags fuel o begin data)))%nat.
Proof.
  assert (forall t x y, 0 < length (pad o ++ enc_frame t x ++ y))%nat as Hp.
  { intros t x y. pose proof (frame_length t x). unfold kHeaderSize in *. repeat rewrite length_app. lia. }
  destruct fuel; cbn [frags]; destruct (_ =? _); [| | |destruct (frags fuel _ _ _)]; cbn [fst]; rewrite <- ?app_assoc;
    (apply Hp || (rewrite <- (app_nil_r (enc_frame _ _)); apply Hp)).
Qed.

Lemma log_enc_cons o x rs : enc_records o (x :: rs) =
  fst (frags (length x) o true x) ++ enc_records (snd (frags (length x) o true x)) rs.
Proof. done. Qed.

(** The block offset after a log of records. *)
Fixpoint end_offset (o : Z) (rs : list bytes) : Z :=
  match rs with [] => o | x :: rs' => end_offset (snd (frags (length x) o true x)) rs' end.

Lemma log_enc_app o rs rs' : enc_records o (rs ++ rs') = enc_records o rs ++ enc_records (end_offset o rs) rs'.
Proof. revert o. induction rs as [|x rs IH]; intros o; cbn [app enc_records end_offset]; [done|]. by rewrite IH, app_assoc. Qed.

Lemma end_offset_app o rs rs' : end_offset o (rs ++ rs') = end_offset (end_offset o rs) rs'.
Proof. revert o. induction rs as [|x rs IH]; intros o; cbn [app end_offset]; [done|]. apply IH. Qed.

Lemma end_offset_range o rs : 0 <= o <= kBlockSize -> 0 <= end_offset o rs <= kBlockSize.
Proof. revert o. induction rs as [|x rs IH]; intros o Ho; cbn [end_offset]; [done|]. apply IH, frags_offset, Ho. Qed.

Definition log_holds (w : Writer bytes) (rs : list bytes) : Prop :=
  w = MkWriter (enc_records 0 rs) (end_offset 0 rs) type_crcs.

Lemma log_append addr w rs x : 0 <= addr -> log_holds w rs ->
  exists w', AddRecord addr w x = Ret (OK, w') /\ log_holds w' (rs ++ [x]).
Proof.
  intros Ha ->. rewrite add_record_spec by (done || (apply end_offset_range; unfold kBlockSize; lia)).
  eexists. split; [reflexivity|]. unfold log_holds. rewrite log_enc_app, end_offset_app.
  cbn [enc_records end_offset]. by rewrite app_nil_r.
Qed.

(** ** Files that can fail *)

(** Appends that succeed extend the contents.  [clean] is a history variable of the file:
    no append to it has failed.  The writer does not look at the status of the append that
    fills the trailer of a block, so what a log holds after a successful call is only known
    while the file is clean. *)
Class AppendLaws {F} `{WritableFile F} (contents : F -> bytes) (clean : F -> Prop) : Prop := {
  al_append d f : ok (fst (wf_Append d f)) = true -> contents (snd (wf_Append d f)) = contents f ++ d;
  al_flush f : contents (snd (wf_Flush f)) = contents f;
  al_clean d f : clean (snd (wf_Append d f)) -> clean f /\ ok (fst (wf_Append d f)) = true;
  al_clean_flush f : clean (snd (wf_Flush f)) -> clean f;
}.

#[global] Instance bytes_append_laws : AppendLaws (fun f : bytes => f) (fun _ => True).
Proof. by split. Qed.

Section Failing.
Context {F} `{WritableFile F} (contents : F -> bytes) (clean : F -> Prop) `{!AppendLaws contents clean} (addr : Z).

Definition same_log (w : Writer F) (wb : Writer bytes) : Prop :=
  (clean (dest_ w) -> contents (dest_ w) = dest_ wb) /\ block_offset_ w = block_offset_ wb /\ type_crc_ w = type_crc_ wb.

Lemma clean_append d f g : (clean f -> contents f = g) -> clean (snd (wf_Append d f)) -> contents (snd (wf_Append d f)) = g ++ d.
Proof. intros Hf Hc. destruct (al_clean d f Hc) as [Hc' Hok]. by rewrite al_append, Hf. Qed.

Lemma emit_same w wb t ptr n s' wb' : same_log w wb -> EmitPhysicalRecord addr wb t ptr n = Ret (s', wb') ->
  exists s w', EmitPhysicalRecord addr w t ptr n = Ret (s, w') /\ (ok s = true -> same_log w' wb').
Proof.
  intros (Hc & Ho & Ht). unfold EmitPhysicalRecord. rewrite Ho, Ht. destruct (negb _); [done|]. destruct (negb _); [done|]. destruct (table_at _ _) as [tc| |]; [|done|done]. run.
  destruct (Extend _ _ _) as [crc| |]; [|done|done]. run. set (buf := EncodeFixed32 _ _ ++ _). set (data := take _ _). cbn [wf_Append wf_Flush bytes_writable]. change (ok OK) with true. cbn iota.
  intros [= <- <-]. pose proof (clean_append buf (dest_ w) _ Hc) as H1. destruct (wf_Append buf (dest_ w)) as [s1 f1]. cbn [fst snd] in H1. destruct (ok s1) eqn:E1; [|eexists _, _; split; [done|congruence]].
  pose proof (clean_append data f1 _ H1) as H2. destruct (wf_Append data f1) as [s2 f2]. cbn [fst snd] in H2. destruct (ok s2) eqn:E2; [|eexists _, _; split; [done|congruence]].
  pose proof (al_flush f2) as H3. pose proof (al_clean_flush f2) as H4. destruct (wf_Flush f2) as [s3 f3]. cbn [fst snd] in H3, H4. eexists _, _. split; [done|]. intros _. split_and!; cbn; [|done|done].
  intros Hf. by rewrite H3, H2 by auto.
Qed.

Lemma add_loop_same fuel : forall w wb ptr left begin s' wb', same_log w wb -> AddRecord_loop addr fuel wb ptr left begin = Ret (s', wb') ->
  exists s w', AddRecord_loop addr fuel w ptr left begin = Ret (s, w') /\ (ok s = true -> same_log w' wb').
Proof.
  induction fuel as [|fuel IH]; intros w wb ptr left begin s' wb' Hw; [done|]. pose proof Hw as (Hc & Ho & Ht). cbn [AddRecord_loop]. rewrite Ho, Ht. destruct (negb _); [done|].
  set (lo := kBlockSize - block_offset_ wb). set (wb1 := if lo <? kHeaderSize then _ else wb). set (w1 := if lo <? kHeaderSize then _ else w).
  assert (same_log w1 wb1) as Hw1.
  { unfold w1, wb1. destruct (lo <? kHeaderSize); [|done]. split_and!; cbn; [|done|done]. destruct (0 <? lo); [|done]. by apply clean_append. }
  rewrite (proj1 (proj2 Hw1)). destruct (negb _); [done|].
  set (avail := kBlockSize - block_offset_ wb1 - kHeaderSize). set (n := if left <? avail then left else avail).
  destruct (EmitPhysicalRecord addr wb1 (record_type begin (left =? n)) ptr n) as [[s1 wb2]| |] eqn:Eb; [|done|done]. run.
  destruct (emit_same w1 wb1 _ _ _ _ _ Hw1 Eb) as (s & w2 & -> & Hw2). run. intros E. destruct (ok s) eqn:Es; cbn [andb]; [|eexists _, _; split; [done|congruence]].
  destruct (ok s1) eqn:Es1; cbn [andb] in E.
  - destruct (0 <? left - n); [by eapply IH; [apply Hw2|]|]. injection E as <- <-. eexists _, _. split; [done|]. intros _. by apply Hw2.
  - exfalso. clear -Eb Es1. unfold EmitPhysicalRecord in Eb. repeat case_match; try done; simplify_eq. cbn in *.
    destruct (table_at _ _); [|done|done]. cbn in Eb. destruct (Extend _ _ _); [|done|done]. cbn in Eb. by simplify_eq.
Qed.

(** A record added to a log of records, if the status is OK. *)
Lemma log_append_if (Haddr : 0 <= addr) w rs x : same_log w (MkWriter (enc_records 0 rs) (end_offset 0 rs) type_crcs) ->
  exists s w', AddRecord addr w x = Ret (s, w') /\ (ok s = true -> same_log w' (MkWriter (enc_records 0 (rs ++ [x])) (end_offset 0 (rs ++ [x])) type_crcs)).
Proof.
  intros Hw. destruct (log_append addr (MkWriter (enc_records 0 rs) (end_offset 0 rs) type_crcs) rs x Haddr eq_refl) as (wb & E & ->).
  by eapply add_loop_same.
Qed.

(** What appends and flushes keep of a file, [AddRecord] keeps. *)
Lemma add_record_keeps (R : F -> Prop) : (forall d f, R f -> R (snd (wf_Append d f))) -> (forall f, R f -> R (snd (wf_Flush f))) ->
  forall w x s w', R (dest_ w) -> AddRecord addr w x = Ret (s, w') -> R (dest_ w').
Proof.
  intros Ha Hf w x. unfold AddRecord. generalize (length x + 1)%nat, (Z.of_nat (length x)), true. intros fuel left begin. revert w x left begin.
  assert (forall w t ptr n s w', R (dest_ w) -> EmitPhysicalRecord addr w t ptr n = Ret (s, w') -> R (dest_ w')) as Hemit.
  { intros w t ptr n s w' Hr. unfold EmitPhysicalRecord. destruct (negb _); [done|]. destruct (negb _); [done|]. destruct (table_at _ _); [|done|done]. run. destruct (Extend _ _ _); [|done|done]. run.
    set (buf := EncodeFixed32 _ _ ++ _). set (data := take _ _). pose proof (Ha buf _ Hr) as H1. destruct (wf_Append buf (dest_ w)) as [s1 f1]. cbn [snd] in H1.
    destruct (ok s1); [|by intros [= <- <-]]. pose proof (Ha data _ H1) as H2. destruct (wf_Append data f1) as [s2 f2]. cbn [snd] in H2. destruct (ok s2); [|by intros [= <- <-]].
    pose proof (Hf _ H2) as H3. destruct (wf_Flush f2) as [s3 f3]. by intros [= <- <-]. }
  induction fuel as [|fuel IH]; intros w x left begin s w' Hr; [done|]. cbn [AddRecord_loop]. destruct (negb _); [done|]. set (w1 := if _ <? kHeaderSize then _ else w).
  assert (R (dest_ w1)) as Hr1 by (unfold w1; destruct (_ <? kHeaderSize); [|done]; cbn; destruct (0 <? _); [by apply Ha|done]). destruct (negb _); [done|].
  destruct (EmitPhysicalRecord _ _ _ _ _) as [[s2 w2]| |] eqn:E; [|done|done]. run. pose proof (Hemit _ _ _ _ _ _ Hr1 E) as Hr2. destruct (ok s2 && _); [by apply IH|by intros [= <- <-]].
Qed.
End Failing.

(** C24: the log survives a crash.  Writing any records (of any size, fragmented over
    blocks as needed) to a new log succeeds; if the file is then cut at any byte, a
    checksumming reader returns a prefix of the records, each byte for byte, stops,
    and reports no corruption; the uncut file yields all of them. *)
Theorem log_crash_prefix addr addr' rs n :
  0 <= addr -> 0 <= addr' ->
  exists f, write_log addr rs = Ret f /\
    exists m r, read_all addr' (S (length rs)) (S (length (take n f)))
                  (Reader_new (take n f) (Some []) true 0) = Ret (take m rs, r) /\
      (m <= length rs)%nat /\ reporter_ r = Some [] /\ ((length f <= n)%nat -> m = length rs).
Proof.
  intros Ha Ha'. unfold write_log, Writer_new. rewrite init_type_crc by done. run.
  destruct (write_records addr rs [] 0 Ha ltac:(unfold kBlockSize; lia)) as (o' & ->). cbn [mbind outcome_bind dest_ app].
  eexists. split; [reflexivity|]. set (f := enc_records 0 rs).
  assert (at_offset (Some []) (Reader_new (take n f) (Some []) true 0) kBlockSize (take n f)) as Hat.
  { split; try done. left. split; [done|]. cbn. by rewrite Z.sub_diag. }
  destruct (read_prefix addr' Ha' (Some []) rs kBlockSize (take n f) _ (S (length (take n f))) (S (length rs)) Hat)
    as (m & r & E & Hm & Hrep & Hall).
  - unfold kBlockSize. lia.
  - rewrite enc_records_start. apply prefix_take.
  - lia.
  - lia.
  - exists m, r. split_and!; [done|done|done|]. intros Hn. apply Hall. rewrite enc_records_start. by apply take_ge.
Qed.

Lemma log_crash_prefix_witness :
  exists f, write_log 64 [[x61; x62]; []; [x63]] = Ret f /\
    exists m r, read_all 0 4 (S (length (take 20 f))) (Reader_new (take 20 f) (Some []) true 0) =
      Ret (take m [[x61; x62]; []; [x63]], r) /\ (m <= 3)%nat /\ reporter_ r = Some [].
Proof.
  destruct (log_crash_prefix 64 0 [[x61; x62]; []; [x63]] 20 ltac:(lia) ltac:(lia)) as (f & E & m & r & E2 & H1 & H2 & _).
  exists f. split; [exact E|]. exists m, r. split; [exact E2|]. split; [exact H1|exact H2].
Defined.

(** ** A failure the writer does not see *)

(** A file on which only the appends of a few zero bytes fail. *)
Definition trailer_fails : WritableFile bytes := {|
  wf_Append d f := if (length d <? 7)%nat && bool_decide (d = replicate (length d) x00) then (Some [], f) else (OK, f ++ d);
  wf_Flush f := (OK, f);
|}.

(** Three bytes before the end of a block, the append that fills the block fails and the
    call still reports success; the record is then not where a reader looks for it, which
    is after the three bytes. *)
Lemma padding_failure_unseen f : exists rec,
  AddRecord (H := trailer_fails) 0 (MkWriter f (kBlockSize - 3) type_crcs) [x62] = Ret (OK, MkWriter (f ++ rec) 8 type_crcs) /\
  AddRecord 0 (MkWriter f (kBlockSize - 3) type_crcs) [x62] = Ret (OK, MkWriter (f ++ [x00; x00; x00] ++ rec) 8 type_crcs).
Proof.
  assert (exists hd tl, EmitPhysicalRecord (H := trailer_fails) 0 (MkWriter f 0 type_crcs) kFullType [x62] 1 = Ret (OK, MkWriter ((f ++ hd) ++ tl) 8 type_crcs) /\
    EmitPhysicalRecord 0 (MkWriter (f ++ [x00; x00; x00]) 0 type_crcs) kFullType [x62] 1 = Ret (OK, MkWriter (((f ++ [x00; x00; x00]) ++ hd) ++ tl) 8 type_crcs)) as (hd & tl & E1 & E2).
  { eexists _, _. split; vm_compute; reflexivity. }
  exists (hd ++ tl). split.
  - transitivity ('(s, w) ← EmitPhysicalRecord (H := trailer_fails) 0 (MkWriter f 0 type_crcs) kFullType [x62] 1; Ret (s, w)); [|by rewrite E1; run; rewrite app_assoc].
    vm_compute. reflexivity.
  - transitivity ('(s, w) ← EmitPhysicalRecord 0 (MkWriter (f ++ [x00; x00; x00]) 0 type_crcs) kFullType [x62] 1; Ret (s, w)); [|by rewrite E2; run; rewrite !app_assoc].
    vm_compute. reflexivity.
Qed.
