(* ===== verification/VersionSet.v ===== *)
(** * The manifest (util/leveldb/db/version_set.cc, [VersionSet])

    The set of versions as far as it is persistent: the current version, the counters,
    and the manifest, a log of version edits that [LogAndApply] extends and [Recover]
    reads.  The file system is an interface that may fail; the comparator's name is a
    parameter. *)

From S2P Require Import Prelude CLib Bloom Order Coding DbFormat InternalOrder FileNames Status Files StdSet VersionEdit Version VersionBuilder LogFormat.
From Stdlib Require Import Floats.SpecFloat.
From stdpp Require Import strings.
#[local] Open Scope Z_scope.

(** ** The environment *)

(** What [Env] is asked for beyond [FileEnv].  Open files are named by their path;
    [env_error] is the status of a file that cannot be opened. *)
Class ManifestEnv (FS : Type) `{FileEnv FS} := {
  env_error : bytes -> FS -> Status;
  env_NewWritableFile : bytes -> FS -> bool * FS;
  env_NewAppendableFile : bytes -> FS -> bool * FS;
  env_GetFileSize : bytes -> FS -> option Z;
  env_Append : bytes -> bytes -> FS -> Status * FS;
  env_Flush : bytes -> FS -> Status * FS;
  env_Sync : bytes -> FS -> bool * FS;
  env_Close : bytes -> FS -> bool * FS;
}.

(** An open file of a file system. *)
#[export] Instance fs_file {FS} `{ManifestEnv FS} : WritableFile (bytes * FS) := {|
  wf_Append data f := let '(s, fs) := env_Append f.1 data f.2 in (s, (f.1, fs));
  wf_Flush f := let '(s, fs) := env_Flush f.1 f.2 in (s, (f.1, fs));
|}.

(** ** Versions *)

Record Version := MkVersion { files_ : list (list FileMetaData); compaction_score_ : spec_float; compaction_level_ : Z }.

Definition kL0_CompactionTrigger : Z := 4.

Fixpoint max_bytes (fuel : nat) (result : spec_float) : spec_float :=
  match fuel with O => result | S fuel' => max_bytes fuel' (SFmul 53 1024 result (Z2double 10)) end.
Definition MaxBytesForLevel (level : Z) : spec_float := max_bytes (Z.to_nat (level - 1)) (SFmul 53 1024 (Z2double 10) (Z2double 1048576)).

Definition level_score (level : Z) (files : list FileMetaData) : spec_float :=
  if level =? 0 then SFdiv 53 1024 (Z2double (Z.of_nat (length files))) (Z2double kL0_CompactionTrigger)
  else SFdiv 53 1024 (Z2double (u64 (TotalFileSize files))) (MaxBytesForLevel level).

(** The loop over all levels but the last. *)
Fixpoint best_level (level : Z) (files : list (list FileMetaData)) (best : spec_float * Z) : spec_float * Z :=
  match files with
  | l :: (_ :: _) as files' => let score := level_score level l in best_level (level + 1) files' (if SFltb best.1 score then (score, level) else best)
  | _ => best
  end.

Definition Finalize (files : list (list FileMetaData)) : Version :=
  let '(score, level) := best_level 0 files (Z2double (-1), -1) in MkVersion files score level.

Module VS.
Section Ops.
Context {FS : Type} `{ManifestEnv FS} (c : Comparator) (cmp_name dbname : bytes) (addr : Z) (reuse_logs : bool).

(** [descriptor_file_] and [descriptor_log_] are null or not together; the writer's
    destination is the path of the file. *)
Record VersionSet := MkVS {
  next_file_number_ : Z;
  manifest_file_number_ : Z;
  last_sequence_ : Z;
  log_number_ : Z;
  prev_log_number_ : Z;
  descriptor_log_ : option (Writer bytes);
  current_ : Version;
  compact_pointer_ : list bytes;
}.

(** A new [Version] has no score yet. *)
Definition new : VersionSet := MkVS 2 0 0 0 0 None (MkVersion empty_files (Z2double (-1)) (-1)) no_pointers.

Definition set_next (vs : VersionSet) (n : Z) : VersionSet :=
  MkVS n (manifest_file_number_ vs) (last_sequence_ vs) (log_number_ vs) (prev_log_number_ vs) (descriptor_log_ vs) (current_ vs) (compact_pointer_ vs).
Definition set_descriptor (vs : VersionSet) (d : option (Writer bytes)) : VersionSet :=
  MkVS (next_file_number_ vs) (manifest_file_number_ vs) (last_sequence_ vs) (log_number_ vs) (prev_log_number_ vs) d (current_ vs) (compact_pointer_ vs).
Definition set_pointers (vs : VersionSet) (p : list bytes) : VersionSet :=
  MkVS (next_file_number_ vs) (manifest_file_number_ vs) (last_sequence_ vs) (log_number_ vs) (prev_log_number_ vs) (descriptor_log_ vs) (current_ vs) p.

(** *** version_set.h *)

Definition NewFileNumber (vs : VersionSet) : Z * VersionSet := (next_file_number_ vs, set_next vs (u64 (next_file_number_ vs + 1))).
Definition ReuseFileNumber (file_number : Z) (vs : VersionSet) : VersionSet :=
  if next_file_number_ vs =? u64 (file_number + 1) then set_next vs file_number else vs.
Definition SetLastSequence (s : Z) (vs : VersionSet) : outcome VersionSet :=
  assert! (last_sequence_ vs <=? s);
  Ret (MkVS (next_file_number_ vs) (manifest_file_number_ vs) s (log_number_ vs) (prev_log_number_ vs) (descriptor_log_ vs) (current_ vs) (compact_pointer_ vs)).
Definition MarkFileNumberUsed (number : Z) (vs : VersionSet) : VersionSet :=
  if next_file_number_ vs <=? number then set_next vs (u64 (number + 1)) else vs.

(** *** [WriteSnapshot] *)

Definition snapshot_pointer (x : nat * bytes) (edit : VE.VersionEdit) : VE.VersionEdit :=
  match x.2 with [] => edit | k => VE.SetCompactPointer (Z.of_nat x.1) (InternalKey_DecodeFrom k) edit end.

Definition snapshot_file (level : Z) (edit : VE.VersionEdit) (f : FileMetaData) : VE.VersionEdit :=
  VE.AddFile level (number f) (file_size f) (smallest f) (largest f) edit.

Definition snapshot_edit (pointers : list bytes) (files : list (list FileMetaData)) : VE.VersionEdit :=
  let edit := VE.SetComparatorName cmp_name VE.new in
  let edit := foldl (fun edit x => snapshot_pointer x edit) edit (imap pair pointers) in
  foldl (fun edit x => foldl (snapshot_file (Z.of_nat x.1)) edit x.2) edit (imap pair files).

(** [log->AddRecord] of the edit's text. *)
Definition log_edit (edit : VE.VersionEdit) (log : Writer (bytes * FS)) : outcome (Status * Writer (bytes * FS)) :=
  record ← VE.EncodeTo edit []; AddRecord addr log record.

(** A writer with its file system, and without. *)
Definition on_fs (w : Writer bytes) (fs : FS) : Writer (bytes * FS) := MkWriter (dest_ w, fs) (block_offset_ w) (type_crc_ w).
Definition off_fs (w : Writer (bytes * FS)) : Writer bytes * FS := (MkWriter (dest_ w).1 (block_offset_ w) (type_crc_ w), (dest_ w).2).

(** *** [LogAndApply]

    The result is whether the status is OK.  The mutex that is released during the write
    protects nothing else here. *)

(** The part that opens a new manifest with a snapshot of the version. *)
Definition new_manifest (vs : VersionSet) (name : bytes) (fs : FS) : outcome (bool * VersionSet * FS) :=
  let '(s, fs) := env_NewWritableFile name fs in
  if s then
    w ← Writer_new addr (name, fs);
    '(st, w) ← log_edit (snapshot_edit (compact_pointer_ vs) (files_ (current_ vs))) w;
    let '(w, fs) := off_fs w in
    Ret (ok st, set_descriptor vs (Some w), fs)
  else Ret (false, vs, fs).

(** The record of the edit. *)
Definition write_record (vs : VersionSet) (edit : VE.VersionEdit) (fs : FS) : outcome (bool * VersionSet * FS) :=
  match descriptor_log_ vs with
  | None => Undef
  | Some w =>
      '(st, w) ← log_edit edit (on_fs w fs);
      let '(w, fs) := off_fs w in
      let '(s, fs) := if ok st then env_Sync (dest_ w) fs else (false, fs) in
      Ret (s, set_descriptor vs (Some w), fs)
  end.

Definition AppendVersion (v : Version) (vs : VersionSet) : VersionSet :=
  MkVS (next_file_number_ vs) (manifest_file_number_ vs) (last_sequence_ vs) (log_number_ vs) (prev_log_number_ vs) (descriptor_log_ vs) v (compact_pointer_ vs).

(** What the edit says of the counters. *)
Definition fill_edit (vs : VersionSet) (edit : VE.VersionEdit) : outcome VE.VersionEdit :=
  edit ← match VE.log_number_ edit with
         | Some n => assert! (log_number_ vs <=? n); assert! (n <? next_file_number_ vs); Ret edit
         | None => Ret (VE.SetLogNumber (log_number_ vs) edit)
         end;
  let edit := match VE.prev_log_number_ edit with Some _ => edit | None => VE.SetPrevLogNumber (prev_log_number_ vs) edit end in
  Ret (VE.SetLastSequence (last_sequence_ vs) (VE.SetNextFile (next_file_number_ vs) edit)).

Definition LogAndApply (edit : VE.VersionEdit) (vs : VersionSet) (fs : FS) : outcome (bool * VersionSet * FS) :=
  edit ← fill_edit vs edit;
  b ← Builder.Apply c edit (Builder.new (files_ (current_ vs)) (compact_pointer_ vs));
  files ← Builder.SaveTo c b;
  let v := Finalize files in
  let vs := set_pointers vs (Builder.compact_pointer_ b) in
  '(s, vs, new_manifest_file, fs) ← match descriptor_log_ vs with
                                    | Some _ => Ret (true, vs, None, fs)
                                    | None =>
                                        name ← DescriptorFileName dbname (manifest_file_number_ vs);
                                        '(s, vs, fs) ← new_manifest vs name fs;
                                        Ret (s, vs, Some name, fs)
                                    end;
  '(s, vs, fs) ← (if (s : bool) then write_record vs edit fs else Ret (false, vs, fs));
  '(s, fs) ← (if (s : bool) then match new_manifest_file with Some _ => SetCurrentFile dbname (manifest_file_number_ vs) fs | None => Ret (s, fs) end else Ret (s, fs));
  if (s : bool) then
    let vs := AppendVersion v vs in
    match VE.log_number_ edit, VE.prev_log_number_ edit with
    | Some l, Some p => Ret (true, MkVS (next_file_number_ vs) (manifest_file_number_ vs) (last_sequence_ vs) l p (descriptor_log_ vs) (current_ vs) (compact_pointer_ vs), fs)
    | _, _ => Undef
    end
  else
    match new_manifest_file with
    | Some name => Ret (false, set_descriptor vs None, snd (env_DeleteFile name fs))
    | None => Ret (false, vs, fs)
    end.

(** *** [Recover] *)

(** The counters read so far; [None] while [have_..] is false. *)
Record counters := MkCounters { r_log : option Z; r_prev : option Z; r_next : option Z; r_last : option Z }.

Definition or_else {A} (a b : option A) : option A := match a with Some _ => a | None => b end.
Definition read_counters (edit : VE.VersionEdit) (k : counters) : counters :=
  MkCounters (or_else (VE.log_number_ edit) (r_log k)) (or_else (VE.prev_log_number_ edit) (r_prev k))
    (or_else (VE.next_file_number_ edit) (r_next k)) (or_else (VE.last_sequence_ edit) (r_last k)).

(** The reporter stores the first error in [s]. *)
Definition reported (r : Reader bytes) (s : Status) : Status :=
  if ok s then match reporter_ r with Some ((_, e) :: _) => e | _ => s end else s.

Fixpoint recover_loop (n fuel : nat) (r : Reader bytes) (s : Status) (b : Builder.Builder) (k : counters) : outcome (Status * Builder.Builder * counters) :=
  match n with
  | O => Undef
  | S n' =>
      '(x, r) ← ReadRecord addr fuel r;
      let s := reported r s in
      match x with
      | None => Ret (s, b, k)
      | Some record =>
          if negb (ok s) then Ret (s, b, k)
          else
            '(s, edit) ← VE.DecodeFrom record VE.new;
            s ← match VE.comparator_ edit with
                | Some name => if ok s && negb (bool_decide (name = cmp_name)) then InvalidArgument (name ++ str " does not match existing comparator ") cmp_name else Ret s
                | None => Ret s
                end;
            b ← (if ok s then Builder.Apply c edit b else Ret b);
            recover_loop n' fuel r s b (read_counters edit k)
      end
  end.

(** [ReuseManifest]: the new state if the manifest is to be extended. *)
Definition ReuseManifest (dscname dscbase : bytes) (vs : VersionSet) (fs : FS) : outcome (option VersionSet * FS) :=
  if negb reuse_logs then Ret (None, fs)
  else
    match ParseFileName dscbase with
    | Some (manifest_number, kDescriptorFile) =>
        match env_GetFileSize dscname fs with
        | Some manifest_size =>
            if kTargetFileSize <=? manifest_size then Ret (None, fs)
            else
              assert! bool_decide (descriptor_log_ vs = None);
              let '(r, fs) := env_NewAppendableFile dscname fs in
              if r then
                w ← Writer_reopen addr dscname manifest_size;
                Ret (Some (MkVS (next_file_number_ vs) manifest_number (last_sequence_ vs) (log_number_ vs) (prev_log_number_ vs) (Some w) (current_ vs) (compact_pointer_ vs)), fs)
              else Ret (None, fs)
        | None => Ret (None, fs)
        end
    | _ => Ret (None, fs)
    end.

(** Status, [*save_manifest], and the new states. *)
Definition Recover (vs : VersionSet) (fs : FS) : outcome (Status * bool * VersionSet * FS) :=
  let fail s vs := Ret (s, false, vs, fs) in
  match env_read (CurrentFileName dbname) fs with
  | None => fail (env_error (CurrentFileName dbname) fs) vs
  | Some current =>
      match last current with
      | Some x0a =>
          let dscbase := take (length current - 1) current in
          let dscname := dbname ++ str "/" ++ dscbase in
          match env_read dscname fs with
          | None => fail (env_error dscname fs) vs
          | Some file =>
              let b := Builder.new (files_ (current_ vs)) (compact_pointer_ vs) in
              '(s, b, k) ← recover_loop (S (length file)) (S (length file)) (Reader_new file (Some []) true 0) OK b (MkCounters None None None None);
              let vs := set_pointers vs (Builder.compact_pointer_ b) in
              if negb (ok s) then fail s vs
              else
                s ← match r_next k, r_log k, r_last k with
                    | None, _, _ => Corruption (str "no meta-nextfile entry in descriptor") []
                    | _, None, _ => Corruption (str "no meta-lognumber entry in descriptor") []
                    | _, _, None => Corruption (str "no last-sequence-number entry in descriptor") []
                    | _, _, _ => Ret OK
                    end;
                let prev := default 0 (r_prev k) in
                let vs := MarkFileNumberUsed (default 0 (r_log k)) (MarkFileNumberUsed prev vs) in
                match ok s, r_next k, r_log k, r_last k with
                | true, Some next_file, Some log_number, Some last_sequence =>
                    files ← Builder.SaveTo c b;
                    let vs := MkVS (u64 (next_file + 1)) next_file last_sequence log_number prev (descriptor_log_ vs) (Finalize files) (compact_pointer_ vs) in
                    '(reused, fs) ← ReuseManifest dscname dscbase vs fs;
                    match reused with
                    | Some vs => Ret (OK, false, vs, fs)
                    | None => Ret (OK, true, vs, fs)
                    end
                | _, _, _, _ => fail s vs
                end
          end
      | _ => s ← Corruption (str "CURRENT file does not end with newline") []; fail s vs
      end
  end.
End Ops.
End VS.

(** ** Laws of the environment *)

(** What env.h documents of successful calls, and what they leave alone.  [clean] is a
    history variable: no append to a manifest has failed so far. *)
Class ManifestLaws (FS : Type) `{ManifestEnv FS} (clean : FS -> Prop) : Prop := {
  ml_files :: FileEnvLaws FS;
  ml_error n fs : ok (env_error n fs) = false;
  ml_new n fs : fst (env_NewWritableFile n fs) = true -> env_read n (snd (env_NewWritableFile n fs)) = Some [];
  ml_new_other n fs g : g <> n -> env_read g (snd (env_NewWritableFile n fs)) = env_read g fs;
  ml_reopen n fs g : is_Some (env_read n fs) -> env_read g (snd (env_NewAppendableFile n fs)) = env_read g fs;
  ml_size n fs size : env_GetFileSize n fs = Some size -> exists d, env_read n fs = Some d /\ size = Z.of_nat (length d);
  ml_append n d fs : ok (fst (env_Append n d fs)) = true -> env_read n (snd (env_Append n d fs)) = Some (default [] (env_read n fs) ++ d);
  ml_append_other n d fs g : g <> n -> env_read g (snd (env_Append n d fs)) = env_read g fs;
  ml_flush n fs g : env_read g (snd (env_Flush n fs)) = env_read g fs;
  ml_sync n fs g : env_read g (snd (env_Sync n fs)) = env_read g fs;
  ml_close n fs g : env_read g (snd (env_Close n fs)) = env_read g fs;
  mc_append n d fs : clean (snd (env_Append n d fs)) -> clean fs /\ ok (fst (env_Append n d fs)) = true;
  mc_flush n fs : clean (snd (env_Flush n fs)) -> clean fs;
  mc_sync n fs : clean (snd (env_Sync n fs)) -> clean fs;
  mc_close n fs : clean (snd (env_Close n fs)) -> clean fs;
  mc_new n fs : clean (snd (env_NewWritableFile n fs)) -> clean fs;
  mc_write d n fs : clean (snd (env_WriteStringToFileSync d n fs)) -> clean fs;
  mc_rename n n' fs : clean (snd (env_RenameFile n n' fs)) -> clean fs;
  mc_delete n fs : clean (snd (env_DeleteFile n fs)) -> clean fs;
}.

Section Manifest.
Context {FS : Type} `{ManifestEnv FS} (clean : FS -> Prop) `{!ManifestLaws FS clean} (c : Comparator) `{!ComparatorLaws c} (cmp_name dbname : bytes) (addr : Z) (Haddr : 0 <= addr) (reuse_logs : bool).

Definition file_contents (f : bytes * FS) : bytes := default [] (env_read f.1 f.2).

#[local] Instance fs_append_laws : AppendLaws file_contents (fun f : bytes * FS => clean f.2).
Proof.
  split; unfold file_contents; cbn.
  - intros d [n fs]. cbn. pose proof (ml_append n d fs) as H1. destruct (env_Append n d fs) as [s fs']. cbn in *. intros Hs. by rewrite H1.
  - intros [n fs]. cbn. pose proof (ml_flush n fs n) as H1. destruct (env_Flush n fs) as [s fs']. cbn in *. by rewrite H1.
  - intros d [n fs]. cbn. pose proof (mc_append n d fs) as H1. destruct (env_Append n d fs) as [s fs']. done.
  - intros [n fs]. cbn. pose proof (mc_flush n fs) as H1. destruct (env_Flush n fs) as [s fs']. done.
Qed.

(** The text of an edit. *)
Definition text (e : VE.VersionEdit) : bytes := concat (put_field <$> edit_fields e).

Lemma encode_text e : edit_ok e -> VE.EncodeTo e [] = Ret (text e).
Proof. intros He. by rewrite encode_spec. Qed.

Lemma decode_text e : edit_ok e -> VE.DecodeFrom (text e) VE.new = Ret (OK, e).
Proof. intros He. destruct (decode_encode e He) as (r & E & Ed). rewrite encode_text in E by done. by injection E as <-. Qed.

(** *** Reading a manifest that may be cut *)

Definition comparator_fits (e : VE.VersionEdit) : Prop := forall name, VE.comparator_ e = Some name -> name = cmp_name.

Abbreviation counted := (foldl (fun k e => VS.read_counters e k)).

Lemma manifest_prefix es : forall o d r fuel n b k, at_offset (Some []) r o d -> 0 <= o <= kBlockSize -> d `prefix_of` enc_records o (text <$> es) ->
  (length d < fuel)%nat -> (length d < n)%nat -> Forall edit_ok es -> Forall comparator_fits es -> (forall m, exists b', foldM (Builder.Apply c) (take m es) b = Ret b') ->
  exists m b', VS.recover_loop c cmp_name addr n fuel r OK b k = Ret (OK, b', counted k (take m es)) /\ foldM (Builder.Apply c) (take m es) b = Ret b' /\ (m <= length es)%nat /\
    (forall j, (j <= length es)%nat -> enc_records o (text <$> take j es) `prefix_of` d -> (j <= m)%nat).
Proof.
  induction es as [|e es IH]; intros o d r fuel n b k Hat Ho Hp Hf Hn Hok Hcf Hap; (destruct n as [|n]; [cbn in Hn; lia|]); cbn [VS.recover_loop].
  - assert (d = []) as -> by (destruct Hp as [x Hx]; cbn in Hx; by destruct d).
    destruct (read_record_eof addr (Some []) r o fuel Hat Ho) as (r2 & -> & Hrep); [cbn in Hf; lia|]. run.
    exists 0%nat, b. unfold VS.reported. rewrite Hrep. split_and!; [done|done|done|]. intros j Hj _. cbn in Hj. lia.
  - apply Forall_cons in Hok as [Hoke Hok]. apply Forall_cons in Hcf as [Hce Hcf]. cbn [fmap list_fmap enc_records] in Hp.
    destruct (read_record_short addr Haddr (Some []) r o (text e) _ d fuel Hat Ho Hp Hf) as [(r2 & -> & Hrep & Hshort)|(d' & r2 & -> & Hp' & -> & Hat2)]; run.
    + exists 0%nat, b. unfold VS.reported. rewrite Hrep. split_and!; [done|done|lia|]. intros [|j] Hj Hpre; [lia|exfalso]. cbn [take fmap list_fmap enc_records] in Hpre.
      apply prefix_length in Hpre. rewrite length_app in Hpre. lia.
    + assert (VS.reported r2 OK = OK) as -> by (unfold VS.reported; by rewrite (at_reporter _ _ _ _ Hat2)). change (ok OK) with true. cbn [negb]. rewrite decode_text by done. run.
      assert (match VE.comparator_ e with Some name => if ok OK && negb (bool_decide (name = cmp_name)) then InvalidArgument (name ++ str " does not match existing comparator ") cmp_name else Ret OK | None => Ret OK end = Ret OK) as ->.
      { destruct (VE.comparator_ e) as [name|] eqn:En; [|done]. rewrite (Hce name En), bool_decide_eq_true_2 by done. done. }
      run. change (ok OK) with true. cbn iota. destruct (Hap 1%nat) as [b1 E1]. cbn [take foldM] in E1. destruct (Builder.Apply c e b) as [b0| |] eqn:Eb; [|done|done]. run. rewrite length_app in Hf, Hn. pose proof (frags_pos (length (text e)) o true (text e)).
      destruct (IH _ d' r2 fuel n b0 (VS.read_counters e k) Hat2 (frags_offset _ _ _ _ Ho) Hp') as (m & b' & -> & E' & Hm & Hj); [lia|lia|done|done| |].
      { intros m. destruct (Hap (S m)) as [b2 E2]. cbn [take foldM] in E2. rewrite Eb in E2. by exists b2. }
      exists (S m), b'. split_and!; [done|cbn [take foldM]; by rewrite Eb|cbn; lia|]. intros [|j] Hjl Hpre; [lia|]. apply le_n_S, Hj; [cbn in Hjl; lia|].
      cbn [take fmap list_fmap enc_records] in Hpre. by apply prefix_app_inv in Hpre.
Qed.

(** *** [Recover] *)

Abbreviation no_counters := (VS.MkCounters None None None None).

(** CURRENT names manifest [num], whose contents are [d]. *)
Definition manifest_is (num : Z) (d : bytes) (fs : FS) : Prop :=
  env_read (CurrentFileName dbname) fs = Some ((str "MANIFEST-" ++ print_06 num) ++ [x0a]) /\ env_read (dbname ++ str "/" ++ str "MANIFEST-" ++ print_06 num) fs = Some d.

Lemma reuse_manifest name base vs fs : VS.descriptor_log_ vs = None ->
  exists r fs', VS.ReuseManifest addr reuse_logs name base vs fs = Ret (r, fs') /\ (forall g, env_read g fs' = env_read g fs) /\
    forall vs', r = Some vs' -> VS.next_file_number_ vs' = VS.next_file_number_ vs /\ VS.last_sequence_ vs' = VS.last_sequence_ vs /\ VS.log_number_ vs' = VS.log_number_ vs /\
      VS.prev_log_number_ vs' = VS.prev_log_number_ vs /\ VS.current_ vs' = VS.current_ vs.
Proof.
  intros Hd. unfold VS.ReuseManifest. destruct (negb reuse_logs); [by eexists None, fs|]. destruct (ParseFileName base) as [[num ty]|]; [|by eexists None, fs].
  destruct ty; try by eexists None, fs. destruct (env_GetFileSize name fs) as [size|] eqn:Esize; [|by eexists None, fs]. destruct (kTargetFileSize <=? size); [by eexists None, fs|].
  rewrite bool_decide_eq_true_2 by done. pose proof (fun g => ml_reopen name fs g) as Hr. destruct (ml_size name fs size Esize) as (dat & Edat & _). rewrite Edat in Hr. specialize (fun g => Hr g ltac:(by eexists)). destruct (env_NewAppendableFile name fs) as [r fs1]. cbn [snd] in Hr. destruct r; [|by eexists None, fs1].
  unfold Writer_reopen. rewrite init_type_crc by done. run. eexists _, fs1. split_and!; [done|done|]. by intros vs' [= <-].
Qed.

(** Counters that a manifest has to have. *)
Definition complete (k : VS.counters) : Prop := is_Some (VS.r_log k) /\ is_Some (VS.r_next k) /\ is_Some (VS.r_last k).

(** The state that the first [m] edits describe. *)
Record recovered (k : VS.counters) (es : list VE.VersionEdit) (vs : VS.VersionSet) : Prop := {
  rec_files : left_by c empty_files es (files_ (VS.current_ vs));
  rec_log : VS.r_log k = Some (VS.log_number_ vs);
  rec_prev : default 0 (VS.r_prev k) = VS.prev_log_number_ vs;
  rec_last : VS.r_last k = Some (VS.last_sequence_ vs);
  rec_next : exists n, VS.r_next k = Some n /\ VS.next_file_number_ vs = u64 (n + 1);
}.

Lemma finalize_files files : files_ (Finalize files) = files.
Proof. unfold Finalize. by destruct (best_level _ _ _). Qed.

Lemma empty_edits_ok es : edits_ok c empty_files es -> forall m, exists b, foldM (Builder.Apply c) (take m es) (Builder.new empty_files no_pointers) = Ret b.
Proof.
  intros [H1 H2 H3 H4 H5] m. destruct (apply_all c empty_files (take m es) (fun _ => []) (fun i => default [] (empty_files !! i)) (Builder.new empty_files no_pointers)) as (b & E & _);
    [done|done|by apply Forall_take|by intros i| |by apply version_builder_new|by exists b].
  intros i l Hl. specialize (H4 i l Hl). rewrite <- (take_drop m es), all_adds_app, app_assoc, fmap_app in H4. apply NoDup_app in H4 as (H4 & _ & _). done.
Qed.

Lemma edits_ok_take es m : edits_ok c empty_files es -> edits_ok c empty_files (take m es).
Proof.
  intros [H1 H2 H3 H4 H5]. split; [done|done|by apply Forall_take| |].
  - intros i l Hl. specialize (H4 i l Hl). rewrite <- (take_drop m es), all_adds_app, app_assoc, fmap_app in H4. by apply NoDup_app in H4 as (H4 & _ & _).
  - intros i l n Hl. rewrite take_take. by apply H5.
Qed.

Lemma recover_spec es d num fs j : manifest_is num d fs -> d `prefix_of` enc_records 0 (text <$> es) -> edits_ok c empty_files es -> Forall edit_ok es -> Forall comparator_fits es ->
  (j <= length es)%nat -> enc_records 0 (text <$> take j es) `prefix_of` d -> (forall m, (j <= m <= length es)%nat -> complete (counted no_counters (take m es))) ->
  exists m save vs fs', VS.Recover c cmp_name dbname addr reuse_logs VS.new fs = Ret (OK, save, vs, fs') /\ (j <= m <= length es)%nat /\
    recovered (counted no_counters (take m es)) (take m es) vs /\ (forall g, env_read g fs' = env_read g fs) /\
    (save = true -> VS.descriptor_log_ vs = None /\ Z.of_nat (length (VS.compact_pointer_ vs)) = kNumLevels).
Proof.
  intros [Hcur Hman] Hpre Heo Hok Hcf Hj Hpj Hcomp. unfold VS.Recover. rewrite Hcur, last_snoc, length_app. cbn [length]. rewrite Nat.add_sub, take_app_length, Hman.
  destruct (manifest_prefix es kBlockSize d (Reader_new d (Some []) true 0) (S (length d)) (S (length d)) (Builder.new empty_files no_pointers) no_counters) as (m & b & E & Eb & Hm & Hmj).
  - split; try done. left. split; [done|]. cbn. by rewrite Z.sub_diag.
  - unfold kBlockSize. lia.
  - by rewrite enc_records_start.
  - lia.
  - lia.
  - done.
  - done.
  - by apply empty_edits_ok.
  - cbn [VS.new VS.current_ files_ VS.compact_pointer_]. rewrite E. run. change (ok OK) with true. cbn [negb].
    assert (j <= m)%nat as Hjm by (apply Hmj; [done|by rewrite enc_records_start]). destruct (Hcomp m ltac:(lia)) as ([lg Elg] & [nx Enx] & [ls Els]). set (k := counted no_counters (take m es)) in *.
    rewrite Elg, Enx, Els. run. change (ok OK) with true. cbn iota.
    destruct (build_spec c empty_files no_pointers (take m es) eq_refl (edits_ok_take es m Heo)) as (files & Ebuild & Hleft). unfold build in Ebuild. rewrite Eb in Ebuild. cbn [mbind outcome_bind] in Ebuild.
    destruct (Builder.SaveTo c b) as [files'| |]; [|done|done]. cbn [mbind outcome_bind] in Ebuild. injection Ebuild as -> Eptr. run.
    set (vs := VS.MkVS _ _ _ _ _ _ _ _). destruct (reuse_manifest (dbname ++ str "/" ++ str "MANIFEST-" ++ print_06 num) (str "MANIFEST-" ++ print_06 num) vs fs) as (r & fs' & -> & Hfs & Hr).
    { unfold vs, VS.MarkFileNumberUsed. by repeat case_match. }
    assert (VS.descriptor_log_ vs = None /\ Z.of_nat (length (VS.compact_pointer_ vs)) = kNumLevels) as Hopen.
    { split; [unfold vs, VS.MarkFileNumberUsed; by repeat case_match|]. assert (VS.compact_pointer_ vs = Builder.compact_pointer_ b) as -> by (unfold vs, VS.MarkFileNumberUsed; by repeat case_match). by rewrite Eptr, edit_pointers_length. }
    run. assert (recovered k (take m es) vs) as Hrec by (split; cbn; [by rewrite finalize_files|done|done|done|by exists nx]).
    destruct r as [vs'|]; eexists m, _, _, fs'; (split; [done|]); (split; [lia|]); (split; [|by split]); [|done].
    destruct (Hr vs' eq_refl) as (R1 & R2 & R3 & R4 & R5), Hrec as [Q1 Q2 Q3 Q4 Q5]. split; by rewrite ?R1, ?R2, ?R3, ?R4, ?R5.
Qed.

(** *** Writing records *)

(** A writer on [name] after the records of [es]. *)
Definition desc (name : bytes) (es : list VE.VersionEdit) : Writer bytes := MkWriter name (end_offset 0 (text <$> es)) type_crcs.

Lemma enc_nonempty rs x : enc_records 0 (rs ++ [x]) <> [].
Proof.
  rewrite log_enc_app. cbn [enc_records]. rewrite app_nil_r. intros E%app_nil. pose proof (frags_pos (length x) (end_offset 0 rs) true x) as Hp. destruct E as [_ E]. rewrite E in Hp. cbn in Hp. lia.
Qed.

(** What is clean after a call was so before. *)
Lemma log_edit_clean e log st w' : VS.log_edit addr e log = Ret (st, w') -> clean (dest_ w').2 -> clean (dest_ log).2.
Proof.
  unfold VS.log_edit. intros (record & _ & E)%bind_Ret. refine (add_record_keeps addr (fun f : bytes * FS => clean f.2 -> clean (dest_ log).2) _ _ _ _ _ _ _ E); [| |done].
  - intros d [n f] Hf. cbn in *. pose proof (mc_append n d f) as Ha. destruct (env_Append n d f) as [s1 f1]. cbn in *. intros Hc. by apply Hf, Ha.
  - intros [n f] Hf. cbn in *. pose proof (mc_flush n f) as Ha. destruct (env_Flush n f) as [s1 f1]. cbn in *. auto.
Qed.

Lemma log_edit_spec name es e fs : edit_ok e -> (clean fs -> env_read name fs = Some (enc_records 0 (text <$> es))) ->
  exists st w', VS.log_edit addr e (VS.on_fs (desc name es) fs) = Ret (st, w') /\ (forall g, g <> name -> env_read g (VS.off_fs w').2 = env_read g fs) /\ dest_ (VS.off_fs w').1 = name /\
    (ok st = true -> (VS.off_fs w').1 = desc name (es ++ [e]) /\ (clean (VS.off_fs w').2 -> env_read name (VS.off_fs w').2 = Some (enc_records 0 (text <$> es ++ [e])))).
Proof.
  intros He Hr. unfold VS.log_edit. rewrite encode_text by done. run.
  destruct (log_append_if file_contents (fun f : bytes * FS => clean f.2) addr Haddr (VS.on_fs (desc name es) fs) (text <$> es) (text e)) as (st & w' & E & Hs).
  { split_and!; cbn; [|done|done]. intros Hc. unfold file_contents. cbn. by rewrite Hr. }
  exists st, w'. split; [exact E|].
  assert ((dest_ w').1 = name /\ forall g, g <> name -> env_read g (dest_ w').2 = env_read g fs) as [Hn Ho].
  { refine (add_record_keeps addr (fun f : bytes * FS => f.1 = name /\ forall g, g <> name -> env_read g f.2 = env_read g fs) _ _ _ _ _ _ _ E); [| |done].
    - intros d [n f] [<- Hf]. cbn in *. pose proof (fun g Hg => ml_append_other n d f g Hg) as Ha. destruct (env_Append n d f) as [s1 f1]. cbn in *. split; [done|]. intros g Hg. rewrite Ha by done. by apply Hf.
    - intros [n f] [<- Hf]. cbn in *. pose proof (ml_flush n f) as Ha. destruct (env_Flush n f) as [s1 f1]. cbn in *. split; [done|]. intros g Hg. rewrite Ha. by apply Hf. }
  split_and!; [done|done|]. intros Hst. destruct (Hs Hst) as (Hc & Hoff & Hcrc). cbn in Hc, Hoff, Hcrc. rewrite fmap_app. cbn [fmap list_fmap]. split.
  - unfold VS.off_fs, desc. cbn. rewrite Hn, Hoff, Hcrc. by rewrite fmap_app.
  - intros Hcl. specialize (Hc Hcl). unfold file_contents in Hc. cbn. rewrite Hn in Hc. destruct (env_read name (dest_ w').2) as [x|]; cbn in Hc; [by f_equal|]. by apply (eq_sym) in Hc as Hc%enc_nonempty.
Qed.

Lemma write_record_spec vs name es e fs : edit_ok e -> VS.descriptor_log_ vs = Some (desc name es) -> (clean fs -> env_read name fs = Some (enc_records 0 (text <$> es))) ->
  exists s w fs', VS.write_record addr vs e fs = Ret (s, VS.set_descriptor vs (Some w), fs') /\ (forall g, g <> name -> env_read g fs' = env_read g fs) /\ (clean fs' -> clean fs) /\
    (s = true -> w = desc name (es ++ [e]) /\ (clean fs' -> env_read name fs' = Some (enc_records 0 (text <$> es ++ [e])))).
Proof.
  intros He Hd Hr. unfold VS.write_record. rewrite Hd. destruct (log_edit_spec name es e fs He Hr) as (st & w & Ed & Ho & Hn & Hok). pose proof (log_edit_clean _ _ _ _ Ed) as Hcl. rewrite Ed. run. cbn [VS.on_fs dest_ snd] in Hcl. change (dest_ w).2 with (VS.off_fs w).2 in Hcl. destruct (VS.off_fs w) as [w1 fs1]. cbn [fst snd] in *.
  destruct (ok st).
  - destruct (Hok eq_refl) as [-> Hc]. pose proof (ml_sync (dest_ (desc name (es ++ [e]))) fs1) as Hsy. pose proof (mc_sync (dest_ (desc name (es ++ [e]))) fs1) as Hsc. destruct (env_Sync _ fs1) as [s fs2]. cbn [snd] in Hsy, Hsc. eexists s, _, fs2. split_and!; [done| |auto|].
    + intros g Hg. rewrite Hsy. by apply Ho.
    + intros ->. split; [done|]. intros Hc2. rewrite Hsy. auto.
  - eexists false, _, fs1. by split_and!.
Qed.

(** *** [LogAndApply] *)

Definition manifest_name (num : Z) : bytes := dbname ++ str "/" ++ str "MANIFEST-" ++ print_06 num.

Lemma manifest_name_other num : 0 <= num < 2 ^ 64 -> manifest_name num <> CurrentFileName dbname /\ manifest_name num <> MakeFileName dbname num (str "dbtmp").
Proof.
  intros Hn. pose proof (parse_manifest num Hn) as Hm.
  split; intros E; assert (ParseFileName (drop (length dbname + 1) (manifest_name num)) = Some (num, kDescriptorFile)) as E' by (unfold manifest_name; by rewrite drop_dbname); rewrite E in E'.
  - unfold CurrentFileName in E'. change (str "/CURRENT") with (str "/" ++ str "CURRENT") in E'. by rewrite drop_dbname in E'.
  - unfold MakeFileName in E'. rewrite drop_dbname in E'. change (str ".") with [x2e] in E'. cbn [app] in E'. by rewrite parse_digit_name in E' by lia.
Qed.

(** The manifest has the edits [es], and the version set is what they say. *)
Record in_sync (es : list VE.VersionEdit) (vs : VS.VersionSet) (fs : FS) : Prop := {
  sy_number : 0 < VS.manifest_file_number_ vs < 2 ^ 64;
  sy_manifest : manifest_is (VS.manifest_file_number_ vs) (enc_records 0 (text <$> es)) fs;
  sy_log : VS.descriptor_log_ vs = Some (desc (manifest_name (VS.manifest_file_number_ vs)) es);
  sy_files : left_by c empty_files es (files_ (VS.current_ vs));
  sy_pointers : Z.of_nat (length (VS.compact_pointer_ vs)) = kNumLevels;
  sy_logs : VS.r_log (counted no_counters es) = Some (VS.log_number_ vs) /\ VS.r_prev (counted no_counters es) = Some (VS.prev_log_number_ vs);
  sy_complete : complete (counted no_counters es);
  sy_edits : edits_ok c empty_files es /\ Forall edit_ok es /\ Forall comparator_fits es;
}.

(** A filled edit sets all counters. *)
Lemma fill_spec vs e e' : VS.fill_edit vs e = Ret e' -> exists l p, VE.log_number_ e' = Some l /\ VE.prev_log_number_ e' = Some p /\
  VE.next_file_number_ e' = Some (VS.next_file_number_ vs) /\ VE.last_sequence_ e' = Some (VS.last_sequence_ vs) /\ VE.comparator_ e' = VE.comparator_ e /\
  VE.compact_pointers_ e' = VE.compact_pointers_ e /\ VE.deleted_files_ e' = VE.deleted_files_ e /\ VE.new_files_ e' = VE.new_files_ e.
Proof.
  unfold VS.fill_edit. intros E. destruct (VE.log_number_ e) as [n|] eqn:El.
  - destruct (_ <=? _); [|done]. destruct (_ <? _); [|done]. cbn [mbind outcome_bind] in E. injection E as <-. destruct (VE.prev_log_number_ e) as [p|] eqn:Ep; cbn; [by exists n, p|by exists n, (VS.prev_log_number_ vs)].
  - cbn [mbind outcome_bind] in E. injection E as <-. cbn. destruct (VE.prev_log_number_ e) as [p|] eqn:Ep; cbn; [by exists (VS.log_number_ vs), p|by exists (VS.log_number_ vs), (VS.prev_log_number_ vs)].
Qed.

Lemma counted_snoc k es e : counted k (es ++ [e]) = VS.read_counters e (counted k es).
Proof. by rewrite foldl_app. Qed.

(** The counters after a filled edit. *)
Lemma counted_filled vs e e' k es : VS.fill_edit vs e = Ret e' ->
  counted k (es ++ [e']) = VS.MkCounters (VE.log_number_ e') (VE.prev_log_number_ e') (Some (VS.next_file_number_ vs)) (Some (VS.last_sequence_ vs)).
Proof.
  intros Hf. destruct (fill_spec vs e e' Hf) as (l & p & E1 & E2 & E3 & E4 & _). rewrite counted_snoc. unfold VS.read_counters. by rewrite E1, E2, E3, E4.
Qed.

(** What a successful call leaves of the counters. *)
Definition installed (vs : VS.VersionSet) (e' : VE.VersionEdit) (vs' : VS.VersionSet) : Prop :=
  VS.next_file_number_ vs' = VS.next_file_number_ vs /\ VS.last_sequence_ vs' = VS.last_sequence_ vs /\ VS.manifest_file_number_ vs' = VS.manifest_file_number_ vs /\
  VE.log_number_ e' = Some (VS.log_number_ vs') /\ VE.prev_log_number_ e' = Some (VS.prev_log_number_ vs').

(** A failed call keeps the version. *)
Definition kept_version (vs vs' : VS.VersionSet) : Prop :=
  VS.current_ vs' = VS.current_ vs /\ VS.next_file_number_ vs' = VS.next_file_number_ vs /\ VS.last_sequence_ vs' = VS.last_sequence_ vs /\ VS.log_number_ vs' = VS.log_number_ vs /\
  VS.prev_log_number_ vs' = VS.prev_log_number_ vs.

Lemma build_one vs es e' : left_by c empty_files es (files_ (VS.current_ vs)) -> Z.of_nat (length (VS.compact_pointer_ vs)) = kNumLevels -> edits_ok c empty_files (es ++ [e']) ->
  exists b files, Builder.Apply c e' (Builder.new (files_ (VS.current_ vs)) (VS.compact_pointer_ vs)) = Ret b /\ Builder.SaveTo c b = Ret files /\
    Builder.compact_pointer_ b = edit_pointers (VS.compact_pointer_ vs) e' /\ left_by c empty_files (es ++ [e']) files.
Proof.
  intros Hl Hp Hok. destruct (build_spec c (files_ (VS.current_ vs)) (VS.compact_pointer_ vs) [e'] Hp) as (files & E & Hf); [by apply (edits_ok_later c empty_files es)|].
  unfold build in E. cbn [foldM] in E. destruct (Builder.Apply c e' _) as [b| |] eqn:Eb; [|done|done]. cbn [mbind outcome_bind] in E. destruct (Builder.SaveTo c b) as [files'| |] eqn:Es; [|done|done].
  cbn [mbind outcome_bind foldl] in E. injection E as -> Ep. exists b, files. split_and!; [done|done|done|]. by apply (left_by_app c empty_files es [e'] (files_ (VS.current_ vs))).
Qed.

Lemma log_and_apply_next es vs fs e e' : in_sync es vs fs -> VS.fill_edit vs e = Ret e' -> edit_ok e' -> comparator_fits e' -> edits_ok c empty_files (es ++ [e']) ->
  exists s vs' fs', VS.LogAndApply c cmp_name dbname addr e vs fs = Ret (s, vs', fs') /\
    (clean fs' -> clean fs) /\ (s = true -> (clean fs' -> in_sync (es ++ [e']) vs' fs') /\ left_by c empty_files (es ++ [e']) (files_ (VS.current_ vs')) /\ installed vs e' vs') /\
    (s = false -> kept_version vs vs').
Proof.
  intros [Hnum [Hcur Hman] Hlog Hfiles Hptr Hlogs Hcomp (Heo & Hok & Hcf)] Hfill He Hce Heo'. unfold VS.LogAndApply. rewrite Hfill. run.
  destruct (build_one vs es e' Hfiles Hptr Heo') as (b & files & -> & Esave & Ep & Hleft). run. rewrite Esave. run. cbn [VS.set_pointers VS.descriptor_log_]. rewrite Hlog. run.
  destruct (write_record_spec (VS.set_pointers vs (Builder.compact_pointer_ b)) (manifest_name (VS.manifest_file_number_ vs)) es e' fs He Hlog (fun _ => Hman)) as (s & w & fs' & -> & Hother & Hcl & Hs). run.
  destruct (fill_spec vs e e' Hfill) as (l & p & El & Epr & _). destruct s; run.
  - destruct (Hs eq_refl) as [-> Hman']. rewrite El, Epr. eexists true, _, fs'. split; [done|]. split; [done|]. split; [|done]. intros _. split_and!.
    + intros Hc. split; cbn; [done| |done|by rewrite finalize_files| | | |].
      * split; [|by apply Hman']. rewrite Hother; [done|]. apply not_eq_sym, manifest_name_other. lia.
      * pose proof (edit_pointers_length (VS.compact_pointer_ vs) [e']) as Hl. cbn [foldl] in Hl. by rewrite Ep, Hl.
      * rewrite (counted_filled vs e e' _ _ Hfill), El, Epr. done.
      * rewrite (counted_filled vs e e' _ _ Hfill), El. repeat split; by eexists.
      * split_and!; [done|by apply Forall_app_2, Forall_singleton|by apply Forall_app_2, Forall_singleton].
    + cbn. by rewrite finalize_files.
    + by repeat split.
  - eexists false, _, fs'. split; [done|]. split; [done|]. split; [done|]. intros _. by repeat split.
Qed.
End Manifest.
