(* ===== verification/Manifest.v ===== *)
(** * The manifest across a crash (util/leveldb/db/version_set.cc, [LogAndApply], [Recover])

    The first call of [LogAndApply] starts a manifest with a snapshot of the version, the
    next ones extend it; a manifest that is cut inside the record being written still
    describes the last version that was installed. *)

From S2P Require Import Prelude CLib Bloom Slice Order Coding DbFormat InternalOrder FileNames Status Files StdSet VersionEdit Version VersionBuilder LogFormat VersionSet.
From stdpp Require Import strings gmap.
#[local] Open Scope Z_scope.

(** ** A new database (db_impl.cc) *)

(** The edit that [DBImpl::NewDB] writes. *)
Definition new_db (cmp_name : bytes) : VE.VersionEdit := VE.SetLastSequence 0 (VE.SetNextFile 2 (VE.SetLogNumber 0 (VE.SetComparatorName cmp_name VE.new))).

(** Whether the status is OK. *)
Definition NewDB {FS} `{ManifestEnv FS} (cmp_name dbname : bytes) (addr : Z) (fs : FS) : outcome (bool * FS) :=
  manifest ← DescriptorFileName dbname 1;
  let '(s, fs) := env_NewWritableFile manifest fs in
  if negb s then Ret (false, fs)
  else
    log ← Writer_new addr (manifest, fs);
    '(st, log) ← VS.log_edit addr (new_db cmp_name) log;
    let fs := (dest_ log).2 in
    let '(s, fs) := if ok st then env_Close manifest fs else (false, fs) in
    if (s : bool) then SetCurrentFile dbname 1 fs else Ret (false, snd (env_DeleteFile manifest fs)).

Section Manifest.
Context {FS : Type} `{ManifestEnv FS} (clean : FS -> Prop) `{!ManifestLaws FS clean} (c : Comparator) `{!ComparatorLaws c} (cmp_name dbname : bytes) (addr : Z) (Haddr : 0 <= addr) (reuse_logs : bool).

(** ** The snapshot *)

Lemma snapshot_files level e l : foldl (VS.snapshot_file level) e l = VE.with_new e (VE.new_files_ e ++ (pair level <$> l)).
Proof.
  revert e. induction l as [|f l IH]; intros e; cbn [foldl fmap list_fmap]; [rewrite app_nil_r; by destruct e|]. rewrite IH. unfold VS.snapshot_file, VE.AddFile, VE.with_new. cbn.
  rewrite <- app_assoc. by destruct f.
Qed.

Lemma snapshot_levels i e files : foldl (fun e x => foldl (VS.snapshot_file (Z.of_nat x.1)) e x.2) e (imap (fun j => pair (i + j)%nat) files) =
  VE.with_new e (VE.new_files_ e ++ concat (imap (fun j l => pair (Z.of_nat (i + j)) <$> l) files)).
Proof.
  revert i e. induction files as [|l files IH]; intros i e; cbn [imap foldl concat]; [rewrite app_nil_r; by destruct e|]. cbn [fst snd]. rewrite snapshot_files, Nat.add_0_r.
  transitivity (foldl (fun e x => foldl (VS.snapshot_file (Z.of_nat x.1)) e x.2) (VE.with_new e (VE.new_files_ e ++ (pair (Z.of_nat i) <$> l))) (imap (fun j => pair (S i + j)%nat) files)).
  { f_equal. apply imap_ext. intros j x _. cbn. f_equal. lia. }
  rewrite IH. unfold VE.with_new. cbn. rewrite <- app_assoc. do 4 f_equal. apply imap_ext. intros j x _. cbn. do 2 f_equal. lia.
Qed.

Lemma snapshot_pointers e (l : list (nat * bytes)) : let e' := foldl (fun e x => VS.snapshot_pointer x e) e l in
  VE.comparator_ e' = VE.comparator_ e /\ VE.deleted_files_ e' = VE.deleted_files_ e /\ VE.new_files_ e' = VE.new_files_ e.
Proof.
  revert e. induction l as [|[i k] l IH]; intros e; [done|]. cbn [foldl]. destruct (IH (VS.snapshot_pointer (i, k) e)) as (-> & -> & ->). unfold VS.snapshot_pointer. by destruct k.
Qed.

Lemma snapshot_spec ps files : let e := VS.snapshot_edit cmp_name ps files in
  VE.comparator_ e = Some cmp_name /\ VE.deleted_files_ e = [] /\ VE.new_files_ e = concat (imap (fun j l => pair (Z.of_nat j) <$> l) files).
Proof.
  unfold VS.snapshot_edit. destruct (snapshot_pointers (VE.SetComparatorName cmp_name VE.new) (imap pair ps)) as (E1 & E2 & E3). set (e0 := foldl _ _ (imap pair ps)) in *.
  pose proof (snapshot_levels 0 e0 files) as El. cbn [Nat.add] in El. change (imap (fun j => pair j) files) with (imap pair files) in El. cbv zeta. rewrite El. cbn. by rewrite E1, E2, E3.
Qed.

Lemma level_adds i n (files : list (list FileMetaData)) : ((filter (fun x => x.1 = Z.of_nat i) (concat (imap (fun j l => pair (Z.of_nat (n + j)) <$> l) files))).*2) =
  (if decide (n <= i)%nat then default [] (files !! (i - n)%nat) else []).
Proof.
  revert n. induction files as [|l files IH]; intros n; cbn [imap concat]; [by case_decide|]. rewrite filter_app, fmap_app, Nat.add_0_r.
  assert (imap ((fun j l0 => pair (Z.of_nat (n + j)) <$> l0) ∘ S) files = imap (fun j l0 => pair (Z.of_nat (S n + j)) <$> l0) files) as ->.
  { apply imap_ext. intros j x _. cbn. do 2 f_equal. lia. }
  rewrite IH. destruct (decide (n = i)) as [->|Hne].
  - rewrite (decide_True (P := (i <= i)%nat)) by lia. rewrite decide_False by lia. rewrite Nat.sub_diag, app_nil_r. cbn. induction l as [|f l IHl]; [done|]. cbn [fmap list_fmap]. rewrite filter_cons_True by done. cbn. by rewrite IHl.
  - assert (filter (fun x : Z * FileMetaData => x.1 = Z.of_nat i) (pair (Z.of_nat n) <$> l) = []) as -> by (induction l as [|f l IHl]; [done|]; cbn [fmap list_fmap]; by rewrite filter_cons_False by (cbn; lia)).
    cbn [fmap list_fmap app]. destruct (decide (n <= i)%nat) as [Hle|Hgt].
    + rewrite decide_True by lia. replace (i - n)%nat with (S (i - S n)) by lia. done.
    + by rewrite decide_False by lia.
Qed.

(** The snapshot alone describes the version. *)
Lemma snapshot_level ps files i : edits_level [VS.snapshot_edit cmp_name ps files] i [] = default [] (files !! i).
Proof.
  destruct (snapshot_spec ps files) as (_ & _ & En). unfold edits_level. cbn [foldl]. unfold edit_level, adds. rewrite En.
  pose proof (level_adds i 0 files) as Hl. cbn [Nat.add] in Hl. rewrite Hl, decide_True, Nat.sub_0_r by lia. done.
Qed.

Lemma snapshot_left ps files : Z.of_nat (length files) = kNumLevels -> canonical c files -> left_by c empty_files [VS.snapshot_edit cmp_name ps files] files.
Proof.
  intros Hl Hc. split_and!; [unfold kNumLevels in Hl; cbn; lia|done|]. intros i l l' Hi Hi'.
  assert (l = []) as ->. { apply list_elem_of_lookup_2 in Hi. unfold empty_files in Hi. set_solver. }
  rewrite snapshot_level. by rewrite Hi'.
Qed.

(** ** The first call *)

Abbreviation counted := (foldl (fun k e => VS.read_counters e k)).
Abbreviation no_counters := (VS.MkCounters None None None None).
Abbreviation history es := (edits_ok c empty_files es /\ Forall edit_ok es /\ Forall (comparator_fits cmp_name) es).

(** A version set without a manifest of its own, as after [Recover]. *)
Record opened (vs : VS.VersionSet) : Prop := {
  op_number : 0 < VS.manifest_file_number_ vs < 2 ^ 64;
  op_log : VS.descriptor_log_ vs = None;
  op_files : canonical c (files_ (VS.current_ vs)) /\ Z.of_nat (length (files_ (VS.current_ vs))) = kNumLevels;
  op_pointers : Z.of_nat (length (VS.compact_pointer_ vs)) = kNumLevels;
}.

(** The snapshot is taken with the pointers of the edit. *)
Definition first_edits (vs : VS.VersionSet) (e' : VE.VersionEdit) : list VE.VersionEdit :=
  [VS.snapshot_edit cmp_name (edit_pointers (VS.compact_pointer_ vs) e') (files_ (VS.current_ vs)); e'].

(** A failed start leaves CURRENT, and every file but its own two, as they were. *)
Definition untouched (vs : VS.VersionSet) (fs fs' : FS) : Prop :=
  forall g, g <> manifest_name dbname (VS.manifest_file_number_ vs) -> g <> MakeFileName dbname (VS.manifest_file_number_ vs) (str "dbtmp") -> env_read g fs' = env_read g fs.

Lemma new_manifest_spec vs name fs : let e0 := VS.snapshot_edit cmp_name (VS.compact_pointer_ vs) (files_ (VS.current_ vs)) in edit_ok e0 -> VS.descriptor_log_ vs = None ->
  exists s d fs', VS.new_manifest cmp_name addr vs name fs = Ret (s, VS.set_descriptor vs d, fs') /\ (forall g, g <> name -> env_read g fs' = env_read g fs) /\ (clean fs' -> clean fs) /\
    (s = true -> d = Some (desc name [e0]) /\ (clean fs' -> env_read name fs' = Some (enc_records 0 (text <$> [e0])))).
Proof.
  intros e0 He Hd. unfold VS.new_manifest. pose proof (ml_new name fs) as Hn. pose proof (fun g Hg => ml_new_other name fs g Hg) as Hno. pose proof (mc_new name fs) as Hnc. destruct (env_NewWritableFile name fs) as [s fs1]. cbn [fst snd] in *.
  destruct s.
  - unfold Writer_new. rewrite init_type_crc by done. run. destruct (log_edit_spec clean addr Haddr name [] e0 fs1 He (fun _ => Hn eq_refl)) as (st & w & E & Ho & Hd' & Hs). pose proof (log_edit_clean clean addr _ _ _ _ E) as Hcl.
    change (VS.on_fs (desc name []) fs1) with (MkWriter (name, fs1) 0 type_crcs) in E, Hcl. fold e0. rewrite E. run. change (dest_ w).2 with (VS.off_fs w).2 in Hcl. destruct (VS.off_fs w) as [w1 fs2]. cbn [fst snd dest_] in *. eexists (ok st), (Some w1), fs2. split_and!; [done| |auto|].
    + intros g Hg. by rewrite Ho, Hno.
    + intros Hst. destruct (Hs Hst) as [-> ?]. done.
  - eexists false, None, fs1. split; [|done]. unfold VS.set_descriptor. rewrite <- Hd. by destruct vs.
Qed.

Lemma set_current_clean num (fs : FS) s fs' : SetCurrentFile dbname num fs = Ret (s, fs') -> clean fs' -> clean fs.
Proof.
  unfold SetCurrentFile. intros (contents & _ & E)%bind_Ret. destruct (negb _); [done|]. apply bind_Ret in E as (contents' & _ & E). apply bind_Ret in E as (tmp & _ & E).
  pose proof (mc_write (contents' ++ [x0a]) tmp fs) as Hw. destruct (env_WriteStringToFileSync _ tmp fs) as [s1 fs1]. cbn [snd] in Hw.
  destruct s1; [|injection E as _ <-; by intros ?%mc_delete%Hw]. pose proof (mc_rename tmp (CurrentFileName dbname) fs1) as Hr. destruct (env_RenameFile _ _ fs1) as [s2 fs2]. cbn [snd] in Hr.
  destruct s2; injection E as _ <-; [by intros ?%Hr%Hw|by intros ?%mc_delete%Hr%Hw].
Qed.

Lemma log_and_apply_first vs fs e e' : opened vs -> VS.fill_edit vs e = Ret e' -> history (first_edits vs e') ->
  exists s vs' fs', VS.LogAndApply c cmp_name dbname addr e vs fs = Ret (s, vs', fs') /\
    (clean fs' -> clean fs) /\ (s = true -> (clean fs' -> in_sync c cmp_name dbname (first_edits vs e') vs' fs') /\ installed vs e' vs') /\ (s = false -> kept_version vs vs' /\ VS.descriptor_log_ vs' = None /\ untouched vs fs fs').
Proof.
  intros [Hnum Hlog [Hcan Hlv] Hptr] Hfill (Heo & Hok & Hcf). unfold VS.LogAndApply. rewrite Hfill. run. set (e0 := VS.snapshot_edit cmp_name (edit_pointers (VS.compact_pointer_ vs) e') (files_ (VS.current_ vs))).
  assert (edit_ok e0 /\ edit_ok e') as [He0 He'] by (unfold first_edits in Hok; apply Forall_cons in Hok as [? Hok]; by apply Forall_cons in Hok as [? _]).
  destruct (build_one c vs [e0] e') as (b & files & -> & Esave & Ep & Hleft); [by apply snapshot_left|done|done|]. run. rewrite Esave. run. set (vs1 := VS.set_pointers vs (Builder.compact_pointer_ b)).
  change (VS.descriptor_log_ vs1) with (VS.descriptor_log_ vs). rewrite Hlog. unfold DescriptorFileName, positive_number. change (VS.manifest_file_number_ vs1) with (VS.manifest_file_number_ vs).
  replace (0 <? VS.manifest_file_number_ vs) with true by lia. run. set (name := dbname ++ str "/MANIFEST-" ++ print_06 (VS.manifest_file_number_ vs)).
  destruct (manifest_name_other dbname (VS.manifest_file_number_ vs) ltac:(lia)) as [Hn1 Hn2]. change (manifest_name dbname (VS.manifest_file_number_ vs)) with name in Hn1, Hn2.
  assert (VS.snapshot_edit cmp_name (VS.compact_pointer_ vs1) (files_ (VS.current_ vs1)) = e0) as E0 by (unfold vs1; cbn; by rewrite Ep).
  destruct (new_manifest_spec vs1 name fs) as (s & d & fs1 & -> & Ho1 & Hc1 & Hs1); [by rewrite E0|done|]. rewrite E0 in Hs1. run.
  destruct (fill_spec vs e e' Hfill) as (l & p & El & Epr & _). destruct s; run; cycle 1.
  { eexists false, _, _. split; [done|]. split; [by intros ?%mc_delete%Hc1|]. split; [done|]. intros _. split_and!; [by repeat split|done|]. intros g Hg _. rewrite delete_other by done. by apply Ho1. }
  destruct (Hs1 eq_refl) as [-> Hman].
  destruct (write_record_spec clean addr Haddr (VS.set_descriptor vs1 (Some (desc name [e0]))) name [e0] e' fs1 He' eq_refl Hman) as (s & w & fs2 & -> & Ho2 & Hc2 & Hs2). run. destruct s; run; cycle 1.
  { eexists false, _, _. split; [done|]. split; [by intros ?%mc_delete%Hc2%Hc1|]. split; [done|]. intros _. split_and!; [by repeat split|done|]. intros g Hg _. rewrite delete_other by done. by rewrite Ho2, Ho1. }
  destruct (Hs2 eq_refl) as [-> Hman2]. cbn [VS.set_descriptor VS.manifest_file_number_]. change (VS.manifest_file_number_ vs1) with (VS.manifest_file_number_ vs).
  destruct (set_current_spec dbname (VS.manifest_file_number_ vs) fs2 Hnum) as (s & fs3 & E3 & Hcur & Ho3). pose proof (set_current_clean _ _ _ _ E3) as Hc3. rewrite E3. run. destruct s; run.
  - rewrite El, Epr. eexists true, _, fs3. split; [done|]. split; [auto|]. split; [|done]. intros _. split; [|by repeat split]. intros Hcl.
    pose proof (counted_filled vs e e' no_counters [e0] Hfill) as Hc. change ([e0] ++ [e']) with (first_edits vs e') in Hc. rewrite El, Epr in Hc. split; rewrite ?Hc; cbn.
    + done.
    + split; [by rewrite Hcur, <- app_assoc|]. rewrite Ho3 by done. auto.
    + done.
    + by rewrite finalize_files.
    + pose proof (edit_pointers_length (VS.compact_pointer_ vs) [e']) as Hl. cbn [foldl] in Hl. by rewrite Ep, Hl.
    + done.
    + repeat split; by eexists.
    + done.
  - eexists false, _, _. split; [done|]. split; [by intros ?%mc_delete%Hc3%Hc2%Hc1|]. split; [done|]. intros _. split_and!; [by repeat split|done|]. intros g Hg Hg2. rewrite delete_other by done.
    destruct (decide (g = CurrentFileName dbname)) as [->|Hgc]; [rewrite Hcur|rewrite Ho3 by done]; by rewrite Ho2, Ho1.
Qed.

(** ** A version set in use *)

Abbreviation log_and_apply := (VS.LogAndApply c cmp_name dbname addr).

(** The states of a version set that has recorded the edits [es] in its manifest.  Between
    two edits the counters move and the database writes other files. *)
Inductive served : list VE.VersionEdit -> VS.VersionSet -> FS -> Prop :=
  | sv_first vs fs e e' vs' fs' : opened vs -> VS.fill_edit vs e = Ret e' -> history (first_edits vs e') -> log_and_apply e vs fs = Ret (true, vs', fs') -> served (first_edits vs e') vs' fs'
  | sv_edit es vs fs e e' vs' fs' : served es vs fs -> VS.fill_edit vs e = Ret e' -> history (es ++ [e']) -> log_and_apply e vs fs = Ret (true, vs', fs') -> served (es ++ [e']) vs' fs'
  | sv_number es vs fs : served es vs fs -> served es (VS.NewFileNumber vs).2 fs
  | sv_reuse n es vs fs : served es vs fs -> served es (VS.ReuseFileNumber n vs) fs
  | sv_used n es vs fs : served es vs fs -> served es (VS.MarkFileNumberUsed n vs) fs
  | sv_sequence n es vs vs' fs : served es vs fs -> VS.SetLastSequence n vs = Ret vs' -> served es vs' fs
  | sv_files es vs fs fs' : served es vs fs -> (forall g, g = CurrentFileName dbname \/ g = manifest_name dbname (VS.manifest_file_number_ vs) -> env_read g fs' = env_read g fs) -> (clean fs' -> clean fs) -> served es vs fs'.

Lemma log_and_apply_clean e vs fs s vs' fs' : log_and_apply e vs fs = Ret (s, vs', fs') -> clean fs' -> clean fs.
Proof.
  unfold VS.LogAndApply. intros (e1 & _ & E)%bind_Ret. apply bind_Ret in E as (b & _ & E). apply bind_Ret in E as (files & _ & E). apply bind_Ret in E as ([[[s1 vs1] name] fs1] & E1 & E).
  apply bind_Ret in E as ([[s2 vs2] fs2] & E2 & E). apply bind_Ret in E as ([s3 fs3] & E3 & E).
  assert (clean fs1 -> clean fs) as H1.
  { destruct (VS.descriptor_log_ _); [by injection E1 as _ _ _ <-|]. apply bind_Ret in E1 as (nm & _ & E1). apply bind_Ret in E1 as ([[s4 vs4] fs4] & E4 & [= _ _ _ <-]). unfold VS.new_manifest in E4.
    pose proof (mc_new nm fs) as Hnc. destruct (env_NewWritableFile nm fs) as [[] fs5]; cbn [snd] in Hnc; [|by injection E4 as _ _ <-]. apply bind_Ret in E4 as (w & Ew & E4). apply bind_Ret in E4 as ([st w'] & El & E4).
    pose proof (log_edit_clean clean addr _ _ _ _ El) as Hcl. unfold Writer_new in Ew. apply bind_Ret in Ew as (crcs & _ & [= <-]). cbn in E4, Hcl. injection E4 as _ _ <-. auto. }
  assert (clean fs2 -> clean fs1) as H2.
  { destruct s1; [|by injection E2 as _ _ <-]. unfold VS.write_record in E2. destruct (VS.descriptor_log_ vs1) as [w|]; [|done]. apply bind_Ret in E2 as ([st w'] & El & E2). pose proof (log_edit_clean clean addr _ _ _ _ El) as Hcl. cbn in E2, Hcl.
    destruct (ok st); [|by injection E2 as _ _ <-]. pose proof (mc_sync (dest_ w').1 (dest_ w').2) as Hsc. destruct (env_Sync _ _) as [s5 fs5]. cbn in Hsc. injection E2 as _ _ <-. auto. }
  assert (clean fs3 -> clean fs2) as H3 by (destruct s2; [destruct name; [by eapply set_current_clean|]|]; by injection E3 as _ <-).
  destruct s3.
  - destruct (VE.log_number_ e1), (VE.prev_log_number_ e1); try done. injection E as _ _ <-. auto.
  - destruct name; injection E as _ _ <-; [|auto]. intros Hcl%mc_delete. auto.
Qed.

(** What the counters do not touch. *)
Lemma in_sync_counters es vs vs' fs : VS.manifest_file_number_ vs' = VS.manifest_file_number_ vs -> VS.descriptor_log_ vs' = VS.descriptor_log_ vs -> VS.current_ vs' = VS.current_ vs ->
  VS.compact_pointer_ vs' = VS.compact_pointer_ vs -> VS.log_number_ vs' = VS.log_number_ vs -> VS.prev_log_number_ vs' = VS.prev_log_number_ vs ->
  in_sync c cmp_name dbname es vs fs -> in_sync c cmp_name dbname es vs' fs.
Proof. intros E1 E2 E3 E4 E5 E6 [H1 H2 H3 H4 H5 H6 H7 H8]. split; by rewrite ?E1, ?E2, ?E3, ?E4, ?E5, ?E6. Qed.

Lemma served_in_sync es vs fs : served es vs fs -> clean fs -> in_sync c cmp_name dbname es vs fs.
Proof.
  induction 1 as [vs fs e e' vs' fs' Ho Hf Hh E|es vs fs e e' vs' fs' _ IH Hf Hh E|es vs fs _ IH|n es vs fs _ IH|n es vs fs _ IH|n es vs vs' fs _ IH E|es vs fs fs' _ IH Hfs Hcf]; intros Hcl; try specialize (IH Hcl).
  - destruct (log_and_apply_first vs fs e e' Ho Hf Hh) as (s & vs2 & fs2 & E2 & _ & Hs & _). rewrite E2 in E. injection E as -> -> ->. by apply Hs.
  - destruct Hh as (He & Hok & Hcf). apply Forall_app in Hok as [_ Hok], Hcf as [_ Hcf]. inv Hok. inv Hcf.
    assert (clean fs) as Hcl0 by (exact (log_and_apply_clean _ _ _ _ _ _ E Hcl)).
    destruct (log_and_apply_next clean c cmp_name dbname addr Haddr es vs fs e e' (IH Hcl0) Hf) as (s & vs2 & fs2 & E2 & _ & Hs & _); [done..|]. rewrite E2 in E. injection E as -> -> ->. by apply Hs.
  - by apply (in_sync_counters es vs).
  - apply (in_sync_counters es vs); [..|done]; unfold VS.ReuseFileNumber; by case_match.
  - apply (in_sync_counters es vs); [..|done]; unfold VS.MarkFileNumberUsed; by case_match.
  - unfold VS.SetLastSequence in E. destruct (_ <=? _); [|done]. injection E as <-. by apply (in_sync_counters es vs).
  - destruct (IH (Hcf Hcl)) as [H1 [H2 H2'] H3 H4 H5 H6 H7 H8]. split; [done| |done..]. split; [rewrite Hfs; auto|]. rewrite Hfs; [done|by right].
Qed.

(** The version set that the edits describe. *)
Definition described (es : list VE.VersionEdit) (vs : VS.VersionSet) : Prop := recovered c (counted no_counters es) es vs.

Lemma described_same es vs vs2 fs : in_sync c cmp_name dbname es vs fs -> described es vs2 ->
  files_ (VS.current_ vs2) = files_ (VS.current_ vs) /\ VS.log_number_ vs2 = VS.log_number_ vs /\ VS.prev_log_number_ vs2 = VS.prev_log_number_ vs.
Proof.
  intros [_ _ _ Hf _ [Hl Hp] _ _] [Hf2 Hl2 Hp2 _ _]. rewrite Hl in Hl2. rewrite Hp in Hp2. injection Hl2 as <-. cbn in Hp2. by split_and!; [apply (left_by_unique c empty_files es)| |].
Qed.

(** The last edit leads from the one version to the other. *)
Lemma left_by_last es e' files files' : edits_ok c empty_files (es ++ [e']) -> left_by c empty_files es files -> left_by c empty_files (es ++ [e']) files' -> left_by c files [e'] files'.
Proof.
  intros Heo Hl Hl'. destruct (build_spec c files no_pointers [e'] eq_refl) as (files2 & _ & H2); [by apply (edits_ok_later c empty_files es)|].
  assert (files' = files2) as -> by (apply (left_by_unique c empty_files (es ++ [e'])); [done|by apply (left_by_app c empty_files es [e'] files)]). done.
Qed.

Lemma recover_cut es vs fs e e' d fs2 : in_sync c cmp_name dbname es vs fs -> VS.fill_edit vs e = Ret e' -> history (es ++ [e']) ->
  enc_records 0 (text <$> es) `prefix_of` d -> d `prefix_of` enc_records 0 (text <$> es ++ [e']) -> manifest_is dbname (VS.manifest_file_number_ vs) d fs2 ->
  exists save vs2 fs2', VS.Recover c cmp_name dbname addr reuse_logs VS.new fs2 = Ret (OK, save, vs2, fs2') /\ (forall g, env_read g fs2' = env_read g fs2) /\
    (described es vs2 \/ described (es ++ [e']) vs2) /\ (save = true -> 0 < VS.manifest_file_number_ vs2 < 2 ^ 64 -> opened vs2).
Proof.
  intros Hsy Hfill (Heo & Hok & Hcf) Hp Hp' Hm.
  destruct (recover_spec clean c cmp_name dbname addr Haddr reuse_logs (es ++ [e']) d (VS.manifest_file_number_ vs) fs2 (length es) Hm Hp' Heo Hok Hcf) as (m & save & vs2 & fs2' & E & Hmm & Hrec & Hfs & Hop).
  - rewrite length_app. lia.
  - by rewrite take_app_length.
  - intros m Hmm. rewrite length_app in Hmm. cbn [length] in Hmm. destruct (decide (m = length es)) as [->|Hne]; [rewrite take_app_length; apply Hsy|].
    rewrite take_ge by (rewrite length_app; cbn; lia). rewrite (counted_filled vs e e' _ _ Hfill). destruct (fill_spec vs e e' Hfill) as (l & p & -> & -> & _). repeat split; by eexists.
  - exists save, vs2, fs2'. split_and!; [done|done| |].
    + rewrite length_app in Hmm. cbn [length] in Hmm. destruct (decide (m = length es)) as [->|Hne]; [left|right]; [by rewrite take_app_length in Hrec|]. by rewrite take_ge in Hrec by (rewrite length_app; cbn; lia).
    + intros Hs Hn. destruct (Hop Hs) as [Ho1 Ho2]. destruct Hrec as [(Hl & Hc & _) _ _ _ _]. split; [done|done|split; [done|by rewrite Hl]|done].
Qed.

(** ** [NewDB] and the first [Recover] *)

Lemma new_db_ok : Z.of_nat (length cmp_name) < 2 ^ 32 -> edit_ok (new_db cmp_name).
Proof. intros Hn. split; [|constructor]. repeat (apply Forall_cons; split); try apply Forall_nil; cbn; try split; lia. Qed.

Lemma new_db_spec fs : Z.of_nat (length cmp_name) < 2 ^ 32 ->
  exists s fs', NewDB cmp_name dbname addr fs = Ret (s, fs') /\ (if s then clean fs' -> manifest_is dbname 1 (enc_records 0 (text <$> [new_db cmp_name])) fs' else env_read (CurrentFileName dbname) fs' = env_read (CurrentFileName dbname) fs).
Proof.
  intros Hn. unfold NewDB, DescriptorFileName, positive_number. cbn [Z.ltb Z.compare]. run. set (name := dbname ++ str "/MANIFEST-" ++ print_06 1).
  destruct (manifest_name_other dbname 1 ltac:(lia)) as [Hn1 Hn2]. change (manifest_name dbname 1) with name in Hn1, Hn2.
  pose proof (ml_new name fs) as Hnw. pose proof (fun g Hg => ml_new_other name fs g Hg) as Hno. destruct (env_NewWritableFile name fs) as [s fs1]. cbn [fst snd] in *. destruct s; cbn [negb]; [|eexists false, fs1; split; [done|]; by rewrite Hno].
  unfold Writer_new. rewrite init_type_crc by done. run.
  destruct (log_edit_spec clean addr Haddr name [] (new_db cmp_name) fs1 (new_db_ok Hn) (fun _ => Hnw eq_refl)) as (st & w & E & Ho & _ & Hs). change (VS.on_fs (desc name []) fs1) with (MkWriter (name, fs1) 0 type_crcs) in E.
  rewrite E. run. cbn [VS.off_fs fst snd] in *. destruct (ok st); cycle 1. { eexists false, _. split; [done|]. by rewrite delete_other, Ho, Hno by done. }
  destruct (Hs eq_refl) as [_ Hman]. pose proof (ml_close name (dest_ w).2) as Hcl. pose proof (mc_close name (dest_ w).2) as Hcc. destruct (env_Close name (dest_ w).2) as [s fs2]. cbn [snd] in Hcl, Hcc. destruct s; cycle 1.
  { eexists false, _. split; [done|]. by rewrite delete_other, Hcl, Ho, Hno by done. }
  destruct (set_current_spec dbname 1 fs2 ltac:(lia)) as (s & fs3 & E3 & Hcur & Ho3). pose proof (set_current_clean _ _ _ _ E3) as Hc3. exists s, fs3. split; [done|]. destruct s; [|by rewrite Hcur, Hcl, Ho, Hno by done].
  intros Hclean. split; [by rewrite Hcur, <- app_assoc|]. change (dbname ++ str "/" ++ str "MANIFEST-" ++ print_06 1) with name. rewrite Ho3, Hcl by done. auto.
Qed.

Lemma new_db_recover fs : Z.of_nat (length cmp_name) < 2 ^ 32 -> manifest_is dbname 1 (enc_records 0 (text <$> [new_db cmp_name])) fs ->
  exists save vs fs', VS.Recover c cmp_name dbname addr reuse_logs VS.new fs = Ret (OK, save, vs, fs') /\ (forall g, env_read g fs' = env_read g fs) /\
    files_ (VS.current_ vs) = empty_files /\ VS.log_number_ vs = 0 /\ VS.prev_log_number_ vs = 0 /\ VS.last_sequence_ vs = 0 /\ VS.next_file_number_ vs = 3.
Proof.
  intros Hn Hm. assert (edit_fine c (new_db cmp_name)) as Hfine by (by split).
  destruct (recover_spec clean c cmp_name dbname addr Haddr reuse_logs [new_db cmp_name] _ 1 fs 1 Hm) as (m & save & vs & fs' & E & Hmm & Hrec & Hfs & _).
  - done.
  - apply edits_check_ok; [done|repeat constructor|by apply Forall_singleton|done].
  - by apply Forall_singleton, new_db_ok.
  - apply Forall_singleton. by intros name [= <-].
  - done.
  - done.
  - intros m Hm1. replace m with 1%nat by (cbn in Hm1; lia). repeat split; by eexists.
  - exists save, vs, fs'. replace m with 1%nat in Hrec by (cbn in Hmm; lia). destruct Hrec as [Hl El Ep Els (n & En & Enx)]. cbn in El, Ep, Els, En. injection El as <-. injection Els as <-. injection En as <-.
    split_and!; [done|done| |done|done|done|done]. apply (left_by_unique c empty_files [new_db cmp_name]); [done|]. split_and!; [done|repeat constructor|].
    intros i l l' Hi Hi'. rewrite Hi in Hi'. injection Hi' as <-. apply list_elem_of_lookup_2 in Hi. assert (l = []) as -> by (unfold empty_files in Hi; set_solver). done.
Qed.
End Manifest.

(** ** The properties *)

(** C7: the manifest survives a crash.  In every state that successful calls of LogAndApply
    lead to from an opened version set, with the counters moving and other files written in
    between, and no Append to a manifest having failed so far, a further LogAndApply returns:
    it either installs the version with the edit, or fails and keeps the version.  And if the
    process dies while its record is written, so that any part of the record is in the file,
    Recover succeeds on what is there: it finds the same files on every level and the same
    log numbers as before the call, or those with the edit applied, with its log numbers,
    last sequence, and the next file number after the recorded one; and if it asks for a new
    manifest, the version set can be used again.  That no Append has failed is needed: the
    log writer does not look at the status of the Append that fills the end of a block, so a
    failure there alone leaves a manifest that does not have the record although the call
    reported success. *)
Theorem manifest_recovers {FS} `{ManifestEnv FS} (clean : FS -> Prop) `{!ManifestLaws FS clean} c `{!ComparatorLaws c} cmp_name dbname addr reuse_logs es vs (fs : FS) e e' : 0 <= addr ->
  served clean c cmp_name dbname addr es vs fs -> clean fs -> VS.fill_edit vs e = Ret e' -> edits_ok c empty_files (es ++ [e']) -> Forall edit_ok (es ++ [e']) -> Forall (comparator_fits cmp_name) (es ++ [e']) ->
  (exists s vs' fs', VS.LogAndApply c cmp_name dbname addr e vs fs = Ret (s, vs', fs') /\
    (s = true -> served clean c cmp_name dbname addr (es ++ [e']) vs' fs' /\ left_by c (files_ (VS.current_ vs)) [e'] (files_ (VS.current_ vs')) /\ installed vs e' vs') /\ (s = false -> kept_version vs vs')) /\
  forall d fs2, enc_records 0 (text <$> es) `prefix_of` d -> d `prefix_of` enc_records 0 (text <$> es ++ [e']) -> manifest_is dbname (VS.manifest_file_number_ vs) d fs2 ->
    exists save vs2 fs2', VS.Recover c cmp_name dbname addr reuse_logs VS.new fs2 = Ret (OK, save, vs2, fs2') /\
      ((files_ (VS.current_ vs2) = files_ (VS.current_ vs) /\ VS.log_number_ vs2 = VS.log_number_ vs /\ VS.prev_log_number_ vs2 = VS.prev_log_number_ vs) \/
       (left_by c (files_ (VS.current_ vs)) [e'] (files_ (VS.current_ vs2)) /\ VE.log_number_ e' = Some (VS.log_number_ vs2) /\ VE.prev_log_number_ e' = Some (VS.prev_log_number_ vs2) /\
        VS.last_sequence_ vs2 = VS.last_sequence_ vs /\ VS.next_file_number_ vs2 = u64 (VS.next_file_number_ vs + 1))) /\
      (save = true -> 0 < VS.manifest_file_number_ vs2 < 2 ^ 64 -> opened c vs2).
Proof.
  intros Ha Hs Hcl Hfill Heo Hok Hcf. pose proof (served_in_sync clean c cmp_name dbname addr Ha es vs fs Hs Hcl) as Hsy. split.
  - destruct (proj1 (Forall_app _ _ _) Hok) as [_ Hok1], (proj1 (Forall_app _ _ _) Hcf) as [_ Hcf1]. inv Hok1. inv Hcf1.
    destruct (log_and_apply_next clean c cmp_name dbname addr Ha es vs fs e e' Hsy Hfill) as (s & vs' & fs' & E & _ & Ht & Hf); [done..|]. exists s, vs', fs'. split_and!; [done| |done].
    intros ->. destruct (Ht eq_refl) as (_ & Hl & Hi). split_and!; [by eapply sv_edit| |done..]. by apply (left_by_last c es e' _ _ Heo); [apply Hsy|].
  - intros d fs2 Hp Hp' Hm. destruct (recover_cut clean c cmp_name dbname addr Ha reuse_logs es vs fs e e' d fs2 Hsy Hfill (conj Heo (conj Hok Hcf)) Hp Hp' Hm) as (save & vs2 & fs2' & E & _ & Hd & Ho).
    exists save, vs2, fs2'. split_and!; [done| |done]. destruct Hd as [Hd|Hd]; [left; by apply (described_same c cmp_name dbname es vs vs2 fs)|right].
    destruct Hd as [Hf Hl Hpr Hls (n & Hn & Hnx)]. rewrite (counted_filled vs e e' _ _ Hfill) in Hl, Hpr, Hls, Hn. cbn in Hl, Hpr, Hls, Hn. injection Hn as <-. injection Hls as <-.
    destruct (fill_spec vs e e' Hfill) as (l & p & _ & Ep & _). rewrite Ep in Hpr. cbn in Hpr. split_and!; [by apply (left_by_last c es e' _ _ Heo); [apply Hsy|]|done|by rewrite Ep, Hpr|done|done].
Qed.

(** A new database opens empty.  NewDB either fails and leaves CURRENT as it was, or
    Recover, which reads the manifest that it wrote, succeeds (if no Append failed unseen) with no files on any level,
    log number and last sequence 0, and 3 as the next file number, 2 being set aside for
    the next manifest. *)
Theorem new_db_opens {FS} `{ManifestEnv FS} (clean : FS -> Prop) `{!ManifestLaws FS clean} c `{!ComparatorLaws c} cmp_name dbname addr reuse_logs (fs : FS) : 0 <= addr -> Z.of_nat (length cmp_name) < 2 ^ 32 ->
  exists s fs', NewDB cmp_name dbname addr fs = Ret (s, fs') /\
    if s then clean fs' -> exists save vs fs2, VS.Recover c cmp_name dbname addr reuse_logs VS.new fs' = Ret (OK, save, vs, fs2) /\ (forall g, env_read g fs2 = env_read g fs') /\
      files_ (VS.current_ vs) = empty_files /\ VS.log_number_ vs = 0 /\ VS.prev_log_number_ vs = 0 /\ VS.last_sequence_ vs = 0 /\ VS.next_file_number_ vs = 3
    else env_read (CurrentFileName dbname) fs' = env_read (CurrentFileName dbname) fs.
Proof.
  intros Ha Hn. destruct (new_db_spec clean cmp_name dbname addr Ha fs Hn) as (s & fs' & E & Hs). exists s, fs'. split; [done|]. destruct s; [|done]. intros Hcl. by apply (new_db_recover clean); [..|apply Hs].
Qed.

(** ** Witnesses *)

(** Files in memory, where no call fails. *)
#[global] Instance gmap_manifest_env : ManifestEnv (gmap bytes bytes) := {|
  env_error n _ := Some n;
  env_NewWritableFile n fs := (true, <[n := []]> fs);
  env_NewAppendableFile n fs := (true, fs);
  env_GetFileSize n fs := (fun d => Z.of_nat (length d)) <$> fs !! n;
  env_Append n d fs := (OK, <[n := default [] (fs !! n) ++ d]> fs);
  env_Flush n fs := (OK, fs);
  env_Sync n fs := (true, fs);
  env_Close n fs := (true, fs);
|}.

#[global] Instance gmap_manifest_laws : ManifestLaws (gmap bytes bytes) (fun _ => True).
Proof.
  split; try apply _; try done; cbn.
  - intros n fs _. apply lookup_insert_eq.
  - intros n fs g Hg. by apply lookup_insert_ne.
  - intros n fs size E. destruct (fs !! n) as [d|]; [|done]. injection E as <-. by exists d.
  - intros n d fs _. apply lookup_insert_eq.
  - intros n d fs g Hg. by apply lookup_insert_ne.
Qed.

Definition sample_name : bytes := str "leveldb.BytewiseComparator".
Definition sample_vs : VS.VersionSet := VS.MkVS 5 2 7 0 0 None (Finalize empty_files) no_pointers.
Definition sample_add (n : Z) (s e : string) : VE.VersionEdit := VE.AddFile 1 n 10 (ikey (str s) 9 kTypeValue) (ikey (str e) 3 kTypeValue) VE.new.
Definition sample_filled (e : VE.VersionEdit) : VE.VersionEdit := VE.SetLastSequence 7 (VE.SetNextFile 5 (VE.SetPrevLogNumber 0 (VE.SetLogNumber 0 e))).

Lemma sample_add_fine n s e : slice_compare (str s) (str e) <= 0 -> edit_fine BytewiseComparator (sample_filled (sample_add n s e)).
Proof.
  intros Hle. split; [apply Forall_nil, Logic.I|apply Forall_nil, Logic.I|]. apply Forall_singleton. split; [by vm_compute|]. apply value_file_ok; [by vm_compute..|].
  rewrite ikey_ord by (by apply value_tag; vm_compute). unfold icmp. cbn [cmp_Compare BytewiseComparator]. destruct (_ =? 0); [|done]. vm_compute. done.
Qed.

Definition sample_edits2 : list VE.VersionEdit := first_edits sample_name sample_vs (sample_filled (sample_add 3 "a" "c")) ++ [sample_filled (sample_add 4 "d" "f")].

Lemma sample_edits2_is : sample_edits2 = [VE.SetComparatorName sample_name VE.new; sample_filled (sample_add 3 "a" "c"); sample_filled (sample_add 4 "d" "f")].
Proof. vm_compute. reflexivity. Qed.

Lemma sample_add_ok n s e : word64 n -> key_fits (ikey (str s) 9 kTypeValue) -> key_fits (ikey (str e) 3 kTypeValue) -> edit_ok (sample_filled (sample_add n s e)).
Proof. intros Hn Hs He. split; [|constructor]. repeat (apply Forall_cons; split); [by vm_compute..| |apply Forall_nil, Logic.I]. split; [by vm_compute|]. by split_and!. Qed.

Lemma sample_history : edits_ok BytewiseComparator empty_files sample_edits2 /\ Forall edit_ok sample_edits2 /\ Forall (comparator_fits sample_name) sample_edits2.
Proof.
  rewrite sample_edits2_is. split_and!.
  - apply edits_check_ok; [done|repeat constructor| |by vm_compute]. apply Forall_cons; split; [by split|]. apply Forall_cons; split; [by apply sample_add_fine; vm_compute|]. apply Forall_singleton. by apply sample_add_fine; vm_compute.
  - apply Forall_cons; split; [split; [|constructor]; apply Forall_singleton; by vm_compute|]. apply Forall_cons; split; [by apply sample_add_ok; vm_compute|]. apply Forall_singleton. by apply sample_add_ok; vm_compute.
  - apply Forall_cons; split; [by intros name [= <-]|]. apply Forall_cons; split; [by intros name|]. apply Forall_singleton. by intros name.
Qed.

Lemma sample_served : exists vs fs, served (fun _ => True) BytewiseComparator sample_name (str "db") 0 (first_edits sample_name sample_vs (sample_filled (sample_add 3 "a" "c"))) vs (fs : gmap bytes bytes) /\
  VS.fill_edit vs (sample_add 4 "d" "f") = Ret (sample_filled (sample_add 4 "d" "f")).
Proof.
  assert (opened BytewiseComparator sample_vs) as Ho by (split; [by vm_compute|done|split; [repeat constructor|done]|done]).
  destruct sample_history as (H1 & H2 & H3). pose proof (edits_ok_take BytewiseComparator sample_edits2 2 H1) as H1'.
  apply Forall_app in H2 as [H2 _], H3 as [H3 _].
  destruct (log_and_apply_first (fun _ => True) BytewiseComparator sample_name (str "db") 0 ltac:(done) sample_vs (∅ : gmap bytes bytes) (sample_add 3 "a" "c") (sample_filled (sample_add 3 "a" "c")) Ho eq_refl (conj H1' (conj H2 H3)))
    as (s & vs & fs & E & _ & Hs & _).
  assert (match VS.LogAndApply BytewiseComparator sample_name (str "db") 0 (sample_add 3 "a" "c") sample_vs (∅ : gmap bytes bytes) with Ret (s, _, _) => s | _ => false end = true) as Hok by (vm_compute; reflexivity).
  rewrite E in Hok. subst s. exists vs, fs. split; [apply (sv_first _ _ _ _ _ sample_vs ∅ (sample_add 3 "a" "c")); [exact Ho|reflexivity|exact (conj H1' (conj H2 H3))|exact E]|].
  destruct (Hs eq_refl) as [_ (Hn & Hl & _ & Elog & Eprev)]. unfold VS.fill_edit. cbn in Elog, Eprev. injection Elog as Elog. injection Eprev as Eprev. cbn. by rewrite Hn, Hl, <- Elog, <- Eprev.
Qed.

Lemma manifest_recovers_witness : exists vs (fs : gmap bytes bytes), VS.fill_edit vs (sample_add 4 "d" "f") = Ret (sample_filled (sample_add 4 "d" "f")) /\
  exists s vs' fs', VS.LogAndApply BytewiseComparator sample_name (str "db") 0 (sample_add 4 "d" "f") vs fs = Ret (s, vs', fs') /\
    (s = true -> left_by BytewiseComparator (files_ (VS.current_ vs)) [sample_filled (sample_add 4 "d" "f")] (files_ (VS.current_ vs'))).
Proof.
  destruct sample_served as (vs & fs & Hs & Hf), sample_history as (H1 & H2 & H3). exists vs, fs. split; [exact Hf|].
  destruct (proj1 (manifest_recovers (fun _ => True) BytewiseComparator sample_name (str "db") 0 false _ vs fs _ _ ltac:(done) Hs Logic.I Hf H1 H2 H3)) as (s & vs' & fs' & E & Ht & _).
  exists s, vs', fs'. split; [exact E|]. intros Es. exact (proj1 (proj2 (Ht Es))).
Defined.

Lemma new_db_opens_witness : exists s fs', NewDB sample_name (str "db") 0 (∅ : gmap bytes bytes) = Ret (s, fs') /\ s = true.
Proof.
  destruct (new_db_opens (fun _ => True) BytewiseComparator sample_name (str "db") 0 false (∅ : gmap bytes bytes) ltac:(done) ltac:(vm_compute; reflexivity)) as (s & fs' & E & _).
  exists s, fs'. split; [exact E|]. assert (match NewDB sample_name (str "db") 0 (∅ : gmap bytes bytes) with Ret (s, _) => s | _ => false end = true) as Hok by (vm_compute; reflexivity). by rewrite E in Hok.
Defined.
