(* ===== verification/DbWrite.v ===== *)
(** * The writer queue (util/leveldb/db/db_impl.cc)

    [DB::Put] and [DB::Delete] make a batch and queue it; the writer at the front of
    the queue merges followers into one group, numbers it, appends it to the log,
    applies it to the memtable and releases the writers it served.  An execution is a
    sequence of actions: a writer joins the queue, or the front writer runs.  The mutex is
    released while the group is logged and applied, but only new writers may join then,
    at the other end of the queue.  Here the database has one memtable, and what
    [MakeRoomForWrite] does about a full one is left out: its status is an argument.
    The whole of [MakeRoomForWrite] is [room_step] of Background.v, and executions that
    switch memtables and flush them are in DbExec.v, which uses [commit_group]. *)

From S2P Require Import Prelude Slice Coding DbFormat FileNames Status Crc32c SkipList WriteBatch MemTable LogFormat Files.
From stdpp Require Import strings.
#[local] Open Scope Z_scope.

(** [struct DBImpl::Writer], less the condition variable. *)
Record writer := MkReq { w_id : nat; w_batch : option WriteBatch; w_sync : bool }.

Record DBState := MkDB {
  writers_ : list writer;
  log_ : Writer bytes;
  mem_ : MemTable;
  last_sequence_ : Z;
  tmp_batch_ : WriteBatch;
  bg_error_ : Status;
  finished : list (nat * Status);   (* writers that have returned, with their status *)
}.

(** ** BuildBatchGroup *)

(** The loop over the followers: [switched] is [result != first->batch], [last] the
    position of [*last_writer]. *)
Fixpoint group_loop (first : writer) (tmp : WriteBatch) (max_size : Z) (ws : list writer) (i : nat)
    (size : Z) (result : WriteBatch) (switched : bool) (last : nat) : outcome (WriteBatch * bool * nat) :=
  match ws with
  | [] => Ret (result, switched, last)
  | w :: ws' =>
      if w_sync w && negb (w_sync first) then Ret (result, switched, last)
      else
        match w_batch w with
        | None => group_loop first tmp max_size ws' (S i) size result switched i
        | Some b =>
            let size := u64 (size + ByteSize b) in
            if max_size <? size then Ret (result, switched, last)
            else
              result ← (if switched then Ret result
                        else n ← Count tmp; assert! n =? 0; Append tmp result);
              result ← Append result b;
              group_loop first tmp max_size ws' (S i) size result true i
        end
  end.

Definition BuildBatchGroup (ws : list writer) (tmp : WriteBatch) : outcome (WriteBatch * bool * nat) :=
  match ws with
  | [] => Exit 134
  | first :: ws' =>
      match w_batch first with
      | None => Exit 134
      | Some result =>
          let size := ByteSize result in
          let max_size := if size <=? Z.shiftl 128 10 then u64 (size + Z.shiftl 128 10) else Z.shiftl 1 20 in
          group_loop first tmp max_size ws' 1 size result false 0
      end
  end.

(** ** Write *)

Section Write.
Context (addr : Z) (c : Comparator).

(** [MakeRoomForWrite] yields a recorded error before anything else; [room] is the
    status of the rest of its loop. *)
Definition MakeRoomForWrite (room : Status) (db : DBState) : Status :=
  if negb (ok (bg_error_ db)) then bg_error_ db else room.

Definition RecordBackgroundError (s : Status) (bg_error : Status) : Status := if ok bg_error then s else bg_error.

(** The group of the front writer is numbered, logged and applied; [sync_status] is the
    status of [logfile_->Sync()].  The second component is [sync_error]. *)
Definition commit_group (sync_status : Status) (w : writer) (db : DBState) : outcome (Status * bool * nat * DBState) :=
  '(updates, switched, last) ← BuildBatchGroup (writers_ db) (tmp_batch_ db);
  updates ← SetSequence updates (u64 (last_sequence_ db + 1));
  n ← Count updates;
  let last_sequence := u64 (last_sequence_ db + n) in
  '(status, log) ← AddRecord addr (log_ db) (Contents updates);
  let '(status, sync_error) :=
    if ok status && w_sync w then (sync_status, negb (ok sync_status)) else (status, false) in
  '(status, mem) ← (if ok status then InsertInto c updates (mem_ db) else Ret (status, mem_ db));
  let tmp := if (switched : bool) then Clear else tmp_batch_ db in
  Ret (status, sync_error, last, MkDB (writers_ db) log mem last_sequence tmp (bg_error_ db) (finished db)).

Definition set_bg (db : DBState) (s : Status) : DBState := MkDB (writers_ db) (log_ db) (mem_ db) (last_sequence_ db) (tmp_batch_ db) s (finished db).

(** What the front writer does. *)
Definition commit (room sync_status : Status) (w : writer) (db : DBState) : outcome (Status * nat * DBState) :=
  let room := MakeRoomForWrite room db in
  if ok room then
    match w_batch w with
    | None => Ret (room, 0%nat, db)
    | Some _ =>
        '(status, sync_error, last, db) ← commit_group sync_status w db;
        Ret (status, last, if (sync_error : bool) then set_bg db (RecordBackgroundError status (bg_error_ db)) else db)
    end
  else Ret (room, 0%nat, db).

(** The loop that pops the writers of the group and hands them the status. *)
Definition pop_group (last : nat) (status : Status) (db : DBState) : DBState :=
  MkDB (drop (S last) (writers_ db)) (log_ db) (mem_ db) (last_sequence_ db) (tmp_batch_ db) (bg_error_ db)
    (finished db ++ ((fun w => (w_id w, status)) <$> take (S last) (writers_ db))).

Inductive action :=
| Enqueue (w : writer)
| Front (room sync_status : Status).

(** [writers_.push_back(&w)], and the front writer's turn. *)
Definition step_db (a : action) (db : DBState) : outcome DBState :=
  match a with
  | Enqueue w =>
      Ret (MkDB (writers_ db ++ [w]) (log_ db) (mem_ db) (last_sequence_ db) (tmp_batch_ db) (bg_error_ db) (finished db))
  | Front room sync_status =>
      match writers_ db with
      | [] => Ret db
      | w :: _ => '(status, last, db) ← commit room sync_status w db; Ret (pop_group last status db)
      end
  end.

(** A new database as [DB::Open] leaves it: an empty log and an empty memtable. *)
Definition DB_new : outcome DBState :=
  w ← Writer_new addr ([] : bytes); m ← MemTable_new; Ret (MkDB [] w (Ref m) 0 Clear OK []).

(** [DB::Put] and [DB::Delete]: the batch they queue. *)
Definition DB_Put (id : nat) (key value : bytes) : outcome action := b ← Put Clear key value; Ret (Enqueue (MkReq id (Some b) false)).
Definition DB_Delete (id : nat) (key : bytes) : outcome action := b ← WriteBatch.Delete Clear key; Ret (Enqueue (MkReq id (Some b) false)).

(** The lookup in [mem_] of [DBImpl::Get]; [None] is NotFound.  The whole of it is
    [DBImpl_Get] of DbRead.v. *)
Definition GetFromMem (db : DBState) (snapshot : option Z) (key : bytes) : outcome (option bytes) :=
  lkey ← LookupKey_new key (default (last_sequence_ db) snapshot);
  r ← Get c (mem_ db) lkey;
  Ret (value_of r).

End Write.

(** What the log reader reported, as the status of a recovery sees it; [paranoid] is
    [options_.paranoid_checks]. *)
Definition reported (paranoid : bool) (r : Reader bytes) (status : Status) : Status :=
  if paranoid && ok status then match reporter_ r with Some ((_, s) :: _) => s | _ => status end else status.

(** ** Groups *)

(** A queued writer and the updates of its batch. *)
Definition writer_ok (w : writer) (us : list update) : Prop :=
  (exists s, w_batch w = Some (batch s us)) \/ (w_batch w = None /\ us = []).

Lemma group_loop_spec first max_size ws uss : Forall2 writer_ok ws uss -> forall i size s rs (switched : bool),
  (1 <= i)%nat -> small (rs ++ concat uss) ->
  exists m s' sw, group_loop first Clear max_size ws i size (batch s rs) switched (i - 1) =
      Ret (batch s' (rs ++ concat (take m uss)), sw, (i + m - 1)%nat) /\ (m <= length ws)%nat.
Proof.
  induction 1 as [|w us ws uss Hw HF IH]; intros i size s rs switched Hi Hsm; cbn [group_loop].
  { exists 0%nat, s, switched. cbn. rewrite app_nil_r, Nat.add_0_r. done. }
  assert (exists m s' (sw' : bool), Ret (batch s rs, switched, (i - 1)%nat) =
    Ret (batch s' (rs ++ concat (take m (us :: uss))), sw', (i + m - 1)%nat) /\ (m <= length (w :: ws))%nat) as Hstop.
  { exists 0%nat, s, switched. cbn. rewrite app_nil_r, Nat.add_0_r. split; [done|lia]. }
  destruct (_ && _); [done|]. destruct Hw as [(sb & ->)|[-> ->]].
  - destruct (_ <? _); [done|].
    assert (small rs /\ small (rs ++ us) /\ small ((rs ++ us) ++ concat uss)) as (S1 & S2 & S3).
    { unfold small in *. cbn [concat] in Hsm. repeat rewrite length_app in *. lia. }
    assert (exists s1, (if switched then Ret (batch s rs) else n ← Count Clear; assert! n =? 0; Append Clear (batch s rs)) = Ret (batch s1 rs)) as [s1 ->].
    { destruct switched; [by eexists|]. exists 0. rewrite batch_new, batch_count by (unfold small; cbn; lia). run.
      cbn [length Z.of_nat Z.eqb]. by apply (append_batch 0 []). }
    run. rewrite append_batch by done. run.
    destruct (IH (S i) (u64 (size + ByteSize (batch sb us))) s1 (rs ++ us) true) as (m & s' & sw & E & Hm); [lia|done|].
    exists (S m), s', sw. replace i with (S i - 1)%nat at 2 by lia. rewrite E. cbn [take firstn concat length].
    rewrite <- app_assoc. split; [do 2 f_equal; lia|lia].
  - destruct (IH (S i) size s rs switched) as (m & s' & sw & E & Hm); [lia|done|].
    exists (S m), s', sw. replace i with (S i - 1)%nat at 2 by lia. rewrite E. cbn [take firstn concat length].
    split; [do 2 f_equal; lia|lia].
Qed.

Lemma build_group_spec w us ws uss : Forall2 writer_ok (w :: ws) (us :: uss) -> w_batch w <> None -> small (concat (us :: uss)) ->
  exists m s sw, BuildBatchGroup (w :: ws) Clear = Ret (batch s (concat (take (S m) (us :: uss))), sw, m) /\ (m <= length ws)%nat.
Proof.
  intros [Hw HF]%Forall2_cons Hne Hs. destruct Hw as [(s & Ew)|[Ew _]]; [|done]. cbn [BuildBatchGroup]. rewrite Ew.
  edestruct (group_loop_spec w) with (i := 1%nat) as (m & s' & sw & E & Hm); [exact HF|lia|exact Hs|].
  exists m, s', sw. split; [|done]. cbn in E |- *. rewrite E. do 2 f_equal. lia.
Qed.

(** ** The state of the database *)

(** The batches a log holds for groups of updates, numbered from [seq] on. *)
Fixpoint stamped (seq : Z) (gs : list (list update)) : list bytes :=
  match gs with
  | [] => []
  | g :: gs' => batch seq g :: stamped (seq + Z.of_nat (length g)) gs'
  end.

Lemma stamped_app seq gs hs : stamped seq (gs ++ hs) = stamped seq gs ++ stamped (seq + Z.of_nat (length (concat gs))) hs.
Proof.
  revert seq. induction gs as [|g gs IH]; intros seq; cbn [app stamped concat length]; [f_equal; lia|].
  rewrite IH, length_app. do 3 f_equal. lia.
Qed.

Lemma stamped_length seq gs : length (stamped seq gs) = length gs.
Proof. revert seq. induction gs; intros seq; cbn; [done|]. by f_equal. Qed.

(** Since the last [base] updates, the groups [gs] have been committed and nothing else
    has happened. *)
Record db_holds (base : Z) (db : DBState) (gs : list (list update)) : Prop := {
  holds_log : log_holds (log_ db) (stamped (base + 1) gs);
  holds_mem : mem_hist (mem_ db) (number (base + 1) (concat gs));
  holds_seq : last_sequence_ db = base + Z.of_nat (length (concat gs));
  holds_tmp : tmp_batch_ db = Clear;
  holds_ok : Forall mem_update_ok (concat gs);
  holds_bg : bg_error_ db = OK;
}.

Lemma db_new_holds addr : 0 <= addr -> exists db, DB_new addr = Ret db /\ db_holds 0 db [] /\ writers_ db = [] /\ finished db = [].
Proof.
  intros Ha. unfold DB_new, Writer_new. rewrite init_type_crc by done. run.
  destruct (mem_new BytewiseComparator) as (m0 & -> & Hrep0). run. eexists. split; [reflexivity|].
  split; [|done]. split; try done; by exists [].
Qed.

Lemma small_app_l us vs : small (us ++ vs) -> small us.
Proof. unfold small. rewrite length_app. lia. Qed.
Lemma small_app_r us vs : small (us ++ vs) -> small vs.
Proof. unfold small. rewrite length_app. lia. Qed.

Lemma concat_split {A} n (l : list (list A)) : concat l = concat (take n l) ++ concat (drop n l).
Proof. by rewrite <- concat_app, take_drop. Qed.

Lemma insert_group base gs g m : 0 <= base -> mem_hist m (number (base + 1) (concat gs)) -> Forall mem_update_ok g -> base + Z.of_nat (length (concat gs ++ g)) < 2 ^ 31 ->
  exists m', InsertInto BytewiseComparator (batch (base + Z.of_nat (length (concat gs)) + 1) g) m = Ret (OK, m') /\
    mem_hist m' (number (base + 1) (concat (gs ++ [g]))).
Proof.
  intros Hb Hm Hok Hs. rewrite length_app in Hs. set (n := Z.of_nat (length (concat gs))) in *.
  destruct (insert_into_batch m (number (base + 1) (concat gs)) (base + n + 1) g Hm) as (m' & E & Hm').
  - apply Forall_forall. intros e He%number_range. lia.
  - done.
  - unfold small. lia.
  - lia.
  - rewrite max_sequence. lia.
  - exists m'. split; [done|]. rewrite concat_app, number_app. cbn [concat]. rewrite app_nil_r. by replace (base + 1 + Z.of_nat (length (concat gs))) with (base + n + 1) by lia.
Qed.

Section Commit.
Context (addr : Z) (Haddr : 0 <= addr) (base : Z) (Hbase : 0 <= base) (w : writer) (ws : list writer) (uss : list (list update))
  (db : DBState) (gs : list (list update)).
Context (Hholds : db_holds base db gs) (Hws : writers_ db = w :: ws) (HF : Forall2 writer_ok (w :: ws) uss)
  (Hoks : Forall mem_update_ok (concat uss)) (Hs : base + Z.of_nat (length (concat gs ++ concat uss)) < 2 ^ 31)
  (Hne : w_batch w <> None).

Lemma group_prefix m : Forall mem_update_ok (concat (take m uss)) /\ base + Z.of_nat (length (concat gs ++ concat (take m uss))) < 2 ^ 31.
Proof.
  rewrite (concat_split m uss) in Hs, Hoks. repeat rewrite length_app in *. split; [by apply Forall_app in Hoks as [? _]|lia].
Qed.

(** The commit of a group, up to the outcome of syncing its log record. *)
Lemma group_logged sync_status : exists m log,
  let g := concat (take (S m) uss) in
  (m <= length ws)%nat /\ log_holds log (stamped (base + 1) (gs ++ [g])) /\
  commit_group addr BytewiseComparator sync_status w db =
    (let '(status, sync_error) := if w_sync w then (sync_status, negb (ok sync_status)) else (OK, false) in
     '(status, mem) ← (if ok status then InsertInto BytewiseComparator (batch (base + Z.of_nat (length (concat gs)) + 1) g) (mem_ db)
                       else Ret (status, mem_ db));
     Ret (status, sync_error, m, MkDB (w :: ws) log mem (base + Z.of_nat (length (concat (gs ++ [g])))) Clear OK (finished db))).
Proof.
  pose proof group_prefix as Hgp. destruct Hholds as [Hlog Hmem Hseq Htmp Hok Hbg]. destruct uss as [|us uss']; [by apply Forall2_cons_nil_inv in HF|].
  unfold commit_group. rewrite Hbg. destruct (build_group_spec w us ws uss' HF) as (m & s & sw & E & Hm); [done|unfold small; rewrite length_app in Hs; lia|].
  destruct (Hgp (S m)) as [Hg Hsg].
  rewrite Hws, Htmp, E. set (g := concat (take (S m) (us :: uss'))) in *. run. rewrite batch_set_sequence, Hseq. run.
  rewrite length_app in Hsg. rewrite batch_count by (unfold small; lia). run. rewrite !u64_small by lia. unfold Contents.
  destruct (log_append addr (log_ db) _ (batch (base + Z.of_nat (length (concat gs)) + 1) g) Haddr Hlog) as (log & -> & Hlog').
  run. change (ok OK) with true. cbn [andb]. exists m, log. fold g. clearbody g. cbn zeta. split_and!; [done| |].
  - rewrite stamped_app. cbn [stamped]. by replace (base + 1 + Z.of_nat (length (concat gs))) with (base + Z.of_nat (length (concat gs)) + 1) by lia.
  - replace (if sw then Clear else Clear) with Clear by (by destruct sw).
    replace (base + Z.of_nat (length (concat (gs ++ [g])))) with (base + Z.of_nat (length (concat gs)) + Z.of_nat (length g)); [done|].
    rewrite concat_app. cbn [concat]. rewrite app_nil_r, length_app. lia.
Qed.

(** Syncing succeeds: the group is committed. *)
Lemma group_spec : exists m db', commit_group addr BytewiseComparator OK w db = Ret (OK, false, m, db') /\ (m <= length ws)%nat /\
    db_holds base db' (gs ++ [concat (take (S m) uss)]) /\ writers_ db' = w :: ws /\ finished db' = finished db.
Proof.
  destruct (group_logged OK) as (m & log & Hm & Hlog & ->). destruct (group_prefix (S m)) as [Hg Hsg].
  change (ok OK) with true. cbn [negb].
  replace (if w_sync w then (OK, false) else (OK, false)) with (OK, false) by (by destruct (w_sync w)).
  change (ok OK) with true. cbn iota.
  destruct Hholds as [_ Hmem _ _ Hok _]. destruct (insert_group base gs _ (mem_ db) Hbase Hmem Hg Hsg) as (mem & -> & Hmem'). run.
  eexists m, _. split; [reflexivity|]. split; [done|]. split; [|by split]. split; try done.
  rewrite concat_app. cbn [concat]. rewrite app_nil_r. by apply Forall_app.
Qed.

Lemma commit_spec room : ok room = true -> exists m db', commit addr BytewiseComparator room OK w db = Ret (OK, m, db') /\ (m <= length ws)%nat /\
    db_holds base db' (gs ++ [concat (take (S m) uss)]) /\ writers_ db' = w :: ws /\ finished db' = finished db.
Proof.
  intros Hroom. pose proof group_spec as Hg. unfold commit, MakeRoomForWrite. rewrite (holds_bg _ _ _ Hholds). change (ok OK) with true. cbn [negb]. rewrite Hroom. destruct (w_batch w); [|done].
  destruct Hg as (m & db' & -> & Hr). run. by exists m, db'.
Qed.

(** Syncing fails: the group is not applied, and the error is recorded. *)
Lemma commit_unsynced room sync_status : ok room = true -> w_sync w = true -> ok sync_status = false ->
  exists m db', commit addr BytewiseComparator room sync_status w db = Ret (sync_status, m, db') /\
    mem_ db' = mem_ db /\ bg_error_ db' = sync_status /\ finished db' = finished db /\
    last_sequence_ db <= last_sequence_ db' < 2 ^ 31.
Proof.
  intros Hroom Hsync Hss. pose proof (group_logged sync_status) as Hg. pose proof group_prefix as Hpre. unfold commit, MakeRoomForWrite. rewrite (holds_bg _ _ _ Hholds). change (ok OK) with true. cbn [negb]. rewrite Hroom. destruct (w_batch w); [|done].
  destruct Hg as (m & log & Hm & Hlog & ->). rewrite Hsync, Hss. cbn [negb]. run. eexists m, _. split; [reflexivity|]. split_and!; try done; cbn [last_sequence_ set_bg].
  - rewrite (holds_seq _ _ _ Hholds), concat_app, length_app. lia.
  - destruct (Hpre (S m)) as [_ Hsg]. rewrite concat_app. cbn [concat]. by rewrite app_nil_r.
Qed.
End Commit.

(** ** Executions *)

Definition run_db (addr : Z) (c : Comparator) (acts : list action) (db : DBState) : outcome DBState := foldM (step_db addr c) acts db.

(** The writers that returned OK, in the order of their returns. *)
Definition acked (db : DBState) : list nat := fst <$> filter (fun x => ok x.2 = true) (finished db).

Section Executions.
(** [ups i] are the updates of writer [i]. *)
Context (addr : Z) (Haddr : 0 <= addr) (ups : nat -> list update).

(** Writers queue batches built from their updates; the room for a write may be
    refused, but syncing succeeds. *)
Definition action_ok (a : action) : Prop :=
  match a with
  | Enqueue w => writer_ok w (ups (w_id w)) /\ Forall mem_update_ok (ups (w_id w))
  | Front _ sync_status => sync_status = OK
  end.

Definition queued (a : action) : list update := match a with Enqueue w => ups (w_id w) | Front _ _ => [] end.

Definition written (ids : list nat) : list update := concat (ups <$> ids).

(** The writers in the order they joined: those that returned, then the queue. *)
Definition arrivals (db : DBState) : list nat := (finished db).*1 ++ (w_id <$> writers_ db).

Record db_inv (db : DBState) (gs : list (list update)) : Prop := {
  inv_holds : db_holds 0 db gs;
  inv_acked : concat gs = written (acked db);
  inv_atomic : forall m, exists j, concat (take m gs) = written (take j (acked db));
  inv_writers : Forall (fun w => writer_ok w (ups (w_id w)) /\ Forall mem_update_ok (ups (w_id w))) (writers_ db);
}.

Definition pending (db : DBState) : list update := written (w_id <$> writers_ db).

Lemma written_app a b : written (a ++ b) = written a ++ written b.
Proof. unfold written. by rewrite fmap_app, concat_app. Qed.

Lemma acked_pop last status db : acked (pop_group last status db) =
  acked db ++ (if ok status then w_id <$> take (S last) (writers_ db) else []).
Proof.
  unfold acked, pop_group. cbn [finished]. rewrite filter_app, fmap_app. f_equal.
  induction (take (S last) (writers_ db)) as [|w ws IH]; [by destruct (ok status)|]. cbn [fmap list_fmap] in *.
  rewrite filter_cons. cbn [snd]. destruct (ok status); [rewrite decide_True by done|rewrite decide_False by done]; cbn; by rewrite ?IH.
Qed.

(** More acknowledgements of nothing, or one more group of acknowledged updates. *)
Lemma atomic_extend gs ids more extra : concat gs = written ids ->
  (forall m, exists j, concat (take m gs) = written (take j ids)) ->
  extra = [] /\ written more = [] \/ extra = [written more] ->
  concat (gs ++ extra) = written (ids ++ more) /\ (forall m, exists j, concat (take m (gs ++ extra)) = written (take j (ids ++ more))).
Proof.
  intros Hall Hat Hex. assert (concat (gs ++ extra) = written (ids ++ more)) as Hall'.
  { rewrite concat_app, written_app, Hall. destruct Hex as [[-> ->]| ->]; cbn [concat]; by rewrite ?app_nil_r. }
  split; [done|]. intros m. destruct (decide (m <= length gs)%nat).
  - rewrite take_app_le by done. destruct (Hat m) as [j Hj]. exists (Nat.min j (length ids)).
    rewrite take_app_le by lia. rewrite Hj. destruct (decide (j <= length ids)%nat); [by rewrite Nat.min_l|].
    rewrite Nat.min_r by lia. by rewrite !take_ge by lia.
  - exists (length (ids ++ more)). rewrite (take_ge (ids ++ more)) by done. rewrite <- Hall'.
    destruct Hex as [[-> _]| ->]; rewrite take_ge; try done; len.
Qed.

Lemma holds_pop base last status db gs : db_holds base db gs -> db_holds base (pop_group last status db) gs.
Proof. intros []. by split. Qed.

Lemma arrivals_pop last status db : arrivals (pop_group last status db) = arrivals db.
Proof.
  unfold arrivals, pop_group. cbn [finished writers_]. rewrite fmap_app, <- app_assoc. f_equal.
  rewrite <- (take_drop (S last) (writers_ db)) at 3. rewrite fmap_app. f_equal. by rewrite <- list_fmap_compose.
Qed.

Lemma pop_writers last status db : writers_ (pop_group last status db) = drop (S last) (writers_ db).
Proof. done. Qed.

(** Releasing the writers at the front of the queue. *)
Lemma pop_inv db db' gs extra last status : db_inv db gs -> db_holds 0 db' (gs ++ extra) ->
  writers_ db' = writers_ db -> finished db' = finished db ->
  let more := if ok status then w_id <$> take (S last) (writers_ db) else [] in
  extra = [] /\ written more = [] \/ extra = [written more] ->
  db_inv (pop_group last status db') (gs ++ extra).
Proof.
  intros [Hh Ha Hat Hw] Hh' Ews Ef more Hex.
  assert (acked (pop_group last status db') = acked db ++ more) as Eack
    by (rewrite acked_pop; unfold acked; by rewrite Ews, Ef).
  destruct (atomic_extend gs (acked db) more extra Ha Hat Hex) as [Ha' Hat'].
  split; [by apply holds_pop|by rewrite Eack|by rewrite Eack|].
  rewrite pop_writers, Ews. by apply Forall_drop.
Qed.

Definition load (db : DBState) (gs : list (list update)) : nat := length (concat gs ++ pending db).

Lemma writers_split n (ws : list writer) : written (w_id <$> ws) = written (w_id <$> take n ws) ++ written (w_id <$> drop n ws).
Proof. by rewrite <- written_app, <- fmap_app, take_drop. Qed.

Lemma front_inv room db gs : db_inv db gs -> small (concat gs ++ pending db) ->
  exists db' gs', step_db addr BytewiseComparator (Front room OK) db = Ret db' /\ db_inv db' gs' /\
    (load db' gs' <= load db gs)%nat /\ arrivals db' = arrivals db /\
    (length (writers_ db') <= length (writers_ db) - 1)%nat.
Proof.
  intros Hinv Hs. cbn [step_db]. destruct (writers_ db) as [|w ws] eqn:Ews; [exists db, gs; split_and!; [done|done|done|done|rewrite Ews; cbn; lia]|].
  pose proof Hinv as [Hh Ha Hat Hw]. rewrite Ews in Hw. unfold load, pending in *.
  destruct (decide (ok room = true /\ w_batch w <> None)) as [[Hroom Hb]|Hno].
  - destruct (commit_spec addr Haddr 0 ltac:(lia) w ws (ups <$> (w_id <$> w :: ws)) db gs Hh Ews) with (room := room) as (m & db' & -> & Hm & Hh' & Ews' & Ef); try done.
    + clear -Hw. induction Hw as [|? ? []]; by constructor.
    + clear -Hw. induction Hw as [|? ? []]; [constructor|]. cbn. by apply Forall_app.
    + by rewrite Ews in Hs.
    + run. rewrite <- !fmap_take in Hh'. eexists _, _. split; [reflexivity|]. split_and!.
      * eapply pop_inv; [done|exact Hh'|by rewrite Ews'|done|]. right. change (ok OK) with true. cbn iota. by rewrite Ews.
      * rewrite pop_writers, Ews', Ews, (writers_split (S m) (w :: ws)), concat_app. cbn [concat].
        repeat rewrite length_app. unfold written. cbn [length]. lia.
      * rewrite arrivals_pop. unfold arrivals. by rewrite Ews', Ews, Ef.
      * rewrite pop_writers, Ews', length_drop. cbn [length]. lia.
  - assert (exists st, commit addr BytewiseComparator room OK w db = Ret (st, 0%nat, db) /\ (ok st = true -> written [w_id w] = [])) as (st & -> & Hst).
    { unfold commit, MakeRoomForWrite. rewrite (holds_bg _ _ _ Hh). change (negb (ok OK)) with false. cbn iota.
      exists room. destruct (ok room) eqn:Er; [|done]. destruct (w_batch w) eqn:Eb; [by destruct Hno|]. split; [done|]. intros _.
      apply Forall_cons in Hw as [[[(? & E)|[_ Hu]] _] _]; [by rewrite E in Eb|]. unfold written. cbn. by rewrite Hu. }
    run. eexists _, (gs ++ []). split; [reflexivity|]. split_and!.
    + eapply (pop_inv db); [done|by rewrite app_nil_r|done|done|]. left. split; [done|].
      destruct (ok st); [|done]. rewrite Ews. by apply Hst.
    + rewrite pop_writers, Ews, (writers_split 1 (w :: ws)), app_nil_r. repeat rewrite length_app. lia.
    + apply arrivals_pop.
    + rewrite pop_writers, Ews, length_drop. lia.
Qed.

Definition joined (a : action) : list nat := match a with Enqueue w => [w_id w] | Front _ _ => [] end.

Lemma step_inv a db gs : action_ok a -> db_inv db gs -> small (concat gs ++ pending db ++ queued a) ->
  exists db' gs', step_db addr BytewiseComparator a db = Ret db' /\ db_inv db' gs' /\
    (load db' gs' <= load db gs + length (queued a))%nat /\ arrivals db' = arrivals db ++ joined a.
Proof.
  intros Ha Hinv Hs. destruct a as [w|room ss].
  - eexists _, gs. split; [reflexivity|]. destruct Hinv as [[] Hac Hat Hw]. split_and!.
    + split; [by split|done|done|]. apply Forall_app. split; [done|]. by constructor.
    + unfold load, pending, queued. cbn [writers_]. rewrite fmap_app, written_app. repeat rewrite length_app.
      unfold written. cbn. rewrite app_nil_r. lia.
    + unfold arrivals. cbn [writers_ finished]. by rewrite fmap_app, app_assoc.
  - cbn in Ha. subst ss. destruct (front_inv room db gs Hinv) as (db' & gs' & E & Hi & Hl & Har & _); [by rewrite app_nil_r in Hs|].
    exists db', gs'. cbn [queued length joined]. rewrite app_nil_r. split_and!; [done|done|lia|done].
Qed.

Lemma run_inv acts : forall db gs, Forall action_ok acts -> db_inv db gs ->
  small (concat gs ++ pending db ++ concat (queued <$> acts)) ->
  exists db' gs', run_db addr BytewiseComparator acts db = Ret db' /\ db_inv db' gs' /\ small (concat gs' ++ pending db') /\
    arrivals db' = arrivals db ++ concat (joined <$> acts).
Proof.
  induction acts as [|a acts IH]; intros db gs Hok Hinv Hs.
  { exists db, gs. rewrite app_nil_r. rewrite app_assoc in Hs. split_and!; [done|done|by eapply small_app_l|done]. }
  apply Forall_cons in Hok as [Ha Hok].
  unfold small in *. cbn [fmap list_fmap concat] in Hs. repeat rewrite length_app in Hs.
  destruct (step_inv a db gs Ha Hinv) as (db1 & gs1 & E & Hi & Hl & Har); [unfold small; repeat rewrite length_app; lia|].
  unfold run_db. cbn [foldM fmap list_fmap concat]. rewrite E, app_assoc, <- Har. run. apply (IH db1 gs1 Hok Hi).
  unfold load in Hl. repeat rewrite length_app in *. lia.
Qed.

(** Enough turns of the front writers serve the whole queue. *)
Lemma serve_inv rooms : forall db gs, db_inv db gs -> small (concat gs ++ pending db) -> (length (writers_ db) <= length rooms)%nat ->
  exists db', run_db addr BytewiseComparator ((fun room => Front room OK) <$> rooms) db = Ret db' /\
    writers_ db' = [] /\ arrivals db' = arrivals db.
Proof.
  induction rooms as [|room rooms IH]; intros db gs Hinv Hs Hl.
  { exists db. split_and!; [done|by apply nil_length_inv; cbn in Hl; lia|done]. }
  destruct (front_inv room db gs Hinv Hs) as (db1 & gs1 & E & Hi & Hld & Har & Hp).
  unfold run_db. cbn [fmap list_fmap foldM]. rewrite E, <- Har. run. apply (IH db1 gs1 Hi); [|cbn in Hl; lia].
  unfold load, small in *. lia.
Qed.
End Executions.

(** ** Reads *)

Lemma db_get_at db gs k s : db_holds 0 db gs -> 0 <= s <= kMaxSequenceNumber -> Z.of_nat (length k) + 13 < 2 ^ 32 ->
  GetFromMem BytewiseComparator db (Some s) k = Ret (state_after (take (Z.to_nat s) (concat gs)) !! k).
Proof.
  intros Hh Hs Hk. destruct (get_hist _ _ k s (holds_mem _ _ _ Hh) (number_increasing 1 _) Hs Hk) as (lk & E1 & E2).
  unfold GetFromMem. change (default (last_sequence_ db) (Some s)) with s. rewrite E1. run. rewrite E2. run. rewrite read_hist_state. do 4 f_equal. lia.
Qed.

(** ** Memtables that recovery builds *)

(** The memtable recovery has built, if any, holds [h]. *)
Definition opt_hist (mem : option MemTable) (h : list mem_entry) : Prop :=
  match mem with Some m => mem_hist m h | None => h = [] end.

Lemma mem_ref m h : mem_hist m h -> mem_hist (Ref m) h.
Proof. done. Qed.

Lemma opt_hist_force mem h : opt_hist mem h ->
  exists m, match mem with Some m => Ret m | None => m ← MemTable_new; Ret (Ref m) end = Ret m /\ mem_hist m h.
Proof.
  destruct mem as [m|]; [by exists m|]. intros ->. destruct (mem_new BytewiseComparator) as (m & -> & Hm).
  run. exists (Ref m). split; [done|]. apply mem_ref. by exists [].
Qed.


Lemma run_new addr ups acts : 0 <= addr -> Forall (action_ok ups) acts -> small (concat (queued ups <$> acts)) ->
  exists db0 db gs, DB_new addr = Ret db0 /\ run_db addr BytewiseComparator acts db0 = Ret db /\ db_inv ups db gs /\
    small (concat gs ++ pending ups db) /\ arrivals db = concat (joined <$> acts).
Proof.
  intros Ha Hok Hs. destruct (db_new_holds addr Ha) as (db0 & E0 & Hh & Hw & Hf).
  destruct (run_inv addr Ha ups acts db0 []) as (db & gs & E & Hinv & Hsm & Har); [done| | |].
  - assert (acked db0 = []) as Hack by (unfold acked; by rewrite Hf).
    split; [done|by rewrite Hack| |by rewrite Hw]. intros m. exists 0%nat. by rewrite take_nil.
  - unfold pending. by rewrite Hw.
  - exists db0, db, gs. split_and!; try done. rewrite Har. unfold arrivals. by rewrite Hw, Hf.
Qed.

(** ** After a failed sync *)

Lemma step_stopped addr c a db : ok (bg_error_ db) = false -> exists db', step_db addr c a db = Ret db' /\
  mem_ db' = mem_ db /\ last_sequence_ db' = last_sequence_ db /\ bg_error_ db' = bg_error_ db /\ acked db' = acked db.
Proof.
  intros Hbg. destruct a as [w|room ss]; cbn [step_db]; [by eexists|]. destruct (writers_ db) as [|w ws] eqn:Ew; [by eexists|].
  unfold commit, MakeRoomForWrite. rewrite Hbg. cbn [negb]. rewrite Hbg. run. eexists. split_and!; try done.
  rewrite acked_pop, Hbg. apply app_nil_r.
Qed.

Lemma run_stopped addr c acts : forall db, ok (bg_error_ db) = false -> exists db', run_db addr c acts db = Ret db' /\
  mem_ db' = mem_ db /\ last_sequence_ db' = last_sequence_ db /\ bg_error_ db' = bg_error_ db /\ acked db' = acked db.
Proof.
  induction acts as [|a acts IH]; intros db Hbg; [by exists db|].
  destruct (step_stopped addr c a db Hbg) as (db1 & E & Hm & Hl & Hb & Hack). unfold run_db. cbn [foldM]. rewrite E. run.
  rewrite <- Hm, <- Hl, <- Hb, <- Hack. apply IH. by rewrite Hb.
Qed.

Lemma front_unsynced addr ups room ss db gs w ws : 0 <= addr -> db_inv ups db gs -> small (concat gs ++ pending ups db) ->
  ok room = true -> ok ss = false -> writers_ db = w :: ws -> w_sync w = true -> w_batch w <> None ->
  exists db', step_db addr BytewiseComparator (Front room ss) db = Ret db' /\ mem_ db' = mem_ db /\ bg_error_ db' = ss /\
    acked db' = acked db /\ last_sequence_ db <= last_sequence_ db' < 2 ^ 31.
Proof.
  intros Ha [Hh _ _ Hw] Hs Hroom Hss Ews Hsync Hb. cbn [step_db]. unfold pending in Hs. rewrite Ews in Hw, Hs |- *.
  destruct (commit_unsynced addr Ha 0 ltac:(lia) w ws (ups <$> (w_id <$> w :: ws)) db gs Hh Ews) with (room := room) (sync_status := ss)
    as (m & db' & -> & Hm & Hbg & Hf & Hl); try done.
  - clear -Hw. induction Hw as [|? ? []]; by constructor.
  - clear -Hw. induction Hw as [|? ? []]; [constructor|]. cbn. by apply Forall_app.
  - run. eexists. split_and!; try done; try apply Hl. rewrite acked_pop, Hss, app_nil_r. unfold acked. by rewrite Hf.
Qed.

(** ** What a database promises *)

(** C37: a failed sync stops the database.  When syncing the log fails for a group led
    by a sync writer, whatever happens next, with any statuses, no writer of that group
    or after it returns OK, the error stays recorded, and reads keep returning exactly
    what the writers acknowledged before the failure wrote. *)
Theorem db_sync_failure_stops addr ups acts room ss later :
  0 <= addr -> Forall (action_ok ups) acts -> small (concat (queued ups <$> acts)) -> ok room = true -> ok ss = false ->
  exists db0 db, DB_new addr = Ret db0 /\ run_db addr BytewiseComparator acts db0 = Ret db /\
    forall w ws, writers_ db = w :: ws -> w_sync w = true -> w_batch w <> None ->
    exists db', run_db addr BytewiseComparator (Front room ss :: later) db = Ret db' /\ bg_error_ db' = ss /\ acked db' = acked db /\
      forall k, Z.of_nat (length k) + 13 < 2 ^ 32 ->
        GetFromMem BytewiseComparator db' None k = Ret (state_after (written ups (acked db)) !! k).
Proof.
  intros Ha Hok Hs Hroom Hss. destruct (run_new addr ups acts Ha Hok Hs) as (db0 & db & gs & E0 & E & Hinv & Hsm & _).
  exists db0, db. split_and!; [done|done|]. intros w ws Ew Hw Hb.
  destruct (front_unsynced addr ups room ss db gs w ws) as (db1 & E1 & Hm1 & Hb1 & Ha1 & Hl1); try done.
  destruct (run_stopped addr BytewiseComparator later db1) as (db' & E2 & Hm2 & Hl2 & Hb2 & Ha2); [by rewrite Hb1|].
  exists db'. split_and!; [|congruence|congruence|].
  { unfold run_db in *. cbn [foldM]. rewrite E1. run. done. }
  intros k Hk. rewrite <- (inv_acked _ _ _ Hinv). pose proof (inv_holds _ _ _ Hinv) as Hh.
  rewrite (holds_seq _ _ _ Hh) in Hl1. transitivity (GetFromMem BytewiseComparator db (Some (last_sequence_ db1)) k).
  - unfold GetFromMem. by rewrite Hm2, Hl2, Hm1.
  - rewrite (db_get_at db gs) by (try done; rewrite max_sequence; lia). by rewrite take_ge by lia.
Qed.

(** C38: every writer is served.  After any such execution, as many turns of front
    writers as there are queued writers, with any statuses for the room, empty the
    queue: every writer that ever joined has returned, in the order of joining. *)
Theorem db_writers_served addr ups acts :
  0 <= addr -> Forall (action_ok ups) acts -> small (concat (queued ups <$> acts)) ->
  exists db0 db, DB_new addr = Ret db0 /\ run_db addr BytewiseComparator acts db0 = Ret db /\
    forall rooms, (length (writers_ db) <= length rooms)%nat ->
    exists db', run_db addr BytewiseComparator ((fun room => Front room OK) <$> rooms) db = Ret db' /\
      writers_ db' = [] /\ (finished db').*1 = concat (joined <$> acts).
Proof.
  intros Ha Hok Hs. destruct (run_new addr ups acts Ha Hok Hs) as (db0 & db & gs & E0 & E & Hinv & Hsm & Har).
  exists db0, db. split_and!; [done|done|]. intros rooms Hl.
  destruct (serve_inv addr Ha ups rooms db gs Hinv Hsm Hl) as (db' & E' & Hw & Har'). exists db'. split_and!; [done|done|].
  rewrite Har in Har'. unfold arrivals in Har'. by rewrite Hw, app_nil_r in Har'.
Qed.

(** Two writers with one group, and a third that waits. *)
Definition demo_ups (i : nat) : list update :=
  match i with 0%nat => [UPut [x61] [x31]] | 1%nat => [UDelete [x61]; UPut [x62] [x32]] | _ => [] end.

Definition demo_acts : list action :=
  [Enqueue (MkReq 0 (Some (batch 0 (demo_ups 0))) false); Enqueue (MkReq 1 (Some (batch 0 (demo_ups 1))) false);
   Front OK OK; Enqueue (MkReq 2 (Some (batch 0 (demo_ups 2))) true)].

Lemma demo_ok : Forall (action_ok demo_ups) demo_acts /\ small (concat (queued demo_ups <$> demo_acts)).
Proof.
  split; [|unfold small; cbn; lia].
  repeat (apply Forall_cons; split); try apply Forall_nil; try reflexivity;
    (split; [left; eexists; reflexivity|repeat constructor; cbn; lia]).
Qed.

(** Two writers were acknowledged and the third waits. *)
Lemma demo_state : (db ← DB_new 64; db ← run_db 64 BytewiseComparator demo_acts db; Ret (acked db, writers_ db)) =
  Ret ([0%nat; 1%nat], [MkReq 2 (Some Clear) true]).
Proof. vm_compute. reflexivity. Qed.

Lemma demo_final db0 db : DB_new 64 = Ret db0 -> run_db 64 BytewiseComparator demo_acts db0 = Ret db ->
  acked db = [0%nat; 1%nat] /\ writers_ db = [MkReq 2 (Some Clear) true].
Proof. intros E0 E. pose proof demo_state as H. rewrite E0 in H. cbn [mbind outcome_bind] in H. rewrite E in H. cbn [mbind outcome_bind] in H. by injection H. Qed.

Lemma db_sync_failure_witness :
  exists db0 db db', DB_new 64 = Ret db0 /\ run_db 64 BytewiseComparator demo_acts db0 = Ret db /\
    run_db 64 BytewiseComparator [Front OK (Some [x00]); Front OK OK] db = Ret db' /\ acked db' = [0%nat; 1%nat].
Proof.
  destruct (db_sync_failure_stops 64 demo_ups demo_acts OK (Some [x00]) [Front OK OK] ltac:(lia) (proj1 demo_ok) (proj2 demo_ok)
    eq_refl eq_refl) as (db0 & db & E0 & E & H).
  destruct (demo_final db0 db E0 E) as [Ha Hw].
  destruct (H _ _ Hw eq_refl ltac:(discriminate)) as (db' & E1 & _ & E2 & _).
  exists db0, db, db'. split; [exact E0|]. split; [exact E|]. split; [exact E1|]. rewrite E2. exact Ha.
Defined.

Lemma db_writers_served_witness :
  exists db0 db db', DB_new 64 = Ret db0 /\ run_db 64 BytewiseComparator demo_acts db0 = Ret db /\
    run_db 64 BytewiseComparator [Front OK OK] db = Ret db' /\ (finished db').*1 = [0%nat; 1%nat; 2%nat].
Proof.
  destruct (db_writers_served 64 demo_ups demo_acts ltac:(lia) (proj1 demo_ok) (proj2 demo_ok)) as (db0 & db & E0 & E & H).
  destruct (demo_final db0 db E0 E) as [_ Hw].
  destruct (H [OK]) as (db' & E1 & _ & E2); [rewrite Hw; cbn; lia|].
  exists db0, db, db'. split; [exact E0|]. split; [exact E|]. split; [exact E1|exact E2].
Defined.
