(* ===== verification/Iterators.v ===== *)
(** * Iterators (util/leveldb/include/leveldb/iterator.h, table/iterator_wrapper.h)

    The abstract class of all iterators as an interface, the cursor in a sorted list that
    an iterator has to behave as, and the wrapper that the iterators over iterators use. *)

From S2P Require Import Prelude Order Status.
#[local] Open Scope Z_scope.

(** ** The interface *)

(** The calls that move an iterator. *)
Inductive iter_op := OpFirst | OpLast | OpSeek (target : bytes) | OpNext | OpPrev.

(** The methods that look at the entry an iterator is at. *)
Class IterView (I : Type) := {
  it_Valid : I -> bool;
  it_key : I -> outcome bytes;
  it_value : I -> outcome bytes;
  it_status : I -> outcome Status;
}.

(** The methods that move it; [W] is state that iterators share, such as a cache. *)
Class IterMoves (W I : Type) := it_move : iter_op -> I -> W -> outcome (I * W).

(** What a client sees of an iterator, and the calls it makes. *)
Definition observe {I} `{IterView I} (it : I) : outcome (option entry) :=
  if it_Valid it then k ← it_key it; v ← it_value it; Ret (Some (k, v)) else Ret None.

Fixpoint run_iter {W I} `{IterView I} `{IterMoves W I} (ops : list iter_op) (it : I) (s : W) : outcome (list (option entry)) :=
  match ops with
  | [] => Ret []
  | op :: ops' => '(it, s) ← it_move op it s; o ← observe it; os ← run_iter ops' it s; Ret (o :: os)
  end.

(** ** The specification *)

(** A cursor in the list of the entries, whose end is the length of the list; moving it
    from the end is an assertion failure. *)
Definition cursor_op (ord : bytes -> bytes -> Z) (es : list entry) (op : iter_op) (p : nat) : outcome nat :=
  match op with
  | OpFirst => Ret 0%nat
  | OpLast => Ret (pred (length es))
  | OpSeek target => Ret (rank ord target es)
  | OpNext => assert! (p <? length es)%nat; Ret (S p)
  | OpPrev => assert! (p <? length es)%nat; Ret match p with O => length es | S p' => p' end
  end.

Fixpoint run_cursor (ord : bytes -> bytes -> Z) (es : list entry) (ops : list iter_op) (p : nat) : outcome (list (option entry)) :=
  match ops with
  | [] => Ret []
  | op :: ops' => p ← cursor_op ord es op p; os ← run_cursor ord es ops' p; Ret (es !! p :: os)
  end.

(** Targets of seeks are keys in use. *)
Definition seeks_ok (ok : bytes -> Prop) (op : iter_op) : Prop := match op with OpSeek target => ok target | _ => True end.

(** An iterator over [es] at position [p] behaves as the cursor at [p].  [good] is what it
    relies on of the shared state, and keeps. *)
Class IteratorLaws {W I : Type} `{IterView I} `{IterMoves W I} (ok : bytes -> Prop) (ord : bytes -> bytes -> Z) (good : W -> Prop)
    (at_ : list entry -> nat -> I -> Prop) : Prop := {
  il_valid es p it : at_ es p it -> it_Valid it = (p <? length es)%nat;
  il_entry es p it e : at_ es p it -> es !! p = Some e -> it_key it = Ret e.1 /\ it_value it = Ret e.2;
  il_status es p it : at_ es p it -> it_status it = Ret OK;
  il_move es p it s op : at_ es p it -> good s -> seeks_ok ok op ->
    (exists p' it' s', cursor_op ord es op p = Ret p' /\ it_move op it s = Ret (it', s') /\ at_ es p' it' /\ good s') \/
    cursor_op ord es op p = Exit 134 /\ it_move op it s = Exit 134;
}.

Section Laws.
Context {W I : Type} `{IterView I} `{IterMoves W I} {ok : bytes -> Prop} {ord : bytes -> bytes -> Z} {good : W -> Prop} {at_ : list entry -> nat -> I -> Prop}.
Context `{!IteratorLaws ok ord good at_}.

Lemma observe_at es p it : at_ es p it -> observe it = Ret (es !! p).
Proof.
  intros Hit. unfold observe. rewrite (il_valid _ _ _ Hit). destruct (Nat.ltb_spec p (length es)) as [Hlt|Hge].
  - destruct (lookup_lt_is_Some_2 _ _ Hlt) as [e He]. destruct (il_entry _ _ _ _ Hit He) as [-> ->]. run. rewrite He. by destruct e.
  - by rewrite lookup_ge_None_2.
Qed.

(** An iterator with the laws refines the cursor. *)
Lemma run_iter_cursor es ops p it s : at_ es p it -> good s -> Forall (seeks_ok ok) ops -> run_iter ops it s = run_cursor ord es ops p.
Proof.
  intros Hit Hs Hops. revert p it s Hit Hs. induction Hops as [|op ops Hop Hops IH]; intros p it s Hit Hs; [done|]. cbn [run_iter run_cursor].
  destruct (il_move es p it s op Hit Hs Hop) as [(p' & it' & s' & -> & -> & Hit' & Hs')|[-> ->]]; run; [|done].
  rewrite (observe_at es p' it' Hit'). run. by rewrite (IH p' it' s').
Qed.
End Laws.

(** ** iterator_wrapper.h *)

(** A wrapper of an iterator, which may be null, with its validity and key at hand;
    [key_] means nothing while [valid_] is false. *)
Module Wrapper.
Section Ops.
Context {W I : Type} `{IterView I} `{IterMoves W I}.

Record Wrapper := MkWrapper { iter_ : option I; valid_ : bool; key_ : bytes }.

Definition Update (it : I) (w : Wrapper) : outcome Wrapper :=
  if it_Valid it then k ← it_key it; Ret (MkWrapper (Some it) true k) else Ret (MkWrapper (Some it) false (key_ w)).

Definition Set_ (it : option I) (w : Wrapper) : outcome Wrapper :=
  match it with None => Ret (MkWrapper None false (key_ w)) | Some it => Update it w end.

Definition new (it : option I) : outcome Wrapper := Set_ it (MkWrapper None false []).

Definition Valid (w : Wrapper) : bool := valid_ w.
Definition key (w : Wrapper) : outcome bytes := assert! valid_ w; Ret (key_ w).

(** A valid wrapper has an iterator. *)
Definition value (w : Wrapper) : outcome bytes :=
  assert! valid_ w; match iter_ w with Some it => it_value it | None => Undef end.

(** The calls that need an iterator. *)
Definition status (w : Wrapper) : outcome Status := match iter_ w with Some it => it_status it | None => Exit 134 end.
Definition move (op : iter_op) (w : Wrapper) (s : W) : outcome (Wrapper * W) :=
  match iter_ w with Some it => '(it, s) ← it_move op it s; w ← Update it w; Ret (w, s) | None => Exit 134 end.
Definition Next : Wrapper -> W -> outcome (Wrapper * W) := move OpNext.
Definition Prev : Wrapper -> W -> outcome (Wrapper * W) := move OpPrev.
Definition Seek (k : bytes) : Wrapper -> W -> outcome (Wrapper * W) := move (OpSeek k).
Definition SeekToFirst : Wrapper -> W -> outcome (Wrapper * W) := move OpFirst.
Definition SeekToLast : Wrapper -> W -> outcome (Wrapper * W) := move OpLast.
End Ops.
Arguments Wrapper : clear implicits.
End Wrapper.

Section Wrappers.
Context {W I : Type} `{IterView I} `{IterMoves W I} {ok : bytes -> Prop} {ord : bytes -> bytes -> Z} {good : W -> Prop} {at_ : list entry -> nat -> I -> Prop}.
Context `{!IteratorLaws ok ord good at_}.

(** The wrapped iterator is at position [p]. *)
Definition wrap_at (es : list entry) (p : nat) (w : Wrapper.Wrapper I) : Prop :=
  exists it, Wrapper.iter_ w = Some it /\ at_ es p it /\ Wrapper.valid_ w = (p <? length es)%nat /\ forall e, es !! p = Some e -> Wrapper.key_ w = e.1.

Lemma update_at es p it w : at_ es p it -> exists w', Wrapper.Update it w = Ret w' /\ wrap_at es p w'.
Proof.
  intros Hit. unfold Wrapper.Update. rewrite (il_valid _ _ _ Hit). destruct (Nat.ltb_spec p (length es)) as [Hlt|Hge].
  - destruct (lookup_lt_is_Some_2 _ _ Hlt) as [e He]. destruct (il_entry _ _ _ _ Hit He) as [-> _]. run. eexists. split; [reflexivity|]. exists it. cbn.
    split_and!; [done|done|symmetry; by apply Nat.ltb_lt|]. intros e' He'. by simplify_eq.
  - eexists. split; [reflexivity|]. exists it. cbn. split_and!; [done|done|symmetry; by apply Nat.ltb_ge|]. intros e He. apply lookup_lt_Some in He. lia.
Qed.

Lemma wrap_op es p p' w s op : wrap_at es p w -> good s -> seeks_ok ok op -> cursor_op ord es op p = Ret p' ->
  exists w' s', Wrapper.move op w s = Ret (w', s') /\ wrap_at es p' w' /\ good s'.
Proof.
  intros (it & Ei & Hit & _) Hs Hop Hc. unfold Wrapper.move. rewrite Ei.
  destruct (il_move es p it s op Hit Hs Hop) as [(p2 & it' & s' & E & -> & Hit' & Hs')|[E _]]; [|congruence].
  rewrite Hc in E. injection E as <-. run. destruct (update_at es p' it' w Hit') as (w' & -> & Hw'). run. by exists w', s'.
Qed.

Lemma wrap_valid es p w : wrap_at es p w -> Wrapper.valid_ w = (p <? length es)%nat.
Proof. by intros (it & _ & _ & Hv & _). Qed.

Lemma wrap_value es p w e : wrap_at es p w -> es !! p = Some e -> Wrapper.value w = Ret e.2 /\ Wrapper.key w = Ret e.1.
Proof.
  intros (it & Ei & Hit & Hv & Hk) He. pose proof (lookup_lt_Some _ _ _ He) as Hlt. unfold Wrapper.value, Wrapper.key. rewrite Hv, (proj2 (Nat.ltb_lt _ _)), Ei by done.
  destruct (il_entry _ _ _ _ Hit He) as [_ ->]. by rewrite (Hk e He).
Qed.

Lemma wrap_status es p w : wrap_at es p w -> Wrapper.status w = Ret OK.
Proof. intros (it & Ei & Hit & _). unfold Wrapper.status. rewrite Ei. by eapply il_status. Qed.
End Wrappers.
Arguments wrap_at {I} at_ es p w.

(** ** table/iterator.cc: the iterator without entries, which may carry an error *)

Record EmptyIterator := MkEmpty { empty_status : Status }.

Definition NewEmptyIterator : EmptyIterator := MkEmpty OK.
Definition NewErrorIterator (s : Status) : EmptyIterator := MkEmpty s.

#[export] Instance empty_view : IterView EmptyIterator :=
  {| it_Valid _ := false; it_key _ := Exit 134; it_value _ := Exit 134; it_status it := Ret (empty_status it) |}.

#[export] Instance empty_moves W : IterMoves W EmptyIterator := fun op it s => match op with OpNext | OpPrev => Exit 134 | _ => Ret (it, s) end.

#[export] Instance empty_laws W ok ord (good : W -> Prop) : IteratorLaws ok ord good (fun es _ it => es = [] /\ it = NewEmptyIterator).
Proof.
  split; try by intros es p it [-> ->].
  - by intros es p it e [-> ->] ?.
  - intros es p it s op [-> ->] Hs _. destruct op; [left; by eexists _, _, _..| | | |]; [left; by eexists _, _, _|left; by eexists _, _, _|by right|by right].
Qed.

(** ** An iterator over a list in memory, for examples *)

Record ListIterator := MkListIter { li_entries : list entry; li_pos : nat }.

#[export] Instance list_view : IterView ListIterator := {|
  it_Valid it := (li_pos it <? length (li_entries it))%nat;
  it_key it := match li_entries it !! li_pos it with Some e => Ret e.1 | None => Exit 134 end;
  it_value it := match li_entries it !! li_pos it with Some e => Ret e.2 | None => Exit 134 end;
  it_status _ := Ret OK;
|}.

Definition list_moves {W} (ord : bytes -> bytes -> Z) : IterMoves W ListIterator := fun op it s =>
  p ← cursor_op ord (li_entries it) op (li_pos it); Ret (MkListIter (li_entries it) p, s).

Lemma list_laws {W} ok ord (good : W -> Prop) : IteratorLaws (H0 := list_moves ord) ok ord good (fun es p it => it = MkListIter es p).
Proof.
  split.
  - by intros es p it ->.
  - intros es p it e -> He. cbn. by rewrite He.
  - by intros es p it ->.
  - intros es p it s op -> Hs _. unfold it_move, list_moves. cbn [li_entries li_pos]. destruct (cursor_op ord es op p) as [p'|c|] eqn:E; run.
    + left. by eexists p', _, s.
    + right. unfold cursor_op in E. destruct op; try done; destruct (p <? length es)%nat; try done; by injection E as <-.
    + unfold cursor_op in E. destruct op; try done; by destruct (p <? length es)%nat.
Qed.

(** ** Iterators of different classes *)

#[export] Instance sum_view {I J} `{IterView I} `{IterView J} : IterView (I + J) := {|
  it_Valid it := match it with inl i => it_Valid i | inr j => it_Valid j end;
  it_key it := match it with inl i => it_key i | inr j => it_key j end;
  it_value it := match it with inl i => it_value i | inr j => it_value j end;
  it_status it := match it with inl i => it_status i | inr j => it_status j end;
|}.

#[export] Instance sum_moves {W I J} `{IterMoves W I} `{IterMoves W J} : IterMoves W (I + J) := fun op it s =>
  match it with
  | inl i => '(i, s) ← it_move op i s; Ret (inl i, s)
  | inr j => '(j, s) ← it_move op j s; Ret (inr j, s)
  end.

Definition sum_at {I J} (at1 : list entry -> nat -> I -> Prop) (at2 : list entry -> nat -> J -> Prop) (es : list entry) (p : nat) (it : I + J) : Prop :=
  match it with inl i => at1 es p i | inr j => at2 es p j end.

#[export] Instance sum_laws {W I J} `{IterView I} `{IterMoves W I} `{IterView J} `{IterMoves W J} ok ord (good : W -> Prop) at1 at2
  `{!IteratorLaws (I := I) ok ord good at1} `{!IteratorLaws (I := J) ok ord good at2} : IteratorLaws (I := I + J) ok ord good (sum_at at1 at2).
Proof.
  split.
  - intros es p [i|j]; cbn; apply il_valid.
  - intros es p [i|j] e; cbn; apply il_entry.
  - intros es p [i|j]; cbn; apply il_status.
  - intros es p [i|j] s op Hit Hs Hop; unfold it_move, sum_moves.
    + destruct (il_move (at_ := at1) es p i s op Hit Hs Hop) as [(p' & it' & s' & E & -> & Hit' & Hs')|[E ->]]; [left|by right]. run. by eexists p', _, s'.
    + destruct (il_move (at_ := at2) es p j s op Hit Hs Hop) as [(p' & it' & s' & E & -> & Hit' & Hs')|[E ->]]; [left|by right]. run. by eexists p', _, s'.
Qed.

(** Laws for fewer keys. *)
Lemma laws_weaken {W I} `{IterView I} `{IterMoves W I} (ok ok' : bytes -> Prop) ord (good : W -> Prop) (at_ : list entry -> nat -> I -> Prop) :
  (forall k, ok' k -> ok k) -> IteratorLaws ok ord good at_ -> IteratorLaws ok' ord good at_.
Proof.
  intros Hk Hl. split; [apply il_valid|apply il_entry|apply il_status|]. intros es p it s op Hit Hs Hop. apply il_move; [done|done|]. destruct op; cbn in *; auto.
Qed.
