(* ===== verification/Block.v ===== *)
(** * Blocks (util/leveldb/table/block_builder.cc, block.cc)

    A table is made of blocks: sorted entries whose keys share prefixes with their
    predecessors, with restart points where a key is stored whole.  The builder
    writes one, the iterator reads it in both directions and seeks in it by binary
    search over the restart points.  The comparator is an argument. *)

From S2P Require Import Prelude Order Slice Coding FileNames Status Iterators.
From stdpp Require Import strings.
#[local] Open Scope Z_scope.

(** ** block_builder.cc *)

Module Builder.
Record BlockBuilder := MkBuilder {
  buffer_ : bytes;
  restarts_ : list Z;
  counter_ : Z;
  finished_ : bool;
  last_key_ : bytes;
}.

Section Ops.
Context (compare : bytes -> bytes -> outcome Z) (block_restart_interval : Z).

Definition Reset : BlockBuilder := MkBuilder [] [0] 0 false [].

(** The constructor. *)
Definition new : outcome BlockBuilder := assert! 1 <=? block_restart_interval; Ret Reset.

Definition CurrentSizeEstimate (b : BlockBuilder) : Z :=
  Z.of_nat (length (buffer_ b)) + Z.of_nat (length (restarts_ b)) * 4 + 4.

Definition Finish (b : BlockBuilder) : bytes * BlockBuilder :=
  let buffer := foldl PutFixed32 (buffer_ b) (restarts_ b) in
  let buffer := PutFixed32 buffer (u32 (Z.of_nat (length (restarts_ b)))) in
  (buffer, MkBuilder buffer (restarts_ b) (counter_ b) true (last_key_ b)).

(** The loop that finds [shared] is the one of [FindShortestSeparator]. *)
Definition Add (key value : bytes) (b : BlockBuilder) : outcome BlockBuilder :=
  assert! negb (finished_ b);
  assert! counter_ b <=? block_restart_interval;
  larger ← match buffer_ b with [] => Ret true | _ => r ← compare key (last_key_ b); Ret (0 <? r) end;
  assert! (larger : bool);
  let '(shared, restarts, counter) :=
    if counter_ b <? block_restart_interval
    then (diff_index_loop (Nat.min (length (last_key_ b)) (length key)) 0 (last_key_ b) key, restarts_ b, counter_ b)
    else (0%nat, restarts_ b ++ [u32 (Z.of_nat (length (buffer_ b)))], 0) in
  let non_shared := (length key - shared)%nat in
  let buffer := PutVarint32 (buffer_ b) (u32 (Z.of_nat shared)) in
  let buffer := PutVarint32 buffer (u32 (Z.of_nat non_shared)) in
  let buffer := PutVarint32 buffer (u32 (Z.of_nat (length value))) in
  let buffer := buffer ++ drop shared key ++ value in
  let last_key := take shared (last_key_ b) ++ drop shared key in
  assert! slice_eqb last_key key;
  Ret (MkBuilder buffer restarts (counter + 1) (finished_ b) last_key).
End Ops.
End Builder.

(** ** block.cc *)

(** [restart_offset_] is not initialised when the contents are bad. *)
Record Block := MkBlock { data_ : bytes; size_ : Z; restart_offset_ : option Z }.

Definition NumRestarts (b : Block) : outcome Z :=
  assert! 4 <=? size_ b; DecodeFixed32 true (drop (Z.to_nat (size_ b - 4)) (data_ b)).

Definition Block_new (contents : bytes) : outcome Block :=
  let size := Z.of_nat (length contents) in
  if size <? 4 then Ret (MkBlock contents 0 None)
  else
    let max_restarts_allowed := (size - 4) / 4 in
    n ← NumRestarts (MkBlock contents size None);
    if max_restarts_allowed <? n then Ret (MkBlock contents 0 None)
    else Ret (MkBlock contents size (Some (u32 (size - u32 (1 + n) * 4)))).

(** [DecodeEntry(p, limit, ...)], on the bytes between the pointers; the pointer it
    returns is the bytes left. *)
Definition DecodeEntry (p : bytes) : option (Z * Z * Z * bytes) :=
  match p with
  | b0 :: b1 :: b2 :: p' =>
      r ← (if Z.lor (Z.lor (ub b0) (ub b1)) (ub b2) <? 128 then Some (ub b0, ub b1, ub b2, p')
           else
             '(shared, p) ← GetVarint32Ptr p;
             '(non_shared, p) ← GetVarint32Ptr p;
             '(value_length, p) ← GetVarint32Ptr p;
             Some (shared, non_shared, value_length, p));
      let '(shared, non_shared, value_length, p) := r in
      if u32 (Z.of_nat (length p)) <? u32 (non_shared + value_length) then None
      else Some (shared, non_shared, value_length, p)
  | _ => None
  end.

Module Iter.
(** [value_] is a slice of [data_], by offset and length, or ([None]) empty and not
    in [data_]. *)
Record Iter := MkIter {
  data_ : bytes;
  restarts_ : Z;
  num_restarts_ : Z;
  current_ : Z;
  restart_index_ : Z;
  key_ : bytes;
  value_ : option (Z * Z);
  status_ : Status;
}.

Section Ops.
Context (compare : bytes -> bytes -> outcome Z).

Definition NextEntryOffset (it : Iter) : outcome Z :=
  match value_ it with Some (o, n) => Ret (u32 (o + n)) | None => Undef end.

Definition GetRestartPoint (it : Iter) (index : Z) : outcome Z :=
  assert! index <? num_restarts_ it; DecodeFixed32 true (drop (Z.to_nat (restarts_ it + index * 4)) (data_ it)).

Definition SeekToRestartPoint (it : Iter) (index : Z) : outcome Iter :=
  offset ← GetRestartPoint it index;
  Ret (MkIter (data_ it) (restarts_ it) (num_restarts_ it) (current_ it) index [] (Some (offset, 0)) (status_ it)).

(** The constructor. *)
Definition new (data : bytes) (restarts num_restarts : Z) : outcome Iter :=
  assert! 0 <? num_restarts; Ret (MkIter data restarts num_restarts restarts num_restarts [] None OK).

Definition Valid (it : Iter) : bool := current_ it <? restarts_ it.

Definition key (it : Iter) : outcome bytes := assert! Valid it; Ret (key_ it).

Definition value (it : Iter) : outcome bytes :=
  assert! Valid it;
  match value_ it with Some (o, n) => Ret (take (Z.to_nat n) (drop (Z.to_nat o) (data_ it))) | None => Ret [] end.

(** The iterator at the end. *)
Definition invalidate (it : Iter) : Iter :=
  MkIter (data_ it) (restarts_ it) (num_restarts_ it) (restarts_ it) (num_restarts_ it) (key_ it) (value_ it) (status_ it).

Definition CorruptionError (it : Iter) : outcome Iter :=
  s ← Corruption (str "bad entry in block") [];
  Ret (MkIter (data_ it) (restarts_ it) (num_restarts_ it) (restarts_ it) (num_restarts_ it) [] None s).

Definition set_index (it : Iter) (i : Z) : Iter :=
  MkIter (data_ it) (restarts_ it) (num_restarts_ it) (current_ it) i (key_ it) (value_ it) (status_ it).

(** [while (restart_index_ + 1 < num_restarts_ && ...) ++restart_index_;] *)
Fixpoint advance_index (fuel : nat) (it : Iter) : outcome Iter :=
  match fuel with
  | O => Undef
  | S fuel' =>
      let i := u32 (restart_index_ it + 1) in
      if i <? num_restarts_ it then
        r ← GetRestartPoint it i;
        if r <? current_ it then advance_index fuel' (set_index it i) else Ret it
      else Ret it
  end.

Definition ParseNextKey (it : Iter) : outcome (bool * Iter) :=
  current ← NextEntryOffset it;
  if restarts_ it <=? current then Ret (false, invalidate it)
  else
    let p := take (Z.to_nat (restarts_ it - current)) (drop (Z.to_nat current) (data_ it)) in
    match DecodeEntry p with
    | None => it ← CorruptionError it; Ret (false, it)
    | Some (shared, non_shared, value_length, p) =>
        if Z.of_nat (length (key_ it)) <? shared then it ← CorruptionError it; Ret (false, it)
        else
          let key := take (Z.to_nat shared) (key_ it) ++ take (Z.to_nat non_shared) p in
          let value := (restarts_ it - Z.of_nat (length p) + non_shared, value_length) in
          it ← advance_index (S (Z.to_nat (num_restarts_ it)))
                 (MkIter (data_ it) (restarts_ it) (num_restarts_ it) current (restart_index_ it) key (Some value) (status_ it));
          Ret (true, it)
    end.

Definition Next (it : Iter) : outcome Iter := assert! Valid it; '(_, it) ← ParseNextKey it; Ret it.

(** The scan of [Prev] over the restart points: [None] at the first entry. *)
Fixpoint prev_restart (fuel : nat) (original : Z) (it : Iter) : outcome (option Iter * Iter) :=
  match fuel with
  | O => Undef
  | S fuel' =>
      r ← GetRestartPoint it (restart_index_ it);
      if original <=? r then
        if restart_index_ it =? 0 then Ret (None, invalidate it)
        else prev_restart fuel' original (set_index it (restart_index_ it - 1))
      else Ret (Some it, it)
  end.

(** [do {} while (ParseNextKey() && NextEntryOffset() < bound)]; an entry takes at
    least a byte. *)
Fixpoint skip_until (fuel : nat) (bound : Z) (it : Iter) : outcome Iter :=
  match fuel with
  | O => Undef
  | S fuel' =>
      '(more, it) ← ParseNextKey it;
      if (more : bool) then
        o ← NextEntryOffset it;
        if o <? bound then skip_until fuel' bound it else Ret it
      else Ret it
  end.

Definition entry_fuel (it : Iter) : nat := S (length (data_ it)).

Definition Prev (it : Iter) : outcome Iter :=
  assert! Valid it;
  let original := current_ it in
  '(found, last) ← prev_restart (S (Z.to_nat (num_restarts_ it))) original it;
  match found with
  | None => Ret last
  | Some it => it ← SeekToRestartPoint it (restart_index_ it); skip_until (entry_fuel it) original it
  end.

(** The binary search of [Seek]: [None] when it met a bad entry. *)
Fixpoint search (fuel : nat) (target : bytes) (left right : Z) (it : Iter) : outcome (option Z) :=
  match fuel with
  | O => Undef
  | S fuel' =>
      if left <? right then
        let mid := u32 (left + right + 1) / 2 in
        region_offset ← GetRestartPoint it mid;
        match DecodeEntry (take (Z.to_nat (restarts_ it - region_offset)) (drop (Z.to_nat region_offset) (data_ it))) with
        | None => Ret None
        | Some (shared, non_shared, _, key_ptr) =>
            if negb (shared =? 0) then Ret None
            else
              r ← compare (take (Z.to_nat non_shared) key_ptr) target;
              if r <? 0 then search fuel' target mid right it else search fuel' target left (mid - 1) it
        end
      else Ret (Some left)
  end.

(** The linear search for the first key that is not below [target]. *)
Fixpoint scan (fuel : nat) (target : bytes) (it : Iter) : outcome Iter :=
  match fuel with
  | O => Undef
  | S fuel' =>
      '(more, it) ← ParseNextKey it;
      if (more : bool) then
        r ← compare (key_ it) target;
        if 0 <=? r then Ret it else scan fuel' target it
      else Ret it
  end.

Definition Seek (target : bytes) (it : Iter) : outcome Iter :=
  found ← search (S (Z.to_nat (num_restarts_ it))) target 0 (num_restarts_ it - 1) it;
  match found with
  | None => CorruptionError it
  | Some index => it ← SeekToRestartPoint it index; scan (entry_fuel it) target it
  end.

Definition SeekToFirst (it : Iter) : outcome Iter :=
  it ← SeekToRestartPoint it 0; '(_, it) ← ParseNextKey it; Ret it.

Definition SeekToLast (it : Iter) : outcome Iter :=
  it ← SeekToRestartPoint it (num_restarts_ it - 1); skip_until (entry_fuel it) (restarts_ it) it.
End Ops.
End Iter.

(** [NewIterator]: the iterator, or the status of an empty one. *)
Definition NewIterator (b : Block) : outcome (Status + Iter.Iter) :=
  if size_ b <? 4 then s ← Corruption (str "bad block contents") []; Ret (inl s)
  else
    n ← NumRestarts b;
    if n =? 0 then Ret (inl OK)
    else match restart_offset_ b with Some o => it ← Iter.new (data_ b) o n; Ret (inr it) | None => Undef end.

(** ** A client's use of a block *)

(** Add the entries in order. *)
Fixpoint add_all (compare : bytes -> bytes -> outcome Z) (interval : Z) (es : list (bytes * bytes)) (b : Builder.BlockBuilder) : outcome Builder.BlockBuilder :=
  match es with [] => Ret b | (k, v) :: es' => b ← Builder.Add compare interval k v b; add_all compare interval es' b end.

Definition build_block (compare : bytes -> bytes -> outcome Z) (interval : Z) (es : list (bytes * bytes)) : outcome bytes :=
  b ← Builder.new interval; b ← add_all compare interval es b; Ret (Builder.Finish b).1.

(** A client of the iterator and what it sees after each call. *)
Definition run_op (compare : bytes -> bytes -> outcome Z) (op : iter_op) (it : Iter.Iter) : outcome Iter.Iter :=
  match op with
  | OpFirst => Iter.SeekToFirst it
  | OpLast => Iter.SeekToLast it
  | OpSeek target => Iter.Seek compare target it
  | OpNext => Iter.Next it
  | OpPrev => Iter.Prev it
  end.

Definition observe_block (it : Iter.Iter) : outcome (option (bytes * bytes)) :=
  if Iter.Valid it then k ← Iter.key it; v ← Iter.value it; Ret (Some (k, v)) else Ret None.

Fixpoint run_ops (compare : bytes -> bytes -> outcome Z) (ops : list iter_op) (it : Iter.Iter) : outcome (list (option (bytes * bytes))) :=
  match ops with
  | [] => Ret []
  | op :: ops' => it ← run_op compare op it; o ← observe_block it; os ← run_ops compare ops' it; Ret (o :: os)
  end.

(** ** Layout *)

(** An entry: how much of its key it shares with the key before. *)
Record item := MkItem { i_shared : nat; i_key : bytes; i_val : bytes }.

Definition enc_item (x : item) : bytes :=
  EncodeVarint32 (Z.of_nat (i_shared x)) ++ EncodeVarint32 (Z.of_nat (length (i_key x) - i_shared x)) ++
  EncodeVarint32 (Z.of_nat (length (i_val x))) ++ drop (i_shared x) (i_key x) ++ i_val x.

Definition body (xs : list item) : bytes := concat (enc_item <$> xs).

Definition restart_array (rs : list Z) : bytes :=
  concat (EncodeFixed32 true <$> rs) ++ EncodeFixed32 true (Z.of_nat (length rs)).

(** The offset of entry [k]. *)
Definition entry_off (xs : list item) (k : nat) : Z := Z.of_nat (length (body (take k xs))).

Definition shares (prev : bytes) (x : item) : Prop :=
  (i_shared x <= length prev)%nat /\ (i_shared x <= length (i_key x))%nat /\
  take (i_shared x) prev = take (i_shared x) (i_key x).

Fixpoint chained (prev : bytes) (xs : list item) : Prop :=
  match xs with [] => True | x :: xs' => shares prev x /\ chained (i_key x) xs' end.

(** A restart point is the offset of an entry whose key is stored whole. *)
Definition restart_ok (xs : list item) (r : Z) : Prop :=
  exists k, (k = 0 \/ k < length xs)%nat /\ r = entry_off xs k /\ forall x, xs !! k = Some x -> i_shared x = 0%nat.

Record block_rep (xs : list item) (rs : list Z) : Prop := {
  rep_chained : chained [] xs;
  rep_first : head rs = Some 0;
  rep_restarts : Forall (restart_ok xs) rs;
  rep_empty : xs = [] -> rs = [0];
  rep_small : Z.of_nat (length (body xs ++ restart_array rs)) < 2 ^ 32;
}.

Lemma varint_first v : 0 <= v < 2 ^ 32 -> exists b t, EncodeVarint32 v = b :: t /\ (ub b <? 128) = (v <? 128) /\
  (v < 128 -> t = [] /\ ub b = v).
Proof.
  intros Hv. unfold EncodeVarint32. change (2 ^ 7) with 128.
  destruct (Z.ltb_spec v 128).
  - exists (to_byte v), []. rewrite ub_to_byte_small by lia. split_and!; [done|by apply Z.ltb_lt|done].
  - assert (ub (to_byte (Z.lor v 128)) <? 128 = false) as Hb by (rewrite ub_more by lia; apply Z.ltb_ge; pose proof (Z.mod_pos_bound v 128); lia).
    repeat case_match; eexists _, _; (split_and!; [reflexivity|done|lia]).
Qed.

Lemma lor_small a b : 0 <= a -> 0 <= b -> (Z.lor a b <? 128) = (a <? 128) && (b <? 128).
Proof.
  intros Ha Hb. assert (Z.lor a b < 2 ^ 7 <-> a < 2 ^ 7 /\ b < 2 ^ 7) as H.
  { destruct (decide (a = 0)) as [->|]; [rewrite Z.lor_0_l; lia|].
    destruct (decide (b = 0)) as [->|]; [rewrite Z.lor_0_r; lia|].
    assert (0 < Z.lor a b) by (assert (0 <= Z.lor a b) by (apply Z.lor_nonneg; lia); destruct (Z.eq_dec (Z.lor a b) 0) as [E|]; [apply Z.lor_eq_0_iff in E|]; lia).
    rewrite !Z.log2_lt_pow2, Z.log2_lor by lia. lia. }
  change (2 ^ 7) with 128 in H. destruct (Z.ltb_spec (Z.lor a b) 128), (Z.ltb_spec a 128), (Z.ltb_spec b 128); try done; lia.
Qed.

Lemma two_more {A} (l : list A) : (2 <= length l)%nat -> exists a b l', l = a :: b :: l'.
Proof. destruct l as [|a [|b l]]; cbn; intros; try lia. eauto. Qed.

(** The header of an entry, with or without the fast path. *)
Lemma decode_header s n v q : 0 <= s < 2 ^ 32 -> 0 <= n < 2 ^ 32 -> 0 <= v < 2 ^ 32 ->
  Z.of_nat (length q) < 2 ^ 32 -> n + v <= Z.of_nat (length q) ->
  DecodeEntry (EncodeVarint32 s ++ EncodeVarint32 n ++ EncodeVarint32 v ++ q) = Some (s, n, v, q).
Proof.
  intros Hs Hn Hv Hq Hl.
  assert (u32 (Z.of_nat (length q)) <? u32 (n + v) = false) as Hlen by (rewrite !u32_small by lia; apply Z.ltb_ge; lia).
  pose proof (get_varint32 s (EncodeVarint32 n ++ EncodeVarint32 v ++ q) Hs) as Gs.
  pose proof (get_varint32 n (EncodeVarint32 v ++ q) Hn) as Gn. pose proof (get_varint32 v q Hv) as Gv.
  unfold GetVarint32 in Gs, Gn, Gv.
  destruct (varint_first s Hs) as (b0 & t0 & E0 & H0 & S0), (varint_first n Hn) as (b1 & t1 & E1 & H1 & S1),
    (varint_first v Hv) as (b2 & t2 & E2 & H2 & S2).
  set (p := EncodeVarint32 s ++ EncodeVarint32 n ++ EncodeVarint32 v ++ q) in *.
  assert (exists c1 c2 p', p = b0 :: c1 :: c2 :: p' /\ (Z.lor (Z.lor (ub b0) (ub c1)) (ub c2) <? 128) = (s <? 128) && (n <? 128) && (v <? 128) /\
    (s < 128 -> n < 128 -> v < 128 -> ub c1 = n /\ ub c2 = v /\ p' = q)) as (c1 & c2 & p' & Ep & Hlor & Hsmall).
  { subst p. rewrite E0. rewrite E1, E2. cbn [app]. destruct (Z.ltb_spec s 128) as [Hs1|Hs1].
    - destruct (S0 Hs1) as [-> _]. cbn [app]. destruct (Z.ltb_spec n 128) as [Hn1|Hn1].
      + destruct (S1 Hn1) as [-> U1]. cbn [app]. exists b1, b2, (t2 ++ q). split_and!; [done| |].
        * rewrite !lor_small by (try apply Z.lor_nonneg; pose proof (ub_range b0); pose proof (ub_range b1); pose proof (ub_range b2); lia).
          by rewrite H0, H1, H2.
        * intros _ _ Hv1. by destruct (S2 Hv1) as [-> U2].
      + destruct (t1 ++ b2 :: t2 ++ q) as [|c2 p'] eqn:Et; [by destruct t1|]. exists b1, c2, p'. split_and!; [done| |lia].
        rewrite !lor_small by (try apply Z.lor_nonneg; pose proof (ub_range b0); pose proof (ub_range b1); pose proof (ub_range c2); lia).
        rewrite H0, H1. done.
    - destruct (two_more (t0 ++ b1 :: t1 ++ b2 :: t2 ++ q)) as (c1 & c2 & p' & Et); [repeat (rewrite length_app; cbn [length]); lia|].
      rewrite Et. exists c1, c2, p'. split_and!; [done| |lia].
      rewrite !lor_small by (try apply Z.lor_nonneg; pose proof (ub_range b0); pose proof (ub_range c1); pose proof (ub_range c2); lia).
      by rewrite H0. }
  unfold DecodeEntry. rewrite Ep. rewrite Hlor. destruct (Z.ltb_spec s 128), (Z.ltb_spec n 128), (Z.ltb_spec v 128); cbn [andb].
  1: { destruct Hsmall as (-> & -> & ->); [lia..|]. destruct S0 as [_ ->]; [lia|]. cbn [mbind option_bind]. by rewrite Hlen. }
  all: rewrite <- Ep, Gs; cbn [mbind option_bind]; rewrite Gn; cbn [mbind option_bind]; rewrite Gv; cbn [mbind option_bind]; by rewrite Hlen.
Qed.

(** ** The iterator reads the layout *)

Lemma body_app xs ys : body (xs ++ ys) = body xs ++ body ys.
Proof. unfold body. by rewrite fmap_app, concat_app. Qed.

Lemma body_split xs i x : xs !! i = Some x -> body xs = body (take i xs) ++ enc_item x ++ body (drop (S i) xs).
Proof. intros Hx. transitivity (body (take i xs ++ x :: drop (S i) xs)); [by rewrite take_drop_middle|by rewrite body_app]. Qed.

Lemma entry_off_S xs i x : xs !! i = Some x -> entry_off xs (S i) = entry_off xs i + Z.of_nat (length (enc_item x)).
Proof.
  intros Hx. unfold entry_off. rewrite (take_S_r _ _ _ Hx), body_app. unfold body at 2. cbn [fmap list_fmap concat].
  rewrite app_nil_r, length_app. lia.
Qed.

Lemma entry_off_all xs k : (length xs <= k)%nat -> entry_off xs k = Z.of_nat (length (body xs)).
Proof. intros Hk. unfold entry_off. by rewrite take_ge. Qed.

Lemma entry_off_le xs k : 0 <= entry_off xs k <= Z.of_nat (length (body xs)).
Proof. unfold entry_off. pose proof (body_app (take k xs) (drop k xs)) as E. rewrite take_drop in E. rewrite E, length_app. lia. Qed.

Lemma enc_item_length x : (i_shared x <= length (i_key x))%nat ->
  (3 + (length (i_key x) - i_shared x) + length (i_val x) <= length (enc_item x) <= 15 + (length (i_key x) - i_shared x) + length (i_val x))%nat.
Proof.
  intros Hx. unfold enc_item. repeat rewrite length_app. rewrite length_drop.
  assert (forall v, (0 < length (EncodeVarint32 v) <= 5)%nat) as H
    by (intros v; unfold EncodeVarint32; repeat (case_match; [cbn; lia|]); cbn; lia).
  pose proof (H (Z.of_nat (i_shared x))). pose proof (H (Z.of_nat (length (i_key x) - i_shared x))).
  pose proof (H (Z.of_nat (length (i_val x)))). lia.
Qed.

Lemma chained_lookup prev xs i x : chained prev xs -> xs !! i = Some x -> exists p, shares p x.
Proof.
  revert prev i. induction xs as [|y xs IH]; intros prev i Hc Hx; [done|]. destruct Hc as [Hy Hc].
  destruct i as [|i]; [injection Hx as <-; by exists prev|by eapply IH].
Qed.

Lemma chained_next prev xs i x y : chained prev xs -> xs !! i = Some x -> xs !! S i = Some y -> shares (i_key x) y.
Proof.
  revert prev i. induction xs as [|z xs IH]; intros prev i Hc Hx Hy; [done|]. destruct Hc as [_ Hc].
  destruct i as [|i]; cbn in Hx, Hy; [|by eapply IH].
  injection Hx as <-. destruct xs as [|w xs]; [done|]. injection Hy as <-. apply Hc.
Qed.

Lemma chained_app prev xs x : chained prev xs ->
  shares (default prev (i_key <$> last xs)) x -> chained prev (xs ++ [x]).
Proof.
  revert prev. induction xs as [|y xs IH]; intros prev Hc Hx; [by split|]. destruct Hc as [Hy Hc]. split; [done|].
  apply IH; [done|]. rewrite last_cons in Hx. by destruct (last xs).
Qed.

(** A key is no longer than the entries up to its own. *)
Lemma chained_key_length prev xs i x : chained prev xs -> xs !! i = Some x -> (length (i_key x) <= length prev + length (body xs))%nat.
Proof.
  revert prev i. induction xs as [|y xs IH]; intros prev i Hc Hx; [done|]. destruct Hc as [(Hy1 & Hy2 & _) Hc].
  pose proof (enc_item_length y Hy2). change (body (y :: xs)) with (enc_item y ++ body xs). rewrite length_app.
  destruct i as [|i]; [injection Hx as <-; lia|]. pose proof (IH _ i Hc Hx). lia.
Qed.

Lemma body_count xs : chained [] xs -> (length xs <= length (body xs))%nat.
Proof.
  intros Hc. assert (Forall (fun x => exists p, shares p x) xs) as H.
  { apply Forall_lookup. intros i x. by apply chained_lookup with (1 := Hc). }
  clear Hc. induction H as [|x xs (p & _ & Hx & _) HF IH]; [done|]. unfold body in *. cbn [fmap list_fmap concat length].
  rewrite length_app. pose proof (enc_item_length x Hx). lia.
Qed.

Section Reading.
Context (xs : list item) (rs : list Z) (Hrep : block_rep xs rs).
Import Iter.

Abbreviation limit := (Z.of_nat (length (body xs))).
Abbreviation count := (Z.of_nat (length rs)).

(** An iterator over this block, with a restart index in range. *)
Record on_block (it : Iter) : Prop := {
  on_data : data_ it = body xs ++ restart_array rs;
  on_restarts : restarts_ it = limit;
  on_num : num_restarts_ it = count;
  on_status : status_ it = OK;
}.

Lemma limit_small : limit + 4 * count + 4 < 2 ^ 32.
Proof.
  pose proof (rep_small _ _ Hrep) as H. unfold restart_array in H. repeat rewrite length_app in H.
  rewrite fixed_array_length in H. change (length (EncodeFixed32 true (Z.of_nat (length rs)))) with 4%nat in H. lia.
Qed.

Lemma restart_range i r : rs !! i = Some r -> 0 <= r < 2 ^ 32 /\ Z.of_nat i < count.
Proof.
  intros Hi. pose proof (lookup_lt_Some _ _ _ Hi). pose proof limit_small.
  destruct (proj1 (Forall_lookup _ _) (rep_restarts _ _ Hrep) i r Hi) as (k & _ & -> & _).
  pose proof (entry_off_le xs k). lia.
Qed.

Lemma get_restart it i r : on_block it -> rs !! i = Some r -> GetRestartPoint it (Z.of_nat i) = Ret r.
Proof.
  intros [Hd Hr Hn _] Hi. destruct (restart_range i r Hi) as [Hr32 Hic]. unfold GetRestartPoint. rewrite Hn, Hr, Hd.
  rewrite (proj2 (Z.ltb_lt _ _)) by lia. replace (Z.to_nat (limit + Z.of_nat i * 4)) with (length (body xs) + 4 * i)%nat by lia.
  rewrite drop_app_add. unfold restart_array. rewrite (fixed_array_drop rs i r) by done. by apply decode_fixed32.
Qed.

Lemma advance_ok it fuel i : on_block it -> restart_index_ it = Z.of_nat i -> (i < length rs)%nat -> (length rs - i <= fuel)%nat ->
  exists j, advance_index fuel it = Ret (set_index it (Z.of_nat j)) /\ (j < length rs)%nat.
Proof.
  revert it i. induction fuel as [|fuel IH]; intros it i Hon Hi Hlt Hf; [lia|]. cbn [advance_index]. rewrite Hi.
  pose proof limit_small. rewrite u32_small by lia. rewrite (on_num it Hon).
  assert (it = set_index it (Z.of_nat i)) as Hsame by (destruct it; cbn in *; by subst).
  destruct (Z.ltb_spec (Z.of_nat i + 1) count).
  2:{ exists i. rewrite <- Hsame. split; [done|lia]. }
  destruct (lookup_lt_is_Some_2 rs (S i)) as [r Hr]; [lia|]. replace (Z.of_nat i + 1) with (Z.of_nat (S i)) by lia.
  rewrite (get_restart it (S i) r) by done. run. destruct (r <? current_ it).
  2:{ exists i. rewrite <- Hsame. split; [done|lia]. }
  destruct (IH (set_index it (Z.of_nat (S i))) (S i)) as (j & E & Hj); [by destruct Hon|done|lia|lia|].
  exists j. split; [exact E|done].
Qed.

(** The iterator is at entry [i]. *)
Record at_item (i : nat) (x : item) (it : Iter) : Prop := {
  at_on : on_block it;
  at_lookup : xs !! i = Some x;
  at_index : 0 <= restart_index_ it < count;
  at_current : current_ it = entry_off xs i;
  at_key : key_ it = i_key x;
  at_value : value_ it = Some (entry_off xs (S i) - Z.of_nat (length (i_val x)), Z.of_nat (length (i_val x)));
}.

(** The next entry that it parses is [k]. *)
Record ready (k : nat) (it : Iter) : Prop := {
  ready_on : on_block it;
  ready_index : 0 <= restart_index_ it < count;
  ready_next : NextEntryOffset it = Ret (entry_off xs k);
  ready_shares : forall x, xs !! k = Some x -> shares (key_ it) x;
}.

Lemma item_shares i x : xs !! i = Some x -> exists p, shares p x.
Proof. apply chained_lookup with (1 := rep_chained _ _ Hrep). Qed.

Lemma off_small k : 0 <= entry_off xs k < 2 ^ 32.
Proof. pose proof (entry_off_le xs k). pose proof limit_small. lia. Qed.

Lemma at_ready i x it : at_item i x it -> ready (S i) it.
Proof.
  intros [Hon Hx Hi Hc Hk Hv]. split; [done..| |].
  - unfold NextEntryOffset. rewrite Hv. f_equal. rewrite u32_small; [lia|]. pose proof (off_small (S i)). lia.
  - intros y Hy. rewrite Hk. eapply chained_next; [apply (rep_chained _ _ Hrep)|done|done].
Qed.

(** What is before the end of the entries, from entry [k] on. *)
Lemma region k x : xs !! k = Some x ->
  take (Z.to_nat (limit - entry_off xs k)) (drop (Z.to_nat (entry_off xs k)) (body xs ++ restart_array rs)) =
  enc_item x ++ body (drop (S k) xs).
Proof.
  intros Hx. unfold entry_off. rewrite Nat2Z.id. rewrite (body_split xs k x Hx) at 2. rewrite <- app_assoc, drop_app_length.
  apply take_app_length'. rewrite (body_split xs k x Hx) at 1. rewrite !length_app. lia.
Qed.

Lemma decode_item k x : xs !! k = Some x ->
  DecodeEntry (enc_item x ++ body (drop (S k) xs)) =
  Some (Z.of_nat (i_shared x), Z.of_nat (length (i_key x) - i_shared x), Z.of_nat (length (i_val x)),
        drop (i_shared x) (i_key x) ++ i_val x ++ body (drop (S k) xs)).
Proof.
  intros Hx. destruct (item_shares k x Hx) as (p & _ & Hs & _). pose proof (enc_item_length x Hs) as Hl. pose proof limit_small as Hlim.
  assert (length (enc_item x) + length (body (drop (S k) xs)) <= length (body xs))%nat as Hb
    by (rewrite (body_split xs k x Hx), !length_app; lia).
  pose proof (chained_key_length [] xs k x (rep_chained _ _ Hrep) Hx) as Hkey. cbn in Hkey.
  unfold enc_item. rewrite <- !app_assoc. apply decode_header; try lia; rewrite !length_app, length_drop; lia.
Qed.

Lemma parse_item k x it : ready k it -> xs !! k = Some x -> exists it', ParseNextKey it = Ret (true, it') /\ at_item k x it'.
Proof.
  intros [Hon Hi Hn Hsh] Hx. destruct (Hsh x Hx) as (Hs1 & Hs2 & Hs3). pose proof (enc_item_length x Hs2) as Hl.
  pose proof (entry_off_S xs k x Hx) as HS. pose proof (entry_off_le xs (S k)) as HSle. pose proof limit_small as Hlim.
  destruct Hon as [Hd Hr Hnum Hst]. unfold ParseNextKey. rewrite Hn. run. rewrite Hr.
  rewrite (proj2 (Z.leb_gt _ _)) by lia. rewrite Hd, (region k x Hx), (decode_item k x Hx).
  rewrite (proj2 (Z.ltb_ge _ _)) by lia. rewrite !Nat2Z.id.
  rewrite (take_app_length' (drop (i_shared x) (i_key x))) by (rewrite length_drop; lia). rewrite Hs3, take_drop.
  match goal with |- context [advance_index ?f ?i0] => set (fuel := f); set (it0 := i0) end.
  assert (on_block it0) as Hon0 by (by split).
  destruct (advance_ok it0 fuel (Z.to_nat (restart_index_ it))) as (j & -> & Hj); [done|cbn; lia|lia|subst fuel; rewrite Hnum; lia|].
  run. eexists. split; [reflexivity|]. split; cbn; try done; [lia|]. do 2 f_equal.
  rewrite HS. rewrite (body_split xs k x Hx). unfold entry_off, enc_item. repeat rewrite length_app. rewrite length_drop. lia.
Qed.

(** Past the end. *)
Definition at_end (it : Iter) : Prop := on_block it /\ current_ it = limit.

Lemma parse_end k it : ready k it -> (length xs <= k)%nat -> exists it', ParseNextKey it = Ret (false, it') /\ at_end it'.
Proof.
  intros [Hon Hi Hn Hsh] Hk. unfold ParseNextKey. rewrite Hn, (entry_off_all xs k Hk). run. rewrite (on_restarts it Hon), Z.leb_refl.
  eexists. split; [reflexivity|]. destruct Hon. by repeat split.
Qed.

Lemma at_valid i x it : at_item i x it -> Valid it = true /\ key it = Ret (i_key x) /\ value it = Ret (i_val x).
Proof.
  intros [Hon Hx Hi Hc Hk Hv]. destruct (item_shares i x Hx) as (p & _ & Hs & _). pose proof (enc_item_length x Hs) as Hl.
  pose proof (entry_off_S xs i x Hx) as HS. pose proof (entry_off_le xs (S i)) as HSle.
  assert (Valid it = true) as Hvalid by (unfold Valid; rewrite Hc, (on_restarts it Hon); apply Z.ltb_lt; lia).
  split; [done|]. unfold key, value. rewrite Hvalid, Hv, Hk. run. split; [done|]. f_equal. rewrite (on_data it Hon), Nat2Z.id.
  rewrite HS, (body_split xs i x Hx). unfold entry_off.
  set (hd := EncodeVarint32 (Z.of_nat (i_shared x)) ++ EncodeVarint32 (Z.of_nat (length (i_key x) - i_shared x)) ++
    EncodeVarint32 (Z.of_nat (length (i_val x))) ++ drop (i_shared x) (i_key x)).
  assert (enc_item x = hd ++ i_val x) as -> by (unfold enc_item, hd; by rewrite <- !app_assoc).
  rewrite <- !app_assoc, (app_assoc _ hd).
  rewrite drop_app_length' by (rewrite !length_app; lia). by rewrite take_app_length.
Qed.

Lemma off_step i x : xs !! i = Some x -> entry_off xs i < entry_off xs (S i).
Proof.
  intros Hx. destruct (item_shares i x Hx) as (p & _ & Hs & _). pose proof (enc_item_length x Hs).
  rewrite (entry_off_S xs i x Hx). lia.
Qed.

Lemma off_mono i j : (i <= j)%nat -> entry_off xs i <= entry_off xs j.
Proof.
  induction 1 as [|j Hj IH]; [lia|]. destruct (xs !! j) as [x|] eqn:Hx; [pose proof (off_step j x Hx); lia|].
  apply lookup_ge_None in Hx. rewrite (entry_off_all xs (S j)) by lia. by rewrite <- (entry_off_all xs j) by lia.
Qed.

Lemma off_lt i j x : xs !! i = Some x -> (i < j)%nat -> entry_off xs i < entry_off xs j.
Proof. intros Hx Hij. pose proof (off_step i x Hx). pose proof (off_mono (S i) j). lia. Qed.

(** The iterator is at entry [i], or at the end when there is none. *)
Definition at_pos (i : nat) (it : Iter) : Prop := match xs !! i with Some x => at_item i x it | None => at_end it end.

Lemma at_pos_on i it : at_pos i it -> on_block it.
Proof. unfold at_pos. case_match; [by intros []|by intros []]. Qed.

Lemma parse_next k it : ready k it -> exists more it', ParseNextKey it = Ret (more, it') /\ at_pos k it' /\ more = bool_decide (k < length xs)%nat.
Proof.
  intros Hr. unfold at_pos. destruct (xs !! k) as [x|] eqn:Hx.
  - destruct (parse_item k x it Hr Hx) as (it' & E & H). apply lookup_lt_Some in Hx. eexists _, _. split_and!; [exact E|done|by rewrite bool_decide_eq_true_2].
  - apply lookup_ge_None in Hx. destruct (parse_end k it Hr Hx) as (it' & E & H). eexists _, _. split_and!; [exact E|done|]. rewrite bool_decide_eq_false_2; [done|lia].
Qed.

Lemma seek_restart it j r : on_block it -> rs !! j = Some r ->
  exists k it', SeekToRestartPoint it (Z.of_nat j) = Ret it' /\ ready k it' /\ r = entry_off xs k /\
    (k = 0 \/ k < length xs)%nat.
Proof.
  intros Hon Hj. destruct (proj1 (Forall_lookup _ _) (rep_restarts _ _ Hrep) j r Hj) as (k & Hk & -> & Hs).
  destruct (restart_range j _ Hj) as [Hr Hjc]. unfold SeekToRestartPoint. rewrite (get_restart it j _ Hon Hj). run.
  eexists k, _. split_and!; [reflexivity| |done|done]. split; cbn; [by destruct Hon|lia|unfold NextEntryOffset; cbn; rewrite u32_small by lia; f_equal; lia|].
  intros x Hx. specialize (Hs x Hx). unfold shares. rewrite Hs. cbn. split_and!; [lia|lia|done].
Qed.

Lemma skip_to i x k it fuel : ready k it -> (k <= i)%nat -> xs !! i = Some x -> (i - k < fuel)%nat ->
  exists it', skip_until fuel (entry_off xs (S i)) it = Ret it' /\ at_item i x it'.
Proof.
  revert k it. induction fuel as [|fuel IH]; intros k it Hr Hk Hx Hf; [lia|]. cbn [skip_until].
  destruct (lookup_lt_is_Some_2 xs k) as [y Hy]; [apply lookup_lt_Some in Hx; lia|].
  destruct (parse_item k y it Hr Hy) as (it' & -> & Hat). run. pose proof (at_ready k y it' Hat) as Hr'. rewrite (ready_next _ _ Hr'). run.
  destruct (decide (k = i)) as [->|Hne].
  - rewrite Z.ltb_irrefl. exists it'. split; [done|]. by simplify_eq.
  - destruct (lookup_lt_is_Some_2 xs (S k)) as [z Hz]; [apply lookup_lt_Some in Hx; lia|].
    rewrite (proj2 (Z.ltb_lt _ _)) by (apply (off_lt _ _ z); [done|lia]). apply (IH (S k)); [done|lia|done|lia].
Qed.

Lemma entries_fuel it i : on_block it -> (i <= length xs)%nat -> (i < entry_fuel it)%nat.
Proof.
  intros Hon Hi. unfold entry_fuel. rewrite (on_data it Hon), length_app. pose proof (body_count xs (rep_chained _ _ Hrep)). lia.
Qed.

Lemma next_spec i x it : at_item i x it -> exists it', Next it = Ret it' /\ at_pos (S i) it'.
Proof.
  intros Hat. destruct (at_valid i x it Hat) as [Hv _]. unfold Next. rewrite Hv. run.
  destruct (parse_next (S i) it (at_ready _ _ _ Hat)) as (more & it' & -> & Hp & _). run. by eexists.
Qed.

Lemma first_restart : rs !! 0%nat = Some 0.
Proof. pose proof (rep_first _ _ Hrep). by destruct rs. Qed.

Lemma zero_off k : (k = 0 \/ k < length xs)%nat -> 0 = entry_off xs k -> k = 0%nat.
Proof.
  intros [|Hk] E; [done|]. destruct k as [|k]; [done|]. destruct (lookup_lt_is_Some_2 xs k) as [y Hy]; [lia|].
  pose proof (off_step k y Hy). pose proof (entry_off_le xs k). lia.
Qed.

Lemma seek_first_spec it : on_block it -> exists it', SeekToFirst it = Ret it' /\ at_pos 0 it'.
Proof.
  intros Hon. unfold SeekToFirst. change 0 with (Z.of_nat 0) at 1. destruct (seek_restart it 0 0 Hon first_restart) as (k & it' & -> & Hr & E0 & Hk). run.
  rewrite (zero_off k Hk E0) in Hr.
  destruct (parse_next 0 it' Hr) as (more & it'' & -> & Hp & _). run. by eexists.
Qed.

Lemma seek_last_spec it : on_block it -> exists it', SeekToLast it = Ret it' /\ at_pos (pred (length xs)) it'.
Proof.
  intros Hon. pose proof (lookup_lt_Some _ _ _ first_restart) as H0. unfold SeekToLast. rewrite (on_num it Hon).
  destruct (lookup_lt_is_Some_2 rs (pred (length rs))) as [r Hr]; [lia|].
  replace (count - 1) with (Z.of_nat (pred (length rs))) by lia.
  destruct (seek_restart it _ r Hon Hr) as (k & it' & -> & Hrd & -> & Hk). run. rewrite (on_restarts _ (ready_on _ _ Hrd)).
  destruct (decide (length xs = 0%nat)) as [E|E].
  - unfold entry_fuel. cbn [skip_until]. destruct (parse_end k it' Hrd) as (it'' & -> & He); [lia|]. run.
    exists it''. split; [done|]. unfold at_pos. by rewrite lookup_ge_None_2 by lia.
  - unfold at_pos. destruct (lookup_lt_is_Some_2 xs (pred (length xs))) as [x Hx]; [lia|]. rewrite Hx.
    rewrite <- (entry_off_all xs (S (pred (length xs)))) by lia. apply (skip_to _ x k); [done|lia|done|].
    pose proof (entries_fuel it' (length xs) (ready_on _ _ Hrd)). lia.
Qed.

Lemma prev_restart_spec it i x j fuel : on_block it -> xs !! i = Some x ->
  restart_index_ it = Z.of_nat j -> (j < length rs)%nat -> (j < fuel)%nat ->
  match i with
  | O => exists it', prev_restart fuel (entry_off xs i) it = Ret (None, it') /\ at_end it'
  | S _ => exists j' r it', rs !! j' = Some r /\ r < entry_off xs i /\ on_block it' /\ restart_index_ it' = Z.of_nat j' /\
      prev_restart fuel (entry_off xs i) it = Ret (Some it', it')
  end.
Proof.
  intros Hon Hx. revert it j Hon. induction fuel as [|fuel IH]; intros it j Hon Hi Hj Hf; [lia|]. cbn [prev_restart].
  destruct (lookup_lt_is_Some_2 rs j) as [r Hr]; [lia|]. rewrite Hi, (get_restart it j r Hon Hr). run.
  destruct (Z.leb_spec (entry_off xs i) r) as [Hle|Hlt].
  - destruct j as [|j].
    + cbn [Z.eqb Z.of_nat]. rewrite first_restart in Hr. injection Hr as <-. destruct i as [|i].
      * eexists. split; [reflexivity|]. destruct Hon. by repeat split.
      * exfalso. destruct (lookup_lt_is_Some_2 xs 0%nat) as [y Hy]; [apply lookup_lt_Some in Hx; lia|].
        pose proof (off_lt 0 (S i) y Hy). pose proof (entry_off_le xs 0). lia.
    + rewrite (proj2 (Z.eqb_neq _ _)) by lia. apply (IH (set_index it (Z.of_nat (S j) - 1)) j); [by destruct Hon|cbn; lia|lia|lia].
  - destruct i as [|i]; [|by exists j, r, it]. exfalso. destruct (restart_range j r Hr). change (entry_off xs 0) with 0 in Hlt. lia.
Qed.

(** The entry before [i], or the end. *)
Lemma block_prev_spec i x it : at_item i x it ->
  exists it', Prev it = Ret it' /\ match i with O => at_end it' | S i' => at_pos i' it' end.
Proof.
  intros Hat. destruct (at_valid i x it Hat) as [Hv _]. pose proof (at_index _ _ _ Hat) as Hi. pose proof (at_on _ _ _ Hat) as Hon.
  pose proof (at_lookup _ _ _ Hat) as Hx. unfold Prev. rewrite Hv, (at_current _ _ _ Hat), (on_num it Hon). run.
  pose proof (prev_restart_spec it i x (Z.to_nat (restart_index_ it)) (S (Z.to_nat count)) Hon Hx) as Hp.
  destruct i as [|i].
  - destruct Hp as (it' & -> & He); [lia..|]. run. by exists it'.
  - destruct Hp as (j & r & it' & Hr & Hlt & Hon' & Hj & ->); [lia..|]. run. rewrite Hj.
    destruct (seek_restart it' j r Hon' Hr) as (k & it'' & -> & Hrd & -> & Hk). run.
    assert (k <= i)%nat as Hki by (apply Nat.nlt_ge; intros ?; pose proof (off_mono (S i) k); lia).
    destruct (lookup_lt_is_Some_2 xs i) as [y Hy]; [apply lookup_lt_Some in Hx; lia|]. unfold at_pos. rewrite Hy.
    apply (skip_to i y k); [done|done|done|]. pose proof (entries_fuel it'' i (ready_on _ _ Hrd)). apply lookup_lt_Some in Hx. lia.
Qed.

Definition entry_of (x : item) : bytes * bytes := (i_key x, i_val x).

Lemma at_end_invalid it : at_end it -> Valid it = false.
Proof. intros [Hon Hc]. unfold Valid. rewrite Hc, (on_restarts it Hon). apply Z.ltb_irrefl. Qed.

Lemma observe_block_at i it : at_pos i it -> observe_block it = Ret ((entry_of <$> xs) !! i).
Proof.
  unfold at_pos, observe_block. rewrite list_lookup_fmap. destruct (xs !! i) as [x|] eqn:Hx; intros Hp.
  - by destruct (at_valid i x it Hp) as (-> & -> & ->).
  - by rewrite (at_end_invalid it Hp).
Qed.

Lemma at_pos_valid i it : at_pos i it -> Valid it = (i <? length xs)%nat.
Proof.
  unfold at_pos. destruct (xs !! i) as [x|] eqn:Hx; intros Hp.
  - destruct (at_valid i x it Hp) as (-> & _). symmetry. apply Nat.ltb_lt. by eapply lookup_lt_Some.
  - rewrite (at_end_invalid it Hp). symmetry. by apply Nat.ltb_ge, lookup_ge_None.
Qed.

Section Seeking.
Context (compare : bytes -> bytes -> outcome Z) (ok : bytes -> Prop) (ord : bytes -> bytes -> Z).
Hypothesis compare_ord : forall a b, ok a -> ok b -> compare a b = Ret (ord a b).
Hypothesis ord_trans : forall a b c, ok a -> ok b -> ok c -> ord a b < 0 -> ord b c < 0 -> ord a c < 0.
Context (Hok : Forall (fun x => ok (i_key x)) xs) (Hsorted : StronglySorted (fun x y => ord (i_key x) (i_key y) < 0) xs).
Context (target : bytes) (Htarget : ok target).

(** Entries before [k] are below the target. *)
Definition below_until (k : nat) : Prop := forall i x, (i < k)%nat -> xs !! i = Some x -> ord (i_key x) target < 0.

(** Entry [k] is the first that is not below the target. *)
Definition first_at_least (k : nat) : Prop :=
  (k <= length xs)%nat /\ below_until k /\ forall x, xs !! k = Some x -> 0 <= ord (i_key x) target.

Lemma scan_spec k it fuel : ready k it -> below_until k -> (k <= length xs)%nat -> (length xs - k < fuel)%nat ->
  exists i it', scan compare fuel target it = Ret it' /\ at_pos i it' /\ first_at_least i.
Proof.
  revert k it. induction fuel as [|fuel IH]; intros k it Hr Hb Hk Hf; [lia|]. cbn [scan]. destruct (xs !! k) as [x|] eqn:Hx.
  - destruct (parse_item k x it Hr Hx) as (it' & -> & Hat). run.
    rewrite (at_key _ _ _ Hat), compare_ord by (done || by eapply (proj1 (Forall_lookup _ _) Hok)). run.
    destruct (Z.leb_spec 0 (ord (i_key x) target)).
    + exists k, it'. unfold at_pos. rewrite Hx. split_and!; [done|done|]. split_and!; [done|done|]. intros y Hy. by simplify_eq.
    + apply (IH (S k)); [by eapply at_ready| |apply lookup_lt_Some in Hx; lia|apply lookup_lt_Some in Hx; lia].
      intros i y Hi Hy. destruct (decide (i = k)) as [->|]; [by simplify_eq|]. apply (Hb i); [lia|done].
  - pose proof Hx as Hlen. apply lookup_ge_None in Hlen. destruct (parse_end k it Hr Hlen) as (it' & -> & He). run.
    exists k, it'. unfold at_pos. rewrite Hx. split_and!; [done|done|]. split_and!; [done|done|]. intros y Hy. by simplify_eq.
Qed.

Lemma search_spec it left right fuel : on_block it -> (left <= right < length rs)%nat -> (right - left < fuel)%nat ->
  (left = 0%nat \/ exists k x, rs !! left = Some (entry_off xs k) /\ xs !! k = Some x /\ ord (i_key x) target < 0) ->
  exists j, search compare fuel target (Z.of_nat left) (Z.of_nat right) it = Ret (Some (Z.of_nat j)) /\ (j < length rs)%nat /\
    (j = 0%nat \/ exists k x, rs !! j = Some (entry_off xs k) /\ xs !! k = Some x /\ ord (i_key x) target < 0).
Proof.
  revert left right. induction fuel as [|fuel IH]; intros left right Hon Hlr Hf Hleft; [lia|]. cbn [search]. pose proof limit_small.
  destruct (Z.ltb_spec (Z.of_nat left) (Z.of_nat right)) as [Hlt|Hge].
  2:{ exists left. split_and!; [done|lia|done]. }
  set (mid := ((left + right + 1) / 2)%nat). assert (left < mid <= right)%nat as Hmid.
  { subst mid. pose proof (Nat.div_mod_eq (left + right + 1) 2). pose proof (Nat.mod_upper_bound (left + right + 1) 2). lia. }
  rewrite u32_small by lia. replace ((Z.of_nat left + Z.of_nat right + 1) / 2) with (Z.of_nat mid)
    by (subst mid; rewrite Nat2Z.inj_div; f_equal; lia).
  destruct (lookup_lt_is_Some_2 rs mid) as [r Hr]; [lia|]. rewrite (get_restart it mid r Hon Hr). run.
  destruct (proj1 (Forall_lookup _ _) (rep_restarts _ _ Hrep) mid r Hr) as (k & Hk & -> & Hs).
  destruct (lookup_lt_is_Some_2 xs k) as [x Hx].
  { destruct Hk as [->|]; [|done]. destruct (decide (xs = [])) as [E|E]; [|destruct xs; [done|cbn; lia]].
    pose proof (rep_empty _ _ Hrep E) as E'. rewrite E' in Hlr. cbn in Hlr. lia. }
  specialize (Hs x Hx). rewrite (on_restarts it Hon), (on_data it Hon), (region k x Hx), (decode_item k x Hx), Hs.
  change (negb (Z.of_nat 0 =? 0)) with false. rewrite Nat2Z.id, drop_0. rewrite Nat.sub_0_r, take_app_length.
  rewrite compare_ord by (done || by eapply (proj1 (Forall_lookup _ _) Hok)). cbn [mbind outcome_bind]. destruct (Z.ltb_spec (ord (i_key x) target) 0).
  - apply IH; [done|lia|lia|]. right. by exists k, x.
  - replace (Z.of_nat mid - 1) with (Z.of_nat (pred mid)) by lia. apply IH; [done|lia|lia|done].
Qed.

Lemma sorted_below k x : xs !! k = Some x -> ord (i_key x) target < 0 -> below_until k.
Proof.
  intros Hx Ho i y Hi Hy. apply (ord_trans _ (i_key x)); try done; try (by eapply (proj1 (Forall_lookup _ _) Hok)).
  assert (y ∈ take k xs) as Hyt by (apply list_elem_of_lookup; exists i; by rewrite lookup_take_lt).
  eapply (StronglySorted_app_1_elem_of (fun x y => ord (i_key x) (i_key y) < 0) (take k xs) (x :: drop (S k) xs));
    [by rewrite take_drop_middle|done|by left].
Qed.

Lemma seek_spec it : on_block it -> exists i it', Seek compare target it = Ret it' /\ at_pos i it' /\ first_at_least i.
Proof.
  intros Hon. pose proof (lookup_lt_Some _ _ _ first_restart) as H0. unfold Seek. rewrite (on_num it Hon).
  replace (count - 1) with (Z.of_nat (pred (length rs))) by lia. change 0 with (Z.of_nat 0).
  destruct (search_spec it 0 (pred (length rs)) (S (Z.to_nat count)) Hon) as (j & -> & Hj & Hb); [lia|lia|by left|]. run.
  destruct (lookup_lt_is_Some_2 rs j) as [r Hr]; [lia|]. destruct (seek_restart it j r Hon Hr) as (k & it' & -> & Hrd & Er & Hk). run.
  apply (scan_spec k); [done| |destruct Hk; lia|pose proof (entries_fuel it' (length xs) (ready_on _ _ Hrd)); lia].
  destruct Hb as [->|(k' & x & Hr' & Hx & Ho)].
  - assert (k = 0%nat) as ->; [|intros ? ? ?; lia]. rewrite first_restart in Hr. injection Hr as <-. by apply zero_off.
  - rewrite Hr in Hr'. injection Hr' as E. assert (k = k') as ->; [|by eapply sorted_below].
    subst r. apply Nat.le_antisymm; apply Nat.nlt_ge; intros Hlt.
    + pose proof (off_lt k' k x Hx Hlt). lia.
    + destruct (lookup_lt_is_Some_2 xs k) as [y Hy]; [apply lookup_lt_Some in Hx; lia|]. pose proof (off_lt k k' y Hy Hlt). lia.
Qed.

(** As many entries are below the target as stand before the first that is not. *)
Lemma first_at_least_count i : first_at_least i -> rank ord target (entry_of <$> xs) = i.
Proof.
  intros (Hi & Hb & Hge). rewrite <- (take_drop i xs), fmap_app, rank_app.
  assert (Forall (fun e => ord e.1 target < 0) (entry_of <$> take i xs)) as H1.
  { apply Forall_fmap, Forall_lookup. intros j x Hx. apply lookup_take_Some in Hx as [Hx Hj]. by apply (Hb j). }
  assert (Forall (fun e => ~ ord e.1 target < 0) (entry_of <$> drop i xs)) as H2.
  { apply Forall_fmap, Forall_lookup. intros j y Hy. rewrite lookup_drop in Hy. cbn. intros Hlt.
    assert (i + j < length xs)%nat by (by apply lookup_lt_Some in Hy).
    destruct (lookup_lt_is_Some_2 xs i) as [x Hx]; [lia|]. pose proof (Hge x Hx).
    destruct j as [|j]; [rewrite Nat.add_0_r in Hy; simplify_eq; lia|]. assert (ord (i_key x) target < 0) by (eapply (sorted_below _ y Hy Hlt i x); [lia|done]). lia. }
  rewrite rank_all, rank_none, length_fmap, length_take by done. lia.
Qed.
End Seeking.
End Reading.

(** ** The builder writes the layout *)

Section Building.
Context (compare : bytes -> bytes -> outcome Z) (ok : bytes -> Prop) (ord : bytes -> bytes -> Z).
Hypothesis compare_ord : forall a b, ok a -> ok b -> compare a b = Ret (ord a b).
Hypothesis ord_antisym : forall a b, ok a -> ok b -> Z.sgn (ord a b) = - Z.sgn (ord b a).
Hypothesis ord_trans : forall a b c, ok a -> ok b -> ok c -> ord a b < 0 -> ord b c < 0 -> ord a c < 0.
Context (interval : Z) (Hinterval : 1 <= interval).
Import Builder.

Record builder_rep (xs : list item) (b : BlockBuilder) : Prop := {
  b_buffer : buffer_ b = body xs;
  b_chained : chained [] xs;
  b_first : head (restarts_ b) = Some 0;
  b_restarts : Forall (restart_ok xs) (restarts_ b);
  b_empty : xs = [] -> restarts_ b = [0];
  b_counter : 0 <= counter_ b <= interval;
  b_open : finished_ b = false;
  b_last : last_key_ b = default [] (i_key <$> last xs);
  b_count : (length (restarts_ b) <= S (length xs))%nat;
}.

(** Room for the entries, their headers and the restart array. *)
Definition block_room (es : list (bytes * bytes)) : nat := foldr (fun e n => length e.1 + length e.2 + 19 + n)%nat 8%nat es.

Lemma builder_new_rep : exists b, new interval = Ret b /\ builder_rep [] b.
Proof.
  exists Reset. unfold new. rewrite (proj2 (Z.leb_le _ _)) by done. split; [done|]. split; try done; cbn; try lia.
  constructor; [|done]. exists 0%nat. split_and!; [by left|done|done].
Qed.

Lemma restart_ok_snoc xs x r : restart_ok xs r -> chained [] (xs ++ [x]) -> restart_ok (xs ++ [x]) r.
Proof.
  intros (k & Hk & -> & Hs) Hc. exists k. rewrite length_app. split_and!; [destruct Hk; cbn; lia| |].
  - unfold entry_off. rewrite take_app_le; [done|destruct Hk; lia].
  - intros y Hy. destruct (decide (k < length xs)%nat) as [Hlt|Hge]; [rewrite lookup_app_l in Hy by done; auto|].
    destruct Hk as [->|]; [|done]. destruct xs; [|cbn in Hge; lia]. cbn in Hy. injection Hy as <-. cbn in Hc.
    destruct Hc as ((Hl & _) & _). cbn in Hl. lia.
Qed.

Lemma restart_ok_new xs x : i_shared x = 0%nat -> restart_ok (xs ++ [x]) (Z.of_nat (length (body xs))).
Proof.
  intros Hx. exists (length xs). rewrite length_app. cbn. split_and!; [lia| |].
  - unfold entry_off. by rewrite take_app_length.
  - intros y Hy. rewrite list_lookup_middle in Hy by done. by simplify_eq.
Qed.

(** The branch of [Add] that chooses how much of the key to share. *)
Lemma add_choice xs b key : builder_rep xs b -> Z.of_nat (length (body xs)) < 2 ^ 32 ->
  exists shared restarts counter,
    (if counter_ b <? interval
     then (diff_index_loop (Nat.min (length (last_key_ b)) (length key)) 0 (last_key_ b) key, restarts_ b, counter_ b)
     else (0%nat, restarts_ b ++ [u32 (Z.of_nat (length (buffer_ b)))], 0)) = (shared, restarts, counter) /\
    0 <= counter < interval /\ (length restarts <= S (length (restarts_ b)))%nat /\
    forall value, shares (last_key_ b) (MkItem shared key value) /\
      (chained [] (xs ++ [MkItem shared key value]) ->
       head restarts = Some 0 /\ Forall (restart_ok (xs ++ [MkItem shared key value])) restarts).
Proof.
  intros [Hb Hc Hf Hr He Hcnt Ho Hl Hn] Hbody. destruct (Z.ltb_spec (counter_ b) interval).
  - eexists _, _, _. split; [reflexivity|]. split; [lia|]. split; [lia|]. intros value.
    destruct (diff_index_loop_spec (Nat.min (length (last_key_ b)) (length key)) 0 (last_key_ b) key eq_refl eq_refl) as (Hj & Ht & _).
    split; [unfold shares; cbn; split_and!; [lia|lia|done]|]. intros Hch. split; [done|].
    eapply Forall_impl; [exact Hr|]. intros r Hok. by apply restart_ok_snoc.
  - eexists _, _, _. split; [reflexivity|]. split; [lia|]. rewrite length_app. cbn [length]. split; [lia|]. intros value.
    split; [unfold shares; cbn; split_and!; [lia|lia|done]|]. intros Hch. split; [by destruct (restarts_ b)|].
    apply Forall_app. split; [eapply Forall_impl; [exact Hr|]; intros r Hok; by apply restart_ok_snoc|].
    constructor; [|done]. rewrite Hb, u32_small by lia. by apply restart_ok_new.
Qed.

Lemma add_larger xs b key : builder_rep xs b -> Forall (fun x => ok (i_key x)) xs -> ok key ->
  (forall x, last xs = Some x -> ord (i_key x) key < 0) ->
  match buffer_ b with [] => Ret true | _ => r ← compare key (last_key_ b); Ret (0 <? r) end = Ret true.
Proof.
  intros Hb Hoks Hkey Hlast. rewrite (b_last _ _ Hb), (b_buffer _ _ Hb). destruct (last xs) as [x|] eqn:Hx.
  2:{ apply last_None in Hx. by subst. }
  assert (ok (i_key x)) as Hokx by (eapply (proj1 (Forall_forall _ _) Hoks), last_Some_elem_of; done).
  destruct (body xs); [done|]. cbn [fmap option_fmap option_map default from_option id]. rewrite compare_ord by done. run.
  pose proof (ord_antisym (i_key x) key Hokx Hkey). specialize (Hlast x eq_refl). by rewrite (proj2 (Z.ltb_lt _ _)) by lia.
Qed.

Lemma add_builder xs b key value : builder_rep xs b -> Forall (fun x => ok (i_key x)) xs -> ok key ->
  (forall x, last xs = Some x -> ord (i_key x) key < 0) ->
  Z.of_nat (length (body xs)) < 2 ^ 32 -> Z.of_nat (length key) < 2 ^ 32 -> Z.of_nat (length value) < 2 ^ 32 ->
  exists x b', Add compare interval key value b = Ret b' /\ entry_of x = (key, value) /\ builder_rep (xs ++ [x]) b'.
Proof.
  intros Hb Hoks Hkey Hlast Hbody Hk32 Hv32. pose proof Hb as [Hbuf Hc Hf Hr He Hcnt Ho Hl Hn].
  unfold Add. rewrite Ho, (proj2 (Z.leb_le _ _)) by lia. run. rewrite (add_larger xs b key) by done. run.
  destruct (add_choice xs b key Hb Hbody) as (shared & restarts & counter & -> & Hcounter & Hlen & Hx).
  destruct (Hx value) as [(Hs1 & Hs2 & Hs3) Hx2]. clear Hx. cbn in Hs1, Hs2, Hs3. set (x := MkItem shared key value) in *.
  rewrite Hs3, take_drop, (proj2 (slice_eqb_eq key key) eq_refl). run.
  assert (chained [] (xs ++ [x])) as Hch by (apply chained_app; [done|rewrite <- Hl; by split_and!]). destruct (Hx2 Hch) as [Hh HF].
  exists x. eexists. split; [reflexivity|]. split; [done|]. split; cbn.
  - rewrite body_app, Hbuf. unfold PutVarint32. rewrite !u32_small by lia. change (body [x]) with (enc_item x ++ []).
    rewrite app_nil_r. unfold enc_item, x. cbn [i_shared i_key i_val]. by rewrite <- !app_assoc.
  - done.
  - done.
  - done.
  - by destruct xs.
  - lia.
  - done.
  - by rewrite last_snoc.
  - rewrite length_app. cbn. lia.
Qed.

Lemma block_room_app xs ys : (block_room (xs ++ ys) + 8 = block_room xs + block_room ys)%nat.
Proof. unfold block_room. induction xs as [|x xs IH]; cbn; lia. Qed.

(** The entries take less than the room for them. *)
Lemma body_room xs : chained [] xs -> (length (body xs) + 4 * S (length xs) + 4 <= block_room (entry_of <$> xs))%nat.
Proof.
  intros Hc. assert (Forall (fun x => exists p, shares p x) xs) as H.
  { apply Forall_lookup. intros i x. by apply chained_lookup with (1 := Hc). }
  clear Hc. induction H as [|x xs (p & _ & Hx & _) HF IH]; [cbn; lia|]. change (body (x :: xs)) with (enc_item x ++ body xs).
  pose proof (enc_item_length x Hx).
  change (block_room (entry_of <$> x :: xs)) with (length (i_key x) + length (i_val x) + 19 + block_room (entry_of <$> xs))%nat.
  rewrite length_app. cbn [length]. lia.
Qed.

Definition sorted_entries (es : list (bytes * bytes)) : Prop :=
  Forall ok es.*1 /\ StronglySorted (fun e f => ord e.1 f.1 < 0) es /\ Z.of_nat (block_room es) < 2 ^ 32.


Lemma fst_entry xs : (entry_of <$> xs).*1 = i_key <$> xs.
Proof. by rewrite <- list_fmap_compose. Qed.

Lemma add_all_builder es xs b : builder_rep xs b -> sorted_entries ((entry_of <$> xs) ++ es) ->
  exists ys b', add_all compare interval es b = Ret b' /\ entry_of <$> ys = (entry_of <$> xs) ++ es /\ builder_rep ys b'.
Proof.
  revert xs b. induction es as [|[k v] es IH]; intros xs b Hb Hse; cbn [add_all].
  { exists xs, b. by rewrite app_nil_r. }
  destruct Hse as (Hoks & Hs & Hroom). pose proof (body_room xs (b_chained _ _ Hb)) as Hbody.
  pose proof (block_room_app (entry_of <$> xs) ((k, v) :: es)) as Hra. cbn in Hra.
  rewrite fmap_app, fst_entry, Forall_app, Forall_fmap in Hoks. destruct Hoks as [Hoks Hoks2]. cbn in Hoks2. apply Forall_cons in Hoks2 as [Hk Hoks2].
  destruct (add_builder xs b k v) as (x & b' & -> & Hx & Hb'); [done|done|done| |lia|lia|lia|].
  { intros y Hy. apply last_Some in Hy as [l ->]. rewrite fmap_app, <- app_assoc in Hs. apply StronglySorted_app_1_r in Hs.
    apply StronglySorted_inv in Hs as [_ Hs]. cbn in Hs. by apply Forall_cons in Hs as [Hs _]. }
  run. destruct (IH (xs ++ [x]) b' Hb') as (ys & b'' & E & Hy & Hb'').
  - rewrite fmap_app, <- app_assoc. cbn [fmap list_fmap app]. rewrite Hx. split_and!; [|done|done].
    rewrite fmap_app, fst_entry, Forall_app, Forall_fmap. split; [done|]. by constructor.
  - exists ys, b''. split_and!; [done| |done]. rewrite Hy, fmap_app, <- app_assoc. cbn [fmap list_fmap app]. by rewrite Hx.
Qed.

Lemma finish_layout xs b : builder_rep xs b -> (Finish b).1 = body xs ++ restart_array (restarts_ b) \/ 2 ^ 32 <= Z.of_nat (length (restarts_ b)).
Proof.
  intros Hb. destruct (Z.ltb_spec (Z.of_nat (length (restarts_ b))) (2 ^ 32)) as [H|H]; [left|by right].
  unfold Finish, restart_array. cbn [fst]. rewrite u32_small by lia. rewrite (b_buffer _ _ Hb). unfold PutFixed32 at 1. rewrite app_assoc. f_equal.
  apply put_fixed32_all.
Qed.

Lemma finish_rep xs b : builder_rep xs b -> Z.of_nat (block_room (entry_of <$> xs)) < 2 ^ 32 ->
  exists rs, (Finish b).1 = body xs ++ restart_array rs /\ block_rep xs rs /\
    (length (body xs ++ restart_array rs) <= block_room (entry_of <$> xs))%nat.
Proof.
  intros Hb Hroom. pose proof (body_room xs (b_chained _ _ Hb)) as Hbody. pose proof (b_count _ _ Hb) as Hcnt. exists (restarts_ b).
  assert (length (body xs ++ restart_array (restarts_ b)) <= block_room (entry_of <$> xs))%nat as Hlen.
  { unfold restart_array. rewrite !length_app, fixed_array_length.
    change (length (EncodeFixed32 true (Z.of_nat (length (restarts_ b))))) with 4%nat. lia. }
  destruct (finish_layout xs b Hb) as [->|]; [|lia]. split_and!; [done| |done]. destruct Hb. split; try done. lia.
Qed.

Lemma build_block_rep es : sorted_entries es ->
  exists xs rs, build_block compare interval es = Ret (body xs ++ restart_array rs) /\ block_rep xs rs /\ entry_of <$> xs = es.
Proof.
  intros Hse. destruct builder_new_rep as (b0 & E0 & Hb0). destruct (add_all_builder es [] b0 Hb0 Hse) as (xs & b & E & Hes & Hb).
  cbn [app fmap list_fmap] in Hes. destruct (finish_rep xs b Hb) as (rs & Ef & Hrep & _); [rewrite Hes; apply Hse|].
  exists xs, rs. unfold build_block. rewrite E0. run. rewrite E. run. by rewrite Ef.
Qed.

Lemma sorted_items xs : sorted_entries (entry_of <$> xs) ->
  Forall (fun x => ok (i_key x)) xs /\ StronglySorted (fun x y => ord (i_key x) (i_key y) < 0) xs.
Proof.
  intros (Ho & Hs & _). rewrite fst_entry, Forall_fmap in Ho. split; [done|]. clear Ho.
  induction xs as [|x xs IH]; [constructor|]. apply StronglySorted_inv in Hs as [Hs Hx]. constructor; [by apply IH|].
  exact (proj1 (Forall_fmap entry_of _ xs) Hx).
Qed.

#[local] Abbreviation seeks_ok := (seeks_ok ok).

(** One call, from a cursor position that the iterator is at. *)
Lemma run_op_cursor xs rs it p op : block_rep xs rs -> sorted_entries (entry_of <$> xs) -> at_pos xs rs p it -> seeks_ok op ->
  (exists p' it', cursor_op ord (entry_of <$> xs) op p = Ret p' /\ run_op compare op it = Ret it' /\ at_pos xs rs p' it') \/
  cursor_op ord (entry_of <$> xs) op p = Exit 134 /\ run_op compare op it = Exit 134.
Proof.
  intros Hrep Hse Hp Hop. pose proof (at_pos_on _ _ _ _ Hp) as Hon. destruct (sorted_items xs Hse) as [Hoks Hs].
  pose proof (at_pos_valid _ _ Hrep _ _ Hp) as Hv. destruct op as [| |target| |]; cbn [cursor_op run_op seeks_ok] in *; rewrite ?length_fmap.
  - left. destruct (seek_first_spec xs rs Hrep it Hon) as (it' & E & H). by exists 0%nat, it'.
  - left. destruct (seek_last_spec xs rs Hrep it Hon) as (it' & E & H). by eexists _, it'.
  - left. destruct (seek_spec xs rs Hrep compare ok ord compare_ord ord_trans Hoks Hs target Hop it Hon) as (i & it' & E & H & Hi).
    rewrite (first_at_least_count xs ok ord ord_trans Hoks Hs target Hop i Hi). by exists i, it'.
  - destruct (Nat.ltb_spec p (length xs)) as [Hlt|]; [left|right; split; [done|unfold Iter.Next; by rewrite Hv]].
    destruct (lookup_lt_is_Some_2 xs p Hlt) as [x Hx]. unfold at_pos in Hp. rewrite Hx in Hp.
    destruct (next_spec xs rs Hrep p x it Hp) as (it' & E & H). by exists (S p), it'.
  - destruct (Nat.ltb_spec p (length xs)) as [Hlt|]; [left|right; split; [done|unfold Iter.Prev; by rewrite Hv]].
    destruct (lookup_lt_is_Some_2 xs p Hlt) as [x Hx]. unfold at_pos in Hp. rewrite Hx in Hp.
    destruct (block_prev_spec xs rs Hrep p x it Hp) as (it' & E & H). eexists _, it'. split_and!; [reflexivity|done|].
    destruct p; [|done]. unfold at_pos. by rewrite lookup_ge_None_2.
Qed.

Lemma run_ops_cursor xs rs ops it p : block_rep xs rs -> sorted_entries (entry_of <$> xs) -> at_pos xs rs p it -> Forall seeks_ok ops ->
  run_ops compare ops it = run_cursor ord (entry_of <$> xs) ops p.
Proof.
  intros Hrep Hse Hp Hops. revert it p Hp. induction Hops as [|op ops Hop Hops IH]; intros it p Hp; [done|]. cbn [run_ops run_cursor].
  destruct (run_op_cursor xs rs it p op Hrep Hse Hp Hop) as [(p' & it' & -> & -> & Hp')|[-> ->]]; run; [|done].
  rewrite (observe_block_at xs rs Hrep p' it' Hp'). run. by rewrite (IH it' p' Hp').
Qed.

Lemma open_block xs rs : block_rep xs rs ->
  exists bl it, Block_new (body xs ++ restart_array rs) = Ret bl /\ NewIterator bl = Ret (inr it) /\ at_pos xs rs (length xs) it.
Proof.
  intros Hrep. pose proof (limit_small xs rs Hrep) as Hlim. pose proof (lookup_lt_Some _ _ _ (first_restart xs rs Hrep)) as Hpos.
  set (contents := body xs ++ restart_array rs).
  assert (length contents = length (body xs) + 4 * length rs + 4)%nat as Hlen.
  { unfold contents, restart_array. rewrite !length_app, fixed_array_length. change (length (EncodeFixed32 true (Z.of_nat (length rs)))) with 4%nat. lia. }
  assert (forall o, NumRestarts (MkBlock contents (Z.of_nat (length contents)) o) = Ret (Z.of_nat (length rs))) as Hnum.
  { intros o. unfold NumRestarts. cbn [size_ data_]. rewrite (proj2 (Z.leb_le _ _)) by lia. rewrite Hlen.
    replace (Z.to_nat _) with (length (body xs) + 4 * length rs)%nat by lia. unfold contents, restart_array.
    rewrite drop_app_add, <- fixed_array_length, drop_app_length, <- (app_nil_r (EncodeFixed32 true _)). apply decode_fixed32. lia. }
  unfold Block_new. rewrite (proj2 (Z.ltb_ge _ _)) by lia. rewrite Hnum. run. rewrite (proj2 (Z.ltb_ge _ _)).
  2:{ apply Z.div_le_lower_bound; lia. }
  eexists _, _. split; [reflexivity|]. unfold NewIterator. cbn [size_ restart_offset_ Block.data_]. rewrite (proj2 (Z.ltb_ge _ _)) by lia.
  rewrite Hnum. run. rewrite (proj2 (Z.eqb_neq _ _)) by lia. unfold Iter.new. rewrite (proj2 (Z.ltb_lt _ _)) by lia. run. split; [reflexivity|].
  unfold at_pos. rewrite lookup_ge_None_2 by lia. rewrite (u32_small (1 + _)), u32_small by lia.
  split; [split|]; cbn; try done; lia.
Qed.

(** The iterator over a block with the entries [es] is at position [p]. *)
Definition iter_at (es : list (bytes * bytes)) (p : nat) (it : Iter.Iter) : Prop :=
  exists xs rs, block_rep xs rs /\ entry_of <$> xs = es /\ at_pos xs rs p it.

Lemma iter_observe es p it : iter_at es p it ->
  Iter.Valid it = (p <? length es)%nat /\ Iter.status_ it = OK /\
  forall e, es !! p = Some e -> Iter.key it = Ret e.1 /\ Iter.value it = Ret e.2.
Proof.
  intros (xs & rs & Hrep & <- & Hp). rewrite length_fmap. split_and!; [by apply (at_pos_valid xs rs)|by apply (at_pos_on _ _ _ _ Hp)|].
  intros e He. rewrite list_lookup_fmap in He. unfold at_pos in Hp. destruct (xs !! p) as [x|] eqn:Hx; [|done].
  destruct (at_valid xs rs Hrep p x it Hp) as (_ & Hk & Hv). by injection He as <-.
Qed.

Lemma iter_step es p it op : iter_at es p it -> sorted_entries es -> seeks_ok op ->
  (exists p' it', cursor_op ord es op p = Ret p' /\ run_op compare op it = Ret it' /\ iter_at es p' it') \/
  cursor_op ord es op p = Exit 134 /\ run_op compare op it = Exit 134.
Proof.
  intros (xs & rs & Hrep & <- & Hp) Hse Hop. destruct (run_op_cursor xs rs it p op Hrep Hse Hp Hop) as [(p' & it' & E & E' & Hp')|H]; [left|by right].
  exists p', it'. split_and!; [done|done|]. by exists xs, rs.
Qed.

Lemma iter_seek es p it target : iter_at es p it -> sorted_entries es -> ok target ->
  exists it', Iter.Seek compare target it = Ret it' /\ iter_at es (rank ord target es) it'.
Proof.
  intros Hit Hse Ht. destruct (iter_step es p it (OpSeek target) Hit Hse Ht) as [(p' & it' & E & E' & H)|[E _]]; [|done].
  cbn in E. injection E as <-. by exists it'.
Qed.

(** A block is a cursor over its entries.  Entries with strictly increasing keys, added
    to a builder with any restart interval, give contents that a block accepts, and
    any sequence of calls of SeekToFirst, SeekToLast, Seek, Next and Prev on its
    iterator shows what the same moves of a cursor in the list of entries show:
    prefix compression, restart points and the binary search over them are
    invisible.  Moving an iterator that is not valid fails the same assertion at the
    same call.  The comparator is any total order on the keys in use; the room that
    the entries take fits 32 bits. *)
Theorem block_refines_cursor es ops : sorted_entries es -> Forall seeks_ok ops ->
  exists contents bl it, build_block compare interval es = Ret contents /\ Block_new contents = Ret bl /\ NewIterator bl = Ret (inr it) /\
    run_ops compare ops it = run_cursor ord es ops (length es).
Proof.
  intros Hse Hops. destruct (build_block_rep es Hse) as (xs & rs & E & Hrep & <-).
  destruct (open_block xs rs Hrep) as (bl & it & E1 & E2 & Hp). exists (body xs ++ restart_array rs), bl, it. split_and!; [done..|].
  rewrite length_fmap. by apply (run_ops_cursor xs rs).
Qed.
End Building.

Definition sample_entries : list (bytes * bytes) :=
  [(str "app", str "1"); (str "apple", str "2"); (str "apply", str ""); (str "bat", str "4"); (str "batch", str "5")].

Definition sample_ops : list iter_op :=
  [OpFirst; OpNext; OpSeek (str "apply"); OpPrev; OpSeek (str "b"); OpNext; OpNext; OpLast; OpPrev; OpSeek (str "c")].

Lemma block_refines_cursor_witness :
  exists contents bl it, build_block (fun a b => Ret (slice_compare a b)) 2 sample_entries = Ret contents /\
    Block_new contents = Ret bl /\ NewIterator bl = Ret (inr it) /\
    run_ops (fun a b => Ret (slice_compare a b)) sample_ops it =
    Ret [Some (str "app", str "1"); Some (str "apple", str "2"); Some (str "apply", str ""); Some (str "apple", str "2");
         Some (str "bat", str "4"); Some (str "batch", str "5"); None; Some (str "batch", str "5"); Some (str "bat", str "4"); None].
Proof.
  apply (block_refines_cursor (fun a b => Ret (slice_compare a b)) (fun _ => True) slice_compare ltac:(done)
    ltac:(intros; apply slice_compare_antisym) ltac:(intros a b c _ _ _; apply slice_lt_trans) 2 ltac:(lia) sample_entries sample_ops).
  - split_and!; [by apply Forall_true|repeat constructor|done].
  - repeat constructor.
Defined.
