(* ===== verification/TableFormat.v ===== *)
(** * Table files (util/leveldb/table/format.h, format.cc, port/port_posix.h)

    Block handles, the footer of a table file and the blocks of the file with their
    trailer: a type and a checksum.  Files are the interface [RandomAccessFile];
    Snappy, which may be compiled in, is the record [snappy_lib]. *)

From S2P Require Import Prelude Slice Coding Crc32c FileNames Status Files.
From stdpp Require Import strings.
#[local] Open Scope Z_scope.

(** ** Snappy (port/port_posix.h) *)

Record snappy_lib := MkSnappy {
  RawCompress : bytes -> bytes;
  GetUncompressedLength : bytes -> option Z;
  RawUncompress : bytes -> option bytes;
}.

(** The library decompresses what it compressed. *)
Definition snappy_ok (s : snappy_lib) : Prop :=
  forall x, GetUncompressedLength s (RawCompress s x) = Some (Z.of_nat (length x)) /\ RawUncompress s (RawCompress s x) = Some x.

(** The library is there when SNAPPY is defined. *)
Definition Snappy_Compress (snappy : option snappy_lib) (input : bytes) : option bytes :=
  match snappy with Some s => Some (RawCompress s input) | None => None end.

Definition Snappy_GetUncompressedLength (snappy : option snappy_lib) (input : bytes) : option Z :=
  match snappy with Some s => GetUncompressedLength s input | None => None end.

Definition Snappy_Uncompress (snappy : option snappy_lib) (input : bytes) : option bytes :=
  match snappy with Some s => RawUncompress s input | None => None end.

(** ** Block handles *)

Definition kMaxEncodedLength : Z := 10 + 10.

Record BlockHandle := MkHandle { offset_ : Z; size_ : Z }.

(** [~static_cast<uint64_t>(0)] *)
Definition unset64 : Z := 2 ^ 64 - 1.

Definition BlockHandle_new : BlockHandle := MkHandle unset64 unset64.

Definition BlockHandle_EncodeTo (h : BlockHandle) (dst : bytes) : outcome bytes :=
  assert! negb (offset_ h =? unset64);
  assert! negb (size_ h =? unset64);
  Ret (PutVarint64 (PutVarint64 dst (offset_ h)) (size_ h)).

(** The handle and the input as they are left. *)
Definition BlockHandle_DecodeFrom (h : BlockHandle) (input : bytes) : outcome (Status * BlockHandle * bytes) :=
  match GetVarint64 input with
  | Some (offset, input) =>
      match GetVarint64 input with
      | Some (size, input) => Ret (OK, MkHandle offset size, input)
      | None => s ← Corruption (str "bad block handle") []; Ret (s, MkHandle offset (size_ h), input)
      end
  | None => s ← Corruption (str "bad block handle") []; Ret (s, h, input)
  end.

(** ** The footer *)

Definition kEncodedLength : Z := 2 * kMaxEncodedLength + 8.
Definition kTableMagicNumber : Z := 0xdb4775248b80fb57.

Record Footer := MkFooter { metaindex_handle_ : BlockHandle; index_handle_ : BlockHandle }.

Definition Footer_new : Footer := MkFooter BlockHandle_new BlockHandle_new.

Definition Footer_EncodeTo (f : Footer) (dst : bytes) : outcome bytes :=
  let original_size := Z.of_nat (length dst) in
  dst ← BlockHandle_EncodeTo (metaindex_handle_ f) dst;
  dst ← BlockHandle_EncodeTo (index_handle_ f) dst;
  let dst := str_resize (Z.to_nat (2 * kMaxEncodedLength)) dst in
  let dst := PutFixed32 dst (u32 (Z.land kTableMagicNumber 0xffffffff)) in
  let dst := PutFixed32 dst (u32 (Z.shiftr kTableMagicNumber 32)) in
  assert! Z.of_nat (length dst) =? original_size + kEncodedLength;
  Ret dst.

Definition Footer_DecodeFrom (f : Footer) (input : bytes) : outcome (Status * Footer * bytes) :=
  let magic_ptr := drop (Z.to_nat (kEncodedLength - 8)) input in
  magic_lo ← DecodeFixed32 true magic_ptr;
  magic_hi ← DecodeFixed32 true (drop 4 magic_ptr);
  let magic := Z.lor (u64 (Z.shiftl magic_hi 32)) magic_lo in
  if negb (magic =? kTableMagicNumber) then
    s ← Corruption (str "not an sstable (bad magic number)") []; Ret (s, f, input)
  else
    let end_ := drop (Z.to_nat kEncodedLength) input in
    '(result, m, input) ← BlockHandle_DecodeFrom (metaindex_handle_ f) input;
    if ok result then
      '(result, i, input) ← BlockHandle_DecodeFrom (index_handle_ f) input;
      Ret (result, MkFooter m i, if ok result then end_ else input)
    else Ret (result, MkFooter m (index_handle_ f), input).

(** ** Blocks *)

Definition kBlockTrailerSize : Z := 5.
Definition kNoCompression : Z := 0.
Definition kSnappyCompression : Z := 1.

Record BlockContents := MkContents { data : bytes; cachable : bool; heap_allocated : bool }.

Section ReadBlock.
Context {F : Type} `{RandomAccessFile F} (snappy : option snappy_lib) (addr : Z).

Definition no_contents : BlockContents := MkContents [] false false.

Definition read_failed (msg : bytes) : outcome (Status * BlockContents) := s ← Corruption msg []; Ret (s, no_contents).

(** Reading outside [contents] is undefined, and so is decompressing to another length
    than the one that was announced. *)
Definition ReadBlock (file : F) (verify_checksums : bool) (handle : BlockHandle) : outcome (Status * BlockContents) :=
  let n := size_ handle in
  let '(s, contents, scratch) := raf_Read (offset_ handle) (u64 (n + kBlockTrailerSize)) file in
  if negb (ok s) then Ret (s, no_contents)
  else if negb (Z.of_nat (length contents) =? u64 (n + kBlockTrailerSize)) then read_failed (str "truncated block read")
  else
    good ← (if verify_checksums then
              w ← DecodeFixed32 true (drop (Z.to_nat (n + 1)) contents);
              actual ← Value addr (take (Z.to_nat (n + 1)) contents);
              Ret (actual =? Unmask w)
            else Ret true);
    if negb (good : bool) then read_failed (str "block checksum mismatch")
    else
      match contents !! Z.to_nat n with
      | None => Undef
      | Some t =>
          if sb t =? kNoCompression then Ret (OK, MkContents (take (Z.to_nat n) contents) scratch scratch)
          else if sb t =? kSnappyCompression then
            match Snappy_GetUncompressedLength snappy (take (Z.to_nat n) contents) with
            | None => read_failed (str "corrupted compressed block contents")
            | Some ulength =>
                match Snappy_Uncompress snappy (take (Z.to_nat n) contents) with
                | None => read_failed (str "corrupted compressed block contents")
                | Some ubuf => if Z.of_nat (length ubuf) =? ulength then Ret (OK, MkContents ubuf true true) else Undef
                end
            end
          else read_failed (str "bad block type")
      end.
End ReadBlock.

(** ** Round trips *)

Definition handle_ok (h : BlockHandle) : Prop := 0 <= offset_ h < unset64 /\ 0 <= size_ h < unset64.

Definition enc_handle (h : BlockHandle) : bytes := EncodeVarint64 (offset_ h) ++ EncodeVarint64 (size_ h).

Lemma handle_encode h dst : handle_ok h -> BlockHandle_EncodeTo h dst = Ret (dst ++ enc_handle h).
Proof.
  intros [Ho Hs]. unfold BlockHandle_EncodeTo. rewrite !(proj2 (Z.eqb_neq _ _)) by lia. cbn [negb].
  unfold PutVarint64, enc_handle. by rewrite <- app_assoc.
Qed.

Lemma handle_decode h h0 rest : handle_ok h -> BlockHandle_DecodeFrom h0 (enc_handle h ++ rest) = Ret (OK, h, rest).
Proof.
  intros [Ho Hs]. unfold BlockHandle_DecodeFrom, enc_handle, unset64 in *. rewrite <- app_assoc.
  rewrite get_varint64 by lia. rewrite get_varint64 by lia. by destruct h.
Qed.

Lemma enc_handle_length h : (2 <= length (enc_handle h) <= 20)%nat.
Proof.
  unfold enc_handle, EncodeVarint64. rewrite length_app.
  pose proof (varint_length_le 9 (offset_ h)). pose proof (varint_length_le 9 (size_ h)). lia.
Qed.

Definition footer_ok (f : Footer) : Prop := handle_ok (metaindex_handle_ f) /\ handle_ok (index_handle_ f).

Definition enc_footer (f : Footer) : bytes :=
  str_resize 40 (enc_handle (metaindex_handle_ f) ++ enc_handle (index_handle_ f)) ++
  EncodeFixed32 true 0x8b80fb57 ++ EncodeFixed32 true 0xdb477524.

Lemma enc_footer_length f : length (enc_footer f) = 48%nat.
Proof. unfold enc_footer. rewrite !length_app, str_resize_length. reflexivity. Qed.

Lemma footer_encode f : footer_ok f -> Footer_EncodeTo f [] = Ret (enc_footer f).
Proof.
  intros [Hm Hi]. unfold Footer_EncodeTo. rewrite handle_encode by done. run. rewrite handle_encode by done. run.
  unfold PutFixed32. rewrite app_nil_l. rewrite <- !app_assoc. change (Z.to_nat (2 * kMaxEncodedLength)) with 40%nat.
  change (u32 (Z.land kTableMagicNumber 0xffffffff)) with 0x8b80fb57. change (u32 (Z.shiftr kTableMagicNumber 32)) with 0xdb477524.
  fold (enc_footer f). by rewrite enc_footer_length.
Qed.

(** [EncodeTo] resizes the whole of its destination, so that it only appends to an
    empty one. *)
Lemma footer_append_aborts f dst : footer_ok f -> dst <> [] -> Footer_EncodeTo f dst = Exit 134.
Proof.
  intros [Hm Hi] Hd. unfold Footer_EncodeTo. rewrite handle_encode by done. run. rewrite handle_encode by done. run.
  unfold PutFixed32. rewrite !length_app, str_resize_length. destruct dst; [done|]. cbn [length].
  change (length (EncodeFixed32 _ _)) with 4%nat. change (Z.to_nat (2 * kMaxEncodedLength)) with 40%nat. change kEncodedLength with 48.
  by rewrite (proj2 (Z.eqb_neq _ _)) by lia.
Qed.

Lemma footer_decode f f0 rest : footer_ok f -> Footer_DecodeFrom f0 (enc_footer f ++ rest) = Ret (OK, f, rest).
Proof.
  intros [Hm Hi]. unfold Footer_DecodeFrom. change (Z.to_nat (kEncodedLength - 8)) with 40%nat. change (Z.to_nat kEncodedLength) with 48%nat.
  rewrite (drop_app_length' (enc_footer f)) by (by rewrite enc_footer_length).
  unfold enc_footer. rewrite <- !app_assoc. rewrite drop_app_length' by (by rewrite str_resize_length).
  rewrite decode_fixed32 by lia. run. rewrite (drop_app_length' (EncodeFixed32 true 0x8b80fb57)) by done. rewrite decode_fixed32 by lia. run.
  change (negb _) with false. unfold str_resize. rewrite take_ge.
  2:{ rewrite length_app. pose proof (enc_handle_length (metaindex_handle_ f)). pose proof (enc_handle_length (index_handle_ f)). lia. }
  rewrite <- !app_assoc. rewrite handle_decode by done. run. rewrite handle_decode by done. run. by destruct f.
Qed.

(** A block in its file: the bytes, their type, their checksum. *)
Definition stored (t : Z) (c : bytes) : bytes :=
  c ++ [to_byte t] ++ EncodeFixed32 true (Mask (crc32c_ref 0 (c ++ [to_byte t]))).

Lemma stored_length t c : length (stored t c) = (length c + 5)%nat.
Proof. unfold stored. rewrite !length_app. reflexivity. Qed.

(** What a reader gets for stored bytes. *)
Definition unpacks (snappy : option snappy_lib) (t : Z) (c raw : bytes) : Prop :=
  t = kNoCompression /\ c = raw \/
  t = kSnappyCompression /\ Snappy_GetUncompressedLength snappy c = Some (Z.of_nat (length raw)) /\ Snappy_Uncompress snappy c = Some raw.

(** A block that a file holds is read back, whether its checksum is verified or not. *)
Lemma read_stored {F} `{RandomAccessFile F} snappy addr (f : F) pre t c raw post verify :
  0 <= addr -> reads_as f (pre ++ stored t c ++ post) -> Z.of_nat (length c) + 5 < 2 ^ 64 -> unpacks snappy t c raw ->
  exists b, ReadBlock snappy addr f verify (MkHandle (Z.of_nat (length pre)) (Z.of_nat (length c))) = Ret (OK, b) /\ data b = raw.
Proof.
  intros Ha Hf Hlen Hraw. destruct (Hf (length pre) (length c + 5)%nat) as [scratch Hread].
  { rewrite !length_app, stored_length. lia. }
  unfold ReadBlock. cbn [offset_ size_]. unfold kBlockTrailerSize. rewrite u64_small by lia.
  replace (Z.of_nat (length c) + 5) with (Z.of_nat (length c + 5)) by lia. rewrite Hread.
  rewrite drop_app_length, take_app_length' by (by rewrite stored_length). rewrite stored_length, Z.eqb_refl. cbn [negb ok].
  replace (Z.to_nat (Z.of_nat (length c) + 1)) with (length (c ++ [to_byte t])) by (rewrite length_app; cbn; lia).
  assert (stored t c = (c ++ [to_byte t]) ++ EncodeFixed32 true (Mask (crc32c_ref 0 (c ++ [to_byte t])))) as Hst
    by (unfold stored; by rewrite <- app_assoc).
  set (sum := crc32c_ref 0 (c ++ [to_byte t])) in *. destruct (unmask_mask sum) as [Hun Hmask]; [by apply crc_ref_range|].
  assert ((if verify
           then w ← DecodeFixed32 true (drop (length (c ++ [to_byte t])) (stored t c));
                actual ← Value addr (take (length (c ++ [to_byte t])) (stored t c)); Ret (actual =? Unmask w)
           else Ret true) = Ret true) as ->.
  { destruct verify; [|done]. rewrite Hst, drop_app_length, take_app_length, <- (app_nil_r (EncodeFixed32 true _)), decode_fixed32 by done. run.
    unfold Value. rewrite extend_ok by lia. run. fold sum. by rewrite Hun, Z.eqb_refl. }
  run. change (ok OK) with true. cbn [negb]. rewrite Nat2Z.id. unfold stored. cbn [app]. rewrite !take_app_length, (list_lookup_middle c _ (to_byte t) _ eq_refl).
  destruct Hraw as [[-> ->]|(-> & Hl & Hu)]; cbn [negb].
  - change (sb (to_byte kNoCompression) =? kNoCompression) with true. by eexists.
  - change (sb (to_byte kSnappyCompression) =? kNoCompression) with false. change (sb (to_byte kSnappyCompression) =? kSnappyCompression) with true.
    rewrite Hl, Hu, Z.eqb_refl. by eexists.
Qed.
