(* ===== verification/FilterBlock.v ===== *)
(** * Filter blocks (util/leveldb/table/filter_block.h, filter_block.cc)

    A table's filter block has a filter for each 2 KiB of file offsets: the keys of the
    blocks that start there.  The filter policy is an interface ([TableFilter],
    [FilterLaws]); the builtin policy on internal keys discharges it. *)

From S2P Require Import Prelude Slice Coding FilterPolicy DbFormat InternalOrder FileNames.
From stdpp Require Import strings.
#[local] Open Scope Z_scope.

(** ** Filter policies (include/leveldb/filter_policy.h) *)

Record TableFilter := MkFilter {
  fp_Name : bytes;
  fp_CreateFilter : list bytes -> bytes -> outcome bytes;
  fp_KeyMayMatch : bytes -> bytes -> outcome bool;
}.

(** What the header documents: a filter is appended to the destination, and a key that
    is the [same] as one it was made from matches it.  A filter takes at most [rate]
    bytes for each of at most [capacity] keys. *)
Class FilterLaws (p : TableFilter) (good : bytes -> Prop) (same : bytes -> bytes -> Prop) (capacity rate : nat) : Prop := {
  fl_create keys : Forall good keys -> (0 < length keys <= capacity)%nat ->
    exists f, (forall dst, fp_CreateFilter p keys dst = Ret (dst ++ f)) /\ (length f <= rate * length keys)%nat /\
      (forall k, good k -> exists b, fp_KeyMayMatch p k f = Ret b) /\
      (forall k key, good k -> key ∈ keys -> same k key -> fp_KeyMayMatch p k f = Ret true);
  fl_empty k : good k -> exists b, fp_KeyMayMatch p k [] = Ret b;
}.

(** ** The builder *)

Definition kFilterBaseLg : Z := 11.
Definition kFilterBase : Z := Z.shiftl 1 kFilterBaseLg.

Record FilterBlockBuilder := MkFilterBuilder {
  keys_ : bytes;
  start_ : list Z;
  result_ : bytes;
  filter_offsets_ : list Z;
}.

Section Builder.
Context (policy_ : TableFilter).

Definition FilterBlockBuilder_new : FilterBlockBuilder := MkFilterBuilder [] [] [] [].

(** [tmp_keys_[i] = Slice(keys_.data() + start_[i], start_[i+1] - start_[i])] for each [i]. *)
Fixpoint tmp_keys (keys : bytes) (start : list Z) : list bytes :=
  match start with
  | s :: (t :: _) as start' => take (Z.to_nat (t - s)) (drop (Z.to_nat s) keys) :: tmp_keys keys start'
  | _ => []
  end.

(** The number of keys is passed as an [int]. *)
Definition GenerateFilter (b : FilterBlockBuilder) : outcome FilterBlockBuilder :=
  let num_keys := length (start_ b) in
  let offsets := filter_offsets_ b ++ [u32 (Z.of_nat (length (result_ b)))] in
  if (num_keys =? 0)%nat then Ret (MkFilterBuilder (keys_ b) (start_ b) (result_ b) offsets)
  else if 2 ^ 31 <=? Z.of_nat num_keys then Undef
  else
    let start := start_ b ++ [Z.of_nat (length (keys_ b))] in
    result ← fp_CreateFilter policy_ (tmp_keys (keys_ b) start) (result_ b);
    Ret (MkFilterBuilder [] [] result offsets).

Fixpoint generate_filters (n : nat) (b : FilterBlockBuilder) : outcome FilterBlockBuilder :=
  match n with O => Ret b | S n' => b ← GenerateFilter b; generate_filters n' b end.

(** Each round of the loop adds one offset. *)
Definition StartBlock (block_offset : Z) (b : FilterBlockBuilder) : outcome FilterBlockBuilder :=
  let filter_index := block_offset / kFilterBase in
  let size := Z.of_nat (length (filter_offsets_ b)) in
  assert! size <=? filter_index;
  generate_filters (Z.to_nat (filter_index - size)) b.

Definition AddKey (key : bytes) (b : FilterBlockBuilder) : FilterBlockBuilder :=
  MkFilterBuilder (keys_ b ++ key) (start_ b ++ [Z.of_nat (length (keys_ b))]) (result_ b) (filter_offsets_ b).

Definition Finish (b : FilterBlockBuilder) : outcome bytes :=
  b ← match start_ b with [] => Ret b | _ => GenerateFilter b end;
  let array_offset := u32 (Z.of_nat (length (result_ b))) in
  let result := foldl PutFixed32 (result_ b) (filter_offsets_ b) in
  Ret (PutFixed32 result array_offset ++ [to_byte kFilterBaseLg]).
End Builder.

(** ** The reader *)

(** [data_] is null for contents that are bad; [offset_] is the offset of the array. *)
Record FilterBlockReader := MkFilterReader { data_ : option bytes; offset_ : Z; num_ : Z; base_lg_ : Z }.

Definition FilterBlockReader_new (contents : bytes) : outcome FilterBlockReader :=
  let n := Z.of_nat (length contents) in
  if n <? 5 then Ret (MkFilterReader None 0 0 0)
  else
    match contents !! Z.to_nat (n - 1) with
    | None => Undef
    | Some c =>
        let base_lg := u64 (sb c) in
        last_word ← DecodeFixed32 true (drop (Z.to_nat (n - 5)) contents);
        if n - 5 <? last_word then Ret (MkFilterReader None 0 0 base_lg)
        else Ret (MkFilterReader (Some contents) last_word ((n - 5 - last_word) / 4) base_lg)
    end.

(** A shift by the width of the word or more is undefined. *)
Definition FilterKeyMayMatch (policy_ : TableFilter) (r : FilterBlockReader) (block_offset : Z) (key : bytes) : outcome bool :=
  if 64 <=? base_lg_ r then Undef
  else
    let index := Z.shiftr block_offset (base_lg_ r) in
    if index <? num_ r then
      match data_ r with
      | None => Undef
      | Some data =>
          start ← DecodeFixed32 true (drop (Z.to_nat (offset_ r + index * 4)) data);
          limit ← DecodeFixed32 true (drop (Z.to_nat (offset_ r + index * 4 + 4)) data);
          if (start <=? limit) && (limit <=? offset_ r) then
            fp_KeyMayMatch policy_ key (take (Z.to_nat (limit - start)) (drop (Z.to_nat start) data))
          else if start =? limit then Ret false
          else Ret true
      end
    else Ret true.

(** ** Correctness *)

(** The filter of a block. *)
Definition filter_index (offset : Z) : nat := Z.to_nat (offset / kFilterBase).

Lemma filter_index_mono o o' : 0 <= o -> o <= o' -> (filter_index o <= filter_index o')%nat.
Proof.
  intros H0 Hle. unfold filter_index. apply Z2Nat.inj_le; try (apply Z.div_pos; [lia|reflexivity]). apply Z.div_le_mono; [reflexivity|lia].
Qed.

Section Correct.
Context (p : TableFilter) (good : bytes -> Prop) (same : bytes -> bytes -> Prop) (capacity rate : nat) `{!FilterLaws p good same capacity rate}.
Context (Hcapacity : Z.of_nat capacity < 2 ^ 31).

(** [f] is the filter of [keys]. *)
Definition filter_of (keys : list bytes) (f : bytes) : Prop :=
  match keys with
  | [] => f = []
  | _ => forall dst, fp_CreateFilter p keys dst = Ret (dst ++ f)
  end /\ (length f <= rate * length keys)%nat /\
  (forall k, good k -> exists b, fp_KeyMayMatch p k f = Ret b) /\
  (forall k key, good k -> key ∈ keys -> same k key -> fp_KeyMayMatch p k f = Ret true).

(** Where the parts of a concatenation start. *)
Fixpoint offsets (n : nat) (parts : list bytes) : list Z :=
  match parts with [] => [] | x :: parts' => Z.of_nat n :: offsets (n + length x) parts' end.

(** The filters of [groups] are done, the keys [pending] are waiting. *)
Record fb_rep (groups : list (list bytes)) (pending : list bytes) (b : FilterBlockBuilder) : Prop := {
  fb_filters : exists fs, Forall2 filter_of groups fs /\ result_ b = concat fs /\ filter_offsets_ b = u32 <$> offsets 0 fs;
  fb_keys : keys_ b = concat pending;
  fb_start : start_ b = offsets 0 pending;
  fb_good : Forall good pending;
  fb_room : (length pending <= capacity)%nat;
}.

Lemma offsets_length n parts : length (offsets n parts) = length parts.
Proof. revert n. induction parts as [|x parts IH]; intros n; cbn; auto. Qed.

Lemma offsets_app n a b : offsets n (a ++ b) = offsets n a ++ offsets (n + length (concat a)) b.
Proof.
  revert n. induction a as [|x a IH]; intros n; cbn; [f_equal; lia|]. rewrite IH. f_equal. f_equal. f_equal. rewrite length_app. lia.
Qed.

Lemma offsets_lookup parts i x : parts !! i = Some x -> offsets 0 parts !! i = Some (Z.of_nat (length (concat (take i parts)))).
Proof.
  intros Hx. rewrite <- (take_drop_middle parts i x Hx) at 1. rewrite offsets_app. cbn [offsets].
  rewrite list_lookup_middle; [f_equal; lia|]. rewrite offsets_length, length_take. apply lookup_lt_Some in Hx. lia.
Qed.

(** The keys come back from their flat form. *)
Lemma tmp_keys_offsets pre parts :
  tmp_keys (pre ++ concat parts) (offsets (length pre) parts ++ [Z.of_nat (length (pre ++ concat parts))]) = parts.
Proof.
  revert pre. induction parts as [|x parts IH]; intros pre; [done|]. specialize (IH (pre ++ x)).
  cbn [concat]. rewrite length_app in IH. rewrite <- app_assoc in IH. cbn [offsets app tmp_keys].
  assert (exists t l, offsets (length pre + length x) parts ++ [Z.of_nat (length (pre ++ x ++ concat parts))] = t :: l /\ t = Z.of_nat (length pre + length x))
    as (t & l & E & ->).
  { destruct parts as [|y parts]; cbn [offsets app]; eexists _, _; (split; [reflexivity|]); [|done]. cbn [concat]. rewrite app_nil_r, length_app. done. }
  rewrite E in IH |- *. rewrite IH. f_equal. rewrite Nat2Z.id, drop_app_length. apply take_app_length'. lia.
Qed.

Lemma generate_rep groups pending b : fb_rep groups pending b ->
  exists b', GenerateFilter p b = Ret b' /\ fb_rep (groups ++ [pending]) [] b'.
Proof.
  intros [(fs & Hfs & Hr & Ho) Hk Hs Hg Hroom]. unfold GenerateFilter. rewrite Hs, offsets_length, Hk, Hr, Ho.
  assert (exists f, filter_of pending f) as [f Hf].
  { destruct pending as [|k pending]; [exists []; split; [done|]; split; [cbn; lia|]; split; [apply fl_empty|by intros ? ? ? ?%not_elem_of_nil]|].
    destruct (fl_create (k :: pending) Hg) as (f & Hf); [cbn in *; lia|]. by exists f. }
  assert (Forall2 filter_of (groups ++ [pending]) (fs ++ [f])) as Hall by (apply Forall2_app; [done|by constructor]).
  assert ((u32 <$> offsets 0 fs) ++ [u32 (Z.of_nat (length (concat fs)))] = u32 <$> offsets 0 (fs ++ [f])) as Hoff
    by (rewrite offsets_app, fmap_app; done).
  rewrite Hoff. destruct pending as [|k pending].
  - eexists. split; [reflexivity|]. destruct Hf as [-> _]. split; cbn; [|done..|lia]. exists (fs ++ [[]]). split_and!; [done| |done].
    rewrite concat_app. cbn. by rewrite app_nil_r.
  - rewrite (proj2 (Nat.eqb_neq _ _)) by (cbn; lia). rewrite (proj2 (Z.leb_gt _ _)) by lia.
    pose proof (tmp_keys_offsets [] (k :: pending)) as Ht. rewrite !app_nil_l in Ht. cbn [length] in Ht. rewrite Ht.
    destruct Hf as [Hf _]. rewrite Hf. run. eexists. split; [reflexivity|]. split; cbn [keys_ start_ result_ filter_offsets_]; [|done|done|done|cbn; lia].
    exists (fs ++ [f]). split_and!; [done| |done]. rewrite concat_app. cbn. by rewrite app_nil_r.
Qed.

Lemma groups_length groups pending b : fb_rep groups pending b -> length (filter_offsets_ b) = length groups.
Proof.
  intros [(fs & Hfs & _ & ->) _ _ _ _]. rewrite length_fmap, offsets_length. symmetry. by eapply Forall2_length.
Qed.

(** The keys per filter, the last of which is still growing. *)
Definition fb_state (gs : list (list bytes)) (b : FilterBlockBuilder) : Prop :=
  exists groups pending, gs = groups ++ [pending] /\ fb_rep groups pending b.

Lemma fb_new : fb_state [[]] FilterBlockBuilder_new.
Proof. exists [], []. split; [done|]. split; try done; [by exists []|cbn; lia]. Qed.

Lemma generate_state n gs b : fb_state gs b -> exists b', generate_filters p n b = Ret b' /\ fb_state (gs ++ replicate n []) b'.
Proof.
  revert gs b. induction n as [|n IH]; intros gs b Hb; cbn [generate_filters replicate]; [exists b; by rewrite app_nil_r|].
  destruct Hb as (groups & pending & -> & Hb). destruct (generate_rep groups pending b Hb) as (b' & -> & Hb'). run.
  destruct (IH (groups ++ [pending] ++ [[]]) b') as (b'' & E & H); [by exists (groups ++ [pending]), []; rewrite <- app_assoc|].
  exists b''. split; [done|]. by rewrite <- !app_assoc in *.
Qed.

Lemma start_block_state gs b offset : fb_state gs b -> (length gs <= S (filter_index offset))%nat -> 0 <= offset ->
  exists b', StartBlock p offset b = Ret b' /\ fb_state (gs ++ replicate (S (filter_index offset) - length gs) []) b'.
Proof.
  intros Hb Hlen Ho. unfold StartBlock, filter_index in *. pose proof Hb as (groups & pending & Hgs & Hrep).
  rewrite (groups_length _ _ _ Hrep). assert (length gs = S (length groups)) as Hl by (rewrite Hgs, length_app; cbn; lia).
  assert (0 <= offset / kFilterBase) by (apply Z.div_pos; [lia|reflexivity]). rewrite (proj2 (Z.leb_le _ _)) by lia.
  replace (S (Z.to_nat (offset / kFilterBase)) - length gs)%nat with (Z.to_nat (offset / kFilterBase - Z.of_nat (length groups))) by lia.
  by apply generate_state.
Qed.

Lemma add_key_state gs g b key : fb_state (gs ++ [g]) b -> good key -> (length g < capacity)%nat -> fb_state (gs ++ [g ++ [key]]) (AddKey key b).
Proof.
  intros (groups & pending & E & [Hf Hk Hs Hg Hr]) Hkey Hlen. apply app_inj_tail in E as [-> ->].
  exists groups, (pending ++ [key]). split; [done|]. split; cbn.
  - done.
  - rewrite Hk, concat_app. cbn. by rewrite app_nil_r.
  - by rewrite Hs, Hk, offsets_app.
  - apply Forall_app. split; [done|by repeat constructor].
  - rewrite length_app. cbn. lia.
Qed.

(** The filter block that holds the filters [fs]. *)
Definition filter_block (fs : list bytes) : bytes :=
  concat fs ++ concat (EncodeFixed32 true <$> (u32 <$> offsets 0 fs)) ++ EncodeFixed32 true (u32 (Z.of_nat (length (concat fs)))) ++ [to_byte kFilterBaseLg].

Lemma finish_state gs b : fb_state gs b ->
  exists gs' fs, Finish p b = Ret (filter_block fs) /\ Forall2 filter_of gs' fs /\ (length gs' <= length gs)%nat /\
    length (concat gs') = length (concat gs) /\ forall i g, gs !! i = Some g -> g <> [] -> gs' !! i = Some g.
Proof.
  intros (groups & pending & -> & Hb). unfold Finish.
  assert (exists gs' b', match start_ b with [] => Ret b | _ => GenerateFilter p b end = Ret b' /\ fb_rep gs' [] b' /\
    (length gs' <= length (groups ++ [pending]))%nat /\ length (concat gs') = length (concat (groups ++ [pending])) /\
    forall i g, (groups ++ [pending]) !! i = Some g -> g <> [] -> gs' !! i = Some g) as (gs' & b' & -> & Hb' & Hlen & Hcat & Hi).
  { rewrite (fb_start _ _ _ Hb). destruct pending as [|k pending].
    - exists groups, b. split_and!; [done|done|rewrite length_app; lia|rewrite concat_app; cbn; by rewrite app_nil_r|]. intros i g Hi Hg. apply lookup_app_Some in Hi as [?|[? Hi]]; [done|].
      destruct (i - length groups)%nat; [by injection Hi as <-|done].
    - cbn [offsets]. destruct (generate_rep _ _ _ Hb) as (b' & E & Hb'). by exists (groups ++ [k :: pending]), b'. }
  run. destruct (fb_filters _ _ _ Hb') as (fs & Hfs & Hr & Ho). exists gs', fs. split_and!; [|done..].
  rewrite Hr, Ho, put_fixed32_all. unfold PutFixed32, filter_block. by rewrite <- !app_assoc.
Qed.

(** The offset array with the word that ends it. *)
Definition words (fs : list bytes) : list Z := (u32 <$> offsets 0 fs) ++ [u32 (Z.of_nat (length (concat fs)))].

Lemma filter_block_words fs : filter_block fs = concat fs ++ concat (EncodeFixed32 true <$> words fs) ++ [to_byte kFilterBaseLg].
Proof. unfold filter_block, words. rewrite fmap_app, concat_app. cbn [fmap list_fmap concat]. by rewrite app_nil_r, <- !app_assoc. Qed.

Lemma words_length fs : length (words fs) = S (length fs).
Proof. unfold words. rewrite length_app, length_fmap, offsets_length. cbn. lia. Qed.

Lemma filter_block_length fs : length (filter_block fs) = (length (concat fs) + 4 * length fs + 5)%nat.
Proof. rewrite filter_block_words, !length_app, fixed_array_length, words_length. cbn. lia. Qed.

Lemma concat_take_le (fs : list bytes) i : (length (concat (take i fs)) <= length (concat fs))%nat.
Proof. rewrite <- (take_drop i fs) at 2. rewrite concat_app, length_app. lia. Qed.

Lemma words_lookup fs i : Z.of_nat (length (concat fs)) < 2 ^ 32 -> (i <= length fs)%nat -> words fs !! i = Some (Z.of_nat (length (concat (take i fs)))).
Proof.
  intros Hlen Hi. unfold words. pose proof (concat_take_le fs i). destruct (decide (i = length fs)) as [->|Hne].
  - rewrite list_lookup_middle by (by rewrite length_fmap, offsets_length). by rewrite firstn_all, u32_small by lia.
  - destruct (lookup_lt_is_Some_2 fs i) as [f Hf]; [lia|].
    rewrite lookup_app_l by (rewrite length_fmap, offsets_length; lia). rewrite list_lookup_fmap, (offsets_lookup fs i f Hf). cbn [fmap option_fmap option_map].
    by rewrite u32_small by lia.
Qed.

Lemma word_read fs i w : words fs !! i = Some w -> 0 <= w < 2 ^ 32 ->
  DecodeFixed32 true (drop (length (concat fs) + 4 * i) (filter_block fs)) = Ret w.
Proof. intros Hw Hr. rewrite filter_block_words, drop_app_add, (fixed_array_drop _ i w) by done. by apply decode_fixed32. Qed.

Lemma filter_slice fs i f : fs !! i = Some f ->
  take (length (concat (take (S i) fs)) - length (concat (take i fs))) (drop (length (concat (take i fs))) (filter_block fs)) = f.
Proof.
  intros Hf. rewrite filter_block_words. rewrite <- (take_drop_middle fs i f Hf) at 4. rewrite concat_app. cbn [concat].
  rewrite <- !app_assoc, drop_app_length. apply take_app_length'. rewrite (take_S_r _ _ _ Hf), concat_app, length_app. cbn [concat].
  rewrite app_nil_r. lia.
Qed.

Lemma filter_reader gs fs : Forall2 filter_of gs fs -> Z.of_nat (length (filter_block fs)) < 2 ^ 32 ->
  exists r, FilterBlockReader_new (filter_block fs) = Ret r /\
    forall offset k, 0 <= offset -> good k -> exists b, FilterKeyMayMatch p r offset k = Ret b /\
      forall g key, gs !! filter_index offset = Some g -> key ∈ g -> same k key -> b = true.
Proof.
  intros Hfs Hsmall. pose proof (filter_block_length fs) as Hlen. assert (Z.of_nat (length (concat fs)) < 2 ^ 32) as Hc by lia.
  exists (MkFilterReader (Some (filter_block fs)) (Z.of_nat (length (concat fs))) (Z.of_nat (length fs)) kFilterBaseLg). split.
  - unfold FilterBlockReader_new. rewrite (proj2 (Z.ltb_ge _ _)) by lia.
    assert (filter_block fs !! Z.to_nat (Z.of_nat (length (filter_block fs)) - 1) = Some (to_byte kFilterBaseLg)) as ->.
    { rewrite filter_block_words, app_assoc. apply list_lookup_middle. rewrite length_app. cbn. lia. }
    replace (Z.to_nat (Z.of_nat (length (filter_block fs)) - 5)) with (length (concat fs) + 4 * length fs)%nat by lia.
    rewrite (word_read fs (length fs) (Z.of_nat (length (concat fs)))); [|rewrite words_lookup by lia; by rewrite firstn_all|lia].
    run. rewrite (proj2 (Z.ltb_ge _ _)) by lia. do 2 f_equal. symmetry. apply Z.div_unique_exact; lia.
  - intros offset k Ho Hk. unfold FilterKeyMayMatch. cbn [base_lg_ num_ data_ offset_]. change (64 <=? kFilterBaseLg) with false.
    assert (Z.shiftr offset kFilterBaseLg = Z.of_nat (filter_index offset)) as ->.
    { unfold filter_index. rewrite Z.shiftr_div_pow2 by done. change (2 ^ kFilterBaseLg) with kFilterBase.
      rewrite Z2Nat.id; [done|]. apply Z.div_pos; [lia|reflexivity]. }
    set (i := filter_index offset). destruct (Z.ltb_spec (Z.of_nat i) (Z.of_nat (length fs))) as [Hi|Hi]; [|by eexists].
    destruct (lookup_lt_is_Some_2 fs i) as [f Hf]; [lia|].
    pose proof (lookup_lt_is_Some_2 gs i) as Hgi. rewrite (Forall2_length _ _ _ Hfs) in Hgi. destruct Hgi as [g Hg]; [lia|].
    destruct (Forall2_lookup_lr _ _ _ i g f Hfs Hg Hf) as (_ & _ & Htot & Hmatch). pose proof (concat_take_le fs i). pose proof (concat_take_le fs (S i)).
    assert (length (concat (take i fs)) <= length (concat (take (S i) fs)))%nat as Hle
      by (rewrite (take_S_r _ _ _ Hf), concat_app, length_app; lia).
    replace (Z.to_nat (Z.of_nat (length (concat fs)) + Z.of_nat i * 4)) with (length (concat fs) + 4 * i)%nat by lia.
    replace (Z.to_nat (Z.of_nat (length (concat fs)) + Z.of_nat i * 4 + 4)) with (length (concat fs) + 4 * S i)%nat by lia.
    rewrite (word_read fs i _ (words_lookup fs i Hc ltac:(lia))) by lia. run.
    rewrite (word_read fs (S i) _ (words_lookup fs (S i) Hc ltac:(lia))) by lia. run.
    rewrite !(proj2 (Z.leb_le _ _)) by lia. cbn [andb].
    replace (Z.to_nat (Z.of_nat (length (concat (take (S i) fs))) - Z.of_nat (length (concat (take i fs)))))
      with (length (concat (take (S i) fs)) - length (concat (take i fs)))%nat by lia.
    rewrite Nat2Z.id, (filter_slice fs i f Hf). destruct (Htot k Hk) as [b Hb]. exists b. split; [done|].
    intros g' key Hg' Hin Hsame. simplify_eq. specialize (Hmatch k key Hk Hin Hsame). congruence.
Qed.

(** The key is in the filter of its block. *)
Definition assigned (gs : list (list bytes)) (offset : Z) (key : bytes) : Prop :=
  exists g, gs !! filter_index offset = Some g /\ key ∈ g.

Lemma assigned_app gs gs' offset key : assigned gs offset key -> assigned (gs ++ gs') offset key.
Proof. intros (g & Hg & Hk). exists g. split; [by apply lookup_app_l_Some|done]. Qed.

Lemma assigned_snoc gs g key offset k : assigned (gs ++ [g]) offset k -> assigned (gs ++ [g ++ [key]]) offset k.
Proof.
  intros (g' & Hg & Hk). apply lookup_app_Some in Hg as [Hg|[Hi Hg]]; [exists g'; split; [by apply lookup_app_l_Some|done]|].
  destruct (filter_index offset - length gs)%nat as [|n] eqn:E; [|done]. injection Hg as <-. exists (g ++ [key]).
  split; [by rewrite lookup_app_r, E by lia|]. apply elem_of_app. by left.
Qed.

(** The state after a block was started: its filter is the one that grows. *)
Lemma start_block_assigns gs b offset : fb_state gs b -> (length gs <= S (filter_index offset))%nat -> 0 <= offset ->
  exists gs' g b', StartBlock p offset b = Ret b' /\ fb_state (gs' ++ [g]) b' /\ length gs' = filter_index offset /\
    (length (concat (gs' ++ [g])) = length (concat gs))%nat /\ forall o k, assigned gs o k -> assigned (gs' ++ [g]) o k.
Proof.
  intros Hb Hlen Ho. destruct (start_block_state gs b offset Hb Hlen Ho) as (b' & E & Hb').
  set (all := gs ++ replicate (S (filter_index offset) - length gs) []) in *.
  assert (length all = S (filter_index offset)) as Hall by (unfold all; rewrite length_app, length_replicate; lia).
  destruct (exists_last (l := all)) as (gs' & g & Eg); [by intros Hn; rewrite Hn in Hall|]. exists gs', g, b'. rewrite <- Eg. split_and!; [done|done| | |].
  - rewrite Eg, length_app in Hall. cbn in Hall. lia.
  - unfold all. rewrite concat_app, length_app. assert (concat (replicate (S (filter_index offset) - length gs) ([] : list bytes)) = []) as ->; [|cbn; lia].
    generalize (S (filter_index offset) - length gs)%nat. intros n. by induction n.
  - intros o k. apply assigned_app.
Qed.

Lemma add_key_assigns gs g b key : fb_state (gs ++ [g]) b -> good key -> (length g < capacity)%nat ->
  fb_state (gs ++ [g ++ [key]]) (AddKey key b) /\ (forall o, filter_index o = length gs -> assigned (gs ++ [g ++ [key]]) o key).
Proof.
  intros Hb Hk Hl. split; [by apply add_key_state|]. intros o Ho. exists (g ++ [key]). rewrite Ho. split; [by apply list_lookup_middle|].
  apply elem_of_app. right. by apply list_elem_of_singleton.
Qed.

Lemma add_keys_assign keys gs g b : fb_state (gs ++ [g]) b -> Forall good keys -> (length g + length keys <= capacity)%nat ->
  exists g', fb_state (gs ++ [g']) (foldl (fun b key => AddKey key b) b keys) /\ length g' = (length g + length keys)%nat /\
    (forall o k, assigned (gs ++ [g]) o k -> assigned (gs ++ [g']) o k) /\
    forall o key, filter_index o = length gs -> key ∈ keys -> assigned (gs ++ [g']) o key.
Proof.
  revert g b. induction keys as [|key keys IH]; intros g b Hb Hg Hl; cbn [foldl length] in *.
  { exists g. split_and!; [done|lia|done|by intros ? ? ? ?%not_elem_of_nil]. }
  apply Forall_cons in Hg as [Hk Hg]. destruct (add_key_assigns gs g b key Hb Hk) as [Hb' Ha]; [lia|].
  destruct (IH (g ++ [key]) (AddKey key b) Hb' Hg) as (g' & H1 & H2 & H3 & H4); [rewrite length_app; cbn; lia|].
  exists g'. rewrite length_app in H2. cbn in H2. split_and!; [done|lia| |].
  - intros o k Ho. by apply H3, assigned_snoc.
  - intros o k Ho [->|Hin]%elem_of_cons; [by apply H3, Ha|by apply H4].
Qed.

Lemma filters_room gs fs : Forall2 filter_of gs fs -> (length (concat fs) <= rate * length (concat gs))%nat.
Proof.
  induction 1 as [|g f gs fs Hf _ IH]; cbn [concat]; [cbn; lia|]. rewrite !length_app. destruct Hf as (_ & Hf & _). lia.
Qed.

(** What a finished filter block promises. *)
Lemma finish_assigned gs b : fb_state gs b ->
  exists contents, Finish p b = Ret contents /\ (length contents <= rate * length (concat gs) + 4 * length gs + 5)%nat /\ (Z.of_nat (length contents) < 2 ^ 32 -> exists r, FilterBlockReader_new contents = Ret r /\
    forall offset k, 0 <= offset -> good k -> exists m, FilterKeyMayMatch p r offset k = Ret m /\
      forall key, assigned gs offset key -> same k key -> m = true).
Proof.
  intros Hb. destruct (finish_state gs b Hb) as (gs' & fs & E & Hfs & Hlen & Hcat & Hi). exists (filter_block fs). split; [done|].
  split; [rewrite filter_block_length, <- Hcat, <- (Forall2_length _ _ _ Hfs); pose proof (filters_room gs' fs Hfs); lia|]. intros Hs.
  destruct (filter_reader gs' fs Hfs Hs) as (r & Er & Hr). exists r. split; [done|]. intros offset k Ho Hk.
  destruct (Hr offset k Ho Hk) as (m & Em & Hm). exists m. split; [done|]. intros key (g & Hg & Hin) Hsame.
  apply (Hm g key); [|done|done]. apply Hi; [done|]. intros ->. by apply not_elem_of_nil in Hin.
Qed.

Lemma add_blocks_assign blocks gs g b o0 : fb_state (gs ++ [g]) b -> filter_index o0 = length gs ->
  Sorted Z.le (o0 :: blocks.*1) -> 0 <= o0 -> Forall (fun blk => Forall good blk.2) blocks ->
  (length (concat (gs ++ [g])) + length (concat blocks.*2) <= capacity)%nat ->
  exists gs' b', foldM (fun blk b => b ← StartBlock p blk.1 b; Ret (foldl (fun b key => AddKey key b) b blk.2)) blocks b = Ret b' /\ fb_state gs' b' /\
    (forall o k, assigned (gs ++ [g]) o k -> assigned gs' o k) /\
    forall offset keys key, (offset, keys) ∈ blocks -> key ∈ keys -> assigned gs' offset key.
Proof.
  revert gs g b o0. induction blocks as [|[off keys] blocks IH]; intros gs g b o0 Hb Hi Hs H0 Hg Hl; cbn [foldM fmap list_fmap concat fst snd] in *.
  { exists (gs ++ [g]), b. split_and!; [done..|]. by intros ? ? ? ?%not_elem_of_nil. }
  apply Sorted_inv in Hs as [Hs Hle]. apply HdRel_inv in Hle. apply Forall_cons in Hg as [Hgk Hg]. cbn in Hgk.
  rewrite length_app in Hl.
  pose proof (filter_index_mono o0 off H0 Hle) as Hmono.
  destruct (start_block_assigns (gs ++ [g]) b off Hb) as (gs1 & g1 & b1 & E1 & Hb1 & Hl1 & Hc1 & Ha1); [rewrite length_app; cbn; lia|lia|].
  assert (length g1 <= length (concat (gs1 ++ [g1])))%nat as Hg1 by (rewrite concat_app, length_app; cbn; rewrite app_nil_r; lia).
  destruct (add_keys_assign keys gs1 g1 b1 Hb1 Hgk) as (g2 & Hb2 & Hl2 & Ha2 & Hk2); [lia|].
  rewrite E1. run. destruct (IH gs1 g2 _ off Hb2) as (gs' & b' & E' & Hb' & Ha' & Hk'); [done|done|lia|done| |].
  { rewrite concat_app, length_app in Hc1 |- *. cbn in Hc1 |- *. rewrite app_nil_r in Hc1 |- *. lia. }
  exists gs', b'. split_and!; [done|done| |].
  - intros o k Ho. by apply Ha', Ha2, Ha1.
  - intros o ks key [E|Hin]%elem_of_cons Hkey; [|by eapply Hk']. injection E as -> ->. by apply Ha', Hk2.
Qed.

(** [(StartBlock AddKey* )* Finish]: the calls that the header allows. *)
Definition build_filter_block (blocks : list (Z * list bytes)) : outcome bytes :=
  b ← foldM (fun blk b => b ← StartBlock p blk.1 b; Ret (foldl (fun b key => AddKey key b) b blk.2)) blocks FilterBlockBuilder_new;
  Finish p b.

(** C36: a filter block never hides a key.  Blocks at increasing file offsets, with the keys
    that each holds, give a filter block in which a lookup for a block's offset and
    for a key that the policy takes for one of its keys always matches, however many
    blocks fall on one filter and however many filters a block leaves empty; a
    lookup with any other offset or key runs without touching memory out of
    bounds. *)
Theorem filter_block_no_false_negative blocks :
  Sorted Z.le (0 :: blocks.*1) -> Forall (fun blk => Forall good blk.2) blocks -> (length (concat blocks.*2) <= capacity)%nat ->
  exists contents, build_filter_block blocks = Ret contents /\ (Z.of_nat (length contents) < 2 ^ 32 ->
    exists r, FilterBlockReader_new contents = Ret r /\ forall offset k, 0 <= offset -> good k ->
      exists m, FilterKeyMayMatch p r offset k = Ret m /\
        forall keys key, (offset, keys) ∈ blocks -> key ∈ keys -> same k key -> m = true).
Proof.
  intros Hs Hg Hl. destruct (add_blocks_assign blocks [] [] FilterBlockBuilder_new 0 fb_new eq_refl Hs ltac:(lia) Hg Hl) as (gs & b & E & Hb & _ & Ha).
  unfold build_filter_block. rewrite E. run. destruct (finish_assigned gs b Hb) as (contents & Ec & _ & Hr). exists contents. split; [done|].
  intros Hsmall. destruct (Hr Hsmall) as (r & Er & Hm). exists r. split; [done|]. intros offset k Ho Hk.
  destruct (Hm offset k Ho Hk) as (m & Em & Ht). exists m. split; [done|]. intros keys key Hin Hkey Hsame. eauto.
Qed.
End Correct.

(** ** The builtin policy on internal keys (db/dbformat.cc, util/bloom.cc) *)

Definition internal_filter (p : BloomFilterPolicy) : TableFilter :=
  MkFilter (str "leveldb.BuiltinBloomFilter2") (InternalCreateFilter p) InternalKeyMayMatch.

Definition same_user (k key : bytes) : Prop := ExtractUserKey k = ExtractUserKey key.

Lemma extract_good k : internal_good k -> exists u, ExtractUserKey k = Ret u.
Proof. intros Hk. unfold ExtractUserKey. rewrite (proj2 (Nat.leb_le _ _)) by done. by eexists. Qed.

Lemma extract_all keys : Forall internal_good keys -> exists us, mapM_ret ExtractUserKey keys = Ret us /\ length us = length keys /\
  forall key, key ∈ keys -> exists u, ExtractUserKey key = Ret u /\ u ∈ us.
Proof.
  intros Hg. unfold mapM_ret. enough (forall acc, exists us, foldM (fun x acc => y ← ExtractUserKey x; Ret (acc ++ [y])) keys acc = Ret (acc ++ us) /\
    length us = length keys /\ forall key, key ∈ keys -> exists u, ExtractUserKey key = Ret u /\ u ∈ us) as H.
  { destruct (H []) as (us & E & H'). by exists us. }
  induction Hg as [|k keys Hk Hg IH]; intros acc; cbn [foldM].
  { exists []. rewrite app_nil_r. split_and!; [done|done|by intros ? ?%not_elem_of_nil]. }
  destruct (extract_good k Hk) as [u Hu]. rewrite Hu. run. destruct (IH (acc ++ [u])) as (us & -> & Hl & Hin). exists (u :: us).
  rewrite <- app_assoc. cbn. split_and!; [done|lia|]. intros key [->|Hkey]%elem_of_cons; [exists u; split; [done|by left]|].
  destruct (Hin key Hkey) as (w & Hw & ?). exists w. split; [done|by right].
Qed.

Lemma internal_filter_laws bits_per_key p capacity : NewBloomFilterPolicy bits_per_key = Ret p -> 0 <= bits_per_key ->
  Z.of_nat capacity * bits_per_key + 64 < 2 ^ 64 -> FilterLaws (internal_filter p) internal_good same_user capacity (Z.to_nat (bits_per_key / 8) + 11).
Proof.
  intros Hp Hb Hc. split; cbn.
  - intros keys Hg Hl. destruct (extract_all keys Hg) as (us & E & Hul & Hin).
    destruct (create_filter_spec bits_per_key p us Hp Hb) as (f & Hf & Hfl & Hm); [lia|nia|]. exists f. split_and!.
    + intros dst. unfold InternalCreateFilter. rewrite E. apply Hf.
    + rewrite Hul in Hfl. pose proof (Z.div_mod bits_per_key 8 ltac:(lia)). pose proof (Z.mod_pos_bound bits_per_key 8 ltac:(lia)).
      assert (0 <= bits_per_key / 8) by (apply Z.div_pos; lia).
      assert (Z.of_nat (length keys) * bits_per_key / 8 <= Z.of_nat (length keys) * (bits_per_key / 8 + 1)) as Hle
        by (apply Z.div_le_upper_bound; [lia|nia]).
      nia.
    + intros k Hk. unfold InternalKeyMayMatch. destruct (extract_good k Hk) as [u ->]. apply may_match_total.
    + intros k key Hk Hkey Hs. unfold InternalKeyMayMatch. destruct (Hin key Hkey) as (u & Hu & Huin). unfold same_user in Hs. rewrite Hs, Hu. by apply Hm.
  - intros k Hk. unfold InternalKeyMayMatch. destruct (extract_good k Hk) as [u ->]. apply may_match_total.
Qed.

(** An offset pair past the filters, both the same, hides every key from every lookup
    that lands on it: the error is taken for an empty filter. *)
Lemma filter_error_hides_key p key : exists r, FilterBlockReader_new (foldl PutFixed32 [] [100; 100; 0] ++ [x0b]) = Ret r /\
  FilterKeyMayMatch p r 0 key = Ret false.
Proof. eexists. split; [vm_compute; reflexivity|]. vm_compute. reflexivity. Qed.

(** Two blocks on the first filter, none on the next two, one far along. *)
Definition sample_blocks : list (Z * list bytes) :=
  [(0, [ikey (str "app") 9 kTypeValue; ikey (str "bat") 4 kTypeDeletion]); (1500, [ikey (str "cat") 5 kTypeValue]); (6200, [ikey (str "dog") 2 kTypeValue])].

Lemma filter_block_no_false_negative_witness :
  exists contents r, build_filter_block (internal_filter (Policy 10 6)) sample_blocks = Ret contents /\ FilterBlockReader_new contents = Ret r /\
    FilterKeyMayMatch (internal_filter (Policy 10 6)) r 1500 (ikey (str "cat") 100 kValueTypeForSeek) = Ret true.
Proof.
  assert (NewBloomFilterPolicy 10 = Ret (Policy 10 6)) as E by (vm_compute; reflexivity).
  destruct (filter_block_no_false_negative (internal_filter (Policy 10 6)) internal_good same_user 1000 12
    (FilterLaws0 := internal_filter_laws 10 (Policy 10 6) 1000 E ltac:(lia) ltac:(lia)) ltac:(lia) sample_blocks) as (contents & Ec & Hr).
  - repeat constructor; cbn; lia.
  - repeat constructor; cbn; lia.
  - cbn. lia.
  - assert (Z.of_nat (length contents) < 2 ^ 32) as Hs.
    { assert (build_filter_block (internal_filter (Policy 10 6)) sample_blocks = Ret contents) as E' by done. vm_compute in E'. injection E' as <-. reflexivity. }
    destruct (Hr Hs) as (r & Er & Hm). exists contents, r. split; [done|]. split; [done|].
    destruct (Hm 1500 (ikey (str "cat") 100 kValueTypeForSeek)) as (m & Em & Ht); [lia|apply Nat.leb_le; vm_compute; reflexivity|].
    rewrite Em. f_equal. apply (Ht [ikey (str "cat") 5 kTypeValue] (ikey (str "cat") 5 kTypeValue)); [right; by left|by left|reflexivity].
Defined.
