(* ===== verification/Table.v ===== *)
(** * Tables (util/leveldb/table/table_builder.cc, table.cc)

    A table file has the data blocks, a filter block, a metaindex block that names it,
    an index block with a separator and a handle for each data block, and a footer.
    The builder writes one from sorted entries; the reader opens it and looks keys
    up.  The comparator, the filter policy, Snappy, the files and the block cache
    are interfaces. *)

From S2P Require Import Prelude Slice Coding Crc32c FileNames Status Files DbFormat Block TableFormat FilterBlock.
From stdpp Require Import strings.
#[local] Open Scope Z_scope.

(** ** Options (include/leveldb/options.h), as far as tables use them *)

Record TableComparator := MkTableComparator {
  tc_Compare : bytes -> bytes -> outcome Z;
  tc_FindShortestSeparator : bytes -> bytes -> outcome bytes;
  tc_FindShortSuccessor : bytes -> outcome bytes;
}.

(** [comparator_ptr] is the address of the comparator. *)
Record Options := MkOptions {
  comparator : TableComparator;
  comparator_ptr : Z;
  block_size : Z;
  block_restart_interval : Z;
  compression : Z;
  filter_policy : option TableFilter;
  paranoid_checks : bool;
}.

Record ReadOptions := MkReadOptions { verify_checksums : bool; fill_cache : bool }.

(** ** table_builder.cc *)

Module TB.
Section Ops.
Context {F : Type} `{WritableFile F} (snappy : option snappy_lib) (addr : Z).

(** [index_block_options] is [options] with a restart interval of 1;
    [compressed_output] is empty between calls; a filter block builder keeps the policy
    it was made with. *)
Record Rep := MkRep {
  options : Options;
  file : F;
  offset : Z;
  status : Status;
  data_block : Builder.BlockBuilder;
  index_block : Builder.BlockBuilder;
  last_key : bytes;
  num_entries : Z;
  closed : bool;
  filter_block : option (TableFilter * FilterBlockBuilder);
  pending_index_entry : bool;
  pending_handle : BlockHandle;
}.

Definition set_file (r : Rep) (f : F) (off : Z) (s : Status) : Rep :=
  MkRep (options r) f off s (data_block r) (index_block r) (last_key r) (num_entries r) (closed r) (filter_block r)
    (pending_index_entry r) (pending_handle r).
Definition set_filter (r : Rep) (fb : option (TableFilter * FilterBlockBuilder)) : Rep :=
  MkRep (options r) (file r) (offset r) (status r) (data_block r) (index_block r) (last_key r) (num_entries r) (closed r) fb
    (pending_index_entry r) (pending_handle r).
Definition set_data (r : Rep) (b : Builder.BlockBuilder) : Rep :=
  MkRep (options r) (file r) (offset r) (status r) b (index_block r) (last_key r) (num_entries r) (closed r) (filter_block r)
    (pending_index_entry r) (pending_handle r).
Definition set_index (r : Rep) (b : Builder.BlockBuilder) : Rep :=
  MkRep (options r) (file r) (offset r) (status r) (data_block r) b (last_key r) (num_entries r) (closed r) (filter_block r)
    (pending_index_entry r) (pending_handle r).
Definition set_pending (r : Rep) (p : bool) (h : BlockHandle) : Rep :=
  MkRep (options r) (file r) (offset r) (status r) (data_block r) (index_block r) (last_key r) (num_entries r) (closed r) (filter_block r) p h.
Definition set_last (r : Rep) (k : bytes) : Rep :=
  MkRep (options r) (file r) (offset r) (status r) (data_block r) (index_block r) k (num_entries r) (closed r) (filter_block r)
    (pending_index_entry r) (pending_handle r).
Definition count_entry (r : Rep) : Rep :=
  MkRep (options r) (file r) (offset r) (status r) (data_block r) (index_block r) (last_key r) (num_entries r + 1) (closed r) (filter_block r)
    (pending_index_entry r) (pending_handle r).
Definition close (r : Rep) : Rep :=
  MkRep (options r) (file r) (offset r) (status r) (data_block r) (index_block r) (last_key r) (num_entries r) true (filter_block r)
    (pending_index_entry r) (pending_handle r).

Definition compare (r : Rep) : bytes -> bytes -> outcome Z := tc_Compare (comparator (options r)).

(** [TableBuilder(options, file)] *)
Definition new (opt : Options) (f : F) : outcome Rep :=
  data ← Builder.new (block_restart_interval opt);
  index ← Builder.new (block_restart_interval opt);
  fb ← match filter_policy opt with
       | None => Ret None
       | Some p => b ← StartBlock p 0 FilterBlockBuilder_new; Ret (Some (p, b))
       end;
  Ret (MkRep opt f 0 OK data index [] 0 false fb false BlockHandle_new).

(** Returns the status and the builder; the address tells comparators apart. *)
Definition ChangeOptions (opt : Options) (r : Rep) : outcome (Status * Rep) :=
  if negb (comparator_ptr opt =? comparator_ptr (options r)) then
    s ← InvalidArgument (str "changing comparator while building table") []; Ret (s, r)
  else
    Ret (OK, MkRep opt (file r) (offset r) (status r) (data_block r) (index_block r) (last_key r) (num_entries r) (closed r)
               (filter_block r) (pending_index_entry r) (pending_handle r)).

Definition WriteRawBlock (block_contents : bytes) (type : Z) (r : Rep) : outcome (BlockHandle * Rep) :=
  let handle := MkHandle (offset r) (Z.of_nat (length block_contents)) in
  let '(s, f) := wf_Append block_contents (file r) in
  if ok s then
    crc ← Value addr block_contents;
    crc ← Extend addr crc [to_byte type];
    let trailer := to_byte type :: EncodeFixed32 true (Mask crc) in
    let '(s, f) := wf_Append trailer f in
    let off := if ok s then u64 (offset r + (Z.of_nat (length block_contents) + kBlockTrailerSize)) else offset r in
    Ret (handle, set_file r f off s)
  else Ret (handle, set_file r f (offset r) s).

(** What is stored for the contents of a block. *)
Definition compress (type : Z) (raw : bytes) : bytes * Z :=
  if type =? kNoCompression then (raw, type)
  else if type =? kSnappyCompression then
    match Snappy_Compress snappy raw with
    | Some compressed =>
        if (length compressed <? length raw - length raw / 8)%nat then (compressed, type) else (raw, kNoCompression)
    | None => (raw, kNoCompression)
    end
  else ([], type).

(** The caller's block is reset. *)
Definition WriteBlock (block : Builder.BlockBuilder) (r : Rep) : outcome (BlockHandle * Rep) :=
  assert! ok (status r);
  let raw := (Builder.Finish block).1 in
  let '(block_contents, type) := compress (compression (options r)) raw in
  WriteRawBlock block_contents type r.

Definition start_filter (off : Z) (r : Rep) : outcome Rep :=
  match filter_block r with
  | Some (p, fb) => fb ← StartBlock p off fb; Ret (set_filter r (Some (p, fb)))
  | None => Ret r
  end.

Definition empty (b : Builder.BlockBuilder) : bool := bool_decide (Builder.buffer_ b = []).

Definition Flush (r : Rep) : outcome Rep :=
  assert! negb (closed r);
  if negb (ok (status r)) then Ret r
  else if empty (data_block r) then Ret r
  else
    assert! negb (pending_index_entry r);
    '(handle, r) ← WriteBlock (data_block r) r;
    let r := set_pending (set_data r Builder.Reset) (pending_index_entry r) handle in
    let r := if ok (status r) then
               let '(s, f) := wf_Flush (file r) in set_file (set_pending r true handle) f (offset r) s
             else r in
    start_filter (offset r) r.

(** The index entry for the block before, under [key]. *)
Definition add_index_entry (key : bytes) (r : Rep) : outcome Rep :=
  handle_encoding ← BlockHandle_EncodeTo (pending_handle r) [];
  index ← Builder.Add (compare r) 1 key handle_encoding (index_block r);
  Ret (set_pending (set_index (set_last r key) index) false (pending_handle r)).

(** The part of [Add] after the index: filter, data block, and a flush when it is full. *)
Definition add_data (key value : bytes) (r : Rep) : outcome Rep :=
  let r := match filter_block r with Some (p, fb) => set_filter r (Some (p, AddKey key fb)) | None => r end in
  data ← Builder.Add (compare r) (block_restart_interval (options r)) key value (data_block r);
  let r := set_data (count_entry (set_last r key)) data in
  if block_size (options r) <=? Builder.CurrentSizeEstimate data then Flush r else Ret r.

Definition Add (key value : bytes) (r : Rep) : outcome Rep :=
  assert! negb (closed r);
  if negb (ok (status r)) then Ret r
  else
    larger ← (if 0 <? num_entries r then c ← compare r key (last_key r); Ret (0 <? c) else Ret true);
    assert! (larger : bool);
    r ← (if pending_index_entry r then
           assert! empty (data_block r);
           separator ← tc_FindShortestSeparator (comparator (options r)) (last_key r) key;
           add_index_entry separator r
         else Ret r);
    add_data key value r.

Definition filter_key (p : TableFilter) : bytes := str "filter." ++ fp_Name p.

Definition Finish (r : Rep) : outcome (Status * Rep) :=
  r ← Flush r;
  assert! negb (closed r);
  let r := close r in
  '(filter_handle, r) ← match filter_block r with
                        | Some (p, fb) =>
                            if ok (status r) then contents ← FilterBlock.Finish p fb; WriteRawBlock contents kNoCompression r
                            else Ret (BlockHandle_new, r)
                        | None => Ret (BlockHandle_new, r)
                        end;
  '(metaindex_handle, r) ← (if ok (status r) then
      meta ← Builder.new (block_restart_interval (options r));
      meta ← match filter_block r, filter_policy (options r) with
             | Some _, Some p =>
                 handle_encoding ← BlockHandle_EncodeTo filter_handle [];
                 Builder.Add (compare r) (block_restart_interval (options r)) (filter_key p) handle_encoding meta
             | Some _, None => Undef
             | None, _ => Ret meta
             end;
      WriteBlock meta r
    else Ret (BlockHandle_new, r));
  '(index_handle, r) ← (if ok (status r) then
      r ← (if pending_index_entry r then
             successor ← tc_FindShortSuccessor (comparator (options r)) (last_key r);
             add_index_entry successor r
           else Ret r);
      '(h, r) ← WriteBlock (index_block r) r;
      Ret (h, set_index r Builder.Reset)
    else Ret (BlockHandle_new, r));
  if ok (status r) then
    footer_encoding ← Footer_EncodeTo (MkFooter metaindex_handle index_handle) [];
    let '(s, f) := wf_Append footer_encoding (file r) in
    let r := set_file r f (if ok s then u64 (offset r + Z.of_nat (length footer_encoding)) else offset r) s in
    Ret (s, r)
  else Ret (status r, r).

Definition Abandon (r : Rep) : outcome Rep := assert! negb (closed r); Ret (close r).

Definition NumEntries (r : Rep) : Z := u64 (num_entries r).
Definition FileSize (r : Rep) : Z := offset r.
End Ops.
Arguments Rep : clear implicits.
End TB.

(** ** Iterators over a block: the block's own, or an empty one with a status *)

Abbreviation BlockIter := (Status + Iter.Iter)%type.

Module BI.
Section Ops.
Context (compare : bytes -> bytes -> outcome Z).

Definition Valid (it : BlockIter) : bool := match it with inl _ => false | inr it => Iter.Valid it end.
Definition status (it : BlockIter) : Status := match it with inl s => s | inr it => Iter.status_ it end.
Definition key (it : BlockIter) : outcome bytes := match it with inl _ => Exit 134 | inr it => Iter.key it end.
Definition value (it : BlockIter) : outcome bytes := match it with inl _ => Exit 134 | inr it => Iter.value it end.

Definition lift (f : Iter.Iter -> outcome Iter.Iter) (it : Iter.Iter) : outcome BlockIter := it ← f it; Ret (inr it).
Definition Seek (target : bytes) (it : BlockIter) : outcome BlockIter :=
  match it with inl s => Ret (inl s) | inr it => lift (Iter.Seek compare target) it end.
Definition SeekToFirst (it : BlockIter) : outcome BlockIter := match it with inl s => Ret (inl s) | inr it => lift Iter.SeekToFirst it end.
Definition SeekToLast (it : BlockIter) : outcome BlockIter := match it with inl s => Ret (inl s) | inr it => lift Iter.SeekToLast it end.
Definition Next (it : BlockIter) : outcome BlockIter := match it with inl _ => Exit 134 | inr it => lift Iter.Next it end.
Definition Prev (it : BlockIter) : outcome BlockIter := match it with inl _ => Exit 134 | inr it => lift Iter.Prev it end.
End Ops.
End BI.

(** ** The block cache (include/leveldb/cache.h) *)

Class BlockCache (C : Type) := {
  bc_NewId : C -> Z * C;
  bc_Lookup : bytes -> C -> option Block * C;
  bc_Insert : bytes -> Block -> Z -> C -> C;
}.

(** ** table.cc *)

Section Reader.
Context {F C : Type} `{RandomAccessFile F} `{BlockCache C} (snappy : option snappy_lib) (addr : Z).

Record Table := MkTable {
  t_options : Options;
  t_file : F;
  t_cache_id : Z;
  t_filter : option FilterBlockReader;
  t_metaindex : BlockHandle;
  t_index : Block;
}.

Definition set_table_filter (t : Table) (r : FilterBlockReader) : Table :=
  MkTable (t_options t) (t_file t) (t_cache_id t) (Some r) (t_metaindex t) (t_index t).

Definition ReadFilter (filter_handle_value : bytes) (t : Table) : outcome Table :=
  '(s, filter_handle, _) ← BlockHandle_DecodeFrom BlockHandle_new filter_handle_value;
  if negb (ok s) then Ret t
  else
    '(s, block) ← ReadBlock snappy addr (t_file t) (paranoid_checks (t_options t)) filter_handle;
    if negb (ok s) then Ret t
    else r ← FilterBlockReader_new (data block); Ret (set_table_filter t r).

Definition ReadMeta (footer : Footer) (t : Table) : outcome Table :=
  match filter_policy (t_options t) with
  | None => Ret t
  | Some p =>
      '(s, contents) ← ReadBlock snappy addr (t_file t) (paranoid_checks (t_options t)) (metaindex_handle_ footer);
      if negb (ok s) then Ret t
      else
        meta ← Block_new (data contents);
        iter ← NewIterator meta;
        iter ← BI.Seek (fun a b => Ret (slice_compare a b)) (TB.filter_key p) iter;
        if BI.Valid iter then
          k ← BI.key iter;
          if slice_eqb k (TB.filter_key p) then v ← BI.value iter; ReadFilter v t else Ret t
        else Ret t
  end.

(** The table when the status is OK, and the block cache, of which [NewId] is taken. *)
Definition Open (options : Options) (file : F) (size : Z) (cache : option C) : outcome (Status * option Table * option C) :=
  if size <? kEncodedLength then
    s ← Corruption (str "file is too short to be an sstable") []; Ret (s, None, cache)
  else
    let '(s, footer_input, _) := raf_Read (size - kEncodedLength) kEncodedLength file in
    if negb (ok s) then Ret (s, None, cache)
    else
      '(s, footer, _) ← Footer_DecodeFrom Footer_new footer_input;
      if negb (ok s) then Ret (s, None, cache)
      else
        '(s, contents) ← ReadBlock snappy addr file (paranoid_checks options) (index_handle_ footer);
        if ok s then
          index_block ← Block_new (data contents);
          let '(cache_id, cache) := match cache with Some c => let '(i, c) := bc_NewId c in (i, Some c) | None => (0, None) end in
          t ← ReadMeta footer (MkTable options file cache_id None (metaindex_handle_ footer) index_block);
          Ret (s, Some t, cache)
        else Ret (s, None, cache).

Definition cache_key (cache_id off : Z) : bytes := EncodeFixed64 true cache_id ++ EncodeFixed64 true off.

(** Reads the block of a handle, through the cache when there is one. *)
Definition read_block_cached (t : Table) (options : ReadOptions) (handle : BlockHandle) (cache : option C) :
    outcome (Status * option Block * option C) :=
  match cache with
  | Some c =>
      let k := cache_key (t_cache_id t) (TableFormat.offset_ handle) in
      let '(found, c) := bc_Lookup k c in
      match found with
      | Some block => Ret (OK, Some block, Some c)
      | None =>
          '(s, contents) ← ReadBlock snappy addr (t_file t) (verify_checksums options) handle;
          if ok s then
            block ← Block_new (data contents);
            let c := if cachable contents && fill_cache options then bc_Insert k block (Block.size_ block) c else c in
            Ret (s, Some block, Some c)
          else Ret (s, None, Some c)
      end
  | None =>
      '(s, contents) ← ReadBlock snappy addr (t_file t) (verify_checksums options) handle;
      if ok s then block ← Block_new (data contents); Ret (s, Some block, None) else Ret (s, None, None)
  end.

Definition BlockReader (t : Table) (options : ReadOptions) (index_value : bytes) (cache : option C) : outcome (BlockIter * option C) :=
  '(s, handle, _) ← BlockHandle_DecodeFrom BlockHandle_new index_value;
  '(s, block, cache) ← (if ok s then read_block_cached t options handle cache else Ret (s, None, cache));
  match block with
  | Some block => iter ← NewIterator block; Ret (iter, cache)
  | None => Ret (inl s, cache)
  end.

Definition t_compare (t : Table) : bytes -> bytes -> outcome Z := tc_Compare (comparator (t_options t)).

(** The status, what the saver was called with and the cache. *)
Definition InternalGet (t : Table) (options : ReadOptions) (k : bytes) (cache : option C) :
    outcome (Status * option (bytes * bytes) * option C) :=
  iiter ← NewIterator (t_index t);
  iiter ← BI.Seek (t_compare t) k iiter;
  '(s, saved, cache) ← (if BI.Valid iiter then
      handle_value ← BI.value iiter;
      excluded ← match t_filter t, filter_policy (t_options t) with
                 | Some filter, Some p =>
                     '(s, handle, _) ← BlockHandle_DecodeFrom BlockHandle_new handle_value;
                     if ok s then m ← FilterKeyMayMatch p filter (TableFormat.offset_ handle) k; Ret (negb m) else Ret false
                 | Some _, None => Undef
                 | None, _ => Ret false
                 end;
      if (excluded : bool) then Ret (OK, None, cache)
      else
        '(block_iter, cache) ← BlockReader t options handle_value cache;
        block_iter ← BI.Seek (t_compare t) k block_iter;
        saved ← (if BI.Valid block_iter then bk ← BI.key block_iter; bv ← BI.value block_iter; Ret (Some (bk, bv)) else Ret None);
        Ret (BI.status block_iter, saved, cache)
    else Ret (OK, None, cache));
  Ret (if ok s then BI.status iiter else s, saved, cache).

Definition ApproximateOffsetOf (t : Table) (key : bytes) : outcome Z :=
  iiter ← NewIterator (t_index t);
  iiter ← BI.Seek (t_compare t) key iiter;
  if BI.Valid iiter then
    input ← BI.value iiter;
    '(s, handle, _) ← BlockHandle_DecodeFrom BlockHandle_new input;
    Ret (if ok s then TableFormat.offset_ handle else TableFormat.offset_ (t_metaindex t))
  else Ret (TableFormat.offset_ (t_metaindex t)).
End Reader.
