(* ===== verification/TableSpec.v ===== *)
(** * Correctness of tables

    The builder's invariant, the layout of the file it writes, and lookups in the table
    that the file opens to.  The comparator's contract is [TableComparatorLaws], the
    cache's [BlockCacheLaws]. *)

From S2P Require Import Prelude Order Slice Coding Crc32c FileNames Status Files DbFormat Block TableFormat FilterBlock Table.
From stdpp Require Import strings.
#[local] Open Scope Z_scope.

(** ** Contracts *)

(** A total order on the keys in use.  A separator of [a] and [b] is [a], or stays below
    every key that a lookup takes for [b]. *)
Class TableComparatorLaws (c : TableComparator) (ok : bytes -> Prop) (ord : bytes -> bytes -> Z) (same : bytes -> bytes -> Prop) : Prop := {
  tl_compare a b : ok a -> ok b -> tc_Compare c a b = Ret (ord a b);
  tl_antisym a b : ok a -> ok b -> Z.sgn (ord a b) = - Z.sgn (ord b a);
  tl_trans a b d : ok a -> ok b -> ok d -> ord a b <= 0 -> ord b d <= 0 -> ord a d <= 0;
  tl_sep a b : ok a -> ok b -> ord a b < 0 -> exists s, tc_FindShortestSeparator c a b = Ret s /\ ok s /\ (length s <= length a)%nat /\
    ord a s <= 0 /\ ord s b < 0 /\ (s = a \/ forall k, ok k -> same k b -> ord s k < 0);
  tl_succ a : ok a -> exists s, tc_FindShortSuccessor c a = Ret s /\ ok s /\ (length s <= length a)%nat /\ ord a s <= 0;
}.

#[export] Instance table_key_order c ok ord same : TableComparatorLaws c ok ord same -> KeyOrder ok ord.
Proof. intros H. split; [apply tl_antisym|apply tl_trans]. Qed.

(** A lookup returns what was inserted under the key, if anything. *)
Class BlockCacheLaws (C : Type) `{BlockCache C} (holds : C -> bytes -> Block -> Prop) : Prop := {
  bl_lookup k c b c' : bc_Lookup k c = (Some b, c') -> holds c k b;
  bl_lookup_holds k c r c' k' b : bc_Lookup k c = (r, c') -> holds c' k' b -> holds c k' b;
  bl_insert k b n c k' b' : holds (bc_Insert k b n c) k' b' -> k' = k /\ b' = b \/ holds c k' b';
  bl_newid c i c' k b : bc_NewId c = (i, c') -> holds c' k b -> holds c k b;
}.

(** ** Lookups in a list of blocks *)

Section Order.
Context (c : TableComparator) (ok : bytes -> Prop) (ord : bytes -> bytes -> Z) (same : bytes -> bytes -> Prop) `{!TableComparatorLaws c ok ord same}.

#[local] Abbreviation ascending := (ascending ok ord).
#[local] Abbreviation rank := (rank ord).
#[local] Abbreviation below := (below ord).

(** A data block: its entries, the key of its index entry and its handle. *)
Record tblock := MkTBlock { tb_entries : list entry; tb_sep : bytes; tb_handle : BlockHandle }.

Definition entries (bs : list tblock) : list entry := concat (tb_entries <$> bs).
Definition index_entry (b : tblock) : entry := (tb_sep b, enc_handle (tb_handle b)).

Lemma entries_app bs bs' : entries (bs ++ bs') = entries bs ++ entries bs'.
Proof. unfold entries. by rewrite fmap_app, concat_app. Qed.

(** The key [s] separates the last entry [e] from what comes after it. *)
Definition sep_ok (e : entry) (s : bytes) (after : list entry) : Prop :=
  ok s /\ ord e.1 s <= 0 /\ forall f, head after = Some f -> ord s f.1 < 0 /\ (s = e.1 \/ forall k, ok k -> same k f.1 -> ord s k < 0).

Fixpoint separated (bs : list tblock) (rest : list entry) : Prop :=
  match bs with
  | [] => True
  | b :: bs' => (exists e, last (tb_entries b) = Some e /\ sep_ok e (tb_sep b) (entries bs' ++ rest)) /\ separated bs' rest
  end.

Lemma head_entries b bs rest e : last (tb_entries b) = Some e -> exists f, head (entries (b :: bs) ++ rest) = Some f /\ f ∈ tb_entries b.
Proof. intros Hl. unfold entries. cbn. destruct (tb_entries b) as [|f l]; [done|]. exists f. split; [done|by left]. Qed.

(** A key below what comes next is below all later entries and all later index keys. *)
Lemma below_later s bs rest : separated bs rest -> ascending (entries bs ++ rest) -> ok s ->
  (forall f, head (entries bs ++ rest) = Some f -> ord s f.1 < 0) ->
  Forall (fun f => ord s f.1 < 0) (entries bs ++ rest) /\ Forall (fun b => ord s (tb_sep b) < 0 /\ ok (tb_sep b)) bs.
Proof.
  intros Hsep Ha Hs Hh.
  assert (Forall (fun f => ord s f.1 < 0) (entries bs ++ rest)) as Hall.
  { destruct (head (entries bs ++ rest)) as [f|] eqn:Hf; [apply (below_first s _ f); [done|done|done|by apply Hh]|]. destruct (entries bs ++ rest); [constructor|done]. }
  split; [done|]. clear Hh. revert Hsep Ha Hall. induction bs as [|b bs IH]; intros Hsep Ha Hall; [constructor|].
  destruct Hsep as [(e & He & Hok & Hle & _) Hsep]. unfold entries in Ha, Hall. cbn in Ha, Hall. rewrite <- app_assoc in Ha, Hall.
  fold (entries bs) in Ha, Hall. apply Forall_app in Hall as [Hb Hall]. pose proof (ascending_app _ _ Ha) as (Hab & Har & _).
  constructor; [|by apply IH]. split; [|done]. assert (e ∈ tb_entries b) as Hin by (by apply last_Some_elem_of).
  apply (lt_le_lt s e.1); [done|by eapply (ascending_ok (tb_entries b))|done| |done]. by apply (proj1 (Forall_forall _ _) Hb).
Qed.

Lemma separated_last bs d rest : separated (bs ++ [d]) rest -> exists e, last (tb_entries d) = Some e /\ sep_ok e (tb_sep d) rest.
Proof. induction bs as [|b bs IH]; cbn; [by intros [H _]|intros [_ H]; by apply IH]. Qed.

Lemma separated_ok bs rest : separated bs rest -> Forall (fun b => ok (tb_sep b)) bs.
Proof. induction bs as [|b bs IH]; [constructor|]. intros [(e & _ & Hs) H]. constructor; [apply Hs|by apply IH]. Qed.

Lemma separated_snoc bs b e rest : separated bs (tb_entries b ++ rest) -> last (tb_entries b) = Some e -> sep_ok e (tb_sep b) rest -> separated (bs ++ [b]) rest.
Proof.
  intros Hs He Hsep. induction bs as [|d bs IH]; cbn.
  - split; [by exists e|done].
  - destruct Hs as [(f & Hf & Hd) Hs]. split; [|by apply IH]. exists f. split; [done|]. rewrite entries_app. unfold entries at 2. cbn.
    by rewrite app_nil_r, <- app_assoc.
Qed.

(** Index keys increase. *)
Lemma next_separator bs d es e s rest : separated (bs ++ [d]) (es ++ rest) -> ascending es -> last es = Some e -> ok s -> ord e.1 s <= 0 -> ord (tb_sep d) s < 0.
Proof.
  intros Hsep Ha He Hs Hle. destruct (separated_last _ _ _ Hsep) as (e' & _ & Hok & _ & Hnext). destruct es as [|f es]; [done|].
  destruct (Hnext f eq_refl) as [Hlt _]. assert (e ∈ f :: es) as Hin by (by apply last_Some_elem_of).
  assert (ok f.1) by (eapply (ascending_ok (f :: es)); [done|by left]). assert (ok e.1) by (by eapply (ascending_ok (f :: es))).
  apply (lt_le_lt _ f.1); [done..|]. apply (ord_le_trans _ e.1); [done..| |done]. apply (last_greatest (f :: es)); [done|done|by left].
Qed.

Lemma separated_count bs rest : separated bs rest -> (length bs <= length (entries bs))%nat.
Proof.
  induction bs as [|b bs IH]; [done|]. intros [(e & He & _) Hs]. unfold entries in *. cbn. rewrite length_app. specialize (IH Hs).
  destruct (tb_entries b); [done|cbn; lia].
Qed.

Lemma separated_index bs rest : separated bs rest -> ascending (entries bs ++ rest) -> ascending (index_entry <$> bs).
Proof.
  intros Hsep Ha. split; [rewrite <- list_fmap_compose; apply Forall_fmap; by eapply separated_ok|].
  revert Hsep Ha. induction bs as [|b bs IH]; intros [(e & He & Hok & Hle & Hnext) Hsep] Ha || intros Hsep Ha; [constructor|].
  change (entries (b :: bs)) with (tb_entries b ++ entries bs) in Ha. rewrite <- app_assoc in Ha. apply ascending_app in Ha as (_ & Ha & _).
  cbn [fmap list_fmap]. constructor; [by apply IH|]. destruct (below_later (tb_sep b) bs rest Hsep Ha Hok) as [_ Hs]; [intros f Hf; by apply Hnext|].
  apply Forall_fmap. eapply Forall_impl; [exact Hs|]. by intros b' [? _].
Qed.

(** The first block is all below the key, and the index goes past it; or nothing after it
    is below the key, and the index stops at it. *)
Lemma lookup_first k b bs : separated (b :: bs) [] -> ascending (tb_entries b ++ entries bs) -> ok k ->
  ord (tb_sep b) k < 0 /\ rank k (index_entry <$> b :: bs) = S (rank k (index_entry <$> bs)) /\ rank k (tb_entries b) = length (tb_entries b) \/
  ~ ord (tb_sep b) k < 0 /\ rank k (index_entry <$> b :: bs) = 0%nat /\ rank k (entries bs) = 0%nat.
Proof.
  intros [(e & He & Hok & Hle & Hnext) Hsep] Ha Hk. rewrite app_nil_r in Hnext.
  pose proof (ascending_app _ _ Ha) as (Hab & Har & _). assert (e ∈ tb_entries b) as Hin by (by apply last_Some_elem_of).
  assert (ok e.1) as Hoke by (by eapply (ascending_ok (tb_entries b))). destruct (decide (ord (tb_sep b) k < 0)) as [Hlt|Hge]; [left|right].
  - split_and!; [done|rewrite fmap_cons; unfold rank; by rewrite filter_cons_True by done|]. apply rank_all, Forall_forall. intros g Hg.
    assert (ok g.1) by (by eapply (ascending_ok (tb_entries b))).
    apply (le_lt_lt g.1 e.1 k); [done|done|done|by apply (last_greatest (tb_entries b))|]. by apply (le_lt_lt e.1 (tb_sep b) k).
  - destruct (below_later (tb_sep b) bs [] Hsep) as [Hall Hseps]; [by rewrite app_nil_r|done|rewrite app_nil_r; intros g Hg; by apply Hnext|]. rewrite app_nil_r in Hall.
    split_and!; [done| |].
    + apply rank_none. constructor; [done|]. apply Forall_fmap. eapply Forall_impl; [exact Hseps|]. intros b' [Hb' Hok'] Hlt.
      apply Hge. by apply (ord_lt_trans (tb_sep b) (tb_sep b') k).
    + apply rank_none, Forall_forall. intros g Hg Hlt. assert (ok g.1) by (by eapply (ascending_ok (entries bs))).
      pose proof (proj1 (Forall_forall _ _) Hall g Hg). apply Hge. by apply (ord_lt_trans (tb_sep b) g.1 k).
Qed.

(** The position of a key among all the entries. *)
Lemma lookup_rank k bs : separated bs [] -> ascending (entries bs) -> ok k ->
  rank k (entries bs) = (length (entries (take (rank k (index_entry <$> bs)) bs)) +
    match bs !! rank k (index_entry <$> bs) with Some b => rank k (tb_entries b) | None => 0 end)%nat.
Proof.
  intros Hsep Ha Hk. induction bs as [|b bs IH]; [done|]. change (entries (b :: bs)) with (tb_entries b ++ entries bs) in *. rewrite rank_app.
  destruct (lookup_first k b bs Hsep Ha Hk) as [(_ & -> & ->)|(_ & -> & ->)].
  - change ((b :: bs) !! S (rank k (index_entry <$> bs))) with (bs !! rank k (index_entry <$> bs)).
    change (entries (take (S (rank k (index_entry <$> bs))) (b :: bs))) with (tb_entries b ++ entries (take (rank k (index_entry <$> bs)) bs)).
    rewrite length_app, <- Nat.add_assoc, <- IH; [done|apply Hsep|]. by apply ascending_app in Ha as (_ & Ha & _).
  - cbn. lia.
Qed.

(** Where a key leads: to no block when all entries are below it; otherwise to the block
    with the first entry that is not, or to the one before when its separator is not
    below the key, and then that entry is not what is looked for. *)
Lemma lookup_block k bs : separated bs [] -> ascending (entries bs) -> ok k ->
  match bs !! rank k (index_entry <$> bs) with
  | None => rank k (entries bs) = length (entries bs)
  | Some b => ascending (tb_entries b) /\
      (rank k (tb_entries b) < length (tb_entries b) /\ entries bs !! rank k (entries bs) = tb_entries b !! rank k (tb_entries b) \/
       rank k (tb_entries b) = length (tb_entries b) /\ forall f, entries bs !! rank k (entries bs) = Some f -> ~ same k f.1)%nat
  end.
Proof.
  intros Hsep Ha Hk. induction bs as [|b bs IH]; [done|]. change (entries (b :: bs)) with (tb_entries b ++ entries bs) in *. rewrite rank_app.
  pose proof (ascending_app _ _ Ha) as (Hab & Har & _). destruct (lookup_first k b bs Hsep Ha Hk) as [(_ & -> & ->)|(Hge & -> & ->)].
  - change ((b :: bs) !! S (rank k (index_entry <$> bs))) with (bs !! rank k (index_entry <$> bs)). specialize (IH (proj2 Hsep) Har).
    destruct (bs !! rank k (index_entry <$> bs)) as [b'|].
    + rewrite lookup_app_r by lia. by replace (length (tb_entries b) + rank k (entries bs) - length (tb_entries b))%nat with (rank k (entries bs)) by lia.
    + rewrite length_app. lia.
  - cbn [lookup list_lookup]. rewrite Nat.add_0_r. split; [done|]. pose proof (rank_le ord k (tb_entries b)).
    destruct (decide (rank k (tb_entries b) = length (tb_entries b))) as [E|E]; [|left; split; [lia|by rewrite lookup_app_l by lia]].
    right. split; [done|]. intros f Hf Hsame. rewrite E, lookup_app_r, Nat.sub_diag in Hf by lia. destruct Hsep as [(e & He & Hok & _ & Hnext) _]. rewrite app_nil_r in Hnext.
    assert (head (entries bs) = Some f) as Hh by (by destruct (entries bs)). apply Hge. destruct (Hnext f Hh) as [_ [->|Hsep']]; [|by apply Hsep'].
    assert (e ∈ tb_entries b) as Hin by (by apply last_Some_elem_of). by apply (rank_full k (tb_entries b)).
Qed.
End Order.

(** ** Blocks in a file *)

Section Layout.
Context (snappy : option snappy_lib) (Hsnappy : forall s, snappy = Some s -> snappy_ok s) (addr : Z) (Haddr : 0 <= addr).

(** The bytes at a handle unpack to [raw]. *)
Definition stored_as (contents : bytes) (h : BlockHandle) (raw : bytes) : Prop :=
  exists pre t c post, contents = pre ++ stored t c ++ post /\ h = MkHandle (Z.of_nat (length pre)) (Z.of_nat (length c)) /\ unpacks snappy t c raw.

(** The block at a handle has these entries. *)
Definition stored_block (contents : bytes) (h : BlockHandle) (es : list (bytes * bytes)) : Prop :=
  exists xs rs, stored_as contents h (body xs ++ restart_array rs) /\ block_rep xs rs /\ entry_of <$> xs = es.

Lemma stored_as_app contents more h raw : stored_as contents h raw -> stored_as (contents ++ more) h raw.
Proof. intros (pre & t & c & post & -> & -> & Hu). exists pre, t, c, (post ++ more). by rewrite <- !app_assoc. Qed.

Lemma stored_block_app contents more h es : stored_block contents h es -> stored_block (contents ++ more) h es.
Proof. intros (xs & rs & Hs & H). exists xs, rs. split; [by apply stored_as_app|done]. Qed.

Lemma stored_handle contents h raw : stored_as contents h raw -> Z.of_nat (length contents) < unset64 ->
  handle_ok h /\ TableFormat.offset_ h + TableFormat.size_ h + 5 <= Z.of_nat (length contents).
Proof.
  intros (pre & t & c & post & -> & -> & _) Hl. rewrite !length_app, stored_length in *. unfold handle_ok. cbn. lia.
Qed.

Lemma read_stored_as {F} `{RandomAccessFile F} (f : F) contents h raw verify : reads_as f contents -> Z.of_nat (length contents) < unset64 -> stored_as contents h raw ->
  exists b, ReadBlock snappy addr f verify h = Ret (OK, b) /\ data b = raw.
Proof.
  intros Hf Hl (pre & t & c & post & -> & -> & Hu). rewrite !length_app, stored_length in Hl. unfold unset64 in Hl.
  apply (read_stored snappy addr f pre t c raw post verify Haddr Hf); [lia|done].
Qed.

Lemma compress_ok type raw : type = kNoCompression \/ type = kSnappyCompression ->
  exists c t, TB.compress snappy type raw = (c, t) /\ unpacks snappy t c raw /\ (length c <= length raw)%nat.
Proof.
  intros [->| ->]; unfold TB.compress; cbn [Z.eqb kNoCompression kSnappyCompression].
  - exists raw, kNoCompression. split_and!; [done|by left|lia].
  - destruct snappy as [s|] eqn:Es; cbn [Snappy_Compress].
    + destruct (Nat.ltb_spec (length (RawCompress s raw)) (length raw - length raw / 8)).
      * exists (RawCompress s raw), kSnappyCompression. split_and!; [done| |lia]. right. destruct (Hsnappy s eq_refl raw). by split_and!.
      * exists raw, kNoCompression. split_and!; [done|by left|lia].
    + exists raw, kNoCompression. split_and!; [done|by left|lia].
Qed.

Lemma write_raw (r : TB.Rep bytes) c t : TB.status r = OK -> TB.offset r = Z.of_nat (length (TB.file r)) ->
  Z.of_nat (length (TB.file r ++ stored t c)) < 2 ^ 64 ->
  TB.WriteRawBlock addr c t r = Ret (MkHandle (Z.of_nat (length (TB.file r))) (Z.of_nat (length c)),
    TB.set_file r (TB.file r ++ stored t c) (Z.of_nat (length (TB.file r ++ stored t c))) OK).
Proof.
  intros Hs Ho Hl. rewrite length_app, stored_length in Hl. unfold TB.WriteRawBlock. cbn [wf_Append bytes_writable]. change (ok OK) with true. cbn match.
  unfold Value. rewrite extend_ok by lia. run. rewrite extend_ok by (done || apply crc_ref_range; lia). run. rewrite crc_ref_app, Ho.
  f_equal. f_equal. unfold stored. rewrite <- app_assoc. cbn [app]. f_equal. unfold kBlockTrailerSize. rewrite u64_small by lia. repeat (rewrite length_app; cbn [length]).
  change (length (EncodeFixed32 true _)) with 4%nat. lia.
Qed.

Lemma write_block (r : TB.Rep bytes) interval xs b : TB.status r = OK -> TB.offset r = Z.of_nat (length (TB.file r)) ->
  compression (TB.options r) = kNoCompression \/ compression (TB.options r) = kSnappyCompression ->
  builder_rep interval xs b -> Z.of_nat (block_room (entry_of <$> xs)) < 2 ^ 32 -> Z.of_nat (length (TB.file r)) < 2 ^ 63 ->
  exists h extra, TB.WriteBlock snappy addr b r = Ret (h, TB.set_file r (TB.file r ++ extra) (Z.of_nat (length (TB.file r ++ extra))) OK) /\
    stored_block (TB.file r ++ extra) h (entry_of <$> xs) /\ TableFormat.offset_ h = Z.of_nat (length (TB.file r)) /\
    (length extra <= block_room (entry_of <$> xs) + 5)%nat /\ (5 <= length extra)%nat.
Proof.
  intros Hs Ho Hc Hb Hroom Hfile. destruct (finish_rep interval xs b Hb Hroom) as (rs & Ef & Hrep & Hlen).
  destruct (compress_ok (compression (TB.options r)) (body xs ++ restart_array rs) Hc) as (c & t & Ec & Hu & Hl).
  unfold TB.WriteBlock. rewrite Hs, Ef, Ec. change (ok OK) with true. cbn match. rewrite write_raw by (done || (rewrite length_app, stored_length; lia)).
  eexists _, (stored t c). rewrite stored_length. split_and!; [reflexivity| |done|lia|lia]. exists xs, rs. split_and!; [|done|done].
  exists (TB.file r), t, c, []. by rewrite app_nil_r.
Qed.
End Layout.

(** ** The builder's invariant *)

Section Building.
Context (snappy : option snappy_lib) (Hsnappy : forall s, snappy = Some s -> snappy_ok s) (addr : Z) (Haddr : 0 <= addr).
Context (opts : Options) (ok : bytes -> Prop) (ord : bytes -> bytes -> Z) (same : bytes -> bytes -> Prop)
  `{!TableComparatorLaws (comparator opts) ok ord same} (capacity rate : nat).

(** Options that a table can be built with. *)
Record options_ok : Prop := {
  oo_interval : 1 <= block_restart_interval opts;
  oo_compression : compression opts = kNoCompression \/ compression opts = kSnappyCompression;
  oo_filter : forall p, filter_policy opts = Some p -> FilterLaws p ok same capacity rate;
  oo_capacity : Z.of_nat capacity < 2 ^ 31;
}.

Context (Hopts : options_ok).

Abbreviation entry := (bytes * bytes)%type.

(** Room for the data blocks of some entries, and for a whole table. *)
Definition data_room (es : list entry) : nat := foldr (fun e n => length e.1 + length e.2 + 32 + n)%nat 0%nat es.

Definition table_room (es : list entry) : nat :=
  (3 * data_room es + (rate + 50) * length es + match filter_policy opts with Some p => length (fp_Name p) | None => 0 end + 300)%nat.

(** The filter builder has the keys of each block under the block's offset. *)
Definition filter_rep (blocks : list tblock) (cur : list entry) (r : TB.Rep bytes) : Prop :=
  match filter_policy opts, TB.filter_block r with
  | None, None => True
  | Some p, Some (p', fb) => p' = p /\ exists gs g, fb_state p ok same capacity rate (gs ++ [g]) fb /\
      length gs = filter_index (TB.offset r) /\ length (concat (gs ++ [g])) = length (entries blocks ++ cur) /\
      (forall b e, b ∈ blocks -> e ∈ tb_entries b -> assigned (gs ++ [g]) (TableFormat.offset_ (tb_handle b)) e.1) /\
      (forall e, e ∈ cur -> assigned (gs ++ [g]) (TB.offset r) e.1)
  | _, _ => False
  end.

(** [done] blocks are written and indexed, [pend] is written, [cur] is in the data block,
    [rest] is to come. *)
Record tb_core (done : list tblock) (pend : option tblock) (cur rest : list entry) (r : TB.Rep bytes) : Prop := {
  tr_options : TB.options r = opts;
  tr_status : TB.status r = OK;
  tr_open : TB.closed r = false;
  tr_offset : TB.offset r = Z.of_nat (length (TB.file r));
  tr_stored : Forall (fun b => stored_block snappy (TB.file r) (tb_handle b) (tb_entries b)) (done ++ option_list pend);
  tr_offsets : StronglySorted Z.lt ((TableFormat.offset_ ∘ tb_handle <$> done ++ option_list pend) ++ [TB.offset r]);
  tr_data : exists xs, builder_rep (block_restart_interval opts) xs (TB.data_block r) /\ entry_of <$> xs = cur;
  tr_index : exists ixs, builder_rep 1 ixs (TB.index_block r) /\ entry_of <$> ixs = index_entry <$> done;
  tr_num : TB.num_entries r = Z.of_nat (length (entries (done ++ option_list pend) ++ cur));
  tr_pending : TB.pending_index_entry r = bool_decide (is_Some pend);
  tr_handle : forall b, pend = Some b -> TB.pending_handle r = tb_handle b /\ tb_entries b <> [] /\ cur = [];
  tr_separated : separated ok ord same done (entries (option_list pend) ++ cur ++ rest);
  tr_short : (length (concat (tb_sep <$> done)) <= data_room (entries done))%nat;
  tr_filter : filter_rep (done ++ option_list pend) cur r;
  tr_room : (length (TB.file r) <= data_room (entries (done ++ option_list pend)))%nat;
}.

(** All the entries of the table. *)
Definition all_entries (done : list tblock) (pend : option tblock) (cur rest : list entry) : list entry :=
  entries (done ++ option_list pend) ++ cur ++ rest.

Lemma data_room_app es es' : data_room (es ++ es') = (data_room es + data_room es')%nat.
Proof. unfold data_room. induction es as [|e es IH]; cbn; lia. Qed.

Lemma data_room_count es : (32 * length es <= data_room es)%nat.
Proof. unfold data_room. induction es as [|e es IH]; cbn; lia. Qed.

Lemma table_room_data es : (3 * data_room es + 300 <= table_room es)%nat.
Proof. unfold table_room. generalize ((rate + 50) * length es)%nat. intros n. case_match; lia. Qed.

Lemma block_room_data es : es <> [] -> (block_room es + 5 <= data_room es)%nat.
Proof.
  destruct es as [|e es]; [done|intros _]. unfold block_room, data_room. cbn.
  induction es as [|f es IH]; cbn in *; lia.
Qed.

Lemma new_core es : exists r, TB.new opts [] = Ret r /\ tb_core [] None [] es r.
Proof.
  destruct Hopts as [Hi _ Hf Hcap]. unfold TB.new. destruct (builder_new_rep (block_restart_interval opts) Hi) as (b & E & Hb). rewrite E. run.
  assert (builder_rep 1 [] b) as Hb1.
  { destruct (builder_new_rep 1 ltac:(lia)) as (b1 & E1 & Hb1). unfold Builder.new in E, E1. rewrite (proj2 (Z.leb_le _ _)) in E by lia. 
    rewrite (proj2 (Z.leb_le _ _)) in E1 by lia. by simplify_eq. }
  destruct (filter_policy opts) as [p|] eqn:Ep.
  - destruct (start_block_assigns p ok same capacity rate (FilterLaws0 := Hf p eq_refl) Hcap [[]] FilterBlockBuilder_new 0 (fb_new p ok same capacity rate))
      as (gs & g & fb & -> & Hfb & Hgl & Hgc & _); [cbn; lia|lia|]. run.
    eexists. split; [reflexivity|]. split; cbn; try done; try (by repeat constructor).
    + exists []. done.
    + by exists [].
    + unfold filter_rep. rewrite Ep. cbn. split; [done|]. exists gs, g. split_and!; [done|done|done| |].
      * by intros ? ? ?%not_elem_of_nil.
      * by intros ? ?%not_elem_of_nil.
  - run. eexists. split; [reflexivity|]. split; cbn; try done; try (by repeat constructor).
    + by exists [].
    + by exists [].
    + unfold filter_rep. by rewrite Ep.
Qed.

(** Starting a block at a later offset keeps what the filters have. *)
Lemma start_filter_rep blocks blocks' cur (r r' : TB.Rep bytes) : filter_rep blocks cur r -> TB.filter_block r' = TB.filter_block r ->
  0 <= TB.offset r <= TB.offset r' -> length (entries blocks') = length (entries blocks ++ cur) ->
  (forall b e, b ∈ blocks' -> e ∈ tb_entries b -> b ∈ blocks \/ e ∈ cur /\ TableFormat.offset_ (tb_handle b) = TB.offset r) ->
  exists fb, TB.start_filter (TB.offset r') r' = Ret (TB.set_filter r' fb) /\ filter_rep blocks' [] (TB.set_filter r' fb).
Proof.
  intros Hf Hfb Ho Hlen Hin. unfold TB.start_filter, filter_rep in *. rewrite Hfb. cbn [TB.filter_block TB.set_filter TB.offset].
  destruct (filter_policy opts) as [p|] eqn:Ep, (TB.filter_block r) as [[p' fb]|] eqn:Er; try done.
  2:{ exists None. split; [|done]. destruct r'; cbn in *. by subst. }
  destruct Hf as (-> & gs & g & Hfb' & Hl & Hc & Hb & Hcur).
  pose proof (filter_index_mono (TB.offset r) (TB.offset r') ltac:(lia) ltac:(lia)) as Hmono.
  destruct (start_block_assigns p ok same capacity rate (FilterLaws0 := oo_filter Hopts p Ep) (oo_capacity Hopts) (gs ++ [g]) fb (TB.offset r') Hfb')
    as (gs' & g' & fb' & -> & Hfb2 & Hl' & Hc' & Ha); [rewrite length_app; cbn; lia|lia|]. run.
  eexists. split; [reflexivity|]. split; [done|]. exists gs', g'. split_and!; [done|done|rewrite app_nil_r; lia| |by intros ? ?%not_elem_of_nil].
  intros b e Hbin He. apply Ha. destruct (Hin b e Hbin He) as [Hold|[Hc1 ->]]; [by apply Hb|by apply Hcur].
Qed.

Lemma sorted_snoc (l : list Z) a b : StronglySorted Z.lt (l ++ [a]) -> a < b -> StronglySorted Z.lt ((l ++ [a]) ++ [b]).
Proof.
  intros Hs Hab. apply StronglySorted_app_2; [|done|by repeat constructor]. intros x y Hx Hy. apply list_elem_of_singleton in Hy as ->.
  apply elem_of_app in Hx as [Hx|Hx]; [|apply list_elem_of_singleton in Hx as ->; done].
  assert (x < a) by (eapply (StronglySorted_app_1_elem_of Z.lt); [exact Hs|done|by left]). lia.
Qed.

Lemma flush_core done cur rest r : tb_core done None cur rest r -> cur <> [] -> Z.of_nat (data_room (entries done ++ cur)) < 2 ^ 32 ->
  exists b r', TB.Flush snappy addr r = Ret r' /\ tb_entries b = cur /\ tb_core done (Some b) [] rest r' /\ TB.last_key r' = TB.last_key r.
Proof.
  intros Hr Hne Hroom. pose proof Hr as [Hop Hst Hcl Hoff Hsto Hso (xs & Hxs & Hcur) Hix Hnum Hpend Hh Hsep Hshort Hfil Hfr].
  cbn [option_list] in *. rewrite app_nil_r in *. rewrite data_room_app in Hroom. pose proof (block_room_data cur Hne) as Hbr.
  destruct (write_block snappy Hsnappy addr Haddr r (block_restart_interval opts) xs (TB.data_block r)) as (h & extra & E & Hstored & Hho & Hel & Hel2);
    [done|done|rewrite Hop; apply Hopts|done|rewrite Hcur; lia|lia|]. rewrite Hcur in *.
  unfold TB.Flush. rewrite Hcl, Hst, Hpend. change (Status.ok OK) with true. cbn [negb].
  assert (TB.empty (TB.data_block r) = false) as ->.
  { unfold TB.empty. rewrite (b_buffer _ _ _ Hxs). apply bool_decide_eq_false. intros Hb. pose proof (body_count xs (b_chained _ _ _ Hxs)) as Hbc.
    rewrite Hb in Hbc. destruct xs; [by subst|cbn in Hbc; lia]. }
  change (negb (bool_decide (is_Some None))) with true. cbn match. rewrite E. run. change (Status.ok OK) with true. cbn match.
  match goal with |- context [TB.start_filter _ ?x] => set (r2 := x) end. set (b := MkTBlock cur [] h).
  assert (entries (done ++ [b]) = entries done ++ cur) as Hes by (rewrite entries_app; unfold entries at 2; cbn; by rewrite app_nil_r).
  destruct (start_filter_rep done (done ++ [b]) cur r r2 Hfil eq_refl) as (fb & E2 & Hf2).
  { cbn. rewrite Hoff, length_app. lia. }
  { by rewrite Hes. }
  { intros b' e [Hb'|Hb']%elem_of_app He; [by left|]. apply list_elem_of_singleton in Hb' as ->. right. by rewrite Hoff. }
  exists b, (TB.set_filter r2 fb). rewrite E2. split_and!; [done|done| |done].
  split; cbn [option_list TB.options TB.status TB.closed TB.offset TB.file TB.set_filter TB.data_block TB.index_block TB.num_entries TB.pending_index_entry TB.pending_handle r2 TB.set_file TB.set_pending TB.set_data]; try done; change (option_list (Some b)) with [b].
  - apply Forall_app. split; [|by repeat constructor]. eapply Forall_impl; [exact Hsto|]. intros b' Hb'. by apply stored_block_app.
  - rewrite fmap_app. change (TableFormat.offset_ ∘ tb_handle <$> [b]) with [TableFormat.offset_ h]. rewrite Hho, <- Hoff. apply sorted_snoc; [done|]. cbn. rewrite Hoff, length_app. lia.
  - exists []. split; [|done]. destruct (builder_new_rep (block_restart_interval opts) (oo_interval Hopts)) as (b0 & E0 & Hb0).
    unfold Builder.new in E0. rewrite (proj2 (Z.leb_le _ _)) in E0 by apply Hopts. by simplify_eq.
  - by rewrite Hes, app_nil_r.
  - intros b' Hb'. injection Hb' as <-. done.
  - change (entries [b] ++ [] ++ rest) with ((cur ++ []) ++ rest). by rewrite app_nil_r.
  - rewrite Hes, data_room_app. change (TB.file r2) with (TB.file r ++ extra). rewrite length_app. lia.
Qed.

Lemma index_room bs : (block_room (index_entry <$> bs) <= length (concat (tb_sep <$> bs)) + 39 * length bs + 8)%nat.
Proof.
  unfold block_room. induction bs as [|b bs IH]; cbn [fmap list_fmap foldr concat length]; [lia|]. rewrite length_app. cbn [index_entry fst snd].
  pose proof (enc_handle_length (tb_handle b)). unfold index_entry in *. cbn [fst snd] in *. lia.
Qed.

(** Adding an entry to a block builder. *)
Lemma add_to_block interval xs b es key value : 1 <= interval -> builder_rep interval xs b -> entry_of <$> xs = es -> Forall ok es.*1 -> ok key ->
  (forall f, last es = Some f -> ord f.1 key < 0) -> Z.of_nat (block_room (es ++ [(key, value)])) < 2 ^ 32 ->
  exists xs' b', Builder.Add (tc_Compare (comparator opts)) interval key value b = Ret b' /\ builder_rep interval xs' b' /\ entry_of <$> xs' = es ++ [(key, value)].
Proof.
  intros Hi Hb <- Hoks Hk Hlast Hroom. pose proof (body_room xs (b_chained _ _ _ Hb)) as Hbody. pose proof (block_room_app (entry_of <$> xs) [(key, value)]) as Hra.
  cbn in Hra. rewrite fst_entry, Forall_fmap in Hoks.
  destruct (add_builder (tc_Compare (comparator opts)) ok ord tl_compare tl_antisym interval Hi xs b key value Hb Hoks Hk) as (x & b' & E & Hx & Hb'); [|lia|lia|lia|].
  - intros x Hx. apply (Hlast (entry_of x)). by rewrite fmap_last, Hx.
  - exists (xs ++ [x]), b'. split_and!; [done|done|]. by rewrite fmap_app; cbn; rewrite Hx.
Qed.

(** The index entry of the block that waits for one. *)
Lemma index_core done b e rest r s : tb_core done (Some b) [] rest r -> ascending ok ord (all_entries done (Some b) [] rest) ->
  last (tb_entries b) = Some e -> sep_ok ok ord same e s rest -> (length s <= length e.1)%nat ->
  Z.of_nat (table_room (all_entries done (Some b) [] rest)) < 2 ^ 32 ->
  exists r', TB.add_index_entry s r = Ret r' /\ tb_core (done ++ [MkTBlock (tb_entries b) s (tb_handle b)]) None [] rest r'.
Proof.
  intros Hr Ha He Hs Hsl Hroom. pose proof Hr as [Hop Hst Hcl Hoff Hsto Hso Hdata (ixs & Hixs & Eix) Hnum Hpend Hh Hsep Hshort Hfil Hfr].
  change (option_list (Some b)) with [b] in *. destruct (Hh b eq_refl) as (Hph & Hbne & _).
  pose proof (table_room_data (all_entries done (Some b) [] rest)) as Htr.
  unfold all_entries in Htr at 1. rewrite data_room_app in Htr. change (option_list (Some b)) with [b] in Htr.
  rewrite entries_app in Htr, Hfr. change (entries [b]) with (tb_entries b ++ []) in *. rewrite app_nil_r in *. rewrite data_room_app in *.
  assert (stored_block snappy (TB.file r) (tb_handle b) (tb_entries b)) as (bxs & brs & Hsa & _)
    by (apply (proj1 (Forall_forall _ _) Hsto); apply elem_of_app; right; by left).
  destruct (stored_handle snappy _ _ _ Hsa) as [Hhok _]; [unfold unset64; lia|].
  unfold TB.add_index_entry. rewrite Hph, handle_encode by done. run. rewrite app_nil_l.
  pose proof (separated_ok _ _ _ _ _ Hsep) as Hoks. pose proof (separated_count _ _ _ _ _ Hsep) as Hcount.
  pose proof (index_room (done ++ [MkTBlock (tb_entries b) s (tb_handle b)])) as Hir. pose proof (data_room_count (entries done)) as Hdc.
  assert (length e.1 + 32 <= data_room (tb_entries b))%nat as Hel.
  { apply last_Some in He as [l ->]. rewrite data_room_app. cbn. lia. }
  rewrite !fmap_app, concat_app, !length_app in Hir. change (concat (tb_sep <$> [MkTBlock (tb_entries b) s (tb_handle b)])) with (s ++ []) in Hir.
  rewrite app_nil_r in Hir. cbn [length] in Hir.
  assert (ascending ok ord (tb_entries b)) as Hab.
  { unfold all_entries in Ha. change (option_list (Some b)) with [b] in Ha. rewrite entries_app in Ha. change (entries [b]) with (tb_entries b ++ []) in Ha.
    rewrite app_nil_r, <- app_assoc in Ha. apply ascending_app in Ha as (_ & Ha & _). by apply ascending_app in Ha as (Ha & _). }
  destruct (add_to_block 1 ixs (TB.index_block r) (index_entry <$> done) s (enc_handle (tb_handle b))) as (ixs' & ib & Eib & Hib & Eixs); try done.
  - rewrite <- list_fmap_compose. by apply Forall_fmap.
  - apply Hs.
  - intros f Hf. rewrite fmap_last in Hf. destruct (last done) as [d|] eqn:Hd; [|done]. injection Hf as <-. cbn. apply last_Some in Hd as [l ->].
    apply (next_separator (comparator opts) ok ord same l d (tb_entries b) e s ([] ++ rest)); try done; apply Hs.
  - change (index_entry <$> [MkTBlock (tb_entries b) s (tb_handle b)]) with [(s, enc_handle (tb_handle b))] in Hir. lia.
  - unfold TB.compare. rewrite Hop, Eib. run. eexists. split; [reflexivity|]. set (b' := MkTBlock (tb_entries b) s (tb_handle b)).
    assert (entries (done ++ [b']) = entries (done ++ [b])) as Hes by (by rewrite !entries_app).
    split; cbn [TB.options TB.status TB.closed TB.offset TB.file TB.data_block TB.index_block TB.num_entries TB.pending_index_entry TB.pending_handle TB.set_pending TB.set_index TB.set_last];
      change (option_list (@None tblock)) with (@nil tblock); rewrite ?app_nil_r; try done.
    + apply Forall_app. apply Forall_app in Hsto as [H1 H2]. split; [done|]. by inversion H2; constructor.
    + by rewrite !fmap_app in Hso |- *.
    + exists ixs'. split; [done|]. by rewrite fmap_app.
    + by rewrite Hes.
    + by apply (separated_snoc ok ord same done b' e rest).
    + rewrite fmap_app, concat_app, length_app, Hes, entries_app, data_room_app. change (concat (tb_sep <$> [b'])) with (s ++ []).
      change (entries [b]) with (tb_entries b ++ []). rewrite !app_nil_r. lia.
    + unfold filter_rep in *. rewrite Hes. cbn [TB.filter_block TB.offset TB.set_pending TB.set_index TB.set_last].
      destruct (filter_policy opts), (TB.filter_block r) as [[p' fb]|]; try done. destruct Hfil as (-> & gs & g & H1 & H2 & H3 & H4 & H5).
      split; [done|]. exists gs, g. split_and!; [done|done|done| |done].
      intros d f [Hd|Hd]%elem_of_app Hf; [apply H4; [apply elem_of_app; by left|done]|]. apply list_elem_of_singleton in Hd as ->.
      apply (H4 b); [apply elem_of_app; right; by left|done].
    + rewrite Hes, entries_app, data_room_app. change (entries [b]) with (tb_entries b ++ []). by rewrite app_nil_r.
Qed.

(** The last key is the builder's. *)
Definition last_ok (es : list entry) (r : TB.Rep bytes) : Prop := forall f, last es = Some f -> TB.last_key r = f.1.

Lemma add_filter_rep blocks cur e (r r' : TB.Rep bytes) : filter_rep blocks cur r -> ok e.1 -> (length (entries blocks ++ cur) < capacity)%nat ->
  TB.offset r' = TB.offset r -> TB.filter_block r' = match TB.filter_block r with Some (p, fb) => Some (p, AddKey e.1 fb) | None => None end ->
  filter_rep blocks (cur ++ [e]) r'.
Proof.
  intros Hf Hk Hcap Ho Hfb. unfold filter_rep in *. rewrite Hfb. destruct (filter_policy opts) as [p|] eqn:Ep, (TB.filter_block r) as [[p' fb]|]; try done.
  destruct Hf as (-> & gs & g & H1 & H2 & H3 & H4 & H5). split; [done|]. rewrite Ho.
  destruct (add_key_assigns p ok same capacity rate gs g fb e.1 H1 Hk) as [H6 H7].
  { rewrite concat_app, length_app in H3. cbn in H3. rewrite app_nil_r in H3. lia. }
  exists gs, (g ++ [e.1]). split_and!; [done|done| | |].
  - rewrite concat_app, length_app in H3 |- *. cbn in H3 |- *. rewrite app_nil_r, !length_app in *. cbn. lia.
  - intros b f Hb Hf. by apply assigned_snoc, H4.
  - intros f [Hf|Hf]%elem_of_app; [by apply assigned_snoc, H5|]. apply list_elem_of_singleton in Hf as ->. by apply H7.
Qed.

Lemma add_data_core done cur e rest r : tb_core done None cur (e :: rest) r -> ascending ok ord (all_entries done None cur (e :: rest)) ->
  Z.of_nat (table_room (all_entries done None cur (e :: rest))) < 2 ^ 32 -> (length (all_entries done None cur (e :: rest)) <= capacity)%nat ->
  exists pend' cur' r', TB.add_data snappy addr e.1 e.2 r = Ret r' /\ tb_core done pend' cur' rest r' /\
    last_ok (entries (done ++ option_list pend') ++ cur') r' /\ (pend' = None -> cur' <> []) /\
    all_entries done pend' cur' rest = all_entries done None cur (e :: rest).
Proof.
  intros Hr Ha Hroom Hcap. pose proof Hr as [Hop Hst Hcl Hoff Hsto Hso (xs & Hxs & Hcur) Hix Hnum Hpend Hh Hsep Hshort Hfil Hfr].
  pose proof (table_room_data (all_entries done None cur (e :: rest))) as Htr.
  change (option_list (@None tblock)) with (@nil tblock) in *. rewrite app_nil_r in *. unfold all_entries in *. change (option_list (@None tblock)) with (@nil tblock) in *.
  rewrite app_nil_r in *. rewrite !data_room_app in Htr. change (data_room (e :: rest)) with (length e.1 + length e.2 + 32 + data_room rest)%nat in Htr.
  pose proof (ascending_app _ _ Ha) as (_ & Ha2 & _). pose proof (ascending_app _ _ Ha2) as (Hacur & Ha3 & Hlt).
  assert (ok e.1) as Hoke by (eapply (ascending_ok (e :: rest)); [done|by left]).
  destruct (add_to_block (block_restart_interval opts) xs (TB.data_block r) cur e.1 e.2) as (xs' & db & Edb & Hdb & Exs'); try done.
  { apply Hopts. }
  { apply Hacur. }
  { intros f Hf. apply Hlt; [by apply last_Some_elem_of|by left]. }
  { pose proof (block_room_data (cur ++ [(e.1, e.2)])) as Hbr. rewrite data_room_app in Hbr. cbn in Hbr. specialize (Hbr ltac:(by destruct cur)). lia. }
  replace (e.1, e.2) with e in Exs' by (by destruct e).
  unfold TB.add_data. set (r1 := match TB.filter_block r with Some (p, fb) => _ | None => r end).
  assert (r1 = TB.set_filter r match TB.filter_block r with Some (p, fb) => Some (p, AddKey e.1 fb) | None => None end) as ->
    by (unfold r1; destruct (TB.filter_block r) as [[p fb]|] eqn:Ef; [done|destruct r; cbn in *; by subst]).
  unfold TB.compare. cbn [TB.options TB.set_filter TB.data_block TB.set_data TB.count_entry TB.set_last]. rewrite Hop, Edb. run.
  match goal with |- context [TB.Flush snappy addr ?x] => set (r2 := x) end.
  assert (tb_core done None (cur ++ [e]) rest r2) as Hr2.
  { split; change (option_list (@None tblock)) with (@nil tblock); rewrite ?app_nil_r; cbn; try done.
    - by exists xs'.
    - rewrite Hnum, app_assoc, (length_app _ [e]). cbn. lia.
    - by rewrite <- app_assoc.
    - apply (add_filter_rep done cur e r); try done. repeat rewrite length_app in Hcap. cbn [length] in Hcap. rewrite length_app. lia. }
  assert (TB.last_key r2 = e.1) as Hlast by done.
  assert ((entries done ++ cur ++ [e]) ++ rest = entries done ++ cur ++ e :: rest) as Heq by (by rewrite <- !app_assoc).
  destruct (block_size opts <=? Builder.CurrentSizeEstimate db).
  - destruct (flush_core done (cur ++ [e]) rest r2 Hr2) as (b & r3 & E3 & Hbe & Hr3 & Hl3); [by destruct cur|rewrite !data_room_app; cbn; lia|].
    exists (Some b), [], r3. split_and!; [done|done| |done|].
    + change (option_list (Some b)) with [b]. intros f. rewrite app_nil_r, entries_app. unfold entries at 2. cbn. rewrite Hbe, app_nil_r, app_assoc, last_snoc.
      intros [= <-]. by rewrite Hl3.
    + change (option_list (Some b)) with [b]. rewrite entries_app. unfold entries at 2. cbn. by rewrite Hbe, app_nil_r.
  - exists None, (cur ++ [e]), r2. change (option_list (@None tblock)) with (@nil tblock). rewrite app_nil_r. split_and!; [done|done| |by destruct cur|by rewrite <- app_assoc].
    intros f. rewrite app_assoc, last_snoc. by intros [= <-].
Qed.

Definition fits (es : list entry) : Prop := ascending ok ord es /\ Z.of_nat (table_room es) < 2 ^ 32 /\ (length es <= capacity)%nat.

Lemma pend_entries done b : entries (done ++ option_list (Some b)) = entries done ++ tb_entries b.
Proof. change (option_list (Some b)) with [b]. rewrite entries_app. unfold entries at 2. cbn. by rewrite app_nil_r. Qed.

Lemma add_core done pend cur e rest r : tb_core done pend cur (e :: rest) r -> fits (all_entries done pend cur (e :: rest)) ->
  last_ok (entries (done ++ option_list pend) ++ cur) r -> 
  exists done' pend' cur' r', TB.Add snappy addr e.1 e.2 r = Ret r' /\ tb_core done' pend' cur' rest r' /\
    last_ok (entries (done' ++ option_list pend') ++ cur') r' /\ (pend' = None -> cur' <> []) /\
    all_entries done' pend' cur' rest = all_entries done pend cur (e :: rest).
Proof.
  intros Hr (Ha & Hroom & Hcap) Hlast. pose proof Hr as [Hop Hst Hcl Hoff Hsto Hso Hdata Hix Hnum Hpend Hh Hsep Hshort Hfil Hfr].
  pose proof Ha as Ha'. unfold all_entries in Ha'. rewrite app_assoc in Ha'. apply ascending_app in Ha' as (Hold & Hnew & Hlt).
  assert (ok e.1) as Hoke by (eapply (ascending_ok (e :: rest)); [done|by left]).
  assert (exists n l, entries (done ++ option_list pend) ++ cur = l /\ TB.num_entries r = Z.of_nat n /\ n = length l) as (n & l & El & En & Hn) by eauto.
  unfold TB.Add. rewrite Hcl, Hst. change (Status.ok OK) with true. cbn [negb].
  assert ((if 0 <? TB.num_entries r then c ← TB.compare r e.1 (TB.last_key r); Ret (0 <? c) else Ret true) = Ret true) as ->.
  { rewrite En, Hn. destruct (last l) as [f|] eqn:Hf.
    - rewrite El in *. rewrite (Hlast f Hf). assert (f ∈ l) as Hin by (by apply last_Some_elem_of). assert (ok f.1) as Hokf by (by eapply (ascending_ok l)).
      destruct (0 <? Z.of_nat (length l)); [|done]. unfold TB.compare. rewrite Hop, tl_compare by done. run. pose proof (Hlt f e Hin ltac:(by left)) as Hfe.
      pose proof (ord_anti f.1 e.1 Hokf Hoke). by rewrite (proj2 (Z.ltb_lt _ _)) by lia.
    - apply last_None in Hf as ->. done. }
  run. rewrite Hpend. destruct pend as [b|].
  - destruct (Hh b eq_refl) as (Hph & Hbne & ->). rewrite pend_entries, app_nil_r in *. rewrite bool_decide_eq_true_2 by (by eexists).
    assert (TB.empty (TB.data_block r) = true) as ->.
    { destruct Hdata as (xs & Hxs & Exs). apply fmap_nil_inv in Exs as ->. unfold TB.empty. by rewrite (b_buffer _ _ _ Hxs). }
    destruct (last (tb_entries b)) as [f|] eqn:Hf; [|by apply last_None in Hf].
    assert (TB.last_key r = f.1) as -> by (apply Hlast; rewrite last_app, Hf; done).
    assert (f ∈ tb_entries b) as Hin by (by apply last_Some_elem_of). assert (ok f.1) as Hokf by (eapply (ascending_ok (entries done ++ tb_entries b)); [done|apply elem_of_app; by right]).
    destruct (tl_sep f.1 e.1 Hokf Hoke) as (s & Es & Hs & Hsl & Hs1 & Hs2 & Hs3); [apply Hlt; [apply elem_of_app; by right|by left]|].
    rewrite Hop, Es. run.
    destruct (index_core done b f (e :: rest) r s Hr Ha Hf) as (r1 & E1 & Hr1); [|done|done|].
    { split_and!; [done|done|]. intros g [= <-]. done. }
    rewrite E1. run. set (b' := MkTBlock (tb_entries b) s (tb_handle b)) in *.
    assert (all_entries (done ++ [b']) None [] (e :: rest) = all_entries done (Some b) [] (e :: rest)) as Hall.
    { unfold all_entries. change (option_list (Some b)) with [b]. change (option_list (@None tblock)) with (@nil tblock). rewrite app_nil_r. by rewrite !entries_app. }
    destruct (add_data_core (done ++ [b']) [] e rest r1 Hr1) as (pend' & cur' & r' & E & H1 & H2 & H3 & H4); [by rewrite Hall..|].
    exists (done ++ [b']), pend', cur', r'. rewrite H4, Hall. done.
  - rewrite bool_decide_eq_false_2 by (by intros [? ?]). run.
    destruct (add_data_core done cur e rest r Hr Ha Hroom Hcap) as (pend' & cur' & r' & E & H1 & H2 & H3 & H4). by exists done, pend', cur', r'.
Qed.

Lemma adds_core es done pend cur r : tb_core done pend cur es r -> fits (all_entries done pend cur es) ->
  last_ok (entries (done ++ option_list pend) ++ cur) r -> (pend = None -> cur = [] -> done = []) ->
  exists done' pend' cur' r', foldM (fun e r => TB.Add snappy addr e.1 e.2 r) es r = Ret r' /\ tb_core done' pend' cur' [] r' /\
    last_ok (entries (done' ++ option_list pend') ++ cur') r' /\ (pend' = None -> cur' = [] -> done' = []) /\
    all_entries done' pend' cur' [] = all_entries done pend cur es.
Proof.
  revert done pend cur r. induction es as [|e es IH]; intros done pend cur r Hr Hf Hl Hst; cbn [foldM].
  { by exists done, pend, cur, r. }
  destruct (add_core done pend cur e es r Hr Hf Hl) as (done1 & pend1 & cur1 & r1 & E1 & H1 & H2 & H3 & H4). rewrite E1. run.
  destruct (IH done1 pend1 cur1 r1 H1) as (done' & pend' & cur' & r' & E & H); [by rewrite H4|done|by intros Hp Hc; destruct (H3 Hp)|].
  exists done', pend', cur', r'. by rewrite <- H4.
Qed.

(** ** Finishing *)

(** What a reader of the filter block can rely on. *)
Definition filter_promise (p : TableFilter) (contents : bytes) (bs : list tblock) : Prop :=
  exists rd, FilterBlockReader_new contents = Ret rd /\ forall o k, 0 <= o -> ok k -> exists m, FilterKeyMayMatch p rd o k = Ret m /\
    forall b e, b ∈ bs -> TableFormat.offset_ (tb_handle b) = o -> e ∈ tb_entries b -> same k e.1 -> m = true.

Lemma index_le_offset o : 0 <= o -> 4 * Z.of_nat (filter_index o) <= o.
Proof.
  intros Ho. unfold filter_index. rewrite Z2Nat.id by (apply Z.div_pos; [lia|reflexivity]). change kFilterBase with 2048.
  pose proof (Z.mul_div_le o 2048 ltac:(lia)). pose proof (Z.div_pos o 2048 Ho ltac:(lia)). lia.
Qed.

Lemma set_file_same (r : TB.Rep bytes) : TB.set_file r (TB.file r) (TB.offset r) (TB.status r) = r.
Proof. by destruct r. Qed.

Lemma finish_filter blocks (r : TB.Rep bytes) : filter_rep blocks [] r -> TB.status r = OK -> TB.offset r = Z.of_nat (length (TB.file r)) ->
  Z.of_nat (2 * length (TB.file r) + rate * length (entries blocks) + 14) < 2 ^ 32 ->
  exists fh extra, match TB.filter_block r with
    | Some (p, fb) => if Status.ok (TB.status r) then contents ← FilterBlock.Finish p fb; TB.WriteRawBlock addr contents kNoCompression r else Ret (BlockHandle_new, r)
    | None => Ret (BlockHandle_new, r)
    end = Ret (fh, TB.set_file r (TB.file r ++ extra) (Z.of_nat (length (TB.file r ++ extra))) OK) /\
    (length extra <= rate * length (entries blocks) + length (TB.file r) + 14)%nat /\
    match filter_policy opts with
    | Some p => exists fc, stored_as snappy (TB.file r ++ extra) fh fc /\ filter_promise p fc blocks
    | None => extra = []
    end.
Proof.
  intros Hf Hs Ho Hl. rewrite Hs. change (Status.ok OK) with true. cbn match. unfold filter_rep in Hf.
  destruct (filter_policy opts) as [p|] eqn:Ep, (TB.filter_block r) as [[p' fb]|]; try done.
  2:{ exists BlockHandle_new, []. rewrite app_nil_r, <- Ho, <- Hs, set_file_same. split_and!; [done|cbn; lia|done]. }
  destruct Hf as (-> & gs & g & Hfb & Hlen & Hcount & Hin & _).
  destruct (finish_assigned p ok same capacity rate (FilterLaws0 := oo_filter Hopts p Ep) (oo_capacity Hopts) (gs ++ [g]) fb Hfb) as (fc & Efc & Hfcl & Hr).
  rewrite Hcount, app_nil_r in Hfcl. rewrite length_app, Hlen in Hfcl. cbn [length] in Hfcl. pose proof (index_le_offset (TB.offset r) ltac:(lia)) as Hidx.
  assert (length fc <= rate * length (entries blocks) + length (TB.file r) + 9)%nat as Hfc by lia.
  rewrite Efc. run. rewrite write_raw by (done || rewrite length_app, stored_length; lia).
  eexists _, (stored kNoCompression fc). split; [reflexivity|]. rewrite stored_length. split; [lia|].
  exists fc. split; [exists (TB.file r), kNoCompression, fc, []; rewrite app_nil_r; split_and!; [done|done|by left]|].
  destruct Hr as (rd & Erd & Hm); [lia|]. exists rd. split; [done|]. intros o k Hok Hk. destruct (Hm o k Hok Hk) as (m & Em & Ht). exists m. split; [done|].
  intros b e Hb <- He Hsame. apply (Ht e.1); [by apply Hin|done].
Qed.

(** The metaindex block names the filter block. *)
Definition meta_entries (fh : BlockHandle) : list entry :=
  match filter_policy opts with Some p => [(TB.filter_key p, enc_handle fh)] | None => [] end.

(** The first entry of a block is compared with nothing. *)
Lemma add_first compare interval b key value : 1 <= interval -> builder_rep interval [] b -> Z.of_nat (length key) < 2 ^ 32 -> Z.of_nat (length value) < 2 ^ 32 ->
  exists xs b', Builder.Add compare interval key value b = Ret b' /\ builder_rep interval xs b' /\ entry_of <$> xs = [(key, value)].
Proof.
  intros Hi Hb Hk Hv. destruct (add_builder (fun a b => Ret (slice_compare a b)) (fun _ => True) slice_compare ltac:(done) ltac:(intros; apply slice_compare_antisym)
    interval Hi [] b key value Hb) as (x & b' & E & Hx & Hb'); try done.
  exists [x], b'. split_and!; [|done|by cbn; rewrite Hx]. rewrite <- E. unfold Builder.Add. by rewrite (b_buffer _ _ _ Hb).
Qed.

Lemma finish_meta fh (r : TB.Rep bytes) : TB.options r = opts -> TB.status r = OK -> TB.offset r = Z.of_nat (length (TB.file r)) ->
  Z.of_nat (length (TB.file r)) < 2 ^ 32 -> match filter_policy opts with Some p => handle_ok fh /\ Z.of_nat (length (fp_Name p)) + 100 < 2 ^ 32 | None => True end ->
  bool_decide (is_Some (TB.filter_block r)) = bool_decide (is_Some (filter_policy opts)) ->
  exists mh extra,
    (if Status.ok (TB.status r) then
      meta ← Builder.new (block_restart_interval (TB.options r));
      meta ← match TB.filter_block r, filter_policy (TB.options r) with
             | Some _, Some p =>
                 handle_encoding ← BlockHandle_EncodeTo fh [];
                 Builder.Add (TB.compare r) (block_restart_interval (TB.options r)) (TB.filter_key p) handle_encoding meta
             | Some _, None => Undef
             | None, _ => Ret meta
             end;
      TB.WriteBlock snappy addr meta r
    else Ret (BlockHandle_new, r)) = Ret (mh, TB.set_file r (TB.file r ++ extra) (Z.of_nat (length (TB.file r ++ extra))) OK) /\
    stored_block snappy (TB.file r ++ extra) mh (meta_entries fh) /\
    (length extra <= match filter_policy opts with Some p => length (fp_Name p) | None => 0 end + 64)%nat.
Proof.
  intros Hop Hs Ho Hl Hfh Hfb. rewrite Hs, Hop. change (Status.ok OK) with true. cbn match.
  destruct (builder_new_rep (block_restart_interval opts) (oo_interval Hopts)) as (b & -> & Hb). run.
  assert (exists xs b', match TB.filter_block r, filter_policy opts with
             | Some _, Some p =>
                 handle_encoding ← BlockHandle_EncodeTo fh [];
                 Builder.Add (TB.compare r) (block_restart_interval opts) (TB.filter_key p) handle_encoding b
             | Some _, None => Undef
             | None, _ => Ret b
             end = Ret b' /\ builder_rep (block_restart_interval opts) xs b' /\ entry_of <$> xs = meta_entries fh /\
             (block_room (meta_entries fh) <= match filter_policy opts with Some p => length (fp_Name p) | None => 0 end + 59)%nat) as (xs & b' & -> & Hb' & Exs & Hr).
  { unfold meta_entries. destruct (filter_policy opts) as [p|], (TB.filter_block r); cbn in Hfb; try (by repeat case_bool_decide; naive_solver).
    - destruct Hfh as [Hfh Hn]. rewrite handle_encode by done. run. rewrite app_nil_l. pose proof (enc_handle_length fh).
      assert (length (TB.filter_key p) = length (fp_Name p) + 7)%nat as Hkl by (unfold TB.filter_key; rewrite length_app; cbn; lia).
      destruct (add_first (TB.compare r) (block_restart_interval opts) b (TB.filter_key p) (enc_handle fh) (oo_interval Hopts) Hb) as (xs & b' & E & Hb' & Exs); [lia|lia|].
      exists xs, b'. split_and!; [done|done|done|]. unfold block_room. cbn. lia.
    - exists [], b. split_and!; [done|done|done|]. unfold block_room. cbn. lia. }
  run. destruct (write_block snappy Hsnappy addr Haddr r (block_restart_interval opts) xs b') as (mh & extra & E & Hst & _ & Hel & _); try done.
  - rewrite Hop. apply Hopts.
  - rewrite Exs. destruct (filter_policy opts); lia.
  - lia.
  - rewrite Exs in *. exists mh, extra. split_and!; [done|done|lia].
Qed.

Definition name_length : nat := match filter_policy opts with Some p => length (fp_Name p) | None => 0 end.

(** The file of a table with these data blocks. *)
Record table_rep (bs : list tblock) (contents : bytes) : Prop := {
  tf_blocks : Forall (fun b => stored_block snappy contents (tb_handle b) (tb_entries b)) bs;
  tf_offsets : StronglySorted Z.lt (TableFormat.offset_ ∘ tb_handle <$> bs);
  tf_separated : separated ok ord same bs [];
  tf_index_room : Z.of_nat (block_room (index_entry <$> bs)) < 2 ^ 32;
  tf_small : Z.of_nat (length contents) < 2 ^ 32;
  tf_name : Z.of_nat name_length + 100 < 2 ^ 32;
  tf_room : Z.of_nat (data_room (entries bs)) < 2 ^ 32;
  tf_footer : exists pre mh ih fh, contents = pre ++ enc_footer (MkFooter mh ih) /\ footer_ok (MkFooter mh ih) /\
    stored_block snappy contents ih (index_entry <$> bs) /\ stored_block snappy contents mh (meta_entries fh) /\
    forall p, filter_policy opts = Some p -> handle_ok fh /\ exists fc, stored_as snappy contents fh fc /\ filter_promise p fc bs;
}.

Lemma finish_flush done pend cur r : tb_core done pend cur [] r -> fits (all_entries done pend cur []) ->
  last_ok (entries (done ++ option_list pend) ++ cur) r -> (pend = None -> cur = [] -> done = []) ->
  exists pend' r', TB.Flush snappy addr r = Ret r' /\ tb_core done pend' [] [] r' /\ all_entries done pend' [] [] = all_entries done pend cur [] /\
    last_ok (entries (done ++ option_list pend')) r' /\ (pend' = None -> done = []).
Proof.
  intros Hr (Ha & Hroom & Hcap) Hl Hst. destruct (decide (cur = [])) as [->|Hne].
  - exists pend, r. rewrite app_nil_r in Hl. split_and!; [|done|done|done|by intros; apply Hst].
    unfold TB.Flush. rewrite (tr_open _ _ _ _ _ Hr), (tr_status _ _ _ _ _ Hr). change (Status.ok OK) with true. cbn [negb].
    destruct (tr_data _ _ _ _ _ Hr) as (xs & Hxs & Exs). apply fmap_nil_inv in Exs as ->. unfold TB.empty. by rewrite (b_buffer _ _ _ Hxs).
  - destruct pend as [b|]; [by destruct (tr_handle _ _ _ _ _ Hr b eq_refl) as (_ & _ & ?)|].
    pose proof (table_room_data (all_entries done None cur [])) as Htr. unfold all_entries in *. change (option_list (@None tblock)) with (@nil tblock) in *.
    rewrite !app_nil_r in *. destruct (flush_core done cur [] r Hr Hne) as (b & r' & E & Hb & Hr' & Hl'); [lia|].
    exists (Some b), r'. split_and!; [done|done|by rewrite app_nil_r, pend_entries, Hb| |done].
    intros f. rewrite pend_entries, Hb, Hl'. apply Hl.
Qed.

(** Changing the file does not matter to the index. *)
Lemma index_set_file s (r : TB.Rep bytes) f o : TB.add_index_entry s (TB.set_file (TB.close r) f o OK) =
  (r' ← TB.add_index_entry s r; Ret (TB.set_file (TB.close r') f o OK)).
Proof.
  unfold TB.add_index_entry, TB.compare. cbn. destruct (BlockHandle_EncodeTo _ _); [|done..]. cbn. by destruct (Builder.Add _ _ _ _ _).
Qed.

(** The index entry of the last block, which waits for one when there is a block. *)
Lemma finish_index done pend (r : TB.Rep bytes) f o : tb_core done pend [] [] r -> fits (all_entries done pend [] []) ->
  last_ok (entries (done ++ option_list pend)) r -> (pend = None -> done = []) ->
  exists bs r', (if TB.pending_index_entry (TB.set_file (TB.close r) f o OK) then
      successor ← tc_FindShortSuccessor (comparator (TB.options (TB.set_file (TB.close r) f o OK))) (TB.last_key (TB.set_file (TB.close r) f o OK));
      TB.add_index_entry successor (TB.set_file (TB.close r) f o OK)
    else Ret (TB.set_file (TB.close r) f o OK)) = Ret (TB.set_file (TB.close r') f o OK) /\
    tb_core bs None [] [] r' /\ entries bs = all_entries done pend [] [] /\
    (forall b', b' ∈ bs -> exists b, b ∈ done ++ option_list pend /\ tb_entries b = tb_entries b' /\ tb_handle b = tb_handle b') /\ TB.file r' = TB.file r.
Proof.
  intros Hr (Ha & Hroom & Hcap) Hl Hst. cbn [TB.pending_index_entry TB.last_key TB.set_file TB.close]. rewrite (tr_pending _ _ _ _ _ Hr). destruct pend as [b|].
  - rewrite bool_decide_eq_true_2 by (by eexists). destruct (tr_handle _ _ _ _ _ Hr b eq_refl) as (Hph & Hbne & _).
    destruct (last (tb_entries b)) as [e|] eqn:He; [|by apply last_None in He]. rewrite (Hl e) by (rewrite pend_entries, last_app, He; done).
    assert (ok e.1) as Hok. { eapply (ascending_ok _ _ Ha). unfold all_entries. rewrite pend_entries, !app_nil_r. apply elem_of_app. right. by apply last_Some_elem_of. }
    cbn [TB.options TB.set_file TB.close]. rewrite (tr_options _ _ _ _ _ Hr). destruct (tl_succ e.1 Hok) as (s & -> & Hs & Hsl & Hle). run.
    destruct (index_core done b e [] r s Hr Ha He) as (r' & E & Hr'); [by split_and!|done|done|].
    rewrite index_set_file, E. run. eexists _, r'. split_and!; [reflexivity|done| | |].
    + unfold all_entries. rewrite pend_entries, !app_nil_r, entries_app. unfold entries at 2. cbn. by rewrite app_nil_r.
    + intros b' [Hb'|Hb']%elem_of_app; [exists b'; split_and!; [apply elem_of_app; by left|done|done]|]. apply list_elem_of_singleton in Hb' as ->.
      exists b. split_and!; [apply elem_of_app; right; by left|done|done].
    + unfold TB.add_index_entry in E. apply bind_Ret in E as (h & _ & E). apply bind_Ret in E as (ib & _ & E). by injection E as <-.
  - rewrite bool_decide_eq_false_2 by (by intros [? ?]). rewrite (Hst eq_refl) in *. exists [], r. split_and!; [done|done|done| |done].
    by intros b' ?%not_elem_of_nil.
Qed.

Lemma table_room_eq es : table_room es = (3 * data_room es + rate * length es + 50 * length es + name_length + 300)%nat.
Proof. unfold table_room, name_length. lia. Qed.

Lemma index_fits bs r : tb_core bs None [] [] r -> (block_room (index_entry <$> bs) <= data_room (entries bs) + 39 * length (entries bs) + 8)%nat.
Proof.
  intros Hr. pose proof (index_room bs). pose proof (tr_short _ _ _ _ _ Hr). pose proof (separated_count _ _ _ _ _ (tr_separated _ _ _ _ _ Hr)). lia.
Qed.

Lemma promise_same p fc bs bs' : filter_promise p fc bs ->
  (forall b', b' ∈ bs' -> exists b, b ∈ bs /\ tb_entries b = tb_entries b' /\ tb_handle b = tb_handle b') -> filter_promise p fc bs'.
Proof.
  intros (rd & E & Hm) Hs. exists rd. split; [done|]. intros o k Ho Hk. destruct (Hm o k Ho Hk) as (m & Em & Ht). exists m. split; [done|].
  intros b' e Hb' Ho' He Hsame. destruct (Hs b' Hb') as (b & Hb & Ee & Eh). apply (Ht b e); [done|by rewrite Eh|by rewrite Ee|done].
Qed.

(** The file after the blocks: [x1] has the filter, [x2] the metaindex, [x3] the index. *)
Lemma finished_rep bs r x1 x2 x3 fh mh ih : tb_core bs None [] [] r -> Z.of_nat (name_length + data_room (entries bs)) + 100 < 2 ^ 32 ->
  Z.of_nat (block_room (index_entry <$> bs)) < 2 ^ 32 -> Z.of_nat (length (((TB.file r ++ x1) ++ x2) ++ x3) + 48) < 2 ^ 32 ->
  match filter_policy opts with Some p => exists fc, stored_as snappy (TB.file r ++ x1) fh fc /\ filter_promise p fc bs | None => True end ->
  stored_block snappy ((TB.file r ++ x1) ++ x2) mh (meta_entries fh) ->
  stored_block snappy (((TB.file r ++ x1) ++ x2) ++ x3) ih (index_entry <$> bs) ->
  footer_ok (MkFooter mh ih) /\ table_rep bs ((((TB.file r ++ x1) ++ x2) ++ x3) ++ enc_footer (MkFooter mh ih)).
Proof.
  intros Hr Hroom Hir Hlen Hf Hm Hi.
  assert (footer_ok (MkFooter mh ih)) as Hfo.
  { pose proof Hm as (? & ? & Hm' & _). pose proof Hi as (? & ? & Hi' & _).
    split; [eapply stored_handle; [exact Hm'|]|eapply stored_handle; [exact Hi'|]]; unfold unset64; repeat rewrite length_app in *; lia. }
  split; [done|]. pose proof (tr_stored _ _ _ _ _ Hr) as Hsto. pose proof (tr_offsets _ _ _ _ _ Hr) as Hso. pose proof (tr_separated _ _ _ _ _ Hr) as Hsep.
  change (option_list (@None tblock)) with (@nil tblock) in *. rewrite app_nil_r in *. split.
  - eapply Forall_impl; [exact Hsto|]. intros b Hb. by do 4 apply stored_block_app.
  - by apply StronglySorted_app_1_l in Hso.
  - done.
  - done.
  - rewrite length_app, enc_footer_length. lia.
  - lia.
  - lia.
  - exists (((TB.file r ++ x1) ++ x2) ++ x3), mh, ih, fh. split_and!; [done|done|by apply stored_block_app|by do 2 apply stored_block_app|].
    intros p Ep. rewrite Ep in Hf. destruct Hf as (fc & Hs & Hp). split; [|exists fc; split; [by do 3 apply stored_as_app|done]].
    eapply stored_handle; [exact Hs|]. unfold unset64. repeat rewrite length_app in *. lia.
Qed.

Lemma finish_core done pend cur r : tb_core done pend cur [] r -> fits (all_entries done pend cur []) ->
  last_ok (entries (done ++ option_list pend) ++ cur) r -> (pend = None -> cur = [] -> done = []) ->
  exists bs r', TB.Finish snappy addr r = Ret (OK, r') /\ entries bs = all_entries done pend cur [] /\ table_rep bs (TB.file r') /\
    TB.offset r' = Z.of_nat (length (TB.file r')).
Proof.
  intros Hr0 Hfits0 Hl0 Hst0. destruct (finish_flush done pend cur r Hr0 Hfits0 Hl0 Hst0) as (pend1 & r1 & E1 & Hr & Hall & Hl & Hst).
  rewrite <- Hall in *. clear Hr0 Hl0 Hst0 Hall. pose proof Hfits0 as (_ & Hroom & _). set (es := all_entries done pend1 [] []) in *.
  assert (entries (done ++ option_list pend1) = es) as Hes by (unfold es, all_entries; by rewrite !app_nil_r).
  pose proof (tr_room _ _ _ _ _ Hr) as Hfr. rewrite Hes in Hfr. rewrite table_room_eq in Hroom. set (P := (rate * length es)%nat) in *.
  unfold TB.Finish. rewrite E1. run. rewrite (tr_open _ _ _ _ _ Hr). cbn [negb].
  destruct (finish_filter (done ++ option_list pend1) (TB.close r1) (tr_filter _ _ _ _ _ Hr) (tr_status _ _ _ _ _ Hr) (tr_offset _ _ _ _ _ Hr)) as (fh & x1 & E2 & Hx1 & Hfc).
  { rewrite Hes. fold P. cbn [TB.file TB.close]. lia. }
  rewrite E2. rewrite Hes in Hx1. fold P in Hx1. cbn [TB.file TB.close] in Hx1, Hfc. run.
  set (r2 := TB.set_file (TB.close r1) (TB.file (TB.close r1) ++ x1) (Z.of_nat (length (TB.file (TB.close r1) ++ x1))) OK).
  destruct (finish_meta fh r2) as (mh & x2 & E3 & Hmeta & Hx2); try done.
  { apply (tr_options _ _ _ _ _ Hr). }
  { cbn [TB.file r2 TB.set_file TB.close]. rewrite length_app. lia. }
  { unfold name_length in Hroom. destruct (filter_policy opts); [|done]. destruct Hfc as (fc & Hs & _). split; [|lia].
    eapply stored_handle; [exact Hs|]. rewrite length_app. unfold unset64. lia. }
  { pose proof (tr_filter _ _ _ _ _ Hr) as Hf. unfold filter_rep in Hf. cbn. by destruct (filter_policy opts), (TB.filter_block r1) as [[]|]. }
  fold name_length in Hx2. change (stored_block snappy ((TB.file r1 ++ x1) ++ x2) mh (meta_entries fh)) in Hmeta. rewrite E3. run. set (F := (TB.file r1 ++ x1) ++ x2). set (O := Z.of_nat (length F)).
  change (TB.set_file r2 (TB.file r2 ++ x2) (Z.of_nat (length (TB.file r2 ++ x2))) OK) with (TB.set_file (TB.close r1) F O OK).
  change (Status.ok (TB.status (TB.set_file (TB.close r1) F O OK))) with true. cbn match.
  destruct (finish_index done pend1 r1 F O Hr Hfits0 Hl Hst) as (bs & r3 & E4 & Hr3 & Hbs & Hsame & Hf3). fold es in Hbs.
  rewrite E4. run. destruct (tr_index _ _ _ _ _ Hr3) as (ixs & Hixs & Eixs). pose proof (index_fits bs r3 Hr3) as Hir. rewrite Hbs in Hir.
  destruct (write_block snappy Hsnappy addr Haddr (TB.set_file (TB.close r3) F O OK) 1 ixs (TB.index_block r3)) as (ih & x3 & E5 & Hix & _ & Hx3 & _); try done.
  { cbn. rewrite (tr_options _ _ _ _ _ Hr3). apply Hopts. }
  { rewrite Eixs. lia. }
  { cbn [TB.file TB.set_file]. unfold F. rewrite !length_app. lia. }
  change (TB.index_block (TB.set_file (TB.close r3) F O OK)) with (TB.index_block r3). rewrite E5. run. rewrite Eixs in *. unfold F in *. rewrite <- Hf3 in *.
  destruct (finished_rep bs r3 x1 x2 x3 fh mh ih Hr3) as [Hfo Hrep]; [rewrite Hbs; lia|lia|repeat rewrite length_app; lia| |done|done|].
  { destruct (filter_policy opts); [|done]. destruct Hfc as (fc & Hs & Hp). exists fc. split; [done|]. by eapply promise_same. }
  rewrite footer_encode by done. run. exists bs. eexists. split; [reflexivity|]. split_and!; [done|exact Hrep|].
  pose proof (tf_small _ _ Hrep) as Hsmall. cbn [TB.offset TB.file TB.set_file TB.set_index wf_Append bytes_writable] in *. change (Status.ok OK) with true. cbn match.
  rewrite (length_app _ (enc_footer _)) in *. rewrite <- Nat2Z.inj_add. apply u64_small. lia.
Qed.
End Building.

(** ** Reading a table *)

Lemma StronglySorted_lt_nodup (l : list Z) : StronglySorted Z.lt l -> NoDup l.
Proof.
  induction 1 as [|x l Hl IH Hx]; constructor; [|done]. intros Hin. pose proof (proj1 (Forall_forall _ _) Hx x Hin). lia.
Qed.

Section Reading.
Context (snappy : option snappy_lib) (addr : Z) (Haddr : 0 <= addr).
Context (opts : Options) (ok : bytes -> Prop) (ord : bytes -> bytes -> Z) (same : bytes -> bytes -> Prop)
  `{!TableComparatorLaws (comparator opts) ok ord same}.
Context {F C : Type} `{RandomAccessFile F} `{BlockCache C} (holds : C -> bytes -> Block -> Prop) `{!BlockCacheLaws C holds}.
Context (bs : list tblock) (contents : bytes) (Hrep : table_rep snappy opts ok ord same bs contents) (f : F) (Hf : reads_as f contents).

(** The table is opened with the comparator it was built with, and with its filter policy
    or none. *)
Definition reader_options (ropts : Options) : Prop :=
  comparator ropts = comparator opts /\ (filter_policy ropts = None \/ filter_policy ropts = filter_policy opts).

(** The block has these entries. *)
Definition opens (b : Block) (es : list (bytes * bytes)) : Prop := exists it, NewIterator b = Ret (inr it) /\ iter_at es (length es) it.

Lemma contents_small : Z.of_nat (length contents) < unset64.
Proof. pose proof (tf_small _ _ _ _ _ _ _ Hrep). unfold unset64. lia. Qed.

Lemma read_opens h es verify : stored_block snappy contents h es ->
  exists c b, ReadBlock snappy addr f verify h = Ret (OK, c) /\ Block_new (data c) = Ret b /\ opens b es.
Proof.
  intros (xs & rs & Hs & Hb & <-). destruct (read_stored_as snappy addr Haddr f contents h _ verify Hf contents_small Hs) as (c & E & Ed).
  destruct (open_block xs rs Hb) as (bl & it & E1 & E2 & Hp). exists c, bl. rewrite Ed. split_and!; [done|done|]. exists it. split; [done|].
  exists xs, rs. by rewrite length_fmap.
Qed.

(** What an open table is. *)
Record table_ok (t : Table (F := F)) : Prop := {
  to_options : reader_options (t_options t);
  to_file : t_file t = f;
  to_index : opens (t_index t) (index_entry <$> bs);
  to_filter : forall rd, t_filter t = Some rd -> exists p, filter_policy (t_options t) = Some p /\
    forall o k, 0 <= o -> ok k -> exists m, FilterKeyMayMatch p rd o k = Ret m /\
      forall b e, b ∈ bs -> TableFormat.offset_ (tb_handle b) = o -> e ∈ tb_entries b -> same k e.1 -> m = true;
}.

Lemma bytewise_sorted es : (length es <= 1)%nat -> Z.of_nat (block_room es) < 2 ^ 32 -> sorted_entries (fun _ => True) slice_compare es.
Proof.
  intros Hl Hr. destruct es as [|e [|? ?]]; [| |cbn in Hl; lia]; (split_and!; [by apply Forall_true|repeat constructor|done]).
Qed.

Lemma read_meta footer t : table_ok t -> t_filter t = None ->
  (exists fh, stored_block snappy contents (metaindex_handle_ footer) (meta_entries opts fh) /\
    forall p, filter_policy opts = Some p -> handle_ok fh /\ exists fc, stored_as snappy contents fh fc /\ filter_promise ok same p fc bs) ->
  exists t', ReadMeta snappy addr footer t = Ret t' /\ table_ok t' /\ t_cache_id t' = t_cache_id t.
Proof.
  intros Ht Hnone (fh & Hm & Hp). unfold ReadMeta. destruct (to_options t Ht) as [Hc Hpol]. destruct (filter_policy (t_options t)) as [p|] eqn:Ep; [|by exists t].
  destruct Hpol as [|Hpol]; [done|]. symmetry in Hpol. destruct (Hp p Hpol) as (Hfh & fc & Hfc & rd & Erd & Hprom).
  destruct (read_opens _ _ (paranoid_checks (t_options t)) Hm) as (c & b & E1 & E2 & it & E3 & Hit). rewrite (to_file t Ht), E1. run.
  change (Status.ok OK) with true. cbn [negb]. rewrite E2. run. rewrite E3. run. unfold meta_entries in Hit. rewrite Hpol in Hit.
  pose proof (tf_name _ _ _ _ _ _ _ Hrep) as Hname. unfold name_length in Hname. rewrite Hpol in Hname. pose proof (enc_handle_length fh) as Hel.
  destruct (iter_seek (fun a b => Ret (slice_compare a b)) (fun _ => True) slice_compare ltac:(done) ltac:(intros x y z _ _ _; apply slice_lt_trans)
    _ _ it (TB.filter_key p) Hit) as (it' & E4 & Hit'); [apply bytewise_sorted; [cbn; lia|]|done|].
  { unfold block_room, TB.filter_key. cbn. lia. }
  cbn [BI.Seek]. unfold BI.lift. rewrite E4. run. cbn [BI.Valid BI.key BI.value].
  rewrite rank_none in Hit'.
  2:{ constructor; [|done]. unfold below. cbn. rewrite slice_compare_refl. lia. }
  destruct (iter_observe _ _ _ Hit') as (Hv & _ & Hkv). destruct (Hkv _ eq_refl) as [Ek Ev]. cbn [fst snd] in Ek, Ev. rewrite Hv. cbn [length Nat.ltb Nat.leb]. rewrite Ek. run.
  rewrite (proj2 (slice_eqb_eq _ _) eq_refl), Ev. run. unfold ReadFilter. rewrite <- (app_nil_r (enc_handle fh)), handle_decode by done. run.
  change (Status.ok OK) with true. cbn [negb].
  destruct (read_stored_as snappy addr Haddr f contents fh fc (paranoid_checks (t_options t)) Hf contents_small Hfc) as (c2 & E5 & Ed).
  rewrite (to_file t Ht), E5. run. change (Status.ok OK) with true. cbn [negb]. rewrite Ed, Erd. run. eexists. split; [reflexivity|]. split; [|done].
  destruct Ht. split; cbn; try done. intros rd' [= <-]. by exists p.
Qed.

(** Cached blocks of the table are its blocks. *)
Definition cache_ok (id : Z) (cache : option C) : Prop :=
  forall c b blk, cache = Some c -> b ∈ bs -> holds c (cache_key id (TableFormat.offset_ (tb_handle b))) blk -> opens blk (tb_entries b).

(** The id that the cache gives out is new to it. *)
Definition fresh_id (cache : option C) : Prop :=
  forall c o blk, cache = Some c -> ~ holds c (cache_key (bc_NewId c).1 o) blk.

Lemma open_table ropts cache : reader_options ropts -> fresh_id cache ->
  exists t cache', Open snappy addr ropts f (Z.of_nat (length contents)) cache = Ret (OK, Some t, cache') /\ table_ok t /\ cache_ok (t_cache_id t) cache'.
Proof.
  intros Hro Hfresh. destruct (tf_footer _ _ _ _ _ _ _ Hrep) as (pre & mh & ih & fh & Ec & Hfo & Hix & Hmeta & Hp).
  assert (length contents = length pre + 48)%nat as Hlen by (rewrite Ec, length_app, enc_footer_length; done).
  unfold Open. change kEncodedLength with 48. rewrite (proj2 (Z.ltb_ge _ _)) by lia. destruct (Hf (length pre) 48%nat) as [scratch Hread]; [lia|].
  replace (Z.of_nat (length contents) - 48) with (Z.of_nat (length pre)) by lia. change 48 with (Z.of_nat 48). rewrite Hread.
  change (Status.ok OK) with true. cbn [negb]. rewrite Ec, drop_app_length, take_ge by (by rewrite enc_footer_length).
  rewrite <- (app_nil_r (enc_footer _)), footer_decode by done. run. change (Status.ok OK) with true. cbn [negb index_handle_ metaindex_handle_].
  destruct (read_opens ih _ (paranoid_checks ropts) Hix) as (c & b & E1 & E2 & Hopen). rewrite E1. run. change (Status.ok OK) with true. cbn match. rewrite E2. run.
  destruct (match cache with Some c0 => let '(i, c1) := bc_NewId c0 in (i, Some c1) | None => (0, None) end) as [id cache'] eqn:Ecache.
  destruct (read_meta (MkFooter mh ih) (MkTable ropts f id None mh b)) as (t' & E3 & Ht & Hid); [|done|by exists fh|].
  { by split. }
  rewrite E3. run. exists t', cache'. split_and!; [done|done|]. rewrite Hid. cbn. intros c' b' blk -> Hb' Hh.
  destruct cache as [c0|]; [|done]. destruct (bc_NewId c0) as [i c1] eqn:Ei. injection Ecache as -> ->.
  apply (bl_newid _ _ _ _ _ Ei) in Hh. exfalso. eapply Hfresh; [reflexivity|]. by rewrite Ei.
Qed.

Lemma cache_key_inj id o o' : 0 <= o < 2 ^ 64 -> 0 <= o' < 2 ^ 64 -> cache_key id o = cache_key id o' -> o = o'.
Proof.
  intros Ho Ho' E. apply app_inv_head in E. unfold EncodeFixed64 in E. apply (f_equal le_combine) in E. by rewrite !le64_roundtrip in E.
Qed.

Lemma block_handle b : b ∈ bs -> handle_ok (tb_handle b) /\ 0 <= TableFormat.offset_ (tb_handle b) < 2 ^ 64.
Proof.
  intros Hb. destruct (proj1 (Forall_forall _ _) (tf_blocks _ _ _ _ _ _ _ Hrep) b Hb) as (xs & rs & Hs & _).
  destruct (stored_handle snappy _ _ _ Hs contents_small) as [Hh _]. split; [done|]. destruct Hh as [Hh _]. unfold unset64 in Hh. lia.
Qed.

(** An offset tells which block it is. *)
Lemma block_at b b' : b ∈ bs -> b' ∈ bs -> TableFormat.offset_ (tb_handle b) = TableFormat.offset_ (tb_handle b') -> b = b'.
Proof.
  intros Hb Hb' E. apply list_elem_of_lookup in Hb as [i Hi]. apply list_elem_of_lookup in Hb' as [j Hj].
  assert (i = j) as ->; [|congruence]. pose proof (tf_offsets _ _ _ _ _ _ _ Hrep) as Hso. apply StronglySorted_lt_nodup in Hso.
  eapply NoDup_lookup; [exact Hso| |]; rewrite list_lookup_fmap; [by rewrite Hi|]. rewrite Hj. cbn. by rewrite E.
Qed.

Lemma block_reader t ro b cache : table_ok t -> cache_ok (t_cache_id t) cache -> b ∈ bs ->
  exists it cache', BlockReader snappy addr t ro (enc_handle (tb_handle b)) cache = Ret (inr it, cache') /\
    iter_at (tb_entries b) (length (tb_entries b)) it /\ cache_ok (t_cache_id t) cache'.
Proof.
  intros Ht Hc Hb. destruct (block_handle b Hb) as [Hh Hob]. unfold BlockReader. rewrite <- (app_nil_r (enc_handle _)), handle_decode by done. run.
  change (Status.ok OK) with true. cbn match. unfold read_block_cached. rewrite (to_file t Ht).
  destruct (read_opens (tb_handle b) (tb_entries b) (verify_checksums ro)) as (ct & blk & E1 & E2 & it & E3 & Hit);
    [by apply (proj1 (Forall_forall _ _) (tf_blocks _ _ _ _ _ _ _ Hrep))|].
  destruct cache as [c|].
  - destruct (bc_Lookup _ c) as [[blk'|] c'] eqn:El.
    + run. destruct (Hc c b blk' eq_refl Hb (bl_lookup _ _ _ _ El)) as (it' & E & Hit'). rewrite E. run. exists it', (Some c'). split_and!; [done|done|].
      intros c2 b2 blk2 [= <-] Hb2 Hh2. apply (Hc c b2 blk2 eq_refl Hb2). by eapply bl_lookup_holds.
    + rewrite E1. run. change (Status.ok OK) with true. cbn match. rewrite E2. run. rewrite E3. run. eexists it, _. split_and!; [reflexivity|done|].
      intros c2 b2 blk2 [= <-] Hb2 Hh2. destruct (cachable ct && fill_cache ro).
      * apply bl_insert in Hh2 as [[Ek ->]|Hh2].
        -- apply cache_key_inj in Ek; [|by apply block_handle|done]. rewrite (block_at b2 b Hb2 Hb Ek). by exists it.
        -- apply (Hc c b2 blk2 eq_refl Hb2). by eapply bl_lookup_holds.
      * apply (Hc c b2 blk2 eq_refl Hb2). by eapply bl_lookup_holds.
  - rewrite E1. run. change (Status.ok OK) with true. cbn match. rewrite E2. run. rewrite E3. run. exists it, None. by split_and!.
Qed.

(** What a lookup may call the saver with: the first entry that is not below the key or
    nothing, and that entry when it is what is looked for. *)
Definition get_spec (es : list (bytes * bytes)) (k : bytes) (saved : option (bytes * bytes)) : Prop :=
  (forall e, saved = Some e -> es !! rank ord k es = Some e) /\ (forall e, es !! rank ord k es = Some e -> same k e.1 -> saved = Some e).

Context (Hasc : ascending ok ord (entries bs)).

Lemma index_sorted : sorted_entries ok ord (index_entry <$> bs).
Proof.
  destruct (separated_index (comparator opts) ok ord same bs [] (tf_separated _ _ _ _ _ _ _ Hrep)) as [H1 H2]; [by rewrite app_nil_r|].
  split_and!; [done|done|apply (tf_index_room _ _ _ _ _ _ _ Hrep)].
Qed.

Lemma block_sorted b : b ∈ bs -> ascending ok ord (tb_entries b) -> sorted_entries ok ord (tb_entries b).
Proof.
  intros Hb [H1 H2]. split_and!; [done|done|]. pose proof (tf_room _ _ _ _ _ _ _ Hrep) as Hr. apply list_elem_of_split in Hb as (l1 & l2 & ->).
  rewrite entries_app in Hr. change (entries (b :: l2)) with (tb_entries b ++ entries l2) in Hr. rewrite !data_room_app in Hr.
  destruct (decide (tb_entries b = [])) as [->|Hne]; [done|]. pose proof (block_room_data (tb_entries b) Hne). lia.
Qed.

Lemma index_seek t k : table_ok t -> ok k ->
  exists it it', NewIterator (t_index t) = Ret (inr it) /\ Iter.Seek (t_compare t) k it = Ret it' /\ iter_at (index_entry <$> bs) (rank ord k (index_entry <$> bs)) it'.
Proof.
  intros Ht Hk. destruct (to_index t Ht) as (it & E & Hit). exists it. unfold t_compare. destruct (to_options t Ht) as [-> _].
  destruct (iter_seek (tc_Compare (comparator opts)) ok ord tl_compare ord_lt_trans _ _ it k Hit index_sorted Hk) as (it' & E' & Hit').
  by exists it'.
Qed.

(** A block that the filter excludes has nothing that is looked for. *)
Lemma filter_excludes t k b : table_ok t -> ok k -> b ∈ bs ->
  exists excluded, match t_filter t, filter_policy (t_options t) with
    | Some filter, Some p =>
        '(s, handle, _) ← BlockHandle_DecodeFrom BlockHandle_new (enc_handle (tb_handle b));
        if Status.ok s then m ← FilterKeyMayMatch p filter (TableFormat.offset_ handle) k; Ret (negb m) else Ret false
    | Some _, None => Undef
    | None, _ => Ret false
    end = Ret excluded /\ (excluded = true -> forall e, e ∈ tb_entries b -> ~ same k e.1).
Proof.
  intros Ht Hk Hb. destruct (t_filter t) as [rd|] eqn:Erd; [|by exists false]. destruct (to_filter t Ht rd Erd) as (p & -> & Hm).
  destruct (block_handle b Hb) as [Hh Ho]. rewrite <- (app_nil_r (enc_handle _)), handle_decode by done. run. change (Status.ok OK) with true. cbn match.
  destruct (Hm (TableFormat.offset_ (tb_handle b)) k) as (m & -> & Ht'); [lia|done|]. run. exists (negb m). split; [done|].
  intros Hn e He Hsame. by rewrite (Ht' b e Hb eq_refl He Hsame) in Hn.
Qed.

(** The lookup in a block. *)
Lemma block_get t ro k b cache : table_ok t -> cache_ok (t_cache_id t) cache -> ok k -> b ∈ bs -> ascending ok ord (tb_entries b) ->
  exists it cache' it', BlockReader snappy addr t ro (enc_handle (tb_handle b)) cache = Ret (inr it, cache') /\ cache_ok (t_cache_id t) cache' /\
    BI.Seek (t_compare t) k (inr it) = Ret (inr it') /\ Iter.status_ it' = OK /\
    (if Iter.Valid it' then bk ← Iter.key it'; bv ← Iter.value it'; Ret (Some (bk, bv)) else Ret None) = Ret (tb_entries b !! rank ord k (tb_entries b)).
Proof.
  intros Ht Hc Hk Hb Hab. destruct (block_reader t ro b cache Ht Hc Hb) as (it & cache' & E & Hit & Hc'). exists it, cache'.
  cbn [BI.Seek]. unfold BI.lift, t_compare. destruct (to_options t Ht) as [-> _].
  destruct (iter_seek (tc_Compare (comparator opts)) ok ord tl_compare ord_lt_trans _ _ it k Hit (block_sorted b Hb Hab) Hk) as (it' & -> & Hit').
  exists it'. destruct (iter_observe _ _ _ Hit') as (Hv & Hst & Hkv). split_and!; [done|done|done|done|]. rewrite Hv.
  destruct (Nat.ltb_spec (rank ord k (tb_entries b)) (length (tb_entries b))) as [Hlt|Hge].
  - destruct (lookup_lt_is_Some_2 _ _ Hlt) as [e He]. destruct (Hkv e He) as [-> ->]. run. rewrite He. by destruct e.
  - by rewrite lookup_ge_None_2 by done.
Qed.

Lemma internal_get t ro k cache : table_ok t -> cache_ok (t_cache_id t) cache -> ok k ->
  exists saved cache', InternalGet snappy addr t ro k cache = Ret (OK, saved, cache') /\ get_spec (entries bs) k saved /\ cache_ok (t_cache_id t) cache'.
Proof.
  intros Ht Hc Hk. destruct (index_seek t k Ht Hk) as (it0 & it & E0 & E1 & Hit). unfold InternalGet. rewrite E0. run. cbn [BI.Seek]. unfold BI.lift. rewrite E1. run.
  destruct (iter_observe _ _ _ Hit) as (Hv & Hst & Hkv). cbn [BI.Valid BI.value BI.status]. rewrite Hv, length_fmap.
  pose proof (lookup_block (comparator opts) ok ord same k bs (tf_separated _ _ _ _ _ _ _ Hrep) Hasc Hk) as Hlook.
  destruct (bs !! rank ord k (index_entry <$> bs)) as [b|] eqn:Hb.
  2:{ pose proof Hb as Hb'. apply lookup_ge_None in Hb'. rewrite (proj2 (Nat.ltb_ge _ _)) by done. run. change (Status.ok OK) with true. cbn match. rewrite Hst.
      exists None, cache. split_and!; [done| |done]. split; [done|]. intros e He. rewrite Hlook in He. apply lookup_lt_Some in He. lia. }
  pose proof Hb as Hlt. apply lookup_lt_Some in Hlt. rewrite (proj2 (Nat.ltb_lt _ _)) by done.
  destruct (Hkv (index_entry b)) as [_ Ev]; [by rewrite list_lookup_fmap, Hb|]. rewrite Ev. cbn [snd index_entry]. run.
  assert (b ∈ bs) as Hin by (by eapply list_elem_of_lookup_2). destruct Hlook as [Hab Hlook].
  destruct (filter_excludes t k b Ht Hk Hin) as (excluded & -> & Hex). run. destruct excluded.
  - run. change (Status.ok OK) with true. cbn match. rewrite Hst. exists None, cache. split_and!; [done| |done]. split; [done|]. intros e He Hsame. exfalso.
    destruct Hlook as [[_ El]|[_ Hno]]; [|by eapply Hno]. rewrite El in He. apply (Hex eq_refl e); [by eapply list_elem_of_lookup_2|done].
  - destruct (block_get t ro k b cache Ht Hc Hk Hin Hab) as (bit & cache' & bit' & E2 & Hc' & E3 & Hst' & E4). rewrite E2. run. rewrite E3. run.
    cbn [BI.Valid BI.key BI.value BI.status]. rewrite E4. run. rewrite Hst', Hst. change (Status.ok OK) with true. cbn match.
    eexists _, cache'. split_and!; [reflexivity| |done]. split; intros e He.
    + destruct Hlook as [[_ El]|[El _]]; [by rewrite El|]. rewrite lookup_ge_None_2 in He by lia. done.
    + destruct Hlook as [[_ El]|[_ Hno]]; [by rewrite <- El|]. intros Hs. by destruct (Hno e He).
Qed.
End Reading.
