(* ===== verification/TableGet.v ===== *)
(** * Lookups in tables, end to end

    Build a table, open its file, look keys up; with the comparator, the filter policy and
    the keys that the database uses. *)

From S2P Require Import Prelude Order Slice Coding Crc32c FileNames Status Files FilterPolicy DbFormat InternalOrder Block TableFormat FilterBlock Table TableSpec.
From stdpp Require Import strings.
#[local] Open Scope Z_scope.

(** ** The comparator of the database (db/dbformat.cc) *)

Definition internal_comparator (c : Comparator) : TableComparator :=
  MkTableComparator (InternalCompare c) (InternalFindShortestSeparator c) (InternalFindShortSuccessor c).

#[global] Instance internal_comparator_laws c `{!ComparatorLaws c} :
  TableComparatorLaws (internal_comparator c) internal_good (internal_ord c) same_user.
Proof.
  split; cbn.
  - intros a b Ha Hb. destruct (internal_ord_split c a b Ha Hb) as (? & ? & ? & ? & -> & -> & _). done.
  - intros a b Ha Hb. destruct (internal_ord_split c a b Ha Hb) as (? & ? & ? & ? & _ & -> & <- & <- & <- & <-).
    destruct (internal_ord_split c b a Hb Ha) as (? & ? & ? & ? & _ & -> & <- & <- & <- & <-). by apply icmp_antisym.
  - intros a b d Ha Hb Hd. destruct (internal_ord_split c a b Ha Hb) as (? & ? & ? & ? & _ & -> & <- & <- & <- & <-).
    destruct (internal_ord_split c b d Hb Hd) as (? & ? & ? & ? & _ & -> & <- & <- & <- & <-).
    destruct (internal_ord_split c a d Ha Hd) as (? & ? & ? & ? & _ & -> & <- & <- & <- & <-). by apply icmp_trans.
  - intros a b Ha Hb Hlt. destruct (internal_ord_split c a b Ha Hb) as (? & ? & ? & ? & E & Eo & _). rewrite Eo in Hlt.
    destruct (internal_separator_spec c a b _ _ E Hlt) as [(s & r1 & r2 & Es & Hl & E1 & H1 & E2 & H2 & H3) _]. exists s.
    split_and!; [done|unfold internal_good; lia|lia|by rewrite (internal_ord_value _ _ _ _ E1)|by rewrite (internal_ord_value _ _ _ _ E2)|].
    destruct H3 as [->|H3]; [by left|right]. intros k Hk Hs. destruct (H3 k Hs) as (r3 & E3 & ?). by rewrite (internal_ord_value _ _ _ _ E3).
  - intros a Ha. destruct (internal_successor_spec c a _ Ha) as (s & r1 & Es & Hl & E1 & H1). exists s.
    split_and!; [done|unfold internal_good; lia|lia|by rewrite (internal_ord_value _ _ _ _ E1)].
Qed.

(** ** A client: build, open, look up *)

Definition build_table (snappy : option snappy_lib) (addr : Z) (opts : Options) (es : list (bytes * bytes)) : outcome (Status * bytes) :=
  r ← TB.new opts [];
  r ← foldM (fun e r => TB.Add snappy addr e.1 e.2 r) es r;
  '(s, r) ← TB.Finish snappy addr r;
  Ret (s, TB.file r).

Fixpoint get_all {F C} `{RandomAccessFile F} `{BlockCache C} (snappy : option snappy_lib) (addr : Z) (t : Table (F := F)) (ro : ReadOptions)
    (ks : list bytes) (cache : option C) : outcome (list (Status * option (bytes * bytes))) :=
  match ks with
  | [] => Ret []
  | k :: ks' =>
      '(s, saved, cache) ← InternalGet snappy addr t ro k cache;
      rs ← get_all snappy addr t ro ks' cache;
      Ret ((s, saved) :: rs)
  end.

Section Client.
Context (snappy : option snappy_lib) (Hsnappy : forall s, snappy = Some s -> snappy_ok s) (addr : Z) (Haddr : 0 <= addr).
Context (opts : Options) (ok : bytes -> Prop) (ord : bytes -> bytes -> Z) (same : bytes -> bytes -> Prop)
  `{!TableComparatorLaws (comparator opts) ok ord same} (capacity rate : nat) (Hopts : options_ok opts ok same capacity rate).

Lemma build_table_rep es : fits opts ok ord capacity rate es ->
  exists bs contents, build_table snappy addr opts es = Ret (OK, contents) /\ entries bs = es /\ table_rep snappy opts ok ord same bs contents.
Proof.
  intros Hfits. destruct (new_core snappy opts ok ord same capacity rate Hopts es) as (r0 & E0 & Hr0).
  destruct (adds_core snappy Hsnappy addr Haddr opts ok ord same capacity rate Hopts es [] None [] r0 Hr0 Hfits) as (dn & pend & cur & r & E1 & Hr & Hl & Hst & Hall); [done|done|].
  destruct (finish_core snappy Hsnappy addr Haddr opts ok ord same capacity rate Hopts dn pend cur r Hr) as (bs & r' & E2 & Hbs & Hrep & _); [by rewrite Hall|done|done|].
  exists bs, (TB.file r'). unfold build_table. rewrite E0. run. rewrite E1. run. rewrite E2. run. split_and!; [done|by rewrite Hbs, Hall|done].
Qed.

Context {F C : Type} `{RandomAccessFile F} `{BlockCache C} (holds : C -> bytes -> Block -> Prop) `{!BlockCacheLaws C holds}.

Lemma get_all_spec bs contents (f : F) t ro ks cache : table_rep snappy opts ok ord same bs contents -> reads_as f contents -> ascending ok ord (entries bs) ->
  table_ok opts ok same bs f t -> cache_ok holds bs (t_cache_id t) cache -> Forall ok ks ->
  exists rs, get_all snappy addr t ro ks cache = Ret rs /\ Forall2 (fun k r => r.1 = OK /\ get_spec ord same (entries bs) k r.2) ks rs.
Proof.
  intros Hrep Hf Ha Ht Hc Hks. revert cache Hc. induction Hks as [|k ks Hk Hks IH]; intros cache Hc; cbn [get_all]; [by exists []|].
  destruct (internal_get snappy addr Haddr opts ok ord same holds bs contents Hrep f Hf Ha t ro k cache Ht Hc Hk) as (saved & cache2 & -> & Hg & Hc2). run.
  destruct (IH cache2 Hc2) as (rs & -> & Hrs). run. eexists. split; [reflexivity|]. by constructor.
Qed.

(** C3: a table answers lookups.  Entries in strictly increasing order, written by the table
    builder with any block size, restart interval, compression and filter policy,
    give a file that opens; every lookup, in any order and through any block cache,
    ends with status OK and calls the saver with the first entry whose key is not
    below the one that is looked for, or not at all, and always with that entry when
    the filter policy takes the two keys for the same.  The comparator, the
    compression library, the filter policy and the cache are held to their documented
    contracts; the entries fit a file of 4 GiB. *)
Theorem table_get es ropts cache : fits opts ok ord capacity rate es -> reader_options opts ropts -> fresh_id holds cache ->
  exists contents, build_table snappy addr opts es = Ret (OK, contents) /\ forall f : F, reads_as f contents ->
    exists t cache', Open snappy addr ropts f (Z.of_nat (length contents)) cache = Ret (OK, Some t, cache') /\
      forall ro ks, Forall ok ks -> exists rs, get_all snappy addr t ro ks cache' = Ret rs /\
        Forall2 (fun k r => r.1 = OK /\ get_spec ord same es k r.2) ks rs.
Proof.
  intros Hfits Hro Hfresh. destruct (build_table_rep es Hfits) as (bs & contents & E & Hes & Hrep). exists contents. split; [done|]. intros f Hf.
  destruct (open_table snappy addr Haddr opts ok ord same holds bs contents Hrep f Hf ropts cache Hro Hfresh) as (t & cache' & Eo & Ht & Hc).
  exists t, cache'. split; [done|]. intros ro ks Hks. rewrite <- Hes. apply (get_all_spec bs contents f); try done. rewrite Hes. apply Hfits.
Qed.
End Client.

(** ** An instance of everything *)

(** A compression that shortens runs of zero bytes. *)
Fixpoint zip_zeros (fuel : nat) (l : bytes) : bytes :=
  match fuel with
  | O => []
  | S n => match l with
           | x00 :: x00 :: x00 :: x00 :: l' => x01 :: zip_zeros n l'
           | b :: l' => x02 :: b :: zip_zeros n l'
           | [] => []
           end
  end.

Fixpoint unzip_zeros (l : bytes) : bytes :=
  match l with
  | x01 :: l' => x00 :: x00 :: x00 :: x00 :: unzip_zeros l'
  | x02 :: b :: l' => b :: unzip_zeros l'
  | _ => []
  end.

Lemma unzip_zip fuel l : (length l <= fuel)%nat -> unzip_zeros (zip_zeros fuel l) = l.
Proof.
  revert l. induction fuel as [|n IH]; intros l Hl; [by destruct l; [|cbn in Hl; lia]|]. cbn [zip_zeros].
  repeat case_match; subst; cbn [unzip_zeros]; try done; rewrite IH by (cbn in *; lia); done.
Qed.

Definition toy_snappy : snappy_lib :=
  MkSnappy (fun x => zip_zeros (length x) x) (fun x => Some (Z.of_nat (length (unzip_zeros x)))) (fun x => Some (unzip_zeros x)).

Lemma toy_snappy_ok : snappy_ok toy_snappy.
Proof. intros x. cbn. by rewrite unzip_zip. Qed.

(** A cache that never evicts. *)
Definition toy_cache : Type := Z * list (bytes * Block).

#[global] Instance toy_cache_ops : BlockCache toy_cache := {|
  bc_NewId c := (c.1, (c.1 + 1, c.2));
  bc_Lookup k c := (snd <$> list_find (fun e => e.1 = k) c.2 ≫= fun '(_, e) => Some e, c);
  bc_Insert k b n c := (c.1, (k, b) :: c.2);
|}.

Definition toy_holds (c : toy_cache) (k : bytes) (b : Block) : Prop := (k, b) ∈ c.2.

#[global] Instance toy_cache_laws : BlockCacheLaws toy_cache toy_holds.
Proof.
  split; unfold toy_holds; cbn.
  - intros k c b c' [= E _]. destruct (list_find _ c.2) as [[i e]|] eqn:Ef; [|done]. injection E as <-. apply list_find_Some in Ef as (He & Hk & _).
    apply list_elem_of_lookup_2 in He. destruct e. cbn in *. by subst.
  - by intros k c r c' k' b [= _ <-].
  - intros k b n c k' b' [E|Hin]%elem_of_cons; [left; by injection E|by right].
  - by intros c i c' k b [= _ <-].
Qed.

Definition zeros (n : nat) : bytes := replicate n x00.

(** Several versions of a key, a deletion, and blocks of a few dozen bytes. *)
Definition sample_table : list (bytes * bytes) :=
  [(ikey (str "app") 9 kTypeValue, zeros 60); (ikey (str "apple") 3 kTypeValue, str "x"); (ikey (str "bat") 7 kTypeValue, str "new");
   (ikey (str "bat") 4 kTypeValue, str "old"); (ikey (str "cat") 6 kTypeDeletion, []); (ikey (str "dog") 2 kTypeValue, zeros 50)].

Definition sample_options : Options :=
  MkOptions (internal_comparator BytewiseComparator) 1 40 2 kSnappyCompression (Some (internal_filter (Policy 10 6))) true.

Lemma sample_options_ok : options_ok sample_options internal_good same_user 100 12.
Proof.
  split; cbn; [lia|by right| |lia]. intros p [= <-]. apply (internal_filter_laws 10); [vm_compute; reflexivity|lia|lia].
Qed.

Lemma table_get_witness :
  exists contents t cache' rs, build_table (Some toy_snappy) 0 sample_options sample_table = Ret (OK, contents) /\
    Open (Some toy_snappy) 0 sample_options (contents : bytes) (Z.of_nat (length contents)) (Some ((5, []) : toy_cache)) = Ret (OK, Some t, cache') /\
    get_all (Some toy_snappy) 0 t (MkReadOptions true true) [ikey (str "bat") 5 kValueTypeForSeek; ikey (str "app") 20 kValueTypeForSeek] cache' = Ret rs /\
    rs = [(OK, Some (ikey (str "bat") 4 kTypeValue, str "old")); (OK, Some (ikey (str "app") 9 kTypeValue, zeros 60))].
Proof.
  destruct (table_get (Some toy_snappy) ltac:(intros s [= <-]; apply toy_snappy_ok) 0 ltac:(lia) sample_options internal_good (internal_ord BytewiseComparator) same_user
    100 12 sample_options_ok (F := bytes) toy_holds sample_table sample_options (Some (5, []))) as (contents & Eb & Hopen).
  - split; [|split; [apply Z.ltb_lt; vm_compute; reflexivity|cbn; lia]].
    split; [repeat constructor; apply Nat.leb_le; vm_compute; reflexivity|repeat constructor; vm_compute; reflexivity].
  - split; [done|by right].
  - intros c o blk [= <-] Hh. by apply not_elem_of_nil in Hh.
  - destruct (Hopen contents (bytes_reads_as contents)) as (t & cache' & Eo & Hget).
    destruct (Hget (MkReadOptions true true) [ikey (str "bat") 5 kValueTypeForSeek; ikey (str "app") 20 kValueTypeForSeek]) as (rs & Eg & Hrs).
    { repeat constructor; apply Nat.leb_le; vm_compute; reflexivity. }
    exists contents, t, cache', rs. split; [exact Eb|]. split; [exact Eo|]. split; [exact Eg|].
    apply Forall2_cons_inv_l in Hrs as ([s1 v1] & rs1 & [Hs1 [_ Hv1]] & Hrs & ->). apply Forall2_cons_inv_l in Hrs as ([s2 v2] & rs2 & [Hs2 [_ Hv2]] & Hrs & ->).
    apply Forall2_nil_inv_l in Hrs as ->. cbn in Hs1, Hs2, Hv1, Hv2. subst s1 s2.
    rewrite (Hv1 (ikey (str "bat") 4 kTypeValue, str "old")) by (vm_compute; reflexivity).
    rewrite (Hv2 (ikey (str "app") 9 kTypeValue, zeros 60)) by (vm_compute; reflexivity). reflexivity.
Defined.
