(* ===== verification/VersionGet.v ===== *)
(** * Reading a version (util/leveldb/db/version_set.cc, [Version::Get])

    The lookup of a key in the files of a version, newest data first, over any component
    that looks keys up in table files, and the statistics that lookups leave for
    compaction. *)

From S2P Require Import Prelude Slice Order Coding DbFormat InternalOrder FileNames Status VersionEdit Version Table.
From stdpp Require Import strings sorting.
#[local] Open Scope Z_scope.

(** ** Lookups in table files *)

(** [TableCache::Get]: the status, what the callback was called with, and the new state. *)
Class TableLookup (T : Type) := tl_Get : ReadOptions -> Z -> Z -> bytes -> T -> outcome (Status * option (bytes * bytes) * T).

(** ** Saving a value *)

Inductive SaverState := SNotFound | SFound | SDeleted | SCorrupt.

(** [std::sort] with [NewestFirst]; no two files of a level have the same number. *)
Definition NewestFirst (a b : FileMetaData) : Prop := number b <= number a.
#[global] Instance newest_first_dec a b : Decision (NewestFirst a b).
Proof. unfold NewestFirst. apply _. Defined.

Record GetStats := MkStats { seek_file : option FileMetaData; seek_file_level : Z }.

(** The variables of [Version::Get] that its loops carry on. *)
Record Reads := MkReads { stats : GetStats; last_file_read : option (FileMetaData * Z) }.

Section Ops.
Context {T : Type} `{TableLookup T} (c : Comparator).

(** The saver's state and value after the callback. *)
Definition SaveValue (user_key : bytes) (ikey v : bytes) : outcome (SaverState * option bytes) :=
  '(good, parsed) ← ParseInternalKey ikey;
  match (good : bool), parsed with
  | true, Some p =>
      if cmp_Compare c (DbFormat.user_key p) user_key =? 0 then
        if type p =? kTypeValue then Ret (SFound, Some v) else Ret (SDeleted, None)
      else Ret (SNotFound, None)
  | true, None => Undef
  | false, _ => Ret (SCorrupt, None)
  end.

(** The files of level 0 that overlap the key. *)
Fixpoint level0_files (user_key : bytes) (files : list FileMetaData) : outcome (list FileMetaData) :=
  match files with
  | [] => Ret []
  | f :: files' =>
      s ← InternalKey_user_key (smallest f);
      inside ← (if 0 <=? cmp_Compare c user_key s then l ← InternalKey_user_key (largest f); Ret (cmp_Compare c user_key l <=? 0) else Ret false);
      tmp ← level0_files user_key files';
      Ret (if (inside : bool) then f :: tmp else tmp)
  end.

(** The file of another level that may have the key. *)
Definition level_file (user_key internal_key : bytes) (files : list FileMetaData) : outcome (option FileMetaData) :=
  index ← FindFile c files internal_key;
  if Z.of_nat (length files) <=? u32 index then Ret None
  else
    match files !! Z.to_nat (u32 index) with
    | None => Undef
    | Some f => s ← InternalKey_user_key (smallest f); Ret (if cmp_Compare c user_key s <? 0 then None else Some f)
    end.

(** ** [ForEachOverlapping] *)

Section Each.
Context {A : Type} (func : A -> Z -> FileMetaData -> outcome (bool * A)).

(** Calls [func] until it returns false. *)
Fixpoint call_each (level : Z) (files : list FileMetaData) (arg : A) : outcome (bool * A) :=
  match files with
  | [] => Ret (true, arg)
  | f :: files' =>
      '(more, arg) ← func arg level f;
      if (more : bool) then call_each level files' arg else Ret (false, arg)
  end.

Fixpoint each_level (level : Z) (levels : list (list FileMetaData)) (user_key internal_key : bytes) (arg : A) : outcome A :=
  match levels with
  | [] => Ret arg
  | files :: levels' =>
      match files with
      | [] => each_level (level + 1) levels' user_key internal_key arg
      | _ =>
          f ← level_file user_key internal_key files;
          '(more, arg) ← call_each level (option_list f) arg;
          if (more : bool) then each_level (level + 1) levels' user_key internal_key arg else Ret arg
      end
  end.

Definition ForEachOverlapping (files : list (list FileMetaData)) (user_key internal_key : bytes) (arg : A) : outcome A :=
  match files with
  | [] => Undef
  | level0 :: levels =>
      tmp ← level0_files user_key level0;
      '(more, arg) ← call_each 0 (merge_sort NewestFirst tmp) arg;
      if (more : bool) then each_level 1 levels user_key internal_key arg else Ret arg
  end.
End Each.

(** ** [Version::Get] *)

(** The loop over the files of a level.  [inl] is the status and the value that
    are returned. *)
Fixpoint get_files (options : ReadOptions) (ikey user_key : bytes) (level : Z) (files : list FileMetaData) (r : Reads) (t : T) :
    outcome (((Status * option bytes) + unit) * Reads * T) :=
  match files with
  | [] => Ret (inr tt, r, t)
  | f :: files' =>
      let st := match last_file_read r, seek_file (stats r) with
                | Some (f0, l0), None => MkStats (Some f0) l0
                | _, _ => stats r
                end in
      let r := MkReads st (Some (f, level)) in
      '(s, saved, t) ← tl_Get options (number f) (file_size f) ikey t;
      '(state, value) ← match saved with Some (k, v) => SaveValue user_key k v | None => Ret (SNotFound, None) end;
      if negb (ok s) then Ret (inl (s, value), r, t)
      else
        match state with
        | SNotFound => get_files options ikey user_key level files' r t
        | SFound => Ret (inl (s, value), r, t)
        | SDeleted => s ← NotFound_status [] []; Ret (inl (s, None), r, t)
        | SCorrupt => s ← Corruption (str "corrupted key for ") user_key; Ret (inl (s, None), r, t)
        end
  end.

(** The list of files to search in a level. *)
Definition search_files (ikey user_key : bytes) (level : Z) (files : list FileMetaData) : outcome (list FileMetaData) :=
  if level =? 0 then tmp ← level0_files user_key files; Ret (merge_sort NewestFirst tmp)
  else f ← level_file user_key ikey files; Ret (option_list f).

Fixpoint get_levels (options : ReadOptions) (ikey user_key : bytes) (level : Z) (levels : list (list FileMetaData)) (r : Reads) (t : T) :
    outcome (Status * option bytes * Reads * T) :=
  match levels with
  | [] => s ← NotFound_status [] []; Ret (s, None, r, t)
  | files :: levels' =>
      match files with
      | [] => get_levels options ikey user_key (level + 1) levels' r t
      | _ =>
          fs ← search_files ikey user_key level files;
          '(x, r, t) ← get_files options ikey user_key level fs r t;
          match x with
          | inl (s, value) => Ret (s, value, r, t)
          | inr _ => get_levels options ikey user_key (level + 1) levels' r t
          end
      end
  end.

(** The value is what [*value] was assigned, if it was. *)
Definition Version_Get (files : list (list FileMetaData)) (options : ReadOptions) (k : LookupKey) (t : T) : outcome (Status * option bytes * GetStats * T) :=
  '(s, value, r, t) ← get_levels options (lookup_internal_key k) (lookup_user_key k) 0 files (MkReads (MkStats None (-1)) None) t;
  Ret (s, value, stats r, t).
End Ops.

(** ** Seeks *)

(** [allowed_seeks] of the files by number, and [file_to_compact_] with its level. *)
Record Seeks := MkSeeks { allowed_seeks : gmap Z Z; file_to_compact_ : option (FileMetaData * Z) }.

(** The seeks that [Builder::Apply] allows a new file. *)
Definition seeks_of (f : FileMetaData) : Z := let n := i32 (file_size f / 16384) in if n <? 100 then 100 else n.

Definition UpdateStats (s : GetStats) (v : Seeks) : outcome (bool * Seeks) :=
  match seek_file s with
  | None => Ret (false, v)
  | Some f =>
      match allowed_seeks v !! number f with
      | None => Undef
      | Some n =>
          if n =? - 2 ^ 31 then Undef
          else
            let allowed := <[number f := n - 1]> (allowed_seeks v) in
            match file_to_compact_ v with
            | None => if n - 1 <=? 0 then Ret (true, MkSeeks allowed (Some (f, seek_file_level s))) else Ret (false, MkSeeks allowed None)
            | Some _ => Ret (false, MkSeeks allowed (file_to_compact_ v))
            end
      end
  end.

(** [State::Match]: the first match and the number of matches. *)
Definition Match (state : GetStats * Z) (level : Z) (f : FileMetaData) : outcome (bool * (GetStats * Z)) :=
  let matches := state.2 + 1 in
  let st := if matches =? 1 then MkStats (Some f) level else state.1 in
  Ret (matches <? 2, (st, matches)).

Definition RecordReadSample (c : Comparator) (files : list (list FileMetaData)) (internal_key : bytes) (v : Seeks) : outcome (bool * Seeks) :=
  '(good, parsed) ← ParseInternalKey internal_key;
  match (good : bool), parsed with
  | true, Some p =>
      state ← ForEachOverlapping c Match files (DbFormat.user_key p) internal_key (MkStats None (-1), 0);
      if 2 <=? state.2 then UpdateStats state.1 v else Ret (false, v)
  | true, None => Undef
  | false, _ => Ret (false, v)
  end.

(** ** What a lookup finds *)

Section Found.
Context (c : Comparator) `{!ComparatorLaws c}.
Abbreviation ucmp := (cmp_Compare c).
Abbreviation iord := (internal_ord c).

(** The first entry at or after [k], if its user key is [k]'s. *)
Definition hit (k : bytes) (es : list entry) : option entry :=
  e ← es !! rank iord k es; if ucmp (ukey e.1) (ukey k) =? 0 then Some e else None.

(** Entries of [k]'s user key that are not newer than [k]. *)
Definition candidate (k : bytes) (e : entry) : Prop := ucmp (ukey e.1) (ukey k) = 0 /\ iord k e.1 <= 0.

(** The newest of the candidates, if there is one. *)
Definition found (k : bytes) (es : list entry) (o : option entry) : Prop :=
  match o with
  | Some e => e ∈ es /\ candidate k e /\ forall e', e' ∈ es -> candidate k e' -> iord e.1 e'.1 <= 0
  | None => forall e, e ∈ es -> ~ candidate k e
  end.

Definition orelse (a b : option entry) : option entry := match a with Some _ => a | None => b end.

(** Every entry of the one list is newer than those of the other for the same user key. *)
Definition newer (es es' : list entry) : Prop := forall e e', e ∈ es -> e' ∈ es' -> ucmp (ukey e.1) (ukey e'.1) = 0 -> iord e.1 e'.1 < 0.

Lemma user_eq_trans a b d : ucmp a b = 0 -> ucmp d b = 0 -> ucmp a d = 0.
Proof.
  intros H1 H2. pose proof (cmp_antisym (c := c) b d) as Hbd. pose proof (cmp_antisym (c := c) a b). pose proof (cmp_trans (c := c) a b d ltac:(lia) ltac:(lia)).
  pose proof (cmp_trans (c := c) d b a ltac:(lia) ltac:(lia)). pose proof (cmp_antisym (c := c) a d). lia.
Qed.

Lemma found_app k a b oa ob : newer a b -> found k a oa -> found k b ob -> found k (a ++ b) (orelse oa ob).
Proof.
  intros Hn Ha Hb. destruct oa as [e|]; cbn [orelse found] in *.
  - destruct Ha as (He & Hc & Hm). split_and!; [apply elem_of_app; by left|done|]. intros e' [He'|He']%elem_of_app Hc'; [by apply Hm|].
    assert (iord e.1 e'.1 < 0); [|lia]. apply Hn; [done..|]. apply (user_eq_trans _ (ukey k)); [apply Hc|apply Hc'].
  - destruct ob as [e|]; cbn [found] in *.
    + destruct Hb as (He & Hc & Hm). split_and!; [apply elem_of_app; by right|done|]. intros e' [He'|He']%elem_of_app Hc'; [by apply Ha in Hc'|by apply Hm].
    + intros e [He|He]%elem_of_app; [by apply Ha|by apply Hb].
Qed.

Lemma found_none k es : (forall e, e ∈ es -> ~ candidate k e) -> found k es None.
Proof. done. Qed.

Lemma found_candidates k es es' o : (forall e, candidate k e -> e ∈ es <-> e ∈ es') -> found k es o -> found k es' o.
Proof.
  intros He. destruct o as [e|]; cbn.
  - intros (H1 & H2 & H3). split_and!; [by apply He|done|]. intros e' Hin Hc. apply H3; [by apply He|done].
  - intros H e Hin Hc. by apply (H e); [apply He|].
Qed.

Lemma found_unique k es o o' : (forall e e', e ∈ es -> e' ∈ es -> iord e.1 e'.1 = 0 -> e = e') -> Forall (fun e => internal_good e.1) es -> found k es o -> found k es o' -> o = o'.
Proof.
  intros Hu Hg H1 H2. destruct o as [e|], o' as [e'|]; cbn in H1, H2; [|destruct H1 as (? & ? & _); by apply H2 in H|destruct H2 as (? & ? & _); by apply H1 in H|done].
  destruct H1 as (He & Hc & Hm), H2 as (He' & Hc' & Hm'). f_equal. apply Hu; [done..|]. rewrite Forall_forall in Hg.
  pose proof (Hm e' He' Hc'). pose proof (Hm' e He Hc). pose proof (ord_anti (ord := iord) e.1 e'.1 (Hg e He) (Hg e' He')). lia.
Qed.

Lemma hit_found k es : internal_good k -> ascending internal_good iord es -> found k es (hit k es).
Proof.
  intros Hk Ha. unfold hit. destruct (es !! rank iord k es) as [e|] eqn:Ee; cbn [mbind option_bind].
  - assert (iord k e.1 <= 0) as Hke.
    { pose proof (ascending_lookup_ok _ _ _ Ha Ee) as Hg. pose proof (rank_below k es _ e Ha Hk Ee) as Hb. unfold below in Hb. pose proof (ord_anti (ord := iord) k e.1 Hk Hg). lia. }
    assert (forall e', e' ∈ es -> candidate k e' -> iord e.1 e'.1 <= 0) as Hmin.
    { intros e' [j Hj]%list_elem_of_lookup [_ Hc]. destruct (Nat.lt_trichotomy j (rank iord k es)) as [Hlt|[->|Hgt]].
      - apply (rank_below k es j e' Ha Hk Hj) in Hlt. unfold below in Hlt. pose proof (ord_anti (ord := iord) k e'.1 Hk (ascending_lookup_ok _ _ _ Ha Hj)). lia.
      - rewrite Ee in Hj. injection Hj as <-. rewrite key_refl; [done|]. by eapply ascending_lookup_ok.
      - pose proof (ascending_lt _ _ _ _ _ Ha Ee Hj Hgt). lia. }
    destruct (Z.eqb_spec (ucmp (ukey e.1) (ukey k)) 0) as [E|Hne].
    + split_and!; [by eapply list_elem_of_lookup_2|done|done].
    + intros e' He' Hc'. apply Hne. pose proof (Hmin e' He' Hc') as Hle. pose proof (ascending_lookup_ok _ _ _ Ha Ee) as Hg. pose proof (ascending_ok _ _ Ha He') as Hg'.
      pose proof (internal_user_le c k e.1 Hk Hg Hke). pose proof (internal_user_le c e.1 e'.1 Hg Hg' Hle). destruct Hc' as [Hc' _].
      pose proof (cmp_trans (c := c) (ukey e.1) (ukey e'.1) (ukey k) ltac:(done) ltac:(lia)). pose proof (cmp_antisym (c := c) (ukey e.1) (ukey k)). lia.
  - intros e [j Hj]%list_elem_of_lookup [_ Hc]. apply lookup_ge_None in Ee. pose proof (lookup_lt_Some _ _ _ Hj).
    assert (j < rank iord k es)%nat as Hlt by lia. apply (rank_below k es j e Ha Hk Hj) in Hlt. unfold below in Hlt. pose proof (ord_anti (ord := iord) k e.1 Hk (ascending_lookup_ok _ _ _ Ha Hj)). lia.
Qed.
End Found.

(** ** The files of a version and their entries *)

Lemma nodup_filter_fmap {A B} (g : A -> B) (p : A -> bool) l : NoDup (g <$> l) -> NoDup (g <$> List.filter p l).
Proof.
  induction l as [|x l IH]; [done|]. cbn [fmap list_fmap]. intros [Hx Hl]%NoDup_cons. cbn [List.filter]. destruct (p x); [|by apply IH]. cbn [fmap list_fmap]. apply NoDup_cons. split; [|by apply IH].
  intros Hin. apply Hx. apply list_elem_of_fmap in Hin as (y & -> & Hy). apply list_elem_of_fmap_2. apply list_elem_of_In, filter_In in Hy as [Hy _]. by apply list_elem_of_In.
Qed.

Section Reading.
Context (c : Comparator) `{!ComparatorLaws c} (data : FileMetaData -> list entry).
Abbreviation ucmp := (cmp_Compare c).
Abbreviation iord := (internal_ord c).

(** The entries of a file are in order, and its bounds are its first and last key. *)
Record file_data (f : FileMetaData) : Prop := {
  fd_ok : file_ok c f;
  fd_sorted : ascending internal_good iord (data f);
  fd_keys : Forall (fun e => valid_key e.1) (data f);
  fd_range e : e ∈ data f -> iord (smallest f) e.1 <= 0 /\ iord e.1 (largest f) <= 0;
  fd_last : exists v, (largest f, v) ∈ data f;
}.

Definition level_data (l : list FileMetaData) : list entry := concat (data <$> l).

Lemma level_data_elem l e : e ∈ level_data l <-> exists f, f ∈ l /\ e ∈ data f.
Proof.
  unfold level_data. rewrite list_elem_of_In, in_concat. split.
  - intros (x & Hx & He). apply list_elem_of_In, list_elem_of_fmap in Hx as (f & -> & Hf). exists f. split; [done|by apply list_elem_of_In].
  - intros (f & Hf & He). exists (data f). split; apply list_elem_of_In; [|done]. by apply list_elem_of_fmap_2.
Qed.

(** What has data in the file is inside its range. *)
Lemma candidate_inside k f e : internal_good k -> file_data f -> e ∈ data f -> candidate c k e -> overlaps c (Some (ukey k)) (Some (ukey k)) f = true.
Proof.
  intros Hk [Hok Ha _ Hr _] He [Hu _]. destruct (Hr e He) as [H1 H2]. destruct Hok as [Hs Hl _]. apply valid_key_good in Hs, Hl. pose proof (ascending_ok _ _ Ha He) as Hg.
  apply (internal_user_le c _ _ Hs Hg) in H1. apply (internal_user_le c _ _ Hg Hl) in H2. unfold overlaps, from, upto, start, limit. apply andb_true_iff. split; apply Z.leb_le.
  - pose proof (cmp_antisym (c := c) (ukey e.1) (ukey k)). apply (user_trans c _ (ukey e.1)); [lia|done].
  - apply (user_trans c _ (ukey e.1)); [done|lia].
Qed.

Lemma user_flip a b : (0 <=? ucmp a b) = (ucmp b a <=? 0).
Proof. pose proof (cmp_antisym (c := c) a b). destruct (Z.leb_spec 0 (ucmp a b)), (Z.leb_spec (ucmp b a) 0); lia. Qed.

Lemma level0_files_spec u l : Forall (file_ok c) l -> level0_files c u l = Ret (List.filter (overlaps c (Some u) (Some u)) l).
Proof.
  induction 1 as [|f l [Hs Hl _] _ IH]; [done|]. cbn [level0_files List.filter]. rewrite !user_key_good by done. run. rewrite user_flip.
  unfold overlaps at 1, from, upto. fold (start f) (limit f). destruct (ucmp (start f) u <=? 0); run; rewrite IH; run; [|by rewrite andb_false_r]. rewrite andb_true_r. done.
Qed.

Definition level_choice (k : bytes) (l : list FileMetaData) : option FileMetaData :=
  f ← l !! rank iord k (file_entry <$> l); if ucmp (ukey k) (start f) <? 0 then None else Some f.

Lemma level_file_spec k l : internal_good k -> level_sorted c l -> level_file c (ukey k) k l = Ret (level_choice k l).
Proof.
  intros Hk Hl. pose proof (level_sorted_by_largest c l Hl) as Hbl. destruct Hl as (Hok & _ & Hn). unfold level_file, level_choice. rewrite find_file_spec by done. run.
  pose proof (rank_le iord k (file_entry <$> l)) as Hr. rewrite length_fmap in Hr. rewrite u32_small by lia. rewrite Nat2Z.id. destruct (Z.leb_spec (Z.of_nat (length l)) (Z.of_nat (rank iord k (file_entry <$> l)))) as [Hle|Hlt].
  - by rewrite lookup_ge_None_2 by lia.
  - destruct (lookup_lt_is_Some_2 l (rank iord k (file_entry <$> l))) as [f Ef]; [lia|]. rewrite Ef. cbn [mbind option_bind]. rewrite Forall_lookup in Hok. destruct (Hok _ _ Ef) as [Hs _ _]. rewrite user_key_good by done. run. done.
Qed.

(** Files before the choice end before [k], files after it start after its last key. *)
Lemma files_before k l j f e : internal_good k -> level_sorted c l -> Forall file_data l -> l !! j = Some f -> e ∈ data f -> candidate c k e -> (rank iord k (file_entry <$> l) <= j)%nat.
Proof.
  intros Hk Hl Hd Hj He [_ Hc]. pose proof (level_sorted_by_largest c l Hl) as [Hasc _]. destruct (Nat.lt_ge_cases j (rank iord k (file_entry <$> l))) as [Hlt|]; [exfalso|done].
  rewrite Forall_lookup in Hd. destruct (Hd j f Hj) as [Hok Ha _ Hr _].
  assert ((file_entry <$> l) !! j = Some (file_entry f)) as Hje by (by rewrite list_lookup_fmap, Hj). apply (rank_below k _ j _ Hasc Hk Hje) in Hlt. unfold below in Hlt. cbn in Hlt.
  destruct (Hr e He) as [_ H2]. destruct Hok as [_ Hlg _]. apply valid_key_good in Hlg. pose proof (ascending_ok _ _ Ha He) as Hg.
  pose proof (le_lt_lt (ord := iord) e.1 (largest f) k Hg Hlg Hk H2 Hlt). pose proof (ord_anti (ord := iord) k e.1 Hk Hg). lia.
Qed.

Lemma files_after l i j f g e : level_sorted c l -> Forall file_data l -> l !! i = Some f -> l !! j = Some g -> (i < j)%nat -> e ∈ data g -> internal_good e.1 /\ iord (largest f) e.1 < 0.
Proof.
  intros Hl Hd Hi Hj Hlt He. rewrite Forall_lookup in Hd. destruct (Hd j g Hj) as [Hok' Ha' _ Hr' _], (Hd i f Hi) as [[_ Hlg _] _ _ _ _]. destruct (Hr' e He) as [H1 _]. destruct Hok' as [Hs' _ _].
  apply valid_key_good in Hs', Hlg. split; [by eapply ascending_ok|].
  apply (lt_le_lt (ord := iord) _ (smallest g)); [done|done|by eapply ascending_ok| |done]. destruct Hl as (_ & Hss & _). rewrite <- (take_drop j l) in Hss.
  apply (StronglySorted_app_1_elem_of (fun f g => iord (largest f) (smallest g) < 0) _ _ _ _ Hss); apply list_elem_of_lookup; [exists i; by rewrite lookup_take_lt|exists 0%nat; by rewrite lookup_drop, Nat.add_0_r].
Qed.

(** The one file that is searched in a level has the newest candidate of the level. *)
Lemma level_found k l : internal_good k -> level_sorted c l -> Forall file_data l -> found c k (level_data l) (f ← level_choice k l; hit c k (data f)).
Proof.
  intros Hk Hl Hd. pose proof (level_sorted_by_largest c l Hl) as [Hasc _]. unfold level_choice. pose proof (fun j f e => files_before k l j f e Hk Hl Hd) as Hbefore. set (i := rank iord k (file_entry <$> l)) in *.
  destruct (l !! i) as [f|] eqn:Ef; cbn [mbind option_bind]; cycle 1.
  { intros e (f & Hf & He)%level_data_elem Hc. apply list_elem_of_lookup in Hf as [j Hj]. pose proof (Hbefore j f e Hj He Hc). apply lookup_ge_None in Ef. apply lookup_lt_Some in Hj. lia. }
  pose proof (fun j g e => files_after l i j f g e Hl Hd Ef) as Hafter. pose proof (proj1 (Forall_lookup _ _) Hd i f Ef) as [Hok Ha _ Hr Hlast]. pose proof (file_range c f Hok) as Hrange.
  destruct Hok as [Hs Hlg _]. apply valid_key_good in Hs, Hlg.
  assert (iord k (largest f) <= 0) as Hkl.
  { assert ((file_entry <$> l) !! i = Some (file_entry f)) as Hie by (by rewrite list_lookup_fmap, Ef). pose proof (rank_below k _ i _ Hasc Hk Hie) as Hb. unfold below in Hb. cbn in Hb. pose proof (ord_anti (ord := iord) k (largest f) Hk Hlg). fold i in Hb. lia. }
  destruct (Z.ltb_spec (ucmp (ukey k) (start f)) 0) as [Hlt|Hge]; cbn [mbind option_bind].
  - intros e (g & Hg & He)%level_data_elem Hc. apply list_elem_of_lookup in Hg as [j Hj]. pose proof (Hbefore j g e Hj He Hc) as Hij.
    assert (ucmp (start f) (ukey e.1) <= 0) as Hle.
    { destruct (decide (i = j)) as [<-|Hne].
      - rewrite Ef in Hj. injection Hj as <-. destruct (Hr e He) as [H1 _]. apply internal_user_le; [done|by eapply ascending_ok|done].
      - destruct (Hafter j g e Hj ltac:(lia) He) as [Hge H1]. apply (user_trans c _ (limit f)); [done|]. apply internal_user_le; [done|done|lia]. }
    destruct Hc as [Hc _]. pose proof (user_trans c _ _ _ Hle ltac:(by rewrite Hc)). pose proof (cmp_antisym (c := c) (ukey k) (start f)). lia.
  - pose proof (hit_found c k (data f) Hk Ha) as Hh. destruct (hit c k (data f)) as [e|]; cbn [found] in *.
    + destruct Hh as (He & Hc & Hm). split_and!; [apply level_data_elem; exists f; split; [by eapply list_elem_of_lookup_2|done]|done|].
      intros e' (g & Hg & He')%level_data_elem Hc'. apply list_elem_of_lookup in Hg as [j Hj]. pose proof (Hbefore j g e' Hj He' Hc').
      destruct (decide (i = j)) as [<-|Hne]; [rewrite Ef in Hj; injection Hj as <-; by apply Hm|]. destruct (Hafter j g e' Hj ltac:(lia) He') as [Hg' Hlt].
      pose proof (le_lt_lt (ord := iord) e.1 (largest f) e'.1 (ascending_ok _ _ Ha He) Hlg Hg' (proj2 (Hr e He)) Hlt). lia.
    + intros e' (g & Hg & He')%level_data_elem Hc'. apply list_elem_of_lookup in Hg as [j Hj]. pose proof (Hbefore j g e' Hj He' Hc').
      destruct (decide (i = j)) as [<-|Hne]; [rewrite Ef in Hj; injection Hj as <-; by apply Hh in Hc'|]. destruct (Hafter j g e' Hj ltac:(lia) He') as [Hg' Hlt], Hlast as [v Hv].
      apply (Hh _ Hv). split; [|done]. cbn [fst]. pose proof (internal_user_le c k _ Hk Hlg Hkl). pose proof (internal_user_le c _ _ Hlg Hg' ltac:(lia)). destruct Hc' as [Hc' _].
      pose proof (user_trans c (ukey (largest f)) (ukey e'.1) (ukey k) ltac:(done) ltac:(lia)). pose proof (cmp_antisym (c := c) (ukey k) (ukey (largest f))). lia.
Qed.

(** *** Level 0 *)

(** The first hit in a list of files. *)
Definition first_hit (k : bytes) (fs : list FileMetaData) : option entry := foldr (fun f o => orelse (hit c k (data f)) o) None fs.

Lemma first_hit_app k a b : first_hit k (a ++ b) = orelse (first_hit k a) (first_hit k b).
Proof. unfold first_hit. induction a as [|f a IH]; [done|]. cbn [app foldr]. rewrite IH. by destruct (hit c k (data f)). Qed.

Lemma files_found k fs : internal_good k -> Forall file_data fs -> StronglySorted (fun f g => newer c (data f) (data g)) fs -> found c k (level_data fs) (first_hit k fs).
Proof.
  intros Hk Hd Hs. induction Hs as [|f fs _ IH Hf]; [by intros e He%not_elem_of_nil|]. apply Forall_cons in Hd as [Hdf Hd]. change (level_data (f :: fs)) with (data f ++ level_data fs).
  apply (found_app c k (data f) (level_data fs)); [|exact (hit_found c k _ Hk (fd_sorted _ Hdf))|by apply IH].
  intros e e' He (g & Hg & He')%level_data_elem. rewrite Forall_forall in Hf. by apply (Hf g Hg).
Qed.

Lemma level0_found k l : internal_good k -> Forall file_data l -> NoDup (number <$> l) -> (forall f g, f ∈ l -> g ∈ l -> number g < number f -> newer c (data f) (data g)) ->
  found c k (level_data l) (first_hit k (merge_sort NewestFirst (List.filter (overlaps c (Some (ukey k)) (Some (ukey k))) l))).
Proof.
  intros Hk Hd Hnd Hn. set (l' := List.filter _ l). pose proof (merge_sort_Permutation NewestFirst l') as Hp.
  assert (forall f, f ∈ l' <-> f ∈ l /\ overlaps c (Some (ukey k)) (Some (ukey k)) f = true) as Hin by (intros f; unfold l'; by rewrite list_elem_of_In, filter_In, <- list_elem_of_In).
  apply (found_candidates c k (level_data (merge_sort NewestFirst l'))).
  { intros e Hc. rewrite !level_data_elem. split; intros (f & Hf & He); exists f; (split; [|done]).
    - rewrite Hp in Hf. by apply Hin in Hf as [? _].
    - rewrite Hp, Hin. split; [done|]. rewrite Forall_forall in Hd. by apply (candidate_inside k f e Hk (Hd f Hf)). }
  assert (StronglySorted NewestFirst (merge_sort NewestFirst l')) as Hss by (apply StronglySorted_merge_sort; [intros a b d; unfold NewestFirst; lia|intros a b; unfold NewestFirst; lia]).
  assert (NoDup (number <$> merge_sort NewestFirst l')) as Hnd' by (rewrite Hp; unfold l'; by apply nodup_filter_fmap).
  apply files_found; [done|rewrite Forall_forall in *; intros f; rewrite Hp, Hin; intros [? _]; by apply Hd|].
  assert (forall f, f ∈ merge_sort NewestFirst l' -> f ∈ l) as Hsub by (intros f; rewrite Hp, Hin; by intros [? _]).
  clear Hp. induction Hss as [|f fs Hss IH Hf]; [constructor|]. cbn [fmap list_fmap] in Hnd'. apply NoDup_cons in Hnd' as [Hni Hnd']. constructor; [by apply IH; [|intros g Hg; apply Hsub; by right]|].
  rewrite Forall_forall in *. intros g Hg. apply Hn; [apply Hsub; by left|apply Hsub; by right|]. specialize (Hf g Hg). unfold NewestFirst in Hf.
  assert (number g <> number f); [|lia]. intros E. apply Hni. rewrite <- E. by apply list_elem_of_fmap_2.
Qed.
End Reading.

(** ** [Version::Get] finds the newest version of a key *)

(** Lookups in table files see the entries of each file.  [inv n] is a state that is good
    for [n] more lookups: a lookup may use up something that there is only so much of,
    such as the ids of the block cache. *)
Class TableLookupLaws (T : Type) `{TableLookup T} (c : Comparator) (inv : nat -> T -> Prop) (known : FileMetaData -> Prop) (data : FileMetaData -> list entry) : Prop := {
  tll_less n t : inv (S n) t -> inv n t;
  tll_get n f ro k t : known f -> internal_good k -> inv (S n) t -> exists saved t', tl_Get ro (number f) (file_size f) k t = Ret (OK, saved, t') /\ inv n t' /\
    (forall e, saved = Some e -> data f !! rank (internal_ord c) k (data f) = Some e) /\
    (forall e, data f !! rank (internal_ord c) k (data f) = Some e -> cmp_Compare c (ukey e.1) (ukey k) = 0 -> saved = Some e);
}.

(** What is reported for an entry, or for none. *)
Definition not_found : Status := match NotFound_status [] [] with Ret s => s | _ => OK end.
Definition entry_type (k : bytes) : Z := match ParseInternalKey k with Ret (_, Some p) => type p | _ => 0 end.
Definition reported_value (o : option entry) : Status * option bytes :=
  match o with Some e => if entry_type e.1 =? kTypeValue then (OK, Some e.2) else (not_found, None) | None => (not_found, None) end.

Section Getting.
Context {T : Type} `{TableLookup T} (c : Comparator) `{!ComparatorLaws c} (inv : nat -> T -> Prop) (known : FileMetaData -> Prop) (data : FileMetaData -> list entry) `{!TableLookupLaws T c inv known data}.
Abbreviation ucmp := (cmp_Compare c).
Abbreviation iord := (internal_ord c).
Abbreviation file_data := (file_data c data).
Abbreviation level_data := (level_data data).
Abbreviation first_hit := (first_hit c data).

Lemma save_value u k v : valid_key k -> SaveValue c u k v = Ret (if ucmp (ukey k) u =? 0 then if entry_type k =? kTypeValue then (SFound, Some v) else (SDeleted, None) else (SNotFound, None)).
Proof.
  intros (w & seq & t & -> & Ht). unfold SaveValue, entry_type. rewrite parse_ikey by done. run. rewrite ukey_ikey. cbn [user_key type]. by repeat case_match.
Qed.

Lemma inv_less n m t : (m <= n)%nat -> inv n t -> inv m t.
Proof. induction 1 as [|n _ IH]; [done|]. intros Ht%tll_less. by apply IH. Qed.

Lemma get_files_spec ro k level fs n r t : internal_good k -> Forall (fun f => known f /\ file_data f) fs -> inv (length fs + n) t ->
  exists r' t', get_files c ro k (ukey k) level fs r t = Ret (match first_hit k fs with Some e => inl (reported_value (Some e)) | None => inr tt end, r', t') /\ inv n t'.
Proof.
  intros Hk Hd. revert r t. induction Hd as [|f fs [Hkn Hf] _ IH]; intros r t Ht; cbn [get_files]; [by exists r, t|].
  change (inv (S (length fs + n)) t) in Ht. destruct (tll_get _ f ro k t Hkn Hk Ht) as (saved & t1 & -> & Ht1 & H1 & H2). run. change (first_hit k (f :: fs)) with (orelse (hit c k (data f)) (first_hit k fs)). set (r1 := MkReads _ _).
  assert (match saved with Some (k0, v) => SaveValue c (ukey k) k0 v | None => Ret (SNotFound, None) end =
    Ret match hit c k (data f) with Some e => if entry_type e.1 =? kTypeValue then (SFound, Some e.2) else (SDeleted, None) | None => (SNotFound, None) end) as ->.
  { unfold hit. destruct saved as [[k0 v]|].
    - specialize (H1 _ eq_refl). rewrite H1. cbn [mbind option_bind fst]. rewrite save_value; [by destruct (ucmp (ukey k0) (ukey k) =? 0)|].
      pose proof (fd_keys _ _ _ Hf) as Hv. rewrite Forall_forall in Hv. apply (Hv (k0, v)). by eapply list_elem_of_lookup_2.
    - destruct (data f !! rank iord k (data f)) as [e|]; [|done]. cbn [mbind option_bind]. destruct (Z.eqb_spec (ucmp (ukey e.1) (ukey k)) 0) as [E|]; [|done]. by specialize (H2 e eq_refl E). }
  run. change (ok OK) with true. cbn [negb]. destruct (hit c k (data f)) as [e|]; cbn [orelse]; [|by apply IH].
  apply (inv_less _ n) in Ht1; [|lia]. unfold reported_value. destruct (entry_type e.1 =? kTypeValue); [by eexists r1, t1|]. by eexists r1, t1.
Qed.

(** The files that are searched in a level. *)
Definition chosen (k : bytes) (level : Z) (l : list FileMetaData) : list FileMetaData :=
  if level =? 0 then merge_sort NewestFirst (List.filter (overlaps c (Some (ukey k)) (Some (ukey k))) l) else option_list (level_choice c k l).

Lemma search_files_spec k level l : internal_good k -> Forall (file_ok c) l -> (level <> 0 -> level_sorted c l) -> search_files c k (ukey k) level l = Ret (chosen k level l).
Proof.
  intros Hk Hok Hl. unfold search_files, chosen. destruct (Z.eqb_spec level 0) as [->|Hne]; [by rewrite level0_files_spec|]. by rewrite level_file_spec by auto.
Qed.

Lemma chosen_in k level l f : f ∈ chosen k level l -> f ∈ l.
Proof.
  unfold chosen. destruct (level =? 0).
  - rewrite (merge_sort_Permutation NewestFirst). intros Hf. apply list_elem_of_In, filter_In in Hf as [Hf _]. by apply list_elem_of_In.
  - unfold level_choice. destruct (l !! _) as [g|] eqn:E; cbn; [|by intros ?%not_elem_of_nil]. destruct (_ <? _); cbn; [by intros ?%not_elem_of_nil|]. intros ->%list_elem_of_singleton. by eapply list_elem_of_lookup_2.
Qed.

Lemma chosen_nil k level : chosen k level [] = [].
Proof. unfold chosen. by destruct (level =? 0). Qed.

(** Levels, from [level] on. *)
Fixpoint searched (k : bytes) (level : Z) (levels : list (list FileMetaData)) : list FileMetaData :=
  match levels with [] => [] | l :: levels' => chosen k level l ++ searched k (level + 1) levels' end.

Definition level_fine (level : Z) (l : list FileMetaData) : Prop := Forall (fun f => known f /\ file_data f) l /\ (level <> 0 -> level_sorted c l).

Lemma get_levels_spec ro k n levels : forall level r t, 0 <= level -> internal_good k -> (forall i l, levels !! i = Some l -> level_fine (level + Z.of_nat i) l) -> inv (length (searched k level levels) + n) t ->
  exists r' t', get_levels c ro k (ukey k) level levels r t = Ret ((reported_value (first_hit k (searched k level levels))).1, (reported_value (first_hit k (searched k level levels))).2, r', t') /\ inv n t'.
Proof.
  induction levels as [|l levels IH]; intros level r t Hlv Hk Hf Ht; cbn [get_levels searched]; [by exists r, t|].
  assert (forall i x, levels !! i = Some x -> level_fine (level + 1 + Z.of_nat i) x) as Hf' by (intros i x Hi; specialize (Hf (S i) x Hi); by replace (level + 1 + Z.of_nat i) with (level + Z.of_nat (S i)) by lia).
  destruct (Hf 0%nat l eq_refl) as [Hd Hs]. rewrite Z.add_0_r in Hs.
  destruct l as [|f l]; [cbn [searched] in Ht; rewrite chosen_nil in *; by apply IH; [lia|..]|]. cbn [searched] in Ht. rewrite length_app, <- Nat.add_assoc in Ht. rewrite search_files_spec; [|done|eapply Forall_impl; [exact Hd|]; intros g [_ []]; done|done]. run.
  destruct (get_files_spec ro k level (chosen k level (f :: l)) (length (searched k (level + 1) levels) + n) r t Hk) as (r1 & t1 & -> & Ht1); [|done|].
  { rewrite Forall_forall in *. intros g Hg. apply Hd. by apply chosen_in in Hg. }
  run. rewrite first_hit_app. destruct (first_hit k (chosen k level (f :: l))) as [e|]; cbn [orelse]; [|by apply IH; [lia|..]].
  destruct (reported_value (Some e)) as [s v] eqn:Er. exists r1, t1. split; [done|]. by apply (inv_less (length (searched k (level + 1) levels) + n)); [lia|].
Qed.

(** The version: files of the right shape, and newer data in lower levels and, in level
    0, in files with higher numbers. *)
Record version_data (files : list (list FileMetaData)) : Prop := {
  vd_ok : version_ok c files;
  vd_files l f : l ∈ files -> f ∈ l -> known f /\ file_data f;
  vd_numbers l : files !! 0%nat = Some l -> NoDup (number <$> l);
  vd_level0 l f g : files !! 0%nat = Some l -> f ∈ l -> g ∈ l -> number g < number f -> newer c (data f) (data g);
  vd_levels i j l l' f g : files !! i = Some l -> files !! j = Some l' -> (i < j)%nat -> f ∈ l -> g ∈ l' -> newer c (data f) (data g);
}.

Definition version_entries (files : list (list FileMetaData)) : list entry := concat (level_data <$> files).

Lemma searched_found k level levels : 0 <= level -> internal_good k -> (forall i l, levels !! i = Some l -> level_fine (level + Z.of_nat i) l) ->
  (level = 0 -> forall l, levels !! 0%nat = Some l -> NoDup (number <$> l) /\ forall f g, f ∈ l -> g ∈ l -> number g < number f -> newer c (data f) (data g)) ->
  (forall i j l l' f g, levels !! i = Some l -> levels !! j = Some l' -> (i < j)%nat -> f ∈ l -> g ∈ l' -> newer c (data f) (data g)) ->
  found c k (version_entries levels) (first_hit k (searched k level levels)).
Proof.
  revert level. induction levels as [|l levels IH]; intros level Hlv Hk Hf H0 Hn; [by intros e ?%not_elem_of_nil|]. cbn [searched]. rewrite first_hit_app.
  change (version_entries (l :: levels)) with (level_data l ++ version_entries levels). destruct (Hf 0%nat l eq_refl) as [Hd Hs]. rewrite Z.add_0_r in Hs.
  assert (Forall file_data l) as Hd' by (eapply Forall_impl; [exact Hd|]; by intros f [_ ?]). apply (found_app c).
  - intros e e' (f & Hff & He)%level_data_elem He'. unfold version_entries in He'. apply list_elem_of_In, in_concat in He' as (x & Hx & He'). apply list_elem_of_In in Hx, He'.
    apply list_elem_of_fmap in Hx as (l' & -> & Hl'). apply level_data_elem in He' as (g & Hg & He'). apply list_elem_of_lookup in Hl' as [j Hj]. by apply (Hn 0%nat (S j) l l' f g eq_refl Hj ltac:(lia) Hff Hg).
  - unfold chosen. destruct (Z.eqb_spec level 0) as [->|Hne].
    + destruct (H0 eq_refl l eq_refl) as [Hnd Hnw]. by apply level0_found.
    + pose proof (level_found c data k l Hk (Hs Hne) Hd') as Hfd. destruct (level_choice c k l) as [f|]; [|done]. cbn in Hfd |- *. by destruct (hit c k (data f)).
  - apply IH; [lia|done| |lia|].
    + intros i x Hi. specialize (Hf (S i) x Hi). by replace (level + 1 + Z.of_nat i) with (level + Z.of_nat (S i)) by lia.
    + intros i j x y f g Hi Hj Hlt. apply (Hn (S i) (S j) x y f g Hi Hj). lia.
Qed.

(** No file is looked into twice. *)
Lemma searched_length k levels : forall level, (length (searched k level levels) <= length (concat levels))%nat.
Proof.
  induction levels as [|l levels IH]; intros level; cbn [searched concat]; [done|]. rewrite !length_app. specialize (IH (level + 1)). enough (length (chosen k level l) <= length l)%nat by lia. unfold chosen. destruct (level =? 0).
  - rewrite (merge_sort_Permutation NewestFirst). apply List.filter_length_le.
  - unfold level_choice. destruct (l !! _) as [g|] eqn:E; cbn; [|lia]. apply lookup_lt_Some in E. destruct (_ <? _); cbn; lia.
Qed.

Lemma version_get_spec files ro k n t : version_data files -> internal_good (lookup_internal_key k) -> lookup_user_key k = ukey (lookup_internal_key k) -> inv (length (concat files) + n) t ->
  exists o s v st t', Version_Get c files ro k t = Ret (s, v, st, t') /\ (s, v) = reported_value o /\ inv n t' /\ found c (lookup_internal_key k) (version_entries files) o.
Proof.
  intros [Hok Hfl Hnum Hl0 Hlv] Hk Hu Ht. unfold Version_Get. rewrite Hu. set (ik := lookup_internal_key k) in *.
  assert (forall i l, files !! i = Some l -> level_fine (0 + Z.of_nat i) l) as Hfine.
  { intros i l Hi. split; [apply Forall_forall; intros f Hf; apply (Hfl l f); [by eapply list_elem_of_lookup_2|done]|]. destruct i as [|i]; [done|]. intros _. by apply (vo_sorted _ _ Hok i). }
  destruct (get_levels_spec ro ik n files 0 (MkReads (MkStats None (-1)) None) t ltac:(done) Hk Hfine ltac:(eapply inv_less; [|exact Ht]; pose proof (searched_length ik files 0); lia)) as (r & t' & -> & Ht'). run.
  eexists (first_hit ik (searched ik 0 files)), _, _, _, t'. split_and!; [done|by destruct (reported_value _)|done|].
  apply searched_found; [done|done|done| |done]. intros _ l Hl. split; [by apply Hnum|]. intros f g. by apply Hl0.
Qed.
End Getting.

(** ** [Get] by [ForEachOverlapping] *)

(** What [Get] does with one file, as a callback of [ForEachOverlapping]. *)
Definition get_one {T} `{TableLookup T} (c : Comparator) (options : ReadOptions) (ikey user_key : bytes) (arg : ((Status * option bytes) + unit) * Reads * T) (level : Z) (f : FileMetaData) :
    outcome (bool * (((Status * option bytes) + unit) * Reads * T)) :=
  '(x, r, t) ← get_files c options ikey user_key level [f] arg.1.2 arg.2;
  Ret (match x with inr _ => true | inl _ => false end, (x, r, t)).

Section Overlapping.
Context {T : Type} `{TableLookup T} (c : Comparator) (options : ReadOptions) (ikey user_key : bytes).
Abbreviation one := (get_one c options ikey user_key).

Lemma get_files_cons level f fs r t : get_files c options ikey user_key level (f :: fs) r t =
  ('(x, r, t) ← get_files c options ikey user_key level [f] r t; match x with inr _ => get_files c options ikey user_key level fs r t | inl y => Ret (inl y, r, t) end).
Proof.
  cbn [get_files]. destruct (tl_Get options (number f) (file_size f) ikey t) as [[[s saved] t1]| |]; run; [|done|done]. set (o := match saved with Some _ => _ | None => _ end). destruct o as [[state v]| |]; run; [|done|done].
  destruct (negb (ok s)); [done|]. destruct state; [done|done|by destruct (NotFound_status [] [])|by destruct (Corruption (str "corrupted key for ") user_key)].
Qed.

Lemma call_each_get level fs r t : call_each one level fs (inr tt, r, t) =
  ('(x, r, t) ← get_files c options ikey user_key level fs r t; Ret (match x with inr _ => true | inl _ => false end, (x, r, t))).
Proof.
  revert r t. induction fs as [|f fs IH]; intros r t; [done|]. rewrite get_files_cons. cbn [call_each]. unfold get_one. cbn [fst snd].
  destruct (get_files c options ikey user_key level [f] r t) as [[[x r1] t1]| |]; run; [|done|done]. destruct x as [y|[]]; [done|]. apply IH.
Qed.

Definition finish_get (arg : ((Status * option bytes) + unit) * Reads * T) : outcome (Status * option bytes * Reads * T) :=
  let '(x, r, t) := arg in
  match x with inl (s, v) => Ret (s, v, r, t) | inr _ => s ← NotFound_status [] []; Ret (s, None, r, t) end.

Lemma each_level_get levels : forall level r t, 0 < level ->
  get_levels c options ikey user_key level levels r t = (arg ← each_level c one level levels user_key ikey (inr tt, r, t); finish_get arg).
Proof.
  induction levels as [|l levels IH]; intros level r t Hl; [done|]. cbn [get_levels each_level]. destruct l as [|f l]; [apply IH; lia|].
  unfold search_files. rewrite (proj2 (Z.eqb_neq level 0)) by lia. destruct (level_file c user_key ikey (f :: l)) as [o| |]; run; [|done|done].
  rewrite call_each_get. destruct (get_files c options ikey user_key level (option_list o) r t) as [[[x r1] t1]| |]; run; [|done|done].
  destruct x as [[s v]|[]]; [done|]. apply IH. lia.
Qed.
End Overlapping.

(** Version::Get is the search that ForEachOverlapping makes.  A comment asks for Get to
    be written with ForEachOverlapping; with a callback that looks into one file and stops
    at the first answer it gives what Get gives, on every version, state and key:
    the same status and value, the same statistics, the same lookups in table files in
    the same order. *)
Theorem get_by_overlapping {T} `{TableLookup T} c files options k (t : T) : files <> [] ->
  Version_Get c files options k t =
  ('(s, value, r, t) ← (arg ← ForEachOverlapping c (get_one c options (lookup_internal_key k) (lookup_user_key k)) files (lookup_user_key k) (lookup_internal_key k) (inr tt, MkReads (MkStats None (-1)) None, t);
      finish_get arg);
   Ret (s, value, stats r, t)).
Proof.
  intros Hne. unfold Version_Get. f_equal. destruct files as [|l levels]; [done|]. cbn [get_levels ForEachOverlapping]. set (r0 := MkReads _ _).
  destruct l as [|f l]; [by rewrite each_level_get|]. unfold search_files. cbn [Z.eqb].
  destruct (level0_files c (lookup_user_key k) (f :: l)) as [tmp| |]; run; [|done|done]. rewrite call_each_get.
  destruct (get_files c options _ _ 0 (merge_sort NewestFirst tmp) r0 t) as [[[x r1] t1]| |]; run; [|done|done]. destruct x as [[s v]|[]]; [done|]. by apply each_level_get.
Qed.

(** C8: a version answers with the newest data.  In a version whose files have the entries
    that their bounds promise, with newer entries in lower levels and, in level 0, in
    files with higher numbers, Get looks the user key up at a sequence number and reports
    what the newest entry at that number says, over the entries of all files of all
    levels: its value with status OK, or NotFound if it is a deletion or if there is none.
    The search that skips files by their bounds and stops at the first hit misses
    nothing. *)
Theorem version_get_newest {T} `{TableLookup T} c `{!ComparatorLaws c} (inv : nat -> T -> Prop) known data `{!TableLookupLaws T c inv known data} files ro u seq n (t : T) :
  version_data c known data files -> 0 <= seq <= kMaxSequenceNumber -> Z.of_nat (length u) + 13 < 2 ^ 32 -> inv (length (concat files) + n)%nat t ->
  exists k o s v st t', LookupKey_new u seq = Ret k /\ Version_Get c files ro k t = Ret (s, v, st, t') /\ (s, v) = reported_value o /\ inv n t' /\
    found c (ikey u seq kValueTypeForSeek) (version_entries data files) o.
Proof.
  intros Hv Hs Hu Ht. destruct (lookup_key_spec u seq Hs Hu) as (k & Ek & _ & Hik & Huk).
  destruct (version_get_spec c inv known data files ro k n t Hv) as (o & s & v & st & t' & E & Hr & Ht' & Hf); [rewrite Hik; apply ikey_good|by rewrite Huk, Hik, ukey_ikey|done|].
  rewrite Hik in Hf. by exists k, o, s, v, st, t'.
Qed.

(** ** Witnesses *)

(** Lookups in entries by file number. *)
Definition sample_data (n : Z) : list entry :=
  if n =? 9 then [(ikey (str "b") 5 kTypeValue, str "new"); (ikey (str "c") 6 kTypeDeletion, [])]
  else if n =? 4 then [(ikey (str "b") 2 kTypeValue, str "old"); (ikey (str "c") 3 kTypeValue, str "gone"); (ikey (str "d") 1 kTypeValue, str "x")] else [].

Definition sample_lookup : TableLookup unit := fun _ n _ k t => Ret (OK, sample_data n !! rank (internal_ord BytewiseComparator) k (sample_data n), t).
#[local] Existing Instance sample_lookup.

Definition file9 (size : Z) : FileMetaData := MkFile 9 size (ikey (str "b") 5 kTypeValue) (ikey (str "c") 6 kTypeDeletion).
Definition file4 (size : Z) : FileMetaData := MkFile 4 size (ikey (str "b") 2 kTypeValue) (ikey (str "d") 1 kTypeValue).
Definition sized_version (n9 n4 : Z) : list (list FileMetaData) := [[file9 n9]; [file4 n4]; []; []; []; []; []].
Definition sample_version : list (list FileMetaData) := sized_version 100 100.

Lemma sample_lookup_laws : TableLookupLaws unit BytewiseComparator (fun _ _ => True) (fun _ => True) (fun f => sample_data (number f)).
Proof. split; [done|]. intros n f ro k t _ _ _. eexists _, t. split; [reflexivity|]. split_and!; [done|done|]. by intros e -> _. Qed.

Lemma sample_keys : valid_key (ikey (str "b") 5 kTypeValue) /\ valid_key (ikey (str "c") 6 kTypeDeletion) /\ valid_key (ikey (str "b") 2 kTypeValue) /\ valid_key (ikey (str "c") 3 kTypeValue) /\ valid_key (ikey (str "d") 1 kTypeValue).
Proof. split_and!; apply ikey_valid; (split; [by vm_compute|]); first [by left|by right]. Qed.

Lemma sized_files n9 n4 l f : l ∈ sized_version n9 n4 -> f ∈ l -> file_data BytewiseComparator (fun f => sample_data (number f)) f.
Proof.
  intros Hl Hf. destruct sample_keys as (K1 & K2 & K3 & K4 & K5).
  assert (f = file9 n9 \/ f = file4 n4) as [->| ->].
  { unfold sized_version in Hl. repeat (apply elem_of_cons in Hl as [->|Hl]; [first [by apply not_elem_of_nil in Hf|apply list_elem_of_singleton in Hf; auto]|]). by apply not_elem_of_nil in Hl. }
  - split; [by split|split; [repeat constructor; by apply valid_key_good|repeat constructor; vm_compute; reflexivity]|repeat constructor; done| |].
    + intros e [->|[->|[]%not_elem_of_nil]%elem_of_cons]%elem_of_cons; by vm_compute.
    + eexists. apply elem_of_cons. right. by apply elem_of_cons; left.
  - split; [by split|split; [repeat constructor; by apply valid_key_good|repeat constructor; vm_compute; reflexivity]|repeat constructor; done| |].
    + intros e [->|[->|[->|[]%not_elem_of_nil]%elem_of_cons]%elem_of_cons]%elem_of_cons; by vm_compute.
    + eexists. do 2 (apply elem_of_cons; right). by apply elem_of_cons; left.
Qed.

Lemma sized_version_data (known : FileMetaData -> Prop) n9 n4 : known (file9 n9) -> known (file4 n4) -> version_data BytewiseComparator known (fun f => sample_data (number f)) (sized_version n9 n4).
Proof.
  intros K9 K4. split.
  - split; [done| |].
    + apply Forall_forall. intros l Hl. apply Forall_forall. intros f Hf. apply (sized_files n9 n4 l f Hl Hf).
    + intros level l Hl. pose proof (fun f => sized_files n9 n4 l f (list_elem_of_lookup_2 _ _ _ Hl)) as Hf.
      assert ((length l <= 1)%nat) as Hn by (destruct level as [|[|[|[|[|[|]]]]]]; [..|done]; injection Hl as <-; cbn; lia).
      split_and!; [apply Forall_forall; intros f Hin; by apply Hf|destruct l as [|f [|]]; [constructor|repeat constructor|cbn in Hn; lia]|lia].
  - intros l f Hl Hf. split; [|by apply (sized_files n9 n4 l f)]. repeat (apply elem_of_cons in Hl as [->|Hl]; [first [by apply not_elem_of_nil in Hf|by apply list_elem_of_singleton in Hf as ->]|]). by apply not_elem_of_nil in Hl.
  - intros l [= <-]. repeat constructor. intros []%not_elem_of_nil.
  - intros l f g [= <-] ->%list_elem_of_singleton ->%list_elem_of_singleton. cbn. lia.
  - intros i j l l' f g Hi Hj Hlt Hf Hg e e' He He'. destruct i as [|[|i]].
    + injection Hi as <-. apply list_elem_of_singleton in Hf as ->. destruct j as [|[|j]]; [lia| |].
      * injection Hj as <-. apply list_elem_of_singleton in Hg as ->.
        apply elem_of_cons in He as [->|[->|[]%not_elem_of_nil]%elem_of_cons]; apply elem_of_cons in He' as [->|[->|[->|[]%not_elem_of_nil]%elem_of_cons]%elem_of_cons]; vm_compute; intros E; done.
      * assert (l' = []) as -> by (repeat (destruct j as [|j]; [by injection Hj|]); done). by apply not_elem_of_nil in Hg.
    + destruct j as [|[|j]]; [lia|lia|]. assert (l' = []) as -> by (repeat (destruct j as [|j]; [by injection Hj|]); done). by apply not_elem_of_nil in Hg.
    + assert (l = []) as -> by (repeat (destruct i as [|i]; [by injection Hi|]); done). by apply not_elem_of_nil in Hf.
Qed.

Lemma sample_version_data : version_data BytewiseComparator (fun _ => True) (fun f => sample_data (number f)) sample_version.
Proof. by apply sized_version_data. Qed.

(** "b" was overwritten in level 0, "c" deleted there. *)
Lemma version_get_newest_witness : exists k1 k2 st1 st2,
  LookupKey_new (str "b") 9 = Ret k1 /\ Version_Get BytewiseComparator sample_version (MkReadOptions true true) k1 tt = Ret (OK, Some (str "new"), st1, tt) /\
  LookupKey_new (str "c") 9 = Ret k2 /\ Version_Get BytewiseComparator sample_version (MkReadOptions true true) k2 tt = Ret (not_found, None, st2, tt).
Proof.
  destruct (version_get_newest (TableLookupLaws0 := sample_lookup_laws) BytewiseComparator (fun _ _ => True) (fun _ => True) (fun f => sample_data (number f)) sample_version (MkReadOptions true true) (str "b") 9 0 tt
    sample_version_data ltac:(done) ltac:(done) Logic.I) as (k1 & o1 & s1 & v1 & st1 & [] & E1 & G1 & _).
  destruct (version_get_newest (TableLookupLaws0 := sample_lookup_laws) BytewiseComparator (fun _ _ => True) (fun _ => True) (fun f => sample_data (number f)) sample_version (MkReadOptions true true) (str "c") 9 0 tt
    sample_version_data ltac:(done) ltac:(done) Logic.I) as (k2 & o2 & s2 & v2 & st2 & [] & E2 & G2 & _).
  exists k1, k2, st1, st2. split; [exact E1|]. split; [|split; [exact E2|]].
  - rewrite G1. vm_compute in E1. injection E1 as <-. vm_compute in G1. by injection G1 as <- <- _.
  - rewrite G2. vm_compute in E2. injection E2 as <-. vm_compute in G2. by injection G2 as <- <- _.
Defined.

Lemma get_by_overlapping_witness : exists k st, LookupKey_new (str "d") 9 = Ret k /\ Version_Get BytewiseComparator sample_version (MkReadOptions true true) k tt = Ret (OK, Some (str "x"), st, tt) /\
  ('(s, value, r, t) ← (arg ← ForEachOverlapping BytewiseComparator (get_one BytewiseComparator (MkReadOptions true true) (lookup_internal_key k) (lookup_user_key k)) sample_version (lookup_user_key k)
     (lookup_internal_key k) (inr tt, MkReads (MkStats None (-1)) None, tt); finish_get arg); Ret (s, value, stats r, t)) = Ret (OK, Some (str "x"), st, tt).
Proof.
  eexists _, _. split; [vm_compute; reflexivity|]. rewrite <- get_by_overlapping by done. split; vm_compute; reflexivity.
Defined.
