(* ===== verification/Compaction.v ===== *)
(** * Choosing a compaction (util/leveldb/db/version_set.cc, [Compaction])

    Which files of a level are merged into the next one, and what the merge has to know of
    the levels below. *)

From S2P Require Import Prelude Slice Order CLib Bloom Coding DbFormat InternalOrder FileNames Status StdSet VersionEdit Version VersionBuilder LogFormat VersionSet Table VersionGet.
From Stdlib Require Import Floats.SpecFloat.
From stdpp Require Import strings sorting.
#[local] Open Scope Z_scope.

Definition kExpandedCompactionByteSizeLimit : Z := 25 * kTargetFileSize.
Definition MaxFileSizeForLevel (level : Z) : Z := kTargetFileSize.

(** [level_ptrs_] are indices into the levels of [input_version_]. *)
Record Compaction := MkCompaction {
  level_ : Z;
  max_output_file_size_ : Z;
  input_version_ : list (list FileMetaData);
  edit_ : VE.VersionEdit;
  inputs0 : list FileMetaData;
  inputs1 : list FileMetaData;
  grandparents_ : list FileMetaData;
  grandparent_index_ : nat;
  seen_key_ : bool;
  overlapped_bytes_ : Z;
  level_ptrs_ : list nat;
}.

Definition Compaction_new (level : Z) (version : list (list FileMetaData)) (inputs : list FileMetaData) : Compaction :=
  MkCompaction level (MaxFileSizeForLevel level) version VE.new inputs [] [] 0 false 0 (replicate (Z.to_nat kNumLevels) 0%nat).

Definition set_inputs (x : Compaction) (i0 i1 g : list FileMetaData) (e : VE.VersionEdit) : Compaction :=
  MkCompaction (level_ x) (max_output_file_size_ x) (input_version_ x) e i0 i1 g (grandparent_index_ x) (seen_key_ x) (overlapped_bytes_ x) (level_ptrs_ x).
Definition set_edit (x : Compaction) (e : VE.VersionEdit) : Compaction := set_inputs x (inputs0 x) (inputs1 x) (grandparents_ x) e.
Definition set_overlap (x : Compaction) (i : nat) (seen : bool) (n : Z) : Compaction :=
  MkCompaction (level_ x) (max_output_file_size_ x) (input_version_ x) (edit_ x) (inputs0 x) (inputs1 x) (grandparents_ x) i seen n (level_ptrs_ x).
Definition set_ptrs (x : Compaction) (p : list nat) : Compaction :=
  MkCompaction (level_ x) (max_output_file_size_ x) (input_version_ x) (edit_ x) (inputs0 x) (inputs1 x) (grandparents_ x) (grandparent_index_ x) (seen_key_ x) (overlapped_bytes_ x) p.

Section Ops.
Context (c : Comparator).

(** The loop of [GetRange] after the first file. *)
Fixpoint range_loop (inputs : list FileMetaData) (s l : bytes) : outcome (bytes * bytes) :=
  match inputs with
  | [] => Ret (s, l)
  | f :: inputs' =>
      a ← InternalKey_Compare c (smallest f) s;
      b ← InternalKey_Compare c (largest f) l;
      range_loop inputs' (if a <? 0 then smallest f else s) (if 0 <? b then largest f else l)
  end.

Definition GetRange (inputs : list FileMetaData) : outcome (bytes * bytes) :=
  match inputs with [] => Exit 134 | f :: inputs' => range_loop inputs' (smallest f) (largest f) end.

Definition GetRange2 (inputs1 inputs2 : list FileMetaData) : outcome (bytes * bytes) := GetRange (inputs1 ++ inputs2).

(** The inputs of the two levels, the range of the first, and the range of both, after the
    attempt to take more files of the upper level. *)
Definition expand_inputs (files : list (list FileMetaData)) (level : Z) (in0 in1 : list FileMetaData) (range all : bytes * bytes) :
    outcome (list FileMetaData * list FileMetaData * (bytes * bytes) * (bytes * bytes)) :=
  match in1 with
  | [] => Ret (in0, in1, range, all)
  | _ =>
      expanded0 ← GetOverlappingInputs c files level (Some all.1) (Some all.2);
      let inputs1_size := TotalFileSize in1 in
      let expanded0_size := TotalFileSize expanded0 in
      if (length in0 <? length expanded0)%nat && (i64 (inputs1_size + expanded0_size) <? kExpandedCompactionByteSizeLimit) then
        new ← GetRange expanded0;
        expanded1 ← GetOverlappingInputs c files (level + 1) (Some new.1) (Some new.2);
        if (length expanded1 =? length in1)%nat then
          all ← GetRange2 expanded0 expanded1;
          Ret (expanded0, expanded1, new, all)
        else Ret (in0, in1, range, all)
      else Ret (in0, in1, range, all)
  end.

(** The compaction, and [compact_pointer_[level]]. *)
Definition SetupOtherInputs (files : list (list FileMetaData)) (x : Compaction) : outcome (Compaction * bytes) :=
  let level := level_ x in
  range ← GetRange (inputs0 x);
  in1 ← GetOverlappingInputs c files (level + 1) (Some range.1) (Some range.2);
  all ← GetRange2 (inputs0 x) in1;
  '(in0, in1, range, all) ← expand_inputs files level (inputs0 x) in1 range all;
  grandparents ← (if level + 2 <? kNumLevels then GetOverlappingInputs c files (level + 2) (Some all.1) (Some all.2) else Ret (grandparents_ x));
  pointer ← InternalKey_Encode range.2;
  Ret (set_inputs x in0 in1 grandparents (VE.SetCompactPointer level range.2 (edit_ x)), pointer).

(** The first file that ends after the pointer. *)
Fixpoint pick_file (pointer : bytes) (files : list FileMetaData) : outcome (option FileMetaData) :=
  match files with
  | [] => Ret None
  | f :: files' =>
      match pointer with
      | [] => Ret (Some f)
      | _ => l ← InternalKey_Encode (largest f); r ← InternalCompare c l pointer; if 0 <? r then Ret (Some f) else pick_file pointer files'
      end
  end.

(** The level and the file that a compaction starts from. *)
Definition pick_start (vs : VS.VersionSet) (file_to_compact : option (FileMetaData * Z)) : outcome (option (Z * FileMetaData)) :=
  let v := VS.current_ vs in
  if SFleb (Z2double 1) (compaction_score_ v) then
    let level := compaction_level_ v in
    assert! (0 <=? level);
    assert! (level + 1 <? kNumLevels);
    l ← level_files (files_ v) level;
    match VS.compact_pointer_ vs !! Z.to_nat level with
    | None => Undef
    | Some pointer =>
        f ← pick_file pointer l;
        match f, l with
        | Some f, _ => Ret (Some (level, f))
        | None, f :: _ => Ret (Some (level, f))
        | None, [] => Undef
        end
    end
  else Ret ((fun x => (x.2, x.1)) <$> file_to_compact).

Definition set_pointer_at (vs : VS.VersionSet) (level : Z) (p : bytes) : VS.VersionSet := VS.set_pointers vs (<[Z.to_nat level := p]> (VS.compact_pointer_ vs)).

Definition PickCompaction (vs : VS.VersionSet) (file_to_compact : option (FileMetaData * Z)) : outcome (option Compaction * VS.VersionSet) :=
  let files := files_ (VS.current_ vs) in
  start ← pick_start vs file_to_compact;
  match start with
  | None => Ret (None, vs)
  | Some (level, f) =>
      inputs ← (if level =? 0 then
                  range ← GetRange [f];
                  inputs ← GetOverlappingInputs c files 0 (Some range.1) (Some range.2);
                  match inputs with [] => Exit 134 | _ => Ret inputs end
                else Ret [f]);
      '(x, p) ← SetupOtherInputs files (Compaction_new level files inputs);
      Ret (Some x, set_pointer_at vs level p)
  end.

(** The prefix of the inputs that reaches the size limit. *)
Fixpoint cut_inputs (limit total : Z) (inputs : list FileMetaData) : list FileMetaData :=
  match inputs with
  | [] => []
  | f :: inputs' => let total := u64 (total + file_size f) in if limit <=? total then [f] else f :: cut_inputs limit total inputs'
  end.

Definition CompactRange (vs : VS.VersionSet) (level : Z) (begin end_ : option bytes) : outcome (option Compaction * VS.VersionSet) :=
  let files := files_ (VS.current_ vs) in
  inputs ← GetOverlappingInputs c files level begin end_;
  match inputs with
  | [] => Ret (None, vs)
  | _ =>
      let inputs := if 0 <? level then cut_inputs (MaxFileSizeForLevel level) 0 inputs else inputs in
      '(x, p) ← SetupOtherInputs files (Compaction_new level files inputs);
      Ret (Some x, set_pointer_at vs level p)
  end.

Definition IsTrivialMove (x : Compaction) : bool :=
  (length (inputs0 x) =? 1)%nat && (length (inputs1 x) =? 0)%nat && (TotalFileSize (grandparents_ x) <=? kMaxGrandParentOverlapBytes).

Definition delete_inputs (level : Z) (inputs : list FileMetaData) (e : VE.VersionEdit) : VE.VersionEdit := foldl (fun e f => VE.DeleteFile level (number f) e) e inputs.

Definition AddInputDeletions (x : Compaction) (e : VE.VersionEdit) : VE.VersionEdit := delete_inputs (level_ x + 1) (inputs1 x) (delete_inputs (level_ x) (inputs0 x) e).

(** *** [IsBaseLevelForKey] *)

(** In one level: whether the key is outside all files, and the new index. *)
Fixpoint scan_level (user_key : bytes) (files : list FileMetaData) (i : nat) : outcome (bool * nat) :=
  match files with
  | [] => Ret (true, i)
  | f :: files' =>
      l ← InternalKey_user_key (largest f);
      if cmp_Compare c user_key l <=? 0 then
        s ← InternalKey_user_key (smallest f);
        Ret (negb (0 <=? cmp_Compare c user_key s), i)
      else scan_level user_key files' (S i)
  end.

Fixpoint base_loop (user_key : bytes) (lvl : nat) (levels : list (list FileMetaData)) (ptrs : list nat) : outcome (bool * list nat) :=
  match levels with
  | [] => Ret (true, ptrs)
  | files :: levels' =>
      match ptrs !! lvl with
      | None => Undef
      | Some i =>
          '(outside, i) ← scan_level user_key (drop i files) i;
          let ptrs := <[lvl := i]> ptrs in
          if (outside : bool) then base_loop user_key (S lvl) levels' ptrs else Ret (false, ptrs)
      end
  end.

Definition IsBaseLevelForKey (user_key : bytes) (x : Compaction) : outcome (bool * Compaction) :=
  let lvl := Z.to_nat (level_ x + 2) in
  '(r, ptrs) ← base_loop user_key lvl (drop lvl (input_version_ x)) (level_ptrs_ x);
  Ret (r, set_ptrs x ptrs).

(** *** [ShouldStopBefore] *)

Fixpoint skip_grandparents (internal_key : bytes) (gs : list FileMetaData) (i : nat) (seen : bool) (n : Z) : outcome (nat * Z) :=
  match gs with
  | [] => Ret (i, n)
  | g :: gs' =>
      l ← InternalKey_Encode (largest g);
      r ← InternalCompare c internal_key l;
      if 0 <? r then skip_grandparents internal_key gs' (S i) seen (if seen then i64 (n + file_size g) else n) else Ret (i, n)
  end.

Definition ShouldStopBefore (internal_key : bytes) (x : Compaction) : outcome (bool * Compaction) :=
  '(i, n) ← skip_grandparents internal_key (drop (grandparent_index_ x) (grandparents_ x)) (grandparent_index_ x) (seen_key_ x) (overlapped_bytes_ x);
  Ret (if kMaxGrandParentOverlapBytes <? n then (true, set_overlap x i true 0) else (false, set_overlap x i true n)).

(** *** [MaxNextLevelOverlappingBytes] *)

Fixpoint max_overlap (files : list (list FileMetaData)) (level : Z) (l : list FileMetaData) (result : Z) : outcome Z :=
  match l with
  | [] => Ret result
  | f :: l' =>
      overlaps ← GetOverlappingInputs c files (level + 1) (Some (smallest f)) (Some (largest f));
      let sum := TotalFileSize overlaps in
      max_overlap files level l' (if result <? sum then sum else result)
  end.

Definition MaxNextLevelOverlappingBytes (files : list (list FileMetaData)) : outcome Z :=
  foldM (fun level result => l ← level_files files level; max_overlap files level l result) [1; 2; 3; 4; 5] 0.

(** [NeedsCompaction] (version_set.h) *)
Definition NeedsCompaction (v : Version) (file_to_compact : option (FileMetaData * Z)) : bool :=
  SFleb (Z2double 1) (compaction_score_ v) || bool_decide (file_to_compact <> None).

(** The edit of a move to the next level (db_impl.cc, [BackgroundCompaction]). *)
Definition trivial_move (x : Compaction) : outcome VE.VersionEdit :=
  match inputs0 x with
  | [f] => Ret (VE.AddFile (level_ x + 1) (number f) (file_size f) (smallest f) (largest f) (VE.DeleteFile (level_ x) (number f) (edit_ x)))
  | _ => Exit 134
  end.
End Ops.

(** ** The inputs of a compaction *)

Section Inputs.
Context (c : Comparator) `{!ComparatorLaws c}.
Abbreviation ucmp := (cmp_Compare c).
Abbreviation iord := (internal_ord c).
Abbreviation file_ok := (file_ok c).

(** [s] and [l] are the least and the greatest key of the files. *)
Definition hull (inputs : list FileMetaData) (s l : bytes) : Prop :=
  valid_key s /\ valid_key l /\ (exists f, f ∈ inputs /\ smallest f = s) /\ (exists f, f ∈ inputs /\ largest f = l) /\ forall f, f ∈ inputs -> iord s (smallest f) <= 0 /\ iord (largest f) l <= 0.

Lemma compare_valid a b : valid_key a -> valid_key b -> InternalKey_Compare c a b = Ret (iord a b).
Proof. intros Ha Hb. apply compare_keys; by apply valid_key_good. Qed.

Lemma iord_le_trans a b d : valid_key a -> valid_key b -> valid_key d -> iord a b <= 0 -> iord b d <= 0 -> iord a d <= 0.
Proof. intros Ha Hb Hd. apply (ord_le_trans (ok := internal_good) (ord := iord)); by apply valid_key_good. Qed.

Lemma iord_anti a b : valid_key a -> valid_key b -> Z.sgn (iord a b) = - Z.sgn (iord b a).
Proof. intros Ha Hb. apply (ord_anti (ok := internal_good) (ord := iord)); by apply valid_key_good. Qed.

Lemma iord_refl a : valid_key a -> iord a a = 0.
Proof. intros Ha. apply (key_refl (ok := internal_good) (ord := iord)). by apply valid_key_good. Qed.

Lemma range_loop_spec todo : forall seen s l, Forall file_ok (seen ++ todo) -> hull seen s l -> exists s' l', range_loop c todo s l = Ret (s', l') /\ hull (seen ++ todo) s' l'.
Proof.
  induction todo as [|f todo IH]; intros seen s l Hok Hh; cbn [range_loop]; [exists s, l; by rewrite app_nil_r|]. destruct Hh as (Hs & Hl & (fs & Hfs & Es) & (fl & Hfl & El) & Hb).
  assert (file_ok f) as [Hsf Hlf _] by (rewrite Forall_forall in Hok; apply Hok; set_solver). rewrite !compare_valid by done. run.
  replace (seen ++ f :: todo) with ((seen ++ [f]) ++ todo) in * by (by rewrite <- app_assoc). apply IH; [done|]. pose proof (iord_anti (smallest f) s Hsf Hs) as A1. pose proof (iord_anti (largest f) l Hlf Hl) as A2. split_and!.
  - by destruct (_ <? 0).
  - by destruct (0 <? _).
  - destruct (_ <? 0); [exists f|exists fs]; split; set_solver.
  - destruct (0 <? _); [exists f|exists fl]; split; set_solver.
  - intros g [Hg| ->%list_elem_of_singleton]%elem_of_app.
    + assert (file_ok g) as [Hsg Hlg _] by (rewrite Forall_forall in Hok; apply Hok; set_solver). destruct (Hb g Hg) as [B1 B2]. split.
      * destruct (Z.ltb_spec (iord (smallest f) s) 0); [|done]. apply (iord_le_trans _ s); [done..|lia|done].
      * destruct (Z.ltb_spec 0 (iord (largest f) l)); [|done]. apply (iord_le_trans _ l); [done..|lia].
    + split.
      * destruct (Z.ltb_spec (iord (smallest f) s) 0); [by rewrite iord_refl|lia].
      * destruct (Z.ltb_spec 0 (iord (largest f) l)); [by rewrite iord_refl|lia].
Qed.

Lemma get_range_spec inputs : inputs <> [] -> Forall file_ok inputs -> exists s l, GetRange c inputs = Ret (s, l) /\ hull inputs s l.
Proof.
  intros Hne Hok. destruct inputs as [|f inputs]; [done|]. cbn [GetRange]. destruct (range_loop_spec inputs [f] (smallest f) (largest f) Hok) as (s & l & E & Hh); [|by exists s, l].
  apply Forall_cons in Hok as [[Hs Hl _] _]. split_and!; [done|done|exists f; set_solver|exists f; set_solver|]. intros g ->%list_elem_of_singleton. by rewrite !iord_refl.
Qed.

(** The user keys from [s] to [l]. *)
Abbreviation meets s l := (overlaps c (Some (ukey s)) (Some (ukey l))).

Lemma hull_meets inputs s l f : Forall file_ok inputs -> hull inputs s l -> f ∈ inputs -> meets s l f = true.
Proof.
  intros Hok (Hs & Hl & _ & _ & Hb) Hf. rewrite Forall_forall in Hok. pose proof (Hok f Hf) as Hfo. pose proof (file_range c f Hfo) as Hr. destruct Hfo as [Hsf Hlf _], (Hb f Hf) as [B1 B2].
  apply andb_true_iff. split; apply Z.leb_le.
  - apply (user_trans c _ (start f)); [|done]. by apply internal_user_le; [apply valid_key_good..|].
  - apply (user_trans c _ (limit f)); [done|]. by apply internal_user_le; [apply valid_key_good..|].
Qed.

(** What a search of a level returns. *)
Lemma search_level files level s l : version_ok c files -> level_ok level -> valid_key s -> valid_key l ->
  exists lv inputs, files !! Z.to_nat level = Some lv /\ GetOverlappingInputs c files level (Some s) (Some l) = Ret inputs /\ (forall f, f ∈ inputs -> f ∈ lv) /\ (forall f, f ∈ lv -> meets s l f = true -> f ∈ inputs) /\
    (level <> 0 -> inputs = List.filter (meets s l) lv) /\ (level = 0 -> forall f g, f ∈ lv -> g ∈ inputs -> meets (smallest g) (largest g) f = true -> f ∈ inputs).
Proof.
  intros Hv Hlv Hs Hl. destruct (version_level c files level Hv Hlv) as (lv & Elv & Hok & _). destruct (overlapping_inputs c files level lv (Some s) (Some l) Hlv Elv Hok Hs Hl) as (inputs & b' & e' & E & Hov).
  exists lv, inputs. pose proof Hov as [Hi Hw Hc _]. assert (forall f, f ∈ inputs <-> f ∈ lv /\ overlaps c b' e' f = true) as Hin by (intros f; subst inputs; by rewrite list_elem_of_In, filter_In, <- list_elem_of_In).
  split_and!; [done|done|by intros f [? _]%Hin| | |].
  - intros f Hf Hm. apply Hin. split; [done|]. by apply (wider_overlaps c (Some (ukey s)) (Some (ukey l))).
  - intros Hne. rewrite (proj2 (Z.eqb_neq level 0) Hne) in Hov. by apply overlapping_exact in Hov.
  - intros -> f g Hf [Hg Hog]%Hin Hm. apply Hin. split; [done|]. pose proof (Hc eq_refl g Hg Hog) as [W1 W2]%andb_true_iff. apply andb_true_iff in Hm as [M1 M2]. apply Z.leb_le in M1, M2.
    apply andb_true_iff. split; [by apply (from_mono c _ (start g))|by apply (upto_mono c _ _ (limit g))].
Qed.

(** The inputs of a compaction: with any file of the upper level all files of the next
    level that overlap the range of the inputs, and from level 0 all files that overlap
    one of them. *)
Record inputs_ok (files : list (list FileMetaData)) (level : Z) (in0 in1 : list FileMetaData) (s l : bytes) : Prop := {
  in_level : 0 <= level < kNumLevels - 1;
  in_some : in0 <> [];
  in_upper f : f ∈ in0 -> exists lv, files !! Z.to_nat level = Some lv /\ f ∈ lv;
  in_hull : hull in0 s l;
  in_lower : exists lv, files !! Z.to_nat (level + 1) = Some lv /\ in1 = List.filter (meets s l) lv;
  in_level0 : level = 0 -> forall lv f g, files !! 0%nat = Some lv -> f ∈ lv -> g ∈ in0 -> meets (smallest g) (largest g) f = true -> f ∈ in0;
}.

Lemma inputs_files files level in0 : version_ok c files -> 0 <= level -> (forall f, f ∈ in0 -> exists lv, files !! Z.to_nat level = Some lv /\ f ∈ lv) -> Forall file_ok in0.
Proof.
  intros [_ Hf _] Hlv Hin. apply Forall_forall. intros f Hff. destruct (Hin f Hff) as (lv & Elv & Hfl). rewrite Forall_forall in Hf. specialize (Hf lv ltac:(by eapply list_elem_of_lookup_2)). rewrite Forall_forall in Hf. by apply Hf.
Qed.

Lemma filter_ok files level s l lv : version_ok c files -> files !! Z.to_nat level = Some lv -> Forall file_ok (List.filter (meets s l) lv).
Proof.
  intros [_ Hf _] Elv. rewrite Forall_forall in Hf. specialize (Hf lv ltac:(by eapply list_elem_of_lookup_2)). apply Forall_forall. intros f Hff. rewrite Forall_forall in Hf. apply Hf. apply list_elem_of_In, filter_In in Hff as [Hff _]. by apply list_elem_of_In.
Qed.

(** The attempt to grow keeps what the inputs have to be. *)
Lemma expand_spec files level in0 in1 s l a : version_ok c files -> inputs_ok files level in0 in1 s l -> hull (in0 ++ in1) a.1 a.2 ->
  exists in0' in1' s' l' a', expand_inputs c files level in0 in1 (s, l) a = Ret (in0', in1', (s', l'), a') /\ inputs_ok files level in0' in1' s' l' /\ (forall f, f ∈ in0 -> f ∈ in0') /\ hull (in0' ++ in1') a'.1 a'.2.
Proof.
  intros Hv Hin Ha. pose proof Hin as [Hlv Hne Hup Hh (lv1 & Elv1 & E1) Hl0]. unfold expand_inputs. pose proof (inputs_files files level in0 Hv ltac:(lia) Hup) as Hok0.
  destruct in1 as [|g in1']; [by exists in0, [], s, l, a|]. set (in1 := g :: in1') in *.
  assert (Forall file_ok (in0 ++ in1)) as Hok by (apply Forall_app_2; [done|rewrite E1; by eapply filter_ok]).
  assert (valid_key a.1 /\ valid_key a.2) as [Ha1 Ha2] by (by destruct Ha as (? & ? & _)).
  destruct (search_level files level a.1 a.2 Hv ltac:(unfold level_ok; lia) Ha1 Ha2) as (lv0 & ex0 & Elv0 & -> & X1 & X2 & _ & X4). run.
  destruct ((length in0 <? length ex0)%nat && _) eqn:Eg; [|by exists in0, in1, s, l, a]. apply andb_true_iff in Eg as [Eg _]. apply Nat.ltb_lt in Eg.
  assert (ex0 <> []) as Hne0 by (intros ->; cbn in Eg; lia).
  assert (forall f, f ∈ ex0 -> exists lv, files !! Z.to_nat level = Some lv /\ f ∈ lv) as Hup0 by (intros f Hf; exists lv0; split; [done|by apply X1]).
  pose proof (inputs_files files level ex0 Hv ltac:(lia) Hup0) as Hokx. destruct (get_range_spec ex0 Hne0 Hokx) as (ns & nl & -> & Hnh). run. cbn [fst snd].
  assert (valid_key ns /\ valid_key nl) as [Hns Hnl] by (by destruct Hnh as (? & ? & _)).
  destruct (search_level files (level + 1) ns nl Hv ltac:(unfold level_ok, kNumLevels in *; lia) Hns Hnl) as (lv1' & ex1 & Elv1' & -> & _ & _ & Y & _). run. rewrite (Y ltac:(lia)).
  rewrite Elv1 in Elv1'. injection Elv1' as <-. destruct (length _ =? length in1)%nat; [|by exists in0, in1, s, l, a].
  assert (Forall file_ok (ex0 ++ List.filter (meets ns nl) lv1)) as Hokn by (apply Forall_app_2; [done|by eapply filter_ok]).
  unfold GetRange2. destruct (get_range_spec (ex0 ++ List.filter (meets ns nl) lv1)) as (as' & al' & -> & Hah); [by destruct ex0|done|]. run. eexists ex0, _, ns, nl, (as', al'). split_and!; [done| | |done].
  - split; [done|done|done|done|by exists lv1|]. intros -> lv f g' Elv Hf Hg Hm. change (Z.to_nat 0) with 0%nat in Elv0. rewrite Elv in Elv0. injection Elv0 as ->. by apply (X4 eq_refl f g').
  - intros f Hf. destruct (Hup f Hf) as (lv & Elv & Hfl). rewrite Elv in Elv0. injection Elv0 as ->. apply X2; [done|]. apply (hull_meets (in0 ++ in1)); [done|done|]. apply elem_of_app. by left.
Qed.

(** Starting from files of a level, level 0 closed under overlap. *)
Record start_ok (files : list (list FileMetaData)) (level : Z) (in0 : list FileMetaData) : Prop := {
  st_level : 0 <= level < kNumLevels - 1;
  st_some : in0 <> [];
  st_upper f : f ∈ in0 -> exists lv, files !! Z.to_nat level = Some lv /\ f ∈ lv;
  st_level0 : level = 0 -> forall lv f g, files !! 0%nat = Some lv -> f ∈ lv -> g ∈ in0 -> meets (smallest g) (largest g) f = true -> f ∈ in0;
}.

Lemma setup_spec files level in0 : version_ok c files -> start_ok files level in0 ->
  exists x p s, SetupOtherInputs c files (Compaction_new level files in0) = Ret (x, p) /\ level_ x = level /\ input_version_ x = files /\ level_ptrs_ x = replicate 7 0%nat /\
    edit_ x = VE.SetCompactPointer level p VE.new /\ (forall f, f ∈ in0 -> f ∈ inputs0 x) /\ inputs_ok files level (inputs0 x) (inputs1 x) s p.
Proof.
  intros Hv [Hlv Hne Hup Hl0]. unfold SetupOtherInputs. cbn [level_ Compaction_new inputs0 edit_ grandparents_]. pose proof (inputs_files files level in0 Hv ltac:(lia) Hup) as Hok0.
  destruct (get_range_spec in0 Hne Hok0) as (s & l & -> & Hh). run. cbn [fst snd]. assert (valid_key s /\ valid_key l) as [Hs Hl] by (by destruct Hh as (? & ? & _)).
  destruct (search_level files (level + 1) s l Hv ltac:(unfold level_ok, kNumLevels in *; lia) Hs Hl) as (lv1 & in1 & Elv1 & -> & _ & _ & Y & _). run. rewrite (Y ltac:(lia)). clear Y.
  unfold GetRange2. destruct (get_range_spec (in0 ++ List.filter (meets s l) lv1)) as (a1 & a2 & -> & Hah); [by destruct in0|apply Forall_app_2; [done|by eapply filter_ok]|]. run.
  destruct (expand_spec files level in0 (List.filter (meets s l) lv1) s l (a1, a2) Hv) as (in0' & in1' & s' & l' & a' & -> & Hin & Hsub & Hah'); [split; [done..|by exists lv1|done]|done|]. run.
  assert (exists gs, (if level + 2 <? kNumLevels then GetOverlappingInputs c files (level + 2) (Some a'.1) (Some a'.2) else Ret []) = Ret gs) as [gs ->].
  { destruct (Z.ltb_spec (level + 2) kNumLevels); [|by exists []]. destruct Hah' as (A1 & A2 & _). destruct (search_level files (level + 2) a'.1 a'.2 Hv ltac:(unfold level_ok; lia) A1 A2) as (? & gs & _ & -> & _). by exists gs. }
  run. assert (valid_key l') as Hl' by (by destruct Hin as [_ _ _ (_ & ? & _) _ _]). cbn [snd]. rewrite encode_good by (by apply valid_key_good). run.
  eexists _, l', s'. split; [reflexivity|]. by split_and!.
Qed.
End Inputs.

(** ** Picking *)

(** The score names a level that has files, or there is nothing to do. *)
Lemma best_level_spec files : forall level best, 0 <= level -> best_level level files best = best \/
  exists i l, (S i < length files)%nat /\ files !! i = Some l /\ best_level level files best = (level_score (level + Z.of_nat i) l, level + Z.of_nat i).
Proof.
  induction files as [|l files IH]; intros level best Hl; [by left|]. destruct files as [|l' files]; [by left|].
  change (best_level level (l :: l' :: files) best) with (best_level (level + 1) (l' :: files) (if SFltb best.1 (level_score level l) then (level_score level l, level) else best)).
  set (b := if SFltb best.1 (level_score level l) then _ else _). destruct (IH (level + 1) b ltac:(lia)) as [E|(i & x & Hi & Ex & E)].
  - rewrite E. unfold b. destruct (SFltb _ _); [right|by left]. exists 0%nat, l. split_and!; [cbn; lia|done|]. by rewrite Z.add_0_r.
  - right. exists (S i), x. split_and!; [cbn in *; lia|done|]. rewrite E. by replace (level + 1 + Z.of_nat i) with (level + Z.of_nat (S i)) by lia.
Qed.

Lemma finalize_level files : Z.of_nat (length files) = kNumLevels -> SFleb (Z2double 1) (compaction_score_ (Finalize files)) = true ->
  0 <= compaction_level_ (Finalize files) < kNumLevels - 1 /\ exists f l, files !! Z.to_nat (compaction_level_ (Finalize files)) = Some (f :: l).
Proof.
  intros Hn Hs. unfold Finalize in *. destruct (best_level_spec files 0 (Z2double (-1), -1) ltac:(done)) as [E|(i & l & Hi & El & E)]; rewrite E in *; [by vm_compute in Hs|]. cbn [compaction_level_ compaction_score_] in *.
  unfold kNumLevels in *. split; [lia|]. rewrite Z.add_0_l, Nat2Z.id. destruct l as [|f l]; [exfalso|by exists f, l]. destruct i as [|[|[|[|[|[|i]]]]]]; [by vm_compute in Hs..|lia].
Qed.

Section Picking.
Context (c : Comparator) `{!ComparatorLaws c}.

Definition pointers_ok (vs : VS.VersionSet) : Prop := Z.of_nat (length (VS.compact_pointer_ vs)) = kNumLevels /\ Forall (fun p => p = [] \/ valid_key p) (VS.compact_pointer_ vs).
Definition seek_ok (files : list (list FileMetaData)) (o : option (FileMetaData * Z)) : Prop :=
  match o with Some (f, level) => 0 <= level < kNumLevels - 1 /\ exists l, files !! Z.to_nat level = Some l /\ f ∈ l | None => True end.

(** The file a size compaction of a level starts with: the first that ends after the
    level's pointer, or the first one if there is none or the pointer is not set. *)
Definition after_pointer (p : bytes) (f : FileMetaData) : bool := match p with [] => true | _ => 0 <? internal_ord c (largest f) p end.
Definition start_file (p : bytes) (l : list FileMetaData) : option FileMetaData := match List.find (after_pointer p) l with Some f => Some f | None => head l end.

Lemma pick_file_spec p l : p = [] \/ valid_key p -> Forall (file_ok c) l -> pick_file c p l = Ret (List.find (after_pointer p) l).
Proof.
  intros Hp Hok. induction Hok as [|f l [_ Hl _] _ IH]; cbn [pick_file List.find]; [done|]. destruct p as [|b p]; [done|].
  destruct Hp as [|Hp]; [done|]. rewrite encode_good by (by apply valid_key_good). run. rewrite compare_good by (by apply valid_key_good). run.
  cbn [after_pointer]. destruct (0 <? _); [done|exact IH].
Qed.

Lemma start_file_in p l f : start_file p l = Some f -> f ∈ l.
Proof. unfold start_file. destruct (List.find _ l) as [g|] eqn:E; [intros [= <-]; apply List.find_some in E as [E _]; by apply list_elem_of_In|]. destruct l; [done|]. intros [= <-]. by left. Qed.

(** What [file_to_compact] or the size of a level starts a compaction with. *)
Definition started (vs : VS.VersionSet) (ftc : option (FileMetaData * Z)) (files : list (list FileMetaData)) (level : Z) (f : FileMetaData) : Prop :=
  if SFleb (Z2double 1) (compaction_score_ (VS.current_ vs))
  then level = compaction_level_ (VS.current_ vs) /\ exists p l, VS.compact_pointer_ vs !! Z.to_nat level = Some p /\ files !! Z.to_nat level = Some l /\ start_file p l = Some f
  else ftc = Some (f, level).

Lemma pick_start_spec vs ftc files : version_ok c files -> VS.current_ vs = Finalize files -> pointers_ok vs -> seek_ok files ftc ->
  exists o, pick_start c vs ftc = Ret o /\ (o = None <-> NeedsCompaction (VS.current_ vs) ftc = false) /\
    forall level f, o = Some (level, f) -> 0 <= level < kNumLevels - 1 /\ started vs ftc files level f /\ exists l, files !! Z.to_nat level = Some l /\ f ∈ l.
Proof.
  intros Hv Ecur [Hpl Hp] Hseek. unfold pick_start, NeedsCompaction, started. rewrite Ecur. destruct (SFleb _ _) eqn:Es; cbn [orb].
  - destruct (finalize_level files (vo_levels _ _ Hv) Es) as (Hlv & f0 & l0 & El). rewrite finalize_files. set (level := compaction_level_ (Finalize files)) in *.
    rewrite (proj2 (Z.leb_le 0 level)), (proj2 (Z.ltb_lt (level + 1) kNumLevels)) by lia. rewrite (level_files_spec _ _ (f0 :: l0)) by (done || lia). run.
    destruct (lookup_lt_is_Some_2 (VS.compact_pointer_ vs) (Z.to_nat level)) as [p Ep]; [lia|]. rewrite Ep.
    pose proof (proj1 (Forall_lookup _ _) (vo_files _ _ Hv) _ _ El) as Hok. rewrite (pick_file_spec p (f0 :: l0) (proj1 (Forall_lookup _ _) Hp _ _ Ep) Hok). run.
    assert (exists f, match List.find (after_pointer p) (f0 :: l0) with Some f => Ret (Some (level, f)) | None => Ret (Some (level, f0)) end = Ret (Some (level, f)) /\ start_file p (f0 :: l0) = Some f) as (f & -> & Ef).
    { unfold start_file. destruct (List.find _ _) as [f|]; eauto. }
    eexists. split; [reflexivity|]. split; [done|]. intros ? ? [= <- <-]. split; [done|]. split; [split; [done|by exists p, (f0 :: l0)]|]. exists (f0 :: l0). split; [done|by eapply start_file_in].
  - destruct ftc as [[f level]|]; cbn; [|by exists None]. destruct Hseek as [Hlv Hl]. eexists. split; [reflexivity|]. split; [done|]. intros ? ? [= <- <-]. done.
Qed.

Lemma single_start files level f lv : version_ok c files -> 0 <= level < kNumLevels - 1 -> files !! Z.to_nat level = Some lv -> f ∈ lv ->
  exists inputs, (if level =? 0 then range ← GetRange c [f]; inputs ← GetOverlappingInputs c files 0 (Some range.1) (Some range.2); match inputs with [] => Exit 134 | _ => Ret inputs end else Ret [f]) = Ret inputs /\
    start_ok c files level inputs /\ f ∈ inputs.
Proof.
  intros Hv Hlv El Hf. pose proof (proj1 (Forall_lookup _ _) (vo_files _ _ Hv) _ _ El) as Hok. rewrite Forall_forall in Hok. pose proof (Hok f Hf) as Hfo. pose proof Hfo as [Hs Hl _].
  destruct (Z.eqb_spec level 0) as [->|Hne]; cycle 1.
  { exists [f]. split; [done|]. split; [|by left]. split; [done|done| |done]. intros g ->%list_elem_of_singleton. by exists lv. }
  cbn [GetRange range_loop]. run. cbn [fst snd]. destruct (search_level c files 0 (smallest f) (largest f) Hv ltac:(done) Hs Hl) as (lv' & inputs & El' & -> & H1 & H2 & _ & H4). run.
  change (Z.to_nat 0) with 0%nat in *. rewrite El in El'. injection El' as <-.
  assert (f ∈ inputs) as Hin by (apply H2; [done|]; apply (hull_meets c [f]); [by apply Forall_singleton| |by left]; split_and!; [done|done|exists f; set_solver..|]; intros g ->%list_elem_of_singleton; by rewrite !iord_refl).
  exists inputs. split; [by destruct inputs; [apply not_elem_of_nil in Hin|]|]. split; [|done]. split; [done|by intros ->; apply not_elem_of_nil in Hin| |].
  - intros g Hg. exists lv. split; [done|by apply H1].
  - intros _ lv2 g h E2 Hg Hh. rewrite El in E2. injection E2 as <-. by apply (H4 eq_refl).
Qed.
End Picking.

(** C15: where a compaction starts and what it pulls in.  PickCompaction finds work
    exactly when NeedsCompaction says so and never fails an assertion.  A compaction for
    size is of the level with the best score and has the first file of that level that
    ends after compact_pointer_, or the first file if there is none, among its inputs;
    otherwise it has the file that had too many seeks.  From level 0 no file is left
    behind that overlaps an input; the inputs of the next level are exactly its files
    that overlap the user keys between the least and the greatest key of the upper
    inputs, also after the attempt to take more files of the upper level; and
    compact_pointer_ is set to that greatest key.  (Above level 0 a file of the same
    level that shares its boundary user key with an input may stay behind.) *)
Theorem pick_compaction_inputs c `{!ComparatorLaws c} files vs ftc : version_ok c files -> VS.current_ vs = Finalize files -> pointers_ok vs -> seek_ok files ftc ->
  exists o vs', PickCompaction c vs ftc = Ret (o, vs') /\ (o = None <-> NeedsCompaction (VS.current_ vs) ftc = false) /\
    forall x, o = Some x -> exists f s l, started c vs ftc files (level_ x) f /\ f ∈ inputs0 x /\
      inputs_ok c files (level_ x) (inputs0 x) (inputs1 x) s l /\ VS.compact_pointer_ vs' = <[Z.to_nat (level_ x) := l]> (VS.compact_pointer_ vs).
Proof.
  intros Hv Ecur Hp Hseek. destruct (pick_start_spec c vs ftc files Hv Ecur Hp Hseek) as (o & E & Hnone & Ho). unfold PickCompaction. rewrite E. run.
  destruct o as [[level f]|]; [|exists None, vs; split_and!; [done|by rewrite <- Hnone|done]]. destruct (Ho level f eq_refl) as (Hlv & Hstart & lv & El & Hf). rewrite Ecur, finalize_files.
  destruct (single_start c files level f lv Hv Hlv El Hf) as (inputs & -> & Hst & Hfi). run. destruct (setup_spec c files level inputs Hv Hst) as (x & p & s & -> & Elv & _ & _ & _ & Hsub & Hin). run.
  eexists (Some x), _. split; [reflexivity|]. split; [split; [done|]; rewrite Ecur in Hnone; by intros [=]%Hnone|]. intros ? [= <-]. rewrite Elv. exists f, s, p. split_and!; [done|by apply Hsub|done|done].
Qed.

(** ** Base levels *)

Section Base.
Context (c : Comparator) `{!ComparatorLaws c}.
Abbreviation ucmp := (cmp_Compare c).

(** No file of the levels has the key in its range. *)
Definition outside_all (u : bytes) (levels : list (list FileMetaData)) : bool := forallb (fun l => negb (existsb (overlaps c (Some u) (Some u)) l)) levels.

(** The index does not pass a file that ends at or after the key. *)
Definition not_passed (u : bytes) (files : list FileMetaData) (i : nat) : Prop := Forall (fun f => ucmp (limit f) u < 0) (take i files).

Lemma limits_sorted files : level_sorted c files -> StronglySorted (fun f g => ucmp (limit f) (start g) <= 0) files.
Proof.
  intros (Hok & Hs & _). induction Hs as [|f files Hs IH Hf]; [constructor|]. apply Forall_cons in Hok as [[_ Hl _] Hok]. constructor; [by apply IH|]. rewrite Forall_forall in *. intros g Hg. destruct (Hok g Hg) as [Hsg _ _].
  apply internal_user_le; [by apply valid_key_good..|]. specialize (Hf g Hg). lia.
Qed.

Lemma scan_level_spec u files i : level_sorted c files -> not_passed u files i ->
  exists i', scan_level c u (drop i files) i = Ret (negb (existsb (overlaps c (Some u) (Some u)) files), i') /\ not_passed u files i'.
Proof.
  intros Hl Hn. pose proof Hl as (Hok & _). pose proof (limits_sorted files Hl) as Hss. remember (drop i files) as rest eqn:Er. revert i Hn Er. induction rest as [|f rest IH]; intros i Hn Er; cbn [scan_level].
  - exists i. split; [|done]. f_equal. f_equal. symmetry. apply negb_true_iff, not_true_iff_false. intros (f & Hf & Ho)%existsb_exists. apply list_elem_of_In in Hf.
    assert (take i files = files) as Et by (rewrite <- (take_drop i files) at 2; by rewrite <- Er, app_nil_r). unfold not_passed in Hn. rewrite Et, Forall_forall in Hn. specialize (Hn f Hf).
    apply andb_true_iff in Ho as [Ho _]. apply Z.leb_le in Ho. pose proof (cmp_antisym (c := c) (limit f) u). lia.
  - assert (files !! i = Some f) as Ei by (rewrite <- (Nat.add_0_r i), <- lookup_drop, <- Er; done). rewrite Forall_lookup in Hok. destruct (Hok i f Ei) as [Hs Hlg _].
    rewrite !user_key_good by done. run. fold (limit f) (start f). destruct (Z.leb_spec (ucmp u (limit f)) 0) as [Hle|Hgt].
    + exists i. split; [|done]. do 2 f_equal. symmetry. f_equal. rewrite user_flip by done. apply eq_true_iff_eq. rewrite existsb_exists. split.
      * intros (g & Hg & Ho). apply list_elem_of_In, list_elem_of_lookup in Hg as [j Hj]. apply andb_true_iff in Ho as [O1 O2]. destruct (Nat.lt_trichotomy j i) as [Hlt|[->|Hgt]]; [|by simplify_eq|].
        -- unfold not_passed in Hn. rewrite Forall_lookup in Hn. specialize (Hn j g ltac:(by rewrite lookup_take_lt)). apply Z.leb_le in O1. pose proof (cmp_antisym (c := c) (limit g) u). lia.
        -- apply Z.leb_le in O2. apply Z.leb_le. apply (user_trans c _ (start g)); [|done]. apply (user_trans c _ (limit f)); [apply file_range; by apply (Hok i)|].
           rewrite <- (take_drop j files) in Hss. apply (StronglySorted_app_1_elem_of (fun f g => ucmp (limit f) (start g) <= 0) _ _ _ _ Hss); apply list_elem_of_lookup; [exists i; by rewrite lookup_take_lt|exists 0%nat; by rewrite lookup_drop, Nat.add_0_r].
      * intros Ho. exists f. split; [by eapply list_elem_of_In, list_elem_of_lookup_2|]. apply andb_true_iff. split; [by apply Z.leb_le|done].
    + apply IH; [|by rewrite <- (drop_drop _ 1), <- Er, Nat.add_1_r || (replace (S i) with (i + 1)%nat by lia; by rewrite <- drop_drop, <- Er)].
      unfold not_passed. rewrite (take_S_r _ _ f) by done. apply Forall_app_2; [done|]. apply Forall_singleton. pose proof (cmp_antisym (c := c) (limit f) u). lia.
Qed.

Definition ptrs_ok (u : bytes) (files : list (list FileMetaData)) (ptrs : list nat) : Prop :=
  length ptrs = length files /\ forall lvl l i, files !! lvl = Some l -> ptrs !! lvl = Some i -> not_passed u l i.

Lemma not_passed_mono u u' l i : ucmp u u' <= 0 -> not_passed u l i -> not_passed u' l i.
Proof. intros Hu Hn. eapply Forall_impl; [exact Hn|]. intros f Hf. by apply (cmp_lt_le c _ u). Qed.

Lemma ptrs_mono u u' files ptrs : ucmp u u' <= 0 -> ptrs_ok u files ptrs -> ptrs_ok u' files ptrs.
Proof. intros Hu [Hl Hp]. split; [done|]. intros lvl l i E1 E2. by apply (not_passed_mono u), (Hp lvl). Qed.

Lemma ptrs_new u files : Z.of_nat (length files) = kNumLevels -> ptrs_ok u files (replicate 7 0%nat).
Proof. intros Hn. unfold kNumLevels in Hn. split; [rewrite length_replicate; lia|]. intros lvl l i _ [-> _]%lookup_replicate. constructor. Qed.

Lemma base_loop_spec u files levels : forall lvl ptrs, levels = drop lvl files -> (forall i l, files !! i = Some l -> (lvl <= i)%nat -> level_sorted c l) -> ptrs_ok u files ptrs ->
  exists ptrs', base_loop c u lvl levels ptrs = Ret (outside_all u levels, ptrs') /\ ptrs_ok u files ptrs'.
Proof.
  induction levels as [|l levels IH]; intros lvl ptrs El Hs Hp; cbn [base_loop outside_all forallb]; [by exists ptrs|].
  assert (files !! lvl = Some l) as Ei by (rewrite <- (Nat.add_0_r lvl), <- lookup_drop, <- El; done). destruct (lookup_lt_is_Some_2 ptrs lvl) as [i Epi]; [destruct Hp as [-> _]; by eapply lookup_lt_Some|]. rewrite Epi.
  destruct (scan_level_spec u l i (Hs lvl l Ei ltac:(lia)) (proj2 Hp lvl l i Ei Epi)) as (i' & -> & Hi'). run.
  assert (ptrs_ok u files (<[lvl := i']> ptrs)) as Hp'.
  { destruct Hp as [Hl Hp]. split; [by rewrite length_insert|]. intros lvl2 l2 i2 E1 E2. destruct (decide (lvl = lvl2)) as [<-|Hne].
    - rewrite list_lookup_insert_eq in E2 by (by eapply lookup_lt_Some). rewrite Ei in E1. injection E1 as <-. by injection E2 as <-.
    - rewrite list_lookup_insert_ne in E2 by done. by apply (Hp lvl2). }
  destruct (negb (existsb (overlaps c (Some u) (Some u)) l)); cbn [andb]; [|by exists (<[lvl := i']> ptrs)].
  apply IH; [replace (S lvl) with (lvl + 1)%nat by lia; by rewrite <- drop_drop, <- El| |done]. intros j x Ej Hj. apply (Hs j x Ej). lia.
Qed.

Lemma is_base_spec u x : version_ok c (input_version_ x) -> 0 <= level_ x -> ptrs_ok u (input_version_ x) (level_ptrs_ x) ->
  exists ptrs, IsBaseLevelForKey c u x = Ret (outside_all u (drop (Z.to_nat (level_ x + 2)) (input_version_ x)), set_ptrs x ptrs) /\ ptrs_ok u (input_version_ x) ptrs.
Proof.
  intros Hv Hlv Hp. unfold IsBaseLevelForKey. destruct (base_loop_spec u (input_version_ x) (drop (Z.to_nat (level_ x + 2)) (input_version_ x)) (Z.to_nat (level_ x + 2)) (level_ptrs_ x) eq_refl) as (ptrs & -> & Hp'); [|done|run; by exists ptrs].
  intros i l Ei Hi. apply (vo_sorted _ _ Hv (pred i)). by replace (S (pred i)) with i by lia.
Qed.

(** Keys asked one after the other. *)
Fixpoint base_levels (us : list bytes) (x : Compaction) : outcome (list bool) :=
  match us with
  | [] => Ret []
  | u :: us' => '(r, x) ← IsBaseLevelForKey c u x; rs ← base_levels us' x; Ret (r :: rs)
  end.

Lemma base_levels_spec us : forall u0 x, version_ok c (input_version_ x) -> 0 <= level_ x -> ptrs_ok u0 (input_version_ x) (level_ptrs_ x) -> StronglySorted (fun a b => ucmp a b <= 0) (u0 :: us) ->
  base_levels us x = Ret ((fun u => outside_all u (drop (Z.to_nat (level_ x + 2)) (input_version_ x))) <$> us).
Proof.
  induction us as [|u us IH]; intros u0 x Hv Hlv Hp Hs; cbn [base_levels]; [done|]. apply StronglySorted_inv in Hs as [Hs Hu]. apply Forall_cons in Hu as [Hu _].
  destruct (is_base_spec u x Hv Hlv (ptrs_mono u0 u _ _ Hu Hp)) as (ptrs & -> & Hp'). run. by rewrite (IH u (set_ptrs x ptrs)).
Qed.
End Base.

(** The shortcut for deletions is exact.  Asked for user keys in ascending order, as a
    compaction does, IsBaseLevelForKey keeps an index per level that it never moves
    back, and still answers every time whether no file of the levels below
    the output has the key in its range. *)
Theorem base_level_exact c `{!ComparatorLaws c} files level inputs us : version_ok c files -> 0 <= level -> StronglySorted (fun a b => cmp_Compare c a b <= 0) us ->
  base_levels c us (Compaction_new level files inputs) = Ret ((fun u => outside_all c u (drop (Z.to_nat (level + 2)) files)) <$> us).
Proof.
  intros Hv Hlv Hs. destruct us as [|u us]; [done|]. apply (base_levels_spec c (u :: us) u (Compaction_new level files inputs)); [done|done|apply ptrs_new, Hv|].
  constructor; [done|]. apply Forall_cons. split; [by rewrite user_refl|]. by apply StronglySorted_inv in Hs as [_ ?].
Qed.

(** ** Witnesses, and a compaction that hides newer data *)

(** Two files of level 1 that share a user key, as a compaction can leave them. *)
Definition shared_data (n : Z) : list entry :=
  if n =? 4 then [(ikey (str "a") 9 kTypeValue, str "1"); (ikey (str "c") 5 kTypeValue, str "new")]
  else if n =? 5 then [(ikey (str "c") 3 kTypeValue, str "old"); (ikey (str "e") 2 kTypeValue, str "2")] else [].

Definition shared_lookup : TableLookup unit := fun _ n _ k t => Ret (OK, shared_data n !! rank (internal_ord BytewiseComparator) k (shared_data n), t).

Definition shared_files : list FileMetaData :=
  [MkFile 4 6000000 (ikey (str "a") 9 kTypeValue) (ikey (str "c") 5 kTypeValue); MkFile 5 6000000 (ikey (str "c") 3 kTypeValue) (ikey (str "e") 2 kTypeValue)].
Definition shared_version : list (list FileMetaData) := [[]; shared_files; []; []; []; []; []].
Definition shared_vs : VS.VersionSet := VS.MkVS 6 2 9 0 0 None (Finalize shared_version) no_pointers.

Lemma shared_keys : valid_key (ikey (str "a") 9 kTypeValue) /\ valid_key (ikey (str "c") 5 kTypeValue) /\ valid_key (ikey (str "c") 3 kTypeValue) /\ valid_key (ikey (str "e") 2 kTypeValue).
Proof. split_and!; apply ikey_valid, value_tag; by vm_compute. Qed.

Lemma shared_version_ok : version_ok BytewiseComparator shared_version.
Proof.
  destruct shared_keys as (K1 & K2 & K3 & K4).
  assert (Forall (file_ok BytewiseComparator) shared_files) as Hok by (repeat (apply Forall_cons; split; [by split|]); by apply Forall_nil).
  split; [done| |].
  - repeat (apply Forall_cons; split; [first [exact Hok|by apply Forall_nil]|]). by apply Forall_nil.
  - intros level l Hl. destruct level as [|level].
    + injection Hl as <-. split_and!; [done|repeat constructor; vm_compute; reflexivity|by vm_compute].
    + assert (l = []) as -> by (do 5 (destruct level as [|level]; [by injection Hl|]); done). split_and!; [by apply Forall_nil|constructor|by vm_compute].
Qed.

Lemma level_sorted_nil c : level_sorted c [].
Proof. split_and!; [by apply Forall_nil|constructor|by vm_compute]. Qed.

(** The newest version of "c" is read before the compaction; the file with it is moved
    to level 2, the file with the older one stays in level 1, and the older one is read. *)
Lemma compaction_hides_newer : exists k x vs e files',
  version_ok BytewiseComparator shared_version /\ LookupKey_new (str "c") 9 = Ret k /\
  (exists st, Version_Get (H := shared_lookup) BytewiseComparator shared_version (MkReadOptions true true) k tt = Ret (OK, Some (str "new"), st, tt)) /\
  PickCompaction BytewiseComparator shared_vs None = Ret (Some x, vs) /\ IsTrivialMove x = true /\ trivial_move x = Ret e /\
  build BytewiseComparator shared_version no_pointers [e] = Ret (files', VS.compact_pointer_ vs) /\
  (exists st, Version_Get (H := shared_lookup) BytewiseComparator files' (MkReadOptions true true) k tt = Ret (OK, Some (str "old"), st, tt)).
Proof.
  eexists _, _, _, _, _. split; [exact shared_version_ok|]. split; [vm_compute; reflexivity|]. split; [eexists; vm_compute; reflexivity|]. split; [vm_compute; reflexivity|].
  split; [vm_compute; reflexivity|]. split; [vm_compute; reflexivity|]. split; [vm_compute; reflexivity|]. eexists; vm_compute; reflexivity.
Qed.

Lemma pick_compaction_inputs_witness : exists x vs', PickCompaction BytewiseComparator shared_vs None = Ret (Some x, vs') /\ inputs0 x = take 1 shared_files /\
  exists s l, inputs_ok BytewiseComparator shared_version (level_ x) (inputs0 x) (inputs1 x) s l.
Proof.
  destruct (pick_compaction_inputs BytewiseComparator shared_version shared_vs None shared_version_ok) as (o & vs' & E & Hn & Ho); [reflexivity|split; [done|]; repeat (apply Forall_cons; split; [by left|]); by apply Forall_nil|done|].
  destruct o as [x|]; [|exfalso; by vm_compute in E]. exists x, vs'. split; [exact E|]. destruct (Ho x eq_refl) as (f & s & l & _ & _ & Hin & _). split; [|by exists s, l].
  assert (match PickCompaction BytewiseComparator shared_vs None with Ret (Some y, _) => inputs0 y | _ => [] end = take 1 shared_files) as Hc by (vm_compute; reflexivity). by rewrite E in Hc.
Defined.

Lemma base_level_exact_witness : base_levels BytewiseComparator [str "a"; str "d"; str "f"] (Compaction_new 0 ([] :: [] :: shared_files :: [[]; []; []; []]) []) = Ret [false; false; true].
Proof.
  destruct shared_version_ok as [_ Hf Hs]. pose proof (Hs 0%nat shared_files eq_refl) as Hsh. rewrite base_level_exact; [by vm_compute|..].
  - apply _.
  - split; [done| |].
    + repeat (apply Forall_cons; split; [first [apply Hsh|by apply Forall_nil]|]). by apply Forall_nil.
    + intros [|[|level]] l Hl; [injection Hl as <-; apply level_sorted_nil|by injection Hl as <-|].
      assert (l = []) as -> by (do 4 (destruct level as [|level]; [by injection Hl|]); done). apply level_sorted_nil.
  - done.
  - repeat constructor; by vm_compute.
Defined.
