(* ===== verification/DbCompact.v ===== *)
(** * Running a compaction (util/leveldb/db/db_impl.cc, [DoCompactionWork])

    The merge of the inputs of a compaction into new table files: which entries are
    dropped, where files are cut, and the edit that installs them. *)

From S2P Require Import Prelude Slice Order CLib Bloom Coding DbFormat InternalOrder FileNames Status Files StdSet VersionEdit Version VersionBuilder LogFormat VersionSet Iterators Block TableFormat FilterBlock Table TableSpec TableGet VersionGet Compaction.
From stdpp Require Import strings sorting.
#[local] Open Scope Z_scope.

(** ** What a compaction asks of its surroundings *)

(** [F] is an open file, [W] everything else: the version set with its file numbers, the
    pending outputs, the file system, the table cache and the inputs' state. *)
Class CompactionEnv (W F : Type) `{WritableFile F} := {
  ce_NewFileNumber : W -> Z * W;
  ce_pending_insert : Z -> W -> W;
  ce_pending_erase : Z -> W -> W;
  ce_NewWritableFile : bytes -> W -> Status * option F * W;
  ce_Sync : bytes -> F -> W -> Status * W;
  ce_Close : bytes -> F -> W -> Status * W;
  ce_Usable : Z -> Z -> W -> outcome (Status * W);
  ce_shutting_down : W -> bool;
  ce_CompactImm : W -> outcome W;
  ce_LogAndApply : VE.VersionEdit -> W -> outcome (Status * W);
  ce_NumLevelFiles : Z -> W -> outcome Z;
}.

Record Output := MkOutput { out_number : Z; out_size : Z; out_smallest : bytes; out_largest : bytes }.

Module DC.
Section Ops.
Context {W F I : Type} `{CompactionEnv W F} `{IterView I} `{IterMoves W I} (c : Comparator) (snappy : option snappy_lib) (addr : Z) (options : Options) (dbname : bytes).

(** [outfile] is the file of the builder, and null when that is. *)
Record CompactionState := MkState {
  compaction : Compaction;
  smallest_snapshot : Z;
  outputs : list Output;
  builder : option (TB.Rep F);
  total_bytes : Z;
}.

Definition set_compaction (st : CompactionState) (x : Compaction) : CompactionState := MkState x (smallest_snapshot st) (outputs st) (builder st) (total_bytes st).
Definition set_builder (st : CompactionState) (b : option (TB.Rep F)) : CompactionState := MkState (compaction st) (smallest_snapshot st) (outputs st) b (total_bytes st).
Definition set_outputs (st : CompactionState) (o : list Output) : CompactionState := MkState (compaction st) (smallest_snapshot st) o (builder st) (total_bytes st).

(** [*current_output()] changed by [f]; the outputs are not empty. *)
Definition on_current (f : Output -> Output) (st : CompactionState) : outcome CompactionState :=
  match last (outputs st) with
  | None => Undef
  | Some o => Ret (set_outputs st (take (length (outputs st) - 1) (outputs st) ++ [f o]))
  end.

Definition OpenCompactionOutputFile (st : CompactionState) (w : W) : outcome (Status * CompactionState * W) :=
  match builder st with
  | Some _ => Exit 134
  | None =>
      let '(file_number, w) := ce_NewFileNumber w in
      let w := ce_pending_insert file_number w in
      let st := set_outputs st (outputs st ++ [MkOutput file_number 0 [] []]) in
      fname ← TableFileName dbname file_number;
      let '(s, f, w) := ce_NewWritableFile fname w in
      if ok s then
        match f with
        | Some f => b ← TB.new options f; Ret (s, set_builder st (Some b), w)
        | None => Undef
        end
      else Ret (s, st, w)
  end.

(** [s] is the status of the input. *)
Definition FinishCompactionOutputFile (s : Status) (st : CompactionState) (w : W) : outcome (Status * CompactionState * W) :=
  match builder st, last (outputs st) with
  | None, _ => Exit 134
  | Some _, None => Undef
  | Some b, Some o =>
      let output_number := out_number o in
      assert! negb (output_number =? 0);
      let current_entries := TB.NumEntries b in
      '(s, b) ← (if ok s then TB.Finish snappy addr b else b ← TB.Abandon b; Ret (s, b));
      let current_bytes := TB.FileSize b in
      st ← on_current (fun o => MkOutput (out_number o) current_bytes (out_smallest o) (out_largest o)) st;
      let st := MkState (compaction st) (smallest_snapshot st) (outputs st) None (u64 (total_bytes st + current_bytes)) in
      fname ← TableFileName dbname output_number;
      let '(s, w) := if ok s then ce_Sync fname (TB.file b) w else (s, w) in
      let '(s, w) := if ok s then ce_Close fname (TB.file b) w else (s, w) in
      '(s, w) ← (if ok s && (0 <? current_entries) then ce_Usable output_number current_bytes w else Ret (s, w));
      Ret (s, st, w)
  end.

(** [current_user_key] while [has_current_user_key], and [last_sequence_for_key]. *)
Record KeyState := MkKeyState { current_user_key : option bytes; last_sequence_for_key : Z }.

(** Whether the entry is dropped. *)
Definition drop_key (key : bytes) (snapshot : Z) (ks : KeyState) (x : Compaction) : outcome (bool * KeyState * Compaction) :=
  '(good, parsed) ← ParseInternalKey key;
  match (good : bool), parsed with
  | false, _ => Ret (false, MkKeyState None kMaxSequenceNumber, x)
  | true, None => Undef
  | true, Some ikey =>
      let first := match current_user_key ks with Some u => negb (cmp_Compare c (user_key ikey) u =? 0) | None => true end in
      let ks := if first then MkKeyState (Some (user_key ikey)) kMaxSequenceNumber else ks in
      '(drop, x) ← (if last_sequence_for_key ks <=? snapshot then Ret (true, x)
                    else if (type ikey =? kTypeDeletion) && (sequence ikey <=? snapshot) then IsBaseLevelForKey c (user_key ikey) x
                    else Ret (false, x));
      Ret (drop, MkKeyState (current_user_key ks) (sequence ikey), x)
  end.

(** The part of the loop that writes an entry. *)
Definition add_entry (key value : bytes) (s : Status) (st : CompactionState) (w : W) : outcome (Status * CompactionState * W) :=
  '(r, st, w) ← match builder st with None => OpenCompactionOutputFile st w | Some _ => Ret (OK, st, w) end;
  if negb (ok r) then Ret (r, st, w)
  else
    match builder st with
    | None => Undef
    | Some b =>
        st ← (if TB.NumEntries b =? 0 then on_current (fun o => MkOutput (out_number o) (out_size o) key (out_largest o)) st else Ret st);
        st ← on_current (fun o => MkOutput (out_number o) (out_size o) (out_smallest o) key) st;
        b ← TB.Add snappy addr key value b;
        let st := set_builder st (Some b) in
        if max_output_file_size_ (compaction st) <=? TB.FileSize b then FinishCompactionOutputFile s st w else Ret (OK, st, w)
    end.

(** The loop; the status is not OK when it was left by [break]. *)
Fixpoint compact_loop (fuel : nat) (input : I) (ks : KeyState) (st : CompactionState) (w : W) : outcome (Status * I * CompactionState * W) :=
  match fuel with
  | O => Undef
  | S fuel' =>
      if it_Valid input && negb (ce_shutting_down w) then
        w ← ce_CompactImm w;
        key ← it_key input;
        '(stop, x) ← ShouldStopBefore c key (compaction st);
        let st := set_compaction st x in
        s ← it_status input;
        '(r, st, w) ← match (stop : bool), builder st with
                      | true, Some _ => FinishCompactionOutputFile s st w
                      | _, _ => Ret (OK, st, w)
                      end;
        if negb (ok r) then Ret (r, input, st, w)
        else
          '(drop, ks, x) ← drop_key key (smallest_snapshot st) ks (compaction st);
          let st := set_compaction st x in
          '(r, st, w) ← (if (drop : bool) then Ret (OK, st, w) else value ← it_value input; add_entry key value s st w);
          if negb (ok r) then Ret (r, input, st, w)
          else '(input, w) ← it_move OpNext input w; compact_loop fuel' input ks st w
      else Ret (OK, input, st, w)
  end.

(** The edit of [InstallCompactionResults]. *)
Definition install_edit (st : CompactionState) : VE.VersionEdit :=
  let x := compaction st in
  foldl (fun e o => VE.AddFile (level_ x + 1) (out_number o) (out_size o) (out_smallest o) (out_largest o) e) (AddInputDeletions x (edit_ x)) (outputs st).

(** [snapshots] are the sequence numbers of the snapshots, oldest first, and
    [last_sequence] is [LastSequence()].  The statistics are left out. *)
Definition DoCompactionWork (fuel : nat) (snapshots : list Z) (last_sequence : Z) (input : I) (x : Compaction) (w : W) : outcome (Status * CompactionState * W) :=
  num ← ce_NumLevelFiles (level_ x) w;
  assert! 0 <? num;
  let smallest := match snapshots with [] => last_sequence | s :: _ => s end in
  let st := MkState x smallest [] None 0 in
  '(input, w) ← it_move OpFirst input w;
  '(status, input, st, w) ← compact_loop fuel input (MkKeyState None kMaxSequenceNumber) st w;
  status ← (if ok status && ce_shutting_down w then IOError (str "Deleting DB during compaction") [] else Ret status);
  s ← it_status input;
  '(status, st, w) ← match ok status, builder st with
                     | true, Some _ => FinishCompactionOutputFile s st w
                     | _, _ => Ret (status, st, w)
                     end;
  let status := if ok status then s else status in
  if ok status then
    '(status, w) ← ce_LogAndApply (install_edit st) w;
    Ret (status, st, w)
  else Ret (status, st, w).

(** Forgets the pending outputs; a builder that is left is abandoned. *)
Definition CleanupCompaction (st : CompactionState) (w : W) : outcome W :=
  _ ← match builder st with Some b => _ ← TB.Abandon b; Ret tt | None => Ret tt end;
  Ret (foldl (fun w o => ce_pending_erase (out_number o) w) w (outputs st)).
End Ops.
Arguments CompactionState : clear implicits.
End DC.

(** ** What the merge keeps *)

Section Keep.
Context (c : Comparator) `{!ComparatorLaws c} (snapshot : Z) (base : bytes -> bool).
Abbreviation ucmp := (cmp_Compare c).
Abbreviation iord := (internal_ord c).

Definition seq_of (k : bytes) : Z := match ParseInternalKey k with Ret (_, Some p) => sequence p | _ => 0 end.

(** The decision for one entry, when [base] tells base levels. *)
Definition drops (k : bytes) (ks : DC.KeyState) : bool * DC.KeyState :=
  let u := ukey k in
  let first := match DC.current_user_key ks with Some u0 => negb (ucmp u u0 =? 0) | None => true end in
  let ks := if first then DC.MkKeyState (Some u) kMaxSequenceNumber else ks in
  (if DC.last_sequence_for_key ks <=? snapshot then true else (entry_type k =? kTypeDeletion) && (seq_of k <=? snapshot) && base u,
   DC.MkKeyState (DC.current_user_key ks) (seq_of k)).

Fixpoint keep (ks : DC.KeyState) (es : list entry) : list entry :=
  match es with
  | [] => []
  | e :: es' => let '(d, ks) := drops e.1 ks in if (d : bool) then keep ks es' else e :: keep ks es'
  end.

Definition kept (es : list entry) : list entry := keep (DC.MkKeyState None kMaxSequenceNumber) es.

Lemma valid_parts k : valid_key k -> exists u seq t, k = ikey u seq t /\ valid_tag seq t /\ ukey k = u /\ seq_of k = seq /\ entry_type k = t.
Proof. intros (u & seq & t & -> & Ht). exists u, seq, t. unfold seq_of, entry_type. rewrite parse_ikey, ukey_ikey by done. done. Qed.

(** In the entries of a user key sequence numbers fall. *)
Lemma older_seq a b : valid_key a -> valid_key b -> ucmp (ukey a) (ukey b) = 0 -> iord a b <= 0 -> seq_of b <= seq_of a.
Proof.
  intros (u & seq & t & -> & Ht & -> & -> & _)%valid_parts (v & seq' & t' & -> & Ht' & -> & -> & _)%valid_parts E Hle. rewrite ikey_ord in Hle by done. unfold icmp, tag in Hle. rewrite E in Hle. cbn [Z.eqb] in Hle.
  destruct Ht as [_ [->| ->]], Ht' as [_ [->| ->]]; unfold kTypeDeletion, kTypeValue in *; repeat case_match; lia.
Qed.

Lemma candidate_seq u s e : 0 <= s <= kMaxSequenceNumber -> valid_key e.1 -> candidate c (ikey u s kValueTypeForSeek) e <-> ucmp (ukey e.1) u = 0 /\ seq_of e.1 <= s.
Proof.
  intros Hs Hv. unfold candidate. rewrite ukey_ikey. destruct (valid_parts _ Hv) as (v & seq & t & Ee & Ht & Eu & Eq & _). rewrite Eu, Eq.
  assert (ucmp v u = 0 -> iord (ikey u s kValueTypeForSeek) e.1 <= 0 <-> seq <= s) as Hiff; [|split; (intros [E1 E2]; split; [done|by apply Hiff])]. intros E.
  rewrite Ee, ikey_ord by (done || (split; [done|by right])). unfold icmp, tag, kValueTypeForSeek. assert (ucmp u v = 0) as -> by (pose proof (cmp_antisym (c := c) v u); lia). cbn [Z.eqb].
  destruct Ht as [_ [->| ->]]; unfold kTypeDeletion, kTypeValue; repeat case_match; lia.
Qed.

(** What the merge remembers of the entries before. *)
Definition remembers (pre : list entry) (ks : DC.KeyState) : Prop :=
  match last pre with
  | None => ks = DC.MkKeyState None kMaxSequenceNumber
  | Some e => exists u, DC.current_user_key ks = Some u /\ ucmp (ukey e.1) u = 0 /\ DC.last_sequence_for_key ks = seq_of e.1
  end.

Context (Hsnap : snapshot < kMaxSequenceNumber).

(** Older than an entry of its user key that every snapshot sees. *)
Definition hidden (es : list entry) (e : entry) : Prop := exists e0, e0 ∈ es /\ ucmp (ukey e0.1) (ukey e.1) = 0 /\ iord e0.1 e.1 < 0 /\ seq_of e0.1 <= snapshot.
Definition obsolete (e : entry) : Prop := entry_type e.1 = kTypeDeletion /\ seq_of e.1 <= snapshot /\ base (ukey e.1) = true.

Lemma last_same pre e e0 : ascending internal_good iord (pre ++ [e]) -> e0 ∈ pre -> ucmp (ukey e0.1) (ukey e.1) = 0 ->
  exists l, last pre = Some l /\ ucmp (ukey l.1) (ukey e.1) = 0 /\ iord e0.1 l.1 <= 0.
Proof.
  intros Ha He0 Hu. destruct pre as [|l pre] using rev_ind; [by apply not_elem_of_nil in He0|]. clear IHpre. exists l. rewrite last_snoc. split; [done|].
  apply ascending_app in Ha as (Ha & Hb & Hlt). pose proof (ascending_ok _ _ Ha He0) as G0. assert (l ∈ pre ++ [l]) as Hl by set_solver. pose proof (ascending_ok _ _ Ha Hl) as Gl.
  pose proof (ascending_ok _ e Hb ltac:(by left)) as Ge.
  assert (iord e0.1 l.1 <= 0) as Hle.
  { apply elem_of_app in He0 as [He0| ->%list_elem_of_singleton]; [|by rewrite key_refl]. apply ascending_app in Ha as (_ & _ & Hlt'). specialize (Hlt' e0 l He0 ltac:(by left)). lia. }
  split; [|done]. pose proof (internal_user_le c _ _ G0 Gl Hle) as U1. pose proof (internal_user_le c _ _ Gl Ge ltac:(specialize (Hlt l e Hl ltac:(by left)); lia)) as U2.
  pose proof (cmp_antisym (c := c) (ukey e0.1) (ukey e.1)). pose proof (cmp_trans (c := c) (ukey e.1) (ukey e0.1) (ukey l.1) ltac:(lia) U1). pose proof (cmp_antisym (c := c) (ukey l.1) (ukey e.1)). lia.
Qed.

Lemma drops_spec pre e ks : ascending internal_good iord (pre ++ [e]) -> Forall (fun e => valid_key e.1) (pre ++ [e]) -> remembers pre ks ->
  ((drops e.1 ks).1 = true <-> hidden pre e \/ obsolete e) /\ remembers (pre ++ [e]) (drops e.1 ks).2.
Proof.
  intros Ha Hv Hks. rewrite Forall_forall in Hv. unfold drops.
  set (first := match DC.current_user_key ks with Some u0 => negb (ucmp (ukey e.1) u0 =? 0) | None => true end).
  assert (if first then forall e0, e0 ∈ pre -> ucmp (ukey e0.1) (ukey e.1) <> 0
          else exists l u, last pre = Some l /\ ucmp (ukey l.1) (ukey e.1) = 0 /\ DC.current_user_key ks = Some u /\ ucmp (ukey e.1) u = 0 /\ DC.last_sequence_for_key ks = seq_of l.1) as Hfirst.
  { unfold remembers in Hks. destruct (last pre) as [l|] eqn:El.
    - destruct Hks as (u & Eu & Hu & Es). unfold first. rewrite Eu. destruct (Z.eqb_spec (ucmp (ukey e.1) u) 0) as [E|Hne]; cbn [negb].
      + exists l, u. split_and!; [done| |done|done|done]. apply (user_eq_trans c _ u); done.
      + intros e0 He0 E0. destruct (last_same pre e e0 Ha He0 E0) as (l' & El' & E' & _). rewrite El in El'. injection El' as <-. apply Hne.
        apply (user_eq_trans c _ (ukey l.1)); [pose proof (cmp_antisym (c := c) (ukey l.1) (ukey e.1)); lia|pose proof (cmp_antisym (c := c) (ukey l.1) u); lia].
    - unfold first. rewrite Hks. cbn. apply last_None in El as ->. by intros e0 ?%not_elem_of_nil. }
  clearbody first. split.
  - cbn [fst]. destruct first; cbn [DC.last_sequence_for_key].
    + rewrite (proj2 (Z.leb_gt _ _)) by lia. rewrite !andb_true_iff, Z.eqb_eq, Z.leb_le. split; [intros [[? ?] ?]; right; by split|]. intros [(e0 & H1 & H2 & _)|(? & ? & ?)]; [by apply Hfirst in H2|done].
    + destruct Hfirst as (l & u & El & Hlu & Eu & Heu & Es). rewrite Es. assert (l ∈ pre) as Hl by (by apply last_Some_elem_of). assert (valid_key l.1) as Vl by (apply Hv; set_solver).
      destruct (Z.leb_spec (seq_of l.1) snapshot) as [Hle|Hgt].
      * split; [|done]. intros _. left. exists l. split_and!; [done|done| |done]. apply ascending_app in Ha as (_ & _ & Hlt). apply Hlt; [done|by left].
      * rewrite !andb_true_iff, Z.eqb_eq, Z.leb_le. split; [intros [[? ?] ?]; right; by split|]. intros [(e0 & H1 & H2 & _ & H4)|(? & ? & ?)]; [exfalso|done].
        destruct (last_same pre e e0 Ha H1 H2) as (l' & El' & E' & Hle'). rewrite El in El'. injection El' as <-.
        pose proof (older_seq e0.1 l.1 ltac:(apply Hv; set_solver) Vl ltac:(by apply (user_eq_trans c _ (ukey e.1))) Hle'). lia.
  - unfold remembers. rewrite last_snoc. cbn. destruct first; cbn; [exists (ukey e.1); by rewrite user_refl|]. destruct Hfirst as (l & u & _ & _ & Eu & Heu & _). by exists u.
Qed.

Lemma keep_spec es : forall pre ks, ascending internal_good iord (pre ++ es) -> Forall (fun e => valid_key e.1) (pre ++ es) -> remembers pre ks ->
  forall e, e ∈ keep ks es <-> e ∈ es /\ ~ hidden (pre ++ es) e /\ ~ obsolete e.
Proof.
  induction es as [|x es IH]; intros pre ks Ha Hv Hks e; cbn [keep]; [split; [by intros ?%not_elem_of_nil|by intros [?%not_elem_of_nil _]]|].
  assert (pre ++ x :: es = (pre ++ [x]) ++ es) as Eapp by (by rewrite <- app_assoc). rewrite Eapp in *. pose proof Ha as Ha'. apply ascending_app in Ha' as (Hax & Hae & Hlt).
  destruct (drops_spec pre x ks Hax ltac:(by apply Forall_app in Hv as [? _]) Hks) as [Hd Hr]. destruct (drops x.1 ks) as [d ks'] eqn:Ed. cbn [fst snd] in *. specialize (IH (pre ++ [x]) ks' Ha Hv Hr).
  assert (hidden ((pre ++ [x]) ++ es) x <-> hidden pre x) as Hhid.
  { split; intros (e0 & H1 & H2 & H3 & H4); exists e0; split_and!; try done; [|set_solver]. pose proof (ascending_ok _ _ Ha H1) as G0. pose proof (ascending_ok _ x Ha ltac:(set_solver)) as Gx.
    apply elem_of_app in H1 as [[H1| ->%list_elem_of_singleton]%elem_of_app|H1]; [done|by rewrite key_refl in H3|]. specialize (Hlt x e0 ltac:(set_solver) H1). pose proof (ord_anti (ord := iord) e0.1 x.1 G0 Gx). lia. }
  destruct d.
  - rewrite IH, elem_of_cons. split; [by intros (? & ? & ?); auto|]. intros ([->|He] & H1 & H2); [exfalso|done]. destruct (proj1 Hd eq_refl) as [Hh|Ho]; [by apply H1, Hhid|done].
  - rewrite !elem_of_cons, IH. split.
    + intros [->|(? & ? & ?)]; [|by auto]. split_and!; [by left|intros Hh%Hhid; assert (false = true) by (apply Hd; by left); done|intros Ho; assert (false = true) by (apply Hd; by right); done].
    + intros ([->|He] & H1 & H2); [by left|by right].
Qed.

Lemma kept_spec es : ascending internal_good iord es -> Forall (fun e => valid_key e.1) es -> forall e, e ∈ kept es <-> e ∈ es /\ ~ hidden es e /\ ~ obsolete e.
Proof. intros Ha Hv. by apply (keep_spec es []). Qed.

(** The entries [rest] outside the inputs: where [base] holds, none is older. *)
Lemma kept_found u s es rest o : ascending internal_good iord es -> Forall (fun e => valid_key e.1) es -> Forall (fun e => internal_good e.1) rest -> snapshot <= s <= kMaxSequenceNumber -> 0 <= s ->
  (forall e r, e ∈ es -> r ∈ rest -> ucmp (ukey e.1) (ukey r.1) = 0 -> base (ukey e.1) = true -> iord r.1 e.1 < 0) ->
  found c (ikey u s kValueTypeForSeek) (es ++ rest) o ->
  exists o', found c (ikey u s kValueTypeForSeek) (kept es ++ rest) o' /\ reported_value o' = reported_value o.
Proof.
  intros Ha Hv Hr Hs Hs0 Hrest Hfound. pose proof (kept_spec es Ha Hv) as Hk. set (k := ikey u s kValueTypeForSeek) in *.
  assert (forall e, e ∈ es -> candidate c k e <-> ucmp (ukey e.1) u = 0 /\ seq_of e.1 <= s) as Hcand.
  { intros e He. rewrite Forall_forall in Hv. apply candidate_seq; [lia|by apply Hv]. }
  destruct o as [e|]; cbn [found] in Hfound; cycle 1.
  { exists None. split; [|done]. intros e [(He & _)%Hk|He]%elem_of_app; apply Hfound; set_solver. }
  destruct Hfound as (He & Hc & Hmin). assert (forall e', e' ∈ kept es ++ rest -> e' ∈ es ++ rest) as Hsub by (intros e' [(He' & _)%Hk|He']%elem_of_app; set_solver).
  assert (e ∈ kept es ++ rest -> exists o', found c k (kept es ++ rest) o' /\ reported_value o' = reported_value (Some e)) as Hsame.
  { intros Hin. exists (Some e). split; [|done]. split_and!; [done|done|]. intros e' He'. apply Hmin, Hsub, He'. }
  apply elem_of_app in He as [He|He]; [|apply Hsame; set_solver]. pose proof (ascending_ok _ _ Ha He) as Ge. pose proof (proj1 (Hcand e He) Hc) as [Hu Hseq].
  assert (~ hidden es e) as Hnh.
  { intros (e0 & He0 & Hu0 & Hlt & Hs0'). pose proof (ascending_ok _ _ Ha He0) as G0. pose proof (ord_anti (ord := iord) e0.1 e.1 G0 Ge).
    specialize (Hmin e0 ltac:(set_solver) ltac:(apply Hcand; [done|split; [|lia]]; apply (user_eq_trans c _ (ukey e.1)); [done|pose proof (cmp_antisym (c := c) u (ukey e.1)); lia])). lia. }
  destruct (decide (entry_type e.1 = kTypeDeletion /\ seq_of e.1 <= snapshot /\ base (ukey e.1) = true)) as [Ho|Hno]; [|apply Hsame, elem_of_app; left; by apply Hk].
  exists None. split; [|unfold reported_value; by rewrite (proj1 Ho)]. intros e' Hin Hc'. pose proof (Hmin e' (Hsub _ Hin) Hc') as Hle.
  assert (ucmp (ukey e.1) (ukey e'.1) = 0) as Hue.
  { destruct Hc' as [Hc' _]. unfold k in Hc'. rewrite ukey_ikey in Hc'. apply (user_eq_trans c _ u); done. }
  apply elem_of_app in Hin as [(He' & Hnh' & Hno')%Hk|He'].
  - apply Hnh'. exists e. split_and!; [done|done| |apply Ho]. destruct (Z.eq_dec (iord e.1 e'.1) 0) as [E|]; [|lia]. exfalso. apply Hno'.
    apply list_elem_of_lookup in He as [i Hi], He' as [j Hj]. rewrite (ascending_eq _ i j _ _ Ha Hi Hj E) in Hi. rewrite Hi in Hj. injection Hj as <-. exact Ho.
  - specialize (Hrest e e' He He' Hue (proj2 (proj2 Ho))). rewrite Forall_forall in Hr. pose proof (ord_anti (ord := iord) e.1 e'.1 Ge (Hr _ He')). lia.
Qed.
End Keep.
