(* ===== verification/CompactionRun.v ===== *)
(** * The outputs of a compaction (util/leveldb/db/db_impl.cc, [DoCompactionWork])

    When nothing fails, the merge of a compaction ends, and the files it writes hold, cut
    into tables, the entries of its inputs that are not dropped; no reader sees that the
    others are gone. *)

From S2P Require Import Prelude Slice Order CLib Bloom Coding DbFormat InternalOrder FileNames Status Files StdSet VersionEdit Version VersionBuilder LogFormat VersionSet Iterators Block TableFormat FilterBlock Table TableSpec TableGet VersionGet Compaction DbCompact.
From stdpp Require Import strings sorting.
#[local] Open Scope Z_scope.

#[local] Ltac oks := repeat progress (change (Status.ok OK) with true; cbn [andb negb]; cbn match).

(** ** Surroundings in which nothing fails *)

(** [closed] are the files that were closed so far, in order.  Flushing the immutable
    memtable on the way may close files, too. *)
Class CompactionEnvLaws (W : Type) `{!CompactionEnv W bytes} (good : W -> Prop) (closed : W -> list (bytes * bytes)) : Prop := {
  cl_number w : good w -> exists n w', ce_NewFileNumber w = (n, w') /\ 0 < n /\ good w' /\ closed w' = closed w;
  cl_insert w n : good w -> good (ce_pending_insert n w) /\ closed (ce_pending_insert n w) = closed w;
  cl_open w name : good w -> exists w', ce_NewWritableFile name w = (OK, Some [], w') /\ good w' /\ closed w' = closed w;
  cl_sync w name f : good w -> exists w', ce_Sync name f w = (OK, w') /\ good w' /\ closed w' = closed w;
  cl_close w name f : good w -> exists w', ce_Close name f w = (OK, w') /\ good w' /\ closed w' = closed w ++ [(name, f)];
  cl_usable w n size : good w -> exists w', ce_Usable n size w = Ret (OK, w') /\ good w' /\ closed w' = closed w;
  cl_running w : good w -> ce_shutting_down w = false;
  cl_imm w : good w -> exists w' ys, ce_CompactImm w = Ret w' /\ good w' /\ closed w' = closed w ++ ys;
}.

Section Tables.
Context (snappy : option snappy_lib) (Hsnappy : forall s, snappy = Some s -> snappy_ok s) (addr : Z) (Haddr : 0 <= addr).
Context (opts : Options) (ok : bytes -> Prop) (ord : bytes -> bytes -> Z) (same : bytes -> bytes -> Prop)
  `{!TableComparatorLaws (comparator opts) ok ord same} (capacity rate : nat) (Hopts : options_ok opts ok same capacity rate).
Abbreviation fits := (fits opts ok ord capacity rate).

(** The builder of a table after some entries. *)
Definition built (es : list entry) (r : TB.Rep bytes) : Prop := (r0 ← TB.new opts []; foldM (fun e r => TB.Add snappy addr e.1 e.2 r) es r0) = Ret r.

Lemma built_new : exists r, TB.new opts [] = Ret r /\ built [] r.
Proof. destruct (new_core snappy opts ok ord same capacity rate Hopts []) as (r & E & _). exists r. split; [done|]. unfold built. by rewrite E. Qed.

Lemma built_core es : fits es -> exists dn pend cur r, built es r /\ tb_core snappy opts ok ord same capacity rate dn pend cur [] r /\ all_entries dn pend cur [] = es /\
  last_ok (entries (dn ++ option_list pend) ++ cur) r /\ (pend = None -> cur = [] -> dn = []).
Proof.
  intros Hfits. destruct (new_core snappy opts ok ord same capacity rate Hopts es) as (r0 & E0 & Hr0).
  destruct (adds_core snappy Hsnappy addr Haddr opts ok ord same capacity rate Hopts es [] None [] r0 Hr0 Hfits) as (dn & pend & cur & r & E1 & Hr & Hl & Hst & Hall); [done|done|].
  exists dn, pend, cur, r. split_and!; [|done|done|done|done]. unfold built. rewrite E0. exact E1.
Qed.

Lemma built_num es r : fits es -> built es r -> TB.NumEntries r = Z.of_nat (length es).
Proof.
  intros Hf Hb. destruct (built_core es Hf) as (dn & pend & cur & r' & Hb' & Hr & Hall & _). unfold built in *. rewrite Hb in Hb'. injection Hb' as <-.
  unfold TB.NumEntries. rewrite (tr_num _ _ _ _ _ _ _ _ _ _ _ _ Hr). unfold all_entries in Hall. rewrite app_nil_r in Hall. rewrite Hall. apply u64_small.
  destruct Hf as (_ & _ & Hc). pose proof (oo_capacity _ _ _ _ _ Hopts). lia.
Qed.

Lemma built_add es e r : fits (es ++ [e]) -> built es r -> exists r', TB.Add snappy addr e.1 e.2 r = Ret r' /\ built (es ++ [e]) r'.
Proof.
  intros Hf Hb. destruct (built_core _ Hf) as (dn & pend & cur & r' & Hb' & _). exists r'. split; [|done]. unfold built in *.
  destruct (TB.new opts []) as [r0| |]; try done. revert Hb Hb'. run. rewrite foldM_app. intros ->. run. cbn [foldM]. destruct (TB.Add snappy addr e.1 e.2 r); by run.
Qed.

Lemma built_finish es r : fits es -> built es r -> exists r', TB.Finish snappy addr r = Ret (OK, r') /\ build_table snappy addr opts es = Ret (OK, TB.file r') /\
  TB.FileSize r' = Z.of_nat (length (TB.file r')) /\ 0 < Z.of_nat (length (TB.file r')).
Proof.
  intros Hf Hb. destruct (built_core es Hf) as (dn & pend & cur & r1 & Hb' & Hr & Hall & Hl & Hst). pose proof Hb as Hb1. unfold built in Hb, Hb'. rewrite Hb in Hb'. injection Hb' as <-.
  destruct (finish_core snappy Hsnappy addr Haddr opts ok ord same capacity rate Hopts dn pend cur r Hr) as (bs & r' & E2 & Hbs & Hrep & Hoff); [by rewrite Hall|done|done|].
  exists r'. split_and!; [done| |done|destruct (tf_footer _ _ _ _ _ _ _ Hrep) as (pre & mh & ih & fh & -> & _); rewrite length_app, enc_footer_length; lia]. unfold build_table. destruct (TB.new opts []) as [r0| |]; try done. cbn [mbind outcome_bind] in *. rewrite Hb. run. by rewrite E2.
Qed.

Lemma room_sublist l es : l `sublist_of` es -> (data_room l <= data_room es)%nat.
Proof. unfold data_room. induction 1; cbn; lia. Qed.

Lemma Forall_sub {A} (P : A -> Prop) l k : l `sublist_of` k -> Forall P k -> Forall P l.
Proof. intros Hs Hk. rewrite Forall_forall in *. intros x Hx. apply Hk. by eapply elem_of_sublist. Qed.

Lemma ascending_sublist l es : l `sublist_of` es -> ascending ok ord es -> ascending ok ord l.
Proof.
  intros Hsub [Hok Hs]. split; [by apply (Forall_sub _ l.*1 es.*1); [apply fmap_sublist|]|]. clear Hok. induction Hsub; [constructor| |].
  - apply StronglySorted_inv in Hs as [Hs Hx]. constructor; [by apply IHHsub|]. by eapply Forall_sub.
  - apply StronglySorted_inv in Hs as [Hs _]. by apply IHHsub.
Qed.

Lemma fits_sublist l es : l `sublist_of` es -> fits es -> fits l.
Proof.
  intros Hsub (Ha & Hroom & Hc). pose proof (sublist_length _ _ Hsub). pose proof (room_sublist _ _ Hsub). split_and!; [by eapply ascending_sublist| |lia].
  unfold table_room in *. assert ((rate + 50) * length l <= (rate + 50) * length es)%nat by (by apply Nat.mul_le_mono_l). lia.
Qed.
End Tables.

(** ** The steps of the loop *)

Lemma set_ptrs_same x : set_ptrs x (level_ptrs_ x) = x.
Proof. by destruct x. Qed.

Lemma set_overlap_same x : x = set_ptrs (set_overlap x (grandparent_index_ x) (seen_key_ x) (overlapped_bytes_ x)) (level_ptrs_ x).
Proof. by destruct x. Qed.

Section Steps.
Context (c : Comparator) `{!ComparatorLaws c} (x0 : Compaction) (Hversion : version_ok c (input_version_ x0)) (Hlevel : 0 <= level_ x0)
  (Hgrand : Forall (fun g => valid_key (largest g)) (grandparents_ x0)).
Abbreviation iord := (internal_ord c).

(** Only the marks of the two searches change. *)
Definition moved (x : Compaction) : Prop := exists i seen n ptrs, x = set_ptrs (set_overlap x0 i seen n) ptrs.

(** No level below the outputs can hold the key. *)
Definition base (u : bytes) : bool := outside_all c u (drop (Z.to_nat (level_ x0 + 2)) (input_version_ x0)).

Lemma moved_self : moved x0.
Proof. eexists _, _, _, _. apply set_overlap_same. Qed.

Lemma moved_ptrs x ptrs : moved x -> moved (set_ptrs x ptrs).
Proof. intros (i & seen & n & p & ->). by exists i, seen, n, ptrs. Qed.

Lemma drop_key_spec k snapshot ks x : valid_key k -> moved x -> ptrs_ok c (ukey k) (input_version_ x0) (level_ptrs_ x) ->
  exists ptrs, DC.drop_key c k snapshot ks x = Ret (drops c snapshot base k ks, set_ptrs x ptrs) /\ ptrs_ok c (ukey k) (input_version_ x0) ptrs.
Proof.
  intros (u & seq & t & -> & Ht & Eu & Es & Et)%valid_parts Hm Hp. unfold DC.drop_key, drops. rewrite Eu, Es, Et in *. rewrite parse_ikey by done. run. cbn [user_key sequence type].
  match goal with |- context [if ?b then DC.MkKeyState (Some u) _ else ks] => set (ks' := if b then DC.MkKeyState (Some u) kMaxSequenceNumber else ks) end. destruct (DC.last_sequence_for_key ks' <=? snapshot); [exists (level_ptrs_ x); run; by rewrite set_ptrs_same|].
  destruct ((t =? kTypeDeletion) && (seq <=? snapshot)); cbn [andb]; [|exists (level_ptrs_ x); run; by rewrite set_ptrs_same].
  destruct Hm as (i & seen & n & p & ->). destruct (is_base_spec c u (set_ptrs (set_overlap x0 i seen n) p)) as (ptrs & -> & Hp'); [done|done|done|]. run. by exists ptrs.
Qed.

Lemma skip_spec k gs : forall i seen n, valid_key k -> Forall (fun g => valid_key (largest g)) gs -> exists i' n', skip_grandparents c k gs i seen n = Ret (i', n').
Proof.
  induction gs as [|g gs IH]; intros i seen n Hk Hg; cbn [skip_grandparents]; [by exists i, n|]. apply Forall_cons in Hg as [Hg Hgs].
  rewrite encode_good by (by apply valid_key_good). run. rewrite (compare_good c) by (by apply valid_key_good). run. case_match; [by apply IH|by exists i, n].
Qed.

Lemma should_stop_spec k x : valid_key k -> moved x -> exists stop x', ShouldStopBefore c k x = Ret (stop, x') /\ moved x' /\ level_ptrs_ x' = level_ptrs_ x.
Proof.
  intros Hk (i & seen & n & p & ->). unfold ShouldStopBefore. cbn [grandparents_ grandparent_index_ seen_key_ overlapped_bytes_ set_ptrs set_overlap].
  destruct (skip_spec k (drop i (grandparents_ x0)) i seen n Hk) as (i' & n' & E); [by apply Forall_drop|]. rewrite E. run.
  destruct (kMaxGrandParentOverlapBytes <? n'); eexists _, _; (split; [reflexivity|]); split; try done; by eexists i', true, _, p.
Qed.
End Steps.

(** ** The loop *)

Section Run.
Context {W I : Type} `{!CompactionEnv W bytes} `{IterView I} `{IterMoves W I}.
Context (c : Comparator) `{!ComparatorLaws c} (snappy : option snappy_lib) (Hsnappy : forall s, snappy = Some s -> snappy_ok s) (addr : Z) (Haddr : 0 <= addr).
Context (options : Options) (same : bytes -> bytes -> Prop) `{!TableComparatorLaws (comparator options) internal_good (internal_ord c) same} (capacity rate : nat)
  (Hopts : options_ok options internal_good same capacity rate) (dbname : bytes).
Context (good : W -> Prop) (closed : W -> list (bytes * bytes)) `{!CompactionEnvLaws W good closed}.
Context (at_ : list entry -> nat -> I -> Prop) `{!IteratorLaws internal_good (internal_ord c) good at_}
  (Hmoves : forall op it w it' w', it_move op it w = Ret (it', w') -> closed w' = closed w).
Context (x0 : Compaction) (Hversion : version_ok c (input_version_ x0)) (Hlevel : 0 <= level_ x0) (Hgrand : Forall (fun g => valid_key (largest g)) (grandparents_ x0)).
Abbreviation iord := (internal_ord c).
Abbreviation fits := (fits options internal_good (internal_ord c) capacity rate).
Abbreviation built := (built snappy addr options).

(** The entries of a file, what the state knows of it, and its name and contents. *)
Definition result : Type := list entry * Output * (bytes * bytes).

Definition finished (d : result) : Prop :=
  let '(chunk, o, f) := d in
  chunk <> [] /\ build_table snappy addr options chunk = Ret (OK, f.2) /\ TableFileName dbname (out_number o) = Ret f.1 /\ out_size o = Z.of_nat (length f.2) /\
  fst <$> head chunk = Some (out_smallest o) /\ fst <$> last chunk = Some (out_largest o).

(** The file at work has the entries [cur]. *)
Definition current (ds : list result) (cur : list entry) (st : DC.CompactionState bytes) : Prop :=
  match DC.builder st with
  | None => cur = [] /\ DC.outputs st = (fun d => d.1.2) <$> ds
  | Some b => exists o, DC.outputs st = ((fun d => d.1.2) <$> ds) ++ [o] /\ built cur b /\ 0 < out_number o /\
      (cur <> [] -> fst <$> head cur = Some (out_smallest o) /\ fst <$> last cur = Some (out_largest o))
  end.

Record merged (files : list (bytes * bytes)) (snapshot : Z) (ds : list result) (cur : list entry) (st : DC.CompactionState bytes) (w : W) : Prop := {
  mg_good : good w;
  mg_closed : exists zs, closed w = files ++ zs /\ (snd <$> ds) `sublist_of` zs;
  mg_finished : Forall finished ds;
  mg_current : current ds cur st;
  mg_snapshot : DC.smallest_snapshot st = snapshot;
  mg_moved : moved x0 (DC.compaction st);
}.

Lemma table_name n : 0 < n -> exists name, TableFileName dbname n = Ret name.
Proof. intros Hn. unfold TableFileName, positive_number. destruct (Z.ltb_spec 0 n); [by eexists|lia]. Qed.

Lemma on_current_snoc g (st : DC.CompactionState bytes) os o : DC.outputs st = os ++ [o] -> DC.on_current g st = Ret (DC.set_outputs st (os ++ [g o])).
Proof. intros E. unfold DC.on_current. by rewrite E, last_snoc, length_app, Nat.add_sub, take_app_length. Qed.

Lemma finish_output files snapshot ds cur st w b : merged files snapshot ds cur st w -> DC.builder st = Some b -> cur <> [] -> fits cur ->
  exists o f st' w', DC.FinishCompactionOutputFile snappy addr dbname OK st w = Ret (OK, st', w') /\ merged files snapshot (ds ++ [(cur, o, f)]) [] st' w' /\
    DC.builder st' = None /\ DC.compaction st' = DC.compaction st.
Proof.
  intros [Hg Hc Hf Hcur Hs Hm] Eb Hne Hfit. unfold current in Hcur. rewrite Eb in Hcur. destruct Hcur as (o & Eo & Hb & Hn & Hk). destruct (Hk Hne) as [Hk1 Hk2].
  destruct (built_finish snappy Hsnappy addr Haddr options internal_good (internal_ord c) same capacity rate Hopts cur b Hfit Hb) as (r' & Er & Ebt & Esz & _).
  unfold DC.FinishCompactionOutputFile. rewrite Eb, Eo, last_snoc. rewrite (proj2 (Z.eqb_neq _ _)) by lia. cbn [negb]. oks. rewrite Er. run.
  rewrite (on_current_snoc _ _ _ _ Eo). run. destruct (table_name (out_number o) Hn) as (name & En). rewrite En. run.
  destruct (cl_sync w name (TB.file r') Hg) as (w1 & -> & Hg1 & Hc1). oks.
  destruct (cl_close w1 name (TB.file r') Hg1) as (w2 & -> & Hg2 & Hc2). oks.
  assert (exists w3, (if 0 <? TB.NumEntries b then ce_Usable (out_number o) (TB.FileSize r') w2 else Ret (OK, w2)) = Ret (OK, w3) /\ good w3 /\ closed w3 = closed w2) as (w3 & -> & Hg3 & Hc3).
  { destruct (0 <? TB.NumEntries b); [by apply cl_usable|by exists w2]. }
  run. eexists (MkOutput (out_number o) (TB.FileSize r') (out_smallest o) (out_largest o)), (name, TB.file r'), _, w3. split_and!; [reflexivity| |done|done].
  split; cbn [DC.smallest_snapshot DC.compaction]; [done| | | |done|done].
  - destruct Hc as (zs & Hc & Hsub). exists (zs ++ [(name, TB.file r')]). rewrite Hc3, Hc2, Hc1, Hc, fmap_app, app_assoc. split; [done|]. by apply sublist_app.
  - apply Forall_app_2; [done|]. apply Forall_singleton. cbn. by split_and!.
  - unfold current. cbn. rewrite fmap_app. done.
Qed.

Lemma open_output files snapshot ds st w : merged files snapshot ds [] st w -> DC.builder st = None ->
  exists b st' w', DC.OpenCompactionOutputFile options dbname st w = Ret (OK, st', w') /\ merged files snapshot ds [] st' w' /\ DC.builder st' = Some b /\ DC.compaction st' = DC.compaction st.
Proof.
  intros [Hg Hc Hf Hcur Hs Hm] Eb. unfold current in Hcur. rewrite Eb in Hcur. destruct Hcur as [_ Eo]. unfold DC.OpenCompactionOutputFile. rewrite Eb.
  destruct (cl_number w Hg) as (n & w1 & -> & Hn & Hg1 & Hc1). destruct (cl_insert w1 n Hg1) as [Hg2 Hc2]. destruct (table_name n Hn) as (name & ->). run.
  destruct (cl_open (ce_pending_insert n w1) name Hg2) as (w2 & -> & Hg3 & Hc3). oks.
  destruct (built_new snappy addr options internal_good (internal_ord c) same capacity rate Hopts) as (b & -> & Hb). run. eexists b, _, w2. split_and!; [reflexivity| |done|done].
  split; cbn; [done|by rewrite Hc3, Hc2, Hc1|done| |done|done]. unfold current. cbn. exists (MkOutput n 0 [] []). rewrite Eo. by split_and!.
Qed.

(** The entry goes into the open file. *)
Lemma put_entry files snapshot ds cur e st w b : merged files snapshot ds cur st w -> DC.builder st = Some b -> fits (cur ++ [e]) ->
  exists st' b', (st1 ← (if TB.NumEntries b =? 0 then DC.on_current (fun o => MkOutput (out_number o) (out_size o) e.1 (out_largest o)) st else Ret st);
      st2 ← DC.on_current (fun o => MkOutput (out_number o) (out_size o) (out_smallest o) e.1) st1;
      b' ← TB.Add snappy addr e.1 e.2 b; Ret (DC.set_builder st2 (Some b'))) = Ret st' /\
    merged files snapshot ds (cur ++ [e]) st' w /\ DC.builder st' = Some b' /\ DC.compaction st' = DC.compaction st.
Proof.
  intros [Hg Hc Hf Hcur Hs Hm] Eb Hfit. unfold current in Hcur. rewrite Eb in Hcur. destruct Hcur as (o & Eo & Hb & Hn & Hk).
  assert (fits cur) as Hfc by (apply (fits_sublist _ _ _ _ _ _ (cur ++ [e])); [by apply sublist_inserts_r|done]).
  rewrite (built_num snappy Hsnappy addr Haddr options internal_good (internal_ord c) same capacity rate Hopts cur b Hfc Hb).
  destruct (built_add snappy Hsnappy addr Haddr options internal_good (internal_ord c) same capacity rate Hopts cur e b Hfit Hb) as (b' & -> & Hb').
  assert (exists sm, (sm = if Z.of_nat (length cur) =? 0 then e.1 else out_smallest o) /\ fst <$> head (cur ++ [e]) = Some sm) as (sm & Esm & Hsm).
  { eexists. split; [reflexivity|]. destruct cur as [|a cur]; [done|]. apply (Hk ltac:(done)). }
  exists (DC.MkState (DC.compaction st) (DC.smallest_snapshot st) (((fun d => d.1.2) <$> ds) ++ [MkOutput (out_number o) (out_size o) sm e.1]) (Some b') (DC.total_bytes st)), b'.
  split_and!; [|split; cbn; [done..| |done|done]|done|done].
  - rewrite Esm. destruct (Z.of_nat (length cur) =? 0); [rewrite (on_current_snoc _ _ _ _ Eo)|]; run; [erewrite on_current_snoc by done|rewrite (on_current_snoc _ _ _ _ Eo)]; done.
  - unfold current. cbn. eexists. split; [reflexivity|]. split_and!; [done|done|]. intros _. by rewrite last_snoc.
Qed.

Definition chunks (ds : list result) : list entry := concat ((fun d => d.1.1) <$> ds).

Lemma chunks_snoc ds d : chunks (ds ++ [d]) = chunks ds ++ d.1.1.
Proof. unfold chunks. rewrite fmap_app, concat_app. cbn. by rewrite app_nil_r. Qed.

(** Every file has entries, also the one at work. *)
Definition holds_some (cur : list entry) (st : DC.CompactionState bytes) : Prop := forall b, DC.builder st = Some b -> cur <> [].

Lemma add_entry_spec files snapshot ds cur e st w : merged files snapshot ds cur st w -> fits (cur ++ [e]) ->
  exists ds' cur' st' w', DC.add_entry snappy addr options dbname e.1 e.2 OK st w = Ret (OK, st', w') /\ merged files snapshot ds' cur' st' w' /\ holds_some cur' st' /\
    chunks ds' ++ cur' = chunks ds ++ cur ++ [e] /\ DC.compaction st' = DC.compaction st.
Proof.
  intros Hm Hfit. unfold DC.add_entry.
  assert (exists b st1 w1, match DC.builder st with None => DC.OpenCompactionOutputFile options dbname st w | Some _ => Ret (OK, st, w) end = Ret (OK, st1, w1) /\
    merged files snapshot ds cur st1 w1 /\ DC.builder st1 = Some b /\ DC.compaction st1 = DC.compaction st) as (b & st1 & w1 & -> & Hm1 & Eb & Ec1).
  { destruct (DC.builder st) as [b|] eqn:Eb; [by exists b, st, w|]. pose proof (mg_current _ _ _ _ _ _ Hm) as Hcur. unfold current in Hcur. rewrite Eb in Hcur. destruct Hcur as [-> _]. by apply open_output. }
  run. oks. rewrite Eb. destruct (put_entry files snapshot ds cur e st1 w1 b Hm1 Eb Hfit) as (st2 & b' & E & Hm2 & Eb' & Ec2).
  revert E. destruct (if TB.NumEntries b =? 0 then _ else _) as [st1'| |]; [|done..]. run. destruct (DC.on_current _ st1') as [st1''| |]; [|done..]. run. destruct (TB.Add snappy addr e.1 e.2 b) as [b''| |]; [|done..]. run. intros [= E].
  rewrite E. assert (b'' = b') as -> by (rewrite <- E in Eb'; by injection Eb'). rewrite <- Ec1, <- Ec2. destruct (max_output_file_size_ (DC.compaction st2) <=? TB.FileSize b').
  - destruct (finish_output files snapshot ds (cur ++ [e]) st2 w1 b' Hm2 Eb') as (o & f & st3 & w3 & E3 & Hm3 & Eb3 & Ec3); [by destruct cur|done|].
    exists (ds ++ [(cur ++ [e], o, f)]), [], st3, w3. split_and!; [done|done|intros ?; by rewrite Eb3| |by rewrite Ec3]. by rewrite chunks_snoc, app_nil_r.
  - exists ds, (cur ++ [e]), st2, w1. split_and!; [done|done|intros _ _; by destruct cur|done|done].
Qed.

Lemma keep_sublist snapshot b es : forall ks, keep c snapshot b ks es `sublist_of` es.
Proof. induction es as [|e es IH]; intros ks; cbn [keep]; [constructor|]. destruct (drops c snapshot b e.1 ks) as [[] ks']; constructor; apply IH. Qed.

Lemma set_compaction_merged files snapshot ds cur st w x : merged files snapshot ds cur st w -> moved x0 x -> merged files snapshot ds cur (DC.set_compaction st x) w.
Proof. intros [Hg Hc Hf Hcur Hs Hm] Hx. by split. Qed.

Context (es : list entry) (Hasc : ascending internal_good iord es) (Hvalid : Forall (fun e => valid_key e.1) es) (Hfits : fits es).

(** What is written, what is at work and what is to come. *)
Definition progress_at (snapshot : Z) (p : nat) (ks : DC.KeyState) (ds : list result) (cur : list entry) (st : DC.CompactionState bytes) : Prop :=
  chunks ds ++ cur ++ keep c snapshot (base c x0) ks (drop p es) = kept c snapshot (base c x0) es /\ holds_some cur st /\
  forall e, es !! p = Some e -> ptrs_ok c (ukey e.1) (input_version_ x0) (level_ptrs_ (DC.compaction st)).

(** A file is finished before an entry that would make it overlap too much. *)
Lemma stop_step files snapshot ds cur st w stop : merged files snapshot ds cur st w -> holds_some cur st -> fits cur ->
  exists ds' cur' st' w', match (stop : bool), DC.builder st with true, Some _ => DC.FinishCompactionOutputFile snappy addr dbname OK st w | _, _ => Ret (OK, st, w) end = Ret (OK, st', w') /\
    merged files snapshot ds' cur' st' w' /\ holds_some cur' st' /\ chunks ds' ++ cur' = chunks ds ++ cur /\ DC.compaction st' = DC.compaction st.
Proof.
  intros Hm Hh Hf. destruct stop, (DC.builder st) as [b|] eqn:Eb; try (by exists ds, cur, st, w).
  destruct (finish_output files snapshot ds cur st w b Hm Eb (Hh b Eb) Hf) as (o & f & st' & w' & E & Hm' & Eb' & Ec). exists (ds ++ [(cur, o, f)]), [], st', w'.
  split_and!; [done|done|intros ?; by rewrite Eb'| |done]. by rewrite chunks_snoc, app_nil_r.
Qed.

Lemma later_ptrs p e e' ptrs : es !! p = Some e -> es !! S p = Some e' -> ptrs_ok c (ukey e.1) (input_version_ x0) ptrs -> ptrs_ok c (ukey e'.1) (input_version_ x0) ptrs.
Proof.
  intros E1 E2. apply ptrs_mono; [done|]. pose proof (ascending_lt es p (S p) e e' Hasc E1 E2 ltac:(lia)) as Hlt. apply internal_user_le; [by eapply ascending_lookup_ok..|lia].
Qed.

Lemma loop_spec files snapshot fuel : forall p it ks ds cur st w, (length es - p < fuel)%nat -> at_ es p it -> merged files snapshot ds cur st w -> progress_at snapshot p ks ds cur st ->
  exists p' it' ds' cur' st' w', DC.compact_loop c snappy addr options dbname fuel it ks st w = Ret (OK, it', st', w') /\ at_ es p' it' /\ merged files snapshot ds' cur' st' w' /\ holds_some cur' st' /\
    chunks ds' ++ cur' = kept c snapshot (base c x0) es.
Proof.
  induction fuel as [|fuel IH]; intros p it ks ds cur st w Hfuel Hat Hm (Hkeep & Hh & Hptrs); [lia|]. cbn [DC.compact_loop]. rewrite (il_valid _ _ _ Hat), (cl_running w) by apply Hm.
  destruct (Nat.ltb_spec p (length es)) as [Hp|Hp]; cbn [andb negb]; cycle 1.
  { rewrite drop_ge in Hkeep by lia. cbn [keep] in Hkeep. rewrite app_nil_r in Hkeep. by exists p, it, ds, cur, st, w. }
  destruct (lookup_lt_is_Some_2 es p Hp) as [e He]. destruct (il_entry _ _ _ _ Hat He) as [Ek Ev]. assert (valid_key e.1) as Hve by (rewrite Forall_lookup in Hvalid; by eapply (Hvalid p)).
  rewrite (drop_S _ _ _ He) in Hkeep. cbn [keep] in Hkeep.
  assert (forall l, l `sublist_of` kept c snapshot (base c x0) es -> fits l) as Hsub by (intros l Hl; eapply fits_sublist; [|exact Hfits]; etrans; [exact Hl|apply keep_sublist]).
  assert (fits cur) as Hfc by (apply Hsub; rewrite <- Hkeep; by apply sublist_inserts_l, sublist_inserts_r).
  destruct (cl_imm w (mg_good _ _ _ _ _ _ Hm)) as (w1 & ys & -> & Hg1 & Hc1). run. rewrite Ek. run.
  assert (merged files snapshot ds cur st w1) as Hm1.
  { destruct Hm as [? (zs & Hc & Hzs) ? ? ? ?]. split; try done. exists (zs ++ ys). rewrite Hc1, Hc, app_assoc. split; [done|]. by apply sublist_inserts_r. }
  destruct (should_stop_spec c x0 Hgrand e.1 (DC.compaction st) Hve (mg_moved _ _ _ _ _ _ Hm)) as (stop & x1 & -> & Hx1 & Ep1). run. rewrite (il_status _ _ _ Hat). run.
  pose proof (set_compaction_merged _ _ _ _ _ _ x1 Hm1 Hx1) as Hm2.
  destruct (stop_step files snapshot ds cur (DC.set_compaction st x1) w1 stop Hm2 Hh Hfc) as (ds2 & cur2 & st2 & w2 & -> & Hm3 & Hh2 & Hch & Ec2). run. oks.
  rewrite (mg_snapshot _ _ _ _ _ _ Hm3), Ec2. cbn [DC.compaction DC.set_compaction].
  destruct (drop_key_spec c x0 Hversion Hlevel e.1 snapshot ks x1 Hve Hx1) as (ptrs & -> & Hptrs'); [rewrite Ep1; by apply Hptrs|]. run.
  pose proof (set_compaction_merged _ _ _ _ _ _ (set_ptrs x1 ptrs) Hm3 (moved_ptrs x0 _ _ Hx1)) as Hm4. rewrite app_assoc, <- Hch in Hkeep.
  destruct (drops c snapshot (base c x0) e.1 ks) as [d ks'] eqn:Ed.
  assert (exists ds4 cur4 st4 w4, (if d then Ret (OK, DC.set_compaction st2 (set_ptrs x1 ptrs), w2)
      else value ← it_value it; DC.add_entry snappy addr options dbname e.1 value OK (DC.set_compaction st2 (set_ptrs x1 ptrs)) w2) = Ret (OK, st4, w4) /\
    merged files snapshot ds4 cur4 st4 w4 /\ holds_some cur4 st4 /\ (chunks ds4 ++ cur4) ++ keep c snapshot (base c x0) ks' (drop (S p) es) = kept c snapshot (base c x0) es /\
    level_ptrs_ (DC.compaction st4) = ptrs) as (ds4 & cur4 & st4 & w4 & -> & Hm5 & Hh4 & Hk4 & Ep4).
  { destruct d; [by exists ds2, cur2, (DC.set_compaction st2 (set_ptrs x1 ptrs)), w2|]. rewrite Ev. run.
    destruct (add_entry_spec files snapshot ds2 cur2 e (DC.set_compaction st2 (set_ptrs x1 ptrs)) w2 Hm4) as (ds4 & cur4 & st4 & w4 & -> & Hm5 & Hh4 & Hk4 & Ec4).
    - apply Hsub. rewrite <- Hkeep, <- app_assoc. apply sublist_inserts_l. apply sublist_app; [done|]. apply sublist_skip, sublist_nil_l.
    - exists ds4, cur4, st4, w4. split_and!; [done|done|done| |by rewrite Ec4]. by rewrite Hk4, app_assoc, <- app_assoc. }
  run. oks. destruct (il_move es p it w4 OpNext Hat (mg_good _ _ _ _ _ _ Hm5) Logic.I) as [(p' & it' & w5 & Ecur & Emv & Hat' & Hg5)|[Ecur _]]; cbn [cursor_op] in Ecur; rewrite (proj2 (Nat.ltb_lt _ _) Hp) in Ecur; [|done].
  injection Ecur as <-. rewrite Emv. run. apply (IH (S p) it' ks' ds4 cur4 st4 w5); [lia|done| |].
  - destruct Hm5. split; try done. by rewrite (Hmoves _ _ _ _ _ Emv).
  - split_and!; [by rewrite app_assoc|done|]. intros e' He'. rewrite Ep4. exact (later_ptrs p e e' ptrs He He' Hptrs').
Qed.

(** The edit that takes the inputs away and adds the outputs. *)
Definition outputs_edit (ds : list result) : VE.VersionEdit :=
  foldl (fun e d => VE.AddFile (level_ x0 + 1) (out_number d.1.2) (out_size d.1.2) (out_smallest d.1.2) (out_largest d.1.2) e) (AddInputDeletions x0 (edit_ x0)) ds.

Lemma install_edit_spec ds (st : DC.CompactionState bytes) : moved x0 (DC.compaction st) -> DC.outputs st = (fun d : result => d.1.2) <$> ds -> DC.install_edit st = outputs_edit ds.
Proof.
  intros (i & seen & n & p & E) Eo. unfold DC.install_edit, outputs_edit. rewrite E, Eo. cbn [level_ edit_ set_ptrs set_overlap]. change (AddInputDeletions (set_ptrs (set_overlap x0 i seen n) p)) with (AddInputDeletions x0).
  clear. generalize (AddInputDeletions x0 (edit_ x0)). generalize (level_ x0 + 1). intros l. induction ds as [|d ds IH]; intros v; [done|]. cbn. apply IH.
Qed.

Definition oldest_snapshot (snapshots : list Z) (last_sequence : Z) : Z := match snapshots with [] => last_sequence | s :: _ => s end.

Lemma work_spec fuel snapshots last_sequence p input w num : ce_NumLevelFiles (level_ x0) w = Ret num -> 0 < num -> level_ptrs_ x0 = replicate 7 0%nat -> (length es < fuel)%nat -> at_ es p input -> good w ->
  exists ds st w', DC.DoCompactionWork c snappy addr options dbname fuel snapshots last_sequence input x0 w = ('(s, w') ← ce_LogAndApply (outputs_edit ds) w'; Ret (s, st, w')) /\
    DC.outputs st = (fun d : result => d.1.2) <$> ds /\ DC.builder st = None /\ Forall finished ds /\ (exists zs, closed w' = closed w ++ zs /\ (snd <$> ds) `sublist_of` zs) /\ good w' /\ chunks ds = kept c (oldest_snapshot snapshots last_sequence) (base c x0) es.
Proof.
  intros Enum Hnum Hfresh Hfuel Hat Hw. unfold DC.DoCompactionWork. rewrite Enum. run. rewrite (proj2 (Z.ltb_lt _ _) Hnum). fold (oldest_snapshot snapshots last_sequence). set (snapshot := oldest_snapshot snapshots last_sequence).
  destruct (il_move es p input w OpFirst Hat Hw Logic.I) as [(p0 & it & w1 & [= <-] & Emv & Hat1 & Hw1)|[? _]]; [|done]. rewrite Emv. run.
  destruct (loop_spec (closed w) snapshot fuel 0 it (DC.MkKeyState None kMaxSequenceNumber) [] [] (DC.MkState x0 snapshot [] None 0) w1) as (p' & it' & ds & cur & st & w2 & -> & Hat2 & Hm & Hh & Hk); [lia|done| | |].
  - split; [done| |done|done|done|apply (moved_self x0)]. exists []. by rewrite (Hmoves _ _ _ _ _ Emv), app_nil_r.
  - split; [done|]. split; [by intros b|]. intros e _. cbn. rewrite Hfresh. apply ptrs_new. apply (vo_levels _ _ Hversion).
  - run. rewrite (cl_running w2) by apply Hm. cbn [andb]. change (Status.ok OK) with true. cbn [andb]. run. rewrite (il_status _ _ _ Hat2). run. change (Status.ok OK) with true.
    assert (exists ds' st' w', match true, DC.builder st with true, Some _ => DC.FinishCompactionOutputFile snappy addr dbname OK st w2 | _, _ => Ret (OK, st, w2) end = Ret (OK, st', w') /\
      merged (closed w) snapshot ds' [] st' w' /\ DC.builder st' = None /\ chunks ds' = kept c snapshot (base c x0) es) as (ds' & st' & w' & -> & Hm' & Eb' & Hk').
    { destruct (DC.builder st) as [b|] eqn:Eb.
      - destruct (finish_output (closed w) snapshot ds cur st w2 b Hm Eb (Hh b Eb)) as (o & f & st' & w' & E & Hm' & Eb' & _).
        + eapply fits_sublist; [|exact Hfits]. transitivity (kept c snapshot (base c x0) es); [rewrite <- Hk; by apply sublist_inserts_l|apply keep_sublist].
        + exists (ds ++ [(cur, o, f)]), st', w'. by rewrite chunks_snoc.
      - pose proof (mg_current _ _ _ _ _ _ Hm) as Hc. unfold current in Hc. rewrite Eb in Hc. destruct Hc as [-> _]. rewrite app_nil_r in Hk. by exists ds, st, w2. }
    run. oks. destruct Hm' as [Hg' Hc' Hf' Hcur' _ Hmv']. unfold current in Hcur'. rewrite Eb' in Hcur'. destruct Hcur' as [_ Eo]. exists ds', st', w'. rewrite (install_edit_spec ds' st' Hmv' Eo). by split_and!.
Qed.

Abbreviation DoCompactionWork := (DC.DoCompactionWork c snappy addr options dbname).

(** When no call fails, a compaction over inputs with the entries [es] ends, writes
    and closes files that are the tables of consecutive pieces of its output, records number, size
    and bounds of each, and installs them in place of the inputs; the output has exactly
    the entries of the inputs that are neither older than one of the same key that every
    snapshot sees, nor a deletion that every snapshot sees and no deeper level needs. *)
Theorem compaction_output fuel snapshots last_sequence p input w num : ce_NumLevelFiles (level_ x0) w = Ret num -> 0 < num -> level_ptrs_ x0 = replicate 7 0%nat -> (length es < fuel)%nat -> at_ es p input -> good w ->
  oldest_snapshot snapshots last_sequence < kMaxSequenceNumber ->
  exists ds st w', DoCompactionWork fuel snapshots last_sequence input x0 w = ('(s, w') ← ce_LogAndApply (outputs_edit ds) w'; Ret (s, st, w')) /\
    DC.outputs st = (fun d : result => d.1.2) <$> ds /\ Forall finished ds /\ (exists zs, closed w' = closed w ++ zs /\ (snd <$> ds) `sublist_of` zs) /\ ascending internal_good iord (chunks ds) /\
    forall e, e ∈ chunks ds <-> e ∈ es /\ ~ hidden c (oldest_snapshot snapshots last_sequence) es e /\ ~ obsolete (oldest_snapshot snapshots last_sequence) (base c x0) e.
Proof.
  intros Enum Hnum Hfresh Hfuel Hat Hw Hs. destruct (work_spec fuel snapshots last_sequence p input w num Enum Hnum Hfresh Hfuel Hat Hw) as (ds & st & w' & E & Eo & _ & Hf & Hc & _ & Ek).
  exists ds, st, w'. rewrite Ek. split_and!; [done..| |by apply kept_spec]. eapply ascending_sublist; [apply keep_sublist|done].
Qed.

(** C9: the output of a compaction answers as its inputs did.  When no call fails, the
    database is not shut down and the level has files, DoCompactionWork writes and
    closes the tables of its outputs, in order, besides those of memtables it flushes on
    the way; each is the table of a piece of the kept entries and is recorded with its
    number, size and bounds in the edit handed to LogAndApply.  With the entries [rest]
    of the rest of the database, every read at the sequence number of a snapshot, or
    later, reports what it did before, provided that [rest] has nothing older than the
    inputs on a key whose deletion was dropped. *)
Theorem compaction_keeps_reads fuel snapshots last_sequence p input w num : ce_NumLevelFiles (level_ x0) w = Ret num -> 0 < num -> level_ptrs_ x0 = replicate 7 0%nat -> (length es < fuel)%nat -> at_ es p input -> good w ->
  oldest_snapshot snapshots last_sequence < kMaxSequenceNumber ->
  exists ds st w', DoCompactionWork fuel snapshots last_sequence input x0 w = ('(s, w') ← ce_LogAndApply (outputs_edit ds) w'; Ret (s, st, w')) /\
    DC.outputs st = (fun d : result => d.1.2) <$> ds /\ Forall finished ds /\ (exists zs, closed w' = closed w ++ zs /\ (snd <$> ds) `sublist_of` zs) /\
    forall rest u s o, oldest_snapshot snapshots last_sequence <= s <= kMaxSequenceNumber -> 0 <= s -> Forall (fun e => internal_good e.1) rest ->
      (forall e r, e ∈ es -> r ∈ rest -> cmp_Compare c (ukey e.1) (ukey r.1) = 0 -> base c x0 (ukey e.1) = true -> iord r.1 e.1 < 0) ->
      found c (ikey u s kValueTypeForSeek) (es ++ rest) o ->
      exists o', found c (ikey u s kValueTypeForSeek) (chunks ds ++ rest) o' /\ reported_value o' = reported_value o.
Proof.
  intros Enum Hnum Hfresh Hfuel Hat Hw Hs. destruct (work_spec fuel snapshots last_sequence p input w num Enum Hnum Hfresh Hfuel Hat Hw) as (ds & st & w' & E & Eo & _ & Hf & Hc & _ & Ek).
  exists ds, st, w'. split_and!; [done..|]. intros rest u s o Hr1 Hr2 Hr3 Hr4 Hfd. rewrite Ek. eapply kept_found; eauto.
Qed.
End Run.

(** ** Examples *)

(** The next file number, and the files closed. *)
#[global] Instance sample_env : CompactionEnv (Z * list (bytes * bytes)) bytes := {|
  ce_NewFileNumber w := (w.1, (w.1 + 1, w.2));
  ce_pending_insert _ w := w;
  ce_pending_erase _ w := w;
  ce_NewWritableFile _ w := (OK, Some [], w);
  ce_Sync _ _ w := (OK, w);
  ce_Close name f w := (OK, (w.1, w.2 ++ [(name, f)]));
  ce_Usable _ _ w := Ret (OK, w);
  ce_shutting_down _ := false;
  ce_CompactImm w := Ret w;
  ce_LogAndApply _ w := Ret (OK, w);
  ce_NumLevelFiles _ _ := Ret 1;
|}.

#[local] Instance sample_moves : IterMoves (Z * list (bytes * bytes)) ListIterator := list_moves (internal_ord BytewiseComparator).

Lemma sample_env_laws : CompactionEnvLaws (Z * list (bytes * bytes)) (fun w => 0 < w.1) snd.
Proof. split; intros [n fs]; cbn; eauto 10; intros Hn; [exists n, (n + 1, fs); cbn; split_and!; [done|done|lia|done]|exists (n, fs), []; by rewrite app_nil_r]. Qed.

Definition sample_inputs : list entry :=
  [(ikey (str "a") 9 kTypeValue, str "1"); (ikey (str "b") 8 kTypeDeletion, []); (ikey (str "b") 5 kTypeValue, str "2"); (ikey (str "c") 7 kTypeValue, str "3"); (ikey (str "c") 3 kTypeValue, str "4")].
Definition sample_compaction : Compaction := Compaction_new 0 (replicate 7 []) [].

Lemma sample_inputs_valid : Forall (fun e => valid_key e.1) sample_inputs.
Proof. repeat constructor; eexists _, _, _; (split; [reflexivity|]); split; try (left; reflexivity); try (right; reflexivity); vm_compute; split; congruence. Qed.

Lemma sample_inputs_ascending : ascending internal_good (internal_ord BytewiseComparator) sample_inputs.
Proof. split; [repeat constructor; apply Nat.leb_le; vm_compute; reflexivity|repeat constructor; vm_compute; reflexivity]. Qed.

Lemma sample_inputs_fit : fits sample_options internal_good (internal_ord BytewiseComparator) 100 12 sample_inputs.
Proof. split; [apply sample_inputs_ascending|split; [apply Z.ltb_lt; vm_compute; reflexivity|cbn; lia]]. Qed.

Lemma sample_version_empty : version_ok BytewiseComparator (replicate 7 []).
Proof. split; [done|repeat constructor|]. intros level l [-> _]%lookup_replicate. apply level_sorted_nil. Qed.

Lemma sample_moves_closed op (it : ListIterator) (w : Z * list (bytes * bytes)) it' w' : it_move op it w = Ret (it', w') -> w'.2 = w.2.
Proof. unfold it_move, sample_moves, list_moves. destruct (cursor_op _ _ _ _); [|done..]. run. by intros [= _ <-]. Qed.

(** A compaction whose oldest reader is at 9 keeps ["a"] and the newer value of ["c"]. *)
Lemma compaction_output_witness : exists ds st w', DC.DoCompactionWork (I := ListIterator) BytewiseComparator (Some toy_snappy) 0 sample_options (str "db") 6 [] 9
    (MkListIter sample_inputs 0) sample_compaction (4, []) = Ret (OK, st, w') /\ chunks ds ⊆ sample_inputs /\ ((ikey (str "a") 9 kTypeValue, str "1") : entry) ∈ chunks ds.
Proof.
  destruct (compaction_output (I := ListIterator) BytewiseComparator (Some toy_snappy) ltac:(intros s [= <-]; apply toy_snappy_ok) 0 ltac:(lia) sample_options same_user 100 12 sample_options_ok (str "db")
    (fun w => 0 < w.1) snd (CompactionEnvLaws0 := sample_env_laws) (fun es p it => it = MkListIter es p) (IteratorLaws0 := list_laws _ _ _)) with (x0 := sample_compaction) (es := sample_inputs) (fuel := 6%nat) (snapshots := @nil Z) (last_sequence := 9) (p := 0%nat)
    (input := MkListIter sample_inputs 0) (w := (4, @nil (bytes * bytes))) (num := 1) as (ds & st & w' & E & _ & _ & _ & _ & He).
  - apply sample_moves_closed.
  - apply sample_version_empty.
  - done.
  - constructor.
  - apply sample_inputs_ascending.
  - apply sample_inputs_valid.
  - apply sample_inputs_fit.
  - done.
  - done.
  - done.
  - cbn; lia.
  - done.
  - done.
  - done.
  - exists ds, st, w'. split_and!; [exact E|intros e; apply He|]. apply He. split_and!; [by left| |intros [Ht _]; by vm_compute in Ht].
    intros (e0 & H0 & Hu & Hlt & _). unfold sample_inputs in H0. repeat (apply elem_of_cons in H0 as [->|H0]; [by vm_compute in Hu, Hlt|]). by apply not_elem_of_nil in H0.
Defined.

(** ["b"] is deleted before and after. *)
Lemma compaction_keeps_reads_witness : exists ds st w' o, DC.DoCompactionWork (I := ListIterator) BytewiseComparator (Some toy_snappy) 0 sample_options (str "db") 6 [] 9
    (MkListIter sample_inputs 0) sample_compaction (4, []) = Ret (OK, st, w') /\ found BytewiseComparator (ikey (str "b") 9 kValueTypeForSeek) (chunks ds ++ []) o /\ reported_value o = (not_found, None).
Proof.
  destruct (compaction_keeps_reads (I := ListIterator) BytewiseComparator (Some toy_snappy) ltac:(intros s [= <-]; apply toy_snappy_ok) 0 ltac:(lia) sample_options same_user 100 12 sample_options_ok (str "db")
    (fun w => 0 < w.1) snd (CompactionEnvLaws0 := sample_env_laws) (fun es p it => it = MkListIter es p) (IteratorLaws0 := list_laws _ _ _)) with (x0 := sample_compaction) (es := sample_inputs) (fuel := 6%nat) (snapshots := @nil Z) (last_sequence := 9) (p := 0%nat)
    (input := MkListIter sample_inputs 0) (w := (4, @nil (bytes * bytes))) (num := 1) as (ds & st & w' & E & _ & _ & _ & Hr).
  - apply sample_moves_closed.
  - apply sample_version_empty.
  - done.
  - constructor.
  - apply sample_inputs_ascending.
  - apply sample_inputs_valid.
  - apply sample_inputs_fit.
  - done.
  - done.
  - done.
  - cbn; lia.
  - done.
  - done.
  - done.
  - specialize (Hr [] (str "b") 9 (hit BytewiseComparator (ikey (str "b") 9 kValueTypeForSeek) sample_inputs) ltac:(vm_compute; split; congruence) ltac:(lia) ltac:(constructor)).
    destruct Hr as (o & Ho & Er).
    + intros e r _ Hin. exfalso. exact (not_elem_of_nil r Hin).
    + rewrite app_nil_r. apply hit_found; [apply _|apply Nat.leb_le; vm_compute; reflexivity|apply sample_inputs_ascending].
    + exists ds, st, w', o. split; [exact E|]. split; [exact Ho|]. rewrite Er. vm_compute. reflexivity.
Defined.
