(* ===== verification/Merger.v ===== *)
(** * The merging iterator (util/leveldb/table/merger.cc)

    An iterator over the union of what its children go through: the memtables and the
    tables of a database.  Its children share the state [W], such as a cache. *)

From S2P Require Import Prelude Order Slice FileNames Status Iterators.
From stdpp Require Import strings.
#[local] Open Scope Z_scope.

Inductive Direction := kForward | kReverse.
#[export] Instance direction_eq_dec : EqDecision Direction.
Proof. solve_decision. Defined.

Module Merging.
Section Ops.
Context {W I : Type} `{IterView I} `{IterMoves W I} (compare : bytes -> bytes -> outcome Z).

(** [current_] points into [children_]. *)
Record MergingIterator := MkMerging { children_ : list (Wrapper.Wrapper I); current_ : option nat; direction_ : Direction }.

(** The loops over all children. *)
Fixpoint each (f : nat -> Wrapper.Wrapper I -> W -> outcome (Wrapper.Wrapper I * W)) (i : nat) (ws : list (Wrapper.Wrapper I)) (s : W) :
    outcome (list (Wrapper.Wrapper I) * W) :=
  match ws with
  | [] => Ret ([], s)
  | child :: ws' => '(child, s) ← f i child s; '(ws', s) ← each f (S i) ws' s; Ret (child :: ws', s)
  end.

Fixpoint set_children (children : list I) : outcome (list (Wrapper.Wrapper I)) :=
  match children with
  | [] => Ret []
  | it :: l => w ← Wrapper.new (Some it); ws ← set_children l; Ret (w :: ws)
  end.

Definition new (children : list I) : outcome MergingIterator := ws ← set_children children; Ret (MkMerging ws None kForward).

Definition Valid (m : MergingIterator) : bool := bool_decide (is_Some (current_ m)).

(** The loops of [FindSmallest] and [FindLargest] over the children in their order. *)
Fixpoint pick (better : Z -> bool) (l : list (nat * Wrapper.Wrapper I)) (best : option (nat * Wrapper.Wrapper I)) : outcome (option (nat * Wrapper.Wrapper I)) :=
  match l with
  | [] => Ret best
  | (i, child) :: l' =>
      best ← (if Wrapper.Valid child then
                match best with
                | None => Ret (Some (i, child))
                | Some (_, b) =>
                    ck ← Wrapper.key child; bk ← Wrapper.key b; r ← compare ck bk;
                    Ret (if better r then Some (i, child) else best)
                end
              else Ret best);
      pick better l' best
  end.

Definition set_current (m : MergingIterator) (best : option (nat * Wrapper.Wrapper I)) : MergingIterator := MkMerging (children_ m) (fst <$> best) (direction_ m).
Definition FindSmallest (m : MergingIterator) : outcome MergingIterator :=
  best ← pick (fun r => r <? 0) (imap pair (children_ m)) None; Ret (set_current m best).
Definition FindLargest (m : MergingIterator) : outcome MergingIterator :=
  best ← pick (fun r => 0 <? r) (reverse (imap pair (children_ m))) None; Ret (set_current m best).

Definition set_direction (m : MergingIterator) (d : Direction) : MergingIterator := MkMerging (children_ m) (current_ m) d.
Definition set_all (m : MergingIterator) (ws : list (Wrapper.Wrapper I)) : MergingIterator := MkMerging ws (current_ m) (direction_ m).

Definition SeekToFirst (m : MergingIterator) (s : W) : outcome (MergingIterator * W) :=
  '(ws, s) ← each (fun _ => Wrapper.SeekToFirst) 0 (children_ m) s;
  m ← FindSmallest (set_all m ws);
  Ret (set_direction m kForward, s).

Definition SeekToLast (m : MergingIterator) (s : W) : outcome (MergingIterator * W) :=
  '(ws, s) ← each (fun _ => Wrapper.SeekToLast) 0 (children_ m) s;
  m ← FindLargest (set_all m ws);
  Ret (set_direction m kReverse, s).

Definition Seek (target : bytes) (m : MergingIterator) (s : W) : outcome (MergingIterator * W) :=
  '(ws, s) ← each (fun _ => Wrapper.Seek target) 0 (children_ m) s;
  m ← FindSmallest (set_all m ws);
  Ret (set_direction m kForward, s).

(** [*current_], which is a child when the iterator is valid. *)
Definition current (m : MergingIterator) : outcome (nat * Wrapper.Wrapper I) :=
  match current_ m with
  | None => Exit 134
  | Some i => match children_ m !! i with Some w => Ret (i, w) | None => Undef end
  end.
Definition key (m : MergingIterator) : outcome bytes := assert! Valid m; '(_, w) ← current m; Wrapper.key w.
Definition value (m : MergingIterator) : outcome bytes := assert! Valid m; '(_, w) ← current m; Wrapper.value w.

(** Positions a child that is not [current_] after [key()], and before it. *)
Definition turn_forward (k : bytes) (child : Wrapper.Wrapper I) (s : W) : outcome (Wrapper.Wrapper I * W) :=
  '(child, s) ← Wrapper.Seek k child s;
  if Wrapper.Valid child then
    ck ← Wrapper.key child; r ← compare k ck;
    if r =? 0 then Wrapper.Next child s else Ret (child, s)
  else Ret (child, s).

Definition turn_backward (k : bytes) (child : Wrapper.Wrapper I) (s : W) : outcome (Wrapper.Wrapper I * W) :=
  '(child, s) ← Wrapper.Seek k child s;
  if Wrapper.Valid child then Wrapper.Prev child s else Wrapper.SeekToLast child s.

(** The loop that positions all other children before a change of direction. *)
Definition turn (turn_child : bytes -> Wrapper.Wrapper I -> W -> outcome (Wrapper.Wrapper I * W)) (d : Direction) (m : MergingIterator) (s : W) : outcome (MergingIterator * W) :=
  '(ws, s) ← each (fun i child s => if bool_decide (current_ m = Some i) then Ret (child, s) else k ← key m; turn_child k child s) 0 (children_ m) s;
  Ret (set_direction (set_all m ws) d, s).

(** [current_->op()] *)
Definition move_current (op : iter_op) (m : MergingIterator) (s : W) : outcome (MergingIterator * W) :=
  '(i, w) ← current m;
  '(w, s) ← Wrapper.move op w s;
  Ret (set_all m (<[i := w]> (children_ m)), s).

Definition Next (m : MergingIterator) (s : W) : outcome (MergingIterator * W) :=
  assert! Valid m;
  '(m, s) ← (if bool_decide (direction_ m = kForward) then Ret (m, s) else turn turn_forward kForward m s);
  '(m, s) ← move_current OpNext m s;
  m ← FindSmallest m;
  Ret (m, s).

Definition Prev (m : MergingIterator) (s : W) : outcome (MergingIterator * W) :=
  assert! Valid m;
  '(m, s) ← (if bool_decide (direction_ m = kReverse) then Ret (m, s) else turn turn_backward kReverse m s);
  '(m, s) ← move_current OpPrev m s;
  m ← FindLargest m;
  Ret (m, s).

Fixpoint status_from (ws : list (Wrapper.Wrapper I)) (status : Status) : outcome Status :=
  match ws with
  | [] => Ret status
  | w :: ws' => status ← Wrapper.status w; if negb (ok status) then Ret status else status_from ws' status
  end.
Definition status (m : MergingIterator) : outcome Status := status_from (children_ m) OK.

Definition move (op : iter_op) : MergingIterator -> W -> outcome (MergingIterator * W) :=
  match op with
  | OpFirst => SeekToFirst
  | OpLast => SeekToLast
  | OpSeek target => Seek target
  | OpNext => Next
  | OpPrev => Prev
  end.
End Ops.
Arguments MergingIterator : clear implicits.
End Merging.

(** ** [NewMergingIterator]: no merging for less than two children *)

Inductive MergedIterator (I : Type) :=
| NoChild (it : EmptyIterator)
| OneChild (it : I)
| Children (m : Merging.MergingIterator I).
Arguments NoChild {I} it.
Arguments OneChild {I} it.
Arguments Children {I} m.

Definition NewMergingIterator {I} `{IterView I} (list : list I) : outcome (MergedIterator I) :=
  match list with
  | [] => Ret (NoChild NewEmptyIterator)
  | [it] => Ret (OneChild it)
  | _ => m ← Merging.new list; Ret (Children m)
  end.

#[export] Instance merged_view {I} `{IterView I} : IterView (MergedIterator I) := {|
  it_Valid it := match it with NoChild it => it_Valid it | OneChild it => it_Valid it | Children m => Merging.Valid m end;
  it_key it := match it with NoChild it => it_key it | OneChild it => it_key it | Children m => Merging.key m end;
  it_value it := match it with NoChild it => it_value it | OneChild it => it_value it | Children m => Merging.value m end;
  it_status it := match it with NoChild it => it_status it | OneChild it => it_status it | Children m => Merging.status m end;
|}.

Definition merged_moves {W I} `{IterView I} `{IterMoves W I} (compare : bytes -> bytes -> outcome Z) : IterMoves W (MergedIterator I) := fun op it s =>
  match it with
  | NoChild it => '(it, s) ← it_move op it s; Ret (NoChild it, s)
  | OneChild it => '(it, s) ← it_move op it s; Ret (OneChild it, s)
  | Children m => '(m, s) ← Merging.move compare op m s; Ret (Children m, s)
  end.

(** ** Positions of the children

    The union [es] of the entries of the children [ess], which have no key in common.
    When the merging iterator is at [p] and moves forward, a child is at the first of its
    entries that is not among the first [p] of all; when it moves backward, at the last
    that is among the first [S p]. *)

Section Positions.
Context {ok : bytes -> Prop} {ord : bytes -> bytes -> Z} `{!KeyOrder ok ord}.
Context (es : list entry) (ess : list (list entry)) (Hperm : es ≡ₚ concat ess) (Hasc : ascending ok ord es) (Hascs : Forall (ascending ok ord) ess).

Definition seen (p : nat) (ei : list entry) : nat := length (filter (fun e => e ∈ take p es) ei).
Definition back (p : nat) (ei : list entry) : nat := match seen p ei with O => length ei | S m => m end.

Lemma child_asc ei : ei ∈ ess -> ascending ok ord ei.
Proof. intros Hi. by apply (proj1 (Forall_forall _ _) Hascs). Qed.

Lemma child_in ei e : ei ∈ ess -> e ∈ ei -> exists j, es !! j = Some e.
Proof. intros Hi He. apply list_elem_of_lookup. rewrite Hperm. apply elem_of_concat. eauto. Qed.

Lemma elem_take p j e : es !! j = Some e -> e ∈ take p es <-> (j < p)%nat.
Proof.
  intros Hj. rewrite list_elem_of_lookup. split.
  - intros [i Hi]. apply lookup_take_Some in Hi as [Hi Hlt]. by rewrite (NoDup_lookup es j i e (ascending_nodup _ Hasc) Hj Hi).
  - intros Hlt. exists j. by rewrite lookup_take_lt.
Qed.

Lemma seen_at p ei i e : ei ∈ ess -> ei !! i = Some e -> e ∈ take p es <-> (i < seen p ei)%nat.
Proof.
  intros Hi He. unfold seen. apply (closed_below (ok := ok) (ord := ord) (fun e => e ∈ take p es)); [by apply child_asc| |done]. intros f g Hf Hg Hlt. destruct (child_in ei f Hi Hf) as [j Hj], (child_in ei g Hi Hg) as [k Hk].
  rewrite (elem_take p j f Hj), (elem_take p k g Hk). intros Hkp. destruct (Nat.lt_ge_cases j k) as [|Hge]; [lia|exfalso].
  pose proof (ord_anti f.1 g.1 (ascending_lookup_ok _ _ _ Hasc Hj) (ascending_lookup_ok _ _ _ Hasc Hk)) as Han.
  destruct (decide (k = j)) as [->|]; [simplify_eq; lia|]. pose proof (ascending_lt _ _ _ _ _ Hasc Hk Hj ltac:(lia)). lia.
Qed.

Lemma seen_le p ei : (seen p ei <= length ei)%nat.
Proof. apply length_filter. Qed.

(** The position is determined by which entries come before it. *)
Lemma seen_is p ei n : ei ∈ ess -> (n <= length ei)%nat -> (forall i e, ei !! i = Some e -> e ∈ take p es <-> (i < n)%nat) -> seen p ei = n.
Proof.
  intros Hi Hn Hd. pose proof (seen_le p ei). destruct (Nat.lt_trichotomy (seen p ei) n) as [Hlt|[|Hlt]]; [exfalso|done|exfalso].
  - destruct (lookup_lt_is_Some_2 ei (seen p ei)) as [e He]; [lia|]. pose proof (proj1 (seen_at p ei _ e Hi He) (proj2 (Hd _ e He) Hlt)). lia.
  - destruct (lookup_lt_is_Some_2 ei n) as [e He]; [lia|]. pose proof (proj1 (Hd _ e He) (proj2 (seen_at p ei _ e Hi He) Hlt)). lia.
Qed.

Lemma seen_rank k ei : ei ∈ ess -> ok k -> seen (rank ord k es) ei = rank ord k ei.
Proof.
  intros Hi Hk. apply seen_is; [done|apply rank_le|]. intros i e He. destruct (child_in ei e Hi) as [j Hj]; [by eapply list_elem_of_lookup_2|].
  rewrite (elem_take _ j e Hj), <- (rank_below k es j e Hasc Hk Hj). by apply rank_below; [apply child_asc|..].
Qed.

Lemma seen_0 ei : ei ∈ ess -> seen 0 ei = 0%nat.
Proof. intros Hi. apply seen_is; [done|lia|]. intros i e He. cbn. split; [by intros ?%not_elem_of_nil|lia]. Qed.

Lemma seen_all p ei : ei ∈ ess -> (length es <= p)%nat -> seen p ei = length ei.
Proof.
  intros Hi Hp. apply seen_is; [done|lia|]. intros i e He. destruct (child_in ei e Hi) as [j Hj]; [by eapply list_elem_of_lookup_2|].
  rewrite (elem_take _ j e Hj). apply lookup_lt_Some in Hj, He. lia.
Qed.

(** The child with entry [p] is at it, and moves over it. *)
Lemma seen_entry p e ei : ei ∈ ess -> es !! p = Some e -> e ∈ ei -> ei !! seen p ei = Some e /\ seen (S p) ei = S (seen p ei).
Proof.
  intros Hi Hp He. apply list_elem_of_lookup in He as [i He]. pose proof (child_asc ei Hi) as Ha.
  assert (seen p ei = i) as E. { rewrite <- (rank_lookup es p e Hasc Hp), seen_rank; [by apply rank_lookup|done|by eapply ascending_lookup_ok]. }
  rewrite E. split; [done|]. apply seen_is; [done|by apply lookup_lt_Some in He|]. intros j f Hf. destruct (child_in ei f Hi) as [k Hk]; [by eapply list_elem_of_lookup_2|].
  rewrite (elem_take _ k f Hk). pose proof (seen_at p ei j f Hi Hf) as Hs. rewrite (elem_take _ k f Hk), E in Hs.
  assert (k = p <-> j = i) as Heq; [|lia]. split; intros ->; simplify_eq; [by apply (NoDup_lookup ei _ _ e (ascending_nodup _ Ha))|by apply (NoDup_lookup es _ _ e (ascending_nodup _ Hasc))].
Qed.

(** The others stay where they are. *)
Lemma seen_other p e ei : ei ∈ ess -> es !! p = Some e -> e ∉ ei -> seen (S p) ei = seen p ei.
Proof.
  intros Hi Hp He. apply seen_is; [done|apply seen_le|]. intros j f Hf. destruct (child_in ei f Hi) as [k Hk]; [by eapply list_elem_of_lookup_2|].
  pose proof (seen_at p ei j f Hi Hf) as Hs. rewrite (elem_take p k f Hk) in Hs. rewrite (elem_take (S p) k f Hk). destruct (decide (k = p)) as [->|]; [|lia].
  simplify_eq. exfalso. apply He. by eapply list_elem_of_lookup_2.
Qed.

Lemma some_child p e : es !! p = Some e -> exists i ei, ess !! i = Some ei /\ e ∈ ei.
Proof.
  intros Hp. assert (e ∈ concat ess) as Hin by (rewrite <- Hperm; by eapply list_elem_of_lookup_2). apply elem_of_concat in Hin as (ei & Hi & He).
  apply list_elem_of_lookup in Hi as [i Hi]. eauto.
Qed.

Lemma nodup_concat (l : list (list entry)) i j ei ej e : NoDup (concat l) -> l !! i = Some ei -> l !! j = Some ej -> e ∈ ei -> e ∈ ej -> i = j.
Proof.
  revert i j. induction l as [|x l IH]; intros i j Hn Hi Hj He He'; [done|]. cbn in Hn. apply NoDup_app in Hn as (_ & Hd & Hn).
  destruct i as [|i], j as [|j]; cbn in Hi, Hj; simplify_eq; [done| | |f_equal; by apply (IH i j)].
  - exfalso. apply (Hd e He). apply elem_of_concat. exists ej. split; [|done]. by eapply list_elem_of_lookup_2.
  - exfalso. apply (Hd e He'). apply elem_of_concat. exists ei. split; [|done]. by eapply list_elem_of_lookup_2.
Qed.

(** An entry is in one child only. *)
Lemma one_child i j ei ej e : ess !! i = Some ei -> ess !! j = Some ej -> e ∈ ei -> e ∈ ej -> i = j.
Proof. apply nodup_concat. rewrite <- Hperm. by apply ascending_nodup in Hasc. Qed.
End Positions.

(** ** The merging iterator is an iterator over the union *)

Section Merge.
Context {W I : Type} `{IterView I} `{IterMoves W I} {ok : bytes -> Prop} {ord : bytes -> bytes -> Z} `{!KeyOrder ok ord} {good : W -> Prop}.
Context {at_ : list entry -> nat -> I -> Prop} `{!IteratorLaws ok ord good at_} (compare : bytes -> bytes -> outcome Z).
Hypothesis compare_ord : forall a b, ok a -> ok b -> compare a b = Ret (ord a b).

Section Loops.
Context (l : list (list entry)).

(** What holds of every child. *)
Definition aligned (P : nat -> list entry -> Wrapper.Wrapper I -> Prop) (ws : list (Wrapper.Wrapper I)) : Prop :=
  length ws = length l /\ forall j ei w, l !! j = Some ei -> ws !! j = Some w -> P j ei w.
End Loops.

Lemma aligned_cons ei l P w ws : aligned (ei :: l) P (w :: ws) <-> P 0%nat ei w /\ aligned l (fun j => P (S j)) ws.
Proof.
  unfold aligned. cbn [length]. split.
  - intros [Hl Ha]. split; [by apply (Ha 0%nat)|]. split; [lia|]. intros j. apply (Ha (S j)).
  - intros [Hp [Hl Ha]]. split; [lia|]. intros [|j] ei' w' Hi Hw; [by cbn in Hi, Hw; simplify_eq|]. by apply Ha.
Qed.

Lemma each_spec f l (P Q : nat -> list entry -> Wrapper.Wrapper I -> Prop) ws s i0 : aligned l P ws -> good s ->
  (forall j ei w s, l !! j = Some ei -> P j ei w -> good s -> exists w' s', f (i0 + j)%nat w s = Ret (w', s') /\ Q j ei w' /\ good s') ->
  exists ws' s', Merging.each f i0 ws s = Ret (ws', s') /\ aligned l Q ws' /\ good s'.
Proof.
  revert P Q ws s i0. induction l as [|ei l IH]; intros P Q [|w ws] s i0 Ha Hs Hf; try by destruct Ha.
  - exists [], s. by split_and!.
  - apply aligned_cons in Ha as [Hp Ha]. cbn [Merging.each]. destruct (Hf 0%nat ei w s eq_refl Hp Hs) as (w' & s' & E & Hq & Hs'). rewrite Nat.add_0_r in E. rewrite E. run.
    destruct (IH (fun j => P (S j)) (fun j => Q (S j)) ws s' (S i0) Ha Hs') as (ws' & s2 & -> & Ha' & Hs2).
    { intros j ej v t Hj Hp' Ht. destruct (Hf (S j) ej v t Hj Hp' Ht) as (w2 & t2 & E2 & Hq2). rewrite Nat.add_succ_r in E2. eauto. }
    run. exists (w' :: ws'), s2. split_and!; [done| |done]. apply aligned_cons. done.
Qed.

(** The choice among the children that are valid: no candidate is better than the
    result, where [le a b] says that [b] is not better than [a]. *)
Lemma pick_spec (better : Z -> bool) (le : bytes -> bytes -> Prop) (q : list entry -> nat) ess ls best :
  (forall a b, ok a -> ok b -> better (ord a b) = true -> le a b) -> (forall a b, ok a -> ok b -> better (ord a b) = false -> le b a) ->
  (forall a, ok a -> le a a) -> (forall a b c, ok a -> ok b -> ok c -> le a b -> le b c -> le a c) -> Forall (ascending ok ord) ess ->
  (forall i w, (i, w) ∈ ls -> exists ei, ess !! i = Some ei /\ wrap_at at_ ei (q ei) w) ->
  (forall i w, best = Some (i, w) -> exists ei e, ess !! i = Some ei /\ wrap_at at_ ei (q ei) w /\ ei !! q ei = Some e) ->
  exists r, Merging.pick compare better ls best = Ret r /\
    match r with
    | None => best = None /\ forall i w ei, (i, w) ∈ ls -> ess !! i = Some ei -> ei !! q ei = None
    | Some (i, w) => exists ei e, ess !! i = Some ei /\ ei !! q ei = Some e /\
        (forall j v ej f, (j, v) ∈ ls \/ best = Some (j, v) -> ess !! j = Some ej -> ej !! q ej = Some f -> le e.1 f.1)
    end.
Proof.
  intros Hb1 Hb2 Hrefl Htrans Hascs. revert best. induction ls as [|[i w] ls IH]; intros best Hls Hbest; cbn [Merging.pick].
  - exists best. split; [done|]. destruct best as [[i w]|]; [|split; [done|by intros i w ei ?%not_elem_of_nil]].
    destruct (Hbest i w eq_refl) as (ei & e & Hi & Hw & He). exists ei, e. split_and!; [done|done|]. intros j v ej f [Hj%not_elem_of_nil|[= <- <-]] Hej Hf; [done|].
    simplify_eq. apply Hrefl. eapply ascending_lookup_ok; [|done]. apply (proj1 (Forall_forall _ _) Hascs). by eapply list_elem_of_lookup_2.
  - assert (forall j ej f, ess !! j = Some ej -> ej !! q ej = Some f -> ok f.1) as Hok.
    { intros j ej f Hj Hf. eapply ascending_lookup_ok; [|done]. apply (proj1 (Forall_forall _ _) Hascs). by eapply list_elem_of_lookup_2. }
    destruct (Hls i w) as (ei & Hi & Hw); [by left|].
    assert (forall j v, (j, v) ∈ ls -> exists ej, ess !! j = Some ej /\ wrap_at at_ ej (q ej) v) as Hls' by (intros j v Hj; apply Hls; by right).
    assert (forall e, ei !! q ei = Some e -> Wrapper.key w = Ret e.1) as Hkey by (intros e He; by destruct (wrap_value _ _ _ e Hw He)).
    unfold Wrapper.Valid. rewrite (wrap_valid _ _ _ Hw). destruct (Nat.ltb_spec (q ei) (length ei)) as [Hlt|Hge].
    2:{ run. destruct (IH best Hls' Hbest) as (r & -> & Hr). exists r. split; [done|]. apply lookup_ge_None in Hge. destruct r as [[k x]|].
        - destruct Hr as (ek & e & Hk & He & Hmin). exists ek, e. split_and!; [done|done|]. intros j v ej f [[[= -> ->]|Hj]%elem_of_cons|Hj] Hej Hf; [by simplify_eq|eauto|eauto].
        - destruct Hr as [-> Hr]. split; [done|]. intros j v ej [[= -> ->]|Hj]%elem_of_cons Hej; [by simplify_eq|eauto]. }
    destruct (lookup_lt_is_Some_2 _ _ Hlt) as [e He]. destruct best as [[k x]|].
    + destruct (Hbest k x eq_refl) as (ek & g & Hk & Hx & Hg). rewrite (Hkey e He). run. destruct (wrap_value _ _ _ g Hx Hg) as [_ ->]. run.
      rewrite compare_ord by eauto. run. destruct (better (ord e.1 g.1)) eqn:Eb.
      * destruct (IH (Some (i, w)) Hls') as (r & -> & Hr); [intros ? ? [= <- <-]; eauto|]. exists r. split; [done|]. destruct r as [[m y]|]; [|by destruct Hr].
        destruct Hr as (em & h & Hm & Hh & Hmin). exists em, h. split_and!; [done|done|].
        intros j v ej f [[[= -> ->]|Hj]%elem_of_cons|[= <- <-]] Hej Hf; [apply (Hmin i w ej f); auto|eauto|]. simplify_eq.
        apply (Htrans _ e.1); [eauto..| |by apply Hb1; eauto]. apply (Hmin i w ei e); auto.
      * destruct (IH (Some (k, x)) Hls' Hbest) as (r & -> & Hr). exists r. split; [done|]. destruct r as [[m y]|]; [|by destruct Hr].
        destruct Hr as (em & h & Hm & Hh & Hmin). exists em, h. split_and!; [done|done|].
        intros j v ej f [[[= -> ->]|Hj]%elem_of_cons|[= <- <-]] Hej Hf; [|eauto|apply (Hmin k x ej f); auto]. simplify_eq.
        apply (Htrans _ g.1); [eauto..| |by apply Hb2; eauto]. apply (Hmin k x ek g); auto.
    + run. destruct (IH (Some (i, w)) Hls') as (r & -> & Hr); [intros ? ? [= <- <-]; eauto|]. exists r. split; [done|]. destruct r as [[m y]|]; [|by destruct Hr].
      destruct Hr as (em & h & Hm & Hh & Hmin). exists em, h. split_and!; [done|done|].
      intros j v ej f [[[= -> ->]|Hj]%elem_of_cons|Hj] Hej Hf; [apply (Hmin i w ej f); auto|eauto|done].
Qed.

Section Union.
Context (es : list entry) (ess : list (list entry)) (Hperm : es ≡ₚ concat ess) (Hasc : ascending ok ord es) (Hascs : Forall (ascending ok ord) ess).

Abbreviation seen := (seen es).
Abbreviation back := (back es).

Definition children_at (q : list entry -> nat) (ws : list (Wrapper.Wrapper I)) : Prop := aligned ess (fun _ ei w => wrap_at at_ ei (q ei) w) ws.

(** The iterator is at position [p] of the union. *)
Definition merge_at (p : nat) (m : Merging.MergingIterator I) : Prop :=
  (exists q, children_at q (Merging.children_ m)) /\
  match es !! p with
  | None => p = length es /\ Merging.current_ m = None
  | Some e =>
      children_at (match Merging.direction_ m with kForward => seen p | kReverse => back (S p) end) (Merging.children_ m) /\
      exists i ei, Merging.current_ m = Some i /\ ess !! i = Some ei /\ e ∈ ei
  end.

Lemma in_ess i ei : ess !! i = Some ei -> ei ∈ ess.
Proof. apply list_elem_of_lookup_2. Qed.

Lemma children_pick q ws i w : children_at q ws -> (i, w) ∈ imap pair ws -> exists ei, ess !! i = Some ei /\ wrap_at at_ ei (q ei) w.
Proof.
  intros [Hl Ha] Hin. apply elem_of_lookup_imap_1 in Hin as (j & v & [= -> ->] & Hj). destruct (lookup_lt_is_Some_2 ess j) as [ei Hi]; [apply lookup_lt_Some in Hj; lia|].
  exists ei. split; [done|]. by apply (Ha j).
Qed.

Lemma children_picked q ws i ei : children_at q ws -> ess !! i = Some ei -> exists w, (i, w) ∈ imap pair ws.
Proof.
  intros [Hl _] Hi. destruct (lookup_lt_is_Some_2 ws i) as [w Hw]; [apply lookup_lt_Some in Hi; lia|]. exists w. by apply (elem_of_lookup_imap_2 pair).
Qed.

(** A choice among the children that an entry wins. *)
Lemma pick_entry (better : Z -> bool) (le : bytes -> bytes -> Prop) q ls ws :
  (forall a b, ok a -> ok b -> better (ord a b) = true -> le a b) -> (forall a b, ok a -> ok b -> better (ord a b) = false -> le b a) ->
  (forall a, ok a -> le a a) -> (forall a b c, ok a -> ok b -> ok c -> le a b -> le b c -> le a c) ->
  (forall x, x ∈ ls <-> x ∈ imap pair ws) -> children_at q ws ->
  exists r, Merging.pick compare better ls None = Ret r /\
    match r with
    | None => forall ei, ei ∈ ess -> ei !! q ei = None
    | Some (i, w) => exists ei e, ess !! i = Some ei /\ ei !! q ei = Some e /\ forall ej f, ej ∈ ess -> ej !! q ej = Some f -> le e.1 f.1
    end.
Proof.
  intros H1 H2 H3 H4 Hls Hws. destruct (pick_spec better le q ess ls None H1 H2 H3 H4 Hascs) as (r & -> & Hr); [|done|].
  { intros i w Hin%Hls. by eapply children_pick. }
  exists r. split; [done|]. destruct r as [[i w]|].
  - destruct Hr as (ei & e & Hi & He & Hmin). exists ei, e. split_and!; [done|done|]. intros ej f [j Hj]%list_elem_of_lookup Hf.
    destruct (children_picked q ws j ej Hws Hj) as [v Hv]. apply (Hmin j v ej f); [left; by apply Hls|done|done].
  - destruct Hr as [_ Hr]. intros ei [i Hi]%list_elem_of_lookup. destruct (children_picked q ws i ei Hws Hi) as [w Hw]. apply (Hr i w ei); [by apply Hls|done].
Qed.

Lemma key_le_trans a b c : ok a -> ok b -> ok c -> ord a b <= 0 -> ord b c <= 0 -> ord a c <= 0.
Proof. apply ord_le_trans. Qed.

Lemma find_smallest p m : children_at (seen p) (Merging.children_ m) -> (p <= length es)%nat ->
  exists m', Merging.FindSmallest compare m = Ret m' /\ merge_at p (Merging.set_direction m' kForward).
Proof.
  intros Hws Hp. unfold Merging.FindSmallest.
  destruct (pick_entry (fun r => r <? 0) (fun a b => ord a b <= 0) (seen p) (imap pair (Merging.children_ m)) (Merging.children_ m)) as (r & -> & Hr); [..|done|done|].
  { intros a b _ _ E%Z.ltb_lt. lia. }
  { intros a b Ha Hb E%Z.ltb_ge. pose proof (ord_anti a b Ha Hb). lia. }
  { intros a Ha. rewrite key_refl by done. lia. }
  { apply key_le_trans. }
  run. eexists. split; [reflexivity|]. split; [by exists (seen p)|]. cbn. destruct (es !! p) as [e|] eqn:He.
  - split; [done|]. destruct (some_child es ess Hperm p e He) as (i & ei & Hi & Hin). destruct (seen_entry es ess Hperm Hasc Hascs p e ei (in_ess _ _ Hi) He Hin) as [Hat _].
    destruct r as [[j w]|]; [|rewrite (Hr ei (in_ess _ _ Hi)) in Hat; done]. destruct Hr as (ej & f & Hj & Hf & Hmin). exists j, ej. split_and!; [done|done|].
    pose proof (Hmin ei e (in_ess _ _ Hi) Hat) as Hle. destruct (child_in es ess Hperm ej f (in_ess _ _ Hj)) as [k Hk]; [by eapply list_elem_of_lookup_2|].
    assert (~ (k < p)%nat) as Hge.
    { rewrite <- (elem_take es Hasc p k f Hk), (seen_at es ess Hperm Hasc Hascs p ej _ f (in_ess _ _ Hj) Hf). lia. }
    destruct (decide (p = k)) as [<-|]; [simplify_eq; by eapply list_elem_of_lookup_2|]. pose proof (ascending_lt _ _ _ _ _ Hasc He Hk ltac:(lia)).
    pose proof (ord_anti f.1 e.1 (ascending_lookup_ok _ _ _ Hasc Hk) (ascending_lookup_ok _ _ _ Hasc He)). lia.
  - apply lookup_ge_None in He. split; [lia|]. destruct r as [[j w]|]; [|done]. destruct Hr as (ej & f & Hj & Hf & _).
    rewrite (seen_all es ess Hperm Hasc Hascs p ej (in_ess _ _ Hj) He), lookup_ge_None_2 in Hf by lia. done.
Qed.

(** The candidates of a backward move are among the first [n] entries. *)
Lemma back_entry n ej f : ej ∈ ess -> ej !! back n ej = Some f -> f ∈ take n es.
Proof.
  intros Hj Hf. unfold Merger.back in Hf. destruct (seen n ej) as [|m] eqn:E; [by rewrite lookup_ge_None_2 in Hf by lia|].
  apply (seen_at es ess Hperm Hasc Hascs n ej m f Hj Hf). lia.
Qed.

Lemma find_largest n m : children_at (back n) (Merging.children_ m) -> (n <= length es)%nat ->
  exists m', Merging.FindLargest compare m = Ret m' /\ merge_at (match n with O => length es | S p => p end) (Merging.set_direction m' kReverse).
Proof.
  intros Hws Hn. unfold Merging.FindLargest.
  destruct (pick_entry (fun r => 0 <? r) (fun a b => ord b a <= 0) (back n) (reverse (imap pair (Merging.children_ m))) (Merging.children_ m)) as (r & -> & Hr); [.. |done|].
  { intros a b Ha Hb E%Z.ltb_lt. pose proof (ord_anti a b Ha Hb). lia. }
  { intros a b _ _ E%Z.ltb_ge. lia. }
  { intros a Ha. rewrite key_refl by done. lia. }
  { intros a b c Ha Hb Hc H1 H2. by apply (key_le_trans c b a). }
  { intros x. by rewrite elem_of_reverse. }
  run. eexists. split; [reflexivity|]. split; [by exists (back n)|]. cbn. destruct n as [|p].
  - rewrite lookup_ge_None_2 by lia. split; [done|]. destruct r as [[j w]|]; [|done]. destruct Hr as (ej & f & Hj & Hf & _).
    apply (back_entry 0 ej f (in_ess _ _ Hj)) in Hf. by apply not_elem_of_nil in Hf.
  - destruct (lookup_lt_is_Some_2 es p) as [e He]; [lia|]. rewrite He. split; [done|]. destruct (some_child es ess Hperm p e He) as (i & ei & Hi & Hin).
    destruct (seen_entry es ess Hperm Hasc Hascs p e ei (in_ess _ _ Hi) He Hin) as [Hat ES].
    assert (ei !! back (S p) ei = Some e) as Hb by (unfold Merger.back; by rewrite ES).
    destruct r as [[j w]|]; [|rewrite (Hr ei (in_ess _ _ Hi)) in Hb; done]. destruct Hr as (ej & f & Hj & Hf & Hmax). exists j, ej. split_and!; [done|done|].
    pose proof (Hmax ei e (in_ess _ _ Hi) Hb) as Hle. pose proof (back_entry _ ej f (in_ess _ _ Hj) Hf) as Hft.
    destruct (child_in es ess Hperm ej f (in_ess _ _ Hj)) as [k Hk]; [by eapply list_elem_of_lookup_2|]. apply (elem_take es Hasc (S p) k f Hk) in Hft.
    destruct (decide (p = k)) as [<-|]; [simplify_eq; by eapply list_elem_of_lookup_2|]. pose proof (ascending_lt _ _ _ _ _ Hasc Hk He ltac:(lia)).
    pose proof (ord_anti f.1 e.1 (ascending_lookup_ok _ _ _ Hasc Hk) (ascending_lookup_ok _ _ _ Hasc He)). lia.
Qed.

(** A call on all children. *)
Lemma each_move op q q' ws s : children_at q ws -> good s -> seeks_ok ok op -> (forall ei q0, ei ∈ ess -> cursor_op ord ei op q0 = Ret (q' ei)) ->
  exists ws' s', Merging.each (fun _ => Wrapper.move op) 0 ws s = Ret (ws', s') /\ children_at q' ws' /\ good s'.
Proof.
  intros Hws Hs Hop Hq. eapply each_spec; [exact Hws|done|]. intros j ei w t Hj Hw Ht. by apply (wrap_op ei (q ei) (q' ei) w t op Hw Ht Hop), Hq, (in_ess j).
Qed.

Lemma at_current p e m : merge_at p m -> es !! p = Some e ->
  exists i ei w, Merging.current_ m = Some i /\ ess !! i = Some ei /\ e ∈ ei /\ Merging.current m = Ret (i, w) /\ Merging.children_ m !! i = Some w /\ wrap_at at_ ei (seen p ei) w.
Proof.
  intros [_ Hm] He. rewrite He in Hm. destruct Hm as ([Hl Hws] & i & ei & Hc & Hi & Hin). destruct (lookup_lt_is_Some_2 (Merging.children_ m) i) as [w Hw].
  { apply lookup_lt_Some in Hi. lia. }
  exists i, ei, w. unfold Merging.current. rewrite Hc, Hw. split_and!; try done. pose proof (Hws i ei w Hi Hw) as Hat.
  destruct (Merging.direction_ m); [done|]. destruct (seen_entry es ess Hperm Hasc Hascs p e ei (in_ess _ _ Hi) He Hin) as [_ ES]. unfold Merger.back in Hat. by rewrite ES in Hat.
Qed.

Lemma merge_entry p e m : merge_at p m -> es !! p = Some e -> Merging.key m = Ret e.1 /\ Merging.value m = Ret e.2.
Proof.
  intros Hm He. destruct (at_current p e m Hm He) as (i & ei & w & Hc & Hi & Hin & E & _ & Hw). unfold Merging.key, Merging.value, Merging.Valid. rewrite Hc, E, bool_decide_eq_true_2 by done. run.
  destruct (seen_entry es ess Hperm Hasc Hascs p e ei (in_ess _ _ Hi) He Hin) as [Hat _]. by destruct (wrap_value _ _ _ e Hw Hat) as [-> ->].
Qed.

Lemma merge_valid p m : merge_at p m -> Merging.Valid m = (p <? length es)%nat.
Proof.
  intros [_ Hm]. unfold Merging.Valid. destruct (es !! p) as [e|] eqn:He.
  - destruct Hm as (_ & i & ei & -> & _). rewrite bool_decide_eq_true_2 by done. symmetry. apply Nat.ltb_lt. by eapply lookup_lt_Some.
  - destruct Hm as [-> ->]. by rewrite Nat.ltb_irrefl.
Qed.

Lemma merge_status p m : merge_at p m -> Merging.status m = Ret OK.
Proof.
  intros [(q & Hl & Hws) _]. unfold Merging.status. assert (Forall (fun w => Wrapper.status w = Ret OK) (Merging.children_ m)) as Hall.
  { apply Forall_lookup. intros i w Hw. destruct (lookup_lt_is_Some_2 ess i) as [ei Hi]; [apply lookup_lt_Some in Hw; lia|]. by eapply wrap_status, Hws. }
  clear - Hall. induction Hall as [|w ws Hw _ IH]; [done|]. cbn [Merging.status_from]. by rewrite Hw.
Qed.

(** The calls that place all children anew. *)
Lemma merge_seeks op p m s : merge_at p m -> good s -> seeks_ok ok op -> (match op with OpNext | OpPrev => False | _ => True end) ->
  exists p' m' s', cursor_op ord es op p = Ret p' /\ Merging.move compare op m s = Ret (m', s') /\ merge_at p' m' /\ good s'.
Proof.
  intros [[q Hws] _] Hs Hop Hk. destruct op as [| |k| |]; [..|done|done]; cbn [Merging.move cursor_op]; unfold Merging.SeekToFirst, Merging.SeekToLast, Merging.Seek, Wrapper.SeekToFirst, Wrapper.SeekToLast, Wrapper.Seek.
  - destruct (each_move OpFirst q (seen 0) _ s Hws Hs Logic.I) as (ws & s' & -> & Hws' & Hs'); [intros ei q0 Hi; by rewrite (seen_0 es ess Hperm Hasc Hascs ei Hi)|]. run.
    destruct (find_smallest 0 (Merging.set_all m ws) Hws' ltac:(lia)) as (m' & -> & Hm'). run. eauto 10.
  - destruct (each_move OpLast q (back (length es)) _ s Hws Hs Logic.I) as (ws & s' & -> & Hws' & Hs').
    { intros ei q0 Hi. unfold Merger.back. rewrite (seen_all es ess Hperm Hasc Hascs _ ei Hi) by lia. cbn. by destruct (length ei). }
    run. destruct (find_largest (length es) (Merging.set_all m ws) Hws' ltac:(lia)) as (m' & -> & Hm'). run. eexists _, _, s'. split_and!; [done|done| |done].
    by destruct (length es).
  - destruct (each_move (OpSeek k) q (seen (rank ord k es)) _ s Hws Hs Hop) as (ws & s' & -> & Hws' & Hs').
    { intros ei q0 Hi. cbn. by rewrite (seen_rank es ess Hperm Hasc Hascs k ei Hi Hop). }
    run. destruct (find_smallest (rank ord k es) (Merging.set_all m ws) Hws' (rank_le ord k es)) as (m' & -> & Hm'). run. eauto 10.
Qed.

(** The other children have no entry with the current key. *)
Lemma other_child p e i ei j ej : es !! p = Some e -> ess !! i = Some ei -> e ∈ ei -> ess !! j = Some ej -> i <> j -> e ∉ ej.
Proof. intros _ Hi He Hj Hne He'. apply Hne. by apply (one_child es ess Hperm Hasc i j ei ej e). Qed.

Lemma seek_current p e ej w s : es !! p = Some e -> ej ∈ ess -> good s -> (exists q, wrap_at at_ ej q w) ->
  exists w' s', Wrapper.Seek e.1 w s = Ret (w', s') /\ wrap_at at_ ej (seen p ej) w' /\ good s'.
Proof.
  intros He Hj Hs [q Hw]. pose proof (ascending_lookup_ok _ _ _ Hasc He) as Hok. unfold Wrapper.Seek.
  apply (wrap_op ej q (seen p ej) w s (OpSeek e.1) Hw Hs Hok). cbn. by rewrite <- (seen_rank es ess Hperm Hasc Hascs e.1 ej Hj Hok), (rank_lookup es p e Hasc He).
Qed.

Lemma turn_forward_child p e ej w s : es !! p = Some e -> ej ∈ ess -> e ∉ ej -> good s -> (exists q, wrap_at at_ ej q w) ->
  exists w' s', Merging.turn_forward compare e.1 w s = Ret (w', s') /\ wrap_at at_ ej (seen p ej) w' /\ good s'.
Proof.
  intros He Hj Hne Hs Hw. destruct (seek_current p e ej w s He Hj Hs Hw) as (w' & s' & E & Hw' & Hs'). unfold Merging.turn_forward. rewrite E. run.
  unfold Wrapper.Valid. rewrite (wrap_valid _ _ _ Hw'). destruct (Nat.ltb_spec (seen p ej) (length ej)) as [Hlt|]; [|eauto].
  destruct (lookup_lt_is_Some_2 _ _ Hlt) as [f Hf]. destruct (wrap_value _ _ _ f Hw' Hf) as [_ ->]. run.
  destruct (child_in es ess Hperm ej f Hj) as [k Hk]; [by eapply list_elem_of_lookup_2|].
  rewrite compare_ord by (by eapply ascending_lookup_ok). run. destruct (Z.eqb_spec (ord e.1 f.1) 0) as [E0|]; [|eauto].
  pose proof (ascending_eq es p k e f Hasc He Hk E0) as ->. simplify_eq. exfalso. apply Hne. by eapply list_elem_of_lookup_2.
Qed.

Lemma turn_backward_child p e ej w s : es !! p = Some e -> ej ∈ ess -> e ∉ ej -> good s -> (exists q, wrap_at at_ ej q w) ->
  exists w' s', Merging.turn_backward e.1 w s = Ret (w', s') /\ wrap_at at_ ej (back (S p) ej) w' /\ good s'.
Proof.
  intros He Hj Hne Hs Hw. destruct (seek_current p e ej w s He Hj Hs Hw) as (w' & s' & E & Hw' & Hs'). unfold Merging.turn_backward. rewrite E. run.
  unfold Wrapper.Valid. rewrite (wrap_valid _ _ _ Hw'). unfold Merger.back. rewrite (seen_other es ess Hperm Hasc Hascs p e ej Hj He Hne).
  destruct (Nat.ltb_spec (seen p ej) (length ej)) as [Hlt|Hge].
  - apply (wrap_op ej (seen p ej) _ w' s' OpPrev Hw' Hs' Logic.I). unfold cursor_op. by rewrite (proj2 (Nat.ltb_lt _ _)) by done.
  - pose proof (seen_le es p ej). assert (seen p ej = length ej) as E0 by lia. apply (wrap_op ej (seen p ej) _ w' s' OpLast Hw' Hs' Logic.I). cbn. rewrite E0. by destruct (length ej).
Qed.

(** The change of direction: all other children are placed by [tc]. *)
Lemma turn_spec p e m s d q tc : merge_at p m -> es !! p = Some e -> good s ->
  (forall ei, ei ∈ ess -> e ∈ ei -> q ei = seen p ei) ->
  (forall ej w s, ej ∈ ess -> e ∉ ej -> good s -> (exists q, wrap_at at_ ej q w) -> exists w' s', tc e.1 w s = Ret (w', s') /\ wrap_at at_ ej (q ej) w' /\ good s') ->
  exists m' s', Merging.turn tc d m s = Ret (m', s') /\ children_at q (Merging.children_ m') /\ Merging.current_ m' = Merging.current_ m /\ Merging.direction_ m' = d /\ good s'.
Proof.
  intros Hm He Hs Hq Htc. destruct (at_current p e m Hm He) as (i & ei & w & Hc & Hi & Hin & _ & Hwi & Hw). destruct (merge_entry p e m Hm He) as [Ek _].
  unfold Merging.turn. destruct Hm as [[q0 Hws] _].
  destruct (each_spec (fun j child s => if bool_decide (Merging.current_ m = Some j) then Ret (child, s) else k ← Merging.key m; tc k child s) ess
    (fun j ej v => wrap_at at_ ej (q0 ej) v /\ (j = i -> v = w)) (fun _ ej v => wrap_at at_ ej (q ej) v) (Merging.children_ m) s 0) as (ws & s' & -> & Hws' & Hs'); [|done| |].
  - destruct Hws as [Hl Hws]. split; [done|]. intros j ej v Hj Hv. split; [by apply (Hws j)|]. intros ->. congruence.
  - intros j ej v t Hj [Hv Hvi] Ht. cbn [Nat.add]. rewrite Hc. destruct (decide (j = i)) as [->|Hne].
    + rewrite bool_decide_eq_true_2 by done. assert (ej = ei) as -> by congruence. exists v, t. split_and!; [done| |done]. by rewrite (Hvi eq_refl), (Hq ei (in_ess _ _ Hi) Hin).
    + rewrite bool_decide_eq_false_2 by congruence. rewrite Ek. run. apply Htc; [by eapply in_ess|by eapply (other_child p e i ei j)|done|eauto].
  - run. eexists _, s'. split; [reflexivity|]. by split_and!.
Qed.

Lemma move_current_spec p e m s op q q' i ei : es !! p = Some e -> children_at q (Merging.children_ m) -> good s -> seeks_ok ok op ->
  Merging.current_ m = Some i -> ess !! i = Some ei -> e ∈ ei -> cursor_op ord ei op (q ei) = Ret (q' ei) -> (forall ej, ej ∈ ess -> e ∉ ej -> q ej = q' ej) ->
  exists m' s', Merging.move_current op m s = Ret (m', s') /\ children_at q' (Merging.children_ m') /\ Merging.direction_ m' = Merging.direction_ m /\ good s'.
Proof.
  intros He [Hl Hws] Hs Hop Hc Hi Hin Hq Hq'. unfold Merging.move_current, Merging.current. rewrite Hc.
  destruct (lookup_lt_is_Some_2 (Merging.children_ m) i) as [w Hw]; [apply lookup_lt_Some in Hi; lia|]. rewrite Hw. run.
  destruct (wrap_op ei (q ei) (q' ei) w s op (Hws i ei w Hi Hw) Hs Hop Hq) as (w' & s' & -> & Hw' & Hs'). run. eexists _, s'. split; [reflexivity|]. split_and!; [|done|done].
  cbn. split; [by rewrite length_insert|]. intros j ej v Hj Hv. destruct (decide (i = j)) as [<-|Hne].
  - rewrite list_lookup_insert_eq in Hv by (by eapply lookup_lt_Some). by simplify_eq.
  - rewrite list_lookup_insert_ne in Hv by done. rewrite <- (Hq' ej (in_ess _ _ Hj)) by (by eapply (other_child p e i ei j)). by apply (Hws j).
Qed.

Lemma merge_next p m s : merge_at p m -> (p < length es)%nat -> good s ->
  exists m' s', Merging.Next compare m s = Ret (m', s') /\ merge_at (S p) m' /\ good s'.
Proof.
  intros Hm Hp Hs. unfold Merging.Next. rewrite (merge_valid p m Hm), (proj2 (Nat.ltb_lt _ _)) by done. destruct (lookup_lt_is_Some_2 _ _ Hp) as [e He].
  destruct (at_current p e m Hm He) as (i & ei & w & Hc & Hi & Hin & _).
  assert (exists m1 s1, (if bool_decide (Merging.direction_ m = kForward) then Ret (m, s) else Merging.turn (Merging.turn_forward compare) kForward m s) = Ret (m1, s1) /\
    children_at (seen p) (Merging.children_ m1) /\ Merging.current_ m1 = Some i /\ Merging.direction_ m1 = kForward /\ good s1) as (m1 & s1 & -> & Hws & Hc1 & Hd1 & Hs1).
  { case_bool_decide as Ed.
    - exists m, s. destruct Hm as [_ Hm]. rewrite He, Ed in Hm. by destruct Hm.
    - destruct (turn_spec p e m s kForward (seen p) (Merging.turn_forward compare) Hm He Hs) as (m1 & s1 & -> & H1 & H2 & H3 & H4); [done|by intros; by apply turn_forward_child|].
      exists m1, s1. split_and!; try done. congruence. }
  run. destruct (seen_entry es ess Hperm Hasc Hascs p e ei (in_ess _ _ Hi) He Hin) as [Hat ES].
  destruct (move_current_spec p e m1 s1 OpNext (seen p) (seen (S p)) i ei He Hws Hs1 Logic.I Hc1 Hi Hin) as (m2 & s2 & -> & Hws2 & Hd2 & Hs2).
  { unfold cursor_op. rewrite (proj2 (Nat.ltb_lt _ _)) by (by eapply lookup_lt_Some). by rewrite ES. }
  { intros ej Hj Hne. symmetry. by apply (seen_other es ess Hperm Hasc Hascs p e). }
  run. destruct (find_smallest (S p) m2 Hws2 ltac:(lia)) as (m3 & E3 & Hm3). rewrite E3. run. exists m3, s2. split_and!; [done| |done].
  assert (Merging.direction_ m3 = kForward) as Hd3.
  { unfold Merging.FindSmallest in E3. destruct (Merging.pick _ _ _ _); [|done|done]. injection E3 as <-. cbn. congruence. }
  destruct m3 as [c3 u3 d3]. cbn in Hd3. by subst d3.
Qed.

Lemma merge_prev p m s : merge_at p m -> (p < length es)%nat -> good s ->
  exists m' s', Merging.Prev compare m s = Ret (m', s') /\ merge_at (match p with O => length es | S n => n end) m' /\ good s'.
Proof.
  intros Hm Hp Hs. unfold Merging.Prev. rewrite (merge_valid p m Hm), (proj2 (Nat.ltb_lt _ _)) by done. destruct (lookup_lt_is_Some_2 _ _ Hp) as [e He].
  destruct (at_current p e m Hm He) as (i & ei & w & Hc & Hi & Hin & _).
  assert (forall ej, ej ∈ ess -> e ∈ ej -> back (S p) ej = seen p ej) as Hback.
  { intros ej Hj He'. destruct (seen_entry es ess Hperm Hasc Hascs p e ej Hj He He') as [_ ES]. unfold Merger.back. by rewrite ES. }
  assert (exists m1 s1, (if bool_decide (Merging.direction_ m = kReverse) then Ret (m, s) else Merging.turn Merging.turn_backward kReverse m s) = Ret (m1, s1) /\
    children_at (back (S p)) (Merging.children_ m1) /\ Merging.current_ m1 = Some i /\ Merging.direction_ m1 = kReverse /\ good s1) as (m1 & s1 & -> & Hws & Hc1 & Hd1 & Hs1).
  { case_bool_decide as Ed.
    - exists m, s. destruct Hm as [_ Hm]. rewrite He, Ed in Hm. by destruct Hm.
    - destruct (turn_spec p e m s kReverse (back (S p)) Merging.turn_backward Hm He Hs) as (m1 & s1 & -> & H1 & H2 & H3 & H4); [done|by intros; by apply turn_backward_child|].
      exists m1, s1. split_and!; try done. congruence. }
  run. destruct (seen_entry es ess Hperm Hasc Hascs p e ei (in_ess _ _ Hi) He Hin) as [Hat ES].
  destruct (move_current_spec p e m1 s1 OpPrev (back (S p)) (back p) i ei He Hws Hs1 Logic.I Hc1 Hi Hin) as (m2 & s2 & -> & Hws2 & Hd2 & Hs2).
  { rewrite (Hback ei (in_ess _ _ Hi) Hin). unfold cursor_op. rewrite (proj2 (Nat.ltb_lt _ _)) by (by eapply lookup_lt_Some). done. }
  { intros ej Hj Hne. unfold Merger.back. by rewrite (seen_other es ess Hperm Hasc Hascs p e ej Hj He Hne). }
  run. destruct (find_largest p m2 Hws2 ltac:(lia)) as (m3 & E3 & Hm3). rewrite E3. run. exists m3, s2. split_and!; [done| |done].
  assert (Merging.direction_ m3 = kReverse) as Hd3.
  { unfold Merging.FindLargest in E3. destruct (Merging.pick _ _ _ _); [|done|done]. injection E3 as <-. cbn. congruence. }
  destruct m3 as [c3 u3 d3]. cbn in Hd3. by subst d3.
Qed.

(** One call, from a position that the iterator is at. *)
Lemma merge_op p m s op : merge_at p m -> good s -> seeks_ok ok op ->
  (exists p' m' s', cursor_op ord es op p = Ret p' /\ Merging.move compare op m s = Ret (m', s') /\ merge_at p' m' /\ good s') \/
  cursor_op ord es op p = Exit 134 /\ Merging.move compare op m s = Exit 134.
Proof.
  intros Hm Hs Hop. pose proof (merge_valid p m Hm) as Hv. destruct op as [| |k| |]; try (left; by eapply merge_seeks).
  - unfold cursor_op. destruct (Nat.ltb_spec p (length es)) as [Hlt|]; [left|right; split; [done|cbn; unfold Merging.Next; by rewrite Hv]].
    destruct (merge_next p m s Hm Hlt Hs) as (m' & s' & E & Hm' & Hs'). by eexists _, m', s'.
  - unfold cursor_op. destruct (Nat.ltb_spec p (length es)) as [Hlt|]; [left|right; split; [done|cbn; unfold Merging.Prev; by rewrite Hv]].
    destruct (merge_prev p m s Hm Hlt Hs) as (m' & s' & E & Hm' & Hs'). by eexists _, m', s'.
Qed.

Lemma new_merging its : Forall2 (fun ei it => at_ ei (length ei) it) ess its -> exists m, Merging.new its = Ret m /\ merge_at (length es) m.
Proof.
  intros Hits. unfold Merging.new. assert (exists ws, Merging.set_children its = Ret ws /\ aligned ess (fun _ ei w => wrap_at at_ ei (length ei) w) ws) as (ws & -> & Hws).
  { clear Hperm Hasc Hascs. induction Hits as [|ei it l its Hit Hits (ws & IH & Hws)]; [by exists []|]. cbn [Merging.set_children]. unfold Wrapper.new. cbn [Wrapper.Set_].
    destruct (update_at ei _ it (Wrapper.MkWrapper None false []) Hit) as (w & -> & Hw). run. rewrite IH. run. exists (w :: ws). split; [done|]. by apply aligned_cons. }
  run. eexists. split; [reflexivity|]. split; [by exists length|]. cbn. by rewrite lookup_ge_None_2.
Qed.
End Union.
End Merge.

Section Merged.
Context {W I : Type} `{IterView I} `{IterMoves W I} {ok : bytes -> Prop} {ord : bytes -> bytes -> Z} `{!KeyOrder ok ord} {good : W -> Prop}.
Context {at_ : list entry -> nat -> I -> Prop} `{!IteratorLaws ok ord good at_} (compare : bytes -> bytes -> outcome Z).
Hypothesis compare_ord : forall a b, ok a -> ok b -> compare a b = Ret (ord a b).
#[local] Instance merging_moves : IterMoves W (MergedIterator I) := merged_moves compare.

(** The iterator over a union is at position [p]. *)
Definition merged_at (es : list entry) (p : nat) (it : MergedIterator I) : Prop :=
  match it with
  | NoChild it => es = [] /\ it = NewEmptyIterator
  | OneChild it => at_ es p it
  | Children m => exists ess, es ≡ₚ concat ess /\ ascending ok ord es /\ Forall (ascending ok ord) ess /\ merge_at (at_ := at_) es ess p m
  end.

#[export] Instance merged_laws : IteratorLaws ok ord good merged_at.
Proof.
  split.
  - intros es p [it|it|m]; cbn; [by intros [-> ->]|apply il_valid|]. intros (ess & _ & _ & _ & Hm). by apply (merge_valid (at_ := at_) es ess).
  - intros es p [it|it|m] e; cbn; [by intros [-> _]|apply il_entry|]. intros (ess & H1 & H2 & H3 & Hm). by apply (merge_entry (at_ := at_) es ess H1 H2 H3 p).
  - intros es p [it|it|m]; cbn; [by intros [_ ->]|apply il_status|]. intros (ess & _ & _ & _ & Hm). by apply (merge_status (at_ := at_) es ess p).
  - intros es p [it|it|m] s op Hit Hs Hop; unfold it_move, merging_moves, merged_moves.
    + destruct (il_move (W := W) (good := good) (ok := ok) (ord := ord) (at_ := fun es _ it => es = [] /\ it = NewEmptyIterator) es p it s op Hit Hs Hop)
        as [(p' & it' & s' & E & -> & Hit' & Hs')|[E ->]]; [left|by right]. run. by eexists p', _, s'.
    + destruct (il_move es p it s op Hit Hs Hop) as [(p' & it' & s' & E & -> & Hit' & Hs')|[E ->]]; [left|by right]. run. by eexists p', _, s'.
    + destruct Hit as (ess & H1 & H2 & H3 & Hm). destruct (merge_op compare compare_ord es ess H1 H2 H3 p m s op Hm Hs Hop)
        as [(p' & m' & s' & E & -> & Hm' & Hs')|[E ->]]; [left|by right]. run. eexists p', _, s'. split_and!; [done|done| |done]. by exists ess.
Qed.

Lemma new_merged ess es its : es ≡ₚ concat ess -> ascending ok ord es -> Forall (ascending ok ord) ess -> Forall2 (fun ei it => at_ ei (length ei) it) ess its ->
  exists it, NewMergingIterator its = Ret it /\ merged_at es (length es) it.
Proof.
  intros Hp Ha Has Hits. destruct Hits as [|ei it ess' its' Hit Hits]; [|destruct Hits as [|ej jt ess' its' Hjt Hits]].
  - exists (NoChild NewEmptyIterator). split; [done|]. by apply Permutation_nil_r in Hp as ->.
  - exists (OneChild it). split; [done|]. cbn in Hp. rewrite app_nil_r in Hp. apply Forall_cons in Has as [Hi _].
    rewrite (ascending_unique es ei Ha Hi Hp). done.
  - destruct (new_merging es (ei :: ej :: ess') (it :: jt :: its')) as (m & E & Hm); [by repeat constructor|]. exists (Children m).
    unfold NewMergingIterator. rewrite E. run. split; [done|]. by exists (ei :: ej :: ess').
Qed.

(** The merging iterator is a cursor over the union of its children.  Any children that
    are cursors over sorted entries without common keys, any number of them, empty ones
    included: any sequence of calls of SeekToFirst, SeekToLast, Seek, Next and Prev, with
    any changes of direction, shows what the same moves of a cursor in the sorted list of
    all the entries show, and fails the same assertions. *)
Theorem merging_refines_cursor ess es its ops s : es ≡ₚ concat ess -> ascending ok ord es -> Forall (ascending ok ord) ess ->
  Forall2 (fun ei it => at_ ei (length ei) it) ess its -> good s -> Forall (seeks_ok ok) ops ->
  exists it, NewMergingIterator its = Ret it /\ run_iter ops it s = run_cursor ord es ops (length es).
Proof.
  intros Hp Ha Has Hits Hs Hops. destruct (new_merged ess es its Hp Ha Has Hits) as (it & E & Hit). exists it. split; [done|].
  by apply (run_iter_cursor (at_ := merged_at)).
Qed.
End Merged.

(** ** Examples *)

Definition sample_children : list (list entry) :=
  [[(str "b", str "1"); (str "e", str "2")]; []; [(str "a", str "3"); (str "c", str "4"); (str "f", str "5")]; [(str "d", str "6")]].

Lemma merging_refines_cursor_witness : exists it, NewMergingIterator ((fun es => MkListIter es (length es)) <$> sample_children) = Ret it /\
  run_iter (H0 := merged_moves (H0 := list_moves slice_compare) (fun a b => Ret (slice_compare a b)))
    [OpSeek (str "c"); OpNext; OpPrev; OpPrev; OpPrev; OpPrev; OpLast; OpPrev; OpNext; OpNext] it tt =
  Ret [Some (str "c", str "4"); Some (str "d", str "6"); Some (str "c", str "4"); Some (str "b", str "1"); Some (str "a", str "3"); None;
       Some (str "f", str "5"); Some (str "e", str "2"); Some (str "f", str "5"); None].
Proof.
  destruct (merging_refines_cursor (ok := fun _ => True) (IteratorLaws0 := list_laws (fun _ => True) slice_compare (fun _ : unit => True)) (fun a b => Ret (slice_compare a b)) ltac:(done)
    sample_children [(str "a", str "3"); (str "b", str "1"); (str "c", str "4"); (str "d", str "6"); (str "e", str "2"); (str "f", str "5")]
    ((fun es => MkListIter es (length es)) <$> sample_children) [OpSeek (str "c"); OpNext; OpPrev; OpPrev; OpPrev; OpPrev; OpLast; OpPrev; OpNext; OpNext] tt)
    as (it & E & Er).
  - cbn. apply NoDup_Permutation; [apply (bool_decide_unpack _); by vm_compute..|]. intros e. rewrite !elem_of_cons, elem_of_nil. tauto.
  - split; repeat constructor.
  - repeat constructor.
  - repeat constructor.
  - done.
  - repeat constructor.
  - exists it. split; [exact E|]. etransitivity; [exact Er|]. vm_compute. reflexivity.
Defined.

(** The keys of the children have to differ: of two entries with one key, a change of
    direction skips one. *)
Lemma merging_loses_duplicate :
  (it ← NewMergingIterator [MkListIter [(str "k", str "1")] 1; MkListIter [(str "k", str "2")] 1];
   run_iter (H0 := merged_moves (H0 := list_moves slice_compare) (fun a b => Ret (slice_compare a b))) [OpFirst; OpNext; OpPrev] it tt) =
  Ret [Some (str "k", str "1"); Some (str "k", str "2"); None].
Proof. vm_compute. reflexivity. Qed.
