(* ===== verification/TwoLevel.v ===== *)
(** * Iterators over two levels (util/leveldb/table/two_level_iterator.cc)

    An iterator over an index whose values name the parts of a sequence, and one over the
    part that it is in; together they go through all the entries.  A table uses it for
    its index block and its data blocks. *)

From S2P Require Import Prelude Order Slice Status Iterators.
#[local] Open Scope Z_scope.

(** ** two_level_iterator.cc *)

Module Two.
Import Wrapper.
Section Ops.
(** [W] is the state that the block function works on. *)
Context {W I1 I2 : Type} `{IterView I1} `{IterMoves W I1} `{IterView I2} `{IterMoves W I2}.
Context (block_function : bytes -> W -> outcome (I2 * W)) (fuel : nat).

Record TwoLevelIterator := MkTwo {
  status_ : Status;
  index_iter_ : Wrapper I1;
  data_iter_ : Wrapper I2;
  data_block_handle_ : bytes;
}.

Definition NewTwoLevelIterator (index_iter : I1) : outcome TwoLevelIterator :=
  i ← Wrapper.new (Some index_iter); d ← Wrapper.new None; Ret (MkTwo OK i d []).

Definition Valid (t : TwoLevelIterator) : bool := Wrapper.Valid (data_iter_ t).
Definition key (t : TwoLevelIterator) : outcome bytes := assert! Valid t; Wrapper.key (data_iter_ t).
Definition value (t : TwoLevelIterator) : outcome bytes := assert! Valid t; Wrapper.value (data_iter_ t).

(** [iter() != NULL] *)
Definition present {I} (w : Wrapper I) : bool := bool_decide (is_Some (iter_ w)).

Definition status (t : TwoLevelIterator) : outcome Status :=
  s ← Wrapper.status (index_iter_ t);
  if negb (ok s) then Ret s
  else if present (data_iter_ t) then s ← Wrapper.status (data_iter_ t); Ret (if negb (ok s) then s else status_ t)
  else Ret (status_ t).

Definition set_index (t : TwoLevelIterator) (w : Wrapper I1) : TwoLevelIterator := MkTwo (status_ t) w (data_iter_ t) (data_block_handle_ t).
Definition set_data (t : TwoLevelIterator) (w : Wrapper I2) : TwoLevelIterator := MkTwo (status_ t) (index_iter_ t) w (data_block_handle_ t).
Definition set_handle (t : TwoLevelIterator) (h : bytes) : TwoLevelIterator := MkTwo (status_ t) (index_iter_ t) (data_iter_ t) h.

Definition SaveError (s : Status) (t : TwoLevelIterator) : TwoLevelIterator :=
  if ok (status_ t) && negb (ok s) then MkTwo s (index_iter_ t) (data_iter_ t) (data_block_handle_ t) else t.

Definition SetDataIterator (data_iter : option I2) (t : TwoLevelIterator) : outcome TwoLevelIterator :=
  t ← (if present (data_iter_ t) then s ← Wrapper.status (data_iter_ t); Ret (SaveError s t) else Ret t);
  w ← Set_ data_iter (data_iter_ t);
  Ret (set_data t w).

Definition InitDataBlock (t : TwoLevelIterator) (s : W) : outcome (TwoLevelIterator * W) :=
  if negb (Wrapper.Valid (index_iter_ t)) then t ← SetDataIterator None t; Ret (t, s)
  else
    handle ← Wrapper.value (index_iter_ t);
    if present (data_iter_ t) && (slice_compare handle (data_block_handle_ t) =? 0) then Ret (t, s)
    else
      '(iter, s) ← block_function handle s;
      t ← SetDataIterator (Some iter) (set_handle t handle);
      Ret (t, s).

(** [if (data_iter_.iter() != NULL) data_iter_.op()] *)
Definition move_data (op : iter_op) (t : TwoLevelIterator) (s : W) : outcome (TwoLevelIterator * W) :=
  if present (data_iter_ t) then '(w, s) ← Wrapper.move op (data_iter_ t) s; Ret (set_data t w, s) else Ret (t, s).

(** The loops over empty data blocks; every round moves the index iterator. *)
Fixpoint skip (fuel : nat) (move start : iter_op) (t : TwoLevelIterator) (s : W) : outcome (TwoLevelIterator * W) :=
  match fuel with
  | O => Undef
  | S fuel' =>
      if negb (present (data_iter_ t)) || negb (Wrapper.Valid (data_iter_ t)) then
        if negb (Wrapper.Valid (index_iter_ t)) then t ← SetDataIterator None t; Ret (t, s)
        else
          '(w, s) ← Wrapper.move move (index_iter_ t) s;
          '(t, s) ← InitDataBlock (set_index t w) s;
          '(t, s) ← move_data start t s;
          skip fuel' move start t s
      else Ret (t, s)
  end.

Definition SkipEmptyDataBlocksForward : TwoLevelIterator -> W -> outcome (TwoLevelIterator * W) := skip fuel OpNext OpFirst.
Definition SkipEmptyDataBlocksBackward : TwoLevelIterator -> W -> outcome (TwoLevelIterator * W) := skip fuel OpPrev OpLast.

Definition Seek (target : bytes) (t : TwoLevelIterator) (s : W) : outcome (TwoLevelIterator * W) :=
  '(w, s) ← Wrapper.Seek target (index_iter_ t) s;
  '(t, s) ← InitDataBlock (set_index t w) s;
  '(t, s) ← move_data (OpSeek target) t s;
  SkipEmptyDataBlocksForward t s.

Definition SeekToFirst (t : TwoLevelIterator) (s : W) : outcome (TwoLevelIterator * W) :=
  '(w, s) ← Wrapper.SeekToFirst (index_iter_ t) s;
  '(t, s) ← InitDataBlock (set_index t w) s;
  '(t, s) ← move_data OpFirst t s;
  SkipEmptyDataBlocksForward t s.

Definition SeekToLast (t : TwoLevelIterator) (s : W) : outcome (TwoLevelIterator * W) :=
  '(w, s) ← Wrapper.SeekToLast (index_iter_ t) s;
  '(t, s) ← InitDataBlock (set_index t w) s;
  '(t, s) ← move_data OpLast t s;
  SkipEmptyDataBlocksBackward t s.

Definition Next (t : TwoLevelIterator) (s : W) : outcome (TwoLevelIterator * W) :=
  assert! Valid t;
  '(w, s) ← Wrapper.Next (data_iter_ t) s;
  SkipEmptyDataBlocksForward (set_data t w) s.

Definition Prev (t : TwoLevelIterator) (s : W) : outcome (TwoLevelIterator * W) :=
  assert! Valid t;
  '(w, s) ← Wrapper.Prev (data_iter_ t) s;
  SkipEmptyDataBlocksBackward (set_data t w) s.

Definition move (op : iter_op) : TwoLevelIterator -> W -> outcome (TwoLevelIterator * W) :=
  match op with
  | OpFirst => SeekToFirst
  | OpLast => SeekToLast
  | OpSeek target => Seek target
  | OpNext => Next
  | OpPrev => Prev
  end.
End Ops.
Arguments TwoLevelIterator : clear implicits.
End Two.

(** ** The iterator over two levels is an iterator over all the parts *)

Section Levels.
Context {W I1 I2 : Type} `{IterView I1} `{IterMoves W I1} `{IterView I2} `{IterMoves W I2} {ok : bytes -> Prop} {ord : bytes -> bytes -> Z} {good : W -> Prop}.
Context {at1 : list entry -> nat -> I1 -> Prop} {at2 : list entry -> nat -> I2 -> Prop} `{!IteratorLaws ok ord good at1} `{!IteratorLaws ok ord good at2}.

(** The parts with their entries and their entries in the index. *)
Context {B : Type} (bs : list B) (ents : B -> list entry) (idx : B -> entry).
Abbreviation index := (idx <$> bs).
Abbreviation part_entries l := (concat (ents <$> l)).

(** The index iterator is at [i], the data iterator at an entry of a part or null. *)
Record two_inv (i : nat) (d : option (B * nat)) (w : Two.TwoLevelIterator I1 I2) : Prop := {
  ti_index : wrap_at at1 index i (Two.index_iter_ w);
  ti_data : match d with
            | Some (b, q) => b ∈ bs /\ wrap_at at2 (ents b) q (Two.data_iter_ w) /\ Two.data_block_handle_ w = (idx b).2
            | None => Wrapper.iter_ (Two.data_iter_ w) = None /\ Wrapper.valid_ (Two.data_iter_ w) = false
            end;
  ti_status : Two.status_ w = OK;
}.

(** The iterator is at position [p] among all the entries. *)
Definition two_at (p : nat) (w : Two.TwoLevelIterator I1 I2) : Prop :=
  (exists i b q, bs !! i = Some b /\ two_inv i (Some (b, q)) w /\ (q < length (ents b))%nat /\ p = (length (part_entries (take i bs)) + q)%nat) \/
  p = length (part_entries bs) /\ two_inv (length bs) None w.

Lemma part_entries_app l l' : part_entries (l ++ l') = part_entries l ++ part_entries l'.
Proof. by rewrite fmap_app, concat_app. Qed.

Lemma present_wrap {I} (at_ : list entry -> nat -> I -> Prop) es p w : wrap_at at_ es p w -> Two.present w = true.
Proof. intros (it & E & _). unfold Two.present. rewrite E. by apply bool_decide_eq_true_2. Qed.

Lemma present_data i d w : two_inv i d w -> Two.present (Two.data_iter_ w) = bool_decide (is_Some d).
Proof.
  intros [_ Hd _]. destruct d as [[b q]|].
  - destruct Hd as (_ & Hd & _). rewrite (present_wrap _ _ _ _ Hd). symmetry. by apply bool_decide_eq_true_2.
  - destruct Hd as [E _]. unfold Two.present. rewrite E. done.
Qed.

Lemma entries_take_S i b : bs !! i = Some b -> length (part_entries (take (S i) bs)) = (length (part_entries (take i bs)) + length (ents b))%nat.
Proof. intros Hb. rewrite (take_S_r _ _ _ Hb), part_entries_app, length_app. cbn. by rewrite app_nil_r. Qed.

Lemma entries_middle i b : bs !! i = Some b -> part_entries bs = part_entries (take i bs) ++ ents b ++ part_entries (drop (S i) bs).
Proof. intros Hb. transitivity (part_entries (take i bs ++ b :: drop (S i) bs)); [by rewrite take_drop_middle|]. by rewrite part_entries_app. Qed.

Lemma entries_take_le i b : bs !! i = Some b -> (length (part_entries (take i bs)) + length (ents b) <= length (part_entries bs))%nat.
Proof. intros Hb. rewrite (entries_middle i b Hb), !length_app. lia. Qed.

Lemma two_at_inv p w : two_at p w -> exists i d, two_inv i d w.
Proof. intros [(i & b & q & _ & Hw & _)|[_ Hw]]; eauto. Qed.

Lemma two_valid p w : two_at p w -> Two.Valid w = (p <? length (part_entries bs))%nat.
Proof.
  intros [(i & b & q & Hb & [_ (_ & Hd & _) _] & Hq & ->)|[-> [_ [_ Hv] _]]]; unfold Two.Valid, Wrapper.Valid.
  - rewrite (wrap_valid _ _ _ Hd). pose proof (entries_take_le i b Hb). rewrite !(proj2 (Nat.ltb_lt _ _)) by lia. done.
  - rewrite Hv. by rewrite Nat.ltb_irrefl.
Qed.

Lemma two_entry p w e : two_at p w -> part_entries bs !! p = Some e -> Two.key w = Ret e.1 /\ Two.value w = Ret e.2.
Proof.
  intros Hw He. pose proof (two_valid p w Hw) as Hv. pose proof (lookup_lt_Some _ _ _ He) as Hlt.
  destruct Hw as [(i & b & q & Hb & [_ (Hin & Hwd & _) _] & Hq & ->)|[-> _]]; [|lia].
  unfold Two.key, Two.value. rewrite Hv, (proj2 (Nat.ltb_lt _ _)) by done.
  rewrite (entries_middle i b Hb), lookup_app_r, Nat.add_comm, Nat.add_sub, lookup_app_l in He by lia. by destruct (wrap_value _ _ _ e Hwd He) as [-> ->].
Qed.

Lemma two_status p w : two_at p w -> Two.status w = Ret OK.
Proof.
  intros Hw. destruct (two_at_inv p w Hw) as (i & d & Hi). unfold Two.status. rewrite (present_data _ _ _ Hi). destruct Hi as [Hi Hd Hs]. rewrite (wrap_status _ _ _ Hi). run.
  cbn [Status.ok negb]. rewrite Hs. destruct d as [[b q]|]; [|done]. destruct Hd as (_ & Hd & _). rewrite bool_decide_eq_true_2, (wrap_status _ _ _ Hd) by done. done.
Qed.

Context (Hne : forall b, b ∈ bs -> (0 < length (ents b))%nat).
Context (Hrank : forall k, ok k -> rank ord k (part_entries bs) =
  (length (part_entries (take (rank ord k index) bs)) + match bs !! rank ord k index with Some b => rank ord k (ents b) | None => 0 end)%nat).
Context (Hhandle : forall b b', b ∈ bs -> b' ∈ bs -> (idx b).2 = (idx b').2 -> b = b').
Context (bf : bytes -> W -> outcome (I2 * W)) (fuel : nat) (Hfuel : (2 <= fuel)%nat).
Context (Hbf : forall b s, b ∈ bs -> good s -> exists it s', bf (idx b).2 s = Ret (it, s') /\ at2 (ents b) (length (ents b)) it /\ good s').

(** An error of the data iterator that is replaced is kept; here there is none. *)
Lemma save_error i d w : two_inv i d w ->
  (if Two.present (Two.data_iter_ w) then s ← Wrapper.status (Two.data_iter_ w); Ret (Two.SaveError s w) else Ret w) = Ret w.
Proof.
  intros Hw. rewrite (present_data _ _ _ Hw). destruct Hw as [_ Hd _]. destruct d as [[b q]|]; [|done]. rewrite bool_decide_eq_true_2 by done.
  destruct Hd as (_ & Hd & _). rewrite (wrap_status _ _ _ Hd). run. unfold Two.SaveError. by rewrite andb_false_r.
Qed.

Lemma set_data_none i d w : two_inv i d w -> exists w', Two.SetDataIterator None w = Ret w' /\ two_inv i None w'.
Proof. intros Hw. unfold Two.SetDataIterator. rewrite (save_error i d w Hw). run. eexists. split; [reflexivity|]. destruct Hw as [Hi _ Hs]. by split. Qed.

Lemma set_data_part i d w b it : two_inv i d w -> b ∈ bs -> at2 (ents b) (length (ents b)) it ->
  exists w', Two.SetDataIterator (Some it) (Two.set_handle w (idx b).2) = Ret w' /\ two_inv i (Some (b, length (ents b))) w'.
Proof.
  intros Hw Hb Hit. unfold Two.SetDataIterator. pose proof (save_error i d w Hw) as E. cbn [Two.set_handle Two.data_iter_].
  assert ((if Two.present (Two.data_iter_ w) then s ← Wrapper.status (Two.data_iter_ w); Ret (Two.SaveError s (Two.set_handle w (idx b).2))
           else Ret (Two.set_handle w (idx b).2)) = Ret (Two.set_handle w (idx b).2)) as ->.
  { rewrite (present_data _ _ _ Hw) in *. destruct Hw as [_ Hd _]. destruct d as [[b' q]|]; [|done]. rewrite bool_decide_eq_true_2 by done.
    destruct Hd as (_ & Hd & _). rewrite (wrap_status _ _ _ Hd). run. unfold Two.SaveError. by rewrite andb_false_r. }
  run. cbn [Wrapper.Set_ Two.set_handle Two.data_iter_]. destruct (update_at _ _ it (Two.data_iter_ w) Hit) as (w' & -> & Hw'). run.
  eexists. split; [reflexivity|]. destruct Hw. by split.
Qed.

(** The data iterator after the index iterator has moved. *)
Lemma init_part i d w s : two_inv i d w -> good s ->
  exists w' s', Two.InitDataBlock bf w s = Ret (w', s') /\ good s' /\
    match bs !! i with Some b => exists q, two_inv i (Some (b, q)) w' | None => two_inv i None w' end.
Proof.
  intros Hw Hs. pose proof Hw as [Hi Hd Hst]. unfold Two.InitDataBlock. unfold Wrapper.Valid. rewrite (wrap_valid _ _ _ Hi), length_fmap.
  destruct (bs !! i) as [b|] eqn:Hb.
  2:{ apply lookup_ge_None in Hb. rewrite (proj2 (Nat.ltb_ge _ _)) by done. cbn [negb]. destruct (set_data_none i d w Hw) as (w' & -> & Hw'). run. by exists w', s. }
  pose proof (lookup_lt_Some _ _ _ Hb) as Hlt. assert (b ∈ bs) as Hin by (by eapply list_elem_of_lookup_2). rewrite (proj2 (Nat.ltb_lt _ _)) by done. cbn [negb].
  destruct (wrap_value _ _ _ (idx b) Hi) as [-> _]; [by rewrite list_lookup_fmap, Hb|]. run.
  destruct (Two.present (Two.data_iter_ w) && (slice_compare (idx b).2 (Two.data_block_handle_ w) =? 0)) eqn:Econd.
  - apply andb_true_iff in Econd as [Hp Heq%Z.eqb_eq]. apply slice_compare_eq in Heq. exists w, s. split_and!; [done|done|].
    rewrite (present_data _ _ _ Hw) in Hp. destruct d as [[b' q]|]; [|done]. destruct Hd as (Hb' & Hwd & Hh). exists q. split; [done| |done].
    assert (b' = b) as ->; [|done]. apply Hhandle; [done|done|]. congruence.
  - destruct (Hbf b s Hin Hs) as (it & s' & -> & Hit & Hs'). run. destruct (set_data_part i d w b it Hw Hin Hit) as (w' & -> & Hw'). run.
    exists w', s'. split_and!; [done|done|]. by eexists.
Qed.

Lemma index_op i i' w s op : wrap_at at1 index i w -> good s -> seeks_ok ok op -> cursor_op ord index op i = Ret i' ->
  exists w' s', Wrapper.move op w s = Ret (w', s') /\ wrap_at at1 index i' w' /\ good s'.
Proof. apply wrap_op. Qed.

Lemma move_data_op i b q q' w s op : two_inv i (Some (b, q)) w -> good s -> seeks_ok ok op -> cursor_op ord (ents b) op q = Ret q' ->
  exists w' s', Two.move_data op w s = Ret (w', s') /\ two_inv i (Some (b, q')) w' /\ good s'.
Proof.
  intros [Hi (Hb & Hd & Hh) Hst] Hs Hop Hc. unfold Two.move_data. rewrite (present_wrap _ _ _ _ Hd).
  destruct (wrap_op _ _ _ _ _ op Hd Hs Hop Hc) as (w' & s' & -> & Hw' & Hs'). run. eexists _, s'. split; [reflexivity|]. split; [by split|done].
Qed.

Lemma move_data_none i w s op : two_inv i None w -> Two.move_data op w s = Ret (w, s).
Proof. intros Hw. unfold Two.move_data. by rewrite (present_data _ _ _ Hw). Qed.

(** The loops stop at a valid data iterator, and at the end of the index. *)
Lemma skip_valid i b q w n mv st s : two_inv i (Some (b, q)) w -> (q < length (ents b))%nat -> Two.skip bf (S n) mv st w s = Ret (w, s).
Proof.
  intros Hw Hq. cbn [Two.skip]. rewrite (present_data _ _ _ Hw), bool_decide_eq_true_2 by done. destruct Hw as [_ (_ & Hd & _) _].
  unfold Wrapper.Valid. by rewrite (wrap_valid _ _ _ Hd), (proj2 (Nat.ltb_lt _ _)) by done.
Qed.

Lemma skip_end w n mv st s : two_inv (length bs) None w -> exists w', Two.skip bf (S n) mv st w s = Ret (w', s) /\ two_at (length (part_entries bs)) w'.
Proof.
  intros Hw. cbn [Two.skip]. rewrite (present_data _ _ _ Hw). cbn [bool_decide]. pose proof Hw as [Hi _ _].
  unfold Wrapper.Valid. rewrite (wrap_valid _ _ _ Hi), length_fmap, Nat.ltb_irrefl. cbn. destruct (set_data_none _ _ w Hw) as (w' & -> & Hw'). run. exists w'. split; [done|]. by right.
Qed.

(** A round that moves the index iterator from [i] to [i']. *)
Lemma skip_round i i' b w op op' s : two_inv i (Some (b, length (ents b))) w -> bs !! i = Some b -> good s ->
  seeks_ok ok op -> seeks_ok ok op' -> cursor_op ord index op i = Ret i' -> (i' <= length bs)%nat ->
  (forall d q, exists q', cursor_op ord (ents d) op' q = Ret q' /\ (d ∈ bs -> (q' < length (ents d))%nat)) ->
  exists w' s', Two.skip bf fuel op op' w s = Ret (w', s') /\ good s' /\
    match bs !! i' with
    | Some d => exists q, two_inv i' (Some (d, q)) w' /\ (q < length (ents d))%nat /\ exists q0, cursor_op ord (ents d) op' q0 = Ret q
    | None => two_at (length (part_entries bs)) w'
    end.
Proof.
  intros Hw Hb Hs Hop Hop' Hi Hi' Hstart. destruct fuel as [|[|n]]; [lia|lia|]. pose proof Hw as [Hix (Hin & Hd & Hh) Hst]. set (fuel1 := S n). cbn [Two.skip]. unfold Wrapper.Valid.
  rewrite (present_wrap _ _ _ _ Hd), (wrap_valid _ _ _ Hd), Nat.ltb_irrefl. cbn [negb orb].
  rewrite (wrap_valid _ _ _ Hix), length_fmap, (proj2 (Nat.ltb_lt _ _)) by (by eapply lookup_lt_Some). cbn [negb].
  destruct (index_op i i' _ s op Hix Hs Hop Hi) as (wi & s1 & -> & Hwi & Hs1). run.
  assert (two_inv i' (Some (b, length (ents b))) (Two.set_index w wi)) as Hw1 by (by destruct Hw; split).
  destruct (init_part i' _ _ s1 Hw1 Hs1) as (w2 & s2 & -> & Hs2 & Hw2). run. subst fuel1. destruct (bs !! i') as [d|] eqn:Hd'.
  - destruct Hw2 as [q Hw2]. destruct (Hstart d q) as (q' & Hq' & Hlt). destruct (move_data_op i' d q q' w2 s2 op' Hw2 Hs2 Hop' Hq') as (w3 & s3 & -> & Hw3 & Hs3). run.
    assert (d ∈ bs) as Hdin by (by eapply list_elem_of_lookup_2). rewrite (skip_valid i' d q') by auto. exists w3, s3. split_and!; [done|done|]. exists q'. eauto.
  - rewrite (move_data_none i') by done. run. apply lookup_ge_None in Hd'. assert (i' = length bs) as -> by lia.
    destruct (skip_end w2 n op op' s2 Hw2) as (w3 & -> & Hw3). by exists w3, s2.
Qed.

Lemma forward_from i b q w s : two_inv i (Some (b, q)) w -> bs !! i = Some b -> (q <= length (ents b))%nat -> good s ->
  exists w' s', Two.SkipEmptyDataBlocksForward bf fuel w s = Ret (w', s') /\ two_at (length (part_entries (take i bs)) + q) w' /\ good s'.
Proof.
  intros Hw Hb Hq Hs. unfold Two.SkipEmptyDataBlocksForward. destruct (decide (q < length (ents b))%nat) as [Hlt|Hge].
  - destruct fuel as [|n]; [lia|]. rewrite (skip_valid i b q) by done. exists w, s. split_and!; [done| |done]. left. by exists i, b, q.
  - assert (q = length (ents b)) as -> by lia. pose proof (lookup_lt_Some _ _ _ Hb) as Hi.
    destruct (skip_round i (S i) b w OpNext OpFirst s Hw Hb Hs I I) as (w' & s' & E & Hs' & Hw').
    { unfold cursor_op. rewrite length_fmap, (proj2 (Nat.ltb_lt _ _)) by done. done. }
    { lia. }
    { intros d q. exists 0%nat. split; [done|apply Hne]. }
    exists w', s'. split_and!; [done| |done]. rewrite <- (entries_take_S i b Hb). destruct (bs !! S i) as [d|] eqn:Hd.
    + destruct Hw' as (q & Hw' & Hlt & q0 & Eq). injection Eq as <-. left. exists (S i), d, 0%nat. split_and!; [done|done|done|lia].
    + apply lookup_ge_None in Hd. by rewrite take_ge.
Qed.

Lemma backward_from i b w s : two_inv i (Some (b, length (ents b))) w -> bs !! i = Some b -> good s ->
  exists w' s', Two.SkipEmptyDataBlocksBackward bf fuel w s = Ret (w', s') /\ good s' /\
    two_at match length (part_entries (take i bs)) with O => length (part_entries bs) | S n => n end w'.
Proof.
  intros Hw Hb Hs. unfold Two.SkipEmptyDataBlocksBackward. pose proof (lookup_lt_Some _ _ _ Hb) as Hi.
  destruct (skip_round i match i with O => length bs | S i' => i' end b w OpPrev OpLast s Hw Hb Hs I I) as (w' & s' & E & Hs' & Hw').
  { unfold cursor_op. rewrite length_fmap, (proj2 (Nat.ltb_lt _ _)) by done. by destruct i. }
  { destruct i; lia. }
  { intros d q. exists (pred (length (ents d))). split; [done|]. intros Hd. pose proof (Hne d Hd). lia. }
  exists w', s'. split_and!; [done|done|]. destruct i as [|i].
  - rewrite lookup_ge_None_2 in Hw' by lia. done.
  - destruct (lookup_lt_is_Some_2 bs i) as [d Hd]; [lia|]. rewrite Hd in Hw'. destruct Hw' as (q & Hw' & Hlt & q0 & Eq). injection Eq as <-.
    rewrite (entries_take_S i d Hd). destruct (length (ents d)) as [|m] eqn:Em; [lia|]. rewrite Nat.add_succ_r. left. exists i, d, m. split_and!; [done|done|lia|done].
Qed.

(** A seek: the index iterator is placed, then the data iterator by [op']. *)
Lemma seek_steps i i' d w op op' q' s (step : Two.TwoLevelIterator I1 I2 -> W -> outcome (Two.TwoLevelIterator I1 I2 * W)) p :
  two_inv i d w -> good s -> seeks_ok ok op -> seeks_ok ok op' -> cursor_op ord index op i = Ret i' -> (i' <= length bs)%nat ->
  (forall b q, bs !! i' = Some b -> cursor_op ord (ents b) op' q = Ret (q' b)) ->
  (forall b w s, bs !! i' = Some b -> two_inv i' (Some (b, q' b)) w -> good s -> exists w' s', step w s = Ret (w', s') /\ two_at p w' /\ good s') ->
  (forall w s, i' = length bs -> two_inv (length bs) None w -> good s -> exists w' s', step w s = Ret (w', s') /\ two_at p w' /\ good s') ->
  exists w' s',
    ('(wi, s) ← Wrapper.move op (Two.index_iter_ w) s;
     '(w, s) ← Two.InitDataBlock bf (Two.set_index w wi) s;
     '(w, s) ← Two.move_data op' w s;
     step w s) = Ret (w', s') /\ two_at p w' /\ good s'.
Proof.
  intros Hw Hs Hop Hop' Hi Hi' Hq Hsome Hnone. pose proof Hw as [Hix Hd Hst]. destruct (index_op i i' _ s op Hix Hs Hop Hi) as (wi & s1 & -> & Hwi & Hs1). run.
  assert (two_inv i' d (Two.set_index w wi)) as Hw1 by (by split). destruct (init_part i' d _ s1 Hw1 Hs1) as (w2 & s2 & -> & Hs2 & Hw2). run.
  destruct (bs !! i') as [b|] eqn:Hb.
  - destruct Hw2 as [q Hw2]. destruct (move_data_op i' b q (q' b) w2 s2 op' Hw2 Hs2 Hop' (Hq b q eq_refl)) as (w3 & s3 & -> & Hw3 & Hs3). run. by apply (Hsome b).
  - rewrite (move_data_none i') by done. run. apply lookup_ge_None in Hb. assert (i' = length bs) as -> by lia. by apply Hnone.
Qed.

Lemma step_end w s op op' : two_inv (length bs) None w -> good s ->
  exists w' s', Two.skip bf fuel op op' w s = Ret (w', s') /\ two_at (length (part_entries bs)) w' /\ good s'.
Proof. intros Hw Hs. destruct fuel as [|n]; [lia|]. destruct (skip_end w n op op' s Hw) as (w' & E & H'). by exists w', s. Qed.

Lemma two_seek p w s target : two_at p w -> good s -> ok target ->
  exists w' s', Two.Seek bf fuel target w s = Ret (w', s') /\ two_at (rank ord target (part_entries bs)) w' /\ good s'.
Proof.
  intros Hw Hs Hk. destruct (two_at_inv p w Hw) as (i & d & Hi). pose proof (Hrank target Hk) as Hr.
  apply (seek_steps i (rank ord target index) d w (OpSeek target) (OpSeek target) (fun b => rank ord target (ents b)) s (Two.SkipEmptyDataBlocksForward bf fuel)); try done.
  - pose proof (rank_le ord target index) as Hle. by rewrite length_fmap in Hle.
  - intros b w1 s1 Hb Hw1 Hs1. rewrite Hb in Hr. rewrite Hr. apply (forward_from _ b); [done|done|apply rank_le|done].
  - intros w1 s1 Hl Hw1 Hs1. rewrite Hl, lookup_ge_None_2, take_ge, Nat.add_0_r in Hr by done. rewrite Hr. by apply step_end.
Qed.

Lemma two_first p w s : two_at p w -> good s -> exists w' s', Two.SeekToFirst bf fuel w s = Ret (w', s') /\ two_at 0 w' /\ good s'.
Proof.
  intros Hw Hs. destruct (two_at_inv p w Hw) as (i & d & Hi).
  apply (seek_steps i 0 d w OpFirst OpFirst (fun b => 0%nat) s (Two.SkipEmptyDataBlocksForward bf fuel)); try done; [lia|..].
  - intros b w1 s1 Hb Hw1 Hs1. change 0%nat with (length (part_entries (take 0 bs)) + 0)%nat. apply (forward_from _ b); [done|done|lia|done].
  - intros w1 s1 Hl Hw1 Hs1. assert (length (part_entries bs) = 0%nat) as E0 by (destruct bs; [done|discriminate]).
    pose proof (step_end w1 s1 OpNext OpFirst Hw1 Hs1) as Hstep. by rewrite E0 in Hstep.
Qed.

Lemma two_last p w s : two_at p w -> good s -> exists w' s', Two.SeekToLast bf fuel w s = Ret (w', s') /\ two_at (pred (length (part_entries bs))) w' /\ good s'.
Proof.
  intros Hw Hs. destruct (two_at_inv p w Hw) as (i & d & Hi).
  apply (seek_steps i (pred (length index)) d w OpLast OpLast (fun b => pred (length (ents b))) s (Two.SkipEmptyDataBlocksBackward bf fuel)); try done;
    rewrite ?length_fmap; [lia|..].
  - intros b w1 s1 Hb Hw1 Hs1. assert (b ∈ bs) as Hin by (by eapply list_elem_of_lookup_2). pose proof (Hne b Hin) as Hn.
    unfold Two.SkipEmptyDataBlocksBackward. destruct fuel as [|n]; [lia|]. rewrite (skip_valid _ b (pred (length (ents b)))) by (done || lia).
    exists w1, s1. split_and!; [done| |done]. left. eexists _, b, _. split_and!; [exact Hb|done|lia|].
    pose proof (entries_take_S _ b Hb) as HS. pose proof (lookup_lt_Some _ _ _ Hb). rewrite take_ge in HS by lia. lia.
  - intros w1 s1 Hl Hw1 Hs1. assert (length (part_entries bs) = 0%nat) as E0 by (destruct bs; [done|cbn in Hl; lia]).
    pose proof (step_end w1 s1 OpPrev OpLast Hw1 Hs1) as Hstep. by rewrite E0 in Hstep |- *.
Qed.

Lemma two_next p w s : two_at p w -> (p < length (part_entries bs))%nat -> good s ->
  exists w' s', Two.Next bf fuel w s = Ret (w', s') /\ two_at (S p) w' /\ good s'.
Proof.
  intros Hw Hp Hs. unfold Two.Next. rewrite (two_valid p w Hw), (proj2 (Nat.ltb_lt _ _)) by done. destruct Hw as [(i & b & q & Hb & Hw & Hq & ->)|[-> _]]; [|lia].
  pose proof Hw as [Hi (Hin & Hwd & Hh) Hst]. destruct (wrap_op _ q (S q) _ s OpNext Hwd Hs I) as (wd & s1 & E & Hwd' & Hs1).
  { unfold cursor_op. by rewrite (proj2 (Nat.ltb_lt _ _)) by done. }
  unfold Wrapper.Next. rewrite E. run. rewrite <- Nat.add_succ_r. apply (forward_from i b (S q)); [by split|done|lia|done].
Qed.

Lemma two_prev p w s : two_at p w -> (p < length (part_entries bs))%nat -> good s ->
  exists w' s', Two.Prev bf fuel w s = Ret (w', s') /\ two_at match p with O => length (part_entries bs) | S n => n end w' /\ good s'.
Proof.
  intros Hw Hp Hs. unfold Two.Prev. rewrite (two_valid p w Hw), (proj2 (Nat.ltb_lt _ _)) by done. destruct Hw as [(i & b & q & Hb & Hw & Hq & ->)|[-> _]]; [|lia].
  pose proof Hw as [Hi (Hin & Hwd & Hh) Hst].
  destruct (wrap_op _ q match q with O => length (ents b) | S n => n end _ s OpPrev Hwd Hs I) as (wd & s1 & E & Hwd' & Hs1).
  { unfold cursor_op. by rewrite (proj2 (Nat.ltb_lt _ _)) by done. }
  unfold Wrapper.Prev. rewrite E. run. destruct q as [|q].
  - rewrite Nat.add_0_r. destruct (backward_from i b (Two.set_data w wd) s1) as (w' & s' & E' & Hs' & Hw'); [by split|done|done|]. by exists w', s'.
  - rewrite Nat.add_succ_r. unfold Two.SkipEmptyDataBlocksBackward. assert (two_inv i (Some (b, q)) (Two.set_data w wd)) as Hw1 by (by split).
    destruct fuel as [|n]; [lia|]. rewrite (skip_valid i b q) by (done || lia). exists (Two.set_data w wd), s1. split_and!; [done| |done].
    left. exists i, b, q. split_and!; [done|done|lia|done].
Qed.

(** One call, from a position that the iterator is at. *)
Lemma two_op p w s op : two_at p w -> good s -> seeks_ok ok op ->
  (exists p' w' s', cursor_op ord (part_entries bs) op p = Ret p' /\ Two.move bf fuel op w s = Ret (w', s') /\ two_at p' w' /\ good s') \/
  cursor_op ord (part_entries bs) op p = Exit 134 /\ Two.move bf fuel op w s = Exit 134.
Proof.
  intros Hw Hs Hop. pose proof (two_valid p w Hw) as Hv. destruct op as [| |target| |]; cbn [Two.move seeks_ok] in *; unfold cursor_op.
  - left. destruct (two_first p w s Hw Hs) as (w' & s' & E & Hp' & Hs'). by eexists _, w', s'.
  - left. destruct (two_last p w s Hw Hs) as (w' & s' & E & Hp' & Hs'). by eexists _, w', s'.
  - left. destruct (two_seek p w s target Hw Hs Hop) as (w' & s' & E & Hp' & Hs'). by eexists _, w', s'.
  - destruct (Nat.ltb_spec p (length (part_entries bs))); [left|right; split; [done|unfold Two.Next; by rewrite Hv]].
    destruct (two_next p w s Hw ltac:(done) Hs) as (w' & s' & E & Hp' & Hs'). by eexists _, w', s'.
  - destruct (Nat.ltb_spec p (length (part_entries bs))); [left|right; split; [done|unfold Two.Prev; by rewrite Hv]].
    destruct (two_prev p w s Hw ltac:(done) Hs) as (w' & s' & E & Hp' & Hs'). by eexists _, w', s'.
Qed.

Lemma new_two it : at1 index (length bs) it -> exists w, Two.NewTwoLevelIterator (I2 := I2) it = Ret w /\ two_at (length (part_entries bs)) w.
Proof.
  intros Hit. unfold Two.NewTwoLevelIterator, Wrapper.new. cbn [Wrapper.Set_].
  destruct (update_at _ _ it (Wrapper.MkWrapper None false []) Hit) as (w & -> & Hw). run. eexists. split; [reflexivity|]. right. split; [done|]. by split.
Qed.
End Levels.
