(* ===== verification/TableIter.v ===== *)
(** * Iterators over tables (util/leveldb/table/table.cc)

    The iterator of a table is the two-level iterator over its index block and its data
    blocks, which it reads through the block cache that all tables share. *)

From S2P Require Import Prelude Order Slice Coding FileNames Status Files DbFormat InternalOrder Iterators Block TableFormat FilterBlock Table TableSpec TableGet TwoLevel.
From stdpp Require Import strings.
#[local] Open Scope Z_scope.

(** ** Block iterators as iterators *)

#[export] Instance block_view : IterView BlockIter :=
  {| it_Valid := BI.Valid; it_key := BI.key; it_value := BI.value; it_status it := Ret (BI.status it) |}.

Definition bi_op (compare : bytes -> bytes -> outcome Z) (op : iter_op) : BlockIter -> outcome BlockIter :=
  match op with
  | OpFirst => BI.SeekToFirst
  | OpLast => BI.SeekToLast
  | OpSeek target => BI.Seek compare target
  | OpNext => BI.Next
  | OpPrev => BI.Prev
  end.

Definition block_moves {W} (compare : bytes -> bytes -> outcome Z) : IterMoves W BlockIter := fun op it s => it ← bi_op compare op it; Ret (it, s).

Section BlockLaws.
Context {W : Type} (compare : bytes -> bytes -> outcome Z) (ok : bytes -> Prop) (ord : bytes -> bytes -> Z) `{!KeyOrder ok ord}.
Hypothesis compare_ord : forall a b, ok a -> ok b -> compare a b = Ret (ord a b).

Definition block_at_pos (es : list entry) (p : nat) (it : BlockIter) : Prop := exists b, it = inr b /\ iter_at es p b /\ sorted_entries ok ord es.

Lemma block_laws (good : W -> Prop) : IteratorLaws (H0 := block_moves compare) ok ord good block_at_pos.
Proof.
  split.
  - intros es p it (b & -> & Hb & _). by destruct (iter_observe _ _ _ Hb) as (Hv & _).
  - intros es p it e (b & -> & Hb & _) He. destruct (iter_observe _ _ _ Hb) as (_ & _ & Hkv). by apply Hkv.
  - intros es p it (b & -> & Hb & _). destruct (iter_observe _ _ _ Hb) as (_ & Hs & _). cbn. by rewrite Hs.
  - intros es p it s op (b & -> & Hb & Hse) Hs Hop.
    assert (bi_op compare op (inr b) = (b ← run_op compare op b; Ret (inr b))) as Erun by (by destruct op). unfold it_move, block_moves. rewrite Erun.
    destruct (iter_step compare ok ord compare_ord ord_lt_trans es p b op Hb Hse Hop) as [(p' & b' & E & -> & Hb')|[E ->]]; run; [left|by right].
    exists p', (inr b'), s. split_and!; [done|done|by exists b'|done].
Qed.
End BlockLaws.

(** ** The iterator of a table *)

Record TableIterator {F} := MkTableIter {
  ti_table : Table (F := F);
  ti_options : ReadOptions;
  ti_two : Two.TwoLevelIterator BlockIter BlockIter;
}.
Arguments TableIterator : clear implicits.

Definition Table_NewIterator {F} (t : Table (F := F)) (options : ReadOptions) : outcome (TableIterator F) :=
  index ← NewIterator (t_index t); two ← Two.NewTwoLevelIterator index; Ret (MkTableIter F t options two).

#[export] Instance table_view F : IterView (TableIterator F) :=
  {| it_Valid it := Two.Valid (ti_two it); it_key it := Two.key (ti_two it); it_value it := Two.value (ti_two it); it_status it := Two.status (ti_two it) |}.

(** More rounds than the index block has entries. *)
Definition skip_fuel {F} (t : Table (F := F)) : nat := S (S (Z.to_nat (Block.size_ (t_index t)))).

Definition table_moves {F C} `{RandomAccessFile F} `{BlockCache C} (snappy : option snappy_lib) (addr : Z) : IterMoves (option C) (TableIterator F) := fun op it cache =>
  let t := ti_table it in
  '(two, cache) ← Two.move (H0 := block_moves (t_compare t)) (H2 := block_moves (t_compare t)) (BlockReader snappy addr t (ti_options it)) (skip_fuel t) op (ti_two it) cache;
  Ret (MkTableIter F t (ti_options it) two, cache).

Section Tables.
Context (snappy : option snappy_lib) (addr : Z) (Haddr : 0 <= addr).
Context (opts : Options) (ok : bytes -> Prop) (ord : bytes -> bytes -> Z) (same : bytes -> bytes -> Prop)
  `{!TableComparatorLaws (comparator opts) ok ord same}.
Context {F C : Type} `{RandomAccessFile F} `{BlockCache C} (holds : C -> bytes -> Block -> Prop) `{!BlockCacheLaws C holds}.

(** A table that was opened from a file with these blocks. *)
Definition opened (t : Table (F := F)) (bs : list tblock) : Prop :=
  exists contents f, table_rep snappy opts ok ord same bs contents /\ reads_as f contents /\ ascending ok ord (entries bs) /\ table_ok opts ok same bs f t.

(** Reading blocks of a table adds entries under its own id only. *)
Lemma block_reader_frame t ro h cache it cache' c' : BlockReader snappy addr t ro h cache = Ret (it, cache') -> cache' = Some c' ->
  exists c, cache = Some c /\ forall k blk, holds c' k blk -> holds c k blk \/ exists o, k = cache_key (t_cache_id t) o.
Proof.
  unfold BlockReader. intros E ->. destruct (BlockHandle_DecodeFrom BlockHandle_new h) as [[[st hd] rest]| |]; [|done|done]. cbn [mbind outcome_bind] in E.
  destruct (Status.ok st).
  2:{ cbn [mbind outcome_bind] in E. injection E as _ ->. exists c'. split; [done|]. by left. }
  unfold read_block_cached in E. destruct cache as [c|].
  2:{ destruct (ReadBlock snappy addr (t_file t) (verify_checksums ro) hd) as [[s ct]| |]; [|done|done]. cbn [mbind outcome_bind] in E.
      destruct (Status.ok s); [|done]. destruct (Block_new (data ct)) as [b| |]; [|done|done]. cbn [mbind outcome_bind] in E. by destruct (NewIterator b). }
  exists c. split; [done|]. destruct (bc_Lookup _ c) as [[b|] c1] eqn:El.
  { cbn [mbind outcome_bind] in E. destruct (NewIterator b) as [i| |]; [|done|done]. injection E as _ ->. intros k blk Hh. left. by eapply bl_lookup_holds. }
  destruct (ReadBlock snappy addr (t_file t) (verify_checksums ro) hd) as [[s ct]| |]; [|done|done]. cbn [mbind outcome_bind] in E.
  destruct (Status.ok s).
  2:{ cbn [mbind outcome_bind] in E. injection E as _ ->. intros k blk Hh. left. by eapply bl_lookup_holds. }
  destruct (Block_new (data ct)) as [b| |]; [|done|done]. cbn [mbind outcome_bind] in E. destruct (NewIterator b) as [i| |]; [|done|done].
  injection E as _ <-. intros k blk Hh. destruct (cachable ct && fill_cache ro); [apply bl_insert in Hh as [[-> _]|Hh]; [right; by eexists|]|]; left; by eapply bl_lookup_holds.
Qed.

(** Tables that share a cache. *)
Context (ts : list (Table (F := F) * list tblock)) (Hts : forall t bs, (t, bs) ∈ ts -> opened t bs).

(** Their ids keep their blocks apart, and what is cached under an id is a block of its table. *)
Record shared_cache (cache : option C) : Prop := {
  sc_apart c t bs t' bs' o o' : cache = Some c -> (t, bs) ∈ ts -> (t', bs') ∈ ts -> cache_key (t_cache_id t) o = cache_key (t_cache_id t') o' ->
    t_cache_id t = t_cache_id t' /\ bs = bs';
  sc_ok t bs : (t, bs) ∈ ts -> cache_ok holds bs (t_cache_id t) cache;
}.

Lemma shared_reader t bs b ro cache : (t, bs) ∈ ts -> b ∈ bs -> shared_cache cache ->
  exists it cache', BlockReader snappy addr t ro (enc_handle (tb_handle b)) cache = Ret (inr it, cache') /\
    iter_at (tb_entries b) (length (tb_entries b)) it /\ shared_cache cache'.
Proof.
  intros Ht Hb Hc. destruct (Hts t bs Ht) as (contents & f & Hrep & Hf & Hasc & Hok).
  destruct (block_reader snappy addr Haddr opts ok ord same holds bs contents Hrep f Hf t ro b cache Hok (sc_ok _ Hc t bs Ht) Hb) as (it & cache' & E & Hit & Hc').
  exists it, cache'. split_and!; [done|done|]. split.
  - intros c' t1 bs1 t2 bs2 o o' -> H1 H2 Ek. destruct (block_reader_frame _ _ _ _ _ _ _ E eq_refl) as (c & Ec & _). by apply (sc_apart _ Hc c t1 bs1 t2 bs2 o o').
  - intros t2 bs2 H2 c2 b2 blk Ec2 Hb2 Hh. destruct (block_reader_frame _ _ _ _ _ _ _ E Ec2) as (c & Ec & Hfr).
    destruct (Hfr _ _ Hh) as [Hold|[o Ek]]; [by apply (sc_ok _ Hc t2 bs2 H2 c b2)|].
    destruct (sc_apart _ Hc c t2 bs2 t bs _ _ Ec H2 Ht Ek) as [Eid ->]. rewrite Eid in Hh. by apply (Hc' c2 b2).
Qed.

Abbreviation blocks_at bs := (two_at (at1 := block_at_pos ok ord) (at2 := block_at_pos ok ord) bs tb_entries index_entry).

(** The iterator of one of the tables is at position [p]. *)
Definition table_at (es : list entry) (p : nat) (it : TableIterator F) : Prop :=
  exists bs, (ti_table it, bs) ∈ ts /\ entries bs = es /\ blocks_at bs p (ti_two it).

Lemma block_ascending bs contents b : table_rep snappy opts ok ord same bs contents -> ascending ok ord (entries bs) -> b ∈ bs -> sorted_entries ok ord (tb_entries b).
Proof.
  intros Hrep Hasc Hb. apply (block_sorted snappy opts ok ord same bs contents Hrep Hasc b Hb). apply list_elem_of_split in Hb as (l1 & l2 & E). rewrite E, entries_app in Hasc.
  apply ascending_app in Hasc as (_ & Ha & _). change (entries (b :: l2)) with (tb_entries b ++ entries l2) in Ha. by apply ascending_app in Ha as (Ha & _).
Qed.

Lemma block_nonempty bs rest b : separated ok ord same bs rest -> b ∈ bs -> (0 < length (tb_entries b))%nat.
Proof.
  intros Hs Hb. induction bs as [|d l IH]; [by apply not_elem_of_nil in Hb|].
  destruct Hs as [(e & He & _) Hs]. apply elem_of_cons in Hb as [->|Hb]; [|by apply IH]. destruct (tb_entries d); [done|cbn; lia].
Qed.

Lemma handle_inj bs contents b b' : table_rep snappy opts ok ord same bs contents -> b ∈ bs -> b' ∈ bs -> enc_handle (tb_handle b) = enc_handle (tb_handle b') -> b = b'.
Proof.
  intros Hrep Hb Hb' E. apply (TableSpec.block_at snappy opts ok ord same bs contents Hrep); [done|done|].
  destruct (block_handle snappy opts ok ord same bs contents Hrep b Hb) as [Hok1 _], (block_handle snappy opts ok ord same bs contents Hrep b' Hb') as [Hok2 _].
  pose proof (handle_decode (tb_handle b) BlockHandle_new [] Hok1) as D1. pose proof (handle_decode (tb_handle b') BlockHandle_new [] Hok2) as D2.
  rewrite E in D1. rewrite D1 in D2. by injection D2 as ->.
Qed.

#[local] Instance shared_block_moves : IterMoves (option C) BlockIter := block_moves (tc_Compare (comparator opts)).
#[local] Instance shared_block_laws : IteratorLaws ok ord shared_cache (block_at_pos ok ord).
Proof. apply block_laws; [apply _|apply tl_compare]. Qed.
#[local] Existing Instance table_moves.

#[export] Instance table_laws : IteratorLaws (H0 := table_moves snappy addr) ok ord shared_cache table_at.
Proof.
  split.
  - intros es p it (bs & _ & <- & Hp). by apply (two_valid _ _ _ _ _ Hp).
  - intros es p it e (bs & _ & <- & Hp) He. by apply (two_entry (W := option C) _ _ _ _ _ _ Hp).
  - intros es p it (bs & _ & <- & Hp). by apply (two_status (W := option C) _ _ _ _ _ Hp).
  - intros es p it s op (bs & Ht & <- & Hp) Hs Hop. destruct (Hts _ _ Ht) as (contents & f & Hrep & Hf & Hasc & Hok). unfold it_move, table_moves.
    destruct (to_options _ _ _ _ _ _ Hok) as [Ecmp _]. unfold t_compare. rewrite Ecmp.
    destruct (two_op (at1 := block_at_pos ok ord) bs tb_entries index_entry) with (bf := BlockReader snappy addr (ti_table it) (ti_options it))
      (fuel := skip_fuel (ti_table it)) (p := p) (w := ti_two it) (s := s) (op := op) as [(p' & w' & s' & Ec & E & Hp' & Hs')|[Ec E]]; try done.
    + intros b. by eapply block_nonempty, (tf_separated _ _ _ _ _ _ _ Hrep).
    + intros k Hk. by apply (lookup_rank (comparator opts) ok ord same k bs (tf_separated _ _ _ _ _ _ _ Hrep) Hasc Hk).
    + intros b b'. by apply (handle_inj bs contents).
    + unfold skip_fuel. lia.
    + intros b s' Hb Hs'. destruct (shared_reader _ bs b (ti_options it) s' Ht Hb Hs') as (it' & s2 & E & Hit & Hs2). exists (inr it'), s2. split_and!; [done| |done].
      exists it'. split_and!; [done|done|]. by eapply block_ascending.
    + left. unfold shared_block_moves in E. rewrite E. run. eexists p', _, s'. split_and!; [done|reflexivity| |done]. by exists bs.
    + right. unfold shared_block_moves in E. rewrite E. done.
Qed.

Lemma new_table_iter t bs ro : (t, bs) ∈ ts -> exists it, Table_NewIterator t ro = Ret it /\ table_at (entries bs) (length (entries bs)) it.
Proof.
  intros Ht. destruct (Hts _ _ Ht) as (contents & f & Hrep & Hf & Hasc & Hok). unfold Table_NewIterator. destruct (to_index _ _ _ _ _ _ Hok) as (it & -> & Hit). run.
  destruct (new_two (at1 := block_at_pos ok ord) (at2 := block_at_pos ok ord) bs tb_entries index_entry (inr it)) as (w & -> & Hw).
  { exists it. rewrite length_fmap in Hit. split_and!; [done|done|]. by apply (index_sorted snappy opts ok ord same bs contents Hrep). }
  run. eexists. split; [reflexivity|]. by exists bs.
Qed.
End Tables.

Section Scan.
Context (snappy : option snappy_lib) (Hsnappy : forall s, snappy = Some s -> snappy_ok s) (addr : Z) (Haddr : 0 <= addr).
Context (opts : Options) (ok : bytes -> Prop) (ord : bytes -> bytes -> Z) (same : bytes -> bytes -> Prop)
  `{!TableComparatorLaws (comparator opts) ok ord same} (capacity rate : nat) (Hopts : options_ok opts ok same capacity rate).
Context {F C : Type} `{RandomAccessFile F} `{BlockCache C} (holds : C -> bytes -> Block -> Prop) `{!BlockCacheLaws C holds}.
#[local] Instance scan_moves : IterMoves (option C) (TableIterator F) := table_moves snappy addr.

(** C20: a table is a cursor over its entries.  Any sequence of calls of SeekToFirst,
    SeekToLast, Seek, Next and Prev on the iterator of a table that was built from
    sorted entries shows what the same moves of a cursor in the list of entries show:
    the division into blocks, their compression, the separators in the index block
    and the block cache are invisible.  Moving an iterator that is not valid fails
    the same assertion at the same call. *)
Theorem table_refines_cursor es ropts ro cache ops : fits opts ok ord capacity rate es -> reader_options opts ropts -> fresh_id holds cache -> Forall (seeks_ok ok) ops ->
  exists contents, build_table snappy addr opts es = Ret (OK, contents) /\ forall f : F, reads_as f contents ->
    exists t cache' it, Open snappy addr ropts f (Z.of_nat (length contents)) cache = Ret (OK, Some t, cache') /\ Table_NewIterator t ro = Ret it /\
      run_iter ops it cache' = run_cursor ord es ops (length es).
Proof.
  intros Hfits Hro Hfresh Hops. destruct (build_table_rep snappy Hsnappy addr Haddr opts ok ord same capacity rate Hopts es Hfits) as (bs & contents & E & <- & Hrep).
  exists contents. split; [done|]. intros f Hf.
  destruct (open_table snappy addr Haddr opts ok ord same holds bs contents Hrep f Hf ropts cache Hro Hfresh) as (t & cache' & Eo & Ht & Hc).
  assert (forall t' bs', (t', bs') ∈ [(t, bs)] -> opened snappy opts ok ord same t' bs') as Hts.
  { intros t' bs' [= -> ->]%list_elem_of_singleton. exists contents, f. split_and!; [done|done|apply Hfits|done]. }
  destruct (new_table_iter snappy opts ok ord same holds _ Hts t bs ro) as (it & Ei & Hit); [by left|]. exists t, cache', it. split_and!; [done|done|].
  pose proof (table_laws snappy addr Haddr opts ok ord same holds _ Hts) as Hlaws. apply (run_iter_cursor (IteratorLaws0 := Hlaws)); [done| |done].
  split; [by intros ??????? _ [= -> ->]%list_elem_of_singleton [= -> ->]%list_elem_of_singleton|]. by intros t' bs' [= -> ->]%list_elem_of_singleton.
Qed.
End Scan.

Lemma table_refines_cursor_witness :
  exists contents t cache' it, build_table (Some toy_snappy) 0 sample_options sample_table = Ret (OK, contents) /\
    Open (Some toy_snappy) 0 sample_options (Mapped contents) (Z.of_nat (length contents)) (Some ((5, []) : toy_cache)) = Ret (OK, Some t, cache') /\
    Table_NewIterator t (MkReadOptions true true) = Ret it /\
    run_iter (H0 := table_moves (Some toy_snappy) 0) [OpSeek (ikey (str "bat") 5 kValueTypeForSeek); OpPrev; OpPrev; OpLast; OpNext] it cache' =
    Ret [Some (ikey (str "bat") 4 kTypeValue, str "old"); Some (ikey (str "bat") 7 kTypeValue, str "new"); Some (ikey (str "apple") 3 kTypeValue, str "x");
         Some (ikey (str "dog") 2 kTypeValue, zeros 50); None].
Proof.
  destruct (table_refines_cursor (Some toy_snappy) ltac:(intros s [= <-]; apply toy_snappy_ok) 0 ltac:(lia) sample_options internal_good
    (internal_ord BytewiseComparator) same_user 100 12 sample_options_ok (F := mapped) toy_holds sample_table sample_options (MkReadOptions true true) (Some (5, []))
    [OpSeek (ikey (str "bat") 5 kValueTypeForSeek); OpPrev; OpPrev; OpLast; OpNext]) as (contents & Eb & Hopen).
  - split; [|split; [apply Z.ltb_lt; vm_compute; reflexivity|cbn; lia]].
    split; [repeat constructor; apply Nat.leb_le; vm_compute; reflexivity|repeat constructor; vm_compute; reflexivity].
  - split; [done|by right].
  - intros c o blk [= <-] Hh. by apply not_elem_of_nil in Hh.
  - repeat constructor.
  - destruct (Hopen (Mapped contents) (mapped_reads_as (Mapped contents))) as (t & cache' & it & Eo & Ei & Er).
    exists contents, t, cache', it. split; [exact Eb|]. split; [exact Eo|]. split; [exact Ei|]. etransitivity; [exact Er|]. vm_compute. reflexivity.
Defined.
