(* ===== verification/TableCache.v ===== *)
(** * The table cache (util/leveldb/db/table_cache.cc)

    Open tables by file number, in a cache; lookups and iterators through it. *)

From S2P Require Import Prelude Slice Order CLib Bloom Coding DbFormat InternalOrder FileNames Status Files StdSet VersionEdit Version Iterators Block TableFormat FilterBlock Table TableSpec TableGet VersionGet TwoLevel TableIter.
From stdpp Require Import strings.
#[local] Open Scope Z_scope.

(** ** The surroundings *)

(** The cache of open tables ([Cache] with handles): a lookup and an insertion pin the
    table, [th_Release] lets it go. *)
Class TableHandles (HS T : Type) := {
  th_Lookup : bytes -> HS -> option T * HS;
  th_Insert : bytes -> T -> HS -> HS;
  th_Release : bytes -> HS -> HS;
  th_Erase : bytes -> HS -> HS;
}.

(** Opening a file for reading. *)
Class OpenFiles (FS F : Type) := NewRandomAccessFile : bytes -> FS -> Status * option F.

Section Ops.
Context {HS FS F C : Type} `{RandomAccessFile F} `{BlockCache C} `{OpenFiles FS F} `{!TableHandles HS (Table (F := F))}.
Context (snappy : option snappy_lib) (addr : Z) (dbname : bytes) (options : Options).

Record TableCache := MkTableCache { cache_ : HS; block_cache : option C; env_ : FS }.

Definition set_cache (t : TableCache) (s : HS) : TableCache := MkTableCache s (block_cache t) (env_ t).

Definition table_key (file_number : Z) : bytes := EncodeFixed64 true file_number.

(** The file of a table, under its name or under the old one. *)
Definition open_file (file_number : Z) (fs : FS) : outcome (Status * option F) :=
  fname ← TableFileName dbname file_number;
  let '(s, file) := NewRandomAccessFile fname fs in
  if ok s then Ret (s, file)
  else
    old_fname ← SSTTableFileName dbname file_number;
    let '(s2, file) := NewRandomAccessFile old_fname fs in
    Ret (if ok s2 then OK else s, file).

(** The table of the handle, when the status is OK. *)
Definition FindTable (file_number file_size : Z) (t : TableCache) : outcome (Status * option (Table (F := F)) * TableCache) :=
  let key := table_key file_number in
  let '(h, s) := th_Lookup key (cache_ t) in
  let t := set_cache t s in
  match h with
  | Some table => Ret (OK, Some table, t)
  | None =>
      '(s, file) ← open_file file_number (env_ t);
      '(s, table, blocks) ← (if ok s then
                               match file with Some file => Open snappy addr options file file_size (block_cache t) | None => Undef end
                             else Ret (s, None, block_cache t));
      let t := MkTableCache (cache_ t) blocks (env_ t) in
      if ok s then
        match table with
        | Some table => Ret (s, Some table, set_cache t (th_Insert key table (cache_ t)))
        | None => Undef
        end
      else
        match table with None => Ret (s, None, t) | Some _ => Exit 134 end
  end.

(** [inl] is an iterator with an error.  The table stays pinned until the iterator is
    deleted. *)
Definition NewIterator (ro : ReadOptions) (file_number file_size : Z) (t : TableCache) : outcome ((Status + TableIterator F) * TableCache) :=
  '(s, table, t) ← FindTable file_number file_size t;
  if negb (ok s) then Ret (inl s, t)
  else match table with Some table => it ← Table_NewIterator table ro; Ret (inr it, t) | None => Undef end.

Definition Get (ro : ReadOptions) (file_number file_size : Z) (k : bytes) (t : TableCache) : outcome (Status * option (bytes * bytes) * TableCache) :=
  '(s, table, t) ← FindTable file_number file_size t;
  if ok s then
    match table with
    | Some table =>
        '(s, saved, blocks) ← InternalGet snappy addr table ro k (block_cache t);
        Ret (s, saved, MkTableCache (th_Release (table_key file_number) (cache_ t)) blocks (env_ t))
    | None => Undef
    end
  else Ret (s, None, t).

Definition Evict (file_number : Z) (t : TableCache) : TableCache := set_cache t (th_Erase (table_key file_number) (cache_ t)).
End Ops.
Arguments TableCache : clear implicits.

(** ** What the caches promise *)

(** A lookup returns what was inserted under the key and not erased since. *)
Class TableHandlesLaws (HS T : Type) `{TableHandles HS T} (has : HS -> bytes -> T -> Prop) : Prop := {
  hl_lookup k s t s' : th_Lookup k s = (Some t, s') -> has s k t;
  hl_lookup_has k s r s' k' t : th_Lookup k s = (r, s') -> has s' k' t -> has s k' t;
  hl_insert k t s k' t' : has (th_Insert k t s) k' t' -> k' = k /\ t' = t \/ has s k' t';
  hl_release k s k' t : has (th_Release k s) k' t -> has s k' t;
  hl_erase k s k' t : has (th_Erase k s) k' t -> has s k' t;
}.

(** [NewId] returns an id that was not given out before, as long as there are any: an id
    has 64 bits.  [room c n] is a cache that can give out [n] more. *)
Class FreshIds (C : Type) `{BlockCache C} (issued : C -> Z -> Prop) (room : C -> nat -> Prop) : Prop := {
  fi_less c n : room c (S n) -> room c n;
  fi_new c i c' n : room c (S n) -> bc_NewId c = (i, c') -> 0 <= i < 2 ^ 64 /\ ~ issued c i /\ (forall j, issued c' j <-> j = i \/ issued c j) /\ room c' n;
  fi_lookup k c r c' : bc_Lookup k c = (r, c') -> (forall j, issued c' j <-> issued c j) /\ forall n, room c n -> room c' n;
  fi_insert k b z c : (forall j, issued (bc_Insert k b z c) j <-> issued c j) /\ forall n, room c n -> room (bc_Insert k b z c) n;
}.

#[local] Ltac step E x := match type of E with context [mbind _ ?e] => destruct e as [x| |] eqn:?; cbn [mbind outcome_bind] in E; [|done..] end.

Section Frame.
Context {F C : Type} `{RandomAccessFile F} `{BlockCache C} (snappy : option snappy_lib) (addr : Z).

(** How a cache changes. *)
Context (R : C -> C -> Prop).
Definition cache_rel (cache cache' : option C) : Prop := match cache, cache' with Some c, Some c' => R c c' | None, None => True | _, _ => False end.

Context (Hrefl : forall c, R c c) (Htrans : forall a b c, R a b -> R b c -> R a c) (Hlookup : forall k c r c', bc_Lookup k c = (r, c') -> R c c').

Lemma cache_rel_refl cache : cache_rel cache cache.
Proof. destruct cache; cbn; [apply Hrefl|done]. Qed.

Lemma block_reader_rel (t : Table (F := F)) ro h cache it cache' : (forall o b n c, R c (bc_Insert (cache_key (t_cache_id t) o) b n c)) -> BlockReader snappy addr t ro h cache = Ret (it, cache') -> cache_rel cache cache'.
Proof.
  intros Hins E. unfold BlockReader in E. step E p. destruct p as [[s hd] rest]. destruct (if ok s then _ else _) as [[[s1 blk] cache1]| |] eqn:Er; cbn [mbind outcome_bind] in E; [|done..].
  assert (cache_rel cache cache1) as Hr.
  { destruct (ok s); [|injection Er as _ _ <-; apply cache_rel_refl]. unfold read_block_cached in Er. destruct cache as [c|].
    - destruct (bc_Lookup _ c) as [[b|] c1] eqn:El; [injection Er as _ _ <-; cbn; by eapply Hlookup|]. step Er p. destruct p as [s2 ct]. destruct (ok s2).
      + step Er blk1. injection Er as _ _ <-. cbn. destruct (cachable ct && fill_cache ro); [eapply Htrans; [by eapply Hlookup|apply Hins]|by eapply Hlookup].
      + injection Er as _ _ <-. cbn. by eapply Hlookup.
    - step Er p. destruct p as [s2 ct]. destruct (ok s2); [step Er blk1|]; by injection Er as _ _ <-. }
  destruct blk as [blk|]; [step E it1|]; by injection E as _ <-.
Qed.

Lemma internal_get_rel (t : Table (F := F)) ro k cache s saved cache' : (forall o b n c, R c (bc_Insert (cache_key (t_cache_id t) o) b n c)) -> InternalGet snappy addr t ro k cache = Ret (s, saved, cache') -> cache_rel cache cache'.
Proof.
  intros Hins E. unfold InternalGet in E. step E i0. step E i1. destruct (if BI.Valid _ then _ else _) as [[[s1 sv] cache1]| |] eqn:Er; cbn [mbind outcome_bind] in E; [|done..]. injection E as _ _ <-.
  destruct (BI.Valid _); [|injection Er as _ _ <-; apply cache_rel_refl]. step Er hv. step Er excl. destruct excl.
  - injection Er as _ _ <-. apply cache_rel_refl.
  - step Er p. destruct p as [bi cache2]. step Er i2. step Er sv1. injection Er as _ _ <-. by eapply block_reader_rel.
Qed.
End Frame.

(** Opening a table takes an id from the block cache, and nothing else. *)
Lemma open_id {F C} `{RandomAccessFile F} `{BlockCache C} snappy addr ropts (f : F) size (cache : option C) s t cache' : Open snappy addr ropts f size cache = Ret (s, Some t, cache') ->
  match cache with Some c => bc_NewId c = (t_cache_id t, default c cache') /\ cache' <> None | None => cache' = None end.
Proof.
  intros E. unfold Open in E. destruct (size <? kEncodedLength); [step E st; done|]. destruct (raf_Read _ _ f) as [[s1 fi] x]. destruct (ok s1); cbn [negb] in E; [|done]. step E p. destruct p as [[s2 ft] rest].
  destruct (ok s2); cbn [negb] in E; [|done]. step E p. destruct p as [s3 ct]. destruct (ok s3); [|done]. step E blk.
  assert (forall (t0 t1 : Table (F := F)), ReadMeta snappy addr ft t0 = Ret t1 -> t_cache_id t1 = t_cache_id t0) as Hid.
  { intros t0 t1 Em. unfold ReadMeta in Em. destruct (filter_policy (t_options t0)); [|by injection Em as <-]. step Em p. destruct p as [s4 c4]. destruct (ok s4); cbn [negb] in Em; [|by injection Em as <-].
    step Em mb. step Em it0. step Em it1. destruct (BI.Valid it1); [|by injection Em as <-]. step Em k. destruct (slice_eqb k _); [|by injection Em as <-]. step Em v. unfold ReadFilter in Em. step Em p.
    destruct p as [[s5 fh] r5]. destruct (ok s5); cbn [negb] in Em; [|by injection Em as <-]. step Em p. destruct p as [s6 b6]. destruct (ok s6); cbn [negb] in Em; [|by injection Em as <-]. step Em rd. by injection Em as <-. }
  destruct cache as [c|].
  - destruct (bc_NewId c) as [i c1]. step E t1. injection E as _ <- <-. match goal with Hm : ReadMeta _ _ _ _ = Ret t1 |- _ => by rewrite (Hid _ _ Hm) end.
  - step E t1. by injection E as _ _ <-.
Qed.

Section Laws.
Context {HS FS F C : Type} `{RandomAccessFile F} `{BlockCache C} `{OpenFiles FS F} `{!TableHandles HS (Table (F := F))}.
Context (snappy : option snappy_lib) (addr : Z) (Haddr : 0 <= addr) (dbname : bytes).
Context (opts ropts : Options) (c : Comparator) `{!ComparatorLaws c} (same : bytes -> bytes -> Prop) `{!TableComparatorLaws (comparator opts) internal_good (internal_ord c) same} (Hro : reader_options opts ropts).
Context (Hsame : forall k k', internal_good k -> internal_good k' -> cmp_Compare c (ukey k') (ukey k) = 0 -> same k k').
Context (has : HS -> bytes -> Table (F := F) -> Prop) `{!TableHandlesLaws HS (Table (F := F)) has} (holds : C -> bytes -> Block -> Prop) `{!BlockCacheLaws C holds} (issued : C -> Z -> Prop) (room : C -> nat -> Prop) `{!FreshIds C issued room}.
Context (fs : FS) (data : FileMetaData -> list entry).
Abbreviation iord := (internal_ord c).
Abbreviation opened := (opened snappy opts internal_good iord same).
Abbreviation TC := (TableCache HS FS C).

(** The file of the metadata is there, a table of its entries. *)
Record file_known (f : FileMetaData) : Prop := {
  fk_number : 0 < number f < 2 ^ 64;
  fk_table : exists bs contents file, open_file dbname (number f) fs = Ret (OK, Some file) /\ reads_as file contents /\ table_rep snappy opts internal_good iord same bs contents /\
    entries bs = data f /\ ascending internal_good iord (entries bs) /\ file_size f = Z.of_nat (length contents);
}.
Context (Hnumber : forall f g, file_known f -> file_known g -> number f = number g -> data f = data g).

(** Ids of tables come from the block cache, as do those that blocks are cached under. *)
Record ids_ok (ts : list (Table (F := F) * list tblock)) (cache : option C) : Prop := {
  id_tables b t bs : cache = Some b -> (t, bs) ∈ ts -> 0 <= t_cache_id t < 2 ^ 64 /\ issued b (t_cache_id t);
  id_blocks b i o blk : cache = Some b -> 0 <= i < 2 ^ 64 -> holds b (cache_key i o) blk -> issued b i;
}.

(** [ts] are the tables that were opened so far; [n] more can be opened. *)
Record cache_inv (n : nat) (ts : list (Table (F := F) * list tblock)) (t : TC) : Prop := {
  ci_room b : block_cache t = Some b -> room b n;
  ci_env : env_ t = fs;
  ci_opened tb bs : (tb, bs) ∈ ts -> opened tb bs;
  ci_shared : shared_cache holds ts (block_cache t);
  ci_ids : ids_ok ts (block_cache t);
  ci_has k tb : has (cache_ t) k tb -> exists f bs, file_known f /\ k = table_key (number f) /\ (tb, bs) ∈ ts /\ entries bs = data f;
}.

Lemma table_key_inj n m : 0 <= n < 2 ^ 64 -> 0 <= m < 2 ^ 64 -> table_key n = table_key m -> n = m.
Proof. intros Hn Hm E. unfold table_key, EncodeFixed64 in E. apply (f_equal le_combine) in E. by rewrite !le64_roundtrip in E. Qed.

Lemma cache_key_id i j o o' : 0 <= i < 2 ^ 64 -> 0 <= j < 2 ^ 64 -> cache_key i o = cache_key j o' -> i = j.
Proof.
  intros Hi Hj E. unfold cache_key in E. apply app_inj_1 in E as [E _]; [|reflexivity]. unfold EncodeFixed64 in E. apply (f_equal le_combine) in E. by rewrite !le64_roundtrip in E.
Qed.

Lemma new_fresh n ts cache : (forall b, cache = Some b -> room b (S n)) -> ids_ok ts cache -> fresh_id holds cache.
Proof. intros Hroom Hi b o blk -> Hh. destruct (bc_NewId b) as [i b'] eqn:E. destruct (fi_new _ _ _ n (Hroom b eq_refl) E) as (Hr & Hn & _). apply Hn. by eapply (id_blocks _ _ Hi b i o blk). Qed.

(** A table that was just opened joins the others. *)
Lemma join_table n ts t tb bs s file size cache' : cache_inv (S n) ts t -> opened tb bs -> cache_ok holds bs (t_cache_id tb) cache' -> Open snappy addr ropts file size (block_cache t) = Ret (s, Some tb, cache') ->
  shared_cache holds ((tb, bs) :: ts) cache' /\ ids_ok ((tb, bs) :: ts) cache' /\ forall b, cache' = Some b -> room b n.
Proof.
  intros Ht Hop Hok E. pose proof (open_id _ _ _ _ _ _ _ _ _ E) as Hid. destruct (block_cache t) as [b|] eqn:Eb; cycle 1.
  { subst cache'. split_and!; [split; done..|done]. }
  destruct Hid as [Enew Hne]. destruct cache' as [b'|]; [|done]. cbn [default] in Enew. destruct (fi_new _ _ _ n (ci_room _ _ _ Ht b Eb) Enew) as (Hr & Hni & Hiss & Hroom'). pose proof (ci_ids _ _ _ Ht) as Hids. rewrite Eb in Hids. pose proof (ci_shared _ _ _ Ht) as Hsh. rewrite Eb in Hsh.
  assert (forall tb1 bs1, (tb1, bs1) ∈ ts -> forall o o', cache_key (t_cache_id tb1) o <> cache_key (t_cache_id tb) o') as Hapart.
  { intros tb1 bs1 Q1 o o' Ek. destruct (id_tables _ _ Hids b tb1 bs1 eq_refl Q1) as [Hr1 Hi1]. apply cache_key_id in Ek; [|done|done]. by rewrite Ek in Hi1. }
  split_and!; [split|split|by intros b1 [= <-]].
  - intros b1 t1 bs1 t2 bs2 o o' _ [[= -> ->]|Q1]%elem_of_cons [[= -> ->]|Q2]%elem_of_cons Ek; [done|by destruct (Hapart t2 bs2 Q2 o' o (eq_sym Ek))|by destruct (Hapart t1 bs1 Q1 o o' Ek)|]. by apply (sc_apart _ _ _ Hsh b t1 bs1 t2 bs2 o o').
  - intros t1 bs1 [[= -> ->]|Q1]%elem_of_cons; [done|]. intros b1 bl blk [= <-] Hbl Hh. apply (sc_ok _ _ _ Hsh t1 bs1 Q1 b bl blk eq_refl Hbl). by eapply bl_newid.
  - intros b1 t1 bs1 [= <-] [[= -> ->]|Q1]%elem_of_cons; [split; [done|]; apply Hiss; by left|]. destruct (id_tables _ _ Hids b t1 bs1 eq_refl Q1) as [Hr1 Hi1]. split; [done|]. apply Hiss. by right.
  - intros b1 i o blk [= <-] Hi Hh. apply Hiss. right. eapply (id_blocks _ _ Hids b i o blk); [done|done|]. by eapply bl_newid.
Qed.

Lemma find_table_spec n ts t f : cache_inv (S n) ts t -> file_known f ->
  exists ts' tb bs t', FindTable snappy addr dbname ropts (number f) (file_size f) t = Ret (OK, Some tb, t') /\ cache_inv n ts' t' /\ (tb, bs) ∈ ts' /\ entries bs = data f /\
    (block_cache t = None -> block_cache t' = None).
Proof.
  intros Ht Hf. unfold FindTable. destruct (th_Lookup (table_key (number f)) (cache_ t)) as [[tb|] s1] eqn:El.
  - pose proof (hl_lookup _ _ _ _ El) as Hh. destruct (ci_has _ _ _ Ht _ _ Hh) as (g & bs & Hg & Ek & Hin & Ed). apply table_key_inj in Ek; [|pose proof (fk_number _ Hf); lia|pose proof (fk_number _ Hg); lia].
    exists ts, tb, bs, (set_cache t s1). split_and!; [done| |done|by rewrite Ed, (Hnumber f g Hf Hg Ek)|done]. destruct Ht as [Q0 Q1 Q2 Q3 Q4 Q5]. split; cbn; try done; [intros b Eb; by apply fi_less, Q0|]. intros k tb' Hk. apply Q5. by eapply hl_lookup_has.
  - destruct (fk_table _ Hf) as (bs & contents & file & Eo & Hrd & Hrep & Ed & Hasc & Esz). cbn [env_ set_cache]. rewrite (ci_env _ _ _ Ht), Eo. run. change (ok OK) with true. cbn match. cbn [block_cache set_cache]. rewrite Esz.
    destruct (open_table snappy addr Haddr opts internal_good iord same holds bs contents Hrep file Hrd ropts (block_cache t) Hro (new_fresh n _ _ (ci_room _ _ _ Ht) (ci_ids _ _ _ Ht))) as (tb & cache' & E & Hok & Hc). rewrite E. run. change (ok OK) with true. cbn match.
    assert (opened tb bs) as Hop by (by exists contents, file). destruct (join_table n ts t tb bs OK file _ cache' Ht Hop Hc E) as (Hs & Hi & Hm).
    exists ((tb, bs) :: ts), tb, bs. eexists. split; [reflexivity|]. pose proof (open_id _ _ _ _ _ _ _ _ _ E) as Hid. split_and!; [|by left|done|intros Eb; by rewrite Eb in Hid]. destruct Ht as [Q0' Q1' Q2' Q3' Q4' Q5']. split; cbn [env_ cache_ block_cache set_cache]; try done.
    + intros tb1 bs1 [[= -> ->]|Hin]%elem_of_cons; [done|by apply Q2'].
    + intros k tb1 [[-> ->]|Hk]%hl_insert; [exists f, bs; split_and!; [done|done|by left|done]|]. destruct (Q5' k tb1) as (g & bs1 & Hg & Ek & Hin & Ed1); [by eapply hl_lookup_has|]. exists g, bs1. split_and!; [done|done|by right|done].
Qed.

(** What reading through a table of [ts] leaves as it was. *)
Lemma get_keeps n ts t tb bs ro k saved cache' : cache_inv n ts t -> (tb, bs) ∈ ts -> internal_good k -> InternalGet snappy addr tb ro k (block_cache t) = Ret (OK, saved, cache') -> cache_ok holds bs (t_cache_id tb) cache' ->
  shared_cache holds ts cache' /\ ids_ok ts cache' /\ forall b, cache' = Some b -> room b n.
Proof.
  intros Ht Hin Hk E Hok.
  pose proof (internal_get_rel snappy addr (fun b b' => ((forall j, issued b' j <-> issued b j) /\ forall n, room b n -> room b' n) /\ forall k blk, holds b' k blk -> holds b k blk \/ exists o, k = cache_key (t_cache_id tb) o)) as Hrel.
  specialize (Hrel ltac:(intros b; split; [done|by left]) ltac:(intros a b d [[A1 A3] A2] [[B1 B3] B2]; split; [split; [intros j; by rewrite B1|auto]|intros k0 blk [Hb|Hb]%B2; [by apply A2|by right]])
    ltac:(intros k0 b r b' El; split; [by eapply fi_lookup|intros k1 blk Hh; left; by eapply bl_lookup_holds]) tb ro k (block_cache t) OK saved cache'
    ltac:(intros o b z b0; split; [apply fi_insert|intros k0 blk [[-> _]|Hh]%bl_insert; [right; by exists o|by left]]) E).
  destruct (ci_shared _ _ _ Ht) as [Sa So], (ci_ids _ _ _ Ht) as [It Ib]. pose proof (ci_room _ _ _ Ht) as Hr0. unfold cache_rel in Hrel. destruct (block_cache t) as [b|], cache' as [b'|]; try done. destruct Hrel as [[Hiss Hroom] Hholds].
  assert (forall tb1 bs1, (tb1, bs1) ∈ ts -> forall bl blk, bl ∈ bs1 -> holds b' (cache_key (t_cache_id tb1) (TableFormat.offset_ (tb_handle bl))) blk -> opens blk (tb_entries bl)) as Hopens.
  { intros tb1 bs1 Q1 bl blk Hbl Hh. destruct (Hholds _ _ Hh) as [Hold|[o Ek]]; [by apply (So tb1 bs1 Q1 b)|]. destruct (Sa b tb1 bs1 tb bs _ _ eq_refl Q1 Hin Ek) as [Eid ->]. rewrite Eid in Hh. by apply (Hok b' bl). }
  split_and!; [split|split|intros b1 [= <-]; by apply Hroom, Hr0].
  - intros b1 t1 bs1 t2 bs2 o o' _ Q1 Q2 Ek. by apply (Sa b t1 bs1 t2 bs2 o o').
  - intros t1 bs1 Q1 b1 bl blk [= <-]. by apply Hopens.
  - intros b1 t1 bs1 [= <-] Q1. destruct (It b t1 bs1 eq_refl Q1) as [? ?]. split; [done|by apply Hiss].
  - intros b1 i o blk [= <-] Hi Hh. apply Hiss. destruct (Hholds _ _ Hh) as [Hold|[o' Ek]]; [by apply (Ib b i o blk)|]. destruct (It b tb bs eq_refl Hin) as [Hr Hi']. apply cache_key_id in Ek as ->; [done|done|done].
Qed.

Lemma cached_get_spec n f ro k t : file_known f -> internal_good k -> (exists ts, cache_inv (S n) ts t) -> exists saved t', Get snappy addr dbname ropts ro (number f) (file_size f) k t = Ret (OK, saved, t') /\ (exists ts, cache_inv n ts t') /\
  (forall e, saved = Some e -> data f !! rank iord k (data f) = Some e) /\ (forall e, data f !! rank iord k (data f) = Some e -> cmp_Compare c (ukey e.1) (ukey k) = 0 -> saved = Some e).
Proof.
  intros Hf Hk [ts Ht]. unfold Get. destruct (find_table_spec n ts t f Ht Hf) as (ts' & tb & bs & t1 & -> & Ht1 & Hin & Ed & Hnone). run. change (ok OK) with true. cbn match.
  destruct (ci_opened _ _ _ Ht1 tb bs Hin) as (contents & file & Hrep & Hrd & Hasc & Hok).
  destruct (internal_get snappy addr Haddr opts internal_good iord same holds bs contents Hrep file Hrd Hasc tb ro k (block_cache t1) Hok (sc_ok _ _ _ (ci_shared _ _ _ Ht1) tb bs Hin) Hk) as (saved & cache' & E & [G1 G2] & Hc'). rewrite E. run.
  rewrite Ed in G1, G2. exists saved. eexists. split; [reflexivity|]. split_and!; [|done|].
  - exists ts'. destruct (get_keeps n ts' t1 tb bs ro k saved cache' Ht1 Hin Hk E Hc') as (Hs & Hi & Hm). destruct Ht1 as [Q0 Q1 Q2 Q3 Q4 Q5]. split; cbn; try done. intros k1 tb1 Hh%hl_release. by apply Q5.
  - intros e He Hu. apply G2; [done|]. apply Hsame; [done| |done]. rewrite Ed in Hasc. by eapply (ascending_lookup_ok (data f)).
Qed.

(** Lookups through the cache. *)
#[local] Instance cached_lookup : TableLookup TC := Get snappy addr dbname ropts.
#[local] Instance cached_laws : TableLookupLaws TC c (fun n t => exists ts, cache_inv n ts t) file_known data.
Proof.
  split; [|apply cached_get_spec]. intros n t [ts [Q0 Q1 Q2 Q3 Q4 Q5]]. exists ts. split; try done. intros b Eb. by apply fi_less, Q0.
Qed.

(** C13: reads through the table cache see the tables.  For a version whose files are
    tables of their entries on disk, under the new or the old name, Get through the
    table cache and the block cache, whatever they hold from earlier reads, reports what
    the newest entry of the user key at a sequence number says over all the tables of
    the version; caching changes no answer. *)
Theorem cached_get_newest files ro u seq n t : version_data c file_known data files -> 0 <= seq <= kMaxSequenceNumber -> Z.of_nat (length u) + 13 < 2 ^ 32 -> (exists ts, cache_inv (length (concat files) + n)%nat ts t) ->
  exists k o s v st t', LookupKey_new u seq = Ret k /\ Version_Get c files ro k t = Ret (s, v, st, t') /\ (s, v) = reported_value o /\ (exists ts, cache_inv n ts t') /\
    found c (ikey u seq kValueTypeForSeek) (version_entries data files) o.
Proof.
  intros Hv Hs Hu Ht. destruct (lookup_key_spec u seq Hs Hu) as (k & Ek & _ & Hik & Huk).
  destruct (version_get_spec c (fun n t => exists ts, cache_inv n ts t) file_known data files ro k n t Hv) as (o & s & v & st & t' & E & Hr & Ht' & Hf); [rewrite Hik; apply ikey_good|by rewrite Huk, Hik, ukey_ikey|done|].
  rewrite Hik in Hf. by exists k, o, s, v, st, t'.
Qed.

(** Evicting a table is no more than forgetting it. *)
Lemma evict_inv n ts t i : cache_inv n ts t -> cache_inv n ts (Evict i t).
Proof. intros [Q0 Q1 Q2 Q3 Q4 Q5]. split; cbn; try done. intros k tb Hh%hl_erase. by apply Q5. Qed.

(** An iterator over a table of the version. *)
Lemma cached_iter_spec n ts f ro t : cache_inv (S n) ts t -> file_known f ->
  exists ts' it t', NewIterator snappy addr dbname ropts ro (number f) (file_size f) t = Ret (inr it, t') /\ cache_inv n ts' t' /\ table_at internal_good iord ts' (data f) (length (data f)) it /\
    (block_cache t = None -> block_cache t' = None).
Proof.
  intros Ht Hf. unfold NewIterator. destruct (find_table_spec n ts t f Ht Hf) as (ts' & tb & bs & t1 & -> & Ht1 & Hin & Ed & Hnone). run. change (ok OK) with true. cbn [negb].
  destruct (new_table_iter snappy opts internal_good iord same holds ts' (ci_opened _ _ _ Ht1) tb bs ro Hin) as (it & -> & Hit). run. exists ts', it, t1. split_and!; [done|done| |done]. by rewrite <- Ed.
Qed.
End Laws.

(** ** Examples *)

(** Files by name. *)
#[global] Instance named_files : OpenFiles (list (bytes * bytes)) bytes := fun name fs =>
  match list_find (fun e => e.1 = name) fs with
  | Some (_, e) => (OK, Some e.2)
  | None => (not_found, None)
  end.

(** A cache of tables that never evicts. *)
#[global] Instance toy_handles T : TableHandles (list (bytes * T)) T := {|
  th_Lookup k s := (snd ∘ snd <$> list_find (fun e => e.1 = k) s, s);
  th_Insert k t s := (k, t) :: s;
  th_Release k s := s;
  th_Erase k s := filter (fun e => e.1 <> k) s;
|}.

#[global] Instance toy_handles_laws T : TableHandlesLaws (list (bytes * T)) T (fun s k t => (k, t) ∈ s).
Proof.
  split; cbn.
  - intros k s t s' [= E _]. destruct (list_find _ s) as [[i e]|] eqn:Ef; [|done]. injection E as <-. apply list_find_Some in Ef as (He & Hk & _). apply list_elem_of_lookup_2 in He. destruct e. cbn in *. by subst.
  - by intros k s r s' k' t [= _ <-].
  - intros k t s k' t' [[= -> ->]|Hin]%elem_of_cons; [by left|by right].
  - done.
  - by intros k s k' t [_ Hin]%list_elem_of_filter.
Qed.

#[global] Instance toy_fresh : FreshIds toy_cache (fun c i => 0 <= i < c.1) (fun c n => 0 <= c.1 /\ c.1 + Z.of_nat n <= 2 ^ 64).
Proof.
  split; cbn.
  - lia.
  - intros [i0 l] i c' n [H1 H2] [= <- <-]. cbn in *. split_and!; [lia|lia|lia|intros j; lia|lia|lia].
  - by intros k c r c' [= _ <-].
  - done.
Qed.

Lemma sample_table_built n : n = 9 \/ n = 4 -> exists bs contents, build_table (Some toy_snappy) 0 sample_options (sample_data n) = Ret (OK, contents) /\ entries bs = sample_data n /\
  table_rep (Some toy_snappy) sample_options internal_good (internal_ord BytewiseComparator) same_user bs contents.
Proof.
  intros Hn. apply (build_table_rep (Some toy_snappy) ltac:(intros s [= <-]; apply toy_snappy_ok) 0 ltac:(lia) sample_options internal_good (internal_ord BytewiseComparator) same_user 100 12 sample_options_ok).
  destruct Hn as [->| ->]; (split; [|split; [apply Z.ltb_lt; vm_compute; reflexivity|cbn; lia]]);
    (split; [repeat constructor; apply Nat.leb_le; vm_compute; reflexivity|repeat constructor; vm_compute; reflexivity]).
Qed.

(** File 9 has the new name, file 4 the old one. *)
Definition sample_files (c9 c4 : bytes) : list (bytes * bytes) := [(str "db/000004.sst", c4); (str "db/000009.ldb", c9)].

Lemma sample_known bs c9 c4 f : (f = file9 (Z.of_nat (length c9)) /\ entries bs = sample_data 9 /\ table_rep (Some toy_snappy) sample_options internal_good (internal_ord BytewiseComparator) same_user bs c9 \/
    f = file4 (Z.of_nat (length c4)) /\ entries bs = sample_data 4 /\ table_rep (Some toy_snappy) sample_options internal_good (internal_ord BytewiseComparator) same_user bs c4) ->
  file_known (Some toy_snappy) (str "db") sample_options BytewiseComparator same_user (sample_files c9 c4) (fun f => sample_data (number f)) f.
Proof.
  intros [(-> & Ee & Hr)|(-> & Ee & Hr)]; (split; [by vm_compute|]).
  - exists bs, c9, c9. split_and!; [reflexivity|apply bytes_reads_as|done|done| |done]. rewrite Ee. apply (fd_sorted BytewiseComparator (fun f => sample_data (number f)) (file9 0)), (sized_files 0 0 [file9 0]); by left.
  - exists bs, c4, c4. split_and!; [reflexivity|apply bytes_reads_as|done|done| |done]. rewrite Ee. apply (fd_sorted BytewiseComparator (fun f => sample_data (number f)) (file4 0)), (sized_files 0 0 [file4 0]); [right; by left|by left].
Qed.

Lemma sample_same k k' : internal_good k -> internal_good k' -> cmp_Compare BytewiseComparator (ukey k') (ukey k) = 0 -> same_user k k'.
Proof. intros Hk Hk' E. apply slice_compare_eq in E. unfold same_user. by rewrite !extract_ukey, E. Qed.

(** The caches are empty, with ids for three tables left. *)
Lemma cached_get_newest_witness : exists n9 n4 (t0 : TableCache (list (bytes * Table (F := bytes))) (list (bytes * bytes)) toy_cache) k o s v st t', block_cache t0 = Some (2 ^ 64 - 3, []) /\
  LookupKey_new (str "b") 3 = Ret k /\
  Version_Get (H := TableCache.Get (Some toy_snappy) 0 (str "db") sample_options) BytewiseComparator (sized_version n9 n4) (MkReadOptions true true) k t0 = Ret (s, v, st, t') /\ (s, v) = reported_value o /\
  found BytewiseComparator (ikey (str "b") 3 kValueTypeForSeek) (version_entries (fun f => sample_data (number f)) (sized_version n9 n4)) o.
Proof.
  destruct (sample_table_built 9 ltac:(auto)) as (bs9 & c9 & _ & Ee9 & Hr9). destruct (sample_table_built 4 ltac:(auto)) as (bs4 & c4 & _ & Ee4 & Hr4).
  set (t0 := MkTableCache [] (Some (2 ^ 64 - 3, [])) (sample_files c9 c4) : TableCache (list (bytes * Table (F := bytes))) (list (bytes * bytes)) toy_cache).
  destruct (cached_get_newest (Some toy_snappy) 0 ltac:(lia) (str "db") sample_options sample_options BytewiseComparator same_user ltac:(split; [done|by right]) sample_same
    (fun s k t => (k, t) ∈ s) toy_holds (fun c i => 0 <= i < c.1) (fun c n => 0 <= c.1 /\ c.1 + Z.of_nat n <= 2 ^ 64) (sample_files c9 c4) (fun f => sample_data (number f))
    ltac:(by intros f g _ _ E; cbn; rewrite E) (sized_version (Z.of_nat (length c9)) (Z.of_nat (length c4))) (MkReadOptions true true) (str "b") 3 1 t0) as (k & o & s & v & st & t' & Ek & Eg & Er & _ & Hf).
  - apply sized_version_data; [apply (sample_known bs9); left|apply (sample_known bs4); right]; done.
  - by vm_compute.
  - reflexivity.
  - exists []. split; [intros b [= <-]; split; vm_compute; congruence|reflexivity|by intros tb bs ?%not_elem_of_nil| | |by intros k tb ?%not_elem_of_nil].
    + split; [by intros ??????? _ ?%not_elem_of_nil|by intros tb bs ?%not_elem_of_nil].
    + split; [by intros ??? _ ?%not_elem_of_nil|by intros ???? [= <-] _ ?%not_elem_of_nil].
  - exists (Z.of_nat (length c9)), (Z.of_nat (length c4)), t0, k, o, s, v, st, t'. split_and!; done.
Defined.
