(* ===== verification/MemIter.v ===== *)
(** * The iterator of a memtable (util/leveldb/db/memtable.cc)

    A position in the skip list; it goes through the entries of the memtable in the order
    of their internal keys.  The memtable does not change while the iterator is in use. *)

From S2P Require Import Prelude Slice Order Coding DbFormat InternalOrder FileNames Status SkipList WriteBatch MemTable Iterators FilterBlock TableGet.
#[local] Open Scope Z_scope.

Record MemTableIterator := MkMemIter { mi_table : MemTable; mi_node : option nat }.

Definition MemTable_NewIterator (m : MemTable) : MemTableIterator := MkMemIter m Iterator_new.

#[export] Instance mem_view : IterView MemTableIterator := {|
  it_Valid it := Iterator_Valid (mi_node it);
  it_key it := MemIter_key (mi_table it) (mi_node it);
  it_value it := MemIter_value (mi_table it) (mi_node it);
  it_status _ := Ret OK;
|}.

Definition mem_op (c : Comparator) (op : iter_op) (m : MemTable) (node : option nat) : outcome (option nat) :=
  match op with
  | OpFirst => MemIter_SeekToFirst m
  | OpLast => MemIter_SeekToLast m
  | OpSeek k => MemIter_Seek c m k
  | OpNext => MemIter_Next m node
  | OpPrev => MemIter_Prev c m node
  end.

Definition mem_moves {W} (c : Comparator) : IterMoves W MemTableIterator := fun op it s =>
  node ← mem_op c op (mi_table it) (mi_node it); Ret (MkMemIter (mi_table it) node, s).

(** The internal keys of a database. *)
Definition db_key (k : bytes) : Prop := exists uk seq t, k = ikey uk seq t /\ valid_tag seq t /\ Z.of_nat (length uk) + 13 < 2 ^ 32.

Lemma db_key_good k : db_key k -> internal_good k.
Proof. intros (uk & seq & t & -> & _). unfold internal_good. rewrite ikey_length. lia. Qed.

#[export] Instance db_key_order c `{!ComparatorLaws c} : KeyOrder db_key (internal_ord c).
Proof. split; [intros a b Ha Hb; by apply ko_antisym; apply db_key_good|]. intros a b d Ha Hb Hd. by apply ko_trans; apply db_key_good. Qed.

Definition mem_pair (e : mem_entry) : entry := (ikey (e_key e) (e_seq e) (e_type e), e_value e).

Section Laws.
Context {W : Type} (c : Comparator) `{!ComparatorLaws c} (good : W -> Prop).
#[local] Instance memtable_moves : IterMoves W MemTableIterator := mem_moves c.

Abbreviation mem_sl := (sl_rep key_ok (key_ord c)).
Abbreviation on_keys lemma := (lemma (KeyCompare c) key_ok (key_ord c) (key_compare_ord c) (key_ord_antisym c) (key_ord_trans c)).

(** The iterator over the memtable with the entries [es] is at position [p]. *)
Definition mem_at (es : list entry) (p : nat) (it : MemTableIterator) : Prop :=
  exists l mes, mem_sl (table_ (mi_table it)) l /\ l.*2 = encode_entry <$> mes /\ Forall entry_ok mes /\ es = mem_pair <$> mes /\
    (p <= length es)%nat /\ mi_node it = fst <$> l !! p.

Lemma encode_key_put k : Z.of_nat (length k) < 2 ^ 32 -> EncodeKey k = PutLengthPrefixedSlice [] k ++ [].
Proof. intros Hk. rewrite app_nil_r. done. Qed.

Lemma pair_ord e k : entry_ok e -> db_key k -> key_ok (EncodeKey k) /\ key_ord c (encode_entry e) (EncodeKey k) = internal_ord c (mem_pair e).1 k.
Proof.
  intros (H1 & H2 & H3) (uk & seq & t & -> & Hv & Hl). rewrite encode_key_put by (rewrite ikey_length; lia). split; [by exists uk, seq, t, []|].
  unfold key_ord, encode_entry. rewrite key_compare_put by done. unfold internal_ord. cbn [mem_pair fst]. by rewrite internal_compare_ikey.
Qed.

(** The node that a backward move leads to. *)
Lemma node_before s l A B : mem_sl s l -> l = A ++ B ->
  (if (lastid head_ A =? head_)%nat then None else Some (lastid head_ A)) = fst <$> l !! match length A with O => length l | S m => m end.
Proof.
  intros Hrep El. destruct A as [|e A _] using rev_ind; [cbn; by rewrite lookup_ge_None_2|]. rewrite lastid_app, length_app, Nat.add_1_r.
  rewrite El, <- app_assoc, lookup_app_r, Nat.sub_diag by lia. pose proof (rep_nodup _ _ _ _ Hrep) as [Hh _]%NoDup_cons.
  replace (e.1 =? head_)%nat with false; [done|]. symmetry. apply Nat.eqb_neq. intros E. apply Hh. rewrite <- E. apply list_elem_of_fmap_2. rewrite El. set_solver.
Qed.

Lemma mem_split (l : list (nat * bytes)) p e : l !! p = Some e -> l = take p l ++ e :: drop (S p) l /\ length (take p l) = p.
Proof. intros He. split; [by rewrite take_drop_middle|]. apply length_take_le. apply lookup_lt_Some in He. lia. Qed.

(** Where a seek stops. *)
Lemma mem_seek_rank (a b : list (nat * bytes)) mes k : (a ++ b).*2 = encode_entry <$> mes -> Forall entry_ok mes -> db_key k ->
  Forall (fun e => key_ord c e.2 (EncodeKey k) < 0) a -> Forall (fun e => ~ key_ord c e.2 (EncodeKey k) < 0) b ->
  rank (internal_ord c) k (mem_pair <$> mes) = length a.
Proof.
  intros El Hok Hk Ha Hb. rewrite fmap_app in El. symmetry in El. apply fmap_app_inv in El as (ma & mb & Ea & Eb & ->). apply Forall_app in Hok as [Hoka Hokb].
  assert (forall (l : list (nat * bytes)) ms, l.*2 = encode_entry <$> ms -> forall (P : Z -> Prop), Forall entry_ok ms -> Forall (fun e => P (key_ord c e.2 (EncodeKey k))) l ->
    Forall (fun e => P (internal_ord c e.1 k)) (mem_pair <$> ms)) as Htr.
  { intros l ms E P Hms Hl. apply Forall_fmap. rewrite <- (Forall_fmap snd (fun x => P (key_ord c x (EncodeKey k)))), E, Forall_fmap in Hl.
    eapply Forall_impl; [apply Forall_and; split; [exact Hms|exact Hl]|]. intros e [He Hp]. change (P (internal_ord c (mem_pair e).1 k)). by rewrite <- (proj2 (pair_ord e k He Hk)). }
  rewrite fmap_app, rank_app, rank_all, rank_none, Nat.add_0_r.
  - rewrite length_fmap. apply (f_equal length) in Ea. by rewrite !length_fmap in Ea.
  - apply (Htr b mb Eb (fun z => ~ z < 0)); done.
  - apply (Htr a ma Ea (fun z => z < 0)); done.
Qed.

Lemma mem_move es p it op : mem_at es p it -> seeks_ok db_key op ->
  (exists p' node, cursor_op (internal_ord c) es op p = Ret p' /\ mem_op c op (mi_table it) (mi_node it) = Ret node /\ mem_at es p' (MkMemIter (mi_table it) node)) \/
  cursor_op (internal_ord c) es op p = Exit 134 /\ mem_op c op (mi_table it) (mi_node it) = Exit 134.
Proof.
  intros (l & mes & Hrep & El & Hok & -> & Hp & Hn) Hop. rewrite length_fmap in Hp. assert (length l = length mes) as Hlen by (apply (f_equal length) in El; by rewrite !length_fmap in El).
  assert (forall p', (p' <= length mes)%nat -> mem_at (mem_pair <$> mes) p' (MkMemIter (mi_table it) (fst <$> l !! p'))) as Hat.
  { intros p' Hp'. exists l, mes. split_and!; try done. by rewrite length_fmap. }
  unfold cursor_op. rewrite length_fmap. destruct op as [| |k| |]; cbn [mem_op].
  - left. exists 0%nat, (fst <$> l !! 0%nat). split_and!; [done| |apply Hat; lia]. unfold MemIter_SeekToFirst, Iterator_SeekToFirst.
    rewrite (on_keys (@next0 bytes) _ l [] l Hrep eq_refl : Next _ head_ 0 = _). by destruct l.
  - left. exists (pred (length mes)), (fst <$> l !! pred (length mes)). split_and!; [done| |apply Hat; lia]. unfold MemIter_SeekToLast, Iterator_SeekToLast.
    rewrite (on_keys (@find_last_spec bytes) _ l Hrep). run. rewrite (node_before _ l l [] Hrep) by (by rewrite app_nil_r). rewrite Hlen. by destruct (length mes).
  - left. unfold MemIter_Seek, Iterator_Seek. pose proof Hop as (uk & seq & t & Ek & Hv & Hl).
    assert (key_ok (EncodeKey k)) as Hkk by (rewrite Ek, encode_key_put by (rewrite ikey_length; lia); by exists uk, seq, t, []).
    destruct (on_keys (@fge_spec bytes) _ l Hrep (EncodeKey k) None Hkk) as (a & b & prev & -> & E & Ha & Hb & _); [by intros q [=]|].
    run. rewrite E in El. rewrite (mem_seek_rank a b mes k El Hok Hop Ha Hb). eexists _, _. split_and!; [reflexivity|reflexivity|].
    assert (fst <$> head b = fst <$> l !! length a) as -> by (rewrite E, lookup_app_r, Nat.sub_diag by lia; by destruct b). apply Hat. rewrite <- Hlen, E, length_app. lia.
  - unfold MemIter_Next, Iterator_Next. rewrite Hn. destruct (Nat.ltb_spec p (length mes)) as [Hlt|Hge].
    + left. destruct (lookup_lt_is_Some_2 l p) as [e He]; [lia|]. rewrite He. cbn [fmap option_fmap option_map]. destruct (mem_split l p e He) as [Es Ep].
      pose proof (on_keys (@next0 bytes) _ l (take p l ++ [e]) (drop (S p) l) Hrep ltac:(by rewrite <- app_assoc)) as Hnx. rewrite lastid_app in Hnx. rewrite Hnx.
      eexists _, _. split_and!; [reflexivity|reflexivity|]. rewrite head_lookup, lookup_drop, Nat.add_0_r. apply Hat. lia.
    + right. by rewrite lookup_ge_None_2 by lia.
  - unfold MemIter_Prev. rewrite Hn. destruct (Nat.ltb_spec p (length mes)) as [Hlt|Hge].
    + left. destruct (lookup_lt_is_Some_2 l p) as [e He]; [lia|]. rewrite He. cbn [fmap option_fmap option_map]. destruct (mem_split l p e He) as [Es Ep].
      rewrite (on_keys (@prev_spec bytes) _ l (take p l) e (drop (S p) l) Hrep Es).
      eexists _, _. split_and!; [reflexivity|reflexivity|]. rewrite (node_before _ l (take p l) (e :: drop (S p) l) Hrep Es), Ep, Hlen. apply Hat. destruct p; lia.
    + right. by rewrite lookup_ge_None_2 by lia.
Qed.

#[export] Instance mem_laws : IteratorLaws db_key (internal_ord c) good mem_at.
Proof.
  assert (forall es p it, mem_at es p it -> it_Valid it = (p <? length es)%nat /\ forall e, es !! p = Some e -> it_key it = Ret e.1 /\ it_value it = Ret e.2) as Hview.
  { intros es p it (l & mes & Hrep & El & Hok & -> & Hp & Hn). cbn [it_Valid it_key it_value mem_view]. rewrite Hn. assert (length l = length mes) as Hlen by (apply (f_equal length) in El; by rewrite !length_fmap in El).
    rewrite length_fmap. split.
    - unfold Iterator_Valid. destruct (Nat.ltb_spec p (length mes)); [|rewrite lookup_ge_None_2 by lia; by apply bool_decide_eq_false_2; intros []]. destruct (lookup_lt_is_Some_2 l p) as [e ->]; [lia|]. done.
    - intros e He. rewrite list_lookup_fmap in He. destruct (mes !! p) as [me|] eqn:Hme; [|done]. injection He as <-.
      assert (l.*2 !! p = Some (encode_entry me)) as Hl by (by rewrite El, list_lookup_fmap, Hme). rewrite list_lookup_fmap in Hl. destruct (l !! p) as [[n b]|] eqn:Hb; [|done].
      injection Hl as ->. destruct (proj1 (Forall_lookup _ _) Hok p me Hme) as (H1 & H2 & H3). unfold MemIter_key, MemIter_value. cbn [fmap option_fmap option_map Iterator_key fst].
      destruct (rep_entry _ _ _ _ Hrep (n, encode_entry me)) as (Eg & _); [by eapply list_elem_of_lookup_2|]. cbn [fst snd] in Eg. rewrite Eg. run. unfold encode_entry. cbn [snd].
      rewrite mem_slice_put by (rewrite ikey_length; lia). run. rewrite <- (app_nil_r (PutLengthPrefixedSlice [] (e_value me))), mem_slice_put by done. done. }
  split.
  - intros es p it Hit. by apply Hview.
  - intros es p it e Hit He. by apply (Hview es p it Hit).
  - done.
  - intros es p it s op Hit Hs Hop. unfold it_move, memtable_moves, mem_moves. destruct (mem_move es p it op Hit Hop) as [(p' & node & E & -> & Hit')|[E ->]]; [left|by right].
    run. by eexists p', _, s.
Qed.

(** A new iterator over a memtable. *)
Lemma new_mem_iter m mes : mem_rep c m mes -> mem_at (mem_pair <$> mes) (length (mem_pair <$> mes)) (MemTable_NewIterator m).
Proof.
  intros [(l & Hrep & El) Hok]. exists l, mes. split_and!; try done. cbn. apply (f_equal length) in El. rewrite !length_fmap in El. by rewrite length_fmap, lookup_ge_None_2 by lia.
Qed.

Lemma mem_ascending m mes : mem_rep c m mes -> ascending db_key (internal_ord c) (mem_pair <$> mes).
Proof.
  intros Hm. pose proof (mem_sorted c m mes Hm) as Hs. destruct Hm as [_ Hok]. split.
  - rewrite <- list_fmap_compose. apply Forall_fmap. eapply Forall_impl; [exact Hok|]. intros e (H1 & H2 & H3). by exists (e_key e), (e_seq e), (e_type e).
  - clear -Hs Hok ComparatorLaws0. induction Hs as [|e mes _ IH Hf]; [constructor|]. apply Forall_cons in Hok as [He Hok]. cbn. constructor; [by apply IH|].
    apply Forall_fmap. apply Forall_forall. intros e' Hin. pose proof (proj1 (Forall_forall _ _) Hf e' Hin) as Hlt. pose proof (proj1 (Forall_forall _ _) Hok e' Hin) as He'.
    cbn. unfold internal_ord. rewrite internal_compare_ikey; [done|apply He|apply He'].
Qed.
End Laws.
