(* ===== verification/FlushTable.v ===== *)
(** * Writing a memtable to a table file (util/leveldb/db/builder.cc; db/db_impl.cc, [WriteLevel0Table])

    The table of the entries of an iterator, and its place in a version. *)

From S2P Require Import Prelude Slice Order CLib Bloom Coding DbFormat InternalOrder FileNames Status Files SkipList MemTable StdSet VersionEdit Version VersionBuilder LogFormat VersionSet Iterators Block TableFormat FilterBlock Table TableSpec TableGet VersionGet Compaction DbCompact CompactionRun MemIter.
From stdpp Require Import strings sorting.
#[local] Open Scope Z_scope.

(** Files are deleted without looking at the result. *)
Class FlushEnv (W : Type) := fe_DeleteFile : bytes -> W -> W.

Section Ops.
Context {W F I : Type} `{CompactionEnv W F} `{FlushEnv W} `{IterView I} `{IterMoves W I} (snappy : option snappy_lib) (addr : Z) (options : Options) (dbname : bytes).

(** The loop over the entries: [largest] is the key of the last one. *)
Fixpoint build_loop (fuel : nat) (iter : I) (largest : bytes) (builder : TB.Rep F) (w : W) : outcome (I * bytes * TB.Rep F * W) :=
  match fuel with
  | O => Undef
  | S fuel' =>
      if it_Valid iter then
        key ← it_key iter;
        value ← it_value iter;
        builder ← TB.Add snappy addr key value builder;
        '(iter, w) ← it_move OpNext iter w;
        build_loop fuel' iter (InternalKey_DecodeFrom key) builder w
      else Ret (iter, largest, builder, w)
  end.

(** The part after the file was created: the table is written, synced and tried. *)
Definition write_table (fuel : nat) (fname : bytes) (number : Z) (iter : I) (file : F) (w : W) : outcome (Status * I * FileMetaData * W) :=
  builder ← TB.new options file;
  smallest ← it_key iter;
  '(iter, largest, builder, w) ← build_loop fuel iter [] builder w;
  '(s, builder) ← TB.Finish snappy addr builder;
  size ← (if ok s then assert! (0 <? TB.FileSize builder); Ret (TB.FileSize builder) else Ret 0);
  let '(s, w) := if ok s then ce_Sync fname (TB.file builder) w else (s, w) in
  let '(s, w) := if ok s then ce_Close fname (TB.file builder) w else (s, w) in
  '(s, w) ← (if ok s then ce_Usable number size w else Ret (s, w));
  Ret (s, iter, MkFile number size (InternalKey_DecodeFrom smallest) largest, w).

Definition BuildTable (fuel : nat) (number : Z) (iter : I) (w : W) : outcome (Status * FileMetaData * W) :=
  '(iter, w) ← it_move OpFirst iter w;
  fname ← TableFileName dbname number;
  let after := fun (s : Status) (iter : I) (meta : FileMetaData) (w : W) =>
    status ← it_status iter;
    let s := if ok status then s else status in
    Ret (s, meta, if ok s && (0 <? file_size meta) then w else fe_DeleteFile fname w) in
  if it_Valid iter then
    let '(s, file, w) := ce_NewWritableFile fname w in
    if negb (ok s) then Ret (s, MkFile number 0 [] [], w)
    else
      match file with
      | None => Undef
      | Some file => '(s, iter, meta, w) ← write_table fuel fname number iter file w; after s iter meta w
      end
  else after OK iter (MkFile number 0 [] []) w.
End Ops.

(** [WriteLevel0Table]; [base] is the version whose levels the file may go below. *)
Definition WriteLevel0Table {W F} `{CompactionEnv W F} `{FlushEnv W} (c : Comparator) (snappy : option snappy_lib) (addr : Z) (options : Options) (dbname : bytes)
    (fuel : nat) (mem : MemTable) (edit : VE.VersionEdit) (base : option (list (list FileMetaData))) (w : W) : outcome (Status * VE.VersionEdit * W) :=
  let '(number, w) := ce_NewFileNumber w in
  let w := ce_pending_insert number w in
  '(s, meta, w) ← BuildTable (H3 := mem_moves c) snappy addr options dbname fuel number (MemTable_NewIterator mem) w;
  let w := ce_pending_erase number w in
  if ok s && (0 <? file_size meta) then
    min_user_key ← InternalKey_user_key (smallest meta);
    max_user_key ← InternalKey_user_key (largest meta);
    level ← match base with Some files => PickLevelForMemTableOutput c files min_user_key max_user_key | None => Ret 0 end;
    Ret (s, VE.AddFile level number (file_size meta) (smallest meta) (largest meta) edit, w)
  else Ret (s, edit, w).

(** ** What is written *)

Class FlushEnvLaws (W : Type) `{!CompactionEnv W bytes} `{FlushEnv W} (good : W -> Prop) (closed : W -> list (bytes * bytes)) : Prop := {
  fl_delete w name : good w -> good (fe_DeleteFile name w) /\ closed (fe_DeleteFile name w) = closed w;
  fl_erase w n : good w -> good (ce_pending_erase n w) /\ closed (ce_pending_erase n w) = closed w;
}.

Section Written.
Context {W I : Type} `{!CompactionEnv W bytes} `{FlushEnv W} `{IterView I} `{IterMoves W I}.
Context (snappy : option snappy_lib) (Hsnappy : forall s, snappy = Some s -> snappy_ok s) (addr : Z) (Haddr : 0 <= addr).
Context (options : Options) (ok : bytes -> Prop) (ord : bytes -> bytes -> Z) (same : bytes -> bytes -> Prop) `{!TableComparatorLaws (comparator options) ok ord same} (capacity rate : nat)
  (Hopts : options_ok options ok same capacity rate) (dbname : bytes).
Context (good : W -> Prop) (closed : W -> list (bytes * bytes)) `{!CompactionEnvLaws W good closed} `{!FlushEnvLaws W good closed}.
Context (iok : bytes -> Prop) (at_ : list entry -> nat -> I -> Prop) `{!IteratorLaws iok ord good at_} (Hmoves : forall op it w it' w', it_move op it w = Ret (it', w') -> closed w' = closed w).
Abbreviation fits := (fits options ok ord capacity rate).
Abbreviation built := (built snappy addr options).

Lemma build_loop_spec es : fits es -> forall fuel p it lk b w, (length es - p < fuel)%nat -> (p <= length es)%nat -> at_ es p it -> good w -> built (take p es) b -> (lk = match last (take p es) with Some e => e.1 | None => [] end) ->
  exists it' b' w', build_loop snappy addr fuel it lk b w = Ret (it', match last es with Some e => e.1 | None => [] end, b', w') /\ at_ es (length es) it' /\ good w' /\ closed w' = closed w /\ built es b'.
Proof.
  intros Hfits. induction fuel as [|fuel IH]; intros p it lk b w Hfuel Hp Hat Hw Hb Elk; [lia|]. cbn [build_loop]. rewrite (il_valid _ _ _ Hat). destruct (Nat.ltb_spec p (length es)) as [Hlt|Hge].
  - destruct (lookup_lt_is_Some_2 es p Hlt) as [e He]. destruct (il_entry _ _ _ _ Hat He) as [-> ->]. run.
    assert (take (S p) es = take p es ++ [e]) as Et by (by apply take_S_r).
    destruct (built_add snappy Hsnappy addr Haddr options ok ord same capacity rate Hopts (take p es) e b) as (b' & -> & Hb'); [|done|].
    { apply (fits_sublist _ _ _ _ _ _ es); [|done]. rewrite <- Et. rewrite <- (take_drop (S p) es) at 2. by apply sublist_inserts_r. }
    run. destruct (il_move es p it w OpNext Hat Hw Logic.I) as [(p' & it' & w' & Ec & Em & Hat' & Hw')|[Ec _]]; cbn [cursor_op] in Ec; rewrite (proj2 (Nat.ltb_lt _ _) Hlt) in Ec; [|done]. injection Ec as <-. rewrite Em. run.
    destruct (IH (S p) it' (InternalKey_DecodeFrom e.1) b' w') as (it2 & b2 & w2 & E2 & Q1 & Q2 & Q3 & Q4); [lia|lia|done|done|by rewrite Et|by rewrite Et, last_snoc|].
    exists it2, b2, w2. split_and!; [done|done|done|by rewrite Q3, (Hmoves _ _ _ _ _ Em)|done].
  - rewrite take_ge in * by lia. assert (p = length es) as -> by lia. exists it, b, w. by rewrite Elk.
Qed.

Lemma write_table_spec es fuel fname number it w : fits es -> es <> [] -> (length es < fuel)%nat -> at_ es 0 it -> good w ->
  exists it' contents w', write_table snappy addr options fuel fname number it [] w = Ret (OK, it', MkFile number (Z.of_nat (length contents)) (default [] (fst <$> head es)) (default [] (fst <$> last es)), w') /\
    at_ es (length es) it' /\ good w' /\ build_table snappy addr options es = Ret (OK, contents) /\ closed w' = closed w ++ [(fname, contents)] /\ 0 < Z.of_nat (length contents).
Proof.
  intros Hfits Hne Hfuel Hat Hw. unfold write_table. destruct (built_new snappy addr options ok ord same capacity rate Hopts) as (b & -> & Hb). run.
  destruct es as [|e es']; [done|]. set (es := e :: es') in *. destruct (il_entry es 0%nat it e Hat eq_refl) as [-> _]. run.
  destruct (build_loop_spec es Hfits fuel 0 it [] b w) as (it' & b' & w' & -> & Hat' & Hw' & Hc' & Hb'); [lia|lia|done|done|done|done|]. run.
  destruct (built_finish snappy Hsnappy addr Haddr options ok ord same capacity rate Hopts es b' Hfits Hb') as (r & -> & Ebt & Esz & Hpos). run.
  change (Status.ok OK) with true. cbn match. rewrite Esz, (proj2 (Z.ltb_lt _ _) Hpos). run.
  destruct (cl_sync w' fname (TB.file r) Hw') as (w1 & -> & Hw1 & Hc1). change (Status.ok OK) with true. cbn match.
  destruct (cl_close w1 fname (TB.file r) Hw1) as (w2 & -> & Hw2 & Hc2). change (Status.ok OK) with true. cbn match.
  destruct (cl_usable w2 number (Z.of_nat (length (TB.file r))) Hw2) as (w3 & E3 & Hw3 & Hc3). change (Status.ok OK) with true. cbn match. rewrite E3. run.
  exists it', (TB.file r), w3. split_and!; [|done|done|done|by rewrite Hc3, Hc2, Hc1, Hc'|done]. cbn. f_equal. f_equal. f_equal. by destruct (last es).
Qed.

Lemma build_spec_some es fuel number p it w : fits es -> es <> [] -> (length es < fuel)%nat -> 0 < number -> at_ es p it -> good w ->
  exists fname contents w', BuildTable snappy addr options dbname fuel number it w = Ret (OK, MkFile number (Z.of_nat (length contents)) (default [] (fst <$> head es)) (default [] (fst <$> last es)), w') /\
    TableFileName dbname number = Ret fname /\ good w' /\ build_table snappy addr options es = Ret (OK, contents) /\ closed w' = closed w ++ [(fname, contents)] /\ 0 < Z.of_nat (length contents).
Proof.
  intros Hfits Hne Hfuel Hn Hat Hw. unfold BuildTable. destruct (il_move es p it w OpFirst Hat Hw Logic.I) as [(p0 & it1 & w1 & [= <-] & Emv & Hat1 & Hw1)|[? _]]; [|done]. rewrite Emv. run.
  destruct (table_name dbname number Hn) as (fname & En). rewrite En. run. rewrite (il_valid _ _ _ Hat1). destruct (Nat.ltb_spec 0 (length es)); [|destruct es; cbn in *; [done|lia]].
  destruct (cl_open w1 fname Hw1) as (w2 & -> & Hw2 & Hc2). change (Status.ok OK) with true. cbn [negb].
  destruct (write_table_spec es fuel fname number it1 w2 Hfits Hne Hfuel Hat1 Hw2) as (it2 & contents & w3 & -> & Hat2 & Hw3 & Ebt & Hc3 & Hpos). run. rewrite (il_status _ _ _ Hat2). run. change (Status.ok OK) with true. cbn [andb file_size].
  rewrite (proj2 (Z.ltb_lt _ _) Hpos). exists fname, contents, w3. split_and!; try done. by rewrite Hc3, Hc2, (Hmoves _ _ _ _ _ Emv).
Qed.

(** No entries, no file. *)
Lemma build_spec_none fuel number p it w : 0 < number -> at_ [] p it -> good w ->
  exists fname w', BuildTable snappy addr options dbname fuel number it w = Ret (OK, MkFile number 0 [] [], fe_DeleteFile fname w') /\ TableFileName dbname number = Ret fname /\ good w' /\ closed w' = closed w.
Proof.
  intros Hn Hat Hw. unfold BuildTable. destruct (il_move [] p it w OpFirst Hat Hw Logic.I) as [(p0 & it1 & w1 & [= <-] & Emv & Hat1 & Hw1)|[? _]]; [|done]. rewrite Emv. run.
  destruct (table_name dbname number Hn) as (fname & En). rewrite En. run. rewrite (il_valid _ _ _ Hat1). cbn [length Nat.ltb Nat.leb]. rewrite (il_status _ _ _ Hat1). run. exists fname, w1.
  split_and!; [done|done|done|by apply (Hmoves _ _ _ _ _ Emv)].
Qed.
End Written.

(** ** The new file in the version *)

Lemma strongly_sorted_pairs {A} (R : A -> A -> Prop) l x y : StronglySorted R l -> x ∈ l -> y ∈ l -> x = y \/ R x y \/ R y x.
Proof.
  intros Hs. induction Hs as [|a l _ IH Ha]; [by intros ?%not_elem_of_nil|]. rewrite Forall_forall in Ha.
  intros [->|Hx]%elem_of_cons [->|Hy]%elem_of_cons; [by left|right; left; by apply Ha|right; right; by apply Ha|by apply IH].
Qed.

Lemma version_entries_elem (data : FileMetaData -> list entry) x fs : x ∈ version_entries data fs <-> exists i l g, fs !! i = Some l /\ g ∈ l /\ x ∈ data g.
Proof.
  unfold version_entries. rewrite list_elem_of_In, in_concat. split.
  - intros (ld & Hl%list_elem_of_In & Hx%list_elem_of_In). apply list_elem_of_fmap in Hl as (l & -> & [i Hl]%list_elem_of_lookup). apply level_data_elem in Hx as (g & Hg & Hx). eauto 6.
  - intros (i & l & g & Hl & Hg & Hx). exists (level_data data l). rewrite <- !list_elem_of_In. split; [apply list_elem_of_fmap_2; by eapply list_elem_of_lookup_2|]. apply level_data_elem. eauto.
Qed.

Section Place.
Context (c : Comparator) `{!ComparatorLaws c} (known : FileMetaData -> Prop) (data : FileMetaData -> list entry).
Context (files : list (list FileMetaData)) (Hdata : version_data c known data files) (Hcan : canonical c files).
Context (f : FileMetaData) (lv : Z) (Hknown : known f) (Hf : file_data c data f) (Hlv : level_ok lv).
Context (Hnums : forall l, l ∈ files -> NoDup (number <$> l)) (Hfresh : forall l g, l ∈ files -> g ∈ l -> number g < number f) (Hnew : forall l g, l ∈ files -> g ∈ l -> newer c (data f) (data g)).
Context (Hclear : 0 < lv -> clear_to c files (start f) (limit f) lv) (Hroom : forall l, l ∈ files -> Z.of_nat (length l) + 1 < 2 ^ 31).
Context (e : VE.VersionEdit) (Eptr : VE.compact_pointers_ e = []) (Edel : VE.deleted_files_ e = []) (Eadd : VE.new_files_ e = [(lv, f)]).
Abbreviation iord := (internal_ord c).

Lemma placed_adds i : adds e i = if decide (lv = Z.of_nat i) then [f] else [].
Proof. unfold adds. rewrite Eadd. destruct (decide (lv = Z.of_nat i)); [rewrite filter_cons_True|rewrite filter_cons_False]; done. Qed.

Lemma placed_level i l : edit_level e i l = l ++ adds e i.
Proof. unfold edit_level, dels. rewrite Edel. cbn. by rewrite filter_all by set_solver. Qed.

(** Files whose ranges do not meet are apart. *)
Lemma outside_apart g : file_ok c g -> overlaps c (Some (start f)) (Some (limit f)) g = false -> apart c g f \/ apart c f g.
Proof.
  intros Hg Ho. pose proof (fd_ok _ _ _ Hf) as Hfo. unfold overlaps in Ho. apply andb_false_iff in Ho as [Ho|Ho]; apply Z.leb_gt in Ho; [left|right]; unfold apart; apply user_lt_internal; try (by apply valid_key_good; first [apply Hg|apply Hfo]).
  - fold (limit g) (start f). pose proof (cmp_antisym (c := c) (limit g) (start f)). lia.
  - fold (limit f) (start g). pose proof (cmp_antisym (c := c) (limit f) (start g)). lia.
Qed.

Lemma sorted_pairwise l : level_sorted c l -> pairwise_apart c l.
Proof. intros (_ & Hs & _) g h Hg Hh Hne. by destruct (strongly_sorted_pairs _ l g h Hs Hg Hh) as [->|]. Qed.

Lemma level_mem i l : files !! i = Some l -> l ∈ files.
Proof. apply list_elem_of_lookup_2. Qed.

Lemma placed_ok : edits_ok c files [e].
Proof.
  pose proof (vd_ok _ _ _ _ Hdata) as Hv. split; [apply Hv|done| | |].
  - apply Forall_singleton. split; [by rewrite Eptr|by rewrite Edel|rewrite Eadd; apply Forall_singleton; split; [done|apply Hf]].
  - intros i l Hl. unfold all_adds. cbn. rewrite app_nil_r, placed_adds, fmap_app. apply NoDup_app. split_and!.
    + by apply Hnums, (level_mem i).
    + intros n Hn Hin. case_decide; [|by apply not_elem_of_nil in Hin]. apply list_elem_of_singleton in Hin as ->. apply list_elem_of_fmap in Hn as (g & Eg & Hg). specialize (Hfresh l g (level_mem _ _ Hl) Hg). lia.
    + case_decide; cbn; [apply NoDup_singleton|constructor].
  - intros i l n Hl. pose proof (vo_sorted _ _ Hv i l Hl) as Hs. destruct n as [|n]; [by apply sorted_pairwise|]. cbn [take]. rewrite take_nil. cbn [edits_level foldl]. unfold edits_level. cbn [foldl].
    rewrite placed_level, placed_adds. case_decide as Ei; [|rewrite app_nil_r; by apply sorted_pairwise].
    assert (forall g, g ∈ l -> apart c g f \/ apart c f g) as Hout.
    { intros g Hg. apply outside_apart; [apply (vd_files _ _ _ _ Hdata l g (level_mem _ _ Hl) Hg)|]. apply (Hclear ltac:(lia) lv l g); [lia|by rewrite Ei, Nat2Z.id|done]. }
    intros g h [Hg|Hg]%elem_of_app [Hh|Hh]%elem_of_app Hne; [by apply (sorted_pairwise l)| | |]; rewrite ?list_elem_of_singleton in *; subst; [by apply Hout|by apply or_comm, Hout|done].
Qed.

Context (files' : list (list FileMetaData)) (Hleft : left_by c files [e] files').

Lemma placed_perm i l' : files' !! i = Some l' -> exists l, files !! i = Some l /\ l' ≡ₚ l ++ (if decide (lv = Z.of_nat i) then [f] else []).
Proof.
  intros Hl'. destruct Hleft as (Hlen & _ & Hp). destruct (lookup_lt_is_Some_2 files i) as [l Hl]; [apply lookup_lt_Some in Hl'; by rewrite Hlen in Hl'|].
  exists l. split; [done|]. rewrite (Hp i l l' Hl Hl'). cbn. unfold edits_level. cbn. by rewrite placed_level, placed_adds.
Qed.

(** A file of the new version is an old one of the level, or the new one. *)
Lemma placed_file i l' g : files' !! i = Some l' -> g ∈ l' -> (exists l, files !! i = Some l /\ g ∈ l) \/ g = f /\ lv = Z.of_nat i.
Proof.
  intros Hl' Hg. destruct (placed_perm i l' Hl') as (l & Hl & Hp). rewrite Hp in Hg. apply elem_of_app in Hg as [Hg|Hg]; [left; by exists l|]. case_decide; [|by apply not_elem_of_nil in Hg].
  apply list_elem_of_singleton in Hg. by right.
Qed.

Lemma placed_numbers i l' : files' !! i = Some l' -> NoDup (number <$> l').
Proof.
  intros Hl'. destruct (placed_perm i l' Hl') as (l & Hl & ->). rewrite <- placed_adds. pose proof (eo_fresh _ _ _ placed_ok i l Hl) as Hn. unfold all_adds in Hn. cbn in Hn. by rewrite app_nil_r in Hn.
Qed.

(** Where the keys of the new file are met again, the other file is deeper. *)
Lemma placed_below i l g : files !! i = Some l -> g ∈ l -> Z.of_nat i <= lv -> 0 < lv -> forall a b, a ∈ data f -> b ∈ data g -> cmp_Compare c (ukey a.1) (ukey b.1) <> 0.
Proof.
  intros Hl Hg Hi Hlv0 a b Ha Hb E. pose proof (proj2 (vd_files _ _ _ _ Hdata l g (level_mem _ _ Hl) Hg)) as Hgd. pose proof (Hclear Hlv0 (Z.of_nat i) l g ltac:(lia) ltac:(by rewrite Nat2Z.id) Hg) as Ho.
  assert (overlaps c (Some (start f)) (Some (limit f)) g = true); [|congruence]. destruct (fd_range _ _ _ Hf a Ha) as [A1 A2], (fd_range _ _ _ Hgd b Hb) as [B1 B2].
  pose proof (ascending_ok _ _ (fd_sorted _ _ _ Hf) Ha) as Ga. pose proof (ascending_ok _ _ (fd_sorted _ _ _ Hgd) Hb) as Gb. destruct (fd_ok _ _ _ Hf) as [F1 F2 _], (fd_ok _ _ _ Hgd) as [G1 G2 _].
  apply internal_user_le in A1, A2, B1, B2; try (done || by apply valid_key_good). unfold overlaps, from, upto. apply andb_true_iff. split; apply Z.leb_le.
  - apply (user_trans c _ (ukey a.1)); [done|]. apply (user_trans c _ (ukey b.1)); [lia|done].
  - apply (user_trans c _ (ukey b.1)); [done|]. apply (user_trans c _ (ukey a.1)); [pose proof (cmp_antisym (c := c) (ukey a.1) (ukey b.1)); lia|done].
Qed.

Lemma placed_version : version_data c known data files'.
Proof.
  pose proof (vd_ok _ _ _ _ Hdata) as Hv. pose proof Hleft as (Hlen & Hcan' & _). split.
  - split; [rewrite Hlen; apply Hv|eapply Forall_impl; [exact Hcan'|by intros l []]|]. intros i l' Hl'. pose proof (proj1 (Forall_lookup _ _) Hcan' _ _ Hl') as [Hok Hs]. destruct (placed_perm (S i) l' Hl') as (l & Hl & Hp).
    split_and!; [done| |].
    + apply sorted_apart; [done..|by apply (placed_numbers (S i))|]. pose proof (eo_apart _ _ _ placed_ok i l 1 Hl) as Hap. cbn in Hap. unfold edits_level in Hap. cbn in Hap. rewrite placed_level, placed_adds in Hap.
      intros g h. rewrite Hp. apply Hap.
    + rewrite Hp, length_app. pose proof (Hroom l (level_mem _ _ Hl)). case_decide; cbn; lia.
  - intros l' g Hl' Hg. apply list_elem_of_lookup in Hl' as [i Hl']. destruct (placed_file i l' g Hl' Hg) as [(l & Hl & Hgl)|[-> _]]; [|done]. by apply (vd_files _ _ _ _ Hdata l), Hgl; apply (level_mem i).
  - intros l' Hl'. by apply (placed_numbers 0).
  - intros l' g h Hl' Hg Hh Hlt. destruct (placed_file 0 l' g Hl' Hg) as [(l & Hl & Hgl)|[-> E]], (placed_file 0 l' h Hl' Hh) as [(l2 & Hl2 & Hhl)|[-> E2]]; [|exfalso| |lia].
    + simplify_eq. by apply (vd_level0 _ _ _ _ Hdata l).
    + specialize (Hfresh l g (level_mem _ _ Hl) Hgl). lia.
    + by apply (Hnew l2), Hhl; apply (level_mem 0).
  - intros i j l1 l2 g h Hl1 Hl2 Hij Hg Hh. destruct (placed_file i l1 g Hl1 Hg) as [(l & Hl & Hgl)|[-> E]], (placed_file j l2 h Hl2 Hh) as [(l' & Hl' & Hhl)|[-> E2]]; [| | |lia].
    + by apply (vd_levels _ _ _ _ Hdata i j l l').
    + intros a b Ha Hb Eq. exfalso. apply (placed_below i l g Hl Hgl ltac:(lia) ltac:(lia) b a Hb Ha). pose proof (cmp_antisym (c := c) (ukey a.1) (ukey b.1)). lia.
    + by apply (Hnew l'), Hhl; apply (level_mem j).
Qed.

Lemma placed_entries x : x ∈ version_entries data files' <-> x ∈ data f \/ x ∈ version_entries data files.
Proof.
  rewrite !version_entries_elem. split.
  - intros (i & l' & g & Hl' & Hg & Hx). destruct (placed_file i l' g Hl' Hg) as [(l & Hl & Hgl)|[-> _]]; [right; eauto 6|by left].
  - destruct Hleft as (Hlen & _). intros [Hx|(i & l & g & Hl & Hg & Hx)].
    + destruct (lookup_lt_is_Some_2 files' (Z.to_nat lv)) as [l' Hl']; [rewrite Hlen; pose proof (vo_levels _ _ (vd_ok _ _ _ _ Hdata)); unfold level_ok in Hlv; lia|]. exists (Z.to_nat lv), l', f. split_and!; [done| |done].
      destruct (placed_perm _ l' Hl') as (l & Hl & ->). apply elem_of_app. right. unfold level_ok in Hlv. rewrite decide_True by lia. by left.
    + destruct (lookup_lt_is_Some_2 files' i) as [l' Hl']; [rewrite Hlen; by eapply lookup_lt_Some|]. exists i, l', g. split_and!; [done| |done]. destruct (placed_perm i l' Hl') as (l2 & Hl2 & ->). simplify_eq. apply elem_of_app. by left.
Qed.
End Place.

(** ** Flushing a memtable *)

Lemma mem_moves_keep {W} (c : Comparator) op it (w : W) it' w' : mem_moves c op it w = Ret (it', w') -> w' = w.
Proof. unfold mem_moves. destruct (mem_op c op (mi_table it) (mi_node it)); [|done..]. run. by intros [= _ <-]. Qed.

(** The bounds of a file are the first and the last key of its entries. *)
Lemma bounds_data c `{!ComparatorLaws c} (data : FileMetaData -> list entry) f es : data f = es -> es <> [] -> ascending internal_good (internal_ord c) es -> Forall (fun e => valid_key e.1) es ->
  smallest f = default [] (fst <$> head es) -> largest f = default [] (fst <$> last es) -> file_data c data f.
Proof.
  intros Ed Hne Ha Hv Es El. destruct es as [|a es']; [done|]. set (es := a :: es') in *. destruct (last es) as [z|] eqn:Ez; [|by apply last_None in Ez]. cbn in Es. change (largest f = z.1) in El.
  assert (z ∈ es) as Hz by (by apply last_Some_elem_of). assert (a ∈ es) as Haa by (by left). rewrite Forall_forall in Hv.
  assert (forall e, e ∈ es -> internal_ord c (smallest f) e.1 <= 0 /\ internal_ord c e.1 (largest f) <= 0) as Hr.
  { intros e He. rewrite Es, El. split; [|exact (last_greatest es z e Ha Ez He)]. apply elem_of_cons in He as [->|He]; [rewrite (key_refl (ok := internal_good)) by (by apply valid_key_good, Hv); lia|].
    apply ascending_inv in Ha as (_ & _ & Hf). rewrite Forall_forall in Hf. specialize (Hf e He). lia. }
  split; rewrite ?Ed; [split; [rewrite Es; by apply Hv|rewrite El; by apply Hv|rewrite Es; by apply Hr]|done|by apply Forall_forall|done|]. exists z.2. rewrite El. by destruct z.
Qed.

Section Flush.
Context {W : Type} `{!CompactionEnv W bytes} `{FlushEnv W} (c : Comparator) `{!ComparatorLaws c}.
Context (snappy : option snappy_lib) (Hsnappy : forall s, snappy = Some s -> snappy_ok s) (addr : Z) (Haddr : 0 <= addr).
Context (options : Options) (same : bytes -> bytes -> Prop) `{!TableComparatorLaws (comparator options) internal_good (internal_ord c) same} (capacity rate : nat)
  (Hopts : options_ok options internal_good same capacity rate) (dbname : bytes).
Context (good : W -> Prop) (closed : W -> list (bytes * bytes)) `{!CompactionEnvLaws W good closed} `{!FlushEnvLaws W good closed}.
Abbreviation fits := (fits options internal_good (internal_ord c) capacity rate).

(** The metadata of the file that holds [es]. *)
Definition flushed (n : Z) (contents : bytes) (es : list entry) : FileMetaData :=
  MkFile n (Z.of_nat (length contents)) (default [] (fst <$> head es)) (default [] (fst <$> last es)).

(** The table of a memtable, with any edit and any version to place it in. *)
Lemma written_spec m mes fuel edit base n w0 w : mem_rep c m mes -> mes <> [] -> fits (mem_pair <$> mes) -> (length mes < fuel)%nat -> ce_NewFileNumber w = (n, w0) -> 0 < n -> good w0 ->
  exists f fname contents w', WriteLevel0Table c snappy addr options dbname fuel m edit base w =
      (level ← match base with Some files => PickLevelForMemTableOutput c files (ukey (smallest f)) (ukey (largest f)) | None => Ret 0 end; Ret (OK, VE.AddFile level (number f) (file_size f) (smallest f) (largest f) edit, w')) /\
    number f = n /\ TableFileName dbname n = Ret fname /\ good w' /\ build_table snappy addr options (mem_pair <$> mes) = Ret (OK, contents) /\ closed w' = closed w0 ++ [(fname, contents)] /\ f = flushed n contents (mem_pair <$> mes) /\
    (forall data, data f = mem_pair <$> mes -> file_data c data f).
Proof.
  intros Hm Hne Hfit Hfuel En Hn Hw0. set (es := mem_pair <$> mes) in *. assert (es <> []) as Hne' by (by destruct mes).
  assert (Forall (fun e => valid_key e.1) es) as Hvk.
  { destruct Hm as [_ Hok]. apply Forall_fmap. eapply Forall_impl; [exact Hok|]. intros e (Ht & _). by apply ikey_valid. }
  unfold WriteLevel0Table. rewrite En. destruct (cl_insert w0 n Hw0) as [Hw1 Hc1].
  destruct (build_spec_some (I := MemTableIterator) (H1 := mem_moves c) snappy Hsnappy addr Haddr options internal_good (internal_ord c) same capacity rate Hopts dbname good closed db_key (mem_at c)
    ltac:(intros op it w1 it' w1' E; by rewrite (mem_moves_keep c _ _ _ _ _ E)) es fuel n (length es) (MemTable_NewIterator m) (ce_pending_insert n w0) Hfit Hne') as (fname & contents & w2 & -> & Ef & Hw2 & Ebt & Hc2 & Hpos).
  { unfold es. by rewrite length_fmap. }
  { done. }
  { by apply new_mem_iter. }
  { done. }
  run. change (Status.ok OK) with true. cbn [andb file_size smallest largest]. rewrite (proj2 (Z.ltb_lt _ _) Hpos). set (f := MkFile n (Z.of_nat (length contents)) (default [] (fst <$> head es)) (default [] (fst <$> last es))).
  assert (forall data, data f = es -> file_data c data f) as Hfd by (intros data Ed; apply (bounds_data c data f es); [done|done|apply Hfit|done|done|done]).
  destruct (fd_ok _ _ _ (Hfd (fun _ => es) eq_refl)) as [F1 F2 _]. change (default [] (fst <$> head es)) with (smallest f). change (default [] (fst <$> last es)) with (largest f).
  rewrite !user_key_good by done. run. destruct (fl_erase w2 n Hw2) as [Hw3 Hc3].
  exists f, fname, contents, (ce_pending_erase n w2). split_and!; [done|done|done|done|done|by rewrite Hc3, Hc2, Hc1|done|done].
Qed.

(** An empty memtable leaves no file. *)
Lemma written_none m fuel edit base w : mem_rep c m [] -> good w -> exists w', WriteLevel0Table c snappy addr options dbname fuel m edit base w = Ret (OK, edit, w') /\ good w' /\ closed w' = closed w.
Proof.
  intros Hm Hw. unfold WriteLevel0Table. destruct (cl_number w Hw) as (n & w0 & -> & Hn & Hw0 & Hc0). destruct (cl_insert w0 n Hw0) as [Hw1 Hc1].
  destruct (build_spec_none (I := MemTableIterator) (H1 := mem_moves c) snappy addr options (internal_ord c) dbname good closed db_key (mem_at c)
    ltac:(intros op it w1 it' w1' E; by rewrite (mem_moves_keep c _ _ _ _ _ E)) fuel n 0 (MemTable_NewIterator m) (ce_pending_insert n w0) Hn (new_mem_iter c m [] Hm) Hw1) as (fname & w2 & -> & _ & Hw2 & Hc2). run.
  change (Status.ok OK) with true. cbn [andb file_size Z.ltb Z.compare]. destruct (fl_delete w2 fname Hw2) as [Hw3 Hc3]. destruct (fl_erase (fe_DeleteFile fname w2) n Hw3) as [Hw4 Hc4]. eexists. split_and!; [done|done|by rewrite Hc4, Hc3, Hc2, Hc1, Hc0].
Qed.

Lemma flush_spec m mes fuel files n w0 w : mem_rep c m mes -> mes <> [] -> fits (mem_pair <$> mes) -> (length mes < fuel)%nat -> good w -> ce_NewFileNumber w = (n, w0) -> version_ok c files ->
  exists f lv fname w', WriteLevel0Table c snappy addr options dbname fuel m VE.new (Some files) w = Ret (OK, VE.AddFile lv (number f) (file_size f) (smallest f) (largest f) VE.new, w') /\
    number f = n /\ TableFileName dbname n = Ret fname /\ good w' /\ (exists contents, build_table snappy addr options (mem_pair <$> mes) = Ret (OK, contents) /\ closed w' = closed w ++ [(fname, contents)] /\ f = flushed n contents (mem_pair <$> mes)) /\
    (forall data, data f = mem_pair <$> mes -> file_data c data f) /\ 0 <= lv <= kMaxMemCompactLevel /\ (0 < lv -> clear_to c files (start f) (limit f) lv).
Proof.
  intros Hm Hne Hfit Hfuel Hw En Hv. destruct (cl_number w Hw) as (n' & w0' & En' & Hn & Hw0 & Hc0). rewrite En in En'. injection En' as <- <-. rewrite <- Hc0.
  destruct (written_spec m mes fuel VE.new (Some files) n w0 w Hm Hne Hfit Hfuel En Hn Hw0) as (f & fname & contents & w' & -> & Nf & Ef & Hw' & Ebt & Hc & Hz & Hfd).
  destruct (pick_level_safe c files (ukey (smallest f)) (ukey (largest f)) Hv) as (lv & -> & Hlv & Hcl). run. exists f, lv, fname, w'. split_and!; [done|done|done|done|by exists contents|done|lia|lia|done].
Qed.

(** C10: flushing a memtable that is newer than the version writes one file, the table of
    the memtable's entries, and an edit that records it: its number, its size in bytes, the first and the last
    internal key, and a level up to kMaxMemCompactLevel.  That level is safe: the version that the edit leads to is again one in which reads find
    the newest data, and every lookup finds in it what it found in the memtable and the
    old version together. *)
Theorem flush_keeps_reads m mes fuel known data files ps n w0 w : mem_rep c m mes -> mes <> [] -> fits (mem_pair <$> mes) -> (length mes < fuel)%nat -> good w -> ce_NewFileNumber w = (n, w0) ->
  version_data c known data files -> canonical c files -> Z.of_nat (length ps) = kNumLevels -> (forall l, l ∈ files -> NoDup (number <$> l) /\ Z.of_nat (length l) + 1 < 2 ^ 31) ->
  (forall l g, l ∈ files -> g ∈ l -> number g < n /\ newer c (mem_pair <$> mes) (data g)) -> (forall f, number f = n -> known f /\ data f = mem_pair <$> mes) ->
  exists e lv f w' files' fname contents, WriteLevel0Table c snappy addr options dbname fuel m VE.new (Some files) w = Ret (OK, e, w') /\
    e = VE.AddFile lv (number f) (file_size f) (smallest f) (largest f) VE.new /\ 0 <= lv <= kMaxMemCompactLevel /\
    number f = n /\ file_size f = Z.of_nat (length contents) /\ fst <$> head (mem_pair <$> mes) = Some (smallest f) /\ fst <$> last (mem_pair <$> mes) = Some (largest f) /\
    TableFileName dbname n = Ret fname /\ build_table snappy addr options (mem_pair <$> mes) = Ret (OK, contents) /\ closed w' = closed w ++ [(fname, contents)] /\
    build c files ps [e] = Ret (files', ps) /\ version_data c known data files' /\ canonical c files' /\
    forall k o, found c k ((mem_pair <$> mes) ++ version_entries data files) o <-> found c k (version_entries data files') o.
Proof.
  intros Hm Hne Hfit Hfuel Hw En Hd Hcan Hps Hl Hold Hn. destruct (flush_spec m mes fuel files n w0 w Hm Hne Hfit Hfuel Hw En (vd_ok _ _ _ _ Hd)) as (f & lv & fname & w' & E & Nf & Ef & Hw' & (contents & Ebt & Hc & Hmeta) & Hfd & Hlv & Hcl).
  destruct (Hn f Nf) as [Hkf Edf]. assert (level_ok lv) as Hlvo by (unfold level_ok, kMaxMemCompactLevel, kNumLevels in *; lia). set (e := VE.AddFile lv (number f) (file_size f) (smallest f) (largest f) VE.new) in *.
  assert (VE.new_files_ e = [(lv, f)]) as Ead by (by destruct f).
  assert (forall l g, l ∈ files -> g ∈ l -> number g < number f) as Hfr by (intros l g Hl1 Hg; rewrite Nf; by apply (Hold l)).
  assert (forall l g, l ∈ files -> g ∈ l -> newer c (data f) (data g)) as Hnw by (intros l g Hl1 Hg; rewrite Edf; by apply (Hold l)).
  pose proof (Hfd data Edf) as Hff. pose proof (fun l Hin => proj1 (Hl l Hin)) as Hnd. pose proof (fun l Hin => proj2 (Hl l Hin)) as Hrm.
  destruct (build_spec c files ps [e] Hps) as (files' & Eb & Hleft); [by apply (placed_ok c known data files Hd Hcan f lv)|].
  pose proof (placed_version c known data files Hd Hcan f lv Hkf Hff Hlvo Hnd Hfr Hnw Hcl Hrm e eq_refl eq_refl Ead files' Hleft) as Hd'.
  exists e, lv, f, w', files', fname, contents. split_and!; [done|done|lia|lia|done|by rewrite Hmeta| | |done|done|done|done|done|apply Hleft|].
  1:{ rewrite Hmeta. by destruct mes. }
  1:{ rewrite Hmeta. unfold flushed. cbn [largest]. rewrite fmap_last. destruct (last mes) eqn:Elast; [done|]. by apply last_None in Elast. }
  assert (forall x, x ∈ (mem_pair <$> mes) ++ version_entries data files <-> x ∈ version_entries data files') as Hx.
  { intros x. rewrite (placed_entries c known data files Hd Hcan f lv Hkf Hff Hlvo Hnd Hfr Hnw Hcl Hrm e eq_refl eq_refl Ead files' Hleft x), Edf. apply elem_of_app. }
  intros k o. split; apply found_candidates; intros x _; [apply Hx|symmetry; apply Hx].
Qed.
End Flush.

(** ** Examples *)

#[global] Instance sample_flush : FlushEnv (Z * list (bytes * bytes)) := fun _ w => w.

Lemma sample_flush_laws : FlushEnvLaws (Z * list (bytes * bytes)) (fun w => 0 < w.1) snd.
Proof. by split. Qed.

Lemma no_files_data c known data : version_data c known data (replicate 7 []).
Proof.
  assert (forall i (l : list FileMetaData), (replicate 7 [] : list (list FileMetaData)) !! i = Some l -> l = []) as Hnil by (by intros i l [-> _]%lookup_replicate). split.
  - split; [done|repeat constructor|]. intros i l ->%Hnil. apply level_sorted_nil.
  - intros l f [i ->%Hnil]%list_elem_of_lookup ?%not_elem_of_nil. done.
  - intros l ->%Hnil. constructor.
  - by intros l f g ->%Hnil ?%not_elem_of_nil.
  - by intros i j l l' f g ->%Hnil _ _ ?%not_elem_of_nil.
Qed.

Definition sample_mem_entry : mem_entry := ME (str "b") 5 kTypeValue (str "v").

Lemma sample_memtable : exists m, (m0 ← MemTable_new; MemTable.Add BytewiseComparator m0 5 kTypeValue (str "b") (str "v")) = Ret m /\ mem_rep BytewiseComparator m [sample_mem_entry].
Proof.
  destruct (mem_new BytewiseComparator) as (m0 & E0 & Hm0). rewrite E0. clear E0.
  destruct (add_spec BytewiseComparator m0 [] sample_mem_entry Hm0) as (m & A & B & E1 & EAB & Hm); [split_and!; [split; [by vm_compute|by right]|done|done]|by intros e' ?%not_elem_of_nil|].
  symmetry in EAB. apply app_eq_nil in EAB as [-> ->]. by exists m.
Qed.

(** A memtable with one entry goes to level 2 of an empty database. *)
Lemma flush_keeps_reads_witness : exists m e w' files', mem_rep BytewiseComparator m [sample_mem_entry] /\
  WriteLevel0Table BytewiseComparator (Some toy_snappy) 0 sample_options (str "db") 2 m VE.new (Some (replicate 7 [])) (4, []) = Ret (OK, e, w') /\ length w'.2 = 1%nat /\
  found BytewiseComparator (ikey (str "b") 9 kValueTypeForSeek) (version_entries (fun _ => mem_pair <$> [sample_mem_entry]) files') (Some (ikey (str "b") 5 kTypeValue, str "v")).
Proof.
  destruct sample_memtable as (m & _ & Hm).
  destruct (flush_keeps_reads BytewiseComparator (Some toy_snappy) ltac:(intros s [= <-]; apply toy_snappy_ok) 0 ltac:(lia) sample_options same_user 100 12 sample_options_ok (str "db")
    (fun w => 0 < w.1) snd (CompactionEnvLaws0 := sample_env_laws) (FlushEnvLaws0 := sample_flush_laws) m [sample_mem_entry] 2 (fun _ => True) (fun _ => mem_pair <$> [sample_mem_entry]) (replicate 7 []) no_pointers 4 (5, @nil (bytes * bytes)) (4, @nil (bytes * bytes)))
    as (e & lv & f & w' & files' & fname & contents & E & _ & _ & _ & _ & _ & _ & _ & _ & Hc & _ & _ & _ & Hr).
  - done.
  - done.
  - split; [split; [repeat constructor; apply Nat.leb_le; vm_compute; reflexivity|repeat constructor]|split; [apply Z.ltb_lt; vm_compute; reflexivity|cbn; lia]].
  - cbn. lia.
  - done.
  - done.
  - apply no_files_data.
  - apply Forall_replicate. split; constructor.
  - done.
  - intros l [i [-> _]%lookup_replicate]%list_elem_of_lookup. split; [constructor|cbn; lia].
  - intros l g [i [-> _]%lookup_replicate]%list_elem_of_lookup ?%not_elem_of_nil. done.
  - done.
  - exists m, e, w', files'. split_and!; [done|exact E|by rewrite Hc|]. apply Hr. split_and!; [by left|by vm_compute|].
    intros x Hx _. apply elem_of_app in Hx as [->%list_elem_of_singleton|Hx]; [by vm_compute|]. unfold version_entries in Hx. cbn in Hx. by apply not_elem_of_nil in Hx.
Defined.
