(* ===== verification/Background.v ===== *)
(** * Background work (util/leveldb/db/db_impl.cc)

    Room for writes, the scheduling of the background thread, what it does when it is
    called, the threads that wait for it, and the deletion of files that are no longer
    needed.  Each definition is what a thread does under the mutex.  [BackgroundCall] is
    one function although the source releases the mutex inside it; the steps that the
    theorem on waiting threads takes into account also split it there. *)

From S2P Require Import Prelude Slice Order CLib Bloom Coding DbFormat InternalOrder FileNames Status Files SkipList MemTable StdSet VersionEdit Version VersionBuilder LogFormat VersionSet Iterators Block TableFormat FilterBlock Table TableSpec TableGet VersionGet Compaction DbCompact CompactionRun MemIter FlushTable.
From stdpp Require Import strings sorting.
From Stdlib Require Import Floats.SpecFloat.
#[local] Open Scope Z_scope.

Definition kL0_SlowdownWritesTrigger : Z := 8.
Definition kL0_StopWritesTrigger : Z := 12.

(** ** The surroundings *)

(** The version set, the read statistics of the current version, the versions that are in
    use, the outputs that are being written, the names in the directory, the table cache,
    and the merged input of a compaction. *)
Class DbEnv (W F I : Type) `{CompactionEnv W F} := {
  de_versions : W -> VS.VersionSet;
  de_set_versions : VS.VersionSet -> W -> W;
  de_seeks : W -> Seeks;
  de_set_seeks : Seeks -> W -> W;
  de_in_use : W -> list (list (list FileMetaData));
  de_pending_outputs : W -> gset Z;
  de_children : W -> list bytes;
  de_Evict : Z -> W -> W;
  de_MakeInputIterator : Compaction -> W -> I;
}.

(** [struct ManualCompaction] *)
Record ManualCompaction := MkManual { m_level : Z; m_done : bool; m_begin : option bytes; m_end : option bytes }.

(** [bg_cv_]: the threads that wait on the condition variable, by number. *)
Record DBImpl {F : Type} := MkDBImpl {
  mem_ : MemTable;
  imm_ : option MemTable;
  log_ : Writer F;
  logfile_number_ : Z;
  bg_error_ : Status;
  bg_compaction_scheduled_ : bool;
  manual_compaction_ : option ManualCompaction;
  bg_cv_ : list nat;
}.
Arguments DBImpl : clear implicits.

Section Ops.
Context {W F I : Type} `{CompactionEnv W F} `{FlushEnv W} `{IterView I} `{!IterMoves W I} `{!DbEnv W F I}.
Context (c : Comparator) (snappy : option snappy_lib) (addr : Z) (options : Options) (dbname : bytes) (usage : MemTable -> Z) (write_buffer_size : Z).

Definition set_imm (d : DBImpl F) (imm : option MemTable) : DBImpl F :=
  MkDBImpl F (mem_ d) imm (log_ d) (logfile_number_ d) (bg_error_ d) (bg_compaction_scheduled_ d) (manual_compaction_ d) (bg_cv_ d).
Definition set_error (d : DBImpl F) (s : Status) : DBImpl F :=
  MkDBImpl F (mem_ d) (imm_ d) (log_ d) (logfile_number_ d) s (bg_compaction_scheduled_ d) (manual_compaction_ d) (bg_cv_ d).
Definition set_scheduled (d : DBImpl F) (b : bool) : DBImpl F :=
  MkDBImpl F (mem_ d) (imm_ d) (log_ d) (logfile_number_ d) (bg_error_ d) b (manual_compaction_ d) (bg_cv_ d).
Definition set_manual (d : DBImpl F) (m : option ManualCompaction) : DBImpl F :=
  MkDBImpl F (mem_ d) (imm_ d) (log_ d) (logfile_number_ d) (bg_error_ d) (bg_compaction_scheduled_ d) m (bg_cv_ d).
Definition set_cv (d : DBImpl F) (l : list nat) : DBImpl F :=
  MkDBImpl F (mem_ d) (imm_ d) (log_ d) (logfile_number_ d) (bg_error_ d) (bg_compaction_scheduled_ d) (manual_compaction_ d) l.

(** [bg_cv_.Wait()], called by thread [me] that then lets go of the mutex, and
    [bg_cv_.SignalAll()], after which no thread waits. *)
Definition Wait (me : nat) (d : DBImpl F) : DBImpl F := set_cv d (me :: bg_cv_ d).
Definition SignalAll (d : DBImpl F) : DBImpl F := set_cv d [].

Definition RecordBackgroundError (s : Status) (d : DBImpl F) : DBImpl F := if ok (bg_error_ d) then SignalAll (set_error d s) else d.

(** [NeedsCompaction] of the version set *)
Definition needs_compaction (w : W) : bool := NeedsCompaction (VS.current_ (de_versions w)) (file_to_compact_ (de_seeks w)).

Definition MaybeScheduleCompaction (d : DBImpl F) (w : W) : DBImpl F :=
  if bg_compaction_scheduled_ d then d
  else if ce_shutting_down w then d
  else if negb (ok (bg_error_ d)) then d
  else match imm_ d, manual_compaction_ d with
       | None, None => if needs_compaction w then set_scheduled d true else d
       | _, _ => set_scheduled d true
       end.

(** *** Obsolete files *)

Definition AddLiveFiles (versions : list (list (list FileMetaData))) (live : gset Z) : gset Z :=
  foldl (foldl (foldl (fun live f => {[number f]} ∪ live))) live versions.

Definition keep_file (vs : VS.VersionSet) (live : gset Z) (number : Z) (type : FileType) : bool :=
  match type with
  | kLogFile => (VS.log_number_ vs <=? number) || (number =? VS.prev_log_number_ vs)
  | kDescriptorFile => VS.manifest_file_number_ vs <=? number
  | kTableFile | kTempFile => bool_decide (number ∈ live)
  | kCurrentFile | kDBLockFile | kInfoLogFile => true
  end.

Definition delete_obsolete (vs : VS.VersionSet) (live : gset Z) (name : bytes) (w : W) : W :=
  match ParseFileName name with
  | Some (number, type) =>
      if keep_file vs live number type then w
      else
        let w := match type with kTableFile => de_Evict number w | _ => w end in
        fe_DeleteFile (dbname ++ str "/" ++ name) w
  | None => w
  end.

Definition DeleteObsoleteFiles (d : DBImpl F) (w : W) : W :=
  if negb (ok (bg_error_ d)) then w
  else
    let live := AddLiveFiles (de_in_use w) (de_pending_outputs w) in
    foldl (fun w' name => delete_obsolete (de_versions w) live name w') w (de_children w).

(** *** The memtable *)

Definition CompactMemTable (fuel : nat) (d : DBImpl F) (w : W) : outcome (DBImpl F * W) :=
  match imm_ d with
  | None => Exit 134
  | Some imm =>
      '(s, edit, w) ← WriteLevel0Table c snappy addr options dbname fuel imm VE.new (Some (files_ (VS.current_ (de_versions w)))) w;
      s ← (if ok s && ce_shutting_down w then IOError (str "Deleting DB during memtable compaction") [] else Ret s);
      '(s, w) ← (if ok s then ce_LogAndApply (VE.SetLogNumber (logfile_number_ d) (VE.SetPrevLogNumber 0 edit)) w else Ret (s, w));
      if ok s then let d := set_imm d None in Ret (d, DeleteObsoleteFiles d w) else Ret (RecordBackgroundError s d, w)
  end.

(** *** Compactions *)

Definition NumLevelFiles (level : Z) (w : W) : outcome Z := l ← level_files (files_ (VS.current_ (de_versions w))) level; Ret (Z.of_nat (length l)).

(** The database as the surroundings of a compaction, which turns to the immutable
    memtable first. *)
#[local] Instance db_env (fuel : nat) : CompactionEnv (DBImpl F * W) F := {|
  ce_NewFileNumber x := let '(n, w) := ce_NewFileNumber x.2 in (n, (x.1, w));
  ce_pending_insert n x := (x.1, ce_pending_insert n x.2);
  ce_pending_erase n x := (x.1, ce_pending_erase n x.2);
  ce_NewWritableFile name x := let '(s, f, w) := ce_NewWritableFile name x.2 in (s, f, (x.1, w));
  ce_Sync name f x := let '(s, w) := ce_Sync name f x.2 in (s, (x.1, w));
  ce_Close name f x := let '(s, w) := ce_Close name f x.2 in (s, (x.1, w));
  ce_Usable n size x := '(s, w) ← ce_Usable n size x.2; Ret (s, (x.1, w));
  ce_shutting_down x := ce_shutting_down x.2;
  ce_CompactImm x := match imm_ x.1 with Some _ => '(d, w) ← CompactMemTable fuel x.1 x.2; Ret (SignalAll d, w) | None => Ret x end;
  ce_LogAndApply e x := '(s, w) ← ce_LogAndApply e x.2; Ret (s, (x.1, w));
  ce_NumLevelFiles level x := NumLevelFiles level x.2;
|}.
#[local] Instance db_moves : IterMoves (DBImpl F * W) I := fun op it x => '(it, w) ← it_move op it x.2; Ret (it, (x.1, w)).

(** [snapshots]: the numbers of the snapshots in use, oldest first. *)
Definition run_compaction (fuel : nat) (snapshots : list Z) (is_manual : bool) (x : Compaction) (d : DBImpl F) (w : W) : outcome (Status * DBImpl F * W) :=
  if negb is_manual && IsTrivialMove x then
    edit ← trivial_move x;
    '(status, w) ← ce_LogAndApply edit w;
    Ret (status, if ok status then d else RecordBackgroundError status d, w)
  else
    '(status, st, (d, w)) ← DC.DoCompactionWork (H := _) (H0 := db_env fuel) c snappy addr options dbname fuel snapshots (VS.last_sequence_ (de_versions w)) (de_MakeInputIterator x w) x (d, w);
    let d := if ok status then d else RecordBackgroundError status d in
    w ← DC.CleanupCompaction st w;
    Ret (status, d, DeleteObsoleteFiles d w).

(** The third component is what the owner of a manual compaction sees of it. *)
Definition BackgroundCompaction (fuel : nat) (snapshots : list Z) (d : DBImpl F) (w : W) : outcome (DBImpl F * W * option ManualCompaction) :=
  match imm_ d, manual_compaction_ d with
  | Some _, m => '(d, w) ← CompactMemTable fuel d w; Ret (d, w, m)
  | None, Some m =>
      '(x, vs) ← CompactRange c (de_versions w) (m_level m) (m_begin m) (m_end m);
      let w := de_set_versions vs w in
      '(status, d, w, m) ← match x with
        | None => Ret (OK, d, w, MkManual (m_level m) true (m_begin m) (m_end m))
        | Some x =>
            match last (inputs0 x) with
            | None => Undef
            | Some f =>
                '(status, d, w) ← run_compaction fuel snapshots true x d w;
                Ret (status, d, w, if ok status then MkManual (m_level m) false (Some (largest f)) (m_end m) else MkManual (m_level m) true (m_begin m) (m_end m))
            end
        end;
      Ret (set_manual d None, w, Some m)
  | None, None =>
      '(x, vs) ← PickCompaction c (de_versions w) (file_to_compact_ (de_seeks w));
      let w := de_set_versions vs w in
      match x with
      | None => Ret (d, w, None)
      | Some x => '(status, d, w) ← run_compaction fuel snapshots false x d w; Ret (d, w, None)
      end
  end.

(** The end of [BackgroundCall] *)
Definition call_ends (d : DBImpl F) (w : W) : DBImpl F := SignalAll (MaybeScheduleCompaction (set_scheduled d false) w).

Definition BackgroundCall (fuel : nat) (snapshots : list Z) (d : DBImpl F) (w : W) : outcome (DBImpl F * W * option ManualCompaction) :=
  assert! bg_compaction_scheduled_ d;
  '(d, w, m) ← (if ce_shutting_down w then Ret (d, w, manual_compaction_ d)
                else if negb (ok (bg_error_ d)) then Ret (d, w, manual_compaction_ d)
                else BackgroundCompaction fuel snapshots d w);
  Ret (call_ends d w, w, m).

(** *** Room for a write *)

(** What a turn of the loop does: it ends, the writer sleeps for a while or waits on
    [bg_cv_], both without the mutex, or it goes on at once. *)
Inductive room := RoomReturn (s : Status) | RoomSleep | RoomWait | RoomAgain.

(** A turn of thread [me], with [force] and [allow_delay] before and after it. *)
Definition room_step (me : nat) (force allow_delay : bool) (d : DBImpl F) (w : W) : outcome (room * bool * bool * DBImpl F * W) :=
  if negb (ok (bg_error_ d)) then Ret (RoomReturn (bg_error_ d), force, allow_delay, d, w)
  else
    n ← NumLevelFiles 0 w;
    if allow_delay && (kL0_SlowdownWritesTrigger <=? n) then Ret (RoomSleep, force, false, d, w)
    else if negb force && (usage (mem_ d) <=? write_buffer_size) then Ret (RoomReturn OK, force, allow_delay, d, w)
    else if bool_decide (imm_ d <> None) then Ret (RoomWait, force, allow_delay, Wait me d, w)
    else if kL0_StopWritesTrigger <=? n then Ret (RoomWait, force, allow_delay, Wait me d, w)
    else
      assert! (VS.prev_log_number_ (de_versions w) =? 0);
      let '(new_log_number, w) := ce_NewFileNumber w in
      fname ← LogFileName dbname new_log_number;
      let '(s, lfile, w) := ce_NewWritableFile fname w in
      if negb (ok s) then Ret (RoomReturn s, force, allow_delay, d, de_set_versions (VS.ReuseFileNumber new_log_number (de_versions w)) w)
      else
        match lfile with
        | None => Undef
        | Some lfile =>
            log ← Writer_new addr lfile;
            mem ← MemTable_new;
            let d := MkDBImpl F (Ref mem) (Some (mem_ d)) log new_log_number (bg_error_ d) (bg_compaction_scheduled_ d) (manual_compaction_ d) (bg_cv_ d) in
            Ret (RoomAgain, false, allow_delay, MaybeScheduleCompaction d w, w)
        end.

(** *** Reads and requests *)

(** The end of [Get], and of [RecordReadSample]: the statistics of a read. *)
Definition record_read (stats : GetStats) (d : DBImpl F) (w : W) : outcome (DBImpl F * W) :=
  '(changed, v) ← UpdateStats stats (de_seeks w);
  let w := de_set_seeks v w in
  Ret (if (changed : bool) then MaybeScheduleCompaction d w else d, w).

(** A turn of the loop of [TEST_CompactRange] with the request [m] of thread [me]: the loop
    ends, or the request is made if there is no other, or the thread waits. *)
Definition request_compaction (me : nat) (m : ManualCompaction) (d : DBImpl F) (w : W) : DBImpl F :=
  if m_done m || ce_shutting_down w || negb (ok (bg_error_ d)) then d
  else match manual_compaction_ d with None => MaybeScheduleCompaction (set_manual d (Some m)) w | Some _ => Wait me d end.

(** A turn of the loop of [TEST_CompactMemTable]. *)
Definition await_flush (me : nat) (d : DBImpl F) : DBImpl F := if bool_decide (imm_ d <> None) && ok (bg_error_ d) then Wait me d else d.

(** A turn of the loop of the destructor. *)
Definition await_background (me : nat) (d : DBImpl F) : DBImpl F := if bg_compaction_scheduled_ d then Wait me d else d.
End Ops.

(** ** A writer that waits is woken *)

(** What the calls leave alone. *)
Class DbEnvLaws (W F I : Type) `{DbEnv W F I} : Prop := {
  dl_number w n w' : ce_NewFileNumber w = (n, w') -> VS.current_ (de_versions w') = VS.current_ (de_versions w) /\ de_seeks w' = de_seeks w /\ ce_shutting_down w' = ce_shutting_down w;
  dl_open name w s f w' : ce_NewWritableFile name w = (s, f, w') -> de_versions w' = de_versions w /\ de_seeks w' = de_seeks w /\ ce_shutting_down w' = ce_shutting_down w;
  dl_versions vs w : de_versions (de_set_versions vs w) = vs /\ de_seeks (de_set_versions vs w) = de_seeks w /\ ce_shutting_down (de_set_versions vs w) = ce_shutting_down w;
  dl_seeks v w : de_seeks (de_set_seeks v w) = v /\ de_versions (de_set_seeks v w) = de_versions w /\ ce_shutting_down (de_set_seeks v w) = ce_shutting_down w;
}.

(** Doubles: the order that scores are compared in. *)
Lemma sf_le_lt a b d : SFleb a b = true -> SFltb b d = true -> SFleb a d = true.
Proof.
  assert (forall x y, CompareSpec (x = y) (x < y)%positive (y < x)%positive (PosDef.Pos.compare_cont Eq x y)) as Hc by (intros x y; exact (Pos.compare_spec x y)).
  unfold SFleb, SFltb. destruct a as [[]|[]| |[] ma ea], b as [[]|[]| |[] mb eb], d as [[]|[]| |[] md ed]; cbn [SFcompare]; try done;
    destruct (Z.compare_spec ea eb), (Z.compare_spec eb ed), (Z.compare_spec ea ed); subst; try lia; try done;
    destruct (Hc ma mb), (Hc mb md), (Hc ma md); subst; cbn; try done; try lia.
Qed.

Lemma best_level_grows files : forall level best, SFleb (Z2double 1) best.1 = true -> SFleb (Z2double 1) (best_level level files best).1 = true.
Proof.
  induction files as [|l files IH]; intros level best Hb; [done|]. destruct files as [|l' files]; [done|]. apply (IH (level + 1)).
  destruct (SFltb best.1 (level_score level l)) eqn:E; [|done]. by apply (sf_le_lt _ best.1).
Qed.

(** Scores of 4 up to 1000 files of level 0. *)
Lemma level0_scores n : (4 <= n <= 1000)%nat -> let score := SFdiv 53 1024 (Z2double (Z.of_nat n)) (Z2double kL0_CompactionTrigger) in SFltb (Z2double (-1)) score = true /\ SFleb (Z2double 1) score = true.
Proof.
  intros Hn. set (p := fun n : nat => let score := SFdiv 53 1024 (Z2double (Z.of_nat n)) (Z2double kL0_CompactionTrigger) in SFltb (Z2double (-1)) score && SFleb (Z2double 1) score).
  assert (forallb p (seq 4 997) = true) as Hall by (vm_compute; reflexivity). rewrite forallb_forall in Hall. specialize (Hall n ltac:(apply in_seq; lia)). by apply andb_true_iff in Hall.
Qed.

Lemma level0_compaction files l : Z.of_nat (length files) = kNumLevels -> files !! 0%nat = Some l -> (4 <= length l <= 1000)%nat -> SFleb (Z2double 1) (compaction_score_ (Finalize files)) = true.
Proof.
  intros Hn Hl Hlen. unfold kNumLevels in Hn. destruct files as [|l0 [|l1 files]]; [done|cbn in Hn; lia|]. injection Hl as ->. unfold Finalize.
  destruct (level0_scores (length l) Hlen) as [H1 H2]. pose proof (best_level_grows (l1 :: files) 1 (level_score 0 l, 0) H2) as Hg.
  assert (best_level 0 (l :: l1 :: files) (Z2double (-1), -1) = best_level 1 (l1 :: files) (level_score 0 l, 0)) as ->.
  { change (best_level 0 (l :: l1 :: files) (Z2double (-1), -1)) with (best_level 1 (l1 :: files) (if SFltb (Z2double (-1)) (level_score 0 l) then (level_score 0 l, 0) else (Z2double (-1), -1))). unfold level_score at 1. cbn [Z.eqb]. by rewrite H1. }
  by destruct (best_level 1 (l1 :: files) (level_score 0 l, 0)).
Qed.

Lemma level_files_0 files l : files !! 0%nat = Some l -> level_files files 0 = Ret l.
Proof. intros E. unfold level_files. change (files !! Z.to_nat 0) with (files !! 0%nat). by rewrite E. Qed.

(** The flush of the immutable memtable ends with it gone, or with an error. *)
Lemma compact_memtable_done {W F I} `{CompactionEnv W F} `{FlushEnv W} `{!DbEnv W F I} c snappy addr options dbname fuel (d : DBImpl F) (w : W) d' w' :
  CompactMemTable (I := I) c snappy addr options dbname fuel d w = Ret (d', w') -> imm_ d' = None \/ ok (bg_error_ d') = false.
Proof.
  unfold CompactMemTable. destruct (imm_ d) as [imm|]; [|done]. destruct (WriteLevel0Table _ _ _ _ _ _ _ _ _ _) as [[[s e] w1]| |]; [|done..]. run. destruct (if ok s && _ then _ else _) as [s1| |]; [|done..]. run.
  destruct (if ok s1 then _ else _) as [[s2 w2]| |]; [|done..]. run. destruct (ok s2) eqn:E2; intros [= <- _]; [by left|]. right. unfold RecordBackgroundError. by destruct (ok (bg_error_ d)) eqn:Ee.
Qed.

(** ** The parts of a background call *)

(** What a part of a background call, between two moments when it lets go of the mutex,
    does to the database: the call stays scheduled, and when an error is recorded every
    thread that waits is woken. *)
Definition part {F} (d d' : DBImpl F) : Prop :=
  bg_compaction_scheduled_ d' = bg_compaction_scheduled_ d /\ (bg_cv_ d' = [] \/ bg_cv_ d' = bg_cv_ d /\ bg_error_ d' = bg_error_ d).

#[global] Instance part_preorder F : PreOrder (@part F).
Proof. split; [intros d; split; [done|by right]|]. intros d1 d2 d3 [E1 H1] [E2 H2]. split; [congruence|]. destruct H2 as [?|[E3 E4]]; [by left|]. rewrite E3, E4. destruct H1 as [?|[? ?]]; [by left|by right]. Qed.

(** One bind of a computation that returned. *)
#[local] Ltac bind_ret E :=
  match type of E with
  | mbind _ ?x = Ret _ => let v := fresh "v" in let Ev := fresh "Ev" in destruct x as [v| |] eqn:Ev; cbn [mbind outcome_bind] in E; [|discriminate E..]
  end.

Section Parts.
Context {W F I : Type} `{CompactionEnv W F} `{FlushEnv W} `{IterView I} `{!IterMoves W I} `{!DbEnv W F I}.
Context (c : Comparator) (snappy : option snappy_lib) (addr : Z) (options : Options) (dbname : bytes) (fuel : nat).
#[local] Existing Instance db_env.
#[local] Existing Instance db_moves.
Abbreviation env := (db_env (I := I) c snappy addr options dbname fuel).

Lemma error_part s (d : DBImpl F) : part d (RecordBackgroundError s d).
Proof. unfold RecordBackgroundError. case_match; [split; [done|by left]|reflexivity]. Qed.

Lemma memtable_part n (d : DBImpl F) (w : W) d' w' : CompactMemTable (I := I) c snappy addr options dbname n d w = Ret (d', w') -> part d d'.
Proof.
  unfold CompactMemTable. destruct (imm_ d) as [imm|]; [|done]. intros E. bind_ret E. destruct v as [[s e] w1]. bind_ret E. bind_ret E. destruct v0 as [s2 w2].
  destruct (ok s2); injection E as <- _; [split; [done|by right]|apply error_part].
Qed.

Lemma finish_part s st x r st' x' : DC.FinishCompactionOutputFile (H0 := env) snappy addr dbname s st x = Ret (r, st', x') -> x'.1 = x.1.
Proof.
  unfold DC.FinishCompactionOutputFile. intros E. destruct (DC.builder st) as [b|]; [|done]. destruct (last _) as [o|]; [|done]. destruct (negb _); [|done]. bind_ret E. destruct v as [s1 b1]. bind_ret E. bind_ret E.
  assert (forall s y, (if ok s1 then ce_Sync (CompactionEnv := env) v0 (TB.file b1) x else (s1, x)) = (s, y) -> y.1 = x.1) as H3.
  { intros s3 y. destruct (ok s1); [|by intros E3; simplify_eq]. cbn. destruct (ce_Sync v0 (TB.file b1) _.2). by intros E3; simplify_eq. }
  destruct (if ok s1 then _ else _) as [s2 y]. specialize (H3 s2 y eq_refl).
  assert (forall s z, (if ok s2 then ce_Close (CompactionEnv := env) v0 (TB.file b1) y else (s2, y)) = (s, z) -> z.1 = y.1) as H4.
  { intros s4 z. destruct (ok s2); [|by intros E3; simplify_eq]. cbn. destruct (ce_Close v0 (TB.file b1) _.2). by intros E3; simplify_eq. }
  destruct (if ok s2 then _ else _) as [s5 z]. specialize (H4 s5 z eq_refl). bind_ret E. destruct v1 as [s6 u]. injection E as _ _ <-. rewrite <- H3, <- H4.
  destruct (ok s5 && _); [|by injection Ev2 as _ <-]. cbn in Ev2. bind_ret Ev2. destruct v1. by injection Ev2 as _ <-.
Qed.

Lemma open_part st x r st' x' : DC.OpenCompactionOutputFile (H0 := env) options dbname st x = Ret (r, st', x') -> x'.1 = x.1.
Proof.
  unfold DC.OpenCompactionOutputFile. intros E. destruct (DC.builder st); [done|]. cbn in E. destruct (ce_NewFileNumber x.2) as [n w]. bind_ret E. cbn in E. destruct (ce_NewWritableFile v _) as [[s f] w']. destruct (ok s); [|by injection E as _ _ <-].
  destruct f; [|done]. bind_ret E. by injection E as _ _ <-.
Qed.

Lemma add_part key value s st x r st' x' : DC.add_entry (H0 := env) snappy addr options dbname key value s st x = Ret (r, st', x') -> x'.1 = x.1.
Proof.
  unfold DC.add_entry. intros E. bind_ret E. destruct v as [[r1 st1] x1]. assert (x1.1 = x.1) as <- by (destruct (DC.builder st); [by injection Ev as _ _ <-|by apply open_part in Ev]).
  destruct (negb (ok r1)); [by injection E as _ _ <-|]. destruct (DC.builder st1); [|done]. bind_ret E. bind_ret E. bind_ret E. case_match; [by apply finish_part in E|by injection E as _ _ <-].
Qed.

Lemma imm_part x x' : ce_CompactImm (CompactionEnv := env) x = Ret x' -> part x.1 x'.1.
Proof.
  cbn. destruct (imm_ x.1); [|by intros [= <-]]. intros E. bind_ret E. destruct v as [d w]. injection E as <-. apply memtable_part in Ev. transitivity d; [done|]. split; [done|by left].
Qed.

Lemma move_part op (it it' : I) (x x' : DBImpl F * W) : it_move (IterMoves := db_moves) op it x = Ret (it', x') -> x'.1 = x.1.
Proof. unfold db_moves, it_move. intros E. bind_ret E. destruct v. by injection E as _ <-. Qed.

Lemma loop_part n : forall (input : I) ks st x r input' st' x', DC.compact_loop (H0 := env) (H2 := db_moves) c snappy addr options dbname n input ks st x = Ret (r, input', st', x') -> part x.1 x'.1.
Proof.
  induction n as [|n IH]; intros input ks st x r input' st' x' E; [done|]. cbn [DC.compact_loop] in E. destruct (it_Valid input && _); [|injection E as _ _ _ <-; reflexivity]. bind_ret E. apply imm_part in Ev. transitivity v.1; [done|]. clear Ev.
  bind_ret E. bind_ret E. destruct v1 as [stop x1]. bind_ret E. bind_ret E. destruct v2 as [[r2 st2] x2].
  assert (x2.1 = v.1) as <- by (destruct stop; [cbn in Ev2; destruct (DC.builder st); [by apply finish_part in Ev2|]|]; by injection Ev2 as _ _ <-). clear Ev2.
  destruct (negb (ok r2)); [by injection E as _ _ _ <-|]. bind_ret E. destruct v2 as [[drop ks'] x3]. bind_ret E. destruct v2 as [[r3 st3] x4].
  assert (x4.1 = x2.1) as <- by (destruct drop; [by injection Ev3 as _ _ <-|]; bind_ret Ev3; by apply add_part in Ev3). destruct (negb (ok r3)); [by injection E as _ _ _ <-|]. bind_ret E. destruct v2 as [it' x5]. apply move_part in Ev4 as <-. by apply IH in E.
Qed.

Lemma work_part snapshots seq (input : I) x y r st y' : DC.DoCompactionWork (H0 := env) (H2 := db_moves) c snappy addr options dbname fuel snapshots seq input x y = Ret (r, st, y') -> part y.1 y'.1.
Proof.
  unfold DC.DoCompactionWork. intros E. bind_ret E. destruct (0 <? v); [|done]. bind_ret E. destruct v0 as [it y1]. apply move_part in Ev0 as <-. bind_ret E. destruct v0 as [[[r1 it2] st2] y2]. apply loop_part in Ev0. transitivity y2.1; [done|]. clear Ev0.
  bind_ret E. bind_ret E. bind_ret E. destruct v2 as [[r3 st3] y3]. assert (y3.1 = y2.1) as <- by (destruct (ok v0); [destruct (DC.builder st2); [by apply finish_part in Ev2|]|]; by injection Ev2 as _ _ <-).
  destruct (ok (if ok r3 then v1 else r3)); [|by injection E as _ _ <-]. bind_ret E. destruct v2 as [r4 y4]. injection E as _ _ <-. cbn in Ev3. bind_ret Ev3. destruct v2. by injection Ev3 as _ <-.
Qed.

Lemma compaction_part snapshots manual x d w r d' w' : run_compaction (I := I) c snappy addr options dbname fuel snapshots manual x d w = Ret (r, d', w') -> part d d'.
Proof.
  unfold run_compaction. intros E. destruct (negb manual && _); bind_ret E.
  - bind_ret E. destruct v0 as [s w1]. injection E as _ <- _. destruct (ok s); [done|apply error_part].
  - destruct v as [[s st] [d1 w1]]. apply work_part in Ev. transitivity d1; [done|]. bind_ret E. injection E as _ <- _. destruct (ok s); [done|apply error_part].
Qed.

(** What [BackgroundCall] does before its end is such a part. *)
Lemma background_part snapshots d w d' w' m : BackgroundCompaction (I := I) c snappy addr options dbname fuel snapshots d w = Ret (d', w', m) -> part d d'.
Proof.
  unfold BackgroundCompaction. intros E. destruct (imm_ d) as [imm|]; [|destruct (manual_compaction_ d) as [mc|]]; bind_ret E.
  - destruct v as [d1 w1]. injection E as <- _ _. by apply memtable_part in Ev.
  - destruct v as [x vs]. bind_ret E. destruct v as [[[s d1] w1] m1]. injection E as <- _ _. transitivity d1; [|split; [done|by right]]. destruct x as [x|]; [|by injection Ev0 as _ <- _ _].
    destruct (last (inputs0 x)); [|done]. bind_ret Ev0. destruct v as [[s2 d2] w2]. injection Ev0 as _ <- _ _. by apply compaction_part in Ev1.
  - destruct v as [x vs]. destruct x as [x|]; [|by injection E as <- _ _]. bind_ret E. destruct v as [[s2 d2] w2]. injection E as <- _ _. by apply compaction_part in Ev0.
Qed.
End Parts.

Section Waiting.
Context {W F I : Type} `{CompactionEnv W F} `{FlushEnv W} `{IterView I} `{!IterMoves W I} `{!DbEnv W F I} `{!DbEnvLaws W F I}.
Context (c : Comparator) (snappy : option snappy_lib) (addr : Z) (options : Options) (dbname : bytes) (usage : MemTable -> Z) (write_buffer_size : Z).

Definition work (d : DBImpl F) (w : W) : Prop := imm_ d <> None \/ manual_compaction_ d <> None \/ needs_compaction (I := I) w = true.

(** Work to do is scheduled, unless no more work is done. *)
Definition awake (d : DBImpl F) (w : W) : Prop := work d w -> bg_compaction_scheduled_ d = true \/ ce_shutting_down w = true \/ ok (bg_error_ d) = false.

(** A version as [LogAndApply] leaves it, with no more level-0 files than doubles tell
    apart. *)
Definition finalized (w : W) : Prop :=
  let v := VS.current_ (de_versions w) in
  v = Finalize (files_ v) /\ Z.of_nat (length (files_ v)) = kNumLevels /\ forall l, files_ v !! 0%nat = Some l -> (length l <= 1000)%nat.

(** The steps of all threads, each under the mutex: a turn of the loop that makes room for
    a write; a commit, and one whose [Sync] failed; a read; a turn of a manual compaction,
    its end, and a turn of [TEST_CompactMemTable]; a part of a background call, its end,
    and a call as a whole; the destructor; and a wait that ends for no reason. *)
Inductive step : DBImpl F * W -> DBImpl F * W -> Prop :=
| StepRoom me force delay d w r force' delay' d' w' :
    finalized w -> room_step (I := I) addr dbname usage write_buffer_size me force delay d w = Ret (r, force', delay', d', w') -> step (d, w) (d', w')
| StepCommit d w mem log : step (d, w) (MkDBImpl F mem (imm_ d) log (logfile_number_ d) (bg_error_ d) (bg_compaction_scheduled_ d) (manual_compaction_ d) (bg_cv_ d), w)
| StepSyncError d w s : ok s = false -> step (d, w) (RecordBackgroundError s d, w)
| StepRead stats d w d' w' : record_read (I := I) stats d w = Ret (d', w') -> step (d, w) (d', w')
| StepRequest me m d w : step (d, w) (request_compaction (I := I) me m d w, w)
| StepCancel d w : step (d, w) (set_manual d None, w)
| StepFlush me d w : step (d, w) (await_flush me d, w)
| StepPart d w d' w' : bg_compaction_scheduled_ d = true -> part d d' -> (ce_shutting_down w = true -> ce_shutting_down w' = true) -> step (d, w) (d', w')
| StepCallEnds d w : bg_compaction_scheduled_ d = true -> step (d, w) (call_ends (I := I) d w, w)
| StepCall fuel snapshots d w d' w' m : BackgroundCall (I := I) c snappy addr options dbname fuel snapshots d w = Ret (d', w', m) -> step (d, w) (d', w')
| StepShutdown d w w' : ce_shutting_down w' = true -> step (d, w) (d, w')
| StepDestroy me d w : ce_shutting_down w = true -> step (d, w) (await_background me d, w)
| StepSpurious me d w : step (d, w) (set_cv d (filter (fun x => x <> me) (bg_cv_ d)), w).

Lemma schedule_awake d w : awake (MaybeScheduleCompaction (I := I) d w) w.
Proof.
  unfold awake, MaybeScheduleCompaction. destruct (bg_compaction_scheduled_ d) eqn:Es; [by left|]. destruct (ce_shutting_down w) eqn:Ed; [by right; left|]. destruct (ok (bg_error_ d)) eqn:Ee; cbn [negb]; [|by right; right].
  destruct (imm_ d) eqn:Ei; [by left|]. destruct (manual_compaction_ d) eqn:Em; [by left|]. destruct (needs_compaction (I := I) w) eqn:En; [by left|]. unfold work. rewrite Ei, Em, En. by intros [?|[?|?]].
Qed.

Lemma awake_env d w w' : VS.current_ (de_versions w') = VS.current_ (de_versions w) -> file_to_compact_ (de_seeks w') = file_to_compact_ (de_seeks w) -> ce_shutting_down w' = ce_shutting_down w -> awake d w -> awake d w'.
Proof. intros E1 E2 E3. unfold awake, work, needs_compaction. by rewrite E1, E2, E3. Qed.

Lemma update_stats_same st v v' : UpdateStats st v = Ret (false, v') -> file_to_compact_ v' = file_to_compact_ v.
Proof. unfold UpdateStats. intros E. repeat case_match; simplify_eq; cbn; congruence. Qed.

(** A thread that waits does so while a background call is scheduled and nothing failed,
    or in the destructor. *)
Definition guarded (d : DBImpl F) (w : W) : Prop :=
  awake d w /\ (bg_cv_ d <> [] -> ce_shutting_down w = true \/ bg_compaction_scheduled_ d = true /\ ok (bg_error_ d) = true).

Lemma wait_guarded me d w : ok (bg_error_ d) = true -> work d w -> guarded d w -> guarded (Wait me d) w.
Proof. intros Ee Hw [Ha _]. split; [exact Ha|]. intros _. cbn. destruct (Ha Hw) as [?|[?|?]]; [by right|by left|congruence]. Qed.

Lemma schedule_cv d w : bg_cv_ (MaybeScheduleCompaction (I := I) d w) = bg_cv_ d /\ bg_error_ (MaybeScheduleCompaction (I := I) d w) = bg_error_ d /\ (bg_compaction_scheduled_ d = true -> bg_compaction_scheduled_ (MaybeScheduleCompaction (I := I) d w) = true).
Proof. unfold MaybeScheduleCompaction. by repeat case_match. Qed.

Lemma schedule_guarded d w : (bg_cv_ d <> [] -> ce_shutting_down w = true \/ bg_compaction_scheduled_ d = true /\ ok (bg_error_ d) = true) -> guarded (MaybeScheduleCompaction (I := I) d w) w.
Proof. intros Hc. split; [apply schedule_awake|]. destruct (schedule_cv d w) as (-> & -> & Hs). intros [?|[? ?]]%Hc; [by left|right; auto]. Qed.

Lemma guarded_env d w w' : VS.current_ (de_versions w') = VS.current_ (de_versions w) -> file_to_compact_ (de_seeks w') = file_to_compact_ (de_seeks w) -> ce_shutting_down w' = ce_shutting_down w -> guarded d w -> guarded d w'.
Proof. intros E1 E2 E3 [Ha Hc]. split; [by apply (awake_env d w)|by rewrite E3]. Qed.

Lemma woken_guarded d w : awake d w -> bg_cv_ d = [] -> guarded d w.
Proof. intros Ha Ec. split; [done|]. by rewrite Ec. Qed.

Lemma call_ends_awake d w : awake (call_ends (I := I) d w) w.
Proof. exact (schedule_awake (set_scheduled d false) w). Qed.

Lemma scheduled_awake d w : bg_compaction_scheduled_ d = true -> awake d w.
Proof. intros Es _. by left. Qed.

Lemma room_guarded me force delay d w r force' delay' d' w' :
  finalized w -> room_step (I := I) addr dbname usage write_buffer_size me force delay d w = Ret (r, force', delay', d', w') -> guarded d w -> guarded d' w'.
Proof.
  unfold room_step, NumLevelFiles. intros (Hfin & Hn & Hl0) E Ha. destruct (ok (bg_error_ d)) eqn:Ee; cbn [negb] in E; [|by simplify_eq].
  assert (exists l, files_ (VS.current_ (de_versions w)) !! 0%nat = Some l) as [l El] by (apply lookup_lt_is_Some_2; unfold kNumLevels in Hn; lia).
  rewrite (level_files_0 _ l El) in E. cbn [mbind outcome_bind] in E.
  destruct (delay && _); [by simplify_eq|]. destruct (negb force && _); [by simplify_eq|].
  destruct (bool_decide_reflect (imm_ d <> None)) as [Hi|_]; [injection E as _ _ _ <- <-; apply wait_guarded; [done|by left|done]|]. destruct (Z.leb_spec kL0_StopWritesTrigger (Z.of_nat (length l))) as [Hge|_].
  { injection E as _ _ _ <- <-. apply wait_guarded; [done| |done]. right. right. unfold needs_compaction, NeedsCompaction. rewrite Hfin, (level0_compaction _ l Hn El); [done|]. specialize (Hl0 l El). unfold kL0_StopWritesTrigger in Hge. lia. }
  destruct (VS.prev_log_number_ _ =? 0); [|done]. destruct (ce_NewFileNumber w) as [n w1] eqn:En. destruct (dl_number _ _ _ En) as (V1 & S1 & D1).
  destruct (LogFileName dbname n) as [fname| |]; [|done..]. cbn [mbind outcome_bind] in E. destruct (ce_NewWritableFile fname w1) as [[s lf] w2] eqn:Eo. destruct (dl_open _ _ _ _ _ Eo) as (V2 & S2 & D2).
  destruct (ok s); cbn [negb] in E.
  - destruct lf as [lf|]; [|done]. destruct (Writer_new addr lf) as [log| |]; [|done..]. destruct MemTable_new as [m| |]; [|done..]. cbn [mbind outcome_bind] in E. injection E as _ _ _ <- <-. apply schedule_guarded. cbn. rewrite D2, D1. apply Ha.
  - injection E as _ _ _ <- <-. destruct (dl_versions (VS.ReuseFileNumber n (de_versions w2)) w2) as (V3 & S3 & D3). apply (guarded_env d w); [|by rewrite S3, S2, S1|by rewrite D3, D2, D1|done].
    rewrite V3, <- V1, <- V2. unfold VS.ReuseFileNumber. by case_match.
Qed.

Lemma sync_error_guarded s d w : ok s = false -> guarded d w -> guarded (RecordBackgroundError s d) w.
Proof. intros Es Ha. unfold RecordBackgroundError. destruct (ok (bg_error_ d)); [|done]. apply woken_guarded; [|done]. intros _. by right; right. Qed.

Lemma request_guarded me m d w : guarded d w -> guarded (request_compaction (I := I) me m d w) w.
Proof.
  intros Ha. unfold request_compaction. destruct (m_done m || ce_shutting_down w); cbn [orb]; [done|]. destruct (ok (bg_error_ d)) eqn:Ee; cbn [negb]; [|done].
  destruct (manual_compaction_ d) eqn:Em; [apply wait_guarded; [done| |done]; right; left; by rewrite Em|apply schedule_guarded, Ha].
Qed.

Lemma step_guarded x y : step x y -> guarded x.1 x.2 -> guarded y.1 y.2.
Proof.
  intros Hs Ha. destruct Hs as [me force delay d w r force' delay' d' w' Hf E|d w mem log|d w s Es|stats d w d' w' E|me m d w|d w|me d w|d w d' w' Es [E1 E2] Ed|d w Es|fuel snapshots d w d' w' m E|d w w' E|me d w E|me d w]; cbn [fst snd] in *.
  - by eapply room_guarded.
  - exact Ha.
  - by apply sync_error_guarded.
  - unfold record_read in E. destruct (UpdateStats stats (de_seeks w)) as [[changed v]| |] eqn:Eu; [|done..]. cbn [mbind outcome_bind] in E. destruct (dl_seeks v w) as (S1 & V1 & D1). destruct changed; injection E as <- <-; [apply schedule_guarded; rewrite D1; apply Ha|].
    apply (guarded_env d w); [by rewrite V1|by rewrite S1, (update_stats_same _ _ _ Eu)|done|done].
  - by apply request_guarded.
  - destruct Ha as [Ha Hc]. split; [|done]. intros [Hw|[Hw|Hw]]; [|done|]; apply Ha; [by left|by right; right].
  - unfold await_flush. destruct (bool_decide_reflect (imm_ d <> None)) as [Hi|_]; [|done]. destruct (ok (bg_error_ d)) eqn:Ee; cbn [andb]; [|done]. apply wait_guarded; [done|by left|done].
  - split; [apply scheduled_awake; congruence|]. destruct Ha as [_ Hc]. rewrite E1, Es in *. destruct E2 as [->|[-> ->]]; [done|]. intros [?|[? ?]]%Hc; [left; auto|by right].
  - apply woken_guarded; [apply call_ends_awake|done].
  - unfold BackgroundCall in E. destruct (bg_compaction_scheduled_ d); [|done]. destruct (if ce_shutting_down w then _ else _) as [[[d1 w1] m1]| |]; [|done..]. cbn [mbind outcome_bind] in E. injection E as <- <- _. apply woken_guarded; [apply call_ends_awake|done].
  - split; [intros _; by right; left|by left].
  - unfold await_background. destruct (bg_compaction_scheduled_ d) eqn:Es; [|done]. split; [by apply scheduled_awake|by left].
  - destruct Ha as [Ha Hc]. split; [exact Ha|]. cbn. intros Hne. apply Hc. by destruct (bg_cv_ d).
Qed.

Lemma reached_guarded x y : rtc step x y -> guarded x.1 x.2 -> guarded y.1 y.2.
Proof. induction 1 as [|x z y Hs _ IH]; [done|]. intros Ha. by apply IH, (step_guarded x). Qed.

Lemma room_waits me force delay d w force' delay' d' w' : room_step (I := I) addr dbname usage write_buffer_size me force delay d w = Ret (RoomWait, force', delay', d', w') -> d' = Wait me d /\ w' = w.
Proof.
  unfold room_step. intros E. destruct (negb _); [done|]. bind_ret E. destruct (delay && _); [done|]. destruct (negb force && _); [done|]. destruct (bool_decide _); [by simplify_eq|]. destruct (_ <=? _); [by simplify_eq|].
  destruct (_ =? 0); [|done]. destruct (ce_NewFileNumber w) as [n w1]. bind_ret E. destruct (ce_NewWritableFile _ w1) as [[s lf] w2]. destruct (negb _); [done|]. destruct lf; [|done]. bind_ret E. bind_ret E. done.
Qed.

(** C14: no wakeup is lost.  Whatever the threads of an open database do, in any order, and
    wherever a background call lets go of the mutex: while some thread waits on bg_cv_ (a
    writer that MakeRoomForWrite makes wait, a manual compaction, the wait for a flush, or
    the destructor) a background call is scheduled and no error was recorded, or the
    database is shut down.  The end of a background call wakes every thread that waits,
    and a background error does.  A call that runs as a whole also removes the cause of a
    wait for the immutable memtable: it leaves none, or records an error, which ends the
    wait.  A writer that MakeRoomForWrite makes wait is one of the threads that wait. *)
Theorem waiting_writers_are_woken d0 w0 d w :
  awake d0 w0 -> bg_cv_ d0 = [] -> rtc step (d0, w0) (d, w) ->
  (bg_cv_ d <> [] -> ce_shutting_down w = true \/ bg_compaction_scheduled_ d = true /\ ok (bg_error_ d) = true) /\
  bg_cv_ (call_ends (I := I) d w) = [] /\
  (forall s, ok (bg_error_ d) = true -> bg_cv_ (RecordBackgroundError s d) = []) /\
  (forall fuel snapshots d2 w2 m, BackgroundCall (I := I) c snappy addr options dbname fuel snapshots d w = Ret (d2, w2, m) ->
    bg_cv_ d2 = [] /\ (imm_ d <> None -> ce_shutting_down w = false -> imm_ d2 = None \/ ok (bg_error_ d2) = false)) /\
  (forall me force delay force' delay' d' w', finalized w -> room_step (I := I) addr dbname usage write_buffer_size me force delay d w = Ret (RoomWait, force', delay', d', w') ->
    me ∈ bg_cv_ d' /\ (ce_shutting_down w' = true \/ bg_compaction_scheduled_ d' = true)).
Proof.
  intros Ha0 Hc0 Hr. assert (guarded d w) as Hg by (apply (reached_guarded _ _ Hr), woken_guarded; done). split_and!; [apply Hg|done|by intros s He; unfold RecordBackgroundError; rewrite He| |].
  - intros fuel snapshots d2 w2 m E. unfold BackgroundCall in E. destruct (bg_compaction_scheduled_ d); [|done]. bind_ret E. destruct v as [[d1 w1] m1]. injection E as <- <- _. split; [done|]. intros Hi Hd. rewrite Hd in Ev.
    assert (imm_ d1 = None \/ ok (bg_error_ d1) = false) as Hdone.
    { destruct (ok (bg_error_ d)) eqn:Ee; cbn [negb] in Ev; [|injection Ev as <- _ _; by right]. unfold BackgroundCompaction in Ev. destruct (imm_ d) as [imm|]; [|done]. bind_ret Ev. destruct v as [d3 w3]. injection Ev as <- _ _. by apply compact_memtable_done in Ev0. }
    unfold call_ends, MaybeScheduleCompaction, set_scheduled. cbn. by repeat case_match.
  - intros me force delay force' delay' d' w' Hf E. destruct (room_guarded _ _ _ _ _ _ _ _ _ _ Hf E Hg) as [_ Hc]. apply room_waits in E as [-> ->]. split; [by left|]. destruct (Hc ltac:(done)) as [?|[? _]]; [by left|by right].
Qed.
End Waiting.

(** ** Obsolete files *)

(** The directory loses the file that is deleted, and the table cache has no part in it. *)
Class DirectoryLaws (W F I : Type) `{DbEnv W F I} `{FlushEnv W} (dbname : bytes) : Prop := {
  dr_delete name w : de_children (fe_DeleteFile (dbname ++ str "/" ++ name) w) = filter (fun x => x <> name) (de_children w);
  dr_evict n w : de_children (de_Evict n w) = de_children w;
}.

Lemma live_level l : forall live n, n ∈ foldl (fun (live : gset Z) f => {[number f]} ∪ live) live l <-> n ∈ live \/ n ∈ number <$> l.
Proof. induction l as [|f l IH]; intros live n; cbn [foldl fmap list_fmap]; [set_solver|]. rewrite IH, elem_of_cons. set_solver. Qed.

Lemma live_version v : forall live n, n ∈ foldl (foldl (fun (live : gset Z) f => {[number f]} ∪ live)) live v <-> n ∈ live \/ n ∈ number <$> concat v.
Proof. induction v as [|l v IH]; intros live n; cbn [foldl concat fmap list_fmap]; [set_solver|]. rewrite IH, live_level, fmap_app, elem_of_app. tauto. Qed.

Lemma live_files vs : forall live n, n ∈ AddLiveFiles vs live <-> n ∈ live \/ n ∈ number <$> concat (concat vs).
Proof. unfold AddLiveFiles. induction vs as [|v vs IH]; intros live n; cbn [foldl concat]; [set_solver|]. rewrite IH, live_version, concat_app, fmap_app, elem_of_app. tauto. Qed.

Lemma filter_agree {A} (P Q : A -> Prop) `{!forall x, Decision (P x), !forall x, Decision (Q x)} (l : list A) : (forall x, x ∈ l -> P x <-> Q x) -> filter P l = filter Q l.
Proof.
  induction l as [|x l IH]; intros Hpq; [done|]. rewrite !filter_cons. rewrite IH by (intros y Hy; apply Hpq; by right).
  destruct (decide (P x)) as [Hp|Hp], (decide (Q x)) as [Hq|Hq]; try done; exfalso; [apply Hq|apply Hp]; apply Hpq; try done; by left.
Qed.

Section Obsolete.
Context {W F I : Type} `{CompactionEnv W F} `{FlushEnv W} `{!DbEnv W F I} (dbname : bytes) `{!DirectoryLaws W F I dbname}.

Definition keeps (vs : VS.VersionSet) (live : gset Z) (name : bytes) : bool := match ParseFileName name with Some (n, t) => keep_file vs live n t | None => true end.

Lemma delete_step vs live name (w : W) : de_children (delete_obsolete (I := I) dbname vs live name w) = filter (fun x => x <> name \/ keeps vs live x = true) (de_children w).
Proof.
  unfold delete_obsolete, keeps. assert (forall l : list bytes, (keeps vs live name = true) -> filter (fun x => x <> name \/ keeps vs live x = true) l = l) as Hall.
  { intros l Hk. apply filter_all. intros x _. destruct (decide (x = name)) as [->|]; [by right|by left]. }
  fold (keeps vs live). destruct (ParseFileName name) as [[n t]|] eqn:Ep; cycle 1.
  { symmetry. apply Hall. unfold keeps. by rewrite Ep. }
  destruct (keep_file vs live n t) eqn:Ek; [symmetry; apply Hall; unfold keeps; by rewrite Ep|]. rewrite dr_delete.
  assert (de_children match t with kTableFile => de_Evict n w | _ => w end = de_children w) as -> by (destruct t; try done; apply dr_evict).
  apply list_filter_iff. intros x. split; [by left|]. intros [?|Hx] ->; [done|]. unfold keeps in Hx. by rewrite Ep, Ek in Hx.
Qed.

Lemma delete_steps vs live names : forall w : W, de_children (foldl (fun w' name => delete_obsolete (I := I) dbname vs live name w') w names) = filter (fun x => x ∉ names \/ keeps vs live x = true) (de_children w).
Proof.
  induction names as [|name names IH]; intros w; cbn [foldl].
  - symmetry. apply filter_all. intros x _. left. apply not_elem_of_nil.
  - rewrite IH, delete_step, list_filter_filter. apply list_filter_iff. intros x. rewrite not_elem_of_cons. tauto.
Qed.

(** C16: only files that nobody needs are deleted.  After DeleteObsoleteFiles the
    directory has exactly the files that were kept; among them are the tables of every
    version in use and of the outputs that are being written, the logs from the current
    one on and the one before it, the manifest in use, and every file whose name the
    database does not know.  After a background error nothing is deleted. *)
Theorem obsolete_files_exact (d : DBImpl F) (w : W) :
  let w' := DeleteObsoleteFiles (I := I) dbname d w in let vs := de_versions w in
  if ok (bg_error_ d) then
    de_children w' = filter (fun x => keeps vs (AddLiveFiles (de_in_use w) (de_pending_outputs w)) x = true) (de_children w) /\
    forall x, x ∈ de_children w ->
      (exists n, 0 < n < 2 ^ 64 /\ (n ∈ de_pending_outputs w \/ n ∈ number <$> concat (concat (de_in_use w))) /\ TableFileName dbname n = Ret (dbname ++ str "/" ++ x)) \/
      (exists n, 0 < n < 2 ^ 64 /\ (VS.log_number_ vs <= n \/ n = VS.prev_log_number_ vs) /\ LogFileName dbname n = Ret (dbname ++ str "/" ++ x)) \/
      (exists n, 0 < n < 2 ^ 64 /\ VS.manifest_file_number_ vs <= n /\ DescriptorFileName dbname n = Ret (dbname ++ str "/" ++ x)) \/
      CurrentFileName dbname = dbname ++ str "/" ++ x \/ ParseFileName x = None ->
      x ∈ de_children w'
  else w' = w.
Proof.
  unfold DeleteObsoleteFiles. destruct (ok (bg_error_ d)); cbn [negb]; [|done]. set (live := AddLiveFiles _ _).
  assert (de_children (foldl (fun w' name => delete_obsolete (I := I) dbname (de_versions w) live name w') w (de_children w)) = filter (fun x => keeps (de_versions w) live x = true) (de_children w)) as E.
  { rewrite delete_steps. apply filter_agree. intros x Hx. tauto. }
  split; [exact E|]. intros x Hx Hk. rewrite E. apply list_elem_of_filter. split; [|done]. unfold keeps.
  assert (forall a b : bytes, dbname ++ str "/" ++ a = dbname ++ str "/" ++ b -> a = b) as Hinj by (intros a b Eab; apply app_inv_head in Eab; by apply app_inv_head in Eab).
  destruct Hk as [(n & Hn & Hlive & Ef)|[(n & Hn & Hlog & Ef)|[(n & Hn & Hm & Ef)|[Ef| ->]]]]; [| | | |done].
  - unfold TableFileName, positive_number, MakeFileName in Ef. rewrite (proj2 (Z.ltb_lt _ _)) in Ef by lia. injection Ef as Ef. apply Hinj in Ef as <-. change (str "." ++ str "ldb") with (x2e :: str "ldb"). rewrite parse_digit_name by lia.
    cbn. apply bool_decide_eq_true_2. by apply live_files.
  - unfold LogFileName, positive_number, MakeFileName in Ef. rewrite (proj2 (Z.ltb_lt _ _)) in Ef by lia. injection Ef as Ef. apply Hinj in Ef as <-. change (str "." ++ str "log") with (x2e :: str "log"). rewrite parse_digit_name by lia.
    cbn. apply orb_true_iff. rewrite Z.leb_le, Z.eqb_eq. done.
  - unfold DescriptorFileName, positive_number in Ef. rewrite (proj2 (Z.ltb_lt _ _)) in Ef by lia. injection Ef as Ef. apply (Hinj (str "MANIFEST-" ++ print_06 n)) in Ef as <-.
    rewrite parse_manifest by lia. cbn. by apply Z.leb_le.
  - apply (Hinj (str "CURRENT")) in Ef as <-. done.
Qed.
End Obsolete.

(** ** Examples *)

(** A database in memory, whose directory is ["db"]. *)
Record toy_world := MkToy { t_versions : VS.VersionSet; t_seeks : Seeks; t_in_use : list (list (list FileMetaData)); t_pending : gset Z; t_children : list bytes; t_down : bool }.

Definition toy_versions (w : toy_world) (vs : VS.VersionSet) : toy_world := MkToy vs (t_seeks w) (t_in_use w) (t_pending w) (t_children w) (t_down w).
Definition toy_pending (w : toy_world) (p : gset Z) : toy_world := MkToy (t_versions w) (t_seeks w) (t_in_use w) p (t_children w) (t_down w).
Definition toy_seeks (w : toy_world) (v : Seeks) : toy_world := MkToy (t_versions w) v (t_in_use w) (t_pending w) (t_children w) (t_down w).
Definition toy_children (w : toy_world) (l : list bytes) : toy_world := MkToy (t_versions w) (t_seeks w) (t_in_use w) (t_pending w) l (t_down w).

#[local] Instance toy_env : CompactionEnv toy_world bytes := {|
  ce_NewFileNumber w := let '(n, vs) := VS.NewFileNumber (t_versions w) in (n, toy_versions w vs);
  ce_pending_insert n w := toy_pending w ({[n]} ∪ t_pending w);
  ce_pending_erase n w := toy_pending w (t_pending w ∖ {[n]});
  ce_NewWritableFile _ w := (OK, Some [], w);
  ce_Sync _ _ w := (OK, w);
  ce_Close _ _ w := (OK, w);
  ce_Usable _ _ w := Ret (OK, w);
  ce_shutting_down := t_down;
  ce_CompactImm w := Ret w;
  ce_LogAndApply _ w := Ret (OK, w);
  ce_NumLevelFiles level w := l ← level_files (files_ (VS.current_ (t_versions w))) level; Ret (Z.of_nat (length l));
|}.
#[local] Instance toy_flush : FlushEnv toy_world := fun path w => toy_children w (filter (fun x => str "db" ++ str "/" ++ x <> path) (t_children w)).
#[local] Instance toy_moves : IterMoves toy_world ListIterator := list_moves (internal_ord BytewiseComparator).
#[local] Instance toy_db : DbEnv toy_world bytes ListIterator := {|
  de_versions := t_versions;
  de_set_versions vs w := toy_versions w vs;
  de_seeks := t_seeks;
  de_set_seeks v w := toy_seeks w v;
  de_in_use := t_in_use;
  de_pending_outputs := t_pending;
  de_children := t_children;
  de_Evict _ w := w;
  de_MakeInputIterator _ _ := MkListIter [] 0;
|}.

#[local] Instance toy_db_laws : DbEnvLaws toy_world bytes ListIterator.
Proof. split; [intros w n w' [= <- <-]|intros name w s f w' [= <- <- <-]|intros vs w|intros v w]; done. Qed.

#[local] Instance toy_directory : DirectoryLaws toy_world bytes ListIterator (str "db").
Proof.
  split; [|done]. intros name w. cbn [de_children toy_db]. unfold fe_DeleteFile, toy_flush, toy_children. cbn [t_children]. apply list_filter_iff. intros x. split; intros Hx E; apply Hx; [by subst|]. by apply app_inv_head in E; apply app_inv_head in E.
Qed.

(** Table 7 is in use, table 5 is not. *)
Definition toy_state : toy_world :=
  MkToy (VS.MkVS 9 4 6 6 0 None (Finalize ([MkFile 7 100 (ikey (str "a") 3 kTypeValue) (ikey (str "c") 2 kTypeValue)] :: replicate 6 [])) no_pointers) (MkSeeks ∅ None)
    [[MkFile 7 100 (ikey (str "a") 3 kTypeValue) (ikey (str "c") 2 kTypeValue)] :: replicate 6 []] ∅ [str "CURRENT"; str "000005.ldb"; str "000007.ldb"; str "000003.log"; str "000006.log"; str "notes"] false.

Definition toy_db_state (m : MemTable) (log : Writer bytes) (imm : option MemTable) (scheduled : bool) : DBImpl bytes := MkDBImpl bytes m imm log 6 OK scheduled None [].

Lemma toy_log : exists log, Writer_new 0 ([] : bytes) = Ret log.
Proof. eexists. vm_compute. reflexivity. Qed.

Lemma obsolete_files_exact_witness : exists m log, MemTable_new = Ret m /\ Writer_new 0 ([] : bytes) = Ret log /\
  t_children (DeleteObsoleteFiles (I := ListIterator) (str "db") (toy_db_state m log None false) toy_state) = [str "CURRENT"; str "000007.ldb"; str "000006.log"; str "notes"].
Proof.
  destruct (mem_new BytewiseComparator) as (m & Em & _). destruct toy_log as [log El]. exists m, log. split; [done|]. split; [done|]. set (d := toy_db_state _ _ _ _). pose proof (obsolete_files_exact (I := ListIterator) (str "db") d toy_state) as Hx. cbv zeta in Hx.
  change (ok (bg_error_ d)) with true in Hx. cbn match in Hx. destruct Hx as [Hx _]. change (t_children ?w) with (de_children (I := ListIterator) w). rewrite Hx. vm_compute. reflexivity.
Defined.

Lemma toy_finalized : finalized (I := ListIterator) toy_state.
Proof. split; [vm_compute; reflexivity|]. split; [vm_compute; reflexivity|]. intros l. vm_compute. intros [= <-]. apply Nat.leb_le. vm_compute. reflexivity. Qed.

(** Thread 3 waits for the flush of the immutable memtable, which is scheduled. *)
Lemma waiting_writers_are_woken_witness : exists m log, MemTable_new = Ret m /\ Writer_new 0 ([] : bytes) = Ret log /\
  let d := toy_db_state m log (Some m) true in
  room_step (I := ListIterator) 0 (str "db") (fun _ => 100) 50 3 false false d toy_state = Ret (RoomWait, false, false, Wait 3 d, toy_state) /\
  (bg_cv_ (Wait 3 d) <> [] -> ce_shutting_down toy_state = true \/ bg_compaction_scheduled_ (Wait 3 d) = true /\ ok (bg_error_ (Wait 3 d)) = true).
Proof.
  destruct (mem_new BytewiseComparator) as (m & Em & _). destruct toy_log as [log El]. exists m, log. split; [done|]. split; [done|]. cbv zeta. set (d := toy_db_state m log (Some m) true).
  assert (room_step (I := ListIterator) 0 (str "db") (fun _ => 100) 50 3 false false d toy_state = Ret (RoomWait, false, false, Wait 3 d, toy_state)) as E by (vm_compute; reflexivity). split; [exact E|].
  refine (proj1 (waiting_writers_are_woken (I := ListIterator) BytewiseComparator None 0 sample_options (str "db") (fun _ => 100) 50 d toy_state (Wait 3 d) toy_state _ eq_refl _)).
  - intros _. by left.
  - apply rtc_once. eapply StepRoom; [exact toy_finalized|exact E].
Defined.
