(* ===== verification/DbRead.v ===== *)
(** * Reading (util/leveldb/db/db_impl.cc, [DBImpl::Get])

    A read looks into the memtable, the immutable memtable and the current version, in
    this order, and counts the seeks that it cost. *)

From S2P Require Import Prelude Slice Order CLib Bloom Coding DbFormat InternalOrder FileNames Status Files SkipList MemTable StdSet VersionEdit Version VersionBuilder LogFormat VersionSet Iterators Block TableFormat FilterBlock Table TableSpec TableGet VersionGet Compaction DbCompact CompactionRun MemIter FlushTable Background.
From stdpp Require Import strings sorting.
#[local] Open Scope Z_scope.

(** [snapshot] is the number of the snapshot of the options, if they have one.  The third
    and fourth component are the database after the read. *)
Definition DBImpl_Get {W F I} `{CompactionEnv W F} `{!DbEnv W F I} `{TableLookup W} (c : Comparator) (options : ReadOptions) (snapshot : option Z) (key : bytes) (d : DBImpl F) (w : W) :
    outcome (Status * option bytes * DBImpl F * W) :=
  let snapshot := default (VS.last_sequence_ (de_versions w)) snapshot in
  lkey ← LookupKey_new key snapshot;
  let done := fun (r : mem_get) =>
    match r with
    | MemValue v => Some (Ret (OK, Some v, d, w))
    | MemDeleted => Some (s ← NotFound_status [] []; Ret (s, None, d, w))
    | MemMissing => None
    end in
  r ← MemTable.Get c (mem_ d) lkey;
  match done r with
  | Some x => x
  | None =>
      r ← match imm_ d with Some imm => MemTable.Get c imm lkey | None => Ret MemMissing end;
      match done r with
      | Some x => x
      | None =>
          '(s, value, stats, w) ← Version_Get c (files_ (VS.current_ (de_versions w))) options lkey w;
          '(d, w) ← record_read (I := I) stats d w;
          Ret (s, value, d, w)
      end
  end.

(** ** The files that reads blame for seeks *)

Section Blame.
Context {T : Type} `{TableLookup T} (c : Comparator) (files : list (list FileMetaData)).

Definition placed (f : FileMetaData) (level : Z) : Prop := 0 <= level /\ exists l, files !! Z.to_nat level = Some l /\ f ∈ l.

(** A read blames a file above the last level; [below] bounds the level of the file that
    was read last. *)
Record blame_ok (below : Z) (r : Reads) : Prop := {
  bl_last f level : last_file_read r = Some (f, level) -> placed f level /\ level < below;
  bl_seek f : seek_file (stats r) = Some f -> placed f (seek_file_level (stats r)) /\ seek_file_level (stats r) < kNumLevels - 1;
}.

Lemma get_files_blame ro ik u level fs : 0 <= level < kNumLevels -> (forall f, f ∈ fs -> placed f level) -> (level < kNumLevels - 1 \/ (length fs <= 1)%nat) ->
  forall r t x r' t', blame_ok (kNumLevels - 1) r -> get_files c ro ik u level fs r t = Ret (x, r', t') -> blame_ok (if level <? kNumLevels - 1 then kNumLevels - 1 else kNumLevels) r'.
Proof.
  intros Hl. assert (forall r, blame_ok (kNumLevels - 1) r -> blame_ok (if level <? kNumLevels - 1 then kNumLevels - 1 else kNumLevels) r) as Hweak.
  { intros r [Hlast Hseek]. split; [|done]. intros f l E. destruct (Hlast f l E). split; [done|]. destruct (level <? kNumLevels - 1); lia. }
  induction fs as [|f fs IH]; intros Hfs Hone r t x r' t' Hr E; cbn [get_files] in E; [injection E as _ <- _; by apply Hweak|]. pose proof Hr as [Hlast Hseek].
  set (st := match last_file_read r, seek_file (stats r) with Some (f0, l0), None => MkStats (Some f0) l0 | _, _ => stats r end) in E. set (r1 := MkReads st (Some (f, level))) in *.
  assert (forall b, level < b -> blame_ok b r1) as Hr1.
  { intros b Hb. split; cbn [last_file_read stats r1].
    - intros f1 l1 [= <- <-]. split; [apply Hfs; by left|done].
    - intros f1. unfold st. destruct (last_file_read r) as [[f0 l0]|]; [|by apply Hseek]. destruct (seek_file (stats r)) eqn:Es; [intros E1; apply Hseek; congruence|]. cbn. intros [= <-]. by apply Hlast. }
  assert (blame_ok (if level <? kNumLevels - 1 then kNumLevels - 1 else kNumLevels) r1) as Hdone by (apply Hr1; destruct (Z.ltb_spec level (kNumLevels - 1)); lia).
  destruct (tl_Get ro (number f) (file_size f) ik t) as [[[s saved] t1]| |]; [|done..]. cbn [mbind outcome_bind] in E. destruct (match saved with Some _ => _ | None => _ end) as [[state value]| |]; [|done..]. cbn [mbind outcome_bind] in E.
  destruct (ok s); cbn [negb] in E; [|by injection E as _ <- _]. destruct state; [|by injection E as _ <- _|by injection E as _ <- _|].
  - destruct Hone as [Hlt|Hlen].
    + by eapply (IH (fun g Hg => Hfs g (list_elem_of_further _ _ _ Hg)) (or_introl Hlt) r1); [apply Hr1|].
    + destruct fs; [|cbn in Hlen; lia]. cbn [get_files] in E. by injection E as _ <- _.
  - destruct (Corruption _ u); [|done..]. by injection E as _ <- _.
Qed.

Lemma level0_files_in u l : forall fs, level0_files c u l = Ret fs -> forall f, f ∈ fs -> f ∈ l.
Proof.
  induction l as [|g l IH]; intros fs E f Hf; cbn [level0_files] in E; [injection E as <-; done|].
  repeat match type of E with context [mbind _ ?x] => destruct x as [?| |] eqn:?; cbn [mbind outcome_bind] in E; [|done..] end.
  repeat case_match; simplify_eq; rewrite ?elem_of_cons in *; naive_solver.
Qed.

Lemma search_files_in ik u level l fs : search_files c ik u level l = Ret fs -> (forall f, f ∈ fs -> f ∈ l) /\ (level <> 0 -> (length fs <= 1)%nat).
Proof.
  unfold search_files. destruct (Z.eqb_spec level 0) as [->|Hne].
  - destruct (level0_files c u l) as [tmp| |] eqn:E; [|done..]. run. intros [= <-]. split; [|done]. intros f. rewrite (merge_sort_Permutation NewestFirst). by apply (level0_files_in u l).
  - destruct (level_file c u ik l) as [o| |] eqn:E; [|done..]. run. intros [= <-]. split; [|intros _; destruct o; cbn; lia]. destruct o as [f|]; cbn; [|by intros f ?%not_elem_of_nil]. intros g ->%list_elem_of_singleton.
    unfold level_file in E. destruct (FindFile c l ik) as [i| |]; [|done..]. cbn [mbind outcome_bind] in E. destruct (_ <=? u32 i); [done|]. destruct (l !! Z.to_nat (u32 i)) as [g|] eqn:Eg; [|done].
    destruct (InternalKey_user_key (smallest g)) as [s| |]; [|done..]. cbn [mbind outcome_bind] in E. destruct (_ <? 0); [done|]. injection E as <-. by eapply list_elem_of_lookup_2.
Qed.

Lemma get_levels_blame ro ik u levels : forall level r t s v r' t', 0 <= level -> Z.of_nat (length files) = kNumLevels -> levels = drop (Z.to_nat level) files -> (levels <> [] -> blame_ok (kNumLevels - 1) r) -> blame_ok kNumLevels r ->
  get_levels c ro ik u level levels r t = Ret (s, v, r', t') -> blame_ok kNumLevels r'.
Proof.
  induction levels as [|l levels IH]; intros level r t s v r' t' Hl Hn El Hr Hr0 E; cbn [get_levels] in E; [destruct (NotFound_status [] []); [|done..]; by injection E as _ _ <- _|].
  assert (files !! Z.to_nat level = Some l) as Ei by (rewrite <- (Nat.add_0_r (Z.to_nat level)), <- lookup_drop, <- El; done). assert (level < kNumLevels) as Hlt by (apply lookup_lt_Some in Ei; lia).
  assert (levels = drop (Z.to_nat (level + 1)) files) as El' by (replace (Z.to_nat (level + 1)) with (Z.to_nat level + 1)%nat by lia; by rewrite <- drop_drop, <- El). specialize (Hr ltac:(done)).
  assert (forall r1, blame_ok (if level <? kNumLevels - 1 then kNumLevels - 1 else kNumLevels) r1 -> (levels <> [] -> blame_ok (kNumLevels - 1) r1) /\ blame_ok kNumLevels r1) as Hnext.
  { intros r1 Hr1. destruct (Z.ltb_spec level (kNumLevels - 1)) as [Hlt'|Hge].
    - split; [done|]. destruct Hr1 as [H1 H2]. split; [|done]. intros f lv Elv. destruct (H1 f lv Elv). split; [done|lia].
    - split; [|done]. intros Hne. exfalso. apply Hne. rewrite El'. apply drop_ge. lia. }
  destruct l as [|f0 l0]; [by apply (IH (level + 1) r t s v r' t'); [lia|done|done|intros _|done|done]|]. set (l := f0 :: l0) in *.
  destruct (search_files c ik u level l) as [fs| |] eqn:Es; [|done..]. cbn [mbind outcome_bind] in E. destruct (search_files_in ik u level l fs Es) as [Hin Hone].
  destruct (get_files c ro ik u level fs r t) as [[[x r1] t1]| |] eqn:Eg; [|done..]. cbn [mbind outcome_bind] in E.
  pose proof (get_files_blame ro ik u level fs ltac:(lia) ltac:(intros f Hf; split; [done|exists l; split; [done|by apply Hin]]) ltac:(destruct (Z.eq_dec level 0) as [->|]; [left; by vm_compute|right; by apply Hone]) r t x r1 t1 Hr Eg) as Hr1.
  destruct (Hnext r1 Hr1) as [Hr2 Hr3]. destruct x as [[s1 v1]|]; [by injection E as _ _ <- _|]. by apply (IH (level + 1) r1 t1 s v r' t'); [lia|..].
Qed.

(** The file that a read blames is one that a compaction can start from. *)
Lemma version_get_blame ro k t s v st t' : Z.of_nat (length files) = kNumLevels -> Version_Get c files ro k t = Ret (s, v, st, t') -> forall f, seek_file st = Some f -> placed f (seek_file_level st) /\ seek_file_level st < kNumLevels - 1.
Proof.
  intros Hn E. unfold Version_Get in E. destruct (get_levels c ro _ _ 0 files _ t) as [[[[s1 v1] r1] t1]| |] eqn:Eg; [|done..]. cbn [mbind outcome_bind] in E. injection E as _ _ <- _.
  apply (bl_seek kNumLevels). by eapply (get_levels_blame _ _ _ files 0); [..|exact Eg].
Qed.
End Blame.

(** ** What a read finds *)

Section Memtables.
Context (c : Comparator) `{!ComparatorLaws c}.

Definition mem_answer (o : option entry) : mem_get :=
  match o with Some e => if entry_type e.1 =? kTypeValue then MemValue e.2 else MemDeleted | None => MemMissing end.

Lemma mem_good m mes : mem_rep c m mes -> ascending internal_good (internal_ord c) (mem_pair <$> mes).
Proof. intros Hm. destruct (mem_ascending c m mes Hm) as [Hk Hs]. split; [|done]. eapply Forall_impl; [exact Hk|]. intros k. apply db_key_good. Qed.

Lemma mem_before e u s : entry_ok e -> 0 <= s <= kMaxSequenceNumber -> internal_ord c (mem_pair e).1 (ikey u s kValueTypeForSeek) = icmp c (e_key e) (e_tag e) u (tag s kValueTypeForSeek).
Proof. intros (Ht & _) Hs. apply ikey_ord; [done|]. split; [done|by right]. Qed.

Lemma mem_entry_type e : entry_ok e -> entry_type (mem_pair e).1 = e_type e /\ ukey (mem_pair e).1 = e_key e.
Proof. intros (Ht & _). unfold entry_type, mem_pair. cbn [fst]. by rewrite parse_ikey, ukey_ikey by done. Qed.

(** The memtable answers with the newest entry. *)
Lemma mem_get_found m mes u s lk : mem_rep c m mes -> 0 <= s <= kMaxSequenceNumber -> Z.of_nat (length u) + 13 < 2 ^ 32 -> LookupKey_new u s = Ret lk ->
  exists o, found c (ikey u s kValueTypeForSeek) (mem_pair <$> mes) o /\ MemTable.Get c m lk = Ret (mem_answer o).
Proof.
  intros Hm Hs Hu El. destruct (MemTable.get_spec c m mes u s Hm Hs Hu) as (lk' & A & B & El' & -> & Eg & HA & HB). rewrite El in El'. injection El' as <-. set (k := ikey u s kValueTypeForSeek).
  exists (hit c k (mem_pair <$> A ++ B)). split; [apply hit_found; [done|apply ikey_good|by apply (mem_good m)]|]. rewrite Eg. f_equal. destruct Hm as [_ Hok]. apply Forall_app in Hok as [HokA HokB].
  assert (rank (internal_ord c) k (mem_pair <$> A ++ B) = length (mem_pair <$> A)) as Hrank.
  { rewrite fmap_app, rank_app. unfold rank. rewrite filter_all, filter_none; [cbn; lia| |].
    - intros x (e & -> & He)%list_elem_of_fmap Hb. rewrite Forall_forall in HokB, HB. unfold Order.below, k in Hb. rewrite mem_before in Hb by auto. by apply (HB e He).
    - intros x (e & -> & He)%list_elem_of_fmap. rewrite Forall_forall in HokA, HA. unfold Order.below, k. rewrite mem_before by auto. by apply HA. }
  unfold hit. rewrite Hrank, fmap_app, lookup_app_r, Nat.sub_diag by lia. destruct B as [|e B]; [done|]. apply Forall_cons in HokB as [He _]. destruct (mem_entry_type e He) as [Et Eu]. cbn [read_entry fmap list_fmap lookup list_lookup mbind option_bind].
  rewrite Eu. unfold k. rewrite ukey_ikey. destruct (cmp_Compare c (e_key e) u =? 0); [|done]. cbn [mem_answer]. rewrite Et. by destruct (e_type e =? kTypeValue).
Qed.
End Memtables.

Section Reads.
Context {W F I : Type} `{CompactionEnv W F} `{!DbEnv W F I} `{!DbEnvLaws W F I} `{TableLookup W} (c : Comparator) `{!ComparatorLaws c}.
Context (inv : nat -> W -> Prop) (known : FileMetaData -> Prop) (data : FileMetaData -> list entry) `{!TableLookupLaws W c inv known data}.
Context (files : list (list FileMetaData)) (Hdata : version_data c known data files).

(** Seeks are counted for the files of the version, and only such files, above the last
    level, were blamed so far. *)
Record seeks_ready (w : W) : Prop := {
  sr_counts l f : l ∈ files -> f ∈ l -> exists n, allowed_seeks (de_seeks w) !! number f = Some n /\ n <> - 2 ^ 31;
  sr_blamed : seek_ok files (file_to_compact_ (de_seeks w));
}.
Context (Hready : forall n w, inv n w -> seeks_ready w).

Lemma update_stats_spec st v : (forall f, seek_file st = Some f -> exists n, allowed_seeks v !! number f = Some n /\ n <> - 2 ^ 31) ->
  exists b v', UpdateStats st v = Ret (b, v') /\ (file_to_compact_ v' = file_to_compact_ v \/ exists f, seek_file st = Some f /\ file_to_compact_ v' = Some (f, seek_file_level st)).
Proof.
  intros Hc. unfold UpdateStats. destruct (seek_file st) as [f|]; [|by eexists _, _; split; [|left]]. destruct (Hc f eq_refl) as (n & -> & Hn). rewrite (proj2 (Z.eqb_neq _ _)) by done.
  destruct (file_to_compact_ v) eqn:Ef; [|destruct (n - 1 <=? 0)]; (eexists _, _; split; [reflexivity|]); cbn; [by left|right; by exists f|by left].
Qed.

Lemma record_read_spec n st d w : inv n w -> (forall f, seek_file st = Some f -> placed files f (seek_file_level st) /\ seek_file_level st < kNumLevels - 1) ->
  exists d' w', record_read (I := I) st d w = Ret (d', w') /\ mem_ d' = mem_ d /\ imm_ d' = imm_ d /\ seek_ok files (file_to_compact_ (de_seeks w')).
Proof.
  intros Hw Hst. destruct (Hready n w Hw) as [Hcounts Hblamed]. unfold record_read.
  destruct (update_stats_spec st (de_seeks w)) as (b & v & -> & Hv).
  { intros f Ef. destruct (Hst f Ef) as ((_ & l & Hl & Hf) & _). apply (Hcounts l f); [by eapply list_elem_of_lookup_2|done]. }
  run. eexists _, _. split; [reflexivity|]. destruct (dl_seeks v w) as (Es & _). rewrite Es. split_and!.
  - destruct b; [|done]. unfold MaybeScheduleCompaction. by repeat case_match.
  - destruct b; [|done]. unfold MaybeScheduleCompaction. by repeat case_match.
  - destruct Hv as [->|(f & Ef & ->)]; [done|]. destruct (Hst f Ef) as ((Hl & Hf) & Hlt). by split.
Qed.

(** The answers of the memtables and of the version, combined. *)
Lemma get_combines ro snapshot key (d : DBImpl F) w mes ies seq n :
  files_ (VS.current_ (de_versions w)) = files -> default (VS.last_sequence_ (de_versions w)) snapshot = seq -> 0 <= seq <= kMaxSequenceNumber -> Z.of_nat (length key) + 13 < 2 ^ 32 -> inv (length (concat files) + n)%nat w ->
  mem_rep c (mem_ d) mes -> match imm_ d with Some m => mem_rep c m ies | None => ies = [] end ->
  newer c (mem_pair <$> mes) ((mem_pair <$> ies) ++ version_entries data files) -> newer c (mem_pair <$> ies) (version_entries data files) ->
  exists o s v d' w', DBImpl_Get (I := I) c ro snapshot key d w = Ret (s, v, d', w') /\ (s, v) = reported_value o /\
    found c (ikey key seq kValueTypeForSeek) ((mem_pair <$> mes) ++ (mem_pair <$> ies) ++ version_entries data files) o /\
    mem_ d' = mem_ d /\ imm_ d' = imm_ d /\ seek_ok files (file_to_compact_ (de_seeks w')).
Proof.
  intros Hfiles Hseq Hs Hu Hw Hm Hi Hn1 Hn2. unfold DBImpl_Get. rewrite Hseq, Hfiles. destruct (lookup_key_spec key seq Hs Hu) as (lk & El & _ & Eik & Euk). rewrite El. run.
  destruct (mem_get_found c (mem_ d) mes key seq lk Hm Hs Hu El) as (o1 & Hf1 & ->). run. set (k := ikey key seq kValueTypeForSeek) in *.
  assert (exists o2, found c k (mem_pair <$> ies) o2 /\ match imm_ d with Some imm => MemTable.Get c imm lk | None => Ret MemMissing end = Ret (mem_answer o2)) as (o2 & Hf2 & E2).
  { destruct (imm_ d) as [imm|]; [by apply (mem_get_found c imm ies key seq)|]. subst ies. exists None. split; [|done]. by intros e ?%not_elem_of_nil. }
  destruct (version_get_spec c inv known data files ro lk n w Hdata) as (o3 & s & v & st & w' & E3 & Hr3 & Hw' & Hf3); [rewrite Eik; apply ikey_good|rewrite Euk, Eik; unfold k; by rewrite ukey_ikey|done|]. rewrite Eik in Hf3.
  pose proof (found_app c k _ _ o1 _ Hn1 Hf1 (found_app c k _ _ o2 o3 Hn2 Hf2 Hf3)) as Hf. pose proof (sr_blamed w (Hready _ w Hw)) as Hb.
  exists (orelse o1 (orelse o2 o3)). destruct o1 as [e1|]; cbn [mem_answer orelse] in *.
  { destruct (entry_type e1.1 =? kTypeValue) eqn:Et; cbn [reported_value]; rewrite Et; by eexists _, _, d, w. }
  rewrite E2. run. destruct o2 as [e2|]; cbn [mem_answer orelse] in *.
  { destruct (entry_type e2.1 =? kTypeValue) eqn:Et; cbn [reported_value]; rewrite Et; by eexists _, _, d, w. }
  rewrite E3. run. destruct (record_read_spec n st d w' Hw') as (d' & w2 & -> & Em & Ei & Hk); [|run; by exists s, v, d', w2].
  eapply version_get_blame; [|exact E3]. apply (vo_levels _ _ (vd_ok _ _ _ _ Hdata)).
Qed.

(** C12: a read returns the newest data.  Get looks into the memtable, the memtable that
    is being flushed and the current version; over the entries of all three it reports
    what the newest entry of the key at the sequence number of the snapshot, or at the
    last one, says: its value, or NotFound if it is a deletion or if there is none.  The
    file it blames for a seek, if any, is one that a compaction can be started from. *)
Theorem db_get_newest ro snapshot key (d : DBImpl F) w mes ies seq n :
  files_ (VS.current_ (de_versions w)) = files -> default (VS.last_sequence_ (de_versions w)) snapshot = seq -> 0 <= seq <= kMaxSequenceNumber -> Z.of_nat (length key) + 13 < 2 ^ 32 -> inv (length (concat files) + n)%nat w ->
  mem_rep c (mem_ d) mes -> match imm_ d with Some m => mem_rep c m ies | None => ies = [] end ->
  newer c (mem_pair <$> mes) ((mem_pair <$> ies) ++ version_entries data files) -> newer c (mem_pair <$> ies) (version_entries data files) ->
  exists o s v d' w', DBImpl_Get (I := I) c ro snapshot key d w = Ret (s, v, d', w') /\ (s, v) = reported_value o /\
    found c (ikey key seq kValueTypeForSeek) ((mem_pair <$> mes) ++ (mem_pair <$> ies) ++ version_entries data files) o /\
    mem_ d' = mem_ d /\ imm_ d' = imm_ d /\ seek_ok files (file_to_compact_ (de_seeks w')).
Proof. apply get_combines. Qed.
End Reads.

(** ** Examples *)

Lemma memtable_of c `{!ComparatorLaws c} me : entry_ok me -> exists m, mem_rep c m [me].
Proof.
  intros He. destruct (mem_new c) as (m0 & _ & Hm0). destruct (add_spec c m0 [] me Hm0 He) as (m & A & B & _ & EAB & Hm); [by intros e' ?%not_elem_of_nil|].
  symmetry in EAB. apply app_eq_nil in EAB as [-> ->]. by exists m.
Qed.

#[local] Existing Instance toy_env.
#[local] Existing Instance toy_db.
#[local] Existing Instance toy_db_laws.
#[local] Instance toy_lookup : TableLookup toy_world := fun _ n _ k w => Ret (OK, sample_data n !! rank (internal_ord BytewiseComparator) k (sample_data n), w).

Definition read_state : toy_world := MkToy (VS.MkVS 12 4 9 6 0 None (Finalize sample_version) no_pointers) (MkSeeks {[9 := 100; 4 := 1]} None) [] ∅ [] false.

Lemma toy_lookup_laws : TableLookupLaws toy_world BytewiseComparator (fun _ w => de_seeks (I := ListIterator) w = MkSeeks {[9 := 100; 4 := 1]} None) (fun _ => True) (fun f => sample_data (number f)).
Proof. split; [done|]. intros n f ro k t _ _ Ht. eexists _, t. split; [reflexivity|]. split_and!; [done|done|]. by intros e -> _. Qed.

Lemma read_ready (n : nat) (w : toy_world) : de_seeks (I := ListIterator) w = MkSeeks {[9 := 100; 4 := 1]} None -> seeks_ready (I := ListIterator) sample_version w.
Proof.
  intros E. split; rewrite E; [|done]. intros l f Hl Hf. cbn [allowed_seeks]. assert (number f = 9 \/ number f = 4) as [->| ->]; [|by exists 100|by exists 1].
  unfold sample_version, sized_version in Hl. repeat (apply elem_of_cons in Hl as [->|Hl]; [first [by apply not_elem_of_nil in Hf|apply list_elem_of_singleton in Hf as ->; cbn; auto]|]). by apply not_elem_of_nil in Hl.
Qed.

(** ["d"] is only in level 1; the memtable has a newer ["b"]. *)
Lemma db_get_newest_witness : exists m log s v d' w', mem_rep BytewiseComparator m [ME (str "b") 8 kTypeValue (str "newest")] /\
  DBImpl_Get (I := ListIterator) BytewiseComparator (MkReadOptions true true) None (str "d") (toy_db_state m log None false) read_state = Ret (s, v, d', w') /\ mem_ d' = m.
Proof.
  destruct (memtable_of BytewiseComparator (ME (str "b") 8 kTypeValue (str "newest"))) as (m & Hm); [split_and!; [split; [by vm_compute|by right]|done|done]|]. destruct toy_log as [log _].
  destruct (db_get_newest (I := ListIterator) (TableLookupLaws0 := toy_lookup_laws) BytewiseComparator (fun _ w => de_seeks (I := ListIterator) w = MkSeeks {[9 := 100; 4 := 1]} None) (fun _ => True) (fun f => sample_data (number f)) sample_version sample_version_data read_ready
    (MkReadOptions true true) None (str "d") (toy_db_state m log None false) read_state [ME (str "b") 8 kTypeValue (str "newest")] [] 9 0) as (o & s & v & d' & w' & E & _ & _ & Em & _).
  - apply finalize_files.
  - reflexivity.
  - by vm_compute.
  - reflexivity.
  - reflexivity.
  - exact Hm.
  - reflexivity.
  - intros e e' ->%list_elem_of_singleton He'. cbn [app fmap list_fmap] in He'. assert (e' ∈ sample_data 9 ++ sample_data 4) as Hin by exact He'. clear He'.
    repeat (apply elem_of_cons in Hin as [->|Hin]; [by vm_compute|]). by apply not_elem_of_nil in Hin.
  - by intros e e' ?%not_elem_of_nil.
  - exists m, log, s, v, d', w'. split; [exact Hm|]. split; [exact E|exact Em].
Defined.
