(* ===== verification/DbOpen.v ===== *)
(** * Opening a database (util/leveldb/db/db_impl.cc, [DB::Open])

    Recovery reads the manifest, checks that the tables of the version are there and
    replays the logs, whose memtables become tables of level 0, or, for the last log, the
    memtable of the database. *)

From S2P Require Import Prelude Slice Order CLib Bloom Coding DbFormat InternalOrder FileNames Status Files SkipList WriteBatch MemTable LogFormat DbWrite StdSet VersionEdit Version VersionBuilder VersionSet Manifest Iterators Block TableFormat FilterBlock Table TableSpec TableGet VersionGet Compaction DbCompact CompactionRun MemIter FlushTable Background.
From stdpp Require Import strings sorting.
#[local] Open Scope Z_scope.

(** What [Env] is asked for; a sequential file is its contents. *)
Class OpenEnv (W F : Type) := {
  oe_CreateDir : bytes -> W -> W;
  oe_LockFile : bytes -> W -> Status * W;
  oe_FileExists : bytes -> W -> bool;
  oe_GetChildren : bytes -> W -> Status * list bytes;
  oe_NewSequentialFile : bytes -> W -> Status * bytes;
  oe_GetFileSize : bytes -> W -> Status * Z;
  oe_NewAppendableFile : bytes -> W -> Status * option F * W;
}.

(** What recovery has made so far: the members [mem_], [log_] and [logfile_number_], the
    edit, [*save_manifest] and [*max_sequence]. *)
Record Recovery {F : Type} := MkRecovery {
  r_mem : option MemTable;
  r_log : option (Writer F);
  r_logfile_number : Z;
  r_edit : VE.VersionEdit;
  r_save_manifest : bool;
  r_max_sequence : Z;
}.
Arguments Recovery : clear implicits.

Definition set_edit {F} (st : Recovery F) (e : VE.VersionEdit) : Recovery F := MkRecovery F (r_mem st) (r_log st) (r_logfile_number st) e (r_save_manifest st) (r_max_sequence st).
Definition set_save {F} (st : Recovery F) (b : bool) : Recovery F := MkRecovery F (r_mem st) (r_log st) (r_logfile_number st) (r_edit st) b (r_max_sequence st).
Definition set_max {F} (st : Recovery F) (seq : Z) : Recovery F := MkRecovery F (r_mem st) (r_log st) (r_logfile_number st) (r_edit st) (r_save_manifest st) seq.
Definition set_reused {F} (st : Recovery F) (m : MemTable) (log : Writer F) (n : Z) : Recovery F := MkRecovery F (Some m) (Some log) n (r_edit st) (r_save_manifest st) (r_max_sequence st).

Section Ops.
Context {W F I : Type} `{CompactionEnv W F} `{FlushEnv W} `{!DbEnv W F I} `{!OpenEnv W F} `{ManifestEnv W}.
Context (c : Comparator) (cmp_name : bytes) (snappy : option snappy_lib) (addr : Z) (options : Options) (dbname : bytes) (usage : MemTable -> Z) (write_buffer_size : Z) (paranoid reuse_logs create_if_missing error_if_exists : bool).
(** More than the entries of a memtable. *)
Context (bfuel : nat).

Definition MaybeIgnoreError (s : Status) : Status := if ok s || paranoid then s else OK.

(** [mem = new MemTable(internal_comparator_)] when there is none. *)
Definition force_mem (mem : option MemTable) : outcome MemTable := match mem with Some m => Ret m | None => m ← MemTable_new; Ret (Ref m) end.

(** [WriteLevel0Table(mem, edit, NULL)], which the manifest has to record. *)
Definition flush (m : MemTable) (st : Recovery F) (w : W) : outcome (Status * Recovery F * W) :=
  '(s, edit, w) ← WriteLevel0Table c snappy addr options dbname bfuel m (r_edit st) None w;
  Ret (s, set_edit (set_save st true) edit, w).

(** The loop over the records of a log; [compactions] counts the tables it wrote. *)
Fixpoint replay_loop (n fuel : nat) (r : Reader bytes) (status : Status) (mem : option MemTable) (compactions : nat) (st : Recovery F) (w : W) :
    outcome (Status * option MemTable * nat * Recovery F * W) :=
  match n with
  | O => Undef
  | S n' =>
      '(x, r) ← ReadRecord addr fuel r;
      let status := reported paranoid r status in
      match x with
      | None => Ret (status, mem, compactions, st, w)
      | Some record =>
          if negb (ok status) then Ret (status, mem, compactions, st, w)
          else if Z.of_nat (length record) <? 12 then
            s ← Corruption (str "log record too small") [];
            replay_loop n' fuel r (if paranoid then s else status) mem compactions st w
          else
            batch ← SetContents record;
            m ← force_mem mem;
            '(status, m) ← InsertInto c batch m;
            let status := MaybeIgnoreError status in
            if negb (ok status) then Ret (status, Some m, compactions, st, w)
            else
              seq ← Sequence batch;
              count ← Count batch;
              let last_seq := u64 (seq + count - 1) in
              let st := if r_max_sequence st <? last_seq then set_max st last_seq else st in
              if write_buffer_size <? usage m then
                '(status, st, w) ← flush m st w;
                if ok status then replay_loop n' fuel r status None (S compactions) st w else Ret (status, None, S compactions, st, w)
              else replay_loop n' fuel r status (Some m) compactions st w
      end
  end.

(** The log is kept, if it can be appended to. *)
Definition reuse_last_log (fname : bytes) (log_number : Z) (mem : option MemTable) (st : Recovery F) (w : W) : outcome (option MemTable * Recovery F * W) :=
  assert! bool_decide (r_log st = None);
  assert! bool_decide (r_mem st = None);
  let '(s, lfile_size) := oe_GetFileSize fname w in
  if negb (ok s) then Ret (mem, st, w)
  else
    let '(s, lfile, w) := oe_NewAppendableFile fname w in
    if negb (ok s) then Ret (mem, st, w)
    else
      match lfile with
      | None => Undef
      | Some lfile => log ← Writer_reopen addr lfile lfile_size; m ← force_mem mem; Ret (None, set_reused st m log log_number, w)
      end.

Definition RecoverLogFile (log_number : Z) (last_log : bool) (st : Recovery F) (w : W) : outcome (Status * Recovery F * W) :=
  fname ← LogFileName dbname log_number;
  let '(status, file) := oe_NewSequentialFile fname w in
  if negb (ok status) then Ret (MaybeIgnoreError status, st, w)
  else
    '(status, mem, compactions, st, w) ← replay_loop (S (length file)) (S (length file)) (Reader_new file (Some []) true 0) status None 0 st w;
    '(mem, st, w) ← (if ok status && reuse_logs && last_log && (compactions =? 0)%nat then reuse_last_log fname log_number mem st w else Ret (mem, st, w));
    match mem with
    | None => Ret (status, st, w)
    | Some m => if ok status then flush m st w else Ret (status, st, w)
    end.

(** What the names in the directory say: tables that are still expected, and logs. *)
Definition scan_name (min_log prev_log : Z) (x : gset Z * list Z) (name : bytes) : gset Z * list Z :=
  match ParseFileName name with
  | Some (number, type) =>
      (x.1 ∖ {[number]}, if match type with kLogFile => true | _ => false end && ((min_log <=? number) || (number =? prev_log)) then x.2 ++ [number] else x.2)
  | None => x
  end.

Fixpoint replay_logs (logs : list Z) (st : Recovery F) (w : W) : outcome (Status * Recovery F * W) :=
  match logs with
  | [] => Ret (OK, st, w)
  | n :: logs' =>
      '(s, st, w) ← RecoverLogFile n (bool_decide (logs' = [])) st w;
      if negb (ok s) then Ret (s, st, w)
      else replay_logs logs' st (de_set_versions (VS.MarkFileNumberUsed n (de_versions w)) w)
  end.

(** The database is there, or is made. *)
Definition check_current (w : W) : outcome (Status * W) :=
  if oe_FileExists (CurrentFileName dbname) w then
    if error_if_exists then s ← InvalidArgument dbname (str "exists (error_if_exists is true)"); Ret (s, w) else Ret (OK, w)
  else if create_if_missing then
    '(made, w) ← NewDB cmp_name dbname addr w;
    Ret (if (made : bool) then OK else env_error (CurrentFileName dbname) w, w)
  else s ← InvalidArgument dbname (str "does not exist (create_if_missing is false)"); Ret (s, w).

(** The part of [Recover] after the manifest was read. *)
Definition recover_files (st : Recovery F) (w : W) : outcome (Status * Recovery F * W) :=
  let min_log := VS.log_number_ (de_versions w) in
  let prev_log := VS.prev_log_number_ (de_versions w) in
  let '(s, filenames) := oe_GetChildren dbname w in
  if negb (ok s) then Ret (s, st, w)
  else
    let '(expected, logs) := foldl (scan_name min_log prev_log) (AddLiveFiles (de_in_use w) ∅, []) filenames in
    match elements expected with
    | n :: ns =>
        name ← TableFileName dbname (foldr Z.min n ns);
        s ← Corruption (NumberToString (Z.of_nat (size expected)) ++ str " missing files; e.g.") name;
        Ret (s, st, w)
    | [] =>
        '(s, st, w) ← replay_logs (merge_sort Z.le logs) st w;
        if negb (ok s) then Ret (s, st, w)
        else if VS.last_sequence_ (de_versions w) <? r_max_sequence st then
          vs ← VS.SetLastSequence (r_max_sequence st) (de_versions w); Ret (OK, st, de_set_versions vs w)
        else Ret (OK, st, w)
    end.

Definition Recover (st : Recovery F) (w : W) : outcome (Status * Recovery F * W) :=
  let w := oe_CreateDir dbname w in
  let '(s, w) := oe_LockFile (LockFileName dbname) w in
  if negb (ok s) then Ret (s, st, w)
  else
    '(s, w) ← check_current w;
    if negb (ok s) then Ret (s, st, w)
    else
      '(s, save, vs, w) ← VS.Recover c cmp_name dbname addr reuse_logs (de_versions w) w;
      let w := de_set_versions vs w in
      if negb (ok s) then Ret (s, set_save st save, w) else recover_files (set_save st save) w.

(** [DB::Open]: the database, if the status is OK. *)
Definition DB_Open (w : W) : outcome (Status * option (DBImpl F) * W) :=
  '(s, st, w) ← Recover (MkRecovery F None None 0 VE.new false 0) w;
  '(s, st, w) ← (if ok s && bool_decide (r_mem st = None) then
                   let '(new_log_number, w) := ce_NewFileNumber w in
                   fname ← LogFileName dbname new_log_number;
                   let '(s, lfile, w) := ce_NewWritableFile fname w in
                   if ok s then
                     match lfile with
                     | None => Undef
                     | Some lfile => log ← Writer_new addr lfile; m ← force_mem None; Ret (s, set_reused (set_edit st (VE.SetLogNumber new_log_number (r_edit st))) m log new_log_number, w)
                     end
                   else Ret (s, st, w)
                 else Ret (s, st, w));
  '(s, w) ← (if ok s && r_save_manifest st then ce_LogAndApply (VE.SetLogNumber (r_logfile_number st) (VE.SetPrevLogNumber 0 (r_edit st))) w else Ret (s, w));
  if ok s then
    match r_mem st, r_log st with
    | Some m, Some log =>
        let d := MkDBImpl F m None log (r_logfile_number st) OK false None [] in
        let w := DeleteObsoleteFiles (I := I) dbname d w in
        Ret (s, Some (MaybeScheduleCompaction (I := I) d w), w)
    | _, _ => Exit 134
    end
  else Ret (s, None, w).
End Ops.

(** ** What becomes of a log *)

Section Replay.
Context {W : Type} `{!CompactionEnv W bytes} `{FlushEnv W} `{!OpenEnv W bytes}.
Context (snappy : option snappy_lib) (Hsnappy : forall s, snappy = Some s -> snappy_ok s) (addr : Z) (Haddr : 0 <= addr).
Abbreviation c := BytewiseComparator.
Context (options : Options) (same : bytes -> bytes -> Prop) `{!TableComparatorLaws (comparator options) internal_good (internal_ord c) same} (capacity rate : nat)
  (Hopts : options_ok options internal_good same capacity rate) (dbname : bytes) (usage : MemTable -> Z) (write_buffer_size : Z) (paranoid reuse_logs : bool) (bfuel : nat).
(** Every new file number is above the ones before. *)
Context (above : Z -> W -> Prop) (closed : W -> list (bytes * bytes)) {Hcompact : forall N, CompactionEnvLaws W (above N) closed} {Hflush : forall N, FlushEnvLaws W (above N) closed}.
Context (Hnext : forall N w n w', above N w -> ce_NewFileNumber w = (n, w') -> N <= n /\ above (n + 1) w').
Abbreviation fits := (fits options internal_good (internal_ord c) capacity rate).
Abbreviation flush := (flush c snappy addr options dbname bfuel).
Abbreviation replay := (replay_loop c snappy addr options dbname usage write_buffer_size paranoid bfuel).

(** A file of level 0 with its entries is the table [x] that was written. *)
Record table_of (d : FileMetaData * list mem_entry) (x : bytes * bytes) : Prop := {
  to_name : TableFileName dbname (VersionEdit.number d.1) = Ret x.1;
  to_table : build_table snappy addr options (mem_pair <$> d.2) = Ret (OK, x.2);
  to_size : file_size d.1 = Z.of_nat (length x.2);
  to_data data : data d.1 = mem_pair <$> d.2 -> file_data c data d.1;
}.

Definition add_files (e : VE.VersionEdit) (ds : list (FileMetaData * list mem_entry)) : VE.VersionEdit :=
  foldl (fun e d => VE.AddFile 0 (VersionEdit.number d.1) (file_size d.1) (smallest d.1) (largest d.1) e) e ds.

(** Every part of the history can be the contents of a table. *)
Definition parts_fit (h : list mem_entry) : Prop :=
  (length h < bfuel)%nat /\ forall pre part post m mes, h = pre ++ part ++ post -> mem_rep c m mes -> mes ≡ₚ part -> fits (mem_pair <$> mes).

Lemma parts_fit_app a b : parts_fit (a ++ b) -> parts_fit a /\ parts_fit b.
Proof.
  intros [Hn Hf]. rewrite length_app in Hn. split; (split; [lia|]); intros pre part post m mes E.
  - apply (Hf pre part (post ++ b)). by rewrite E, <- !app_assoc.
  - apply (Hf (a ++ pre) part post). by rewrite E, <- !app_assoc.
Qed.

(** The numbers of new files, between two bounds. *)
Definition numbers_in (N N' : Z) (ds : list (FileMetaData * list mem_entry)) : Prop :=
  N <= N' /\ StronglySorted Z.lt ((fun d => VersionEdit.number d.1) <$> ds) /\ Forall (fun d => N <= VersionEdit.number d.1 < N') ds.

Lemma numbers_nil N : numbers_in N N [].
Proof. split_and!; [lia|constructor..]. Qed.

Lemma numbers_app N1 N2 N3 ds ds' : numbers_in N1 N2 ds -> numbers_in N2 N3 ds' -> numbers_in N1 N3 (ds ++ ds').
Proof.
  intros (L1 & S1 & F1) (L2 & S2 & F2). split_and!; [lia| |].
  - rewrite fmap_app. apply StronglySorted_app_2; [|done|done]. intros a b Ha Hb. apply list_elem_of_fmap in Ha as (x & -> & Hx), Hb as (y & -> & Hy).
    rewrite Forall_forall in F1, F2. specialize (F1 x Hx). specialize (F2 y Hy). cbn in *. lia.
  - apply Forall_app. split; eapply Forall_impl; try eassumption; cbn; lia.
Qed.

(** What flushes have written: the tables [xs] of the files [ds], whose entries are the
    parts [hs] of the history. *)
Record wrote (N N' : Z) (ds : list (FileMetaData * list mem_entry)) (hs : list (list mem_entry)) (st st' : Recovery bytes) (w w' : W) : Prop := {
  wr_above : above N' w';
  wr_numbers : numbers_in N N' ds;
  wr_parts : Forall2 (fun d h => d.2 ≡ₚ h) ds hs;
  wr_tables : exists xs, Forall2 table_of ds xs /\ closed w' = closed w ++ xs;
  wr_edit : r_edit st' = add_files (r_edit st) ds;
  wr_members : r_mem st' = r_mem st /\ r_log st' = r_log st /\ r_logfile_number st' = r_logfile_number st;
}.

Lemma wrote_nothing N st st' w w' : above N w' -> closed w' = closed w -> r_edit st' = r_edit st -> r_mem st' = r_mem st /\ r_log st' = r_log st /\ r_logfile_number st' = r_logfile_number st -> wrote N N [] [] st st' w w'.
Proof. intros Hw Hc He Hm. split; [done|apply numbers_nil|constructor|exists []; split; [constructor|by rewrite app_nil_r]|done|done]. Qed.

Lemma wrote_trans N N1 N2 ds hs ds' hs' st st1 st2 w w1 w2 : wrote N N1 ds hs st st1 w w1 -> wrote N1 N2 ds' hs' st1 st2 w1 w2 -> wrote N N2 (ds ++ ds') (hs ++ hs') st st2 w w2.
Proof.
  intros [G1 B1 P1 (xs1 & T1 & C1) E1 (M1 & M2 & M3)] [G2 B2 P2 (xs2 & T2 & C2) E2 (M4 & M5 & M6)].
  split; [done|by eapply numbers_app|by apply Forall2_app|exists (xs1 ++ xs2); split; [by apply Forall2_app|by rewrite C2, C1, app_assoc]| |split_and!; congruence].
  rewrite E2, E1. unfold add_files. by rewrite foldl_app.
Qed.

(** What happens besides the flushes does not matter. *)
Lemma wrote_from N N' ds hs st0 st st' w w' : wrote N N' ds hs st st' w w' -> r_edit st = r_edit st0 -> r_mem st = r_mem st0 /\ r_log st = r_log st0 /\ r_logfile_number st = r_logfile_number st0 -> wrote N N' ds hs st0 st' w w'.
Proof. intros [G B P T E (M1 & M2 & M3)] E0 (M4 & M5 & M6). split; [done|done|done|done|by rewrite E, E0|split_and!; congruence]. Qed.

Lemma flush_part N m h st w : mem_hist m h -> parts_fit h -> above N w ->
  exists N' ds hs st' w', flush m st w = Ret (OK, st', w') /\ wrote N N' ds hs st st' w w' /\ concat hs = h /\ r_max_sequence st' = r_max_sequence st.
Proof.
  intros (mes & Hm & Hp) [Hn Hf] Hw. unfold DbOpen.flush. destruct mes as [|e mes].
  - destruct (written_none c snappy addr options dbname (above N) closed m bfuel (r_edit st) None w Hm Hw) as (w' & -> & Hw' & Hc). run. apply symmetry, Permutation_nil_r in Hp as ->.
    eexists N, [], [], _, w'. split_and!; [reflexivity|by apply wrote_nothing|done|done].
  - destruct (cl_number w Hw) as (n & w0 & En & Hnp & _ & Hc0). destruct (Hnext N w n w0 Hw En) as [Hle Hw0]. set (mes' := e :: mes) in *.
    destruct (written_spec c snappy Hsnappy addr Haddr options same capacity rate Hopts dbname (above (n + 1)) closed m mes' bfuel (r_edit st) None n w0 w Hm) as (f & fname & contents & w' & -> & Nf & Ef & Hw' & Ebt & Hc & Hz & Hfd); [done| | |done|done|done|].
    { apply (Hf [] h [] m mes'); [by rewrite app_nil_r|done|done]. }
    { by rewrite (Permutation_length Hp). }
    run. eexists (n + 1), [(f, mes')], [h], _, w'. split_and!; [reflexivity| |cbn; by rewrite app_nil_r|done]. split; [done|split_and!; [lia|by repeat constructor|apply Forall_singleton; cbn; lia]|by constructor| |done|done].
    exists [(fname, contents)]. split; [|by rewrite Hc, Hc0]. constructor; [|constructor]. split; cbn; [by rewrite Nf|done|by rewrite Hz|done].
Qed.

Lemma replay_end n fuel r r' mem comps st w : ReadRecord addr fuel r = Ret (None, r') -> reporter_ r' = Some [] -> replay (S n) fuel r OK mem comps st w = Ret (OK, mem, comps, st, w).
Proof. intros E Hr. cbn [replay_loop]. rewrite E. run. unfold reported. rewrite Hr. by destruct (_ && _). Qed.

Abbreviation numbered := MemTable.number.

(** A group that was logged goes into the memtable, which may then be flushed. *)
Lemma replay_record N n fuel r r' seq g mem h comps st w : ReadRecord addr fuel r = Ret (Some (batch seq g), r') -> reporter_ r' = Some [] -> opt_hist mem h -> Forall (fun e => e_seq e < seq) h -> Forall mem_update_ok g -> small g ->
  1 <= seq -> seq + Z.of_nat (length g) <= kMaxSequenceNumber -> parts_fit (h ++ numbered seq g) -> above N w ->
  exists mem' h' N' ds hs comps' st' w', replay (S n) fuel r OK mem comps st w = replay n fuel r' OK mem' comps' st' w' /\ opt_hist mem' h' /\ concat hs ++ h' = h ++ numbered seq g /\ wrote N N' ds hs st st' w w' /\
    r_max_sequence st' = Z.max (r_max_sequence st) (seq + Z.of_nat (length g) - 1) /\ (comps <= comps')%nat /\ (comps' = comps -> hs = []).
Proof.
  intros E Hr Hm Hlt Hok Hs H1 Hmax Hfit Hw. pose proof max_sequence as Hks. cbn [replay_loop]. rewrite E. run.
  replace (reported paranoid r' OK) with OK by (unfold reported; rewrite Hr; by destruct (_ && _)). change (negb (ok OK)) with false. cbn iota.
  replace (Z.of_nat (length (batch seq g)) <? 12) with false by (symmetry; apply Z.ltb_ge; rewrite batch_length; unfold kHeader; lia).
  unfold SetContents. rewrite batch_length. replace (kHeader <=? _)%nat with true by (symmetry; apply Nat.leb_le; lia). run.
  destruct (opt_hist_force mem h Hm) as (m0 & Em & Hm0). unfold force_mem. rewrite Em. run. destruct (insert_into_batch m0 h seq g Hm0 Hlt Hok Hs) as (m & -> & Hm'); [lia|lia|]. run.
  unfold MaybeIgnoreError. change (ok OK) with true. cbn [orb negb]. rewrite batch_sequence, batch_count by (done || lia). run. rewrite u64_small by lia. set (st1 := if r_max_sequence st <? _ then _ else st).
  assert (r_max_sequence st1 = Z.max (r_max_sequence st) (seq + Z.of_nat (length g) - 1) /\ r_edit st1 = r_edit st /\ r_mem st1 = r_mem st /\ r_log st1 = r_log st /\ r_logfile_number st1 = r_logfile_number st) as (Q1 & Q2 & Q3).
  { subst st1. destruct (Z.ltb_spec (r_max_sequence st) (seq + Z.of_nat (length g) - 1)); (split; [cbn; lia|done]). }
  destruct (write_buffer_size <? usage m).
  - destruct (flush_part N m _ st1 w Hm' Hfit Hw) as (N' & ds & hs & st2 & w2 & -> & Hwr & Eh & Emx). run. change (ok OK) with true. cbn match.
    exists None, [], N', ds, hs, (S comps), st2, w2. split_and!; [done|done|by rewrite app_nil_r|by apply (wrote_from _ _ _ _ st st1)|congruence|lia|lia].
  - exists (Some m), (h ++ numbered seq g), N, [], [], comps, st1, w. split_and!; [done|done|done|by apply wrote_nothing|done|lia|done].
Qed.

Lemma replay_prefix gs : forall N seq o d r fuel n mem h comps st w, at_offset (Some []) r o d -> 0 <= o <= LogFormat.kBlockSize -> d `prefix_of` enc_records o (stamped seq gs) -> (length d < fuel)%nat -> (length d < n)%nat ->
  opt_hist mem h -> Forall (fun e => e_seq e < seq) h -> Forall mem_update_ok (concat gs) -> Forall small gs -> 1 <= seq -> seq + Z.of_nat (length (concat gs)) <= kMaxSequenceNumber -> parts_fit (h ++ numbered seq (concat gs)) -> above N w ->
  exists j mem' h' N' ds hs comps' st' w', replay n fuel r OK mem comps st w = Ret (OK, mem', comps', st', w') /\ opt_hist mem' h' /\ concat hs ++ h' = h ++ numbered seq (concat (take j gs)) /\ wrote N N' ds hs st st' w w' /\
    r_max_sequence st' = (if (j =? 0)%nat then r_max_sequence st else Z.max (r_max_sequence st) (seq + Z.of_nat (length (concat (take j gs))) - 1)) /\ (comps <= comps')%nat /\ (comps' = comps -> hs = []) /\
    (d = enc_records o (stamped seq gs) -> concat (take j gs) = concat gs).
Proof.
  induction gs as [|g gs IH]; intros N seq o d r fuel n mem h comps st w Hat Ho Hp Hf Hn Hm Hlt Hok Hsm H1 Hmax Hfit Hw; (destruct n as [|n]; [cbn in Hn; lia|]).
  - assert (d = []) as -> by (destruct Hp as [k Hk]; cbn in Hk; by destruct d). destruct (read_record_eof addr (Some []) r o fuel Hat Ho) as (r2 & E2 & Hrep); [done|].
    exists 0%nat, mem, h, N, [], [], comps, st, w. rewrite (replay_end _ _ _ r2) by done. split_and!; [done|done|by rewrite app_nil_r|by apply wrote_nothing|done|lia|done|done].
  - cbn [stamped] in Hp |- *. rewrite log_enc_cons in Hp |- *. cbn [concat] in Hok, Hmax, Hfit |- *. rewrite length_app in Hmax. apply Forall_app in Hok as [Hg Hok]. apply Forall_cons in Hsm as [Hsg Hsm].
    rewrite MemTable.number_app, app_assoc in Hfit.
    destruct (read_record_cut addr Haddr (Some []) r o _ _ d fuel Hat Ho Hp Hf) as [(r2 & E2 & Hrep & Hne)|(d' & r2 & -> & Hp' & E2 & Hat2)].
    + exists 0%nat, mem, h, N, [], [], comps, st, w. rewrite (replay_end _ _ _ r2) by assumption. split_and!; [done|done|by rewrite app_nil_r|by apply wrote_nothing|done|lia|done|contradiction].
    + rewrite length_app in Hf, Hn. pose proof (at_reporter _ _ _ _ Hat2) as Hrep. pose proof (frags_pos (length (batch seq g)) o true (batch seq g)).
      destruct (replay_record N n fuel r r2 seq g mem h comps st w E2 Hrep Hm Hlt Hg Hsg H1) as (mem1 & h1 & N1 & ds1 & hs1 & comps1 & st1 & w1 & -> & Hm1 & Eh1 & Hwr1 & Emx1 & Hc1 & Hc1'); [lia|by apply parts_fit_app in Hfit as [? _]|done|].
      destruct (IH N1 (seq + Z.of_nat (length g)) _ d' r2 fuel n mem1 h1 comps1 st1 w1 Hat2 (frags_offset _ _ _ _ Ho) Hp') as (j & mem' & h' & N' & ds & hs & comps' & st' & w' & -> & Hm' & Eh & Hwr & Emx & Hc & Hc' & Hall); [lia|lia|done| |done|done|lia|lia| |apply Hwr1|].
      * assert (Forall (fun e => e_seq e < seq + Z.of_nat (length g)) (concat hs1 ++ h1)) as Hall; [|by apply Forall_app in Hall as [_ ?]]. rewrite Eh1. apply Forall_app. split; [eapply Forall_impl; [exact Hlt|cbn; lia]|]. apply Forall_forall. intros e He%number_range. lia.
      * rewrite <- Eh1, <- app_assoc in Hfit. by apply parts_fit_app in Hfit as [_ ?].
      * exists (S j), mem', h', N', (ds1 ++ ds), (hs1 ++ hs), comps', st', w'. split_and!; [done|done| |by eapply wrote_trans| |lia| |].
        -- cbn [take firstn concat]. rewrite MemTable.number_app, app_assoc, <- Eh1, concat_app, <- !app_assoc, Eh. done.
        -- rewrite Emx, Emx1. cbn [Nat.eqb take firstn concat]. rewrite length_app. destruct (Nat.eqb_spec j 0) as [->|_]; rewrite ?take_0; cbn [concat length]; lia.
        -- intros ->. rewrite (Hc1' ltac:(lia)), (Hc' ltac:(lia)). done.
        -- intros Eq%app_inv_head. cbn [take firstn concat]. f_equal. by apply Hall.
Qed.

Abbreviation RecoverLog := (RecoverLogFile c snappy addr options dbname usage write_buffer_size paranoid reuse_logs bfuel).

(** The history [h], of which the parts [hs] went to the tables of [ds] and the rest is in
    the memtable of the database. *)
Record recovered (N N' : Z) (ds : list (FileMetaData * list mem_entry)) (h : list mem_entry) (st st' : Recovery bytes) (w w' : W) : Prop := {
  rd_above : above N' w';
  rd_numbers : numbers_in N N' ds;
  rd_tables : exists xs, Forall2 table_of ds xs /\ closed w' = closed w ++ xs;
  rd_edit : r_edit st' = add_files (r_edit st) ds;
  rd_history : exists hs h', Forall2 (fun d h => d.2 ≡ₚ h) ds hs /\ opt_hist (r_mem st') h' /\ concat hs ++ h' = h;
  rd_log : r_mem st' = None -> r_log st' = None;
}.

(** What the environment does with the file of a log. *)
Record log_file (fname file : bytes) : Prop := {
  lf_open N w : above N w -> oe_NewSequentialFile fname w = (OK, file);
  lf_append N w s f w' : above N w -> oe_NewAppendableFile fname w = (s, f, w') -> above N w' /\ closed w' = closed w /\ (ok s = true -> f <> None);
}.

Lemma wrote_recovered N N' ds hs h' st st' w w' : wrote N N' ds hs st st' w w' -> r_log st = None -> opt_hist (r_mem st') h' -> recovered N N' ds (concat hs ++ h') st st' w w'.
Proof. intros [G B P T E (M1 & M2 & M3)] Hl Hm. split; [done|done|done|done|by exists hs, h'|congruence]. Qed.

(** The log is kept with the memtable, or the memtable is what it was. *)
Lemma reuse_spec N fname file log_number mem h st w : log_file fname file -> opt_hist mem h -> above N w -> r_mem st = None -> r_log st = None ->
  exists mem' st' w', reuse_last_log addr fname log_number mem st w = Ret (mem', st', w') /\ above N w' /\ closed w' = closed w /\
    ((mem' = None /\ exists m log, st' = set_reused st m log log_number /\ mem_hist m h) \/ (mem' = mem /\ st' = st)).
Proof.
  intros [_ Ha] Hm Hw N1 N2. unfold reuse_last_log. rewrite !bool_decide_eq_true_2 by done.
  destruct (oe_GetFileSize fname w) as [s1 size]. destruct (ok s1); cbn [negb]; [|by eexists mem, st, w; split_and!; [..|right]]. destruct (oe_NewAppendableFile fname w) as [[s2 f] w2] eqn:Ea. destruct (Ha N w s2 f w2 Hw Ea) as (G2 & C2 & Hf).
  destruct (ok s2) eqn:Es2; cbn [negb]; [|by eexists mem, st, w2; split_and!; [..|right]]. destruct f as [f|]; [|by destruct (Hf eq_refl)]. unfold Writer_reopen. rewrite init_type_crc by done. run.
  destruct (opt_hist_force mem h Hm) as (m & Em & Hm'). unfold force_mem. rewrite Em. run. eexists None, _, w2. split_and!; [reflexivity|done|done|]. left. split; [done|]. by eexists m, _.
Qed.

(** A log, cut at any byte, becomes the history of a prefix of its groups. *)
Lemma recover_log_spec N log_number last_log fname file gs seq st w : LogFileName dbname log_number = Ret fname -> log_file fname file -> file `prefix_of` enc_records 0 (stamped seq gs) ->
  Forall mem_update_ok (concat gs) -> Forall small gs -> 1 <= seq -> seq + Z.of_nat (length (concat gs)) <= kMaxSequenceNumber -> parts_fit (numbered seq (concat gs)) -> above N w -> r_mem st = None -> r_log st = None ->
  exists j N' ds st' w', RecoverLog log_number last_log st w = Ret (OK, st', w') /\ recovered N N' ds (numbered seq (concat (take j gs))) st st' w w' /\ (r_mem st' = None \/ last_log = true /\ r_logfile_number st' = log_number /\ ds = []) /\
    r_max_sequence st' = (if (j =? 0)%nat then r_max_sequence st else Z.max (r_max_sequence st) (seq + Z.of_nat (length (concat (take j gs))) - 1)) /\ (file = enc_records 0 (stamped seq gs) -> concat (take j gs) = concat gs).
Proof.
  intros En Hlog Hp Hok Hsm H1 Hmax Hfit Hw Hmem Hnolog. unfold RecoverLogFile. rewrite En. run. rewrite (lf_open _ _ Hlog N w Hw). change (ok OK) with true. cbn [negb]. rewrite <- enc_records_start in *.
  destruct (replay_prefix gs N seq LogFormat.kBlockSize file (Reader_new file (Some []) true 0) (S (length file)) (S (length file)) None [] 0 st w) as (j & mem & h' & N1 & ds & hs & comps & st1 & w1 & -> & Hm & Eh & Hwr & Emx & _ & Hc & Hall); try done; try lia.
  { split; try done. left. split; [done|]. cbn. by rewrite Z.sub_diag. }
  run. change (ok OK) with true. cbn [andb app] in *. pose proof Hwr as [Hw1 Hnum Hparts (xs & Htab & Hcl) Hed (M1 & M2 & M3)].
  assert (r_mem st1 = None /\ r_log st1 = None) as [E1 E2] by (split; congruence).
  assert (parts_fit h') as Hfit'.
  { rewrite <- (take_drop j gs), concat_app, MemTable.number_app in Hfit. apply parts_fit_app in Hfit as [Hfit _]. rewrite <- Eh in Hfit. by apply parts_fit_app in Hfit as [_ ?]. }
  assert (exists mem2 st2 w2, (if reuse_logs && last_log && (comps =? 0)%nat then reuse_last_log addr fname log_number mem st1 w1 else Ret (mem, st1, w1)) = Ret (mem2, st2, w2) /\ above N1 w2 /\ closed w2 = closed w1 /\
    ((mem2 = None /\ last_log = true /\ hs = [] /\ exists m log, st2 = set_reused st1 m log log_number /\ mem_hist m h') \/ (mem2 = mem /\ st2 = st1))) as (mem2 & st2 & w2 & -> & Hw2 & Hc2 & Hcase).
  { destruct (reuse_logs && last_log && (comps =? 0)%nat) eqn:Ecase; [|by eexists mem, st1, w1; split_and!; [..|right]]. apply andb_true_iff in Ecase as [[_ El]%andb_true_iff Ec%Nat.eqb_eq].
    destruct (reuse_spec N1 fname file log_number mem h' st1 w1 Hlog Hm Hw1 E1 E2) as (mem2 & st2 & w2 & E & G & C & [(Q1 & Q2)|(Q1 & Q2)]); exists mem2, st2, w2; split_and!; try done; [left; split_and!; auto|by right]. }
  run. destruct Hcase as [(-> & El & Ehs & m & log & -> & Hm')|(-> & ->)].
  - exists j, N1, ds, (set_reused st1 m log log_number), w2. rewrite <- Eh. split_and!; [done| | |done|done]; [|right; split_and!; [done|done|]; rewrite Ehs in Hparts; by apply Forall2_nil_inv_r in Hparts]. split; [done|done|exists xs; split; [done|congruence]|done|by exists hs, h'|done].
  - assert (wrote N N1 ds hs st st1 w w2) as Hwr2 by (split; [done|done|done|exists xs; split; [done|congruence]|done|done]). destruct mem as [m|].
    + destruct (flush_part N1 m h' st1 w2 Hm Hfit' Hw2) as (N2 & ds' & hs' & st3 & w3 & -> & Hwr3 & Eh3 & Emx3). pose proof (wrote_trans _ _ _ _ _ _ _ _ _ _ _ _ _ Hwr2 Hwr3) as Hwr4. pose proof (wr_members _ _ _ _ _ _ _ _ Hwr3) as (M4 & M5 & M6).
      exists j, N2, (ds ++ ds'), st3, w3. rewrite <- Eh. split_and!; [done| |left; congruence|congruence|done]. rewrite <- Eh3, <- concat_app, <- (app_nil_r (concat (hs ++ hs'))). apply wrote_recovered; [done|done|]. by rewrite M4, E1.
    + exists j, N1, ds, st1, w2. rewrite <- Eh. split_and!; [done| |by left|done|done]. apply wrote_recovered; [done|done|]. by rewrite E1.
Qed.

(** A log becomes tables.  A log of groups of updates, cut by a crash at any byte,
    replays as a prefix of the groups, all of them if nothing was cut.  Their entries
    are, in order and none left out, in the tables that were written on the way, as the
    memtable filled up, and that the edit adds to level 0 under increasing numbers; or
    they are all in the memtable of the database, if the log could be kept.  The largest
    sequence number is kept up to date. *)
Theorem log_becomes_tables N log_number last_log fname file gs seq st w : LogFileName dbname log_number = Ret fname -> log_file fname file -> file `prefix_of` enc_records 0 (stamped seq gs) ->
  Forall mem_update_ok (concat gs) -> Forall small gs -> 1 <= seq -> seq + Z.of_nat (length (concat gs)) <= kMaxSequenceNumber -> parts_fit (numbered seq (concat gs)) -> above N w -> r_mem st = None -> r_log st = None ->
  exists j N' ds hs xs st' w', RecoverLog log_number last_log st w = Ret (OK, st', w') /\ above N' w' /\ numbers_in N N' ds /\ closed w' = closed w ++ xs /\ Forall2 table_of ds xs /\ Forall2 (fun d h => d.2 ≡ₚ h) ds hs /\ r_edit st' = add_files (r_edit st) ds /\
    match r_mem st' with Some m => ds = [] /\ mem_hist m (numbered seq (concat (take j gs))) /\ r_logfile_number st' = log_number | None => concat hs = numbered seq (concat (take j gs)) end /\
    r_max_sequence st' = (if (j =? 0)%nat then r_max_sequence st else Z.max (r_max_sequence st) (seq + Z.of_nat (length (concat (take j gs))) - 1)) /\ (file = enc_records 0 (stamped seq gs) -> concat (take j gs) = concat gs).
Proof.
  intros En Hlog Hp Hok Hsm H1 Hmax Hfit Hw Hmem Hnolog.
  destruct (recover_log_spec N log_number last_log fname file gs seq st w En Hlog Hp Hok Hsm H1 Hmax Hfit Hw Hmem Hnolog) as (j & N' & ds & st' & w' & E & [G B (xs & T & C) Ed (hs & h' & P & Hm & Eh) _] & Hlast & Emx & Hall).
  exists j, N', ds, hs, xs, st', w'. split_and!; try done. destruct (r_mem st') as [m|]; [|cbn in Hm; subst h'; by rewrite app_nil_r in Eh].
  destruct Hlast as [?|(_ & El & ->)]; [done|]. apply Forall2_nil_inv_l in P as ->. cbn in Eh. by subst h'.
Qed.
End Replay.

(** ** What the directory has to hold *)

Section Directory.
Context {W F I : Type} `{CompactionEnv W F} `{FlushEnv W} `{!DbEnv W F I} `{!OpenEnv W F}.
Context (c : Comparator) (snappy : option snappy_lib) (addr : Z) (options : Options) (dbname : bytes) (usage : MemTable -> Z) (write_buffer_size : Z) (paranoid reuse_logs : bool) (bfuel : nat).
Abbreviation recover_files := (recover_files (I := I) c snappy addr options dbname usage write_buffer_size paranoid reuse_logs bfuel).
Abbreviation replay_logs := (replay_logs (I := I) c snappy addr options dbname usage write_buffer_size paranoid reuse_logs bfuel).

Definition has_number (filenames : list bytes) (n : Z) : Prop := exists name t, name ∈ filenames /\ ParseFileName name = Some (n, t).
Definition needed_log (min_log prev_log : Z) (filenames : list bytes) (n : Z) : Prop := (exists name, name ∈ filenames /\ ParseFileName name = Some (n, kLogFile)) /\ (min_log <= n \/ n = prev_log).

Lemma directory_spec min_log prev_log filenames : forall x, let y := foldl (scan_name min_log prev_log) x filenames in
  (forall n, n ∈ y.1 <-> n ∈ x.1 /\ ~ has_number filenames n) /\ (forall n, n ∈ y.2 <-> n ∈ x.2 \/ needed_log min_log prev_log filenames n).
Proof.
  induction filenames as [|name names IH]; intros x; cbn [foldl].
  { split; intros n; [split; [intros Hn; split; [done|]; by intros (? & ? & ?%not_elem_of_nil & _)|by intros [? _]]|split; [by left|intros [?|((? & ?%not_elem_of_nil & _) & _)]; done]]. }
  destruct (IH (scan_name min_log prev_log x name)) as [H1' H2']. cbv zeta in *.
  assert (forall n, has_number (name :: names) n <-> (exists t, ParseFileName name = Some (n, t)) \/ has_number names n) as Hh.
  { intros n. unfold has_number. split; [intros (nm & t & [->|Hin]%elem_of_cons & E); [left; by exists t|right; by exists nm, t]|intros [(t & E)|(nm & t & Hin & E)]; [exists name, t; by split; [left|]|exists nm, t; by split; [right|]]]. }
  assert (forall n, needed_log min_log prev_log (name :: names) n <-> (ParseFileName name = Some (n, kLogFile) /\ (min_log <= n \/ n = prev_log)) \/ needed_log min_log prev_log names n) as Hl.
  { intros n. unfold needed_log. split; [intros ((nm & [->|Hin]%elem_of_cons & E) & Hr); [by left|right; split; [by exists nm|done]]|intros [(E & Hr)|((nm & Hin & E) & Hr)]; (split; [|done]); [exists name; by split; [left|]|exists nm; by split; [right|]]]. }
  unfold scan_name in *. destruct (ParseFileName name) as [[m t]|]; cbn [fst snd] in *; split; intros n; rewrite ?H1', ?H2', ?Hh, ?Hl.
  - rewrite elem_of_difference, elem_of_singleton. split; [intros [[Hx Hne] Hno]; split; [done|]; intros [(t' & [= -> _])|?]; done|intros [Hx Hno]; split; [split; [done|]; intros ->; apply Hno; left; by exists t|]; intros Hn; apply Hno; by right].
  - destruct t; cbn [andb]; try (split; [intros [?|?]; [by left|by right; right]|intros [?|[[? _]|?]]; [by left|done|by right]]).
    assert (Some (m, kLogFile) = Some (n, kLogFile) <-> m = n) as -> by (split; [by intros [= ->]|by intros ->]).
    destruct (Z.leb_spec min_log m), (Z.eqb_spec m prev_log); cbn [orb]; rewrite ?elem_of_app, ?list_elem_of_singleton; intuition (subst; auto; lia).
  - split; [intros [Hx Hno]; split; [done|]; by intros [(t & ?)|?]|intros [Hx Hno]; split; [done|]; intros Hn; apply Hno; by right].
  - split; [intros [?|?]; [by left|by right; right]|intros [?|[[? _]|?]]; [by left|done|by right]].
Qed.

Lemma least_in (n : Z) ns : foldr Z.min n ns ∈ n :: ns /\ forall m, m ∈ n :: ns -> foldr Z.min n ns <= m.
Proof.
  induction ns as [|x ns [IHin IHle]]; cbn [foldr].
  - split; [left|]. by intros m ->%list_elem_of_singleton.
  - rewrite !elem_of_cons in *. split.
    + destruct (Z.min_spec x (foldr Z.min n ns)) as [[_ ->]|[_ ->]]; tauto.
    + intros m Hm. rewrite !elem_of_cons in Hm. specialize (IHle m). rewrite elem_of_cons in IHle. destruct Hm as [->|[->|Hm]]; [|lia|]; etrans; [apply Z.le_min_r|tauto| apply Z.le_min_r|tauto].
Qed.

(** C17: recovery checks the directory by file numbers.  If some table of a version in
    use has a number that no file of the directory has, whatever the type of the file,
    it stops with a corruption that counts those numbers and names the table of the
    smallest one, before any log is replayed or any file changed.  (A log or a temporary
    file with the number of the table is enough to pass.)  If every number is there,
    exactly the logs that the manifest did not release are replayed, the older ones
    first, and the last sequence number is raised to the largest one that was seen. *)
Theorem recovery_checks_directory st w s filenames : oe_GetChildren dbname w = (s, filenames) -> ok s = true -> let missing n := n ∈ number <$> concat (concat (de_in_use w)) /\ ~ has_number filenames n in
  (exists n (lost : gset Z), missing n /\ (forall n', missing n' -> n <= n') /\ (forall n', n' ∈ lost <-> missing n') /\
     recover_files st w = (name ← TableFileName dbname n; s ← Corruption (NumberToString (Z.of_nat (size lost)) ++ str " missing files; e.g.") name; Ret (s, st, w))) \/
  ((forall n, ~ missing n) /\ exists logs, StronglySorted Z.le logs /\ (forall n, n ∈ logs <-> needed_log (VS.log_number_ (de_versions w)) (VS.prev_log_number_ (de_versions w)) filenames n) /\
     recover_files st w = ('(s, st, w) ← replay_logs logs st w;
       if negb (ok s) then Ret (s, st, w) else if VS.last_sequence_ (de_versions w) <? r_max_sequence st then vs ← VS.SetLastSequence (r_max_sequence st) (de_versions w); Ret (OK, st, de_set_versions vs w) else Ret (OK, st, w))).
Proof.
  intros Ec Es missing. unfold DbOpen.recover_files. rewrite Ec, Es. cbn [negb].
  destruct (directory_spec (VS.log_number_ (de_versions w)) (VS.prev_log_number_ (de_versions w)) filenames (AddLiveFiles (de_in_use w) ∅, [])) as [Hx Hl].
  destruct (foldl _ _ filenames) as [expected logs]. cbn [fst snd] in Hx, Hl.
  assert (forall n, n ∈ elements expected <-> missing n) as Hm by (intros n; rewrite elem_of_elements, Hx, live_files; unfold missing; set_solver).
  destruct (elements expected) as [|n ns] eqn:E.
  - right. split; [by intros n ?%Hm%not_elem_of_nil|]. exists (merge_sort Z.le logs). split_and!; [apply StronglySorted_merge_sort; apply _| |done].
    intros n. rewrite (merge_sort_Permutation Z.le logs), Hl. split; [by intros [?%not_elem_of_nil|?]|by right].
  - left. destruct (least_in n ns) as [Hin Hle]. exists (foldr Z.min n ns), expected. split_and!; [by apply Hm|by intros n' ?%Hm; apply Hle| |done].
    intros n'. rewrite <- Hm, <- E. symmetry. apply elem_of_elements.
Qed.
End Directory.

(** ** Examples *)

(** A log with one update, in a directory without tables. *)
Definition sample_log : list (list update) := [[UPut (str "b") (str "v")]].
#[local] Instance sample_open : OpenEnv (Z * list (bytes * bytes)) bytes := {|
  oe_CreateDir _ w := w;
  oe_LockFile _ w := (OK, w);
  oe_FileExists _ _ := true;
  oe_GetChildren _ _ := (OK, [str "000003.log"]);
  oe_NewSequentialFile _ _ := (OK, enc_records 0 (stamped 5 sample_log));
  oe_GetFileSize _ _ := (OK, 0);
  oe_NewAppendableFile _ w := (OK, Some [], w);
|}.

Lemma sample_above N : CompactionEnvLaws (Z * list (bytes * bytes)) (fun w => 0 < w.1 /\ N <= w.1) snd.
Proof. split; intros [n fs]; cbn; eauto 10; intros Hn; [exists n, (n + 1, fs); cbn; split_and!; [done|lia|lia|lia|done]|exists (n, fs), []; by rewrite app_nil_r]. Qed.

Lemma sample_above_flush N : FlushEnvLaws (Z * list (bytes * bytes)) (fun w => 0 < w.1 /\ N <= w.1) snd.
Proof. by split. Qed.

Lemma sample_next N (w : Z * list (bytes * bytes)) n w' : 0 < w.1 /\ N <= w.1 -> ce_NewFileNumber w = (n, w') -> N <= n /\ 0 < w'.1 /\ n + 1 <= w'.1.
Proof. intros Hw [= <- <-]. cbn. lia. Qed.

Lemma log_becomes_tables_witness : exists st' w',
  RecoverLogFile BytewiseComparator (Some toy_snappy) 0 sample_options (str "db") (fun _ => 1) 0 true true 2 3 true (MkRecovery bytes None None 0 VE.new false 0) (4, []) = Ret (OK, st', w') /\
  match r_mem st' with Some m => mem_hist m [sample_mem_entry] | None => w'.2 <> [] end /\ r_max_sequence st' = 5.
Proof.
  destruct (log_becomes_tables (Some toy_snappy) ltac:(intros s [= <-]; apply toy_snappy_ok) 0 ltac:(lia) sample_options same_user 100 12 sample_options_ok (str "db") (fun _ => 1) 0 true true 2
    (fun N w => 0 < w.1 /\ N <= w.1) snd (Hcompact := sample_above) (Hflush := sample_above_flush) sample_next 0 3 true (str "db/000003.log") (enc_records 0 (stamped 5 sample_log)) sample_log 5
    (MkRecovery bytes None None 0 VE.new false 0) (4, @nil (bytes * bytes))) as (j & N' & ds & hs & xs & st' & w' & E & _ & _ & Hc & Ht & Hp & _ & Hm & Hx & Hall).
  - by vm_compute.
  - split; [done|]. by intros N w s f w' Hw [= <- <- <-].
  - done.
  - by repeat constructor.
  - by repeat constructor.
  - lia.
  - by vm_compute.
  - split; [cbn; lia|]. intros pre part post m mes Eq Hr Hperm. change (MemTable.number 5 (concat sample_log)) with [sample_mem_entry] in Eq.
    assert (part = [] \/ part = [sample_mem_entry]) as [->| ->].
    { destruct pre as [|? [|? ?]]; destruct part as [|? [|? ?]]; simplify_eq/=; auto. }
    + apply Permutation_nil_r in Hperm as ->. split; [split; constructor|split; [apply Z.ltb_lt; vm_compute; reflexivity|cbn; lia]].
    + apply Permutation_singleton_r in Hperm as ->. split; [split; [repeat constructor; apply Nat.leb_le; vm_compute; reflexivity|repeat constructor]|split; [apply Z.ltb_lt; vm_compute; reflexivity|cbn; lia]].
  - done.
  - done.
  - done.
  - specialize (Hall eq_refl). exists st', w'. split; [exact E|]. rewrite Hall in Hm, Hx. destruct j as [|j]; [done|]. split; [|exact Hx]. destruct (r_mem st') as [m|]; [apply Hm|].
    destruct hs; [done|]. inversion Hp; subst. inversion Ht; subst. rewrite Hc. done.
Defined.

(** The table in use is gone. *)
#[local] Existing Instance toy_env.
#[local] Existing Instance toy_flush.
#[local] Existing Instance toy_db.
#[local] Instance toy_open : OpenEnv toy_world bytes := {|
  oe_CreateDir _ w := w;
  oe_LockFile _ w := (OK, w);
  oe_FileExists _ _ := true;
  oe_GetChildren _ _ := (OK, [str "CURRENT"; str "000005.ldb"; str "000006.log"]);
  oe_NewSequentialFile _ _ := (OK, []);
  oe_GetFileSize _ _ := (OK, 0);
  oe_NewAppendableFile _ w := (OK, Some [], w);
|}.

Lemma toy_names : ParseFileName <$> [str "CURRENT"; str "000005.ldb"; str "000006.log"] = [Some (0, kCurrentFile); Some (5, kTableFile); Some (6, kLogFile)] /\ TableFileName (str "db") 7 = Ret (str "db/000007.ldb").
Proof. split; vm_compute; reflexivity. Qed.

Lemma toy_gone : ~ has_number [str "CURRENT"; str "000005.ldb"; str "000006.log"] 7.
Proof. intros (name & t & Hin & Hp). apply (list_elem_of_fmap_2' ParseFileName) with (y := Some (7, t)) in Hin; [|done]. rewrite (proj1 toy_names) in Hin. set_solver. Qed.

Lemma recovery_checks_directory_witness :
  recover_files (I := ListIterator) BytewiseComparator (Some toy_snappy) 0 sample_options (str "db") (fun _ => 1) 0 true true 2 (MkRecovery bytes None None 0 VE.new false 0) toy_state =
    (s ← Corruption (str "1 missing files; e.g.") (str "db/000007.ldb"); Ret (s, MkRecovery bytes None None 0 VE.new false 0, toy_state)).
Proof.
  destruct (recovery_checks_directory (F := bytes) (I := ListIterator) (OpenEnv0 := toy_open) BytewiseComparator (Some toy_snappy) 0 sample_options (str "db") (fun _ => 1) 0 true true 2 (MkRecovery bytes None None 0 VE.new false 0) toy_state
    OK [str "CURRENT"; str "000005.ldb"; str "000006.log"] ltac:(done) ltac:(done)) as [(n & lost & [Hn _] & _ & Hlost & E)|(Hno & _)].
  - assert (lost = {[7]}) as ->.
    { apply set_eq. intros n'. rewrite Hlost, elem_of_singleton. split; [by intros [->%list_elem_of_singleton _]|]. intros ->. split; [by left|apply toy_gone]. }
    apply list_elem_of_singleton in Hn as ->. rewrite E, size_singleton. change (number _) with 7. rewrite (proj2 toy_names). reflexivity.
  - destruct (Hno 7). split; [by left|apply toy_gone].
Defined.

(** The check does not look at the type of a file: with the log 000007.log in the
    directory and the table 000007.ldb, which the version uses, gone, no number is
    missing. *)
Theorem log_masks_missing_table : (scan_name 6 0 (AddLiveFiles (de_in_use (I := ListIterator) toy_state) ∅, []) (str "000007.log")).1 = ∅ /\ 7 ∈ AddLiveFiles (de_in_use (I := ListIterator) toy_state) ∅.
Proof.
  assert (ParseFileName (str "000007.log") = Some (7, kLogFile)) as E by (vm_compute; reflexivity).
  assert (forall n, n ∈ AddLiveFiles (de_in_use (I := ListIterator) toy_state) ∅ <-> n = 7) as Hl.
  { intros n. rewrite live_files. split; [intros [?|?%list_elem_of_singleton]; [set_solver|done]|intros ->; right; by left]. }
  split; [|by apply Hl]. unfold scan_name. rewrite E. cbn [fst]. apply set_eq. intros n. rewrite elem_of_difference, Hl. set_solver.
Qed.
