(* ===== verification/DbRecover.v ===== *)
(** * Reads after recovery (util/leveldb/db/db_impl.cc, [DBImpl::Recover])

    The logs of a database that stopped, replayed one after the other, and the version
    that their tables are added to: a lookup finds what it would have found in the
    updates of the logs and the old version together. *)

From S2P Require Import Prelude Slice Order CLib Bloom Coding DbFormat InternalOrder FileNames Status Files SkipList WriteBatch MemTable LogFormat DbWrite StdSet VersionEdit Version VersionBuilder VersionSet Iterators Block TableFormat FilterBlock Table TableSpec TableGet VersionGet Compaction DbCompact CompactionRun MemIter FlushTable Background DbOpen.
From stdpp Require Import strings sorting.
#[local] Open Scope Z_scope.
#[local] Existing Instance by_smallest_order.

(** ** New tables in level 0 *)

Section Level0.
Context (c : Comparator) `{!ComparatorLaws c} (known : FileMetaData -> Prop) (data : FileMetaData -> list entry).
Context (files : list (list FileMetaData)) (Hdata : version_data c known data files) (Hcan : canonical c files) (Hnums : forall l, l ∈ files -> NoDup (number <$> l)).
Context (N : Z) (Hbelow : forall l g, l ∈ files -> g ∈ l -> number g < N).
Context (fs : list FileMetaData) (Hfs : forall f, f ∈ fs -> known f /\ file_data c data f) (Hasc : StronglySorted Z.lt (number <$> fs)) (Habove : forall f, f ∈ fs -> N <= number f).
Context (Hnew : forall f l g, f ∈ fs -> l ∈ files -> g ∈ l -> newer c (data f) (data g)) (Hord : forall f g, f ∈ fs -> g ∈ fs -> number g < number f -> newer c (data f) (data g)).
Context (e : VE.VersionEdit) (Eptr : VE.compact_pointers_ e = []) (Edel : VE.deleted_files_ e = []) (Eadd : VE.new_files_ e = pair 0 <$> fs).

Lemma level0_adds i : adds e i = if decide (i = 0%nat) then fs else [].
Proof.
  unfold adds. rewrite Eadd. clear. destruct (decide (i = 0%nat)) as [->|Hi]; induction fs as [|f l IH]; cbn [fmap list_fmap]; [done| |done|].
  - rewrite filter_cons_True by done. cbn. by rewrite IH.
  - rewrite filter_cons_False by (cbn; lia). done.
Qed.

Lemma level0_edit i l : edits_level [e] i l = l ++ (if decide (i = 0%nat) then fs else []).
Proof. unfold edits_level. cbn. unfold edit_level, dels. rewrite Edel, level0_adds. cbn. by rewrite filter_all by set_solver. Qed.

Lemma level0_ok : edits_ok c files [e].
Proof.
  pose proof (vd_ok _ _ _ _ Hdata) as Hv. split; [apply Hv|done| | |].
  - apply Forall_singleton. split; [by rewrite Eptr|by rewrite Edel|]. rewrite Eadd. apply Forall_fmap, Forall_forall. intros f Hf. cbn. split; [done|]. apply Hfs, Hf.
  - intros i l Hl. unfold all_adds. cbn. rewrite app_nil_r, level0_adds, fmap_app. apply list_elem_of_lookup_2 in Hl. apply NoDup_app. split_and!; [by apply Hnums| |].
    + intros n Hn Hin. apply list_elem_of_fmap in Hn as (g & -> & Hg). case_decide; [|by apply not_elem_of_nil in Hin]. apply list_elem_of_fmap in Hin as (f & Ef & Hf). specialize (Hbelow l g Hl Hg). specialize (Habove f Hf). lia.
    + case_decide; [by apply StronglySorted_lt_nodup|constructor].
  - intros i l n Hl. assert (edits_level (take n [e]) (S i) l = l) as ->; [|by apply sorted_pairwise, (vo_sorted _ _ Hv i)].
    destruct n as [|n]; [done|]. cbn [take]. rewrite take_nil, level0_edit. cbn. by rewrite app_nil_r.
Qed.

Context (files' : list (list FileMetaData)) (Hleft : left_by c files [e] files').

Lemma level0_perm i l' : files' !! i = Some l' -> exists l, files !! i = Some l /\ l' ≡ₚ l ++ (if decide (i = 0%nat) then fs else []).
Proof.
  intros Hl'. destruct Hleft as (Hlen & _ & Hp). destruct (lookup_lt_is_Some_2 files i) as [l Hl]; [apply lookup_lt_Some in Hl'; by rewrite Hlen in Hl'|].
  exists l. split; [done|]. by rewrite (Hp i l l' Hl Hl'), level0_edit.
Qed.

(** A file of the new version is an old one of the level, or a new one of level 0. *)
Lemma level0_file i l' g : files' !! i = Some l' -> g ∈ l' -> (exists l, files !! i = Some l /\ g ∈ l) \/ g ∈ fs /\ i = 0%nat.
Proof.
  intros Hl' Hg. destruct (level0_perm i l' Hl') as (l & Hl & Hp). rewrite Hp in Hg. apply elem_of_app in Hg as [Hg|Hg]; [left; by exists l|]. case_decide; [by right|by apply not_elem_of_nil in Hg].
Qed.

(** The levels below keep their files. *)
Lemma level0_below i : files' !! S i = files !! S i.
Proof.
  destruct Hleft as (Hlen & Hcan' & _). destruct (files' !! S i) as [l'|] eqn:Hl'; [|symmetry; apply lookup_ge_None; rewrite <- Hlen; by apply lookup_ge_None].
  destruct (level0_perm (S i) l' Hl') as (l & Hl & Hp). rewrite Hl. f_equal. cbn in Hp. rewrite app_nil_r in Hp. pose proof (proj1 (Forall_lookup _ _) Hcan _ _ Hl) as [_ S1]. pose proof (proj1 (Forall_lookup _ _) Hcan' _ _ Hl') as [_ S2].
  apply (set_sorted_unique (by_smallest c) (P := file_ok c)); [|done..|by rewrite Hp]. by apply (proj1 (Forall_lookup _ _) Hcan' _ _ Hl').
Qed.

Lemma level0_version : version_data c known data files'.
Proof.
  pose proof (vd_ok _ _ _ _ Hdata) as Hv. pose proof Hleft as (Hlen & Hcan' & _). split.
  - split; [rewrite Hlen; apply Hv|eapply Forall_impl; [exact Hcan'|by intros l []]|]. intros i l'. rewrite level0_below. apply Hv.
  - intros l' g Hl' Hg. apply list_elem_of_lookup in Hl' as [i Hl']. destruct (level0_file i l' g Hl' Hg) as [(l & Hl & Hgl)|[Hf _]]; [|by apply Hfs]. by apply (vd_files _ _ _ _ Hdata l), Hgl; apply list_elem_of_lookup_2 in Hl.
  - intros l' Hl'. destruct (level0_perm 0 l' Hl') as (l & Hl & ->). pose proof (eo_fresh _ _ _ level0_ok 0%nat l Hl) as Hn. unfold all_adds in Hn. cbn in Hn. by rewrite app_nil_r, level0_adds in Hn.
  - intros l' g h Hl' Hg Hh Hlt. destruct (level0_file 0 l' g Hl' Hg) as [(l & Hl & Hgl)|[Hgf _]], (level0_file 0 l' h Hl' Hh) as [(l2 & Hl2 & Hhl)|[Hhf _]].
    + simplify_eq. by apply (vd_level0 _ _ _ _ Hdata l).
    + apply list_elem_of_lookup_2 in Hl. specialize (Hbelow l g Hl Hgl). specialize (Habove h Hhf). lia.
    + apply list_elem_of_lookup_2 in Hl2. by apply (Hnew g l2 h).
    + by apply Hord.
  - intros i j l1 l2 g h Hl1 Hl2 Hij Hg Hh. destruct j as [|j]; [lia|]. rewrite level0_below in Hl2. destruct (level0_file i l1 g Hl1 Hg) as [(l & Hl & Hgl)|[Hgf _]].
    + by apply (vd_levels _ _ _ _ Hdata i (S j) l l2).
    + apply list_elem_of_lookup_2 in Hl2. by apply (Hnew g l2 h).
Qed.

Lemma level0_entries x : x ∈ version_entries data files' <-> (exists f, f ∈ fs /\ x ∈ data f) \/ x ∈ version_entries data files.
Proof.
  rewrite !version_entries_elem. split.
  - intros (i & l' & g & Hl' & Hg & Hx). destruct (level0_file i l' g Hl' Hg) as [(l & Hl & Hgl)|[Hf _]]; [right; eauto 6|left; eauto].
  - destruct Hleft as (Hlen & _). intros [(f & Hf & Hx)|(i & l & g & Hl & Hg & Hx)].
    + destruct (lookup_lt_is_Some_2 files' 0) as [l' Hl']; [rewrite Hlen; pose proof (vo_levels _ _ (vd_ok _ _ _ _ Hdata)); unfold kNumLevels in *; lia|]. exists 0%nat, l', f. split_and!; [done| |done].
      destruct (level0_perm _ l' Hl') as (l & Hl & ->). apply elem_of_app. by right.
    + destruct (lookup_lt_is_Some_2 files' i) as [l' Hl']; [rewrite Hlen; by eapply lookup_lt_Some|]. exists i, l', g. split_and!; [done| |done]. destruct (level0_perm i l' Hl') as (l2 & Hl2 & ->). simplify_eq. apply elem_of_app. by left.
Qed.
End Level0.

(** The edit that recovery makes. *)
Lemma add_files_edit ds : VE.compact_pointers_ (add_files VE.new ds) = [] /\ VE.deleted_files_ (add_files VE.new ds) = [] /\ VE.new_files_ (add_files VE.new ds) = pair 0 <$> ds.*1.
Proof.
  induction ds as [|[f es] ds IH] using rev_ind; [done|]. unfold add_files in *. rewrite foldl_app. cbn [foldl fst]. destruct IH as (E1 & E2 & E3). cbn. split_and!; [done|done|]. rewrite E3, !fmap_app. by destruct f.
Qed.

(** ** Entries of logs are newer *)

Lemma entry_later c a (x : entry) : entry_ok a -> valid_key x.1 -> seq_of x.1 < e_seq a -> cmp_Compare c (ukey (mem_pair a).1) (ukey x.1) = 0 -> internal_ord c (mem_pair a).1 x.1 < 0.
Proof.
  intros (Ht & _) Hv Hs. destruct (valid_parts _ Hv) as (u & seq & t & Ex & Ht' & Eu & Es & _). rewrite Es in Hs. rewrite Eu, Ex. unfold mem_pair. cbn [fst]. rewrite ukey_ikey, ikey_ord by done. unfold icmp. intros ->. cbn.
  assert (tag seq t < tag (e_seq a) (e_type a)) as Hlt by (destruct Ht as [_ Ht], Ht' as [_ Ht']; unfold tag, kTypeDeletion, kTypeValue in *; lia). by rewrite (proj2 (Z.ltb_lt _ _) Hlt).
Qed.

Lemma mem_pair_key a : entry_ok a -> valid_key (mem_pair a).1 /\ seq_of (mem_pair a).1 = e_seq a.
Proof. intros (Ht & _). split; [by apply ikey_valid|]. unfold seq_of, mem_pair. cbn [fst]. by rewrite parse_ikey by done. Qed.

Lemma numbered_ok us : forall seq, Forall mem_update_ok us -> 0 <= seq -> seq + Z.of_nat (length us) <= kMaxSequenceNumber + 1 -> Forall entry_ok (MemTable.number seq us).
Proof.
  induction us as [|u us IH]; intros seq Hok H0 Hmax; [constructor|]. apply Forall_cons in Hok as [Hu Hok]. cbn [length] in Hmax.
  destruct u as [k v|k]; cbn [MemTable.number]; constructor; try (apply IH; [done|lia|lia]); cbn in Hu; (split; [split; [cbn; lia|cbn; auto]|]); cbn; [done|]. split; [done|lia].
Qed.

Lemma parts_elem ds hs a : Forall2 (fun (d : FileMetaData * list mem_entry) h => d.2 ≡ₚ h) ds hs -> a ∈ concat hs <-> exists d, d ∈ ds /\ a ∈ d.2.
Proof.
  induction 1 as [|d h ds hs Hd _ IH]; cbn [concat]; [split; [by intros ?%not_elem_of_nil|by intros (d & ?%not_elem_of_nil & _)]|].
  rewrite elem_of_app, IH, <- Hd. split; [intros [Ha|(d' & Hd' & Ha)]; [exists d; by split; [left|]|exists d'; by split; [right|]]|]. intros (d' & [->|Hd']%elem_of_cons & Ha); [by left|right; eauto].
Qed.

(** Parts of a history that is in order, under numbers in order. *)
Lemma parts_later ds hs d d' a b : Forall2 (fun (d : FileMetaData * list mem_entry) h => d.2 ≡ₚ h) ds hs -> StronglySorted Z.lt ((fun d => number d.1) <$> ds) -> increasing (concat hs) -> d ∈ ds -> d' ∈ ds -> number d'.1 < number d.1 -> a ∈ d.2 -> b ∈ d'.2 -> e_seq b < e_seq a.
Proof.
  intros Hp. induction Hp as [|x h ds hs Hx Hp IH]; intros Hs Hi Hd Hd' Hlt Ha Hb; [by apply not_elem_of_nil in Hd|]. cbn [concat fmap list_fmap] in *. apply StronglySorted_inv in Hs as [Hs Hall]. rewrite Forall_fmap, Forall_forall in Hall.
  unfold increasing in *. apply StronglySorted_app in Hi as (Hcross & _ & Hi).
  apply elem_of_cons in Hd as [->|Hd], Hd' as [->|Hd']; [lia|specialize (Hall d' Hd'); cbn in Hall; lia| |by apply IH].
  apply Hcross; [by rewrite <- Hx|]. apply (parts_elem ds hs a Hp). eauto.
Qed.

(** ** Replaying the logs *)

(** The log [cr_number], as it was when the database stopped: a cut of the groups
    [cr_groups], whose first update has the number [cr_first]. *)
Record crashed := MkCrashed { cr_number : Z; cr_name : bytes; cr_file : bytes; cr_first : Z; cr_groups : list (list update) }.

Definition cr_entries (l : crashed) : list mem_entry := MemTable.number (cr_first l) (concat (cr_groups l)).
Definition kept (l : crashed) (j : nat) : list mem_entry := MemTable.number (cr_first l) (concat (take j (cr_groups l))).
Definition complete (l : crashed) (j : nat) : Prop := cr_file l = enc_records 0 (stamped (cr_first l) (cr_groups l)) -> kept l j = cr_entries l.
Definition before (l l' : crashed) : Prop := cr_first l + Z.of_nat (length (concat (cr_groups l))) <= cr_first l'.

Lemma kept_entries l j : exists rest, cr_entries l = kept l j ++ rest.
Proof. eexists. unfold cr_entries, kept. by rewrite <- MemTable.number_app, <- concat_app, take_drop. Qed.

Lemma kept_range l j e : e ∈ kept l j -> cr_first l <= e_seq e < cr_first l + Z.of_nat (length (concat (cr_groups l))).
Proof. intros He. apply (number_range (cr_first l)). destruct (kept_entries l j) as [rest E]. unfold cr_entries in E. rewrite E. apply elem_of_app. by left. Qed.

(** Logs that were not cut are kept whole. *)
Lemma kept_all logs js : Forall2 complete logs js -> Forall (fun l => cr_file l = enc_records 0 (stamped (cr_first l) (cr_groups l))) logs -> concat (zip_with kept logs js) = concat (cr_entries <$> logs).
Proof. induction 1 as [|l j logs js Hl _ IH]; [done|]. intros [E Hall]%Forall_cons. cbn [zip_with fmap list_fmap concat]. by rewrite (Hl E), (IH Hall). Qed.

(** What logs hold that follow each other is in order. *)
Lemma kept_increasing logs : forall js, StronglySorted before logs -> increasing (concat (zip_with kept logs js)).
Proof.
  unfold increasing. induction logs as [|l logs IH]; intros [|j js] Hs; cbn [zip_with concat]; try constructor. apply StronglySorted_inv in Hs as [Hs Hall].
  apply StronglySorted_app_2; [|apply number_increasing|by apply IH]. intros a b Ha%kept_range Hb. apply list_elem_of_In, in_concat in Hb as (h & Hh%list_elem_of_In & Hb%list_elem_of_In).
  apply elem_of_zip_with in Hh as (l' & j' & -> & Hl' & _). apply kept_range in Hb. rewrite Forall_forall in Hall. specialize (Hall l' Hl'). unfold before in Hall. lia.
Qed.

Section Logs.
Context {W I : Type} `{!CompactionEnv W bytes} `{FlushEnv W} `{!DbEnv W bytes I} `{!OpenEnv W bytes}.
Context (snappy : option snappy_lib) (Hsnappy : forall s, snappy = Some s -> snappy_ok s) (addr : Z) (Haddr : 0 <= addr).
Abbreviation c := BytewiseComparator.
Context (options : Options) (same : bytes -> bytes -> Prop) `{!TableComparatorLaws (comparator options) internal_good (internal_ord c) same} (capacity rate : nat)
  (Hopts : options_ok options internal_good same capacity rate) (dbname : bytes) (usage : MemTable -> Z) (write_buffer_size : Z) (paranoid reuse_logs : bool) (bfuel : nat).
Context (above : Z -> W -> Prop) (closed : W -> list (bytes * bytes)) {Hcompact : forall N, CompactionEnvLaws W (above N) closed} {Hflush : forall N, FlushEnvLaws W (above N) closed}.
Context (Hnext : forall N w n w', above N w -> ce_NewFileNumber w = (n, w') -> N <= n /\ above (n + 1) w').
Abbreviation replay_logs := (replay_logs (I := I) c snappy addr options dbname usage write_buffer_size paranoid reuse_logs bfuel).
Abbreviation recovered := (recovered snappy addr options dbname above closed).
Abbreviation table_of := (table_of snappy addr options dbname).
Abbreviation mark := (fun n (w : W) => de_set_versions (VS.MarkFileNumberUsed n (de_versions w)) w).

Record crashed_ok (l : crashed) : Prop := {
  co_name : LogFileName dbname (cr_number l) = Ret (cr_name l);
  co_file : log_file above closed (cr_name l) (cr_file l);
  co_cut : cr_file l `prefix_of` enc_records 0 (stamped (cr_first l) (cr_groups l));
  co_updates : Forall mem_update_ok (concat (cr_groups l));
  co_small : Forall small (cr_groups l);
  co_first : 1 <= cr_first l;
  co_last : cr_first l + Z.of_nat (length (concat (cr_groups l))) <= kMaxSequenceNumber;
  co_fit : parts_fit options capacity rate bfuel (cr_entries l);
  co_mark N w : above N w -> above N (mark (cr_number l) w) /\ closed (mark (cr_number l) w) = closed w;
}.

Lemma recovered_none N st w : above N w -> r_mem st = None -> r_log st = None -> recovered N N [] [] st st w w.
Proof. intros Hw Hm Hl. split; [done|apply numbers_nil|exists []; split; [constructor|by rewrite app_nil_r]|done|exists [], []; split_and!; [constructor|by rewrite Hm|done]|done]. Qed.

Lemma recovered_trans N N1 N2 ds ds' h h' st st1 st2 w w1 w1' w2 : recovered N N1 ds h st st1 w w1 -> r_mem st1 = None -> closed w1' = closed w1 -> recovered N1 N2 ds' h' st1 st2 w1' w2 -> recovered N N2 (ds ++ ds') (h ++ h') st st2 w w2.
Proof.
  intros [G1 B1 (xs1 & T1 & C1) E1 (hs1 & m1 & P1 & M1 & <-) L1] Hm Hc [G2 B2 (xs2 & T2 & C2) E2 (hs2 & m2 & P2 & M2 & <-) L2]. rewrite Hm in M1. cbn in M1. subst m1.
  split; [done|by eapply numbers_app|exists (xs1 ++ xs2); split; [by apply Forall2_app|by rewrite C2, Hc, C1, app_assoc]|rewrite E2, E1; unfold add_files; by rewrite foldl_app| |done].
  exists (hs1 ++ hs2), m2. split_and!; [by apply Forall2_app|done|by rewrite concat_app, app_nil_r, app_assoc].
Qed.

Lemma replay_logs_spec logs : forall N st w, Forall crashed_ok logs -> above N w -> r_mem st = None -> r_log st = None ->
  exists js N' ds st' w', replay_logs (cr_number <$> logs) st w = Ret (OK, st', w') /\ recovered N N' ds (concat (zip_with kept logs js)) st st' w w' /\ Forall2 complete logs js /\
    r_max_sequence st <= r_max_sequence st' /\ Forall (fun e => e_seq e <= r_max_sequence st') (concat (zip_with kept logs js)).
Proof.
  induction logs as [|l logs IH]; intros N st w Hok Hw Hm Hl.
  { exists [], N, [], st, w. split_and!; [done|by apply recovered_none|constructor|lia|constructor]. }
  apply Forall_cons in Hok as [[Hname Hfile Hcut Hup Hsm Hfirst Hlast Hfit Hmark] Hok]. cbn [fmap list_fmap DbOpen.replay_logs].
  destruct (recover_log_spec snappy Hsnappy addr Haddr options same capacity rate Hopts dbname usage write_buffer_size paranoid reuse_logs bfuel above closed Hnext N (cr_number l) (bool_decide (cr_number <$> logs = [])) (cr_name l) (cr_file l) (cr_groups l) (cr_first l) st w
    Hname Hfile Hcut Hup Hsm Hfirst Hlast Hfit Hw Hm Hl) as (j & N1 & ds & st1 & w1 & -> & Hrec & Hend & Emx & Hall). run. change (ok OK) with true. cbn [negb].
  assert (r_max_sequence st <= r_max_sequence st1 /\ Forall (fun e => e_seq e <= r_max_sequence st1) (kept l j)) as [Hmx Hkept].
  { rewrite Emx. destruct (Nat.eqb_spec j 0) as [->|_]; (split; [lia|]); unfold kept; [rewrite take_0; constructor|]. apply Forall_forall. intros e He%number_range. lia. }
  assert (complete l j) as Hcomp by (intros E; unfold kept, cr_entries; by rewrite Hall).
  pose proof (rd_above _ _ _ _ _ _ _ _ _ _ _ _ _ _ Hrec) as Hw1. destruct (Hmark N1 w1 Hw1) as [Hw1' Hc1].
  destruct (r_mem st1) as [m|] eqn:Em.
  - destruct Hend as [?|(El & _ & _)]; [done|]. apply bool_decide_eq_true_1, fmap_nil_inv in El as ->. cbn [fmap list_fmap DbOpen.replay_logs]. exists [j], N1, ds, st1, (mark (cr_number l) w1).
    cbn [zip_with concat]. rewrite app_nil_r. split_and!; [done| |by repeat constructor|done|done]. destruct Hrec as [G B (xs & T & C) E Hh L]. split; [done|done|exists xs; split; [done|congruence]|done|done|done].
  - destruct (IH N1 st1 (mark (cr_number l) w1) Hok Hw1' Em (rd_log _ _ _ _ _ _ _ _ _ _ _ _ _ _ Hrec Em)) as (js & N' & ds' & st' & w' & E & Hrec' & Hcs & Hmx' & Hall'). exists (j :: js), N', (ds ++ ds'), st', w'.
    cbn [zip_with concat]. split_and!; [done|by eapply recovered_trans|by constructor|lia|]. apply Forall_app. split; [eapply Forall_impl; [exact Hkept|cbn; lia]|done].
Qed.

Lemma kept_entries_ok logs js : Forall crashed_ok logs -> Forall entry_ok (concat (zip_with kept logs js)).
Proof.
  intros Hok. apply Forall_concat, Forall_forall. intros h (l & j & -> & Hl & _)%elem_of_zip_with. rewrite Forall_forall in Hok. specialize (Hok l Hl). pose proof (co_first l Hok). pose proof (co_last l Hok).
  assert (Forall entry_ok (cr_entries l)) as Hall by (apply numbered_ok; [apply Hok|lia|lia]). destruct (kept_entries l j) as [rest E]. rewrite E in Hall. by apply Forall_app in Hall as [? _].
Qed.

Lemma newer_entries (h : list mem_entry) es : Forall entry_ok h -> (forall a x, a ∈ h -> x ∈ es -> valid_key x.1 /\ seq_of x.1 < e_seq a) -> newer c (mem_pair <$> h) es.
Proof. intros Hok Hlt x y Hx Hy. apply list_elem_of_fmap in Hx as (a & -> & Ha). rewrite Forall_forall in Hok. destruct (Hlt a y Ha Hy). by apply entry_later; [apply Hok|..]. Qed.

(** The version that the recovered tables are added to. *)
Section Added.
Context (N N' : Z) (ds : list (FileMetaData * list mem_entry)) (hs : list (list mem_entry)) (h' : list mem_entry) (xs : list (bytes * bytes)).
Context (Hnum : numbers_in N N' ds) (Htab : Forall2 table_of ds xs) (Hparts : Forall2 (fun d h => d.2 ≡ₚ h) ds hs) (Hinc : increasing (concat hs ++ h')) (Hok : Forall entry_ok (concat hs ++ h')).
Context (known : FileMetaData -> Prop) (data : FileMetaData -> list entry) (files : list (list FileMetaData)) (ps : list bytes).
Context (Hdata : version_data c known data files) (Hcan : canonical c files) (Hps : Z.of_nat (length ps) = kNumLevels) (Hfiles : forall l, l ∈ files -> NoDup (number <$> l) /\ Forall (fun g => number g < N) l).
Context (Hold : forall x e, x ∈ version_entries data files -> e ∈ concat hs ++ h' -> seq_of x.1 < e_seq e).
Context (Hds : forall d, d ∈ ds -> known d.1 /\ data d.1 = mem_pair <$> d.2).

Lemma added_in d a : d ∈ ds -> a ∈ d.2 -> a ∈ concat hs ++ h' /\ entry_ok a.
Proof. intros Hd Ha. rewrite Forall_forall in Hok. assert (a ∈ concat hs ++ h') as Hin by (apply elem_of_app; left; apply (parts_elem ds); eauto). split; [done|by apply Hok]. Qed.

Lemma old_entry l g x : l ∈ files -> g ∈ l -> x ∈ data g -> x ∈ version_entries data files /\ valid_key x.1.
Proof.
  intros Hl Hg Hx. destruct (vd_files _ _ _ _ Hdata l g Hl Hg) as [_ Hf]. split; [|pose proof (fd_keys _ _ _ Hf) as Hv; rewrite Forall_forall in Hv; by apply Hv]. apply list_elem_of_lookup in Hl as [i Hl]. apply version_entries_elem. eauto 6.
Qed.

Lemma added_newer d es : d ∈ ds -> (forall x, x ∈ es -> valid_key x.1 /\ forall a, a ∈ d.2 -> seq_of x.1 < e_seq a) -> newer c (data d.1) es.
Proof.
  intros Hd Hes. rewrite (proj2 (Hds d Hd)). apply newer_entries; [apply Forall_forall; intros a Ha; by apply (added_in d)|]. intros a x Ha Hx. destruct (Hes x Hx) as [? Hlt]. auto.
Qed.

Lemma added_version : exists files', build c files ps [add_files VE.new ds] = Ret (files', ps) /\ version_data c known data files' /\ canonical c files' /\
  newer c (mem_pair <$> h') (version_entries data files') /\ forall x, x ∈ (mem_pair <$> h') ++ version_entries data files' <-> x ∈ (mem_pair <$> concat hs ++ h') ++ version_entries data files.
Proof.
  destruct (add_files_edit ds) as (E1 & E2 & E3). destruct Hnum as (_ & Hasc & Hab). rewrite Forall_forall in Hab. set (fs := ds.*1) in *.
  assert (forall f, f ∈ fs -> exists d, d ∈ ds /\ f = d.1) as Hfs by (intros f (d & -> & Hd)%list_elem_of_fmap; eauto).
  assert (forall f, f ∈ fs -> known f /\ file_data c data f) as Hknown.
  { intros f (d & Hd & ->)%Hfs. destruct (Hds d Hd) as [Hk Ed]. split; [done|]. apply list_elem_of_lookup in Hd as [i Hd]. destruct (Forall2_lookup_l _ _ _ _ _ Htab Hd) as (x & _ & Hx). by apply Hx. }
  assert (StronglySorted Z.lt (number <$> fs)) as Hasc' by (unfold fs; by rewrite <- list_fmap_compose).
  assert (forall f, f ∈ fs -> N <= number f) as Hab' by (intros f (d & Hd & ->)%Hfs; apply Hab; done).
  assert (forall l, l ∈ files -> NoDup (number <$> l)) as Hnd by (intros l Hl; by apply Hfiles).
  assert (forall l g, l ∈ files -> g ∈ l -> number g < N) as Hlow by (intros l g Hl Hg; destruct (Hfiles l Hl) as [_ Hf]; rewrite Forall_forall in Hf; by apply Hf).
  assert (forall f l g, f ∈ fs -> l ∈ files -> g ∈ l -> newer c (data f) (data g)) as Hnew.
  { intros f l g (d & Hd & ->)%Hfs Hl Hg. apply added_newer; [done|]. intros x Hx. destruct (old_entry l g x Hl Hg Hx) as [Hin ?]. split; [done|]. intros a Ha. apply (Hold x); [done|]. by apply (added_in d). }
  assert (forall f g, f ∈ fs -> g ∈ fs -> number g < number f -> newer c (data f) (data g)) as Hord.
  { intros f g (d & Hd & ->)%Hfs (d' & Hd' & ->)%Hfs Hlt. apply added_newer; [done|]. rewrite (proj2 (Hds d' Hd')). intros x (b & -> & Hb)%list_elem_of_fmap. destruct (mem_pair_key b) as [? ->]; [by apply (added_in d')|]. split; [done|].
    intros a Ha. apply (parts_later ds hs d d'); try done. unfold increasing in *. by apply StronglySorted_app_1_l in Hinc. }
  destruct (build_spec c files ps [add_files VE.new ds] Hps) as (files' & Eb & Hleft); [by apply (level0_ok c known data files Hdata Hcan Hnd N Hlow fs)|].
  pose proof (level0_version c known data files Hdata Hcan Hnd N Hlow fs Hknown Hasc' Hab' Hnew Hord _ E1 E2 E3 files' Hleft) as Hd'.
  assert (forall x, x ∈ version_entries data files' <-> x ∈ mem_pair <$> concat hs \/ x ∈ version_entries data files) as Hx.
  { intros x. rewrite (level0_entries c known data files Hdata Hcan Hnd N Hlow fs Hknown Hasc' Hab' Hnew Hord _ E1 E2 E3 files' Hleft x). apply or_iff_compat_r. rewrite list_elem_of_fmap. split.
    - intros (f & (d & Hd & ->)%Hfs & Hx). rewrite (proj2 (Hds d Hd)) in Hx. apply list_elem_of_fmap in Hx as (a & -> & Ha). exists a. split; [done|]. apply (parts_elem ds); eauto.
    - intros (a & -> & (d & Hd & Ha)%(parts_elem ds)); [|done]. exists d.1. split; [by apply list_elem_of_fmap_2|]. rewrite (proj2 (Hds d Hd)). by apply list_elem_of_fmap_2. }
  exists files'. split_and!; [by rewrite Eb; cbn; unfold edit_pointers; rewrite E1|done|apply Hleft| |].
  - apply newer_entries; [by apply Forall_app in Hok as [_ ?]|]. intros a x Ha [(b & -> & Hb)%list_elem_of_fmap|Hxo]%Hx.
    + pose proof Hok as [Hokb _]%Forall_app. rewrite Forall_forall in Hokb. destruct (mem_pair_key b (Hokb b Hb)) as [? ->]. split; [done|]. unfold increasing in Hinc. by apply (StronglySorted_app_1_elem_of (fun e1 e2 => e_seq e1 < e_seq e2) _ _ b a Hinc).
    + pose proof (proj1 (version_entries_elem _ _ _) Hxo) as (i & l & g & Hl & Hg & Hxg). split; [by apply (old_entry l g); [apply list_elem_of_lookup_2 in Hl|..]|]. apply Hold; [done|]. apply elem_of_app. by right.
  - intros x. rewrite fmap_app, !elem_of_app, Hx. tauto.
Qed.
End Added.

(** The logs are replayed, and the version that their tables are added to. *)
Lemma replay_version logs N st w : Forall crashed_ok logs -> StronglySorted before logs -> above N w -> r_mem st = None -> r_log st = None -> r_edit st = VE.new ->
  exists js ds xs h' st' w', replay_logs (cr_number <$> logs) st w = Ret (OK, st', w') /\ Forall2 complete logs js /\ opt_hist (r_mem st') h' /\ Forall2 table_of ds xs /\ closed w' = closed w ++ xs /\ NoDup ((fun d => number d.1) <$> ds) /\
    Forall (fun e => e_seq e <= r_max_sequence st') (concat (zip_with kept logs js)) /\
    forall known data files ps, version_data c known data files -> canonical c files -> Z.of_nat (length ps) = kNumLevels -> (forall l, l ∈ files -> NoDup (number <$> l) /\ Forall (fun g => number g < N) l) ->
      (forall x l, x ∈ version_entries data files -> l ∈ logs -> seq_of x.1 < cr_first l) -> (forall d, d ∈ ds -> known d.1 /\ data d.1 = mem_pair <$> d.2) ->
      exists files', build c files ps [r_edit st'] = Ret (files', ps) /\ version_data c known data files' /\ canonical c files' /\ newer c (mem_pair <$> h') (version_entries data files') /\
        forall x, x ∈ (mem_pair <$> h') ++ version_entries data files' <-> x ∈ (mem_pair <$> concat (zip_with kept logs js)) ++ version_entries data files.
Proof.
  intros Hok Hs Hw Hm Hl He. destruct (replay_logs_spec logs N st w Hok Hw Hm Hl) as (js & N' & ds & st' & w' & E & [G B (xs & T & C) Ed (hs & h' & P & M & Eh) L] & Hcs & _ & Hmx).
  exists js, ds, xs, h', st', w'. split_and!; [done|done|done|done|done|apply StronglySorted_lt_nodup, B|done|]. intros known data files ps Hd Hcan Hps Hfiles Hold Hds. rewrite Ed, He.
  pose proof (kept_increasing logs js Hs) as Hinc. pose proof (kept_entries_ok logs js Hok) as Hent. rewrite <- Eh in Hinc, Hent.
  destruct (added_version N N' ds hs h' xs B T P Hinc Hent known data files ps Hd Hcan Hps Hfiles) as (files' & Eb & Hd' & Hcan' & Hnw & Hx); [|done|].
  { intros x e Hx He'. rewrite Eh in He'. apply list_elem_of_In, in_concat in He' as (h & Hh%list_elem_of_In & He'%list_elem_of_In). apply elem_of_zip_with in Hh as (l & j & -> & Hin & _). apply kept_range in He'. specialize (Hold x l Hx Hin). lia. }
  exists files'. split_and!; [done|done|done|done|]. by rewrite <- Eh.
Qed.

(** C6: recovery keeps reads.  Logs that follow each other, each cut by a crash at any byte,
    are replayed in order.  From each a prefix of its groups is kept, all of them if it
    was not cut.  The edit that recovery leaves adds the new tables to any version that is
    older than the logs, and the version that it leads to is again one in which reads
    find the newest data: a lookup in the memtable, which holds the rest of the last log
    if that log is kept, and in that version finds exactly what it finds in the updates
    that were kept and the old version together.  The last sequence number is at least
    that of every update that was kept. *)
Theorem recovery_keeps_reads logs N st w : Forall crashed_ok logs -> StronglySorted before logs -> above N w -> r_mem st = None -> r_log st = None -> r_edit st = VE.new ->
  exists js ds xs h' st' w', replay_logs (cr_number <$> logs) st w = Ret (OK, st', w') /\ Forall2 complete logs js /\ opt_hist (r_mem st') h' /\ Forall2 table_of ds xs /\ closed w' = closed w ++ xs /\ NoDup ((fun d => number d.1) <$> ds) /\
    Forall (fun e => e_seq e <= r_max_sequence st') (concat (zip_with kept logs js)) /\
    forall known data files ps, version_data c known data files -> canonical c files -> Z.of_nat (length ps) = kNumLevels -> (forall l, l ∈ files -> NoDup (number <$> l) /\ Forall (fun g => number g < N) l) ->
      (forall x l, x ∈ version_entries data files -> l ∈ logs -> seq_of x.1 < cr_first l) -> (forall d, d ∈ ds -> known d.1 /\ data d.1 = mem_pair <$> d.2) ->
      exists files', build c files ps [r_edit st'] = Ret (files', ps) /\ version_data c known data files' /\ canonical c files' /\ newer c (mem_pair <$> h') (version_entries data files') /\
        forall k o, found c k ((mem_pair <$> h') ++ version_entries data files') o <-> found c k ((mem_pair <$> concat (zip_with kept logs js)) ++ version_entries data files) o.
Proof.
  intros Hok Hs Hw Hm Hl He. destruct (replay_version logs N st w Hok Hs Hw Hm Hl He) as (js & ds & xs & h' & st' & w' & E & Hcs & H1 & H2 & H3 & H4 & H5 & Hr). exists js, ds, xs, h', st', w'. split_and!; try done.
  intros known data files ps Hd Hcan Hps Hfiles Hold Hds. destruct (Hr known data files ps Hd Hcan Hps Hfiles Hold Hds) as (files' & Eb & Q1 & Q2 & Q3 & Hx). exists files'. split_and!; try done. intros k o. split; apply found_candidates; intros x _; [apply Hx|symmetry; apply Hx].
Qed.
End Logs.

(** ** Example *)

Definition sample_last : mem_entry := ME (str "b") 7 kTypeValue (str "u").
(** Two logs that update the same key. *)
Definition sample_logs : list crashed :=
  [MkCrashed 3 (str "db/000003.log") (enc_records 0 (stamped 5 sample_log)) 5 sample_log;
   MkCrashed 6 (str "db/000006.log") (enc_records 0 (stamped 7 [[UPut (str "b") (str "u")]])) 7 [[UPut (str "b") (str "u")]]].

#[local] Instance sample_db : DbEnv (Z * list (bytes * bytes)) bytes ListIterator := {|
  de_versions _ := t_versions toy_state;
  de_set_versions _ w := w;
  de_seeks _ := MkSeeks ∅ None;
  de_set_seeks _ w := w;
  de_in_use _ := [];
  de_pending_outputs _ := ∅;
  de_children _ := [];
  de_Evict _ w := w;
  de_MakeInputIterator _ _ := MkListIter [] 0;
|}.
#[local] Instance sample_two_logs : OpenEnv (Z * list (bytes * bytes)) bytes := {|
  oe_CreateDir _ w := w;
  oe_LockFile _ w := (OK, w);
  oe_FileExists _ _ := true;
  oe_GetChildren _ _ := (OK, cr_name <$> sample_logs);
  oe_NewSequentialFile name _ := (OK, default [] (snd <$> find (fun x => bool_decide (x.1 = name)) ((fun l => (cr_name l, cr_file l)) <$> sample_logs)));
  oe_GetFileSize _ _ := (OK, 0);
  oe_NewAppendableFile _ w := (OK, Some [], w);
|}.

Lemma singleton_fit e : fits sample_options internal_good (internal_ord BytewiseComparator) 100 12 [mem_pair e] -> parts_fit sample_options 100 12 2 [e].
Proof.
  intros He. split; [cbn; lia|]. intros pre part post m mes Eq Hr Hperm. assert (part = [] \/ part = [e]) as [->| ->].
  { destruct pre as [|? [|? ?]]; destruct part as [|? [|? ?]]; simplify_eq/=; auto. }
  - apply Permutation_nil_r in Hperm as ->. split; [split; constructor|split; [apply Z.ltb_lt; vm_compute; reflexivity|cbn; lia]].
  - by apply Permutation_singleton_r in Hperm as ->.
Qed.

(** Contents for files with different numbers. *)
Lemma contents_of (ds : list (FileMetaData * list mem_entry)) : NoDup ((fun d => number d.1) <$> ds) -> exists data : FileMetaData -> list entry, forall d, d ∈ ds -> data d.1 = mem_pair <$> d.2.
Proof.
  induction ds as [|d ds IH]; cbn [fmap list_fmap]; [exists (fun _ => []); by intros d ?%not_elem_of_nil|]. intros [Hn Hds]%NoDup_cons. destruct (IH Hds) as [data Hdata].
  exists (fun f => if number f =? number d.1 then mem_pair <$> d.2 else data f). intros d' [->|Hd']%elem_of_cons; [by rewrite Z.eqb_refl|]. rewrite (proj2 (Z.eqb_neq _ _)); [by apply Hdata|]. intros E. apply Hn. apply list_elem_of_fmap. by exists d'.
Qed.

Lemma one_update_ok n name seq k v : LogFileName (str "db") n = Ret name -> (forall w : Z * list (bytes * bytes), oe_NewSequentialFile name w = (OK, enc_records 0 (stamped seq [[UPut k v]]))) ->
  mem_update_ok (UPut k v) -> 1 <= seq < kMaxSequenceNumber -> fits sample_options internal_good (internal_ord BytewiseComparator) 100 12 [mem_pair (ME k seq kTypeValue v)] ->
  crashed_ok (I := ListIterator) sample_options 100 12 (str "db") 2 (fun N w => 0 < w.1 /\ N <= w.1) snd (MkCrashed n name (enc_records 0 (stamped seq [[UPut k v]])) seq [[UPut k v]]).
Proof.
  intros Hname Hopen Hu Hseq Hfit. split; cbn [cr_number cr_name cr_file cr_first cr_groups]; [done| |done|by apply Forall_singleton|by apply Forall_singleton|lia|cbn [concat app length]; lia|by apply singleton_fit|done].
  split; [by intros; apply Hopen|]. by intros N w s f w' Hw [= <- <- <-].
Qed.

Lemma sample_logs_ok : Forall (crashed_ok (I := ListIterator) sample_options 100 12 (str "db") 2 (fun N w => 0 < w.1 /\ N <= w.1) snd) sample_logs.
Proof.
  constructor; [|constructor; [|constructor]]; apply one_update_ok.
  1, 6: vm_compute; reflexivity.
  1, 5: intros w; unfold oe_NewSequentialFile, sample_two_logs, sample_logs; cbn [fmap list_fmap cr_name cr_file find fst].
  - by rewrite bool_decide_eq_true_2 by done.
  - by rewrite bool_decide_eq_false_2, bool_decide_eq_true_2 by done.
  - done.
  - by vm_compute.
  - split; [split; [repeat constructor; apply Nat.leb_le; vm_compute; reflexivity|repeat constructor]|split; [apply Z.ltb_lt; vm_compute; reflexivity|cbn; lia]].
  - done.
  - by vm_compute.
  - split; [split; [repeat constructor; apply Nat.leb_le; vm_compute; reflexivity|repeat constructor]|split; [apply Z.ltb_lt; vm_compute; reflexivity|cbn; lia]].
Qed.

(** Both logs become tables of an empty database, and the later update is found. *)
Lemma recovery_keeps_reads_witness : exists st' w' h' data files', replay_logs (I := ListIterator) BytewiseComparator (Some toy_snappy) 0 sample_options (str "db") (fun _ => 1) 0 true false 2 [3; 6] (MkRecovery bytes None None 0 VE.new false 0) (4, []) = Ret (OK, st', w') /\
  opt_hist (r_mem st') h' /\ 7 <= r_max_sequence st' /\ build BytewiseComparator (replicate 7 []) no_pointers [r_edit st'] = Ret (files', no_pointers) /\
  found BytewiseComparator (ikey (str "b") 9 kValueTypeForSeek) ((mem_pair <$> h') ++ version_entries data files') (Some (mem_pair sample_last)).
Proof.
  destruct (recovery_keeps_reads (I := ListIterator) (Some toy_snappy) ltac:(intros s [= <-]; apply toy_snappy_ok) 0 ltac:(lia) sample_options same_user 100 12 sample_options_ok (str "db") (fun _ => 1) 0 true false 2
    (fun N w => 0 < w.1 /\ N <= w.1) snd (Hcompact := sample_above) (Hflush := sample_above_flush) sample_next sample_logs 0 (MkRecovery bytes None None 0 VE.new false 0) (4, @nil (bytes * bytes)))
    as (js & ds & xs & h' & st' & w' & E & Hcs & Hm & _ & _ & Hn & Hmx & Hr).
  - exact sample_logs_ok.
  - repeat constructor; unfold before; cbn; lia.
  - split; cbn; lia.
  - done.
  - done.
  - done.
  - destruct (contents_of ds Hn) as [data Hdata]. assert (concat (zip_with kept sample_logs js) = [sample_mem_entry; sample_last]) as Ek.
    { rewrite (kept_all sample_logs js Hcs); [reflexivity|]. apply Forall_cons. split; [reflexivity|]. apply Forall_cons. split; [reflexivity|constructor]. }
    rewrite Ek in Hmx, Hr. destruct (Hr (fun _ => True) data (replicate 7 []) no_pointers) as (files' & Eb & _ & _ & _ & Hf).
    + apply no_files_data.
    + apply Forall_replicate. split; constructor.
    + reflexivity.
    + intros l [i [-> _]%lookup_replicate]%list_elem_of_lookup. split; constructor.
    + intros x l (i & l' & g & [-> _]%lookup_replicate & []%not_elem_of_nil & _)%version_entries_elem.
    + intros d Hd. split; [exact Logic.I|exact (Hdata d Hd)].
    + exists st', w', h', data, files'. split; [exact E|]. split; [exact Hm|]. split; [apply Forall_cons in Hmx as [_ [Hmx _]%Forall_cons]; exact Hmx|]. split; [exact Eb|]. apply Hf. clear E Eb. split_and!; [apply elem_of_app; left; by right; left|by vm_compute|].
      intros x Hx _. apply elem_of_app in Hx as [[->| ->%list_elem_of_singleton]%elem_of_cons|Hx]; [by vm_compute..|]. apply version_entries_elem in Hx as (i & l' & g & [-> _]%lookup_replicate & []%not_elem_of_nil & _).
Defined.
