(* ===== verification/DbExec.v ===== *)
(** * Executions of the database (util/leveldb/db/db_impl.cc)

    Writers, the memtables and the background flush together: writers join the queue, the
    one at the front makes room for its write, which may switch to a new memtable and a
    new log, or commits a group, and the background thread turns the old memtable into a
    table.  Reads and a recovery after a crash see what was acknowledged. *)

From S2P Require Import Prelude Slice Order CLib Bloom Coding DbFormat InternalOrder FileNames Status Files SkipList WriteBatch MemTable LogFormat DbWrite StdSet VersionEdit Version VersionBuilder VersionSet Iterators Block TableFormat FilterBlock Table TableSpec TableGet VersionGet Compaction DbCompact CompactionRun MemIter FlushTable Background DbRead DbOpen DbRecover.
From stdpp Require Import strings sorting.
#[local] Open Scope Z_scope.
#[local] Existing Instance by_smallest_order.

(** The open database with the members that the queue needs.  [s_room] is what
    [MakeRoomForWrite] of the front writer has made of [force] and [allow_delay], once it
    runs.  [s_old_log] is a history variable: the number and the contents of the log
    whose updates are in the immutable memtable. *)
Record Session := MkSession {
  s_db : DBImpl bytes;
  s_writers : list writer;
  s_tmp : WriteBatch;
  s_room : option (bool * bool);
  s_finished : list (nat * Status);
  s_old_log : option (Z * bytes);
}.

Inductive act :=
| Join (w : writer)
| Turn (sync_status : Status)
| Flush (snapshots : list Z).

Section Ops.
Context {W I : Type} `{!CompactionEnv W bytes} `{FlushEnv W} `{IterView I} `{!IterMoves W I} `{!DbEnv W bytes I}.
Context (c : Comparator) (snappy : option snappy_lib) (addr : Z) (options : Options) (dbname : bytes) (usage : MemTable -> Z) (write_buffer_size : Z) (fuel : nat).

(** What a commit sees of the session. *)
Definition view (s : Session) (w : W) : DBState :=
  MkDB (s_writers s) (log_ (s_db s)) (mem_ (s_db s)) (VS.last_sequence_ (de_versions w)) (s_tmp s) (bg_error_ (s_db s)) (s_finished s).

Definition set_db (s : Session) (d : DBImpl bytes) : Session := MkSession d (s_writers s) (s_tmp s) (s_room s) (s_finished s) (s_old_log s).
Definition set_room (s : Session) (r : option (bool * bool)) : Session := MkSession (s_db s) (s_writers s) (s_tmp s) r (s_finished s) (s_old_log s).

(** [writers_.push_back(&w)] *)
Definition join (x : writer) (s : Session) : Session := MkSession (s_db s) (s_writers s ++ [x]) (s_tmp s) (s_room s) (s_finished s) (s_old_log s).

(** The part of [Write] after [MakeRoomForWrite], with its status. *)
Definition commit_front (status sync_status : Status) (x : writer) (s : Session) (w : W) : outcome (Status * nat * Session * W) :=
  if ok status then
    match w_batch x with
    | None => Ret (status, 0%nat, s, w)
    | Some _ =>
        '(status, sync_error, last, v) ← commit_group addr c sync_status x (view s w);
        let d := s_db s in
        let d := MkDBImpl bytes (DbWrite.mem_ v) (imm_ d) (DbWrite.log_ v) (logfile_number_ d) (bg_error_ d) (bg_compaction_scheduled_ d) (manual_compaction_ d) (bg_cv_ d) in
        let d := if (sync_error : bool) then RecordBackgroundError status d else d in
        vs ← VS.SetLastSequence (last_sequence_ v) (de_versions w);
        Ret (status, last, MkSession d (s_writers s) (tmp_batch_ v) (s_room s) (s_finished s) (s_old_log s), de_set_versions vs w)
    end
  else Ret (status, 0%nat, s, w).

(** The loop that pops the writers of the group. *)
Definition pop_writers (last : nat) (status : Status) (s : Session) : Session :=
  MkSession (s_db s) (drop (S last) (s_writers s)) (s_tmp s) None (s_finished s ++ ((fun x => (w_id x, status)) <$> take (S last) (s_writers s))) (s_old_log s).

(** A turn of the front writer: one of the loop of [MakeRoomForWrite], and when that
    returns the rest of [Write].  A switch leaves the old log behind. *)
Definition front_turn (sync_status : Status) (s : Session) (w : W) : outcome (Session * W) :=
  match s_writers s with
  | [] => Ret (s, w)
  | x :: _ =>
      let null := bool_decide (w_batch x = None) in
      let '(force, delay) := default (null, negb null) (s_room s) in
      '(r, force, delay, d, w) ← room_step (I := I) addr dbname usage write_buffer_size (w_id x) force delay (s_db s) w;
      match r with
      | RoomReturn status => '(status, last, s, w) ← commit_front status sync_status x (set_db s d) w; Ret (pop_writers last status s, w)
      | RoomSleep | RoomWait => Ret (set_room (set_db s d) (Some (force, delay)), w)
      | RoomAgain => Ret (MkSession d (s_writers s) (s_tmp s) (Some (force, delay)) (s_finished s) (Some (logfile_number_ (s_db s), dest_ (log_ (s_db s)))), w)
      end
  end.

(** The background call that finds an immutable memtable. *)
Definition flush_turn (snapshots : list Z) (s : Session) (w : W) : outcome (Session * W) :=
  match imm_ (s_db s) with
  | None => Ret (s, w)
  | Some _ =>
      '(d, w, _) ← BackgroundCall (I := I) c snappy addr options dbname fuel snapshots (s_db s) w;
      Ret (MkSession d (s_writers s) (s_tmp s) (s_room s) (s_finished s) (match imm_ d with None => None | Some _ => s_old_log s end), w)
  end.

Definition do_act (a : act) (x : Session * W) : outcome (Session * W) :=
  match a with
  | Join r => Ret (join r x.1, x.2)
  | Turn sync_status => front_turn sync_status x.1 x.2
  | Flush snapshots => flush_turn snapshots x.1 x.2
  end.

Definition run_acts (acts : list act) (s : Session) (w : W) : outcome (Session * W) := foldM do_act acts (s, w).
End Ops.

(** The database as [DB::Open] leaves it when it was made: an empty memtable and an empty
    log under a new number. *)
Definition Session_new (addr : Z) (log_number : Z) : outcome Session :=
  log ← Writer_new addr ([] : bytes);
  m ← MemTable_new;
  Ret (MkSession (MkDBImpl bytes (Ref m) None log log_number OK false None []) [] Clear None [] None).

Lemma number_length seq us : length (MemTable.number seq us) = length us.
Proof. revert seq. induction us as [|[] us IH]; intros seq; cbn; by rewrite ?IH. Qed.

(** ** What a lookup says of the updates *)

(** The answer for the value of a key. *)
Definition answer (o : option bytes) : Status * option bytes := match o with Some v => (OK, Some v) | None => (not_found, None) end.

Lemma found_state us es k s o : Forall mem_update_ok us -> Z.of_nat (length us) < 2 ^ 31 -> 0 <= s <= kMaxSequenceNumber -> (forall x, x ∈ es <-> x ∈ mem_pair <$> MemTable.number 1 us) ->
  found BytewiseComparator (ikey k s kValueTypeForSeek) es o -> reported_value o = answer (state_after (take (Z.to_nat s) us) !! k).
Proof.
  intros Hok Hsm Hs Hes Hf. replace (Z.to_nat s) with (Z.to_nat (s - 1 + 1)) by lia. rewrite <- read_hist_state. unfold read_hist. set (h := MemTable.number 1 us) in *.
  assert (Forall entry_ok h) as Hent by (apply numbered_ok; [done|lia|rewrite max_sequence; lia]). rewrite Forall_forall in Hent.
  assert (forall a, a ∈ h -> candidate BytewiseComparator (ikey k s kValueTypeForSeek) (mem_pair a) <-> visible k s a) as Hvis.
  { intros a Ha. destruct (mem_pair_key a (Hent a Ha)) as [Hk Eseq]. rewrite (candidate_seq BytewiseComparator k s (mem_pair a) Hs Hk). rewrite Eseq. unfold visible, mem_pair. cbn [fst]. rewrite ukey_ikey. by rewrite <- slice_compare_eq. }
  destruct o as [e|]; cbn [found] in Hf.
  - destruct Hf as (He & Hc & Hmax). apply Hes, list_elem_of_fmap in He as (a & -> & Ha). rewrite (last_filter_max (visible k s) h a); [|apply number_increasing|done|by apply Hvis|].
    + cbn [reported_value]. destruct (mem_entry_type a (Hent a Ha)) as [-> _]. by destruct (e_type a =? kTypeValue).
    + intros b Hb Hvb. destruct (decide (e_seq b <= e_seq a)) as [|Hgt]; [done|exfalso]. specialize (Hmax (mem_pair b) ltac:(apply Hes; by apply list_elem_of_fmap_2) ltac:(by apply Hvis)).
      assert (internal_ord BytewiseComparator (mem_pair b).1 (mem_pair a).1 < 0) as Hlt.
      { destruct (mem_pair_key a (Hent a Ha)) as [Hk Eseq]. apply entry_later; [by apply Hent|done|lia|]. apply Hvis in Hc; [|done]. destruct Hc as [E1 _], Hvb as [E2 _]. unfold mem_pair. cbn [fst]. rewrite !ukey_ikey. apply slice_compare_eq. congruence. }
      pose proof (ord_anti (ord := internal_ord BytewiseComparator) (mem_pair b).1 (mem_pair a).1 (ikey_good _ _ _) (ikey_good _ _ _)). lia.
  - assert (filter (visible k s) h = []) as ->; [|done]. apply filter_none. intros a Ha Hv. apply (Hf (mem_pair a)); [apply Hes; by apply list_elem_of_fmap_2|by apply Hvis].
Qed.

(** ** The flushed tables *)

Section Tables.
Abbreviation c := BytewiseComparator.

(** The version [files] consists of the files of [ds], which hold the entries of [h]. *)
Record holds_version (N : Z) (h : list mem_entry) (ds : list (FileMetaData * list mem_entry)) (files : list (list FileMetaData)) : Prop := {
  hv_levels : Z.of_nat (length files) = kNumLevels;
  hv_canonical : canonical c files;
  hv_files i l g : files !! i = Some l -> g ∈ l -> g ∈ ds.*1;
  hv_numbers : NoDup ((fun d => number d.1) <$> ds) /\ Forall (fun d => number d.1 < N) ds;
  hv_unique l : l ∈ files -> NoDup (number <$> l);
  hv_count l : l ∈ files -> (length l <= length h)%nat;
  hv_entries a : a ∈ h <-> exists d, d ∈ ds /\ a ∈ d.2;
  hv_data known data : (forall d, d ∈ ds -> known d.1 /\ data d.1 = mem_pair <$> d.2) -> version_data c known data files /\ forall x, x ∈ version_entries data files <-> x ∈ mem_pair <$> h;
}.

Lemma no_version N : holds_version N [] [] (replicate 7 []).
Proof.
  assert (forall l : list FileMetaData, l ∈ replicate 7 [] -> l = []) as Hnil by (by intros l [i [-> _]%lookup_replicate]%list_elem_of_lookup).
  split; [done|apply Forall_replicate; split; constructor| |split; constructor| | | |].
  - intros i l g Hl%list_elem_of_lookup_2 Hg. apply Hnil in Hl as ->. by apply not_elem_of_nil in Hg.
  - intros l ->%Hnil. constructor.
  - by intros l ->%Hnil.
  - intros a. split; [by intros ?%not_elem_of_nil|by intros (d & ?%not_elem_of_nil & _)].
  - intros known data _. split; [apply no_files_data|]. intros x. rewrite version_entries_elem. split; [|by intros ?%not_elem_of_nil].
    intros (i & l & g & Hl%list_elem_of_lookup_2 & Hg & _). apply Hnil in Hl as ->. by apply not_elem_of_nil in Hg.
Qed.

Lemma holds_weaken N N' h ds files : N <= N' -> holds_version N h ds files -> holds_version N' h ds files.
Proof. intros Hle [H1 H2 H3 [H4 H5] H6 H7 H8]. split; try done. split; [done|]. eapply Forall_impl; [exact H5|cbn; lia]. Qed.

Section Grows.
Context (N : Z) (h hi : list mem_entry) (ds : list (FileMetaData * list mem_entry)) (files : list (list FileMetaData)) (Hv : holds_version N h ds files).
Context (mes : list mem_entry) (Hmes : mes ≡ₚ hi) (Hne : mes <> []) (Hok : Forall entry_ok (h ++ hi)) (Hnew : forall a b, a ∈ hi -> b ∈ h -> e_seq b < e_seq a).
Context (f : FileMetaData) (Hf : N <= number f) (Hfd : forall data, data f = mem_pair <$> mes -> file_data c data f).
Context (lv : Z) (Hlv : 0 <= lv <= kMaxMemCompactLevel) (Hclear : 0 < lv -> clear_to c files (start f) (limit f) lv) (Hcount : Z.of_nat (length h) + 1 < 2 ^ 31).
Context (e : VE.VersionEdit) (Eptr : VE.compact_pointers_ e = []) (Edel : VE.deleted_files_ e = []) (Eadd : VE.new_files_ e = [(lv, f)]).
Abbreviation ds' := (ds ++ [(f, mes)]).

Lemma grown_numbers : NoDup ((fun d => number d.1) <$> ds') /\ Forall (fun d => number d.1 < number f + 1) ds'.
Proof.
  destruct (hv_numbers _ _ _ _ Hv) as [Hn Hlt]. rewrite Forall_forall in Hlt. split.
  - rewrite fmap_app. apply NoDup_app. split_and!; [done| |apply NoDup_singleton]. intros n (d & -> & Hd)%list_elem_of_fmap E%list_elem_of_singleton. specialize (Hlt d Hd). cbn in E. lia.
  - apply Forall_app. split; [apply Forall_forall; intros d Hd; specialize (Hlt d Hd); lia|apply Forall_singleton; cbn; lia].
Qed.

Lemma old_files l g : l ∈ files -> g ∈ l -> exists d, d ∈ ds /\ g = d.1 /\ number g < number f.
Proof.
  intros [i Hl]%list_elem_of_lookup Hg. pose proof (hv_files _ _ _ _ Hv i l g Hl Hg) as (d & -> & Hd)%list_elem_of_fmap. exists d. split_and!; [done|done|].
  destruct (hv_numbers _ _ _ _ Hv) as [_ Hlt]. rewrite Forall_forall in Hlt. specialize (Hlt d Hd). cbn in Hlt. lia.
Qed.

Section Contents.
Context (known : FileMetaData -> Prop) (data : FileMetaData -> list entry) (Hdata : forall d, d ∈ ds' -> known d.1 /\ data d.1 = mem_pair <$> d.2).

Lemma old_contents : version_data c known data files /\ forall x, x ∈ version_entries data files <-> x ∈ mem_pair <$> h.
Proof. apply (hv_data _ _ _ _ Hv). intros d Hd. apply Hdata. apply elem_of_app. by left. Qed.

Lemma new_contents : known f /\ data f = mem_pair <$> mes.
Proof. apply (Hdata (f, mes)). apply elem_of_app. right. by left. Qed.

Lemma grown_newer l g : l ∈ files -> g ∈ l -> newer c (data f) (data g).
Proof.
  intros Hl Hg. destruct (old_files l g Hl Hg) as (d & Hd & -> & _). destruct (Hdata d) as [_ ->]; [apply elem_of_app; by left|]. rewrite (proj2 new_contents). rewrite Forall_forall in Hok.
  assert (forall a, a ∈ d.2 -> a ∈ h) as Hin by (intros a Ha; apply (hv_entries _ _ _ _ Hv); eauto).
  apply newer_entries; [apply Forall_forall; intros a Ha; apply Hok, elem_of_app; right; by rewrite <- Hmes|]. intros a x Ha (b & -> & Hb)%list_elem_of_fmap. destruct (mem_pair_key b) as [? ->]; [apply Hok, elem_of_app; left; auto|].
  split; [done|]. apply Hnew; [by rewrite <- Hmes|auto].
Qed.

Lemma grown_level : level_ok lv.
Proof. unfold level_ok, kMaxMemCompactLevel, kNumLevels in *. lia. Qed.

Lemma grown_room l : l ∈ files -> Z.of_nat (length l) + 1 < 2 ^ 31.
Proof. intros Hl. pose proof (hv_count _ _ _ _ Hv l Hl). lia. Qed.

Lemma grown_fresh l g : l ∈ files -> g ∈ l -> number g < number f.
Proof. intros Hl Hg. by destruct (old_files l g Hl Hg) as (d & _ & _ & ?). Qed.

Lemma grown_edits : edits_ok c files [e].
Proof.
  apply (placed_ok c known data files (proj1 old_contents) (hv_canonical _ _ _ _ Hv) f lv (proj1 new_contents) (Hfd data (proj2 new_contents)) grown_level (hv_unique _ _ _ _ Hv) grown_fresh grown_newer Hclear grown_room e Eptr Edel Eadd).
Qed.

Context (files' : list (list FileMetaData)) (Hleft : left_by c files [e] files').

Lemma grown_perm i l' : files' !! i = Some l' -> exists l, files !! i = Some l /\ l' ≡ₚ l ++ (if decide (lv = Z.of_nat i) then [f] else []).
Proof. apply (placed_perm c known data files (proj1 old_contents) (hv_canonical _ _ _ _ Hv) f lv (proj1 new_contents) (Hfd data (proj2 new_contents)) grown_level (hv_unique _ _ _ _ Hv) grown_fresh grown_newer Hclear grown_room e Eptr Edel Eadd files' Hleft). Qed.

Lemma grown_data : version_data c known data files' /\ forall x, x ∈ version_entries data files' <-> x ∈ mem_pair <$> h ++ hi.
Proof.
  split; [apply (placed_version c known data files (proj1 old_contents) (hv_canonical _ _ _ _ Hv) f lv (proj1 new_contents) (Hfd data (proj2 new_contents)) grown_level (hv_unique _ _ _ _ Hv) grown_fresh grown_newer Hclear grown_room e Eptr Edel Eadd files' Hleft)|].
  intros x. rewrite (placed_entries c known data files (proj1 old_contents) (hv_canonical _ _ _ _ Hv) f lv (proj1 new_contents) (Hfd data (proj2 new_contents)) grown_level (hv_unique _ _ _ _ Hv) grown_fresh grown_newer Hclear grown_room e Eptr Edel Eadd files' Hleft x).
  rewrite (proj2 old_contents), (proj2 new_contents), fmap_app, elem_of_app, <- Hmes. tauto.
Qed.
End Contents.

Lemma some_contents : exists data : FileMetaData -> list entry, forall d, d ∈ ds' -> True /\ data d.1 = mem_pair <$> d.2.
Proof. destruct (contents_of ds' (proj1 grown_numbers)) as [data Hdata]. exists data. intros d Hd. by split; [|apply Hdata]. Qed.

(** The edit of a flush fits the version, and makes one that also has the new file. *)
Lemma version_grows : edits_ok c files [e] /\ forall files', left_by c files [e] files' -> holds_version (number f + 1) (h ++ hi) ds' files'.
Proof.
  destruct some_contents as [data Hdata]. split; [by apply (grown_edits (fun _ => True) data)|]. intros files' Hleft. pose proof (grown_perm (fun _ => True) data Hdata files' Hleft) as Hp. pose proof (grown_edits (fun _ => True) data Hdata) as He.
  pose proof Hleft as (Hlen & Hcan & _). split.
  - rewrite Hlen. apply Hv.
  - done.
  - intros i l' g Hl' Hg. destruct (Hp i l' Hl') as (l & Hl & Hpl). rewrite Hpl in Hg. rewrite fmap_app. apply elem_of_app. apply elem_of_app in Hg as [Hg|Hg]; [left; by apply (hv_files _ _ _ _ Hv i l)|]. right. case_decide; [done|by apply not_elem_of_nil in Hg].
  - apply grown_numbers.
  - intros l' [i Hl']%list_elem_of_lookup. destruct (Hp i l' Hl') as (l & Hl & ->). pose proof (eo_fresh _ _ _ He i l Hl) as Hn. unfold all_adds in Hn. cbn in Hn. rewrite app_nil_r in Hn. unfold adds in Hn. rewrite Eadd in Hn.
    destruct (decide (lv = Z.of_nat i)); [rewrite filter_cons_True in Hn by done|rewrite filter_cons_False in Hn by done]; done.
  - intros l' [i Hl']%list_elem_of_lookup. destruct (Hp i l' Hl') as (l & Hl & ->). pose proof (hv_count _ _ _ _ Hv l (list_elem_of_lookup_2 _ _ _ Hl)). rewrite !length_app. assert (1 <= length hi)%nat by (rewrite <- Hmes; destruct mes; [done|cbn; lia]). case_decide; cbn; lia.
  - intros a. rewrite elem_of_app, (hv_entries _ _ _ _ Hv). split.
    + intros [(d & Hd & Ha)|Ha]; [exists d; split; [apply elem_of_app; by left|done]|]. exists (f, mes). split; [apply elem_of_app; right; by left|]. by rewrite Hmes.
    + intros (d & [Hd| ->%list_elem_of_singleton]%elem_of_app & Ha); [left; eauto|]. right. by rewrite <- Hmes.
  - intros known data' Hd'. by apply grown_data.
Qed.
End Grows.

(** An edit without files leaves the version as it is. *)
Lemma version_stays N h ds files e : holds_version N h ds files -> VE.compact_pointers_ e = [] -> VE.deleted_files_ e = [] -> VE.new_files_ e = [] -> edits_ok c files [e] /\ forall files', left_by c files [e] files' -> files' = files.
Proof.
  intros Hv E1 E2 E3. assert (forall i l, edits_level [e] i l = l) as Hlv.
  { intros i l. unfold edits_level. cbn. unfold edit_level, dels, adds. rewrite E2, E3. cbn. rewrite app_nil_r. apply filter_all. set_solver. }
  destruct (contents_of ds (proj1 (hv_numbers _ _ _ _ Hv))) as [data Hdata]. destruct (hv_data _ _ _ _ Hv (fun _ => True) data (fun d Hd => conj Logic.I (Hdata d Hd))) as [Hd _]. pose proof (vd_ok _ _ _ _ Hd) as Hvo. split.
  - split; [apply Hv|apply Hv|apply Forall_singleton; split; [by rewrite E1|by rewrite E2|by rewrite E3]| |].
    + intros i l Hl. unfold all_adds, adds. cbn. rewrite E3. cbn. rewrite app_nil_r. by apply (hv_unique _ _ _ _ Hv), (list_elem_of_lookup_2 _ i).
    + intros i l n Hl. destruct n as [|n]; [cbn [take]; apply sorted_pairwise, (vo_sorted _ _ Hvo i); done|]. cbn [take]. rewrite take_nil, Hlv. by apply sorted_pairwise, (vo_sorted _ _ Hvo i).
  - intros files' (Hlen & Hcan & Hp). apply list_eq. intros i. destruct (files' !! i) as [l'|] eqn:Hl'; [|symmetry; apply lookup_ge_None; rewrite <- Hlen; by apply lookup_ge_None].
    destruct (lookup_lt_is_Some_2 files i) as [l Hl]; [rewrite <- Hlen; by eapply lookup_lt_Some|]. rewrite Hl. f_equal. specialize (Hp i l l' Hl Hl'). rewrite Hlv in Hp.
    pose proof (proj1 (Forall_lookup _ _) (hv_canonical _ _ _ _ Hv) _ _ Hl) as [_ S1]. pose proof (proj1 (Forall_lookup _ _) Hcan _ _ Hl') as [F2 S2]. apply (set_sorted_unique (by_smallest c) (P := file_ok c)); [done|done|done|by rewrite Hp].
Qed.
End Tables.

(** Memtables with parts of what fits into one table fit into a table. *)
Lemma whole_fits options capacity rate fuel h : Z.of_nat (table_room options rate (mem_pair <$> h)) < 2 ^ 32 -> (length h <= capacity)%nat -> (length h < fuel)%nat -> parts_fit options capacity rate fuel h.
Proof.
  intros Hroom Hcap Hfuel. split; [done|]. intros pre part post m mes -> Hm Hp. split; [by apply (mem_good BytewiseComparator m)|].
  assert (forall l k, data_room (l ++ k) = data_room l + data_room k)%nat as Happ by (intros l k; unfold data_room; induction l as [|x l IH]; cbn; [done|rewrite IH; lia]).
  assert (data_room (mem_pair <$> mes) = data_room (mem_pair <$> part)) as Ep by (clear -Hp; unfold data_room; induction Hp; cbn in *; lia).
  pose proof (Permutation_length Hp) as El. repeat rewrite length_app in *. unfold table_room in *. rewrite !fmap_app, !Happ in Hroom. repeat rewrite length_app in *. rewrite !length_fmap in *. rewrite Ep, El. split; [nia|lia].
Qed.

(** ** Surroundings in which nothing fails *)

(** [store N files seq log w]: file numbers from [N] on are free, the current version has
    the files [files], the last sequence number is [seq], and recovery would start at the
    log [log].  [closed] are the files that were closed so far. *)
Class ExecLaws (W I : Type) `{!CompactionEnv W bytes} `{FlushEnv W} `{!DbEnv W bytes I} (store : Z -> list (list FileMetaData) -> Z -> Z -> W -> Prop) (closed : W -> list (bytes * bytes)) : Prop := {
  ex_compact N files seq log :: CompactionEnvLaws W (store N files seq log) closed;
  ex_flush N files seq log :: FlushEnvLaws W (store N files seq log) closed;
  ex_next N files seq log w n w' : store N files seq log w -> ce_NewFileNumber w = (n, w') -> N <= n /\ store (n + 1) files seq log w';
  ex_versions N files seq log w : store N files seq log w -> let vs := de_versions w in files_ (VS.current_ vs) = files /\ VS.last_sequence_ vs = seq /\ VS.log_number_ vs = log /\ VS.prev_log_number_ vs = 0 /\ Z.of_nat (length (VS.compact_pointer_ vs)) = kNumLevels;
  ex_evict N files seq log w n : store N files seq log w -> store N files seq log (de_Evict n w) /\ closed (de_Evict n w) = closed w;
  ex_sequence N files seq log w seq' vs : store N files seq log w -> VS.SetLastSequence seq' (de_versions w) = Ret vs -> store N files seq' log (de_set_versions vs w) /\ closed (de_set_versions vs w) = closed w;
  ex_apply N files seq log w e log' files' ps : store N files seq log w -> VE.log_number_ e = Some log' -> VE.prev_log_number_ e = Some 0 -> log <= log' < N ->
    build BytewiseComparator files (VS.compact_pointer_ (de_versions w)) [e] = Ret (files', ps) -> exists w', ce_LogAndApply e w = Ret (OK, w') /\ store N files' seq log' w' /\ closed w' = closed w;
}.

Section Exec.
Context {W I : Type} `{!CompactionEnv W bytes} `{FlushEnv W} `{IterView I} `{!IterMoves W I} `{!DbEnv W bytes I}.
Context (store : Z -> list (list FileMetaData) -> Z -> Z -> W -> Prop) (closed : W -> list (bytes * bytes)) {Hlaws : ExecLaws W I store closed}.
Abbreviation c := BytewiseComparator.
Context (snappy : option snappy_lib) (Hsnappy : forall s, snappy = Some s -> snappy_ok s) (addr : Z) (Haddr : 0 <= addr).
Context (options : Options) (same : bytes -> bytes -> Prop) `{!TableComparatorLaws (comparator options) internal_good (internal_ord c) same} (capacity rate : nat)
  (Hopts : options_ok options internal_good same capacity rate) (dbname : bytes) (usage : MemTable -> Z) (write_buffer_size : Z) (fuel : nat).
Abbreviation table_of := (table_of snappy addr options dbname).
Abbreviation numbered := MemTable.number.
Abbreviation size us := (Z.of_nat (length us)) (only parsing).

(** *** A flush *)

Lemma obsolete_store N files seq log (d : DBImpl bytes) w : store N files seq log w -> store N files seq log (DeleteObsoleteFiles (I := I) dbname d w) /\ closed (DeleteObsoleteFiles (I := I) dbname d w) = closed w.
Proof.
  intros Hw. unfold DeleteObsoleteFiles. destruct (negb _); [done|]. set (live := AddLiveFiles _ _). set (vs := de_versions w). clearbody live vs. generalize (de_children w). intros names. revert w Hw.
  induction names as [|name names IH]; intros w Hw; [done|]. cbn [foldl].
  assert (store N files seq log (delete_obsolete (I := I) dbname vs live name w) /\ closed (delete_obsolete (I := I) dbname vs live name w) = closed w) as [Hw' <-]; [|by apply IH].
  unfold delete_obsolete. destruct (ParseFileName name) as [[n t]|]; [|done]. destruct (keep_file vs live n t); [done|].
  assert (store N files seq log match t with kTableFile => de_Evict n w | _ => w end /\ closed match t with kTableFile => de_Evict n w | _ => w end = closed w) as [Hw' <-] by (destruct t; try done; by apply ex_evict).
  by apply fl_delete.
Qed.

(** The flush of an immutable memtable. *)
Lemma flushed_memtable N h hi ds files seq log (d : DBImpl bytes) w m :
  store N files seq log w -> holds_version N h ds files -> imm_ d = Some m -> mem_hist m hi -> Forall entry_ok (h ++ hi) -> (forall a b, a ∈ hi -> b ∈ h -> e_seq b < e_seq a) ->
  size (h ++ hi) + 1 < 2 ^ 31 -> parts_fit options capacity rate fuel hi -> log <= logfile_number_ d < N ->
  exists N' ds' xs files' w', CompactMemTable (I := I) c snappy addr options dbname fuel d w = Ret (set_imm d None, w') /\ N <= N' /\ store N' files' seq (logfile_number_ d) w' /\
    holds_version N' (h ++ hi) (ds ++ ds') files' /\ Forall2 table_of ds' xs /\ closed w' = closed w ++ xs.
Proof.
  intros Hw Hv Hi (mes & Hm & Hp) Hok Hnew Hsmall [Hfuel Hfit] Hlog. rewrite length_app in Hsmall. unfold CompactMemTable. rewrite Hi, (proj1 (ex_versions _ _ _ _ _ Hw)).
  assert (forall N1 w1 e files1, N <= N1 -> store N1 files seq log w1 -> VE.compact_pointers_ e = [] -> edits_ok c files [VE.SetLogNumber (logfile_number_ d) (VE.SetPrevLogNumber 0 e)] ->
    (forall f, left_by c files [VE.SetLogNumber (logfile_number_ d) (VE.SetPrevLogNumber 0 e)] f -> files1 f) ->
    exists files' w', files1 files' /\ (s ← (if ok OK && ce_shutting_down w1 then IOError (str "Deleting DB during memtable compaction") [] else Ret OK);
      '(s, w2) ← (if ok s then ce_LogAndApply (VE.SetLogNumber (logfile_number_ d) (VE.SetPrevLogNumber 0 e)) w1 else Ret (s, w1));
      if ok s then let d := set_imm d None in Ret (d, DeleteObsoleteFiles (I := I) dbname d w2) else Ret (RecordBackgroundError s d, w2)) = Ret (set_imm d None, w') /\ store N1 files' seq (logfile_number_ d) w' /\ closed w' = closed w1) as Happly.
  { intros N1 w1 e files1 HN Hw1 Eptr Hed Hfiles. rewrite (cl_running w1 Hw1). cbn [andb]. rewrite andb_false_r. run. change (ok OK) with true. cbn match.
    pose proof (ex_versions _ _ _ _ _ Hw1) as (_ & _ & _ & _ & Hps). destruct (build_spec c files _ _ Hps Hed) as (files' & Eb & Hleft).
    destruct (ex_apply N1 files seq log w1 (VE.SetLogNumber (logfile_number_ d) (VE.SetPrevLogNumber 0 e)) (logfile_number_ d) files' _ Hw1 eq_refl eq_refl ltac:(lia) Eb) as (w2 & -> & Hw2 & Hc2). run. change (ok OK) with true. cbn match zeta.
    destruct (obsolete_store N1 files' seq (logfile_number_ d) (set_imm d None) w2 Hw2) as [Hw3 Hc3]. exists files', (DeleteObsoleteFiles (I := I) dbname (set_imm d None) w2). split_and!; [by apply Hfiles|done|done|congruence]. }
  destruct (decide (mes = [])) as [->|Hne].
  - apply symmetry, Permutation_nil_r in Hp as ->. destruct (written_none c snappy addr options dbname (store N files seq log) closed m fuel VE.new (Some files) w Hm Hw) as (w1 & -> & Hw1 & Hc1). run.
    destruct (version_stays N h ds files (VE.SetLogNumber (logfile_number_ d) (VE.SetPrevLogNumber 0 VE.new)) Hv eq_refl eq_refl eq_refl) as [Hed Hst].
    destruct (Happly N w1 VE.new (fun f => f = files) ltac:(lia) Hw1 eq_refl Hed Hst) as (files' & w' & -> & E & Hw' & Hc'). exists N, [], [], files, w'. rewrite !app_nil_r. split_and!; [exact E|lia|done|done|constructor|congruence].
  - destruct (cl_number w Hw) as (n & w0 & En & Hn & Hw0 & Hc0). destruct (ex_next _ _ _ _ _ _ _ Hw En) as [HNn Hw0'].
    destruct (contents_of ds (proj1 (hv_numbers _ _ _ _ Hv))) as [data Hdata]. destruct (hv_data _ _ _ _ Hv (fun _ => True) data (fun d Hd => conj Logic.I (Hdata d Hd))) as [Hd _].
    destruct (written_spec c snappy Hsnappy addr Haddr options same capacity rate Hopts dbname (store (n + 1) files seq log) closed m mes fuel VE.new (Some files) n w0 w Hm Hne) as (f & fname & contents & w1 & -> & Nf & Ef & Hw1 & Ebt & Hc1 & Hmeta & Hfd); [apply (Hfit [] hi [] m mes); [by rewrite app_nil_r|done|done]|by rewrite (Permutation_length Hp)|done|done|done|].
    destruct (pick_level_safe c files (ukey (smallest f)) (ukey (largest f)) (vd_ok _ _ _ _ Hd)) as (lv & -> & Hlv & Hcl). run. set (e := VE.AddFile lv (number f) (file_size f) (smallest f) (largest f) VE.new).
    assert (VE.new_files_ e = [(lv, f)]) as Ead by (by destruct f).
    destruct (version_grows N h hi ds files Hv mes Hp Hne Hok Hnew f ltac:(lia) Hfd lv ltac:(lia) Hcl ltac:(lia) (VE.SetLogNumber (logfile_number_ d) (VE.SetPrevLogNumber 0 e)) eq_refl eq_refl Ead) as [Hed Hgr].
    destruct (Happly (n + 1) w1 e (fun f' => holds_version (number f + 1) (h ++ hi) (ds ++ [(f, mes)]) f') ltac:(lia) Hw1 eq_refl Hed Hgr) as (files' & w' & Hv' & E & Hw' & Hc').
    exists (n + 1), [(f, mes)], [(fname, contents)], files', w'. rewrite <- Nf in *. split_and!; [exact E|lia|done|done| |by rewrite Hc', Hc1, Hc0]. constructor; [|constructor]. split; cbn; [done|done|by rewrite Hmeta|done].
Qed.

(** *** The invariant *)

(** [ups i] are the updates of writer [i], and [T] all updates that are ever queued. *)
Context (ups : nat -> list update) (T : list update) (HT : size T + 1 < 2 ^ 31) (HTok : Forall mem_update_ok T) (HTfit : parts_fit options capacity rate fuel (numbered 1 T)) (before : list (bytes * bytes)).

(** The groups [gv] are in the tables [ds], [gi] in the immutable memtable and [gm] in the
    memtable; [rest] is still to be queued. *)
Record exec_inv (s : Session) (w : W) (rest : list update) (gv gi gm : list (list update)) (ds : list (FileMetaData * list mem_entry)) (files : list (list FileMetaData)) (N log : Z) : Prop := {
  ei_store : store N files (size (concat (gv ++ gi ++ gm))) log w;
  ei_holds : db_holds (size (concat (gv ++ gi))) (view (I := I) s w) gm;
  ei_imm : match imm_ (s_db s) with
           | Some m => mem_hist m (numbered (size (concat gv) + 1) (concat gi)) /\ bg_compaction_scheduled_ (s_db s) = true /\ s_old_log s = Some (log, enc_records 0 (stamped (size (concat gv) + 1) gi))
           | None => gi = [] /\ s_old_log s = None /\ log = logfile_number_ (s_db s)
           end;
  ei_logs : 0 < log <= logfile_number_ (s_db s) /\ logfile_number_ (s_db s) < N;
  ei_version : holds_version N (numbered 1 (concat gv)) ds files;
  ei_tables : exists xs, Forall2 table_of ds xs /\ closed w = before ++ xs;
  ei_total : concat (gv ++ gi ++ gm) ++ pending ups (view (I := I) s w) ++ rest = T;
  ei_acked : concat (gv ++ gi ++ gm) = written ups (acked (view (I := I) s w));
  ei_atomic m : exists j, concat (take m (gv ++ gi ++ gm)) = written ups (take j (acked (view (I := I) s w)));
  ei_writers : Forall (fun x => writer_ok x (ups (w_id x))) (s_writers s);
}.

Definition good_act (a : act) : Prop := match a with Join x => writer_ok x (ups (w_id x)) | Turn sync_status => sync_status = OK | Flush _ => True end.
Definition asked (a : act) : list update := match a with Join x => ups (w_id x) | _ => [] end.
Definition joins (a : act) : list nat := match a with Join x => [w_id x] | _ => [] end.

(** What the invariant says of the parts of the history. *)
Lemma inv_parts s w rest gv gi gm ds files N log : exec_inv s w rest gv gi gm ds files N log ->
  let h := numbered 1 (concat gv) in let hi := numbered (size (concat gv) + 1) (concat gi) in
  Forall entry_ok (h ++ hi) /\ (forall a b, a ∈ hi -> b ∈ h -> e_seq b < e_seq a) /\ size (h ++ hi) + 1 < 2 ^ 31 /\ parts_fit options capacity rate fuel hi /\ h ++ hi = numbered 1 (concat (gv ++ gi)).
Proof.
  intros Hi h hi. assert (h ++ hi = numbered 1 (concat (gv ++ gi))) as Eh by (unfold h, hi; rewrite concat_app, MemTable.number_app; do 2 f_equal; lia).
  assert (numbered 1 T = (h ++ hi) ++ numbered (1 + size (concat (gv ++ gi))) (concat gm ++ pending ups (view (I := I) s w) ++ rest)) as ET.
  { rewrite Eh, <- MemTable.number_app. f_equal. rewrite <- (ei_total _ _ _ _ _ _ _ _ _ _ Hi). by rewrite !concat_app, <- !app_assoc. }
  assert (Forall entry_ok (numbered 1 T)) as Hall by (apply numbered_ok; [done|lia|rewrite max_sequence; lia]). rewrite ET in Hall. apply Forall_app in Hall as [Hall _]. pose proof HTfit as Hf. rewrite ET in Hf. apply parts_fit_app in Hf as [Hf _]. apply parts_fit_app in Hf as [_ Hf].
  split_and!; [done| | |done|done].
  - intros a b Ha%number_range Hb%number_range. lia.
  - rewrite Eh, number_length. rewrite <- (ei_total _ _ _ _ _ _ _ _ _ _ Hi) in HT. rewrite !concat_app in *. repeat rewrite length_app in *. lia.
Qed.

Abbreviation do_act := (do_act (I := I) c snappy addr options dbname usage write_buffer_size fuel).

Lemma inv_join s w rest gv gi gm ds files N log x : writer_ok x (ups (w_id x)) -> exec_inv s w (ups (w_id x) ++ rest) gv gi gm ds files N log -> exec_inv (join x s) w rest gv gi gm ds files N log.
Proof.
  intros Hx [H1 H2 H3 H4 H5 H6 H7 H8 H9 H10]. split; try done.
  - destruct H2 as []. by split.
  - rewrite <- H7. f_equal. unfold pending. cbn [view join s_writers DbWrite.writers_]. rewrite fmap_app, written_app, <- app_assoc. unfold written. cbn. by rewrite app_nil_r.
  - apply Forall_app. split; [done|by apply Forall_singleton].
Qed.

(** The background thread flushes the immutable memtable. *)
Lemma inv_flush s w rest gv gi gm ds files N log snapshots m : exec_inv s w rest gv gi gm ds files N log -> imm_ (s_db s) = Some m ->
  exists s' w' ds' files' N', flush_turn (I := I) c snappy addr options dbname fuel snapshots s w = Ret (s', w') /\ exec_inv s' w' rest (gv ++ gi) [] gm (ds ++ ds') files' N' (logfile_number_ (s_db s)) /\ s_writers s' = s_writers s /\ s_finished s' = s_finished s.
Proof.
  intros Hinv Em. pose proof (inv_parts _ _ _ _ _ _ _ _ _ _ Hinv) as (Hok & Hlt & Hsm & Hfit & Eh). destruct Hinv as [Hw Hh Himm [Hl1 Hl2] Hv (xs & Ht & Hc) H7 H8 H9 H10]. rewrite Em in Himm. destruct Himm as (Hm & Hs & Hold).
  unfold flush_turn. rewrite Em. unfold BackgroundCall. rewrite Hs, (cl_running w Hw). pose proof (holds_bg _ _ _ Hh) as Hbg. cbn in Hbg. rewrite Hbg. change (ok OK) with true. cbn [negb]. unfold BackgroundCompaction. rewrite Em.
  destruct (flushed_memtable N _ _ ds files _ log (s_db s) w m Hw Hv Em Hm Hok Hlt Hsm Hfit ltac:(lia)) as (N' & ds' & xs' & files' & w' & -> & HN & Hw' & Hv' & Ht' & Hc'). run.
  assert (forall d : DBImpl bytes, mem_ (call_ends (I := I) d w') = mem_ d /\ imm_ (call_ends (I := I) d w') = imm_ d /\ log_ (call_ends (I := I) d w') = log_ d /\ logfile_number_ (call_ends (I := I) d w') = logfile_number_ d /\ bg_error_ (call_ends (I := I) d w') = bg_error_ d) as Hends.
  { intros d. unfold call_ends, MaybeScheduleCompaction. by repeat case_match. }
  destruct (Hends (set_imm (s_db s) None)) as (E1 & E2 & E3 & E4 & E5). set (d' := call_ends _ w') in *. clearbody d'. cbn in E1, E2, E3, E4, E5. rewrite E2.
  pose proof (ex_versions _ _ _ _ _ Hw) as (_ & Eq & _). pose proof (ex_versions _ _ _ _ _ Hw') as (_ & Eq' & _).
  eexists _, w', ds', files', N'. split_and!; [reflexivity| |done|done]. assert (view (I := I) (MkSession d' (s_writers s) (s_tmp s) (s_room s) (s_finished s) None) w' = view (I := I) s w) as Ev by (unfold view; cbn; by rewrite E1, E3, E5, Eq, Eq').
  split; cbn [s_db s_writers s_old_log]; rewrite ?Ev, ?app_nil_l, ?app_nil_r, <- ?app_assoc; try done.
  - by rewrite E2, E4.
  - rewrite E4. lia.
  - by rewrite <- Eh.
  - exists (xs ++ xs'). split; [by apply Forall2_app|by rewrite Hc', Hc, app_assoc].
Qed.

(** Nothing that the invariant speaks of changes. *)
Lemma inv_same s s' w rest gv gi gm ds files N log : exec_inv s w rest gv gi gm ds files N log ->
  mem_ (s_db s') = mem_ (s_db s) -> imm_ (s_db s') = imm_ (s_db s) -> log_ (s_db s') = log_ (s_db s) -> logfile_number_ (s_db s') = logfile_number_ (s_db s) -> bg_error_ (s_db s') = bg_error_ (s_db s) -> bg_compaction_scheduled_ (s_db s') = bg_compaction_scheduled_ (s_db s) ->
  s_writers s' = s_writers s -> s_tmp s' = s_tmp s -> s_finished s' = s_finished s -> s_old_log s' = s_old_log s -> exec_inv s' w rest gv gi gm ds files N log.
Proof.
  intros [H1 H2 H3 H4 H5 H6 H7 H8 H9 H10] E1 E2 E3 E4 E5 E6 E7 E8 E9 E10. assert (view (I := I) s' w = view (I := I) s w) as Ev by (unfold view; congruence).
  split; rewrite ?Ev, ?E2, ?E4, ?E6, ?E7, ?E10; done.
Qed.

(** The front writer switches to a new memtable. *)
Lemma inv_switch s w rest gv gm ds files N log n w1 w2 lg m d : exec_inv s w rest gv [] gm ds files N log -> imm_ (s_db s) = None -> ce_NewFileNumber w = (n, w1) -> store (n + 1) files (size (concat (gv ++ [] ++ gm))) log w2 -> closed w2 = closed w -> N <= n ->
  log_holds lg [] -> mem_hist m [] -> mem_ d = m -> imm_ d = Some (mem_ (s_db s)) -> log_ d = lg -> logfile_number_ d = n -> bg_error_ d = OK -> bg_compaction_scheduled_ d = true ->
  forall room, exec_inv (MkSession d (s_writers s) (s_tmp s) room (s_finished s) (Some (logfile_number_ (s_db s), dest_ (log_ (s_db s))))) w2 rest gv gm [] ds files (n + 1) log.
Proof.
  intros [H1 H2 H3 H4 H5 H6 H7 H8 H9 H10] Ei En Hw2 Hc2 HN Hlg Hm E1 E2 E3 E4 E5 E6 room. rewrite Ei in H3. destruct H3 as (_ & _ & ->). cbn [app] in *. rewrite app_nil_r in H2.
  set (s' := MkSession d _ _ room _ _). assert (pending ups (view (I := I) s' w2) = pending ups (view (I := I) s w) /\ acked (view (I := I) s' w2) = acked (view (I := I) s w)) as [Ep Ea] by done.
  split; rewrite ?app_nil_r, ?Ep, ?Ea; try done.
  - destruct H2 as [B1 B2 B3 B4 B5 B6]. split; cbn; [by rewrite E3|by rewrite E1|pose proof (ex_versions _ _ _ _ _ Hw2) as (_ & -> & _); lia|done|constructor|done].
  - cbn. rewrite E2, E6. destruct H2 as [B1 B2 B3 B4 B5 B6]. cbn in B1, B2. split_and!; [done|done|]. do 2 f_equal. unfold log_holds in B1. by rewrite B1.
  - cbn. rewrite E4. lia.
  - by apply (holds_weaken N); [lia|].
  - destruct H6 as (xs & ? & ?). exists xs. split; [done|congruence].
Qed.

Lemma view_pop last status s w : view (I := I) (pop_writers last status s) w = pop_group last status (view (I := I) s w).
Proof. done. Qed.

(** Writers at the front are released with OK, after the commit of their updates. *)
Lemma inv_pop s s1 w w1 rest gv gi gm extra ds files N log last : exec_inv s w rest gv gi gm ds files N log ->
  store N files (size (concat (gv ++ gi ++ gm ++ extra))) log w1 -> closed w1 = closed w -> db_holds (size (concat (gv ++ gi))) (view (I := I) s1 w1) (gm ++ extra) ->
  imm_ (s_db s1) = imm_ (s_db s) -> logfile_number_ (s_db s1) = logfile_number_ (s_db s) -> bg_compaction_scheduled_ (s_db s1) = bg_compaction_scheduled_ (s_db s) -> s_writers s1 = s_writers s -> s_finished s1 = s_finished s -> s_old_log s1 = s_old_log s ->
  let more := w_id <$> take (S last) (s_writers s) in extra = [] /\ written ups more = [] \/ extra = [written ups more] ->
  exec_inv (pop_writers last OK s1) w1 rest gv gi (gm ++ extra) ds files N log.
Proof.
  intros [H1 H2 H3 H4 H5 H6 H7 H8 H9 H10] Hw1 Hc1 Hh1 E1 E2 E3 E4 E5 E6 more Hex.
  assert (acked (view (I := I) (pop_writers last OK s1) w1) = acked (view (I := I) s w) ++ more) as Eack.
  { rewrite view_pop, acked_pop. change (ok OK) with true. cbn match. unfold acked, more. cbn. by rewrite E4, E5. }
  assert (concat extra = written ups more) as Eex by (destruct Hex as [[-> ->]| ->]; cbn; by rewrite ?app_nil_r).
  destruct (atomic_extend ups (gv ++ gi ++ gm) (acked (view (I := I) s w)) more extra H8 H9 Hex) as [Ha' Hat']. rewrite <- !app_assoc in Ha', Hat'.
  split; cbn [pop_writers s_db s_old_log]; rewrite ?Eack, ?E1, ?E2, ?E3, ?E6; try done.
  - rewrite view_pop. by apply holds_pop.
  - destruct H6 as (xs & ? & ?). exists xs. split; [done|congruence].
  - rewrite <- H7. unfold pending. cbn [view pop_writers s_writers DbWrite.writers_]. rewrite E4, (writers_split ups (S last) (s_writers s)). fold more. rewrite <- Eex, !concat_app, <- !app_assoc. done.
  - cbn [pop_writers s_writers]. rewrite E4. by apply Forall_drop.
Qed.

(** The front writer has room. *)
Lemma inv_commit s w rest gv gi gm ds files N log x ws : exec_inv s w rest gv gi gm ds files N log -> s_writers s = x :: ws ->
  exists last s1 w1 extra, commit_front (I := I) c addr OK OK x s w = Ret (OK, last, s1, w1) /\ exec_inv (pop_writers last OK s1) w1 rest gv gi (gm ++ extra) ds files N log /\ s_writers s1 = s_writers s /\ s_finished s1 = s_finished s.
Proof.
  intros Hinv Ews. pose proof Hinv as [Hw Hh Himm Hlog Hv Ht Htot Hack Hat Hwr]. unfold commit_front. change (ok OK) with true. cbn match. destruct (w_batch x) as [b|] eqn:Eb; cycle 1.
  { exists 0%nat, s, w, []. split_and!; [done| |done|done]. apply (inv_pop s s w w); try done; rewrite ?app_nil_r; try done. left. split; [done|]. rewrite Ews in Hwr |- *. apply Forall_cons in Hwr as [[(? & E)|[_ Hu]] _]; [by rewrite E in Eb|]. unfold written. cbn. by rewrite Hu. }
  set (uss := ups <$> (w_id <$> x :: ws)). assert (pending ups (view (I := I) s w) = concat uss) as Ep by (unfold pending; cbn [view DbWrite.writers_]; by rewrite Ews).
  assert (concat (gv ++ gi) ++ concat gm ++ concat uss ++ rest = T) as ET by (rewrite <- Htot, Ep, !concat_app, <- !app_assoc; done).
  destruct (group_spec addr Haddr (size (concat (gv ++ gi))) ltac:(lia) x ws uss (view (I := I) s w) gm Hh Ews) as (m & v & -> & Hm & Hh' & Ew' & Ef').
  { rewrite Ews in Hwr. unfold uss. clear -Hwr. induction Hwr; by constructor. }
  { rewrite <- ET in HTok. apply Forall_app in HTok as [_ Hok]. apply Forall_app in Hok as [_ Hok]. by apply Forall_app in Hok as [? _]. }
  { rewrite <- ET in HT. repeat rewrite length_app in *. lia. }
  { by rewrite Eb. }
  run. set (g := concat (take (S m) uss)) in *. pose proof (ex_versions _ _ _ _ _ Hw) as (_ & Eq & _).
  assert (last_sequence_ v = size (concat (gv ++ gi ++ gm ++ [g]))) as Eseq by (rewrite (holds_seq _ _ _ Hh'), !concat_app; repeat rewrite length_app; lia).
  assert (exists vs, VS.SetLastSequence (last_sequence_ v) (de_versions w) = Ret vs) as [vs Evs].
  { unfold VS.SetLastSequence. rewrite Eq, Eseq, (proj2 (Z.leb_le _ _)); [by eexists|]. rewrite !concat_app. repeat rewrite length_app. lia. }
  rewrite Evs. run. destruct (ex_sequence _ _ _ _ _ _ _ Hw Evs) as [Hw1 Hc1]. rewrite Eseq in Hw1. eexists m, _, _, [g]. split_and!; [reflexivity| |done|done].
  apply (inv_pop s _ w _ rest gv gi gm [g] ds files N log m Hinv Hw1 Hc1); try done.
  - destruct Hh' as [B1 B2 B3 B4 B5 B6]. split; cbn [view s_db mem_ log_ s_tmp bg_error_ DbWrite.mem_ DbWrite.log_ last_sequence_ tmp_batch_ DbWrite.bg_error_]; try done; [|by apply (holds_bg _ _ _ Hh)]. pose proof (ex_versions _ _ _ _ _ Hw1) as (_ & -> & _). rewrite !concat_app. cbn [concat]. repeat rewrite length_app. cbn [length]. lia.
  - right. unfold g, uss, written. by rewrite Ews, <- !fmap_take.
Qed.

(** A turn of the front writer. *)
Lemma inv_turn s w rest gv gi gm ds files N log : exec_inv s w rest gv gi gm ds files N log ->
  exists s' w' gi' gm' N', front_turn (I := I) c addr dbname usage write_buffer_size OK s w = Ret (s', w') /\ exec_inv s' w' rest gv gi' gm' ds files N' log /\ arrivals (view (I := I) s' w') = arrivals (view (I := I) s w).
Proof.
  intros Hinv. pose proof Hinv as [Hw Hh Himm Hlog Hv Ht Htot Hack Hat Hwr]. unfold front_turn. destruct (s_writers s) as [|x ws] eqn:Ews; [by exists s, w, gi, gm, N|].
  destruct (default _ (s_room s)) as [force delay]. unfold room_step, NumLevelFiles. pose proof (holds_bg _ _ _ Hh) as Hbg. cbn in Hbg. rewrite Hbg. change (ok OK) with true. cbn [negb].
  pose proof (ex_versions _ _ _ _ _ Hw) as (Efiles & Eq & _ & Eprev & _). rewrite Efiles.
  assert (exists l, files !! 0%nat = Some l) as [l El] by (apply lookup_lt_is_Some_2; pose proof (hv_levels _ _ _ _ Hv); unfold kNumLevels in *; lia). rewrite (level_files_0 _ l El). run.
  assert (forall d room, mem_ d = mem_ (s_db s) -> imm_ d = imm_ (s_db s) -> log_ d = log_ (s_db s) -> logfile_number_ d = logfile_number_ (s_db s) -> bg_error_ d = bg_error_ (s_db s) -> bg_compaction_scheduled_ d = bg_compaction_scheduled_ (s_db s) ->
    exec_inv (set_room (set_db s d) room) w rest gv gi gm ds files N log) as Hstay by (intros; by apply (inv_same s)).
  destruct (delay && _). { eexists _, w, gi, gm, N. split_and!; [reflexivity|by apply Hstay|done]. }
  destruct (negb force && _).
  { destruct (inv_commit (set_db s (s_db s)) w rest gv gi gm ds files N log x ws ltac:(by apply (inv_same s)) Ews) as (last & s1 & w1 & extra & E & Hi & Ew1 & Ef1). run. rewrite E. run. eexists _, w1, gi, _, N. split_and!; [reflexivity|exact Hi|].
    rewrite view_pop, arrivals_pop. unfold arrivals. cbn. by rewrite Ew1, Ef1. }
  destruct (bool_decide_reflect (imm_ (s_db s) <> None)) as [_|Hi]. { eexists _, w, gi, gm, N. split_and!; [reflexivity|by apply Hstay|done]. }
  destruct (kL0_StopWritesTrigger <=? _). { eexists _, w, gi, gm, N. split_and!; [reflexivity|by apply Hstay|done]. }
  assert (imm_ (s_db s) = None) as Ei by (destruct (imm_ (s_db s)); [by destruct Hi|done]). rewrite Ei in Himm. destruct Himm as (-> & _ & _).
  rewrite Eprev. cbn [Z.eqb]. destruct (cl_number w Hw) as (n & w1 & En & Hn & _ & Hc1). rewrite En. destruct (ex_next _ _ _ _ _ _ _ Hw En) as [HN Hw1].
  unfold LogFileName, positive_number. rewrite (proj2 (Z.ltb_lt _ _) Hn). run. destruct (cl_open w1 (MakeFileName dbname n (str "log")) Hw1) as (w2 & -> & Hw2 & Hc2). change (ok OK) with true. cbn [negb].
  unfold Writer_new. rewrite init_type_crc by done. run. destruct (mem_new c) as (m & -> & Hm). run.
  eexists _, w2, gm, [], (n + 1). split_and!; [reflexivity| |unfold arrivals; cbn; by rewrite Ews]. rewrite <- Ews.
  match goal with |- exec_inv (MkSession ?d _ _ _ _ _) _ _ _ _ _ _ _ _ _ => set (d' := d) end.
  assert (mem_ d' = Ref m /\ imm_ d' = Some (mem_ (s_db s)) /\ log_ d' = MkWriter [] 0 type_crcs /\ logfile_number_ d' = n /\ bg_error_ d' = OK /\ bg_compaction_scheduled_ d' = true) as (E1 & E2 & E3 & E4 & E5 & E6).
  { unfold d', MaybeScheduleCompaction. cbn. rewrite (cl_running w2 Hw2). change (ok OK) with true. cbn [negb]. destruct (bg_compaction_scheduled_ (s_db s)) eqn:Es; split_and!; cbn; done. }
  eapply (inv_switch s w rest gv gm ds files N log n w1 w2 _ (Ref m)); try done; [congruence|]. by exists [].
Qed.

Lemma inv_act a s w rest gv gi gm ds files N log : good_act a -> exec_inv s w (asked a ++ rest) gv gi gm ds files N log ->
  exists s' w' gv' gi' gm' ds' files' N' log', do_act a (s, w) = Ret (s', w') /\ exec_inv s' w' rest gv' gi' gm' ds' files' N' log' /\ arrivals (view (I := I) s' w') = arrivals (view (I := I) s w) ++ joins a.
Proof.
  intros Ha Hinv. destruct a as [x|st|sn]; cbn [DbExec.do_act asked joins] in *.
  - eexists _, w, gv, gi, gm, ds, files, N, log. split_and!; [reflexivity|by apply inv_join|]. unfold arrivals. cbn. by rewrite fmap_app, app_assoc.
  - cbn in Ha. subst st. destruct (inv_turn s w rest gv gi gm ds files N log Hinv) as (s' & w' & gi' & gm' & N' & E & Hi & Ear). rewrite app_nil_r. by exists s', w', gv, gi', gm', ds, files, N', log.
  - rewrite app_nil_r. destruct (imm_ (s_db s)) as [m|] eqn:Em.
    + destruct (inv_flush s w rest gv gi gm ds files N log sn m Hinv Em) as (s' & w' & ds' & files' & N' & E & Hi & Ew & Ef). eexists s', w', _, _, gm, _, files', N', _. split_and!; [exact E|exact Hi|]. unfold arrivals. cbn. by rewrite Ew, Ef.
    + exists s, w, gv, gi, gm, ds, files, N, log. cbn. unfold flush_turn. by rewrite Em.
Qed.

Lemma inv_run acts : forall s w gv gi gm ds files N log, Forall good_act acts -> exec_inv s w (concat (asked <$> acts)) gv gi gm ds files N log ->
  exists s' w' gv' gi' gm' ds' files' N' log', run_acts (I := I) c snappy addr options dbname usage write_buffer_size fuel acts s w = Ret (s', w') /\ exec_inv s' w' [] gv' gi' gm' ds' files' N' log' /\ arrivals (view (I := I) s' w') = arrivals (view (I := I) s w) ++ concat (joins <$> acts).
Proof.
  induction acts as [|a acts IH]; intros s w gv gi gm ds files N log Hok Hinv; [exists s, w, gv, gi, gm, ds, files, N, log; by rewrite app_nil_r|]. apply Forall_cons in Hok as [Ha Hok]. cbn [fmap list_fmap concat] in *.
  destruct (inv_act a s w _ gv gi gm ds files N log Ha Hinv) as (s1 & w1 & gv1 & gi1 & gm1 & ds1 & files1 & N1 & log1 & E & Hi & Ear). unfold run_acts. cbn [foldM]. rewrite E. run. rewrite app_assoc, <- Ear. by apply IH with (ds := ds1) (files := files1) (N := N1) (log := log1) (gv := gv1) (gi := gi1) (gm := gm1).
Qed.

Lemma inv_new N log w : store N (replicate 7 []) 0 log w -> closed w = before -> 0 < log < N -> exists s, Session_new addr log = Ret s /\ exec_inv s w T [] [] [] [] (replicate 7 []) N log /\ arrivals (view (I := I) s w) = [].
Proof.
  intros Hw Hc Hl. unfold Session_new, Writer_new. rewrite init_type_crc by done. run. destruct (mem_new c) as (m & -> & Hm). run. eexists. split_and!; [reflexivity| |done].
  split; try done; cbn.
  - split; try done; [by exists []|]. cbn. by pose proof (ex_versions _ _ _ _ _ Hw) as (_ & -> & _).
  - lia.
  - apply no_version.
  - exists []. split; [constructor|by rewrite app_nil_r].
  - intros [|]; by exists 0%nat.
Qed.
End Exec.

(** ** What executions promise *)

Section Results.
Context {W I : Type} `{!CompactionEnv W bytes} `{FlushEnv W} `{IterView I} `{!IterMoves W I} `{!DbEnv W bytes I} `{!DbEnvLaws W bytes I}.
Context (store : Z -> list (list FileMetaData) -> Z -> Z -> W -> Prop) (closed : W -> list (bytes * bytes)) {Hlaws : ExecLaws W I store closed}.
Abbreviation c := BytewiseComparator.
Context (snappy : option snappy_lib) (Hsnappy : forall s, snappy = Some s -> snappy_ok s) (addr : Z) (Haddr : 0 <= addr).
Context (options : Options) (same : bytes -> bytes -> Prop) `{!TableComparatorLaws (comparator options) internal_good (internal_ord c) same} (capacity rate : nat)
  (Hopts : options_ok options internal_good same capacity rate) (dbname : bytes) (usage : MemTable -> Z) (write_buffer_size : Z) (fuel : nat).
Abbreviation table_of := (table_of snappy addr options dbname).
Abbreviation numbered := MemTable.number.
Abbreviation run_acts := (run_acts (I := I) c snappy addr options dbname usage write_buffer_size fuel).
Abbreviation view := (view (I := I)).

(** [ups i] are the updates of writer [i]. *)
Context (ups : nat -> list update).
Abbreviation exec_inv T := (exec_inv (I := I) store closed snappy addr options dbname ups T).

(** Actions of a database in which nothing fails: the batches of the writers are
    built from their updates, [Sync] succeeds, and what is queued would fit into one table,
    of the size that table files can have. *)
Record acts_ok (acts : list act) : Prop := {
  ao_acts : Forall (good_act ups) acts;
  ao_count : Z.of_nat (length (concat (asked ups <$> acts))) + 1 < 2 ^ 31;
  ao_updates : Forall mem_update_ok (concat (asked ups <$> acts));
  ao_room : Z.of_nat (table_room options rate (mem_pair <$> numbered 1 (concat (asked ups <$> acts)))) < 2 ^ 32;
  ao_capacity : (length (concat (asked ups <$> acts)) <= capacity)%nat /\ (length (concat (asked ups <$> acts)) < fuel)%nat;
}.

Lemma ao_fit acts : acts_ok acts -> parts_fit options capacity rate fuel (numbered 1 (concat (asked ups <$> acts))).
Proof. intros [_ _ _ Hroom [Hcap Hfuel]]. apply whole_fits; [done|by rewrite number_length..]. Qed.

Lemma run_from_new acts N log w : acts_ok acts -> store N (replicate 7 []) 0 log w -> 0 < log < N ->
  exists s0 s' w' gv gi gm ds files N' log', Session_new addr log = Ret s0 /\ run_acts acts s0 w = Ret (s', w') /\ exec_inv (concat (asked ups <$> acts)) (closed w) s' w' [] gv gi gm ds files N' log' /\ arrivals (view s' w') = concat (joins <$> acts).
Proof.
  intros Hao Hw Hl. pose proof Hao as [Hok HT HTok _ _]. pose proof (ao_fit acts Hao) as HTfit. destruct (inv_new (I := I) store closed snappy addr Haddr options dbname ups (concat (asked ups <$> acts)) (closed w) N log w Hw eq_refl Hl) as (s0 & E0 & Hi & Ear).
  destruct (inv_run store closed snappy Hsnappy addr Haddr options same capacity rate Hopts dbname usage write_buffer_size fuel ups _ HT HTok HTfit (closed w) acts s0 w _ _ _ _ _ _ _ Hok Hi) as (s' & w' & gv & gi & gm & ds & files & N' & log' & E & Hi' & Ear').
  exists s0, s', w', gv, gi, gm, ds, files, N', log'. by rewrite Ear in Ear'.
Qed.

(** The memtables and the version hold the updates that were acknowledged. *)
Lemma reads_of acts T s w gv gi gm ds files N log inv known data `{lookup : TableLookup W} : acts_ok acts -> T = concat (asked ups <$> acts) -> forall before, exec_inv T before s w [] gv gi gm ds files N log ->
  TableLookupLaws W c inv known data -> (forall d, d ∈ ds -> known d.1 /\ data d.1 = mem_pair <$> d.2) -> (forall n w, inv n w -> seeks_ready (I := I) files w) ->
  forall ro snapshot key n, inv (length (concat files) + n)%nat w -> 0 <= default (VS.last_sequence_ (de_versions w)) snapshot <= kMaxSequenceNumber -> Z.of_nat (length key) + 13 < 2 ^ 32 ->
  exists st v d' w', DBImpl_Get (I := I) c ro snapshot key (s_db s) w = Ret (st, v, d', w') /\ (st, v) = answer (state_after (take (Z.to_nat (default (VS.last_sequence_ (de_versions w)) snapshot)) (written ups (acked (view s w)))) !! key).
Proof.
  intros Hao -> before Hinv Hlook Hds Hready ro snapshot key n Hn Hseq Hkey. pose proof (inv_parts store closed snappy addr options capacity rate dbname fuel ups _ (ao_count _ Hao) (ao_updates _ Hao) (ao_fit _ Hao) before _ _ _ _ _ _ _ _ _ _ Hinv) as (Hok & _ & _ & _ & Eh).
  pose proof Hinv as [Hw Hh Himm _ Hv _ Htot Hack _ _]. pose proof (ex_versions _ _ _ _ _ Hw) as (Efiles & _). destruct (hv_data _ _ _ _ Hv known data Hds) as [Hvd Hve].
  set (us := concat (gv ++ gi ++ gm)) in *. assert (Forall mem_update_ok us /\ Z.of_nat (length us) + 1 < 2 ^ 31) as [Hus Hsm].
  { pose proof (ao_updates _ Hao) as H1. pose proof (ao_count _ Hao) as H2. rewrite <- Htot in H1, H2. rewrite length_app in H2. apply Forall_app in H1 as [? _]. split; [done|lia]. }
  set (h := numbered 1 (concat gv)) in *. set (hi := numbered (Z.of_nat (length (concat gv)) + 1) (concat gi)) in *. destruct (holds_mem _ _ _ Hh) as (mes & Hm & Hpm). cbn in Hm. set (hm := numbered (Z.of_nat (length (concat (gv ++ gi))) + 1) (concat gm)) in *.
  assert ((h ++ hi) ++ hm = numbered 1 us) as Eall by (unfold us; rewrite Eh, app_assoc, (concat_app (gv ++ gi)), MemTable.number_app; do 2 f_equal; lia).
  assert (exists ies, match imm_ (s_db s) with Some m => mem_rep c m ies | None => ies = [] end /\ ies ≡ₚ hi) as (ies & Hi & Hpi).
  { destruct (imm_ (s_db s)) as [m|]; [destruct Himm as [(ies & ? & ?) _]; by exists ies|]. destruct Himm as [-> _]. by exists []. }
  assert (Forall entry_ok ((h ++ hi) ++ hm)) as Hent by (rewrite Eall; apply numbered_ok; [done|lia|rewrite max_sequence; lia]). pose proof Hent as [Hent12 Hentm]%Forall_app. pose proof Hent12 as [Hent1 Hent2]%Forall_app.
  assert (forall a (hh : list mem_entry) x, (forall b, b ∈ hh -> e_seq b < e_seq a) -> Forall entry_ok hh -> x ∈ mem_pair <$> hh -> valid_key x.1 /\ seq_of x.1 < e_seq a) as Hkey'.
  { intros a hh x Hlt Hall (b & -> & Hb)%list_elem_of_fmap. rewrite Forall_forall in Hall. destruct (mem_pair_key b (Hall b Hb)) as [? ->]. split; [done|]. by apply Hlt. }
  destruct (get_combines (I := I) c inv known data files Hvd Hready ro snapshot key (s_db s) w mes ies _ n Efiles eq_refl Hseq Hkey Hn Hm Hi) as (o & st & v & d' & w' & E & Er & Hf & _).
  - apply newer_entries; [by rewrite Hpm|]. intros a x Ha Hx. rewrite Hpm in Ha. apply number_range in Ha. rewrite concat_app, length_app in Ha. apply elem_of_app in Hx as [Hx|Hx].
    + apply (Hkey' a ies); [|by rewrite Hpi|done]. intros b Hb. rewrite Hpi in Hb. apply number_range in Hb. lia.
    + apply Hve in Hx. apply (Hkey' a h); [|done|done]. intros b Hb%number_range. lia.
  - apply newer_entries; [by rewrite Hpi|]. intros a x Ha Hx. rewrite Hpi in Ha. apply number_range in Ha. apply Hve in Hx. apply (Hkey' a h); [|done|done]. intros b Hb%number_range. lia.
  - exists st, v, d', w'. split; [done|]. rewrite Er, <- Hack. apply (found_state us _ key _ o) in Hf; [done|done|lia|done|].
    intros x. rewrite <- Eall, !fmap_app, !elem_of_app, Hve, <- Hpi, <- Hpm. tauto.
Qed.

(** C2: reads return what was acknowledged.  In a database that starts empty, writers queue
    batches, the writer at the front makes room for its write, waiting or switching to a
    new memtable and a new log when the memtable is full or when the write asks for it,
    or commits the group that it leads, and the background thread flushes the old
    memtable to a table, in any order; nothing fails, and no compaction of tables runs.
    Then the execution goes through, the writers return in the order they joined, and Get,
    which looks into the memtable, the immutable memtable and the tables, answers with
    exactly the value that the updates of the writers that returned OK leave for its
    key, in the order of their returns, or with NotFound; a snapshot [n] sees the first
    [n] of them.  The tables that Get reads are those that were written on the way. *)
Theorem db_reads_acknowledged acts N log w : acts_ok acts -> store N (replicate 7 []) 0 log w -> 0 < log < N ->
  exists s0 s w' ds xs, Session_new addr log = Ret s0 /\ run_acts acts s0 w = Ret (s, w') /\ arrivals (view s w') = concat (joins <$> acts) /\
    Forall2 table_of ds xs /\ closed w' = closed w ++ xs /\ NoDup ((fun d => number d.1) <$> ds) /\
    let files := files_ (VS.current_ (de_versions w')) in
    forall (lookup : TableLookup W) inv known data, TableLookupLaws W c inv known data -> (forall d, d ∈ ds -> known d.1 /\ data d.1 = mem_pair <$> d.2) -> (forall n w, inv n w -> seeks_ready (I := I) files w) ->
    forall n, inv (length (concat files) + n)%nat w' -> forall ro key, Z.of_nat (length key) + 13 < 2 ^ 32 ->
      (exists st v d1 w1, DBImpl_Get (I := I) c ro None key (s_db s) w' = Ret (st, v, d1, w1) /\ (st, v) = answer (state_after (written ups (acked (view s w'))) !! key)) /\
      forall q, 0 <= q <= kMaxSequenceNumber -> exists st v d1 w1, DBImpl_Get (I := I) c ro (Some q) key (s_db s) w' = Ret (st, v, d1, w1) /\ (st, v) = answer (state_after (take (Z.to_nat q) (written ups (acked (view s w')))) !! key).
Proof.
  intros Hao Hw Hl. destruct (run_from_new acts N log w Hao Hw Hl) as (s0 & s & w' & gv & gi & gm & ds & files & N' & log' & E0 & E & Hinv & Har). pose proof Hinv as [Hw' Hh _ _ Hv (xs & Ht & Hc) Htot Hack _ _].
  exists s0, s, w', ds, xs. pose proof (ex_versions _ _ _ _ _ Hw') as (Ef & Eseq & _). split_and!; try done; [apply Hv|]. cbv zeta. rewrite Ef. intros lookup inv known data Hlook Hds Hready n Hn ro key Hkey.
  assert (Z.of_nat (length (written ups (acked (view s w')))) < 2 ^ 31) as Hsm by (rewrite <- Hack; pose proof (ao_count _ Hao) as HT; rewrite <- Htot, length_app in HT; lia).
  split.
  - destruct (reads_of acts _ s w' gv gi gm ds files N' log' inv known data Hao eq_refl _ Hinv Hlook Hds Hready ro None key n Hn) as (st & v & d1 & w1 & Eg & Er); [|done|].
    { change (0 <= VS.last_sequence_ (de_versions w') <= kMaxSequenceNumber). rewrite Eseq, Hack, max_sequence. lia. }
    exists st, v, d1, w1. split; [done|]. rewrite Er. change (default (VS.last_sequence_ (de_versions w')) None) with (VS.last_sequence_ (de_versions w')). by rewrite Eseq, Hack, Nat2Z.id, take_ge.
  - intros q Hq. by apply (reads_of acts _ s w' gv gi gm ds files N' log' inv known data Hao eq_refl _ Hinv Hlook Hds Hready ro (Some q) key n Hn).
Qed.

(** *** After a crash *)

(** The logs that a crash leaves: the one of the immutable memtable, if there is one, and
    the current one, of which only the first [n] bytes are there. *)
Definition crash_logs (s : Session) (n : nat) : list (Z * bytes) := option_list (s_old_log s) ++ [(logfile_number_ (s_db s), take n (dest_ (log_ (s_db s))))].

Section Crash.
Context `{!OpenEnv W bytes} (usage2 : MemTable -> Z) (write_buffer_size2 : Z) (paranoid reuse_logs : bool) (addr2 : Z) (Haddr2 : 0 <= addr2).
Context (above : Z -> W -> Prop) (closed2 : W -> list (bytes * bytes)) {Hcompact : forall N, CompactionEnvLaws W (above N) closed2} {Hflush : forall N, FlushEnvLaws W (above N) closed2}.
Context (Hnext : forall N w n w', above N w -> ce_NewFileNumber w = (n, w') -> N <= n /\ above (n + 1) w').
Abbreviation replay_logs := (replay_logs (I := I) c snappy addr2 options dbname usage2 write_buffer_size2 paranoid reuse_logs fuel).
Abbreviation crashed_ok := (crashed_ok (I := I) options capacity rate dbname fuel above closed2).

(** The file of a log can be opened. *)
Definition log_there (x : Z * bytes) : Prop :=
  (exists name, LogFileName dbname x.1 = Ret name /\ log_file above closed2 name x.2) /\
  forall N w, above N w -> above N (de_set_versions (VS.MarkFileNumberUsed x.1 (de_versions w)) w) /\ closed2 (de_set_versions (VS.MarkFileNumberUsed x.1 (de_versions w)) w) = closed2 w.

Section Logs.
Context (acts : list act) (before : list (bytes * bytes)) (Hao : acts_ok acts) (s : Session) (w : W) (gv gi gm : list (list update)) (ds : list (FileMetaData * list mem_entry)) (files : list (list FileMetaData)) (N log : Z).
Context (Hinv : exec_inv (concat (asked ups <$> acts)) before s w [] gv gi gm ds files N log).

Lemma all_parts : Forall mem_update_ok (concat (gv ++ gi ++ gm)) /\ Z.of_nat (length (concat (gv ++ gi ++ gm))) + 1 < 2 ^ 31 /\ parts_fit options capacity rate fuel (numbered 1 (concat (gv ++ gi ++ gm))).
Proof.
  pose proof (ei_total _ _ _ _ _ _ _ _ _ _ _ _ _ _ _ _ _ _ _ Hinv) as ET. pose proof (ao_updates _ Hao) as H1. pose proof (ao_count _ Hao) as H2. pose proof (ao_fit _ Hao) as H3. rewrite <- ET in H1, H2, H3. rewrite length_app in H2. rewrite MemTable.number_app in H3.
  apply Forall_app in H1 as [? _]. apply parts_fit_app in H3 as [? _]. split_and!; [done|lia|done].
Qed.

Lemma part_small pre g post : gv ++ gi ++ gm = pre ++ g ++ post -> Forall mem_update_ok (concat g) /\ Forall small g /\ Z.of_nat (length (concat pre)) + 1 + Z.of_nat (length (concat g)) <= kMaxSequenceNumber /\ parts_fit options capacity rate fuel (numbered (Z.of_nat (length (concat pre)) + 1) (concat g)).
Proof.
  intros E. destruct all_parts as (H1 & H2 & H3). rewrite E, !concat_app in H1, H2, H3. repeat rewrite length_app in H2. rewrite !MemTable.number_app in H3. apply Forall_app in H1 as [_ H1]. apply Forall_app in H1 as [H1 _].
  apply parts_fit_app in H3 as [_ H3]. apply parts_fit_app in H3 as [H3 _]. split_and!; [done| |rewrite max_sequence; lia|by rewrite Z.add_comm in H3].
  apply Forall_forall. intros x [k Hx]%list_elem_of_lookup. apply take_drop_middle in Hx. rewrite <- Hx, !concat_app in H2. cbn [concat] in H2. repeat rewrite length_app in H2. unfold small. lia.
Qed.

Lemma crashed_part x name pre g post : gv ++ gi ++ gm = pre ++ g ++ post -> log_there x -> LogFileName dbname x.1 = Ret name -> x.2 `prefix_of` enc_records 0 (stamped (Z.of_nat (length (concat pre)) + 1) g) ->
  crashed_ok (MkCrashed x.1 name x.2 (Z.of_nat (length (concat pre)) + 1) g).
Proof.
  intros E [(name' & En' & Hfile) Hmark] En Hp. rewrite En in En'. injection En' as <-. destruct (part_small pre g post E) as (H1 & H2 & H3 & H4). split; cbn; [done|done|done|done|done|lia|done|done|done].
Qed.

Lemma log_bytes : dest_ (log_ (s_db s)) = enc_records 0 (stamped (Z.of_nat (length (concat (gv ++ gi))) + 1) gm).
Proof. pose proof (holds_log _ _ _ (ei_holds _ _ _ _ _ _ _ _ _ _ _ _ _ _ _ _ _ _ _ Hinv)) as Hl. unfold log_holds in Hl. cbn in Hl. by rewrite Hl. Qed.

(** The logs as recovery takes them. *)
Lemma crashed_logs n : (forall x, x ∈ crash_logs s n -> log_there x) -> exists logs, cr_number <$> logs = (crash_logs s n).*1 /\ Forall crashed_ok logs /\ StronglySorted DbRecover.before logs /\ (forall l, l ∈ logs -> Z.of_nat (length (concat gv)) < cr_first l) /\
  forall js, Forall2 complete logs js -> exists j, concat (zip_with kept logs js) = numbered (Z.of_nat (length (concat gv)) + 1) (concat (gi ++ take j gm)) /\ ((length (dest_ (log_ (s_db s))) <= n)%nat -> concat (take j gm) = concat gm).
Proof.
  intros Hlogs. pose proof (ei_imm _ _ _ _ _ _ _ _ _ _ _ _ _ _ _ _ _ _ _ Hinv) as Himm. unfold crash_logs in *. set (cur := (logfile_number_ (s_db s), take n (dest_ (log_ (s_db s))))) in *.
  assert (log_there cur) as Hcur by (apply Hlogs, elem_of_app; right; by left). pose proof Hcur as [(name & En & _) _].
  set (lc := MkCrashed cur.1 name cur.2 (Z.of_nat (length (concat (gv ++ gi))) + 1) gm).
  assert (crashed_ok lc) as Hlc by (apply (crashed_part cur name (gv ++ gi) gm []); [by rewrite app_nil_r, <- app_assoc|done|done|]; cbn; rewrite log_bytes; apply prefix_take).
  assert (forall j, complete lc j -> (length (dest_ (log_ (s_db s))) <= n)%nat -> concat (take j gm) = concat gm) as Hall.
  { intros j Hj Hn. assert (kept lc j = cr_entries lc) as Ek by (apply Hj; cbn; by rewrite take_ge, log_bytes). unfold kept, cr_entries in Ek. cbn in Ek. apply (f_equal length) in Ek. rewrite !number_length in Ek. rewrite (concat_split j gm) in Ek |- *. rewrite length_app in Ek.
    destruct (concat (drop j gm)); [by rewrite app_nil_r|cbn in Ek; lia]. }
  destruct (imm_ (s_db s)) as [m|].
  - destruct Himm as (_ & _ & Eo). rewrite Eo in Hlogs |- *. cbn [option_list app] in *. set (old := (log, enc_records 0 (stamped (Z.of_nat (length (concat gv)) + 1) gi))) in *.
    assert (log_there old) as Hold by (apply Hlogs; by left). pose proof Hold as [(name' & En' & _) _]. set (lo := MkCrashed old.1 name' old.2 (Z.of_nat (length (concat gv)) + 1) gi).
    assert (crashed_ok lo) as Hlo by (apply (crashed_part old name' gv gi gm); done).
    exists [lo; lc]. split_and!; [done|by rewrite !Forall_cons, Forall_nil| | |].
    + repeat constructor. unfold DbRecover.before. cbn. rewrite concat_app, length_app. lia.
    + intros l [->|[->|?%not_elem_of_nil]%elem_of_cons]%elem_of_cons; cbn; [lia|rewrite concat_app, length_app; lia|done].
    + intros js Hjs. apply Forall2_cons_inv_l in Hjs as (j0 & js' & Hj0 & Hjs & ->). apply Forall2_cons_inv_l in Hjs as (j & js'' & Hj & Hjs & ->). apply Forall2_nil_inv_l in Hjs as ->. exists j. split; [|by apply Hall].
      cbn [zip_with concat]. rewrite app_nil_r, (Hj0 eq_refl). unfold cr_entries, kept. cbn. rewrite (concat_app gi), MemTable.number_app. do 2 f_equal. rewrite concat_app, length_app. lia.
  - destruct Himm as (Egi & Eo & _). subst gi. rewrite Eo in Hlogs |- *. cbn [option_list app] in *. exists [lc]. split_and!; [done|by rewrite Forall_cons, Forall_nil|by repeat constructor| |].
    + intros l ->%list_elem_of_singleton. cbn. rewrite app_nil_r. lia.
    + intros js Hjs. apply Forall2_cons_inv_l in Hjs as (j & js' & Hj & Hjs & ->). apply Forall2_nil_inv_l in Hjs as ->. exists j. split; [|by apply Hall]. cbn [zip_with concat]. rewrite app_nil_r. unfold kept. cbn. by rewrite app_nil_r.
Qed.
End Logs.

(** C1: acknowledged writes survive a crash.  After any such execution, wherever the
    memtables are in being switched and flushed, the database stops, and of the log that
    it was writing only the first [n] bytes are left; the log of a memtable that was
    still to be flushed is there as a whole, and the manifest names the first of these logs.
    Recovery replays these logs, with flushes of its own when a memtable fills up, and
    leaves a memtable, if the last log is kept, and an edit that fits the version of the
    database.  Get in a database with that memtable and the new version answers as if
    exactly the first [j] acknowledged writers had run: each batch is recovered whole or
    not at all, and all of them are if the log was not cut. *)
Theorem db_crash_recovery acts N log w n : acts_ok acts -> store N (replicate 7 []) 0 log w -> 0 < log < N ->
  exists s0 s w' ds xs, Session_new addr log = Ret s0 /\ run_acts acts s0 w = Ret (s, w') /\ Forall2 table_of ds xs /\ closed w' = closed w ++ xs /\
    let files := files_ (VS.current_ (de_versions w')) in
    fst <$> head (crash_logs s n) = Some (VS.log_number_ (de_versions w')) /\
    forall N2 w2, above N2 w2 -> (forall x, x ∈ crash_logs s n -> log_there x) -> (forall l g, l ∈ files -> g ∈ l -> number g < N2) ->
    exists j h st2 w3 ds2 xs2, replay_logs (crash_logs s n).*1 (MkRecovery bytes None None 0 VE.new false 0) w2 = Ret (OK, st2, w3) /\
      opt_hist (r_mem st2) h /\ Forall2 (DbOpen.table_of snappy addr2 options dbname) ds2 xs2 /\ closed2 w3 = closed2 w2 ++ xs2 /\
      ((length (dest_ (log_ (s_db s))) <= n)%nat -> written ups (take j (acked (view s w'))) = written ups (acked (view s w'))) /\
      forall known data ps, (forall d, d ∈ ds ++ ds2 -> known d.1 /\ data d.1 = mem_pair <$> d.2) -> Z.of_nat (length ps) = kNumLevels ->
      exists files2, build c files ps [r_edit st2] = Ret (files2, ps) /\
        forall (lookup : TableLookup W) inv, TableLookupLaws W c inv known data -> (forall n w, inv n w -> seeks_ready (I := I) files2 w) ->
        forall d4 w4 m, files_ (VS.current_ (de_versions w4)) = files2 -> mem_hist (mem_ d4) h -> imm_ d4 = None -> inv (length (concat files2) + m)%nat w4 ->
        forall ro q key, 0 <= q <= kMaxSequenceNumber -> Z.of_nat (length key) + 13 < 2 ^ 32 ->
        exists st v d5 w5, DBImpl_Get (I := I) c ro (Some q) key d4 w4 = Ret (st, v, d5, w5) /\ (st, v) = answer (state_after (take (Z.to_nat q) (written ups (take j (acked (view s w'))))) !! key).
Proof.
  intros Hao Hw Hl. destruct (run_from_new acts N log w Hao Hw Hl) as (s0 & s & w' & gv & gi & gm & ds & files & N' & log' & E0 & E & Hinv & Har). pose proof Hinv as [Hw' Hh Himm _ Hv (xs & Ht & Hc) Htot Hack Hat _].
  exists s0, s, w', ds, xs. pose proof (ex_versions _ _ _ _ _ Hw') as (Ef & _ & El & _). split_and!; try done. cbv zeta. rewrite Ef, El. split.
  { unfold crash_logs. destruct (imm_ (s_db s)); [destruct Himm as (_ & _ & ->); done|destruct Himm as (_ & -> & ->); done]. }
  intros N2 w2 Hw2 Hlogs Hlow. destruct (crashed_logs acts _ Hao s w' gv gi gm ds files N' log' Hinv n Hlogs) as (logs & En & Hok & Hs & Hfirst & Hkept).
  destruct (replay_version (I := I) snappy Hsnappy addr2 Haddr2 options same capacity rate Hopts dbname usage2 write_buffer_size2 paranoid reuse_logs fuel above closed2 Hnext logs N2 (MkRecovery bytes None None 0 VE.new false 0) w2 Hok Hs Hw2 eq_refl eq_refl eq_refl)
    as (js & ds2 & xs2 & h & st2 & w3 & Er & Hcs & Hm & Ht2 & Hc2 & Hn2 & _ & Hver). destruct (Hkept js Hcs) as (j & Ek & Hall).
  assert (gv ++ gi ++ take j gm = take (length gv + (length gi + j)) (gv ++ gi ++ gm)) as Etake by (by rewrite !take_app_add).
  destruct (Hat (length gv + (length gi + j))%nat) as [i Hi]. rewrite <- Etake in Hi. exists i, h, st2, w3, ds2, xs2. rewrite <- En. split_and!; try done.
  { intros Hn. rewrite <- Hi, <- Hack, !concat_app, (Hall Hn). done. }
  intros known data ps Hds Hps. destruct (hv_data _ _ _ _ Hv known data) as [Hvd Hve]; [intros d Hd; apply Hds, elem_of_app; by left|].
  destruct (Hver known data files ps Hvd (hv_canonical _ _ _ _ Hv) Hps) as (files2 & Eb & Hvd2 & _ & Hnw & Hx); [| |intros d Hd; apply Hds, elem_of_app; by right|].
  { intros l Hl'. split; [by apply Hv|]. apply Forall_forall. intros g Hg. by apply (Hlow l). }
  { intros x l (a & -> & Ha)%Hve%list_elem_of_fmap Hl'. specialize (Hfirst l Hl'). destruct (all_parts acts _ Hao s w' gv gi gm ds files N' log' Hinv) as (Hup & Hsm & _). rewrite concat_app in Hup, Hsm. rewrite length_app in Hsm. apply Forall_app in Hup as [Hup _].
    assert (Forall entry_ok (numbered 1 (concat gv))) as Hent by (apply numbered_ok; [done|lia|rewrite max_sequence; lia]). rewrite Forall_forall in Hent. destruct (mem_pair_key a (Hent a Ha)) as [_ ->]. apply number_range in Ha. lia. }
  exists files2. split; [done|]. intros lookup inv Hlook Hready d4 w4 m Ef4 (mes & Hm4 & Hpm) Ei4 Hinv4 ro q key Hq Hkey. rewrite <- Hi.
  destruct (get_combines (I := I) c inv known data files2 Hvd2 Hready ro (Some q) key d4 w4 mes [] q m Ef4 eq_refl Hq Hkey Hinv4 Hm4) as (o & st & v & d5 & w5 & Eg & Erv & Hf & _).
  { by rewrite Ei4. }
  { intros x y Hx' Hy. apply Hnw; [|done]. apply list_elem_of_fmap in Hx' as (a & -> & Ha). apply list_elem_of_fmap_2. by rewrite <- Hpm. }
  { by intros x y ?%not_elem_of_nil. }
  exists st, v, d5, w5. split; [done|]. rewrite Erv. destruct (all_parts acts _ Hao s w' gv gi gm ds files N' log' Hinv) as (Hup & Hsm & _).
  assert (exists post, concat (gv ++ gi ++ gm) = concat (gv ++ gi ++ take j gm) ++ post) as [post Epost] by (exists (concat (drop j gm)); rewrite <- concat_app, <- !app_assoc, take_drop; done). rewrite Epost in Hup, Hsm. rewrite length_app in Hsm. apply Forall_app in Hup as [Hup _].
  apply (found_state _ _ key q o Hup ltac:(lia) Hq) in Hf; [done|]. intros x. rewrite app_nil_l, elem_of_app. transitivity (x ∈ (mem_pair <$> h) ++ version_entries data files2).
  - rewrite elem_of_app, !list_elem_of_fmap. split; (intros [(a & ? & Ha)|?]; [left; exists a; split; [done|]; by rewrite ?Hpm, <- ?Hpm in * |by right]).
  - rewrite Hx, elem_of_app, Hve, Ek. rewrite (concat_app gv), MemTable.number_app, fmap_app, elem_of_app. replace (1 + Z.of_nat (length (concat gv))) with (Z.of_nat (length (concat gv)) + 1) by lia. tauto.
Qed.
End Crash.
End Results.

(** ** Examples *)

(** A database in memory: the version set, the files that were closed and the seeks. *)
Record lab := MkLab { lb_versions : VS.VersionSet; lb_closed : list (bytes * bytes); lb_seeks : Seeks }.

Definition lab_set (w : lab) (vs : VS.VersionSet) : lab := MkLab vs (lb_closed w) (lb_seeks w).

#[local] Instance lab_env : CompactionEnv lab bytes := {|
  ce_NewFileNumber w := let n := VS.next_file_number_ (lb_versions w) in (n, lab_set w (VS.set_next (lb_versions w) (n + 1)));
  ce_pending_insert _ w := w;
  ce_pending_erase _ w := w;
  ce_NewWritableFile _ w := (OK, Some [], w);
  ce_Sync _ _ w := (OK, w);
  ce_Close name f w := (OK, MkLab (lb_versions w) (lb_closed w ++ [(name, f)]) (lb_seeks w));
  ce_Usable _ _ w := Ret (OK, w);
  ce_shutting_down _ := false;
  ce_CompactImm w := Ret w;
  ce_LogAndApply e w :=
    let vs := lb_versions w in
    '(files, ps) ← build BytewiseComparator (files_ (VS.current_ vs)) (VS.compact_pointer_ vs) [e];
    Ret (OK, lab_set w (VS.MkVS (VS.next_file_number_ vs) (VS.manifest_file_number_ vs) (VS.last_sequence_ vs) (default (VS.log_number_ vs) (VE.log_number_ e)) (default (VS.prev_log_number_ vs) (VE.prev_log_number_ e)) (VS.descriptor_log_ vs) (Finalize files) (VS.compact_pointer_ vs)));
  ce_NumLevelFiles level w := l ← level_files (files_ (VS.current_ (lb_versions w))) level; Ret (Z.of_nat (length l));
|}.
#[local] Instance lab_flush : FlushEnv lab := fun _ w => w.
#[local] Instance lab_moves : IterMoves lab ListIterator := list_moves (internal_ord BytewiseComparator).
#[local] Instance lab_db : DbEnv lab bytes ListIterator := {|
  de_versions := lb_versions;
  de_set_versions vs w := lab_set w vs;
  de_seeks := lb_seeks;
  de_set_seeks v w := MkLab (lb_versions w) (lb_closed w) v;
  de_in_use _ := [];
  de_pending_outputs _ := ∅;
  de_children _ := [];
  de_Evict _ w := w;
  de_MakeInputIterator _ _ := MkListIter [] 0;
|}.

#[local] Instance lab_db_laws : DbEnvLaws lab bytes ListIterator.
Proof. split; [intros w n w' [= <- <-]|intros name w s f w' [= <- <- <-]|intros vs w|intros v w]; done. Qed.

Definition lab_store (N : Z) (files : list (list FileMetaData)) (seq log : Z) (w : lab) : Prop :=
  let vs := lb_versions w in
  0 < VS.next_file_number_ vs /\ N <= VS.next_file_number_ vs /\ files_ (VS.current_ vs) = files /\ VS.last_sequence_ vs = seq /\ VS.log_number_ vs = log /\ VS.prev_log_number_ vs = 0 /\ Z.of_nat (length (VS.compact_pointer_ vs)) = kNumLevels.

Lemma lab_compact (good : lab -> Prop) : (forall w, good w -> 0 < VS.next_file_number_ (lb_versions w)) -> (forall w n, good w -> VS.next_file_number_ (lb_versions w) <= n -> good (lab_set w (VS.set_next (lb_versions w) n))) ->
  (forall w cl, good w -> good (MkLab (lb_versions w) cl (lb_seeks w))) -> CompactionEnvLaws lab good lb_closed.
Proof.
  intros Hpos Hnext Hclosed. split; intros w; cbn; try done.
  - intros Hw. eexists _, _. split; [reflexivity|]. split_and!; [by apply Hpos|apply Hnext; [done|lia]|done].
  - intros name Hw. by eexists.
  - intros name f Hw. by eexists.
  - intros name f Hw. eexists. split; [reflexivity|]. split; [by apply Hclosed|done].
  - intros n size Hw. by eexists.
  - intros Hw. exists w, []. by rewrite app_nil_r.
Qed.

#[local] Instance lab_laws : ExecLaws lab ListIterator lab_store lb_closed.
Proof.
  split.
  - intros N files seq log. apply lab_compact; [by intros w []| |done]. intros w n (H1 & H2 & H3) Hn. split_and!; cbn; [lia|lia|apply H3..].
  - intros N files seq log. by split.
  - intros N files seq log w n w' (H1 & H2 & H3) [= <- <-]. split; [done|]. split_and!; cbn; [lia|lia|apply H3..].
  - by intros N files seq log w (_ & _ & H3 & H4 & H5 & H6 & H7).
  - by intros.
  - intros N files seq log w seq' vs (H1 & H2 & H3 & H4 & H5) Evs. unfold VS.SetLastSequence in Evs. destruct (_ <=? seq'); [|done]. injection Evs as <-. done.
  - intros N files seq log w e log' files' ps (H1 & H2 & H3 & H4 & H5 & H6 & H7) El Ep _ Eb. cbn. rewrite H3. cbn in Eb. rewrite Eb. run. eexists. split; [reflexivity|]. split; [|done]. split_and!; cbn; try done; [apply finalize_files|by rewrite El|by rewrite Ep].
Qed.

(** The first file of an empty database is its log, 3. *)
Definition lab_new : lab := MkLab (VS.MkVS 4 2 0 3 0 None (Finalize (replicate 7 [])) no_pointers) [] (MkSeeks {[5 := 100]} None).

Lemma lab_new_store : lab_store 4 (replicate 7 []) 0 3 lab_new.
Proof. split_and!; cbn; try lia; [apply finalize_files|done..]. Qed.

Definition lab_ups (i : nat) : list update := match i with 0%nat => [UPut [x61] [x31]] | 2%nat => [UDelete [x61]; UPut [x62] [x32]] | _ => [] end.

(** A write, a forced switch to a new memtable, and a write of two updates ... *)
Definition lab_crash_acts : list act :=
  [Join (MkReq 0 (Some (batch 0 (lab_ups 0))) false); Turn OK; Join (MkReq 1 None false); Turn OK; Turn OK; Join (MkReq 2 (Some (batch 0 (lab_ups 2))) true); Turn OK].
(** ... and the same with the flush of the first memtable. *)
Definition lab_acts : list act := take 5 lab_crash_acts ++ [Flush []] ++ drop 5 lab_crash_acts.

Abbreviation lab_run acts s w := (run_acts (I := ListIterator) BytewiseComparator (Some toy_snappy) 0 sample_options (str "db") (fun _ => 0) 50 4 acts s w).
Abbreviation lab_view := (view (I := ListIterator)).

Lemma lab_acts_ok acts : acts = lab_acts \/ acts = lab_crash_acts -> acts_ok sample_options 100 12 4 lab_ups acts.
Proof.
  intros [-> | ->]; (split; [repeat (apply Forall_cons; split); try apply Forall_nil; cbn; try done; first [left; eexists; reflexivity|by right]|cbn; lia|repeat constructor; cbn; lia|apply Z.ltb_lt; vm_compute; reflexivity|cbn; lia]).
Qed.

(** The flushed table is file 5, and the three writers were acknowledged. *)
Lemma lab_final : (s0 ← Session_new 0 3; '(s, w) ← lab_run lab_acts s0 lab_new; Ret (acked (lab_view s w), (fun f => number f) <$> concat (files_ (VS.current_ (lb_versions w))), lb_seeks w)) = Ret ([0%nat; 1%nat; 2%nat], [5], MkSeeks {[5 := 100]} None).
Proof. vm_compute. reflexivity. Qed.

(** Contents for file numbers. *)
Lemma contents_by_number (ds : list (FileMetaData * list mem_entry)) : NoDup ((fun d => number d.1) <$> ds) -> exists data : Z -> list entry, forall d, d ∈ ds -> data (number d.1) = mem_pair <$> d.2.
Proof.
  induction ds as [|d ds IH]; cbn [fmap list_fmap]; [exists (fun _ => []); by intros d ?%not_elem_of_nil|]. intros [Hn Hds]%NoDup_cons. destruct (IH Hds) as [data Hdata].
  exists (fun n => if n =? number d.1 then mem_pair <$> d.2 else data n). intros d' [->|Hd']%elem_of_cons; [by rewrite Z.eqb_refl|]. rewrite (proj2 (Z.eqb_neq _ _)); [by apply Hdata|]. intros E. apply Hn. apply list_elem_of_fmap. by exists d'.
Qed.

(** Lookups in tables with such contents. *)
Definition lab_lookup (data : Z -> list entry) : TableLookup lab := fun _ n _ k w => Ret (OK, data n !! rank (internal_ord BytewiseComparator) k (data n), w).

Lemma lab_lookup_laws data : @TableLookupLaws lab (lab_lookup data) BytewiseComparator (fun _ w => lb_seeks w = MkSeeks {[5 := 100]} None) (fun _ => True) (fun f => data (number f)).
Proof. split; [done|]. intros n f ro k t _ _ Ht. eexists _, t. split; [reflexivity|]. split_and!; [done|done|]. by intros e -> _. Qed.

(** The deletion in the memtable hides the value in the table, which snapshot 1 sees. *)
Lemma db_reads_acknowledged_witness : exists s0 s w (lookup : TableLookup lab) st v d1 w1 v2 d2 w2, Session_new 0 3 = Ret s0 /\ lab_run lab_acts s0 lab_new = Ret (s, w) /\
  DBImpl_Get (I := ListIterator) BytewiseComparator (MkReadOptions true true) None [x61] (s_db s) w = Ret (st, v, d1, w1) /\ v = None /\
  DBImpl_Get (I := ListIterator) BytewiseComparator (MkReadOptions true true) (Some 1) [x61] (s_db s) w = Ret (OK, v2, d2, w2) /\ v2 = Some [x31].
Proof.
  destruct (db_reads_acknowledged (I := ListIterator) lab_store lb_closed (Some toy_snappy) ltac:(intros s [= <-]; apply toy_snappy_ok) 0 ltac:(lia) sample_options same_user 100 12 sample_options_ok (str "db") (fun _ => 0) 50 4 lab_ups lab_acts 4 3 lab_new
    (lab_acts_ok lab_acts (or_introl eq_refl)) lab_new_store ltac:(lia)) as (s0 & s & w & ds & xs & E0 & E & _ & _ & _ & Hnd & Hr). cbv zeta in Hr.
  destruct (contents_by_number ds Hnd) as [data Hdata]. pose proof lab_final as Hfin. rewrite E0 in Hfin. cbn [mbind outcome_bind] in Hfin. rewrite E in Hfin. cbn [mbind outcome_bind] in Hfin. injection Hfin as Eack Enum Eseek.
  destruct (Hr (lab_lookup data) (fun _ w => lb_seeks w = MkSeeks {[5 := 100]} None) (fun _ => True) (fun f => data (number f)) (lab_lookup_laws data)) with (n := 0%nat) (ro := MkReadOptions true true) (key := [x61]) as [(st & v & d1 & w1 & Eg & Ev) Hsnap].
  - intros d Hd. split; [exact Logic.I|exact (Hdata d Hd)].
  - intros n w' Ew. split; cbn; rewrite Ew; [|done]. intros l f Hl Hf. assert (number f ∈ [5]) as ->%list_elem_of_singleton; [|by exists 100]. rewrite <- Enum. apply list_elem_of_fmap_2, list_elem_of_In, in_concat. exists l. by rewrite <- !list_elem_of_In.
  - exact Eseek.
  - cbn. lia.
  - rewrite Eack in Ev, Hsnap. destruct (Hsnap 1) as (st2 & v2 & d2 & w2 & Eg2 & Ev2); [rewrite max_sequence; lia|]. injection Ev2 as -> ->. injection Ev as -> ->.
    exists s0, s, w, (lab_lookup data). eexists _, _, d1, w1, _, d2, w2. split; [exact E0|]. split; [exact E|]. split; [exact Eg|]. split; [reflexivity|]. split; [exact Eg2|reflexivity].
Defined.

(** The logs of both memtables, which a crash finds. *)
Definition lab_logs : list (Z * bytes) := [(3, enc_records 0 (stamped 1 [lab_ups 0])); (4, enc_records 0 (stamped 2 [lab_ups 2]))].

#[local] Instance lab_open : OpenEnv lab bytes := {|
  oe_CreateDir _ w := w;
  oe_LockFile _ w := (OK, w);
  oe_FileExists _ _ := true;
  oe_GetChildren _ _ := (OK, [str "000003.log"; str "000004.log"]);
  oe_NewSequentialFile name _ := (OK, if bool_decide (name = str "db/000003.log") then enc_records 0 (stamped 1 [lab_ups 0]) else enc_records 0 (stamped 2 [lab_ups 2]));
  oe_GetFileSize _ _ := (OK, 0);
  oe_NewAppendableFile _ w := (OK, Some [], w);
|}.

Definition lab_above (N : Z) (w : lab) : Prop := 0 < VS.next_file_number_ (lb_versions w) /\ N <= VS.next_file_number_ (lb_versions w).

Lemma lab_crashed : (s0 ← Session_new 0 3; '(s, w) ← lab_run lab_crash_acts s0 lab_new; Ret (crash_logs s 1000, concat (files_ (VS.current_ (lb_versions w))), (length (dest_ (log_ (s_db s))) <=? 1000)%nat)) = Ret (lab_logs, [], true).
Proof. vm_compute. reflexivity. Qed.

Lemma lab_above_compact N : CompactionEnvLaws lab (lab_above N) lb_closed.
Proof. apply lab_compact; [by intros w []| |done]. intros w n [H1 H2] Hn. split; cbn; lia. Qed.

Lemma lab_above_flush N : FlushEnvLaws lab (lab_above N) lb_closed.
Proof. by split. Qed.

Lemma lab_next N (w : lab) n w' : lab_above N w -> ce_NewFileNumber w = (n, w') -> N <= n /\ lab_above (n + 1) w'.
Proof. intros [H1 H2] [= <- <-]. split; [done|]. split; cbn; lia. Qed.

Lemma lab_there x : x ∈ lab_logs -> log_there (I := ListIterator) (str "db") lab_above lb_closed x.
Proof.
  intros Hx. split.
  - assert (x = (3, enc_records 0 (stamped 1 [lab_ups 0])) \/ x = (4, enc_records 0 (stamped 2 [lab_ups 2]))) as [-> | ->] by (unfold lab_logs in Hx; set_solver).
    + exists (str "db/000003.log"). split; [vm_compute; reflexivity|]. split; [done|]. by intros N w s f w' Hw [= <- <- <-].
    + exists (str "db/000004.log"). split; [vm_compute; reflexivity|]. split; [done|]. by intros N w s f w' Hw [= <- <- <-].
  - intros N w [H1 H2]. split; [|done]. assert (x.1 = 3 \/ x.1 = 4) as Hn by (unfold lab_logs in Hx; set_solver). unfold lab_above, VS.MarkFileNumberUsed. cbn. destruct (Z.leb_spec (VS.next_file_number_ (lb_versions w)) x.1); [|done]. cbn. rewrite u64_small by lia. lia.
Qed.

(** Nothing was cut: all acknowledged updates are recovered. *)
Lemma db_crash_recovery_witness : exists s0 s w j h st2 w3, Session_new 0 3 = Ret s0 /\ lab_run lab_crash_acts s0 lab_new = Ret (s, w) /\
  replay_logs (I := ListIterator) BytewiseComparator (Some toy_snappy) 0 sample_options (str "db") (fun _ => 0) 50 true false 4 [3; 4] (MkRecovery bytes None None 0 VE.new false 0) lab_new = Ret (OK, st2, w3) /\
  opt_hist (r_mem st2) h /\ written lab_ups (take j (acked (lab_view s w))) = written lab_ups (acked (lab_view s w)).
Proof.
  destruct (db_crash_recovery (I := ListIterator) lab_store lb_closed (Some toy_snappy) ltac:(intros s [= <-]; apply toy_snappy_ok) 0 ltac:(lia) sample_options same_user 100 12 sample_options_ok (str "db") (fun _ => 0) 50 4 lab_ups
    (fun _ => 0) 50 true false 0 ltac:(lia) lab_above lb_closed (Hcompact := lab_above_compact) (Hflush := lab_above_flush) lab_next lab_crash_acts 4 3 lab_new 1000 (lab_acts_ok lab_crash_acts (or_intror eq_refl)) lab_new_store ltac:(lia))
    as (s0 & s & w & ds & xs & E0 & E & _ & _ & Hr). cbv zeta in Hr. destruct Hr as [_ Hr].
  pose proof lab_crashed as Hlogs. rewrite E0 in Hlogs. cbn [mbind outcome_bind] in Hlogs. rewrite E in Hlogs. cbn [mbind outcome_bind] in Hlogs. injection Hlogs as El Ef Hlen. rewrite El in Hr.
  destruct (Hr 4 lab_new) as (j & h & st2 & w3 & ds2 & xs2 & Er & Hm & _ & _ & Hall & _).
  - split; cbn; lia.
  - exact lab_there.
  - intros l g Hl Hg. exfalso. assert (g ∈ concat (files_ (VS.current_ (lb_versions w)))) as Hin by (apply list_elem_of_In, in_concat; exists l; by rewrite <- !list_elem_of_In). rewrite Ef in Hin. by apply not_elem_of_nil in Hin.
  - exists s0, s, w, j, h, st2, w3. split; [exact E0|]. split; [exact E|]. split; [exact Er|]. split; [exact Hm|]. apply Hall. by apply Nat.leb_le.
Defined.
