(* ===== verification/DbIter.v ===== *)
(** * The iterator of a database (util/leveldb/db/db_iter.cc)

    Combines the internal entries of each user key, versions and deletions, into what a
    reader sees at a sequence number.  The internal iterator is any iterator. *)

From S2P Require Import Prelude Slice Order Coding DbFormat InternalOrder FileNames Status SkipList Iterators Merger FilterBlock TableGet.
From stdpp Require Import strings.
#[local] Open Scope Z_scope.

Definition kReadBytesPeriod : Z := 1048576.

(** [direction_] has the constructors of the merging iterator's; [samples] are the keys
    passed to [db_->RecordReadSample]. *)
Module DBI.
Section Ops.
Context {W I : Type} `{IterView I} `{IterMoves W I} (user_comparator_ : Comparator) (sequence_ : Z).

Record DBIter := MkDBIter {
  iter_ : I;
  status_ : Status;
  saved_key_ : bytes;
  saved_value_ : bytes;
  direction_ : Direction;
  valid_ : bool;
  rnd_ : Z;
  bytes_counter_ : Z;
  samples : list bytes;
}.

Definition set_iter (d : DBIter) (it : I) : DBIter :=
  MkDBIter it (status_ d) (saved_key_ d) (saved_value_ d) (direction_ d) (valid_ d) (rnd_ d) (bytes_counter_ d) (samples d).
Definition set_status (d : DBIter) (s : Status) : DBIter :=
  MkDBIter (iter_ d) s (saved_key_ d) (saved_value_ d) (direction_ d) (valid_ d) (rnd_ d) (bytes_counter_ d) (samples d).
Definition SaveKey (k : bytes) (d : DBIter) : DBIter :=
  MkDBIter (iter_ d) (status_ d) k (saved_value_ d) (direction_ d) (valid_ d) (rnd_ d) (bytes_counter_ d) (samples d).
Definition save_value (v : bytes) (d : DBIter) : DBIter :=
  MkDBIter (iter_ d) (status_ d) (saved_key_ d) v (direction_ d) (valid_ d) (rnd_ d) (bytes_counter_ d) (samples d).
Definition set_direction (d : DBIter) (dir : Direction) : DBIter :=
  MkDBIter (iter_ d) (status_ d) (saved_key_ d) (saved_value_ d) dir (valid_ d) (rnd_ d) (bytes_counter_ d) (samples d).
Definition set_valid (d : DBIter) (b : bool) : DBIter :=
  MkDBIter (iter_ d) (status_ d) (saved_key_ d) (saved_value_ d) (direction_ d) b (rnd_ d) (bytes_counter_ d) (samples d).

(** [saved_key_.clear()]; whether clearing the value frees its memory is not observable. *)
Definition clear_key : DBIter -> DBIter := SaveKey [].
Definition ClearSavedValue : DBIter -> DBIter := save_value [].

Definition RandomPeriod (rnd : Z) : Z * Z := Random.Uniform rnd (2 * kReadBytesPeriod).

Definition new (iter : I) (seed : Z) : DBIter :=
  let '(counter, rnd) := RandomPeriod (Random.new seed) in
  MkDBIter iter OK [] [] kForward false rnd counter [].

Definition Valid (d : DBIter) : bool := valid_ d.
Definition key (d : DBIter) : outcome bytes :=
  assert! valid_ d; match direction_ d with kForward => k ← it_key (iter_ d); ExtractUserKey k | kReverse => Ret (saved_key_ d) end.
Definition value (d : DBIter) : outcome bytes :=
  assert! valid_ d; match direction_ d with kForward => it_value (iter_ d) | kReverse => Ret (saved_value_ d) end.
Definition status (d : DBIter) : outcome Status := if ok (status_ d) then it_status (iter_ d) else Ret (status_ d).

(** [while (bytes_counter_ < 0)] *)
Fixpoint sample (fuel : nat) (k : bytes) (counter rnd : Z) (samples : list bytes) : outcome (Z * Z * list bytes) :=
  if counter <? 0 then
    match fuel with
    | O => Undef
    | S fuel' => let '(r, rnd) := RandomPeriod rnd in sample fuel' k (counter + r) rnd (samples ++ [k])
    end
  else Ret (counter, rnd, samples).

(** The result is [ikey], when the key has the right form.  Sizes in memory are far below
    the range of [ssize_t]. *)
Definition ParseKey (d : DBIter) : outcome (option ParsedInternalKey * DBIter) :=
  k ← it_key (iter_ d);
  v ← it_value (iter_ d);
  let counter := bytes_counter_ d - (Z.of_nat (length k) + Z.of_nat (length v)) in
  '(counter, rnd, smp) ← sample (2 * Z.to_nat (- counter)) k counter (rnd_ d) (samples d);
  let d := MkDBIter (iter_ d) (status_ d) (saved_key_ d) (saved_value_ d) (direction_ d) (valid_ d) rnd counter smp in
  '(b, ikey) ← ParseInternalKey k;
  if (b : bool) then Ret (ikey, d)
  else s ← Corruption (str "corrupted internal key in DBIter") []; Ret (None, set_status d s).

Definition move_iter (op : iter_op) (d : DBIter) (s : W) : outcome (DBIter * W) := '(it, s) ← it_move op (iter_ d) s; Ret (set_iter d it, s).

(** The loop of [FindNextUserEntry], whose [skip] is always [&saved_key_]. *)
Fixpoint find_next (fuel : nat) (skipping : bool) (d : DBIter) (s : W) : outcome (DBIter * W) :=
  match fuel with
  | O => Undef
  | S fuel' =>
      '(ikey, d) ← ParseKey d;
      let next skipping d :=
        '(d, s) ← move_iter OpNext d s;
        if it_Valid (iter_ d) then find_next fuel' skipping d s else Ret (set_valid (clear_key d) false, s) in
      match ikey with
      | Some p =>
          if sequence p <=? sequence_ then
            if type p =? kTypeDeletion then next true (SaveKey (user_key p) d)
            else if type p =? kTypeValue then
              if skipping && (cmp_Compare user_comparator_ (user_key p) (saved_key_ d) <=? 0) then next skipping d
              else Ret (clear_key (set_valid d true), s)
            else next skipping d
          else next skipping d
      | None => next skipping d
      end
  end.

Section Fuel.
Context (fuel : nat).

Definition FindNextUserEntry (skipping : bool) (d : DBIter) (s : W) : outcome (DBIter * W) :=
  assert! it_Valid (iter_ d);
  assert! bool_decide (direction_ d = kForward);
  find_next fuel skipping d s.

Definition Next (d : DBIter) (s : W) : outcome (DBIter * W) :=
  assert! valid_ d;
  match direction_ d with
  | kReverse =>
      let d := set_direction d kForward in
      '(d, s) ← move_iter (if it_Valid (iter_ d) then OpNext else OpFirst) d s;
      if it_Valid (iter_ d) then FindNextUserEntry true d s else Ret (clear_key (set_valid d false), s)
  | kForward =>
      k ← it_key (iter_ d); u ← ExtractUserKey k;
      FindNextUserEntry true (SaveKey u d) s
  end.

(** The loop of [FindPrevUserEntry]; the type is [value_type] at its end. *)
Fixpoint find_prev (fuel : nat) (value_type : Z) (d : DBIter) (s : W) : outcome (Z * DBIter * W) :=
  match fuel with
  | O => Undef
  | S fuel' =>
      '(ikey, d) ← ParseKey d;
      let prev value_type d :=
        '(d, s) ← move_iter OpPrev d s;
        if it_Valid (iter_ d) then find_prev fuel' value_type d s else Ret (value_type, d, s) in
      match ikey with
      | Some p =>
          if sequence p <=? sequence_ then
            if negb (value_type =? kTypeDeletion) && (cmp_Compare user_comparator_ (user_key p) (saved_key_ d) <? 0) then Ret (value_type, d, s)
            else if type p =? kTypeDeletion then prev (type p) (ClearSavedValue (clear_key d))
            else
              raw_value ← it_value (iter_ d);
              k ← it_key (iter_ d); u ← ExtractUserKey k;
              prev (type p) (save_value raw_value (SaveKey u d))
          else prev value_type d
      | None => prev value_type d
      end
  end.

Definition FindPrevUserEntry (d : DBIter) (s : W) : outcome (DBIter * W) :=
  assert! bool_decide (direction_ d = kReverse);
  '(value_type, d, s) ← (if it_Valid (iter_ d) then find_prev fuel kTypeDeletion d s else Ret (kTypeDeletion, d, s));
  if value_type =? kTypeDeletion then Ret (set_direction (ClearSavedValue (clear_key (set_valid d false))) kForward, s)
  else Ret (set_valid d true, s).

(** The loop of [Prev]: false when it runs into the front. *)
Fixpoint scan_back (fuel : nat) (d : DBIter) (s : W) : outcome (bool * DBIter * W) :=
  match fuel with
  | O => Undef
  | S fuel' =>
      '(d, s) ← move_iter OpPrev d s;
      if it_Valid (iter_ d) then
        k ← it_key (iter_ d); u ← ExtractUserKey k;
        if cmp_Compare user_comparator_ u (saved_key_ d) <? 0 then Ret (true, d, s) else scan_back fuel' d s
      else Ret (false, ClearSavedValue (clear_key (set_valid d false)), s)
  end.

Definition Prev (d : DBIter) (s : W) : outcome (DBIter * W) :=
  assert! valid_ d;
  match direction_ d with
  | kForward =>
      assert! it_Valid (iter_ d);
      k ← it_key (iter_ d); u ← ExtractUserKey k;
      '(b, d, s) ← scan_back fuel (SaveKey u d) s;
      if (b : bool) then FindPrevUserEntry (set_direction d kReverse) s else Ret (d, s)
  | kReverse => FindPrevUserEntry d s
  end.

Definition Seek (target : bytes) (d : DBIter) (s : W) : outcome (DBIter * W) :=
  let d := clear_key (ClearSavedValue (set_direction d kForward)) in
  k ← AppendInternalKey (saved_key_ d) (PIK target sequence_ kValueTypeForSeek);
  '(d, s) ← move_iter (OpSeek k) (SaveKey k d) s;
  if it_Valid (iter_ d) then FindNextUserEntry false d s else Ret (set_valid d false, s).

Definition SeekToFirst (d : DBIter) (s : W) : outcome (DBIter * W) :=
  let d := ClearSavedValue (set_direction d kForward) in
  '(d, s) ← move_iter OpFirst d s;
  if it_Valid (iter_ d) then FindNextUserEntry false d s else Ret (set_valid d false, s).

Definition SeekToLast (d : DBIter) (s : W) : outcome (DBIter * W) :=
  let d := ClearSavedValue (set_direction d kReverse) in
  '(d, s) ← move_iter OpLast d s;
  FindPrevUserEntry d s.

Definition move (op : iter_op) : DBIter -> W -> outcome (DBIter * W) :=
  match op with
  | OpFirst => SeekToFirst
  | OpLast => SeekToLast
  | OpSeek target => Seek target
  | OpNext => Next
  | OpPrev => Prev
  end.
End Fuel.
End Ops.
Arguments DBIter : clear implicits.
End DBI.

#[export] Instance db_view {I} `{IterView I} : IterView (DBI.DBIter I) :=
  {| it_Valid := DBI.Valid; it_key := DBI.key; it_value := DBI.value; it_status := DBI.status |}.

Definition db_moves {W I} `{IterView I} `{IterMoves W I} (c : Comparator) (sequence : Z) (fuel : nat) : IterMoves W (DBI.DBIter I) := DBI.move c sequence fuel.

(** ** Sampling

    The gaps that the generator yields are never zero twice in a row, so the loop ends. *)

Lemma random_period r : Random.good r -> exists a r', DBI.RandomPeriod r = (a, r') /\ 0 <= a /\ Random.good r' /\ (a = 0 -> 0 < (DBI.RandomPeriod r').1).
Proof.
  intros Hr. unfold DBI.RandomPeriod, Random.Uniform. destruct (Random.next_mod r Hr) as [_ Hr1]. change (2 * kReadBytesPeriod) with 2097152.
  eexists _, _. split; [reflexivity|]. split_and!; [apply Z.mod_pos_bound; lia|done|]. set (r1 := Random.Next r) in *. intros E. cbn [fst].
  destruct (Random.next_mod r1 Hr1) as [-> _]. unfold Random.good, Random.M, Random.A in *. apply Z.mod_divide in E as [j Ej]; [|lia].
  pose proof (Z.div_mod (16807 * j) 1024 ltac:(lia)) as Hd. pose proof (Z.mod_pos_bound (16807 * j) 1024 ltac:(lia)) as Hm.
  set (q := 16807 * j / 1024) in *. set (m := (16807 * j) mod 1024) in *.
  rewrite <- (Z.mod_unique_pos (r1 * 16807) 2147483647 q (q + 2097152 * m)) by lia.
  rewrite (Z.mul_comm 2097152), Z.mod_add, Z.mod_small by lia. lia.
Qed.

Lemma sample_spec m k counter rnd smp : - counter <= Z.of_nat m -> Random.good rnd ->
  exists counter' rnd' smp', DBI.sample (2 * m) k counter rnd smp = Ret (counter', rnd', smp') /\ Random.good rnd'.
Proof.
  revert counter rnd smp. induction m as [|m IH]; intros counter rnd smp Hm Hr.
  - cbn. rewrite (proj2 (Z.ltb_ge _ _)) by lia. eauto.
  - replace (2 * S m)%nat with (S (S (2 * m))) by lia. cbn [DBI.sample]. destruct (Z.ltb_spec counter 0); [|eauto].
    destruct (random_period rnd Hr) as (a & r1 & -> & Ha & Hr1 & Hpos). destruct (Z.ltb_spec (counter + a) 0) as [Hlt|Hge]; [|eauto].
    destruct (random_period r1 Hr1) as (b & r2 & E & Hb & Hr2 & _). rewrite E in *. cbn [fst] in Hpos. apply IH; [lia|done].
Qed.

(** ** What a reader sees *)

Section Visible.
Context (c : Comparator) `{!ComparatorLaws c} (snapshot : Z).
Abbreviation ucmp := (cmp_Compare c).

(** The parts of a key, when its tag has the right form and it is not too new. *)
Definition parsed (k : bytes) : option ParsedInternalKey := match ParseInternalKey k with Ret (true, p) => p | _ => None end.
Definition relevant (k : bytes) : option ParsedInternalKey := p ← parsed k; if sequence p <=? snapshot then Some p else None.

(** [v] is the newest value of [u] at the snapshot: no relevant entry of the user key
    comes before it, and it is not a deletion. *)
Definition newest (es : list entry) (u v : bytes) : Prop :=
  exists pre k post p, es = pre ++ (k, v) :: post /\ relevant k = Some p /\ type p = kTypeValue /\ user_key p = u /\
    forall k' v' p', (k', v') ∈ pre -> relevant k' = Some p' -> ucmp (user_key p') u <> 0.

(** The entries a reader sees, given the user key up to which entries are hidden. *)
Definition hidden (h : option bytes) (u : bytes) : bool := match h with Some x => ucmp u x <=? 0 | None => false end.

Fixpoint visible (h : option bytes) (es : list entry) : list entry :=
  match es with
  | [] => []
  | (k, v) :: es' =>
      match relevant k with
      | None => visible h es'
      | Some p =>
          if type p =? kTypeDeletion then visible (Some (user_key p)) es'
          else if hidden h (user_key p) then visible h es' else (user_key p, v) :: visible (Some (user_key p)) es'
      end
  end.

Fixpoint after (h : option bytes) (es : list entry) : option bytes :=
  match es with
  | [] => h
  | (k, v) :: es' =>
      match relevant k with
      | None => after h es'
      | Some p => if (type p =? kTypeDeletion) || negb (hidden h (user_key p)) then after (Some (user_key p)) es' else after h es'
      end
  end.

Lemma visible_app h a b : visible h (a ++ b) = visible h a ++ visible (after h a) b.
Proof.
  revert h. induction a as [|[k v] a IH]; intros h; [done|]. cbn [app visible after]. destruct (relevant k) as [p|]; [|apply IH].
  destruct (type p =? kTypeDeletion); [apply IH|]. cbn [orb]. destruct (hidden h (user_key p)); cbn [negb]; [apply IH|]. by rewrite IH.
Qed.

Lemma after_app h a b : after h (a ++ b) = after (after h a) b.
Proof.
  revert h. induction a as [|[k v] a IH]; intros h; [done|]. cbn [app after]. destruct (relevant k) as [p|]; [|apply IH].
  destruct (_ || _); apply IH.
Qed.

Lemma parsed_good k p : parsed k = Some p -> internal_good k /\ ExtractUserKey k = Ret (user_key p) /\ (type p = kTypeDeletion \/ type p = kTypeValue).
Proof.
  unfold parsed, ParseInternalKey. destruct (Nat.ltb_spec (length k) 8) as [|Hl]; [done|]. destruct (internal_key_split k Hl) as (uk & w & -> & Hw).
  destruct (user_tag_split uk w Hw) as [-> ->]. rewrite decode_fixed64_le, extract_user_key_app by done. run.
  destruct (Z.leb_spec (Z.land (le_combine w) 0xff) kTypeValue) as [Ht|]; [|done]. intros [= <-]. cbn [user_key type]. split_and!; [done|done|].
  assert (0 <= Z.land (le_combine w) 0xff) by (apply Z.land_nonneg; lia). unfold kTypeValue, kTypeDeletion in *. lia.
Qed.

(** Irrelevant entries change nothing. *)
Definition irrelevant (es : list entry) : Prop := Forall (fun e => relevant e.1 = None) es.

Lemma visible_irrelevant h a b : irrelevant a -> visible h (a ++ b) = visible h b /\ after h (a ++ b) = after h b.
Proof. induction 1 as [|[k v] a Hk _ IH]; [done|]. cbn in Hk. cbn [app visible after]. rewrite Hk. apply IH. Qed.

(** Whoever is hidden, everything relevant in front of it was, up to its key. *)
Lemma after_elem h es z : after h es = Some z -> h = Some z \/ exists k v p, (k, v) ∈ es /\ relevant k = Some p /\ user_key p = z.
Proof.
  revert h. induction es as [|[k v] es IH]; intros h E; [by left|]. cbn [after] in E.
  assert (forall h', after h' es = Some z -> h' = Some z \/ exists k' v' p, (k', v') ∈ (k, v) :: es /\ relevant k' = Some p /\ user_key p = z) as IH'.
  { intros h' E'. destruct (IH h' E') as [|(k' & v' & p & Hin & Hp)]; [by left|]. right. exists k', v', p. split; [by right|done]. }
  destruct (relevant k) as [p|] eqn:Ek; [|by apply IH']. destruct (_ || _); [|by apply IH'].
  destruct (IH' _ E) as [[= <-]|]; right; [|done]. exists k, v, p. split; [by left|done].
Qed.

Lemma visible_elem h es u v : (u, v) ∈ visible h es -> exists k p, (k, v) ∈ es /\ relevant k = Some p /\ user_key p = u.
Proof.
  revert h. induction es as [|[k w] es IH]; intros h Hin; [by apply not_elem_of_nil in Hin|]. cbn [visible] in Hin.
  assert (forall h', (u, v) ∈ visible h' es -> exists k' p, (k', v) ∈ (k, w) :: es /\ relevant k' = Some p /\ user_key p = u) as IH'.
  { intros h' H'. destruct (IH h' H') as (k' & p & Hk & Hp). exists k', p. split; [by right|done]. }
  destruct (relevant k) as [p|] eqn:Ek; [|by eapply IH']. destruct (type p =? kTypeDeletion); [by eapply IH'|].
  destruct (hidden h (user_key p)); [by eapply IH'|]. apply elem_of_cons in Hin as [[= -> ->]|Hin]; [|by eapply IH']. exists k, p. split; [by left|done].
Qed.

(** User keys in order, as the internal order has them. *)
Definition user_sorted (es : list entry) : Prop := StronglySorted (fun e f => ucmp (ukey e.1) (ukey f.1) <= 0) es.

Lemma relevant_spec k p : relevant k = Some p -> parsed k = Some p /\ sequence p <= snapshot /\ user_key p = ukey k /\ (type p = kTypeDeletion \/ type p = kTypeValue).
Proof.
  unfold relevant. destruct (parsed k) as [q|] eqn:E; [|done]. cbn. destruct (Z.leb_spec (sequence q) snapshot) as [Hs|]; [|done]. intros [= <-].
  destruct (parsed_good k q E) as (Hg & Hu & Ht). split_and!; [done|done| |done]. unfold ExtractUserKey in Hu. unfold internal_good in Hg.
  rewrite (proj2 (Nat.leb_le _ _)) in Hu by done. by injection Hu as <-.
Qed.

Lemma relevant_ukey k p : relevant k = Some p -> user_key p = ukey k.
Proof. intros E. by destruct (relevant_spec k p E) as (_ & _ & -> & _). Qed.

Lemma relevant_value k p : relevant k = Some p -> (type p =? kTypeDeletion) = false -> type p = kTypeValue.
Proof. intros E Ht%Z.eqb_neq. destruct (relevant_spec k p E) as (_ & _ & _ & [|]); done. Qed.

Lemma user_sorted_app a b : user_sorted (a ++ b) -> user_sorted a /\ user_sorted b /\ forall e f, e ∈ a -> f ∈ b -> ucmp (ukey e.1) (ukey f.1) <= 0.
Proof.
  intros Hs. split_and!; [by apply StronglySorted_app_1_l in Hs|by apply StronglySorted_app_1_r in Hs|]. intros e f He Hf.
  by eapply (StronglySorted_app_1_elem_of (fun e f => ucmp (ukey e.1) (ukey f.1) <= 0)).
Qed.

Lemma hidden_le h u u' : ucmp u u' <= 0 -> hidden h u' = true -> hidden h u = true.
Proof. destruct h as [x|]; [|done]. cbn. rewrite !Z.leb_le. apply cmp_trans. Qed.

(** Everything relevant hides its user key from what comes after it. *)
Lemma after_covers h es k v p : user_sorted es -> (k, v) ∈ es -> relevant k = Some p -> hidden (after h es) (user_key p) = true.
Proof.
  revert k v p. induction es as [|[ky vy] es IH] using rev_ind; intros k v p Hs Hin Hp; [by apply not_elem_of_nil in Hin|]. rewrite after_app. cbn [after].
  apply user_sorted_app in Hs as (Hs & _ & Hle). apply elem_of_app in Hin as [Hin|Hin].
  - pose proof (IH k v p Hs Hin Hp) as Hh. destruct (relevant ky) as [q|] eqn:Eq; [|done]. destruct (_ || _); [|done]. cbn. apply Z.leb_le.
    specialize (Hle (k, v) (ky, vy) Hin ltac:(by apply list_elem_of_singleton)). by rewrite (relevant_ukey k p Hp), (relevant_ukey ky q Eq).
  - apply list_elem_of_singleton in Hin as [= -> ->]. rewrite Hp. destruct (hidden (after h es) (user_key p)) eqn:Eh; cbn [negb].
    + rewrite orb_false_r. destruct (_ =? _); [|done]. cbn. rewrite cmp_refl by done. done.
    + rewrite orb_true_r. cbn. by rewrite cmp_refl by done.
Qed.

Lemma visible_equal a b es : ucmp a b = 0 -> visible (Some a) es = visible (Some b) es.
Proof.
  intros E. assert (forall u, hidden (Some a) u = hidden (Some b) u) as Hh.
  { intros u. apply eq_iff_eq_true. cbn. rewrite !Z.leb_le. pose proof (cmp_antisym a b). split; intros Hu; eapply cmp_trans; try exact Hu; lia. }
  induction es as [|[k v] es IH]; [done|]. cbn [visible]. destruct (relevant k) as [p|]; [|done]. destruct (_ =? _); [done|]. rewrite Hh. by destruct (hidden _ _).
Qed.

(** A bound that hides nothing is no bound. *)
Lemma visible_unhidden g es : (forall k v p, (k, v) ∈ es -> relevant k = Some p -> hidden g (user_key p) = false) ->
  visible g es = visible None es /\ (after g es = after None es \/ irrelevant es).
Proof.
  induction es as [|[k v] es IH]; intros Hg; [split; [done|right; constructor]|]. cbn [visible after]. destruct (relevant k) as [p|] eqn:Ek.
  - rewrite (Hg k v p ltac:(by left) Ek). cbn [hidden negb]. rewrite !orb_true_r. destruct (_ =? _); auto.
  - destruct IH as [-> IH]; [intros k' v' p' Hin; apply (Hg k' v' p'); by right|]. split; [done|]. destruct IH as [|IH]; [by left|right]. by constructor.
Qed.

(** What is seen comes in order, above what hides. *)
Lemma visible_sorted h es : user_sorted es -> (forall x k v p, h = Some x -> (k, v) ∈ es -> relevant k = Some p -> ucmp x (user_key p) <= 0) ->
  StronglySorted (fun e f => ucmp e.1 f.1 < 0) (visible h es) /\ Forall (fun e => hidden h e.1 = false) (visible h es).
Proof.
  revert h. induction es as [|[k v] es IH]; intros h Hs Hh; [split; constructor|]. apply StronglySorted_inv in Hs as [Hs Hle]. cbn [visible].
  assert (forall x k' v' p', h = Some x -> (k', v') ∈ es -> relevant k' = Some p' -> ucmp x (user_key p') <= 0) as Hh' by (intros x k' v' p' E Hin; apply (Hh x k' v' p' E); by right).
  destruct (relevant k) as [p|] eqn:Ek; [|by apply IH]. pose proof (relevant_ukey k p Ek) as Eu.
  destruct (IH (Some (user_key p)) Hs) as [Hs1 Hf1].
  { intros x k' v' p' [= <-] Hin Ep'. rewrite Eu, (relevant_ukey k' p' Ep'). by apply (proj1 (Forall_forall _ _) Hle (k', v')). }
  assert (forall u, hidden (Some (user_key p)) u = false -> ucmp (user_key p) u < 0) as Hlt.
  { intros u Hu%Z.leb_gt. pose proof (cmp_antisym (user_key p) u). lia. }
  destruct (type p =? kTypeDeletion).
  - split; [done|]. eapply Forall_impl; [exact Hf1|]. intros e He. apply not_true_iff_false. intros Hx. destruct h as [x|]; [|done]. apply Z.leb_le in Hx.
    specialize (Hh x k v p eq_refl ltac:(by left) Ek). specialize (Hlt _ He). pose proof (cmp_lt_le c (user_key p) e.1 x Hlt Hx). pose proof (cmp_antisym x (user_key p)). lia.
  - destruct (hidden h (user_key p)) eqn:Ehid; [by apply IH|]. split.
    + constructor; [done|]. eapply Forall_impl; [exact Hf1|]. intros e He. by apply Hlt.
    + constructor; [done|]. eapply Forall_impl; [exact Hf1|]. intros e He. apply not_true_iff_false. intros Hx.
      apply (hidden_le h (user_key p)) in Hx; [congruence|]. specialize (Hlt _ He). lia.
Qed.

Lemma visible_found h es u v : (u, v) ∈ visible h es ->
  exists pre k post p, es = pre ++ (k, v) :: post /\ relevant k = Some p /\ type p = kTypeValue /\ user_key p = u /\ hidden (after h pre) u = false.
Proof.
  revert h. induction es as [|[k w] es IH]; intros h Hin; [by apply not_elem_of_nil in Hin|]. cbn [visible] in Hin.
  assert (forall h', (u, v) ∈ visible h' es -> after h [(k, w)] = h' -> exists pre k' post p, (k, w) :: es = pre ++ (k', v) :: post /\
    relevant k' = Some p /\ type p = kTypeValue /\ user_key p = u /\ hidden (after h pre) u = false) as IH'.
  { intros h' H' Ha. destruct (IH h' H') as (pre & k' & post & p & -> & H1 & H2 & H3 & H4). exists ((k, w) :: pre), k', post, p. split_and!; [done..|].
    change ((k, w) :: pre) with ([(k, w)] ++ pre). by rewrite after_app, Ha. }
  cbn [after] in IH'. destruct (relevant k) as [p|] eqn:Ek; [|by eapply IH']. destruct (type p =? kTypeDeletion) eqn:Et; [by eapply IH'|]. cbn [orb] in IH'.
  destruct (hidden h (user_key p)) eqn:Eh; [by eapply IH'|]. apply elem_of_cons in Hin as [[= -> ->]|Hin]; [|by eapply IH'].
  exists [], k, es, p. split_and!; [done|done|by eapply relevant_value|done|done].
Qed.

(** The reader sees the newest value of every user key that is not deleted. *)
Lemma visible_newest es u v : user_sorted es -> (u, v) ∈ visible None es <-> newest es u v.
Proof.
  intros Hs. split.
  - intros (pre & k & post & p & -> & Hk & Ht & Hu & Hh)%visible_found. exists pre, k, post, p. split_and!; [done..|]. intros k' v' p' Hin Hp' E.
    apply user_sorted_app in Hs as (Hs & _ & _). pose proof (after_covers None pre k' v' p' Hs Hin Hp') as Hc.
    apply (hidden_le _ u) in Hc; [congruence|]. pose proof (cmp_antisym (user_key p') u). lia.
  - intros (pre & k & post & p & -> & Hk & Ht & Hu & Hn). rewrite visible_app. apply elem_of_app. right. cbn [visible]. rewrite Hk, Ht. cbn [Z.eqb kTypeValue kTypeDeletion].
    destruct (hidden (after None pre) (user_key p)) eqn:Eh; [|rewrite Hu; by left]. exfalso. destruct (after None pre) as [z|] eqn:Ez; [|done].
    destruct (after_elem None pre z Ez) as [|(k' & v' & p' & Hin & Hp' & <-)]; [done|]. apply (Hn k' v' p' Hin Hp'). apply Z.leb_le in Eh.
    apply user_sorted_app in Hs as (_ & _ & Hle). specialize (Hle (k', v') (k, v) Hin ltac:(by left)). cbn [fst] in Hle.
    rewrite <- (relevant_ukey k p Hk), <- (relevant_ukey k' p' Hp') in Hle. rewrite Hu in *.
    pose proof (cmp_antisym u (user_key p')). lia.
Qed.
End Visible.

(** ** The iterator shows what a reader sees *)

Section Iterating.
Context {W I : Type} `{IterView I} `{IterMoves W I} (c : Comparator) `{!ComparatorLaws c} (snapshot : Z) (Hsnap : 0 <= snapshot <= kMaxSequenceNumber).
(** The internal keys in use, and the user keys that a client seeks. *)
Context (ok uok : bytes -> Prop) (Hgood : forall k, ok k -> internal_good k) (Huok : forall u, uok u -> ok (ikey u snapshot kValueTypeForSeek)) `{!KeyOrder ok (internal_ord c)}.
Context {good : W -> Prop} {at_ : list entry -> nat -> I -> Prop} `{!IteratorLaws ok (internal_ord c) good at_}.
Context (es : list entry) (Hasc : ascending ok (internal_ord c) es) (fuel : nat) (Hfuel : (length es < fuel)%nat).

Abbreviation ucmp := (cmp_Compare c).
Abbreviation visible := (visible c snapshot).
Abbreviation after := (after c snapshot).
Abbreviation relevant := (relevant snapshot).
Abbreviation irrelevant := (irrelevant snapshot).
Abbreviation hidden := (hidden c).
Abbreviation us := (visible None es).

Lemma es_user_sorted : user_sorted c es.
Proof.
  destruct Hasc as [Hok Hs]. unfold user_sorted. clear Hasc Hfuel. induction Hs as [|e es Hs IH Hle]; [constructor|]. apply Forall_cons in Hok as [He%Hgood Hok].
  constructor; [by apply IH|]. apply Forall_forall. intros f Hf. pose proof (proj1 (Forall_forall _ _) Hle f Hf) as Hlt. cbn in Hlt.
  assert (internal_good f.1) as Hgf by (apply Hgood, (proj1 (Forall_forall _ _) Hok); by apply list_elem_of_fmap_2).
  destruct (internal_ord_split c e.1 f.1 He Hgf) as (? & ? & ? & ? & _ & E & <- & <- & <- & <-). rewrite E in Hlt. unfold icmp in Hlt.
  fold (ukey e.1) (ukey f.1) in Hlt. destruct (Z.eqb_spec (ucmp (ukey e.1) (ukey f.1)) 0); lia.
Qed.

(** A call that only reads the internal iterator. *)
Definition keeps (d d' : DBI.DBIter I) : Prop :=
  DBI.iter_ d' = DBI.iter_ d /\ DBI.saved_key_ d' = DBI.saved_key_ d /\ DBI.saved_value_ d' = DBI.saved_value_ d /\
  DBI.direction_ d' = DBI.direction_ d /\ DBI.valid_ d' = DBI.valid_ d.

Lemma parse_key p k v d : at_ es p (DBI.iter_ d) -> es !! p = Some (k, v) -> Random.good (DBI.rnd_ d) ->
  exists d', DBI.ParseKey d = Ret (parsed k, d') /\ keeps d d' /\ Random.good (DBI.rnd_ d').
Proof.
  intros Hit He Hr. unfold DBI.ParseKey. destruct (il_entry _ _ _ _ Hit He) as [-> ->]. run. cbn [fst snd].
  set (counter := DBI.bytes_counter_ d - _). destruct (sample_spec (Z.to_nat (- counter)) k counter (DBI.rnd_ d) (DBI.samples d)) as (counter' & rnd' & smp' & -> & Hr'); [lia|done|]. run.
  pose proof (Hgood _ (ascending_lookup_ok _ _ _ Hasc He)) as Hg. unfold parsed, ParseInternalKey. unfold internal_good in Hg. cbn [fst] in Hg.
  rewrite (proj2 (Nat.ltb_ge _ _)) by done. destruct (internal_key_split k Hg) as (uk & w & -> & Hw). destruct (user_tag_split uk w Hw) as [-> ->].
  rewrite decode_fixed64_le by done. run. destruct (_ <=? _); [|unfold Corruption; run]; eexists; (split; [reflexivity|]); by split_and!.
Qed.

Lemma iter_move op p p' d s : at_ es p (DBI.iter_ d) -> good s -> seeks_ok ok op -> cursor_op (internal_ord c) es op p = Ret p' ->
  exists it s', DBI.move_iter op d s = Ret (DBI.set_iter d it, s') /\ at_ es p' it /\ good s'.
Proof.
  intros Hit Hs Hop Hc. unfold DBI.move_iter. destruct (il_move es p _ s op Hit Hs Hop) as [(p2 & it & s' & E & -> & Hit' & Hs')|[E _]]; [|congruence].
  rewrite Hc in E. injection E as <-. run. eauto.
Qed.

Lemma drop_entry p e : es !! p = Some e -> drop p es = e :: drop (S p) es.
Proof. intros He. by apply drop_S. Qed.

(** The result of a forward search from [p]: an entry that is not hidden, or the end. *)
Definition found (h : option bytes) (p : nat) (d : DBI.DBIter I) : Prop :=
  DBI.valid_ d = false /\ visible h (drop p es) = [] /\ (exists q, at_ es q (DBI.iter_ d)) \/
  DBI.valid_ d = true /\ exists mid k v post pk, drop p es = mid ++ (k, v) :: post /\ at_ es (p + length mid) (DBI.iter_ d) /\
    relevant k = Some pk /\ type pk = kTypeValue /\ visible h mid = [] /\ hidden (after h mid) (user_key pk) = false.

(** Going past an entry that changes the bound from [h] to [h']. *)
Lemma found_step h h' p e d : es !! p = Some e -> (forall l, visible h (e :: l) = visible h' l /\ after h (e :: l) = after h' l) -> found h' (S p) d -> found h p d.
Proof.
  intros He Hh [(Hv & Hn & Hit)|(Hv & mid & k & v & post & pk & Hd & Hit & Hk & Ht & Hm & Hu)]; [left|right]; (split; [done|]).
  - rewrite (drop_entry p e He). by rewrite (proj1 (Hh _)).
  - exists (e :: mid), k, v, post, pk. rewrite (drop_entry p e He), Hd. cbn [length]. rewrite Nat.add_succ_r. destruct (Hh mid) as [-> ->]. by split_and!.
Qed.

(** The end of a round that goes on: [loop] is the search from the next entry. *)
Lemma next_step loop h h' p e (d : DBI.DBIter I) s : es !! p = Some e -> at_ es p (DBI.iter_ d) -> good s -> Random.good (DBI.rnd_ d) ->
  (forall l, visible h (e :: l) = visible h' l /\ after h (e :: l) = after h' l) ->
  (forall it s, at_ es (S p) it -> (S p < length es)%nat -> good s -> exists d' s', loop (DBI.set_iter d it) s = Ret (d', s') /\ good s' /\ Random.good (DBI.rnd_ d') /\
     DBI.direction_ d' = DBI.direction_ d /\ found h' (S p) d') ->
  exists d' s', ('(d, s) ← DBI.move_iter OpNext d s; if it_Valid (I := I) (DBI.iter_ d) then loop d s else Ret (DBI.set_valid (DBI.clear_key d) false, s)) = Ret (d', s') /\
    good s' /\ Random.good (DBI.rnd_ d') /\ DBI.direction_ d' = DBI.direction_ d /\ found h p d'.
Proof.
  intros He Hit Hs Hr Hh Hloop. pose proof (lookup_lt_Some _ _ _ He) as Hp. destruct (iter_move OpNext p (S p) d s Hit Hs Logic.I) as (it & s2 & -> & Hit2 & Hs2).
  { unfold cursor_op. by rewrite (proj2 (Nat.ltb_lt _ _)) by done. }
  run. cbn [DBI.iter_ DBI.set_iter]. rewrite (il_valid _ _ _ Hit2). destruct (Nat.ltb_spec (S p) (length es)) as [Hlt|Hge].
  - destruct (Hloop it s2 Hit2 Hlt Hs2) as (d' & s' & -> & Hs' & Hr' & Hd' & Hf). exists d', s'. split_and!; [done..|]. by apply (found_step h h' p e d' He Hh).
  - eexists _, s2. split; [reflexivity|]. split_and!; [done|done|done|]. apply (found_step h h' p e _ He Hh). left. cbn. split; [done|]. rewrite drop_ge by done. eauto.
Qed.

Lemma find_next_spec n skipping d s p : at_ es p (DBI.iter_ d) -> (p < length es)%nat -> (length es - p <= n)%nat -> good s -> Random.good (DBI.rnd_ d) ->
  exists d' s', DBI.find_next c snapshot n skipping d s = Ret (d', s') /\ good s' /\ Random.good (DBI.rnd_ d') /\ DBI.direction_ d' = DBI.direction_ d /\
    found (if skipping then Some (DBI.saved_key_ d) else None) p d'.
Proof.
  revert skipping d s p. induction n as [|n IH]; intros skipping d s p Hit Hp Hn Hs Hr; [lia|]. destruct (lookup_lt_is_Some_2 _ _ Hp) as [[k v] He]. cbn [DBI.find_next].
  destruct (parse_key p k v d Hit He Hr) as (d1 & -> & (K1 & K2 & K3 & K4 & K5) & Hr1). run.
  set (h := if skipping then _ else _). cbv zeta.
  assert (forall (skipping' : bool) (d2 : DBI.DBIter I), DBI.iter_ d2 = DBI.iter_ d -> DBI.direction_ d2 = DBI.direction_ d -> Random.good (DBI.rnd_ d2) ->
    (forall l, visible h ((k, v) :: l) = visible (if skipping' then Some (DBI.saved_key_ d2) else None) l /\
       after h ((k, v) :: l) = after (if skipping' then Some (DBI.saved_key_ d2) else None) l) ->
    exists d' s', ('(d, s) ← DBI.move_iter OpNext d2 s; if it_Valid (I := I) (DBI.iter_ d) then DBI.find_next c snapshot n skipping' d s else Ret (DBI.set_valid (DBI.clear_key d) false, s)) = Ret (d', s') /\
      good s' /\ Random.good (DBI.rnd_ d') /\ DBI.direction_ d' = DBI.direction_ d /\ found h p d') as Hnext.
  { intros sk d2 Ei Ed Hr2 Hh. rewrite <- Ed. apply (next_step (DBI.find_next c snapshot n sk) h (if sk then Some (DBI.saved_key_ d2) else None) p (k, v) d2 s); [done|by rewrite Ei|done|done|done|]. intros it s' Hit' Hlt' Hs'. exact (IH sk (DBI.set_iter d2 it) s' (S p) Hit' Hlt' ltac:(lia) Hs' Hr2). }
  unfold DbIter.visible, DbIter.after in Hnext. unfold DbIter.relevant. destruct (parsed k) as [pk|] eqn:Epk.
  2:{ apply Hnext; [done|done|done|]. intros l. cbn. unfold DbIter.relevant. rewrite Epk. cbn. rewrite K2. done. }
  destruct (Z.leb_spec (sequence pk) snapshot) as [Hle|Hgt].
  2:{ apply Hnext; [done|done|done|]. intros l. cbn. unfold DbIter.relevant. rewrite Epk. cbn. rewrite (proj2 (Z.leb_gt _ _)) by done. rewrite K2. done. }
  assert (relevant k = Some pk) as Erel by (unfold DbIter.relevant; rewrite Epk; cbn; by rewrite (proj2 (Z.leb_le _ _))).
  destruct (type pk =? kTypeDeletion) eqn:Etd.
  { apply Hnext; [done|done|done|]. intros l. cbn. rewrite Erel, Etd. done. }
  pose proof (relevant_value snapshot k pk Erel Etd) as Etv. rewrite Etv. change (kTypeValue =? kTypeValue) with true. cbn match.
  assert (hidden h (user_key pk) = skipping && (ucmp (user_key pk) (DBI.saved_key_ d1) <=? 0)) as Eh by (unfold h; rewrite K2; by destruct skipping).
  rewrite <- Eh. destruct (hidden h (user_key pk)) eqn:Ehid.
  - apply Hnext; [done|done|done|]. intros l. cbn. rewrite Erel, Etd, Ehid. cbn. unfold h. by rewrite K2.
  - eexists _, s. split; [reflexivity|]. split_and!; [done|done|done|]. right. split; [done|]. exists [], k, v, (drop (S p) es), pk.
    cbn. rewrite Nat.add_0_r, K1. split_and!; try done. by apply drop_entry.
Qed.

(** An entry that the reader sees, after [pre] and entries that do not matter. *)
Record shown (pre : list entry) (k v : bytes) (pk : ParsedInternalKey) : Prop := {
  sh_relevant : relevant k = Some pk;
  sh_value : type pk = kTypeValue;
  sh_seen : hidden (after None pre) (user_key pk) = false;
}.

Lemma value_not_deletion pk : type pk = kTypeValue -> (type pk =? kTypeDeletion) = false.
Proof. by intros ->. Qed.

Lemma visible_shown pre irr k v pk l : shown pre k v pk -> irrelevant irr ->
  visible None (pre ++ irr ++ (k, v) :: l) = visible None pre ++ (user_key pk, v) :: visible (Some (user_key pk)) l /\
  after None (pre ++ irr ++ (k, v) :: l) = after (Some (user_key pk)) l.
Proof.
  intros [Hk Ht Hh] Hirr. rewrite visible_app, after_app. destruct (visible_irrelevant c snapshot (after None pre) irr ((k, v) :: l) Hirr) as [-> ->].
  cbn. rewrite Hk, (value_not_deletion pk Ht), Hh. done.
Qed.

(** The entry hides itself when it is the bound. *)
Lemma visible_self irr k v pk pre l : shown pre k v pk -> irrelevant irr ->
  visible (Some (user_key pk)) (irr ++ (k, v) :: l) = visible (Some (user_key pk)) l /\ after (Some (user_key pk)) (irr ++ (k, v) :: l) = after (Some (user_key pk)) l.
Proof.
  intros [Hk Ht Hh] Hirr. destruct (visible_irrelevant c snapshot (Some (user_key pk)) irr ((k, v) :: l) Hirr) as [-> ->].
  cbn. rewrite Hk, (value_not_deletion pk Ht), cmp_refl by done. done.
Qed.

(** The internal iterator is at the entry that is shown. *)
Definition forward_at (n : nat) (d : DBI.DBIter I) : Prop :=
  exists pre k v post pk, es = pre ++ (k, v) :: post /\ shown pre k v pk /\ at_ es (length pre) (DBI.iter_ d) /\ n = length (visible None pre).

(** The internal iterator is before the entry that is shown, and before entries that do
    not matter; [before] is where an iterator is that has just passed [length A]. *)
Definition before (A : list entry) : nat := match length A with O => length es | S m => m end.

Definition backward_at (n : nat) (d : DBI.DBIter I) : Prop :=
  exists A irr k v post pk, es = A ++ irr ++ (k, v) :: post /\ irrelevant irr /\ shown A k v pk /\ at_ es (before A) (DBI.iter_ d) /\
    n = length (visible None A) /\ DBI.saved_key_ d = user_key pk /\ DBI.saved_value_ d = v.

(** The iterator is at position [n] of what the reader sees. *)
Definition db_at (n : nat) (d : DBI.DBIter I) : Prop :=
  Random.good (DBI.rnd_ d) /\
  (DBI.valid_ d = false /\ n = length us /\ (exists p, at_ es p (DBI.iter_ d)) \/
   DBI.valid_ d = true /\ DBI.direction_ d = kForward /\ forward_at n d \/
   DBI.valid_ d = true /\ DBI.direction_ d = kReverse /\ backward_at n d).

Lemma lookup_shown pre irr k v pk post : es = pre ++ irr ++ (k, v) :: post -> irrelevant irr -> shown pre k v pk ->
  us !! length (visible None pre) = Some (user_key pk, v).
Proof. intros E Hirr Hsh. rewrite E, (proj1 (visible_shown pre irr k v pk post Hsh Hirr)), lookup_app_r, Nat.sub_diag by lia. done. Qed.

(** A forward search from the end of [a] with the bound [h] that ends at position [m]. *)
Definition starts (a : list entry) (h : option bytes) (m : nat) : Prop :=
  exists b, es = a ++ b /\ (visible h b = [] -> m = length us) /\
    forall (mid : list entry) (k v : bytes) post pk, b = mid ++ (k, v) :: post -> relevant k = Some pk -> type pk = kTypeValue -> visible h mid = [] -> hidden (after h mid) (user_key pk) = false ->
      hidden (after None (a ++ mid)) (user_key pk) = false /\ length (visible None (a ++ mid)) = m.

Lemma find_next_entry a h m (skipping : bool) (d : DBI.DBIter I) s : starts a h m -> h = (if skipping then Some (DBI.saved_key_ d) else None) ->
  at_ es (length a) (DBI.iter_ d) -> (length a < length es)%nat -> DBI.direction_ d = kForward -> good s -> Random.good (DBI.rnd_ d) ->
  exists d' s', DBI.FindNextUserEntry c snapshot fuel skipping d s = Ret (d', s') /\ db_at m d' /\ good s'.
Proof.
  intros (b & E & Hend & Hst) Eh Hit Hlt Hd Hs Hr. unfold DBI.FindNextUserEntry. rewrite (il_valid _ _ _ Hit), (proj2 (Nat.ltb_lt _ _)), Hd by done.
  rewrite bool_decide_eq_true_2 by done. destruct (find_next_spec fuel skipping d s (length a)) as (d' & s' & -> & Hs' & Hr' & Hd' & Hf); [done|done|lia|done|done|].
  exists d', s'. split_and!; [done| |done]. split; [done|]. rewrite <- Eh in Hf. unfold found in Hf. assert (drop (length a) es = b) as Eb by (by rewrite E, drop_app_length). rewrite Eb in Hf.
  destruct Hf as [(Hv & Hn & Hq)|(Hv & mid & k & v & post & pk & Ed & Hq & Hk & Ht & Hm & Hu)]; [left; auto|right; left].
  destruct (Hst mid k v post pk Ed Hk Ht Hm Hu) as [Hh Hl]. split_and!; [done|by rewrite Hd'|]. exists (a ++ mid), k, v, post, pk.
  split_and!; [by rewrite E, Ed, app_assoc|done|by rewrite length_app|done].
Qed.

Lemma starts_first : starts [] None 0.
Proof. exists es. split_and!; [done|by intros ->|]. intros mid k v post pk _ _ _ Hm Hu. cbn [app]. by rewrite Hm. Qed.

(** A relevant entry is not among irrelevant ones. *)
Lemma skip_irrelevant irr e post mid e' post' : irrelevant irr -> irr ++ e :: post = mid ++ e' :: post' -> relevant e'.1 <> None ->
  mid = irr /\ e = e' \/ exists mid', mid = irr ++ e :: mid'.
Proof.
  intros Hirr. revert mid. induction Hirr as [|x irr Hx _ IH]; intros [|y mid] E Hr; injection E as -> E.
  - by left.
  - right. by exists mid.
  - done.
  - destruct (IH mid E Hr) as [[-> ->]|[mid' ->]]; [by left|right]. by exists mid'.
Qed.

Lemma starts_next A irr k v pk post : es = A ++ irr ++ (k, v) :: post -> irrelevant irr -> shown A k v pk ->
  starts A (Some (user_key pk)) (S (length (visible None A))).
Proof.
  intros E Hirr Hsh. exists (irr ++ (k, v) :: post). split_and!; [done| |].
  - rewrite (proj1 (visible_self irr k v pk A post Hsh Hirr)). intros Hn. rewrite E, (proj1 (visible_shown A irr k v pk post Hsh Hirr)), Hn, length_app. cbn. lia.
  - intros mid k' v' post' pk' Eb Hk' Ht' Hm Hu.
    destruct (skip_irrelevant irr (k, v) post mid (k', v') post' Hirr Eb) as [[-> [= -> ->]]|[mid' ->]]; [cbn; congruence| |].
    { rewrite (sh_relevant _ _ _ _ Hsh) in Hk'. injection Hk' as <-. rewrite <- (app_nil_r irr), (proj2 (visible_irrelevant c snapshot _ irr [] Hirr)) in Hu. cbn in Hu. by rewrite cmp_refl in Hu. }
    destruct (visible_self irr k v pk A mid' Hsh Hirr) as [Ev Ea]. rewrite Ev in Hm. rewrite Ea in Hu.
    destruct (visible_shown A irr k v pk mid' Hsh Hirr) as [-> ->]. rewrite Hm. split; [done|]. rewrite length_app. cbn. lia.
Qed.

(** ** Seeks *)

Abbreviation seek_key target := (ikey target snapshot kValueTypeForSeek).

Lemma seek_tag : valid_tag snapshot kValueTypeForSeek.
Proof. split; [done|by right]. Qed.

Lemma seek_key_good target : internal_good (seek_key target).
Proof. unfold internal_good, ikey. rewrite length_app, le_split_length. lia. Qed.

Lemma relevant_tag k p : relevant k = Some p -> le_combine (tag_bytes k) <= tag snapshot kValueTypeForSeek.
Proof.
  intros Hp. destruct (relevant_spec snapshot k p Hp) as (E & Hs & _ & _). destruct (parsed_good k p E) as (Hg & _ & _). unfold parsed, ParseInternalKey in E. unfold internal_good in Hg.
  rewrite (proj2 (Nat.ltb_ge _ _)) in E by done. destruct (internal_key_split k Hg) as (uk & w & -> & Hw). destruct (user_tag_split uk w Hw) as [_ Ew]. rewrite Ew in *.
  rewrite decode_fixed64_le in E by done. cbn [mbind outcome_bind] in E. destruct (Z.leb_spec (Z.land (le_combine w) 0xff) kTypeValue) as [Hc|]; [|done]. injection E as <-. cbn in Hs.
  rewrite Z.shiftr_div_pow2 in Hs by lia. change 0xff with (Z.ones 8) in Hc. rewrite Z.land_ones in Hc by lia. change (2 ^ 8) with 256 in *.
  pose proof (Z.div_mod (le_combine w) 256 ltac:(lia)). unfold tag, kValueTypeForSeek, kTypeValue in *. lia.
Qed.

(** Seeking splits the relevant entries at the user key. *)
Lemma seek_side target i k v p : uok target -> es !! i = Some (k, v) -> relevant k = Some p ->
  (i < rank (internal_ord c) (seek_key target) es)%nat <-> ucmp (user_key p) target < 0.
Proof.
  intros Hu Hi Hp. rewrite <- (rank_below (seek_key target) es i (k, v) Hasc (Huok target Hu) Hi). unfold Order.below. cbn [fst].
  pose proof (Hgood _ (ascending_lookup_ok _ _ _ Hasc Hi)) as Hg. pose proof (relevant_tag k p Hp) as Htag. rewrite (relevant_ukey snapshot k p Hp).
  destruct (internal_ord_split c k (seek_key target) Hg (seek_key_good target)) as (? & ? & ? & ? & _ & -> & <- & <- & <- & <-). fold (ukey k).
  unfold ikey. destruct (user_tag_split target (le_split 8 (tag snapshot kValueTypeForSeek)) ltac:(apply le_split_length)) as [-> ->].
  rewrite le64_roundtrip by (apply valid_tag_range, seek_tag). unfold icmp. destruct (Z.eqb_spec (ucmp (ukey k) target) 0) as [->|]; [|done].
  rewrite (proj2 (Z.ltb_ge _ _)) by done. destruct (_ <? _); lia.
Qed.

Lemma starts_seek target : uok target -> starts (take (rank (internal_ord c) (seek_key target) es) es) None (rank ucmp target us).
Proof.
  intros Hut. set (p := rank (internal_ord c) (seek_key target) es). set (a := take p es). set (b := drop p es). assert (es = a ++ b) as E by (symmetry; apply take_drop).
  assert (forall k v pk, (k, v) ∈ a -> relevant k = Some pk -> ucmp (user_key pk) target < 0) as Ha.
  { intros k v pk [i Hi]%list_elem_of_lookup Hk. apply lookup_take_Some in Hi as [Hi Hlt]. by apply (seek_side target i k v pk Hut Hi Hk). }
  assert (forall k v pk, (k, v) ∈ b -> relevant k = Some pk -> ~ ucmp (user_key pk) target < 0) as Hb.
  { intros k v pk [i Hi]%list_elem_of_lookup Hk. unfold b in Hi. rewrite lookup_drop in Hi. rewrite <- (seek_side target _ k v pk Hut Hi Hk). fold p. lia. }
  assert (forall k v pk, (k, v) ∈ b -> relevant k = Some pk -> hidden (after None a) (user_key pk) = false) as Hun.
  { intros k v pk Hin Hk. destruct (after None a) as [z|] eqn:Ez; [|done]. destruct (after_elem c snapshot None a z Ez) as [|(k' & v' & p' & Hin' & Hk' & <-)]; [done|].
    cbn. apply Z.leb_gt. pose proof (Ha k' v' p' Hin' Hk') as H1. pose proof (Hb k v pk Hin Hk) as H2. destruct (Z.lt_ge_cases 0 (ucmp (user_key pk) (user_key p'))) as [|Hle]; [done|].
    pose proof (cmp_le_lt c _ _ _ Hle H1). lia. }
  assert (rank ucmp target us = length (visible None a)) as Em.
  { rewrite E, visible_app, (proj1 (visible_unhidden c snapshot _ b Hun)), rank_app.
    rewrite rank_all, rank_none; [lia| |]; apply Forall_forall; intros [u v] (k & pk & Hin & Hk & <-)%visible_elem; unfold Order.below; [by eapply Hb|by eapply Ha]. }
  exists b. rewrite Em. split_and!; [done| |].
  - intros Hn. rewrite E, visible_app, (proj1 (visible_unhidden c snapshot _ b Hun)), Hn, app_nil_r. done.
  - intros mid k v post pk Eb Hk Ht Hm Hu. destruct (visible_unhidden c snapshot (after None a) mid) as [Ev Ea].
    { intros k' v' p' Hin'. apply (Hun k' v' p'). rewrite Eb. apply elem_of_app. by left. }
    rewrite after_app, visible_app, Ev, Hm, app_nil_r. split; [|done]. destruct Ea as [->|Hirr]; [done|].
    rewrite <- (app_nil_r mid), (proj2 (visible_irrelevant c snapshot _ mid [] Hirr)). apply (Hun k v pk); [|done]. rewrite Eb. apply elem_of_app. right. by left.
Qed.

Lemma db_at_iter n d : db_at n d -> exists p, at_ es p (DBI.iter_ d).
Proof.
  intros [_ [(_ & _ & Hp)|[(_ & _ & Hf)|(_ & _ & Hb)]]]; [done| |].
  - destruct Hf as (pre & k & v & post & pk & _ & _ & Hit & _). eauto.
  - destruct Hb as (A & irr & k & v & post & pk & _ & _ & _ & Hit & _). eauto.
Qed.

Lemma db_first n d s : db_at n d -> good s -> exists d' s', DBI.SeekToFirst c snapshot fuel d s = Ret (d', s') /\ db_at 0 d' /\ good s'.
Proof.
  intros Hd Hs. destruct (db_at_iter n d Hd) as [p Hp]. destruct Hd as [Hr _]. unfold DBI.SeekToFirst.
  destruct (iter_move OpFirst p 0 (DBI.ClearSavedValue (DBI.set_direction d kForward)) s Hp Hs Logic.I eq_refl) as (it & s1 & -> & Hit & Hs1). run.
  cbn [DBI.iter_ DBI.set_iter]. rewrite (il_valid _ _ _ Hit). destruct (Nat.ltb_spec 0 (length es)) as [Hlt|Hge].
  - apply (find_next_entry [] None 0 false); try done. apply starts_first.
  - eexists _, s1. split; [reflexivity|]. split; [|done]. split; [done|]. left. cbn. split_and!; [done| |eauto]. assert (length es = 0%nat) as ->%length_zero_iff_nil by lia. done.
Qed.

Lemma db_seek n d s target : db_at n d -> good s -> uok target -> exists d' s', DBI.Seek c snapshot fuel target d s = Ret (d', s') /\ db_at (rank ucmp target us) d' /\ good s'.
Proof.
  intros Hd Hs Hut. destruct (db_at_iter n d Hd) as [p Hp]. destruct Hd as [Hr _]. unfold DBI.Seek. cbn [DBI.saved_key_ DBI.clear_key DBI.SaveKey].
  rewrite (append_internal_key [] target snapshot kValueTypeForSeek seek_tag). run. cbn [app].
  destruct (iter_move (OpSeek (seek_key target)) p _ (DBI.SaveKey (seek_key target) (DBI.clear_key (DBI.ClearSavedValue (DBI.set_direction d kForward)))) s Hp Hs (Huok target Hut) eq_refl)
    as (it & s1 & E & Hit & Hs1). rewrite E. clear E. run. cbn [DBI.iter_ DBI.set_iter]. rewrite (il_valid _ _ _ Hit).
  pose proof (rank_le (internal_ord c) (seek_key target) es) as Hle. pose proof (starts_seek target Hut) as Hst. destruct (Nat.ltb_spec (rank (internal_ord c) (seek_key target) es) (length es)) as [Hlt|Hge].
  - eapply find_next_entry; [exact Hst|done| | |done..]; rewrite length_take_le by lia; done.
  - eexists _, s1. split; [reflexivity|]. split; [|done]. split; [done|]. left. cbn. split_and!; [done| |eauto]. destruct Hst as (b & E & Hend & _). apply Hend.
    rewrite take_ge in E by done. rewrite <- (app_nil_r es) in E at 1. by apply app_inv_head in E as <-.
Qed.

Lemma key_user k pk : relevant k = Some pk -> ExtractUserKey k = Ret (user_key pk).
Proof. intros Hk. destruct (relevant_spec snapshot k pk Hk) as (E & _). by destruct (parsed_good k pk E) as (_ & -> & _). Qed.

Lemma forward_key n d : DBI.valid_ d = true -> DBI.direction_ d = kForward -> forward_at n d ->
  exists pre k v post pk, es = pre ++ (k, v) :: post /\ shown pre k v pk /\ at_ es (length pre) (DBI.iter_ d) /\ n = length (visible None pre) /\
    es !! length pre = Some (k, v) /\ it_key (DBI.iter_ d) = Ret k /\ it_value (DBI.iter_ d) = Ret v /\ ExtractUserKey k = Ret (user_key pk).
Proof.
  intros Hv Hd (pre & k & v & post & pk & E & Hsh & Hit & Hn). exists pre, k, v, post, pk.
  assert (es !! length pre = Some (k, v)) as He by (by rewrite E, lookup_app_r, Nat.sub_diag by lia). destruct (il_entry _ _ _ _ Hit He) as [-> ->].
  split_and!; try done. by eapply key_user, (sh_relevant _ _ _ _ Hsh).
Qed.

Lemma before_next A : (length A < length es)%nat ->
  cursor_op (internal_ord c) es (if (before A <? length es)%nat then OpNext else OpFirst) (before A) = Ret (length A).
Proof.
  intros Hlt. unfold before. destruct (length A) as [|m].
  - by rewrite Nat.ltb_irrefl.
  - assert ((m <? length es)%nat = true) as E by (apply Nat.ltb_lt; lia). rewrite E. unfold cursor_op. by rewrite E.
Qed.

Lemma db_next n d s : db_at n d -> (n < length us)%nat -> good s -> exists d' s', DBI.Next c snapshot fuel d s = Ret (d', s') /\ db_at (S n) d' /\ good s'.
Proof.
  intros [Hr Hd] Hn Hs. destruct Hd as [(_ & -> & _)|[(Hv & Hd & Hf)|(Hv & Hd & Hb)]]; [lia|..]; unfold DBI.Next; rewrite Hv, Hd.
  - destruct (forward_key n d Hv Hd Hf) as (pre & k & v & post & pk & E & Hsh & Hit & -> & He & -> & _ & Eu). run. rewrite Eu. run.
    apply (find_next_entry pre (Some (user_key pk)) _ true); try done; [|by eapply lookup_lt_Some]. apply (starts_next pre [] k v pk post); [done|constructor|done].
  - destruct Hb as (A & irr & k & v & post & pk & E & Hirr & Hsh & Hit & -> & Esk & Esv). cbn [DBI.iter_ DBI.set_direction].
    assert (length A < length es)%nat as Hlt by (rewrite E, !length_app; cbn; lia). rewrite (il_valid _ _ _ Hit).
    destruct (iter_move (if (before A <? length es)%nat then OpNext else OpFirst) (before A) (length A) (DBI.set_direction d kForward) s Hit Hs) as (it & s1 & -> & Hit1 & Hs1).
    { by destruct (_ <? _)%nat. }
    { by apply before_next. }
    run. cbn [DBI.iter_ DBI.set_iter]. rewrite (il_valid _ _ _ Hit1), (proj2 (Nat.ltb_lt _ _)) by done.
    apply (find_next_entry A (Some (user_key pk)) _ true); try done; [by apply (starts_next A irr k v pk post)|by cbn; rewrite Esk].
Qed.

(** ** Backward searches *)

(** [h] is below the user keys of [seg]. *)
Definition bounds (h : option bytes) (seg : list entry) : Prop := forall x k v p, h = Some x -> (k, v) ∈ seg -> relevant k = Some p -> ucmp x (user_key p) <= 0.

(** What the search knows of the entries it has passed: they show nothing, or their
    first relevant one is shown unless something before it hides it. *)
Definition passed (vt : Z) (d : DBI.DBIter I) (seg : list entry) : Prop :=
  vt = kTypeDeletion /\ (forall h, bounds h seg -> visible h seg = []) \/
  vt = kTypeValue /\ exists irr k v seg' pk, seg = irr ++ (k, v) :: seg' /\ irrelevant irr /\ relevant k = Some pk /\ type pk = kTypeValue /\
    visible (Some (user_key pk)) seg' = [] /\ DBI.saved_key_ d = user_key pk /\ DBI.saved_value_ d = v.

Lemma passed_irrelevant vt d d' k v seg : passed vt d seg -> relevant k = None -> DBI.saved_key_ d' = DBI.saved_key_ d -> DBI.saved_value_ d' = DBI.saved_value_ d -> passed vt d' ((k, v) :: seg).
Proof.
  intros [[-> Hd]|(-> & irr & k' & v' & seg' & pk & -> & Hirr & Hk & Ht & Hv & E1 & E2)] Hn E1' E2'; [left|right]; (split; [done|]).
  - intros h Hh. cbn. rewrite Hn. apply Hd. intros x k' v' p Ex Hin. apply (Hh x k' v' p Ex). by right.
  - exists ((k, v) :: irr), k', v', seg', pk. split_and!; try done; [by constructor|by rewrite E1'|by rewrite E2'].
Qed.

(** A relevant entry at the front makes the rest invisible, when it has the same user key
    as the entry that was to be shown. *)
Lemma passed_hidden vt d k v p seg : passed vt d seg -> relevant k = Some p -> user_sorted c ((k, v) :: seg) ->
  (vt = kTypeDeletion \/ ~ ucmp (user_key p) (DBI.saved_key_ d) < 0) -> visible (Some (user_key p)) seg = [].
Proof.
  intros Hp Hk Hs Hge. apply StronglySorted_inv in Hs as [_ Hle].
  assert (forall k' v' p', (k', v') ∈ seg -> relevant k' = Some p' -> ucmp (user_key p) (user_key p') <= 0) as Hb.
  { intros k' v' p' Hin Hk'. rewrite (relevant_ukey snapshot k p Hk), (relevant_ukey snapshot k' p' Hk'). by apply (proj1 (Forall_forall _ _) Hle (k', v')). }
  destruct Hp as [[-> Hd]|(-> & irr & k' & v' & seg' & pk & -> & Hirr & Hk' & Ht & Hv & E1 & _)].
  - apply Hd. intros x k' v' p' [= <-]. apply Hb.
  - destruct Hge as [|Hge]; [done|]. rewrite E1 in Hge. assert (ucmp (user_key p) (user_key pk) = 0) as E0.
    { specialize (Hb k' v' pk ltac:(apply elem_of_app; right; by left) Hk'). lia. }
    rewrite (visible_equal c snapshot _ _ _ E0), (proj1 (visible_irrelevant c snapshot _ irr _ Hirr)). cbn. by rewrite Hk', (value_not_deletion pk Ht), cmp_refl.
Qed.

Lemma passed_deletion d k v p seg : relevant k = Some p -> type p = kTypeDeletion -> visible (Some (user_key p)) seg = [] -> passed kTypeDeletion d ((k, v) :: seg).
Proof. intros Hk Ht Hn. left. split; [done|]. intros h _. cbn. by rewrite Hk, Ht. Qed.

(** The end of a backward search that started after [A0]. *)
Definition searched (A0 : list entry) (vt : Z) (d : DBI.DBIter I) : Prop :=
  exists A seg, A0 = A ++ seg /\ passed vt d seg /\ at_ es (before A) (DBI.iter_ d) /\ (A = [] \/ vt = kTypeValue /\ hidden (after None A) (DBI.saved_key_ d) = false).

Lemma keeps_passed vt d d' seg : keeps d d' -> passed vt d seg -> passed vt d' seg.
Proof. intros (_ & E1 & E2 & _) Hp. unfold passed in *. by rewrite E1, E2. Qed.

(** A key that is above the last relevant entry is above all that hides. *)
Lemma last_hides A k v p u : user_sorted c (A ++ [(k, v)]) -> relevant k = Some p -> ucmp (user_key p) u < 0 -> hidden (after None (A ++ [(k, v)])) u = false.
Proof.
  intros Hs Hk Hlt. destruct (after None (A ++ [(k, v)])) as [z|] eqn:Ez; [|done]. destruct (after_elem c snapshot None _ z Ez) as [|(k' & v' & p' & Hin & Hk' & <-)]; [done|].
  cbn. apply Z.leb_gt. assert (ucmp (user_key p') (user_key p) <= 0) as Hle.
  { apply elem_of_app in Hin as [Hin|Hin].
    - apply user_sorted_app in Hs as (_ & _ & Hle). rewrite (relevant_ukey snapshot k p Hk), (relevant_ukey snapshot k' p' Hk').
      by apply (Hle (k', v') (k, v)); [|left].
    - apply list_elem_of_singleton in Hin as [= -> ->]. rewrite Hk in Hk'. injection Hk' as <-. rewrite cmp_refl by done. lia. }
  pose proof (cmp_le_lt c _ _ _ Hle Hlt). pose proof (cmp_antisym u (user_key p')). lia.
Qed.

(** One round of the backward search: it stops, or passes one more entry. *)
Lemma prev_round n A k v seg tail vt d s : es = (A ++ [(k, v)]) ++ seg ++ tail -> at_ es (length A) (DBI.iter_ d) -> passed vt d seg -> Random.good (DBI.rnd_ d) ->
  exists vt' d', keeps (DBI.save_value (DBI.saved_value_ d') (DBI.SaveKey (DBI.saved_key_ d') d)) d' /\ Random.good (DBI.rnd_ d') /\
  (passed vt' d' ((k, v) :: seg) /\
    DBI.find_prev c snapshot (S n) vt d s = ('(d, s) ← DBI.move_iter OpPrev d' s; if it_Valid (I := I) (DBI.iter_ d) then DBI.find_prev c snapshot n vt' d s else Ret (vt', d, s)) \/
   vt' = kTypeValue /\ passed vt' d' seg /\ hidden (after None (A ++ [(k, v)])) (DBI.saved_key_ d') = false /\ DBI.find_prev c snapshot (S n) vt d s = Ret (vt', d', s)).
Proof.
  intros E Hit Hp Hr. assert (es !! length A = Some (k, v)) as He by (by rewrite E, <- app_assoc, lookup_app_r, Nat.sub_diag by lia).
  pose proof es_user_sorted as Hsort. rewrite E, <- app_assoc in Hsort. apply user_sorted_app in Hsort as (_ & Hsort & _). rewrite app_assoc in Hsort. apply user_sorted_app in Hsort as (Hsort & _ & _).
  cbn [DBI.find_prev]. destruct (parse_key _ k v d Hit He Hr) as (d1 & -> & K & Hr1). run. cbv zeta. pose proof K as (K1 & K2 & K3 & K4 & K5).
  assert (keeps (DBI.save_value (DBI.saved_value_ d1) (DBI.SaveKey (DBI.saved_key_ d1) d)) d1) as Kd by (by split_and!).
  destruct (relevant k) as [p|] eqn:Ek.
  2:{ exists vt, d1. split_and!; [done|done|]. left. split; [by apply (passed_irrelevant vt d)|].
      unfold DbIter.relevant in Ek. destruct (parsed k) as [p|]; [|done]. cbn in Ek. by destruct (sequence p <=? snapshot). }
  destruct (relevant_spec snapshot k p Ek) as (-> & Hle & _ & Ht). rewrite (proj2 (Z.leb_le _ _)) by done. rewrite K2.
  destruct (negb (vt =? kTypeDeletion) && (ucmp (user_key p) (DBI.saved_key_ d) <? 0)) eqn:Estop.
  { apply andb_true_iff in Estop as [Hvt Hlt%Z.ltb_lt]. exists vt, d1. split_and!; [done|done|]. right. assert (vt = kTypeValue) as -> by (by destruct Hp as [[-> _]|[-> _]]).
    split_and!; [done|by apply (keeps_passed _ d)| |done]. rewrite K2. apply (last_hides A k v p); [|done|done].
    pose proof es_user_sorted as Hs. rewrite E in Hs. by apply user_sorted_app in Hs as (Hs & _). }
  assert (visible (Some (user_key p)) seg = []) as Hn.
  { apply (passed_hidden vt d k v p seg Hp Ek Hsort). apply andb_false_iff in Estop as [Hvt|Hlt%Z.ltb_ge]; [left|right; lia]. apply negb_false_iff, Z.eqb_eq in Hvt. done. }
  destruct (Z.eqb_spec (type p) kTypeDeletion) as [Et|Et].
  - exists kTypeDeletion, (DBI.ClearSavedValue (DBI.clear_key d1)). split_and!; [by split_and!|done|]. left. split; [by apply (passed_deletion _ k v p)|]. by rewrite Et.
  - destruct Ht as [|Ht]; [done|]. rewrite K1. destruct (il_entry _ _ _ _ Hit He) as [-> ->]. cbn [fst snd]. run. rewrite (key_user k p Ek). run.
    exists kTypeValue, (DBI.save_value v (DBI.SaveKey (user_key p) d1)). split_and!; [by split_and!|done|]. left. split; [|by rewrite Ht].
    right. split; [done|]. exists [], k, v, seg, p. split_and!; try done. constructor.
Qed.

Lemma find_prev_spec n A seg tail vt d s : es = A ++ seg ++ tail -> A <> [] -> (length A <= n)%nat -> at_ es (before A) (DBI.iter_ d) -> passed vt d seg -> good s -> Random.good (DBI.rnd_ d) ->
  exists vt' d' s', DBI.find_prev c snapshot n vt d s = Ret (vt', d', s') /\ good s' /\ Random.good (DBI.rnd_ d') /\ DBI.direction_ d' = DBI.direction_ d /\ searched (A ++ seg) vt' d'.
Proof.
  revert A seg vt d s. induction n as [|n IH]; intros A seg vt d s E Hne Hn Hit Hp Hs Hr; [destruct A; [done|cbn in Hn; lia]|].
  destruct A as [|[k v] A _] using rev_ind; [done|]. assert (before (A ++ [(k, v)]) = length A) as Eb by (unfold before; rewrite length_app, Nat.add_1_r; done). rewrite Eb in Hit.
  destruct (prev_round n A k v seg tail vt d s E Hit Hp Hr) as (vt' & d1 & (K1 & K2 & K3 & K4 & K5) & Hr1 & [[Hp1 ->]|(-> & Hp1 & Hh & ->)]).
  2:{ exists kTypeValue, d1, s. split_and!; [done|done|done|done|]. exists (A ++ [(k, v)]), seg. split_and!; [done|done| |by right]. rewrite Eb, K1. done. }
  assert (length A < length es)%nat as Hlt by (rewrite E, !length_app; cbn; lia).
  destruct (iter_move OpPrev (length A) (before A) d1 s) as (it & s1 & -> & Hit1 & Hs1); [by rewrite K1|done|done| |].
  { unfold cursor_op, before. by rewrite (proj2 (Nat.ltb_lt _ _)) by done. }
  run. cbn [DBI.iter_ DBI.set_iter]. rewrite (il_valid _ _ _ Hit1). unfold before at 1. destruct (length A) as [|m] eqn:El.
  - rewrite Nat.ltb_irrefl. eexists vt', _, s1. split; [reflexivity|]. split_and!; [done|done|done|]. apply length_zero_iff_nil in El as ->.
    exists [], ((k, v) :: seg). split_and!; [done|done|done|by left].
  - rewrite (proj2 (Nat.ltb_lt _ _)) by lia. rewrite <- app_assoc. cbn [app]. rewrite length_app in Hn. cbn in Hn.
    destruct (IH A ((k, v) :: seg) vt' (DBI.set_iter d1 it) s1) as (vt2 & d2 & s2 & -> & Hs2 & Hr2 & Hd2 & Hse); try done.
    { by rewrite E, <- app_assoc. }
    { by destruct A. }
    { lia. }
    eexists vt2, d2, s2. split_and!; [done|done|done|by rewrite Hd2|done].
Qed.

Lemma find_prev_entry A tail d s : es = A ++ tail -> at_ es (before A) (DBI.iter_ d) -> DBI.direction_ d = kReverse -> good s -> Random.good (DBI.rnd_ d) ->
  exists d' s', DBI.FindPrevUserEntry c snapshot fuel d s = Ret (d', s') /\ good s' /\ db_at (match length (visible None A) with O => length us | S n => n end) d'.
Proof.
  intros E Hit Hd Hs Hr. unfold DBI.FindPrevUserEntry. rewrite Hd, bool_decide_eq_true_2 by done.
  assert (exists vt d' s', (if it_Valid (DBI.iter_ d) then DBI.find_prev c snapshot fuel kTypeDeletion d s else Ret (kTypeDeletion, d, s)) = Ret (vt, d', s') /\
    good s' /\ Random.good (DBI.rnd_ d') /\ DBI.direction_ d' = kReverse /\ searched A vt d') as (vt & d' & s' & -> & Hs' & Hr' & Hd' & Hse).
  { rewrite (il_valid _ _ _ Hit). unfold before in *. destruct (length A) as [|m] eqn:El.
    - rewrite Nat.ltb_irrefl. exists kTypeDeletion, d, s. split_and!; [done|done|done|done|]. apply length_zero_iff_nil in El as ->.
      exists [], []. split_and!; [done|by left|done|by left].
    - rewrite (proj2 (Nat.ltb_lt _ _)) by (rewrite E, length_app; lia).
      destruct (find_prev_spec fuel A [] tail kTypeDeletion d s) as (vt & d' & s' & -> & Hs' & Hr' & Hd' & Hse); try done.
      { by destruct A. }
      { pose proof (f_equal length E) as El2. rewrite length_app in El2. lia. }
      { unfold before. by rewrite El. }
      { by left. }
      rewrite app_nil_r in Hse. exists vt, d', s'. split_and!; try done. by rewrite Hd'. }
  run. destruct Hse as (B & seg & EA & Hp & HitB & HB). destruct Hp as [[-> Hdel]|(-> & irr & k & v & seg' & pk & Eseg & Hirr & Hk & Ht & Hn & E1 & E2)].
  - eexists _, s'. split; [reflexivity|]. split_and!; [done|]. split; [done|]. left. cbn. split_and!; [done| |eauto].
    destruct HB as [->|[? _]]; [|done]. cbn in EA. subst seg. rewrite (Hdel None); done.
  - change (kTypeValue =? kTypeDeletion) with false. eexists _, s'. split; [reflexivity|]. split_and!; [done|]. split; [done|]. right; right. cbn. split_and!; [done|done|].
    assert (shown B k v pk) as Hsh.
    { split; [done|done|]. destruct HB as [->|[_ Hh]]; [done|]. by rewrite E1 in Hh. }
    exists B, irr, k, v, (seg' ++ tail), pk. split_and!; try done.
    + by rewrite E, EA, Eseg, <- !app_assoc.
    + rewrite EA, Eseg, (proj1 (visible_shown B irr k v pk seg' Hsh Hirr)), Hn, length_app. cbn. by rewrite Nat.add_1_r.
Qed.

Lemma db_last n d s : db_at n d -> good s -> exists d' s', DBI.SeekToLast c snapshot fuel d s = Ret (d', s') /\ db_at (pred (length us)) d' /\ good s'.
Proof.
  intros Hd Hs. destruct (db_at_iter n d Hd) as [p Hp]. destruct Hd as [Hr _]. unfold DBI.SeekToLast.
  destruct (iter_move OpLast p (pred (length es)) (DBI.ClearSavedValue (DBI.set_direction d kReverse)) s Hp Hs Logic.I eq_refl) as (it & s1 & -> & Hit & Hs1). run.
  destruct (find_prev_entry es [] (DBI.set_iter (DBI.ClearSavedValue (DBI.set_direction d kReverse)) it) s1) as (d' & s' & -> & Hs' & Hd'); try done.
  { by rewrite app_nil_r. }
  by exists d', s'.
Qed.

(** The scan back from entry [length A] to an entry with a smaller user key. *)
Lemma scan_back_spec n A same post u d s : es = A ++ same ++ post -> same ++ post <> [] -> (length A < n)%nat -> at_ es (length A) (DBI.iter_ d) -> DBI.saved_key_ d = u ->
  Forall (fun e => ~ ucmp (ukey e.1) u < 0) same -> good s -> Random.good (DBI.rnd_ d) ->
  exists b d' s' A0 same', DBI.scan_back c n d s = Ret (b, d', s') /\ A ++ same = A0 ++ same' /\ Forall (fun e => ~ ucmp (ukey e.1) u < 0) same' /\
    at_ es (before A0) (DBI.iter_ d') /\ good s' /\ Random.good (DBI.rnd_ d') /\ (if (b : bool) then True else A0 = [] /\ DBI.valid_ d' = false).
Proof.
  revert A same d s. induction n as [|n IH]; intros A same d s E Hne Hn Hit Eu Hsame Hs Hr; [lia|]. cbn [DBI.scan_back].
  assert (length A < length es)%nat as Hlt by (rewrite E, length_app; destruct (same ++ post); [done|cbn; lia]).
  destruct (iter_move OpPrev (length A) (before A) d s Hit Hs Logic.I) as (it & s1 & -> & Hit1 & Hs1).
  { unfold cursor_op, before. by rewrite (proj2 (Nat.ltb_lt _ _)) by done. }
  run. cbn [DBI.iter_ DBI.set_iter]. rewrite (il_valid _ _ _ Hit1). destruct A as [|[k v] A _] using rev_ind.
  { unfold before. cbn [length]. rewrite Nat.ltb_irrefl. eexists false, _, s1, [], same. split; [reflexivity|]. by split_and!. }
  assert (before (A ++ [(k, v)]) = length A) as Eb by (unfold before; rewrite length_app, Nat.add_1_r; done). rewrite Eb in *. rewrite length_app in Hlt, Hn. cbn in Hlt, Hn.
  rewrite (proj2 (Nat.ltb_lt _ _)) by lia. assert (es !! length A = Some (k, v)) as He by (by rewrite E, <- app_assoc, lookup_app_r, Nat.sub_diag by lia).
  destruct (il_entry _ _ _ _ Hit1 He) as [-> _]. run. cbn [fst]. pose proof (Hgood _ (ascending_lookup_ok _ _ _ Hasc He)) as Hg. unfold internal_good in Hg. cbn in Hg.
  unfold ExtractUserKey. rewrite (proj2 (Nat.leb_le _ _)) by done. run. fold (ukey k). cbn [DBI.saved_key_ DBI.set_iter]. rewrite Eu.
  destruct (Z.ltb_spec (ucmp (ukey k) u) 0) as [Hb|Hb].
  - eexists true, _, s1, (A ++ [(k, v)]), same. split; [reflexivity|]. split_and!; try done. by rewrite Eb.
  - destruct (IH A ((k, v) :: same) (DBI.set_iter d it) s1) as (b & d' & s' & A0 & same' & -> & EA & Hrest); try done.
    { by rewrite E, <- app_assoc. }
    { lia. }
    { constructor; [by apply Z.le_ngt|done]. }
    exists b, d', s', A0, same'. split; [done|]. split; [|done]. by rewrite <- EA, <- app_assoc.
Qed.

(** The entries that were scanned have the user key that is shown, and do not matter. *)
Lemma scanned_irrelevant A0 same k v pk post : es = (A0 ++ same) ++ (k, v) :: post -> shown (A0 ++ same) k v pk ->
  Forall (fun e => ~ ucmp (ukey e.1) (user_key pk) < 0) same -> visible None (A0 ++ same) = visible None A0.
Proof.
  intros E Hsh Hsame. assert (irrelevant same) as Hirr.
  { apply Forall_forall. intros [k' v'] Hin. cbn. destruct (relevant k') as [p'|] eqn:Ek; [exfalso|done]. pose proof es_user_sorted as Hs. rewrite E in Hs. apply user_sorted_app in Hs as (Hs & _ & _).
    pose proof (after_covers c snapshot None _ k' v' p' Hs ltac:(apply elem_of_app; by right) Ek) as Hc.
    pose proof (proj1 (Forall_forall _ _) Hsame (k', v') Hin) as Hge. cbn [fst] in Hge. rewrite <- (relevant_ukey snapshot k' p' Ek) in Hge.
    apply (hidden_le c _ (user_key pk)) in Hc; [by rewrite (sh_seen _ _ _ _ Hsh) in Hc|]. pose proof (cmp_antisym (user_key p') (user_key pk)). lia. }
  rewrite visible_app. rewrite <- (app_nil_r same), (proj1 (visible_irrelevant c snapshot _ same [] Hirr)). cbn. by rewrite app_nil_r.
Qed.

Lemma db_prev n d s : db_at n d -> (n < length us)%nat -> good s ->
  exists d' s', DBI.Prev c snapshot fuel d s = Ret (d', s') /\ db_at (match n with O => length us | S m => m end) d' /\ good s'.
Proof.
  intros [Hr Hd] Hn Hs. destruct Hd as [(_ & -> & _)|[(Hv & Hd & Hf)|(Hv & Hd & Hb)]]; [lia|..]; unfold DBI.Prev; rewrite Hv, Hd.
  - destruct (forward_key n d Hv Hd Hf) as (pre & k & v & post & pk & E & Hsh & Hit & -> & He & Ek & _ & Eu). rewrite (il_valid _ _ _ Hit), (proj2 (Nat.ltb_lt _ _)) by (by eapply lookup_lt_Some).
    rewrite Ek. run. rewrite Eu. run.
    destruct (scan_back_spec fuel pre [] ((k, v) :: post) (user_key pk) (DBI.SaveKey (user_key pk) d) s) as (b & d1 & s1 & A0 & same & -> & EA & Hsame & Hit1 & Hs1 & Hr1 & Hb); try done.
    { apply lookup_lt_Some in He. lia. }
    run. rewrite app_nil_r in EA. rewrite EA in E, Hsh |- *. rewrite (scanned_irrelevant A0 same k v pk post E Hsh Hsame). destruct b.
    + destruct (find_prev_entry A0 (same ++ (k, v) :: post) (DBI.set_direction d1 kReverse) s1) as (d' & s' & -> & Hs' & Hd'); try done; [by rewrite E, <- app_assoc|]. by exists d', s'.
    + destruct Hb as [-> Hv1]. exists d1, s1. split_and!; [done| |done]. split; [done|]. left. split_and!; [done|done|eauto].
  - destruct Hb as (A & irr & k & v & post & pk & E & Hirr & Hsh & Hit & -> & _). destruct (find_prev_entry A (irr ++ (k, v) :: post) d s) as (d' & s' & -> & Hs' & Hd'); try done. by exists d', s'.
Qed.

Lemma db_valid n d : db_at n d -> DBI.Valid d = (n <? length us)%nat.
Proof.
  intros [_ [(Hv & -> & _)|[(Hv & _ & Hf)|(Hv & _ & Hb)]]]; unfold DBI.Valid; rewrite Hv; symmetry; [apply Nat.ltb_irrefl|apply Nat.ltb_lt..].
  - destruct Hf as (pre & k & v & post & pk & E & Hsh & _ & ->). eapply lookup_lt_Some, (lookup_shown pre [] k v pk post); [done|constructor|done].
  - destruct Hb as (A & irr & k & v & post & pk & E & Hirr & Hsh & _ & -> & _). by eapply lookup_lt_Some, (lookup_shown A irr k v pk post).
Qed.

Lemma db_observe n d : db_at n d -> observe d = Ret (us !! n).
Proof.
  intros Hd. pose proof (db_valid n d Hd) as Hval. unfold observe. cbn [it_Valid it_key it_value db_view]. rewrite Hval. unfold DBI.key, DBI.value.
  destruct Hd as [_ [(Hv & -> & _)|[(Hv & Hd & Hf)|(Hv & Hd & Hb)]]].
  - by rewrite Nat.ltb_irrefl, lookup_ge_None_2.
  - unfold DBI.Valid in Hval. rewrite <- Hval, Hv, Hd. destruct (forward_key n d Hv Hd Hf) as (pre & k & v & post & pk & E & Hsh & _ & -> & _ & -> & -> & Eu). run. rewrite Eu. run.
    by rewrite (lookup_shown pre [] k v pk post E (Forall_nil_2 _) Hsh).
  - unfold DBI.Valid in Hval. rewrite <- Hval, Hv, Hd. destruct Hb as (A & irr & k & v & post & pk & E & Hirr & Hsh & _ & -> & -> & ->). run.
    by rewrite (lookup_shown A irr k v pk post E Hirr Hsh).
Qed.

Lemma db_op n d s op : db_at n d -> good s -> seeks_ok uok op ->
  (exists n' d' s', cursor_op ucmp us op n = Ret n' /\ DBI.move c snapshot fuel op d s = Ret (d', s') /\ db_at n' d' /\ good s') \/
  cursor_op ucmp us op n = Exit 134 /\ DBI.move c snapshot fuel op d s = Exit 134.
Proof.
  intros Hd Hs Hop. pose proof (db_valid n d Hd) as Hv. unfold DBI.Valid in Hv. destruct op as [| |target| |]; cbn [DBI.move]; unfold cursor_op.
  - left. destruct (db_first n d s Hd Hs) as (d' & s' & E & Hd' & Hs'). by eexists _, d', s'.
  - left. destruct (db_last n d s Hd Hs) as (d' & s' & E & Hd' & Hs'). by eexists _, d', s'.
  - left. destruct (db_seek n d s target Hd Hs Hop) as (d' & s' & E & Hd' & Hs'). by eexists _, d', s'.
  - destruct (Nat.ltb_spec n (length us)) as [Hlt|]; [left|right; split; [done|unfold DBI.Next; by rewrite Hv]].
    destruct (db_next n d s Hd Hlt Hs) as (d' & s' & E & Hd' & Hs'). by eexists _, d', s'.
  - destruct (Nat.ltb_spec n (length us)) as [Hlt|]; [left|right; split; [done|unfold DBI.Prev; by rewrite Hv]].
    destruct (db_prev n d s Hd Hlt Hs) as (d' & s' & E & Hd' & Hs'). by eexists _, d', s'.
Qed.

#[local] Instance iterating_moves : IterMoves W (DBI.DBIter I) := db_moves c snapshot fuel.

Lemma run_db_iter ops n d s : Forall (seeks_ok uok) ops -> db_at n d -> good s -> run_iter ops d s = run_cursor ucmp us ops n.
Proof.
  intros Hops. revert n d s. induction Hops as [|op ops Hop _ IH]; intros n d s Hd Hs; [done|]. cbn [run_iter run_cursor]. change (it_move op d s) with (DBI.move c snapshot fuel op d s).
  destruct (db_op n d s op Hd Hs Hop) as [(n' & d' & s' & -> & -> & Hd' & Hs')|[-> ->]]; run; [|done]. rewrite (db_observe n' d' Hd'). run. by rewrite (IH n' d' s').
Qed.

Lemma new_db_iter p it seed : at_ es p it -> db_at (length us) (DBI.new it seed).
Proof.
  intros Hit. unfold DBI.new. destruct (random_period (Random.new seed) (Random.new_good seed)) as (a & r & -> & _ & Hr & _). split; [done|]. left. cbn. eauto.
Qed.

(** C4: the iterator of a database shows what a reader sees at its sequence number.  The
    user keys whose newest version at that number is a value, not a deletion, come in
    the order of the user comparator, each once and with that value; any sequence of
    calls of SeekToFirst, SeekToLast, Seek, Next and Prev moves through them as a cursor
    does.  Newer versions, overwritten values, deletion markers and keys with a corrupt
    tag are skipped in both directions. *)
Theorem db_iter_refines_snapshot p it seed ops s : at_ es p it -> good s -> Forall (seeks_ok uok) ops ->
  exists us, ascending (fun _ => True) ucmp us /\ (forall u v, (u, v) ∈ us <-> newest c snapshot es u v) /\
    run_iter ops (DBI.new it seed) s = run_cursor ucmp us ops (length us).
Proof.
  intros Hit Hs Hops. exists us. split_and!.
  - split; [by apply Forall_true|]. apply visible_sorted; [done|apply es_user_sorted|done].
  - intros u v. apply visible_newest; [done|apply es_user_sorted].
  - apply run_db_iter; [done|by eapply new_db_iter|done].
Qed.
End Iterating.

(** ** Example *)

(** Four user keys, two of them with versions, one of which is deleted. *)
Definition sample_internal : list entry :=
  [(ikey (str "a") 7 kTypeValue, str "1"); (ikey (str "b") 9 kTypeValue, str "new"); (ikey (str "b") 3 kTypeValue, str "2");
   (ikey (str "c") 5 kTypeDeletion, []); (ikey (str "c") 4 kTypeValue, str "3"); (ikey (str "d") 6 kTypeValue, str "4")].

Lemma db_iter_refines_snapshot_witness : exists us, ascending (fun _ => True) (cmp_Compare BytewiseComparator) us /\
  (forall u v, (u, v) ∈ us <-> newest BytewiseComparator 8 sample_internal u v) /\
  run_iter (H0 := db_moves (H0 := list_moves (internal_ord BytewiseComparator)) BytewiseComparator 8 10)
    [OpFirst; OpNext; OpNext; OpPrev; OpPrev; OpNext; OpSeek (str "c"); OpPrev; OpLast; OpNext] (DBI.new (MkListIter sample_internal 6) 301) tt =
  run_cursor (cmp_Compare BytewiseComparator) us [OpFirst; OpNext; OpNext; OpPrev; OpPrev; OpNext; OpSeek (str "c"); OpPrev; OpLast; OpNext] (length us).
Proof.
  refine (db_iter_refines_snapshot (IteratorLaws0 := list_laws internal_good (internal_ord BytewiseComparator) (fun _ : unit => True))
    BytewiseComparator 8 _ internal_good (fun _ => True) _ _ sample_internal _ 10 _ 6 (MkListIter sample_internal 6) 301 _ tt eq_refl _ _).
  - by vm_compute.
  - done.
  - intros u _. unfold internal_good. rewrite ikey_length. lia.
  - split; repeat constructor; vm_compute; lia.
  - cbn. lia.
  - done.
  - repeat constructor.
Defined.
