(* ===== verification/VersionIter.v ===== *)
(** * Iterators over versions and databases (util/leveldb/db/version_set.cc, db/db_impl.cc)

    The iterator over the files of a level, the ones over a version and over the inputs of
    a compaction, and the iterator of the whole database. *)

From S2P Require Import Prelude Slice Order CLib Bloom Coding DbFormat InternalOrder FileNames Status Files SkipList MemTable StdSet VersionEdit Version VersionBuilder LogFormat VersionSet Iterators Block TableFormat FilterBlock Table TableSpec TableGet VersionGet Compaction DbCompact CompactionRun Merger TwoLevel TableIter TableCache MemIter FlushTable Background DbRead DbIter.
From stdpp Require Import strings sorting.
#[local] Open Scope Z_scope.

(** ** The iterator over the files of a level *)

Record LevelFileNumIterator := MkLevelIter { flist_ : list FileMetaData; index_ : Z }.

Definition LevelFileNumIterator_new (flist : list FileMetaData) : LevelFileNumIterator := MkLevelIter flist (u32 (Z.of_nat (length flist))).

Module LFN.
Definition at_index (it : LevelFileNumIterator) (i : Z) : LevelFileNumIterator := MkLevelIter (flist_ it) i.
Definition Valid (it : LevelFileNumIterator) : bool := index_ it <? Z.of_nat (length (flist_ it)).

(** [( *flist_)[index_]] *)
Definition file (it : LevelFileNumIterator) : outcome FileMetaData :=
  assert! Valid it; match flist_ it !! Z.to_nat (index_ it) with Some f => Ret f | None => Undef end.

Definition key (it : LevelFileNumIterator) : outcome bytes := f ← file it; InternalKey_Encode (largest f).
Definition value (it : LevelFileNumIterator) : outcome bytes := f ← file it; Ret (EncodeFixed64 true (number f) ++ EncodeFixed64 true (file_size f)).

Definition move (c : Comparator) (op : iter_op) (it : LevelFileNumIterator) : outcome LevelFileNumIterator :=
  let size := Z.of_nat (length (flist_ it)) in
  match op with
  | OpSeek target => i ← FindFile c (flist_ it) target; Ret (at_index it (u32 i))
  | OpFirst => Ret (at_index it 0)
  | OpLast => Ret (at_index it (if bool_decide (flist_ it = []) then 0 else u32 (size - 1)))
  | OpNext => assert! Valid it; Ret (at_index it (u32 (index_ it + 1)))
  | OpPrev => assert! Valid it; Ret (at_index it (if index_ it =? 0 then u32 size else index_ it - 1))
  end.
End LFN.

#[export] Instance level_view : IterView LevelFileNumIterator :=
  {| it_Valid := LFN.Valid; it_key := LFN.key; it_value := LFN.value; it_status _ := Ret OK |}.

Definition level_moves {W} (c : Comparator) : IterMoves W LevelFileNumIterator := fun op it w => it ← LFN.move c op it; Ret (it, w).

(** ** Iterators over the files of a version *)

(** Iterators over table files, by number and size ([TableCache::NewIterator]). *)
Class FileIterators (W J : Type) := fi_NewIterator : ReadOptions -> Z -> Z -> W -> outcome (J * W).

Section Ops.
Context {W J : Type} `{IterView J} `{!IterMoves W J} `{FileIterators W J} (c : Comparator).

Definition GetFileIterator (options : ReadOptions) (file_value : bytes) (w : W) : outcome ((EmptyIterator + J) * W) :=
  if negb (length file_value =? 16)%nat then s ← Corruption (str "FileReader invoked with unexpected value") []; Ret (inl (NewErrorIterator s), w)
  else
    number ← DecodeFixed64 true file_value;
    size ← DecodeFixed64 true (drop 8 file_value);
    '(it, w) ← fi_NewIterator options number size w;
    Ret (inr it, w).

(** The two-level iterator over the files of a level, with the options of its block
    function. *)
Record ConcatIterator := MkConcat { ct_options : ReadOptions; ct_files : list FileMetaData; ct_two : Two.TwoLevelIterator LevelFileNumIterator (EmptyIterator + J) }.

Definition NewConcatenatingIterator (options : ReadOptions) (files : list FileMetaData) : outcome ConcatIterator :=
  two ← Two.NewTwoLevelIterator (LevelFileNumIterator_new files); Ret (MkConcat options files two).

#[export] Instance concat_view : IterView ConcatIterator :=
  {| it_Valid it := Two.Valid (ct_two it); it_key it := Two.key (ct_two it); it_value it := Two.value (ct_two it); it_status it := Two.status (ct_two it) |}.

(** More rounds than there are files. *)
Definition concat_moves : IterMoves W ConcatIterator := fun op it w =>
  '(two, w) ← Two.move (H0 := level_moves c) (GetFileIterator (ct_options it)) (S (S (length (ct_files it)))) op (ct_two it) w;
  Ret (MkConcat (ct_options it) (ct_files it) two, w).

(** One iterator per file. *)
Fixpoint each_file (options : ReadOptions) (files : list FileMetaData) (w : W) : outcome (list (J + ConcatIterator) * W) :=
  match files with
  | [] => Ret ([], w)
  | f :: files' =>
      '(it, w) ← fi_NewIterator options (number f) (file_size f) w;
      '(its, w) ← each_file options files' w;
      Ret (inl it :: its, w)
  end.

Fixpoint concat_levels (options : ReadOptions) (levels : list (list FileMetaData)) : outcome (list (J + ConcatIterator)) :=
  match levels with
  | [] => Ret []
  | [] :: levels' => concat_levels options levels'
  | files :: levels' => it ← NewConcatenatingIterator options files; its ← concat_levels options levels'; Ret (inr it :: its)
  end.

Definition AddIterators (options : ReadOptions) (files : list (list FileMetaData)) (w : W) : outcome (list (J + ConcatIterator) * W) :=
  match files with
  | [] => Undef
  | level0 :: levels => '(its, w) ← each_file options level0 w; its' ← concat_levels options levels; Ret (its ++ its', w)
  end.

(** The iterators for [inputs_[which]]. *)
Definition input_iterators (options : ReadOptions) (level : Z) (files : list FileMetaData) (w : W) : outcome (list (J + ConcatIterator) * W) :=
  match files with
  | [] => Ret ([], w)
  | _ => if level =? 0 then each_file options files w else it ← NewConcatenatingIterator options files; Ret ([inr it], w)
  end.

Definition MakeInputIterator (paranoid_checks : bool) (x : Compaction) (w : W) : outcome (MergedIterator (J + ConcatIterator) * W) :=
  let options := MkReadOptions paranoid_checks false in
  let space := if level_ x =? 0 then (length (inputs0 x) + 1)%nat else 2%nat in
  '(its0, w) ← input_iterators options (level_ x) (inputs0 x) w;
  '(its1, w) ← input_iterators options (level_ x + 1) (inputs1 x) w;
  assert! (length (its0 ++ its1) <=? space)%nat;
  it ← NewMergingIterator (its0 ++ its1);
  Ret (it, w).

(** [NewInternalIterator]: the iterator, the last sequence number and the next seed. *)
Definition NewInternalIterator {F I} `{CompactionEnv W F} `{!DbEnv W F I} (options : ReadOptions) (seed : Z) (d : DBImpl F) (w : W) :
    outcome (MergedIterator (MemTableIterator + (J + ConcatIterator)) * Z * Z * W) :=
  let latest_snapshot := VS.last_sequence_ (de_versions w) in
  let mems := MemTable_NewIterator (mem_ d) :: match imm_ d with Some imm => [MemTable_NewIterator imm] | None => [] end in
  '(its, w) ← AddIterators options (files_ (VS.current_ (de_versions w))) w;
  it ← NewMergingIterator ((inl <$> mems) ++ (inr <$> its));
  Ret (it, latest_snapshot, u32 (seed + 1), w).

(** [DBImpl::NewIterator]: the iterator, the sequence number that it reads at, and the
    next seed. *)
Definition DBImpl_NewIterator {F I} `{CompactionEnv W F} `{!DbEnv W F I} (options : ReadOptions) (snapshot : option Z) (seed : Z) (d : DBImpl F) (w : W) :
    outcome (DBI.DBIter (MergedIterator (MemTableIterator + (J + ConcatIterator))) * Z * Z * W) :=
  '(it, latest_snapshot, seed, w) ← NewInternalIterator (I := I) options seed d w;
  Ret (DBI.new it seed, default latest_snapshot snapshot, seed, w).
End Ops.
Arguments ConcatIterator : clear implicits.

(** A sample that an iterator of the database took ([DBImpl::RecordReadSample]). *)
Definition DBImpl_RecordReadSample {W F I} `{CompactionEnv W F} `{!DbEnv W F I} (c : Comparator) (key : bytes) (d : DBImpl F) (w : W) : outcome (DBImpl F * W) :=
  '(changed, v) ← RecordReadSample c (files_ (VS.current_ (de_versions w))) key (de_seeks w);
  let w := de_set_seeks v w in
  Ret (if (changed : bool) then MaybeScheduleCompaction (I := I) d w else d, w).

(** ** The iterator over the files of a level is a cursor *)

Section Level.
Context {W : Type} (c : Comparator) `{!ComparatorLaws c} (ok : bytes -> Prop) (Hok : forall k, ok k -> internal_good k) (good : W -> Prop).
Abbreviation iord := (internal_ord c).
#[local] Instance level_moves_c : IterMoves W LevelFileNumIterator := level_moves c.

Definition level_at (es : list entry) (p : nat) (it : LevelFileNumIterator) : Prop :=
  es = file_entry <$> flist_ it /\ (p <= length (flist_ it))%nat /\ index_ it = Z.of_nat p /\ by_largest c (flist_ it).

Lemma level_valid es p it : level_at es p it -> LFN.Valid it = (p <? length es)%nat.
Proof. intros (-> & Hp & Ei & _). unfold LFN.Valid. rewrite Ei, length_fmap. destruct (Nat.ltb_spec p (length (flist_ it))), (Z.ltb_spec (Z.of_nat p) (Z.of_nat (length (flist_ it)))); done || lia. Qed.

Lemma level_file_at es p it f : level_at es p it -> flist_ it !! p = Some f -> LFN.file it = Ret f.
Proof.
  intros Hit Hf. unfold LFN.file. rewrite (level_valid _ _ _ Hit). destruct Hit as (-> & _ & -> & _). rewrite length_fmap, (proj2 (Nat.ltb_lt _ _)) by (by eapply lookup_lt_Some). by rewrite Nat2Z.id, Hf.
Qed.

Lemma level_step es p it op : level_at es p it -> seeks_ok ok op ->
  (exists p' it', cursor_op iord es op p = Ret p' /\ LFN.move c op it = Ret it' /\ level_at es p' it') \/ cursor_op iord es op p = Exit 134 /\ LFN.move c op it = Exit 134.
Proof.
  intros Hit Hop. pose proof (level_valid _ _ _ Hit) as Hv. destruct Hit as (-> & Hp & Ei & Hb). pose proof Hb as [_ Hn].
  assert (forall p' i, (p' <= length (flist_ it))%nat -> i = Z.of_nat p' -> level_at (file_entry <$> flist_ it) p' (LFN.at_index it i)) as Hat by (intros p' i ? ->; by split).
  destruct op as [| |target| |]; cbn [LFN.move cursor_op seeks_ok] in *; rewrite ?Hv; rewrite ?length_fmap.
  - left. eexists _, _. split_and!; [done|done|]. apply Hat; lia.
  - left. eexists _, _. split_and!; [done|done|]. apply Hat; [lia|]. destruct (flist_ it) as [|f l] eqn:El; [done|]. rewrite bool_decide_eq_false_2 by done. cbn [length] in *. rewrite u32_small by lia. lia.
  - left. rewrite find_file_spec by auto. run. eexists _, _. split_and!; [done|done|]. pose proof (rank_le iord target (file_entry <$> flist_ it)) as Hr. rewrite length_fmap in Hr. apply Hat; [done|]. rewrite u32_small by lia. done.
  - destruct (Nat.ltb_spec p (length (flist_ it))); [left|by right]. eexists _, _. split_and!; [done|done|]. rewrite Ei. apply Hat; [lia|]. rewrite u32_small by lia. lia.
  - destruct (Nat.ltb_spec p (length (flist_ it))); [left|by right]. eexists _, _. split_and!; [done|done|]. rewrite Ei. destruct p as [|p]; [apply Hat; [lia|]; cbn [Z.of_nat Z.eqb]; rewrite u32_small by lia; done|].
    rewrite (proj2 (Z.eqb_neq _ _)) by lia. apply Hat; lia.
Qed.

#[export] Instance level_laws : IteratorLaws ok iord good level_at.
Proof.
  split.
  - intros es p it. apply level_valid.
  - intros es p it e Hit He. pose proof Hit as (Ees & _ & _ & [Ha _]). rewrite Ees, list_lookup_fmap in He. destruct (flist_ it !! p) as [f|] eqn:Ef; [|done]. injection He as <-. cbn [it_key it_value level_view].
    unfold LFN.key, LFN.value. rewrite (level_file_at es p it f Hit Ef). run. rewrite encode_good; [done|]. apply (ascending_ok (file_entry <$> flist_ it) (file_entry f) Ha). apply list_elem_of_fmap_2. by eapply list_elem_of_lookup_2.
  - done.
  - intros es p it w op Hit Hw Hop. unfold it_move, level_moves_c, level_moves. destruct (level_step es p it op Hit Hop) as [(p' & it' & E & -> & Hit')|[E ->]]; [left|by right]. run. by exists p', it', w.
Qed.

Lemma new_level_iter files : by_largest c files -> level_at (file_entry <$> files) (length files) (LevelFileNumIterator_new files).
Proof. intros Hb. pose proof Hb as [_ Hn]. split_and!; [done|done| |done]. cbn. rewrite u32_small by lia. done. Qed.
End Level.

(** ** Files one after the other *)

(** A new iterator over a file that is known shows its entries. *)
Class FileIteratorsLaws (W J : Type) `{IterView J} `{!IterMoves W J} `{FileIterators W J} (good : W -> Prop) (at_ : list entry -> nat -> J -> Prop) (known : FileMetaData -> Prop) (data : FileMetaData -> list entry) : Prop := {
  fil_range f : known f -> 0 <= number f < 2 ^ 64 /\ 0 <= file_size f < 2 ^ 64;
  fil_new f ro w : known f -> good w -> exists it w', fi_NewIterator ro (number f) (file_size f) w = Ret (it, w') /\ at_ (data f) (length (data f)) it /\ good w';
}.

Section Concat.
Context {W J : Type} `{IterView J} `{!IterMoves W J} `{FileIterators W J} (c : Comparator) `{!ComparatorLaws c} (ok : bytes -> Prop) (Hok : forall k, ok k -> internal_good k).
Abbreviation iord := (internal_ord c).
Context (good : W -> Prop) (at_ : list entry -> nat -> J -> Prop) `{!IteratorLaws ok iord good at_} (known : FileMetaData -> Prop) (data : FileMetaData -> list entry) `{!FileIteratorsLaws W J good at_ known data}.
Abbreviation level_data := (level_data data).

(** The files of a level below level 0, or of one side of a compaction. *)
Record concat_fine (l : list FileMetaData) : Prop := {
  cf_sorted : level_sorted c l;
  cf_files f : f ∈ l -> known f /\ file_data c data f;
  cf_numbers : NoDup (number <$> l);
}.

Lemma level_rank k l : internal_good k -> level_sorted c l -> Forall (file_data c data) l ->
  rank iord k (level_data l) = (length (level_data (take (rank iord k (file_entry <$> l)) l)) + match l !! rank iord k (file_entry <$> l) with Some f => rank iord k (data f) | None => 0 end)%nat.
Proof.
  intros Hk. induction l as [|f l IH]; intros Hs Hd; [done|]. pose proof Hs as (Hfo & Hss & Hn). apply Forall_cons in Hd as Hd'. destruct Hd' as [Hf Hdl].
  assert (level_sorted c l) as Hsl by (split_and!; [by apply Forall_cons in Hfo as [_ ?]|by apply StronglySorted_inv in Hss as [? _]|cbn [length] in Hn; lia]).
  assert (forall e, e ∈ level_data l -> internal_good e.1 /\ iord (largest f) e.1 < 0) as Hafter.
  { intros e (g & Hg & He)%level_data_elem. apply list_elem_of_lookup in Hg as [j Hj]. by apply (files_after c data (f :: l) 0 (S j) f g); [..|lia|]. }
  change (level_data (f :: l)) with (data f ++ level_data l). change (file_entry <$> f :: l) with ([file_entry f] ++ (file_entry <$> l)). rewrite !rank_app.
  pose proof Hf as [[Hsm Hlg _] Hasc _ Hr _]. apply valid_key_good in Hlg. destruct (decide (iord (largest f) k < 0)) as [Hlt|Hge].
  - rewrite (rank_all (ord := iord) k [file_entry f]) by (by apply Forall_singleton). rewrite (rank_all (ord := iord) k (data f)), (IH Hsl Hdl); cycle 1.
    { apply Forall_forall. intros e He. destruct (Hr e He) as [_ Hle]. apply (le_lt_lt (ok := internal_good) (ord := iord) e.1 (largest f) k); [by eapply (ascending_ok (ord := iord) (data f))|done..]. }
    change (length [file_entry f] + rank iord k (file_entry <$> l))%nat with (S (rank iord k (file_entry <$> l))). set (r := rank iord k (file_entry <$> l)). change (take (S r) (f :: l)) with (f :: take r l). change ((f :: l) !! S r) with (l !! r).
    change (level_data (f :: take r l)) with (data f ++ level_data (take r l)). rewrite length_app. lia.
  - rewrite (rank_none (ord := iord) k [file_entry f]) by (by apply Forall_singleton). pose proof (ord_anti (ok := internal_good) (ord := iord) (largest f) k Hlg Hk) as Hanti.
    rewrite (rank_none (ord := iord) k (level_data l)), (rank_none (ord := iord) k (file_entry <$> l)); [cbn; lia| |]; apply Forall_forall; unfold Order.below.
    + intros e (g & -> & Hg)%list_elem_of_fmap. cbn. rewrite Forall_forall in Hdl. destruct (Hdl g Hg) as [[_ Hlg' _] _ _ _ (v & Hv)]. apply valid_key_good in Hlg'.
      destruct (Hafter (largest g, v)) as [_ H2]; [apply level_data_elem; eauto|]. cbn in H2. pose proof (ord_anti (ok := internal_good) (ord := iord) (largest g) k Hlg' Hk). pose proof (le_lt_lt (ok := internal_good) (ord := iord) k (largest f) (largest g) Hk Hlg Hlg'). lia.
    + intros e He. destruct (Hafter e He) as [H1 H2]. pose proof (ord_anti (ok := internal_good) (ord := iord) e.1 k H1 Hk). pose proof (le_lt_lt (ok := internal_good) (ord := iord) k (largest f) e.1 Hk Hlg H1). lia.
Qed.

#[local] Instance level_c : IterMoves W LevelFileNumIterator := level_moves c.
#[local] Instance level_c_laws : IteratorLaws ok iord good (level_at c) := level_laws c ok Hok good.
#[local] Instance concat_c : IterMoves W (ConcatIterator J) := concat_moves c.
Definition data_at : list entry -> nat -> EmptyIterator + J -> Prop := sum_at (fun es _ it => es = [] /\ it = NewEmptyIterator) at_.
#[local] Instance data_laws : IteratorLaws ok iord good data_at.
Proof. apply sum_laws; apply _. Qed.

Lemma get_file_iterator ro f w : known f -> good w -> exists it w', GetFileIterator ro (file_value f) w = Ret (it, w') /\ data_at (data f) (length (data f)) it /\ good w'.
Proof.
  intros Hf Hw. destruct (fil_range f Hf) as [Hn Hz]. destruct (fil_new f ro w Hf Hw) as (it & w' & E & Hit & Hw'). unfold GetFileIterator, file_value.
  assert (length (EncodeFixed64 true (number f)) = 8%nat /\ length (EncodeFixed64 true (file_size f)) = 8%nat) as [E1 E2] by (unfold EncodeFixed64; by rewrite !le_split_length).
  rewrite length_app, E1, E2. cbn [Nat.eqb Nat.add negb]. rewrite decode_fixed64 by done. run. rewrite drop_app_length' by done. rewrite <- (app_nil_r (EncodeFixed64 true (file_size f))), decode_fixed64 by done. run. rewrite E. run. by exists (inr it), w'.
Qed.

(** The concatenating iterator is at position [p] of the entries of its files. *)
Definition concat_at (es : list entry) (p : nat) (it : ConcatIterator J) : Prop :=
  concat_fine (ct_files it) /\ es = level_data (ct_files it) /\ two_at (at1 := level_at c) (at2 := data_at) (ct_files it) data file_entry p (ct_two it).

Lemma concat_handles l f g : concat_fine l -> f ∈ l -> g ∈ l -> file_value f = file_value g -> f = g.
Proof.
  intros [_ Hf Hn] Hin Hin' E. destruct (fil_range f (proj1 (Hf f Hin))) as [Hnf _], (fil_range g (proj1 (Hf g Hin'))) as [Hng _]. unfold file_value in E. apply app_inj_1 in E as [E _]; [|unfold EncodeFixed64; by rewrite !le_split_length].
  apply table_key_inj in E; [|done|done]. apply list_elem_of_lookup in Hin as [i Hi]. apply list_elem_of_lookup in Hin' as [j Hj].
  assert (i = j) as ->; [|congruence]. eapply (NoDup_lookup _ i j (number f) Hn); rewrite list_lookup_fmap; [by rewrite Hi|by rewrite Hj, E].
Qed.

Lemma file_data_nonempty f : file_data c data f -> (0 < length (data f))%nat.
Proof. intros [_ _ _ _ (v & Hv)]. destruct (data f); [by apply not_elem_of_nil in Hv|cbn; lia]. Qed.

#[export] Instance concat_laws : IteratorLaws ok iord good concat_at.
Proof.
  split.
  - intros es p it (_ & -> & Hp). by apply (two_valid _ _ _ _ _ Hp).
  - intros es p it e (_ & -> & Hp) He. by apply (two_entry (W := W) _ _ _ _ _ _ Hp).
  - intros es p it (_ & -> & Hp). by apply (two_status (W := W) _ _ _ _ _ Hp).
  - intros es p it w op (Hl & -> & Hp) Hw Hop. pose proof Hl as [Hs Hf _]. unfold it_move, concat_c, concat_moves.
    destruct (two_op (at1 := level_at c) (at2 := data_at) (ct_files it) data file_entry) with (bf := GetFileIterator (ct_options it)) (fuel := S (S (length (ct_files it)))) (p := p) (w := ct_two it) (s := w) (op := op)
      as [(p' & w' & s' & Ec & E & Hp' & Hs')|[Ec E]]; try done.
    + intros f Hin. apply file_data_nonempty, Hf, Hin.
    + intros k Hk. apply level_rank; [by apply Hok|done|]. apply Forall_forall. intros f Hin. by apply Hf.
    + intros f g. by apply concat_handles.
    + lia.
    + intros f s Hin Hgood. apply get_file_iterator; [by apply Hf|done].
    + left. unfold level_c in E. rewrite E. run. eexists p', _, s'. split_and!; [done|reflexivity|by split_and!|done].
    + right. unfold level_c in E. rewrite E. done.
Qed.

Lemma new_concat ro l : concat_fine l -> exists it, NewConcatenatingIterator (J := J) ro l = Ret it /\ concat_at (level_data l) (length (level_data l)) it.
Proof.
  intros Hl. unfold NewConcatenatingIterator. destruct (new_two (at1 := level_at c) (at2 := data_at) l data file_entry (LevelFileNumIterator_new l)) as (w & -> & Hw).
  { apply new_level_iter. exact (level_sorted_by_largest c l (cf_sorted l Hl)). }
  run. eexists. split; [reflexivity|]. by split_and!.
Qed.
End Concat.

(** ** All the iterators of a version, and of a database *)

Section Database.
Context {W J : Type} `{IterView J} `{!IterMoves W J} `{FileIterators W J} (c : Comparator) `{!ComparatorLaws c}.
Abbreviation iord := (internal_ord c).
Context (good : W -> Prop) (at_ : list entry -> nat -> J -> Prop) (known : FileMetaData -> Prop) (data : FileMetaData -> list entry) `{!FileIteratorsLaws W J good at_ known data}.
Abbreviation level_data := (level_data data).
Abbreviation concat_fine := (concat_fine c known data).

(** The files of a level do not overlap, so that their entries are in order. *)
Lemma level_ascending l : level_sorted c l -> Forall (file_data c data) l -> ascending internal_good iord (level_data l).
Proof.
  induction l as [|f l IH]; intros Hs Hd; [by split; constructor|]. pose proof Hs as (Hfo & Hss & Hn). apply Forall_cons in Hd as Hd'. destruct Hd' as [Hf Hdl]. destruct (fd_sorted _ _ _ Hf) as [Hk Hso].
  destruct IH as [Hk' Hso']; [split_and!; [by apply Forall_cons in Hfo as [_ ?]|by apply StronglySorted_inv in Hss as [? _]|cbn [length] in Hn; lia]|done|].
  change (level_data (f :: l)) with (data f ++ level_data l). split; [by rewrite fmap_app, Forall_app|]. apply StronglySorted_app_2; [|done|done]. intros e e' He (g & Hg & He')%level_data_elem.
  apply list_elem_of_lookup in Hg as [j Hj]. destruct (files_after c data (f :: l) 0 (S j) f g e') as [Hg' Hlt]; [done|done|done|done|lia|done|]. destruct (fd_range _ _ _ Hf e He) as [_ Hle]. destruct (fd_ok _ _ _ Hf) as [_ Hlg _].
  apply (le_lt_lt (ok := internal_good) (ord := iord) e.1 (largest f) e'.1); [|by apply valid_key_good|done..]. by eapply (ascending_ok (ord := iord) (data f)); [split|].
Qed.

Section Children.
Context (ok : bytes -> Prop) (Hok : forall k, ok k -> internal_good k) `{!IteratorLaws ok iord good at_}.
#[local] Instance concat_db : IterMoves W (ConcatIterator J) := concat_moves c.
#[local] Instance concat_db_laws : IteratorLaws ok iord good (concat_at c at_ known data) := concat_laws c ok Hok good at_ known data.
Definition child_at : list entry -> nat -> J + ConcatIterator J -> Prop := sum_at at_ (concat_at c at_ known data).
Abbreviation shown ess its := (Forall2 (fun ei it => child_at ei (length ei) it) ess its).

Lemma each_file_spec ro l w : (forall f, f ∈ l -> known f) -> good w -> exists its w', each_file ro l w = Ret (its, w') /\ shown (data <$> l) its /\ good w'.
Proof.
  revert w. induction l as [|f l IH]; intros w Hl Hw; cbn [each_file]; [by eexists [], w|].
  destruct (fil_new f ro w (Hl f (list_elem_of_here _ _)) Hw) as (it & w1 & -> & Hit & Hw1). run. destruct (IH w1 (fun g Hg => Hl g (list_elem_of_further _ _ _ Hg)) Hw1) as (its & w2 & -> & Hits & Hw2). run.
  eexists _, w2. split_and!; [reflexivity| |done]. by constructor.
Qed.

Definition nonempty (l : list FileMetaData) : Prop := l <> [].
#[local] Instance nonempty_dec l : Decision (nonempty l).
Proof. destruct l; [right|left]; unfold nonempty; naive_solver. Defined.

Lemma concat_levels_spec ro levels : Forall concat_fine levels -> exists its, concat_levels (J := J) ro levels = Ret its /\ shown (level_data <$> filter nonempty levels) its.
Proof.
  induction 1 as [|l levels Hl _ (its & E & Hits)]; [by exists []|]. destruct l as [|f l]; cbn [concat_levels]; [by exists its; rewrite filter_cons_False by (by intros [])|].
  destruct (new_concat c ok Hok good at_ known data ro (f :: l) Hl) as (it & -> & Hit). run. rewrite E. run. eexists. split; [reflexivity|]. rewrite filter_cons_True by done. by constructor.
Qed.

Lemma nonempty_data levels : concat (level_data <$> filter nonempty levels) = concat (level_data <$> levels).
Proof. induction levels as [|[|f l] levels IH]; [done|rewrite filter_cons_False by (by intros []); done|]. rewrite filter_cons_True by done. cbn. by rewrite <- IH. Qed.

(** The levels of a version, from level 1. *)
Definition version_fine (files : list (list FileMetaData)) : Prop :=
  version_data c known data files /\ forall i l, files !! S i = Some l -> NoDup (number <$> l).

Lemma version_concat files l0 levels : version_fine files -> files = l0 :: levels -> Forall concat_fine levels.
Proof.
  intros [Hv Hn] ->. apply Forall_lookup. intros i l Hl. pose proof Hv as [Hvo Hf _ _ _]. split; [by apply (vo_sorted _ _ Hvo i)|intros f Hin; apply (Hf l f); [|done]; by eapply (list_elem_of_lookup_2 _ (S i))|by apply (Hn i)].
Qed.

Lemma add_iterators_spec ro files w : version_fine files -> good w ->
  exists its ess w', AddIterators ro files w = Ret (its, w') /\ shown ess its /\ good w' /\ version_entries data files = concat ess /\ Forall (ascending internal_good iord) ess.
Proof.
  intros Hv Hw. pose proof Hv as [Hvd _]. destruct files as [|l0 levels]; [by pose proof (vo_levels _ _ (vd_ok _ _ _ _ Hvd))|]. pose proof (version_concat _ _ _ Hv eq_refl) as Hl.
  assert (forall f, f ∈ l0 -> known f /\ file_data c data f) as Hf0 by (intros f Hf; apply (vd_files _ _ _ _ Hvd l0 f); [by left|done]). unfold AddIterators.
  destruct (each_file_spec ro l0 w (fun f Hf => proj1 (Hf0 f Hf)) Hw) as (its0 & w1 & -> & H0' & Hw1). run. destruct (concat_levels_spec ro levels Hl) as (its1 & -> & H1). run.
  eexists _, ((data <$> l0) ++ (level_data <$> filter nonempty levels)), w1. split_and!; [reflexivity|by apply Forall2_app|done| |].
  - unfold version_entries. cbn [fmap list_fmap concat]. by rewrite concat_app, nonempty_data.
  - apply Forall_app. split; apply Forall_fmap, Forall_forall; [intros f Hf; apply (fd_sorted _ _ _ (proj2 (Hf0 f Hf)))|].
    intros l [_ Hin]%list_elem_of_filter. rewrite Forall_forall in Hl. destruct (Hl l Hin) as [Hs Hf _]. apply level_ascending; [done|]. apply Forall_forall. intros f Hff. by apply Hf.
Qed.
End Children.

Section Inputs.
Context `{!IteratorLaws internal_good iord good at_}.
#[local] Instance concat_in : IterMoves W (ConcatIterator J) := concat_moves c.
#[local] Instance concat_in_laws : IteratorLaws internal_good iord good (concat_at c at_ known data) := concat_laws c internal_good (fun k Hk => Hk) good at_ known data.
#[local] Instance child_laws : IteratorLaws internal_good iord good child_at.
Proof. apply sum_laws; apply _. Qed.
#[local] Instance input_moves : IterMoves W (MergedIterator (J + ConcatIterator J)) := merged_moves (InternalCompare c).

(** One side of the inputs of a compaction. *)
Definition side_fine (level : Z) (l : list FileMetaData) : Prop := if level =? 0 then forall f, f ∈ l -> known f /\ file_data c data f else concat_fine l.

Lemma input_iterators_spec ro level l w : side_fine level l -> good w ->
  exists its ess w', input_iterators ro level l w = Ret (its, w') /\ Forall2 (fun ei it => child_at ei (length ei) it) ess its /\ good w' /\ level_data l = concat ess /\ Forall (ascending internal_good iord) ess /\
    (length its <= if (level =? 0)%Z then length l else 1)%nat.
Proof.
  intros Hl Hw. unfold input_iterators, side_fine in *. destruct l as [|f0 l0]; [eexists [], [], w; split_and!; try done; case_match; cbn; lia|]. set (l := f0 :: l0) in *. destruct (level =? 0).
  - destruct (each_file_spec ro l w (fun f Hf => proj1 (Hl f Hf)) Hw) as (its & w' & E & Hits & Hw'). exists its, (data <$> l), w'. split_and!; try done.
    + apply Forall_fmap, Forall_forall. intros f Hf. apply (fd_sorted _ _ _ (proj2 (Hl f Hf))).
    + apply Forall2_length in Hits. rewrite length_fmap in Hits. by rewrite Hits.
  - destruct (new_concat c internal_good (fun k Hk => Hk) good at_ known data ro l Hl) as (it & -> & Hit). run. eexists _, [level_data l], w. split_and!; [reflexivity|constructor; [exact Hit|constructor]|done|by cbn; rewrite app_nil_r| |cbn; lia].
    apply Forall_singleton. pose proof Hl as [Hs Hf _]. apply level_ascending; [done|]. apply Forall_forall. intros f Hff. by apply Hf.
Qed.

Lemma make_input_spec paranoid x es w : side_fine (level_ x) (inputs0 x) -> side_fine (level_ x + 1) (inputs1 x) -> 0 <= level_ x -> good w ->
  es ≡ₚ level_data (inputs0 x) ++ level_data (inputs1 x) -> ascending internal_good iord es ->
  exists it w', MakeInputIterator paranoid x w = Ret (it, w') /\ merged_at (ok := internal_good) (ord := iord) (at_ := child_at) es (length es) it /\ good w'.
Proof.
  intros H0' H1 Hlv Hw Hes Hasc. unfold MakeInputIterator. set (ro := MkReadOptions paranoid false).
  destruct (input_iterators_spec ro _ _ w H0' Hw) as (its0 & ess0 & w0 & -> & Hits0 & Hw0 & E0 & Ha0 & Hn0). run. destruct (input_iterators_spec ro _ _ w0 H1 Hw0) as (its1 & ess1 & w1 & -> & Hits1 & Hw1 & E1 & Ha1 & Hn1). run.
  rewrite (proj2 (Z.eqb_neq (level_ x + 1) 0)) in Hn1 by lia. rewrite (proj2 (Nat.leb_le _ _)) by (rewrite length_app; case_match; lia).
  destruct (new_merged (at_ := child_at) (ord := iord) (ok := internal_good) (ess0 ++ ess1) es (its0 ++ its1)) as (it & -> & Hit).
  - by rewrite concat_app, <- E0, <- E1.
  - done.
  - by apply Forall_app.
  - by apply Forall2_app.
  - run. by exists it, w1.
Qed.

(** C11: the input of a compaction is its input files, merged.  The iterator that
    MakeInputIterator makes, over the files of both levels, level 0 file by file and
    other levels as a whole, is a cursor over all their entries in the order of internal
    keys, whatever files it opens on the way. *)
Theorem compaction_input_merges paranoid x es ops w : side_fine (level_ x) (inputs0 x) -> side_fine (level_ x + 1) (inputs1 x) -> 0 <= level_ x -> good w ->
  es ≡ₚ level_data (inputs0 x) ++ level_data (inputs1 x) -> ascending internal_good iord es -> Forall (seeks_ok internal_good) ops ->
  exists it w', MakeInputIterator paranoid x w = Ret (it, w') /\ run_iter ops it w' = run_cursor iord es ops (length es).
Proof.
  intros H0' H1 Hlv Hw Hes Hasc Hops. destruct (make_input_spec paranoid x es w H0' H1 Hlv Hw Hes Hasc) as (it & w' & E & Hit & Hw'). exists it, w'. split; [done|].
  pose proof (merged_laws (at_ := child_at) (good := good) (InternalCompare c) (tl_compare (c := internal_comparator c))) as Hlaws. by apply (run_iter_cursor (IteratorLaws0 := Hlaws)).
Qed.
End Inputs.

Section Whole.
Context `{!IteratorLaws internal_good iord good at_} {F I : Type} `{CompactionEnv W F} `{!DbEnv W F I}.
#[local] Instance file_laws : IteratorLaws db_key iord good at_ := laws_weaken internal_good db_key iord good at_ db_key_good _.
#[local] Instance concat_all : IterMoves W (ConcatIterator J) := concat_moves c.
#[local] Instance concat_all_laws : IteratorLaws db_key iord good (concat_at c at_ known data) := concat_laws c db_key db_key_good good at_ known data.
#[local] Instance mem_all : IterMoves W MemTableIterator := mem_moves c.
#[local] Instance mem_all_laws : IteratorLaws db_key iord good (mem_at c) := mem_laws c good.
Definition part_at : list entry -> nat -> MemTableIterator + (J + ConcatIterator J) -> Prop := sum_at (mem_at c) child_at.
#[local] Instance part_laws : IteratorLaws db_key iord good part_at.
Proof. apply sum_laws; [apply _|]. apply sum_laws; apply _. Qed.
#[local] Instance whole_moves : IterMoves W (MergedIterator (MemTableIterator + (J + ConcatIterator J))) := merged_moves (InternalCompare c).

(** The entries of the memtables and of the version, in order. *)
Record whole (d : DBImpl F) (files : list (list FileMetaData)) (mes ies : list mem_entry) (es : list entry) : Prop := {
  wh_mem : mem_rep c (mem_ d) mes;
  wh_imm : match imm_ d with Some m => mem_rep c m ies | None => ies = [] end;
  wh_version : version_fine files;
  wh_all : es ≡ₚ (mem_pair <$> mes) ++ (mem_pair <$> ies) ++ version_entries data files;
  wh_sorted : ascending db_key iord es;
}.

Lemma internal_iterator_spec ro seed d w files mes ies es : files_ (VS.current_ (de_versions w)) = files -> whole d files mes ies es -> good w ->
  exists it w', NewInternalIterator (I := I) ro seed d w = Ret (it, VS.last_sequence_ (de_versions w), u32 (seed + 1), w') /\
    merged_at (ok := db_key) (ord := iord) (at_ := part_at) es (length es) it /\ good w'.
Proof.
  intros Hf [Hm Hi Hv Hall Hasc] Hw. unfold NewInternalIterator. rewrite Hf. destruct (add_iterators_spec db_key db_key_good ro files w Hv Hw) as (its & ess & w' & -> & Hits & Hw' & Ev & Hess). run.
  set (mems := MemTable_NewIterator (mem_ d) :: _).
  assert (exists mss, Forall2 (fun ei it => mem_at c ei (length ei) it) mss mems /\ concat mss = (mem_pair <$> mes) ++ (mem_pair <$> ies) /\ Forall (ascending db_key iord) mss) as (mss & Hmems & Em & Hma).
  { subst mems. pose proof (new_mem_iter c (mem_ d) mes Hm) as Hm1. pose proof (mem_ascending c (mem_ d) mes Hm) as Hm2. destruct (imm_ d) as [imm|].
    - exists [mem_pair <$> mes; mem_pair <$> ies]. split_and!; [by repeat (constructor; [first [exact Hm1|by apply new_mem_iter]|]); constructor|by cbn; rewrite app_nil_r|]. repeat (constructor; [first [exact Hm2|by eapply mem_ascending]|]). constructor.
    - subst ies. exists [mem_pair <$> mes]. split_and!; [by constructor; [exact Hm1|constructor]|done|by apply Forall_singleton]. }
  destruct (new_merged (at_ := part_at) (ord := iord) (ok := db_key) (mss ++ ess) es ((inl <$> mems) ++ (inr <$> its))) as (it & -> & Hit).
  - by rewrite concat_app, Em, <- Ev, <- app_assoc.
  - done.
  - apply Forall_app. split; [done|]. apply Forall_forall. intros ei Hei. rewrite Forall_forall in Hess. destruct (Hess ei Hei) as [_ Hso]. split; [|done]. apply Forall_fmap, Forall_forall. intros e He.
    apply (ascending_ok (ord := iord) es e Hasc). rewrite Hall, Ev, !elem_of_app. right. right. apply list_elem_of_In, in_concat. exists ei. split; by apply list_elem_of_In.
  - apply Forall2_app; apply Forall2_fmap_r; [eapply Forall2_impl; [exact Hmems|]; by intros ei x Hx|eapply Forall2_impl; [exact Hits|]; by intros ei x Hx].
  - run. by exists it, w'.
Qed.

(** C5: the iterator of a database shows the database.  Over the memtable, the memtable
    that is being flushed and all the files of the current version, DBImpl::NewIterator
    makes an iterator that shows, in the order of the user comparator and in both
    directions, exactly the keys whose newest entry at the sequence number of the
    snapshot, or at the last one, is a value, each once and with this value. *)
Theorem database_iterator_snapshot ro snapshot seed d w files mes ies es seq fuel ops : files_ (VS.current_ (de_versions w)) = files -> whole d files mes ies es -> good w ->
  default (VS.last_sequence_ (de_versions w)) snapshot = seq -> 0 <= seq <= kMaxSequenceNumber -> (length es < fuel)%nat -> Forall (seeks_ok (fun u => Z.of_nat (length u) + 13 < 2 ^ 32)) ops ->
  exists it w' us, DBImpl_NewIterator (I := I) ro snapshot seed d w = Ret (it, seq, u32 (seed + 1), w') /\ ascending (fun _ => True) (cmp_Compare c) us /\
    (forall u v, (u, v) ∈ us <-> newest c seq es u v) /\ run_iter (H0 := db_moves c seq fuel) ops it w' = run_cursor (cmp_Compare c) us ops (length us).
Proof.
  intros Hf Hwh Hw <- Hs Hfuel Hops. unfold DBImpl_NewIterator. destruct (internal_iterator_spec ro seed d w files mes ies es Hf Hwh Hw) as (it & w' & -> & Hit & Hw'). run. set (seq := default _ _) in *.
  pose proof (merged_laws (at_ := part_at) (good := good) (ok := db_key) (InternalCompare c) (fun a b Ha Hb => tl_compare (c := internal_comparator c) a b (db_key_good a Ha) (db_key_good b Hb))) as Hlaws.
  assert (forall u, Z.of_nat (length u) + 13 < 2 ^ 32 -> db_key (ikey u seq kValueTypeForSeek)) as Hseek by (intros u Hu; exists u, seq, kValueTypeForSeek; split_and!; [done|split; [done|by right]|done]).
  pose proof (es_user_sorted c db_key db_key_good es (wh_sorted _ _ _ _ _ Hwh)) as Hsorted. eexists _, w', (visible c seq None es). split_and!; [done|split; [by apply Forall_true|by apply visible_sorted]|by intros u v; apply visible_newest|].
  apply (run_db_iter (IteratorLaws0 := Hlaws) c seq Hs db_key (fun u => Z.of_nat (length u) + 13 < 2 ^ 32) db_key_good Hseek es (wh_sorted _ _ _ _ _ Hwh) fuel Hfuel); [done| |done]. by eapply new_db_iter.
Qed.
End Whole.
End Database.

(** ** What the two-level iterator leaves alone *)

#[local] Ltac step E x := match type of E with context [mbind _ ?e] => destruct e as [x| |] eqn:?; cbn [mbind outcome_bind] in E; [|done..] end.

Section Frame.
Context {W I1 I2 : Type} `{IterView I1} `{!IterMoves W I1} `{IterView I2} `{!IterMoves W I2} (bf : bytes -> W -> outcome (I2 * W)) (P : W -> Prop).
Context (Hbf : forall h w it w', bf h w = Ret (it, w') -> P w -> P w') (H1 : forall op (i : I1) w i' w', it_move op i w = Ret (i', w') -> P w -> P w') (H2 : forall op (i : I2) w i' w', it_move op i w = Ret (i', w') -> P w -> P w').

Lemma wrapper_frame {I} `{IterView I} `{!IterMoves W I} op x w x' w' : (forall op (i : I) w i' w', it_move op i w = Ret (i', w') -> P w -> P w') -> Wrapper.move op x w = Ret (x', w') -> P w -> P w'.
Proof. intros Hm E Hw. unfold Wrapper.move in E. destruct (Wrapper.iter_ x) as [it|]; [|done]. step E p. destruct p as [it' w1]. step E y. injection E as _ <-. by eapply Hm. Qed.

Lemma init_frame (t : Two.TwoLevelIterator I1 I2) w t' w' : Two.InitDataBlock bf t w = Ret (t', w') -> P w -> P w'.
Proof.
  unfold Two.InitDataBlock. intros E Hw. destruct (negb _); [step E x; by injection E as _ <-|]. step E h. destruct (_ && _); [by injection E as _ <-|]. step E p. destruct p as [it w1]. step E x. injection E as _ <-. by eapply Hbf.
Qed.

Lemma move_data_frame op (t : Two.TwoLevelIterator I1 I2) w t' w' : Two.move_data op t w = Ret (t', w') -> P w -> P w'.
Proof. unfold Two.move_data. intros E Hw. destruct (Two.present _); [|by injection E as _ <-]. step E p. destruct p as [x w1]. injection E as _ <-. by eapply wrapper_frame. Qed.

Lemma skip_frame fuel mv st : forall (t : Two.TwoLevelIterator I1 I2) w t' w', Two.skip bf fuel mv st t w = Ret (t', w') -> P w -> P w'.
Proof.
  induction fuel as [|fuel IH]; intros t w t' w' E Hw; [done|]. cbn [Two.skip] in E. destruct (_ || _); [|by injection E as _ <-]. destruct (negb _); [step E x; by injection E as _ <-|].
  step E p. destruct p as [x w1]. step E p. destruct p as [t1 w2]. step E p. destruct p as [t2 w3]. eapply (IH _ _ _ _ E). eapply move_data_frame; [eassumption|]. eapply init_frame; [eassumption|]. by eapply (wrapper_frame (I := I1) mv _ _ _ _ H1).
Qed.

Lemma two_frame fuel op (t : Two.TwoLevelIterator I1 I2) w t' w' : Two.move bf fuel op t w = Ret (t', w') -> P w -> P w'.
Proof.
  intros E Hw. destruct op; cbn [Two.move] in E.
  1-3: (unfold Two.SeekToFirst, Two.SeekToLast, Two.Seek in E; step E p; destruct p as [x w1]; step E p; destruct p as [t1 w2]; step E p; destruct p as [t2 w3]; eapply skip_frame; [exact E|]; eapply move_data_frame; [done|]; eapply init_frame; [done|]; by eapply (wrapper_frame (I := I1) _ _ _ _ _ H1)).
  all: unfold Two.Next, Two.Prev in E; destruct (Two.Valid t); [|done]; step E p; destruct p as [x w1]; eapply skip_frame; [exact E|]; by eapply (wrapper_frame (I := I2) _ _ _ _ _ H2).
Qed.
End Frame.

(** ** The table cache opens the files

    Without a block cache, whose ids of 64 bits an iterator that goes on for ever may use
    up, the iterators of the table cache show the entries of the files. *)

Section Cached.
Context {HS FS F C : Type} `{RandomAccessFile F} `{BlockCache C} `{OpenFiles FS F} `{!TableHandles HS (Table (F := F))}.
Context (snappy : option snappy_lib) (addr : Z) (Haddr : 0 <= addr) (dbname : bytes) (ropts : Options).
Abbreviation TC := (TableCache HS FS C).

(** An iterator with an error has no entries. *)
Definition cache_iterators : FileIterators TC (EmptyIterator + TableIterator F) := fun ro n size t =>
  '(r, t) ← TableCache.NewIterator snappy addr dbname ropts ro n size t;
  Ret (match r with inl s => inl (NewErrorIterator s) | inr it => inr it end, t).

(** The iterators of all tables share the block cache. *)
Definition cached_moves : IterMoves TC (TableIterator F) := fun op it t =>
  '(it, blocks) ← table_moves snappy addr op it (block_cache t); Ret (it, MkTableCache (cache_ t) blocks (env_ t)).

Context (opts : Options) (c : Comparator) `{!ComparatorLaws c} (same : bytes -> bytes -> Prop) `{!TableComparatorLaws (comparator opts) internal_good (internal_ord c) same} (Hro : reader_options opts ropts).
Context (has : HS -> bytes -> Table (F := F) -> Prop) `{!TableHandlesLaws HS (Table (F := F)) has} (holds : C -> bytes -> Block -> Prop) `{!BlockCacheLaws C holds} (issued : C -> Z -> Prop) (room : C -> nat -> Prop) `{!FreshIds C issued room}.
Context (fs : FS) (data : FileMetaData -> list entry).
Abbreviation iord := (internal_ord c).
Abbreviation file_known := (file_known snappy dbname opts c same fs data).
Abbreviation cache_inv := (cache_inv snappy dbname opts c same has holds issued room fs data).
Context (Hnumber : forall f g, file_known f -> file_known g -> number f = number g -> data f = data g).
#[local] Existing Instance cache_iterators.
#[local] Existing Instance cached_moves.

Definition cache_good (t : TC) : Prop := block_cache t = None /\ exists ts, cache_inv 0 ts t.
Definition open_at (es : list entry) (p : nat) (it : TableIterator F) : Prop :=
  exists bs, opened snappy opts internal_good iord same (ti_table it) bs /\ table_at internal_good iord [(ti_table it, bs)] es p it.

Lemma no_block_cache (ts : list (Table (F := F) * list tblock)) : shared_cache holds ts (None : option C).
Proof. by split. Qed.

Lemma table_moves_none op (it it' : TableIterator F) (s : option C) : table_moves snappy addr op it None = Ret (it', s) -> ti_table it' = ti_table it /\ s = None.
Proof.
  unfold table_moves. intros E. destruct (Two.move _ _ op (ti_two it) None) as [[two s1]| |] eqn:Em; [|done..]. cbn [mbind outcome_bind] in E. injection E as <- <-. split; [done|].
  eapply (two_frame _ (fun s => s = None)) in Em; [done| | | |done]; [|by intros op' i w i' w' Eb ->; unfold it_move, block_moves in Eb; step Eb x; injection Eb as _ <-..].
  intros h w i w' Er ->. pose proof (block_reader_rel snappy addr (fun _ _ => True) ltac:(done) ltac:(done) ltac:(done) (ti_table it) (ti_options it) h None i w' ltac:(done) Er) as Hrel. by destruct w'.
Qed.

#[export] Instance open_laws : IteratorLaws internal_good iord cache_good open_at.
Proof.
  assert (forall t bs, opened snappy opts internal_good iord same t bs -> IteratorLaws (H0 := table_moves snappy addr) internal_good iord (shared_cache (C := C) holds [(t, bs)]) (table_at internal_good iord [(t, bs)])) as Hlaws.
  { intros t bs Ho. eapply (table_laws snappy addr Haddr opts internal_good iord same holds). by intros t' bs' [= -> ->]%list_elem_of_singleton. }
  split.
  - intros es p it (bs & Ho & Hit). by apply (il_valid (IteratorLaws := Hlaws _ _ Ho)).
  - intros es p it e (bs & Ho & Hit). by apply (il_entry (IteratorLaws := Hlaws _ _ Ho)).
  - intros es p it (bs & Ho & Hit). by apply (il_status (IteratorLaws := Hlaws _ _ Ho) es p).
  - intros es p it t op (bs & Ho & Hit) [Hb [ts Ht]] Hop. unfold it_move, cached_moves. rewrite Hb.
    destruct (il_move (IteratorLaws := Hlaws _ _ Ho) es p it None op Hit (no_block_cache _) Hop) as [(p' & it' & s' & Ec & E & Hit' & _)|[Ec E]]; unfold it_move in E; rewrite E; [left|by right]. run.
    destruct (table_moves_none op it it' s' E) as [Et ->]. eexists p', it', _. split; [done|]. split; [done|]. split; [exists bs; by rewrite Et|]. split; [done|]. exists ts.
    destruct Ht as [Q0 Q1 Q2 Q3 Q4 Q5]. by split; cbn; try rewrite <- Hb.
Qed.

(** What opening needs of the caches holds whatever the number of ids that are left. *)
Lemma cache_room n ts (t : TC) : block_cache t = None -> cache_inv 0 ts t -> cache_inv n ts t.
Proof. intros Hb [Q0 Q1 Q2 Q3 Q4 Q5]. split; try done. intros b E. by rewrite Hb in E. Qed.

#[export] Instance cache_iterators_laws : FileIteratorsLaws TC (EmptyIterator + TableIterator F) cache_good (sum_at (fun es _ it => es = [] /\ it = NewEmptyIterator) open_at) (fun f => file_known f /\ file_size f < 2 ^ 64) data.
Proof.
  split.
  - intros f [Hf Hz]. pose proof (fk_number _ _ _ _ _ _ _ _ Hf). destruct (fk_table _ _ _ _ _ _ _ _ Hf) as (bs & contents & file & _ & _ & _ & _ & _ & Ez). lia.
  - intros f ro t [Hf _] [Hb [ts Ht]]. destruct (cached_iter_spec snappy addr Haddr dbname opts ropts c same Hro has holds issued room fs data Hnumber 0 ts f ro t (cache_room 1 ts t Hb Ht) Hf) as (ts' & it & t' & E & Ht' & Hit & Hnone).
    unfold fi_NewIterator, cache_iterators. rewrite E. run. eexists _, t'. split; [done|]. split; [|split; [by apply Hnone|by exists ts']].
    destruct Hit as (bs & Hin & Ebs & Hp). exists bs. split; [by eapply ci_opened|]. exists bs. split_and!; [by left|done|done].
Qed.
End Cached.

(** ** Examples *)

(** The entries of the files 9 and 4, merged. *)
Definition merged_sample : list entry :=
  [(ikey (str "b") 5 kTypeValue, str "new"); (ikey (str "b") 2 kTypeValue, str "old"); (ikey (str "c") 6 kTypeDeletion, []); (ikey (str "c") 3 kTypeValue, str "gone"); (ikey (str "d") 1 kTypeValue, str "x")].

Lemma merged_sample_all : merged_sample ≡ₚ sample_data 9 ++ sample_data 4.
Proof. apply NoDup_Permutation; [apply (bool_decide_unpack _); by vm_compute..|]. intros e. unfold merged_sample, sample_data. cbn [Z.eqb Pos.eqb app]. rewrite !elem_of_cons, elem_of_nil. tauto. Qed.

Lemma merged_sample_sorted : ascending db_key (internal_ord BytewiseComparator) merged_sample.
Proof.
  split; [|repeat constructor; vm_compute; reflexivity]. repeat (apply Forall_cons; split; [eexists _, _, _; split; [reflexivity|split; [split; [by vm_compute|first [by left|by right]]|done]]|]). by apply Forall_nil.
Qed.

Abbreviation sample_tables := (TableCache (list (bytes * Table (F := bytes))) (list (bytes * bytes)) toy_cache).
#[local] Instance sample_iterators : FileIterators sample_tables (EmptyIterator + TableIterator bytes) := cache_iterators (Some toy_snappy) 0 (str "db") sample_options.
#[local] Instance sample_table_moves : IterMoves sample_tables (TableIterator bytes) := cached_moves (Some toy_snappy) 0.
#[local] Instance sample_concat_moves : IterMoves sample_tables (ConcatIterator (EmptyIterator + TableIterator bytes)) := concat_moves BytewiseComparator.
#[local] Instance sample_merged_moves : IterMoves sample_tables (MergedIterator (EmptyIterator + TableIterator bytes + ConcatIterator (EmptyIterator + TableIterator bytes))) := merged_moves (InternalCompare BytewiseComparator).

Definition sample_compaction (n9 n4 : Z) : Compaction := set_inputs (Compaction_new 0 (sized_version n9 n4) []) [file9 n9] [file4 n4] [] VE.new.

Lemma sample_size n contents : n = 9 \/ n = 4 -> build_table (Some toy_snappy) 0 sample_options (sample_data n) = Ret (OK, contents) -> Z.of_nat (length contents) < 2 ^ 64.
Proof. intros [->| ->] E; vm_compute in E; injection E as <-; by vm_compute. Qed.

(** A compaction of both files, read through the table cache. *)
Lemma compaction_input_merges_witness : exists n9 n4 (t : sample_tables) it t', block_cache t = None /\ MakeInputIterator (J := EmptyIterator + TableIterator bytes) true (sample_compaction n9 n4) t = Ret (it, t') /\
  run_iter [OpFirst; OpNext; OpNext; OpLast; OpPrev] it t' = run_cursor (internal_ord BytewiseComparator) merged_sample [OpFirst; OpNext; OpNext; OpLast; OpPrev] 5.
Proof.
  destruct (sample_table_built 9 ltac:(auto)) as (bs9 & c9 & E9 & Ee9 & Hr9). destruct (sample_table_built 4 ltac:(auto)) as (bs4 & c4 & E4 & Ee4 & Hr4).
  pose proof (sample_known bs9 c9 c4 _ (or_introl (conj eq_refl (conj Ee9 Hr9)))) as K9. pose proof (sample_known bs4 c9 c4 _ (or_intror (conj eq_refl (conj Ee4 Hr4)))) as K4.
  pose proof (sample_size 9 c9 (or_introl eq_refl) E9) as Z9. pose proof (sample_size 4 c4 (or_intror eq_refl) E4) as Z4. clear E9 E4.
  set (n9 := Z.of_nat (length c9)) in *. set (n4 := Z.of_nat (length c4)) in *. set (t := MkTableCache [] None (sample_files c9 c4) : sample_tables).
  pose proof (cache_iterators_laws (C := toy_cache) (Some toy_snappy) 0 ltac:(lia) (str "db") sample_options sample_options BytewiseComparator same_user ltac:(split; [done|by right]) (fun s k t => (k, t) ∈ s) toy_holds (fun c i => 0 <= i < c.1)
    (fun c n => 0 <= c.1 /\ c.1 + Z.of_nat n <= 2 ^ 64) (sample_files c9 c4) (fun f => sample_data (number f)) ltac:(by intros f g _ _ E; cbn; rewrite E)) as Hlaws.
  pose proof (open_laws (C := toy_cache) (F := bytes) (HS := list (bytes * Table (F := bytes))) (FS := list (bytes * bytes)) (Some toy_snappy) 0 ltac:(lia) (str "db") sample_options BytewiseComparator same_user (fun s k t => (k, t) ∈ s) toy_holds (fun c i => 0 <= i < c.1)
    (fun c n => 0 <= c.1 /\ c.1 + Z.of_nat n <= 2 ^ 64) (sample_files c9 c4) (fun f => sample_data (number f))) as Hopen.
  destruct (compaction_input_merges (FileIteratorsLaws0 := Hlaws) BytewiseComparator _ _ _ _ true (sample_compaction n9 n4) merged_sample [OpFirst; OpNext; OpNext; OpLast; OpPrev] t) as (it & t' & E & Hrun).
  - intros f ->%list_elem_of_singleton. split; [split; [exact K9|exact Z9]|]. apply (sized_files n9 n4 [file9 n9]); by left.
  - split.
    + apply (vo_sorted _ _ (vd_ok _ _ _ _ (sized_version_data (fun _ => True) n9 n4 ltac:(done) ltac:(done))) 0). reflexivity.
    + intros f ->%list_elem_of_singleton. split; [split; [exact K4|exact Z4]|]. apply (sized_files n9 n4 [file4 n4]); [right; by left|by left].
    + apply NoDup_singleton.
  - done.
  - split; [done|]. exists []. split; [done|done|by intros tb bs ?%not_elem_of_nil|apply no_block_cache|by split|by intros k tb ?%not_elem_of_nil].
  - apply merged_sample_all.
  - destruct merged_sample_sorted as [Hk Hs]. split; [|exact Hs]. eapply Forall_impl; [exact Hk|apply db_key_good].
  - repeat constructor.
  - exists n9, n4, t, it, t'. split; [reflexivity|]. split; [exact E|exact Hrun].
Defined.

(** A database whose memtable has a newer ["b"], over iterators in memory. *)
#[local] Existing Instance toy_env.
#[local] Existing Instance toy_db.
#[local] Instance toy_list_moves : IterMoves toy_world ListIterator := list_moves (internal_ord BytewiseComparator).
#[local] Instance toy_iterators : FileIterators toy_world ListIterator := fun _ n _ w => Ret (MkListIter (sample_data n) (length (sample_data n)), w).

#[local] Instance toy_iterators_laws : FileIteratorsLaws toy_world ListIterator (fun _ => True) (fun es p it => it = MkListIter es p) (fun f => number f = 9 /\ file_size f = 100 \/ number f = 4 /\ file_size f = 100) (fun f => sample_data (number f)).
Proof. split; [intros f; lia|]. intros f ro w _ _. by eexists _, w. Qed.

Lemma database_iterator_snapshot_witness : exists m log it w' us, mem_rep BytewiseComparator m [ME (str "b") 8 kTypeValue (str "newest")] /\
  DBImpl_NewIterator (I := ListIterator) (J := ListIterator) (MkReadOptions true true) None 0 (toy_db_state m log None false) read_state = Ret (it, 9, 1, w') /\
  (forall u v, (u, v) ∈ us <-> newest BytewiseComparator 9 ((ikey (str "b") 8 kTypeValue, str "newest") :: merged_sample) u v) /\
  run_iter (H0 := db_moves (H0 := merged_moves (H0 := sum_moves (H := mem_moves BytewiseComparator) (H0 := sum_moves (H0 := concat_moves BytewiseComparator))) (InternalCompare BytewiseComparator)) BytewiseComparator 9 7)
    [OpFirst; OpNext; OpPrev; OpSeek (str "c"); OpNext] it w' = run_cursor slice_compare us [OpFirst; OpNext; OpPrev; OpSeek (str "c"); OpNext] (length us).
Proof.
  destruct (memtable_of BytewiseComparator (ME (str "b") 8 kTypeValue (str "newest"))) as (m & Hm); [split_and!; [split; [by vm_compute|by right]|done|done]|]. destruct toy_log as [log _].
  destruct (database_iterator_snapshot (W := toy_world) (J := ListIterator) (I := ListIterator) (FileIteratorsLaws0 := toy_iterators_laws) (IteratorLaws0 := list_laws internal_good (internal_ord BytewiseComparator) (fun _ : toy_world => True)) BytewiseComparator _ _ _ _
    (MkReadOptions true true) None 0 (toy_db_state m log None false) read_state sample_version [ME (str "b") 8 kTypeValue (str "newest")] [] ((ikey (str "b") 8 kTypeValue, str "newest") :: merged_sample) 9 7
    [OpFirst; OpNext; OpPrev; OpSeek (str "c"); OpNext]) as (it & w' & us & E & Hus & Hn & Hrun).
  - apply finalize_files.
  - split.
    + exact Hm.
    + reflexivity.
    + split; [apply (sized_version_data _ 100 100); [by left|by right]|]. intros [|i] l; [intros [= <-]; apply NoDup_singleton|]. intros Hl. assert (l = []) as ->; [|constructor]. repeat (destruct i as [|i]; [by injection Hl|]). done.
    + cbn [fmap list_fmap app]. apply Permutation_skip, merged_sample_all.
    + destruct merged_sample_sorted as [Hk Hs]. split; [apply Forall_cons; split; [|exact Hk]|constructor; [exact Hs|repeat constructor; vm_compute; reflexivity]].
      eexists _, _, _. split; [reflexivity|split; [split; [by vm_compute|by right]|done]].
  - exact Logic.I.
  - reflexivity.
  - by vm_compute.
  - cbn. lia.
  - repeat constructor.
  - exists m, log, it, w', us. split; [exact Hm|]. split; [exact E|]. split; [exact Hn|exact Hrun].
Defined.
