(* ===== verification/Cache.v ===== *)
(** * LevelDB's sharded LRU cache (util/leveldb/util/cache.cc)

    Handles live in one memory.  A shard keeps them on a circular list in order of
    use, with a dummy head inside the shard, and on the chains of a hash table; the
    cache and its clients count references, and a handle that nobody refers to is
    given to its deleter and freed. *)

From S2P Require Import Prelude Slice FilterPolicy.
#[local] Open Scope Z_scope.

(** ** Memory *)

(** A pointer on the list of a shard: its dummy head, or a handle. *)
Inductive link := Lru | At (p : positive).

#[global] Instance link_eq_dec : EqDecision link.
Proof. solve_decision. Defined.

(** [key_data] stands for the bytes and their length. *)
Record LRUHandle (V : Type) := MkHandle {
  value : V;
  next_hash : option positive;
  next : link;
  prev : link;
  charge : Z;
  key_data : bytes;
  refs : Z;
  hash : Z;
}.
Arguments MkHandle {V}.
Arguments value {V}.
Arguments next_hash {V}.
Arguments next {V}.
Arguments prev {V}.
Arguments charge {V}.
Arguments key_data {V}.
Arguments refs {V}.
Arguments hash {V}.

Abbreviation handles V := (gmap positive (LRUHandle V)).

Section Memory.
Context {V : Type}.
Implicit Types (H : handles V) (h : LRUHandle V).

Definition with_next_hash (q : option positive) h := MkHandle (value h) q (next h) (prev h) (charge h) (key_data h) (refs h) (hash h).
Definition with_next (l : link) h := MkHandle (value h) (next_hash h) l (prev h) (charge h) (key_data h) (refs h) (hash h).
Definition with_prev (l : link) h := MkHandle (value h) (next_hash h) (next h) l (charge h) (key_data h) (refs h) (hash h).
Definition with_refs (n : Z) h := MkHandle (value h) (next_hash h) (next h) (prev h) (charge h) (key_data h) n (hash h).

(** Reading and writing through a pointer: one that was freed is undefined. *)
Definition load (p : positive) H : outcome (LRUHandle V) := match H !! p with Some h => Ret h | None => Undef end.
Definition store (p : positive) (f : LRUHandle V -> LRUHandle V) H : outcome (handles V) := h ← load p H; Ret (<[p := f h]> H).

(** [malloc]: an address that is not in use. *)
Definition new_handle H : positive := fresh (dom H : gset positive).

(** [LRUHandle::key]: with [next == this] the value would be read as a slice. *)
Definition handle_key (p : positive) H : outcome bytes :=
  h ← load p H;
  if decide (next h = At p) then Undef else Ret (key_data h).
End Memory.

(** ** [class HandleTable] *)

Module HT.
Section Ops.
Context {V : Type}.
Implicit Types (H : handles V).

Record HandleTable := MkTable { length_ : Z; elems_ : Z; list_ : list (option positive) }.

(** [LRUHandle**]: a bucket, or the [next_hash] of a handle. *)
Inductive slot := Bucket (i : nat) | NextHash (p : positive).

Definition read_slot (t : HandleTable) (s : slot) H : outcome (option positive) :=
  match s with
  | Bucket i => match list_ t !! i with Some q => Ret q | None => Undef end
  | NextHash p => h ← load p H; Ret (next_hash h)
  end.

Definition write_slot (t : HandleTable) (s : slot) (q : option positive) H : outcome (HandleTable * handles V) :=
  match s with
  | Bucket i =>
      match list_ t !! i with
      | Some _ => Ret (MkTable (length_ t) (elems_ t) (<[i := q]> (list_ t)), H)
      | None => Undef
      end
  | NextHash p => H ← store p (with_next_hash q) H; Ret (t, H)
  end.

Fixpoint find_slot (fuel : nat) (key : bytes) (hash_ : Z) (t : HandleTable) (ptr : slot) H : outcome slot :=
  match fuel with
  | O => Undef
  | S fuel' =>
      q ← read_slot t ptr H;
      match q with
      | None => Ret ptr
      | Some p =>
          h ← load p H;
          differs ← (if negb (hash h =? hash_) then Ret true else k ← handle_key p H; Ret (negb (slice_eqb key k)));
          if (differs : bool) then find_slot fuel' key hash_ t (NextHash p) H else Ret ptr
      end
  end.

Definition FindPointer (key : bytes) (hash_ : Z) (t : HandleTable) H : outcome slot :=
  find_slot (S (size H)) key hash_ t (Bucket (Z.to_nat (Z.land hash_ (u32 (length_ t - 1))))) H.

Definition Lookup (key : bytes) (hash_ : Z) (t : HandleTable) H : outcome (option positive) :=
  ptr ← FindPointer key hash_ t H; read_slot t ptr H.

(** [while (new_length < elems_) new_length *= 2]: after 29 rounds the length is
    [2 ^ 31], and the next one would wrap it to 0 for ever. *)
Fixpoint grow (fuel : nat) (new_length elems : Z) : outcome Z :=
  if new_length <? elems then
    match fuel with O => Undef | S fuel' => grow fuel' (u32 (new_length * 2)) elems end
  else Ret new_length.

(** Moves the chain at [h] to the new list. *)
Fixpoint move_chain (fuel : nat) (h : option positive) (new_length : Z) (new_list : list (option positive)) (count : Z) H :
    outcome (list (option positive) * Z * handles V) :=
  match h with
  | None => Ret (new_list, count, H)
  | Some p =>
      match fuel with
      | O => Undef
      | S fuel' =>
          e ← load p H;
          let i := Z.to_nat (Z.land (hash e) (u32 (new_length - 1))) in
          match new_list !! i with
          | None => Undef
          | Some q =>
              H ← store p (with_next_hash q) H;
              move_chain fuel' (next_hash e) new_length (<[i := Some p]> new_list) (u32 (count + 1)) H
          end
      end
  end.

Definition Resize (t : HandleTable) H : outcome (HandleTable * handles V) :=
  new_length ← grow 30 4 (elems_ t);
  '(new_list, count, H) ← foldM (fun h '(new_list, count, H) => move_chain (size H) h new_length new_list count H)
    (list_ t) (replicate (Z.to_nat new_length) None, 0, H);
  assert! elems_ t =? count;
  Ret (MkTable new_length (elems_ t) new_list, H).

Definition new H : outcome (HandleTable * handles V) := Resize (MkTable 0 0 []) H.

Definition Insert (h : positive) (t : HandleTable) H : outcome (option positive * HandleTable * handles V) :=
  k ← handle_key h H;
  e ← load h H;
  ptr ← FindPointer k (hash e) t H;
  old ← read_slot t ptr H;
  nh ← match old with None => Ret None | Some o => oh ← load o H; Ret (next_hash oh) end;
  H ← store h (with_next_hash nh) H;
  '(t, H) ← write_slot t ptr (Some h) H;
  match old with
  | Some _ => Ret (old, t, H)
  | None =>
      let t := MkTable (length_ t) (u32 (elems_ t + 1)) (list_ t) in
      '(t, H) ← (if length_ t <? elems_ t then Resize t H else Ret (t, H));
      Ret (old, t, H)
  end.

Definition Remove (key : bytes) (hash_ : Z) (t : HandleTable) H : outcome (option positive * HandleTable * handles V) :=
  ptr ← FindPointer key hash_ t H;
  result ← read_slot t ptr H;
  match result with
  | None => Ret (result, t, H)
  | Some r =>
      e ← load r H;
      '(t, H) ← write_slot t ptr (next_hash e) H;
      Ret (result, MkTable (length_ t) (u32 (elems_ t - 1)) (list_ t), H)
  end.
End Ops.
End HT.

(** ** [class LRUCache], a shard *)

Module LRU.
Section Ops.
Context {V : Type}.

(** [lru_next] and [lru_prev] are the links of the dummy head [lru_]. *)
Record LRUCache := MkLRU { capacity_ : Z; usage_ : Z; lru_next : link; lru_prev : link; table_ : HT.HandleTable }.

(** The handles, and what was given to deleters. *)
Record memory := Mem { heap : handles V; deleted : list (bytes * V) }.

Implicit Types (H : handles V) (m : memory) (c : LRUCache).

Definition set_table c (t : HT.HandleTable) : LRUCache := MkLRU (capacity_ c) (usage_ c) (lru_next c) (lru_prev c) t.
Definition set_usage c (n : Z) : LRUCache := MkLRU (capacity_ c) n (lru_next c) (lru_prev c) (table_ c).

(** [SetCapacity] gives [capacity_] its first value. *)
Definition new H : outcome (LRUCache * handles V) :=
  '(t, H) ← HT.new H; Ret (MkLRU 0 0 Lru Lru t, H).

Definition SetCapacity (capacity : Z) c : LRUCache := MkLRU capacity (usage_ c) (lru_next c) (lru_prev c) (table_ c).
Definition TotalCharge c : Z := usage_ c.

(** [l->next = v] and [l->prev = v] *)
Definition set_next (l v : link) H c : outcome (handles V * LRUCache) :=
  match l with
  | Lru => Ret (H, MkLRU (capacity_ c) (usage_ c) v (lru_prev c) (table_ c))
  | At p => H ← store p (with_next v) H; Ret (H, c)
  end.

Definition set_prev (l v : link) H c : outcome (handles V * LRUCache) :=
  match l with
  | Lru => Ret (H, MkLRU (capacity_ c) (usage_ c) (lru_next c) v (table_ c))
  | At p => H ← store p (with_prev v) H; Ret (H, c)
  end.

Definition LRU_Remove (e : positive) H c : outcome (handles V * LRUCache) :=
  h ← load e H;
  '(H, c) ← set_prev (next h) (prev h) H c;
  h ← load e H;
  set_next (prev h) (next h) H c.

Definition LRU_Append (e : positive) H c : outcome (handles V * LRUCache) :=
  H ← store e (with_next Lru) H;
  H ← store e (with_prev (lru_prev c)) H;
  h ← load e H;
  '(H, c) ← set_next (prev h) (At e) H c;
  h ← load e H;
  set_prev (next h) (At e) H c.

Definition Unref (e : positive) m c : outcome (memory * LRUCache) :=
  h ← load e (heap m);
  assert! 0 <? refs h;
  H ← store e (with_refs (u32 (refs h - 1))) (heap m);
  h ← load e H;
  if refs h <=? 0 then
    k ← handle_key e H;
    Ret (Mem (delete e H) (deleted m ++ [(k, value h)]), set_usage c (u64 (usage_ c - charge h)))
  else Ret (Mem H (deleted m), c).

Definition Lookup (key : bytes) (hash_ : Z) m c : outcome (option positive * memory * LRUCache) :=
  e ← HT.Lookup key hash_ (table_ c) (heap m);
  match e with
  | None => Ret (None, m, c)
  | Some p =>
      h ← load p (heap m);
      H ← store p (with_refs (u32 (refs h + 1))) (heap m);
      '(H, c) ← LRU_Remove p H c;
      '(H, c) ← LRU_Append p H c;
      Ret (Some p, Mem H (deleted m), c)
  end.

Definition Release (handle : positive) m c : outcome (memory * LRUCache) := Unref handle m c.

(** Takes [old] out of the list and drops the cache's reference, as [Insert] and
    [Erase] do with a handle that left the table. *)
Definition discard (old : positive) m c : outcome (memory * LRUCache) :=
  '(H, c) ← LRU_Remove old (heap m) c;
  Unref old (Mem H (deleted m)) c.

(** [while (usage_ > capacity_ && lru_.next != &lru_)] *)
Fixpoint evict (fuel : nat) m c : outcome (memory * LRUCache) :=
  if capacity_ c <? usage_ c then
    match lru_next c with
    | Lru => Ret (m, c)
    | At old =>
        match fuel with
        | O => Undef
        | S fuel' =>
            '(H, c) ← LRU_Remove old (heap m) c;
            k ← handle_key old H;
            h ← load old H;
            '(_, t, H) ← HT.Remove k (hash h) (table_ c) H;
            '(m, c) ← Unref old (Mem H (deleted m)) (set_table c t);
            evict fuel' m c
        end
    end
  else Ret (m, c).

(** The links of a handle that was just allocated are written before they are read. *)
Definition Insert (key : bytes) (hash_ : Z) (v : V) (charge_ : Z) m c : outcome (positive * memory * LRUCache) :=
  let e := new_handle (heap m) in
  let H := <[e := MkHandle v None Lru Lru charge_ key 2 hash_]> (heap m) in
  '(H, c) ← LRU_Append e H c;
  let c := set_usage c (u64 (usage_ c + charge_)) in
  '(old, t, H) ← HT.Insert e (table_ c) H;
  let c := set_table c t in
  '(m, c) ← match old with Some o => discard o (Mem H (deleted m)) c | None => Ret (Mem H (deleted m), c) end;
  '(m, c) ← evict (size (heap m)) m c;
  Ret (e, m, c).

Definition Erase (key : bytes) (hash_ : Z) m c : outcome (memory * LRUCache) :=
  '(e, t, H) ← HT.Remove key hash_ (table_ c) (heap m);
  let c := set_table c t in
  match e with Some p => discard p (Mem H (deleted m)) c | None => Ret (Mem H (deleted m), c) end.

Fixpoint prune (fuel : nat) (e : link) m c : outcome (memory * LRUCache) :=
  match e with
  | Lru => Ret (m, c)
  | At p =>
      match fuel with
      | O => Undef
      | S fuel' =>
          h ← load p (heap m);
          '(m, c) ← (if refs h =? 1 then
                       k ← handle_key p (heap m);
                       '(_, t, H) ← HT.Remove k (hash h) (table_ c) (heap m);
                       discard p (Mem H (deleted m)) (set_table c t)
                     else Ret (m, c));
          prune fuel' (next h) m c
      end
  end.

Definition Prune m c : outcome (memory * LRUCache) := prune (size (heap m)) (lru_next c) m c.

(** [~LRUCache] *)
Fixpoint destroy (fuel : nat) (e : link) m c : outcome (memory * LRUCache) :=
  match e with
  | Lru => Ret (m, c)
  | At p =>
      match fuel with
      | O => Undef
      | S fuel' =>
          h ← load p (heap m);
          assert! refs h =? 1;
          '(m, c) ← Unref p m c;
          destroy fuel' (next h) m c
      end
  end.
End Ops.
Arguments memory : clear implicits.
End LRU.

(** ** [class ShardedLRUCache] *)

Definition kNumShardBits : Z := 4.
Definition kNumShards : Z := Z.shiftl 1 kNumShardBits.

Section Sharded.
Context {V : Type}.

Record ShardedLRUCache := MkSharded { shard_ : list LRU.LRUCache; last_id_ : Z; mem : LRU.memory V }.

Implicit Types (s : ShardedLRUCache).

Definition HashSlice (s : bytes) : Z := Hash s 0.
Definition Shard (hash_ : Z) : nat := Z.to_nat (Z.shiftr hash_ (32 - kNumShardBits)).

Definition shard_at s (i : nat) : outcome LRU.LRUCache := match shard_ s !! i with Some c => Ret c | None => Undef end.
Definition set_shard s (i : nat) (m : LRU.memory V) (c : LRU.LRUCache) : ShardedLRUCache :=
  MkSharded (<[i := c]> (shard_ s)) (last_id_ s) m.

Definition NewLRUCache (capacity : Z) : outcome ShardedLRUCache :=
  let per_shard := u64 (capacity + (kNumShards - 1)) / kNumShards in
  '(shards, H) ← foldM (fun _ '(cs, H) => '(c, H) ← LRU.new H; Ret (cs ++ [LRU.SetCapacity per_shard c], H))
    (seq 0 (Z.to_nat kNumShards)) ([], ∅);
  Ret (MkSharded shards 0 (LRU.Mem H [])).

Definition Insert (key : bytes) (v : V) (charge_ : Z) s : outcome (positive * ShardedLRUCache) :=
  let hash_ := HashSlice key in
  c ← shard_at s (Shard hash_);
  '(h, m, c) ← LRU.Insert key hash_ v charge_ (mem s) c;
  Ret (h, set_shard s (Shard hash_) m c).

Definition Lookup (key : bytes) s : outcome (option positive * ShardedLRUCache) :=
  let hash_ := HashSlice key in
  c ← shard_at s (Shard hash_);
  '(h, m, c) ← LRU.Lookup key hash_ (mem s) c;
  Ret (h, set_shard s (Shard hash_) m c).

Definition Release (handle : positive) s : outcome ShardedLRUCache :=
  h ← load handle (LRU.heap (mem s));
  c ← shard_at s (Shard (hash h));
  '(m, c) ← LRU.Release handle (mem s) c;
  Ret (set_shard s (Shard (hash h)) m c).

Definition Erase (key : bytes) s : outcome ShardedLRUCache :=
  let hash_ := HashSlice key in
  c ← shard_at s (Shard hash_);
  '(m, c) ← LRU.Erase key hash_ (mem s) c;
  Ret (set_shard s (Shard hash_) m c).

Definition Value (handle : positive) s : outcome V := h ← load handle (LRU.heap (mem s)); Ret (value h).

Definition NewId s : Z * ShardedLRUCache :=
  let id := u64 (last_id_ s + 1) in (id, MkSharded (shard_ s) id (mem s)).

Definition Prune s : outcome ShardedLRUCache :=
  foldM (fun i s => c ← shard_at s i; '(m, c) ← LRU.Prune (mem s) c; Ret (set_shard s i m c)) (seq 0 (Z.to_nat kNumShards)) s.

Definition TotalCharge s : Z := foldl (fun total c => u64 (total + LRU.TotalCharge c)) 0 (shard_ s).

(** [~ShardedLRUCache]: the members are destroyed in the reverse order. *)
Definition destroy_cache s : outcome (LRU.memory V) :=
  foldM (fun c m => '(m, _) ← LRU.destroy (size (LRU.heap m)) (LRU.lru_next c) m c; Ret m) (rev (shard_ s)) (mem s).
End Sharded.
Arguments ShardedLRUCache : clear implicits.
