(* ===== verification/CacheMem.v ===== *)
(** * The pointers of the LRU cache: the list in order of use and the hash table

    Representation predicates for the two linked structures of util/cache.cc, and what
    the pointer writes of each operation do to them: [ring] is the circular list of a
    shard, [buckets] and [table_rep] the chains of its hash table.  [frame] says which
    fields of which handles a write leaves alone. *)

From S2P Require Import Prelude Slice FilterPolicy Cache.
#[local] Open Scope Z_scope.

(** ** Frames: what a write leaves alone *)

Section Frames.
Context {V : Type}.
Implicit Types (H : handles V) (h : LRUHandle V).

(** The fields other than the list links, and other than the hash chain. *)
Definition unlinked h := with_next Lru (with_prev Lru h).
Definition unchained h := with_next_hash None h.

(** [H'] differs from [H] only at [X], and there not in [f]. *)
Definition frame {B} (f : LRUHandle V -> B) (X : list positive) H H' : Prop :=
  (forall q, f <$> H' !! q = f <$> H !! q) /\ forall q, q ∉ X -> H' !! q = H !! q.

Lemma frame_refl {B} (f : LRUHandle V -> B) X H : frame f X H H.
Proof. done. Qed.

Lemma frame_trans {B} (f : LRUHandle V -> B) X H1 H2 H3 : frame f X H1 H2 -> frame f X H2 H3 -> frame f X H1 H3.
Proof. intros [Ha Hb] [Hc Hd]. split; [intros q; by rewrite Hc|]. intros q Hq. rewrite Hd, Hb; done. Qed.

Lemma frame_weaken {B} (f : LRUHandle V -> B) X Y H1 H2 : frame f X H1 H2 -> X ⊆ Y -> frame f Y H1 H2.
Proof. intros [Ha Hb] HX. split; [done|]. intros q Hq. apply Hb. set_solver. Qed.

Lemma frame_lookup {B} (f : LRUHandle V -> B) X H H' p h : frame f X H H' -> H !! p = Some h -> exists h', H' !! p = Some h' /\ f h' = f h.
Proof.
  intros [Ha _] Hp. specialize (Ha p). rewrite Hp in Ha. destruct (H' !! p) as [h'|]; [|done]. injection Ha as Ha. by exists h'.
Qed.

Lemma frame_store {B} (f : LRUHandle V -> B) g p H h : H !! p = Some h -> f (g h) = f h -> frame f [p] H (<[p := g h]> H).
Proof.
  intros Hp Hf. split.
  - intros q. destruct (decide (p = q)) as [->|Hne]; [rewrite lookup_insert_eq, Hp; cbn; by rewrite Hf|by rewrite lookup_insert_ne].
  - intros q Hq. rewrite lookup_insert_ne; [done|]. intros ->. apply Hq. by left.
Qed.

Lemma frame_dom {B} (f : LRUHandle V -> B) X H H' : frame f X H H' -> dom H' = dom H.
Proof.
  intros [Ha _]. apply set_eq. intros q. rewrite !elem_of_dom. specialize (Ha q). destruct (H' !! q), (H !! q); cbn in Ha; naive_solver.
Qed.

Lemma load_lookup p H h : H !! p = Some h -> load p H = Ret h.
Proof. intros Hp. unfold load. by rewrite Hp. Qed.

Lemma store_lookup p f H h : H !! p = Some h -> store p f H = Ret (<[p := f h]> H).
Proof. intros Hp. unfold store. by rewrite (load_lookup p H h). Qed.

Lemma key_lookup p H h : H !! p = Some h -> next h <> At p -> handle_key p H = Ret (key_data h).
Proof. intros Hp Hn. unfold handle_key. rewrite (load_lookup p H h) by done. run. by rewrite decide_False. Qed.

Lemma new_handle_None H : H !! new_handle H = None.
Proof. apply (not_elem_of_dom (D := gset positive)). exact (is_fresh (dom H : gset positive)). Qed.
End Frames.

(** ** The list in order of use *)

(** Neighbours point at each other. *)
Fixpoint path (N P : link -> option link) (ls : list link) : Prop :=
  match ls with
  | a :: ((b :: _) as r) => N a = Some b /\ P b = Some a /\ path N P r
  | _ => True
  end.

Lemma path_app N P l1 a l2 : path N P (l1 ++ a :: l2) <-> path N P (l1 ++ [a]) /\ path N P (a :: l2).
Proof.
  induction l1 as [|x l1 IH]; [cbn; tauto|]. destruct l1 as [|y l1]; [cbn; tauto|].
  change (path N P ((x :: y :: l1) ++ a :: l2)) with (N x = Some y /\ P y = Some x /\ path N P ((y :: l1) ++ a :: l2)).
  change (path N P ((x :: y :: l1) ++ [a])) with (N x = Some y /\ P y = Some x /\ path N P ((y :: l1) ++ [a])). rewrite IH. tauto.
Qed.

(** A path only needs the forward links of all but its last and the backward links of
    all but its first. *)
Lemma path_ext N P N' P' ls : path N P ls -> (forall y, y ∈ removelast ls -> N' y = N y) -> (forall y, y ∈ tail ls -> P' y = P y) ->
  path N' P' ls.
Proof.
  induction ls as [|a [|b ls] IH]; [done|done|]. intros (Hn & Hp & Hr) HN HP. cbn. split_and!.
  - rewrite HN; [done|by left].
  - rewrite HP; [done|by left].
  - apply IH; [done| |]; intros y Hy; [apply HN|apply HP]; by right.
Qed.

Lemma path_next N P l1 a b l2 : path N P (l1 ++ a :: b :: l2) -> N a = Some b /\ P b = Some a.
Proof. rewrite path_app. cbn. tauto. Qed.

(** Taking [x] out, and putting it in. *)
Lemma path_remove N P N' P' pre a x b post : path N P (pre ++ a :: x :: b :: post) ->
  N' a = Some b -> P' b = Some a ->
  (forall y, y ∈ pre \/ y ∈ removelast (b :: post) -> N' y = N y) -> (forall y, y ∈ tail (pre ++ [a]) \/ y ∈ post -> P' y = P y) ->
  path N' P' (pre ++ a :: b :: post).
Proof.
  rewrite (path_app _ _ pre a (x :: b :: post)). intros [H1 (_ & _ & _ & _ & H2)] Ha Hb HN HP. rewrite path_app. split.
  - apply (path_ext N P); [done| |]; intros y Hy; [apply HN|apply HP]; left; [|done]. by rewrite removelast_last in Hy.
  - split_and!; [done|done|]. apply (path_ext N P); [done| |]; intros y Hy; [apply HN|apply HP]; by right.
Qed.

Lemma path_add N P N' P' pre a x b post : path N P (pre ++ a :: b :: post) ->
  N' a = Some x -> P' x = Some a -> N' x = Some b -> P' b = Some x ->
  (forall y, y ∈ pre \/ y ∈ removelast (b :: post) -> N' y = N y) -> (forall y, y ∈ tail (pre ++ [a]) \/ y ∈ post -> P' y = P y) ->
  path N' P' (pre ++ a :: x :: b :: post).
Proof.
  rewrite (path_app _ _ pre a (b :: post)). intros [H1 (_ & _ & H2)] Ha Hb Hc Hd HN HP. rewrite path_app. split.
  - apply (path_ext N P); [done| |]; intros y Hy; [apply HN|apply HP]; left; [|done]. by rewrite removelast_last in Hy.
  - split_and!; [done|done|]. split_and!; [done|done|]. apply (path_ext N P); [done| |]; intros y Hy; [apply HN|apply HP]; by right.
Qed.

Section Ring.
Context {V : Type}.
Implicit Types (H : handles V) (c : LRU.LRUCache) (l : list positive).

Definition nxt H c (l : link) : option link := match l with Lru => Some (LRU.lru_next c) | At p => next <$> H !! p end.
Definition prv H c (l : link) : option link := match l with Lru => Some (LRU.lru_prev c) | At p => prev <$> H !! p end.

(** The circle from the dummy head back to it. *)
Definition circle l : list link := Lru :: (At <$> l) ++ [Lru].
Definition ring H c l : Prop := path (nxt H c) (prv H c) (circle l).

(** Everything of a shard but its list. *)
Definition same_shard c c' : Prop := LRU.capacity_ c' = LRU.capacity_ c /\ LRU.usage_ c' = LRU.usage_ c /\ LRU.table_ c' = LRU.table_ c.

Lemma same_shard_trans c1 c2 c3 : same_shard c1 c2 -> same_shard c2 c3 -> same_shard c1 c3.
Proof. intros (E1 & E2 & E3) (E4 & E5 & E6). unfold same_shard. by rewrite E4, E5, E6. Qed.

Definition addresses (ls : list link) : list positive := omap (fun x => match x with Lru => None | At p => Some p end) ls.

#[local] Instance At_inj : Inj (=) (=) At.
Proof. by intros p q [= ->]. Qed.

Lemma elem_of_addresses p ls : p ∈ addresses ls <-> At p ∈ ls.
Proof.
  unfold addresses. rewrite list_elem_of_omap. split; [|intros Hp; by exists (At p)]. intros ([|q] & Hq & E); [done|]. by injection E as ->.
Qed.

Lemma set_next_link (l v w : link) H c : nxt H c l = Some w -> exists H' c', LRU.set_next l v H c = Ret (H', c') /\ same_shard c c' /\
  frame unlinked (addresses [l]) H H' /\ (forall x, nxt H' c' x = if decide (x = l) then Some v else nxt H c x) /\
  (forall x, prv H' c' x = prv H c x).
Proof.
  destruct l as [|p]; cbn.
  - intros _. eexists _, _. split_and!; [done|done|done|..]; by intros [|q].
  - destruct (H !! p) as [h|] eqn:Hp; [|done]. intros _. rewrite (store_lookup p _ H h) by done. run. eexists _, _. split_and!; [done|done|by apply frame_store|..].
    + intros [|q]; cbn; [by rewrite decide_False|]. destruct (decide (At q = At p)) as [[= ->]|Hne]; [by rewrite lookup_insert_eq|].
      rewrite lookup_insert_ne; [done|congruence].
    + intros [|q]; cbn; [done|]. destruct (decide (p = q)) as [->|Hne]; [rewrite lookup_insert_eq, Hp; done|by rewrite lookup_insert_ne].
Qed.

Lemma set_prev_link (l v w : link) H c : prv H c l = Some w -> exists H' c', LRU.set_prev l v H c = Ret (H', c') /\ same_shard c c' /\
  frame unlinked (addresses [l]) H H' /\ (forall x, prv H' c' x = if decide (x = l) then Some v else prv H c x) /\
  (forall x, nxt H' c' x = nxt H c x).
Proof.
  destruct l as [|p]; cbn.
  - intros _. eexists _, _. split_and!; [done|done|done|..]; by intros [|q].
  - destruct (H !! p) as [h|] eqn:Hp; [|done]. intros _. rewrite (store_lookup p _ H h) by done. run. eexists _, _. split_and!; [done|done|by apply frame_store|..].
    + intros [|q]; cbn; [by rewrite decide_False|]. destruct (decide (At q = At p)) as [[= ->]|Hne]; [by rewrite lookup_insert_eq|].
      rewrite lookup_insert_ne; [done|congruence].
    + intros [|q]; cbn; [done|]. destruct (decide (p = q)) as [->|Hne]; [rewrite lookup_insert_eq, Hp; done|by rewrite lookup_insert_ne].
Qed.

(** The circle around a point between two entries. *)
Lemma circle_split l1 l2 : NoDup (l1 ++ l2) -> exists pre a b post, Lru :: (At <$> l1) = pre ++ [a] /\ (At <$> l2) ++ [Lru] = b :: post /\
  (forall mid, circle (l1 ++ mid ++ l2) = pre ++ a :: (At <$> mid) ++ b :: post) /\
  a ∉ pre /\ a ∉ removelast (b :: post) /\ b ∉ tail (pre ++ [a]) /\ b ∉ post /\
  a ∈ circle l1 /\ b ∈ circle l2.
Proof.
  intros (Hn1 & Hd & Hn2)%NoDup_app.
  assert (exists pre a, Lru :: (At <$> l1) = pre ++ [a]) as (pre & a & Ea).
  { destruct (exists_last (l := Lru :: (At <$> l1))) as (pre & a & E); [done|]. by exists pre, a. }
  assert (exists b post, (At <$> l2) ++ [Lru] = b :: post) as (b & post & Eb) by (destruct l2; cbn; eauto).
  exists pre, a, b, post.
  assert (NoDup (pre ++ [a])) as Hna.
  { rewrite <- Ea. constructor; [|by apply (NoDup_fmap_2 At)]. by intros (? & [=] & _)%list_elem_of_fmap. }
  assert (NoDup (b :: post)) as Hnb.
  { rewrite <- Eb. apply NoDup_app. split_and!; [by apply (NoDup_fmap_2 At)| |apply NoDup_singleton].
    intros x (? & -> & _)%list_elem_of_fmap. set_solver. }
  assert (a ∈ Lru :: (At <$> l1)) as Ha by (rewrite Ea; set_solver).
  assert (b ∈ (At <$> l2) ++ [Lru]) as Hb by (rewrite Eb; set_solver).
  split_and!; [done|done| | | | | | |].
  - intros mid. unfold circle. rewrite !fmap_app, <- !app_assoc, Eb, app_comm_cons, Ea, <- app_assoc. done.
  - apply NoDup_app in Hna. set_solver.
  - rewrite <- Eb, removelast_last. intros (x & -> & Hx)%list_elem_of_fmap. apply elem_of_cons in Ha as [[=]|(y & [= ->] & Hy)%list_elem_of_fmap].
    by apply (Hd y).
  - rewrite <- Ea. cbn. intros (x & -> & Hx)%list_elem_of_fmap. apply elem_of_app in Hb as [(y & [= ->] & Hy)%list_elem_of_fmap|Hb]; [by apply (Hd y)|].
    by apply list_elem_of_singleton in Hb.
  - by apply NoDup_cons in Hnb as [? _].
  - unfold circle. set_solver.
  - unfold circle. set_solver.
Qed.

Lemma ring_member H c l p : ring H c l -> NoDup l -> p ∈ l -> exists h, H !! p = Some h /\ next h <> At p.
Proof.
  intros Hr Hn (l1 & l2 & ->)%list_elem_of_split.
  destruct (circle_split (l1 ++ [p]) l2) as (pre & a & b & post & Ea & Eb & Ec & _); [by rewrite <- app_assoc|].
  pose proof (Ec []) as E. rewrite <- app_assoc in E. cbn in E. unfold ring in Hr. rewrite E in Hr.
  apply path_next in Hr as [Hnx _]. rewrite fmap_app, app_comm_cons in Ea. apply app_inj_tail in Ea as [_ <-].
  cbn in Hnx. destruct (H !! p) as [h|]; [|done]. exists h. split; [done|]. injection Hnx as ->. intros ->.
  destruct l2 as [|q l2]; [done|]. cbn in Eb. injection Eb as -> _. apply NoDup_app in Hn as (_ & _ & [Hp _]%NoDup_cons). set_solver.
Qed.

Lemma frame_addresses {B} (f : LRUHandle V -> B) x l H H' : x ∈ circle l -> frame f (addresses [x]) H H' -> frame f l H H'.
Proof.
  intros Hx Hf. apply (frame_weaken _ _ _ _ _ Hf). intros q Hq%elem_of_addresses. apply list_elem_of_singleton in Hq as <-.
  unfold circle in Hx. set_solver.
Qed.

Lemma ring_remove H c l1 e l2 : NoDup (l1 ++ e :: l2) -> ring H c (l1 ++ e :: l2) -> exists H' c', LRU.LRU_Remove e H c = Ret (H', c') /\
  same_shard c c' /\ frame unlinked (l1 ++ l2) H H' /\ ring H' c' (l1 ++ l2).
Proof.
  intros Hn Hr. assert (NoDup (l1 ++ l2) /\ e ∉ l1 ++ l2) as [Hn' He].
  { rewrite <- Permutation_middle in Hn. apply NoDup_cons in Hn. tauto. }
  destruct (circle_split l1 l2 Hn') as (pre & a & b & post & Ea & Eb & Ec & Hap & Har & Hbt & Hbp & Hai & Hbi).
  unfold ring in *. pose proof (Ec [e]) as Ee. cbn in Ee. rewrite Ee in Hr. specialize (Ec []). cbn in Ec.
  assert (Hr' := Hr). apply path_next in Hr' as [Hna Hpe].
  assert (Hr' := Hr). rewrite cons_middle, app_assoc in Hr'. apply path_next in Hr' as [Hne Hpb].
  assert (At e <> a) as Hea by (intros <-; unfold circle in Hai; set_solver).
  assert (At e <> b) as Heb by (intros <-; unfold circle in Hbi; set_solver).
  cbn in Hne, Hpe. destruct (H !! e) as [h|] eqn:Eh; [|done]. injection Hne as Hne. injection Hpe as Hpe.
  unfold LRU.LRU_Remove. rewrite (load_lookup e H h) by done. run. rewrite Hne, Hpe.
  destruct (set_prev_link b a _ H c Hpb) as (H1 & c1 & -> & Hs1 & Hf1 & Hp1 & Hn1). run.
  assert (H1 !! e = Some h) as Eh1. { rewrite (proj2 Hf1); [done|]. rewrite elem_of_addresses. set_solver. }
  rewrite (load_lookup e H1 h) by done. run. rewrite Hne, Hpe.
  destruct (set_next_link a b (At e) H1 c1) as (H2 & c2 & -> & Hs2 & Hf2 & Hn2 & Hp2); [by rewrite Hn1|].
  exists H2, c2. split_and!; [done|by eapply same_shard_trans| |].
  - apply (frame_trans _ _ _ H1); [apply (frame_weaken _ l2)|apply (frame_weaken _ l1)]; [by eapply frame_addresses|set_solver|by eapply frame_addresses|set_solver].
  - rewrite Ec. eapply path_remove; [exact Hr| | | |].
    + by rewrite Hn2, decide_True.
    + by rewrite Hp2, Hp1, decide_True.
    + intros y Hy. rewrite Hn2, decide_False, Hn1; [done|]. intros ->. tauto.
    + intros y Hy. rewrite Hp2, Hp1, decide_False; [done|]. intros ->. tauto.
Qed.

Lemma ring_append H c l e h : NoDup l -> e ∉ l -> H !! e = Some h -> ring H c l -> exists H' c', LRU.LRU_Append e H c = Ret (H', c') /\
  same_shard c c' /\ frame unlinked (l ++ [e]) H H' /\ ring H' c' (l ++ [e]).
Proof.
  intros Hn He Eh Hr. destruct (circle_split l []) as (pre & a & b & post & Ea & Eb & Ec & Hap & Har & Hbt & Hbp & Hai & Hbi); [by rewrite app_nil_r|].
  unfold ring in *. pose proof (Ec [e]) as Ee. specialize (Ec []). cbn in Eb, Ee, Ec. rewrite app_nil_r in Ec. injection Eb as <- <-.
  rewrite Ec in Hr. assert (Hr' := Hr). apply path_next in Hr' as [Hna Hpb]. cbn in Hpb. injection Hpb as Hpb.
  assert (At e <> a) as Hea by (intros <-; unfold circle in Hai; set_solver).
  unfold LRU.LRU_Append. rewrite (store_lookup e _ H h) by done. run. rewrite (store_lookup e _ _ (with_next Lru h)) by apply lookup_insert_eq. run.
  rewrite insert_insert_eq, Hpb. set (h1 := with_prev a (with_next Lru h)). set (H1 := <[e := h1]> H).
  assert (H1 !! e = Some h1) as E1 by apply lookup_insert_eq. rewrite (load_lookup e H1 h1) by done. run. change (prev h1) with a.
  assert (frame unlinked [e] H H1) as Hf0 by (apply (frame_store unlinked (fun h => with_prev a (with_next Lru h))); [done|done]).
  assert (nxt H1 c a = Some Lru) as Hna1.
  { rewrite <- Hna. destruct a as [|q]; cbn; [done|]. unfold H1. rewrite lookup_insert_ne by congruence. done. }
  destruct (set_next_link a (At e) _ H1 c Hna1) as (H2 & c2 & -> & Hs2 & Hf2 & Hn2 & Hp2). run.
  assert (H2 !! e = Some h1) as E2. { rewrite (proj2 Hf2); [done|]. rewrite elem_of_addresses. set_solver. }
  rewrite (load_lookup e H2 h1) by done. run. change (next h1) with Lru.
  destruct (set_prev_link Lru (At e) (LRU.lru_prev c2) H2 c2 eq_refl) as (H3 & c3 & -> & Hs3 & Hf3 & Hp3 & Hn3).
  exists H3, c3. split_and!; [done|by eapply same_shard_trans| |].
  - apply (frame_trans _ _ _ H1); [apply (frame_weaken _ [e]); [done|set_solver]|].
    apply (frame_trans _ _ _ H2); [apply (frame_weaken _ l); [by eapply frame_addresses|set_solver]|].
    apply (frame_weaken _ (addresses [Lru])); [done|]. intros q Hq%elem_of_addresses. by apply list_elem_of_singleton in Hq.
  - rewrite Ee. eapply path_add; [exact Hr| | | | | |].
    + by rewrite Hn3, Hn2, decide_True.
    + rewrite Hp3, decide_False, Hp2 by done. cbn. by rewrite E1.
    + rewrite Hn3, Hn2, decide_False by done. cbn. by rewrite E1.
    + by rewrite Hp3, decide_True.
    + intros y [Hy|Hy]; [|by apply elem_of_nil in Hy]. rewrite Hn3, Hn2, decide_False by (intros ->; done).
      assert (y ∈ circle l) as Hy' by (rewrite Ec; set_solver).
      destruct y as [|q]; [done|]. cbn. unfold H1. rewrite lookup_insert_ne; [done|]. intros ->. unfold circle in Hy'. set_solver.
    + intros y [Hy|Hy]; [|by apply elem_of_nil in Hy]. rewrite Hp3, decide_False, Hp2 by (intros ->; done).
      rewrite <- Ea in Hy. cbn in Hy. apply list_elem_of_fmap in Hy as (q & -> & Hq). cbn. unfold H1. rewrite lookup_insert_ne; [done|]. by intros ->.
Qed.
End Ring.

(** ** The hash table *)

Section Chains.
Context {V : Type}.
Implicit Types (H : handles V) (l : list positive) (t : HT.HandleTable).

Fixpoint chain H (s : option positive) l : Prop :=
  match l with
  | [] => s = None
  | p :: l' => s = Some p /\ exists h, H !! p = Some h /\ chain H (next_hash h) l'
  end.

Lemma chain_frame H H' s l : (forall p, p ∈ l -> next_hash <$> H' !! p = next_hash <$> H !! p) -> chain H s l -> chain H' s l.
Proof.
  revert s. induction l as [|p l IH]; intros s Hf; [done|]. intros (-> & h & Hp & Hc). split; [done|].
  pose proof (Hf p ltac:(by left)) as E. rewrite Hp in E. destruct (H' !! p) as [h'|]; [|done]. injection E as E. exists h'. split; [done|].
  rewrite E. apply IH; [|done]. intros q Hq. apply Hf. by right.
Qed.

Lemma chain_head H s l : chain H s l -> s = head l.
Proof. destruct l; cbn; [done|]. by intros [-> _]. Qed.

Lemma chain_member H s l p : chain H s l -> p ∈ l -> is_Some (H !! p).
Proof.
  revert s. induction l as [|q l IH]; intros s; [by intros _ ?%not_elem_of_nil|]. intros (_ & h & Hq & Hc) [->|Hp]%elem_of_cons; [by exists h|eauto].
Qed.

(** The slot after [l1] on the chain of bucket [i]. *)
Definition slot_after (i : nat) l1 : HT.slot := match last l1 with None => HT.Bucket i | Some p => HT.NextHash p end.

Lemma read_after t H i s l1 l2 : HT.list_ t !! i = Some s -> chain H s (l1 ++ l2) -> HT.read_slot t (slot_after i l1) H = Ret (head l2).
Proof.
  intros Hi. unfold slot_after. destruct l1 as [|p l1] using rev_ind; cbn.
  - intros Hc. cbn. rewrite Hi. by rewrite (chain_head H s l2).
  - rewrite last_snoc. intros Hc. cbn. clear IHl1 Hi.
    assert (exists h, H !! p = Some h /\ chain H (next_hash h) l2) as (h & Hp & Hl).
    { revert s Hc. induction l1 as [|q l1 IH]; intros s; cbn; [intros (_ & h & ?); by exists h|]. intros (_ & h & _ & Hc). eauto. }
    unfold load. rewrite Hp. run. by rewrite (chain_head _ _ _ Hl).
Qed.

(** Writing that slot replaces the rest of the chain. *)
Lemma chain_write H s l1 p l2 v l3 h : chain H s (l1 ++ p :: l2) -> NoDup (l1 ++ [p]) -> H !! p = Some h -> chain H v l3 -> p ∉ l3 ->
  chain (<[p := with_next_hash v h]> H) s (l1 ++ p :: l3).
Proof.
  intros Hc Hn Hp Hv Hl3. revert s Hc. induction l1 as [|q l1 IH]; intros s; cbn.
  - intros (-> & _). split; [done|]. eexists. split; [apply lookup_insert_eq|]. cbn. apply (chain_frame H); [|done].
    intros x Hx. rewrite lookup_insert_ne; [done|]. by intros ->.
  - intros (-> & hq & Hq & Hc). apply NoDup_cons in Hn as [Hqn Hn]. split; [done|]. exists hq. split; [|by apply IH].
    rewrite lookup_insert_ne; [done|]. intros ->. set_solver.
Qed.

(** The buckets of a table with their chains. *)
Definition bucket_of (n hash_ : Z) : nat := Z.to_nat (Z.land hash_ (u32 (n - 1))).

Record buckets H (n : Z) (ls : list (option positive)) (bs : list (list positive)) : Prop := {
  bk_size : exists k, 2 <= k <= 31 /\ n = 2 ^ k;
  bk_length : length bs = Z.to_nat n;
  bk_list : length ls = Z.to_nat n;
  bk_chain i s b : ls !! i = Some s -> bs !! i = Some b -> chain H s b;
  bk_nodup : NoDup (concat bs);
  bk_hash i b p : bs !! i = Some b -> p ∈ b -> exists h, H !! p = Some h /\ bucket_of n (hash h) = i;
}.

Lemma bucket_bound n hash_ : (exists k, 2 <= k <= 31 /\ n = 2 ^ k) -> 0 <= hash_ -> (bucket_of n hash_ < Z.to_nat n)%nat.
Proof.
  intros (k & Hk & ->) Hh. unfold bucket_of. assert (2 ^ k <= 2 ^ 31) by (apply Z.pow_le_mono_r; lia). assert (0 < 2 ^ k) by lia.
  rewrite u32_small by lia. replace (2 ^ k - 1) with (Z.ones k) by (rewrite Z.ones_equiv; lia). rewrite Z.land_ones by lia.
  pose proof (Z.mod_pos_bound hash_ (2 ^ k) ltac:(lia)). lia.
Qed.

Lemma elem_of_bucket (bs : list (list positive)) i b p : bs !! i = Some b -> p ∈ b -> p ∈ concat bs.
Proof. intros Hi Hp. apply elem_of_concat. exists b. split; [by eapply list_elem_of_lookup_2|done]. Qed.

Lemma bucket_split (bs : list (list positive)) i b b' : bs !! i = Some b -> exists l, concat bs ≡ₚ b ++ l /\ concat (<[i := b']> bs) ≡ₚ b' ++ l.
Proof.
  intros Hi. exists (concat (take i bs) ++ concat (drop (S i) bs)).
  rewrite insert_take_drop by (by eapply lookup_lt_Some). rewrite <- (take_drop_middle bs i b Hi) at 1. rewrite !concat_app. cbn.
  split; apply Permutation_app_swap_app.
Qed.

(** Another bucket has no entry of this one. *)
Lemma buckets_apart (bs : list (list positive)) i j b b' p : NoDup (concat bs) -> bs !! i = Some b -> bs !! j = Some b' -> p ∈ b -> p ∈ b' -> i = j.
Proof.
  intros Hn Hi Hj Hp Hp'. destruct (decide (i = j)) as [|Hne]; [done|]. exfalso. destruct (bucket_split bs i b [] Hi) as (l & E & E').
  rewrite E in Hn. apply NoDup_app in Hn as (_ & Hd & _). apply (Hd p Hp). cbn in E'. rewrite <- E'.
  apply (elem_of_bucket _ j b'); [by rewrite list_lookup_insert_ne|done].
Qed.

Lemma frame_hash X H H' p (h : LRUHandle V) : frame unchained X H H' -> H !! p = Some h -> exists h', H' !! p = Some h' /\ unchained h' = unchained h /\ hash h' = hash h.
Proof. intros Hf Hp. destruct (frame_lookup _ _ _ _ _ _ Hf Hp) as (h' & Hp' & E). exists h'. split_and!; [done|done|]. by injection E. Qed.

(** A bucket is replaced, and the other chains are left alone. *)
Lemma buckets_replace H H' n ls bs i b b' s X : buckets H n ls bs -> bs !! i = Some b -> frame unchained X H H' ->
  (forall p, p ∈ X -> p ∈ b \/ p ∉ concat bs) -> chain H' s b' -> NoDup (concat (<[i := b']> bs)) ->
  (forall p, p ∈ b' -> exists h, H !! p = Some h /\ bucket_of n (hash h) = i) -> buckets H' n (<[i := s]> ls) (<[i := b']> bs).
Proof.
  intros [Hs Hl Hls Hc Hn Hh] Hi Hf HX Hs' Hn' Hb'. assert (i < length bs)%nat as Hib by (by eapply lookup_lt_Some).
  split; [done|by rewrite length_insert|by rewrite length_insert| |done|].
  - intros j s0 b0. destruct (decide (i = j)) as [<-|Hne].
    + rewrite !list_lookup_insert_eq by lia. by intros [= <-] [= <-].
    + rewrite !list_lookup_insert_ne by done. intros Hj Hbj. apply (chain_frame H); [|by eapply Hc].
      intros p Hp. rewrite (proj2 Hf); [done|]. intros [Hpb|Hpn]%HX; [by apply Hne, (buckets_apart bs i j b b0 p)|].
      apply Hpn. by eapply elem_of_bucket.
  - intros j b0 p. destruct (decide (i = j)) as [<-|Hne].
    + rewrite list_lookup_insert_eq by lia. intros [= <-] Hp. destruct (Hb' p Hp) as (h & Hph & <-).
      destruct (frame_hash _ _ _ _ _ Hf Hph) as (h' & ? & _ & E). exists h'. by rewrite E.
    + rewrite list_lookup_insert_ne by done. intros Hbj Hp. destruct (Hh j b0 p Hbj Hp) as (h & Hph & <-).
      destruct (frame_hash _ _ _ _ _ Hf Hph) as (h' & ? & _ & E). exists h'. by rewrite E.
Qed.

Lemma write_after t H n bs i l1 l2 v l3 : buckets H n (HT.list_ t) bs -> bs !! i = Some (l1 ++ l2) -> chain H v l3 ->
  NoDup (concat (<[i := l1 ++ l3]> bs)) -> (forall p, p ∈ l3 -> exists h, H !! p = Some h /\ bucket_of n (hash h) = i) ->
  exists t' H', HT.write_slot t (slot_after i l1) v H = Ret (t', H') /\ HT.length_ t' = HT.length_ t /\ HT.elems_ t' = HT.elems_ t /\
    frame unchained l1 H H' /\ buckets H' n (HT.list_ t') (<[i := l1 ++ l3]> bs).
Proof.
  intros Hb Hi Hv Hn3 Hh3. assert (i < length bs)%nat as Hib by (by eapply lookup_lt_Some).
  assert (is_Some (HT.list_ t !! i)) as [s Hls]. { apply lookup_lt_is_Some. rewrite (bk_list _ _ _ _ Hb), <- (bk_length _ _ _ _ Hb). done. }
  pose proof (bk_chain _ _ _ _ Hb _ _ _ Hls Hi) as Hsc.
  assert (NoDup (l1 ++ l3)) as Hn'.
  { destruct (bucket_split bs i _ (l1 ++ l3) Hi) as (l & _ & E). rewrite E in Hn3. by apply NoDup_app in Hn3 as [? _]. }
  assert (forall p, p ∈ l1 ++ l3 -> exists h, H !! p = Some h /\ bucket_of n (hash h) = i) as Hh.
  { intros p [Hp|Hp]%elem_of_app; [|by apply Hh3]. eapply (bk_hash _ _ _ _ Hb); [done|set_solver]. }
  destruct l1 as [|p l1 _] using rev_ind; unfold slot_after.
  - cbn. rewrite Hls. eexists _, _. split_and!; [done..|]. cbn. eapply buckets_replace; [done|done|apply (frame_refl _ [])|set_solver|done|done|done].
  - rewrite last_snoc. cbn. destruct (Hh p) as (h & Hp & _); [set_solver|]. rewrite (store_lookup p _ H h) by done. run. eexists _, _. split_and!; [done..| |].
    + apply (frame_weaken _ [p]); [by apply frame_store|set_solver].
    + rewrite <- (list_insert_id (HT.list_ t) i s) by done. rewrite <- !app_assoc in *. cbn in *.
      eapply (buckets_replace _ _ _ _ _ _ _ _ _ [p]); [done|done|by apply frame_store|set_solver| |done|done].
      apply NoDup_app in Hn' as Hn''. apply (chain_write H s l1 p l2); [done| |done|done|].
      * rewrite cons_middle, app_assoc in Hn'. by apply NoDup_app in Hn' as [? _].
      * destruct Hn'' as (_ & _ & Hp3%NoDup_cons). tauto.
Qed.

(** *** Resizing *)

Lemma grow_spec elems : 0 <= elems <= 2 ^ 31 -> exists k, 2 <= k <= 31 /\ HT.grow 30 4 elems = Ret (2 ^ k) /\ elems <= 2 ^ k.
Proof.
  intros He. assert (forall fuel k, 2 <= k <= 31 -> 31 - k < Z.of_nat fuel -> exists k', 2 <= k' <= 31 /\ HT.grow fuel (2 ^ k) elems = Ret (2 ^ k') /\ elems <= 2 ^ k') as Hg.
  { induction fuel as [|fuel IH]; [lia|]. intros k Hk Hf. cbn. destruct (Z.ltb_spec (2 ^ k) elems); [|by exists k].
    assert (k <> 31) by (intros ->; lia). replace (2 ^ k * 2) with (2 ^ (k + 1)) by (rewrite Z.pow_add_r; lia). rewrite u32_small by (split; [lia|apply Z.pow_lt_mono_r; lia]).
    apply IH; lia. }
  apply (Hg 30%nat 2); lia.
Qed.

Lemma move_chain_spec n l : forall fuel h nl nb count H, buckets H n nl nb -> chain H h l -> NoDup (l ++ concat nb) ->
  (forall p, p ∈ l -> exists e, H !! p = Some e /\ 0 <= hash e) -> (length l <= fuel)%nat -> 0 <= count -> count + Z.of_nat (length l) < 2 ^ 32 ->
  exists nl' nb' H', HT.move_chain fuel h n nl count H = Ret (nl', count + Z.of_nat (length l), H') /\ buckets H' n nl' nb' /\
    concat nb' ≡ₚ l ++ concat nb /\ frame unchained l H H'.
Proof.
  induction l as [|p l IH]; intros fuel h nl nb count H Hb Hc Hn Hh Hf Hc0 Hct.
  { cbn in Hc. subst h. exists nl, nb, H. destruct fuel; cbn; rewrite Z.add_0_r; done. }
  destruct Hc as (-> & e & Hp & Hc). destruct fuel as [|fuel]; [cbn in Hf; lia|]. cbn in Hf, Hct, Hn. apply NoDup_cons in Hn as [Hpn Hn].
  cbn [HT.move_chain]. rewrite (load_lookup p H e) by done. run. fold (bucket_of n (hash e)). set (i := bucket_of n (hash e)).
  destruct (Hh p ltac:(by left)) as (e' & Hp' & Hpos). rewrite Hp in Hp'. injection Hp' as <-.
  assert (i < Z.to_nat n)%nat as Hi by (apply bucket_bound; [by apply (bk_size _ _ _ _ Hb)|done]).
  assert (is_Some (nl !! i)) as [q Hq] by (apply lookup_lt_is_Some; by rewrite (bk_list _ _ _ _ Hb)).
  assert (is_Some (nb !! i)) as [b Hbi] by (apply lookup_lt_is_Some; by rewrite (bk_length _ _ _ _ Hb)).
  rewrite Hq, (store_lookup p _ H e) by done. run. set (H1 := <[p := with_next_hash q e]> H).
  assert (frame unchained [p] H H1) as Hf1 by (by apply frame_store).
  destruct (bucket_split nb i b (p :: b) Hbi) as (rest & Ec & Ec').
  assert (concat (<[i := p :: b]> nb) ≡ₚ p :: concat nb) as Ec1 by (by rewrite Ec', Ec).
  assert (buckets H1 n (<[i := Some p]> nl) (<[i := p :: b]> nb)) as Hb1.
  { eapply (buckets_replace _ _ _ _ _ _ _ _ _ [p]); [done|done|done|set_solver| | |].
    - split; [done|]. eexists. split; [apply lookup_insert_eq|]. apply (chain_frame H); [|by eapply (bk_chain _ _ _ _ Hb)].
      intros x Hx. unfold H1. rewrite lookup_insert_ne; [done|]. intros ->. apply Hpn. apply elem_of_app. right. by eapply elem_of_bucket.
    - rewrite Ec1. constructor; [set_solver|]. by apply (bk_nodup _ _ _ _ Hb).
    - intros x [->|Hx]%elem_of_cons; [by exists e|]. by eapply (bk_hash _ _ _ _ Hb). }
  destruct (IH fuel (next_hash e) (<[i := Some p]> nl) (<[i := p :: b]> nb) (count + 1) H1) as (nl' & nb' & H' & E & Hb' & Ep & Hf'); [done| | | |lia|lia|lia|].
  - apply (chain_frame H); [|done]. intros x Hx. unfold H1. rewrite lookup_insert_ne; [done|]. intros ->. set_solver.
  - rewrite Ec1, <- Permutation_middle. constructor; [done|done].
  - intros x Hx. destruct (Hh x ltac:(by right)) as (ex & Hxe & ?). destruct (frame_hash _ _ _ _ _ Hf1 Hxe) as (h' & ? & _ & E). exists h'. by rewrite E.
  - rewrite u32_small by lia. rewrite E. exists nl', nb', H'. split_and!; [do 3 f_equal; cbn; lia|done| |].
    + rewrite Ep, Ec1. by rewrite <- Permutation_middle.
    + apply (frame_trans _ _ _ H1); [apply (frame_weaken _ [p]); [done|set_solver]|apply (frame_weaken _ l); [done|set_solver]].
Qed.

Lemma concat_replicate_nil {A} n : concat (replicate n (@nil A)) = [].
Proof. by induction n. Qed.

Lemma nodup_size H l : NoDup l -> (forall p, p ∈ l -> is_Some (H !! p)) -> (length l <= size H)%nat.
Proof.
  intros Hn Hl. rewrite <- size_dom, <- (size_list_to_set (C := gset positive) l Hn). apply subseteq_size.
  intros p Hp%elem_of_list_to_set. by apply elem_of_dom, Hl.
Qed.

Definition table_rep H t l : Prop := exists bs, buckets H (HT.length_ t) (HT.list_ t) bs /\ concat bs ≡ₚ l /\ HT.elems_ t = Z.of_nat (length l).

Lemma resize_spec t bs H : Forall2 (chain H) (HT.list_ t) bs -> NoDup (concat bs) -> (forall p, p ∈ concat bs -> exists h, H !! p = Some h /\ 0 <= hash h) ->
  HT.elems_ t = Z.of_nat (length (concat bs)) -> HT.elems_ t <= 2 ^ 31 ->
  exists t' H', HT.Resize t H = Ret (t', H') /\ table_rep H' t' (concat bs) /\ frame unchained (concat bs) H H'.
Proof.
  intros Hc Hn Hh He Hmax. unfold HT.Resize. destruct (grow_spec (HT.elems_ t)) as (k & Hk & -> & _); [lia|]. run.
  set (step := fun (h : option positive) '(new_list, count, H) => HT.move_chain (size H) h (2 ^ k) new_list count H).
  assert (forall ls bs nl nb count H, Forall2 (chain H) ls bs -> NoDup (concat bs ++ concat nb) -> (forall p, p ∈ concat bs -> exists h, H !! p = Some h /\ 0 <= hash h) ->
    buckets H (2 ^ k) nl nb -> 0 <= count -> count + Z.of_nat (length (concat bs)) < 2 ^ 32 ->
    exists nl' nb' H', foldM step ls (nl, count, H) = Ret (nl', count + Z.of_nat (length (concat bs)), H') /\ buckets H' (2 ^ k) nl' nb' /\
      concat nb' ≡ₚ concat bs ++ concat nb /\ frame unchained (concat bs) H H') as Hfold.
  { clear. induction ls as [|s ls IH]; intros bs nl nb count H Hc Hn Hh Hb H0 Hct.
    { apply Forall2_nil_inv_l in Hc as ->. exists nl, nb, H. cbn. by rewrite Z.add_0_r. }
    apply Forall2_cons_inv_l in Hc as (b & bs' & Hs & Hc & ->). cbn in Hn, Hh, Hct. rewrite length_app in Hct. rewrite <- app_assoc in Hn.
    assert (Hn' := Hn). apply NoDup_app in Hn' as (Hnb & Hd & Hn').
    destruct (move_chain_spec (2 ^ k) b (size H) s nl nb count H) as (nl1 & nb1 & H1 & E1 & Hb1 & Ep1 & Hf1); [done|done| | | |done|lia|].
    - rewrite (Permutation_app_comm (concat bs')) in Hn. rewrite app_assoc in Hn. by apply NoDup_app in Hn as [? _].
    - intros p Hp. apply Hh. set_solver.
    - apply nodup_size; [done|]. intros p Hp. by eapply chain_member.
    - cbn [foldM step]. rewrite E1. run. destruct (IH bs' nl1 nb1 (count + Z.of_nat (length b)) H1) as (nl2 & nb2 & H2 & E2 & Hb2 & Ep2 & Hf2).
      + apply Forall2_same_length_lookup in Hc as [Hlen Hc]. apply Forall2_same_length_lookup. split; [done|]. intros j x l Hx Hl.
        apply (chain_frame H); [|by eapply Hc]. intros p Hp. rewrite (proj2 Hf1); [done|]. intros Hpb. apply (Hd p Hpb), elem_of_app. left.
        by eapply elem_of_bucket.
      + rewrite Ep1. rewrite app_assoc, (Permutation_app_comm (concat bs')), <- app_assoc. done.
      + intros p Hp. destruct (Hh p) as (h & Hph & ?); [set_solver|]. destruct (frame_hash _ _ _ _ _ Hf1 Hph) as (h' & ? & _ & E). exists h'. by rewrite E.
      + done.
      + lia.
      + lia.
      + exists nl2, nb2, H2. rewrite E2. split_and!; [do 3 f_equal; cbn [concat]; rewrite length_app; lia|done| |].
        * rewrite Ep2, Ep1. cbn. rewrite !app_assoc. f_equiv. apply Permutation_app_comm.
        * cbn. apply (frame_trans _ _ _ H1); [apply (frame_weaken _ b)|apply (frame_weaken _ (concat bs'))]; [done|set_solver|done|set_solver]. }
  assert (buckets H (2 ^ k) (replicate (Z.to_nat (2 ^ k)) None) (replicate (Z.to_nat (2 ^ k)) [])) as Hb0.
  { split; [by exists k|by rewrite length_replicate|by rewrite length_replicate| | |].
    - by intros i s b [-> _]%lookup_replicate [-> _]%lookup_replicate.
    - rewrite concat_replicate_nil. constructor.
    - intros i b p [-> _]%lookup_replicate Hp. by apply not_elem_of_nil in Hp. }
  destruct (Hfold (HT.list_ t) bs (replicate (Z.to_nat (2 ^ k)) None) (replicate (Z.to_nat (2 ^ k)) []) 0 H Hc)
    as (nl & nb & H' & E & Hb & Ep & Hf); [|done|exact Hb0|done|lia|].
  { by rewrite concat_replicate_nil, app_nil_r. }
  rewrite E. run. rewrite Z.add_0_l, He, Z.eqb_refl. eexists _, _. split_and!; [done| |done].
  exists nb. split_and!; [done|by rewrite Ep, concat_replicate_nil, app_nil_r|done].
Qed.

(** *** Finding a key *)

(** Handles of the table: hashed by their key, and not taken for a temporary. *)
Definition good_handle H p : Prop := exists h, H !! p = Some h /\ hash h = HashSlice (key_data h) /\ next h <> At p.
Definition keyed H (key : bytes) p : Prop := exists h, H !! p = Some h /\ key_data h = key.

Lemma good_frame X H H' p : frame unchained X H H' -> good_handle H p -> good_handle H' p.
Proof.
  intros Hf (h & Hp & Hh & Hn). destruct (frame_lookup _ _ _ _ _ _ Hf Hp) as (h' & Hp' & E). exists h'. split; [done|].
  injection E as _ En _ _ Ek _ Eh. by rewrite En, Ek, Eh.
Qed.

Lemma keyed_frame X H H' key p : frame unchained X H H' -> keyed H' key p <-> keyed H key p.
Proof.
  intros [Hf _]. specialize (Hf p). unfold keyed. destruct (H' !! p) as [h'|], (H !! p) as [h|]; try done.
  injection Hf as _ _ _ _ Ek _ _. split; intros (x & [= <-] & <-); eexists; (split; [done|congruence]).
Qed.

Lemma hash_go_range n data : (length data <= n)%nat -> forall h, 0 <= h < 2 ^ 32 -> 0 <= Hash_go h data < 2 ^ 32.
Proof.
  assert (forall h k, 0 <= h < 2 ^ 32 -> 0 <= k -> 0 <= Z.lxor h (Z.shiftr h k) < 2 ^ 32) as Hx.
  { intros h k Hh Hk. apply lxor_range; [lia|done|]. rewrite Z.shiftr_div_pow2 by done. assert (0 < 2 ^ k) by lia. split; [apply Z.div_pos; lia|].
    apply Z.div_lt_upper_bound; nia. }
  revert data. induction n as [|n IH]; intros data Hn h Hh; (destruct data as [|b0 [|b1 [|b2 [|b3 data]]]]; cbn [Hash_go]; cbn in Hn; [done|try lia..]).
  all: try (apply Hx; [apply u32_range|lia]). apply IH; [lia|]. apply Hx; [apply u32_range|lia].
Qed.

Lemma hash_slice_range key : 0 <= HashSlice key < 2 ^ 32.
Proof. apply (hash_go_range (length key)); [done|]. apply lxor_range; [lia|lia|apply u32_range]. Qed.

Lemma find_slot_spec t H key i s : HT.list_ t !! i = Some s -> forall l2 l1 fuel, chain H s (l1 ++ l2) -> (forall p, p ∈ l2 -> good_handle H p) ->
  (length l2 < fuel)%nat -> exists l3 l4, l2 = l3 ++ l4 /\ HT.find_slot fuel key (HashSlice key) t (slot_after i l1) H = Ret (slot_after i (l1 ++ l3)) /\
    (forall p, p ∈ l3 -> ~ keyed H key p) /\ (forall p, head l4 = Some p -> keyed H key p).
Proof.
  intros Hi. induction l2 as [|p l2 IH]; intros l1 fuel Hc Hg Hf; (destruct fuel as [|fuel]; [lia|]); cbn [HT.find_slot]; rewrite (read_after t H i s l1 _ Hi Hc); run; cbn [head].
  { exists [], []. rewrite (app_nil_r l1). split_and!; [done|done|set_solver|done]. }
  destruct (Hg p ltac:(by left)) as (h & Hp & Hh & Hn). rewrite (load_lookup p H h) by done. run. rewrite (key_lookup p H h) by done. cbn in Hf.
  destruct (decide (key_data h = key)) as [Ek|Ek].
  - rewrite Hh, Ek, Z.eqb_refl. cbn [negb]. run. rewrite (proj2 (slice_eqb_eq key key) eq_refl). cbn [negb].
    exists [], (p :: l2). rewrite app_nil_r. split_and!; [done|done|set_solver|]. intros q [= <-]. by exists h.
  - destruct (IH (l1 ++ [p]) fuel) as (l3 & l4 & -> & E & H3 & H4); [by rewrite <- app_assoc|set_solver|lia|].
    assert (slot_after i (l1 ++ [p]) = HT.NextHash p) as Es by (unfold slot_after; by rewrite last_snoc). rewrite Es in E.
    exists (p :: l3), l4. split_and!; [done| | |done].
    + replace (l1 ++ p :: l3) with ((l1 ++ [p]) ++ l3) by (by rewrite <- app_assoc). rewrite <- E.
      destruct (hash h =? HashSlice key); cbn [negb]; run; [|done].
      destruct (slice_eqb key (key_data h)) eqn:Eq; [|done]. by apply slice_eqb_eq in Eq.
    + intros q [->|Hq]%elem_of_cons; [|by apply H3]. intros (h' & Hp' & E'). rewrite Hp in Hp'. by injection Hp' as <-.
Qed.

(** The entry with a key, when there is one: keys of [l] are distinct. *)
Definition entry_for H l key (r : option positive) : Prop :=
  match r with Some p => p ∈ l /\ keyed H key p | None => forall p, p ∈ l -> ~ keyed H key p end.

Lemma find_pointer_spec t H l key : table_rep H t l -> (forall p, p ∈ l -> good_handle H p) ->
  exists bs i l1 l2, buckets H (HT.length_ t) (HT.list_ t) bs /\ concat bs ≡ₚ l /\ bs !! i = Some (l1 ++ l2) /\
    i = bucket_of (HT.length_ t) (HashSlice key) /\
    HT.FindPointer key (HashSlice key) t H = Ret (slot_after i l1) /\ HT.read_slot t (slot_after i l1) H = Ret (head l2) /\
    entry_for H l key (head l2).
Proof.
  intros (bs & Hb & Ep & _) Hg. set (i := bucket_of (HT.length_ t) (HashSlice key)).
  assert (i < Z.to_nat (HT.length_ t))%nat as Hi by (apply bucket_bound; [by apply (bk_size _ _ _ _ Hb)|apply hash_slice_range]).
  assert (is_Some (HT.list_ t !! i)) as [s Hs] by (apply lookup_lt_is_Some; by rewrite (bk_list _ _ _ _ Hb)).
  assert (is_Some (bs !! i)) as [b Hbi] by (apply lookup_lt_is_Some; by rewrite (bk_length _ _ _ _ Hb)).
  pose proof (bk_chain _ _ _ _ Hb _ _ _ Hs Hbi) as Hc.
  assert (forall p, p ∈ b -> p ∈ l) as Hbl by (intros p Hp; rewrite <- Ep; by eapply elem_of_bucket).
  destruct (find_slot_spec t H key i s Hs b [] (S (size H))) as (l1 & l2 & -> & E & H1 & H2); [done|by auto| |].
  { destruct (bucket_split bs i b [] Hbi) as (rest & Er & _). pose proof (bk_nodup _ _ _ _ Hb) as Hn. rewrite Er in Hn. apply NoDup_app in Hn as [Hn _].
    pose proof (nodup_size H b Hn) as Hsz. enough (length b <= size H)%nat by lia. apply Hsz. intros p Hp. by eapply chain_member. }
  exists bs, i, l1, l2. split_and!; [done|done|done|done|exact E|by eapply read_after|].
  destruct l2 as [|p l2]; cbn.
  - intros p Hp Hk. rewrite app_nil_r in *. apply (H1 p); [|done]. destruct Hk as (h & Hph & Ek). rewrite <- Ep in Hp.
    apply elem_of_concat in Hp as (b' & Hb' & Hpb'). apply list_elem_of_lookup in Hb' as [j Hj].
    destruct (bk_hash _ _ _ _ Hb j b' p Hj Hpb') as (h' & Hp' & Ej). rewrite Hph in Hp'. injection Hp' as <-.
    destruct (Hg p) as (h'' & Hp'' & Hh & _). { rewrite <- Ep. by eapply elem_of_bucket. } rewrite Hph in Hp''. injection Hp'' as <-.
    rewrite Hh, Ek in Ej. fold i in Ej. subst j. rewrite Hbi in Hj. by injection Hj as ->.
  - split; [apply Hbl; set_solver|]. by apply H2.
Qed.

Lemma lookup_spec t H l key : table_rep H t l -> (forall p, p ∈ l -> good_handle H p) ->
  exists r, HT.Lookup key (HashSlice key) t H = Ret r /\ entry_for H l key r.
Proof.
  intros Ht Hg. destruct (find_pointer_spec t H l key Ht Hg) as (bs & i & l1 & l2 & _ & _ & _ & _ & E & Er & He).
  unfold HT.Lookup. rewrite E. run. rewrite Er. eauto.
Qed.

(** What is left of the list without the entry. *)
Definition without (r : option positive) l : list positive := match r with Some p => filter (fun q => q <> p) l | None => l end.

Lemma without_split p l1 l2 : NoDup (l1 ++ p :: l2) -> without (Some p) (l1 ++ p :: l2) = l1 ++ l2.
Proof.
  intros (Hn1 & Hd & [Hp Hn2]%NoDup_cons)%NoDup_app. cbn. rewrite filter_app, filter_cons, decide_False by tauto.
  rewrite !filter_all; [done| |]; intros q Hq ->; [done|]. apply (Hd p); [done|by left].
Qed.

Lemma without_perm p l : NoDup l -> p ∈ l -> l ≡ₚ p :: without (Some p) l.
Proof. intros Hn (l1 & l2 & ->)%list_elem_of_split. rewrite without_split by done. by rewrite <- Permutation_middle. Qed.

Lemma without_perm_perm r l l' : l ≡ₚ l' -> without r l ≡ₚ without r l'.
Proof. intros E. destruct r; cbn; [by rewrite E|done]. Qed.

Lemma remove_spec t H l key : table_rep H t l -> (forall p, p ∈ l -> good_handle H p) -> Z.of_nat (length l) < 2 ^ 32 ->
  exists r t' H', HT.Remove key (HashSlice key) t H = Ret (r, t', H') /\ entry_for H l key r /\ table_rep H' t' (without r l) /\ frame unchained l H H'.
Proof.
  intros Ht Hg Hmax. assert (HT.elems_ t = Z.of_nat (length l)) as He by (by destruct Ht as (? & _ & _ & ?)).
  destruct (find_pointer_spec t H l key Ht Hg) as (bs & i & l1 & l2 & Hb & Ep & Hbi & _ & E & Er & Hent).
  unfold HT.Remove. rewrite E. run. rewrite Er. run. destruct l2 as [|p l2]; cbn [head] in *.
  { exists None, t, H. split_and!; [done|done|done|apply frame_refl]. }
  assert (p ∈ l1 ++ p :: l2) as Hpb by set_solver. destruct (bk_hash _ _ _ _ Hb i _ p Hbi Hpb) as (h & Hp & _).
  rewrite (load_lookup p H h) by done. run. pose proof (bk_nodup _ _ _ _ Hb) as Hn.
  destruct (bucket_split bs i _ (l1 ++ l2) Hbi) as (rest & Ec & Ec').
  assert (concat bs ≡ₚ p :: concat (<[i := l1 ++ l2]> bs)) as Ecp by (rewrite Ec, Ec'; by rewrite <- Permutation_middle).
  assert (is_Some (HT.list_ t !! i)) as [s Hs].
  { apply lookup_lt_is_Some. rewrite (bk_list _ _ _ _ Hb), <- (bk_length _ _ _ _ Hb). by eapply lookup_lt_Some. }
  pose proof (bk_chain _ _ _ _ Hb _ _ _ Hs Hbi) as Hc.
  destruct (write_after t H (HT.length_ t) bs i l1 (p :: l2) (next_hash h) l2) as (t' & H' & -> & El & Ee & Hf & Hb'); [done|done| | | |].
  { clear -Hc Hp. revert s Hc. induction l1 as [|q l1 IH]; intros s; [|intros (_ & ? & _ & Hc); eauto].
    intros (_ & h' & Hp' & Hc). rewrite Hp in Hp'. by injection Hp' as <-. }
  { rewrite Ecp in Hn. by apply NoDup_cons in Hn as [_ ?]. }
  { intros q Hq. eapply (bk_hash _ _ _ _ Hb); [done|set_solver]. }
  run. eexists _, _, _. split_and!; [done|done| |].
  - exists (<[i := l1 ++ l2]> bs). cbn [HT.length_ HT.list_ HT.elems_]. rewrite El. split_and!; [done| |].
    + assert (NoDup l) as Hnl by (by rewrite <- Ep). apply (Permutation_cons_inv (a := p)). rewrite <- Ecp, Ep. by apply without_perm, Hent.
    + rewrite Ee, He. assert (NoDup l) as Hnl by (by rewrite <- Ep). pose proof (without_perm p l Hnl ltac:(apply Hent)) as Hw. apply Permutation_length in Hw.
      rewrite Hw. cbn [length]. rewrite Hw in Hmax. cbn [length] in Hmax. rewrite u32_small; lia.
  - apply (frame_weaken _ l1); [done|]. intros q Hq. rewrite <- Ep. eapply elem_of_bucket; [done|set_solver].
Qed.

Lemma table_insert_spec t H l e he : table_rep H t l -> (forall p, p ∈ l -> good_handle H p) -> H !! e = Some he -> good_handle H e -> e ∉ l ->
  Z.of_nat (length l) < 2 ^ 31 -> exists r t' H', HT.Insert e t H = Ret (r, t', H') /\ entry_for H l (key_data he) r /\
    table_rep H' t' (e :: without r l) /\ frame unchained (e :: l) H H'.
Proof.
  intros Ht Hg Hge Heg Hel Hmax. assert (HT.elems_ t = Z.of_nat (length l)) as He by (by destruct Ht as (? & _ & _ & ?)).
  destruct (find_pointer_spec t H l (key_data he) Ht Hg) as (bs & i & l1 & l2 & Hb & Ep & Hbi & Ei & E & Er & Hent).
  assert (Heg' := Heg). destruct Heg' as (h' & Hh' & Hhe & Hne). rewrite Hge in Hh'. injection Hh' as <-.
  unfold HT.Insert. rewrite (key_lookup e H he) by done. run. rewrite (load_lookup e H he) by done. run. rewrite Hhe, E. run. rewrite Er. run.
  assert (exists nh l3, l3 = tail l2 /\ (match head l2 with None => Ret None | Some o => oh ← load o H; Ret (next_hash oh) end = Ret nh) /\ chain H nh l3) as (nh & l3 & El3 & Enh & Hnh).
  { assert (is_Some (HT.list_ t !! i)) as [s Hs].
    { apply lookup_lt_is_Some. rewrite (bk_list _ _ _ _ Hb), <- (bk_length _ _ _ _ Hb). by eapply lookup_lt_Some. }
    pose proof (bk_chain _ _ _ _ Hb _ _ _ Hs Hbi) as Hc. clear -Hc. destruct l2 as [|o l2]; cbn; [by exists None, []|].
    revert s Hc. induction l1 as [|q l1 IH]; intros s; [|intros (_ & ? & _ & Hc); eauto].
    intros (_ & h & Hp & Hc). exists (next_hash h), l2. by rewrite (load_lookup o H h). }
  rewrite Enh. run. rewrite (store_lookup e _ H he) by done. run. set (H1 := <[e := with_next_hash nh he]> H).
  assert (frame unchained [e] H H1) as Hf1 by (by apply frame_store).
  assert (forall p, p ∈ concat bs -> p <> e) as Hce by (intros p Hp ->; by rewrite Ep in Hp).
  assert (buckets H1 (HT.length_ t) (HT.list_ t) bs) as Hb1.
  { destruct Hb as [Hs1 Hs2 Hs3 Hs4 Hs5 Hs6]. split; [done|done|done| |done|].
    - intros j s b Hj Hbj. apply (chain_frame H); [|by eapply Hs4]. intros p Hp. unfold H1. rewrite lookup_insert_ne; [done|].
      intros ->. by eapply Hce; [eapply elem_of_bucket|].
    - intros j b p Hbj Hp. destruct (Hs6 j b p Hbj Hp) as (h & Hph & <-). destruct (frame_hash _ _ _ _ _ Hf1 Hph) as (h' & ? & _ & E'). exists h'. by rewrite E'. }
  destruct (bucket_split bs i _ (l1 ++ e :: l3) Hbi) as (rest & Ec & Ec').
  assert (NoDup l) as Hnl by (rewrite <- Ep; by apply (bk_nodup _ _ _ _ Hb)).
  assert (concat (<[i := l1 ++ e :: l3]> bs) ≡ₚ e :: without (head l2) l) as Ecp.
  { rewrite Ec', <- Permutation_middle. cbn. apply perm_skip. destruct l2 as [|o l2]; cbn [head tail] in *; subst l3; [by rewrite <- Ep, Ec|].
    apply (Permutation_cons_inv (a := o)). rewrite <- (without_perm o l Hnl) by apply Hent. rewrite <- Ep, Ec. rewrite <- !app_assoc. cbn.
    by rewrite Permutation_middle. }
  assert (NoDup (e :: without (head l2) l)) as Hnw.
  { constructor; [|by destruct l2; cbn; [|apply NoDup_filter]]. destruct l2; cbn; [done|]. rewrite list_elem_of_filter. tauto. }
  destruct (write_after t H1 (HT.length_ t) bs i l1 l2 (Some e) (e :: l3)) as (t' & H2 & -> & El & Ee & Hf2 & Hb2); [done|done| |by rewrite Ecp| |].
  { split; [done|]. eexists. split; [apply lookup_insert_eq|]. cbn. apply (chain_frame H); [|done]. intros p Hp. unfold H1. rewrite lookup_insert_ne; [done|].
    intros ->. apply (Hce p); [|done]. eapply elem_of_bucket; [exact Hbi|]. subst l3. destruct l2; cbn in Hp; set_solver. }
  { intros p [->|Hp]%elem_of_cons.
    - eexists. split; [apply lookup_insert_eq|]. cbn. by rewrite Hhe.
    - eapply (bk_hash _ _ _ _ Hb1); [exact Hbi|]. subst l3. destruct l2; cbn in Hp; set_solver. }
  run. assert (frame unchained (e :: l) H H2) as Hf.
  { apply (frame_trans _ _ _ H1); [apply (frame_weaken _ [e]); [done|set_solver]|apply (frame_weaken _ l1); [done|]].
    intros q Hq. right. rewrite <- Ep. eapply elem_of_bucket; [exact Hbi|set_solver]. }
  destruct l2 as [|o l2]; cbn [head] in *.
  - cbn [HT.length_ HT.elems_]. rewrite Ee, He, u32_small by lia. set (t1 := HT.MkTable (HT.length_ t') (Z.of_nat (length l) + 1) (HT.list_ t')).
    destruct (HT.length_ t' <? Z.of_nat (length l) + 1).
    + destruct (resize_spec t1 (<[i := l1 ++ e :: l3]> bs) H2) as (t3 & H3 & -> & Ht3 & Hf3).
      * apply Forall2_same_length_lookup. cbn. rewrite (bk_list _ _ _ _ Hb2), (bk_length _ _ _ _ Hb2). split; [done|]. apply (bk_chain _ _ _ _ Hb2).
      * by rewrite Ecp.
      * intros p Hp. rewrite Ecp in Hp. assert (good_handle H2 p) as (h & Hph & Hh & _).
        { apply (good_frame _ _ _ _ Hf). apply elem_of_cons in Hp as [->|Hp]; [done|]. by apply Hg. }
        exists h. split; [done|]. rewrite Hh. apply hash_slice_range.
      * rewrite Ecp. cbn. lia.
      * cbn. lia.
      * run. eexists _, _, _. split_and!; [done|done| |].
        -- destruct Ht3 as (bs3 & Hb3 & Ep3 & Ee3). exists bs3. split_and!; [done|by rewrite Ep3, Ecp|]. by rewrite Ee3, Ecp.
        -- apply (frame_trans _ _ _ H2); [done|]. apply (frame_weaken _ _ _ _ _ Hf3). intros p Hp. by rewrite Ecp in Hp.
    + run. eexists _, _, _. split_and!; [done|done| |done]. exists (<[i := l1 ++ e :: l3]> bs). unfold t1. cbn [HT.length_ HT.list_ HT.elems_]. rewrite El.
      split_and!; [done|by rewrite Ecp|cbn; lia].
  - eexists _, _, _. split_and!; [done|done| |done]. exists (<[i := l1 ++ e :: l3]> bs). rewrite El. split_and!; [done|by rewrite Ecp|].
    rewrite Ee, He. pose proof (without_perm o l Hnl ltac:(apply Hent)) as Hw. apply Permutation_length in Hw. rewrite Hw. done.
Qed.

Lemma table_new_spec H : exists t, HT.new H = Ret (t, H) /\ table_rep H t [] .
Proof.
  unfold HT.new. destruct (resize_spec (HT.MkTable 0 0 []) [] H) as (t & H' & -> & Ht & Hf); [constructor|constructor|by intros p Hp%elem_of_nil|done|done|].
  exists t. assert (H' = H) as -> by (apply map_eq; intros q; apply (proj2 Hf); set_solver). done.
Qed.
End Chains.
