(* ===== verification/Snapshots.v ===== *)
(** * Snapshots (util/leveldb/db/snapshot.h; db/db_impl.cc, [GetSnapshot])

    The snapshots in use, on a circular list with a dummy head, oldest first.  A
    compaction may drop what no snapshot can see, so it asks for the oldest. *)

From S2P Require Import Prelude Cache CacheMem.
#[local] Open Scope Z_scope.

(** A link is to the dummy head, [Lru], or to the snapshot at an address; [list_] is the
    list the snapshot was made by. *)
Record SnapshotImpl := MkSnapshot { number_ : Z; prev_ : link; next_ : link; list_ : positive }.

(** The memory of the snapshots, the links of the head, and the address of the list. *)
Record SnapshotList := MkSnapshots { snaps : gmap positive SnapshotImpl; head_prev : link; head_next : link; this : positive }.

Module SL.
Definition new (this : positive) : SnapshotList := MkSnapshots ∅ Lru Lru this.

Definition load (p : positive) (s : SnapshotList) : outcome SnapshotImpl := match snaps s !! p with Some n => Ret n | None => Undef end.

Definition set_next (l v : link) (s : SnapshotList) : outcome SnapshotList :=
  match l with
  | Lru => Ret (MkSnapshots (snaps s) (head_prev s) v (this s))
  | At p => n ← load p s; Ret (MkSnapshots (<[p := MkSnapshot (number_ n) (prev_ n) v (list_ n)]> (snaps s)) (head_prev s) (head_next s) (this s))
  end.

Definition set_prev (l v : link) (s : SnapshotList) : outcome SnapshotList :=
  match l with
  | Lru => Ret (MkSnapshots (snaps s) v (head_next s) (this s))
  | At p => n ← load p s; Ret (MkSnapshots (<[p := MkSnapshot (number_ n) v (next_ n) (list_ n)]> (snaps s)) (head_prev s) (head_next s) (this s))
  end.

Definition empty (s : SnapshotList) : bool := bool_decide (head_next s = Lru).

(** The number of a snapshot; the head has none. *)
Definition number (l : link) (s : SnapshotList) : outcome Z := match l with At p => n ← load p s; Ret (number_ n) | Lru => Undef end.

Definition oldest (s : SnapshotList) : outcome link := assert! negb (empty s); Ret (head_next s).
Definition newest (s : SnapshotList) : outcome link := assert! negb (empty s); Ret (head_prev s).

Definition New (seq : Z) (s : SnapshotList) : outcome (positive * SnapshotList) :=
  let p := fresh (dom (snaps s) : gset positive) in
  let s := MkSnapshots (<[p := MkSnapshot seq (head_prev s) Lru (this s)]> (snaps s)) (head_prev s) (head_next s) (this s) in
  n ← load p s;
  s ← set_next (prev_ n) (At p) s;
  n ← load p s;
  s ← set_prev (next_ n) (At p) s;
  Ret (p, s).

Definition Delete (p : positive) (s : SnapshotList) : outcome SnapshotList :=
  n ← load p s;
  assert! bool_decide (list_ n = this s);
  s ← set_next (prev_ n) (next_ n) s;
  n ← load p s;
  s ← set_prev (next_ n) (prev_ n) s;
  Ret (MkSnapshots (delete p (snaps s)) (head_prev s) (head_next s) (this s)).
End SL.

(** What [DoCompactionWork] takes as the oldest number that is in use. *)
Definition smallest_snapshot (last_sequence : Z) (s : SnapshotList) : outcome Z :=
  if SL.empty s then Ret last_sequence else l ← SL.oldest s; SL.number l s.

(** The calls of a client. *)
Definition GetSnapshot (last_sequence : Z) (s : SnapshotList) : outcome (positive * SnapshotList) := SL.New last_sequence s.
Definition ReleaseSnapshot (p : positive) (s : SnapshotList) : outcome SnapshotList := SL.Delete p s.

(** ** The list *)

Definition nxt (s : SnapshotList) (l : link) : option link := match l with Lru => Some (head_next s) | At p => next_ <$> snaps s !! p end.
Definition prv (s : SnapshotList) (l : link) : option link := match l with Lru => Some (head_prev s) | At p => prev_ <$> snaps s !! p end.
Definition number_at (s : SnapshotList) (p : positive) : option Z := number_ <$> snaps s !! p.
Definition list_at (s : SnapshotList) (p : positive) : option positive := list_ <$> snaps s !! p.

(** The snapshots in use, by address, with their numbers; no others are in memory. *)
Record snap_rep (s : SnapshotList) (l : list (positive * Z)) : Prop := {
  sr_nodup : NoDup l.*1;
  sr_ring : path (nxt s) (prv s) (circle l.*1);
  sr_numbers p n : (p, n) ∈ l <-> number_at s p = Some n;
  sr_list p x : list_at s p = Some x -> x = this s;
}.

Lemma set_next_at l v s : is_Some (nxt s l) -> exists s', SL.set_next l v s = Ret s' /\ (forall x, nxt s' x = if decide (x = l) then Some v else nxt s x) /\ (forall x, prv s' x = prv s x) /\ (forall p, number_at s' p = number_at s p) /\ (forall p, list_at s' p = list_at s p) /\ this s' = this s.
Proof.
  destruct l as [|p]; cbn [nxt SL.set_next].
  - intros _. eexists. split; [done|]. split_and!; [by intros [|q]|by intros [|q]|done|done|done].
  - unfold SL.load. intros Hp. destruct (snaps s !! p) as [n|] eqn:Ep; [|by destruct Hp]. run. eexists. split; [done|]. unfold number_at, list_at. split_and!; [intros [|q]|intros [|q]|intros q|intros q|]; cbn [nxt prv snaps head_next head_prev]; try done.
    + destruct (decide (At q = At p)) as [[= ->]|Hne]; [by rewrite lookup_insert_eq|]. rewrite lookup_insert_ne; [done|]. intros ->. by apply Hne.
    + destruct (decide (p = q)) as [->|Hne]; [by rewrite lookup_insert_eq, Ep|by rewrite lookup_insert_ne].
    + destruct (decide (p = q)) as [->|Hne]; [by rewrite lookup_insert_eq, Ep|by rewrite lookup_insert_ne].
    + destruct (decide (p = q)) as [->|Hne]; [by rewrite lookup_insert_eq, Ep|by rewrite lookup_insert_ne].
Qed.

Lemma set_prev_at l v s : is_Some (prv s l) -> exists s', SL.set_prev l v s = Ret s' /\ (forall x, prv s' x = if decide (x = l) then Some v else prv s x) /\ (forall x, nxt s' x = nxt s x) /\ (forall p, number_at s' p = number_at s p) /\ (forall p, list_at s' p = list_at s p) /\ this s' = this s.
Proof.
  destruct l as [|p]; cbn [prv SL.set_prev].
  - intros _. eexists. split; [done|]. split_and!; [by intros [|q]|by intros [|q]|done|done|done].
  - unfold SL.load. intros Hp. destruct (snaps s !! p) as [n|] eqn:Ep; [|by destruct Hp]. run. eexists. split; [done|]. unfold number_at, list_at. split_and!; [intros [|q]|intros [|q]|intros q|intros q|]; cbn [nxt prv snaps head_next head_prev]; try done.
    + destruct (decide (At q = At p)) as [[= ->]|Hne]; [by rewrite lookup_insert_eq|]. rewrite lookup_insert_ne; [done|]. intros ->. by apply Hne.
    + destruct (decide (p = q)) as [->|Hne]; [by rewrite lookup_insert_eq, Ep|by rewrite lookup_insert_ne].
    + destruct (decide (p = q)) as [->|Hne]; [by rewrite lookup_insert_eq, Ep|by rewrite lookup_insert_ne].
    + destruct (decide (p = q)) as [->|Hne]; [by rewrite lookup_insert_eq, Ep|by rewrite lookup_insert_ne].
Qed.

(** A loaded snapshot is what the links and the number say. *)
Lemma load_at p s a b n x : nxt s (At p) = Some b -> prv s (At p) = Some a -> number_at s p = Some n -> list_at s p = Some x -> SL.load p s = Ret (MkSnapshot n a b x).
Proof. unfold SL.load, number_at, list_at. cbn. destruct (snaps s !! p) as [[m y z t]|]; cbn; intros E1 E2 E3 E4; by simplify_eq. Qed.

Lemma new_snap_rep this : snap_rep (SL.new this) [].
Proof.
  split; [constructor|done| |].
  - intros p n. unfold number_at. cbn. rewrite lookup_empty. split; [by intros ?%not_elem_of_nil|done].
  - intros p x. unfold list_at. cbn. by rewrite lookup_empty.
Qed.

Lemma new_snapshot s l seq : snap_rep s l -> exists p s', SL.New seq s = Ret (p, s') /\ p ∉ l.*1 /\ snap_rep s' (l ++ [(p, seq)]).
Proof.
  intros [Hn Hr Hnum Hls]. unfold SL.New. set (p := fresh _). assert (snaps s !! p = None) as Hp by (apply (not_elem_of_dom (D := gset positive)), is_fresh).
  assert (p ∉ l.*1) as Hpl. { intros ([q n] & -> & Hin)%list_elem_of_fmap. apply Hnum in Hin. unfold number_at in Hin. cbn in *. by rewrite Hp in Hin. }
  destruct (circle_split l.*1 []) as (pre & a & b & post & Ea & Eb & Ec & Hap & Har & Hbt & Hbp & Hai & Hbi); [by rewrite app_nil_r|].
  pose proof (Ec [p]) as Ee. specialize (Ec []). cbn in Eb, Ee, Ec. rewrite app_nil_r in Ec. injection Eb as <- <-. rewrite Ec in Hr. pose proof (path_next _ _ _ _ _ _ Hr) as [Hna Hpb]. cbn in Hpb. injection Hpb as Hpb. rewrite Hpb.
  assert (At p <> a) as Hpa by (intros <-; unfold circle in Hai; set_solver). set (s1 := MkSnapshots _ _ _ _).
  assert (forall x, nxt s1 x = if decide (x = At p) then Some Lru else nxt s x) as N1. { intros [|q]; [done|]. cbn. destruct (decide (At q = At p)) as [[= ->]|Hne]; [by rewrite lookup_insert_eq|]. rewrite lookup_insert_ne; [done|]. intros ->. by apply Hne. }
  assert (forall x, prv s1 x = if decide (x = At p) then Some a else prv s x) as P1. { intros [|q]; [cbn; by rewrite Hpb|]. cbn. destruct (decide (At q = At p)) as [[= ->]|Hne]; [by rewrite lookup_insert_eq|]. rewrite lookup_insert_ne; [done|]. intros ->. by apply Hne. }
  assert (number_at s1 p = Some seq /\ forall q, q <> p -> number_at s1 q = number_at s q) as [M1 M2]. { unfold number_at. cbn. split; [by rewrite lookup_insert_eq|]. intros q Hq. by rewrite lookup_insert_ne. }
  assert (list_at s1 p = Some (this s) /\ forall q, q <> p -> list_at s1 q = list_at s q) as [L1 L2]. { unfold list_at. cbn. split; [by rewrite lookup_insert_eq|]. intros q Hq. by rewrite lookup_insert_ne. }
  rewrite (load_at p s1 a Lru seq (this s)) by (rewrite ?N1, ?P1, ?decide_True by done; done). run. cbn [prev_].
  destruct (set_next_at a (At p) s1) as (s2 & -> & N2 & P2 & M3 & L3 & T3); [rewrite N1, decide_False by done; by eexists|]. run.
  rewrite (load_at p s2 a Lru seq (this s)) by (rewrite ?M3, ?L3, ?N2, ?P2, ?decide_False, ?N1, ?P1, ?decide_True by done; done). run. cbn [next_].
  destruct (set_prev_at Lru (At p) s2) as (s3 & -> & P3 & N3 & M4 & L4 & T4); [by eexists|]. run. exists p, s3. split; [done|]. split; [done|]. split.
  - rewrite fmap_app. apply NoDup_app. split_and!; [done| |apply NoDup_singleton]. intros x Hx ->%list_elem_of_singleton. done.
  - rewrite fmap_app. cbn [fmap list_fmap fst]. rewrite Ee. eapply path_add; [exact Hr| | | | | |].
    + by rewrite N3, N2, decide_True.
    + by rewrite P3, decide_False, P2, P1, decide_True.
    + by rewrite N3, N2, decide_False, N1, decide_True.
    + by rewrite P3, decide_True.
    + intros y [Hy|Hy]; [|by apply elem_of_nil in Hy]. rewrite N3, N2, decide_False, N1, decide_False; [done| |by intros ->]. intros ->. assert (At p ∈ circle l.*1) as Hc by (rewrite Ec; set_solver). unfold circle in Hc. set_solver.
    + intros y [Hy|Hy]; [|by apply elem_of_nil in Hy]. rewrite P3, decide_False, P2, P1 by (by intros ->). rewrite decide_False; [done|]. intros ->. rewrite <- Ea in Hy. cbn in Hy. set_solver.
  - intros q n. rewrite M4, M3, elem_of_app, list_elem_of_singleton, Hnum. destruct (decide (q = p)) as [->|Hq]; [|rewrite M2 by done; naive_solver].
    rewrite M1. unfold number_at. rewrite Hp. cbn. naive_solver.
  - intros q x. rewrite L4, L3, T4, T3. cbn [this s1]. destruct (decide (q = p)) as [->|Hq]; [rewrite L1; by intros [= ->]|rewrite L2 by done; apply Hls].
Qed.

Lemma removelast_in {A} (y : A) l : y ∈ removelast l -> y ∈ l.
Proof. induction l as [|a [|b l] IH]; [done|by intros ?%not_elem_of_nil|]. change (removelast (a :: b :: l)) with (a :: removelast (b :: l)). rewrite !(elem_of_cons _ _ a). naive_solver. Qed.

Lemma tail_in {A} (y : A) l : y ∈ tail l -> y ∈ l.
Proof. destruct l; [done|]. by right. Qed.

Lemma delete_snapshot s l1 p n l2 : snap_rep s (l1 ++ (p, n) :: l2) -> exists s', SL.Delete p s = Ret s' /\ snap_rep s' (l1 ++ l2).
Proof.
  intros [Hn Hr Hnum Hls]. rewrite fmap_app in Hn, Hr. cbn [fmap list_fmap fst] in Hn, Hr. assert (NoDup (l1.*1 ++ l2.*1) /\ p ∉ l1.*1 ++ l2.*1) as [Hn' Hp]. { rewrite <- Permutation_middle in Hn. apply NoDup_cons in Hn. tauto. }
  destruct (circle_split l1.*1 l2.*1 Hn') as (pre & a & b & post & Ea & Eb & Ec & Hap & Har & Hbt & Hbp & Hai & Hbi). pose proof (Ec [p]) as Ee. cbn in Ee. rewrite Ee in Hr. specialize (Ec []). cbn in Ec.
  pose proof (path_next _ _ _ _ _ _ Hr) as [Hna Hpe]. pose proof Hr as Hr'. rewrite cons_middle, app_assoc in Hr'. apply path_next in Hr' as [Hne Hpb].
  assert (At p <> a) as Hpa by (intros <-; unfold circle in Hai; set_solver). assert (At p <> b) as Hpb' by (intros <-; unfold circle in Hbi; set_solver).
  assert (number_at s p = Some n) as Hnp by (apply Hnum; set_solver). assert (list_at s p = Some (this s)) as Hlp by (unfold number_at, list_at in *; specialize (Hls p); destruct (snaps s !! p) as [x|]; [cbn; f_equal; by apply Hls|done]).
  unfold SL.Delete. rewrite (load_at p s a b n (this s)) by done. run. cbn [prev_ next_ list_]. rewrite bool_decide_eq_true_2 by done.
  destruct (set_next_at a b s) as (s1 & -> & N1 & P1 & M1 & L1 & T1); [by eexists|]. run. rewrite (load_at p s1 a b n (this s)) by (rewrite ?N1, ?P1, ?M1, ?L1, ?decide_False by done; done). run. cbn [prev_ next_].
  destruct (set_prev_at b a s1) as (s2 & -> & P2 & N2 & M2 & L2 & T2); [rewrite P1; by eexists|]. run. eexists. split; [done|]. set (s3 := MkSnapshots _ _ _ _).
  assert (forall x, x <> At p -> nxt s3 x = nxt s2 x /\ prv s3 x = prv s2 x) as H3. { intros [|q] Hx; [done|]. cbn. by rewrite !lookup_delete_ne by congruence. }
  assert (forall y, y ∈ circle (l1.*1 ++ l2.*1) -> y <> At p) as Hother by (intros y Hy ->; unfold circle in Hy; set_solver). rewrite Ec in Hother. split.
  - by rewrite fmap_app.
  - rewrite fmap_app, Ec. eapply path_remove; [exact Hr| | | |].
    + rewrite (proj1 (H3 a ltac:(done))), N2, N1. by rewrite decide_True.
    + rewrite (proj2 (H3 b ltac:(done))), P2. by rewrite decide_True.
    + intros y Hy. rewrite (proj1 (H3 y ltac:(apply Hother; rewrite elem_of_app, elem_of_cons; destruct Hy as [Hy|Hy%removelast_in]; [by left|by right; right]))), N2, N1, decide_False; [done|]. intros ->. tauto.
    + intros y Hy. rewrite (proj2 (H3 y ltac:(apply Hother; rewrite elem_of_app, !elem_of_cons; destruct Hy as [Hy%tail_in|Hy]; [apply elem_of_app in Hy as [Hy|Hy%list_elem_of_singleton]; [by left|by right; left]|by right; right; right]))), P2, decide_False; [by rewrite P1|]. intros ->. tauto.
  - intros q m. unfold number_at. cbn [snaps s3]. destruct (decide (q = p)) as [->|Hq].
    + rewrite lookup_delete_eq. cbn. split; [|done]. intros Hin. exfalso. apply Hp. rewrite <- fmap_app. by apply (list_elem_of_fmap_2 fst) in Hin.
    + rewrite lookup_delete_ne by done. fold (number_at s2 q). rewrite M2, M1, <- Hnum. rewrite !elem_of_app, elem_of_cons. naive_solver.
  - intros q x. unfold list_at. cbn [snaps this s3]. destruct (decide (q = p)) as [->|Hq]; [by rewrite lookup_delete_eq|].
    rewrite lookup_delete_ne by done. fold (list_at s2 q). rewrite L2, L1, T2, T1. apply Hls.
Qed.

Lemma delete_gone s l p : snap_rep s l -> p ∉ l.*1 -> SL.Delete p s = Undef.
Proof.
  intros [_ _ Hnum _] Hp. unfold SL.Delete, SL.load. destruct (snaps s !! p) as [n|] eqn:E; [|done]. exfalso. apply Hp. apply list_elem_of_fmap. exists (p, number_ n). split; [done|]. apply Hnum. unfold number_at. by rewrite E.
Qed.

(** The links of the head. *)
Lemma oldest_spec s l : snap_rep s l -> SL.empty s = bool_decide (l = []) /\ forall p n, head l = Some (p, n) -> SL.oldest s = Ret (At p) /\ SL.number (At p) s = Ret n.
Proof.
  intros [Hn Hr Hnum _]. unfold SL.oldest. destruct l as [|[p n] l].
  - unfold circle in Hr. cbn in Hr. destruct Hr as ([= E] & _). unfold SL.empty. rewrite E. done.
  - unfold circle in Hr. cbn in Hr. destruct Hr as ([= E] & _). unfold SL.empty. rewrite E. split; [done|]. intros p' n' [= <- <-]. split; [done|]. pose proof (proj1 (Hnum p n) (list_elem_of_here _ _)) as Hp.
    unfold SL.number, SL.load, number_at in *. destruct (snaps s !! p); [|done]. cbn in Hp. run. by injection Hp as ->.
Qed.

(** ** Snapshots in use *)

(** What clients and time can do: [l] are the snapshots in use, [last] the last sequence
    number so far. *)
Inductive reached : list (positive * Z) -> Z -> SnapshotList -> Prop :=
| ReachedNew last this : reached [] last (SL.new this)
| ReachedWrite l last last' s : reached l last s -> last <= last' -> reached l last' s
| ReachedGet l last s p s' : reached l last s -> GetSnapshot last s = Ret (p, s') -> reached (l ++ [(p, last)]) last s'
| ReachedRelease l1 p n l2 last s s' : reached (l1 ++ (p, n) :: l2) last s -> ReleaseSnapshot p s = Ret s' -> reached (l1 ++ l2) last s'.

Lemma sublist_sorted (l1 l2 : list (positive * Z)) x : StronglySorted Z.le (l1 ++ x :: l2).*2 -> StronglySorted Z.le (l1 ++ l2).*2.
Proof.
  rewrite !fmap_app. cbn. induction l1 as [|y l1 IH]; cbn; [by intros [? _]%StronglySorted_inv|]. intros [Hs Hf]%StronglySorted_inv. constructor; [by apply IH|]. apply Forall_app in Hf as [? [_ ?]%Forall_cons]. by apply Forall_app.
Qed.

Lemma reached_rep l last s : reached l last s -> snap_rep s l /\ StronglySorted Z.le l.*2 /\ Forall (fun x => x.2 <= last) l.
Proof.
  induction 1 as [last this|l last last' s _ (IH & Hs & Hl) Hle|l last s p s' _ (IH & Hs & Hl) E|l1 p n l2 last s s' _ (IH & Hs & Hl) E].
  - split_and!; [apply new_snap_rep|constructor|constructor].
  - split_and!; [done|done|]. eapply Forall_impl; [exact Hl|]. cbn. lia.
  - destruct (new_snapshot s l last IH) as (p' & s2 & E' & _ & Hr). unfold GetSnapshot in E. rewrite E' in E. injection E as -> ->. split_and!; [done| |apply Forall_app; split; [done|by apply Forall_singleton]].
    rewrite fmap_app. apply StronglySorted_app_2; [|done|repeat constructor]. intros x y (z & -> & Hz)%list_elem_of_fmap ->%list_elem_of_singleton. rewrite Forall_forall in Hl. by apply Hl.
  - destruct (delete_snapshot s l1 p n l2 IH) as (s2 & E' & Hr). unfold ReleaseSnapshot in E. rewrite E' in E. injection E as ->. split_and!; [done|by eapply sublist_sorted|]. apply Forall_app in Hl as [? [_ ?]%Forall_cons]. by apply Forall_app.
Qed.

(** C18: snapshots hold back compactions.  Whatever snapshots clients take and release, in
    any order, taking one and releasing one that is in use always works, no other is in
    memory, releasing one that is not in use is undefined, and the number that a
    compaction takes for the oldest in use is that of one in use and at most that of
    every other; it is the last sequence number when none is. *)
Theorem oldest_snapshot_is_least l last s : reached l last s ->
  (exists p s', GetSnapshot last s = Ret (p, s') /\ reached (l ++ [(p, last)]) last s') /\
  (forall p, (exists s', ReleaseSnapshot p s = Ret s') <-> p ∈ l.*1) /\
  (forall p n, (p, n) ∈ l <-> number_at s p = Some n) /\
  exists m, smallest_snapshot last s = Ret m /\ (l = [] -> m = last) /\ (l <> [] -> m ∈ l.*2) /\ forall p n, (p, n) ∈ l -> m <= n.
Proof.
  intros Hr. destruct (reached_rep l last s Hr) as (Hrep & Hs & Hl). split_and!.
  - destruct (new_snapshot s l last Hrep) as (p & s' & E & _). exists p, s'. split; [done|]. by eapply ReachedGet.
  - intros p. split.
    + intros [s' E]. destruct (decide (p ∈ l.*1)) as [|Hp]; [done|]. unfold ReleaseSnapshot in E. by rewrite (delete_gone s l p Hrep Hp) in E.
    + intros ([q n] & -> & (l1 & l2 & ->)%list_elem_of_split)%list_elem_of_fmap. destruct (delete_snapshot s l1 q n l2 Hrep) as (s' & E & _). by exists s'.
  - apply Hrep.
  - destruct (oldest_spec s l Hrep) as [He Ho]. unfold smallest_snapshot. rewrite He. destruct l as [|[p n] l].
    + exists last. split_and!; [done|done|done|]. by intros p n ?%not_elem_of_nil.
    + rewrite bool_decide_eq_false_2 by done. destruct (Ho p n eq_refl) as [-> E]. run. exists n. split_and!; [exact E|done|by left|]. intros q m [[= -> ->]|Hin]%elem_of_cons; [lia|].
      cbn in Hs. apply StronglySorted_inv in Hs as [_ Hf]. rewrite Forall_forall in Hf. apply Hf. apply list_elem_of_fmap. by exists (q, m).
Qed.

(** Three snapshots, of which the second is released. *)
Lemma oldest_snapshot_is_least_witness : exists p1 p2 p3 s m, reached [(p1, 4); (p3, 9)] 12 s /\ p2 <> p1 /\ smallest_snapshot 12 s = Ret m /\ m = 4.
Proof.
  assert (exists p s1, GetSnapshot 4 (SL.new 1) = Ret (p, s1) /\ reached [(p, 4)] 4 s1) as (p1 & s1 & _ & R1) by (apply (oldest_snapshot_is_least [] 4 (SL.new 1)), ReachedNew).
  assert (exists p s2, GetSnapshot 7 s1 = Ret (p, s2) /\ reached [(p1, 4); (p, 7)] 7 s2) as (p2 & s2 & _ & R2) by (apply (oldest_snapshot_is_least [(p1, 4)] 7 s1); by eapply ReachedWrite).
  assert (exists p s3, GetSnapshot 9 s2 = Ret (p, s3) /\ reached [(p1, 4); (p2, 7); (p, 9)] 9 s3) as (p3 & s3 & _ & R3) by (apply (oldest_snapshot_is_least [(p1, 4); (p2, 7)] 9 s2); by eapply ReachedWrite).
  destruct (proj2 (proj1 (proj2 (oldest_snapshot_is_least _ _ _ R3)) p2)) as [s4 E4]; [right; by left|]. pose proof (ReachedRelease [(p1, 4)] p2 7 [(p3, 9)] 9 s3 s4 R3 E4) as R4. cbn in R4.
  pose proof (sr_nodup _ _ (proj1 (reached_rep _ _ _ R2))) as Hnd. cbn in Hnd. apply NoDup_cons in Hnd as [Hne _].
  assert (reached [(p1, 4); (p3, 9)] 12 s4) as R5 by (by eapply ReachedWrite). destruct (oldest_snapshot_is_least _ _ _ R5) as (_ & _ & _ & m & Em & _ & Hin & Hle).
  exists p1, p2, p3, s4, m. split; [exact R5|]. split; [intros ->; apply Hne; by left|]. split; [exact Em|]. pose proof (Hle p1 4 ltac:(by left)). specialize (Hin ltac:(done)). cbn in Hin. set_solver by lia.
Defined.
