(* ===== verification/CacheSpec.v ===== *)
(** * The shards of the LRU cache refine an abstract one

    The abstract shard has the live entries, with the number of handles that clients
    hold on each, and the order of use of those that can be found.  Every method of
    [LRUCache] is a function on it, and the pointers of cache.cc represent its
    result. *)

From S2P Require Import Prelude Slice FilterPolicy Cache CacheMem.
#[local] Open Scope Z_scope.

(** ** The abstract shard *)

Record item (V : Type) := MkItem { i_key : bytes; i_value : V; i_charge : Z; i_pins : nat }.
Arguments MkItem {V}.
Arguments i_key {V}.
Arguments i_value {V}.
Arguments i_charge {V}.
Arguments i_pins {V}.

(** [order]: the entries that can be found, the one used last at the end. *)
Record shard (V : Type) := MkShard { order : list positive; live : gmap positive (item V) }.
Arguments MkShard {V}.
Arguments order {V}.
Arguments live {V}.

Section Abstract.
Context {V : Type}.
Implicit Types (A : shard V) (p : positive).

(** What was deleted, with the entries that are left. *)
Abbreviation dropped := (shard V * list (bytes * V))%type.

Definition usage A : Z := map_fold (fun _ e n => i_charge e + n) 0 (live A).

Definition find_key (k : bytes) A : option positive := head (filter (fun p => i_key <$> live A !! p = Some k) (order A)).

(** An entry is deleted when it cannot be found and no client holds it. *)
Definition settle p A : dropped :=
  match live A !! p with
  | Some e => if decide (i_pins e = 0%nat /\ p ∉ order A) then (MkShard (order A) (delete p (live A)), [(i_key e, i_value e)]) else (A, [])
  | None => (A, [])
  end.

Definition unlist p A : shard V := MkShard (without (Some p) (order A)) (live A).
Definition drop_entry p A : dropped := settle p (unlist p A).
Definition set_pins (f : nat -> nat) (e : item V) : item V := MkItem (i_key e) (i_value e) (i_charge e) (f (i_pins e)).
Definition repin (f : nat -> nat) p A : shard V := MkShard (order A) (alter (set_pins f) p (live A)).
Definition use_entry p A : shard V := MkShard (without (Some p) (order A) ++ [p]) (live A).

Definition s_lookup (k : bytes) A : option positive * shard V :=
  match find_key k A with Some p => (Some p, use_entry p (repin S p A)) | None => (None, A) end.

Definition s_release p A : dropped := settle p (repin pred p A).

Definition s_erase (k : bytes) A : dropped := match find_key k A with Some p => drop_entry p A | None => (A, []) end.

(** Drops from the front of [l] while the shard is over its capacity. *)
Fixpoint s_evict (capacity : Z) (l : list positive) A : dropped :=
  match l with
  | [] => (A, [])
  | p :: l' =>
      if capacity <? usage A then
        let '(A, d) := drop_entry p A in let '(A, d') := s_evict capacity l' A in (A, d ++ d')
      else (A, [])
  end.

Definition add_entry p (k : bytes) (v : V) (charge_ : Z) A : shard V := MkShard (order A ++ [p]) (<[p := MkItem k v charge_ 1]> (live A)).

(** The new entry [p] takes the place of the one with its key. *)
Definition s_insert (capacity : Z) p (k : bytes) (v : V) (charge_ : Z) A : dropped :=
  let A1 := add_entry p k v charge_ A in
  let '(A2, d) := match find_key k A with Some o => drop_entry o A1 | None => (A1, []) end in
  let '(A3, d') := s_evict capacity (order A2) A2 in (A3, d ++ d').

Definition unpinned A p : bool := match live A !! p with Some e => (i_pins e =? 0)%nat | None => false end.

Fixpoint s_prune (l : list positive) A : dropped :=
  match l with
  | [] => (A, [])
  | p :: l' => let '(A, d) := if unpinned A p then drop_entry p A else (A, []) in let '(A, d') := s_prune l' A in (A, d ++ d')
  end.
End Abstract.

Lemma usage_delete {V} (m : gmap positive (item V)) o p e : m !! p = Some e -> usage (MkShard o m) = i_charge e + usage (MkShard o (delete p m)).
Proof.
  intros Hp. unfold usage. cbn [live]. rewrite (map_fold_delete_L (fun _ e n => i_charge e + n) 0 p e m); [done| |done]. intros. lia.
Qed.

Lemma usage_repin {V} f p (A : shard V) : usage (repin f p A) = usage A.
Proof.
  destruct A as [o m]. unfold repin. cbn [order live]. destruct (m !! p) as [e|] eqn:Hp.
  - rewrite (usage_delete (alter _ _ _) _ p (set_pins f e)) by (by rewrite lookup_alter_eq, Hp). rewrite (usage_delete m _ p e) by done.
    by rewrite delete_alter_eq.
  - by rewrite alter_id by (intros ? E; rewrite Hp in E; done).
Qed.

Lemma usage_nonneg {V} (A : shard V) : (forall p e, live A !! p = Some e -> 0 <= i_charge e) -> 0 <= usage A.
Proof.
  unfold usage. apply (map_fold_weak_ind (fun n m => (forall p e, m !! p = Some e -> 0 <= i_charge e) -> 0 <= n)); [done|].
  intros p e m n Hp IH Hm. pose proof (Hm p e (lookup_insert_eq _ _ _)). assert (0 <= n); [|lia]. apply IH. intros q f Hq. apply (Hm q).
  rewrite lookup_insert_ne; [done|]. intros ->. congruence.
Qed.

(** ** Representation *)

Section Rep.
Context {V : Type} (X : gset positive).
Implicit Types (H : handles V) (c : LRU.LRUCache) (A : shard V) (p q : positive) (T : list positive) (x : option positive).

(** References: those of clients, the cache's, and one in hand at [x]. *)
Definition ref_count A x p (e : item V) : Z :=
  Z.of_nat (i_pins e) + Z.b2z (bool_decide (p ∈ order A)) + Z.b2z (bool_decide (x = Some p)).

Definition handle_ok H A x p (e : item V) : Prop := exists h, H !! p = Some h /\ value h = i_value e /\ charge h = i_charge e /\
  key_data h = i_key e /\ hash h = HashSlice (i_key e) /\ refs h = ref_count A x p e /\ next h <> At p.

(** [T] are the entries of the hash table; [X] are the addresses of the shard. *)
Record rep H c A T x : Prop := {
  r_ring : ring H c (order A);
  r_nodup : NoDup (order A);
  r_table : table_rep H (LRU.table_ c) T;
  r_order p : p ∈ order A -> is_Some (live A !! p);
  r_listed p : p ∈ T -> is_Some (live A !! p);
  r_handle p e : live A !! p = Some e -> handle_ok H A x p e;
  r_used p e : live A !! p = Some e -> 0 < ref_count A x p e;
  r_keys p q e f : p ∈ T -> q ∈ T -> live A !! p = Some e -> live A !! q = Some f -> i_key e = i_key f -> p = q;
  r_usage : LRU.usage_ c = usage A;
  r_charge p e : live A !! p = Some e -> 0 <= i_charge e;
  r_max : usage A < 2 ^ 64;
  r_own q : q ∈ X -> live A !! q = None -> H !! q = None;
  r_dom q : is_Some (live A !! q) -> q ∈ X;
}.

Definition outside H H' : Prop := forall q, q ∉ X -> H' !! q = H !! q.

Lemma outside_trans H1 H2 H3 : outside H1 H2 -> outside H2 H3 -> outside H1 H3.
Proof. intros Ha Hb q Hq. by rewrite Hb, Ha. Qed.

Lemma frame_outside {B} (f : LRUHandle V -> B) l H H' : frame f l H H' -> (forall p, p ∈ l -> p ∈ X) -> outside H H'.
Proof. intros [_ Hf] Hl q Hq. apply Hf. intros Hin. by apply Hq, Hl. Qed.

(** The list only depends on its links, the table on the chains and the hashes. *)
Lemma ring_agree H H' c c' l : ring H c l -> (forall q, q ∈ l -> (fun h => (next h, prev h)) <$> H' !! q = (fun h => (next h, prev h)) <$> H !! q) ->
  LRU.lru_next c' = LRU.lru_next c -> LRU.lru_prev c' = LRU.lru_prev c -> ring H' c' l.
Proof.
  intros Hr Hf En Ep. apply (path_ext _ _ _ _ _ Hr).
  all: intros [|q] Hy; cbn; [by rewrite ?En, ?Ep|].
  all: assert (q ∈ l) as Hq.
  1: { unfold circle in Hy. rewrite app_comm_cons, removelast_last in Hy. set_solver. }
  2: { unfold circle in Hy. cbn in Hy. set_solver. }
  all: specialize (Hf q Hq); destruct (H' !! q), (H !! q); cbn in *; congruence.
Qed.

Lemma table_agree H H' t l : table_rep H t l -> (forall q, q ∈ l -> (fun h => (next_hash h, hash h)) <$> H' !! q = (fun h => (next_hash h, hash h)) <$> H !! q) ->
  table_rep H' t l.
Proof.
  intros (bs & [Hs Hl Hls Hc Hn Hh] & Ep & Ee) Hf. exists bs. split_and!; [|done|done].
  assert (forall i b p, bs !! i = Some b -> p ∈ b -> p ∈ l) as Hin by (intros i b p Hi Hp; rewrite <- Ep; by eapply elem_of_bucket).
  split; [done|done|done| |done|].
  - intros i s b Hi Hb. apply (chain_frame H); [|by eapply Hc]. intros p Hp. specialize (Hf p (Hin i b p Hb Hp)). destruct (H' !! p), (H !! p); cbn in *; congruence.
  - intros i b p Hb Hp. destruct (Hh i b p Hb Hp) as (h & Hph & Ei). specialize (Hf p (Hin i b p Hb Hp)). rewrite Hph in Hf.
    destruct (H' !! p) as [h'|]; [|done]. injection Hf as _ E. exists h'. by rewrite E, Ei.
Qed.

Lemma agree_unlinked l H H' q : frame unlinked l H H' -> (fun h => (next_hash h, hash h)) <$> H' !! q = (fun h => (next_hash h, hash h)) <$> H !! q.
Proof. intros [Hf _]. specialize (Hf q). destruct (H' !! q), (H !! q); cbn in *; try done. injection Hf. congruence. Qed.

Lemma agree_unchained l H H' q : frame unchained l H H' -> (fun h => (next h, prev h)) <$> H' !! q = (fun h => (next h, prev h)) <$> H !! q.
Proof. intros [Hf _]. specialize (Hf q). destruct (H' !! q), (H !! q); cbn in *; try done. injection Hf. congruence. Qed.

Lemma table_perm H t l l' : l ≡ₚ l' -> table_rep H t l -> table_rep H t l'.
Proof. intros E (bs & Hb & Ep & Ee). exists bs. split_and!; [done|by rewrite Ep|by rewrite Ee, E]. Qed.

Lemma rep_good H c A T x p : rep H c A T x -> is_Some (live A !! p) -> good_handle H p.
Proof. intros Hr [e He]. destruct (r_handle _ _ _ _ _ Hr p e He) as (h & Hp & _ & _ & Hk & Hh & _ & Hn). exists h. by rewrite Hk. Qed.

(** *** The list *)

(** A change of the order of use, made by writes to the links. *)
Lemma rep_relink H H' c c' A A' T x x' : rep H c A T x -> live A' = live A -> frame unlinked (order A') H H' -> ring H' c' (order A') ->
  NoDup (order A') -> (forall p, p ∈ order A' -> is_Some (live A !! p)) -> same_shard c c' ->
  (forall p e, live A !! p = Some e -> ref_count A' x' p e = ref_count A x p e) -> rep H' c' A' T x' /\ outside H H'.
Proof.
  intros Hr El Hf Hring Hn Ho (_ & Eu & Et) Hc. split.
  - assert (usage A' = usage A) as Eus by (unfold usage; by rewrite El). destruct Hr. split; rewrite ?El, ?Eus, ?Eu, ?Et; try done.
    + apply (table_agree H); [done|]. intros q _. by eapply agree_unlinked.
    + intros p e Hp. destruct (r_handle0 p e Hp) as (h & Hph & Hv & Hch & Hk & Hh & Hrf & Hnx).
      destruct (frame_lookup _ _ _ _ _ _ Hf Hph) as (h' & Hp' & E). exists h'. rewrite (Hc p e Hp). injection E as Ev En Ec Ek Er Eh.
      split_and!; [done|by rewrite Ev|by rewrite Ec|by rewrite Ek|by rewrite Eh|by rewrite Er|].
      destruct (decide (p ∈ order A')) as [Hin|Hin].
      * destruct (ring_member _ _ _ _ Hring Hn Hin) as (h'' & Hp'' & ?). rewrite Hp' in Hp''. by injection Hp'' as <-.
      * rewrite (proj2 Hf p Hin), Hph in Hp'. by injection Hp' as <-.
    + intros p e Hp. rewrite (Hc p e Hp). by apply r_used0.
    + intros q Hq Hl. specialize (r_own0 q Hq Hl). pose proof (proj1 Hf q) as E. rewrite r_own0 in E. by destruct (H' !! q).
  - apply (frame_outside _ _ _ _ Hf). intros p Hp. apply (r_dom _ _ _ _ _ Hr). by apply Ho.
Qed.

Lemma in_without p q l : q ∈ without (Some p) l <-> q <> p /\ q ∈ l.
Proof. cbn. by rewrite list_elem_of_filter. Qed.

Lemma rep_remove H c A T p : rep H c A T None -> p ∈ order A -> exists H' c', LRU.LRU_Remove p H c = Ret (H', c') /\
  rep H' c' (unlist p A) T (Some p) /\ outside H H' /\ LRU.capacity_ c' = LRU.capacity_ c /\ H' !! p = H !! p.
Proof.
  intros Hr Hp. destruct (list_elem_of_split _ _ Hp) as (l1 & l2 & E). pose proof (r_nodup _ _ _ _ _ Hr) as Hn. pose proof (r_ring _ _ _ _ _ Hr) as Hring.
  rewrite E in Hn, Hring. destruct (ring_remove H c l1 p l2 Hn Hring) as (H' & c' & -> & Hs & Hf & Hring'). exists H', c'. split; [done|].
  assert (order (unlist p A) = l1 ++ l2) as Eo by (cbn [unlist order]; rewrite E; by apply without_split).
  assert (NoDup (l1 ++ l2) /\ p ∉ l1 ++ l2) as [Hn' Hp'] by (rewrite <- Permutation_middle in Hn; apply NoDup_cons in Hn; tauto).
  destruct (rep_relink H H' c c' A (unlist p A) T None (Some p) Hr) as [? ?]; [done|by rewrite Eo|by rewrite Eo|by rewrite Eo| |done| |].
  - intros q. rewrite Eo. intros Hq. apply (r_order _ _ _ _ _ Hr). rewrite E. set_solver.
  - intros q e _. unfold ref_count. cbn [unlist order]. rewrite (bool_decide_eq_false_2 (None = Some q)) by done. destruct (decide (q = p)) as [->|Hne].
    + rewrite (bool_decide_eq_false_2 (p ∈ without _ _)) by (rewrite in_without; tauto). rewrite (bool_decide_eq_true_2 (p ∈ order A)) by done.
      rewrite (bool_decide_eq_true_2 (Some p = Some p)) by done. cbn. lia.
    + rewrite (bool_decide_eq_false_2 (Some p = Some q)) by congruence. do 3 f_equal. apply bool_decide_ext. rewrite in_without. tauto.
  - split_and!; [done|done|by apply Hs|]. by apply (proj2 Hf).
Qed.

Lemma rep_append H c A T p : rep H c A T (Some p) -> p ∉ order A -> is_Some (live A !! p) -> exists H' c', LRU.LRU_Append p H c = Ret (H', c') /\
  rep H' c' (MkShard (order A ++ [p]) (live A)) T None /\ outside H H' /\ LRU.capacity_ c' = LRU.capacity_ c.
Proof.
  intros Hr Hp [e He]. destruct (r_handle _ _ _ _ _ Hr p e He) as (h & Hph & _). pose proof (r_nodup _ _ _ _ _ Hr) as Hn.
  destruct (ring_append H c (order A) p h Hn Hp Hph (r_ring _ _ _ _ _ Hr)) as (H' & c' & -> & Hs & Hf & Hring). exists H', c'. split; [done|].
  destruct (rep_relink H H' c c' A (MkShard (order A ++ [p]) (live A)) T (Some p) None Hr) as [? ?]; [done|done|done| | |done| |split_and!; [done|done|apply Hs]].
  - cbn. apply NoDup_app. split_and!; [done|set_solver|apply NoDup_singleton].
  - cbn. intros q [Hq| ->%list_elem_of_singleton]%elem_of_app; [by apply (r_order _ _ _ _ _ Hr)|by exists e].
  - intros q f _. unfold ref_count. cbn [order]. rewrite (bool_decide_eq_false_2 (None = Some q)) by done. destruct (decide (q = p)) as [->|Hne].
    + rewrite (bool_decide_eq_true_2 (p ∈ _ ++ _)) by set_solver. rewrite (bool_decide_eq_false_2 (p ∈ order A)) by done.
      rewrite (bool_decide_eq_true_2 (Some p = Some p)) by done. cbn. lia.
    + rewrite (bool_decide_eq_false_2 (Some p = Some q)) by congruence. do 3 f_equal. apply bool_decide_ext. set_solver.
Qed.

(** *** References *)

(** The count of [p] is written, and with it the references in hand and of clients. *)
Lemma rep_recount H c A T x x' f p e h n : rep H c A T x -> live A !! p = Some e -> H !! p = Some h ->
  n = ref_count A x' p (set_pins f e) -> 0 < n -> (forall q, q <> p -> x = Some q <-> x' = Some q) ->
  rep (<[p := with_refs n h]> H) c (repin f p A) T x' /\ outside H (<[p := with_refs n h]> H).
Proof.
  intros Hr Hp Hh Hn Hpos Hx. assert (forall (B : Type) (g : LRUHandle V -> B), g (with_refs n h) = g h -> forall q, g <$> (<[p := with_refs n h]> H) !! q = g <$> H !! q) as Hag.
  { intros B g Hg q. destruct (decide (p = q)) as [<-|Hne]; [rewrite lookup_insert_eq, Hh; cbn; by rewrite Hg|by rewrite lookup_insert_ne]. }
  assert (forall A' q g, ref_count (repin f p A') x' q g = ref_count A' x' q g) as Erc by done.
  assert (forall q e', live (repin f p A) !! q = Some e' -> exists e0, live A !! q = Some e0 /\ i_key e' = i_key e0 /\ i_value e' = i_value e0 /\ i_charge e' = i_charge e0 /\
    (q = p /\ e' = set_pins f e \/ q <> p /\ e' = e0)) as Hl.
  { intros q e' Hq. cbn in Hq. destruct (decide (q = p)) as [->|Hne].
    - rewrite lookup_alter_eq, Hp in Hq. injection Hq as <-. exists e. split_and!; auto.
    - rewrite lookup_alter_ne in Hq by done. exists e'. split_and!; auto. }
  assert (forall q, is_Some (live (repin f p A) !! q) <-> is_Some (live A !! q)) as His by (intros q; cbn; apply lookup_alter_is_Some).
  split.
  2: { intros q Hq. rewrite lookup_insert_ne; [done|]. intros <-. apply Hq, (r_dom _ _ _ _ _ Hr). by exists e. }
  destruct Hr. split; try done.
  - apply (ring_agree H _ c c); [done| |done|done]. intros q _. by apply Hag.
  - apply (table_agree H); [done|]. intros q _. by apply Hag.
  - intros q Hq. by apply His, r_order0.
  - intros q Hq. by apply His, r_listed0.
  - intros q e' Hq. destruct (Hl q e' Hq) as (e0 & H0 & Ek & Ev & Ec & Hcase). destruct (r_handle0 q e0 H0) as (h0 & Hh0 & Hv & Hch & Hk & Hha & Hrf & Hnx).
    unfold handle_ok. rewrite Ek, Ev, Ec, Erc. destruct Hcase as [[-> ->]|[Hne ->]].
    + rewrite Hh in Hh0. injection Hh0 as <-. rewrite lookup_insert_eq. exists (with_refs n h). by split_and!.
    + rewrite lookup_insert_ne by done. exists h0. split_and!; try done. rewrite Hrf. unfold ref_count. do 2 f_equal. apply bool_decide_ext. by apply Hx.
  - intros q e' Hq. destruct (Hl q e' Hq) as (e0 & H0 & _ & _ & _ & [[-> ->]|[Hne ->]]); rewrite Erc; [lia|].
    pose proof (r_used0 q e0 H0) as Hu. unfold ref_count in *. by rewrite <- (bool_decide_ext _ _ (Hx q Hne)).
  - intros q1 q2 e1 e2 H1 H2 Hl1 Hl2 E. destruct (Hl _ _ Hl1) as (f1 & Hf1 & Ek1 & _). destruct (Hl _ _ Hl2) as (f2 & Hf2 & Ek2 & _).
    apply (r_keys0 q1 q2 f1 f2); congruence.
  - by rewrite usage_repin.
  - intros q e' Hq. destruct (Hl q e' Hq) as (e0 & H0 & _ & _ & -> & _). by apply (r_charge0 q).
  - by rewrite usage_repin.
  - intros q Hq Hn'. rewrite lookup_insert_ne; [|intros <-; cbn in Hn'; by rewrite lookup_alter_eq, Hp in Hn'].
    apply r_own0; [done|]. apply eq_None_not_Some. rewrite <- His. by rewrite Hn'; intros [? ?].
  - intros q Hq. by apply r_dom0, His.
Qed.

Lemma repin_id p A : repin (fun n => n) p A = A.
Proof. destruct A as [o m]. unfold repin. cbn. f_equal. apply map_eq. intros q. destruct (decide (p = q)) as [<-|]; [|by rewrite lookup_alter_ne].
  rewrite lookup_alter_eq. destruct (m !! p) as [[]|]; done. Qed.

(** The reference in hand is dropped. *)
Lemma rep_unref m c A T p e : rep (LRU.heap m) c A T (Some p) -> live A !! p = Some e -> (i_pins e = 0%nat -> p ∉ order A -> p ∉ T) ->
  Z.of_nat (i_pins e) < 2 ^ 31 -> exists m' c', LRU.Unref p m c = Ret (m', c') /\ rep (LRU.heap m') c' (settle p A).1 T None /\
    LRU.deleted m' = LRU.deleted m ++ (settle p A).2 /\ outside (LRU.heap m) (LRU.heap m') /\ LRU.capacity_ c' = LRU.capacity_ c.
Proof.
  intros Hr Hp HT Hmax. destruct (r_handle _ _ _ _ _ Hr p e Hp) as (h & Hh & Hv & Hch & Hk & Hha & Hrf & Hnx).
  unfold LRU.Unref. rewrite (load_lookup p _ h) by done. run. pose proof (r_used _ _ _ _ _ Hr p e Hp) as Hpos. rewrite Hrf.
  assert (ref_count A (Some p) p e = ref_count A None p e + 1) as Erc.
  { unfold ref_count. rewrite (bool_decide_eq_true_2 (Some p = Some p)), (bool_decide_eq_false_2 (None = Some p)) by done. cbn. lia. }
  assert (ref_count A None p e = Z.of_nat (i_pins e) + Z.b2z (bool_decide (p ∈ order A))) as Erc0.
  { unfold ref_count. rewrite (bool_decide_eq_false_2 (None = Some p)) by done. cbn. lia. }
  assert (0 <= Z.b2z (bool_decide (p ∈ order A)) <= 1) as Hb by (destruct (bool_decide _); cbn; lia).
  rewrite (proj2 (Z.ltb_lt _ _)) by done. run. rewrite (store_lookup p _ _ h) by done. run. rewrite Erc, u32_small by lia.
  replace (ref_count A None p e + 1 - 1) with (ref_count A None p e) by lia. set (n := ref_count A None p e) in *.
  rewrite (load_lookup p _ (with_refs n h)) by apply lookup_insert_eq. run. cbn [refs with_refs].
  destruct (Z.leb_spec n 0) as [Hz|Hz].
  - assert (i_pins e = 0%nat /\ p ∉ order A) as [Hp0 Hpo]. { destruct (bool_decide (p ∈ order A)) eqn:Eb; cbn in Erc0; [lia|]. apply bool_decide_eq_false in Eb. split; [lia|done]. }
    rewrite (key_lookup p _ (with_refs n h)); [|apply lookup_insert_eq|done]. run. eexists _, _. split; [done|]. unfold settle. rewrite Hp, decide_True by done. cbn [fst snd LRU.heap LRU.deleted].
    rewrite delete_insert_eq. split_and!; [|cbn; by rewrite Hk, Hv| |done].
    + assert (forall q, q <> p -> delete p (LRU.heap m) !! q = LRU.heap m !! q) as Hd by (intros q Hq; by rewrite lookup_delete_ne).
      specialize (HT Hp0 Hpo). assert (usage A = i_charge e + usage (MkShard (order A) (delete p (live A)))) as Eu by (destruct A; by apply usage_delete).
      destruct Hr. assert (0 <= usage (MkShard (order A) (delete p (live A)))) as Hnn.
      { apply usage_nonneg. cbn [live]. intros q f [_ Hq]%lookup_delete_Some. by eapply r_charge0. }
      pose proof (r_charge0 p e Hp). split; cbn [order live]; try done.
      * apply (ring_agree (LRU.heap m) _ c); [done| |done|done]. intros q Hq. rewrite Hd; [done|]. by intros ->.
      * apply (table_agree (LRU.heap m)); [done|]. intros q Hq. rewrite Hd; [done|]. by intros ->.
      * intros q Hq. rewrite lookup_delete_ne by (by intros ->). by apply r_order0.
      * intros q Hq. rewrite lookup_delete_ne by (by intros ->). by apply r_listed0.
      * intros q f [Hq Hl]%lookup_delete_Some. destruct (r_handle0 q f Hl) as (h0 & Hh0 & ? & ? & ? & ? & Hrf0 & ?). exists h0. rewrite Hd by done. split_and!; try done.
        rewrite Hrf0. unfold ref_count. cbn [order]. rewrite (bool_decide_eq_false_2 (Some p = Some q)), (bool_decide_eq_false_2 (None = Some q)) by congruence. done.
      * intros q f [Hq Hl]%lookup_delete_Some. pose proof (r_used0 q f Hl) as Hu. unfold ref_count in *. cbn [order].
        rewrite (bool_decide_eq_false_2 (Some p = Some q)) in Hu by congruence. by rewrite (bool_decide_eq_false_2 (None = Some q)) by done.
      * intros q1 q2 e1 e2 H1 H2 [_ Hl1]%lookup_delete_Some [_ Hl2]%lookup_delete_Some. by eapply r_keys0.
      * cbn. rewrite Hch, r_usage0, u64_small; lia.
      * intros q f [_ Hq]%lookup_delete_Some. by eapply r_charge0.
      * lia.
      * intros q Hq. destruct (decide (q = p)) as [->|Hne]; [intros _; apply lookup_delete_eq|]. rewrite Hd, lookup_delete_ne by done. by apply r_own0.
      * intros q [f [_ Hq]%lookup_delete_Some]. by apply r_dom0; exists f.
    + intros q Hq. rewrite lookup_delete_ne; [done|]. intros <-. apply Hq, (r_dom _ _ _ _ _ Hr). by exists e.
  - eexists _, _. split; [done|]. unfold settle. rewrite Hp, decide_False.
    2: { intros [E0 E1]. rewrite bool_decide_eq_false_2 in Erc0 by done. cbn in Erc0. lia. }
    cbn [fst snd LRU.heap LRU.deleted]. rewrite app_nil_r.
    destruct (rep_recount (LRU.heap m) c A T (Some p) None (fun n => n) p e h n) as [Hr' Ho]; try done.
    { intros q Hq. split; [congruence|done]. }
    rewrite repin_id in Hr'. done.
Qed.

(** *** The table *)

(** The entry of [T] with a key. *)
Definition listed A T (k : bytes) (r : option positive) : Prop :=
  match r with
  | Some p => p ∈ T /\ i_key <$> live A !! p = Some k
  | None => forall p, p ∈ T -> i_key <$> live A !! p <> Some k
  end.

Lemma rep_keyed H c A T x k p : rep H c A T x -> is_Some (live A !! p) -> keyed H k p <-> i_key <$> live A !! p = Some k.
Proof.
  intros Hr [e He]. destruct (r_handle _ _ _ _ _ Hr p e He) as (h & Hp & _ & _ & Hk & _). rewrite He. unfold keyed. rewrite Hp. cbn. split.
  - intros (h' & [= <-] & E). congruence.
  - intros [= E]. exists h. split; [done|congruence].
Qed.

Lemma rep_listed H c A T x k r : rep H c A T x -> entry_for H T k r -> listed A T k r.
Proof.
  intros Hr. destruct r as [p|]; cbn.
  - intros [Hp Hk]. split; [done|]. apply (rep_keyed H c A T x); [done|by apply (r_listed _ _ _ _ _ Hr)|done].
  - intros Hn p Hp Hk. apply (Hn p Hp). apply (rep_keyed H c A T x); [done|by apply (r_listed _ _ _ _ _ Hr)|done].
Qed.

Lemma listed_find H c A T x k r : rep H c A T x -> T ≡ₚ order A -> listed A T k r -> find_key k A = r.
Proof.
  intros Hr ET Hl. unfold find_key. destruct r as [p|]; cbn in Hl.
  - destruct Hl as [Hp Hk]. destruct (filter _ (order A)) as [|q l] eqn:Ef.
    + exfalso. assert (p ∈ filter (fun p => i_key <$> live A !! p = Some k) (order A)) as Hin by (apply list_elem_of_filter; rewrite <- ET; done).
      rewrite Ef in Hin. by apply elem_of_nil in Hin.
    + cbn. assert (q ∈ filter (fun p => i_key <$> live A !! p = Some k) (order A)) as Hin by (rewrite Ef; by left).
      apply list_elem_of_filter in Hin as [Hqk Hq]. rewrite <- ET in Hq. f_equal. destruct (live A !! q) as [e|] eqn:E1; [|done]. destruct (live A !! p) as [f|] eqn:E2; [|done].
      apply (r_keys _ _ _ _ _ Hr q p e f); [done|done|done|done|]. cbn in *. congruence.
  - rewrite filter_none; [done|]. intros p Hp. apply Hl. by rewrite ET.
Qed.

Lemma rep_rechain H H' c A T T' x t' l : rep H c A T x -> frame unchained l H H' -> (forall p, p ∈ l -> is_Some (live A !! p)) ->
  table_rep H' t' T' -> (forall p, p ∈ T' -> is_Some (live A !! p)) ->
  (forall p q e f, p ∈ T' -> q ∈ T' -> live A !! p = Some e -> live A !! q = Some f -> i_key e = i_key f -> p = q) ->
  rep H' (LRU.set_table c t') A T' x /\ outside H H'.
Proof.
  intros Hr Hf Hl Ht HT Hk. split; [|apply (frame_outside _ _ _ _ Hf); intros p Hp; by apply (r_dom _ _ _ _ _ Hr), Hl].
  destruct Hr. split; try done.
  - apply (ring_agree H _ c); [done| |done|done]. intros q _. by eapply agree_unchained.
  - intros p e Hp. destruct (r_handle0 p e Hp) as (h & Hph & Hv & Hch & Hky & Hh & Hrf & Hnx).
    destruct (frame_lookup _ _ _ _ _ _ Hf Hph) as (h' & Hp' & E). exists h'. injection E as Ev En Epv Ec Ek Er Eh.
    by rewrite Ev, En, Ec, Ek, Er, Eh.
  - intros q Hq Hn. specialize (r_own0 q Hq Hn). pose proof (proj1 Hf q) as E. rewrite r_own0 in E. by destruct (H' !! q).
Qed.

Lemma rep_perm H c A T T' x : T ≡ₚ T' -> rep H c A T x -> rep H c A T' x.
Proof.
  intros E []. split; try done; [by eapply table_perm|by intros p; rewrite <- E; apply r_listed0|intros p q e f; rewrite <- E; apply r_keys0].
Qed.

Lemma rep_table_remove H c A T x k : rep H c A T x -> Z.of_nat (length T) < 2 ^ 32 -> exists r t' H',
  HT.Remove k (HashSlice k) (LRU.table_ c) H = Ret (r, t', H') /\ listed A T k r /\ rep H' (LRU.set_table c t') A (without r T) x /\ outside H H'.
Proof.
  intros Hr Hm. destruct (remove_spec (LRU.table_ c) H T k) as (r & t' & H' & -> & He & Ht & Hf); [apply (r_table _ _ _ _ _ Hr)| |done|].
  { intros p Hp. eapply rep_good; [done|]. by apply (r_listed _ _ _ _ _ Hr). }
  exists r, t', H'. split; [done|]. split; [by eapply rep_listed|].
  assert (forall p, p ∈ without r T -> p ∈ T) as Hsub by (intros p; destruct r; [rewrite in_without; tauto|done]).
  apply (rep_rechain H H' c A T _ x t' T); [done|done|apply (r_listed _ _ _ _ _ Hr)|done|intros p Hp; by apply (r_listed _ _ _ _ _ Hr), Hsub|].
  intros p q e f Hp Hq. apply (r_keys _ _ _ _ _ Hr); by apply Hsub.
Qed.

Lemma rep_table_insert H c A T x p e : rep H c A T x -> Z.of_nat (length T) < 2 ^ 31 -> live A !! p = Some e -> p ∉ T -> exists r t' H',
  HT.Insert p (LRU.table_ c) H = Ret (r, t', H') /\ listed A T (i_key e) r /\ rep H' (LRU.set_table c t') A (p :: without r T) x /\ outside H H'.
Proof.
  intros Hr Hm Hp HpT. destruct (r_handle _ _ _ _ _ Hr p e Hp) as (h & Hph & _ & _ & Hk & _).
  destruct (table_insert_spec (LRU.table_ c) H T p h) as (r & t' & H' & -> & He & Ht & Hf);
    [apply (r_table _ _ _ _ _ Hr)| |done|eapply rep_good; [done|by exists e]|done|done|].
  { intros q Hq. eapply rep_good; [done|]. by apply (r_listed _ _ _ _ _ Hr). }
  rewrite Hk in He. exists r, t', H'. assert (listed A T (i_key e) r) as Hl by (by eapply rep_listed). split; [done|]. split; [done|].
  assert (forall q, q ∈ without r T -> q ∈ T /\ forall f, live A !! q = Some f -> i_key f <> i_key e) as Hsub.
  { intros q. destruct r as [o|]; cbn in Hl.
    - rewrite in_without. intros [Hne Hq]. split; [done|]. intros f Hqf E. destruct Hl as [Ho Hok]. apply Hne.
      destruct (live A !! o) as [g|] eqn:Eo; [|done]. injection Hok as Hok. apply (r_keys _ _ _ _ _ Hr q o f g); try done. congruence.
    - intros Hq. split; [done|]. intros f Hqf E. apply (Hl q Hq). rewrite Hqf. cbn. congruence. }
  apply (rep_rechain H H' c A T _ x t' (p :: T)); [done|done| |done| |].
  - intros q [->|Hq]%elem_of_cons; [by exists e|by apply (r_listed _ _ _ _ _ Hr)].
  - intros q [->|Hq]%elem_of_cons; [by exists e|]. by apply (r_listed _ _ _ _ _ Hr), Hsub.
  - intros q1 q2 e1 e2 [->|H1]%elem_of_cons [->|H2]%elem_of_cons Hl1 Hl2 E; [done| | |].
    + destruct (Hsub q2 H2) as [_ Hne]. destruct (Hne e2 Hl2). congruence.
    + destruct (Hsub q1 H1) as [_ Hne]. destruct (Hne e1 Hl1). congruence.
    + apply (r_keys _ _ _ _ _ Hr q1 q2 e1 e2); try done; by apply Hsub.
Qed.

Lemma rep_size H c A T x : rep H c A T x -> (length (order A) <= size H)%nat.
Proof.
  intros Hr. apply nodup_size; [apply (r_nodup _ _ _ _ _ Hr)|]. intros q Hq. destruct (r_order _ _ _ _ _ Hr q Hq) as [e He].
  destruct (r_handle _ _ _ _ _ Hr q e He) as (h & Hh & _). by exists h.
Qed.

(** ** The methods of a shard *)

Definition shard_rep H c A : Prop := rep H c A (order A) None.

(** Counts that stay away from the limits of the code's integers. *)
Definition bounded A : Prop := Z.of_nat (length (order A)) < 2 ^ 31 /\ forall p e, live A !! p = Some e -> Z.of_nat (i_pins e) < 2 ^ 31.

(** A method leaves a shard that represents [A'] and has deleted [d]. *)
Definition leaves (m : LRU.memory V) c A' (d : list (bytes * V)) (m' : LRU.memory V) c' : Prop :=
  shard_rep (LRU.heap m') c' A' /\ LRU.deleted m' = LRU.deleted m ++ d /\ outside (LRU.heap m) (LRU.heap m') /\ LRU.capacity_ c' = LRU.capacity_ c.

Lemma settle_order p A : order (settle p A).1 = order A.
Proof. unfold settle. destruct (live A !! p) as [e|]; [|done]. by destruct (decide _). Qed.

Lemma settle_live p A q e : live (settle p A).1 !! q = Some e -> live A !! q = Some e.
Proof. unfold settle. destruct (live A !! p) as [f|]; [|done]. destruct (decide _); [|done]. cbn. intros H. by apply lookup_delete_Some in H as [_ ?]. Qed.

Lemma without_length r l : (length (without r l) <= length l)%nat.
Proof. destruct r; cbn; [apply length_filter|done]. Qed.

Lemma bounded_drop p A : bounded A -> bounded (drop_entry p A).1.
Proof.
  intros [Hl Hp]. unfold drop_entry. split; [rewrite settle_order; cbn [unlist order]; pose proof (without_length (Some p) (order A)); lia|].
  intros q e Hq. exact (Hp q e (settle_live p (unlist p A) q e Hq)).
Qed.

Lemma without_notin p l : p ∉ l -> without (Some p) l = l.
Proof. intros Hp. apply filter_all. by intros q Hq ->. Qed.

(** Taking an entry that left the table out of the list. *)
Lemma discard_ok m c A T p : rep (LRU.heap m) c A T None -> bounded A -> p ∈ order A -> p ∉ T -> exists m' c', LRU.discard p m c = Ret (m', c') /\
  rep (LRU.heap m') c' (drop_entry p A).1 T None /\ LRU.deleted m' = LRU.deleted m ++ (drop_entry p A).2 /\
  outside (LRU.heap m) (LRU.heap m') /\ LRU.capacity_ c' = LRU.capacity_ c.
Proof.
  intros Hr [_ Hb] Hp HT. destruct (rep_remove _ c A T p Hr Hp) as (H1 & c1 & E1 & Hr1 & Ho1 & Hc1 & _).
  unfold LRU.discard. rewrite E1. run. destruct (r_order _ _ _ _ _ Hr p Hp) as [e He].
  destruct (rep_unref (LRU.Mem H1 (LRU.deleted m)) c1 (unlist p A) T p e Hr1) as (m' & c' & -> & Hr' & Hd & Ho & Hc); [done|done|by eapply Hb|].
  exists m', c'. split_and!; [done|done|done|by eapply outside_trans|by rewrite Hc].
Qed.

Lemma shard_lookup m c A k : shard_rep (LRU.heap m) c A -> bounded A -> exists m' c', LRU.Lookup k (HashSlice k) m c = Ret ((s_lookup k A).1, m', c') /\
  leaves m c (s_lookup k A).2 [] m' c'.
Proof.
  intros Hr [_ Hb]. destruct (lookup_spec (LRU.table_ c) (LRU.heap m) (order A) k) as (r & E & He); [apply (r_table _ _ _ _ _ Hr)| |].
  { intros p Hp. eapply rep_good; [done|]. by apply (r_listed _ _ _ _ _ Hr). }
  apply (rep_listed _ _ _ _ _ _ _ Hr) in He. pose proof (listed_find _ _ _ _ _ _ _ Hr (Permutation_refl _) He) as Ef.
  unfold LRU.Lookup, s_lookup. rewrite E, Ef. run. destruct r as [p|]; cbn in He.
  2: { exists m, c. split; [done|]. unfold leaves. rewrite app_nil_r. split_and!; try done. }
  destruct He as [Hp _]. destruct (r_order _ _ _ _ _ Hr p Hp) as [e Hpe]. destruct (r_handle _ _ _ _ _ Hr p e Hpe) as (h & Hh & _ & _ & _ & _ & Hrf & _).
  rewrite (load_lookup p _ h) by done. run. rewrite (store_lookup p _ _ h) by done. run.
  assert (u32 (refs h + 1) = ref_count A None p (set_pins S e)) as En.
  { rewrite Hrf. specialize (Hb p e Hpe). unfold ref_count. rewrite (bool_decide_eq_true_2 (p ∈ order A)), (bool_decide_eq_false_2 (None = Some p)) by done.
    cbn [Z.b2z set_pins i_pins]. rewrite u32_small; lia. }
  rewrite En. destruct (rep_recount (LRU.heap m) c A (order A) None None S p e h _ Hr Hpe Hh eq_refl) as [Hr1 Ho1].
  { unfold ref_count. cbn [set_pins i_pins]. destruct (bool_decide _), (bool_decide _); cbn; lia. } { done. }
  destruct (rep_remove _ c _ _ p Hr1 Hp) as (H2 & c2 & -> & Hr2 & Ho2 & Hc2 & _). run.
  destruct (rep_append H2 c2 (unlist p (repin S p A)) (order A) p Hr2) as (H3 & c3 & -> & Hr3 & Ho3 & Hc3).
  { cbn [unlist order repin]. rewrite in_without. tauto. } { cbn. rewrite lookup_alter_eq, Hpe. by eexists. }
  run. eexists _, _. split; [done|]. unfold leaves. rewrite app_nil_r. cbn [LRU.heap LRU.deleted snd]. split_and!; [|done| |by rewrite Hc3].
  - unfold shard_rep. eapply rep_perm; [|exact Hr3]. cbn [use_entry order repin unlist].
    rewrite (without_perm p (order A)) at 1 by (done || apply (r_nodup _ _ _ _ _ Hr)). by rewrite Permutation_app_comm.
  - eapply outside_trans; [exact Ho1|]. by eapply outside_trans.
Qed.

Lemma shard_release m c A p e : shard_rep (LRU.heap m) c A -> bounded A -> live A !! p = Some e -> (0 < i_pins e)%nat -> exists m' c',
  LRU.Release p m c = Ret (m', c') /\ leaves m c (s_release p A).1 (s_release p A).2 m' c'.
Proof.
  intros Hr [_ Hb] Hp Hpos. destruct (r_handle _ _ _ _ _ Hr p e Hp) as (h & Hh & _ & _ & _ & _ & Hrf & _).
  destruct (rep_recount (LRU.heap m) c A (order A) None (Some p) pred p e h (refs h) Hr Hp Hh) as [Hr1 _].
  { rewrite Hrf. unfold ref_count. rewrite (bool_decide_eq_false_2 (None = Some p)), (bool_decide_eq_true_2 (Some p = Some p)) by done. cbn [set_pins i_pins Z.b2z]. lia. }
  { rewrite Hrf. by eapply (r_used _ _ _ _ _ Hr). } { intros q Hq. split; [done|congruence]. }
  rewrite insert_id in Hr1 by (rewrite Hh; by destruct h).
  destruct (rep_unref m c (repin pred p A) (order A) p (set_pins pred e) Hr1) as (m' & c' & E & Hr' & Hd & Ho & Hc); [cbn; by rewrite lookup_alter_eq, Hp|done|cbn; specialize (Hb p e Hp); lia|].
  exists m', c'. split; [done|]. split_and!; [|done|done|done]. unfold shard_rep. unfold s_release. rewrite settle_order. done.
Qed.

Lemma shard_erase m c A k : shard_rep (LRU.heap m) c A -> bounded A -> exists m' c', LRU.Erase k (HashSlice k) m c = Ret (m', c') /\
  leaves m c (s_erase k A).1 (s_erase k A).2 m' c'.
Proof.
  intros Hr Hb. destruct (rep_table_remove _ c A _ None k Hr) as (r & t' & H1 & E & Hl & Hr1 & Ho1); [destruct Hb; lia|].
  pose proof (listed_find _ _ _ _ _ _ _ Hr (Permutation_refl _) Hl) as Ef. unfold LRU.Erase, s_erase. rewrite E, Ef. run. destruct r as [p|]; cbn in Hl.
  - destruct (discard_ok (LRU.Mem H1 (LRU.deleted m)) _ A _ p Hr1 Hb) as (m' & c' & -> & Hr' & Hd & Ho & Hc); [apply Hl|rewrite in_without; tauto|].
    exists m', c'. split; [done|]. split_and!; [|done|by eapply outside_trans|done]. unfold shard_rep, drop_entry. by rewrite settle_order.
  - eexists _, _. split; [done|]. unfold leaves. rewrite app_nil_r. done.
Qed.

(** The first entry of the list. *)
Definition head_link (l : list positive) : link := match l with [] => Lru | p :: _ => At p end.

Lemma ring_first H c l : ring H c l -> LRU.lru_next c = head_link l.
Proof. unfold ring, circle. destruct l; cbn; intros ([=] & _); done. Qed.

Lemma ring_next H c l1 p l2 h : ring H c (l1 ++ p :: l2) -> H !! p = Some h -> next h = head_link l2.
Proof.
  unfold ring, circle. rewrite fmap_app, fmap_cons, <- app_assoc. cbn [app]. rewrite app_comm_cons. intros Hr Hp.
  assert (exists b r, (At <$> l2) ++ [Lru] = b :: r /\ b = head_link l2) as (b & r & E & ->) by (destruct l2; cbn; eauto).
  rewrite E in Hr. apply path_next in Hr as [Hn _]. cbn in Hn. rewrite Hp in Hn. by injection Hn.
Qed.

Lemma drop_head p l A : NoDup (p :: l) -> order A = p :: l -> order (drop_entry p A).1 = l.
Proof. intros Hn E. unfold drop_entry. rewrite settle_order. cbn [unlist order]. rewrite E. apply (without_split p [] l). done. Qed.

Lemma remove_own H c A T x p e h : rep H c A T x -> Z.of_nat (length T) < 2 ^ 32 -> p ∈ T -> live A !! p = Some e -> H !! p = Some h ->
  exists t' H', HT.Remove (key_data h) (hash h) (LRU.table_ c) H = Ret (Some p, t', H') /\ rep H' (LRU.set_table c t') A (without (Some p) T) x /\ outside H H'.
Proof.
  intros Hr Hm HpT Hp Hh. destruct (r_handle _ _ _ _ _ Hr p e Hp) as (h' & Hh' & _ & _ & Hk & Hha & _). rewrite Hh in Hh'. injection Hh' as <-. rewrite Hk, Hha.
  destruct (rep_table_remove H c A T x (i_key e) Hr Hm) as (r & t' & H' & -> & Hl & Hr' & Ho). destruct r as [q|]; cbn in Hl.
  - destruct Hl as [Hq Hqk]. destruct (live A !! q) as [f|] eqn:Eq; [|done]. injection Hqk as Hqk.
    assert (q = p) as -> by (by apply (r_keys _ _ _ _ _ Hr q p f e)). eauto.
  - destruct (Hl p HpT). by rewrite Hp.
Qed.

Lemma shard_evict n : forall m c A, shard_rep (LRU.heap m) c A -> bounded A -> (length (order A) <= n)%nat -> exists m' c', LRU.evict n m c = Ret (m', c') /\
  leaves m c (s_evict (LRU.capacity_ c) (order A) A).1 (s_evict (LRU.capacity_ c) (order A) A).2 m' c'.
Proof.
  induction n as [|n IH]; intros m c A Hr Hb Hn.
  all: pose proof (ring_first _ _ _ (r_ring _ _ _ _ _ Hr)) as Ef; cbn [LRU.evict]; rewrite (r_usage _ _ _ _ _ Hr), Ef.
  all: destruct (order A) as [|p l] eqn:Eo; cbn [head_link s_evict].
  1,3: exists m, c; split; [by destruct (_ <? _)|]; unfold leaves; rewrite app_nil_r; done.
  { cbn in Hn. lia. }
  destruct (LRU.capacity_ c <? usage A); [|exists m, c; split; [done|]; unfold leaves; rewrite app_nil_r; done].
  assert (p ∈ order A) as Hp by (rewrite Eo; by left). destruct (r_order _ _ _ _ _ Hr p Hp) as [e Hpe].
  destruct (rep_remove _ c A _ p Hr Hp) as (H1 & c1 & -> & Hr1 & Ho1 & Hc1 & Eh1). run.
  destruct (r_handle _ _ _ _ _ Hr1 p e Hpe) as (h & Hh & _ & _ & _ & _ & _ & Hnx).
  rewrite (key_lookup p H1 h) by done. run. rewrite (load_lookup p H1 h) by done. run.
  destruct (remove_own H1 c1 _ _ _ p e h Hr1) as (t' & H2 & -> & Hr2 & Ho2); [destruct Hb as [Hb _]; rewrite Eo in Hb; rewrite Eo; lia|done|done|done|]. run.
  destruct (rep_unref (LRU.Mem H2 (LRU.deleted m)) (LRU.set_table c1 t') (unlist p A) (without (Some p) (order A)) p e Hr2) as (m3 & c3 & -> & Hr3 & Hd3 & Ho3 & Hc3);
    [done|rewrite in_without; tauto|destruct Hb as [_ Hb]; by eapply Hb|]. run.
  assert (order (drop_entry p A).1 = l) as El by (apply drop_head; [rewrite <- Eo; apply (r_nodup _ _ _ _ _ Hr)|done]).
  destruct (IH m3 c3 (drop_entry p A).1) as (m' & c' & -> & Hr' & Hd' & Ho' & Hc').
  { unfold shard_rep, drop_entry. rewrite settle_order. done. } { by apply bounded_drop. } { rewrite El. cbn in Hn. lia. }
  rewrite El in *. exists m', c'. split; [done|]. assert (LRU.capacity_ c3 = LRU.capacity_ c) as Ec by (by rewrite Hc3; cbn). rewrite Ec in *.
  destruct (drop_entry p A) as [A1 d1] eqn:Ed. cbn [fst] in *. destruct (s_evict _ l A1) as [A2 d2]. cbn [fst snd] in *. split_and!; [done| | |congruence].
  - rewrite Hd', Hd3. unfold drop_entry in Ed. rewrite Ed. cbn. by rewrite app_assoc.
  - eapply outside_trans; [exact Ho1|]. eapply outside_trans; [exact Ho2|]. by eapply outside_trans.
Qed.

(** [usage_] may be raised before the list is changed. *)
Lemma append_usage e H c u : (H ← LRU.LRU_Append e H (LRU.set_usage c u); Ret H) = ('(H, c) ← LRU.LRU_Append e H c; Ret (H, LRU.set_usage c u)).
Proof.
  assert (forall (l v : link) H c, LRU.set_next l v H (LRU.set_usage c u) = '(H, c) ← LRU.set_next l v H c; Ret (H, LRU.set_usage c u)) as Hn.
  { intros [|q] v H' c'; cbn; [done|]. by destruct (store q _ H'). }
  assert (forall (l v : link) H c, LRU.set_prev l v H (LRU.set_usage c u) = '(H, c) ← LRU.set_prev l v H c; Ret (H, LRU.set_usage c u)) as Hp.
  { intros [|q] v H' c'; cbn; [done|]. by destruct (store q _ H'). }
  unfold LRU.LRU_Append. destruct (store e _ H) as [H1| |]; run; [|done|done]. cbn [LRU.set_usage LRU.lru_prev]. destruct (store e _ H1) as [H2| |]; run; [|done|done].
  destruct (load e H2) as [h| |]; run; [|done|done]. rewrite Hn. destruct (LRU.set_next _ _ H2 c) as [[H3 c3]| |]; run; [|done|done].
  destruct (load e H3) as [h3| |]; run; [|done|done]. rewrite Hp. by destruct (LRU.set_prev _ _ H3 c3) as [[H4 c4]| |].
Qed.

(** The entry is in memory, referred to by its client and by the cache. *)
Lemma rep_alloc H c A p k v ch : shard_rep H c A -> p ∈ X -> live A !! p = None -> 0 <= ch -> usage A + ch < 2 ^ 64 ->
  rep (<[p := MkHandle v None Lru Lru ch k 2 (HashSlice k)]> H) (LRU.set_usage c (u64 (LRU.usage_ c + ch)))
    (MkShard (order A) (<[p := MkItem k v ch 1]> (live A))) (order A) (Some p) /\
  outside H (<[p := MkHandle v None Lru Lru ch k 2 (HashSlice k)]> H).
Proof.
  intros Hr HX Hp Hch Hmax. assert (p ∉ order A) as Hpo. { intros Hin. destruct (r_order _ _ _ _ _ Hr p Hin). congruence. }
  assert (0 <= usage A) as Hnn by (apply usage_nonneg; apply (r_charge _ _ _ _ _ Hr)).
  assert (usage (MkShard (order A) (<[p := MkItem k v ch 1]> (live A))) = usage A + ch) as Eu.
  { rewrite (usage_delete _ _ p (MkItem k v ch 1)) by apply lookup_insert_eq. rewrite delete_insert_id by done. destruct A. cbn. lia. }
  set (h0 := MkHandle v None Lru Lru ch k 2 (HashSlice k)). assert (forall q, q <> p -> <[p := h0]> H !! q = H !! q) as Hq by (intros; by rewrite lookup_insert_ne).
  split; [|intros q HqX; apply Hq; intros ->; done]. destruct Hr. split; cbn [order live]; try done.
  - apply (ring_agree H _ c); [done| |done|done]. intros q Hin. rewrite Hq; [done|]. by intros ->.
  - apply (table_agree H); [done|]. intros q Hin. rewrite Hq; [done|]. by intros ->.
  - intros q Hin. rewrite lookup_insert_ne by (by intros ->). by apply r_order0.
  - intros q Hin. rewrite lookup_insert_ne by (by intros ->). by apply r_listed0.
  - intros q e [[<- <-]|[Hne Hl]]%lookup_insert_Some.
    + exists h0. rewrite lookup_insert_eq. split_and!; try done. unfold ref_count. cbn [order i_pins].
      by rewrite (bool_decide_eq_false_2 (p ∈ order A)), (bool_decide_eq_true_2 (Some p = Some p)) by done.
    + destruct (r_handle0 q e Hl) as (h & Hh & ? & ? & ? & ? & Hrf & ?). exists h. rewrite Hq by done. split_and!; try done. rewrite Hrf.
      unfold ref_count. cbn [order]. by rewrite (bool_decide_eq_false_2 (Some p = Some q)), (bool_decide_eq_false_2 (None = Some q)) by congruence.
  - intros q e [[<- <-]|[Hne Hl]]%lookup_insert_Some; unfold ref_count; cbn [order i_pins]; [destruct (bool_decide _), (bool_decide _); cbn; lia|].
    pose proof (r_used0 q e Hl) as Hu. unfold ref_count in Hu. destruct (bool_decide (Some p = Some q)); rewrite (bool_decide_eq_false_2 (None = Some q)) in Hu by done; cbn in *; lia.
  - intros q1 q2 e1 e2 H1 H2. rewrite !lookup_insert_ne by (by intros ->). by apply r_keys0.
  - rewrite Eu. cbn. rewrite r_usage0. apply u64_small. lia.
  - intros q e [[<- <-]|[Hne Hl]]%lookup_insert_Some; [done|by eapply r_charge0].
  - lia.
  - intros q HqX [Hn Hne]%lookup_insert_None. rewrite Hq by done. by apply r_own0.
  - intros q. destruct (decide (q = p)) as [->|Hne]; [done|]. rewrite lookup_insert_ne by done. apply r_dom0.
Qed.

Lemma shard_insert m c A k v ch : let p := new_handle (LRU.heap m) in shard_rep (LRU.heap m) c A -> bounded A -> p ∈ X -> live A !! p = None ->
  Z.of_nat (length (order A)) + 1 < 2 ^ 31 -> 0 <= ch -> usage A + ch < 2 ^ 64 -> exists m' c',
  LRU.Insert k (HashSlice k) v ch m c = Ret (p, m', c') /\
  leaves m c (s_insert (LRU.capacity_ c) p k v ch A).1 (s_insert (LRU.capacity_ c) p k v ch A).2 m' c'.
Proof.
  intros p Hr Hb HX Hp Hlen Hch Hmax. assert (p ∉ order A) as Hpo. { intros Hin. destruct (r_order _ _ _ _ _ Hr p Hin). congruence. }
  destruct (rep_alloc _ c A p k v ch Hr HX Hp Hch Hmax) as [Hr0 Ho0]. unfold LRU.Insert. fold p.
  set (H0 := <[p := MkHandle v None Lru Lru ch k 2 (HashSlice k)]> (LRU.heap m)) in *. set (A0 := MkShard (order A) (<[p := MkItem k v ch 1]> (live A))) in *.
  destruct (rep_append H0 _ A0 (order A) p Hr0 Hpo) as (H1 & c1 & E1 & Hr1 & Ho1 & Hc1); [cbn; rewrite lookup_insert_eq; by eexists|].
  change (MkShard (order A0 ++ [p]) (live A0)) with (add_entry p k v ch A) in Hr1. set (A1 := add_entry p k v ch A) in *.
  destruct (ring_append H0 c (order A) p (MkHandle v None Lru Lru ch k 2 (HashSlice k))) as (H1' & c1' & E1' & (_ & Eus & _) & _ & _);
    [apply (r_nodup _ _ _ _ _ Hr)|done|apply lookup_insert_eq|by apply (ring_agree H0 _ _ c _ (r_ring _ _ _ _ _ Hr0))|].
  pose proof (append_usage p H0 c (u64 (LRU.usage_ c + ch))) as Eu. rewrite E1, E1' in Eu. cbn in Eu. injection Eu as <- ->. rewrite E1'. run.
  rewrite Eus. destruct (rep_table_insert H1 _ A1 (order A) None p (MkItem k v ch 1) Hr1) as (r & t2 & H2 & E2 & Hl2 & Hr2 & Ho2); [lia|apply lookup_insert_eq|done|].
  cbn in E2. cbn. rewrite E2. run. cbn [i_key] in Hl2.
  assert (find_key k A = r) as Ef.
  { eapply listed_find; [exact Hr|done|]. destruct r as [o|]; cbn in Hl2 |- *; [destruct Hl2 as [Ho Hk]; split; [done|]|intros q Hq; specialize (Hl2 q Hq)];
      by rewrite lookup_insert_ne in * by (by intros ->). }
  assert (bounded A1) as Hb1.
  { destruct Hb as [_ Hb]. split; [cbn; rewrite length_app; cbn; lia|]. intros q e Hq. apply (proj1 (lookup_insert_Some (live A) p q _ e)) in Hq as [[<- <-]|[_ Hq]]; [cbn; lia|by eapply Hb]. }
  unfold s_insert. fold A1. rewrite Ef. set (c2 := LRU.set_table (LRU.set_usage c1' (u64 (LRU.usage_ c + ch))) t2) in *.
  assert (exists m3 c3 A2 d2, match r with Some o => LRU.discard o (LRU.Mem H2 (LRU.deleted m)) c2 | None => Ret (LRU.Mem H2 (LRU.deleted m), c2) end = Ret (m3, c3) /\
    match r with Some o => drop_entry o A1 | None => (A1, []) end = (A2, d2) /\ shard_rep (LRU.heap m3) c3 A2 /\ LRU.deleted m3 = LRU.deleted m ++ d2 /\
    outside H2 (LRU.heap m3) /\ LRU.capacity_ c3 = LRU.capacity_ c /\ bounded A2) as (m3 & c3 & A2 & d2 & E3 & Ed & Hr3 & Hd3 & Ho3 & Hc3 & Hb3).
  { destruct r as [o|]; cbn in Hl2.
    - destruct Hl2 as [Hoo _]. assert (o <> p) as Hne by (by intros ->).
      destruct (discard_ok (LRU.Mem H2 (LRU.deleted m)) c2 A1 _ o Hr2 Hb1) as (m3 & c3 & -> & Hr3 & Hd3 & Ho3 & Hc3).
      { cbn. set_solver. } { rewrite elem_of_cons, in_without. naive_solver. }
      exists m3, c3, (drop_entry o A1).1, (drop_entry o A1).2. split_and!; [done|by destruct (drop_entry o A1)| |done|done|by rewrite Hc3|by apply bounded_drop].
      unfold shard_rep, drop_entry. rewrite settle_order. eapply rep_perm; [|exact Hr3]. cbn [unlist order A1 add_entry].
      cbn [without]. rewrite filter_app. rewrite (filter_all _ [p]) by (intros q ->%list_elem_of_singleton; done). by rewrite Permutation_app_comm.
    - eexists _, _, A1, []. split_and!; [done|done| |by rewrite app_nil_r|done|done|done]. unfold shard_rep. eapply rep_perm; [|exact Hr2].
      cbn [without A1 add_entry order]. by rewrite Permutation_app_comm. }
  rewrite Ed. cbn in E3. rewrite E3. run. destruct (shard_evict (size (LRU.heap m3)) m3 c3 A2 Hr3 Hb3) as (m' & c' & -> & Hr' & Hd' & Ho' & Hc').
  { by eapply rep_size. }
  run. exists m', c'. split; [done|]. rewrite Hc3 in *. destruct (s_evict (LRU.capacity_ c) (order A2) A2) as [A3 d3]. cbn [fst snd] in *. split_and!; [done| | |done].
  - by rewrite Hd', Hd3, app_assoc.
  - eapply outside_trans; [exact Ho0|]. eapply outside_trans; [exact Ho1|]. eapply outside_trans; [exact Ho2|]. by eapply outside_trans.
Qed.

(** The loop of [Prune] has kept [l1] and is at [l2]. *)
Lemma prune_loop l2 : forall l1 n m c A, shard_rep (LRU.heap m) c A -> bounded A -> order A = l1 ++ l2 -> (length l2 <= n)%nat ->
  exists m' c', LRU.prune n (head_link l2) m c = Ret (m', c') /\ leaves m c (s_prune l2 A).1 (s_prune l2 A).2 m' c'.
Proof.
  induction l2 as [|p l2 IH]; intros l1 n m c A Hr Hb Eo Hn.
  { exists m, c. split; [by destruct n|]. unfold leaves. cbn. by rewrite app_nil_r. }
  destruct n as [|n]; [cbn in Hn; lia|]. cbn [head_link LRU.prune s_prune].
  assert (p ∈ order A) as Hp by (rewrite Eo; set_solver). destruct (r_order _ _ _ _ _ Hr p Hp) as [e Hpe].
  destruct (r_handle _ _ _ _ _ Hr p e Hpe) as (h & Hh & _ & _ & _ & _ & Hrf & Hnx). rewrite (load_lookup p _ h) by done. run.
  pose proof (r_ring _ _ _ _ _ Hr) as Hring. rewrite Eo in Hring. rewrite (ring_next _ _ _ _ _ _ Hring Hh).
  assert ((refs h =? 1) = unpinned A p) as ->.
  { unfold unpinned. rewrite Hpe, Hrf. unfold ref_count. rewrite (bool_decide_eq_true_2 (p ∈ order A)), (bool_decide_eq_false_2 (None = Some p)) by done. cbn [Z.b2z].
    destruct (Nat.eqb_spec (i_pins e) 0), (Z.eqb_spec (Z.of_nat (i_pins e) + 1 + 0) 1); done || lia. }
  destruct (unpinned A p).
  - rewrite (key_lookup p _ h) by done. run. destruct (remove_own _ c A (order A) None p e h Hr) as (t' & H1 & -> & Hr1 & Ho1); [destruct Hb; lia|done|done|done|]. run.
    destruct (discard_ok (LRU.Mem H1 (LRU.deleted m)) (LRU.set_table c t') A _ p Hr1 Hb Hp) as (m2 & c2 & -> & Hr2 & Hd2 & Ho2 & Hc2); [rewrite in_without; tauto|]. run.
    pose proof (r_nodup _ _ _ _ _ Hr) as Hnd. rewrite Eo in Hnd.
    assert (order (drop_entry p A).1 = l1 ++ l2) as Eo2 by (unfold drop_entry; rewrite settle_order; cbn [unlist order]; rewrite Eo; by apply without_split).
    destruct (IH l1 n m2 c2 (drop_entry p A).1) as (m' & c' & -> & Hr' & Hd' & Ho' & Hc'); [|by apply bounded_drop|done|cbn in Hn; lia|].
    { unfold shard_rep, drop_entry. by rewrite settle_order. }
    exists m', c'. split; [done|]. destruct (drop_entry p A) as [A1 d1]. cbn [fst snd] in *. destruct (s_prune l2 A1) as [A2 d2]. cbn [fst snd] in *. split_and!; [done| | |].
    + by rewrite Hd', Hd2, app_assoc.
    + eapply outside_trans; [exact Ho1|]. by eapply outside_trans.
    + by rewrite Hc', Hc2.
  - run. destruct (IH (l1 ++ [p]) n m c A Hr Hb) as (m' & c' & -> & Hlv); [by rewrite <- app_assoc|cbn in Hn; lia|]. exists m', c'. split; [done|]. by destruct (s_prune l2 A).
Qed.

Lemma shard_prune m c A : shard_rep (LRU.heap m) c A -> bounded A -> exists m' c', LRU.Prune m c = Ret (m', c') /\
  leaves m c (s_prune (order A) A).1 (s_prune (order A) A).2 m' c'.
Proof.
  intros Hr Hb. unfold LRU.Prune. rewrite (ring_first _ _ _ (r_ring _ _ _ _ _ Hr)). apply (prune_loop _ []); [done|done|done|by eapply rep_size].
Qed.
End Rep.
