(* ===== verification/CacheRefine.v ===== *)
(** * The sharded cache refines an abstract one

    The abstract cache has sixteen abstract shards.  Any sequence of calls by clients
    that only use handles they hold returns, on the pointers of cache.cc, what it
    returns on the abstract cache, and deletes the same values in the same order. *)

From S2P Require Import Prelude Slice FilterPolicy Cache CacheMem CacheSpec.
#[local] Open Scope Z_scope.

(** ** The abstract cache *)

Record cache_spec (V : Type) := MkSpec { per_shard : Z; shards : list (shard V); last_id : Z; log : list (bytes * V) }.
Arguments MkSpec {V}.
Arguments per_shard {V}.
Arguments shards {V}.
Arguments last_id {V}.
Arguments log {V}.

Inductive call (V : Type) :=
| CInsert (key : bytes) (v : V) (charge_ : Z)
| CLookup (key : bytes)
| CRelease (handle : positive)
| CErase (key : bytes)
| CValue (handle : positive)
| CNewId
| CPrune
| CTotalCharge.
Arguments CInsert {V}.
Arguments CLookup {V}.
Arguments CRelease {V}.
Arguments CErase {V}.
Arguments CValue {V}.
Arguments CNewId {V}.
Arguments CPrune {V}.
Arguments CTotalCharge {V}.

Inductive result (V : Type) := RHandle (h : option positive) | RValue (v : V) | RNumber (n : Z) | RNothing.
Arguments RHandle {V}.
Arguments RValue {V}.
Arguments RNumber {V}.
Arguments RNothing {V}.

Section Calls.
Context {V : Type}.
Implicit Types (s : ShardedLRUCache V) (C : cache_spec V) (A : shard V) (p : positive).

Definition run_call (cl : call V) s : outcome (result V * ShardedLRUCache V) :=
  match cl with
  | CInsert k v ch => '(h, s) ← Insert k v ch s; Ret (RHandle (Some h), s)
  | CLookup k => '(h, s) ← Lookup k s; Ret (RHandle h, s)
  | CRelease p => s ← Release p s; Ret (RNothing, s)
  | CErase k => s ← Erase k s; Ret (RNothing, s)
  | CValue p => v ← Value p s; Ret (RValue v, s)
  | CNewId => let '(id, s) := NewId s in Ret (RNumber id, s)
  | CPrune => s ← Prune s; Ret (RNothing, s)
  | CTotalCharge => Ret (RNumber (TotalCharge s), s)
  end.

Fixpoint run_calls (cls : list (call V)) s : outcome (list (result V) * ShardedLRUCache V) :=
  match cls with
  | [] => Ret ([], s)
  | cl :: cls' => '(r, s) ← run_call cl s; '(rs, s) ← run_calls cls' s; Ret (r :: rs, s)
  end.

Definition new_spec (capacity : Z) : cache_spec V := MkSpec ((capacity + 15) / 16) (replicate 16 (MkShard [] ∅)) 0 [].

Definition shard_of (k : bytes) : nat := Shard (HashSlice k).
Definition put_shard (i : nat) (A : shard V * list (bytes * V)) C : cache_spec V := MkSpec (per_shard C) (<[i := A.1]> (shards C)) (last_id C) (log C ++ A.2).
Definition addresses_of C : gset positive := ⋃ ((fun A => dom (live A)) <$> shards C).

(** The shard and the entry of a handle that a client holds. *)
Definition held_at p C : option (nat * shard V * item V) :=
  '(i, A) ← list_find (fun A => is_Some (live A !! p)) (shards C);
  e ← live A !! p;
  if (0 <? i_pins e)%nat then Some (i, A, e) else None.

Fixpoint prune_shards (n : nat) C : cache_spec V :=
  match n with
  | O => C
  | S n' => let C := prune_shards n' C in
            match shards C !! n' with Some A => put_shard n' (s_prune (order A) A) C | None => C end
  end.

Definition total_usage C : Z := foldr (fun A n => usage A + n) 0 (shards C).

(** [None]: the client used a handle that it does not hold. *)
Definition spec_call (cl : call V) C : option (result V * cache_spec V) :=
  match cl with
  | CInsert k v ch =>
      A ← shards C !! shard_of k;
      let p := fresh (addresses_of C) in
      Some (RHandle (Some p), put_shard (shard_of k) (s_insert (per_shard C) p k v ch A) C)
  | CLookup k => A ← shards C !! shard_of k; let '(h, A) := s_lookup k A in Some (RHandle h, put_shard (shard_of k) (A, []) C)
  | CRelease p => '(i, A, _) ← held_at p C; Some (RNothing, put_shard i (s_release p A) C)
  | CErase k => A ← shards C !! shard_of k; Some (RNothing, put_shard (shard_of k) (s_erase k A) C)
  | CValue p => '(_, _, e) ← held_at p C; Some (RValue (i_value e), C)
  | CNewId => let id := last_id C + 1 in Some (RNumber id, MkSpec (per_shard C) (shards C) id (log C))
  | CPrune => Some (RNothing, prune_shards 16 C)
  | CTotalCharge => Some (RNumber (total_usage C), C)
  end.

Fixpoint spec_calls (cls : list (call V)) C : option (list (result V) * cache_spec V) :=
  match cls with
  | [] => Some ([], C)
  | cl :: cls' => '(r, C) ← spec_call cl C; '(rs, C) ← spec_calls cls' C; Some (r :: rs, C)
  end.

(** The charges of all insertions: their sum fits [size_t]. *)
Definition charge_of (cl : call V) : Z := match cl with CInsert _ _ ch => ch | _ => 0 end.
Definition charges (cls : list (call V)) : Z := foldr (fun cl n => charge_of cl + n) 0 cls.
End Calls.

(** ** What the operations of a shard leave *)

Section Within.
Context {V : Type}.
Implicit Types (A : shard V) (p : positive).

(** The entries of [A'] are entries of [A], with at most [n] more handles each. *)
Record within (n : nat) A A' : Prop := {
  w_length : (length (order A') <= length (order A))%nat;
  w_order q : q ∈ order A' -> q ∈ order A;
  w_live q e' : live A' !! q = Some e' -> exists e, live A !! q = Some e /\ i_key e' = i_key e /\ i_value e' = i_value e /\
    i_charge e' = i_charge e /\ (i_pins e' <= i_pins e + n)%nat;
}.

Lemma within_refl A : within 0 A A.
Proof. split; [done|done|]. intros q e He. exists e. split_and!; done || lia. Qed.

Lemma within_trans n m A1 A2 A3 : within n A1 A2 -> within m A2 A3 -> within (n + m) A1 A3.
Proof.
  intros [H1 H2 H3] [H4 H5 H6]. split; [lia|auto|]. intros q e Hq. destruct (H6 q e Hq) as (e2 & Hq2 & -> & -> & -> & ?). destruct (H3 q e2 Hq2) as (e1 & ? & -> & -> & -> & ?).
  exists e1. split_and!; done || lia.
Qed.

Lemma within_settle p A : within 0 A (settle p A).1.
Proof.
  split; [by rewrite settle_order|intros q; by rewrite settle_order|]. intros q e Hq%settle_live. exists e. split_and!; done || lia.
Qed.

Lemma within_drop p A : within 0 A (drop_entry p A).1.
Proof.
  apply (within_trans 0 0 _ (unlist p A)); [|apply within_settle]. split; cbn [unlist order live].
  - apply (without_length (Some p)).
  - intros q. rewrite in_without. tauto.
  - intros q e He. exists e. split_and!; done || lia.
Qed.

Lemma within_evict cap l A : within 0 A (s_evict cap l A).1.
Proof.
  revert A. induction l as [|p l IH]; intros A; cbn; [apply within_refl|]. destruct (cap <? usage A); [|apply within_refl].
  pose proof (within_drop p A) as Hd. destruct (drop_entry p A) as [A1 d]. specialize (IH A1). destruct (s_evict cap l A1) as [A2 d']. cbn in *. by apply (within_trans 0 0 _ A1).
Qed.

Lemma within_prune l A : within 0 A (s_prune l A).1.
Proof.
  revert A. induction l as [|p l IH]; intros A; cbn; [apply within_refl|].
  assert (within 0 A (if unpinned A p then drop_entry p A else (A, [])).1) as Hd by (destruct (unpinned A p); [apply within_drop|apply within_refl]).
  destruct (if unpinned A p then _ else _) as [A1 d]. specialize (IH A1). destruct (s_prune l A1) as [A2 d']. cbn in *. by apply (within_trans 0 0 _ A1).
Qed.

Lemma within_erase k A : within 0 A (s_erase k A).1.
Proof. unfold s_erase. destruct (find_key k A); [apply within_drop|apply within_refl]. Qed.

Lemma within_repin f n p A : (forall i, (f i <= i + n)%nat) -> within n A (repin f p A).
Proof.
  intros Hf. split; [done|done|]. cbn. intros q e Hq. destruct (decide (p = q)) as [<-|Hne].
  - rewrite lookup_alter_eq in Hq. destruct (live A !! p) as [e0|]; [|done]. injection Hq as <-. exists e0. split_and!; [done..|apply Hf].
  - rewrite lookup_alter_ne in Hq by done. exists e. split_and!; done || lia.
Qed.

Lemma within_release p A : within 0 A (s_release p A).1.
Proof. apply (within_trans 0 0 _ (repin pred p A)); [apply within_repin; intros; cbn; lia|apply within_settle]. Qed.

Lemma within_lookup k A : NoDup (order A) -> within 1 A (s_lookup k A).2.
Proof.
  intros Hn. unfold s_lookup. destruct (find_key k A) as [p|] eqn:Ef; [|split; [done|done|]; intros q e He; exists e; split_and!; done || lia].
  assert (p ∈ order A) as Hp.
  { unfold find_key in Ef. apply head_Some_elem_of in Ef. by apply list_elem_of_filter in Ef as [_ ?]. }
  apply (within_trans 1 0 _ (repin S p A)); [apply within_repin; intros; cbn; lia|]. cbn [snd]. split; cbn [use_entry order repin live].
  - rewrite length_app. cbn [length]. pose proof (without_perm p (order A) Hn Hp) as E%Permutation_length. cbn [length] in E. lia.
  - intros q [Hq| ->%list_elem_of_singleton]%elem_of_app; [by apply in_without in Hq as [_ ?]|done].
  - intros q e He. exists e. split_and!; done || lia.
Qed.

Lemma usage_le n A A' : within n A A' -> (forall p e, live A !! p = Some e -> 0 <= i_charge e) -> usage A' <= usage A.
Proof.
  intros [_ _ Hl] Hc. destruct A as [o m], A' as [o' m']. cbn in *. change (usage (MkShard o' m')) with (usage (MkShard o m')).
  assert (forall q e', m' !! q = Some e' -> exists e, m !! q = Some e /\ i_charge e' = i_charge e) as Hm by (intros q e' Hq; destruct (Hl q e' Hq) as (e & ? & _ & _ & ? & _); eauto).
  clear Hl. revert m Hc Hm. induction m' as [|q e' m' Hq IH] using map_ind; intros m Hc Hm.
  - apply usage_nonneg. exact Hc.
  - destruct (Hm q e' (lookup_insert_eq _ _ _)) as (e & He & Ec). rewrite (usage_delete (<[q := e']> m') o q e') by apply lookup_insert_eq.
    rewrite (usage_delete m o q e) by done. rewrite delete_insert_id by done. rewrite Ec.
    enough (usage (MkShard o m') <= usage (MkShard o (delete q m))) by lia. apply IH.
    + intros p f [_ Hp]%lookup_delete_Some. by eapply Hc.
    + intros p f Hp. assert (p <> q) by (intros ->; congruence). rewrite lookup_delete_ne by done. apply Hm. by rewrite lookup_insert_ne.
Qed.
End Within.

(** ** Representation *)

Section Refine.
Context {V : Type}.
Implicit Types (s : ShardedLRUCache V) (C : cache_spec V) (A B : shard V) (p q : positive) (c : LRU.LRUCache).

(** [n] calls were made, with charges of [b] in all. *)
Record cache_rep (n : nat) (b : Z) s C : Prop := {
  cr_shards : length (shard_ s) = 16%nat;
  cr_spec : length (shards C) = 16%nat;
  cr_rep i c A : shard_ s !! i = Some c -> shards C !! i = Some A ->
    shard_rep (dom (live A)) (LRU.heap (mem s)) c A /\ LRU.capacity_ c = per_shard C;
  cr_apart i j A B p : shards C !! i = Some A -> shards C !! j = Some B -> is_Some (live A !! p) -> is_Some (live B !! p) -> i = j;
  cr_home i A p e : shards C !! i = Some A -> live A !! p = Some e -> shard_of (i_key e) = i;
  cr_mem p : is_Some (LRU.heap (mem s) !! p) -> exists i A, shards C !! i = Some A /\ is_Some (live A !! p);
  cr_id : last_id_ s = last_id C /\ 0 <= last_id C <= Z.of_nat n;
  cr_log : LRU.deleted (mem s) = log C;
  cr_bound i A : shards C !! i = Some A -> (length (order A) <= n)%nat /\ forall p e, live A !! p = Some e -> (i_pins e <= n)%nat;
  cr_total : total_usage C <= b;
}.

(** A representation only depends on the handles of its shard. *)
Lemma rep_frame X H H' c A T x : rep X H c A T x -> (forall q, is_Some (live A !! q) -> H' !! q = H !! q) -> rep (dom (live A)) H' c A T x.
Proof.
  intros [] Hf. split; try done.
  - apply (ring_agree H _ c c); [done| |done|done]. intros q Hq. by rewrite Hf by auto.
  - apply (table_agree H); [done|]. intros q Hq. by rewrite Hf by auto.
  - intros p e Hp. destruct (r_handle p e Hp) as (h & Hh & ?). exists h. by rewrite Hf by (by exists e).
  - intros q Hq Hn. apply elem_of_dom in Hq as [? Hq]. congruence.
  - intros q Hq. by apply elem_of_dom.
Qed.

Lemma total_usage_insert (l : list (shard V)) i A A' : l !! i = Some A ->
  foldr (fun A n => usage A + n) 0 (<[i := A']> l) = foldr (fun A n => usage A + n) 0 l - usage A + usage A'.
Proof.
  revert i. induction l as [|B l IH]; intros [|i]; cbn; [done|done|intros [= ->]; lia|]. intros Hi. rewrite IH by done. lia.
Qed.

Lemma usage_total (l : list (shard V)) i A : Forall (fun A => 0 <= usage A) l -> l !! i = Some A -> usage A <= foldr (fun A n => usage A + n) 0 l.
Proof.
  intros Hf. revert i. induction Hf as [|B l HB Hf IH]; intros [|i]; cbn; [done|done| |].
  - intros [= ->]. enough (0 <= foldr (fun A n => usage A + n) 0 l) by lia. clear -Hf. induction Hf; cbn; lia.
  - intros Hi. specialize (IH i Hi). lia.
Qed.

Lemma shard_exists {n b s C} i : cache_rep n b s C -> (i < 16)%nat -> exists c A, shard_ s !! i = Some c /\ shards C !! i = Some A.
Proof.
  intros Hr Hi. destruct (lookup_lt_is_Some_2 (shard_ s) i) as [c Hc]; [by rewrite (cr_shards _ _ _ _ Hr)|].
  destruct (lookup_lt_is_Some_2 (shards C) i) as [A HA]; [by rewrite (cr_spec _ _ _ _ Hr)|]. eauto.
Qed.

Lemma shard_of_bound k : (shard_of k < 16)%nat.
Proof.
  unfold shard_of, Shard. pose proof (hash_slice_range k). rewrite Z.shiftr_div_pow2 by done. change (2 ^ (32 - kNumShardBits)) with (2 ^ 28).
  assert (HashSlice k / 2 ^ 28 < 16) by (apply Z.div_lt_upper_bound; lia). assert (0 <= HashSlice k / 2 ^ 28) by (apply Z.div_pos; lia). lia.
Qed.

(** A method of one shard. *)
Lemma cache_step n b s C i c A X A' d m' c' n' b' : cache_rep n b s C -> shard_ s !! i = Some c -> shards C !! i = Some A ->
  dom (live A) ⊆ X -> (forall j B q, j <> i -> shards C !! j = Some B -> is_Some (live B !! q) -> q ∉ X) ->
  leaves X (mem s) c A' d m' c' -> (forall q e, live A' !! q = Some e -> shard_of (i_key e) = i) -> (n <= n')%nat ->
  (length (order A') <= n')%nat -> (forall q e, live A' !! q = Some e -> (i_pins e <= n')%nat) -> b + (usage A' - usage A) <= b' ->
  cache_rep n' b' (set_shard s i m' c') (put_shard i (A', d) C).
Proof.
  intros Hr Hc HA HX Hsep (Hr' & Hd & Ho & Hcap) Hhome Hn Hlen Hpins Hb. assert (i < length (shard_ s))%nat as Hi by (by eapply lookup_lt_Some).
  assert (i < length (shards C))%nat as Hi' by (by eapply lookup_lt_Some). destruct Hr. split; cbn [set_shard put_shard shard_ shards mem last_id_ last_id log per_shard fst snd].
  - by rewrite length_insert.
  - by rewrite length_insert.
  - intros j c0 A0. destruct (decide (i = j)) as [<-|Hne].
    + rewrite !list_lookup_insert_eq by done. intros [= <-] [= <-]. split; [by eapply rep_frame|]. rewrite Hcap. by apply (cr_rep0 i c A).
    + rewrite !list_lookup_insert_ne by done. intros Hj HAj. destruct (cr_rep0 j c0 A0 Hj HAj) as [Hrj Hcj]. split; [|done].
      eapply rep_frame; [done|]. intros q Hq. apply Ho. by eapply Hsep.
  - assert (forall j B q, i <> j -> shards C !! j = Some B -> is_Some (live A' !! q) -> is_Some (live B !! q) -> False) as Hap.
    { intros j B q Hne HB HqA HqB. apply (Hsep j B q); [done|done|done|]. by apply (r_dom _ _ _ _ _ _ Hr'). }
    intros j k A0 B0 q. destruct (decide (i = j)) as [<-|Hj], (decide (i = k)) as [<-|Hk]; [done| | |].
    + rewrite list_lookup_insert_eq, list_lookup_insert_ne by done. intros [= <-] HB H1 H2. by destruct (Hap k B0 q).
    + rewrite list_lookup_insert_ne, list_lookup_insert_eq by done. intros HB [= <-] H1 H2. by destruct (Hap j A0 q).
    + rewrite !list_lookup_insert_ne by done. apply cr_apart0.
  - intros j A0 q e. destruct (decide (i = j)) as [<-|Hj]; [rewrite list_lookup_insert_eq by done; intros [= <-]; apply Hhome|].
    rewrite list_lookup_insert_ne by done. apply cr_home0.
  - intros q Hq. destruct (decide (q ∈ X)) as [HqX|HqX].
    + exists i, A'. split; [by rewrite list_lookup_insert_eq|]. destruct (live A' !! q) eqn:E; [by eexists|]. rewrite (r_own _ _ _ _ _ _ Hr' q HqX E) in Hq. by destruct Hq.
    + rewrite Ho in Hq by done. destruct (cr_mem0 q Hq) as (j & B & HB & HqB). exists j, B. split; [|done]. destruct (decide (i = j)) as [<-|Hj]; [|by rewrite list_lookup_insert_ne].
      destruct HqX. apply HX, elem_of_dom. congruence.
  - split; [apply cr_id0|lia].
  - by rewrite Hd, cr_log0.
  - intros j A0. destruct (decide (i = j)) as [<-|Hj]; [rewrite list_lookup_insert_eq by done; by intros [= <-]|].
    rewrite list_lookup_insert_ne by done. intros HA0. destruct (cr_bound0 j A0 HA0) as [H1 H2]. split; [lia|]. intros p e Hp. specialize (H2 p e Hp). lia.
  - unfold total_usage in *. cbn. rewrite (total_usage_insert _ i A) by done. lia.
Qed.

Lemma rep_charge_nonneg n b s C i A : cache_rep n b s C -> shards C !! i = Some A -> forall p e, live A !! p = Some e -> 0 <= i_charge e.
Proof.
  intros Hr HA. assert (i < 16)%nat as Hi by (rewrite <- (cr_spec _ _ _ _ Hr); by eapply lookup_lt_Some).
  destruct (shard_exists i Hr Hi) as (c & A0 & Hc & HA0). rewrite HA in HA0. injection HA0 as <-. destruct (cr_rep _ _ _ _ Hr i c A Hc HA) as [Hs _].
  apply (r_charge _ _ _ _ _ _ Hs).
Qed.

(** A method that only drops entries or handles, or adds one handle. *)
Lemma cache_within n b s C i c A k A' d m' c' : cache_rep n b s C -> shard_ s !! i = Some c -> shards C !! i = Some A ->
  leaves (dom (live A)) (mem s) c A' d m' c' -> within k A A' ->
  cache_rep (n + k) b (set_shard s i m' c') (put_shard i (A', d) C).
Proof.
  intros Hr Hc HA Hl Hw. destruct (cr_bound _ _ _ _ Hr i A HA) as [Hlen Hpins].
  eapply (cache_step n b s C i c A (dom (live A))); [done|done|done|done| |done| | | | |].
  - intros j B q Hj HB HqB HqA%elem_of_dom. by apply Hj, (cr_apart _ _ _ _ Hr j i B A q).
  - intros q e Hq. destruct (w_live _ _ _ Hw q e Hq) as (e0 & He & -> & _). by eapply (cr_home _ _ _ _ Hr).
  - lia.
  - pose proof (w_length _ _ _ Hw). lia.
  - intros q e Hq. destruct (w_live _ _ _ Hw q e Hq) as (e0 & He & _ & _ & _ & ?). specialize (Hpins q e0 He). lia.
  - pose proof (usage_le k A A' Hw (rep_charge_nonneg n b s C i A Hr HA)). lia.
Qed.

Lemma cache_rep_mono n n' b b' s C : (n <= n')%nat -> b <= b' -> cache_rep n b s C -> cache_rep n' b' s C.
Proof.
  intros Hn Hb []. split; try done; [split; [apply cr_id0|lia]| |lia]. intros i A HA. destruct (cr_bound0 i A HA) as [H1 H2]. split; [lia|].
  intros p e Hp. specialize (H2 p e Hp). lia.
Qed.

Lemma rep_bounded n b s C i A : cache_rep n b s C -> Z.of_nat n < 2 ^ 31 -> shards C !! i = Some A -> bounded A.
Proof.
  intros Hr Hn HA. destruct (cr_bound _ _ _ _ Hr i A HA) as [H1 H2]. split; [lia|]. intros p e Hp. specialize (H2 p e Hp). lia.
Qed.

Lemma rep_usage_nonneg n b s C : cache_rep n b s C -> Forall (fun A => 0 <= usage A) (shards C).
Proof. intros Hr. apply Forall_lookup. intros i A HA. apply usage_nonneg. by eapply rep_charge_nonneg. Qed.

(** Memory is the live entries, so that both caches take the same new address. *)
Lemma fresh_address n b s C : cache_rep n b s C -> new_handle (LRU.heap (mem s)) = fresh (addresses_of C).
Proof.
  intros Hr. unfold new_handle. f_equal. apply set_eq. intros p. unfold addresses_of. rewrite elem_of_dom, elem_of_union_list. split.
  - intros Hp. destruct (cr_mem _ _ _ _ Hr p Hp) as (i & A & HA & Hl). exists (dom (live A)). split; [|by apply elem_of_dom].
    apply list_elem_of_fmap. exists A. split; [done|]. by eapply list_elem_of_lookup_2.
  - intros (X & (A & -> & HA)%list_elem_of_fmap & [e He]%elem_of_dom). apply list_elem_of_lookup in HA as [i HA].
    assert (i < 16)%nat as Hi by (rewrite <- (cr_spec _ _ _ _ Hr); by eapply lookup_lt_Some).
    destruct (shard_exists i Hr Hi) as (c & A0 & Hc & HA0). rewrite HA in HA0. injection HA0 as <-.
    destruct (cr_rep _ _ _ _ Hr i c A Hc HA) as [Hs _]. destruct (r_handle _ _ _ _ _ _ Hs p e He) as (h & Hh & _). by exists h.
Qed.

Lemma fresh_not_live n b s C i A : cache_rep n b s C -> shards C !! i = Some A -> live A !! fresh (addresses_of C) = None.
Proof.
  intros Hr HA. apply eq_None_not_Some. intros Hp. apply (is_fresh (addresses_of C)). unfold addresses_of. apply elem_of_union_list.
  exists (dom (live A)). split; [|by apply elem_of_dom]. apply list_elem_of_fmap. exists A. split; [done|]. by eapply list_elem_of_lookup_2.
Qed.

(** The entries after an insertion. *)
Lemma insert_within cap p k v ch A : within 0 (add_entry p k v ch A) (s_insert cap p k v ch A).1.
Proof.
  unfold s_insert. assert (within 0 (add_entry p k v ch A) (match find_key k A with Some o => drop_entry o (add_entry p k v ch A) | None => (add_entry p k v ch A, []) end).1) as H1
    by (destruct (find_key k A); [apply within_drop|apply within_refl]).
  destruct (match find_key k A with Some _ => _ | None => _ end) as [A2 d]. pose proof (within_evict cap (order A2) A2) as H2.
  destruct (s_evict cap (order A2) A2) as [A3 d']. cbn in *. by apply (within_trans 0 0 _ A2).
Qed.

Lemma usage_add p k v ch A : live A !! p = None -> usage (add_entry p k v ch A) = usage A + ch.
Proof.
  intros Hp. unfold add_entry. rewrite (usage_delete _ _ p (MkItem k v ch 1)) by apply lookup_insert_eq. rewrite delete_insert_id by done.
  change (usage (MkShard (order A ++ [p]) (live A))) with (usage A). cbn. lia.
Qed.

Lemma insert_refines n b s C k v ch A : cache_rep n b s C -> Z.of_nat n < 2 ^ 31 - 1 -> 0 <= ch -> b + ch < 2 ^ 64 -> shards C !! shard_of k = Some A ->
  let p := fresh (addresses_of C) in
  exists s', Insert k v ch s = Ret (p, s') /\ cache_rep (S n) (b + ch) s' (put_shard (shard_of k) (s_insert (per_shard C) p k v ch A) C).
Proof.
  intros Hr Hn Hch Hb HA p. pose proof (fresh_address n b s C Hr) as Ep. fold p in Ep. pose proof (fresh_not_live n b s C _ A Hr HA) as Hp. fold p in Hp.
  assert (p = fresh (addresses_of C)) as Efr by done. clearbody p.
  destruct (shard_exists (shard_of k) Hr (shard_of_bound k)) as (c & A0 & Hc & HA0). rewrite HA in HA0. injection HA0 as <-.
  destruct (cr_rep _ _ _ _ Hr _ c A Hc HA) as [Hs Hcap]. set (X := {[p]} ∪ dom (live A)).
  assert (shard_rep X (LRU.heap (mem s)) c A) as HsX.
  { destruct Hs. split; try done.
    - intros q [->%elem_of_singleton|Hq]%elem_of_union Hl; [rewrite <- Ep; apply new_handle_None|by apply r_own].
    - intros q Hq. apply elem_of_union. right. by apply elem_of_dom. }
  destruct (cr_bound _ _ _ _ Hr _ A HA) as [Hlen Hpins].
  pose proof (usage_total _ _ _ (rep_usage_nonneg n b s C Hr) HA) as Hus. pose proof (cr_total _ _ _ _ Hr) as Htot. unfold total_usage in Htot.
  destruct (shard_insert X (mem s) c A k v ch HsX) as (m' & c' & E & Hl); [apply (rep_bounded n b s C (shard_of k)); [done|lia|done]|rewrite Ep; by apply elem_of_union_l, elem_of_singleton|by rewrite Ep|lia|done|lia|].
  rewrite Ep, Hcap in *. unfold Insert. fold (shard_of k). unfold shard_at. rewrite Hc. run. rewrite E. run. eexists. split; [done|].
  destruct (s_insert (per_shard C) p k v ch A) as [A' d] eqn:EA. assert (within 0 (add_entry p k v ch A) A') as Hw by (pose proof (insert_within (per_shard C) p k v ch A) as Hw; by rewrite EA in Hw).
  assert (forall q e, live (add_entry p k v ch A) !! q = Some e -> q = p /\ e = MkItem k v ch 1 \/ live A !! q = Some e) as Hadd.
  { intros q e Hq. cbn in Hq. apply lookup_insert_Some in Hq as [[<- <-]|[_ Hq]]; [by left|by right]. }
  eapply (cache_step n b s C _ c A X); [done|done|done|apply union_subseteq_r| |done| |lia| | |].
  - intros j B q Hj HB HqB [->%elem_of_singleton|HqA%elem_of_dom]%elem_of_union.
    + rewrite Efr, (fresh_not_live n b s C j B) in HqB by done. by destruct HqB.
    + by apply Hj, (cr_apart _ _ _ _ Hr j (shard_of k) B A q).
  - intros q e Hq. destruct (w_live _ _ _ Hw q e Hq) as (e0 & He & -> & _). destruct (Hadd q e0 He) as [[_ ->]|He']; [done|by eapply (cr_home _ _ _ _ Hr)].
  - pose proof (w_length _ _ _ Hw) as Hwl. cbn in Hwl. rewrite length_app in Hwl. cbn in Hwl. lia.
  - intros q e Hq. destruct (w_live _ _ _ Hw q e Hq) as (e0 & He & _ & _ & _ & ?). destruct (Hadd q e0 He) as [[_ ->]|He']; [cbn in *; lia|]. specialize (Hpins q e0 He'). lia.
  - assert (usage A' <= usage (add_entry p k v ch A)) as Hle.
    { apply (usage_le 0); [done|]. intros q e Hq. destruct (Hadd q e Hq) as [[_ ->]|He']; [done|]. by eapply (rep_charge_nonneg n b s C). }
    rewrite usage_add in Hle by done. lia.
Qed.

Lemma lookup_refines n b s C k A : cache_rep n b s C -> Z.of_nat n < 2 ^ 31 -> shards C !! shard_of k = Some A ->
  exists s', Lookup k s = Ret ((s_lookup k A).1, s') /\ cache_rep (S n) b s' (put_shard (shard_of k) ((s_lookup k A).2, []) C).
Proof.
  intros Hr Hn HA. destruct (shard_exists (shard_of k) Hr (shard_of_bound k)) as (c & A0 & Hc & HA0). rewrite HA in HA0. injection HA0 as <-.
  destruct (cr_rep _ _ _ _ Hr _ c A Hc HA) as [Hs Hcap]. destruct (shard_lookup _ (mem s) c A k Hs) as (m' & c' & E & Hl); [by eapply rep_bounded|].
  unfold Lookup. fold (shard_of k). unfold shard_at. rewrite Hc. run. rewrite E. run. eexists. split; [done|]. rewrite <- Nat.add_1_r.
  eapply cache_within; [done|done|done|done|]. apply within_lookup. apply (r_nodup _ _ _ _ _ _ Hs).
Qed.

Lemma erase_refines n b s C k A : cache_rep n b s C -> Z.of_nat n < 2 ^ 31 -> shards C !! shard_of k = Some A ->
  exists s', Erase k s = Ret s' /\ cache_rep n b s' (put_shard (shard_of k) (s_erase k A) C).
Proof.
  intros Hr Hn HA. destruct (shard_exists (shard_of k) Hr (shard_of_bound k)) as (c & A0 & Hc & HA0). rewrite HA in HA0. injection HA0 as <-.
  destruct (cr_rep _ _ _ _ Hr _ c A Hc HA) as [Hs Hcap]. destruct (shard_erase _ (mem s) c A k Hs) as (m' & c' & E & Hl); [by eapply rep_bounded|].
  unfold Erase. fold (shard_of k). unfold shard_at. rewrite Hc. run. rewrite E. run. eexists. split; [done|]. rewrite <- (Nat.add_0_r n).
  pose proof (within_erase k A) as Hw. destruct (s_erase k A) as [A' d]. by eapply cache_within.
Qed.

Lemma held_handle n b s C p i A e : cache_rep n b s C -> held_at p C = Some (i, A, e) -> exists c h, shard_ s !! i = Some c /\ shards C !! i = Some A /\
  live A !! p = Some e /\ (0 < i_pins e)%nat /\ LRU.heap (mem s) !! p = Some h /\ value h = i_value e /\ Shard (hash h) = i.
Proof.
  intros Hr Hh. unfold held_at in Hh. destruct (list_find _ (shards C)) as [[j B]|] eqn:Ef; [|done]. cbn [mbind option_bind] in Hh.
  destruct (live B !! p) as [f|] eqn:El; [|done]. cbn [mbind option_bind] in Hh.
  destruct (Nat.ltb_spec 0 (i_pins f)) as [Hpos|]; [|done]. injection Hh as -> -> ->. apply list_find_Some in Ef as (HA & _ & _).
  assert (i < 16)%nat as Hi by (rewrite <- (cr_spec _ _ _ _ Hr); by eapply lookup_lt_Some).
  destruct (shard_exists i Hr Hi) as (c & A0 & Hc & HA0). rewrite HA in HA0. injection HA0 as <-.
  destruct (cr_rep _ _ _ _ Hr i c A Hc HA) as [Hs _]. destruct (r_handle _ _ _ _ _ _ Hs p e El) as (h & Hh & Hv & _ & _ & Hha & _).
  exists c, h. split_and!; try done. rewrite Hha. by eapply (cr_home _ _ _ _ Hr).
Qed.

Lemma release_refines n b s C p i A e : cache_rep n b s C -> Z.of_nat n < 2 ^ 31 -> held_at p C = Some (i, A, e) ->
  exists s', Release p s = Ret s' /\ cache_rep n b s' (put_shard i (s_release p A) C).
Proof.
  intros Hr Hn Hh. destruct (held_handle n b s C p i A e Hr Hh) as (c & h & Hc & HA & Hp & Hpos & Hph & _ & Hi).
  destruct (cr_rep _ _ _ _ Hr _ c A Hc HA) as [Hs Hcap]. destruct (shard_release _ (mem s) c A p e Hs) as (m' & c' & E & Hl); [by eapply rep_bounded|done|done|].
  unfold Release. rewrite (load_lookup p _ h) by done. run. rewrite Hi. unfold shard_at. rewrite Hc. run. rewrite E. run. eexists. split; [done|]. rewrite <- (Nat.add_0_r n).
  pose proof (within_release p A) as Hw. destruct (s_release p A) as [A' d]. by eapply cache_within.
Qed.

Lemma prune_refines n b s C : cache_rep n b s C -> Z.of_nat n < 2 ^ 31 -> exists s', Prune s = Ret s' /\ cache_rep n b s' (prune_shards 16 C).
Proof.
  intros Hr Hn. unfold Prune. change (Z.to_nat kNumShards) with 16%nat. assert (16 <= 16)%nat as Hle by done. revert Hle. generalize 16%nat at 1 3 4.
  intros j. induction j as [|j IH]; intros Hle; [by exists s|]. destruct IH as (s1 & E1 & Hr1); [lia|]. rewrite seq_S, foldM_app. cbn [Nat.add]. rewrite E1. run. cbn [foldM prune_shards].
  destruct (shard_exists j Hr1) as (c & A & Hc & HA); [lia|]. unfold shard_at. rewrite Hc, HA. run.
  destruct (cr_rep _ _ _ _ Hr1 _ c A Hc HA) as [Hs Hcap]. destruct (shard_prune _ (mem s1) c A Hs) as (m' & c' & -> & Hl); [by eapply rep_bounded|]. run. eexists. split; [done|].
  rewrite <- (Nat.add_0_r n). pose proof (within_prune (order A) A) as Hw. destruct (s_prune (order A) A) as [A' d]. by eapply cache_within.
Qed.

Lemma total_charge_refines n b s C : cache_rep n b s C -> b < 2 ^ 64 -> TotalCharge s = total_usage C.
Proof.
  intros Hr Hb. unfold TotalCharge, total_usage.
  assert (Forall2 (fun c A => LRU.usage_ c = usage A) (shard_ s) (shards C)) as Hf.
  { apply Forall2_same_length_lookup. rewrite (cr_shards _ _ _ _ Hr), (cr_spec _ _ _ _ Hr). split; [done|]. intros i c A Hc HA.
    destruct (cr_rep _ _ _ _ Hr i c A Hc HA) as [Hs _]. apply (r_usage _ _ _ _ _ _ Hs). }
  pose proof (rep_usage_nonneg n b s C Hr) as Hnn. pose proof (cr_total _ _ _ _ Hr) as Ht. unfold total_usage in Ht.
  enough (forall acc, 0 <= acc -> acc + foldr (fun A n => usage A + n) 0 (shards C) < 2 ^ 64 ->
    foldl (fun total c => u64 (total + LRU.TotalCharge c)) acc (shard_ s) = acc + foldr (fun A n => usage A + n) 0 (shards C)) as H by (rewrite H; lia).
  clear -Hf Hnn. induction Hf as [|c A cs As Hu Hf IH]; intros acc Ha Hs; cbn; [lia|]. apply Forall_cons in Hnn as [H1 H2]. cbn in Hs.
  assert (0 <= foldr (fun A n => usage A + n) 0 As) by (clear -H2; induction H2; cbn; lia).
  unfold LRU.TotalCharge at 2. rewrite Hu, u64_small by lia. rewrite IH by (done || lia). lia.
Qed.

Lemma call_refines n b s C cl r C' : cache_rep n b s C -> Z.of_nat n < 2 ^ 31 - 1 -> 0 <= charge_of cl -> b + charge_of cl < 2 ^ 64 ->
  spec_call cl C = Some (r, C') -> exists s', run_call cl s = Ret (r, s') /\ cache_rep (S n) (b + charge_of cl) s' C'.
Proof.
  intros Hr Hn Hc Hb Hs. assert (forall s' C0, cache_rep n b s' C0 -> cache_rep (S n) (b + 0) s' C0) as Hmono by (intros; eapply cache_rep_mono; [| |done]; lia).
  destruct cl as [k v ch|k|p|k|p| | |]; cbn [spec_call run_call charge_of] in *.
  - destruct (shards C !! shard_of k) as [A|] eqn:HA; [|done]. cbn in Hs. injection Hs as <- <-.
    destruct (insert_refines n b s C k v ch A Hr Hn Hc Hb HA) as (s' & -> & Hr'). run. eauto.
  - destruct (shards C !! shard_of k) as [A|] eqn:HA; [|done]. cbn [mbind option_bind] in Hs. destruct (lookup_refines n b s C k A Hr) as (s' & -> & Hr'); [lia|done|].
    run. destruct (s_lookup k A) as [h A']. injection Hs as <- <-. rewrite Z.add_0_r. eauto.
  - destruct (held_at p C) as [[[i A] e]|] eqn:Hh; [|done]. cbn in Hs. injection Hs as <- <-. destruct (release_refines n b s C p i A e Hr) as (s' & -> & Hr'); [lia|done|]. run. eauto.
  - destruct (shards C !! shard_of k) as [A|] eqn:HA; [|done]. cbn in Hs. injection Hs as <- <-. destruct (erase_refines n b s C k A Hr) as (s' & -> & Hr'); [lia|done|]. run. eauto.
  - destruct (held_at p C) as [[[i A] e]|] eqn:Hh; [|done]. cbn in Hs. injection Hs as <- <-. destruct (held_handle n b s C p i A e Hr Hh) as (c & h & _ & _ & _ & _ & Hp & Hv & _).
    unfold Value. rewrite (load_lookup p _ h) by done. run. rewrite Hv. eauto.
  - injection Hs as <- <-. destruct (cr_id _ _ _ _ Hr) as [Hi Hid]. unfold NewId. rewrite Hi, u64_small by lia. eexists. split; [done|].
    destruct Hr. split; try done; cbn [last_id last_id_ shards shard_ mem log]; [lia| |unfold total_usage in *; cbn; lia].
    intros i A HA. destruct (cr_bound0 i A HA) as [H1 H2]. split; [lia|]. intros p e Hp. specialize (H2 p e Hp). lia.
  - destruct (prune_refines n b s C Hr) as (s' & -> & Hr'); [lia|]. run. remember (prune_shards 16 C) as C1 eqn:E. clear E. injection Hs as <- <-. eauto.
  - injection Hs as <- <-. rewrite (total_charge_refines n b s C) by (done || lia). eauto.
Qed.

(** *** Entries are neither lost nor made up *)

Definition kv_of (e : item V) : bytes * V := (i_key e, i_value e).
Definition entries A : list (bytes * V) := (fun pe => kv_of pe.2) <$> map_to_list (live A).

Lemma entries_delete o o' (m : gmap positive (item V)) p e : m !! p = Some e -> entries (MkShard o m) ≡ₚ kv_of e :: entries (MkShard o' (delete p m)).
Proof. intros Hp. unfold entries. cbn [live]. rewrite <- (map_to_list_delete m p e Hp). done. Qed.

Lemma entries_repin f p A : entries (repin f p A) ≡ₚ entries A.
Proof.
  destruct A as [o m]. unfold repin. cbn [order live]. destruct (m !! p) as [e|] eqn:Hp.
  - rewrite (entries_delete o o (alter _ _ _) p (set_pins f e)) by (by rewrite lookup_alter_eq, Hp). rewrite (entries_delete o o m p e) by done. by rewrite delete_alter_eq.
  - by rewrite alter_id by (intros ? E; rewrite Hp in E; done).
Qed.

Lemma entries_settle p A : (settle p A).2 ++ entries (settle p A).1 ≡ₚ entries A.
Proof.
  unfold settle. destruct (live A !! p) as [e|] eqn:Hp; [|done]. destruct (decide _); [|done]. cbn. destruct A as [o m]. by rewrite (entries_delete o o m p e).
Qed.

Lemma entries_drop p A : (drop_entry p A).2 ++ entries (drop_entry p A).1 ≡ₚ entries A.
Proof. apply (entries_settle p (unlist p A)). Qed.

Lemma entries_evict cap l A : (s_evict cap l A).2 ++ entries (s_evict cap l A).1 ≡ₚ entries A.
Proof.
  revert A. induction l as [|p l IH]; intros A; cbn; [done|]. destruct (cap <? usage A); [|done]. pose proof (entries_drop p A) as Hd. destruct (drop_entry p A) as [A1 d].
  specialize (IH A1). destruct (s_evict cap l A1) as [A2 d']. cbn in *. by rewrite <- app_assoc, IH.
Qed.

Lemma entries_prune l A : (s_prune l A).2 ++ entries (s_prune l A).1 ≡ₚ entries A.
Proof.
  revert A. induction l as [|p l IH]; intros A; cbn; [done|].
  assert ((if unpinned A p then drop_entry p A else (A, [])).2 ++ entries (if unpinned A p then drop_entry p A else (A, [])).1 ≡ₚ entries A) as Hd by (destruct (unpinned A p); [apply entries_drop|done]).
  destruct (if unpinned A p then _ else _) as [A1 d]. specialize (IH A1). destruct (s_prune l A1) as [A2 d']. cbn in *. by rewrite <- app_assoc, IH.
Qed.

Lemma entries_insert cap p k v ch A : live A !! p = None -> (s_insert cap p k v ch A).2 ++ entries (s_insert cap p k v ch A).1 ≡ₚ (k, v) :: entries A.
Proof.
  intros Hp. assert (entries (add_entry p k v ch A) ≡ₚ (k, v) :: entries A) as Ea.
  { unfold add_entry. rewrite (entries_delete _ [] _ p (MkItem k v ch 1)) by apply lookup_insert_eq. by rewrite delete_insert_id. }
  rewrite <- Ea. unfold s_insert.
  set (D := match find_key k A with Some o => drop_entry o (add_entry p k v ch A) | None => (add_entry p k v ch A, []) end).
  assert (D.2 ++ entries D.1 ≡ₚ entries (add_entry p k v ch A)) as H1 by (unfold D; destruct (find_key k A); [apply entries_drop|done]).
  destruct D as [A2 d]. pose proof (entries_evict cap (order A2) A2) as H2. destruct (s_evict cap (order A2) A2) as [A3 d']. cbn in *. by rewrite <- app_assoc, H2.
Qed.

(** What was inserted is what was deleted and what is live. *)
Definition all_entries C : list (bytes * V) := log C ++ concat (entries <$> shards C).
Definition inserted (cls : list (call V)) : list (bytes * V) := omap (fun cl => match cl with CInsert k v _ => Some (k, v) | _ => None end) cls.

Lemma entries_put i A D C extra : shards C !! i = Some A -> D.2 ++ entries D.1 ≡ₚ extra ++ entries A -> all_entries (put_shard i D C) ≡ₚ extra ++ all_entries C.
Proof.
  intros HA E. unfold all_entries. cbn [put_shard log shards]. rewrite <- (take_drop_middle (shards C) i A HA) at 2.
  rewrite insert_take_drop by (by eapply lookup_lt_Some). rewrite !fmap_app, !fmap_cons, !concat_app. cbn [concat].
  rewrite (Permutation_app_comm (concat (entries <$> take i (shards C)))). rewrite (Permutation_app_comm (concat (entries <$> take i (shards C)))).
  rewrite <- !app_assoc. rewrite (app_assoc D.2), E. rewrite <- app_assoc. by rewrite (Permutation_app_swap_app (log C) extra).
Qed.

Lemma entries_prune_shards n C : all_entries (prune_shards n C) ≡ₚ all_entries C.
Proof.
  induction n as [|n IH]; cbn [prune_shards]; [done|]. destruct (shards (prune_shards n C) !! n) as [A|] eqn:HA; [|done].
  rewrite (entries_put n A _ _ []); [done|done|]. apply entries_prune.
Qed.

Lemma call_entries n b s C cl r C' : cache_rep n b s C -> spec_call cl C = Some (r, C') -> all_entries C' ≡ₚ inserted [cl] ++ all_entries C.
Proof.
  intros Hr Hs. destruct cl as [k v ch|k|p|k|p| | |]; cbn [spec_call inserted omap list_omap] in *.
  - destruct (shards C !! shard_of k) as [A|] eqn:HA; [|done]. cbn in Hs. injection Hs as _ <-. apply (entries_put _ A); [done|]. apply entries_insert. by eapply fresh_not_live.
  - destruct (shards C !! shard_of k) as [A|] eqn:HA; [|done]. cbn [mbind option_bind] in Hs. destruct (s_lookup k A) as [h A'] eqn:EA. injection Hs as _ <-. apply (entries_put _ A _ _ []); [done|]. cbn.
    unfold s_lookup in EA. destruct (find_key k A) as [p|]; injection EA as _ <-; [|done]. apply (entries_repin S p A).
  - destruct (held_at p C) as [[[i A] e]|] eqn:Hh; [|done]. cbn in Hs. injection Hs as _ <-. destruct (held_handle n b s C p i A e Hr Hh) as (c & h & _ & HA & _).
    apply (entries_put _ A _ _ []); [done|]. unfold s_release. by rewrite (entries_settle p (repin pred p A)), entries_repin.
  - destruct (shards C !! shard_of k) as [A|] eqn:HA; [|done]. cbn in Hs. injection Hs as _ <-. apply (entries_put _ A _ _ []); [done|]. unfold s_erase. destruct (find_key k A); [apply entries_drop|done].
  - destruct (held_at p C) as [[[i A] e]|]; [|done]. cbn in Hs. by injection Hs as _ <-.
  - by injection Hs as _ <-.
  - pose proof (entries_prune_shards 16 C) as E. remember (prune_shards 16 C) as C1 eqn:E1. clear E1. injection Hs as _ <-. done.
  - by injection Hs as _ <-.
Qed.
Lemma charges_nonneg (cls : list (call V)) : Forall (fun cl => 0 <= charge_of cl) cls -> 0 <= charges cls.
Proof. intros H. unfold charges. induction H; cbn; lia. Qed.

Lemma calls_refine cls : forall n b s C rs C', cache_rep n b s C -> Z.of_nat n + Z.of_nat (length cls) < 2 ^ 31 -> Forall (fun cl => 0 <= charge_of cl) cls ->
  b + charges cls < 2 ^ 64 -> spec_calls cls C = Some (rs, C') -> exists s', run_calls cls s = Ret (rs, s') /\ cache_rep (n + length cls) (b + charges cls) s' C' /\
    all_entries C' ≡ₚ inserted cls ++ all_entries C.
Proof.
  induction cls as [|cl cls IH]; intros n b s C rs C' Hr Hn Hf Hb Hs; cbn in Hs.
  { injection Hs as <- <-. exists s. split; [done|]. split; [|done]. eapply cache_rep_mono; [| |done]; cbn; lia. }
  apply Forall_cons in Hf as [Hc Hf]. pose proof (charges_nonneg cls Hf). cbn in Hb, Hn.
  destruct (spec_call cl C) as [[r C1]|] eqn:E1; [|done]. cbn in Hs. destruct (spec_calls cls C1) as [[rs1 C2]|] eqn:E2; [|done]. cbn in Hs. injection Hs as <- <-.
  destruct (call_refines n b s C cl r C1 Hr) as (s1 & R1 & Hr1); [lia|done|fold (charges cls) in Hb; lia|done|].
  destruct (IH (S n) (b + charge_of cl) s1 C1 rs1 C2 Hr1) as (s2 & R2 & Hr2 & Hent); [lia|done|fold (charges cls) in Hb; lia|done|].
  cbn [run_calls]. rewrite R1. run. rewrite R2. run. eexists. split; [done|]. split; [eapply cache_rep_mono; [| |done]; cbn; fold (charges cls); lia|].
  rewrite Hent, (call_entries n b s C cl r C1 Hr E1). rewrite app_assoc, (Permutation_app_comm (inserted cls)). f_equiv. unfold inserted. cbn. by destruct cl.
Qed.

Lemma new_cache_rep capacity : 0 <= capacity -> capacity + 15 < 2 ^ 64 -> exists s, NewLRUCache (V := V) capacity = Ret s /\ cache_rep 0 0 s (new_spec capacity).
Proof.
  intros Hc Hmax. unfold NewLRUCache. change (Z.to_nat kNumShards) with 16%nat. change kNumShards with 16. rewrite u64_small by lia. change (16 - 1) with 15.
  set (per := (capacity + 15) / 16).
  assert (forall j, exists cs, foldM (fun _ '(cs, H) => '(c, H) ← LRU.new H; Ret (cs ++ [LRU.SetCapacity per c], H)) (seq 0 j) ([], ∅ : handles V) = Ret (cs, ∅) /\ length cs = j /\
    Forall (fun c => shard_rep ∅ (∅ : handles V) c (MkShard [] ∅) /\ LRU.capacity_ c = per) cs) as Hloop.
  { induction j as [|j (cs & E & Hl & Hf)]; [by exists []|]. rewrite seq_S, foldM_app, E. run. cbn [foldM]. unfold LRU.new.
    destruct (table_new_spec (∅ : handles V)) as (t & -> & Ht). run. eexists. split; [done|]. split; [rewrite length_app; cbn; lia|].
    apply Forall_app. split; [done|]. constructor; [|done]. split; [|done]. split; cbn; try done; try constructor; try by intros p ?%elem_of_nil. by intros q [? ?]. }
  destruct (Hloop 16%nat) as (cs & -> & Hl & Hf). run. eexists. split; [done|].
  assert (forall i A, replicate 16 (MkShard [] ∅) !! i = Some A -> A = MkShard [] (∅ : gmap positive (item V))) as Hrep by (intros i A [-> _]%lookup_replicate; done).
  split; cbn [shard_ shards mem last_id last_id_ log new_spec LRU.heap LRU.deleted per_shard]; try done.
  - intros i c A Hi ->%Hrep. rewrite Forall_lookup in Hf. cbn. rewrite dom_empty_L. by apply (Hf i).
  - by intros i j A B p ->%Hrep _ [? ?].
  - by intros i A p e ->%Hrep.
  - by intros p [? ?].
  - by intros i A ->%Hrep.
Qed.

(** C21: the cache of LevelDB is a sharded LRU cache with reference counts.  Any calls of
    Insert, Lookup, Release, Erase, Value, NewId, Prune and TotalCharge by clients that
    only use handles they hold, fewer than [2 ^ 31] and with charges that add up to less
    than [2 ^ 64], return what the abstract cache returns, give the same entries to
    their deleters in the same order, and neither fail an assertion nor touch a handle
    that was freed. *)
Theorem cache_refines_lru capacity cls rs C : 0 <= capacity -> capacity + 15 < 2 ^ 64 -> Z.of_nat (length cls) < 2 ^ 31 ->
  Forall (fun cl => 0 <= charge_of cl) cls -> charges cls < 2 ^ 64 -> spec_calls (V := V) cls (new_spec capacity) = Some (rs, C) ->
  exists s0 s, NewLRUCache capacity = Ret s0 /\ run_calls cls s0 = Ret (rs, s) /\ LRU.deleted (mem s) = log C.
Proof.
  intros H1 H2 H3 H4 H5 Hs. destruct (new_cache_rep capacity H1 H2) as (s0 & E0 & Hr0).
  destruct (calls_refine cls 0 0 s0 (new_spec capacity) rs C Hr0) as (s & E & Hr & _); [lia|done|lia|done|].
  exists s0, s. split_and!; [done|done|apply (cr_log _ _ _ _ Hr)].
Qed.


(** ** Destruction *)

(** Handles on the rest of the list, with the cache's reference only. *)
Definition last_refs (kv : positive -> option (bytes * V)) (l : list positive) (H : handles V) : Prop :=
  forall l1 p l2, l = l1 ++ p :: l2 -> exists h, H !! p = Some h /\ next h = head_link l2 /\ next h <> At p /\ refs h = 1 /\ kv p = Some (key_data h, value h).

Lemma destroy_loop kv l : forall n m c, NoDup l -> last_refs kv l (LRU.heap m) -> (length l <= n)%nat -> exists m' c', LRU.destroy n (head_link l) m c = Ret (m', c') /\
  LRU.deleted m' = LRU.deleted m ++ omap kv l /\ (forall q, LRU.heap m' !! q = if decide (q ∈ l) then None else LRU.heap m !! q).
Proof.
  induction l as [|p l IH]; intros n m c Hn Hl Hf; [exists m, c; rewrite app_nil_r; by destruct n|]. destruct n as [|n]; [cbn in Hf; lia|].
  apply NoDup_cons in Hn as [Hp Hn]. destruct (Hl [] p l eq_refl) as (h & Hh & Hnx & Hne & Hrf & Ekv). cbn [head_link LRU.destroy].
  rewrite (load_lookup p _ h) by done. run. rewrite Hrf. cbn [Z.eqb Pos.eqb]. unfold LRU.Unref. rewrite (load_lookup p _ h) by done. run. rewrite Hrf. cbn [Z.ltb Z.compare].
  rewrite (store_lookup p _ _ h) by done. run. rewrite (load_lookup p _ (with_refs (u32 (1 - 1)) h)) by apply lookup_insert_eq. run. cbn [refs with_refs]. change (u32 (1 - 1) <=? 0) with true.
  rewrite (key_lookup p _ (with_refs (u32 (1 - 1)) h)); [|apply lookup_insert_eq|done]. run. cbn [value key_data with_refs]. rewrite delete_insert_eq, Hnx.
  set (m1 := LRU.Mem (delete p (LRU.heap m)) (LRU.deleted m ++ [(key_data h, value h)])).
  destruct (IH n m1 (LRU.set_usage c (u64 (LRU.usage_ c - charge h))) Hn) as (m' & c' & E & Hd & Hh').
  - intros l1 q l2 El. destruct (Hl (p :: l1) q l2) as (h' & Hq & ?); [by rewrite El|]. exists h'. cbn [LRU.heap m1]. rewrite lookup_delete_ne; [done|]. intros ->. set_solver.
  - cbn in Hf. lia.
  - cbn [charge with_refs]. rewrite E. exists m', c'. split_and!; [done|rewrite Hd; cbn; rewrite Ekv; by rewrite <- app_assoc|]. intros q. rewrite Hh'. cbn [LRU.heap m1].
    destruct (decide (q ∈ l)) as [Hq|Hq], (decide (q ∈ p :: l)) as [Hq'|Hq']; [done|set_solver| |].
    + apply elem_of_cons in Hq' as [->|?]; [|done]. apply lookup_delete_eq.
    + rewrite lookup_delete_ne; [done|]. intros ->. set_solver.
Qed.

Definition no_pins A : Prop := forall p e, live A !! p = Some e -> i_pins e = 0%nat.

Definition no_pinsb A : bool := forallb (fun pe => (i_pins pe.2 =? 0)%nat) (map_to_list (live A)).

Lemma no_pinsb_ok A : no_pinsb A = true -> no_pins A.
Proof.
  intros Hf p e Hp%elem_of_map_to_list%list_elem_of_In. unfold no_pinsb in Hf. rewrite forallb_forall in Hf. by apply Nat.eqb_eq, (Hf (p, e)).
Qed.

Lemma omap_fst (kv : positive -> option (bytes * V)) l : (forall p e, (p, e) ∈ l -> kv p = Some (kv_of e)) -> omap kv l.*1 = (fun pe => kv_of pe.2) <$> l.
Proof.
  induction l as [|[p e] l IH]; intros Hl; [done|]. cbn. rewrite (Hl p e) by (by left). f_equal. apply IH. intros q f Hq. apply Hl. by right.
Qed.

Lemma unpinned_order X H c A : shard_rep X H c A -> no_pins A -> order A ≡ₚ (map_to_list (live A)).*1.
Proof.
  intros Hr Hnp. apply NoDup_Permutation; [apply (r_nodup _ _ _ _ _ _ Hr)|apply NoDup_fst_map_to_list|]. intros p. rewrite list_elem_of_fmap. split.
  - intros Hp. destruct (r_order _ _ _ _ _ _ Hr p Hp) as [e He]. exists (p, e). split; [done|]. by apply elem_of_map_to_list.
  - intros ([q e] & -> & Hq%elem_of_map_to_list). cbn. pose proof (r_used _ _ _ _ _ _ Hr q e Hq) as Hu. unfold ref_count in Hu.
    rewrite (Hnp q e Hq), (bool_decide_eq_false_2 (None = Some q)) in Hu by done. destruct (bool_decide (q ∈ order A)) eqn:Eb; [by apply bool_decide_eq_true in Eb|]. cbn in Hu. lia.
Qed.

Lemma shard_destroy X m c A : shard_rep X (LRU.heap m) c A -> no_pins A -> exists m' c', LRU.destroy (size (LRU.heap m)) (LRU.lru_next c) m c = Ret (m', c') /\
  LRU.deleted m' ≡ₚ LRU.deleted m ++ entries A /\ (forall q, LRU.heap m' !! q = if decide (is_Some (live A !! q)) then None else LRU.heap m !! q).
Proof.
  intros Hr Hnp. pose proof (unpinned_order X _ c A Hr Hnp) as Eo. set (kv := fun p => kv_of <$> live A !! p). rewrite (ring_first _ _ _ (r_ring _ _ _ _ _ _ Hr)).
  destruct (destroy_loop kv (order A) (size (LRU.heap m)) m c) as (m' & c' & E & Hd & Hh); [apply (r_nodup _ _ _ _ _ _ Hr)| |by eapply rep_size|].
  - intros l1 p l2 El. assert (p ∈ order A) as Hp by (rewrite El; set_solver). destruct (r_order _ _ _ _ _ _ Hr p Hp) as [e He].
    destruct (r_handle _ _ _ _ _ _ Hr p e He) as (h & Hph & Hv & _ & Hk & _ & Hrf & Hnx). exists h. pose proof (r_ring _ _ _ _ _ _ Hr) as Hring. rewrite El in Hring.
    split_and!; [done|by eapply ring_next|done| |unfold kv; rewrite He; cbn; unfold kv_of; by rewrite Hk, Hv].
    rewrite Hrf. unfold ref_count. rewrite (Hnp p e He), (bool_decide_eq_true_2 (p ∈ order A)), (bool_decide_eq_false_2 (None = Some p)) by done. done.
  - exists m', c'. split; [done|]. split.
    + rewrite Hd. f_equiv. unfold entries. rewrite <- (omap_fst kv); [by rewrite Eo|]. intros p e Hp%elem_of_map_to_list. unfold kv. by rewrite Hp.
    + intros q. rewrite Hh. assert (q ∈ order A <-> is_Some (live A !! q)) as Hiff.
      { split; [apply (r_order _ _ _ _ _ _ Hr)|]. intros [e He]. rewrite Eo. apply list_elem_of_fmap. exists (q, e). split; [done|]. by apply elem_of_map_to_list. }
      destruct (decide (q ∈ order A)), (decide (is_Some (live A !! q))); tauto.
Qed.

Lemma destroy_shards As : forall cs m, Forall2 (fun c A => shard_rep (dom (live A)) (LRU.heap m) c A) cs As -> Forall no_pins As ->
  (forall i j A B p, As !! i = Some A -> As !! j = Some B -> is_Some (live A !! p) -> is_Some (live B !! p) -> i = j) ->
  exists m', foldM (fun c m => '(m, _) ← LRU.destroy (size (LRU.heap m)) (LRU.lru_next c) m c; Ret m) (rev cs) m = Ret m' /\
    LRU.deleted m' ≡ₚ LRU.deleted m ++ concat (entries <$> As) /\
    (forall q, is_Some (LRU.heap m' !! q) -> is_Some (LRU.heap m !! q) /\ forall A, A ∈ As -> live A !! q = None).
Proof.
  induction As as [|A As IH] using rev_ind; intros cs m Hf Hnp Hap.
  { apply Forall2_nil_inv_r in Hf as ->. exists m. cbn. rewrite app_nil_r. split_and!; [done|done|]. intros q Hq. split; [done|]. by intros A ?%elem_of_nil. }
  apply Forall2_app_inv_r in Hf as (cs' & cs1 & Hf & Hf1 & ->). apply Forall2_cons_inv_r in Hf1 as (c & cs2 & Hc & Hf2 & ->). apply Forall2_nil_inv_r in Hf2 as ->.
  apply Forall_app in Hnp as [Hnp HnA]. apply Forall_cons in HnA as [HnA _]. rewrite rev_app_distr. cbn [rev app foldM].
  destruct (shard_destroy _ m c A Hc HnA) as (m1 & c1 & -> & Hd1 & Hh1). run.
  assert (forall i B q, As !! i = Some B -> is_Some (live B !! q) -> live A !! q = None) as Hsep.
  { intros i B q HB HqB. apply eq_None_not_Some. intros HqA. assert (i < length As)%nat as Hi by (by eapply lookup_lt_Some).
    assert (i = length As); [|lia]. apply (Hap i (length As) B A q); [by rewrite lookup_app_l|by apply list_lookup_middle|done|done]. }
  destruct (IH cs' m1) as (m' & E & Hd & Hh); [|done| |].
  - apply Forall2_same_length_lookup in Hf as [Hlen Hf]. apply Forall2_same_length_lookup. split; [done|]. intros i c0 B Hc0 HB. eapply rep_frame; [by eapply Hf|].
    intros q Hq. rewrite Hh1, decide_False; [done|]. rewrite (Hsep i B q HB Hq). by intros [? ?].
  - intros i j A0 B0 q HA0 HB0. apply Hap; [rewrite lookup_app_l; [done|by eapply lookup_lt_Some]|rewrite lookup_app_l; [done|by eapply lookup_lt_Some]].
  - exists m'. split_and!; [done| |].
    + rewrite Hd, Hd1, fmap_app, concat_app. cbn. rewrite app_nil_r, <- app_assoc. f_equiv. apply Permutation_app_comm.
    + intros q Hq. destruct (Hh q Hq) as [Hq1 HqA]. rewrite Hh1 in Hq1. destruct (decide (is_Some (live A !! q))) as [|Hn]; [by destruct Hq1|]. split; [done|].
      intros B [HB| ->%list_elem_of_singleton]%elem_of_app; [by apply HqA|]. by apply eq_None_not_Some.
Qed.

(** C22: the cache never leaks and never deletes twice.  After any calls as above, once the
    clients have released all their handles, the destructor runs without failing its
    assertion that nobody holds a handle, leaves no memory allocated, and over the whole
    life of the cache every value that was inserted went to its deleter exactly as often
    as it was inserted, whether it was evicted, replaced, erased, pruned or kept to the
    end. *)
Theorem cache_deletes_once capacity cls rs C : 0 <= capacity -> capacity + 15 < 2 ^ 64 -> Z.of_nat (length cls) < 2 ^ 31 ->
  Forall (fun cl => 0 <= charge_of cl) cls -> charges cls < 2 ^ 64 -> spec_calls (V := V) cls (new_spec capacity) = Some (rs, C) -> Forall no_pins (shards C) ->
  exists s0 s m, NewLRUCache capacity = Ret s0 /\ run_calls cls s0 = Ret (rs, s) /\ destroy_cache s = Ret m /\
    LRU.heap m = ∅ /\ LRU.deleted m ≡ₚ inserted cls.
Proof.
  intros H1 H2 H3 H4 H5 Hs Hnp. destruct (new_cache_rep capacity H1 H2) as (s0 & E0 & Hr0).
  destruct (calls_refine cls 0 0 s0 (new_spec capacity) rs C Hr0) as (s & E & Hr & Hent); [lia|done|lia|done|].
  destruct (destroy_shards (shards C) (shard_ s) (mem s)) as (m & Em & Hd & Hh); [|done|apply (cr_apart _ _ _ _ Hr)|].
  { apply Forall2_same_length_lookup. rewrite (cr_shards _ _ _ _ Hr), (cr_spec _ _ _ _ Hr). split; [done|]. intros i c A Hc HA. by apply (cr_rep _ _ _ _ Hr i c A). }
  exists s0, s, m. split_and!; [done|done|done| |].
  - apply map_eq. intros q. rewrite lookup_empty. apply eq_None_not_Some. intros Hq. destruct (Hh q Hq) as [Hq' Hn].
    destruct (cr_mem _ _ _ _ Hr q Hq') as (i & A & HA & Hl). rewrite (Hn A) in Hl by (by eapply list_elem_of_lookup_2). by destruct Hl.
  - rewrite Hd, (cr_log _ _ _ _ Hr). change (log C ++ concat (entries <$> shards C)) with (all_entries C). rewrite Hent.
    change (all_entries (new_spec capacity)) with (@nil (bytes * V)). by rewrite app_nil_r.
Qed.
End Refine.

(** Two values under one key, the first of them held after it was replaced; an entry
    that is larger than its shard; a release that is the last. *)
Definition sample_calls : list (call Z) :=
  [CInsert [x01] 7 1; CInsert [x01] 8 1; CLookup [x01]; CValue 1; CRelease 1; CRelease 2; CTotalCharge; CErase [x01]; CValue 2; CRelease 2;
   CNewId; CInsert [x02] 9 5; CLookup [x02]; CValue 1; CRelease 1; CInsert [x03] 10 1; CRelease 1; CPrune; CInsert [x04] 11 1; CRelease 1].

Definition sample_results : list (result Z) :=
  [RHandle (Some 1%positive); RHandle (Some 2%positive); RHandle (Some 2%positive); RValue 7; RNothing; RNothing; RNumber 1; RNothing; RValue 8; RNothing;
   RNumber 1; RHandle (Some 1%positive); RHandle None; RValue 9; RNothing; RHandle (Some 1%positive); RNothing; RNothing; RHandle (Some 1%positive); RNothing].

Lemma cache_refines_lru_witness : exists s0 s, NewLRUCache 32 = Ret s0 /\ run_calls sample_calls s0 = Ret (sample_results, s) /\
  LRU.deleted (mem s) = [([x01], 7); ([x01], 8); ([x02], 9); ([x03], 10)].
Proof.
  destruct (spec_calls sample_calls (new_spec 32)) as [[rs C]|] eqn:E; [|by vm_compute in E].
  destruct (cache_refines_lru 32 sample_calls rs C) as (s0 & s & E0 & Er & Hd); [lia|lia|cbn; lia|by repeat constructor|cbn; lia|done|].
  assert (rs = sample_results /\ log C = [([x01], 7); ([x01], 8); ([x02], 9); ([x03], 10)]) as [Hrs Hlog] by (vm_compute in E; injection E as <- <-; by vm_compute).
  exists s0, s. rewrite <- Hrs, <- Hlog. split_and!; assumption.
Defined.

Lemma cache_deletes_once_witness : exists s0 s m, NewLRUCache 32 = Ret s0 /\ run_calls sample_calls s0 = Ret (sample_results, s) /\ destroy_cache s = Ret m /\
  LRU.heap m = ∅ /\ LRU.deleted m ≡ₚ [([x01], 7); ([x01], 8); ([x02], 9); ([x03], 10); ([x04], 11)].
Proof.
  destruct (spec_calls sample_calls (new_spec 32)) as [[rs C]|] eqn:E; [|by vm_compute in E].
  assert (rs = sample_results /\ forallb no_pinsb (shards C) = true) as [-> Hnp] by (vm_compute in E; injection E as <- <-; vm_compute; done).
  destruct (cache_deletes_once 32 sample_calls sample_results C) as (s0 & s & m & E0 & Er & Em & Hh & Hd);
    [lia|lia|cbn; lia|by repeat constructor|cbn; lia|done| |].
  - apply Forall_forall. intros A HA%list_elem_of_In. apply no_pinsb_ok. rewrite forallb_forall in Hnp. by apply Hnp.
  - exists s0, s, m. split_and!; assumption.
Defined.
